(* ===== verification/_CoqProject ===== *)
-Q . S2P
Prelude.v
SList.v
Text.v
BtreePage.v
Wal.v
Pager.v
PagerProofs.v
Store.v
Txn.v
Db.v
DbProofs.v
DbScan.v
DbSplit.v
DbInsert.v
Engine.v
Lru.v
Json.v
Jwt.v
TodoIndex.v
KvEngine.v
Selection.v
HttpTypes.v
HttpText.v
HttpDate.v
Connection.v
HttpRequest.v
HttpFrame.v
HttpResponse.v
WebSocket.v
Route.v
Worker.v
WorkerProofs.v
WorkerList.v
Pipeline.v
Handlers.v
Crypto.v
Users.v
TodoCache.v
Todos.v
TodoProofs.v
ThreadPool.v
PoolProofs.v
Balancer.v
BalancerProofs.v
ProxyLink.v
Weights.v
Config.v
ConfigProofs.v
Double.v
RateLimit.v
RateProofs.v
Metrics.v
App.v
AppProofs.v
StorageProps.v
ServiceProps.v
NetProps.v
ServerProps.v
AppProps.v
RuntimeProps.v
ConfigProps.v
SystemProps.v
