(* ===== verification/Prelude.v ===== *)
(** * Codo: a verification library for its storage engine and services

    Codo is an HTTP server for todo lists, written in C, with its own embedded
    storage engine, a cache, token authentication and a load balancer. This
    library models the parts that carry its own logic as Rocq functions that
    run, and proves what makes each part correct.

    ** The program and its model

    The storage engine (src/storage) is a B+-tree of 4 KiB pages behind a
    buffer pool, with a write-ahead log and a list of transactions. Layers
    from the bottom:

    - [BtreePage] (btree.c, the page structures of storage_internal.h): one
      page as its 72-byte header and its 4024 data bytes; search, insert,
      delete and split of packed key-value pairs at byte level. [page_repr]
      relates the bytes to a list of entries.
    - [Wal] (wal.c): the log buffer and file. [write()]'s answers are a list of
      results the loop consumes (EINTR, error, zero, short count), so every
      error path is a run of the model. [wal_repr] says which records file and
      buffer hold; [parse_log] is a reader for the format, a specification.
    - [Pager], [PagerProofs] (pager.c): buffer frames, hash chains linked by
      frame index, victim selection by last access, write-back, load,
      checksums, pins, page allocation. [pager_inv] is the pool's invariant.
    - [Store]: the interface [PageStore] the tree is written against, its laws
      [PageStoreLaws], and the pager as an instance. [page_equiv] is equality
      up to the header fields a checksum and a log position may change.
    - [Txn] (txn.c): transaction handles as heap cells chained into the active
      list; [SList] has the lemmas on such chains, shared with [Lru].
    - [Db] (db.c): descent, root growth, separator insertion, node splits,
      [db_insert], [db_search], [db_delete] and the scans. [DbProofs] has the
      tree invariant [db_inv] and point operations, [DbScan] the scans,
      [DbSplit] and [DbInsert] splits and insertion.
    - [Engine] (engine.c): start-up, page-allocator recovery, checkpoint,
      shutdown.

    The network side:

    - [HttpTypes], [HttpText], [HttpDate] (http_types.h, util.c): requests,
      responses, path checks, percent-decoding, dates.
    - [Connection] (connection.c): buffers and their growth.
    - [HttpRequest], [HttpFrame], [HttpResponse] (http_protocol.c, mime.c):
      framing on the raw bytes, parsing, that the two agree, and responses.
    - [WebSocket] (websocket.c), [Route] (route.c, middleware.c, auth.c).
    - [Worker], [WorkerProofs], [Pipeline], [WorkerList] (worker.c,
      connection_pool.c, the clean-up of server.c): the events of one
      connection, pipelined requests, and the list of a worker's connections
      with the storage pool as a second owner.
    - [ThreadPool], [PoolProofs] (thread_pool.c): queues of linked nodes, and
      threads as a step relation with the locks and the condition variable.
    - [Balancer], [BalancerProofs], [ProxyLink] (balancer.c, net_util.c): the
      proxy loop batch by batch, and its PROXY header against the worker that
      reads it. [Selection], [Weights] (selection.c, hash.c): the strategies,
      and round robin in 32-bit arithmetic.
    - [Config], [ConfigProofs] (env.c, server_config.c, balancer_config.c, the
      balancer's main.c).
    - [Double] (binary64 through [SpecFloat]), [RateLimit], [RateProofs]
      (rate_limit.c), [Metrics] (metrics.c, stats.c, the pages of handlers.c).

    The services:

    - [Text], [Json] (json_util.c), [Jwt] (jwt.c), [Crypto] (crypto.c), [Lru]
      (lru.c; a heap of nodes threaded by a doubly linked list and hash
      chains), [Handlers] (handlers.c).
    - [TodoIndex] (todo_index.c) over the interface [KvStore]; [KvEngine] makes
      the storage engine an instance of it.
    - [Users] (user_auth.c) over [KvStore]; [TodoCache], [Todos], [TodoProofs]
      (todo_handlers.c) over [KvStore] and the cache's interface [TodoCache].
    - [App], [AppProofs] (api.c, the route tables, the default chain of
      middlewares): the application put together, one request as a step from
      the router through the chain to the handler and the shared state.

    [StorageProps], [ServiceProps], [NetProps], [ServerProps], [AppProps],
    [RuntimeProps], [ConfigProps] and [SystemProps] collect the main theorems,
    each with an instance at concrete data; this file has the shared notions:
    byte strings, machine integers as [Z] with their wrap-around written out,
    little-endian numbers, lexicographic order, and the tactics and rewrite
    databases.

    ** How C becomes Rocq

    Pure functions are functions; state is passed explicitly. The public calls
    of the storage engine, the cache and the limiter run to completion (the C
    code holds a lock around each), so a run is a sequence of calls. Where the
    interleaving matters it is modelled: worker and pool threads in
    [WorkerList], every thread of the pool in [ThreadPool], the steps of the
    todo handlers around their locks in the examples of [AppProps]. A pointer
    into a page is the page's value while only read, and [ps_store_page] when
    written; linked structures are heaps of nodes. What the program cannot
    decide (clocks, [malloc], what [read], [write], [recv], [send] and [epoll]
    answer, random bytes, the file system) is an argument or a list of answers.
    zlib, OpenSSL's SHA-1, HMAC and PBKDF2, base64 and [inet_ntop]/[inet_pton]
    are parameters.

    Loops that end by a bound of the code take that bound: the descent for an
    insert and the split recursion stop at BTREE_MAX_DEPTH = 32 as in the C
    code. Loops without one take fuel and say [None] when it runs out; what
    they get is enough by a theorem: 32 steps for the descent of a search and
    one step per page for a scan, on a well-formed tree; one step per answer of
    the kernel for the loops over sockets ([event_handling_total]); the number
    of nodes for walks along chains.

    ** What the theorems show

    - Tree: search, insert (splits and root growth included), delete and scan
      on a well-formed tree are lookup, insertion, removal and ordered prefix
      listing on a finite map; a page that cannot be loaded or allocated is the
      only other reason for an error.
    - Durability: a checkpoint writes every dirty page, and starting again on
      that file gives the same tree and pairs; a new file gives the empty
      database. The log is a list of records that parses back.
    - Pool of pages: an evicted page is not lost; allocated ids are fresh.
    - Cache: get, put and invalidate are those of an abstract LRU list; a fill
      that raced with a write is dropped.
    - Requests: framing and parsing agree on where a request ends, pipelined
      requests are all answered, every event is handled in finitely many
      steps, responses cannot be split, static files stay under the root.
    - Connections: in every interleaving of worker and pool a connection has
      one owner and is freed once.
    - Thread pool: every task runs once and in order, no wake-up is lost,
      destruction ends with everything freed.
    - Balancer: bytes are forwarded exactly, connections are counted exactly,
      the server understands the header; picks are healthy, and round robin
      is fair and never overflows for any configuration.
    - Rate limiting: the table is a bucket per client, and on whole seconds the
      doubles are exact, so a client gets its burst and its rate.
    - Accounts and todos: registration, login and each todo operation are
      those of an abstract service; the index is in step with the rows.
    - Application: in any run a user's todos change only by requests that
      carry that user's token, and what a user is answered does not depend on
      anybody else's todos; each request is logged and counted once.

    ** Not modelled

    Listening sockets, the accept and [epoll_wait] loops themselves, signals,
    TLS and the start of the processes are calls into the system without logic
    of the program's own; so are name resolution, socket options and the zlib
    calls of compression.c. The creation of a thread pool that fails half-way
    and its time statistics are left out, and the order in which main.c and
    api_shutdown call the components' shutdown functions. The interleaving of
    page latches inside one call of the storage engine is outside: one lock
    covers each call. The log is never replayed by the program, so no recovery
    theorem exists to prove. The web front end is JavaScript. *)
From Stdlib Require Import String Ascii.
From Stdlib Require Export ZArith Lia Sorted Permutation.
From stdpp Require Export base list gmap option numbers.

#[global] Set Default Goal Selector "!".

Declare Scope codo_scope.
Delimit Scope codo_scope with codo.

Local Open Scope Z_scope.

(** ** Byte strings

    A C buffer is a list of its bytes, each byte a [Z] between 0 and 255.
    Offsets and lengths ([size_t]) are [Z] as well; the three functions below
    are the only places where an offset is turned into a list position. *)
Abbreviation bytes := (list Z).

Definition zlen {A} (l : list A) : Z := Z.of_nat (length l).
Definition ztake {A} (n : Z) (l : list A) : list A := take (Z.to_nat n) l.
Definition zdrop {A} (n : Z) (l : list A) : list A := drop (Z.to_nat n) l.

(** [sub off n l]: the [n] elements of [l] starting at [off]. *)
Definition sub {A} (off n : Z) (l : list A) : list A := ztake n (zdrop off l).

(** [write_at off bs l]: a [memcpy] of [bs] into [l] at [off]. *)
Definition write_at {A} (off : Z) (bs l : list A) : list A :=
  ztake off l ++ bs ++ zdrop (off + zlen bs) l.

(** [l[i]] for an index that C computes as a non-negative integer. *)
Definition znth {A} (l : list A) (i : Z) : option A :=
  if i <? 0 then None else l !! Z.to_nat i.

#[global] Arguments zlen : simpl never.
#[global] Arguments ztake : simpl never.
#[global] Arguments zdrop : simpl never.
#[global] Arguments sub : simpl never.
#[global] Arguments write_at : simpl never.

Create Rewrite HintDb zlen.

Lemma zlen_nonneg {A} (l : list A) : 0 <= zlen l.
Proof. unfold zlen; lia. Qed.
Lemma zlen_app {A} (l k : list A) : zlen (l ++ k) = zlen l + zlen k.
Proof. unfold zlen; rewrite length_app; lia. Qed.
Lemma zlen_nil {A} : zlen (@nil A) = 0.
Proof. reflexivity. Qed.
Lemma zlen_cons {A} (x : A) l : zlen (x :: l) = 1 + zlen l.
Proof. unfold zlen; simpl length; lia. Qed.
Lemma zlen_ztake {A} n (l : list A) : zlen (ztake n l) = Z.min (Z.max 0 n) (zlen l).
Proof. unfold zlen, ztake; rewrite length_take; lia. Qed.
Lemma zlen_zdrop {A} n (l : list A) : zlen (zdrop n l) = Z.max 0 (zlen l - Z.max 0 n).
Proof. unfold zlen, zdrop; rewrite length_drop; lia. Qed.
Lemma zlen_replicate {A} n (x : A) : zlen (replicate n x) = Z.of_nat n.
Proof. unfold zlen; by rewrite length_replicate. Qed.
Lemma zlen_map {A B} (f : A -> B) l : zlen (map f l) = zlen l.
Proof. unfold zlen; by rewrite List.length_map. Qed.
Lemma zlen_insert {A} i (x : A) (l : list A) : zlen (<[i:=x]> l) = zlen l.
Proof. unfold zlen; by rewrite length_insert. Qed.

#[export] Hint Rewrite @zlen_app @zlen_nil @zlen_cons @zlen_ztake @zlen_zdrop
  @zlen_replicate @zlen_map @zlen_insert : zlen.

(** Add to the context that the lengths occurring in the goal and the
    hypotheses are not negative, then normalise them and call [lia]. *)
Ltac zlen_facts :=
  repeat match goal with
  | |- context [zlen ?l] =>
      lazymatch goal with
      | _ : 0 <= zlen l |- _ => fail
      | _ => pose proof (zlen_nonneg l)
      end
  | _ : context [zlen ?l] |- _ =>
      lazymatch goal with
      | _ : 0 <= zlen l |- _ => fail
      | _ => pose proof (zlen_nonneg l)
      end
  end.
Ltac zl :=
  repeat match goal with
  | H : context [zlen] |- _ => progress autorewrite with zlen in H
  end;
  autorewrite with zlen; zlen_facts; lia.

(** [lia] with the quotients and remainders by constants spelled out. *)
Ltac zdiv := Z.to_euclidean_division_equations; lia.

(** Resolve the comparison a C guard makes when [lia] knows its outcome. *)
Ltac guard_false :=
  match goal with
  | |- context [?a >? ?b] => replace (a >? b) with false by (symmetry; lia)
  | |- context [?a <? ?b] => replace (a <? b) with false by (symmetry; lia)
  | |- context [?a >=? ?b] => replace (a >=? b) with false by (symmetry; lia)
  end; cbn [orb andb].

Lemma zlen_0_nil {A} (l : list A) : zlen l = 0 -> l = [].
Proof. destruct l; [done|]; intros; zl. Qed.

Lemma zlen_sub {A} off n (l : list A) :
  0 <= off -> 0 <= n -> off + n <= zlen l -> zlen (sub off n l) = n.
Proof. intros; unfold sub; zl. Qed.

Lemma zlen_write_at {A} off (bs l : list A) :
  0 <= off -> off + zlen bs <= zlen l -> zlen (write_at off bs l) = zlen l.
Proof. intros; unfold write_at; zl. Qed.

Lemma ztake_all {A} n (l : list A) : zlen l <= n -> ztake n l = l.
Proof. unfold ztake, zlen; intros; apply take_ge; lia. Qed.
Lemma ztake_0 {A} (l : list A) : ztake 0 l = [].
Proof. reflexivity. Qed.
Lemma zdrop_0 {A} (l : list A) : zdrop 0 l = l.
Proof. reflexivity. Qed.
Lemma zdrop_all {A} n (l : list A) : zlen l <= n -> zdrop n l = [].
Proof. unfold zdrop, zlen; intros; apply drop_ge; lia. Qed.
Lemma ztake_zdrop {A} n (l : list A) : ztake n l ++ zdrop n l = l.
Proof. apply take_drop. Qed.
Lemma zdrop_zdrop {A} n m (l : list A) :
  0 <= n -> 0 <= m -> zdrop n (zdrop m l) = zdrop (m + n) l.
Proof. intros; unfold zdrop; rewrite drop_drop; f_equal; lia. Qed.
Lemma ztake_app_le {A} n (l k : list A) : n <= zlen l -> ztake n (l ++ k) = ztake n l.
Proof. unfold zlen, ztake; intros; apply take_app_le; lia. Qed.
Lemma ztake_app_eq {A} n (l k : list A) : n = zlen l -> ztake n (l ++ k) = l.
Proof.
  intros ->; unfold zlen, ztake. rewrite Nat2Z.id. apply take_app_length.
Qed.
Lemma zdrop_app_eq {A} n (l k : list A) : n = zlen l -> zdrop n (l ++ k) = k.
Proof.
  intros ->; unfold zlen, zdrop. rewrite Nat2Z.id. apply drop_app_length.
Qed.
Lemma zdrop_app_ge {A} n (l k : list A) :
  zlen l <= n -> zdrop n (l ++ k) = zdrop (n - zlen l) k.
Proof.
  unfold zlen, zdrop; intros. rewrite drop_app_ge by lia. f_equal; lia.
Qed.
Lemma zdrop_app_le {A} n (l k : list A) :
  n <= zlen l -> zdrop n (l ++ k) = zdrop n l ++ k.
Proof. unfold zlen, zdrop; intros; apply drop_app_le; lia. Qed.
Lemma ztake_app_ge {A} n (l k : list A) :
  zlen l <= n -> ztake n (l ++ k) = l ++ ztake (n - zlen l) k.
Proof.
  unfold zlen, ztake; intros. rewrite take_app_ge by lia. do 2 f_equal; lia.
Qed.
Lemma ztake_ztake {A} n m (l : list A) : n <= m -> ztake n (ztake m l) = ztake n l.
Proof. unfold ztake; intros; rewrite take_take; f_equal; lia. Qed.
Lemma ztake_write_at {A} off (bs l : list A) :
  0 <= off <= zlen l -> ztake off (write_at off bs l) = ztake off l.
Proof.
  intros; unfold write_at. rewrite ztake_app_le by zl. apply ztake_ztake; lia.
Qed.
Lemma zdrop_sub {A} off n (l : list A) :
  0 <= off -> 0 <= n -> zdrop off l = sub off n l ++ zdrop (off + n) l.
Proof.
  intros; unfold sub. rewrite <- (ztake_zdrop n (zdrop off l)) at 1.
  rewrite zdrop_zdrop by lia. done.
Qed.
Lemma sub_app_r {A} off n (l k : list A) :
  zlen l <= off -> sub off n (l ++ k) = sub (off - zlen l) n k.
Proof. intros; unfold sub; by rewrite zdrop_app_ge. Qed.
Lemma sub_app_l {A} off n (l k : list A) :
  0 <= off -> 0 <= n -> off + n <= zlen l -> sub off n (l ++ k) = sub off n l.
Proof.
  intros; unfold sub. rewrite zdrop_app_le by lia. apply ztake_app_le. zl.
Qed.
Lemma sub_ztake {A} off n m (l : list A) :
  0 <= off -> 0 <= n -> off + n <= m -> sub off n (ztake m l) = sub off n l.
Proof.
  intros. unfold sub, ztake, zdrop. rewrite skipn_firstn_comm, take_take.
  f_equal. lia.
Qed.
Lemma sub_eq_app {A} off n (l a b c : list A) :
  l = a ++ b ++ c -> off = zlen a -> n = zlen b -> sub off n l = b.
Proof.
  intros -> -> ->. unfold sub. rewrite zdrop_app_eq by done. by apply ztake_app_eq.
Qed.

Lemma write_at_nil {A} off (l : list A) : 0 <= off -> write_at off [] l = l.
Proof.
  intros. unfold write_at. rewrite zlen_nil, Z.add_0_r. apply ztake_zdrop.
Qed.
Lemma write_at_app {A} off (a bs c : list A) :
  off = zlen a -> write_at off bs (a ++ c) = a ++ bs ++ zdrop (zlen bs) c.
Proof.
  intros ->. unfold write_at. rewrite ztake_app_eq by done. do 2 f_equal.
  rewrite zdrop_app_ge by zl. f_equal; lia.
Qed.

(** Opening a gap: shift the tail [b] up by [zlen e], then store [e]. *)
Lemma memmove_open {A} (a b e s : list A) :
  zlen e <= zlen s ->
  write_at (zlen a) e (write_at (zlen a + zlen e) b (a ++ b ++ s))
  = a ++ e ++ b ++ zdrop (zlen e) s.
Proof.
  intros. unfold write_at at 2.
  rewrite ztake_app_ge by zl. rewrite <- app_assoc, write_at_app by done.
  do 2 f_equal. rewrite zdrop_app_eq by zl. f_equal.
  rewrite !zdrop_app_ge by zl. f_equal. lia.
Qed.

(** Closing a gap: shift the tail [b] down over [e]. *)
Lemma memmove_close {A} (a b e s : list A) :
  write_at (zlen a) b (a ++ e ++ b ++ s) = a ++ b ++ zdrop (zlen b) (e ++ b ++ s).
Proof. by apply write_at_app. Qed.

(** ** Machine integers

    A [w]-bit unsigned integer is a [Z] in [0, 2^w); [uwrap w] is the
    conversion C applies on assignment to such a type. *)
Definition uwrap (w z : Z) : Z := z mod 2 ^ w.
Definition u8 : Z -> Z := uwrap 8.
Definition u16 : Z -> Z := uwrap 16.
Definition u32 : Z -> Z := uwrap 32.
Definition u64 : Z -> Z := uwrap 64.
Definition UINT16_MAX : Z := 65535.
Definition UINT32_MAX : Z := 4294967295.
Definition UINT64_MAX : Z := 18446744073709551615.
(** [size_t] has 64 bits on the supported platforms. *)
Definition SIZE_MAX : Z := UINT64_MAX.

(** [int] has 32 bits and wraps in two's complement. *)
Definition int32 (z : Z) : Z := (z + 2147483648) mod 4294967296 - 2147483648.
Definition fits_int (z : Z) : Prop := -2147483648 <= z <= 2147483647.

Lemma int32_id z : fits_int z -> int32 z = z.
Proof. unfold fits_int, int32. intros H. rewrite Z.mod_small by lia. lia. Qed.

Lemma uwrap_range w z : 0 <= w -> 0 <= uwrap w z < 2 ^ w.
Proof. intros; apply Z.mod_pos_bound, Z.pow_pos_nonneg; lia. Qed.
Lemma uwrap_small w z : 0 <= z < 2 ^ w -> uwrap w z = z.
Proof. apply Z.mod_small. Qed.
Lemma u8_small z : 0 <= z < 256 -> u8 z = z.
Proof. apply (uwrap_small 8). Qed.
Lemma u16_small z : 0 <= z <= UINT16_MAX -> u16 z = z.
Proof. unfold UINT16_MAX; intros; apply (uwrap_small 16); lia. Qed.
Lemma u32_small z : 0 <= z <= UINT32_MAX -> u32 z = z.
Proof. unfold UINT32_MAX; intros; apply (uwrap_small 32); lia. Qed.
Lemma u64_small z : 0 <= z <= UINT64_MAX -> u64 z = z.
Proof. unfold UINT64_MAX; intros; apply (uwrap_small 64); lia. Qed.

(** Little-endian integers, as [memcpy] of an integer stores them. *)
Fixpoint le_encode (n : nat) (z : Z) : bytes :=
  match n with
  | O => []
  | S n' => z mod 256 :: le_encode n' (z / 256)
  end.
Fixpoint le_decode (l : bytes) : Z :=
  match l with
  | [] => 0
  | b :: l' => b + 256 * le_decode l'
  end.

Lemma length_le_encode n z : length (le_encode n z) = n.
Proof. revert z; induction n; intros; simpl; auto. Qed.
Lemma zlen_le_encode n z : zlen (le_encode n z) = Z.of_nat n.
Proof. unfold zlen; by rewrite length_le_encode. Qed.
#[export] Hint Rewrite zlen_le_encode : zlen.

Lemma le_decode_encode n z :
  0 <= z < 256 ^ Z.of_nat n -> le_decode (le_encode n z) = z.
Proof.
  revert z; induction n as [|n IH]; intros z Hz; simpl.
  - change (256 ^ Z.of_nat 0) with 1 in Hz; lia.
  - rewrite Nat2Z.inj_succ, Z.pow_succ_r in Hz by lia.
    rewrite IH; [pose proof (Z.div_mod z 256); lia|].
    split; [apply Z.div_pos; lia|apply Z.div_lt_upper_bound; lia].
Qed.

Lemma sub_le_encode n v (l : bytes) : sub 0 (Z.of_nat n) (le_encode n v ++ l) = le_encode n v.
Proof. eapply (sub_eq_app 0 _ _ []); [done|done|]. by rewrite zlen_le_encode. Qed.

(** Read an integer field of a structure laid out as [le_encode]s: skip the
    fields in front of it, then decode. *)
Ltac skip_field :=
  rewrite sub_app_r by (rewrite ?zlen_le_encode; lia); rewrite ?zlen_le_encode;
  match goal with
  | |- context [sub ?o _ _] => let v := eval vm_compute in o in change o with v
  end.
Ltac read_field n :=
  repeat skip_field;
  match goal with |- context [sub 0 ?k _] => change k with (Z.of_nat n) end;
  rewrite sub_le_encode; apply le_decode_encode.

Definition is_byte (b : Z) : Prop := 0 <= b < 256.
#[global] Instance is_byte_dec b : Decision (is_byte b).
Proof. unfold is_byte; apply _. Defined.

Lemma le_encode_bytes n z : Forall is_byte (le_encode n z).
Proof.
  revert z; induction n; intros; cbn; constructor; auto.
  apply Z.mod_pos_bound; lia.
Qed.

Lemma le_decode_range l :
  Forall is_byte l -> 0 <= le_decode l < 256 ^ zlen l.
Proof.
  induction 1 as [|b l Hb Hl IH]; [vm_compute; split; congruence|].
  unfold is_byte in Hb.
  rewrite zlen_cons, Z.pow_add_r by zl. simpl. lia.
Qed.

#[global] Arguments le_encode : simpl never.
#[global] Arguments le_decode : simpl never.

(** ** Strings

    A C string literal, as the bytes [strlen] counts. *)
Fixpoint str (s : string) : bytes :=
  match s with
  | EmptyString => []
  | String c s' => Z.of_N (N_of_ascii c) :: str s'
  end.

(** [memcmp] and [strcmp] are used only for the sign of their result. *)
Fixpoint memcmp (a b : bytes) : comparison :=
  match a, b with
  | x :: a', y :: b' =>
      match x ?= y with Eq => memcmp a' b' | c => c end
  | _, _ => Eq
  end.

Fixpoint lex (a b : bytes) : comparison :=
  match a, b with
  | [], [] => Eq
  | [], _ :: _ => Lt
  | _ :: _, [] => Gt
  | x :: a', y :: b' =>
      match x ?= y with Eq => lex a' b' | c => c end
  end.

Lemma lex_refl a : lex a a = Eq.
Proof. induction a; simpl; [done|]. by rewrite Z.compare_refl. Qed.
Lemma lex_eq a b : lex a b = Eq <-> a = b.
Proof.
  split; [|intros ->; apply lex_refl].
  revert b; induction a as [|x a IH]; intros [|y b]; simpl; try done.
  destruct (Z.compare_spec x y); try done. intros; subst; f_equal; auto.
Qed.
Lemma lex_antisym a b : lex b a = CompOpp (lex a b).
Proof.
  revert b; induction a as [|x a IH]; intros [|y b]; simpl; try done.
  rewrite (Z.compare_antisym x y). destruct (x ?= y); simpl; auto.
Qed.
Lemma lex_trans a b c : lex a b = Lt -> lex b c = Lt -> lex a c = Lt.
Proof.
  revert b c; induction a as [|x a IH]; intros [|y b] [|z c]; simpl; try done.
  destruct (Z.compare_spec x y), (Z.compare_spec y z), (Z.compare_spec x z);
    subst; try lia; try done; eauto.
Qed.

Definition lex_lt (a b : bytes) : Prop := lex a b = Lt.
Definition lex_le (a b : bytes) : Prop := lex a b <> Gt.
#[global] Instance lex_lt_dec a b : Decision (lex_lt a b).
Proof. unfold lex_lt; destruct (lex a b); (by left) || (by right). Defined.
#[global] Instance lex_le_dec a b : Decision (lex_le a b).
Proof. unfold lex_le; destruct (lex a b); (left; discriminate) || (by right; intros Hne; apply Hne). Defined.
#[global] Instance lex_lt_strict : StrictOrder lex_lt.
Proof.
  split.
  - intros a; unfold complement, lex_lt; by rewrite lex_refl.
  - intros a b c; apply lex_trans.
Qed.
Lemma lex_lt_irrefl a : ~ lex_lt a a.
Proof. apply irreflexivity, _. Qed.
Lemma lex_le_alt a b : lex_le a b <-> lex_lt a b \/ a = b.
Proof.
  unfold lex_le, lex_lt. rewrite <- lex_eq. destruct (lex a b); naive_solver.
Qed.
Lemma lex_nlt a b : ~ lex_lt a b <-> lex_le b a.
Proof.
  unfold lex_lt, lex_le. rewrite (lex_antisym a b). destruct (lex a b); naive_solver.
Qed.
Lemma lex_nle a b : ~ lex_le a b <-> lex_lt b a.
Proof.
  unfold lex_lt, lex_le. rewrite (lex_antisym a b). destruct (lex a b); naive_solver.
Qed.
#[global] Instance lex_le_preorder : PreOrder lex_le.
Proof.
  split.
  - intros a; apply lex_le_alt; by right.
  - intros a b c; rewrite !lex_le_alt. intros [?|<-] [?|<-]; auto.
    left; by trans b.
Qed.
Lemma lex_lt_le_trans a b c : lex_lt a b -> lex_le b c -> lex_lt a c.
Proof. rewrite lex_le_alt. intros ? [?|<-]; [by trans b|done]. Qed.
Lemma lex_le_lt_trans a b c : lex_le a b -> lex_lt b c -> lex_lt a c.
Proof. rewrite lex_le_alt. intros [?|<-] ?; [by trans b|done]. Qed.
Lemma lex_lt_le a b : lex_lt a b -> lex_le a b.
Proof. rewrite lex_le_alt; auto. Qed.
Lemma lex_lt_nil x a : lex_lt [] (x :: a).
Proof. done. Qed.
Lemma lex_le_nil a : lex_le [] a.
Proof. destruct a; done. Qed.

Create HintDb codo.
#[export] Hint Resolve zlen_nonneg lex_refl lex_lt_le lex_le_nil : codo.
