(* ===== verification/SList.v ===== *)
(** * Singly linked chains in a heap

    The active-transaction list of txn.c and the bucket chains of lru.c are
    both null-terminated chains through a link field, and both are cut by the
    same pointer-to-pointer loop. The chain predicate and the loop are shared
    here, generic in the node type and its link. *)
From S2P Require Import Prelude.

Local Open Scope Z_scope.

Section slist.
Context {N : Type} (link : N -> option Z).

(** [chain heap cur l]: following the links from [cur] visits [l]. *)
Fixpoint chain (heap : gmap Z N) (cur : option Z) (l : list Z) : Prop :=
  match l with
  | [] => cur = None
  | a :: l' => cur = Some a /\ exists n, heap !! a = Some n /\ chain heap (link n) l'
  end.

Lemma chain_frame heap heap' cur l :
  (forall a, a ∈ l -> link <$> heap' !! a = link <$> heap !! a) ->
  chain heap cur l -> chain heap' cur l.
Proof using.
  revert cur. induction l as [|a l IH]; intros cur Hs; simpl; [done|].
  intros (-> & n & Hn & Hc). split; [done|].
  pose proof (Hs a ltac:(left)) as E. rewrite Hn in E. destruct (heap' !! a) as [n'|]; [|done].
  cbn in E. injection E as E. exists n'. split; [done|]. rewrite E. apply IH; [|done].
  intros b Hb. apply Hs. by right.
Qed.

Lemma chain_lookup heap cur l a : chain heap cur l -> a ∈ l -> is_Some (heap !! a).
Proof using.
  revert cur. induction l as [|b l IH]; intros cur Hc Ha; [set_solver|].
  destruct Hc as (_ & n & Hn & Hc). apply elem_of_cons in Ha as [->|Ha]; [by exists n|eauto].
Qed.

Lemma chain_size heap cur l : chain heap cur l -> NoDup l -> (length l <= size heap)%nat.
Proof using.
  intros Hc Hnd. rewrite <- size_dom, <- (size_list_to_set (C := gset Z) l) by done.
  apply subseteq_size. intros a Ha%elem_of_list_to_set. apply elem_of_dom. by eapply chain_lookup.
Qed.

Context (set_link : option Z -> N -> N).

(** The pointer-to-pointer loop that walks to [x] and stores its successor
    where it was linked from: [cur] is the value behind the walking pointer,
    the result is the value left there and the heap. *)
Fixpoint unlink (fuel : nat) (heap : gmap Z N) (cur : option Z) (x : Z) : option Z * gmap Z N :=
  match fuel, cur with
  | O, _ | _, None => (cur, heap)
  | S fuel', Some a =>
      match heap !! a with
      | None => (cur, heap)
      | Some n =>
          if a =? x then (link n, heap)
          else let '(o, heap') := unlink fuel' heap (link n) x in
               (cur, alter (set_link o) a heap')
      end
  end.

Context (link_set : forall o n, link (set_link o n) = o).

(** Cutting [x] out of a chain leaves the chain without [x]; only links of
    chain members change. *)
Lemma unlink_spec fuel heap cur l x o heap' :
  chain heap cur l -> NoDup l -> (length l < fuel)%nat -> unlink fuel heap cur x = (o, heap') ->
  chain heap' o (filter (.≠ x) l) /\
  (forall a, a ∉ l -> heap' !! a = heap !! a) /\
  (forall a, exists b, heap' !! a = set_link b <$> heap !! a \/ heap' !! a = heap !! a).
Proof using link_set.
  revert fuel cur o heap'. induction l as [|a l IH]; intros [|fuel] cur o heap' Hc Hnd Hf;
    simpl in *; try lia.
  - subst cur. intros [= <- <-]. split_and!; try done. intros a. exists None. by right.
  - destruct Hc as (-> & n & Hn & Hc). rewrite Hn. apply list.NoDup_cons in Hnd as [Hal Hnd].
    destruct (Z.eqb_spec a x) as [->|Hax].
    + intros [= <- <-]. rewrite filter_cons_False by naive_solver. split_and!; try done.
      * replace (filter _ l) with l; [done|]. symmetry. clear -Hal.
        induction l as [|b l IH]; [done|]. rewrite filter_cons_True by set_solver.
        f_equal. apply IH. set_solver.
      * intros b. exists None. by right.
    + destruct (unlink fuel heap (link n) x) as [o1 h1] eqn:E. intros [= <- <-].
      assert (length l < fuel)%nat as Hf' by lia.
      destruct (IH _ _ _ _ Hc Hnd Hf' E) as (Hc1 & Hfr & Hg).
      rewrite filter_cons_True by done. split_and!.
      * split; [done|]. exists (set_link o1 n).
        rewrite lookup_alter_eq, Hfr, Hn by done. split; [done|]. rewrite link_set.
        eapply chain_frame; [|exact Hc1]. intros b Hb.
        rewrite lookup_alter_ne; [done|]. intros <-. apply list_elem_of_filter in Hb. naive_solver.
      * intros b [Hba Hbl]%not_elem_of_cons. rewrite lookup_alter_ne by done. auto.
      * intros b. destruct (decide (b = a)) as [->|Hb].
        -- exists o1. left. by rewrite lookup_alter_eq, Hfr by done.
        -- destruct (Hg b) as [o' Ho]. exists o'. by rewrite lookup_alter_ne by done.
Qed.
End slist.
