(* ===== verification/Text.v ===== *)
(** * Text: decimal numbers as the C code prints and scans them

    [snprintf]'s [%llu] and [%0*llu], and the digit loop shared by the JSON
    reader and the key parsers. *)
From S2P Require Import Prelude.

Local Open Scope Z_scope.

Definition is_digit (c : Z) : bool := (48 <=? c) && (c <=? 57).

(** Digits of [n], most significant first; 20 are enough for 64 bits. *)
Fixpoint dec_loop (fuel : nat) (n : Z) (acc : bytes) : bytes :=
  match fuel with
  | O => acc
  | S fuel' => if n <? 10 then (48 + n) :: acc
               else dec_loop fuel' (n / 10) ((48 + n mod 10) :: acc)
  end.
(** [%llu] *)
Definition dec (n : Z) : bytes := dec_loop 20 n [].

(** [%0*llu] with the given width. *)
Definition dec_pad (width n : Z) : bytes :=
  replicate (Z.to_nat (width - zlen (dec n))) 48 ++ dec n.

(** The loop [value = value * 10 + digit] over a run of digits, on [uint64_t]:
    the value and what follows the run. *)
Fixpoint scan_digits (l : bytes) (value : Z) : Z * bytes :=
  match l with
  | [] => (value, [])
  | c :: l' => if is_digit c then scan_digits l' (u64 (value * 10 + (c - 48))) else (value, l)
  end.

(** ** What a run of digits means *)
Definition digits_value (ds : bytes) : Z := fold_left (fun v d => v * 10 + (d - 48)) ds 0.
Definition all_digits (ds : bytes) : Prop := Forall (fun d => is_digit d = true) ds.

Lemma is_digit_spec c : is_digit c = true <-> 48 <= c <= 57.
Proof. unfold is_digit. lia. Qed.

Lemma fold_digits_acc ds v :
  fold_left (fun v d => v * 10 + (d - 48)) ds v = v * 10 ^ zlen ds + digits_value ds.
Proof.
  unfold digits_value. revert v. induction ds as [|d ds IH]; intros v; cbn [fold_left].
  - rewrite zlen_nil. lia.
  - rewrite IH. rewrite (IH (0 * 10 + (d - 48))). rewrite zlen_cons, Z.pow_add_r by zl. lia.
Qed.

Lemma digits_value_cons d ds :
  digits_value (d :: ds) = (d - 48) * 10 ^ zlen ds + digits_value ds.
Proof. unfold digits_value at 1. cbn. rewrite fold_digits_acc. lia. Qed.

Lemma digits_value_app a b :
  digits_value (a ++ b) = digits_value a * 10 ^ zlen b + digits_value b.
Proof. unfold digits_value at 1. rewrite fold_left_app, fold_digits_acc. done. Qed.

Lemma digits_value_range ds : all_digits ds -> 0 <= digits_value ds < 10 ^ zlen ds.
Proof.
  induction 1 as [|d ds Hd Hds IH]; [vm_compute; split; congruence|].
  apply is_digit_spec in Hd. rewrite digits_value_cons, zlen_cons, Z.pow_add_r by zl. nia.
Qed.

Lemma digits_value_zeros n ds : digits_value (replicate n 48 ++ ds) = digits_value ds.
Proof. induction n as [|n IH]; [done|]. cbn [replicate app]. rewrite digits_value_cons, IH. lia. Qed.

Lemma dec_loop_spec fuel n acc :
  0 <= n < 10 ^ Z.of_nat fuel -> (0 < fuel)%nat ->
  exists ds, dec_loop fuel n acc = ds ++ acc /\ all_digits ds /\ digits_value ds = n /\ ds <> [] /\
    (length ds <= fuel)%nat /\ (n = 0 \/ 10 ^ (zlen ds - 1) <= n).
Proof.
  revert n acc. induction fuel as [|fuel IH]; intros n acc Hn Hf; [lia|]. cbn [dec_loop].
  destruct (Z.ltb_spec n 10) as [Hlt|Hge].
  - exists [48 + n]. split_and!; try done.
    + repeat constructor. apply is_digit_spec. lia.
    + unfold digits_value. cbn [fold_left]. lia.
    + change (10 ^ (zlen [48 + n] - 1)) with 1. lia.
  - rewrite Nat2Z.inj_succ, Z.pow_succ_r in Hn by lia.
    destruct fuel as [|fuel]; [cbn in Hn; lia|].
    destruct (IH (n / 10) ((48 + n mod 10) :: acc)) as (ds & -> & Hd & Hv & Hne & Hl & Hlow); [zdiv|lia|].
    exists (ds ++ [48 + n mod 10]). split_and!.
    + by rewrite <- app_assoc.
    + apply Forall_app. split; [done|]. repeat constructor. apply is_digit_spec. zdiv.
    + rewrite digits_value_app, Hv. unfold digits_value. cbn [fold_left]. change (10 ^ zlen [48 + n mod 10]) with 10. zdiv.
    + by destruct ds.
    + rewrite length_app. cbn. lia.
    + right. destruct Hlow as [Hz|Hlow]; [zdiv|]. rewrite zlen_app. change (zlen [48 + n mod 10]) with 1.
      replace (zlen ds + 1 - 1) with (Z.succ (zlen ds - 1)) by lia.
      assert (0 < zlen ds) by (destruct ds; [done|zl]). rewrite Z.pow_succ_r by lia. zdiv.
Qed.

Lemma dec_spec n :
  0 <= n <= UINT64_MAX ->
  all_digits (dec n) /\ digits_value (dec n) = n /\ dec n <> [] /\ zlen (dec n) <= 20.
Proof.
  intros Hn. destruct (dec_loop_spec 20 n []) as (ds & E & Hd & Hv & Hne & Hl & _).
  - unfold UINT64_MAX in Hn. change (10 ^ Z.of_nat 20) with 100000000000000000000. lia.
  - lia.
  - unfold dec. rewrite E, app_nil_r. split_and!; try done. unfold zlen. lia.
Qed.

Lemma dec_pad_spec n :
  0 <= n <= UINT64_MAX ->
  all_digits (dec_pad 20 n) /\ digits_value (dec_pad 20 n) = n /\ zlen (dec_pad 20 n) = 20.
Proof.
  intros Hn. destruct (dec_spec n Hn) as (Hd & Hv & _ & Hl). unfold dec_pad. split_and!.
  - apply Forall_app. split; [|done]. by apply Forall_replicate.
  - by rewrite digits_value_zeros.
  - rewrite zlen_app, zlen_replicate. zl.
Qed.

Definition digit_start (l : bytes) : bool := match l with c :: _ => is_digit c | [] => false end.

Lemma scan_digits_spec ds rest v :
  all_digits ds -> digit_start rest = false ->
  scan_digits (ds ++ rest) v = (if bool_decide (ds = []) then v else u64 (v * 10 ^ zlen ds + digits_value ds), rest).
Proof.
  intros Hd Hr. revert v. induction Hd as [|d ds Hd Hds IH]; intros v; cbn [app scan_digits].
  - destruct rest as [|c rest]; [done|]. cbn in *. by rewrite Hr.
  - rewrite Hd, IH. f_equal. rewrite (bool_decide_false (d :: ds = [])) by done.
    rewrite digits_value_cons, zlen_cons, Z.pow_add_r by zl. change (10 ^ 1) with 10.
    case_bool_decide as E.
    + subst ds. unfold digits_value. cbn. f_equal. rewrite zlen_nil. lia.
    + unfold u64, uwrap. rewrite <- Zplus_mod_idemp_l, <- Zmult_mod_idemp_l, Zmod_mod,
        Zmult_mod_idemp_l, Zplus_mod_idemp_l. f_equal. lia.
Qed.

(** Printing and scanning back. *)
Lemma scan_digits_dec n rest :
  0 <= n <= UINT64_MAX -> digit_start rest = false -> scan_digits (dec n ++ rest) 0 = (n, rest).
Proof.
  intros Hn Hr. destruct (dec_spec n Hn) as (Hd & Hv & Hne & _).
  rewrite scan_digits_spec by done. rewrite bool_decide_false, Hv by done. f_equal.
  unfold u64, UINT64_MAX in *. rewrite uwrap_small; lia.
Qed.

(** Equal-length digit strings compare like their values. *)
Lemma digits_lex a b :
  all_digits a -> all_digits b -> zlen a = zlen b ->
  lex a b = (digits_value a ?= digits_value b).
Proof.
  intros Ha. revert b. induction Ha as [|x a Hx Ha IH]; intros [|y b] Hb Hl;
    rewrite ?zlen_cons, ?zlen_nil in Hl; try zl; [done|].
  inversion Hb as [|? ? Hy Hb']; subst. rewrite !digits_value_cons. cbn [lex].
  assert (zlen a = zlen b) as Hl' by lia. rewrite (IH b Hb' Hl'), Hl'.
  pose proof (digits_value_range a Ha) as Ra. pose proof (digits_value_range b Hb') as Rb.
  rewrite Hl' in Ra. apply is_digit_spec in Hx. apply is_digit_spec in Hy.
  set (P := 10 ^ zlen b) in *. clearbody P.
  destruct (Z.compare_spec x y) as [->|Hlt|Hgt].
  - destruct (Z.compare_spec (digits_value a) (digits_value b)); symmetry;
      [apply Z.compare_eq_iff|apply Z.compare_lt_iff|apply Z.compare_gt_iff]; nia.
  - symmetry. apply Z.compare_lt_iff. nia.
  - symmetry. apply Z.compare_gt_iff. nia.
Qed.

Lemma lex_app_same a b c : lex (a ++ b) (a ++ c) = lex b c.
Proof. induction a as [|x a IH]; [done|]. cbn. by rewrite Z.compare_refl. Qed.

Lemma dec_pad_lex a b :
  0 <= a <= UINT64_MAX -> 0 <= b <= UINT64_MAX -> lex (dec_pad 20 a) (dec_pad 20 b) = (a ?= b).
Proof.
  intros Ha Hb. destruct (dec_pad_spec a Ha) as (? & Va & ?). destruct (dec_pad_spec b Hb) as (? & Vb & ?).
  rewrite digits_lex by congruence. by rewrite Va, Vb.
Qed.

(** Packing bits below a shifted number. *)
Lemma lor_disjoint a b k : 0 <= k -> 0 <= b < 2 ^ k -> Z.lor (Z.shiftl a k) b = a * 2 ^ k + b.
Proof.
  intros Hk Hb. rewrite <- Z.shiftl_mul_pow2 by lia. symmetry. apply Z.add_nocarry_lor.
  apply Z.bits_inj'. intros i Hi. rewrite Z.land_spec, Z.bits_0.
  destruct (Z.lt_ge_cases i k).
  - by rewrite Z.shiftl_spec_low.
  - destruct (Z.eq_dec b 0) as [->|]; [by rewrite Z.bits_0, andb_false_r|].
    rewrite (Z.bits_above_log2 b); [apply andb_false_r|lia|]. apply Z.log2_lt_pow2; [lia|].
    eapply Z.lt_le_trans; [apply Hb|]. apply Z.pow_le_mono_r; lia.
Qed.
