(* ===== verification/BtreePage.v ===== *)
(** * Page-level B-tree operations (storage/src/btree.c)

    A page is a header and 4024 data bytes; the kv pairs are packed
    back-to-back at the front of the data area. The operations below read and
    write those bytes exactly as the C functions do, with every bounds check.
    A [kv_pair_t *] into the page is the byte offset of the pair, a NULL
    pointer or an error return is [None].

    The second half relates the bytes to a list of entries ([page_repr]) and
    shows that each operation implements a list operation. *)
From S2P Require Import Prelude.

Local Open Scope Z_scope.

(** ** Data (storage/src/storage_internal.h) *)
Definition PAGE_SIZE : Z := 4096.
Definition SIZEOF_PAGE_HEADER : Z := 72.
Definition SIZEOF_KV_PAIR : Z := 8.
Definition MAX_KEY_SIZE : Z := 256.
Definition MAX_VALUE_SIZE : Z := 1024.

Definition PAGE_TYPE_LEAF : Z := 1.
Definition PAGE_TYPE_INTERNAL : Z := 2.
Definition PAGE_TYPE_OVERFLOW : Z := 3.
Definition PAGE_TYPE_FREE : Z := 4.

(** [page_type] stays an integer: the field is read back from disk and is
    zero after a [memset]. [reserved] holds the 32 reserved bytes and the
    4 bytes of tail padding. *)
Record page_header := mkHeader {
  page_id : Z; page_type : Z; key_count : Z; free_space : Z; reserved0 : Z;
  next_page_id : Z; prev_page_id : Z; lsn : Z; checksum : Z; reserved : bytes }.

Record btree_page := mkPage { header : page_header; data : bytes }.

Definition set_header_fields (h : page_header) (kc fs : Z) : page_header :=
  mkHeader (page_id h) (page_type h) kc fs (reserved0 h)
    (next_page_id h) (prev_page_id h) (lsn h) (checksum h) (reserved h).
Definition set_next_page_id (h : page_header) (n : Z) : page_header :=
  mkHeader (page_id h) (page_type h) (key_count h) (free_space h) (reserved0 h)
    n (prev_page_id h) (lsn h) (checksum h) (reserved h).
Definition set_page_identity (h : page_header) (id ty : Z) : page_header :=
  mkHeader id ty (key_count h) (free_space h) (reserved0 h)
    (next_page_id h) (prev_page_id h) (lsn h) (checksum h) (reserved h).

(** The packed [kv_pair_t] header: two 16-bit lengths and a 32-bit child. *)
Definition kv_key_length (d : bytes) (off : Z) : Z := le_decode (sub off 2 d).
Definition kv_value_length (d : bytes) (off : Z) : Z := le_decode (sub (off + 2) 2 d).
Definition kv_child_page_id (d : bytes) (off : Z) : Z := le_decode (sub (off + 4) 4 d).
Definition kv_key (d : bytes) (off : Z) : bytes :=
  sub (off + SIZEOF_KV_PAIR) (kv_key_length d off) d.
Definition kv_value (d : bytes) (off : Z) : bytes :=
  sub (off + SIZEOF_KV_PAIR + kv_key_length d off) (kv_value_length d off) d.
Definition kv_size (d : bytes) (off : Z) : Z :=
  SIZEOF_KV_PAIR + kv_key_length d off + kv_value_length d off.

#[global] Arguments kv_key_length : simpl never.
#[global] Arguments kv_value_length : simpl never.
#[global] Arguments kv_child_page_id : simpl never.
#[global] Arguments kv_key : simpl never.
#[global] Arguments kv_value : simpl never.
#[global] Arguments kv_size : simpl never.

(** ** Operations *)
Definition btree_page_capacity : Z := PAGE_SIZE - SIZEOF_PAGE_HEADER.

(** [None] is the [SIZE_MAX] a corrupt [free_space] yields. *)
Definition btree_used_bytes (page : btree_page) : option Z :=
  let capacity := btree_page_capacity in
  if free_space (header page) >? capacity then None
  else Some (capacity - free_space (header page)).

(** The validated walk over [n] pairs from [offset], bounded by [used]. *)
Fixpoint walk_pairs (n : nat) (d : bytes) (used offset : Z) : option Z :=
  match n with
  | O => Some offset
  | S n' =>
      if offset + SIZEOF_KV_PAIR >? used then None
      else let pair_size := kv_size d offset in
           if pair_size >? used - offset then None
           else walk_pairs n' d used (offset + pair_size)
  end.

Definition entry_offset (page : btree_page) (index used : Z) : option Z :=
  walk_pairs (Z.to_nat index) (data page) used 0.

Fixpoint choose_split_loop (n : nat) (i : Z) (d : bytes) (count used half offset : Z) : Z :=
  match n with
  | O => if count >? 1 then count - 1 else -1
  | S n' =>
      if (offset >=? half) && (i >? 0) then i
      else if offset + SIZEOF_KV_PAIR >? used then -1
      else let pair_size := kv_size d offset in
           if pair_size >? used - offset then -1
           else choose_split_loop n' (i + 1) d count used half (offset + pair_size)
  end.

Definition choose_split_index (page : btree_page) (used : Z) : Z :=
  let half := used / 2 in
  let count := key_count (header page) in
  choose_split_loop (Z.to_nat count) 0 (data page) count used half 0.

(** The new [src], the new [dst] and the separator, or [None] for -1; every
    failing return comes before the first store to either page. *)
Definition btree_split_page (src dst : btree_page) (dst_page_id sep_out_size : Z)
    : option (btree_page * btree_page * bytes) :=
  let capacity := btree_page_capacity in
  let is_leaf := page_type (header src) =? PAGE_TYPE_LEAF in
  used ← btree_used_bytes src;
  if key_count (header src) <? (if is_leaf then 2 else 1) then None else
  let mid := choose_split_index src used in
  if (mid <? 0) || (mid >=? key_count (header src)) then None else
  let sep_index := if is_leaf then mid - 1 else mid in
  sep_offset ← entry_offset src sep_index used;
  if sep_offset + SIZEOF_KV_PAIR >? used then None else
  let sep_klen := kv_key_length (data src) sep_offset in
  if (SIZEOF_KV_PAIR + sep_klen >? used - sep_offset) || (sep_klen >? sep_out_size)
  then None else
  let sep_out := kv_key (data src) sep_offset in
  split_offset ← entry_offset src mid used;
  if split_offset >? used then None else
  '(right_offset, right_count, promoted_child) ←
    (if is_leaf then Some (split_offset, key_count (header src) - mid, 0)
     else if kv_size (data src) split_offset >? used - split_offset then None
     else Some (split_offset + kv_size (data src) split_offset,
                key_count (header src) - mid - 1,
                kv_child_page_id (data src) split_offset));
  if (right_offset >? used) || (right_count <? 0) then None else
  let right_bytes := used - right_offset in
  if right_bytes >? capacity then None else
  let dst_data := write_at 0 (sub right_offset right_bytes (data src)) (data dst) in
  let dst_h := set_header_fields
                 (set_page_identity (header dst) dst_page_id (page_type (header src)))
                 (u16 right_count) (u16 (capacity - right_bytes)) in
  let dst_h := set_next_page_id dst_h (next_page_id (header src)) in
  let src_h := set_next_page_id (header src)
                 (if is_leaf then dst_page_id else promoted_child) in
  let src_h := set_header_fields src_h (u16 mid) (u16 (capacity - split_offset)) in
  Some (mkPage src_h (data src), mkPage dst_h dst_data, sep_out).

(** Only the sign of the result is used by any caller. *)
Definition compare_keys (key1 key2 : bytes) : comparison :=
  let min_len := if zlen key1 <? zlen key2 then zlen key1 else zlen key2 in
  match memcmp (ztake min_len key1) (ztake min_len key2) with
  | Eq => if zlen key1 <? zlen key2 then Lt
          else if zlen key1 >? zlen key2 then Gt else Eq
  | r => r
  end.

Fixpoint get_kv_loop (n : nat) (d : bytes) (data_capacity offset : Z) : option Z :=
  if offset + SIZEOF_KV_PAIR >? data_capacity then None else
  match n with
  | O => if offset + kv_size d offset >? data_capacity then None else Some offset
  | S n' =>
      if kv_size d offset >? data_capacity - offset then None
      else get_kv_loop n' d data_capacity (offset + kv_size d offset)
  end.

Definition get_kv_pair (page : btree_page) (index : Z) : option Z :=
  if (index <? 0) || (index >=? key_count (header page)) then None
  else get_kv_loop (Z.to_nat index) (data page) btree_page_capacity 0.

Fixpoint find_key_loop (fuel : nat) (page : btree_page) (key : bytes) (left right : Z) : Z :=
  match fuel with
  | O => left
  | S fuel' =>
      if left <=? right then
        let mid := (left + right) / 2 in
        match get_kv_pair page mid with
        | None => left
        | Some kv =>
            match compare_keys key (kv_key (data page) kv) with
            | Eq => mid
            | Lt => find_key_loop fuel' page key left (mid - 1)
            | Gt => find_key_loop fuel' page key (mid + 1) right
            end
        end
      else left
  end.

(** Each pass removes at least one index from [left, right], so [key_count]
    passes are enough. *)
Definition find_key_position (page : btree_page) (key : bytes) : Z :=
  find_key_loop (S (Z.to_nat (key_count (header page)))) page key 0
    (key_count (header page) - 1).

Definition insert_kv_pair (page : btree_page) (position : Z) (key value : bytes)
    (child_page_id : Z) : option btree_page :=
  let pair_size := SIZEOF_KV_PAIR + zlen key + zlen value in
  let h := header page in
  if free_space h <? pair_size then None else
  let data_capacity := PAGE_SIZE - SIZEOF_PAGE_HEADER in
  if free_space h >? data_capacity then None else
  let used := data_capacity - free_space h in
  insert_offset ← walk_pairs (Z.to_nat position) (data page) used 0;
  let move_size := used - insert_offset in
  let d := if move_size >? 0
           then write_at (insert_offset + pair_size)
                  (sub insert_offset move_size (data page)) (data page)
           else data page in
  let d := write_at insert_offset
             (le_encode 2 (u16 (zlen key)) ++ le_encode 2 (u16 (zlen value)) ++
              le_encode 4 (u32 child_page_id) ++ key ++ value) d in
  Some (mkPage (set_header_fields h (u16 (key_count h + 1)) (u16 (free_space h - pair_size))) d).

Definition delete_kv_pair (page : btree_page) (position : Z) : option btree_page :=
  let h := header page in
  if (position <? 0) || (position >=? key_count h) then None else
  kv ← get_kv_pair page position;
  let pair_size := kv_size (data page) kv in
  let data_capacity := PAGE_SIZE - SIZEOF_PAGE_HEADER in
  if free_space h >? data_capacity then None else
  let used := data_capacity - free_space h in
  let next := kv + pair_size in
  if next >? used then None else
  let move_size := used - next in
  let d := if move_size >? 0
           then write_at kv (sub next move_size (data page)) (data page)
           else data page in
  Some (mkPage (set_header_fields h (u16 (key_count h - 1)) (u16 (free_space h + pair_size))) d).

(** ** Representation: the entries a page holds *)
Record entry := mkEntry { e_key : bytes; e_value : bytes; e_child : Z }.

Definition entry_ok (e : entry) : Prop :=
  zlen (e_key e) <= UINT16_MAX /\ zlen (e_value e) <= UINT16_MAX /\
  0 <= e_child e <= UINT32_MAX.

Definition entry_size (e : entry) : Z := SIZEOF_KV_PAIR + zlen (e_key e) + zlen (e_value e).

Definition entry_bytes (e : entry) : bytes :=
  le_encode 2 (zlen (e_key e)) ++ le_encode 2 (zlen (e_value e)) ++
  le_encode 4 (e_child e) ++ e_key e ++ e_value e.

Definition entries_bytes (es : list entry) : bytes := flat_map entry_bytes es.

(** [page_repr page es]: the used bytes of [page] are the encodings of [es],
    and the counters of the header agree with them. *)
Definition page_repr (page : btree_page) (es : list entry) : Prop :=
  exists slack,
    data page = entries_bytes es ++ slack /\
    zlen (data page) = btree_page_capacity /\
    key_count (header page) = zlen es /\
    free_space (header page) = zlen slack /\
    Forall entry_ok es.

Lemma zlen_entry_bytes e : zlen (entry_bytes e) = entry_size e.
Proof. unfold entry_bytes, entry_size, SIZEOF_KV_PAIR. zl. Qed.
#[export] Hint Rewrite zlen_entry_bytes : zlen.

Lemma entry_size_pos e : 8 <= entry_size e.
Proof. unfold entry_size, SIZEOF_KV_PAIR; zl. Qed.

Lemma entries_bytes_app a b : entries_bytes (a ++ b) = entries_bytes a ++ entries_bytes b.
Proof. unfold entries_bytes. apply flat_map_app. Qed.
Lemma entries_bytes_cons e b : entries_bytes (e :: b) = entry_bytes e ++ entries_bytes b.
Proof. done. Qed.

Lemma entries_bytes_nil : entries_bytes [] = [].
Proof. done. Qed.
#[export] Hint Rewrite entries_bytes_app entries_bytes_cons entries_bytes_nil : zlen.

Lemma zlen_entries_ge es : 8 * zlen es <= zlen (entries_bytes es).
Proof.
  induction es as [|e es IH]; [done|]. rewrite entries_bytes_cons.
  pose proof (entry_size_pos e). zl.
Qed.

(** Reading a pair where its encoding stands gives the entry back. *)
Lemma kv_read_at d pre e post :
  d = pre ++ entry_bytes e ++ post -> entry_ok e ->
  kv_key_length d (zlen pre) = zlen (e_key e) /\
  kv_value_length d (zlen pre) = zlen (e_value e) /\
  kv_child_page_id d (zlen pre) = e_child e /\
  kv_key d (zlen pre) = e_key e /\
  kv_value d (zlen pre) = e_value e.
Proof.
  intros Hd (Hk & Hv & Hc). unfold UINT16_MAX, UINT32_MAX in *.
  pose proof (zlen_nonneg (e_key e)); pose proof (zlen_nonneg (e_value e)).
  unfold entry_bytes in Hd. rewrite <- !app_assoc in Hd.
  assert (kv_key_length d (zlen pre) = zlen (e_key e)) as Ek.
  { unfold kv_key_length. erewrite sub_eq_app; [|exact Hd|done|by rewrite zlen_le_encode].
    apply le_decode_encode. change (256 ^ Z.of_nat 2) with 65536. lia. }
  rewrite app_assoc in Hd.
  assert (kv_value_length d (zlen pre) = zlen (e_value e)) as Ev.
  { unfold kv_value_length.
    erewrite sub_eq_app; [|exact Hd|autorewrite with zlen; lia|by rewrite zlen_le_encode].
    apply le_decode_encode. change (256 ^ Z.of_nat 2) with 65536. lia. }
  rewrite app_assoc in Hd. split_and!; [done|done| | |].
  - unfold kv_child_page_id.
    erewrite sub_eq_app; [|exact Hd|autorewrite with zlen; lia|by rewrite zlen_le_encode].
    apply le_decode_encode. change (256 ^ Z.of_nat 4) with 4294967296. lia.
  - rewrite app_assoc in Hd. unfold kv_key, SIZEOF_KV_PAIR. rewrite Ek.
    eapply sub_eq_app; [exact Hd|autorewrite with zlen; lia|done].
  - rewrite !app_assoc in Hd. rewrite <- (app_assoc _ (e_value e)) in Hd.
    unfold kv_value, SIZEOF_KV_PAIR. rewrite Ek, Ev.
    eapply sub_eq_app; [exact Hd|autorewrite with zlen; lia|done].
Qed.

Lemma kv_size_at d pre e post :
  d = pre ++ entry_bytes e ++ post -> entry_ok e ->
  kv_size d (zlen pre) = entry_size e.
Proof.
  intros Hd He. unfold kv_size.
  by destruct (kv_read_at d pre e post Hd He) as (-> & -> & _).
Qed.

(** The byte offset of entry [i]. *)
Definition off_of (es : list entry) (i : nat) : Z := zlen (entries_bytes (take i es)).

Lemma off_of_0 es : off_of es 0 = 0.
Proof. done. Qed.
Lemma off_of_S e es i : off_of (e :: es) (S i) = entry_size e + off_of es i.
Proof. unfold off_of. rewrite firstn_cons, entries_bytes_cons. zl. Qed.
Lemma off_of_all es i : (length es <= i)%nat -> off_of es i = zlen (entries_bytes es).
Proof. intros; unfold off_of. by rewrite take_ge. Qed.
Lemma off_of_le es i : off_of es i <= zlen (entries_bytes es).
Proof.
  unfold off_of. rewrite <- (take_drop i es) at 2. rewrite entries_bytes_app. zl.
Qed.
Lemma off_of_succ es i e : es !! i = Some e -> off_of es (S i) = off_of es i + entry_size e.
Proof.
  intros He. unfold off_of.
  rewrite (take_S_r _ _ _ He), entries_bytes_app. zl.
Qed.
Lemma off_of_mono es i j : (i <= j)%nat -> off_of es i <= off_of es j.
Proof.
  intros. unfold off_of. rewrite <- (take_drop i (take j es)), take_take.
  rewrite entries_bytes_app, Nat.min_l by lia. zl.
Qed.
Lemma off_of_nonneg es i : 0 <= off_of es i.
Proof. unfold off_of; zl. Qed.

Lemma walk_pairs_spec n d pre es slack used :
  d = pre ++ entries_bytes es ++ slack ->
  used = zlen pre + zlen (entries_bytes es) ->
  Forall entry_ok es -> (n <= length es)%nat ->
  walk_pairs n d used (zlen pre) = Some (zlen pre + off_of es n).
Proof.
  revert pre es. induction n as [|n IH]; intros pre es Hd Hu Hok Hn; simpl.
  { rewrite off_of_0. f_equal; lia. }
  destruct es as [|e es]; [simpl in Hn; lia|].
  rewrite entries_bytes_cons in *. inversion Hok; subst used.
  pose proof (entry_size_pos e).
  rewrite (kv_size_at d pre e (entries_bytes es ++ slack))
    by (by rewrite ?Hd, <- ?app_assoc).
  unfold SIZEOF_KV_PAIR.
  destruct (Z.gtb_spec (zlen pre + 8) (zlen pre + zlen (entry_bytes e ++ entries_bytes es))); [zl|].
  destruct (Z.gtb_spec (entry_size e) (zlen pre + zlen (entry_bytes e ++ entries_bytes es) - zlen pre));
    [zl|].
  rewrite off_of_S.
  replace (zlen pre + entry_size e) with (zlen (pre ++ entry_bytes e)) by zl.
  rewrite (IH (pre ++ entry_bytes e) es).
  - f_equal; zl.
  - by rewrite Hd, <- !app_assoc.
  - zl.
  - done.
  - simpl in Hn; lia.
Qed.

Lemma get_kv_loop_spec n d pre es slack e cap :
  d = pre ++ entries_bytes es ++ slack -> zlen d = cap ->
  Forall entry_ok es -> es !! n = Some e ->
  get_kv_loop n d cap (zlen pre) = Some (zlen pre + off_of es n).
Proof.
  revert pre es. induction n as [|n IH]; intros pre es Hd Hu Hok Hn;
    destruct es as [|e' es]; try done; cbn [get_kv_loop];
    rewrite entries_bytes_cons in *; inversion Hok; subst cap;
    pose proof (entry_size_pos e');
    rewrite (kv_size_at d pre e' (entries_bytes es ++ slack))
      by (by rewrite ?Hd, <- ?app_assoc);
    unfold SIZEOF_KV_PAIR;
    assert (zlen d = zlen pre + entry_size e' + zlen (entries_bytes es) + zlen slack) as Hl
      by (rewrite Hd; zl); zlen_facts.
  - destruct (Z.gtb_spec (zlen pre + 8) (zlen d)); [lia|].
    destruct (Z.gtb_spec (zlen pre + entry_size e') (zlen d)); [lia|].
    rewrite off_of_0. f_equal; lia.
  - destruct (Z.gtb_spec (zlen pre + 8) (zlen d)); [lia|].
    destruct (Z.gtb_spec (entry_size e') (zlen d - zlen pre)); [lia|].
    rewrite off_of_S.
    replace (zlen pre + entry_size e') with (zlen (pre ++ entry_bytes e')) by zl.
    rewrite (IH (pre ++ entry_bytes e') es).
    + f_equal; zl.
    + by rewrite Hd, <- !app_assoc.
    + done.
    + done.
    + done.
Qed.

(** ** What the operations compute on a represented page *)
Section repr.
Context (page : btree_page) (es : list entry) (Hrepr : page_repr page es).

Lemma page_repr_capacity : zlen (entries_bytes es) + free_space (header page) = btree_page_capacity.
Proof using Hrepr. destruct Hrepr as (slack & Hd & Hl & _ & Hf & _). rewrite Hd in Hl. zl. Qed.

Lemma page_repr_count : key_count (header page) = zlen es.
Proof using Hrepr. by destruct Hrepr as (slack & _ & _ & -> & _). Qed.

Lemma page_repr_bounds :
  0 <= key_count (header page) <= 503 /\ 0 <= free_space (header page) <= 4024.
Proof using Hrepr.
  destruct Hrepr as (slack & Hd & Hl & Hk & Hf & _). rewrite Hd in Hl.
  pose proof (zlen_entries_ge es).
  unfold btree_page_capacity, PAGE_SIZE, SIZEOF_PAGE_HEADER in Hl. zl.
Qed.

Lemma btree_used_bytes_repr : btree_used_bytes page = Some (zlen (entries_bytes es)).
Proof using Hrepr.
  unfold btree_used_bytes. pose proof page_repr_capacity.
  destruct (Z.gtb_spec (free_space (header page)) btree_page_capacity); [zl|f_equal; lia].
Qed.

Lemma kv_at_repr i e :
  es !! i = Some e ->
  kv_key (data page) (off_of es i) = e_key e /\
  kv_value (data page) (off_of es i) = e_value e /\
  kv_child_page_id (data page) (off_of es i) = e_child e /\
  kv_key_length (data page) (off_of es i) = zlen (e_key e) /\
  kv_size (data page) (off_of es i) = entry_size e.
Proof using Hrepr.
  intros He. destruct Hrepr as (slack & Hd & _ & _ & _ & Hok).
  assert (entry_ok e) as Hoke by (eapply Forall_lookup_1; eauto).
  assert (data page = entries_bytes (take i es) ++ entry_bytes e ++
            entries_bytes (drop (S i) es) ++ slack) as Hsplit.
  { rewrite Hd, <- (take_drop_middle es i e He) at 1.
    by rewrite entries_bytes_app, entries_bytes_cons, <- !app_assoc. }
  destruct (kv_read_at _ _ _ _ Hsplit Hoke) as (?&?&?&?&?).
  pose proof (kv_size_at _ _ _ _ Hsplit Hoke). auto.
Qed.

Lemma entry_offset_repr i :
  (i <= length es)%nat ->
  entry_offset page (Z.of_nat i) (zlen (entries_bytes es)) = Some (off_of es i).
Proof using Hrepr.
  intros. destruct Hrepr as (slack & Hd & _ & _ & _ & Hok).
  unfold entry_offset. rewrite Nat2Z.id.
  by rewrite (walk_pairs_spec i (data page) [] es slack).
Qed.

Lemma get_kv_pair_repr i e :
  es !! i = Some e -> get_kv_pair page (Z.of_nat i) = Some (off_of es i).
Proof using Hrepr.
  intros He. pose proof (lookup_lt_Some _ _ _ He).
  destruct Hrepr as (slack & Hd & Hl & Hk & _ & Hok). unfold get_kv_pair.
  rewrite Hk, Nat2Z.id. unfold zlen at 1.
  destruct (Z.ltb_spec (Z.of_nat i) 0); [lia|].
  rewrite Z.geb_leb. destruct (Z.leb_spec (Z.of_nat (length es)) (Z.of_nat i)); [lia|].
  simpl. by rewrite (get_kv_loop_spec i (data page) [] es slack e).
Qed.

Lemma get_kv_pair_out i : ~ (0 <= i < zlen es) -> get_kv_pair page i = None.
Proof using Hrepr.
  intros. unfold get_kv_pair. rewrite page_repr_count.
  destruct (Z.ltb_spec i 0); [done|]. rewrite Z.geb_leb.
  destruct (Z.leb_spec (zlen es) i); [done|lia].
Qed.
End repr.

(** [compare_keys] is the lexicographic order on byte strings. *)
Lemma compare_keys_lex a b : compare_keys a b = lex a b.
Proof.
  revert b. induction a as [|x a IH]; intros [|y b]; try done.
  specialize (IH b). unfold compare_keys in IH |- *. rewrite !zlen_cons.
  assert ((1 + zlen a <? 1 + zlen b) = (zlen a <? zlen b)) as E1 by lia.
  assert ((1 + zlen a >? 1 + zlen b) = (zlen a >? zlen b)) as E2 by lia.
  rewrite E1, E2.
  assert (forall n (c : Z) l, 0 <= n -> ztake (1 + n) (c :: l) = c :: ztake n l) as Et.
  { intros n c l Hn. unfold ztake. by replace (Z.to_nat (1 + n)) with (S (Z.to_nat n)) by lia. }
  simpl lex. rewrite <- IH.
  destruct (zlen a <? zlen b); rewrite !Et by apply zlen_nonneg; simpl memcmp;
    by destruct (x ?= y).
Qed.

Definition entry_lt (a b : entry) : Prop := lex_lt (e_key a) (e_key b).

(** The entries of a page are kept in strictly increasing key order. *)
Definition keys_sorted (es : list entry) : Prop := StronglySorted entry_lt es.

(** [pos] is the first position whose key is not below [key]. *)
Definition lower_bound (es : list entry) (key : bytes) (pos : Z) : Prop :=
  0 <= pos <= zlen es /\
  (forall i e, es !! i = Some e -> Z.of_nat i < pos -> lex_lt (e_key e) key) /\
  (forall i e, es !! i = Some e -> pos <= Z.of_nat i -> lex_le key (e_key e)).

Lemma keys_sorted_lookup es i j a b :
  keys_sorted es -> es !! i = Some a -> es !! j = Some b -> (i < j)%nat -> entry_lt a b.
Proof.
  intros Hs. revert i j. induction Hs as [|x l Hs IH Hx]; intros [|i] [|j] Ha Hb Hij;
    try done; try lia.
  - simplify_eq/=. eapply Forall_lookup_1 in Hx; eauto.
  - eapply IH; eauto; lia.
Qed.

Lemma find_key_loop_spec fuel page es key left right :
  page_repr page es -> keys_sorted es ->
  0 <= left <= right + 1 -> right < zlen es -> right - left + 1 < Z.of_nat fuel ->
  (forall i e, es !! i = Some e -> Z.of_nat i < left -> lex_lt (e_key e) key) ->
  (forall i e, es !! i = Some e -> right < Z.of_nat i -> lex_lt key (e_key e)) ->
  lower_bound es key (find_key_loop fuel page key left right).
Proof.
  intros Hr Hs. revert left right.
  induction fuel as [|fuel IH]; intros left right Hlr Hre Hf Hlo Hhi; [lia|]. simpl.
  destruct (Z.leb_spec left right); cycle 1.
  { split_and!; [zl|zl|done|]. intros i e He Hi. apply lex_lt_le. eapply Hhi; eauto. lia. }
  set (mid := (left + right) / 2). assert (left <= mid <= right) by (subst mid; zdiv).
  destruct (lookup_lt_is_Some_2 es (Z.to_nat mid)) as [e He].
  { unfold zlen in Hre. lia. }
  replace mid with (Z.of_nat (Z.to_nat mid)) by lia.
  rewrite (get_kv_pair_repr page es Hr _ _ He).
  destruct (kv_at_repr page es Hr _ _ He) as (-> & _).
  rewrite compare_keys_lex, Z2Nat.id by lia.
  destruct (lex key (e_key e)) eqn:Hc.
  - apply lex_eq in Hc as ->. split_and!; [lia|lia| |].
    + intros i e' He' Hi. eapply keys_sorted_lookup in He; [exact He|eauto..]. lia.
    + intros i e' He' Hi. apply lex_le_alt.
      destruct (decide (i = Z.to_nat mid)) as [->|]; [right; congruence|].
      left. eapply keys_sorted_lookup; [done|exact He|exact He'|lia].
  - apply IH; [lia|lia|lia|done|]. intros i e' He' Hi.
    destruct (decide (i = Z.to_nat mid)) as [->|]; [by simplify_eq|].
    trans (e_key e); [done|]. eapply keys_sorted_lookup; [done|exact He|exact He'|lia].
  - assert (lex_lt (e_key e) key) as Hlt.
    { unfold lex_lt. by rewrite lex_antisym, Hc. }
    apply IH; [lia|lia|lia| |done]. intros i e' He' Hi.
    destruct (decide (i = Z.to_nat mid)) as [->|]; [by simplify_eq|].
    trans (e_key e); [|done]. eapply keys_sorted_lookup; [done|exact He'|exact He|lia].
Qed.

Lemma find_key_position_lb page es key :
  page_repr page es -> keys_sorted es ->
  lower_bound es key (find_key_position page key).
Proof.
  intros Hr Hs. unfold find_key_position. rewrite (page_repr_count page es Hr).
  apply find_key_loop_spec; try done; try zl.
  intros i e He Hi. apply lookup_lt_Some in He. unfold zlen in Hi. lia.
Qed.

Definition insert_entry (es : list entry) (i : nat) (e : entry) : list entry :=
  take i es ++ e :: drop i es.
Definition delete_entry (es : list entry) (i : nat) : list entry :=
  take i es ++ drop (S i) es.

Lemma page_repr_intro h d es slack :
  d = entries_bytes es ++ slack -> zlen d = btree_page_capacity ->
  key_count h = zlen es -> free_space h = zlen slack -> Forall entry_ok es ->
  page_repr (mkPage h d) es.
Proof. intros. exists slack. done. Qed.

Lemma insert_kv_pair_repr page es i e :
  page_repr page es -> entry_ok e -> (i <= length es)%nat ->
  entry_size e <= free_space (header page) ->
  exists page',
    insert_kv_pair page (Z.of_nat i) (e_key e) (e_value e) (e_child e) = Some page' /\
    page_repr page' (insert_entry es i e) /\
    header page' = set_header_fields (header page) (key_count (header page) + 1)
                     (free_space (header page) - entry_size e).
Proof.
  intros Hr He Hi Hroom. pose proof (page_repr_bounds _ _ Hr) as [Hkb Hfb].
  pose proof (page_repr_capacity _ _ Hr) as Hcap. pose proof (entry_size_pos e).
  destruct Hr as (slack & Hd & Hl & Hk & Hf & Hok).
  assert (data page = entries_bytes (take i es) ++ entries_bytes (drop i es) ++ slack) as Hd'.
  { by rewrite Hd, app_assoc, <- entries_bytes_app, take_drop. }
  destruct He as (Hek & Hev & Hec).
  unfold insert_kv_pair. fold (entry_size e).
  change (PAGE_SIZE - SIZEOF_PAGE_HEADER) with btree_page_capacity.
  destruct (Z.ltb_spec (free_space (header page)) (entry_size e)); [lia|].
  destruct (Z.gtb_spec (free_space (header page)) btree_page_capacity); [zl|].
  rewrite Nat2Z.id.
  rewrite (walk_pairs_spec i (data page) [] es slack) by (done || (zl)).
  simpl. rewrite zlen_nil, Z.add_0_l.
  rewrite !u16_small, u32_small by (unfold UINT16_MAX in *; zl).
  fold (entry_bytes e). eexists; split; [done|]. split; [|done].
  assert (off_of es i = zlen (entries_bytes (take i es))) as Ho by done.
  assert (btree_page_capacity - free_space (header page) - off_of es i
          = zlen (entries_bytes (drop i es))) as Hm.
  { rewrite <- Hcap, Ho, <- (take_drop i es) at 1. rewrite entries_bytes_app. zl. }
  rewrite Hm, Ho.
  assert (sub (zlen (entries_bytes (take i es))) (zlen (entries_bytes (drop i es))) (data page)
          = entries_bytes (drop i es)) as ->.
  { by eapply sub_eq_app. }
  rewrite <- (zlen_entry_bytes e).
  match goal with |- page_repr (mkPage _ (write_at _ _ ?d)) _ =>
    assert (d = write_at (zlen (entries_bytes (take i es)) + zlen (entry_bytes e))
                  (entries_bytes (drop i es)) (data page)) as -> end.
  { destruct (Z.gtb_spec (zlen (entries_bytes (drop i es))) 0); [done|].
    rewrite (zlen_0_nil (entries_bytes (drop i es))) by zl. rewrite write_at_nil; [done|zl]. }
  rewrite Hd', memmove_open by zl.
  eapply page_repr_intro with (slack := zdrop (zlen (entry_bytes e)) slack).
  - unfold insert_entry. rewrite entries_bytes_app, entries_bytes_cons.
    by rewrite <- !app_assoc.
  - rewrite Hd' in Hl. zl.
  - unfold insert_entry; simpl. rewrite Hk.
    rewrite <- (take_drop i es) at 1. zl.
  - simpl. zl.
  - unfold insert_entry. rewrite <- (take_drop i es) in Hok.
    apply Forall_app in Hok as [??]. apply Forall_app; split; [done|]. by constructor.
Qed.

Lemma insert_kv_pair_full page position key value child :
  free_space (header page) < SIZEOF_KV_PAIR + zlen key + zlen value ->
  insert_kv_pair page position key value child = None.
Proof. intros. unfold insert_kv_pair. by case_match; [|lia]. Qed.

Lemma delete_kv_pair_repr page es i e :
  page_repr page es -> es !! i = Some e ->
  exists page',
    delete_kv_pair page (Z.of_nat i) = Some page' /\
    page_repr page' (delete_entry es i) /\
    header page' = set_header_fields (header page) (key_count (header page) - 1)
                     (free_space (header page) + entry_size e).
Proof.
  intros Hr He. pose proof (page_repr_bounds _ _ Hr) as [Hkb Hfb].
  pose proof (page_repr_capacity _ _ Hr) as Hcap. pose proof (entry_size_pos e).
  pose proof (lookup_lt_Some _ _ _ He) as Hi.
  pose proof (get_kv_pair_repr _ _ Hr _ _ He) as Hg.
  destruct (kv_at_repr _ _ Hr _ _ He) as (_ & _ & _ & _ & Hsz).
  destruct Hr as (slack & Hd & Hl & Hk & Hf & Hok).
  pose proof (take_drop_middle es i e He) as Hes.
  assert (data page = entries_bytes (take i es) ++ entry_bytes e ++
            entries_bytes (drop (S i) es) ++ slack) as Hd'.
  { rewrite Hd, <- Hes at 1. by rewrite entries_bytes_app, entries_bytes_cons, <- !app_assoc. }
  assert (zlen es = zlen (take i es) + 1 + zlen (drop (S i) es)) as Hlen.
  { rewrite <- Hes at 1. zl. }
  assert (zlen (entries_bytes es) = off_of es i + entry_size e +
            zlen (entries_bytes (drop (S i) es))) as Hb.
  { rewrite <- Hes at 1. unfold off_of. zl. }
  unfold delete_kv_pair. rewrite Hk.
  destruct (Z.ltb_spec (Z.of_nat i) 0); [lia|]. rewrite Z.geb_leb.
  destruct (Z.leb_spec (zlen es) (Z.of_nat i)); [unfold zlen in *; lia|].
  rewrite Hg. simpl. rewrite Hsz.
  change (PAGE_SIZE - SIZEOF_PAGE_HEADER) with btree_page_capacity.
  destruct (Z.gtb_spec (free_space (header page)) btree_page_capacity); [zl|].
  destruct (Z.gtb_spec (off_of es i + entry_size e)
              (btree_page_capacity - free_space (header page))); [zl|].
  assert (btree_page_capacity - free_space (header page) - (off_of es i + entry_size e)
          = zlen (entries_bytes (drop (S i) es))) as -> by lia.
  pose proof (off_of_nonneg es i). unfold btree_page_capacity, PAGE_SIZE, SIZEOF_PAGE_HEADER in Hcap.
  rewrite !u16_small by (unfold UINT16_MAX; zl).
  eexists; split; [done|]. split; [|done].
  assert (sub (off_of es i + entry_size e) (zlen (entries_bytes (drop (S i) es))) (data page)
          = entries_bytes (drop (S i) es)) as ->.
  { eapply sub_eq_app; [by rewrite Hd', app_assoc|unfold off_of; zl|done]. }
  match goal with |- page_repr (mkPage _ ?d) _ =>
    assert (d = write_at (off_of es i) (entries_bytes (drop (S i) es)) (data page)) as -> end.
  { destruct (Z.gtb_spec (zlen (entries_bytes (drop (S i) es))) 0); [done|].
    rewrite (zlen_0_nil (entries_bytes (drop (S i) es))) by zl. by rewrite write_at_nil. }
  rewrite Hd'. unfold off_of. rewrite memmove_close.
  eapply page_repr_intro.
  - unfold delete_entry. rewrite entries_bytes_app. by rewrite <- !app_assoc.
  - rewrite Hd' in Hl. zl.
  - unfold delete_entry; cbn [key_count set_header_fields]. zl.
  - cbn [free_space set_header_fields]. zl.
  - unfold delete_entry. rewrite <- Hes in Hok.
    apply Forall_app in Hok as [? Hok]. inversion Hok. by apply Forall_app.
Qed.

(** ** Splitting a page *)

(** [k] is the first entry after the first one that starts past the halfway
    mark of the used bytes, or the last entry when there is none. *)
Definition split_point (es : list entry) (k : nat) : Prop :=
  let half := zlen (entries_bytes es) / 2 in
  (0 < k < length es)%nat /\
  (forall j, (0 < j < k)%nat -> off_of es j < half) /\
  (half <= off_of es k \/ S k = length es).

Lemma choose_split_loop_spec page es n i :
  page_repr page es -> (2 <= length es)%nat -> (i + n = length es)%nat ->
  (forall j, (0 < j < i)%nat -> off_of es j < zlen (entries_bytes es) / 2) ->
  exists k, choose_split_loop n (Z.of_nat i) (data page) (zlen es)
              (zlen (entries_bytes es)) (zlen (entries_bytes es) / 2) (off_of es i)
            = Z.of_nat k /\ split_point es k.
Proof.
  intros Hr H2. revert i. induction n as [|n IH]; intros i Hin Hlo; simpl.
  - exists (length es - 1)%nat. unfold zlen at 1 2.
    destruct (Z.gtb_spec (Z.of_nat (length es)) 1); [|lia]. split; [lia|].
    split_and!; [lia|lia| |right; lia]. intros j Hj. apply Hlo. lia.
  - destruct (lookup_lt_is_Some_2 es i) as [e He]; [lia|].
    destruct (kv_at_repr _ _ Hr _ _ He) as (_ & _ & _ & _ & Hsz).
    pose proof (off_of_succ es i e He) as Hs. pose proof (off_of_le es (S i)).
    pose proof (entry_size_pos e).
    rewrite Z.geb_leb.
    destruct (Z.leb_spec (zlen (entries_bytes es) / 2) (off_of es i)) as [Hh|Hh];
      destruct (Z.gtb_spec (Z.of_nat i) 0); simpl.
    1: { exists i. split; [done|]. split_and!; [lia|lia|done|by left]. }
    all: unfold SIZEOF_KV_PAIR;
      destruct (Z.gtb_spec (off_of es i + 8) (zlen (entries_bytes es))); [lia|];
      rewrite Hsz;
      destruct (Z.gtb_spec (entry_size e) (zlen (entries_bytes es) - off_of es i)); [lia|];
      rewrite <- Hs; replace (Z.of_nat i + 1) with (Z.of_nat (S i)) by lia;
      apply IH; [lia|]; intros j Hj; destruct (decide (j = i)) as [->|]; [lia|apply Hlo; lia].
Qed.

Lemma choose_split_index_spec page es :
  page_repr page es -> (2 <= length es)%nat ->
  exists k, choose_split_index page (zlen (entries_bytes es)) = Z.of_nat k /\ split_point es k.
Proof.
  intros Hr H2. unfold choose_split_index. rewrite (page_repr_count _ _ Hr).
  unfold zlen at 1. rewrite Nat2Z.id.
  apply (choose_split_loop_spec page es (length es) 0); auto. lia.
Qed.

(** A single entry offers no split point, on a leaf or an internal page. *)
Lemma choose_split_index_one page e :
  page_repr page [e] -> choose_split_index page (zlen (entries_bytes [e])) = -1.
Proof.
  intros Hr. unfold choose_split_index. rewrite (page_repr_count _ _ Hr).
  change (zlen [e]) with 1. change (Z.to_nat 1) with 1%nat. cbn [choose_split_loop].
  change (0 >? 0) with false. rewrite andb_false_r. by repeat case_match.
Qed.

Lemma split_point_bytes page es k :
  page_repr page es -> (k <= length es)%nat ->
  sub (off_of es k) (zlen (entries_bytes es) - off_of es k) (data page)
  = entries_bytes (drop k es).
Proof.
  intros (slack & Hd & _) Hk.
  eapply sub_eq_app with (a := entries_bytes (take k es)) (c := slack).
  - by rewrite Hd, app_assoc, <- entries_bytes_app, take_drop.
  - done.
  - rewrite <- (take_drop k es) at 1. unfold off_of. zl.
Qed.

Lemma page_repr_prefix page es k h :
  page_repr page es -> (k <= length es)%nat ->
  key_count h = Z.of_nat k -> free_space h = btree_page_capacity - off_of es k ->
  page_repr (mkPage h (data page)) (take k es).
Proof.
  intros (slack & Hd & Hl & Hkc & Hf & Hok) Hk Hhk Hhf.
  eapply page_repr_intro with (slack := entries_bytes (drop k es) ++ slack).
  - by rewrite Hd, app_assoc, <- entries_bytes_app, take_drop.
  - done.
  - unfold zlen. rewrite length_take. lia.
  - rewrite Hhf, <- Hl, Hd, <- (take_drop k es) at 1. unfold off_of. zl.
  - by apply Forall_take.
Qed.

Lemma page_repr_suffix es k h d :
  zlen d = btree_page_capacity -> Forall entry_ok es -> (k <= length es)%nat ->
  zlen (entries_bytes (drop k es)) <= btree_page_capacity ->
  key_count h = zlen es - Z.of_nat k ->
  free_space h = btree_page_capacity - zlen (entries_bytes (drop k es)) ->
  page_repr (mkPage h (write_at 0 (entries_bytes (drop k es)) d)) (drop k es).
Proof.
  intros Hl Hok Hk Hfit Hhk Hhf.
  eapply page_repr_intro with (slack := zdrop (zlen (entries_bytes (drop k es))) d).
  - done.
  - rewrite zlen_write_at; lia.
  - unfold zlen in *. rewrite length_drop. lia.
  - zl.
  - by apply Forall_drop.
Qed.

Lemma split_sep_bounds page es i e :
  page_repr page es -> es !! i = Some e ->
  0 <= off_of es i /\ off_of es i + entry_size e <= zlen (entries_bytes es) /\
  kv_key_length (data page) (off_of es i) = zlen (e_key e) /\
  kv_key (data page) (off_of es i) = e_key e /\
  SIZEOF_KV_PAIR + zlen (e_key e) <= entry_size e.
Proof.
  intros Hr He. destruct (kv_at_repr _ _ Hr _ _ He) as (-> & _ & _ & -> & _).
  pose proof (off_of_succ _ _ _ He). pose proof (off_of_le es (S i)).
  unfold entry_size in *. split_and!; try done; pose proof (off_of_nonneg es i); zl.
Qed.

(** Splitting a leaf keeps every entry: the lower part stays, the upper part
    moves, the separator is the highest key that stays, and the new page takes
    the old one's place in the sibling chain. *)
Lemma btree_split_page_leaf src dst es id sep_size :
  page_repr src es -> page_type (header src) = PAGE_TYPE_LEAF ->
  (2 <= length es)%nat -> Forall (fun e => zlen (e_key e) <= sep_size) es ->
  zlen (data dst) = btree_page_capacity ->
  exists k e src' dst',
    btree_split_page src dst id sep_size = Some (src', dst', e_key e) /\
    split_point es k /\ es !! (k - 1)%nat = Some e /\
    page_repr src' (take k es) /\ page_repr dst' (drop k es) /\
    page_type (header src') = PAGE_TYPE_LEAF /\ page_type (header dst') = PAGE_TYPE_LEAF /\
    page_id (header src') = page_id (header src) /\ page_id (header dst') = id /\
    next_page_id (header src') = id /\
    next_page_id (header dst') = next_page_id (header src).
Proof.
  intros Hr Ht H2 Hsep Hdst. pose proof (page_repr_bounds _ _ Hr) as [Hkb _].
  pose proof (page_repr_capacity _ _ Hr) as Hcap.
  pose proof (page_repr_count _ _ Hr) as Hkc. pose proof (page_repr_bounds _ _ Hr) as [_ Hfb].
  destruct (choose_split_index_spec _ _ Hr H2) as (k & Hmid & Hsp).
  pose proof Hsp as ((Hk0 & Hk1) & _ & _).
  destruct (lookup_lt_is_Some_2 es (k - 1)) as [e He]; [lia|].
  destruct (split_sep_bounds _ _ _ _ Hr He) as (Hs0 & Hs1 & Hkl & Hkey & Hsz).
  pose proof (proj1 (Forall_lookup _ _) Hsep _ _ He) as Hse; simpl in Hse.
  pose proof (off_of_le es k). pose proof (off_of_nonneg es k).
  unfold btree_split_page. rewrite Ht. simpl.
  rewrite (btree_used_bytes_repr _ _ Hr). simpl. rewrite Hmid, Hkc.
  unfold btree_page_capacity, PAGE_SIZE, SIZEOF_PAGE_HEADER in *.
  assert (zlen es = Z.of_nat (length es)) as Hle by done.
  repeat guard_false.
  replace (Z.of_nat k - 1) with (Z.of_nat (k - 1)) by lia.
  rewrite (entry_offset_repr _ _ Hr (k - 1)), (entry_offset_repr _ _ Hr k) by lia.
  simpl. rewrite Hkl, Hkey. zlen_facts. repeat guard_false.
  rewrite (split_point_bytes _ _ _ Hr) by lia.
  rewrite !u16_small by (unfold UINT16_MAX; lia).
  assert (zlen (entries_bytes (drop k es)) = zlen (entries_bytes es) - off_of es k) as Hdr.
  { rewrite <- (take_drop k es) at 2. unfold off_of. zl. }
  exists k, e. do 2 eexists. split; [done|].
  split_and!; try done.
  - eapply (page_repr_prefix src es k); auto with lia.
  - apply page_repr_suffix; cbn; unfold btree_page_capacity, PAGE_SIZE, SIZEOF_PAGE_HEADER;
      try lia; try done. by destruct Hr as (? & ? & ? & ? & ? & ?).
Qed.

(** Splitting an internal page hands entry [k] to the parent: its key becomes
    the separator and its child the rightmost child of the lower half. *)
Lemma btree_split_page_internal src dst es id sep_size :
  page_repr src es -> page_type (header src) <> PAGE_TYPE_LEAF ->
  (2 <= length es)%nat -> Forall (fun e => zlen (e_key e) <= sep_size) es ->
  zlen (data dst) = btree_page_capacity ->
  exists k e src' dst',
    btree_split_page src dst id sep_size = Some (src', dst', e_key e) /\
    split_point es k /\ es !! k = Some e /\
    page_repr src' (take k es) /\ page_repr dst' (drop (S k) es) /\
    page_type (header src') = page_type (header src) /\
    page_type (header dst') = page_type (header src) /\
    page_id (header src') = page_id (header src) /\ page_id (header dst') = id /\
    next_page_id (header src') = e_child e /\
    next_page_id (header dst') = next_page_id (header src).
Proof.
  intros Hr Ht H2 Hsep Hdst. pose proof (page_repr_bounds _ _ Hr) as [Hkb Hfb].
  pose proof (page_repr_capacity _ _ Hr) as Hcap.
  pose proof (page_repr_count _ _ Hr) as Hkc.
  destruct (choose_split_index_spec _ _ Hr H2) as (k & Hmid & Hsp).
  pose proof Hsp as ((Hk0 & Hk1) & _ & _).
  destruct (lookup_lt_is_Some_2 es k) as [e He]; [lia|].
  destruct (split_sep_bounds _ _ _ _ Hr He) as (Hs0 & Hs1 & Hkl & Hkey & Hsz).
  destruct (kv_at_repr _ _ Hr _ _ He) as (_ & _ & Hch & _ & Hksz).
  pose proof (proj1 (Forall_lookup _ _) Hsep _ _ He) as Hse; simpl in Hse.
  pose proof (off_of_succ _ _ _ He) as Hosucc. pose proof (entry_size_pos e).
  unfold btree_split_page. rewrite (proj2 (Z.eqb_neq _ _) Ht). simpl.
  rewrite (btree_used_bytes_repr _ _ Hr). simpl. rewrite Hmid, Hkc.
  unfold btree_page_capacity, PAGE_SIZE, SIZEOF_PAGE_HEADER in *.
  assert (zlen es = Z.of_nat (length es)) as Hle by done.
  repeat guard_false.
  rewrite !(entry_offset_repr _ _ Hr k) by lia.
  simpl. rewrite Hkl, Hkey. zlen_facts. repeat guard_false.
  rewrite Hksz, Hch. repeat guard_false. simpl. rewrite <- Hosucc. repeat guard_false.
  rewrite (split_point_bytes _ _ (S k) Hr) by lia.
  rewrite !u16_small by (unfold UINT16_MAX; lia).
  assert (zlen (entries_bytes (drop (S k) es)) = zlen (entries_bytes es) - off_of es (S k)) as Hdr.
  { rewrite <- (take_drop (S k) es) at 2. unfold off_of. zl. }
  exists k, e. do 2 eexists. split; [done|].
  split_and!; try done.
  - eapply (page_repr_prefix src es k); auto with lia.
  - apply page_repr_suffix; cbn [key_count free_space set_next_page_id set_header_fields];
      unfold btree_page_capacity, PAGE_SIZE, SIZEOF_PAGE_HEADER; try lia; try done.
    by destruct Hr as (? & ? & ? & ? & ? & ?).
Qed.

(** After a split no page holds more than half of the old bytes plus one
    entry. *)
Lemma split_point_balance es k m :
  split_point es k -> Forall (fun e => entry_size e <= m) es ->
  zlen (entries_bytes (take k es)) <= zlen (entries_bytes es) / 2 + m /\
  zlen (entries_bytes (drop k es)) <= zlen (entries_bytes es) / 2 + 1 + m.
Proof.
  intros ((Hk0 & Hk1) & Hlow & Hhigh) Hm.
  destruct (lookup_lt_is_Some_2 es (k - 1)) as [e He]; [lia|].
  pose proof (off_of_succ _ _ _ He) as Hs. replace (S (k - 1)) with k in Hs by lia.
  pose proof (proj1 (Forall_lookup _ _) Hm _ _ He) as He'; simpl in He'.
  assert (off_of es (k - 1) <= zlen (entries_bytes es) / 2) as Hprev.
  { destruct (decide (k = 1)%nat) as [->|]; [rewrite off_of_0; pose proof (zlen_nonneg (entries_bytes es)); zdiv|].
    apply Z.lt_le_incl, Hlow. lia. }
  assert (zlen (entries_bytes (drop k es)) = zlen (entries_bytes es) - off_of es k) as Hdr.
  { rewrite <- (take_drop k es) at 2. unfold off_of. zl. }
  pose proof (entry_size_pos e).
  split; [fold (off_of es k); lia|]. destruct Hhigh as [|Hlast]; [zdiv|].
  destruct (lookup_lt_is_Some_2 es k) as [e2 He2]; [lia|].
  pose proof (proj1 (Forall_lookup _ _) Hm _ _ He2) as Hm2; simpl in Hm2.
  rewrite (drop_S _ _ _ He2), (drop_ge es (S k)) by lia.
  pose proof (zlen_nonneg (entries_bytes es)). rewrite entries_bytes_cons, entries_bytes_nil.
  autorewrite with zlen. zdiv.
Qed.

(** The bytes of a page determine its entries. *)
Lemma entries_bytes_inj es es' slack slack' :
  entries_bytes es ++ slack = entries_bytes es' ++ slack' -> length es = length es' ->
  Forall entry_ok es -> Forall entry_ok es' -> es = es'.
Proof.
  revert es'. induction es as [|e es IH]; intros [|e' es'] Hd Hl Hok Hok'; try done.
  rewrite !entries_bytes_cons, <- !app_assoc in Hd.
  inversion Hok as [|? ? He Hes]; subst. inversion Hok' as [|? ? He' Hes']; subst.
  destruct (kv_read_at _ [] e (entries_bytes es ++ slack) eq_refl He) as (_ & _ & Hc & Hk & Hv).
  destruct (kv_read_at _ [] e' (entries_bytes es' ++ slack') eq_refl He') as (_ & _ & Hc' & Hk' & Hv').
  cbn [app] in *. rewrite Hd in Hc, Hk, Hv.
  assert (e = e') as -> by (destruct e, e'; cbn in *; congruence).
  f_equal. apply app_inv_head in Hd. injection Hl as Hl. by eapply IH.
Qed.

Lemma page_repr_inj page es es' : page_repr page es -> page_repr page es' -> es = es'.
Proof.
  intros (sl & Hd & _ & Hk & _ & Hok) (sl' & Hd' & _ & Hk' & _ & Hok').
  apply (entries_bytes_inj es es' sl sl'); [congruence| |done|done]. unfold zlen in *. lia.
Qed.
