(* ===== verification/Wal.v ===== *)
(** * Write-ahead log (storage/src/wal.c)

    The log is modelled byte for byte: the file, the in-memory buffer and the
    LSN counter. The kernel's answers to [write] come from a list of
    [io_result]s, consumed one per call; an exhausted list means every further
    call succeeds in full. [crc32] is zlib's and stays a parameter. *)
From S2P Require Import Prelude.

Local Open Scope Z_scope.

(** ** The kernel's answers to a [write]/[pwrite] call *)
Inductive io_result :=
| IoEintr              (** -1 with [errno == EINTR] *)
| IoError              (** -1 with any other [errno] *)
| IoZero               (** 0 *)
| IoPartial (n : Z).   (** a positive count, at most what was asked for *)

(** The retry loop around [write]: the bytes accepted by the kernel, whether
    the whole buffer went out, and the answers left. [total_written] bytes of
    [buf] are already out. *)
Fixpoint write_loop (io : list io_result) (buf : bytes) (total_written : Z)
    : bytes * bool * list io_result :=
  if total_written >=? zlen buf then ([], true, io) else
  match io with
  | [] => (zdrop total_written buf, true, [])
  | IoEintr :: io' => write_loop io' buf total_written
  | IoError :: io' => ([], false, io')
  | IoZero :: io' => ([], false, io')
  | IoPartial n :: io' =>
      let n := Z.min (Z.max 1 n) (zlen buf - total_written) in
      let '(out, ok, rest) := write_loop io' buf (total_written + n) in
      (sub total_written n buf ++ out, ok, rest)
  end.

(** An answer that makes the loop give up. *)
Definition io_fatal (r : io_result) : bool :=
  match r with IoError | IoZero => true | _ => false end.
Definition io_clean (io : list io_result) : bool := forallb (fun r => negb (io_fatal r)) io.

(** ** Data (storage/src/storage_internal.h) *)
Definition WAL_BUFFER_SIZE : Z := 1024 * 1024.
Definition SIZEOF_WAL_RECORD : Z := 32.

Inductive wal_record_type :=
| WAL_INSERT | WAL_UPDATE | WAL_DELETE | WAL_COMMIT | WAL_ABORT | WAL_CHECKOUT.
Definition wal_type_code (t : wal_record_type) : Z :=
  match t with
  | WAL_INSERT => 1 | WAL_UPDATE => 2 | WAL_DELETE => 3
  | WAL_COMMIT => 4 | WAL_ABORT => 5 | WAL_CHECKOUT => 6
  end.

Record wal_record := mkRecord {
  r_lsn : Z; r_txn_id : Z; r_type : wal_record_type; r_page_id : Z; r_data : bytes }.

(** [wal_buffer] holds the first [wal_buffer_pos] bytes of the C buffer. *)
Record wal_state := mkWal {
  wal_file : bytes; wal_buffer : bytes; next_lsn : Z;
  wal_records_written : Z; wal_io : list io_result }.
Definition wal_buffer_pos (w : wal_state) : Z := zlen (wal_buffer w).

Section wal.
(** zlib's [crc32] over a byte range. *)
Context (crc32 : bytes -> Z).

Definition calculate_checksum (data : bytes) : Z := u32 (crc32 data).

(** The packed header, [checksum] being the stored checksum field. *)
Definition record_header (lsn txn_id : Z) (type : wal_record_type)
    (page_id data_length checksum : Z) : bytes :=
  le_encode 8 lsn ++ le_encode 8 txn_id ++ le_encode 4 (wal_type_code type) ++
  le_encode 4 page_id ++ le_encode 4 data_length ++ le_encode 4 checksum.

Definition record_stride (content_size : Z) : Z := Z.land (content_size + 7) (SIZE_MAX - 7).

(** Header, payload and zero padding up to the 8-byte stride. *)
Definition record_bytes (r : wal_record) : bytes :=
  let content_size := SIZEOF_WAL_RECORD + zlen (r_data r) in
  let body cs := record_header (u64 (r_lsn r)) (u64 (r_txn_id r)) (r_type r)
                   (u32 (r_page_id r)) (u32 (zlen (r_data r))) cs ++ r_data r in
  body (calculate_checksum (body 0)) ++
  replicate (Z.to_nat (record_stride content_size - content_size)) 0.

Definition allocate_lsn (w : wal_state) : Z * wal_state :=
  (next_lsn w, mkWal (wal_file w) (wal_buffer w) (u64 (next_lsn w + 1))
                 (wal_records_written w) (wal_io w)).

(** Write out the buffer; it is emptied only when every byte went out. *)
Definition write_buffer (w : wal_state) : bool * wal_state :=
  let '(out, ok, io') := write_loop (wal_io w) (wal_buffer w) 0 in
  (ok, mkWal (wal_file w ++ out) (if ok then [] else wal_buffer w) (next_lsn w)
         (wal_records_written w) io').

Definition write_wal_record (txn_id : Z) (type : wal_record_type) (page_id : Z)
    (data : bytes) (w : wal_state) : Z * wal_state :=
  let content_size := SIZEOF_WAL_RECORD + zlen data in
  let record_size := record_stride content_size in
  if record_size >? WAL_BUFFER_SIZE then (-1, w) else
  let '(ok, w) := if wal_buffer_pos w + record_size >? WAL_BUFFER_SIZE
                  then write_buffer w else (true, w) in
  if negb ok then (-1, w) else
  let '(lsn, w) := allocate_lsn w in
  let record := record_bytes (mkRecord lsn txn_id type page_id data) in
  (0, mkWal (wal_file w) (wal_buffer w ++ record) (next_lsn w)
        (u64 (wal_records_written w + 1)) (wal_io w)).

Definition flush_wal_buffer (w : wal_state) : Z * wal_state :=
  if wal_buffer_pos w >? 0 then
    let '(ok, w) := write_buffer w in ((if ok then 0 else -1), w)
  else (0, w).

(** ** The retry loop *)
Lemma write_loop_clean io buf total :
  io_clean io = true -> 0 <= total <= zlen buf ->
  exists io', write_loop io buf total = (zdrop total buf, true, io') /\ io_clean io' = true.
Proof using.
  revert total. induction io as [|[| | |n] io IH]; intros total Hio Ht; simpl in *; try done;
    rewrite Z.geb_leb.
  all: destruct (Z.leb_spec (zlen buf) total); [rewrite zdrop_all by lia; eauto|]; eauto.
  set (m := Z.min (Z.max 1 n) (zlen buf - total)).
  destruct (IH (total + m) Hio) as (io' & -> & ?); [subst m; lia|].
  exists io'. split; [|done]. repeat f_equal. symmetry. apply zdrop_sub; subst m; lia.
Qed.

Lemma write_loop_success io buf total out io' :
  0 <= total <= zlen buf -> write_loop io buf total = (out, true, io') -> out = zdrop total buf.
Proof using.
  revert total out. induction io as [|[| | |k] io IH]; intros total out Ht; simpl;
    rewrite Z.geb_leb; destruct (Z.leb_spec (zlen buf) total); try done; eauto;
    try (intros [= <- _]; rewrite ?zdrop_all by lia; done).
  set (m := Z.min (Z.max 1 k) (zlen buf - total)).
  destruct (write_loop io buf (total + m)) as [[out' ok'] rest] eqn:E.
  intros [= <- -> ->]. rewrite (IH (total + m) out'); [|subst m; lia|done].
  symmetry. apply zdrop_sub; subst m; lia.
Qed.

(** A failing loop has put a proper prefix of what was left into the file. *)
Lemma write_loop_prefix io buf total out io' :
  0 <= total <= zlen buf -> write_loop io buf total = (out, false, io') ->
  exists n, 0 <= n /\ total + n < zlen buf /\ out = sub total n buf.
Proof using.
  revert total out. induction io as [|[| | |k] io IH]; intros total out Ht; simpl;
    rewrite Z.geb_leb; destruct (Z.leb_spec (zlen buf) total); try done; eauto.
  1, 2: intros [= <- <-]; exists 0; split_and!; [lia|lia|done].
  set (m := Z.min (Z.max 1 k) (zlen buf - total)).
  destruct (write_loop io buf (total + m)) as [[out' ok'] rest] eqn:E.
  intros [= <- -> ->]. destruct (IH (total + m) out') as (n & ? & ? & ->); [subst m; lia|done|].
  exists (m + n). split_and!; [subst m; lia|lia|].
  unfold sub. rewrite <- (ztake_zdrop m (ztake (m + n) (zdrop total buf))).
  rewrite ztake_ztake by (subst m; lia). f_equal.
  unfold ztake, zdrop. rewrite skipn_firstn_comm, drop_drop. f_equal; [lia|].
  f_equal. subst m; lia.
Qed.

(** ** Record layout *)
Lemma record_stride_spec n :
  0 <= n -> n + 7 <= SIZE_MAX ->
  record_stride n = 8 * ((n + 7) / 8) /\ n <= record_stride n < n + 8.
Proof using.
  intros Hn Hm. assert (record_stride n = 8 * ((n + 7) / 8)) as E.
  { unfold record_stride.
    change (SIZE_MAX - 7) with (Z.ldiff (Z.ones 64) (Z.ones 3)).
    assert (Z.land (n + 7) (Z.ldiff (Z.ones 64) (Z.ones 3))
            = Z.ldiff (Z.land (n + 7) (Z.ones 64)) (Z.ones 3)) as ->.
    { apply Z.bits_inj'; intros i Hi.
      rewrite !Z.land_spec, !Z.ldiff_spec, Z.land_spec. by rewrite andb_assoc. }
    rewrite Z.land_ones by lia. unfold SIZE_MAX, UINT64_MAX in Hm.
    rewrite Z.mod_small by lia. rewrite Z.ldiff_ones_r by lia.
    rewrite Z.shiftl_mul_pow2, Z.shiftr_div_pow2 by lia.
    change (2 ^ 3) with 8. lia. }
  split; [done|]. rewrite E. zdiv.
Qed.

Definition record_ok (r : wal_record) : Prop :=
  0 <= r_lsn r <= UINT64_MAX /\ 0 <= r_txn_id r <= UINT64_MAX /\
  0 <= r_page_id r <= UINT32_MAX /\ record_stride (SIZEOF_WAL_RECORD + zlen (r_data r)) <= WAL_BUFFER_SIZE.

Lemma record_ok_data r :
  zlen (r_data r) + SIZEOF_WAL_RECORD + 7 <= SIZE_MAX -> record_ok r ->
  zlen (r_data r) <= WAL_BUFFER_SIZE - SIZEOF_WAL_RECORD.
Proof using.
  intros ? (_ & _ & _ & H). destruct (record_stride_spec (SIZEOF_WAL_RECORD + zlen (r_data r)));
    unfold SIZEOF_WAL_RECORD in *; zl.
Qed.

Lemma zlen_record_header a b c d e f : zlen (record_header a b c d e f) = SIZEOF_WAL_RECORD.
Proof using. unfold record_header, SIZEOF_WAL_RECORD. zl. Qed.

Lemma zlen_record_bytes r :
  zlen (r_data r) + SIZEOF_WAL_RECORD + 7 <= SIZE_MAX ->
  zlen (record_bytes r) = record_stride (SIZEOF_WAL_RECORD + zlen (r_data r)).
Proof using.
  intros H. unfold record_bytes. autorewrite with zlen. rewrite zlen_record_header.
  destruct (record_stride_spec (SIZEOF_WAL_RECORD + zlen (r_data r)));
    unfold SIZEOF_WAL_RECORD in *; zl.
Qed.

(** ** A reader for the log

    The engine has no replay yet; this decoder states what the bytes mean: it
    recomputes the checksum over header and payload with the checksum field
    zeroed, as the comment in [write_wal_record] prescribes. *)
Definition wal_type_of_code (c : Z) : option wal_record_type :=
  match c with
  | 1 => Some WAL_INSERT | 2 => Some WAL_UPDATE | 3 => Some WAL_DELETE
  | 4 => Some WAL_COMMIT | 5 => Some WAL_ABORT | 6 => Some WAL_CHECKOUT
  | _ => None
  end.

Definition parse_record (l : bytes) : option (wal_record * bytes) :=
  if zlen l <? SIZEOF_WAL_RECORD then None else
  let lsn := le_decode (sub 0 8 l) in
  let txn := le_decode (sub 8 8 l) in
  type ← wal_type_of_code (le_decode (sub 16 4 l));
  let pid := le_decode (sub 20 4 l) in
  let dlen := le_decode (sub 24 4 l) in
  let cs := le_decode (sub 28 4 l) in
  let data := sub SIZEOF_WAL_RECORD dlen l in
  let stride := record_stride (SIZEOF_WAL_RECORD + dlen) in
  if zlen l <? stride then None else
  if cs =? calculate_checksum (record_header lsn txn type pid dlen 0 ++ data)
  then Some (mkRecord lsn txn type pid data, zdrop stride l)
  else None.

Fixpoint parse_log (fuel : nat) (l : bytes) : option (list wal_record) :=
  match l, fuel with
  | [], _ => Some []
  | _, O => None
  | _, S fuel' =>
      '(r, rest) ← parse_record l;
      rs ← parse_log fuel' rest;
      Some (r :: rs)
  end.

Lemma sub_header_fields a b t d e f rest :
  0 <= a <= UINT64_MAX -> 0 <= b <= UINT64_MAX -> 0 <= d <= UINT32_MAX ->
  0 <= e <= UINT32_MAX -> 0 <= f <= UINT32_MAX ->
  forall l, l = record_header a b t d e f ++ rest ->
  le_decode (sub 0 8 l) = a /\ le_decode (sub 8 8 l) = b /\
  le_decode (sub 16 4 l) = wal_type_code t /\ le_decode (sub 20 4 l) = d /\
  le_decode (sub 24 4 l) = e /\ le_decode (sub 28 4 l) = f.
Proof using.
  unfold UINT64_MAX, UINT32_MAX. intros Ha Hb Hd He Hf l ->.
  assert (0 <= wal_type_code t < 256 ^ Z.of_nat 4) as Ht by (destruct t; done).
  change (256 ^ Z.of_nat 4) with 4294967296 in Ht.
  unfold record_header. rewrite <- !app_assoc. split_and!.
  1, 2: read_field 8%nat; change (256 ^ Z.of_nat 8) with 18446744073709551616; lia.
  all: read_field 4%nat; change (256 ^ Z.of_nat 4) with 4294967296; lia.
Qed.

Lemma record_bytes_eq r :
  record_ok r -> zlen (r_data r) <= WAL_BUFFER_SIZE ->
  exists cs pad,
    record_bytes r = record_header (r_lsn r) (r_txn_id r) (r_type r) (r_page_id r)
                       (zlen (r_data r)) cs ++ r_data r ++ pad /\
    cs = calculate_checksum (record_header (r_lsn r) (r_txn_id r) (r_type r) (r_page_id r)
                       (zlen (r_data r)) 0 ++ r_data r) /\
    0 <= cs <= UINT32_MAX.
Proof using.
  intros (Hl & Ht & Hp & _) Hdl. unfold record_bytes, WAL_BUFFER_SIZE in *.
  pose proof (zlen_nonneg (r_data r)).
  rewrite !(u64_small (r_lsn r)), !(u64_small (r_txn_id r)), !(u32_small (r_page_id r)),
    !(u32_small (zlen (r_data r))) by (unfold UINT32_MAX, UINT64_MAX in *; lia).
  rewrite <- app_assoc. do 2 eexists. split_and!; try done.
  - by apply uwrap_range.
  - unfold UINT32_MAX. apply Z.lt_succ_r. by apply uwrap_range.
Qed.

Lemma parse_record_bytes r rest :
  record_ok r -> zlen (r_data r) <= WAL_BUFFER_SIZE ->
  parse_record (record_bytes r ++ rest) = Some (r, rest).
Proof using.
  intros Hok Hdl. pose proof (zlen_nonneg (r_data r)). pose proof (zlen_nonneg rest).
  assert (zlen (r_data r) + SIZEOF_WAL_RECORD + 7 <= SIZE_MAX) as Hsm
    by (unfold WAL_BUFFER_SIZE in Hdl; unfold SIZE_MAX, UINT64_MAX, SIZEOF_WAL_RECORD; lia).
  pose proof (zlen_record_bytes r Hsm) as Hlen.
  destruct (record_stride_spec (SIZEOF_WAL_RECORD + zlen (r_data r))) as [_ Hst];
    [unfold SIZEOF_WAL_RECORD; lia|lia|].
  destruct (record_bytes_eq r Hok) as (cs & pad & Hr & Hcs & Hcsr); [done|].
  assert (record_bytes r ++ rest = record_header (r_lsn r) (r_txn_id r) (r_type r) (r_page_id r)
            (zlen (r_data r)) cs ++ r_data r ++ pad ++ rest) as Hl.
  { by rewrite Hr, <- !app_assoc. }
  pose proof Hok as (? & ? & ? & ?).
  assert (0 <= zlen (r_data r) <= UINT32_MAX) as Hdl32
    by (unfold UINT32_MAX, WAL_BUFFER_SIZE in *; lia).
  edestruct sub_header_fields as (E0 & E1 & E2 & E3 & E4 & E5); [..|exact Hl|]; try done.
  unfold WAL_BUFFER_SIZE, SIZEOF_WAL_RECORD in *.
  unfold parse_record, SIZEOF_WAL_RECORD. rewrite E0, E1, E2, E3, E4, E5, zlen_app, Hlen.
  assert (wal_type_of_code (wal_type_code (r_type r)) = Some (r_type r)) as ->
    by (by destruct (r_type r)).
  cbn [mbind option_bind]. repeat guard_false.
  assert (sub 32 (zlen (r_data r)) (record_bytes r ++ rest) = r_data r) as ->.
  { eapply sub_eq_app; [exact Hl|by rewrite zlen_record_header|done]. }
  rewrite <- Hcs, Z.eqb_refl. f_equal. f_equal.
  - by destruct r.
  - rewrite <- Hlen. by apply zdrop_app_eq.
Qed.

(** ** The log as a list of records *)
Definition log_bytes (rs : list wal_record) : bytes := flat_map record_bytes rs.

Lemma log_bytes_app a b : log_bytes (a ++ b) = log_bytes a ++ log_bytes b.
Proof using. apply flat_map_app. Qed.

Definition record_wf (r : wal_record) : Prop :=
  record_ok r /\ zlen (r_data r) <= WAL_BUFFER_SIZE.

Lemma parse_log_bytes fuel rs :
  Forall record_wf rs -> (length rs <= fuel)%nat -> parse_log fuel (log_bytes rs) = Some rs.
Proof using.
  revert fuel. induction rs as [|r rs IH]; intros fuel Hok Hf; [by destruct fuel|].
  inversion Hok as [|? ? [Hr Hd] Hrs]; subst. destruct fuel as [|fuel]; [simpl in Hf; lia|].
  change (log_bytes (r :: rs)) with (record_bytes r ++ log_bytes rs).
  assert (exists b l, record_bytes r ++ log_bytes rs = b :: l) as (b & l & Hbl).
  { destruct (record_bytes_eq r Hr Hd) as (cs & pad & -> & _). unfold record_header.
    rewrite <- !app_assoc. cbn. eauto. }
  cbn [parse_log]. rewrite Hbl, <- Hbl, parse_record_bytes by done. cbn.
  rewrite IH; [done|done|simpl in Hf; lia].
Qed.

(** [wal_repr w rs n]: the log holds the records [rs], the first [n] of them
    are in the file, and their LSNs are the consecutive values before
    [next_lsn]. *)
Record wal_repr (w : wal_state) (rs : list wal_record) (n : nat) : Prop := {
  wr_count : (n <= length rs)%nat;
  wr_file : wal_file w = log_bytes (take n rs);
  wr_buffer : wal_buffer w = log_bytes (drop n rs);
  wr_wf : Forall record_wf rs;
  wr_lsn : forall i r, rs !! i = Some r -> r_lsn r = next_lsn w - zlen rs + Z.of_nat i;
  wr_first : 0 <= next_lsn w - zlen rs;
  wr_fits : zlen (wal_buffer w) <= WAL_BUFFER_SIZE;
  wr_align : (8 | zlen (wal_buffer w)) }.

Lemma write_buffer_clean w rs n :
  wal_repr w rs n -> io_clean (wal_io w) = true ->
  exists w', write_buffer w = (true, w') /\ wal_repr w' rs (length rs) /\
    io_clean (wal_io w') = true /\ next_lsn w' = next_lsn w /\ wal_buffer w' = [] /\
    wal_records_written w' = wal_records_written w.
Proof using.
  intros [Hn Hf Hb Hwf Hl H0 Hfit Hal] Hio. unfold write_buffer.
  destruct (write_loop_clean (wal_io w) (wal_buffer w) 0) as (io' & -> & Hio'); [done|zl|].
  eexists; split; [done|]. split; [|done]. constructor; cbn; try done.
  - rewrite zdrop_0, Hf, Hb, <- log_bytes_app, take_drop. by rewrite take_ge.
  - by rewrite drop_ge.
  - apply Z.divide_0_r.
Qed.

(** Appending one record to a buffer that has room for it. *)
Lemma wal_repr_append w rs n r io k :
  wal_repr w rs n -> record_wf r -> r_lsn r = next_lsn w -> next_lsn w < UINT64_MAX ->
  zlen (wal_buffer w) + zlen (record_bytes r) <= WAL_BUFFER_SIZE ->
  (8 | zlen (record_bytes r)) ->
  wal_repr (mkWal (wal_file w) (wal_buffer w ++ record_bytes r) (u64 (next_lsn w + 1)) k io)
    (rs ++ [r]) n.
Proof using.
  intros [Hn Hf Hb Hwf Hl H0 Hfit Hal] Hr Hrl Hlsn Hroom Hdiv. pose proof (zlen_nonneg rs).
  constructor; cbn [wal_file wal_buffer next_lsn]; try rewrite u64_small by (unfold UINT64_MAX in *; lia).
  - rewrite length_app; lia.
  - by rewrite take_app_le.
  - rewrite drop_app_le, log_bytes_app, <- Hb by done. f_equal.
    change (log_bytes [r]) with (record_bytes r ++ []). by rewrite app_nil_r.
  - apply Forall_app; split; [done|]. by apply Forall_singleton.
  - intros i r' Hi. autorewrite with zlen. apply lookup_app_Some in Hi as [Hi|[Hge Hi]].
    + rewrite (Hl _ _ Hi). lia.
    + apply list_lookup_singleton_Some in Hi as [Hi ->]. unfold zlen. lia.
  - autorewrite with zlen. lia.
  - zl.
  - rewrite zlen_app. by apply Z.divide_add_r.
Qed.

Lemma write_wal_record_clean w rs n txn type pid data :
  wal_repr w rs n -> io_clean (wal_io w) = true ->
  0 <= txn <= UINT64_MAX -> 0 <= pid <= UINT32_MAX -> next_lsn w < UINT64_MAX ->
  zlen data + SIZEOF_WAL_RECORD + 7 <= WAL_BUFFER_SIZE ->
  exists w' n',
    write_wal_record txn type pid data w = (0, w') /\
    wal_repr w' (rs ++ [mkRecord (next_lsn w) txn type pid data]) n' /\
    (n <= n')%nat /\ next_lsn w' = next_lsn w + 1 /\ io_clean (wal_io w') = true.
Proof using.
  intros Hw Hio Ht Hp Hlsn Hd. pose proof (zlen_nonneg data).
  assert (zlen data + SIZEOF_WAL_RECORD + 7 <= SIZE_MAX) as Hsm
    by (unfold WAL_BUFFER_SIZE in Hd; unfold SIZE_MAX, UINT64_MAX; lia).
  destruct (record_stride_spec (SIZEOF_WAL_RECORD + zlen data)) as [Hst Hst'];
    [unfold SIZEOF_WAL_RECORD; lia|lia|].
  unfold write_wal_record. guard_false.
  assert (exists w1 n1, (if wal_buffer_pos w + record_stride (SIZEOF_WAL_RECORD + zlen data) >?
            WAL_BUFFER_SIZE then write_buffer w else (true, w)) = (true, w1) /\
            wal_repr w1 rs n1 /\ (n <= n1)%nat /\
            io_clean (wal_io w1) = true /\ next_lsn w1 = next_lsn w /\
            wal_buffer_pos w1 + record_stride (SIZEOF_WAL_RECORD + zlen data) <= WAL_BUFFER_SIZE)
    as (w1 & n1 & -> & Hw1 & Hn1 & Hio1 & Hl1 & Hfit).
  { case_match.
    - destruct (write_buffer_clean w rs n Hw Hio) as (w1 & -> & ? & ? & ? & Hb & ?).
      exists w1, (length rs). split_and!; try done; [apply Hw|]. unfold wal_buffer_pos. rewrite Hb. zl.
    - exists w, n. split_and!; try done; lia. }
  cbn [negb allocate_lsn]. do 2 eexists. split; [done|].
  assert (0 <= next_lsn w) as H0 by (pose proof (wr_first _ _ _ Hw); zl).
  rewrite <- Hl1 in *. split; [|split_and!; [done| |done]].
  - cbn [wal_file wal_buffer next_lsn wal_io]. apply wal_repr_append; try done.
    + split; [|cbn; unfold SIZEOF_WAL_RECORD in *; lia].
      unfold record_ok. cbn. split_and!; lia.
    + unfold wal_buffer_pos in Hfit. rewrite zlen_record_bytes; cbn; lia.
    + rewrite zlen_record_bytes by (cbn; lia). cbn. rewrite Hst. apply Z.divide_factor_l.
  - cbn. apply u64_small. unfold UINT64_MAX in *; lia.
Qed.

Lemma flush_wal_buffer_clean w rs n :
  wal_repr w rs n -> io_clean (wal_io w) = true ->
  exists w', flush_wal_buffer w = (0, w') /\ wal_repr w' rs (length rs) /\
    next_lsn w' = next_lsn w /\ io_clean (wal_io w') = true /\ wal_file w' = log_bytes rs.
Proof using.
  intros Hw Hio. unfold flush_wal_buffer. destruct (Z.gtb_spec (wal_buffer_pos w) 0) as [Hp|Hp].
  - destruct (write_buffer_clean w rs n Hw Hio) as (w' & -> & Hw' & ? & ? & ? & ?).
    exists w'. split_and!; try done. rewrite (wr_file _ _ _ Hw'). by rewrite take_ge.
  - exists w. unfold wal_buffer_pos in Hp.
    assert (wal_buffer w = []) as Hb by (apply zlen_0_nil; zl).
    assert (wal_file w = log_bytes rs) as Hf.
    { rewrite <- (take_drop n rs), log_bytes_app, <- (wr_file _ _ _ Hw), <- (wr_buffer _ _ _ Hw), Hb.
      by rewrite app_nil_r. }
    split_and!; try done. destruct Hw as [Hn Hwf' Hwb Hwf Hl H0 Hfit Hal]. constructor; try done.
    + by rewrite take_ge.
    + by rewrite drop_ge.
Qed.

(** What a flush that fails after [IoPartial] leaves behind: the accepted
    prefix is in the file and the whole buffer is still pending. *)
Lemma flush_wal_buffer_failed w w' :
  flush_wal_buffer w = (-1, w') ->
  exists k, 0 <= k < zlen (wal_buffer w) /\
    wal_file w' = wal_file w ++ ztake k (wal_buffer w) /\ wal_buffer w' = wal_buffer w.
Proof using.
  unfold flush_wal_buffer, write_buffer. case_match; [|done].
  destruct (write_loop (wal_io w) (wal_buffer w) 0) as [[out [|]] io'] eqn:E; [done|].
  intros [= <-]. apply write_loop_prefix in E as (k & ? & ? & ->); [|zl].
  exists k. split_and!; try done; lia.
Qed.
End wal.
