(* ===== verification/PagerProofs.v ===== *)
(** * The pager maintains the contents of its pages

    [hash_ok] relates the bucket chains to a map from page ids to frames,
    [pager_inv] adds what frames and file hold, and [view] is the resulting
    contents of every page. *)
From S2P Require Import Prelude BtreePage Wal Pager.

Local Open Scope Z_scope.

(** ** Bucket chains *)
Fixpoint chain (pool : list buffer_entry) (idx : Z) (l : list nat) : Prop :=
  match l with
  | [] => idx = UINT32_MAX
  | i :: l' => idx = Z.of_nat i /\ idx <> UINT32_MAX /\
      exists e, pool !! i = Some e /\ chain pool (be_hash_next e) l'
  end.

(** Two pools whose frames differ only in fields the hash table does not use. *)
Definition same_links (l : list nat) (pool pool' : list buffer_entry) : Prop :=
  forall i e, i ∈ l -> pool !! i = Some e ->
    exists e', pool' !! i = Some e' /\ be_hash_next e' = be_hash_next e.

Lemma chain_same_links pool pool' idx l :
  same_links l pool pool' -> chain pool idx l -> chain pool' idx l.
Proof.
  revert idx. induction l as [|i l IH]; intros idx Hs; simpl; [done|].
  intros (-> & Hne & e & He & Hc).
  destruct (Hs i e) as (e' & He' & Hn); [left|done|]. split_and!; [done|done|].
  exists e'. split; [done|]. rewrite Hn. apply IH; [|done].
  intros j f Hj. apply Hs. by right.
Qed.

Lemma frame_chain_lookup pool idx l i : chain pool idx l -> i ∈ l -> is_Some (pool !! i).
Proof.
  revert idx. induction l as [|j l IH]; intros idx Hc Hi; [set_solver|].
  destruct Hc as (_ & _ & e & He & Hc). apply elem_of_cons in Hi as [->|Hi]; eauto.
Qed.

Lemma chain_length pool idx l : chain pool idx l -> NoDup l -> (length l <= length pool)%nat.
Proof.
  intros Hc Hnd. rewrite <- (length_seq (length pool) 0).
  apply submseteq_length, NoDup_submseteq; [done|]. intros i Hi.
  destruct (frame_chain_lookup _ _ _ _ Hc Hi) as [e He]. apply elem_of_seq.
  apply lookup_lt_Some in He. lia.
Qed.

Lemma find_chain_spec fuel pool idx l id :
  chain pool idx l -> (length l < fuel)%nat ->
  match find_chain fuel pool idx id with
  | Some i => i ∈ l /\ exists e, pool !! i = Some e /\ be_page_id e = id
  | None => forall i e, i ∈ l -> pool !! i = Some e -> be_page_id e <> id
  end.
Proof.
  revert fuel idx. induction l as [|j l IH]; intros [|fuel] idx Hc Hf; simpl in *; try lia.
  - subst idx. set_solver.
  - destruct Hc as (-> & Hne & e & He & Hc). rewrite (proj2 (Z.eqb_neq _ _) Hne).
    rewrite Nat2Z.id, He. destruct (Z.eqb_spec (be_page_id e) id) as [Hid|Hid].
    + split; [left|eauto].
    + specialize (IH fuel _ Hc ltac:(lia)).
      destruct (find_chain fuel pool (be_hash_next e) id).
      * destruct IH as [? ?]. split; [by right|done].
      * intros i e' Hi He'. apply elem_of_cons in Hi as [->|Hi]; [congruence|eauto].
Qed.

(** The pool after an unlink: only [hash_next] fields of the chain change. *)
Lemma unlink_chain_pool fuel pool idx v idx' pool' :
  unlink_chain fuel pool idx v = (idx', pool') ->
  length pool' = length pool /\
  forall i, exists n, pool' !! i = frame_next n <$> pool !! i \/ pool' !! i = pool !! i.
Proof.
  revert idx idx' pool'. induction fuel as [|fuel IH]; intros idx idx' pool'; simpl.
  { intros [= <- <-]; (split; [done|intros; exists 0; by right]). }
  case_match; [intros [= <- <-]; (split; [done|intros; exists 0; by right])|].
  destruct (pool !! Z.to_nat idx) as [e|]; [|intros [= <- <-]; (split; [done|intros; exists 0; by right])].
  case_match; [intros [= <- <-]; (split; [done|intros; exists 0; by right])|].
  destruct (unlink_chain fuel pool (be_hash_next e) v) as [n q] eqn:E. intros [= <- <-].
  destruct (IH _ _ _ E) as [Hl Hq]. split; [by rewrite length_alter|].
  intros i. destruct (Hq i) as [m Hm]. destruct (decide (i = Z.to_nat idx)) as [->|Hne].
  - rewrite list_lookup_alter_eq. exists n. left.
    destruct Hm as [->| ->]; [|done]. by destruct (pool !! Z.to_nat idx).
  - rewrite list_lookup_alter_ne by done. eauto.
Qed.

Lemma unlink_chain_absent fuel pool idx v (l : list nat) :
  chain pool idx l -> (length l < fuel)%nat -> v ∉ l ->
  unlink_chain fuel pool idx (Z.of_nat v) = (idx, pool).
Proof.
  revert fuel idx. induction l as [|j l IH]; intros [|fuel] idx Hc Hf Hv; simpl in *; try lia.
  - by subst idx.
  - destruct Hc as (-> & Hne & e & He & Hc). rewrite (proj2 (Z.eqb_neq _ _) Hne).
    rewrite Nat2Z.id, He. apply not_elem_of_cons in Hv as [Hvj Hvl].
    rewrite (proj2 (Z.eqb_neq _ _)) by lia.
    rewrite (IH fuel _ Hc ltac:(lia) Hvl). f_equal.
    apply list_eq. intros i. destruct (decide (i = j)) as [->|].
    + rewrite list_lookup_alter_eq, He. by destruct e.
    + by rewrite list_lookup_alter_ne.
Qed.

Lemma filter_ne_notin (v : nat) (l : list nat) : v ∉ l -> filter (.≠ v) l = l.
Proof.
  induction l as [|j l IH]; [done|]. intros [Hj Hl]%not_elem_of_cons.
  rewrite filter_cons_True by done. f_equal; auto.
Qed.

Lemma unlink_chain_present fuel pool idx (v : nat) (l : list nat) idx' pool' :
  chain pool idx l -> NoDup l -> (length l < fuel)%nat -> v ∈ l ->
  unlink_chain fuel pool idx (Z.of_nat v) = (idx', pool') ->
  chain pool' idx' (filter (.≠ v) l) /\ forall i, i ∉ l -> pool' !! i = pool !! i.
Proof.
  revert fuel idx idx' pool'.
  induction l as [|j l IH]; intros [|fuel] idx idx' pool' Hc Hnd Hf Hv; simpl in *; try lia;
    [set_solver|].
  destruct Hc as (-> & Hne & e & He & Hc). rewrite (proj2 (Z.eqb_neq _ _) Hne).
  apply list.NoDup_cons in Hnd as [Hjl Hnd]. rewrite Nat2Z.id, He.
  destruct (Z.eqb_spec (Z.of_nat j) (Z.of_nat v)) as [Hjv|Hjv].
  - apply Nat2Z.inj in Hjv as ->. intros [= <- <-].
    rewrite filter_cons_False by auto. by rewrite filter_ne_notin.
  - assert (v ∈ l) as Hvl by (by apply elem_of_cons in Hv as [->|?]).
    destruct (unlink_chain fuel pool (be_hash_next e) (Z.of_nat v)) as [n q] eqn:E.
    intros [= <- <-]. destruct (IH fuel _ _ _ Hc Hnd ltac:(lia) Hvl E) as [Hc' Hq].
    rewrite filter_cons_True by (intros ->; done). split.
    + simpl. split_and!; [done|done|]. exists (frame_next n e).
      rewrite list_lookup_alter_eq, Hq, He by done. split; [done|]. simpl.
      eapply chain_same_links; [|exact Hc']. intros i f Hi Hf'.
      assert (j <> i) by (intros ->; apply Hjl; eapply list_elem_of_filter; eauto).
      exists f. by rewrite list_lookup_alter_ne.
    + intros i [Hij Hil]%not_elem_of_cons. by rewrite list_lookup_alter_ne, Hq by done.
Qed.

(** ** The hash table as a map from page ids to frames *)
Record hash_ok (pool : list buffer_entry) (ht : list Z) (L : gmap Z nat)
    (ch : nat -> list nat) : Prop := {
  ho_size : 0 < zlen ht;
  ho_pool : zlen pool <= UINT32_MAX;
  ho_chain : forall b h, ht !! b = Some h -> chain pool h (ch b);
  ho_nodup : forall b, NoDup (ch b);
  ho_in : forall b i, i ∈ ch b -> (b < length ht)%nat;
  ho_hash : forall b i e, i ∈ ch b -> pool !! i = Some e ->
              be_page_id e mod zlen ht = Z.of_nat b /\ L !! be_page_id e = Some i;
  ho_map : forall id i, L !! id = Some i ->
             i ∈ ch (Z.to_nat (id mod zlen ht)) /\ exists e, pool !! i = Some e /\ be_page_id e = id }.

Definition linked (L : gmap Z nat) (i : nat) : Prop := exists id, L !! id = Some i.

Section hash.
Context (s : pager) (L : gmap Z nat) (ch : nat -> list nat)
  (Hok : hash_ok (buffer_pool s) (hash_table s) L ch).

Lemma bucket_lookup id :
  exists h, hash_table s !! Z.to_nat (id mod zlen (hash_table s)) = Some h /\
    bucket s (hash_page_id s id) = h /\ chain (buffer_pool s) h (ch (Z.to_nat (id mod zlen (hash_table s)))).
Proof using Hok.
  pose proof (ho_size _ _ _ _ Hok) as Hsz.
  assert (0 <= id mod zlen (hash_table s) < zlen (hash_table s)) by (apply Z.mod_pos_bound; lia).
  destruct (lookup_lt_is_Some_2 (hash_table s) (Z.to_nat (id mod zlen (hash_table s)))) as [h Hh].
  { unfold zlen in *. lia. }
  exists h. split; [done|]. split; [|by apply (ho_chain _ _ _ _ Hok)].
  unfold bucket, hash_page_id, znth. destruct (Z.ltb_spec (id mod zlen (hash_table s)) 0); [lia|].
  by rewrite Hh.
Qed.

Lemma find_buffer_entry_spec id : find_buffer_entry s id = L !! id.
Proof using Hok.
  destruct (bucket_lookup id) as (h & Hh & Hb & Hc). unfold find_buffer_entry. rewrite Hb.
  pose proof (find_chain_spec (S (length (buffer_pool s))) _ _ _ id Hc) as Hf.
  pose proof (chain_length _ _ _ Hc (ho_nodup _ _ _ _ Hok _)).
  specialize (Hf ltac:(lia)). destruct (find_chain _ _ _ _) as [i|].
  - destruct Hf as [Hi (e & He & Hid)]. destruct (ho_hash _ _ _ _ Hok _ _ _ Hi He) as [_ HL].
    by rewrite Hid in HL.
  - destruct (L !! id) as [i|] eqn:E; [|done].
    destruct (ho_map _ _ _ _ Hok _ _ E) as [Hi (e & He & Hid)].
    exfalso. by apply (Hf i e).
Qed.

Lemma linked_iff i e :
  buffer_pool s !! i = Some e ->
  linked L i <-> L !! be_page_id e = Some i.
Proof using Hok.
  intros He. split; [|intros; by eexists]. intros [id Hid].
  destruct (ho_map _ _ _ _ Hok _ _ Hid) as [_ (e' & He' & <-)]. congruence.
Qed.
End hash.

(** Changing fields the hash table does not use. *)
Lemma hash_ok_alter pool ht L ch f i :
  (forall e, be_page_id (f e) = be_page_id e /\ be_hash_next (f e) = be_hash_next e) ->
  hash_ok pool ht L ch -> hash_ok (alter f i pool) ht L ch.
Proof.
  intros Hf [Hs Hp Hc Hn Hi Hh Hm].
  assert (forall j e, alter f i pool !! j = Some e -> exists e0, pool !! j = Some e0 /\
            be_page_id e = be_page_id e0) as Hback.
  { intros j e He. rewrite list_lookup_alter in He. case_decide; [|eauto].
    subst j. apply fmap_Some in He as (e0 & He0 & ->). exists e0. split; [done|apply Hf]. }
  constructor; try done.
  - unfold zlen in *. by rewrite length_alter.
  - intros b h Hb. eapply chain_same_links; [|eauto]. intros j e Hj He.
    rewrite list_lookup_alter. case_decide; [|eauto]. subst. rewrite He. simpl.
    eexists; split; [done|]. apply Hf.
  - intros b j e Hj He. destruct (Hback _ _ He) as (e0 & He0 & ->). eauto.
  - intros id j Hj. destruct (Hm _ _ Hj) as [? (e & He & <-)]. split; [done|].
    rewrite list_lookup_alter. case_decide; [|eauto]. subst. rewrite He. simpl.
    eexists; split; [done|apply Hf].
Qed.

(** Changing a frame no chain contains. *)
Lemma hash_ok_alter_unlinked pool ht L ch f i :
  hash_ok pool ht L ch -> ~ linked L i -> hash_ok (alter f i pool) ht L ch.
Proof.
  intros [Hs Hp Hc Hn Hi Hh Hm] Hun.
  assert (forall b, (b < length ht)%nat -> i ∉ ch b) as Hnot.
  { intros b Hb Hin. destruct (lookup_lt_is_Some_2 ht b Hb) as [h Hbh].
    destruct (frame_chain_lookup _ _ _ _ (Hc _ _ Hbh) Hin) as [e He].
    apply Hun. exists (be_page_id e). by eapply Hh. }
  constructor; try done.
  - unfold zlen in *. by rewrite length_alter.
  - intros b h Hb. eapply chain_same_links; [|eauto]. intros j e Hj He.
    exists e. rewrite list_lookup_alter_ne; [done|]. intros ->.
    apply (Hnot b); [|done]. by eapply lookup_lt_Some.
  - intros b j e Hj He. rewrite list_lookup_alter_ne in He; [eauto|]. intros ->.
    by apply (Hnot b); eauto.
  - intros id j Hj. destruct (Hm _ _ Hj) as [? (e & He & <-)]. split; [done|].
    exists e. rewrite list_lookup_alter_ne; [done|]. intros ->. apply Hun. by exists (be_page_id e).
Qed.

Definition set_chain (ch : nat -> list nat) (b : nat) (l : list nat) : nat -> list nat :=
  fun b' => if decide (b' = b) then l else ch b'.

Lemma chain_disjoint pool ht L ch b b' i :
  hash_ok pool ht L ch -> i ∈ ch b -> i ∈ ch b' -> b = b'.
Proof.
  intros [Hs Hp Hc Hn Hi Hh Hm] Hb Hb'.
  destruct (lookup_lt_is_Some_2 ht b (Hi _ _ Hb)) as [h Hbh].
  destruct (frame_chain_lookup _ _ _ _ (Hc _ _ Hbh) Hb) as [e He].
  destruct (Hh _ _ _ Hb He) as [H1 _], (Hh _ _ _ Hb' He) as [H2 _]. lia.
Qed.

Lemma hash_ok_unlink pool ht L ch id i n pool' :
  hash_ok pool ht L ch -> L !! id = Some i ->
  (forall h, ht !! Z.to_nat (id mod zlen ht) = Some h ->
     unlink_chain (S (length pool)) pool h (Z.of_nat i) = (n, pool')) ->
  let b := Z.to_nat (id mod zlen ht) in
  hash_ok pool' (<[b := n]> ht) (delete id L) (set_chain ch b (filter (.≠ i) (ch b))).
Proof.
  intros Hok HL Hun b. pose proof Hok as [Hs Hp Hc Hn Hi Hh Hm].
  destruct (Hm _ _ HL) as [Hib (e & He & Hid)]. fold b in Hib, Hun.
  destruct (lookup_lt_is_Some_2 ht b (Hi _ _ Hib)) as [h Hbh].
  specialize (Hun _ Hbh). pose proof (Hc _ _ Hbh) as Hcb.
  pose proof (chain_length _ _ _ Hcb (Hn b)) as Hlen.
  destruct (unlink_chain_present (S (length pool)) _ _ _ _ _ _ Hcb (Hn b) ltac:(lia) Hib Hun)
    as [Hcn Hout].
  destruct (unlink_chain_pool _ _ _ _ _ _ Hun) as [Hlp Hpool].
  assert (forall j e', pool' !! j = Some e' -> exists e0, pool !! j = Some e0 /\
            be_page_id e' = be_page_id e0) as Hback.
  { intros j e' He'. destruct (Hpool j) as [m [Hj|Hj]]; rewrite Hj in He'; [|eauto].
    apply fmap_Some in He' as (e0 & He0 & ->). eauto. }
  assert (forall b' j, j ∈ set_chain ch b (filter (.≠ i) (ch b)) b' -> j ∈ ch b' /\ j <> i) as Hsub.
  { intros b' j. unfold set_chain. case_decide as Hbb.
    - subst b'. rewrite list_elem_of_filter. tauto.
    - intros Hj. split; [done|]. intros ->. apply Hbb. eapply chain_disjoint; eauto. }
  constructor.
  - by rewrite zlen_insert.
  - unfold zlen in *. by rewrite Hlp.
  - intros b' h' Hb'. unfold set_chain. case_decide as Hbb.
    + subst b'. rewrite list_lookup_insert_eq in Hb' by (by eapply lookup_lt_Some).
      by simplify_eq.
    + rewrite list_lookup_insert_ne in Hb' by done.
      eapply chain_same_links; [|by eapply Hc]. intros j f Hj Hf. exists f.
      rewrite Hout; [done|]. intros Hjb. apply Hbb. eapply chain_disjoint; eauto.
  - intros b'. unfold set_chain. case_decide; [apply list.NoDup_filter|]; auto.
  - intros b' j [Hj _]%Hsub. rewrite length_insert. eauto.
  - intros b' j e' [Hj Hji]%Hsub He'. destruct (Hback _ _ He') as (e0 & He0 & ->).
    rewrite zlen_insert. destruct (Hh _ _ _ Hj He0) as [? HLj]. split; [done|].
    rewrite lookup_delete_ne; [done|]. intros Heq. rewrite <- Heq in HLj. congruence.
  - intros id' j. rewrite lookup_delete_Some. intros [Hne Hj]. rewrite zlen_insert.
    destruct (Hm _ _ Hj) as [Hjb (e' & He' & Hid')]. split.
    + unfold set_chain. case_decide as Hbb; [|done]. apply list_elem_of_filter.
      rewrite Hbb in Hjb. split; [|done]. intros ->. congruence.
    + destruct (Hpool j) as [m [E|E]]; rewrite E, He'; eauto.
Qed.

Lemma hash_ok_publish pool ht L ch id i e h :
  hash_ok pool ht L ch -> ~ linked L i -> L !! id = None ->
  pool !! i = Some e -> be_page_id e = id ->
  ht !! Z.to_nat (id mod zlen ht) = Some h ->
  let b := Z.to_nat (id mod zlen ht) in
  hash_ok (alter (frame_next h) i pool) (<[b := Z.of_nat i]> ht) (<[id := i]> L)
    (set_chain ch b (i :: ch b)).
Proof.
  intros Hok Hun HLn He Hid Hbh b. fold b in Hbh.
  pose proof (hash_ok_alter_unlinked _ _ _ _ (frame_next h) _ Hok Hun) as [Hs Hp Hc Hn Hi Hh Hm].
  assert (alter (frame_next h) i pool !! i = Some (frame_next h e)) as Hei
    by (by rewrite list_lookup_alter_eq, He).
  assert (forall b', i ∉ ch b') as Hnot.
  { intros b' Hin. apply Hun. exists (be_page_id (frame_next h e)). by eapply Hh. }
  assert (0 <= id mod zlen ht) by (apply Z.mod_pos_bound; lia).
  constructor.
  - by rewrite zlen_insert.
  - done.
  - intros b' h' Hb'. unfold set_chain. case_decide as Hbb.
    + subst b'. rewrite list_lookup_insert_eq in Hb' by (by eapply lookup_lt_Some).
      simplify_eq. simpl. split_and!; [done| |].
      * apply lookup_lt_Some in Hei. unfold zlen, UINT32_MAX in *. lia.
      * eexists. split; [exact Hei|]. simpl. by eapply Hc.
    + rewrite list_lookup_insert_ne in Hb' by done. by eapply Hc.
  - intros b'. unfold set_chain. case_decide; [|done]. subst. apply list.NoDup_cons; auto.
  - intros b' j. unfold set_chain. rewrite length_insert. case_decide; [|eauto].
    subst. intros _. by eapply lookup_lt_Some.
  - intros b' j e' Hj He'. rewrite zlen_insert.
    assert (j = i /\ b' = b \/ j <> i /\ j ∈ ch b') as [[-> ->]|[Hne Hj']].
    { unfold set_chain in Hj. case_decide as Hbb; [subst b'; apply elem_of_cons in Hj as [->|Hj]; [by left|]|];
        right; (split; [|done]); intros ->; by eapply Hnot. }
    + rewrite Hei in He'. simplify_eq. simpl. rewrite lookup_insert_eq. split; [unfold b; lia|done].
    + destruct (Hh _ _ _ Hj' He') as [? HL']. split; [done|].
      rewrite lookup_insert_ne; [done|]. intros Heq. congruence.
  - intros id' j. rewrite lookup_insert_Some, zlen_insert. intros [[<- <-]|[Hne Hj]].
    + split; [|eauto]. unfold set_chain. rewrite decide_True by done. left.
    + destruct (Hm _ _ Hj) as [Hjb ?]. split; [|done]. unfold set_chain.
      case_decide as Hbb; [|done]. rewrite Hbb in Hjb. by right.
Qed.

(** ** Page images and the data file *)
Record header_wf (h : page_header) : Prop := {
  hw_id : 0 <= page_id h <= UINT32_MAX; hw_type : 0 <= page_type h <= UINT32_MAX;
  hw_count : 0 <= key_count h <= UINT16_MAX; hw_free : 0 <= free_space h <= UINT16_MAX;
  hw_res0 : 0 <= reserved0 h <= UINT32_MAX; hw_next : 0 <= next_page_id h <= UINT32_MAX;
  hw_prev : 0 <= prev_page_id h <= UINT32_MAX; hw_lsn : 0 <= lsn h <= UINT64_MAX;
  hw_cs : 0 <= checksum h <= UINT32_MAX;
  hw_res : zlen (reserved h) = 36; hw_resb : Forall is_byte (reserved h) }.

Record page_wf (p : btree_page) : Prop := {
  pw_header : header_wf (header p);
  pw_len : zlen (data p) = btree_page_capacity;
  pw_bytes : Forall is_byte (data p) }.

Lemma zlen_header_image h : header_wf h -> zlen (header_image h) = SIZEOF_PAGE_HEADER.
Proof.
  intros Hh. unfold header_image, SIZEOF_PAGE_HEADER. pose proof (hw_res _ Hh). zl.
Qed.

Lemma zlen_page_image p : page_wf p -> zlen (page_image p) = PAGE_SIZE.
Proof.
  intros [Hh Hl _]. unfold page_image. rewrite zlen_app, zlen_header_image, Hl by done. done.
Qed.

Lemma page_of_image_image p : page_wf p -> page_of_image (page_image p) = p.
Proof.
  intros Hp. pose proof (zlen_page_image p Hp) as Hpl. destruct Hp as [Hh Hl _].
  pose proof (zlen_header_image _ Hh) as Hhl.
  destruct p as [h d]. cbn [header data] in *. unfold page_of_image.
  assert (zdrop SIZEOF_PAGE_HEADER (page_image (mkPage h d)) = d) as ->
    by (by apply zdrop_app_eq).
  f_equal. destruct Hh as [H1 H2 H3 H4 H5 H6 H7 H8 H9 H10 _]. destruct h as [i t kc fs r0 nx pv ls cs rs].
  unfold page_image, header_image, UINT16_MAX, UINT32_MAX, UINT64_MAX in *.
  cbn [page_id page_type key_count free_space reserved0 next_page_id prev_page_id lsn checksum
    reserved header data] in *.
  rewrite <- ?app_assoc. f_equal.
  1, 2, 5, 6, 7, 9: read_field 4%nat; change (256 ^ Z.of_nat 4) with 4294967296; lia.
  1, 2: read_field 2%nat; change (256 ^ Z.of_nat 2) with 65536; lia.
  - read_field 8%nat; change (256 ^ Z.of_nat 8) with 18446744073709551616; lia.
  - repeat skip_field. by eapply (sub_eq_app 0 36 _ []).
Qed.

Lemma sub_bytes off n l : Forall is_byte l -> Forall is_byte (sub off n l).
Proof. intros. unfold sub, ztake, zdrop. by apply Forall_take, Forall_drop. Qed.

Lemma le_decode_sub off n m l :
  Forall is_byte l -> 0 <= off -> 0 <= n -> off + n <= zlen l -> 256 ^ n = m ->
  0 <= le_decode (sub off n l) <= m - 1.
Proof.
  intros Hl ? ? ? <-. pose proof (le_decode_range _ (sub_bytes off n l Hl)) as Hr.
  rewrite zlen_sub in Hr by lia. lia.
Qed.

Lemma page_of_image_wf l :
  zlen l = PAGE_SIZE -> Forall is_byte l -> page_wf (page_of_image l).
Proof.
  unfold PAGE_SIZE. intros Hl Hb. constructor; simpl.
  - constructor; simpl; unfold UINT16_MAX, UINT32_MAX, UINT64_MAX.
    1, 2, 5, 6, 7, 9: apply (le_decode_sub _ 4 4294967296); try done; lia.
    1, 2: apply (le_decode_sub _ 2 65536); try done; lia.
    + apply (le_decode_sub _ 8 18446744073709551616); try done; lia.
    + apply zlen_sub; lia.
    + by apply sub_bytes.
  - rewrite zlen_zdrop, Hl. done.
  - unfold zdrop. by apply Forall_drop.
Qed.

Lemma page_image_bytes p : page_wf p -> Forall is_byte (page_image p).
Proof.
  intros [Hh _ Hb]. unfold page_image, header_image. pose proof (hw_resb _ Hh).
  repeat (apply Forall_app; split); auto using le_encode_bytes.
Qed.

Lemma fresh_page_wf id : 0 <= id <= UINT32_MAX -> page_wf (fresh_page id).
Proof.
  intros. constructor.
  - constructor; try done. by apply (Forall_replicate is_byte 36 0).
  - unfold fresh_page. cbn [data]. by rewrite zlen_replicate.
  - unfold fresh_page. cbn [data]. by apply Forall_replicate.
Qed.

(** The page slot [id] of the file, and whether it lies inside the file. *)
Definition in_file (f : bytes) (id : Z) : Prop := (id + 1) * PAGE_SIZE <= zlen f.
Definition region (f : bytes) (id : Z) : bytes := sub (id * PAGE_SIZE) PAGE_SIZE f.
#[global] Instance in_file_dec f id : Decision (in_file f id).
Proof. unfold in_file; apply _. Defined.

Lemma sub_replicate_app {A} off n k (x : A) (l : list A) :
  0 <= off -> 0 <= n -> off + n <= zlen l -> sub off n (l ++ replicate k x) = sub off n l.
Proof. intros. by apply sub_app_l. Qed.

Lemma file_write_other f id j bs :
  0 <= id -> 0 <= j -> j <> id -> zlen bs <= PAGE_SIZE -> in_file f j ->
  in_file (file_write (id * PAGE_SIZE) bs f) j /\
  region (file_write (id * PAGE_SIZE) bs f) j = region f j.
Proof.
  unfold in_file, region, file_write, PAGE_SIZE. intros Hid Hj Hne Hbs Hin.
  destruct (Z.eqb_spec (zlen bs) 0); [done|].
  set (f0 := if zlen f <? id * 4096 then _ else _).
  assert (id * 4096 <= zlen f0 /\ zlen f <= zlen f0 /\
          forall o, 0 <= o -> o + 4096 <= zlen f -> sub o 4096 f0 = sub o 4096 f) as (Hf0 & Hf1 & Hs).
  { subst f0. destruct (Z.ltb_spec (zlen f) (id * 4096)).
    - split_and!; [zl|zl|]. intros. apply sub_replicate_app; lia.
    - done. }
  clearbody f0. unfold write_at. split; [zl|]. rewrite <- Hs by lia.
  destruct (decide (j < id)).
  - rewrite sub_app_l by zl. apply sub_ztake; lia.
  - rewrite sub_app_r by zl. rewrite sub_app_r by zl. autorewrite with zlen.
    unfold sub. rewrite zdrop_zdrop by zl. do 2 f_equal. zl.
Qed.

Lemma file_write_same f id bs :
  0 <= id -> zlen bs = PAGE_SIZE ->
  in_file (file_write (id * PAGE_SIZE) bs f) id /\
  region (file_write (id * PAGE_SIZE) bs f) id = bs.
Proof.
  unfold in_file, region, file_write, PAGE_SIZE. intros Hid Hbs.
  destruct (Z.eqb_spec (zlen bs) 0); [lia|].
  set (f0 := if zlen f <? id * 4096 then _ else _).
  assert (id * 4096 <= zlen f0) as Hf0 by (subst f0; destruct (Z.ltb_spec (zlen f) (id * 4096)); zl).
  clearbody f0. unfold write_at. split; [zl|]. eapply sub_eq_app; [done|zl|done].
Qed.

Lemma file_write_bytes off f bs :
  Forall is_byte f -> Forall is_byte bs -> Forall is_byte (file_write off bs f).
Proof.
  intros Hf Hb. unfold file_write. case_match; [done|]. unfold write_at, ztake, zdrop.
  assert (Forall is_byte (if zlen f <? off then f ++ replicate (Z.to_nat (off - zlen f)) 0 else f)).
  { case_match; [|done]. apply Forall_app; split; [done|]. by apply Forall_replicate. }
  repeat (apply Forall_app; split); auto using Forall_take, Forall_drop.
Qed.

(** ** The pager invariant

    [L] maps the buffered page ids to their frames, [U] holds the pages whose
    frame was stored to but not marked dirty yet, and [X] is the frame a
    [get_page] in progress has claimed. *)
Definition on_disk (s : pager) (id : Z) (p : btree_page) : Prop :=
  in_file (data_file s) id /\ page_of_image (region (data_file s) id) = p.

Record pager_inv (s : pager) (L : gmap Z nat) (ch : nat -> list nat) (U : gset Z)
    (X : option nat) : Prop := {
  pi_hash : hash_ok (buffer_pool s) (hash_table s) L ch;
  pi_file : Forall is_byte (data_file s);
  pi_linked : forall id i, L !! id = Some i -> exists e p,
    buffer_pool s !! i = Some e /\ be_page e = Some p /\ page_wf p /\
    0 < id <= UINT32_MAX /\ 0 <= be_ref_count e /\
    (be_dirty e = true \/ id ∈ U \/ on_disk s id p);
  pi_unsaved : forall id, id ∈ U -> exists i e, L !! id = Some i /\
    buffer_pool s !! i = Some e /\ 0 < be_ref_count e;
  pi_unlinked : forall i e, buffer_pool s !! i = Some e -> ~ linked L i -> X <> Some i ->
    be_ref_count e = 0 /\ be_dirty e = false }.

(** The contents of page [id] as the pager will hand it out. *)
Definition view_of (s : pager) (L : gmap Z nat) (id : Z) : option btree_page :=
  match L !! id with
  | Some i => e ← buffer_pool s !! i; be_page e
  | None => if decide (in_file (data_file s) id)
            then Some (page_of_image (region (data_file s) id)) else None
  end.
Definition refs_of (s : pager) (L : gmap Z nat) (id : Z) : Z :=
  match L !! id with
  | Some i => default 0 (be_ref_count <$> buffer_pool s !! i)
  | None => 0
  end.

(** Every page present in [s] is present with the same contents in [s']. *)
Definition view_extends (s : pager) (L : gmap Z nat) (s' : pager) (L' : gmap Z nat) : Prop :=
  forall id p, 0 <= id -> view_of s L id = Some p -> view_of s' L' id = Some p.

Lemma select_victim_spec pool i best k :
  select_victim pool i best = Some k ->
  (exists t, best = Some (k, t)) \/
  (exists e, (i <= k)%nat /\ pool !! (k - i)%nat = Some e /\ be_pinned e = false /\ be_ref_count e = 0).
Proof.
  revert i best. induction pool as [|e pool IH]; intros i best; simpl.
  - destruct best as [[k' t]|]; simpl; [|done]. intros [= ->]. left. eauto.
  - intros Hs. apply IH in Hs as [[t Ht]|(e' & Hle & He & ? & ?)].
    + destruct (be_pinned e) eqn:Hp, (Z.eqb_spec (be_ref_count e) 0) as [Hz|Hz]; simpl in Ht;
        try (left; by eauto).
      assert (k = i \/ exists t', best = Some (k, t')) as [->|?]; [| |by left].
      { destruct best as [[k' t']|]; [case_match|]; simplify_eq; eauto. }
      right. exists e. rewrite Nat.sub_diag. split_and!; try done; lia.
    + right. exists e'. split_and!; try done; [lia|].
      by replace (k - i)%nat with (S (k - S i)) by lia.
Qed.

Lemma view_extends_refl s L : view_extends s L s L.
Proof. unfold view_extends. auto. Qed.
Lemma view_extends_trans s1 L1 s2 L2 s3 L3 :
  view_extends s1 L1 s2 L2 -> view_extends s2 L2 s3 L3 -> view_extends s1 L1 s3 L3.
Proof. unfold view_extends. eauto. Qed.

(** Changing a linked frame's bookkeeping without touching id, chain or page. *)
Lemma pager_inv_alter s L ch U X i f s' :
  pager_inv s L ch U X ->
  (forall e, be_page_id (f e) = be_page_id e /\ be_hash_next (f e) = be_hash_next e /\
     be_page (f e) = be_page e) ->
  (forall e, buffer_pool s !! i = Some e ->
     linked L i /\ 0 <= be_ref_count (f e) /\ (be_page_id e ∈ U -> 0 < be_ref_count (f e)) /\
     (be_dirty e = true -> be_dirty (f e) = false ->
      forall p, be_page e = Some p -> on_disk s' (be_page_id e) p)) ->
  buffer_pool s' = alter f i (buffer_pool s) -> hash_table s' = hash_table s ->
  Forall is_byte (data_file s') ->
  (forall id p, 0 < id -> on_disk s id p -> (forall e, buffer_pool s !! i = Some e ->
     be_page_id e = id -> be_dirty e = true -> False) -> on_disk s' id p) ->
  pager_inv s' L ch U X.
Proof.
  intros Hinv Hf Hi Hpool Hht Hfile Hdisk. pose proof Hinv as [Hok _ Hl Hu Hn]. constructor.
  - rewrite Hpool, Hht. apply hash_ok_alter; [|done]. intros e; destruct (Hf e) as (? & ? & _); auto.
  - done.
  - intros id j Hj. destruct (Hl _ _ Hj) as (e & p & He & Hp & Hwf & Hid & Hr & Hst).
    rewrite Hpool, list_lookup_alter. case_decide as Hij; cycle 1.
    { exists e, p. split_and!; try done; try lia. destruct Hst as [?|[?|Hd]]; [by left|by right; left|].
      destruct (be_dirty e) eqn:Hde; [by left|]. right; right.
      apply Hdisk; [lia|done|]. intros e' He' Hid' _.
      destruct (ho_map _ _ _ _ Hok _ _ Hj) as [_ (e2 & He2 & Hid2)].
      destruct (Hi e' He') as [Hlk _]. apply (linked_iff s L ch Hok i e' He') in Hlk. congruence. }
    subst j. rewrite He. simpl. destruct (Hf e) as (Hpid & _ & Hpg).
    destruct (Hi e He) as (Hlk & Hr' & _ & Hcl).
    assert (be_page_id e = id) as Heid.
    { destruct (ho_map _ _ _ _ Hok _ _ Hj) as [_ (e2 & He2 & ?)]. congruence. }
    exists (f e), p. rewrite Hpg. split_and!; try done; try lia.
    destruct (be_dirty (f e)) eqn:Hdf; [by left|]. destruct Hst as [Hd|[Hd|Hd]].
    + right; right. rewrite <- Heid. by eapply Hcl.
    + by right; left.
    + right; right. destruct (be_dirty e) eqn:Hde; [rewrite <- Heid; by eapply Hcl|].
      apply Hdisk; [lia|done|]. intros e' He' _ ?. congruence.
  - intros id Hid. destruct (Hu _ Hid) as (j & e & Hj & He & Hr). exists j.
    rewrite Hpool, list_lookup_alter. case_decide; [|eauto]. subst j. rewrite He. simpl.
    eexists; split_and!; [done|done|]. destruct (Hi e He) as (_ & _ & Hpos & _). apply Hpos.
    destruct (ho_map _ _ _ _ Hok _ _ Hj) as [_ (e2 & He2 & ?)]. congruence.
  - intros j e. rewrite Hpool, list_lookup_alter. case_decide; [|eauto]. subst j.
    intros He Hnl. apply fmap_Some in He as (e0 & He0 & ->). by destruct (Hi e0 He0).
Qed.

Lemma view_extends_alter s L i f s' :
  (forall e, be_page (f e) = be_page e) ->
  buffer_pool s' = alter f i (buffer_pool s) ->
  (forall id, 0 <= id -> L !! id = None -> in_file (data_file s) id ->
     in_file (data_file s') id /\ region (data_file s') id = region (data_file s) id) ->
  view_extends s L s' L.
Proof.
  intros Hf Hpool Hfile id p Hid. unfold view_of. destruct (L !! id) as [k|] eqn:HL.
  - rewrite Hpool, list_lookup_alter. case_decide; [|done]. subst.
    destruct (buffer_pool s !! k); simpl; [|done]. by rewrite Hf.
  - case_decide as Hin; [|done]. destruct (Hfile _ Hid HL Hin) as [Hin' ->].
    by rewrite decide_True.
Qed.

Lemma refs_of_alter s L i f s' j :
  buffer_pool s' = alter f i (buffer_pool s) ->
  (forall e, be_ref_count (f e) = be_ref_count e) -> refs_of s' L j = refs_of s L j.
Proof.
  intros Hp Hf. unfold refs_of. destruct (L !! j); [|done]. rewrite Hp, list_lookup_alter.
  case_decide; [|done]. subst. destruct (buffer_pool s !! _); simpl; auto.
Qed.

Lemma write_loop_bounds io buf out ok io' :
  Forall is_byte buf -> write_loop io buf 0 = (out, ok, io') ->
  Forall is_byte out /\ zlen out <= zlen buf /\ (ok = true -> out = buf).
Proof.
  intros Hb E. destruct ok.
  - apply write_loop_success in E as ->; [|zl]. by rewrite zdrop_0.
  - apply write_loop_prefix in E as (n & ? & ? & ->); [|zl]. split_and!; [by apply sub_bytes| |done].
    rewrite zlen_sub; lia.
Qed.

(** A [pwrite] of the page of a linked frame that put [out] into the file, and
    cleared the dirty bit when [out] is the whole page. *)
Lemma frame_written s L ch U X i e p out ok s' :
  pager_inv s L ch U X -> buffer_pool s !! i = Some e -> L !! be_page_id e = Some i ->
  be_page e = Some p -> be_dirty e = true ->
  Forall is_byte out -> zlen out <= PAGE_SIZE -> (ok = true -> out = page_image p) ->
  data_file s' = file_write (be_page_id e * PAGE_SIZE) out (data_file s) ->
  buffer_pool s' = alter (fun e' => if ok : bool then frame_dirty false e' else e') i (buffer_pool s) ->
  hash_table s' = hash_table s ->
  pager_inv s' L ch U X /\ view_extends s L s' L /\
  (ok = true -> on_disk s' (be_page_id e) p) /\
  buffer_pool s' !! i = Some (frame_dirty (negb ok) e) /\
  (forall j, refs_of s' L j = refs_of s L j).
Proof.
  intros Hinv He HL Hp Hd Hob Hol Hout Hdf Hpool Hht.
  set (f := fun e' => if ok : bool then frame_dirty false e' else e') in *.
  destruct (pi_linked _ _ _ _ _ Hinv _ _ HL) as (e2 & p2 & He2 & Hp2 & Hwf & Hid & Hr & _).
  assert (e2 = e) as -> by congruence. assert (p2 = p) as -> by congruence.
  assert (ok = true -> on_disk s' (be_page_id e) p) as Hok.
  { intros ->. rewrite Hout in Hdf by done. unfold on_disk. rewrite Hdf.
    destruct (file_write_same (data_file s) (be_page_id e) (page_image p)) as [? ->];
      [lia|by apply zlen_page_image|]. split; [done|by apply page_of_image_image]. }
  split_and!; try done.
  - apply (pager_inv_alter s L ch U X i f s'); try done.
    + intros e'. subst f. by destruct ok.
    + intros e' He'. assert (e' = e) as -> by congruence. subst f. split_and!; [by eexists| | |].
      * by destruct ok.
      * intros Hu. destruct (pi_unsaved _ _ _ _ _ Hinv _ Hu) as (k & e3 & ? & ? & ?).
        assert (e3 = e) as -> by congruence. by destruct ok.
      * intros _ Hdf' p' ?. destruct ok; [|congruence]. simplify_eq. auto.
    + rewrite Hdf. apply file_write_bytes; [apply Hinv|done].
    + intros id q Hid' [Hin Hq] Hne. unfold on_disk. rewrite Hdf.
      destruct (file_write_other (data_file s) (be_page_id e) id out) as [? ->]; try done; try lia.
      intros ->. by eapply Hne.
  - eapply view_extends_alter; [|exact Hpool|].
    + intros e'. subst f. by destruct ok.
    + intros id Hid0 HLn Hin. rewrite Hdf. apply file_write_other; try done; try lia.
      intros ->. congruence.
  - rewrite Hpool, list_lookup_alter_eq, He. subst f. destruct ok; [done|].
    cbn. f_equal. unfold frame_dirty. rewrite <- Hd. by destruct e.
  - intros j. eapply refs_of_alter; [exact Hpool|]. intros e'. subst f. by destruct ok.
Qed.

(** The write-back of a dirty, linked, unpinned frame. *)
Lemma write_back_spec s L ch U X i e p ok s' :
  pager_inv s L ch U X -> buffer_pool s !! i = Some e -> L !! be_page_id e = Some i ->
  be_page e = Some p -> be_dirty e = true -> write_back i e p s = (ok, s') ->
  pager_inv s' L ch U X /\ view_extends s L s' L /\
  (ok = true -> on_disk s' (be_page_id e) p) /\
  (exists d, buffer_pool s' !! i = Some (frame_dirty d e)) /\
  (forall j, refs_of s' L j = refs_of s L j).
Proof.
  intros Hinv He HL Hp Hd. unfold write_back.
  destruct (flush_wal_buffer (wal s)) as [rc w]. simpl.
  destruct (write_loop (env_pwrite (env s)) (page_image p) 0) as [[out ok'] io] eqn:Ew.
  destruct (pi_linked _ _ _ _ _ Hinv _ _ HL) as (e2 & p2 & He2 & Hp2 & Hwf & _).
  assert (e2 = e) as -> by congruence. assert (p2 = p) as -> by congruence.
  destruct (write_loop_bounds _ _ _ _ _ (page_image_bytes p Hwf) Ew) as (Hob & Hol & Hout).
  rewrite zlen_page_image in Hol by done. intros Hs'.
  destruct (frame_written s L ch U X i e p out ok' s') as (? & ? & ? & ? & ?); try done.
  1-3: destruct ok'; simplify_eq; simpl; try done; by rewrite list_alter_id.
  assert (ok = ok') as -> by (destruct ok'; by simplify_eq). split_and!; try done. by eexists.
Qed.

Lemma pager_inv_weaken s L ch U i : pager_inv s L ch U None -> pager_inv s L ch U (Some i).
Proof. intros [? ? ? ? Hn]. constructor; eauto. Qed.

(** Only the bookkeeping outside pool, table and file differs. *)
Lemma pager_inv_same s s' L ch U X :
  buffer_pool s' = buffer_pool s -> hash_table s' = hash_table s -> data_file s' = data_file s ->
  pager_inv s L ch U X -> pager_inv s' L ch U X.
Proof.
  intros Hp Hh Hf [H1 H2 H3 H4 H5]. constructor; rewrite ?Hp, ?Hh, ?Hf; try done.
  intros id i Hi. destruct (H3 _ _ Hi) as (e & p & ?). exists e, p.
  unfold on_disk in *. by rewrite Hf.
Qed.
Lemma view_of_same s s' L id :
  buffer_pool s' = buffer_pool s -> data_file s' = data_file s -> view_of s' L id = view_of s L id.
Proof. intros Hp Hf. unfold view_of. by rewrite Hp, Hf. Qed.
Lemma refs_of_same s s' L id :
  buffer_pool s' = buffer_pool s -> refs_of s' L id = refs_of s L id.
Proof. intros Hp. unfold refs_of. by rewrite Hp. Qed.

Lemma unlink_victim_absent s L ch i id :
  hash_ok (buffer_pool s) (hash_table s) L ch -> ~ linked L i ->
  buffer_pool (unlink_victim i id s) = buffer_pool s /\
  hash_table (unlink_victim i id s) = hash_table s /\
  data_file (unlink_victim i id s) = data_file s.
Proof.
  intros Hok Hnl. destruct (bucket_lookup s L ch Hok id) as (h & Hh & Hb & Hc).
  unfold unlink_victim. rewrite Hb.
  rewrite (unlink_chain_absent _ _ _ _ _ Hc); cycle 1.
  - pose proof (chain_length _ _ _ Hc (ho_nodup _ _ _ _ Hok _)). lia.
  - intros Hin. destruct (frame_chain_lookup _ _ _ _ Hc Hin) as [e He]. apply Hnl.
    exists (be_page_id e). by eapply (ho_hash _ _ _ _ Hok).
  - simpl. split_and!; try done. by apply list_insert_id.
Qed.

(** Unlinking a clean victim leaves its page to the file. *)
Lemma pager_inv_unlink s L ch U i e p :
  pager_inv s L ch U None -> buffer_pool s !! i = Some e -> L !! be_page_id e = Some i ->
  be_page e = Some p -> be_ref_count e = 0 -> on_disk s (be_page_id e) p ->
  let s' := unlink_victim i (be_page_id e) s in
  let L' := delete (be_page_id e) L in
  exists ch', pager_inv s' L' ch' U (Some i) /\ view_extends s L s' L' /\ ~ linked L' i /\
    is_Some (buffer_pool s' !! i) /\ (forall j, refs_of s' L' j = refs_of s L j).
Proof.
  intros Hinv He HL Hp Hr Hd. pose proof Hinv as [Hok Hf Hl Hu Hn].
  destruct (bucket_lookup s L ch Hok (be_page_id e)) as (h & Hh & Hb & Hc).
  unfold unlink_victim. rewrite Hb.
  destruct (unlink_chain (S (length (buffer_pool s))) (buffer_pool s) h (Z.of_nat i)) as [n pool'] eqn:Eu.
  destruct (unlink_chain_pool _ _ _ _ _ _ Eu) as [Hlp Hpool].
  assert (hash_ok pool' (<[Z.to_nat (be_page_id e mod zlen (hash_table s)) := n]> (hash_table s))
    (delete (be_page_id e) L) (set_chain ch (Z.to_nat (be_page_id e mod zlen (hash_table s)))
      (filter (.≠ i) (ch (Z.to_nat (be_page_id e mod zlen (hash_table s))))))) as Hok'.
  { eapply hash_ok_unlink; [done|done|]. intros h' Hh'. by simplify_eq. }
  assert (forall k e0, buffer_pool s !! k = Some e0 -> exists m, pool' !! k = Some (frame_next m e0)) as Hfwd.
  { intros k e0 He0. destruct (Hpool k) as [m [-> | ->]]; rewrite He0; [by exists m|].
    exists (be_hash_next e0). by destruct e0. }
  assert (forall id k, delete (be_page_id e) L !! id = Some k -> k <> i /\ L !! id = Some k) as HdelL.
  { intros id k [Hne Hk]%lookup_delete_Some. split; [|done]. intros ->.
    destruct (ho_map _ _ _ _ Hok _ _ Hk) as [_ (e2 & He2 & ?)]. congruence. }
  eexists. split_and!.
  - constructor; simpl.
    + exact Hok'.
    + done.
    + intros id k [_ Hk]%HdelL. destruct (Hl _ _ Hk) as (e0 & p0 & He0 & ?).
      destruct (Hfwd _ _ He0) as [m Hm]. exists (frame_next m e0), p0. done.
    + intros id Hid. destruct (Hu _ Hid) as (k & e0 & Hk & He0 & Hpos).
      destruct (Hfwd _ _ He0) as [m Hm]. exists k, (frame_next m e0). split_and!; [|done|done].
      apply lookup_delete_Some. split; [|done]. intros Heq. rewrite <- Heq in Hk.
      assert (k = i) as -> by congruence. assert (e0 = e) as -> by congruence. lia.
    + intros k e' He' Hnl HX. destruct (Hpool k) as [m Hm].
      assert (exists e0, buffer_pool s !! k = Some e0 /\ be_ref_count e' = be_ref_count e0 /\
                be_dirty e' = be_dirty e0) as (e0 & He0 & -> & ->).
      { destruct Hm as [Hm|Hm]; rewrite Hm in He'; [|eauto].
        apply fmap_Some in He' as (e0 & He0 & ->). eauto. }
      eapply Hn; [exact He0| |done]. intros [id Hid]. apply Hnl. exists id.
      apply lookup_delete_Some. split; [|done]. intros <-. congruence.
  - intros id q Hid. unfold view_of. simpl. destruct (decide (id = be_page_id e)) as [->|Hne].
    + rewrite HL, lookup_delete_eq, He. simpl. destruct Hd as [Hin <-].
      rewrite decide_True by done. congruence.
    + rewrite lookup_delete_ne by done. destruct (L !! id) as [k|] eqn:Hk; [|done].
      destruct (buffer_pool s !! k) as [e0|] eqn:He0; [|done].
      destruct (Hfwd _ _ He0) as [m Hm]. by rewrite Hm.
  - intros [id Hid]. by destruct (HdelL _ _ Hid).
  - simpl. destruct (Hfwd _ _ He) as [m Hm]. eauto.
  - intros j. unfold refs_of. simpl. destruct (decide (j = be_page_id e)) as [->|Hne].
    + by rewrite lookup_delete_eq, HL, He.
    + rewrite lookup_delete_ne by done. destruct (L !! j) as [k|] eqn:Hk; [|done].
      destruct (Hl _ _ Hk) as (e0 & _ & He0 & _). destruct (Hfwd _ _ He0) as [m Hm].
      by rewrite Hm, He0.
Qed.

Lemma pager_inv_update_unlinked s L ch U i f s' :
  pager_inv s L ch U (Some i) -> ~ linked L i ->
  buffer_pool s' = alter f i (buffer_pool s) -> hash_table s' = hash_table s ->
  data_file s' = data_file s ->
  pager_inv s' L ch U (Some i) /\ (forall id, view_of s' L id = view_of s L id) /\
  (forall id, refs_of s' L id = refs_of s L id).
Proof.
  intros [Hok Hf Hl Hu Hn] Hnl Hp Hh Hd.
  assert (forall id k, L !! id = Some k -> buffer_pool s' !! k = buffer_pool s !! k) as Hk.
  { intros id k HL. rewrite Hp. apply list_lookup_alter_ne. intros <-. apply Hnl. by exists id. }
  split_and!.
  - constructor.
    + rewrite Hp, Hh. by apply hash_ok_alter_unlinked.
    + by rewrite Hd.
    + intros id k HL. destruct (Hl _ _ HL) as (e & p & ?). exists e, p.
      unfold on_disk in *. by rewrite (Hk _ _ HL), Hd.
    + intros id Hid. destruct (Hu _ Hid) as (k & e & HL & ? & ?). exists k, e. by rewrite (Hk _ _ HL).
    + intros k e He Hnk HX. rewrite Hp, list_lookup_alter_ne in He by congruence. eauto.
  - intros id. unfold view_of. destruct (L !! id) eqn:HL; [by rewrite (Hk _ _ HL)|by rewrite Hd].
  - intros id. unfold refs_of. destruct (L !! id) eqn:HL; [by rewrite (Hk _ _ HL)|done].
Qed.

(** Claiming a frame for [id] keeps every page, whatever the kernel answers. *)
Lemma allocate_buffer_entry_spec s L ch U id r s' :
  pager_inv s L ch U None -> L !! id = None -> allocate_buffer_entry id s = (r, s') ->
  exists L' ch', view_extends s L s' L' /\ (forall j, refs_of s' L' j = refs_of s L j) /\
    L' !! id = None /\
    match r with
    | None => pager_inv s' L' ch' U None
    | Some i => pager_inv s' L' ch' U (Some i) /\ ~ linked L' i /\
        exists e, buffer_pool s' !! i = Some e /\ be_page_id e = id /\
          be_ref_count e = 1 /\ be_dirty e = false
    end.
Proof.
  intros Hinv HLn. unfold allocate_buffer_entry.
  destruct (select_victim (buffer_pool s) 0 None) as [i|] eqn:Hsel; cycle 1.
  { intros [= <- <-]. exists L, ch. split_and!; auto using view_extends_refl. }
  apply select_victim_spec in Hsel as [[t Ht]|(e & _ & He & Hpin & Hr)]; [done|].
  rewrite Nat.sub_0_r in He. rewrite He.
  (* the last step: stamp the claimed frame *)
  assert (forall s1 L1 ch1, pager_inv s1 L1 ch1 U (Some i) -> ~ linked L1 i ->
    is_Some (buffer_pool s1 !! i) -> view_extends s L s1 L1 ->
    (forall j, refs_of s1 L1 j = refs_of s L j) -> L1 !! id = None ->
    (let '(now, s2) := clock_gettime s1 in
     (Some i, update_frame i (init_frame id now) s2)) = (r, s') ->
    exists L' ch', view_extends s L s' L' /\ (forall j, refs_of s' L' j = refs_of s L j) /\
    L' !! id = None /\
    match r with
    | None => pager_inv s' L' ch' U None
    | Some i => pager_inv s' L' ch' U (Some i) /\ ~ linked L' i /\
        exists e, buffer_pool s' !! i = Some e /\ be_page_id e = id /\
          be_ref_count e = 1 /\ be_dirty e = false
    end) as Hfin.
  { intros s1 L1 ch1 Hi1 Hnl [e1 He1] Hv1 Hr1 HL1. cbn. intros [= <- <-].
    destruct (pager_inv_update_unlinked s1 L1 ch1 U i
      (init_frame id (env_clock (env s1) (env_ticks (env s1)))) (update_frame i
      (init_frame id (env_clock (env s1) (env_ticks (env s1))))
      (clock_gettime s1).2) Hi1 Hnl) as (Hi2 & Hv2 & Hr2); [done..|].
    exists L1, ch1. split_and!; [|by intros; rewrite Hr2|done|done|done|].
    - intros j q Hj Hq. rewrite Hv2. by apply Hv1.
    - eexists. cbn. by rewrite list_lookup_alter_eq, He1. }
  destruct (decide (L !! be_page_id e = Some i)) as [HL|HL].
  - destruct (pi_linked _ _ _ _ _ Hinv _ _ HL) as (e2 & p & He2 & Hp & Hwf & Hid & _ & Hst).
    assert (e2 = e) as -> by congruence. rewrite Hp.
    assert (be_page_id e ∉ U) as HnU.
    { intros Hu. destruct (pi_unsaved _ _ _ _ _ Hinv _ Hu) as (k & e3 & ? & ? & ?).
      assert (e3 = e) as -> by congruence. lia. }
    rewrite (proj2 (Z.eqb_neq (be_page_id e) 0)) by lia.
    assert (delete (be_page_id e) L !! id = None) as HdelN by (apply lookup_delete_None; auto).
    destruct (be_dirty e) eqn:Hdirty.
    + destruct (write_back i e p s) as [ok s1] eqn:Ew.
      destruct (write_back_spec _ _ _ _ _ _ _ _ _ _ Hinv He HL Hp Hdirty Ew)
        as (Hi1 & Hv1 & Hd1 & [d He1] & Hr1).
      destruct ok; cbn [negb]; cycle 1.
      { intros [= <- <-]. exists L, ch. by split_and!. }
      destruct (pager_inv_unlink s1 L ch U i (frame_dirty d e) p Hi1 He1 HL Hp Hr (Hd1 eq_refl))
        as (ch' & Hi2 & Hv2 & Hnl2 & Hs2 & Hr2).
      eapply Hfin; try done; [by eapply view_extends_trans|]. intros j. by rewrite Hr2.
    + cbn [negb]. destruct Hst as [|[|Hst]]; [done|done|].
      destruct (pager_inv_unlink s L ch U i e p Hinv He HL Hp Hr Hst)
        as (ch' & Hi2 & Hv2 & Hnl2 & Hs2 & Hr2).
      by eapply Hfin.
  - assert (~ linked L i) as Hnl by (by rewrite (linked_iff s L ch (pi_hash _ _ _ _ _ Hinv) i e He)).
    destruct (pi_unlinked _ _ _ _ _ Hinv _ _ He Hnl) as [_ Hnd]; [done|]. rewrite Hnd. cbn [negb].
    destruct (unlink_victim_absent s L ch i (be_page_id e) (pi_hash _ _ _ _ _ Hinv) Hnl)
      as (Hp1 & Hh1 & Hf1).
    destruct (be_page_id e =? 0).
    + apply (Hfin s L ch); try done;
        [by apply pager_inv_weaken|apply view_extends_refl].
    + eapply (Hfin _ L ch); try done.
      * by apply pager_inv_weaken, (pager_inv_same s).
      * by rewrite Hp1, He.
      * intros j q Hj. by rewrite (view_of_same s (unlink_victim i (be_page_id e) s)).
      * intros j. by apply refs_of_same.
Qed.

Lemma pager_inv_publish s L ch U i id e p :
  pager_inv s L ch U (Some i) -> ~ linked L i -> L !! id = None ->
  buffer_pool s !! i = Some e -> be_page_id e = id -> be_page e = Some p -> page_wf p ->
  0 < id <= UINT32_MAX -> 0 <= be_ref_count e -> (be_dirty e = true \/ on_disk s id p) ->
  exists ch', let s' := publish i id s in let L' := <[id := i]> L in
    pager_inv s' L' ch' U None /\
    view_of s' L' id = Some p /\ refs_of s' L' id = be_ref_count e /\
    (forall j, j <> id -> view_of s' L' j = view_of s L j /\ refs_of s' L' j = refs_of s L j).
Proof.
  intros [Hok Hf Hl Hu Hn] Hnl HLn He Hid Hp Hwf Hidr Hr Hst.
  destruct (bucket_lookup s L ch Hok id) as (h & Hh & Hb & _).
  unfold publish. rewrite Hb.
  pose proof (hash_ok_publish _ _ _ _ _ _ _ _ Hok Hnl HLn He Hid Hh) as Hok'. simpl in Hok'.
  assert (forall id' k, L !! id' = Some k ->
    alter (frame_next h) i (buffer_pool s) !! k = buffer_pool s !! k) as Hk.
  { intros id' k HL. apply list_lookup_alter_ne. intros <-. apply Hnl. by exists id'. }
  assert (alter (frame_next h) i (buffer_pool s) !! i = Some (frame_next h e)) as Hei
    by (by rewrite list_lookup_alter_eq, He).
  eexists. simpl. split_and!.
  - constructor; simpl.
    + exact Hok'.
    + done.
    + intros id' k [[<- <-]|[Hne HL]]%lookup_insert_Some.
      * exists (frame_next h e), p. split_and!; try done; try lia. destruct Hst; auto.
      * destruct (Hl _ _ HL) as (e' & p' & ?). exists e', p'. by rewrite (Hk _ _ HL).
    + intros id' Hid'. destruct (Hu _ Hid') as (k & e' & HL & ? & ?). exists k, e'.
      rewrite (Hk _ _ HL). split_and!; try done. apply lookup_insert_Some. right.
      split; [|done]. intros <-. congruence.
    + intros k e' He' Hnk _. destruct (decide (k = i)) as [->|Hki].
      { exfalso. apply Hnk. exists id. apply lookup_insert_eq. }
      rewrite list_lookup_alter_ne in He' by done. apply (Hn k e' He'); [|congruence].
      intros [id' HL]. apply Hnk. exists id'. apply lookup_insert_Some. right.
      split; [|done]. intros <-. congruence.
  - unfold view_of. rewrite lookup_insert_eq. simpl. by rewrite Hei.
  - unfold refs_of. rewrite lookup_insert_eq. simpl. by rewrite Hei.
  - intros j Hj. unfold view_of, refs_of. rewrite lookup_insert_ne by done. simpl.
    destruct (L !! j) eqn:HL; [by rewrite (Hk _ _ HL)|done].
Qed.

Lemma pager_inv_unclaim s L ch U i e :
  pager_inv s L ch U (Some i) -> buffer_pool s !! i = Some e ->
  be_ref_count e = 0 -> be_dirty e = false -> pager_inv s L ch U None.
Proof.
  intros [Hok Hf Hl Hu Hn] He Hr Hd. constructor; try done.
  intros k e' He' Hnl _. destruct (decide (k = i)) as [->|]; [by simplify_eq|].
  eapply Hn; eauto. congruence.
Qed.

Lemma load_page_from_disk_spec id s r s' :
  0 < id <= UINT32_MAX -> Forall is_byte (data_file s) ->
  load_page_from_disk id s = (r, s') ->
  buffer_pool s' = buffer_pool s /\ hash_table s' = hash_table s /\
  data_file s' = data_file s /\ config s' = config s /\
  match r with
  | None => True
  | Some (p, fresh) =>
      page_wf p /\ (if fresh : bool then p = fresh_page id /\ ~ in_file (data_file s) id
                    else on_disk s id p)
  end.
Proof.
  intros Hid Hb. unfold load_page_from_disk, pread_page.
  destruct (match env_pread (env s) with [] => (RdFull, []) | r :: l => (r, l) end) as [rr l].
  set (avail := Z.min PAGE_SIZE (Z.max 0 (zlen (data_file s) - id * PAGE_SIZE))).
  set (s1 := set_env _ s).
  assert (forall n buf, 0 <= n <= avail -> buf = sub (id * PAGE_SIZE) n (data_file s) ->
    (if n =? PAGE_SIZE then (Some (page_of_image buf, false), s1)
     else if (n <? 0) || (id * PAGE_SIZE <? zlen (data_file s1)) then (None, s1)
     else (Some (fresh_page id, true), s1)) = (r, s') ->
    buffer_pool s' = buffer_pool s /\ hash_table s' = hash_table s /\
    data_file s' = data_file s /\ config s' = config s /\
    match r with
    | None => True
    | Some (p, fresh) =>
        page_wf p /\ (if fresh : bool then p = fresh_page id /\ ~ in_file (data_file s) id
                      else on_disk s id p)
    end) as Hgen.
  { intros n buf Hn ->. unfold PAGE_SIZE in *. destruct (Z.eqb_spec n 4096) as [->|Hne].
    - intros [= <- <-]. split_and!; try done.
      + apply page_of_image_wf; [|by apply sub_bytes]. apply zlen_sub; subst avail; unfold PAGE_SIZE in *; lia.
      + split; [|done]. subst avail. unfold in_file, PAGE_SIZE in *. lia.
    - case_match eqn:Hc; [by intros [= <- <-]|]. intros [= <- <-]. split_and!; try done.
      + apply fresh_page_wf. lia.
      + apply orb_false_iff in Hc as [_ Hc]. unfold in_file, PAGE_SIZE.
        change (data_file s1) with (data_file s) in Hc. lia. }
  destruct rr as [| |n].
  - apply Hgen; [subst avail; unfold PAGE_SIZE; lia|done].
  - intros [= <- <-]. done.
  - apply Hgen; [subst avail; unfold PAGE_SIZE; lia|done].
Qed.

(** Updating the frame of a buffered page. *)
Lemma pager_inv_relink s L ch U U' i id e p f s' :
  pager_inv s L ch U None -> L !! id = Some i -> buffer_pool s !! i = Some e ->
  (forall e, be_page_id (f e) = be_page_id e /\ be_hash_next (f e) = be_hash_next e) ->
  buffer_pool s' = alter f i (buffer_pool s) -> hash_table s' = hash_table s ->
  data_file s' = data_file s ->
  be_page (f e) = Some p -> page_wf p -> 0 <= be_ref_count (f e) ->
  (be_dirty (f e) = true \/ id ∈ U' \/ on_disk s id p) ->
  (forall j, j <> id -> j ∈ U <-> j ∈ U') -> (id ∈ U' -> 0 < be_ref_count (f e)) ->
  pager_inv s' L ch U' None /\ view_of s' L id = Some p /\ refs_of s' L id = be_ref_count (f e) /\
  (forall j, j <> id -> view_of s' L j = view_of s L j /\ refs_of s' L j = refs_of s L j).
Proof.
  intros Hinv HL He Hf Hp Hh Hd Hpg Hwf Hr Hst HU HUi. pose proof Hinv as [Hok Hfile Hl Hu Hn].
  assert (buffer_pool s' !! i = Some (f e)) as Hei by (by rewrite Hp, list_lookup_alter_eq, He).
  assert (forall j k, j <> id -> L !! j = Some k -> buffer_pool s' !! k = buffer_pool s !! k) as Hk.
  { intros j k Hj HLj. rewrite Hp. apply list_lookup_alter_ne. intros <-.
    destruct (ho_map _ _ _ _ Hok _ _ HL) as [_ (e1 & ? & ?)],
      (ho_map _ _ _ _ Hok _ _ HLj) as [_ (e2 & ? & ?)]. congruence. }
  destruct (Hl _ _ HL) as (e0 & p0 & ? & _ & _ & Hidr & _).
  split_and!.
  - constructor.
    + rewrite Hp, Hh. by apply hash_ok_alter.
    + by rewrite Hd.
    + intros j k HLj. destruct (decide (j = id)) as [->|Hj].
      * assert (k = i) as -> by congruence. exists (f e), p. unfold on_disk in *. rewrite Hd. auto 10.
      * destruct (Hl _ _ HLj) as (e1 & p1 & Hst1). exists e1, p1.
        rewrite (Hk _ _ Hj HLj). unfold on_disk. rewrite Hd, <- (HU _ Hj). done.
    + intros j Hj. destruct (decide (j = id)) as [->|Hne].
      * exists i, (f e). auto.
      * apply HU in Hj; [|done]. destruct (Hu _ Hj) as (k & e1 & HLj & ? & ?).
        exists k, e1. by rewrite (Hk _ _ Hne HLj).
    + intros k e1 He1 Hnl _. rewrite Hp, list_lookup_alter_ne in He1.
      * by eapply Hn.
      * intros <-. apply Hnl. by exists id.
  - unfold view_of. by rewrite HL, Hei.
  - unfold refs_of. by rewrite HL, Hei.
  - intros j Hj. unfold view_of, refs_of. rewrite Hd.
    destruct (L !! j) eqn:HLj; [by rewrite (Hk _ _ Hj HLj)|done].
Qed.

Section ops.
Context (crc32 : bytes -> Z).

(** A buffered page: [get_page] pins its frame. *)
Lemma get_page_hit s L ch U id i lk :
  pager_inv s L ch U None -> L !! id = Some i ->
  exists p s', get_page crc32 id lk s = (Some p, s') /\ pager_inv s' L ch U None /\
    page_wf p /\ view_of s L id = Some p /\ (forall j, view_of s' L j = view_of s L j) /\
    (forall j, refs_of s' L j = refs_of s L j + (if decide (j = id) then 1 else 0)).
Proof using.
  intros Hinv HL. pose proof (pi_hash _ _ _ _ _ Hinv) as Hok.
  destruct (pi_linked _ _ _ _ _ Hinv _ _ HL) as (e & p & He & Hp & Hwf & Hid & Hr & _).
  destruct (ho_map _ _ _ _ Hok _ _ HL) as [_ (e2 & He2 & Hpid)].
  assert (e2 = e) as -> by congruence.
  unfold get_page. rewrite (find_buffer_entry_spec s L ch Hok), HL. cbn.
  rewrite list_alter_alter_eq.
  set (f := _ ∘ _). rewrite list_lookup_alter_eq, He. cbn. rewrite Hp.
  eexists p, _. split; [done|].
  match goal with |- pager_inv ?s1 _ _ _ _ /\ _ => set (s' := s1) end.
  assert (buffer_pool s' = alter f i (buffer_pool s)) as Hpool
    by (subst s'; cbn; by rewrite list_alter_alter_eq).
  split_and!; try done.
  - apply (pager_inv_alter s L ch U None i f s'); try done; [|apply Hinv].
    intros e' He'. assert (e' = e) as -> by congruence. split_and!; try done; [by exists id|..].
    + cbn. lia.
    + intros _. cbn. lia.
    + cbn. congruence.
  - unfold view_of. by rewrite HL, He.
  - intros j. unfold view_of. rewrite Hpool. destruct (L !! j) as [k|]; [|done].
    rewrite list_lookup_alter. case_decide; [|done]. subst k. by rewrite He.
  - intros j. unfold refs_of. rewrite Hpool. destruct (L !! j) as [k|] eqn:Hj.
    + rewrite list_lookup_alter. case_decide as Hik.
      * subst k. destruct (ho_map _ _ _ _ Hok _ _ Hj) as [_ (e2 & He2' & Hpid')].
        rewrite decide_True by congruence. by rewrite He.
      * rewrite decide_False by congruence. lia.
    + rewrite decide_False by congruence. done.
Qed.

(** A page not buffered: it is read from the file, or created when the file
    ends before it; on any failure the pager is as before. *)
Lemma get_page_miss s L ch U id lk r s' :
  pager_inv s L ch U None -> 0 < id <= UINT32_MAX -> L !! id = None ->
  get_page crc32 id lk s = (r, s') ->
  exists L' ch', pager_inv s' L' ch' U None /\ view_extends s L s' L' /\
    match r with
    | Some p => page_wf p /\ view_of s' L' id = Some p /\
        (forall j, refs_of s' L' j = refs_of s L j + (if decide (j = id) then 1 else 0))
    | None => forall j, refs_of s' L' j = refs_of s L j
    end.
Proof using.
  intros Hinv Hid HLn. unfold get_page.
  rewrite (find_buffer_entry_spec s L ch (pi_hash _ _ _ _ _ Hinv)), HLn.
  destruct (allocate_buffer_entry id s) as [[i|] s1] eqn:Ea;
    destruct (allocate_buffer_entry_spec _ _ _ _ _ _ _ Hinv HLn Ea)
      as (L1 & ch1 & Hv1 & Hr1 & HL1 & Hres); cycle 1.
  { intros [= <- <-]. exists L1, ch1. done. }
  destruct Hres as (Hi1 & Hnl & e & He & Hpid & Href & Hdirty).
  (* giving the claimed frame back *)
  assert (forall s2 f, buffer_pool s2 = alter f i (buffer_pool s1) -> hash_table s2 = hash_table s1 ->
    data_file s2 = data_file s1 -> be_ref_count (f e) = 1 -> be_dirty (f e) = false ->
    let s3 := update_frame i (frame_refs (-1)) s2 in
    pager_inv s3 L1 ch1 U None /\ view_extends s L s3 L1 /\
    (forall j, refs_of s3 L1 j = refs_of s L j)) as Hfail.
  { intros s2 f Hp2 Hh2 Hf2 Hrf Hdf s3.
    assert (buffer_pool s3 = alter (frame_refs (-1) ∘ f) i (buffer_pool s1)) as Hp3.
    { subst s3. cbn. by rewrite Hp2, list_alter_alter_eq. }
    destruct (pager_inv_update_unlinked s1 L1 ch1 U i (frame_refs (-1) ∘ f) s3 Hi1 Hnl)
      as (Hi3 & Hv3 & Hr3); [done..|]. split_and!.
    - eapply pager_inv_unclaim; [exact Hi3|by rewrite Hp3, list_lookup_alter_eq, He|cbn; lia|done].
    - intros j q Hj Hq. rewrite Hv3. by apply Hv1.
    - intros j. by rewrite Hr3. }
  destruct (match (e0 ← buffer_pool (bump_stats 0 0 0 1 s1) !! i; be_page e0) with
    | Some _ => (true, bump_stats 0 0 0 1 s1) | None => next_malloc (bump_stats 0 0 0 1 s1) end)
    as [have s2] eqn:Eh.
  assert (buffer_pool s2 = buffer_pool s1 /\ hash_table s2 = hash_table s1 /\
    data_file s2 = data_file s1 /\ config s2 = config s1) as (Hp2 & Hh2 & Hf2 & Hc2).
  { destruct (_ ≫= _); [by simplify_eq|]. unfold next_malloc in Eh.
    destruct (env_malloc (env (bump_stats 0 0 0 1 s1))); by simplify_eq. }
  assert (buffer_pool s2 = alter (fun e => e) i (buffer_pool s1)) as Hp2' by (by rewrite list_alter_id).
  destruct have; cbn [negb]; cycle 1.
  { intros [= <- <-]. exists L1, ch1.
    destruct (Hfail s2 (fun e => e)) as (? & ? & ?); try done. }
  destruct (load_page_from_disk id s2) as [[[p fresh]|] s3] eqn:El;
    destruct (load_page_from_disk_spec id s2 _ s3 Hid ltac:(rewrite Hf2; apply Hi1) El)
      as (Hp3 & Hh3 & Hf3 & Hc3 & Hres); cycle 1.
  { intros [= <- <-]. exists L1, ch1.
    destruct (Hfail s3 (fun e => e)) as (? & ? & ?); try done; congruence. }
  destruct Hres as [Hwf Hfr].
  set (f := fun e => frame_page (Some p) (if fresh : bool then frame_dirty true e else e)).
  set (s4 := bump_stats 1 0 0 0 (update_frame i f s3)).
  assert (buffer_pool s4 = alter f i (buffer_pool s1)) as Hp4 by (subst s4; cbn; congruence).
  assert (hash_table s4 = hash_table s1) as Hh4 by (subst s4; cbn; congruence).
  assert (data_file s4 = data_file s1) as Hf4 by (subst s4; cbn; congruence).
  destruct (enable_checksums (config s4) && negb (page_checksum_valid crc32 p)) eqn:Ecs.
  - intros [= <- <-]. exists L1, ch1. destruct (Hfail s4 f) as (? & ? & ?); try done.
    + subst f. cbn. by destruct fresh.
    + subst f. destruct fresh; [|done]. destruct Hfr as [-> _]. exfalso.
      apply andb_true_iff in Ecs as [_ Ecs]. by unfold page_checksum_valid in Ecs.
  - intros [= <- <-].
    destruct (pager_inv_update_unlinked s1 L1 ch1 U i f s4 Hi1 Hnl Hp4 Hh4 Hf4) as (Hi4 & Hv4 & Hr4).
    destruct (pager_inv_publish s4 L1 ch1 U i id (f e) p) as (ch2 & Hi5 & Hvi & Hri & Hoth); try done.
    + by rewrite Hp4, list_lookup_alter_eq, He.
    + subst f. by destruct fresh.
    + subst f. cbn. destruct fresh; cbn; lia.
    + subst f. destruct fresh; [by left|]. right. unfold on_disk in *. by rewrite Hf4, <- Hf2.
    + exists (<[id := i]> L1), ch2. split_and!; try done.
      * intros j q Hj Hq. destruct (decide (j = id)) as [->|Hne].
        -- apply Hv1 in Hq; [|done]. unfold view_of in Hq. rewrite HL1 in Hq.
           case_decide as Hin; [|done]. destruct fresh.
           ++ destruct Hfr as [_ Hni]. rewrite Hf2 in Hni. done.
           ++ destruct Hfr as [_ Hd]. rewrite Hf2 in Hd. rewrite Hvi. congruence.
        -- destruct (Hoth j Hne) as [-> _]. rewrite Hv4. by apply Hv1.
      * intros j. case_decide as Hj.
        -- subst j. rewrite Hri, <- Hr1. unfold refs_of. rewrite HL1. subst f. cbn.
           destruct fresh; cbn; lia.
        -- destruct (Hoth j Hj) as [_ ->]. rewrite Hr4, Hr1. lia.
Qed.

(** Stores through a pinned pointer. *)
Lemma store_page_spec s L ch U id i p :
  pager_inv s L ch U None -> L !! id = Some i -> 0 < refs_of s L id -> page_wf p ->
  let s' := store_page id p s in
  pager_inv s' L ch ({[id]} ∪ U) None /\ view_of s' L id = Some p /\
  (forall j, j <> id -> view_of s' L j = view_of s L j) /\
  (forall j, refs_of s' L j = refs_of s L j).
Proof using.
  intros Hinv HL Href Hwf s'.
  destruct (pi_linked _ _ _ _ _ Hinv _ _ HL) as (e & q & He & _ & _ & _ & Hr & _).
  assert (refs_of s L id = be_ref_count e) as Hre by (unfold refs_of; by rewrite HL, He).
  destruct (pager_inv_relink s L ch U ({[id]} ∪ U) i id e p (frame_page (Some p)) s')
    as (H1 & H2 & H3 & H4); try done.
  - subst s'. unfold store_page.
    by rewrite (find_buffer_entry_spec s L ch (pi_hash _ _ _ _ _ Hinv)), HL.
  - subst s'. unfold store_page.
    by rewrite (find_buffer_entry_spec s L ch (pi_hash _ _ _ _ _ Hinv)), HL.
  - subst s'. unfold store_page.
    by rewrite (find_buffer_entry_spec s L ch (pi_hash _ _ _ _ _ Hinv)), HL.
  - right; left. set_solver.
  - set_solver.
  - intros _. cbn. lia.
  - split_and!; try done; [naive_solver|]. intros j. destruct (decide (j = id)) as [->|]; [|naive_solver].
    rewrite H3. by rewrite Hre.
Qed.

Lemma calculate_checksum_range l : 0 <= calculate_checksum crc32 l <= UINT32_MAX.
Proof using.
  unfold calculate_checksum, UINT32_MAX. pose proof (uwrap_range 32 (crc32 l)).
  unfold u32. lia.
Qed.

Lemma stamp_page_wf s p : page_wf p -> page_wf (stamp_page crc32 s p).
Proof using.
  intros [[] ? ?]. unfold stamp_page.
  pose proof (uwrap_range 64 (next_lsn (wal s) - 1)) as Hl.
  destruct (enable_wal (config s)), (enable_checksums (config s)); constructor; cbn; try done;
    constructor; cbn; try done; try apply calculate_checksum_range;
    unfold u64, UINT64_MAX; lia.
Qed.

Lemma mark_page_dirty_spec s L ch U id i p :
  pager_inv s L ch U None -> L !! id = Some i -> view_of s L id = Some p ->
  let s' := mark_page_dirty crc32 id s in
  pager_inv s' L ch (U ∖ {[id]}) None /\ view_of s' L id = Some (stamp_page crc32 s p) /\
  (forall j, j <> id -> view_of s' L j = view_of s L j) /\
  (forall j, refs_of s' L j = refs_of s L j).
Proof using.
  intros Hinv HL Hv s'.
  destruct (pi_linked _ _ _ _ _ Hinv _ _ HL) as (e & q & He & Hq & Hwf & _ & Hr & _).
  assert (q = p) as ->. { unfold view_of in Hv. rewrite HL, He in Hv. cbn in Hv. congruence. }
  set (f := fun e => frame_page (stamp_page crc32 s <$> be_page e) (frame_dirty true e)).
  assert (s' = update_frame i f s) as Hs'.
  { subst s' f. unfold mark_page_dirty.
    by rewrite (find_buffer_entry_spec s L ch (pi_hash _ _ _ _ _ Hinv)), HL. }
  clearbody s'. subst s'.
  destruct (pager_inv_relink s L ch U (U ∖ {[id]}) i id e (stamp_page crc32 s p) f (update_frame i f s) Hinv HL He
    (fun e => conj eq_refl eq_refl) eq_refl eq_refl eq_refl) as (H1 & H2 & H3 & H4).
  - cbn. by rewrite Hq.
  - by apply stamp_page_wf.
  - done.
  - by left.
  - set_solver.
  - set_solver.
  - split_and!; try done; [naive_solver|]. intros j. destruct (decide (j = id)) as [->|]; [|naive_solver].
    rewrite H3. unfold refs_of. by rewrite HL, He.
Qed.

Lemma release_page_spec s L ch U id i lk :
  pager_inv s L ch U None -> L !! id = Some i -> 0 < refs_of s L id ->
  (id ∈ U -> 1 < refs_of s L id) ->
  let s' := release_page id lk s in
  pager_inv s' L ch U None /\ (forall j, view_of s' L j = view_of s L j) /\
  (forall j, refs_of s' L j = refs_of s L j - (if decide (j = id) then 1 else 0)).
Proof using.
  intros Hinv HL Href HU s'.
  destruct (pi_linked _ _ _ _ _ Hinv _ _ HL) as (e & p & He & Hp & Hwf & _ & Hr & Hst).
  assert (refs_of s L id = be_ref_count e) as Hre by (unfold refs_of; by rewrite HL, He).
  assert (s' = update_frame i (frame_refs (-1)) s) as Hs'.
  { subst s'. unfold release_page.
    by rewrite (find_buffer_entry_spec s L ch (pi_hash _ _ _ _ _ Hinv)), HL. }
  clearbody s'. subst s'.
  destruct (pager_inv_relink s L ch U U i id e p (frame_refs (-1))
    (update_frame i (frame_refs (-1)) s) Hinv HL He
    (fun e => conj eq_refl eq_refl) eq_refl eq_refl eq_refl) as (H1 & H2 & H3 & H4); try done.
  - cbn. lia.
  - intros Hu. specialize (HU Hu). cbn. lia.
  - split_and!; try done.
    + intros j. destruct (decide (j = id)) as [->|Hj]; [|by apply H4].
      rewrite H2. unfold view_of. by rewrite HL, He.
    + intros j. case_decide as Hj; [subst j; rewrite H3; cbn; lia|].
      destruct (H4 j Hj) as [_ ->]. lia.
Qed.
End ops.
