(* ===== verification/Store.v ===== *)
(** * The page store interface between the pager and its clients

    [txn.c] and [db.c] reach pages only through [get_page], [release_page],
    [mark_page_dirty], [allocate_page], [deallocate_page] and
    [write_wal_record]. [PageStore] collects these calls, [PageStoreLaws]
    states what they promise, and the instances at the end show that the
    buffer pool keeps the promises. *)
From S2P Require Import Prelude BtreePage Wal Pager PagerProofs.

Local Open Scope Z_scope.

(** ** Pages up to the bookkeeping fields

    [mark_page_dirty] rewrites the LSN and the checksum of a page; clients
    never look at either, so they see pages up to [page_equiv]. *)
Definition plain_header (h : page_header) : page_header := set_lsn (set_checksum h 0) 0.
Definition page_equiv (p q : btree_page) : Prop :=
  plain_header (header p) = plain_header (header q) /\ data p = data q.

#[global] Instance page_equiv_equivalence : Equivalence page_equiv.
Proof.
  split; unfold page_equiv.
  - by intros p.
  - intros p q [-> ->]. done.
  - intros p q r [-> ->] [-> ->]. done.
Qed.

Lemma page_equiv_fields p q :
  page_equiv p q ->
  page_id (header p) = page_id (header q) /\ page_type (header p) = page_type (header q) /\
  key_count (header p) = key_count (header q) /\ free_space (header p) = free_space (header q) /\
  next_page_id (header p) = next_page_id (header q) /\ data p = data q.
Proof. intros [H Hd]. unfold plain_header, set_lsn, set_checksum in H. cbn in H. split_and!; congruence. Qed.

#[global] Instance page_repr_proper : Proper (page_equiv ==> eq ==> iff) page_repr.
Proof.
  intros p q Hpq es ? <-. destruct (page_equiv_fields _ _ Hpq) as (_ & _ & Hk & Hf & _ & Hd).
  unfold page_repr. by rewrite Hk, Hf, Hd.
Qed.
#[global] Instance page_type_proper : Proper (page_equiv ==> eq) (fun p => page_type (header p)).
Proof. intros p q Hpq. apply (page_equiv_fields _ _ Hpq). Qed.
#[global] Instance next_page_proper : Proper (page_equiv ==> eq) (fun p => next_page_id (header p)).
Proof. intros p q Hpq. apply (page_equiv_fields _ _ Hpq). Qed.

(** ** The interface *)
Class PageStore (S : Type) := {
  ps_get_page : Z -> lock_type -> S -> option btree_page * S;
  ps_release_page : Z -> lock_type -> S -> S;
  ps_store_page : Z -> btree_page -> S -> S;
  ps_mark_page_dirty : Z -> S -> S;
  ps_allocate_page : S -> Z * S;
  ps_deallocate_page : Z -> S -> S;
  ps_write_wal_record : Z -> wal_record_type -> Z -> bytes -> S -> Z * S;
  ps_flush_wal_buffer : S -> Z * S;
  ps_enable_wal : S -> bool;
  ps_next_lsn : S -> Z }.

Definition page_ref (id : Z) : Prop := 0 < id <= UINT32_MAX.

(** [ps_inv U s]: the store is well formed and the pages in [U] were written
    through a pinned pointer but not marked dirty yet. *)
Class PageStoreLaws (S : Type) `{PageStore S} := {
  ps_inv : gset Z -> S -> Prop;
  ps_view : S -> Z -> option btree_page;
  ps_pins : S -> Z -> Z;
  ps_resident : S -> Z -> Prop;
  ps_used : S -> Z -> Prop;
  ps_view_wf U s id p : ps_inv U s -> page_ref id -> ps_view s id = Some p -> page_wf p;
  ps_get_law U s id lk r s' :
    ps_inv U s -> page_ref id -> ps_get_page id lk s = (r, s') ->
    ps_inv U s' /\
    (forall j p, page_ref j -> ps_view s j = Some p -> ps_view s' j = Some p) /\
    (forall j, ps_used s' j <-> ps_used s j) /\
    match r with
    | Some p => ps_view s' id = Some p /\
        (forall j, ps_pins s' j = ps_pins s j + (if decide (j = id) then 1 else 0)) /\
        (ps_resident s id -> forall j, ps_resident s' j <-> ps_resident s j)
    | None => ~ ps_resident s id /\ (forall j, ps_pins s' j = ps_pins s j)
    end;
  ps_release_law U s id lk :
    ps_inv U s -> 0 < ps_pins s id -> (id ∈ U -> 1 < ps_pins s id) ->
    let s' := ps_release_page id lk s in
    ps_inv U s' /\ (forall j, ps_view s' j = ps_view s j) /\
    (forall j, ps_pins s' j = ps_pins s j - (if decide (j = id) then 1 else 0)) /\
    (forall j, ps_used s' j <-> ps_used s j) /\ (forall j, ps_resident s' j <-> ps_resident s j);
  ps_store_law U s id p :
    ps_inv U s -> 0 < ps_pins s id -> page_wf p ->
    let s' := ps_store_page id p s in
    ps_inv ({[id]} ∪ U) s' /\ ps_view s' id = Some p /\
    (forall j, j <> id -> ps_view s' j = ps_view s j) /\
    (forall j, ps_pins s' j = ps_pins s j) /\
    (forall j, ps_used s' j <-> ps_used s j) /\ (forall j, ps_resident s' j <-> ps_resident s j);
  ps_dirty_law U s id p :
    ps_inv U s -> 0 < ps_pins s id -> ps_view s id = Some p ->
    let s' := ps_mark_page_dirty id s in
    ps_inv (U ∖ {[id]}) s' /\ (exists q, ps_view s' id = Some q /\ page_equiv p q) /\
    (forall j, j <> id -> ps_view s' j = ps_view s j) /\
    (forall j, ps_pins s' j = ps_pins s j) /\
    (forall j, ps_used s' j <-> ps_used s j) /\ (forall j, ps_resident s' j <-> ps_resident s j);
  ps_alloc_law U s id s' :
    ps_inv U s -> ps_allocate_page s = (id, s') ->
    ps_inv U s' /\ (forall j, ps_view s' j = ps_view s j) /\
    (forall j, ps_pins s' j = ps_pins s j) /\ (forall j, ps_resident s' j <-> ps_resident s j) /\
    (if decide (id = 0) then forall j, ps_used s' j <-> ps_used s j
     else page_ref id /\ ~ ps_used s id /\ forall j, ps_used s' j <-> j = id \/ ps_used s j);
  ps_dealloc_law U s id :
    ps_inv U s -> ps_used s id ->
    let s' := ps_deallocate_page id s in
    ps_inv U s' /\ (forall j, ps_view s' j = ps_view s j) /\
    (forall j, ps_pins s' j = ps_pins s j) /\ (forall j, ps_resident s' j <-> ps_resident s j) /\
    (forall j, j <> id -> ps_used s' j <-> ps_used s j);
  ps_log_law U s txn ty id d r s' :
    ps_inv U s -> ps_write_wal_record txn ty id d s = (r, s') ->
    ps_inv U s' /\ (forall j, ps_view s' j = ps_view s j) /\
    (forall j, ps_pins s' j = ps_pins s j) /\ (forall j, ps_used s' j <-> ps_used s j) /\
    (forall j, ps_resident s' j <-> ps_resident s j);
  ps_flush_law U s r s' :
    ps_inv U s -> ps_flush_wal_buffer s = (r, s') ->
    ps_inv U s' /\ (forall j, ps_view s' j = ps_view s j) /\
    (forall j, ps_pins s' j = ps_pins s j) /\ (forall j, ps_used s' j <-> ps_used s j) /\
    (forall j, ps_resident s' j <-> ps_resident s j) }.

(** ** The pager implements it *)
Section pager.
Context (crc32 : bytes -> Z).

Definition pager_write_wal_record (txn : Z) (ty : wal_record_type) (id : Z) (d : bytes)
    (s : pager) : Z * pager :=
  let '(r, w) := write_wal_record crc32 txn ty id d (wal s) in (r, set_wal w s).
Definition pager_flush_wal_buffer (s : pager) : Z * pager :=
  let '(r, w) := flush_wal_buffer (wal s) in (r, set_wal w s).

#[global] Instance pager_store : PageStore pager := {
  ps_get_page := get_page crc32;
  ps_release_page := release_page;
  ps_store_page := store_page;
  ps_mark_page_dirty := mark_page_dirty crc32;
  ps_allocate_page := allocate_page;
  ps_deallocate_page := deallocate_page;
  ps_write_wal_record := pager_write_wal_record;
  ps_flush_wal_buffer := pager_flush_wal_buffer;
  ps_enable_wal s := enable_wal (config s);
  ps_next_lsn s := next_lsn (wal s) }.

(** The page allocator: ids below [next_page_id] are handed out at most once
    while in use, and the free list holds only ids not in use. *)
Record alloc_inv (s : pager) : Prop := {
  ai_next : 1 <= pg_next_page_id s <= UINT32_MAX;
  ai_nodup : NoDup (free_pages s);
  ai_free : Forall (fun id => 0 < id < pg_next_page_id s) (free_pages s) }.

Definition pager_used (s : pager) (id : Z) : Prop :=
  0 < id < pg_next_page_id s /\ id ∉ free_pages s.

(** [alloc_same s s']: the operation left the allocator alone. *)
Definition alloc_same (s s' : pager) : Prop :=
  free_pages s' = free_pages s /\ pg_next_page_id s' = pg_next_page_id s /\
  free_page_capacity s' = free_page_capacity s.

#[global] Instance alloc_same_preorder : PreOrder alloc_same.
Proof. split; unfold alloc_same; [done|]. intros x y z. intros (? & ? & ?) (? & ? & ?). split_and!; congruence. Qed.

Lemma alloc_same_inv s s' : alloc_same s s' -> alloc_inv s -> alloc_inv s'.
Proof using. intros (Hf & Hn & _) []. split; by rewrite ?Hf, ?Hn. Qed.

Lemma alloc_same_used s s' j : alloc_same s s' -> pager_used s' j <-> pager_used s j.
Proof using. intros (Hf & Hn & _). unfold pager_used. by rewrite Hf, Hn. Qed.

Lemma next_malloc_alloc s b s' : next_malloc s = (b, s') -> alloc_same s s'.
Proof using. unfold next_malloc. case_match; by intros [= <- <-]. Qed.

Lemma pread_page_alloc off s n bs s' : pread_page off s = (n, bs, s') -> alloc_same s s'.
Proof using. unfold pread_page. repeat case_match; by intros [= <- <- <-]. Qed.

Lemma load_page_alloc id s r s' : load_page_from_disk id s = (r, s') -> alloc_same s s'.
Proof using.
  unfold load_page_from_disk. destruct (pread_page _ _) as [[n bs] s1] eqn:E.
  apply pread_page_alloc in E. repeat case_match; by intros [= <- <-].
Qed.

Lemma unlink_victim_alloc i id s : alloc_same s (unlink_victim i id s).
Proof using. unfold unlink_victim. by case_match. Qed.

Lemma write_back_alloc i e p s b s' : write_back i e p s = (b, s') -> alloc_same s s'.
Proof using.
  unfold write_back. destruct (flush_wal_buffer (wal s)). destruct (write_loop _ _ _) as [[? ok] ?].
  destruct ok; by intros [= <- <-].
Qed.

Lemma allocate_buffer_entry_alloc id s r s' :
  allocate_buffer_entry id s = (r, s') -> alloc_same s s'.
Proof using.
  unfold allocate_buffer_entry. destruct (select_victim _ _ _) as [i|]; [|by intros [= <- <-]].
  destruct (buffer_pool s !! i) as [v|]; [|by intros [= <- <-]].
  destruct (match be_dirty v with true => _ | false => _ end) as [ok s1] eqn:E.
  assert (alloc_same s s1) as H1.
  { destruct (be_dirty v), (be_page v); try by simplify_eq. by eapply write_back_alloc. }
  destruct ok; [|by intros [= <- <-]]. cbn [negb]. intros [= <- <-].
  etransitivity; [exact H1|]. destruct (be_page_id v =? 0); [done|].
  etransitivity; [apply (unlink_victim_alloc i (be_page_id v))|done].
Qed.

Lemma get_page_alloc id lk s r s' : get_page crc32 id lk s = (r, s') -> alloc_same s s'.
Proof using.
  unfold get_page. destruct (find_buffer_entry s id) as [i|]; [by intros [= <- <-]|].
  destruct (allocate_buffer_entry id s) as [[i|] s1] eqn:Ea;
    apply allocate_buffer_entry_alloc in Ea; [|by intros [= <- <-]].
  destruct (match _ ≫= _ with Some _ => _ | None => _ end) as [have s2] eqn:Eh.
  assert (alloc_same s s2) as H2.
  { etransitivity; [exact Ea|]. destruct (_ ≫= _); [by simplify_eq|].
    by apply next_malloc_alloc in Eh. }
  destruct have; [|by intros [= <- <-]]. cbn [negb].
  destruct (load_page_from_disk id s2) as [[[p fr]|] s3] eqn:El;
    apply load_page_alloc in El; (assert (alloc_same s s3) by (by etransitivity));
    [|by intros [= <- <-]].
  cbn beta iota. destruct (enable_checksums _ && _); by intros [= <- <-].
Qed.

(** ** The laws *)
Definition pager_view (s : pager) (id : Z) : option btree_page :=
  match find_buffer_entry s id with
  | Some i => e ← buffer_pool s !! i; be_page e
  | None => if decide (in_file (data_file s) id)
            then Some (page_of_image (region (data_file s) id)) else None
  end.
Definition pager_pins (s : pager) (id : Z) : Z :=
  match find_buffer_entry s id with
  | Some i => default 0 (be_ref_count <$> buffer_pool s !! i)
  | None => 0
  end.
Definition pager_resident (s : pager) (id : Z) : Prop := is_Some (find_buffer_entry s id).
Definition pager_ok (U : gset Z) (s : pager) : Prop :=
  (exists L ch, pager_inv s L ch U None) /\ alloc_inv s.

Lemma pager_view_of s L ch U id : pager_inv s L ch U None -> pager_view s id = view_of s L id.
Proof using.
  intros Hi. unfold pager_view, view_of.
  by rewrite (find_buffer_entry_spec s L ch (pi_hash _ _ _ _ _ Hi)).
Qed.
Lemma pager_pins_of s L ch U id : pager_inv s L ch U None -> pager_pins s id = refs_of s L id.
Proof using.
  intros Hi. unfold pager_pins, refs_of.
  by rewrite (find_buffer_entry_spec s L ch (pi_hash _ _ _ _ _ Hi)).
Qed.
Lemma pager_resident_of s L ch U id :
  pager_inv s L ch U None -> pager_resident s id <-> is_Some (L !! id).
Proof using.
  intros Hi. unfold pager_resident.
  by rewrite (find_buffer_entry_spec s L ch (pi_hash _ _ _ _ _ Hi)).
Qed.
Lemma refs_linked s L id : 0 < refs_of s L id -> exists i, L !! id = Some i.
Proof using. unfold refs_of. destruct (L !! id); [eauto|lia]. Qed.

Lemma pager_view_wf U s id p :
  pager_ok U s -> page_ref id -> pager_view s id = Some p -> page_wf p.
Proof using.
  intros [(L & ch & Hi) _] Hid. rewrite (pager_view_of _ _ _ _ _ Hi). unfold view_of.
  destruct (L !! id) as [i|] eqn:HL.
  - destruct (pi_linked _ _ _ _ _ Hi _ _ HL) as (e & q & He & Hq & Hwf & _).
    rewrite He. cbn. congruence.
  - case_decide as Hin; [|done]. intros [= <-]. unfold in_file, page_ref in *.
    apply page_of_image_wf; unfold region; [rewrite zlen_sub; unfold PAGE_SIZE in *; lia|].
    apply sub_bytes, Hi.
Qed.

Lemma pager_get_law U s id lk r s' :
  pager_ok U s -> page_ref id -> get_page crc32 id lk s = (r, s') ->
  pager_ok U s' /\
  (forall j p, page_ref j -> pager_view s j = Some p -> pager_view s' j = Some p) /\
  (forall j, pager_used s' j <-> pager_used s j) /\
  match r with
  | Some p => pager_view s' id = Some p /\
      (forall j, pager_pins s' j = pager_pins s j + (if decide (j = id) then 1 else 0)) /\
      (pager_resident s id -> forall j, pager_resident s' j <-> pager_resident s j)
  | None => ~ pager_resident s id /\ (forall j, pager_pins s' j = pager_pins s j)
  end.
Proof using.
  intros [(L & ch & Hi) Ha] Hid Hg. pose proof (get_page_alloc _ _ _ _ _ Hg) as Hal.
  pose proof (alloc_same_inv _ _ Hal Ha) as Ha'.
  pose proof (fun j => alloc_same_used _ _ j Hal) as Hu.
  destruct (L !! id) as [i|] eqn:HL.
  - destruct (get_page_hit crc32 s L ch U id i lk Hi HL) as (p & s1 & Hg1 & Hi1 & Hwf & Hv & Hvs & Hrs).
    rewrite Hg1 in Hg. injection Hg as <- <-. split_and!; try done.
    + split; [by exists L, ch|done].
    + intros j q _. by rewrite (pager_view_of _ _ _ _ _ Hi), (pager_view_of _ _ _ _ _ Hi1), Hvs.
    + by rewrite (pager_view_of _ _ _ _ _ Hi1), Hvs.
    + intros j. by rewrite (pager_pins_of _ _ _ _ _ Hi1), (pager_pins_of _ _ _ _ _ Hi).
    + intros _ j. by rewrite (pager_resident_of _ _ _ _ _ Hi1), (pager_resident_of _ _ _ _ _ Hi).
  - destruct (get_page_miss crc32 s L ch U id lk r s' Hi Hid HL Hg) as (L' & ch' & Hi1 & Hve & Hr).
    assert (~ pager_resident s id) as Hnr.
    { rewrite (pager_resident_of _ _ _ _ _ Hi), HL. by intros []. }
    split_and!; try done.
    + split; [by exists L', ch'|done].
    + intros j q Hj. rewrite (pager_view_of _ _ _ _ _ Hi), (pager_view_of _ _ _ _ _ Hi1).
      apply Hve. unfold page_ref in Hj; lia.
    + destruct r as [p|].
      * destruct Hr as (Hwf & Hv & Hrs). rewrite (pager_view_of _ _ _ _ _ Hi1). split_and!; try done.
        intros j. by rewrite (pager_pins_of _ _ _ _ _ Hi1), (pager_pins_of _ _ _ _ _ Hi).
      * split; [done|]. intros j.
        by rewrite (pager_pins_of _ _ _ _ _ Hi1), (pager_pins_of _ _ _ _ _ Hi).
Qed.

(** An operation that keeps the page table and the allocator reduces to what
    it does to views and pins. *)
Lemma pager_ok_step U U' s L ch s' :
  pager_inv s L ch U None -> alloc_inv s -> pager_inv s' L ch U' None -> alloc_same s s' ->
  pager_ok U' s' /\ (forall j, pager_used s' j <-> pager_used s j) /\
  (forall j, pager_resident s' j <-> pager_resident s j) /\
  (forall j, pager_view s' j = view_of s' L j) /\ (forall j, pager_view s j = view_of s L j) /\
  (forall j, pager_pins s' j = refs_of s' L j) /\ (forall j, pager_pins s j = refs_of s L j).
Proof using.
  intros Hi Ha Hi' Hal. split_and!.
  - split; [by exists L, ch|by eapply alloc_same_inv].
  - intros j. by apply alloc_same_used.
  - intros j. by rewrite (pager_resident_of _ _ _ _ _ Hi'), (pager_resident_of _ _ _ _ _ Hi).
  - intros j. by apply (pager_view_of _ _ _ _ _ Hi').
  - intros j. by apply (pager_view_of _ _ _ _ _ Hi).
  - intros j. by apply (pager_pins_of _ _ _ _ _ Hi').
  - intros j. by apply (pager_pins_of _ _ _ _ _ Hi).
Qed.

Lemma release_page_alloc id lk s : alloc_same s (release_page id lk s).
Proof using. unfold release_page. by case_match. Qed.
Lemma store_page_alloc id p s : alloc_same s (store_page id p s).
Proof using. unfold store_page. by case_match. Qed.
Lemma mark_page_dirty_alloc id s : alloc_same s (mark_page_dirty crc32 id s).
Proof using. unfold mark_page_dirty. by case_match. Qed.

Lemma stamp_page_equiv s p : page_equiv p (stamp_page crc32 s p).
Proof using.
  unfold stamp_page. destruct (enable_wal (config s)), (enable_checksums (config s)); done.
Qed.

Lemma pager_release_law U s id lk :
  pager_ok U s -> 0 < pager_pins s id -> (id ∈ U -> 1 < pager_pins s id) ->
  let s' := release_page id lk s in
  pager_ok U s' /\ (forall j, pager_view s' j = pager_view s j) /\
  (forall j, pager_pins s' j = pager_pins s j - (if decide (j = id) then 1 else 0)) /\
  (forall j, pager_used s' j <-> pager_used s j) /\
  (forall j, pager_resident s' j <-> pager_resident s j).
Proof using.
  intros [(L & ch & Hi) Ha] Hp HU s'. rewrite (pager_pins_of _ _ _ _ _ Hi) in Hp, HU.
  destruct (refs_linked _ _ _ Hp) as [i HL].
  destruct (release_page_spec s L ch U id i lk Hi HL Hp HU) as (Hi' & Hv & Hr).
  destruct (pager_ok_step _ _ _ _ _ _ Hi Ha Hi' (release_page_alloc _ _ _))
    as (Hok & Hus & Hrs & Hv1 & Hv0 & Hp1 & Hp0).
  split_and!; try done; intros j; [by rewrite Hv1, Hv0|by rewrite Hp1, Hp0].
Qed.

Lemma pager_store_law U s id p :
  pager_ok U s -> 0 < pager_pins s id -> page_wf p ->
  let s' := store_page id p s in
  pager_ok ({[id]} ∪ U) s' /\ pager_view s' id = Some p /\
  (forall j, j <> id -> pager_view s' j = pager_view s j) /\
  (forall j, pager_pins s' j = pager_pins s j) /\
  (forall j, pager_used s' j <-> pager_used s j) /\
  (forall j, pager_resident s' j <-> pager_resident s j).
Proof using.
  intros [(L & ch & Hi) Ha] Hp Hwf s'. rewrite (pager_pins_of _ _ _ _ _ Hi) in Hp.
  destruct (refs_linked _ _ _ Hp) as [i HL].
  destruct (store_page_spec s L ch U id i p Hi HL Hp Hwf) as (Hi' & Hv & Hvo & Hr).
  destruct (pager_ok_step _ _ _ _ _ _ Hi Ha Hi' (store_page_alloc _ _ _))
    as (Hok & Hus & Hrs & Hv1 & Hv0 & Hp1 & Hp0).
  split_and!; try done; [by rewrite Hv1| |]; intros j; [intros; rewrite Hv1, Hv0; auto|by rewrite Hp1, Hp0].
Qed.

Lemma pager_dirty_law U s id p :
  pager_ok U s -> 0 < pager_pins s id -> pager_view s id = Some p ->
  let s' := mark_page_dirty crc32 id s in
  pager_ok (U ∖ {[id]}) s' /\ (exists q, pager_view s' id = Some q /\ page_equiv p q) /\
  (forall j, j <> id -> pager_view s' j = pager_view s j) /\
  (forall j, pager_pins s' j = pager_pins s j) /\
  (forall j, pager_used s' j <-> pager_used s j) /\
  (forall j, pager_resident s' j <-> pager_resident s j).
Proof using.
  intros [(L & ch & Hi) Ha] Hp Hv0 s'.
  rewrite (pager_pins_of _ _ _ _ _ Hi) in Hp. rewrite (pager_view_of _ _ _ _ _ Hi) in Hv0.
  destruct (refs_linked _ _ _ Hp) as [i HL].
  destruct (mark_page_dirty_spec crc32 s L ch U id i p Hi HL Hv0) as (Hi' & Hv & Hvo & Hr).
  destruct (pager_ok_step _ _ _ _ _ _ Hi Ha Hi' (mark_page_dirty_alloc _ _))
    as (Hok & Hus & Hrs & Hv1 & Hv2 & Hp1 & Hp0).
  split_and!; try done.
  - eexists. rewrite Hv1. split; [exact Hv|]. apply stamp_page_equiv.
  - intros j Hj. rewrite Hv1, Hv2. by apply Hvo.
  - intros j. by rewrite Hp1, Hp0.
Qed.

(** An operation that leaves the buffer pool and the file alone keeps
    everything but the allocator. *)
Lemma pager_quiet_step U s s' :
  pager_ok U s -> alloc_inv s' -> buffer_pool s' = buffer_pool s ->
  hash_table s' = hash_table s -> data_file s' = data_file s ->
  pager_ok U s' /\ (forall j, pager_view s' j = pager_view s j) /\
  (forall j, pager_pins s' j = pager_pins s j) /\
  (forall j, pager_resident s' j <-> pager_resident s j).
Proof using.
  intros [(L & ch & [Hh Hf Hl Hu Hn]) Ha] Ha' Hb Ht Hd.
  assert (forall j, find_buffer_entry s' j = find_buffer_entry s j) as Hfb.
  { intros j. unfold find_buffer_entry, bucket, hash_page_id. by rewrite Hb, Ht. }
  split_and!.
  - split; [|done]. exists L, ch. constructor; unfold on_disk; rewrite ?Hb, ?Ht, ?Hd; done.
  - intros j. unfold pager_view. by rewrite Hfb, Hb, Hd.
  - intros j. unfold pager_pins. by rewrite Hfb, Hb.
  - intros j. unfold pager_resident. by rewrite Hfb.
Qed.

(** [allocate_page] hands out an id that nobody uses, or 0. *)
Lemma allocate_page_alloc s id s' :
  alloc_inv s -> allocate_page s = (id, s') ->
  alloc_inv s' /\
  (if decide (id = 0) then forall j, pager_used s' j <-> pager_used s j
   else page_ref id /\ ~ pager_used s id /\
        forall j, pager_used s' j <-> j = id \/ pager_used s j).
Proof using.
  clear crc32. intros [Hn Hnd Hf]. unfold allocate_page.
  destruct (zlen (free_pages s) >? 0) eqn:Hz.
  - destruct (free_pages s) as [|x l _] eqn:El using rev_ind; [done|].
    assert (zlen (l ++ [x]) - 1 = Z.of_nat (length l)) as Hlen by (unfold zlen; rewrite length_app; cbn; lia).
    rewrite Hlen. unfold znth. destruct (Z.ltb_spec (Z.of_nat (length l)) 0); [lia|].
    rewrite Nat2Z.id, list_lookup_middle by done. rewrite length_app. cbn [length].
    replace (length l + 1 - 1)%nat with (length l) by lia. rewrite take_app_length.
    intros [= <- <-]. apply Forall_app in Hf as [Hf Hx]. rewrite Forall_singleton in Hx.
    cbn in Hx. apply list.NoDup_app in Hnd as (Hnd & Hdis & _).
    split; [split; done|]. rewrite decide_False by lia. unfold page_ref, pager_used. cbn.
    split_and!; try lia.
    + intros [_ Hu]. apply Hu. rewrite El. set_solver.
    + intros j. rewrite El. split.
      * intros [Hj Hjl]. destruct (decide (j = x)); [by left|right]. set_solver.
      * intros [->|[Hj Hjl]]; [|set_solver]. split; [lia|]. intros Hxl. set_solver.
  - destruct (Z.ltb_spec (pg_next_page_id s) MAX_PAGES) as [Hlt|]; intros [= <- <-]; [|done].
    unfold MAX_PAGES, UINT32_MAX in *. unfold u32. rewrite uwrap_small by lia.
    split; [split; cbn; [unfold UINT32_MAX; lia|done|eapply Forall_impl; [|exact Hf]; intros; cbn in *; lia]|].
    rewrite decide_False by lia. unfold page_ref, pager_used, UINT32_MAX. cbn.
    split_and!; try lia. intros j. split; [intros [? ?]; destruct (decide (j = pg_next_page_id s)); [by left|right; split; [lia|done]]|].
    intros [->|[? ?]]; [|split; [lia|done]]. split; [lia|]. intros Hin.
    rewrite list.Forall_forall in Hf. specialize (Hf _ Hin). cbn in Hf. lia.
Qed.

Lemma pager_alloc_law U s id s' :
  pager_ok U s -> allocate_page s = (id, s') ->
  pager_ok U s' /\ (forall j, pager_view s' j = pager_view s j) /\
  (forall j, pager_pins s' j = pager_pins s j) /\
  (forall j, pager_resident s' j <-> pager_resident s j) /\
  (if decide (id = 0) then forall j, pager_used s' j <-> pager_used s j
   else page_ref id /\ ~ pager_used s id /\
        forall j, pager_used s' j <-> j = id \/ pager_used s j).
Proof using.
  intros Hok Hal. destruct (allocate_page_alloc s id s' (proj2 Hok) Hal) as [Ha' Hid].
  destruct (pager_quiet_step U s s' Hok Ha') as (? & ? & ? & ?); [| | |done];
    unfold allocate_page in Hal; repeat case_match; by simplify_eq.
Qed.

Lemma pager_dealloc_law U s id :
  pager_ok U s -> pager_used s id ->
  let s' := deallocate_page id s in
  pager_ok U s' /\ (forall j, pager_view s' j = pager_view s j) /\
  (forall j, pager_pins s' j = pager_pins s j) /\
  (forall j, pager_resident s' j <-> pager_resident s j) /\
  (forall j, j <> id -> pager_used s' j <-> pager_used s j).
Proof using.
  clear crc32. intros Hok [Hid Hnf] s'.
  assert (buffer_pool s' = buffer_pool s /\ hash_table s' = hash_table s /\
    data_file s' = data_file s /\ pg_next_page_id s' = pg_next_page_id s /\
    (free_pages s' = free_pages s \/ free_pages s' = free_pages s ++ [id])) as (Hb & Ht & Hd & Hn & Hf).
  { subst s'. unfold deallocate_page, next_malloc.
    repeat case_match; simplify_eq; cbn; split_and!; auto. }
  clearbody s'. destruct (proj2 Hok) as [Hnx Hnd Hfr].
  assert (alloc_inv s') as Ha'.
  { destruct Hf as [Hf|Hf]; split; rewrite ?Hf, ?Hn; try done.
    - apply list.NoDup_app. split_and!; [done|set_solver|apply NoDup_singleton].
    - apply Forall_app. split; [done|]. by apply Forall_singleton. }
  destruct (pager_quiet_step U s s' Hok Ha' Hb Ht Hd) as (? & ? & ? & ?).
  split_and!; try done. intros j Hj. unfold pager_used. rewrite Hn.
  destruct Hf as [->| ->]; set_solver.
Qed.

Lemma pager_log_law U s txn ty id d r s' :
  pager_ok U s -> pager_write_wal_record txn ty id d s = (r, s') ->
  pager_ok U s' /\ (forall j, pager_view s' j = pager_view s j) /\
  (forall j, pager_pins s' j = pager_pins s j) /\ (forall j, pager_used s' j <-> pager_used s j) /\
  (forall j, pager_resident s' j <-> pager_resident s j).
Proof using.
  unfold pager_write_wal_record. destruct (write_wal_record _ _ _ _ _ _) as [r' w].
  intros Hok [= <- <-]. destruct (pager_quiet_step U s (set_wal w s) Hok) as (? & ? & ? & ?); try done.
  destruct (proj2 Hok); by split.
Qed.

Lemma pager_flush_law U s r s' :
  pager_ok U s -> pager_flush_wal_buffer s = (r, s') ->
  pager_ok U s' /\ (forall j, pager_view s' j = pager_view s j) /\
  (forall j, pager_pins s' j = pager_pins s j) /\ (forall j, pager_used s' j <-> pager_used s j) /\
  (forall j, pager_resident s' j <-> pager_resident s j).
Proof using.
  unfold pager_flush_wal_buffer. destruct (flush_wal_buffer _) as [r' w].
  intros Hok [= <- <-]. destruct (pager_quiet_step U s (set_wal w s) Hok) as (? & ? & ? & ?); try done.
  destruct (proj2 Hok); by split.
Qed.

#[global] Instance pager_store_laws : PageStoreLaws pager := {
  ps_inv := pager_ok; ps_view := pager_view; ps_pins := pager_pins;
  ps_resident := pager_resident; ps_used := pager_used;
  ps_view_wf := pager_view_wf; ps_get_law := pager_get_law;
  ps_release_law := pager_release_law; ps_store_law := pager_store_law;
  ps_dirty_law := pager_dirty_law; ps_alloc_law := pager_alloc_law;
  ps_dealloc_law := pager_dealloc_law; ps_log_law := pager_log_law;
  ps_flush_law := pager_flush_law }.
End pager.
