(* ===== verification/Txn.v ===== *)
(** * Transactions (storage/src/txn.c)

    Handles are heap cells; the engine's active list runs through their
    [next] pointers, as in the C structure. The page store the records are
    logged to is any [PageStore]. [malloc]'s answer and the clock are
    arguments of the operations that consult them. *)
From S2P Require Import Prelude SList BtreePage Wal Pager Store.

Local Open Scope Z_scope.

Inductive transaction_state := TXN_STATE_ACTIVE | TXN_STATE_COMMITED | TXN_STATE_ABORTED.
#[global] Instance transaction_state_eq_dec : EqDecision transaction_state.
Proof. solve_decision. Defined.

Record transaction := mkTxn {
  txn_id : Z; txn_state : transaction_state; start_lsn : Z; commit_lsn : Z;
  start_time : Z; commit_time : Z;
  rows_inserted : Z; rows_updated : Z; rows_deleted : Z;
  txn_next : option Z }.

Definition txn_is_active (t : transaction) : bool := bool_decide (txn_state t = TXN_STATE_ACTIVE).

Definition set_txn_next (n : option Z) (t : transaction) : transaction :=
  mkTxn (txn_id t) (txn_state t) (start_lsn t) (commit_lsn t) (start_time t) (commit_time t)
    (rows_inserted t) (rows_updated t) (rows_deleted t) n.
Definition set_committed (time lsn : Z) (t : transaction) : transaction :=
  mkTxn (txn_id t) TXN_STATE_COMMITED (start_lsn t) lsn (start_time t) time
    (rows_inserted t) (rows_updated t) (rows_deleted t) (txn_next t).
Definition set_aborted (t : transaction) : transaction :=
  mkTxn (txn_id t) TXN_STATE_ABORTED (start_lsn t) (commit_lsn t) (start_time t) (commit_time t)
    (rows_inserted t) (rows_updated t) (rows_deleted t) (txn_next t).
Definition add_rows (ins del : Z) (t : transaction) : transaction :=
  mkTxn (txn_id t) (txn_state t) (start_lsn t) (commit_lsn t) (start_time t) (commit_time t)
    (u64 (rows_inserted t + ins)) (rows_updated t) (u64 (rows_deleted t + del)) (txn_next t).

Record txn_manager := mkTxns {
  txn_heap : gmap Z transaction; active_transactions : option Z; next_txn_id : Z;
  transactions_committed : Z; transactions_aborted : Z }.

Section txn.
Context {S : Type} `{PageStore S}.

(** [ptr] is what [malloc] returned; the result is the handle, or NULL. *)
Definition begin_transaction (ptr : option Z) (now : Z) (m : txn_manager) (s : S)
    : option Z * txn_manager :=
  match ptr with
  | None => (None, m)
  | Some a =>
      let txn := mkTxn (next_txn_id m) TXN_STATE_ACTIVE (ps_next_lsn s) 0 now 0 0 0 0
                   (active_transactions m) in
      (Some a, mkTxns (<[a := txn]> (txn_heap m)) (Some a) (u64 (next_txn_id m + 1))
                 (transactions_committed m) (transactions_aborted m))
  end.

(** The [pp] walk through the active list. *)
Definition unlink_loop : nat -> gmap Z transaction -> option Z -> Z -> option Z * gmap Z transaction :=
  unlink txn_next set_txn_next.

Definition unlink_transaction (txn : Z) (m : txn_manager) : txn_manager :=
  let '(head, heap) := unlink_loop (Datatypes.S (size (txn_heap m))) (txn_heap m)
                         (active_transactions m) txn in
  mkTxns (alter (set_txn_next None) txn heap) head (next_txn_id m)
    (transactions_committed m) (transactions_aborted m).

Definition update_txn (a : Z) (f : transaction -> transaction) (m : txn_manager) : txn_manager :=
  mkTxns (alter f a (txn_heap m)) (active_transactions m) (next_txn_id m)
    (transactions_committed m) (transactions_aborted m).

(** The live handle behind a pointer, when it passes the entry guard. *)
Definition active_txn (txn : option Z) (m : txn_manager) : option (Z * transaction) :=
  a ← txn; t ← txn_heap m !! a;
  if txn_is_active t then Some (a, t) else None.

Definition commit_transaction (txn : option Z) (now : Z) (m : txn_manager) (s : S)
    : Z * txn_manager * S :=
  match active_txn txn m with
  | None => (-1, m, s)
  | Some (a, t) =>
      let s := if ps_enable_wal s then
                 let '(_, s) := ps_write_wal_record (txn_id t) WAL_COMMIT 0 [] s in
                 let '(_, s) := ps_flush_wal_buffer s in s
               else s in
      let m := update_txn a (set_committed now (u64 (ps_next_lsn s - 1))) m in
      let m := unlink_transaction a m in
      (0, mkTxns (txn_heap m) (active_transactions m) (next_txn_id m)
            (u64 (transactions_committed m + 1)) (transactions_aborted m), s)
  end.

Definition abort_transaction (txn : option Z) (m : txn_manager) (s : S) : Z * txn_manager * S :=
  match active_txn txn m with
  | None => (-1, m, s)
  | Some (a, t) =>
      let s := if ps_enable_wal s then
                 let '(_, s) := ps_write_wal_record (txn_id t) WAL_ABORT 0 [] s in s
               else s in
      let m := unlink_transaction a (update_txn a set_aborted m) in
      (0, mkTxns (txn_heap m) (active_transactions m) (next_txn_id m)
            (transactions_committed m) (u64 (transactions_aborted m + 1)), s)
  end.
End txn.

(** ** The active list *)
Definition txn_chain : gmap Z transaction -> option Z -> list Z -> Prop := chain txn_next.

(** The list holds exactly the active handles, each once. *)
Record txn_inv (m : txn_manager) (l : list Z) : Prop := {
  ti_chain : txn_chain (txn_heap m) (active_transactions m) l;
  ti_nodup : NoDup l;
  ti_active : forall a t, txn_heap m !! a = Some t -> a ∈ l <-> txn_state t = TXN_STATE_ACTIVE;
  ti_ids : forall a t, txn_heap m !! a = Some t -> 0 <= txn_id t < next_txn_id m;
  ti_inj : forall a b t u, txn_heap m !! a = Some t -> txn_heap m !! b = Some u ->
             txn_id t = txn_id u -> a = b }.

(** Finishing the active handle [a]: it leaves the list, its record keeps the
    identity, every other handle is untouched up to its [next] link. *)
Lemma unlink_transaction_spec m l a f :
  txn_inv m l -> a ∈ l ->
  (forall t, txn_id (f t) = txn_id t /\ txn_next (f t) = txn_next t /\
             txn_state (f t) <> TXN_STATE_ACTIVE) ->
  let m' := unlink_transaction a (update_txn a f m) in
  txn_inv m' (filter (.≠ a) l) /\
  (forall b, b <> a -> txn_state <$> txn_heap m' !! b = txn_state <$> txn_heap m !! b) /\
  txn_state <$> txn_heap m' !! a = txn_state ∘ f <$> txn_heap m !! a /\
  txn_next <$> txn_heap m' !! a = (fun _ => None) <$> txn_heap m !! a /\
  next_txn_id m' = next_txn_id m.
Proof.
  intros [Hc Hnd Hac Hid Hinj] Ha Hf m'. assert (m' = unlink_transaction a (update_txn a f m)) as Hm' by done.
  clearbody m'. unfold unlink_transaction, update_txn in Hm'.
  cbn [txn_heap active_transactions next_txn_id transactions_committed transactions_aborted] in Hm'.
  assert (txn_chain (alter f a (txn_heap m)) (active_transactions m) l) as Hc1.
  { eapply (chain_frame txn_next); [|exact Hc]. intros b _. destruct (decide (b = a)) as [->|].
    - rewrite lookup_alter_eq. destruct (txn_heap m !! a) as [t|]; [|done]. cbn. f_equal. apply Hf.
    - by rewrite lookup_alter_ne by done. }
  match type of Hm' with context [unlink_loop ?u ?v ?w ?x] =>
    destruct (unlink_loop u v w x) as [n h] eqn:E end.
  pose proof (chain_size txn_next _ _ _ Hc1 Hnd) as Hsz. apply le_n_S in Hsz.
  destruct (unlink_spec txn_next set_txn_next (fun _ _ => eq_refl) _ _ _ _ _ _ _ Hc1 Hnd Hsz E) as (Hc2 & Hfr & Hg).
  assert (next_txn_id m' = next_txn_id m) as Hnx by (by rewrite Hm').
  assert (a ∉ filter (.≠ a) l) as Hna by (intros ?%list_elem_of_filter; naive_solver).
  assert (forall b, b <> a -> exists o, txn_heap m' !! b = set_txn_next o <$> txn_heap m !! b \/
            txn_heap m' !! b = txn_heap m !! b) as Hother.
  { intros b Hb. destruct (Hg b) as [o Ho]. exists o. subst m'. cbn.
    by rewrite lookup_alter_ne in * by done. }
  assert (txn_heap m' !! a = set_txn_next None ∘ f <$> txn_heap m !! a) as Haa.
  { subst m'. cbn. rewrite lookup_alter_eq. destruct (Hg a) as [o Ho].
    rewrite lookup_alter_eq in Ho. destruct (txn_heap m !! a), Ho as [->| ->]; done. }
  assert (forall b, txn_state <$> txn_heap m' !! b =
    (if decide (b = a) then txn_state ∘ f else txn_state) <$> txn_heap m !! b) as Hst.
  { intros b. case_decide as Hb; [subst b; rewrite Haa; by destruct (txn_heap m !! a)|].
    destruct (Hother b Hb) as [o [->| ->]]; by destruct (txn_heap m !! b). }
  assert (forall b, txn_id <$> txn_heap m' !! b = txn_id <$> txn_heap m !! b) as Hids.
  { intros b. destruct (decide (b = a)) as [->|Hb].
    - rewrite Haa. destruct (txn_heap m !! a) as [t|]; [|done]. cbn. f_equal. apply Hf.
    - destruct (Hother b Hb) as [o [->| ->]]; by destruct (txn_heap m !! b). }
  assert (forall b t, txn_heap m' !! b = Some t -> exists t0, txn_heap m !! b = Some t0 /\
            txn_id t0 = txn_id t /\ txn_state t = (if decide (b = a) then txn_state (f t0) else txn_state t0)) as Hback.
  { intros b t Hb. pose proof (Hst b) as E1. pose proof (Hids b) as E2. rewrite Hb in E1, E2.
    destruct (txn_heap m !! b) as [t0|]; [|done]. exists t0. cbn in *. simplify_eq.
    split_and!; [done|congruence|]. case_decide; cbn in *; congruence. }
  split_and!.
  - constructor.
    + rewrite Hm'. eapply (chain_frame txn_next); [|exact Hc2]. intros b Hb. cbn.
      rewrite lookup_alter_ne; [done|]. by intros <-.
    + by apply list.NoDup_filter.
    + intros b t Hb. destruct (Hback b t Hb) as (t0 & Hb0 & _ & ->). rewrite list_elem_of_filter.
      case_decide as Hba.
      * split; [naive_solver|]. intros Hact. by destruct (Hf t0) as (_ & _ & ?).
      * rewrite (Hac b t0 Hb0). naive_solver.
    + intros b t Hb. destruct (Hback b t Hb) as (t0 & Hb0 & <- & _). rewrite Hnx. eauto.
    + intros b c t u Hb Hcc. destruct (Hback b t Hb) as (t0 & Hb0 & <- & _).
      destruct (Hback c u Hcc) as (u0 & Hc0 & <- & _). eauto.
  - intros b Hb. rewrite Hst, decide_False by done. done.
  - by rewrite Hst, decide_True by done.
  - rewrite Haa. by destruct (txn_heap m !! a).
  - done.
Qed.

Section spec.
Context {S : Type} `{PageStoreLaws S}.

Lemma begin_transaction_spec m l a now s :
  txn_inv m l -> txn_heap m !! a = None -> 0 <= next_txn_id m < UINT64_MAX ->
  exists m' t, begin_transaction (Some a) now m s = (Some a, m') /\ txn_inv m' (a :: l) /\
    txn_heap m' = <[a := t]> (txn_heap m) /\ txn_state t = TXN_STATE_ACTIVE /\
    txn_id t = next_txn_id m /\ next_txn_id m' = next_txn_id m + 1.
Proof using.
  intros [Hc Hnd Hac Hid Hinj] Ha Hn. unfold begin_transaction. eexists _, _. split; [done|].
  assert (a ∉ l) as Hal.
  { intros Hal. destruct (chain_lookup txn_next _ _ _ _ Hc Hal). congruence. }
  assert (u64 (next_txn_id m + 1) = next_txn_id m + 1) as Hu.
  { unfold u64, UINT64_MAX in *. apply uwrap_small. lia. }
  split_and!; try done. constructor; cbn; rewrite ?Hu.
  - split; [done|]. rewrite lookup_insert_eq. eexists. split; [done|]. cbn.
    eapply (chain_frame txn_next); [|exact Hc]. intros b Hb. rewrite lookup_insert_ne; [done|]. by intros <-.
  - by apply list.NoDup_cons.
  - intros b t. rewrite lookup_insert_Some. intros [[<- <-]|[Hb Ht]].
    + split; [done|]. intros _. left.
    + rewrite elem_of_cons, <- (Hac b t Ht). naive_solver.
  - intros b t. rewrite lookup_insert_Some. intros [[<- <-]|[Hb Ht]]; cbn; [lia|].
    specialize (Hid _ _ Ht). lia.
  - intros b c t u. rewrite !lookup_insert_Some. intros [[<- <-]|[Hb Ht]] [[<- <-]|[Hc' Hu']]; cbn; try done.
    + intros E. specialize (Hid _ _ Hu'). lia.
    + intros E. specialize (Hid _ _ Ht). lia.
    + eauto.
Qed.

Lemma active_txn_guard txn m l a t :
  txn_inv m l -> active_txn txn m = Some (a, t) ->
  txn = Some a /\ txn_heap m !! a = Some t /\ a ∈ l.
Proof using.
  intros Hi. unfold active_txn, txn_is_active. destruct txn as [b|]; [|done]. cbn.
  destruct (txn_heap m !! b) as [u|] eqn:Hb; [|done]. cbn. case_bool_decide as Hst; [|done].
  intros [= -> ->]. split_and!; try done. by apply (ti_active _ _ Hi a t).
Qed.

Lemma commit_transaction_spec m l txn a t now U s r m' s' :
  txn_inv m l -> ps_inv U s -> active_txn txn m = Some (a, t) ->
  commit_transaction txn now m s = (r, m', s') ->
  r = 0 /\ txn_inv m' (filter (.≠ a) l) /\
  (exists t', txn_heap m' !! a = Some t' /\ txn_state t' = TXN_STATE_COMMITED /\ txn_next t' = None) /\
  (forall b, b <> a -> txn_state <$> txn_heap m' !! b = txn_state <$> txn_heap m !! b) /\
  ps_inv U s' /\ (forall j, ps_view s' j = ps_view s j).
Proof using.
  intros Hi Hs Ha. destruct (active_txn_guard _ _ _ _ _ Hi Ha) as (-> & Hh & Hal).
  unfold commit_transaction. rewrite Ha. intros [= <- <- <-].
  set (f := set_committed _ _).
  destruct (unlink_transaction_spec m l a f Hi Hal ltac:(done)) as (Hi' & Hot & Hst & Hnx & _).
  split_and!; try done.
  - destruct Hi'; by constructor.
  - cbn. rewrite Hh in Hst, Hnx. cbn in Hst, Hnx.
    destruct (txn_heap (unlink_transaction a (update_txn a f m)) !! a) as [t'|]; [|done].
    exists t'. cbn in *. naive_solver.
  - destruct (ps_enable_wal s); [|done].
    destruct (ps_write_wal_record _ _ _ _ s) as [r1 s1] eqn:E1.
    destruct (ps_flush_wal_buffer s1) as [r2 s2] eqn:E2.
    destruct (ps_log_law _ _ _ _ _ _ _ _ Hs E1) as (Hs1 & _).
    by destruct (ps_flush_law _ _ _ _ Hs1 E2).
  - destruct (ps_enable_wal s); [|done]. intros j.
    destruct (ps_write_wal_record _ _ _ _ s) as [r1 s1] eqn:E1.
    destruct (ps_flush_wal_buffer s1) as [r2 s2] eqn:E2.
    destruct (ps_log_law _ _ _ _ _ _ _ _ Hs E1) as (Hs1 & Hv1 & _).
    destruct (ps_flush_law _ _ _ _ Hs1 E2) as (_ & Hv2 & _). by rewrite Hv2.
Qed.

Lemma abort_transaction_spec m l txn a t U s r m' s' :
  txn_inv m l -> ps_inv U s -> active_txn txn m = Some (a, t) ->
  abort_transaction txn m s = (r, m', s') ->
  r = 0 /\ txn_inv m' (filter (.≠ a) l) /\
  (exists t', txn_heap m' !! a = Some t' /\ txn_state t' = TXN_STATE_ABORTED /\ txn_next t' = None) /\
  (forall b, b <> a -> txn_state <$> txn_heap m' !! b = txn_state <$> txn_heap m !! b) /\
  ps_inv U s' /\ (forall j, ps_view s' j = ps_view s j).
Proof using.
  intros Hi Hs Ha. destruct (active_txn_guard _ _ _ _ _ Hi Ha) as (-> & Hh & Hal).
  unfold abort_transaction. rewrite Ha. intros [= <- <- <-].
  destruct (unlink_transaction_spec m l a set_aborted Hi Hal ltac:(done))
    as (Hi' & Hot & Hst & Hnx & _).
  split_and!; try done.
  - destruct Hi'; by constructor.
  - cbn. rewrite Hh in Hst, Hnx. cbn in Hst, Hnx.
    destruct (txn_heap (unlink_transaction a (update_txn a set_aborted m)) !! a) as [t'|]; [|done].
    exists t'. cbn in *. naive_solver.
  - destruct (ps_enable_wal s); [|done].
    destruct (ps_write_wal_record _ _ _ _ s) as [r1 s1] eqn:E1.
    by destruct (ps_log_law _ _ _ _ _ _ _ _ Hs E1).
  - destruct (ps_enable_wal s); [|done].
    destruct (ps_write_wal_record _ _ _ _ s) as [r1 s1] eqn:E1.
    by destruct (ps_log_law _ _ _ _ _ _ _ _ Hs E1) as (_ & ? & _).
Qed.
End spec.
