(* ===== verification/Db.v ===== *)
(** * The key-value API (storage/src/db.c): operations

    Every function of db.c over an arbitrary [PageStore]. A pointer handed out
    by [get_page] is the page value while the caller only reads it; stores
    through it are [ps_store_page]. [tree_lock] makes each public call one
    step. The two unbounded loops ([descend_to_leaf] and the leaf walk of
    [scan_range]) take fuel and say when it runs out. *)
From S2P Require Import Prelude BtreePage Wal Pager Store Txn.

Local Open Scope Z_scope.

Definition BTREE_MAX_DEPTH : nat := 32.

(** Where [descend_to_leaf] got: out of fuel, NULL, or a pinned leaf. *)
Inductive descent := DRunning | DFail | DLeaf (id : Z) (page : btree_page).

Section db.
Context {S : Type} `{PageStore S} (root_page_id : Z).

(** The child pointer an internal page holds for [key]. *)
Definition child_for (page : btree_page) (key : bytes) : Z :=
  match get_kv_pair page (find_key_position page key) with
  | Some kv => kv_child_page_id (data page) kv
  | None => next_page_id (header page)
  end.

Fixpoint descend_path_loop (levels : nat) (key : bytes) (page_id : Z) (ids : list Z) (s : S)
    : option (list Z) * S :=
  match levels with
  | O => (None, s)
  | Datatypes.S levels' =>
      match ps_get_page page_id LOCK_NONE s with
      | (None, s) => (None, s)
      | (Some page, s) =>
          let ids := ids ++ [page_id] in
          if negb (page_type (header page) =? PAGE_TYPE_INTERNAL)
          then (Some ids, ps_release_page page_id LOCK_NONE s)
          else
            let child_page_id := child_for page key in
            let s := ps_release_page page_id LOCK_NONE s in
            if (child_page_id =? 0) || (child_page_id =? page_id) then (None, s)
            else descend_path_loop levels' key child_page_id ids s
      end
  end.

(** The ids visited, root first, or [None] for -1. *)
Definition descend_path (key : bytes) (s : S) : option (list Z) * S :=
  descend_path_loop BTREE_MAX_DEPTH key root_page_id [] s.

Definition grown_root_header (h : page_header) (left_id : Z) : page_header :=
  mkHeader (page_id h) PAGE_TYPE_INTERNAL 0 (u16 btree_page_capacity) (reserved0 h)
    left_id 0 (lsn h) (checksum h) (reserved h).

Definition grow_root (s : S) : option Z * S :=
  let '(left_id, s) := ps_allocate_page s in
  if left_id =? 0 then (None, s) else
  match ps_get_page root_page_id LOCK_EXCLUSIVE s with
  | (None, s) => (None, s)
  | (Some root, s) =>
      match ps_get_page left_id LOCK_EXCLUSIVE s with
      | (None, s) => (None, ps_release_page root_page_id LOCK_EXCLUSIVE s)
      | (Some _, s) =>
          let left := mkPage (set_page_identity (header root) left_id (page_type (header root)))
                        (data root) in
          let s := ps_store_page left_id left s in
          let capacity := btree_page_capacity in
          let root := mkPage (grown_root_header (header root) left_id)
                        (replicate (Z.to_nat capacity) 0) in
          let s := ps_store_page root_page_id root s in
          let s := ps_mark_page_dirty left_id s in
          let s := ps_mark_page_dirty root_page_id s in
          let s := ps_release_page left_id LOCK_EXCLUSIVE s in
          let s := ps_release_page root_page_id LOCK_EXCLUSIVE s in
          (Some left_id, s)
      end
  end.

(** First index of [node_id] in the path, or -1. *)
Fixpoint path_level (ids : list Z) (node_id i : Z) : Z :=
  match ids with
  | [] => -1
  | id :: ids' => if id =? node_id then i else path_level ids' node_id (i + 1)
  end.

(** The entry whose child is [node_id]: its index, -1 when there is none,
    [None] when an entry cannot be read. *)
Fixpoint find_child (n : nat) (i : Z) (parent : btree_page) (node_id : Z) : option Z :=
  match n with
  | O => Some (-1)
  | Datatypes.S n' =>
      kv ← get_kv_pair parent i;
      if kv_child_page_id (data parent) kv =? node_id then Some i
      else find_child n' (i + 1) parent node_id
  end.

Definition set_child (page : btree_page) (off child : Z) : btree_page :=
  mkPage (header page) (write_at (off + 4) (le_encode 4 (u32 child)) (data page)).

Definition empty_right_page : btree_page :=
  mkPage (mkHeader 0 0 0 (u16 btree_page_capacity) 0 0 0 0 0 (replicate 36 0))
    (replicate (Z.to_nat btree_page_capacity) 0).

(** 0 or -1, and the store. *)
Fixpoint insert_separator (depth : nat) (node_id : Z) (sep : bytes) (right_id : Z) (s : S)
    {struct depth} : Z * S :=
  match depth with
  | O => (-1, s)
  | Datatypes.S depth' =>
      match descend_path sep s with
      | (None, s) => (-1, s)
      | (Some ids, s) =>
          let level := path_level ids node_id 0 in
          if level <=? 0 then (-1, s) else
          let parent_id := default 0 (znth ids (level - 1)) in
          match ps_get_page parent_id LOCK_EXCLUSIVE s with
          | (None, s) => (-1, s)
          | (Some parent, s) =>
              let release s := ps_release_page parent_id LOCK_EXCLUSIVE s in
              match find_child (Z.to_nat (key_count (header parent))) 0 parent node_id with
              | None => (-1, release s)
              | Some old_pos =>
                  if (old_pos <? 0) && negb (next_page_id (header parent) =? node_id)
                  then (-1, release s) else
                  let insert_pos := if old_pos >=? 0 then old_pos
                                    else key_count (header parent) in
                  match insert_kv_pair parent insert_pos sep [] node_id with
                  | None =>
                      let s := release s in
                      match btree_split_node depth' parent_id s with
                      | (rc, s) =>
                          if negb (rc =? 0) then (-1, s)
                          else insert_separator depth' node_id sep right_id s
                      end
                  | Some parent =>
                      let s := ps_store_page parent_id parent s in
                      if old_pos >=? 0 then
                        match get_kv_pair parent (old_pos + 1) with
                        | None => (-1, release s)
                        | Some moved =>
                            let s := ps_store_page parent_id (set_child parent moved right_id) s in
                            (0, release (ps_mark_page_dirty parent_id s))
                        end
                      else
                        let parent := mkPage (set_next_page_id (header parent) right_id)
                                        (data parent) in
                        let s := ps_store_page parent_id parent s in
                        (0, release (ps_mark_page_dirty parent_id s))
                  end
              end
          end
      end
  end
with btree_split_node (depth : nat) (node_id : Z) (s : S) {struct depth} : Z * S :=
  match depth with
  | O => (-1, s)
  | Datatypes.S depth' =>
      let '(node, s) := if node_id =? root_page_id then grow_root s else (Some node_id, s) in
      match node with
      | None => (-1, s)
      | Some node_id =>
          let '(right_id, s) := ps_allocate_page s in
          if right_id =? 0 then (-1, s) else
          match ps_get_page node_id LOCK_EXCLUSIVE s with
          | (None, s) => (-1, s)
          | (Some node, s) =>
              match ps_get_page right_id LOCK_EXCLUSIVE s with
              | (None, s) => (-1, ps_release_page node_id LOCK_EXCLUSIVE s)
              | (Some _, s) =>
                  let s := ps_store_page right_id empty_right_page s in
                  let release s := ps_release_page node_id LOCK_EXCLUSIVE
                                     (ps_release_page right_id LOCK_EXCLUSIVE s) in
                  match btree_split_page node empty_right_page right_id MAX_KEY_SIZE with
                  | None => (-1, ps_deallocate_page right_id (release s))
                  | Some (node', right', sep) =>
                      let s := ps_store_page right_id right' (ps_store_page node_id node' s) in
                      let s := ps_mark_page_dirty right_id (ps_mark_page_dirty node_id s) in
                      insert_separator depth' node_id sep right_id (release s)
                  end
              end
          end
      end
  end.

Fixpoint descend_loop (fuel : nat) (key : bytes) (lk : lock_type) (page_id : Z)
    (page : btree_page) (s : S) : descent * S :=
  if negb (page_type (header page) =? PAGE_TYPE_INTERNAL) then (DLeaf page_id page, s) else
  match fuel with
  | O => (DRunning, s)
  | Datatypes.S fuel' =>
      let child_page_id := child_for page key in
      let s := ps_release_page page_id lk s in
      match ps_get_page child_page_id lk s with
      | (None, s) => (DFail, s)
      | (Some page, s) => descend_loop fuel' key lk child_page_id page s
      end
  end.

Definition descend_to_leaf (fuel : nat) (key : bytes) (lk : lock_type) (s : S) : descent * S :=
  match ps_get_page root_page_id lk s with
  | (None, s) => (DFail, s)
  | (Some page, s) => descend_loop fuel key lk root_page_id page s
  end.

(** The entry [find_key_position] lands on, when its key is [key]. *)
Definition find_pair (page : btree_page) (key : bytes) : option Z :=
  kv ← get_kv_pair page (find_key_position page key);
  match compare_keys key (kv_key (data page) kv) with Eq => Some kv | _ => None end.

Definition insert_payload (key value : bytes) : bytes :=
  le_encode 8 (zlen key) ++ le_encode 8 (zlen value) ++ key ++ value.
Definition delete_payload (key value : bytes) : bytes :=
  le_encode 8 (zlen key) ++ le_encode 2 (zlen value) ++ key ++ value.

(** Append a log record when the log is enabled; its result is not checked. *)
Definition log_change (txn : Z) (ty : wal_record_type) (id : Z) (payload : bytes) (s : S) : S :=
  if ps_enable_wal s then let '(_, s) := ps_write_wal_record txn ty id payload s in s else s.

Fixpoint insert_loop (attempts : nat) (t : transaction) (key value : bytes) (s : S)
    : Z * transaction * S :=
  match attempts with
  | O => (-1, t, s)
  | Datatypes.S attempts' =>
      match descend_path key s with
      | (None, s) => (-1, t, s)
      | (Some ids, s) =>
          match list.last ids with
          | None => (-1, t, s)
          | Some page_id =>
              match ps_get_page page_id LOCK_EXCLUSIVE s with
              | (None, s) => (-1, t, s)
              | (Some page, s) =>
                  let release s := ps_release_page page_id LOCK_EXCLUSIVE s in
                  let pos := find_key_position page key in
                  match find_pair page key with
                  | Some _ => (-1, t, release s)
                  | None =>
                      let pair_size := SIZEOF_KV_PAIR + zlen key + zlen value in
                      if free_space (header page) <? pair_size then
                        match btree_split_node BTREE_MAX_DEPTH page_id (release s) with
                        | (rc, s) => if negb (rc =? 0) then (-1, t, s)
                                     else insert_loop attempts' t key value s
                        end
                      else
                        let s := log_change (txn_id t) WAL_INSERT page_id
                                   (insert_payload key value) s in
                        match insert_kv_pair page pos key value 0 with
                        | None => (-1, t, release s)
                        | Some page =>
                            let s := ps_mark_page_dirty page_id (ps_store_page page_id page s) in
                            (0, add_rows 1 0 t, release s)
                        end
                  end
              end
          end
      end
  end.

Definition db_insert (txn : option transaction) (key value : bytes) (s : S)
    : Z * option transaction * S :=
  match txn with
  | None => (-1, txn, s)
  | Some t =>
      if negb (txn_is_active t) then (-1, txn, s) else
      if (zlen key =? 0) || (zlen key >? MAX_KEY_SIZE) || (zlen value >? MAX_VALUE_SIZE)
      then (-1, txn, s) else
      let '(rc, t, s) := insert_loop BTREE_MAX_DEPTH t key value s in (rc, Some t, s)
  end.

(** rc, the bytes copied to [value], and [*value_length]; [None] when the
    descent has not finished within the fuel. *)
Definition db_search (fuel : nat) (txn : option transaction) (key : bytes) (value_length : Z) (s : S)
    : option (Z * bytes * Z) * S :=
  match txn with
  | None => (Some (-1, [], value_length), s)
  | Some t =>
      if negb (txn_is_active t) then (Some (-1, [], value_length), s) else
      match descend_to_leaf fuel key LOCK_SHARED s with
      | (DRunning, s) => (None, s)
      | (DFail, s) => (Some (-1, [], value_length), s)
      | (DLeaf page_id page, s) =>
          match find_pair page key with
          | Some kv =>
              let vlen := kv_value_length (data page) kv in
              let copy_length := if vlen <? value_length then vlen else value_length in
              (Some (0, ztake copy_length (kv_value (data page) kv), vlen),
               ps_release_page page_id LOCK_SHARED s)
          | None => (Some (-1, [], value_length), ps_release_page page_id LOCK_SHARED s)
          end
      end
  end.

Definition db_delete (fuel : nat) (txn : option transaction) (key : bytes) (s : S)
    : option Z * option transaction * S :=
  match txn with
  | None => (Some (-1), txn, s)
  | Some t =>
      if negb (txn_is_active t) then (Some (-1), txn, s) else
      match descend_to_leaf fuel key LOCK_EXCLUSIVE s with
      | (DRunning, s) => (None, txn, s)
      | (DFail, s) => (Some (-1), txn, s)
      | (DLeaf page_id page, s) =>
          let pos := find_key_position page key in
          match find_pair page key with
          | None => (Some (-1), txn, ps_release_page page_id LOCK_EXCLUSIVE s)
          | Some kv =>
              let s := log_change (txn_id t) WAL_DELETE page_id
                         (delete_payload key (kv_value (data page) kv)) s in
              match delete_kv_pair page pos with
              | None => (Some (-1), txn, ps_release_page page_id LOCK_EXCLUSIVE s)
              | Some page =>
                  let s := ps_mark_page_dirty page_id (ps_store_page page_id page s) in
                  (Some 0, Some (add_rows 0 1 t), ps_release_page page_id LOCK_EXCLUSIVE s)
              end
          end
      end
  end.

(** ** Scans *)
Section scan.
Context {C : Type} (callback : bytes -> bytes -> C -> Z * C).

Definition has_prefix (prefix key : bytes) : bool :=
  negb ((zlen prefix >? 0) &&
        ((zlen key <? zlen prefix) ||
         match memcmp (ztake (zlen prefix) key) prefix with Eq => false | _ => true end)).

(** The pairs of one leaf from index [i]: whether the scan ends here. *)
Fixpoint scan_leaf (n : nat) (i : Z) (page : btree_page) (prefix : bytes) (c : C) : bool * C :=
  match n with
  | O => (false, c)
  | Datatypes.S n' =>
      match get_kv_pair page i with
      | None => (false, c)
      | Some kv =>
          let key := kv_key (data page) kv in
          if negb (has_prefix prefix key) then (true, c) else
          let '(stop, c) := callback key (kv_value (data page) kv) c in
          if negb (stop =? 0) then (true, c)
          else scan_leaf n' (i + 1) page prefix c
      end
  end.

Fixpoint scan_loop (fuel : nat) (prefix : bytes) (page_id : Z) (page : btree_page) (start : Z)
    (c : C) (s : S) : option Z * C * S :=
  let '(stop, c) := scan_leaf (Z.to_nat (key_count (header page) - start)) start page prefix c in
  if stop then (Some 0, c, ps_release_page page_id LOCK_SHARED s) else
  let next := next_page_id (header page) in
  let s := ps_release_page page_id LOCK_SHARED s in
  if next =? 0 then (Some 0, c, s) else
  match fuel with
  | O => (None, c, s)
  | Datatypes.S fuel' =>
      match ps_get_page next LOCK_SHARED s with
      | (None, s) => (Some (-1), c, s)
      | (Some page, s) => scan_loop fuel' prefix next page 0 c s
      end
  end.

Definition scan_range (fuel : nat) (txn : option transaction) (prefix : bytes) (c : C) (s : S)
    : option Z * C * S :=
  match txn with
  | None => (Some (-1), c, s)
  | Some t =>
      if negb (txn_is_active t) then (Some (-1), c, s) else
      if zlen prefix >? MAX_KEY_SIZE then (Some (-1), c, s) else
      match descend_to_leaf fuel prefix LOCK_SHARED s with
      | (DRunning, s) => (None, c, s)
      | (DFail, s) => (Some (-1), c, s)
      | (DLeaf page_id page, s) =>
          scan_loop fuel prefix page_id page (find_key_position page prefix) c s
      end
  end.

Definition db_scan (fuel : nat) (txn : option transaction) (c : C) (s : S) : option Z * C * S :=
  scan_range fuel txn [] c s.
Definition db_scan_prefix (fuel : nat) (txn : option transaction) (prefix : bytes) (c : C) (s : S)
    : option Z * C * S :=
  scan_range fuel txn prefix c s.
End scan.
End db.
