(* ===== verification/DbProofs.v ===== *)
(** * The B+-tree behind the key-value API

    A tree invariant over the pages a [PageStore] shows, the routing lemmas
    for descents through it, and what search, delete, scan and insert do to
    the map the tree holds. *)
From S2P Require Import Prelude BtreePage Wal Pager PagerProofs Store Txn Db.

Local Open Scope Z_scope.

(** ** Key ranges: above [lo], up to and including [hi] *)
Definition above (lo : option bytes) (k : bytes) : Prop :=
  match lo with None => True | Some l => lex_lt l k end.
Definition upto (hi : option bytes) (k : bytes) : Prop :=
  match hi with None => True | Some h => lex_le k h end.
Definition within (lo hi : option bytes) (k : bytes) : Prop := above lo k /\ upto hi k.

Abbreviation kv := (bytes * bytes)%type.
Definition pair_of (e : entry) : kv := (e_key e, e_value e).

(** ** Trees of pages

    [node v d id lo hi kvs ids lvs]: in the page view [v], page [id] is the
    root of a subtree of height [d] whose keys lie within [lo] and [hi], whose
    leaves hold the pairs [kvs] left to right, whose pages are [ids] and whose
    leaf pages are [lvs]. *)
Section tree.
Context (v : Z -> option btree_page).

Fixpoint kids {A} (R : Z -> option bytes -> option bytes -> list kv -> list A -> list Z -> Prop)
    (lo hi : option bytes) (es : list entry) (right : Z) (kvs : list kv) (ids : list A) (lvs : list Z)
    : Prop :=
  match es with
  | [] => R right lo hi kvs ids lvs
  | e :: es' => exists k1 k2 i1 i2 l1 l2,
      R (e_child e) lo (Some (e_key e)) k1 i1 l1 /\
      kids R (Some (e_key e)) hi es' right k2 i2 l2 /\
      kvs = k1 ++ k2 /\ ids = i1 ++ i2 /\ lvs = l1 ++ l2
  end.

Definition entries_within (lo hi : option bytes) (es : list entry) : Prop :=
  keys_sorted es /\ Forall (fun e => within lo hi (e_key e)) es.

(** Separators of an internal page: strictly below the upper end, so that no
    child has an empty range. *)
Definition below (hi : option bytes) (k : bytes) : Prop :=
  match hi with None => True | Some h => lex_lt k h end.
Definition separators (lo hi : option bytes) (es : list entry) : Prop :=
  entries_within lo hi es /\ Forall (fun e => below hi (e_key e)) es.

Fixpoint node (d : nat) (id : Z) (lo hi : option bytes) (kvs : list kv) (ids lvs : list Z) : Prop :=
  match d with
  | O => exists p es, v id = Some p /\ page_repr p es /\ page_type (header p) = PAGE_TYPE_LEAF /\
      entries_within lo hi es /\ kvs = map pair_of es /\ ids = [id] /\ lvs = [id]
  | S d' => exists p es ids', v id = Some p /\ page_repr p es /\
      page_type (header p) = PAGE_TYPE_INTERNAL /\ separators lo hi es /\
      kids (node d') lo hi es (next_page_id (header p)) kvs ids' lvs /\ ids = id :: ids'
  end.

(** The leaves in order, each with its pairs. *)
Fixpoint leaf_run (lvs : list Z) (kvs : list kv) : Prop :=
  match lvs with
  | [] => kvs = []
  | l :: lvs' => exists p es kvs', v l = Some p /\ page_repr p es /\
      kvs = map pair_of es ++ kvs' /\ leaf_run lvs' kvs'
  end.

(** Each leaf points at the next one, the last at none. *)
Fixpoint leaf_chain (lvs : list Z) : Prop :=
  match lvs with
  | [] => True
  | l :: lvs' => (exists p, v l = Some p /\ next_page_id (header p) = default 0 (head lvs')) /\
                 leaf_chain lvs'
  end.
End tree.

Lemma above_trans lo a b : above lo a -> lex_le a b -> above lo b.
Proof. destruct lo as [l|]; [|done]. simpl. intros. by eapply lex_lt_le_trans. Qed.
Lemma upto_trans hi a b : lex_le a b -> upto hi b -> upto hi a.
Proof. destruct hi as [h|]; [|done]. simpl. intros. by trans b. Qed.

Lemma entries_within_cons lo hi e es :
  entries_within lo hi (e :: es) <->
  within lo hi (e_key e) /\ entries_within (Some (e_key e)) hi es.
Proof.
  unfold entries_within, within. split.
  - intros [Hs Hf]. inversion Hs as [|? ? Hs' Hlt]; subst. inversion Hf as [|? ? Hw Hf']; subst.
    split_and!; try apply Hw; [done|]. rewrite list.Forall_forall in *. intros x Hx.
    split; [by apply Hlt|by apply Hf'].
  - intros [[Hlo Hhi] [Hs Hf]]. split.
    + constructor; [done|]. eapply list.Forall_impl; [exact Hf|]. by intros x [? _].
    + constructor; [done|]. eapply list.Forall_impl; [exact Hf|]. intros x [Hx ?]. split; [|done].
      simpl in Hx. eapply above_trans; [exact Hlo|]. by apply lex_lt_le.
Qed.

Lemma entries_within_lookup lo hi es i e :
  entries_within lo hi es -> es !! i = Some e -> within lo hi (e_key e).
Proof. intros [_ Hf] He. rewrite list.Forall_lookup in Hf. eauto. Qed.

(** The child the descent takes. *)
Fixpoint child_at (es : list entry) (right : Z) (key : bytes) : Z :=
  match es with
  | [] => right
  | e :: es' => if decide (lex_le key (e_key e)) then e_child e else child_at es' right key
  end.

Lemma child_at_lower_bound es right key pos :
  lower_bound es key pos ->
  child_at es right key = match es !! Z.to_nat pos with Some e => e_child e | None => right end.
Proof.
  revert pos. induction es as [|e es IH]; intros pos (Hp & Hlo & Hhi); [done|]. simpl.
  case_decide as Hle.
  - assert (pos = 0) as ->; [|done]. destruct (decide (pos = 0)); [done|].
    specialize (Hlo 0%nat e eq_refl ltac:(lia)). exfalso. by apply lex_nlt in Hle.
  - apply lex_nle in Hle.
    assert (0 < pos) as Hpos.
    { destruct (decide (pos = 0)) as [->|]; [|lia]. specialize (Hhi 0%nat e eq_refl ltac:(lia)).
      exfalso. by apply lex_nlt in Hhi. }
    replace (Z.to_nat pos) with (S (Z.to_nat (pos - 1))) by lia. simpl. apply IH.
    split_and!; [lia|rewrite zlen_cons in Hp; lia|..]; intros i x Hx Hi.
    + apply (Hlo (S i)); [done|lia].
    + apply (Hhi (S i)); [done|lia].
Qed.

Lemma child_for_at p es key :
  page_repr p es -> keys_sorted es -> child_for p key = child_at es (next_page_id (header p)) key.
Proof.
  intros Hr Hs. pose proof (find_key_position_lb p es key Hr Hs) as Hlb.
  rewrite (child_at_lower_bound _ _ _ _ Hlb). unfold child_for.
  destruct Hlb as (Hp & _). set (pos := find_key_position p key) in *.
  destruct (es !! Z.to_nat pos) as [e|] eqn:He.
  - rewrite <- (Z2Nat.id pos) by lia. rewrite (get_kv_pair_repr p es Hr _ _ He).
    by destruct (kv_at_repr p es Hr _ _ He) as (_ & _ & -> & _).
  - rewrite (get_kv_pair_out p es Hr); [done|]. apply lookup_ge_None in He. unfold zlen. lia.
Qed.

Lemma leaf_run_app v l1 l2 k1 k2 :
  leaf_run v l1 k1 -> leaf_run v l2 k2 -> leaf_run v (l1 ++ l2) (k1 ++ k2).
Proof.
  revert k1. induction l1 as [|l l1 IH]; intros k1; simpl.
  - by intros ->.
  - intros (p & es & k' & ? & ? & -> & ?) ?. exists p, es, (k' ++ k2). rewrite <- app_assoc. auto.
Qed.

Lemma leaf_run_frame v v' lvs kvs :
  (forall x p, x ∈ lvs -> v x = Some p -> v' x = Some p) -> leaf_run v lvs kvs -> leaf_run v' lvs kvs.
Proof.
  revert kvs. induction lvs as [|l lvs IH]; intros kvs Hf; [done|].
  intros (q & fs & k' & Hq & ? & -> & Hr). exists q, fs, k'.
  split_and!; [apply Hf; [left|done]|done|done|]. apply IH; [|done]. intros x p Hx. apply Hf. by right.
Qed.

Definition keys_within (lo hi : option bytes) (kvs : list kv) : Prop :=
  Forall (fun x => within lo hi x.1) kvs.

Lemma keys_within_mono lo lo' hi hi' kvs :
  (forall k, above lo k -> above lo' k) -> (forall k, upto hi k -> upto hi' k) ->
  keys_within lo hi kvs -> keys_within lo' hi' kvs.
Proof. intros ? ? H. eapply list.Forall_impl; [exact H|]. intros x []; split; auto. Qed.

Lemma kids_mono {A} (R R' : Z -> option bytes -> option bytes -> list kv -> list A -> list Z -> Prop)
    lo hi es right kvs ids lvs :
  kids R lo hi es right kvs ids lvs ->
  (forall c a b k i l, R c a b k i l -> i ⊆ ids -> R' c a b k i l) ->
  kids R' lo hi es right kvs ids lvs.
Proof.
  revert lo kvs ids lvs. induction es as [|e es IH]; intros lo kvs ids lvs; simpl.
  { intros HR Hfr. by apply Hfr. }
  intros (k1 & k2 & i1 & i2 & l1 & l2 & H1 & H2 & -> & -> & ->) Hfr.
  exists k1, k2, i1, i2, l1, l2. split_and!; try done.
  - apply Hfr; [done|set_solver].
  - apply (IH _ _ _ _ H2). intros. apply Hfr; [done|set_solver].
Qed.

Section kids.
Context (v : Z -> option btree_page).
Context {A : Type} (R : Z -> option bytes -> option bytes -> list kv -> list A -> list Z -> Prop).
Context (HRw : forall c lo hi k i l, R c lo hi k i l -> keys_within lo hi k).
Context (HRl : forall c lo hi k i l, R c lo hi k i l -> leaf_run v l k).

Lemma kids_within lo hi es right kvs ids lvs :
  entries_within lo hi es -> kids R lo hi es right kvs ids lvs -> keys_within lo hi kvs.
Proof using HRw.
  revert lo kvs ids lvs. induction es as [|e es IH]; intros lo kvs ids lvs Hw; simpl; [eauto|].
  apply entries_within_cons in Hw as [[Hlo Hhi] Hw].
  intros (k1 & k2 & i1 & i2 & l1 & l2 & H1 & H2 & -> & -> & ->). apply Forall_app. split.
  - eapply keys_within_mono; [..|by apply (HRw _ _ _ _ _ _ H1)]; [done|].
    intros k Hk. by eapply upto_trans.
  - eapply keys_within_mono; [..|by apply (IH _ _ _ _ Hw H2)]; [|done].
    intros k Hk. eapply above_trans; [exact Hlo|]. by apply lex_lt_le.
Qed.

Lemma kids_leaf_run lo hi es right kvs ids lvs :
  kids R lo hi es right kvs ids lvs -> leaf_run v lvs kvs.
Proof using HRl.
  revert lo kvs ids lvs. induction es as [|e es IH]; intros lo kvs ids lvs; simpl; [eauto|].
  intros (k1 & k2 & i1 & i2 & l1 & l2 & H1 & H2 & -> & -> & ->).
  apply leaf_run_app; eauto.
Qed.

(** Where [key] is routed, and how to put a changed child back. *)
Lemma kids_route lo hi es right kvs ids lvs key :
  entries_within lo hi es -> within lo hi key -> kids R lo hi es right kvs ids lvs ->
  exists lo' hi' pre kc post ipre ic ipost lpre lc lpost,
    R (child_at es right key) lo' hi' kc ic lc /\ within lo' hi' key /\
    kvs = pre ++ kc ++ post /\ ids = ipre ++ ic ++ ipost /\ lvs = lpre ++ lc ++ lpost /\
    Forall (fun x => lex_lt x.1 key) pre /\ Forall (fun x => lex_lt key x.1) post /\
    leaf_run v lpost post /\
    (forall R' kc' (ic' : list A) lc', R' (child_at es right key) lo' hi' kc' ic' lc' ->
      (forall c a b k i l, R c a b k i l -> i ⊆ ipre ++ ipost -> R' c a b k i l) ->
      kids R' lo hi es right (pre ++ kc' ++ post) (ipre ++ ic' ++ ipost) (lpre ++ lc' ++ lpost)).
Proof using HRw HRl.
  revert lo kvs ids lvs. induction es as [|e es IH]; intros lo kvs ids lvs Hw Hk; simpl.
  { intros HR. exists lo, hi, [], kvs, [], [], ids, [], [], lvs, []. rewrite !app_nil_r.
    split_and!; try done. intros R' kc' ic' lc'. by rewrite !app_nil_r. }
  apply entries_within_cons in Hw as [[Hlo Hhi] Hw].
  intros (k1 & k2 & i1 & i2 & l1 & l2 & H1 & H2 & -> & -> & ->).
  destruct (decide (lex_le key (e_key e))) as [Hle|Hgt].
  - exists lo, (Some (e_key e)), [], k1, k2, [], i1, i2, [], l1, l2. cbn [app].
    split_and!; try done.
    + by destruct Hk.
    + pose proof (kids_within _ _ _ _ _ _ _ Hw H2) as Hk2.
      eapply list.Forall_impl; [exact Hk2|]. intros x [Hx _]. by eapply lex_le_lt_trans.
    + by eapply kids_leaf_run.
    + intros R' kc' ic' lc' HR' Hfr. exists kc', k2, ic', i2, lc', l2. split_and!; try done.
      eapply kids_mono; [exact H2|]. intros; apply Hfr; [done|]. set_solver.
  - assert (within (Some (e_key e)) hi key) as Hk'.
    { destruct Hk. split; [|done]. by apply lex_nle. }
    destruct (IH _ _ _ _ Hw Hk' H2) as (lo' & hi' & pre & kc & post & ipre & ic & ipost & lpre & lc
      & lpost & HR & Hkc & -> & -> & -> & Hpre & Hpost & Hrun & Hput).
    exists lo', hi', (k1 ++ pre), kc, post, (i1 ++ ipre), ic, ipost, (l1 ++ lpre), lc, lpost.
    rewrite <- !app_assoc. split_and!; try done.
    + apply Forall_app. split; [|done]. apply HRw in H1. eapply list.Forall_impl; [exact H1|].
      intros x [_ Hx]. apply lex_nle in Hgt. by eapply lex_le_lt_trans.
    + intros R' kc' ic' lc' HR' Hfr. rewrite <- !app_assoc.
      exists k1, (pre ++ kc' ++ post), i1, (ipre ++ ic' ++ ipost), l1, (lpre ++ lc' ++ lpost).
      split_and!; try done.
      * apply Hfr; [done|]. set_solver.
      * apply Hput; [done|]. intros. apply Hfr; [done|]. set_solver.
Qed.
End kids.

(** ** Subtrees *)
Section node.
Context (v : Z -> option btree_page).

Lemma node_within d id lo hi kvs ids lvs :
  node v d id lo hi kvs ids lvs -> keys_within lo hi kvs.
Proof using.
  revert id lo hi kvs ids lvs. induction d as [|d IH]; intros id lo hi kvs ids lvs; simpl.
  - intros (p & es & _ & _ & _ & [_ Hf] & -> & _). by apply Forall_map.
  - intros (p & es & ids' & _ & _ & _ & [Hw _] & Hk & _). by eapply kids_within.
Qed.

Lemma node_leaf_run d id lo hi kvs ids lvs :
  node v d id lo hi kvs ids lvs -> leaf_run v lvs kvs.
Proof using.
  revert id lo hi kvs ids lvs. induction d as [|d IH]; intros id lo hi kvs ids lvs; simpl.
  - intros (p & es & ? & ? & _ & _ & -> & -> & ->). exists p, es, []. by rewrite app_nil_r.
  - intros (p & es & ids' & _ & _ & _ & Hw & Hk & _). by eapply kids_leaf_run.
Qed.

Lemma node_root d id lo hi kvs ids lvs :
  node v d id lo hi kvs ids lvs -> exists ids', ids = id :: ids'.
Proof using. destruct d; simpl; naive_solver. Qed.

Lemma node_frame v' d id lo hi kvs ids lvs :
  (forall x p, x ∈ ids -> v x = Some p -> v' x = Some p) ->
  node v d id lo hi kvs ids lvs -> node v' d id lo hi kvs ids lvs.
Proof using.
  revert id lo hi kvs ids lvs. induction d as [|d IH]; intros id lo hi kvs ids lvs Hf; simpl.
  - intros (p & es & Hp & ? & ? & ? & -> & -> & ->). exists p, es. split_and!; try done.
    apply Hf; [set_solver|done].
  - intros (p & es & ids' & Hp & Hr & Ht & Hw & Hk & ->). exists p, es, ids'. split_and!; try done.
    + apply Hf; [set_solver|done].
    + eapply kids_mono; [exact Hk|]. intros c a b k i l Hn Hsub. eapply IH; [|exact Hn].
      intros x q Hx. apply Hf. set_solver.
Qed.
End node.

(** The pages a descent for [key] visits, root first. *)
Fixpoint route (v : Z -> option btree_page) (key : bytes) (path : list Z) : Prop :=
  match path with
  | [] => False
  | id :: rest =>
      match rest with
      | [] => exists p, v id = Some p /\ page_type (header p) <> PAGE_TYPE_INTERNAL
      | c :: _ => (exists p, v id = Some p /\ page_type (header p) = PAGE_TYPE_INTERNAL /\
                    child_for p key = c /\ c <> id) /\ route v key rest
      end
  end.

(** What a descent for [key] finds: the path, the leaf and its entries, the
    pairs left and right of it; and that replacing the leaf's entries replaces
    exactly them in the tree. *)
Record routed (v : Z -> option btree_page) (d : nat) (id : Z) (lo hi : option bytes)
    (kvs : list kv) (ids lvs : list Z) (key : bytes)
    (path : list Z) (leaf : Z) (p : btree_page) (es : list entry) (lo' hi' : option bytes)
    (pre post : list kv) (lpre lpost : list Z) : Prop := {
  rt_head : head path = Some id;
  rt_last : list.last path = Some leaf;
  rt_len : length path = S d;
  rt_sub : path ⊆ ids;
  rt_route : route v key path;
  rt_page : v leaf = Some p;
  rt_repr : page_repr p es;
  rt_leaf : page_type (header p) = PAGE_TYPE_LEAF;
  rt_es : entries_within lo' hi' es;
  rt_key : within lo' hi' key;
  rt_kvs : kvs = pre ++ map pair_of es ++ post;
  rt_pre : Forall (fun x => lex_lt x.1 key) pre;
  rt_post : Forall (fun x => lex_lt key x.1) post;
  rt_lvs : lvs = lpre ++ leaf :: lpost;
  rt_run : leaf_run v lpost post;
  rt_put : forall v' p' es',
    (forall x q, x <> leaf -> x ∈ ids -> v x = Some q -> v' x = Some q) ->
    v' leaf = Some p' -> page_repr p' es' -> page_type (header p') = PAGE_TYPE_LEAF ->
    entries_within lo' hi' es' ->
    node v' d id lo hi (pre ++ map pair_of es' ++ post) ids lvs }.

Lemma node_routed v d id lo hi kvs ids lvs key :
  node v d id lo hi kvs ids lvs -> NoDup ids -> within lo hi key ->
  exists path leaf p es lo' hi' pre post lpre lpost,
    routed v d id lo hi kvs ids lvs key path leaf p es lo' hi' pre post lpre lpost.
Proof.
  revert id lo hi kvs ids lvs. induction d as [|d IH]; intros id lo hi kvs ids lvs Hn Hnd Hk.
  { destruct Hn as (p & es & Hp & Hr & Ht & Hw & -> & -> & ->).
    exists [id], id, p, es, lo, hi, [], [], [], []. constructor; try done.
    - exists p. rewrite Ht. done.
    - by rewrite app_nil_r.
    - intros v' p' es' _ Hp' Hr' Ht' Hw'. rewrite app_nil_r. exists p', es'. split_and!; done. }
  destruct Hn as (p & es & ids' & Hp & Hr & Ht & [Hw Hbw] & Hkids & ->).
  apply list.NoDup_cons in Hnd as [Hid Hnd].
  destruct (kids_route v (node v d) (node_within v d) (node_leaf_run v d) _ _ _ _ _ _ _ _ Hw Hk Hkids)
    as (lo1 & hi1 & pre1 & kc & post1 & ipre & ic & ipost & lpre1 & lc & lpost1 & Hc & Hk1 & -> & -> & ->
        & Hpre1 & Hpost1 & Hrun1 & Hput1).
  set (c := child_at es (next_page_id (header p)) key) in *.
  apply list.NoDup_app in Hnd as (_ & Hd1 & Hnd). apply list.NoDup_app in Hnd as (Hndc & Hd2 & _).
  destruct (IH _ _ _ _ _ _ Hc Hndc Hk1)
    as (path & leaf & q & fs & lo2 & hi2 & pre2 & post2 & lpre2 & lpost2 & []).
  destruct path as [|c' path]; [done|]. cbn in rt_head0. injection rt_head0 as ->.
  exists (id :: c :: path), leaf, q, fs, lo2, hi2, (pre1 ++ pre2), (post2 ++ post1),
    (lpre1 ++ lpre2), (lpost2 ++ lpost1).
  assert (leaf ∈ ic) as Hlf by (apply rt_sub0; by eapply list.last_Some_elem_of).
  constructor; try done.
  - cbn in *. lia.
  - set_solver.
  - split; [|done]. exists p. split_and!; try done.
    + rewrite (child_for_at p es) by (done || apply Hw). done.
    + intros E. apply Hid. rewrite <- E. apply elem_of_app. right. apply elem_of_app. left.
      apply rt_sub0. left.
  - by rewrite rt_kvs0, <- !app_assoc.
  - by apply Forall_app.
  - by apply Forall_app.
  - by rewrite rt_lvs0, <- !app_assoc.
  - by apply leaf_run_app.
  - intros v' p' es' Hfr Hp' Hr' Ht' Hw'. exists p, es, (ipre ++ ic ++ ipost). split_and!; try done.
    + apply Hfr; [|left|done]. intros ->. apply Hid. set_solver.
    + rewrite <- !app_assoc. rewrite (app_assoc pre2), (app_assoc _ post2), <- (app_assoc pre2).
      apply Hput1.
      * apply (rt_put0 v' p'); try done. intros x y Hx Hxi. apply Hfr; [done|set_solver].
      * intros c1 a b k i l Hn Hi. eapply node_frame; [|exact Hn]. intros x y Hx.
        apply Hfr; [|set_solver]. intros ->. specialize (Hi _ Hx). set_solver.
Qed.

Lemma node_leaves_sub v d id lo hi kvs ids lvs :
  node v d id lo hi kvs ids lvs -> lvs ⊆ ids.
Proof.
  revert id lo hi kvs ids lvs. induction d as [|d IH]; intros id lo hi kvs ids lvs.
  - intros (? & ? & _ & _ & _ & _ & _ & -> & ->). done.
  - intros (p & es & ids' & _ & _ & _ & _ & Hk & ->). transitivity ids'; [|set_solver].
    generalize dependent lo. revert kvs ids' lvs.
    induction es as [|e es IHes]; intros kvs ids' lvs lo Hk; simpl in Hk; [eauto|].
    destruct Hk as (k1 & k2 & i1 & i2 & l1 & l2 & H1 & H2 & -> & -> & ->).
    apply IH in H1. apply IHes in H2. set_solver.
Qed.

Lemma node_page_some v d id lo hi kvs ids lvs x :
  node v d id lo hi kvs ids lvs -> x ∈ ids -> is_Some (v x).
Proof.
  revert id lo hi kvs ids lvs. induction d as [|d IH]; intros id lo hi kvs ids lvs.
  - intros (p & ? & ? & _ & _ & _ & _ & -> & _) ->%list_elem_of_singleton. by exists p.
  - intros (p & es & ids' & Hp & _ & _ & _ & Hk & ->) [->|Hx]%elem_of_cons; [by exists p|].
    revert kvs ids' lvs lo Hk Hx. induction es as [|e es IHes]; intros kvs ids' lvs lo Hk Hx;
      simpl in Hk; [eauto|].
    destruct Hk as (k1 & k2 & i1 & i2 & l1 & l2 & H1 & H2 & -> & -> & ->).
    apply elem_of_app in Hx as [Hx|Hx]; eauto.
Qed.

Lemma leaf_chain_frame v v' lvs :
  (forall x p, x ∈ lvs -> v x = Some p ->
     exists q, v' x = Some q /\ next_page_id (header q) = next_page_id (header p)) ->
  leaf_chain v lvs -> leaf_chain v' lvs.
Proof.
  induction lvs as [|l lvs IH]; intros Hf; [done|]. intros [(p & Hp & Hn) Hc]. split.
  - destruct (Hf l p ltac:(left) Hp) as (q & Hq & E). exists q. by rewrite E.
  - apply IH; [|done]. intros x q Hx. apply Hf. by right.
Qed.

(** ** The map a list of pairs stands for *)
Definition kv_map (kvs : list kv) : gmap bytes bytes := list_to_map kvs.

Lemma kv_map_split a key value b :
  key ∉ a.*1 -> kv_map (a ++ (key, value) :: b) = <[key := value]> (kv_map (a ++ b)).
Proof.
  intros Ha. unfold kv_map. rewrite !list_to_map_app, list_to_map_cons. cbn.
  symmetry. apply insert_union_r. by apply not_elem_of_list_to_map_1.
Qed.

Lemma kv_map_none a key : key ∉ a.*1 -> kv_map a !! key = None.
Proof. apply not_elem_of_list_to_map_1. Qed.

Lemma fst_pairs es : (map pair_of es).*1 = map e_key es.
Proof. unfold fmap. induction es; [done|]. cbn. by f_equal. Qed.

Lemma keys_lt_notin key (l : list kv) : Forall (fun x => lex_lt x.1 key) l -> key ∉ l.*1.
Proof.
  intros Hf (x & -> & Hx)%list_elem_of_fmap. rewrite list.Forall_forall in Hf.
  by apply (lex_lt_irrefl x.1), Hf.
Qed.
Lemma keys_gt_notin key (l : list kv) : Forall (fun x => lex_lt key x.1) l -> key ∉ l.*1.
Proof.
  intros Hf (x & -> & Hx)%list_elem_of_fmap. rewrite list.Forall_forall in Hf.
  by apply (lex_lt_irrefl x.1), Hf.
Qed.

(** In sorted entries a key occurs once. *)
Lemma keys_sorted_unique es i e :
  keys_sorted es -> es !! i = Some e ->
  (e_key e ∉ map e_key (take i es)) /\ (e_key e ∉ map e_key (drop (S i) es)).
Proof.
  intros Hs He. split; intros (x & Hx & Hin)%list_elem_of_In%in_map_iff;
    apply list_elem_of_In, list_elem_of_lookup in Hin as [j Hj].
  - apply lookup_take_Some in Hj as [Hj Hlt].
    pose proof (keys_sorted_lookup _ _ _ _ _ Hs Hj He Hlt) as Hl. unfold entry_lt in Hl.
    rewrite Hx in Hl. by apply lex_lt_irrefl in Hl.
  - rewrite lookup_drop in Hj.
    pose proof (keys_sorted_lookup _ _ _ _ _ Hs He Hj ltac:(lia)) as Hl. unfold entry_lt in Hl.
    rewrite Hx in Hl. by apply lex_lt_irrefl in Hl.
Qed.

Section leaf_map.
Context (pre post : list kv) (key : bytes) (es : list entry).
Context (Hpre : Forall (fun x => lex_lt x.1 key) pre)
        (Hpost : Forall (fun x => lex_lt key x.1) post) (Hs : keys_sorted es).

Lemma leaf_map_split i e :
  es !! i = Some e -> e_key e = key ->
  kv_map (pre ++ map pair_of es ++ post) =
    <[key := e_value e]> (kv_map (pre ++ map pair_of (delete_entry es i) ++ post)) /\
  kv_map (pre ++ map pair_of (delete_entry es i) ++ post) !! key = None.
Proof using Hpre Hpost Hs.
  intros He Hk. destruct (keys_sorted_unique es i e Hs He) as [Hn1 Hn2]. rewrite Hk in Hn1, Hn2.
  pose proof (keys_lt_notin _ _ Hpre) as Hp1. pose proof (keys_gt_notin _ _ Hpost) as Hp2.
  unfold delete_entry. split.
  - rewrite <- (take_drop_middle es i e He) at 1. rewrite !map_app. cbn [map].
    rewrite <- !app_assoc, !app_assoc, <- (app_assoc _ _ post). cbn [app].
    unfold pair_of at 2. rewrite Hk, kv_map_split; [by rewrite <- !app_assoc|].
    rewrite fmap_app, fst_pairs, not_elem_of_app. done.
  - apply kv_map_none. rewrite !fmap_app, !fst_pairs, !not_elem_of_app. done.
Qed.

Lemma leaf_map_miss :
  (forall e, e ∈ es -> e_key e <> key) -> kv_map (pre ++ map pair_of es ++ post) !! key = None.
Proof using Hpre Hpost.
  intros Hn. apply kv_map_none. rewrite !fmap_app, fst_pairs, !not_elem_of_app. split_and!.
  - by apply keys_lt_notin.
  - intros (x & Hx & Hin)%list_elem_of_In%in_map_iff. apply (Hn x); [by apply list_elem_of_In|done].
  - by apply keys_gt_notin.
Qed.

Lemma leaf_map_insert i value child :
  (forall e, e ∈ es -> e_key e <> key) -> (i <= length es)%nat ->
  kv_map (pre ++ map pair_of (insert_entry es i (mkEntry key value child)) ++ post) =
  <[key := value]> (kv_map (pre ++ map pair_of es ++ post)).
Proof using Hpre.
  intros Hn Hi. unfold insert_entry. rewrite <- (take_drop i es) at 3. rewrite !map_app. cbn [map].
  rewrite <- !app_assoc. cbn [app]. rewrite !(app_assoc pre). apply kv_map_split.
  rewrite fmap_app, fst_pairs, not_elem_of_app. split; [by apply keys_lt_notin|].
  intros (x & Hx & Hin)%list_elem_of_In%in_map_iff. apply (Hn x); [|done].
  apply list_elem_of_In in Hin. by eapply elem_of_take in Hin as (? & ? & _);
    eapply list_elem_of_lookup_2.
Qed.
End leaf_map.

(** The test every operation makes at the leaf. *)
Lemma find_pair_spec p es key :
  page_repr p es -> keys_sorted es ->
  match find_pair p key with
  | Some kv => exists i e, es !! i = Some e /\ e_key e = key /\ kv = off_of es i /\
                 find_key_position p key = Z.of_nat i
  | None => forall e, e ∈ es -> e_key e <> key
  end.
Proof.
  intros Hr Hs. pose proof (find_key_position_lb p es key Hr Hs) as (Hp & Hlo & Hhi).
  unfold find_pair. generalize dependent (find_key_position p key). intros pos Hp Hlo Hhi.
  assert (forall e i, es !! i = Some e -> e_key e = key -> Z.of_nat i = pos) as Hat.
  { intros e i He Hk. destruct (Z.lt_trichotomy (Z.of_nat i) pos) as [Hl|[?|Hl]]; [|done|].
    - specialize (Hlo _ _ He Hl). rewrite Hk in Hlo. by apply lex_lt_irrefl in Hlo.
    - destruct (lookup_lt_is_Some_2 es (Z.to_nat pos)) as [x Hx].
      { apply lookup_lt_Some in He. lia. }
      pose proof (keys_sorted_lookup _ _ _ _ _ Hs Hx He ltac:(lia)) as Hlt. unfold entry_lt in Hlt.
      specialize (Hhi _ _ Hx ltac:(lia)). rewrite Hk in Hlt. by apply lex_nlt in Hhi. }
  destruct (es !! Z.to_nat pos) as [e|] eqn:He.
  - rewrite <- (Z2Nat.id pos) by lia. rewrite (get_kv_pair_repr p es Hr _ _ He). cbn.
    destruct (kv_at_repr p es Hr _ _ He) as (-> & _). rewrite compare_keys_lex.
    destruct (lex key (e_key e)) eqn:Hl.
    + apply lex_eq in Hl. exists (Z.to_nat pos), e. split_and!; (done || lia).
    + intros x [i Hx]%list_elem_of_lookup Hk. pose proof (Hat _ _ Hx Hk).
      replace i with (Z.to_nat pos) in Hx by lia. assert (x = e) as -> by congruence.
      by rewrite Hk, lex_refl in Hl.
    + intros x [i Hx]%list_elem_of_lookup Hk. pose proof (Hat _ _ Hx Hk).
      replace i with (Z.to_nat pos) in Hx by lia. assert (x = e) as -> by congruence.
      by rewrite Hk, lex_refl in Hl.
  - apply lookup_ge_None in He. rewrite (get_kv_pair_out p es Hr) by (unfold zlen; lia). cbn.
    intros x [i Hx]%list_elem_of_lookup Hk. pose proof (Hat _ _ Hx Hk).
    apply lookup_lt_Some in Hx. lia.
Qed.

(** ** Descents over a page store *)
(** Sortedness across concatenations, and what insertion and deletion of an
    entry do to it. *)
Lemma keys_sorted_app a b :
  keys_sorted (a ++ b) <->
  keys_sorted a /\ keys_sorted b /\ (forall x y, x ∈ a -> y ∈ b -> entry_lt x y).
Proof.
  unfold keys_sorted. induction a as [|e a IH]; cbn [app].
  - split; [intros; split_and!; [constructor|done|set_solver]|naive_solver].
  - split.
    + intros Hs. inversion Hs as [|? ? Hs' Hf]; subst. apply IH in Hs' as (Ha & Hb & Hab).
      apply Forall_app in Hf as [Hfa Hfb]. split_and!; [by constructor|done|].
      intros x y [->|Hx]%elem_of_cons Hy; [|by apply Hab].
      rewrite list.Forall_forall in Hfb. by apply Hfb.
    + intros (Ha & Hb & Hab). inversion Ha as [|? ? Ha' Hf]; subst. constructor.
      * apply IH. split_and!; try done. intros x y Hx. apply Hab. by right.
      * apply Forall_app. split; [done|]. apply list.Forall_forall. intros y Hy. apply Hab; [left|done].
Qed.

Lemma entries_within_app lo hi a b :
  entries_within lo hi (a ++ b) <->
  entries_within lo hi a /\ entries_within lo hi b /\ (forall x y, x ∈ a -> y ∈ b -> entry_lt x y).
Proof. unfold entries_within. rewrite keys_sorted_app, Forall_app. naive_solver. Qed.

Lemma entries_within_delete lo hi es i :
  entries_within lo hi es -> entries_within lo hi (delete_entry es i).
Proof.
  intros Hw. unfold delete_entry. destruct (es !! i) as [e|] eqn:He.
  - rewrite <- (take_drop_middle es i e He) in Hw.
    change (e :: drop (S i) es) with ([e] ++ drop (S i) es) in Hw.
    rewrite !entries_within_app in Hw. apply entries_within_app.
    destruct Hw as (Ha & (_ & Hb & _) & Hab). split_and!; try done. intros x y Hx Hy.
    apply Hab; [done|]. apply elem_of_app. by right.
  - apply lookup_ge_None in He. rewrite take_ge, drop_ge, app_nil_r by lia. done.
Qed.

Lemma entries_within_insert lo hi es i e :
  entries_within lo hi es -> within lo hi (e_key e) -> lower_bound es (e_key e) (Z.of_nat i) ->
  (forall x, x ∈ es -> e_key x <> e_key e) -> entries_within lo hi (insert_entry es i e).
Proof.
  intros Hw He (Hi & Hlo & Hhi) Hne. unfold insert_entry.
  change (e :: drop i es) with ([e] ++ drop i es). rewrite !entries_within_app.
  rewrite <- (take_drop i es) in Hw. apply entries_within_app in Hw as (Ha & Hb & Hab).
  assert (forall x, x ∈ take i es -> entry_lt x e) as Hl.
  { intros x (j & Hj)%list_elem_of_lookup. apply lookup_take_Some in Hj as [Hj Hlt].
    apply (Hlo j x Hj). lia. }
  assert (forall x, x ∈ drop i es -> entry_lt e x) as Hh.
  { intros x (j & Hj)%list_elem_of_lookup. rewrite lookup_drop in Hj.
    specialize (Hhi _ _ Hj ltac:(lia)). apply lex_le_alt in Hhi as [?|E]; [done|].
    exfalso. apply (Hne x); [by eapply list_elem_of_lookup_2|done]. }
  split_and!; try done.
  - split; [repeat constructor|by apply Forall_singleton].
  - intros x y ->%list_elem_of_singleton Hy. by apply Hh.
  - intros x y Hx [->%list_elem_of_singleton|Hy]%elem_of_app; [by apply Hl|by apply Hab].
Qed.

(** Page-level updates keep a page well formed. *)
Lemma write_at_bytes off x l : Forall is_byte x -> Forall is_byte l -> Forall is_byte (write_at off x l).
Proof.
  intros. unfold write_at, ztake, zdrop. repeat (apply Forall_app; split); auto using Forall_take, Forall_drop.
Qed.

Lemma set_header_fields_wf h k f :
  header_wf h -> 0 <= k <= UINT16_MAX -> 0 <= f <= UINT16_MAX -> header_wf (set_header_fields h k f).
Proof. intros [] ? ?. by constructor. Qed.

Lemma repr_wf h d es page :
  page_wf page -> page_repr (mkPage (set_header_fields (header page) (key_count h) (free_space h)) d) es ->
  Forall is_byte d -> page_wf (mkPage (set_header_fields (header page) (key_count h) (free_space h)) d).
Proof.
  intros [Hh _ _] Hr Hd. destruct (page_repr_bounds _ _ Hr) as [Hk Hf]. cbn in Hk, Hf.
  constructor; cbn; [|by destruct Hr as (? & _ & ? & _)|done].
  apply set_header_fields_wf; unfold UINT16_MAX; [done|lia|lia].
Qed.

Lemma insert_kv_pair_wf page es i e page' :
  page_wf page -> page_repr page' es -> Forall is_byte (e_key e) -> Forall is_byte (e_value e) ->
  insert_kv_pair page i (e_key e) (e_value e) (e_child e) = Some page' -> page_wf page'.
Proof.
  intros Hwf Hr Hk Hv. unfold insert_kv_pair. case_match; [done|]. case_match; [done|].
  destruct (walk_pairs _ _ _ _) as [off|]; [|done]. cbn [mbind option_bind]. intros <-%(inj Some).
  match type of Hr with page_repr (mkPage _ ?d) _ =>
    apply (repr_wf (mkHeader 0 0 _ _ 0 0 0 0 0 []) d es page Hwf Hr) end.
  apply write_at_bytes.
  - repeat (apply Forall_app; split); auto using le_encode_bytes.
  - case_match; [|apply Hwf]. apply write_at_bytes; [|apply Hwf]. apply sub_bytes, Hwf.
Qed.

Lemma delete_kv_pair_wf page es i page' :
  page_wf page -> page_repr page' es -> delete_kv_pair page i = Some page' -> page_wf page'.
Proof.
  intros Hwf Hr. unfold delete_kv_pair. case_match; [done|].
  destruct (get_kv_pair _ _) as [off|]; [|done]. cbn.
  case_match; [done|]. case_match; [done|]. intros [= <-].
  match type of Hr with page_repr (mkPage _ ?d) _ =>
    apply (repr_wf (mkHeader 0 0 _ _ 0 0 0 0 0 []) d es page Hwf Hr) end.
  case_match; [|apply Hwf]. apply write_at_bytes; [|apply Hwf]. apply sub_bytes, Hwf.
Qed.

(** Entries are no larger than [db_insert] lets them be; an entry of an
    internal page carries no value. *)
Definition entry_sized (ty : Z) (e : entry) : Prop :=
  zlen (e_key e) <= MAX_KEY_SIZE /\
  zlen (e_value e) <= (if ty =? PAGE_TYPE_LEAF then MAX_VALUE_SIZE else 0).
Definition page_sized (p : btree_page) : Prop :=
  exists es, page_repr p es /\ Forall (entry_sized (page_type (header p))) es.

#[global] Instance page_sized_proper : Proper (page_equiv ==> iff) page_sized.
Proof.
  intros p q Hpq. unfold page_sized. destruct (page_equiv_fields _ _ Hpq) as (_ & Ht & _).
  rewrite Ht. split; intros (es & Hr & Hf); exists es; (split; [|done]); by rewrite ?Hpq in *.
Qed.

Lemma page_sized_entries p es :
  page_sized p -> page_repr p es -> Forall (entry_sized (page_type (header p))) es.
Proof. intros (es' & Hr' & Hf) Hr. by rewrite (page_repr_inj _ _ _ Hr Hr'). Qed.

Section store.
Context {S : Type} `{PageStoreLaws S} (root_page_id : Z).

Abbreviation delta j id := (if decide (j = id) then 1 else 0).

(** A step that loses no page and leaves the allocator alone. *)
Record kept (s s' : S) : Prop := {
  kp_inv : ps_inv ∅ s';
  kp_view : forall j p, page_ref j -> ps_view s j = Some p -> ps_view s' j = Some p;
  kp_used : forall j, ps_used s' j <-> ps_used s j }.

Lemma kept_refl s : ps_inv ∅ s -> kept s s.
Proof using. by constructor. Qed.
Lemma kept_trans s1 s2 s3 : kept s1 s2 -> kept s2 s3 -> kept s1 s3.
Proof using.
  intros [H1 H2 H3] [H4 H5 H6]. constructor; [done|eauto|].
  intros j. by rewrite H6.
Qed.

Lemma get_kept s id lk r s' :
  ps_inv ∅ s -> page_ref id -> ps_get_page id lk s = (r, s') -> kept s s'.
Proof using.
  intros Hi Hid Hg. by destruct (ps_get_law _ _ _ _ _ _ Hi Hid Hg) as (? & ? & ? & _).
Qed.

(** Dropping a pin. *)
Lemma release_step s id lk :
  ps_inv ∅ s -> 0 < ps_pins s id ->
  let s' := ps_release_page id lk s in
  kept s s' /\ (forall j, ps_view s' j = ps_view s j) /\
  (forall j, ps_pins s' j = ps_pins s j - delta j id) /\
  (forall j, ps_resident s' j <-> ps_resident s j).
Proof using.
  intros Hi Hp s'. destruct (ps_release_law ∅ s id lk Hi Hp ltac:(set_solver)) as (? & Hv & ? & ? & ?).
  split_and!; try done. constructor; try done. intros j p _. by rewrite Hv.
Qed.

Definition pins_nonneg (s : S) : Prop := forall j, 0 <= ps_pins s j.

Lemma route_frame v v' key path :
  (forall x p, x ∈ path -> v x = Some p -> v' x = Some p) -> route v key path -> route v' key path.
Proof using.
  induction path as [|id rest IH]; intros Hf; [done|]. destruct rest as [|c rest].
  - intros (p & Hp & Ht). exists p. split; [|done]. apply Hf; [left|done].
  - intros [(p & Hp & Hrest) Hr]. split.
    + exists p. split; [|done]. apply Hf; [left|done].
    + apply IH; [|done]. intros x q Hx. apply Hf. by right.
Qed.

(** The outcome of a descent along [path]: its leaf is pinned, or a page could
    not be brought in, which does not happen when [all] holds, a condition
    that makes the whole path resident. *)
Definition descended (all : Prop) (path : list Z) (s : S) (r : descent) (s' : S) : Prop :=
  kept s s' /\
  match r with
  | DLeaf leaf p => list.last path = Some leaf /\ ps_view s' leaf = Some p /\
      (forall j, ps_pins s' j = ps_pins s j + delta j leaf) /\
      (all -> forall j, ps_resident s' j <-> ps_resident s j)
  | DFail => ~ all /\ (forall j, ps_pins s' j = ps_pins s j)
  | DRunning => False
  end.

Lemma descend_loop_spec (all : Prop) fuel key lk id path page s0 s r s' :
  route (ps_view s) key (id :: path) -> Forall page_ref (id :: path) ->
  (length path <= fuel)%nat -> kept s0 s -> ps_view s id = Some page ->
  (forall j, ps_pins s j = ps_pins s0 j + delta j id) -> pins_nonneg s0 ->
  (all -> Forall (ps_resident s0) path) ->
  (all -> forall j, ps_resident s j <-> ps_resident s0 j) ->
  descend_loop fuel key lk id page s = (r, s') ->
  descended all (id :: path) s0 r s'.
Proof using.
  revert fuel id page s. induction path as [|c path IH];
    intros fuel id page s Hr Href Hlen Hk Hv Hpin Hnn Hall Hres.
  - destruct Hr as (p & Hp & Ht). assert (p = page) as -> by congruence.
    assert (descend_loop fuel key lk id page s = (DLeaf id page, s)) as ->.
    { destruct fuel; simpl; rewrite (proj2 (Z.eqb_neq _ _) Ht); done. }
    intros [= <- <-]. split; [done|]. split_and!; done.
  - destruct Hr as [(p & Hp & Ht & Hc & Hne) Hr]. assert (p = page) as -> by congruence.
    destruct fuel as [|fuel]; [cbn in Hlen; lia|]. cbn [descend_loop].
    rewrite (proj2 (Z.eqb_eq _ _) Ht). cbn [negb]. rewrite Hc.
    assert (0 < ps_pins s id) as Hp0.
    { rewrite Hpin, decide_True by done. specialize (Hnn id). lia. }
    destruct (release_step s id lk (kp_inv _ _ Hk) Hp0) as (Hk1 & Hv1 & Hp1 & Hr1).
    set (s1 := ps_release_page id lk s) in *. clearbody s1. clear Hc.
    pose proof (Forall_inv_tail Href) as Href'. pose proof (Forall_inv Href') as Hcref.
    destruct (ps_get_page c lk s1) as [r1 s2] eqn:Hg.
    destruct (ps_get_law _ _ _ _ _ _ (kp_inv _ _ Hk1) Hcref Hg) as (Hi2 & Hv2 & Hu2 & Hr2).
    pose proof (get_kept _ _ _ _ _ (kp_inv _ _ Hk1) Hcref Hg) as Hk2.
    assert (kept s s2) as Hk02 by (by eapply kept_trans).
    assert (all -> ps_resident s1 c) as Hcres.
    { intros HA. rewrite Hr1, (Hres HA). by apply Hall, Forall_inv in HA. }
    destruct r1 as [p1|]; cycle 1.
    + intros [= <- <-]. destruct Hr2 as [Hnr Hp2]. split; [by eapply kept_trans|]. split.
      * intros HA. by apply Hnr, Hcres.
      * intros j. rewrite Hp2, Hp1, Hpin. case_decide; lia.
    + intros Hd. destruct Hr2 as (Hv2' & Hp2 & Hres2).
      assert (descended all (c :: path) s0 r s') as [? Hdr].
      { apply (IH fuel c p1 s2); try done.
        - eapply route_frame; [|exact Hr]. intros x q Hx. apply (kp_view _ _ Hk02).
          rewrite list.Forall_forall in Href'. by apply Href'.
        - cbn in Hlen; lia.
        - by eapply kept_trans.
        - intros j. rewrite Hp2, Hp1, Hpin. repeat case_decide; lia.
        - intros HA. by apply Hall, Forall_inv_tail in HA.
        - intros HA j. by rewrite (Hres2 (Hcres HA)), Hr1, (Hres HA). }
      split; [done|]. by destruct r.
Qed.

Lemma descend_to_leaf_spec (all : Prop) fuel key lk path s r s' :
  ps_inv ∅ s -> head path = Some root_page_id -> route (ps_view s) key path ->
  Forall page_ref path -> (length path <= fuel)%nat -> pins_nonneg s ->
  (all -> Forall (ps_resident s) path) ->
  descend_to_leaf root_page_id fuel key lk s = (r, s') -> descended all path s r s'.
Proof using.
  intros Hi Hh Hr Href Hlen Hnn Hall. destruct path as [|id path]; [done|].
  injection Hh as ->. unfold descend_to_leaf. pose proof (Forall_inv Href) as Hid.
  destruct (ps_get_page root_page_id lk s) as [[p|] s1] eqn:Hg;
    destruct (ps_get_law _ _ _ _ _ _ Hi Hid Hg) as (Hi1 & Hv1 & Hu1 & Hr1);
    pose proof (get_kept _ _ _ _ _ Hi Hid Hg) as Hk1.
  - destruct Hr1 as (Hv & Hp & Hres).
    eapply descend_loop_spec; try done.
    + eapply route_frame; [|exact Hr]. intros x q Hx. apply (kp_view _ _ Hk1).
      rewrite list.Forall_forall in Href. by apply Href.
    + cbn in Hlen; lia.
    + intros HA. by apply Hall, Forall_inv_tail in HA.
    + intros HA. apply Hres. by apply Hall, Forall_inv in HA.
  - intros [= <- <-]. destruct Hr1 as [Hnr Hp]. split; [done|]. split; [|done].
    intros HA. by apply Hall, Forall_inv in HA.
Qed.

Lemma descend_path_loop_spec (all : Prop) levels key id path acc s r s' :
  route (ps_view s) key (id :: path) -> Forall page_ref (id :: path) ->
  ps_inv ∅ s -> pins_nonneg s ->
  (all -> Forall (ps_resident s) (id :: path)) ->
  descend_path_loop levels key id acc s = (r, s') ->
  kept s s' /\ (forall j, ps_pins s' j = ps_pins s j) /\
  (all -> forall j, ps_resident s' j <-> ps_resident s j) /\
  (r = Some (acc ++ id :: path) /\ (length path < levels)%nat \/
   r = None /\ (~ all \/ (levels <= length path)%nat)).
Proof using.
  revert levels id acc s. induction path as [|c path IH];
    intros [|levels] id acc s Hr Href Hi Hnn Hall; cbn [length];
    (try (intros [= <- <-]; split_and!; [by apply kept_refl|done|done|]; right; split; [done|];
          right; lia)); cbn [descend_path_loop]; pose proof (Forall_inv Href) as Hid;
    (destruct (ps_get_page id LOCK_NONE s) as [[p|] s1] eqn:Hg;
     destruct (ps_get_law _ _ _ _ _ _ Hi Hid Hg) as (Hi1 & Hv1 & Hu1 & Hr1);
     pose proof (get_kept _ _ _ _ _ Hi Hid Hg) as Hk1; cycle 1;
     [intros [= <- <-]; destruct Hr1 as [Hnr Hp]; split_and!; try done;
      [intros HA; by apply Hall, Forall_inv in HA|
       right; split; [done|]; left; intros HA; by apply Hall, Forall_inv in HA]|]);
    destruct Hr1 as (Hv & Hp1 & Hres1);
    (assert (0 < ps_pins s1 id) as Hp0 by
      (rewrite Hp1, decide_True by done; specialize (Hnn id); lia));
    destruct (release_step s1 id LOCK_NONE Hi1 Hp0) as (Hk2 & Hv2 & Hp2 & Hr2);
    set (s2 := ps_release_page id LOCK_NONE s1) in *;
    assert (kept s s2) as Hk02 by (by eapply kept_trans);
    (assert (forall j, ps_pins s2 j = ps_pins s j) as Hp02 by
      (intros j; rewrite Hp2, Hp1; lia));
    (assert (all -> forall j, ps_resident s2 j <-> ps_resident s j) as Hres02 by
      (intros HA j; rewrite Hr2; apply Hres1; by apply Hall, Forall_inv in HA)).
  - destruct Hr as (q & Hq & Ht). apply (Hv1 _ _ Hid) in Hq. assert (q = p) as -> by congruence.
    rewrite (proj2 (Z.eqb_neq _ _) Ht). intros [= <- <-]. split_and!; try done. left. split; [done|lia].
  - destruct Hr as [(q & Hq & Ht & Hc & Hne) Hr]. apply (Hv1 _ _ Hid) in Hq.
    assert (q = p) as -> by congruence. rewrite (proj2 (Z.eqb_eq _ _) Ht). cbn [negb].
    rewrite Hc. pose proof (Forall_inv_tail Href) as Href'. pose proof (Forall_inv Href') as Hcr.
    assert (c <> 0) as Hc0 by (unfold page_ref in Hcr; lia).
    rewrite (proj2 (Z.eqb_neq _ _) Hc0), (proj2 (Z.eqb_neq _ _) Hne). cbn [orb]. intros Hd.
    destruct (IH levels c (acc ++ [id]) s2) as (Hk & Hp & Hrs & Hout); try done.
    + eapply route_frame; [|exact Hr]. intros x y Hx. apply (kp_view _ _ Hk02).
      rewrite list.Forall_forall in Href'. by apply Href'.
    + apply Hk02.
    + intros j. rewrite Hp02. apply Hnn.
    + intros HA. pose proof (Hall HA) as Hal. apply Forall_inv_tail in Hal.
      eapply list.Forall_impl; [exact Hal|]. intros x. by rewrite (Hres02 HA).
    + split_and!.
      * by eapply kept_trans.
      * intros j. by rewrite Hp.
      * intros HA j. by rewrite (Hrs HA), (Hres02 HA).
      * rewrite <- app_assoc in Hout. destruct Hout as [[-> ?]|[-> [?|?]]];
          [left; split; [done|lia]|right; auto|right; split; [done|right; lia]].
Qed.

(** ** The map a database state holds *)
Record db_inv (s : S) (ids : list Z) (kvs : list kv) : Prop := {
  di_store : ps_inv ∅ s;
  di_pins : pins_nonneg s;
  di_tree : exists d lvs, (d < BTREE_MAX_DEPTH)%nat /\
    node (ps_view s) d root_page_id None None kvs ids lvs /\ leaf_chain (ps_view s) lvs;
  di_nodup : NoDup ids;
  di_ref : Forall page_ref ids;
  di_used : Forall (ps_used s) ids;
  di_sized : forall x p, x ∈ ids -> ps_view s x = Some p -> page_sized p }.

Lemma db_inv_kept s s' ids kvs :
  db_inv s ids kvs -> kept s s' -> pins_nonneg s' -> db_inv s' ids kvs.
Proof using.
  intros [Hi Hp (d & lvs & Hd & Hn & Hc) Hnd Href Hu Hsz] Hk Hp'.
  assert (forall x p, x ∈ ids -> ps_view s x = Some p -> ps_view s' x = Some p) as Hv.
  { intros x p Hx. apply (kp_view _ _ Hk). rewrite list.Forall_forall in Href. by apply Href. }
  constructor; try done.
  - apply Hk.
  - exists d, lvs. split_and!; [done|by eapply node_frame|].
    eapply leaf_chain_frame; [|exact Hc]. intros x p Hx Hvx. exists p. split; [|done].
    apply Hv; [|done]. by apply (node_leaves_sub _ _ _ _ _ _ _ _ Hn).
  - eapply list.Forall_impl; [exact Hu|]. intros x. apply Hk.
  - intros x p Hx Hp1. destruct (node_page_some _ _ _ _ _ _ _ _ _ Hn Hx) as [q Hq].
    rewrite (Hv x q Hx Hq) in Hp1. injection Hp1 as <-. by eapply Hsz.
Qed.

(** The leaf [key] belongs to, in a database state. *)
Lemma db_inv_routed s ids kvs key :
  db_inv s ids kvs ->
  exists d lvs path leaf p es lo hi pre post lpre lpost, (d < BTREE_MAX_DEPTH)%nat /\
    routed (ps_view s) d root_page_id None None kvs ids lvs key path leaf p es lo hi pre post lpre lpost /\
    leaf_chain (ps_view s) lvs /\ Forall page_ref path /\ page_ref leaf /\ leaf ∈ ids.
Proof using.
  intros [Hi Hp (d & lvs & Hd & Hn & Hc) Hnd Href Hu _].
  destruct (node_routed _ _ _ _ _ _ _ _ key Hn Hnd ltac:(done))
    as (path & leaf & p & es & lo & hi & pre & post & lpre & lpost & Hrt).
  exists d, lvs, path, leaf, p, es, lo, hi, pre, post, lpre, lpost.
  assert (leaf ∈ ids) as Hlf.
  { apply (rt_sub _ _ _ _ _ _ _ _ _ _ _ _ _ _ _ _ _ _ _ Hrt).
    eapply list.last_Some_elem_of, Hrt. }
  rewrite list.Forall_forall in Href. split_and!; try done; [|by apply Href].
  apply list.Forall_forall. intros x Hx. by apply Href, Hrt.
Qed.

(** Exchanging the entries of one leaf. *)
Lemma db_inv_put s s' ids kvs d lvs key path leaf p es lo hi pre post lpre lpost p' es' :
  db_inv s ids kvs -> (d < BTREE_MAX_DEPTH)%nat ->
  routed (ps_view s) d root_page_id None None kvs ids lvs key path leaf p es lo hi pre post lpre lpost ->
  leaf_chain (ps_view s) lvs ->
  (forall x q, x <> leaf -> page_ref x -> ps_view s x = Some q -> ps_view s' x = Some q) ->
  ps_inv ∅ s' -> pins_nonneg s' -> (forall j, ps_used s' j <-> ps_used s j) ->
  ps_view s' leaf = Some p' -> page_repr p' es' -> page_type (header p') = PAGE_TYPE_LEAF ->
  next_page_id (header p') = next_page_id (header p) -> entries_within lo hi es' -> page_sized p' ->
  db_inv s' ids (pre ++ map pair_of es' ++ post).
Proof using.
  intros [Hi Hp (d0 & lvs0 & _ & Hn0 & _) Hnd Href Hu Hsz] Hd Hrt Hc Hv Hi' Hp' Hu' Hl Hr Ht Hnx Hw Hsz'.
  assert (forall x q, x <> leaf -> x ∈ ids -> ps_view s x = Some q -> ps_view s' x = Some q) as Hv'.
  { intros x q Hne Hx. apply Hv; [done|]. rewrite list.Forall_forall in Href. by apply Href. }
  assert (node (ps_view s') d root_page_id None None (pre ++ map pair_of es' ++ post) ids lvs) as Hn.
  { by eapply (rt_put _ _ _ _ _ _ _ _ _ _ _ _ _ _ _ _ _ _ _ Hrt (ps_view s') p'). }
  constructor; try done.
  - exists d, lvs. split_and!; try done. eapply leaf_chain_frame; [|exact Hc].
    intros x q Hx Hq. destruct (decide (x = leaf)) as [->|Hne].
    + exists p'. split; [done|]. pose proof (rt_page _ _ _ _ _ _ _ _ _ _ _ _ _ _ _ _ _ _ _ Hrt). congruence.
    + exists q. split; [|done]. apply Hv'; [done| |done].
      by apply (node_leaves_sub _ _ _ _ _ _ _ _ Hn).
  - eapply list.Forall_impl; [exact Hu|]. intros x. apply Hu'.
  - intros x q Hx Hq. destruct (decide (x = leaf)) as [->|Hne]; [by simplify_eq|].
    destruct (node_page_some _ _ _ _ _ _ _ _ _ Hn0 Hx) as [y Hy].
    rewrite (Hv' x y Hne Hx Hy) in Hq. injection Hq as <-. by eapply Hsz.
Qed.

(** ** Search *)
Definition search_result (kvs : list kv) (key : bytes) (cap : Z) : Z * bytes * Z :=
  match kv_map kvs !! key with
  | Some value => (0, ztake (Z.min (zlen value) cap) value, zlen value)
  | None => (-1, [], cap)
  end.

(** The pages of the tree are all buffered: no operation has to do IO. *)
Definition all_resident (s : S) (ids : list Z) : Prop := Forall (ps_resident s) ids.

Lemma kv_value_length_repr p es i e :
  page_repr p es -> es !! i = Some e -> kv_value_length (data p) (off_of es i) = zlen (e_value e).
Proof using.
  intros Hr He. pose proof (kv_at_repr p es Hr i e He) as (_ & _ & _ & Hk & Hsz).
  unfold kv_size, entry_size in Hsz. lia.
Qed.

Lemma routed_frame v v' d id lo hi kvs ids lvs key path leaf p es lo' hi' pre post lpre lpost :
  (forall x p, x ∈ ids -> v x = Some p -> v' x = Some p) -> lvs ⊆ ids -> leaf ∈ ids ->
  routed v d id lo hi kvs ids lvs key path leaf p es lo' hi' pre post lpre lpost ->
  routed v' d id lo hi kvs ids lvs key path leaf p es lo' hi' pre post lpre lpost.
Proof using.
  intros Hf Hlv Hlf []. constructor; try done.
  - eapply route_frame; [|exact rt_route0]. intros x q Hx. apply Hf. by apply rt_sub0.
  - by apply Hf.
  - eapply leaf_run_frame; [|exact rt_run0]. intros x q Hx. apply Hf. subst lvs. set_solver.
  - intros v'' p' es' Hv. apply rt_put0. intros x q Hx Hxi Hq. apply Hv; auto.
Qed.

(** What a descent to the leaf of [key] leaves behind. *)
Record at_leaf (s s1 : S) (ids : list Z) (kvs : list kv) (key : bytes) (leaf : Z) (p : btree_page)
    (d : nat) (lvs path : list Z) (es : list entry) (lo hi : option bytes)
    (pre post : list kv) (lpre lpost : list Z) : Prop := {
  al_depth : (d < BTREE_MAX_DEPTH)%nat;
  al_rt : routed (ps_view s1) d root_page_id None None kvs ids lvs key path leaf p es lo hi pre post
            lpre lpost;
  al_chain : leaf_chain (ps_view s1) lvs;
  al_ref : page_ref leaf;
  al_in : leaf ∈ ids;
  al_db : db_inv s1 ids kvs;
  al_kept : kept s s1;
  al_pins : forall j, ps_pins s1 j = ps_pins s j + delta j leaf;
  al_res : all_resident s ids -> forall j, ps_resident s1 j <-> ps_resident s j }.

Lemma at_leaf_pinned s s1 ids kvs key leaf p d lvs path es lo hi pre post lpre lpost :
  at_leaf s s1 ids kvs key leaf p d lvs path es lo hi pre post lpre lpost ->
  pins_nonneg s -> 0 < ps_pins s1 leaf.
Proof using. intros [] Hp. rewrite al_pins0, decide_True by done. specialize (Hp leaf). lia. Qed.

Lemma al_sized s s1 ids kvs key leaf p d lvs path es lo hi pre post lpre lpost :
  at_leaf s s1 ids kvs key leaf p d lvs path es lo hi pre post lpre lpost -> page_sized p.
Proof using. intros [_ Hrt _ _ Hlf Hdb _ _ _]. eapply (di_sized _ _ _ Hdb); [exact Hlf|apply Hrt]. Qed.

Lemma db_descend fuel key lk s ids kvs dr s1 :
  db_inv s ids kvs -> (BTREE_MAX_DEPTH <= fuel)%nat ->
  descend_to_leaf root_page_id fuel key lk s = (dr, s1) ->
  match dr with
  | DRunning => False
  | DFail => db_inv s1 ids kvs /\ (forall j, ps_pins s1 j = ps_pins s j) /\ ~ all_resident s ids
  | DLeaf leaf p => exists d lvs path es lo hi pre post lpre lpost,
      at_leaf s s1 ids kvs key leaf p d lvs path es lo hi pre post lpre lpost
  end.
Proof using.
  intros Hdb Hfuel Edl.
  destruct (db_inv_routed s ids kvs key Hdb) as (d & lvs & path & leaf & p & es & lo & hi & pre & post
    & lpre & lpost & Hd & Hrt & Hc & Hpr & Hlr & Hlf).
  assert (descended (all_resident s ids) path s dr s1) as [Hk Hdr].
  { apply (descend_to_leaf_spec _ fuel key lk); try done; try apply Hdb; try apply Hrt.
    - rewrite (rt_len _ _ _ _ _ _ _ _ _ _ _ _ _ _ _ _ _ _ _ Hrt). lia.
    - unfold all_resident. rewrite !list.Forall_forall. intros Hall x Hx. by apply Hall, Hrt. }
  destruct dr as [| |l1 p1]; [done| |].
  - destruct Hdr as [Hnr Hpn]. split_and!; try done.
    eapply db_inv_kept; [exact Hdb|done|]. intros j. rewrite Hpn. apply Hdb.
  - destruct Hdr as (Hl & Hv1 & Hpn & Hres).
    pose proof (rt_last _ _ _ _ _ _ _ _ _ _ _ _ _ _ _ _ _ _ _ Hrt) as Hl'.
    assert (l1 = leaf) as -> by congruence.
    pose proof (kp_view _ _ Hk _ _ Hlr (rt_page _ _ _ _ _ _ _ _ _ _ _ _ _ _ _ _ _ _ _ Hrt)) as Hv.
    assert (p1 = p) as -> by congruence.
    assert (db_inv s1 ids kvs) as Hdb1.
    { eapply db_inv_kept; [exact Hdb|done|]. intros j. rewrite Hpn.
      pose proof (di_pins _ _ _ Hdb j). case_decide; lia. }
    assert (forall x q, x ∈ ids -> ps_view s x = Some q -> ps_view s1 x = Some q) as Hf.
    { intros x q Hx. apply (kp_view _ _ Hk). pose proof (di_ref _ _ _ Hdb) as Hr.
      rewrite list.Forall_forall in Hr. by apply Hr. }
    assert (lvs ⊆ ids) as Hsub.
    { eapply node_leaves_sub, (rt_put _ _ _ _ _ _ _ _ _ _ _ _ _ _ _ _ _ _ _ Hrt (ps_view s) p es);
        try apply Hrt. done. }
    exists d, lvs, path, es, lo, hi, pre, post, lpre, lpost. constructor; try done.
    + by eapply routed_frame.
    + eapply leaf_chain_frame; [|exact Hc]. intros x q Hx Hq. exists q. split; [|done]. auto.
Qed.

Lemma db_search_spec fuel t key cap s ids kvs r s' :
  db_inv s ids kvs -> txn_is_active t = true -> (BTREE_MAX_DEPTH <= fuel)%nat ->
  db_search root_page_id fuel (Some t) key cap s = (r, s') ->
  db_inv s' ids kvs /\ (forall j, ps_pins s' j = ps_pins s j) /\
  (r = Some (search_result kvs key cap) \/ r = Some (-1, [], cap) /\ ~ all_resident s ids).
Proof using.
  intros Hdb Hact Hfuel. unfold db_search. rewrite Hact. cbn [negb].
  destruct (descend_to_leaf root_page_id fuel key LOCK_SHARED s) as [dr s1] eqn:Edl.
  pose proof (db_descend _ _ _ _ _ _ _ _ Hdb Hfuel Edl) as Hdr.
  destruct dr as [| |leaf p]; [done| |].
  { intros [= <- <-]. destruct Hdr as (? & ? & ?). split_and!; try done. by right. }
  destruct Hdr as (d & lvs & path & es & lo & hi & pre & post & lpre & lpost & Hal).
  pose proof (at_leaf_pinned _ _ _ _ _ _ _ _ _ _ _ _ _ _ _ _ _ Hal (di_pins _ _ _ Hdb)) as Hp0.
  destruct Hal as [Hd Hrt Hc Hlr Hlf Hdb1 Hk Hpn _].
  destruct (release_step s1 leaf LOCK_SHARED (kp_inv _ _ Hk) Hp0) as (Hk2 & _ & Hp2 & _).
  set (s2 := ps_release_page leaf LOCK_SHARED s1) in *.
  assert (forall j, ps_pins s2 j = ps_pins s j) as Hp02 by (intros j; rewrite Hp2, Hpn; lia).
  assert (db_inv s2 ids kvs) as Hdb2.
  { eapply db_inv_kept; [exact Hdb1|done|]. intros j. rewrite Hp02. apply Hdb. }
  destruct Hrt. pose proof (find_pair_spec p es key rt_repr0 (proj1 rt_es0)) as Hfp.
  unfold search_result. subst kvs.
  destruct (find_pair p key) as [kv|]; intros [= <- <-]; split_and!; try done; left.
  - destruct Hfp as (i & e & He & Hke & -> & _).
    destruct (leaf_map_split pre post key es rt_pre0 rt_post0 (proj1 rt_es0) i e He Hke) as [-> _].
    rewrite lookup_insert_eq. destruct (kv_at_repr p es rt_repr0 _ _ He) as (_ & -> & _).
    rewrite (kv_value_length_repr p es i e) by done. repeat f_equal.
    destruct (Z.ltb_spec (zlen (e_value e)) cap); lia.
  - by rewrite (leaf_map_miss pre post key es).
Qed.

(** ** Updates of a leaf *)
Record quiet (s s' : S) : Prop := {
  qt_inv : ps_inv ∅ s';
  qt_view : forall j, ps_view s' j = ps_view s j;
  qt_pins : forall j, ps_pins s' j = ps_pins s j;
  qt_used : forall j, ps_used s' j <-> ps_used s j;
  qt_res : forall j, ps_resident s' j <-> ps_resident s j }.

Lemma log_change_quiet txn ty id d s : ps_inv ∅ s -> quiet s (log_change txn ty id d s).
Proof using.
  intros Hi. unfold log_change. destruct (ps_enable_wal s); [|by constructor].
  destruct (ps_write_wal_record txn ty id d s) as [r s'] eqn:E.
  destruct (ps_log_law _ _ _ _ _ _ _ _ Hi E) as (? & ? & ? & ? & ?). by constructor.
Qed.

Lemma quiet_kept s s' : quiet s s' -> kept s s'.
Proof using. intros []. constructor; try done. intros j p _. by rewrite qt_view0. Qed.

Lemma write_leaf_step s id lk p :
  ps_inv ∅ s -> 0 < ps_pins s id -> page_wf p ->
  let s' := ps_release_page id lk (ps_mark_page_dirty id (ps_store_page id p s)) in
  ps_inv ∅ s' /\ (exists q, ps_view s' id = Some q /\ page_equiv p q) /\
  (forall j, j <> id -> ps_view s' j = ps_view s j) /\
  (forall j, ps_pins s' j = ps_pins s j - delta j id) /\
  (forall j, ps_used s' j <-> ps_used s j) /\ (forall j, ps_resident s' j <-> ps_resident s j).
Proof using.
  intros Hi Hp Hwf s'.
  destruct (ps_store_law ∅ s id p Hi Hp Hwf) as (Hi1 & Hv1 & Hvo1 & Hp1 & Hu1 & Hr1).
  set (s1 := ps_store_page id p s) in *.
  assert (0 < ps_pins s1 id) as Hpin1 by (by rewrite Hp1).
  destruct (ps_dirty_law _ s1 id p Hi1 Hpin1 Hv1) as (Hi2 & Hv2 & Hvo2 & Hp2 & Hu2 & Hr2).
  set (s2 := ps_mark_page_dirty id s1) in *.
  assert ((({[id]} ∪ ∅) ∖ {[id]} : gset Z) = ∅) as E by set_solver. rewrite E in Hi2.
  assert (0 < ps_pins s2 id) as Hpin2 by (by rewrite Hp2).
  destruct (release_step s2 id lk Hi2 Hpin2) as (Hk3 & Hv3 & Hp3 & Hr3).
  fold s' in Hk3, Hv3, Hp3, Hr3. split_and!.
  - apply Hk3.
  - by rewrite Hv3.
  - intros j Hj. by rewrite Hv3, Hvo2, Hvo1.
  - intros j. by rewrite Hp3, Hp2, Hp1.
  - intros j. by rewrite (kp_used _ _ Hk3), Hu2, Hu1.
  - intros j. by rewrite Hr3, Hr2, Hr1.
Qed.

(** Writing new entries to the leaf a descent pinned. *)
Lemma at_leaf_write s s1 s2 ids kvs key leaf p d lvs path es lo hi pre post lpre lpost lk p' es' :
  at_leaf s s1 ids kvs key leaf p d lvs path es lo hi pre post lpre lpost ->
  pins_nonneg s -> quiet s1 s2 -> page_wf p' -> page_repr p' es' -> entries_within lo hi es' ->
  page_type (header p') = page_type (header p) ->
  next_page_id (header p') = next_page_id (header p) -> page_sized p' ->
  let s' := ps_release_page leaf lk (ps_mark_page_dirty leaf (ps_store_page leaf p' s2)) in
  db_inv s' ids (pre ++ map pair_of es' ++ post) /\ (forall j, ps_pins s' j = ps_pins s j).
Proof using.
  intros Hal Hnn [Hi2 Hv2 Hp2 Hu2 Hr2] Hwf Hr Hw Ht Hnx Hsz s'.
  pose proof (at_leaf_pinned _ _ _ _ _ _ _ _ _ _ _ _ _ _ _ _ _ Hal Hnn) as Hp0.
  destruct Hal as [Hd Hrt Hc Hlr Hlf Hdb1 Hk Hpn _].
  destruct (write_leaf_step s2 leaf lk p' Hi2) as (Hi' & (q & Hq & Heq) & Hv' & Hp' & Hu' & Hr');
    [by rewrite Hp2|done|]. fold s' in Hi', Hq, Hv', Hp', Hu'.
  assert (forall j, ps_pins s' j = ps_pins s j) as Hpp by (intros j; rewrite Hp', Hp2, Hpn; lia).
  split; [|done].
  apply (db_inv_put s1 s' ids kvs d lvs key path leaf p es lo hi pre post lpre lpost q es'); try done.
  - intros x y Hx _. rewrite Hv', Hv2 by done. done.
  - intros j. rewrite Hpp. apply Hnn.
  - intros j. by rewrite Hu', Hu2.
  - by rewrite <- Heq.
  - destruct (page_equiv_fields _ _ Heq) as (_ & <- & _). rewrite Ht. apply Hrt.
  - destruct (page_equiv_fields _ _ Heq) as (_ & _ & _ & _ & <- & _). done.
  - by rewrite <- Heq.
Qed.

(** Leaving the leaf as it is. *)
Lemma at_leaf_leave s s1 s2 ids kvs key leaf p d lvs path es lo hi pre post lpre lpost lk :
  at_leaf s s1 ids kvs key leaf p d lvs path es lo hi pre post lpre lpost ->
  pins_nonneg s -> quiet s1 s2 ->
  let s' := ps_release_page leaf lk s2 in
  db_inv s' ids kvs /\ (forall j, ps_pins s' j = ps_pins s j).
Proof using.
  intros Hal Hnn Hq s'.
  pose proof (at_leaf_pinned _ _ _ _ _ _ _ _ _ _ _ _ _ _ _ _ _ Hal Hnn) as Hp0.
  destruct Hal as [Hd Hrt Hc Hlr Hlf Hdb1 Hk Hpn _].
  destruct (release_step s2 leaf lk (qt_inv _ _ Hq)) as (Hk2 & _ & Hp2 & _).
  { by rewrite (qt_pins _ _ Hq). }
  fold s' in Hk2, Hp2.
  assert (forall j, ps_pins s' j = ps_pins s j) as Hpp.
  { intros j. rewrite Hp2, (qt_pins _ _ Hq), Hpn. lia. }
  split; [|done]. eapply db_inv_kept; [exact Hdb1|eapply kept_trans; [by apply quiet_kept|done]|].
  intros j. rewrite Hpp. apply Hnn.
Qed.

Lemma quiet_refl s : ps_inv ∅ s -> quiet s s.
Proof using. by constructor. Qed.

Lemma db_delete_spec fuel t key s ids kvs r t' s' :
  db_inv s ids kvs -> txn_is_active t = true -> (BTREE_MAX_DEPTH <= fuel)%nat ->
  db_delete root_page_id fuel (Some t) key s = (r, t', s') ->
  (forall j, ps_pins s' j = ps_pins s j) /\
  ((r = Some 0 /\ t' = Some (add_rows 0 1 t) /\ is_Some (kv_map kvs !! key) /\
    exists kvs', db_inv s' ids kvs' /\ kv_map kvs' = delete key (kv_map kvs)) \/
   (r = Some (-1) /\ t' = Some t /\ db_inv s' ids kvs /\
    (kv_map kvs !! key = None \/ ~ all_resident s ids))).
Proof using.
  intros Hdb Hact Hfuel. unfold db_delete. rewrite Hact. cbn [negb].
  destruct (descend_to_leaf root_page_id fuel key LOCK_EXCLUSIVE s) as [dr s1] eqn:Edl.
  pose proof (db_descend _ _ _ _ _ _ _ _ Hdb Hfuel Edl) as Hdr.
  destruct dr as [| |leaf p]; [done| |].
  { intros [= <- <- <-]. destruct Hdr as (? & ? & ?). split; [done|]. right. auto. }
  destruct Hdr as (d & lvs & path & es & lo & hi & pre & post & lpre & lpost & Hal).
  pose proof (di_pins _ _ _ Hdb) as Hnn. pose proof Hal as [_ [] _ Hlr _ Hdb1 _ _ _].
  pose proof (find_pair_spec p es key rt_repr0 (proj1 rt_es0)) as Hfp.
  destruct (find_pair p key) as [kv|]; cycle 1.
  { intros [= <- <- <-].
    destruct (at_leaf_leave _ _ s1 _ _ _ _ _ _ _ _ _ _ _ _ _ _ _ LOCK_EXCLUSIVE Hal Hnn
      (quiet_refl _ (di_store _ _ _ Hdb1))) as [? ?].
    split; [done|]. right. split_and!; try done. left. subst kvs. by apply leaf_map_miss. }
  destruct Hfp as (i & e & He & Hke & -> & Hpos). rewrite Hpos.
  set (s2 := log_change _ _ _ _ s1).
  assert (quiet s1 s2) as Hq by apply log_change_quiet, Hdb1.
  destruct (delete_kv_pair_repr p es i e rt_repr0 He) as (p' & Hdel & Hr' & Hh'). rewrite Hdel.
  intros [= <- <- <-].
  destruct (at_leaf_write _ _ s2 _ _ _ _ _ _ _ _ _ _ _ _ _ _ _ LOCK_EXCLUSIVE p'
    (delete_entry es i) Hal Hnn Hq) as [Hdb' Hp']; try done.
  - eapply delete_kv_pair_wf; try done. eapply ps_view_wf; [apply Hdb1|done|done].
  - by apply entries_within_delete.
  - by rewrite Hh'.
  - by rewrite Hh'.
  - eexists. split; [exact Hr'|]. rewrite Hh'. cbn.
    pose proof (page_sized_entries p es (al_sized _ _ _ _ _ _ _ _ _ _ _ _ _ _ _ _ _ Hal) rt_repr0) as Hf.
    apply Forall_app. split; [by apply Forall_take|by apply Forall_drop].
  - split; [done|]. left. subst kvs.
    destruct (leaf_map_split pre post key es rt_pre0 rt_post0 (proj1 rt_es0) i e He Hke) as [-> Hn].
    split_and!; try done; [by rewrite lookup_insert_eq|].
    eexists. split; [done|]. by rewrite delete_insert_id.
Qed.

(** ** Insertion into a leaf with room *)

(** The same descent through [descend_path] followed by [get_page]. *)
Lemma db_descend_path key s ids kvs r s1 :
  db_inv s ids kvs -> descend_path root_page_id key s = (r, s1) ->
  match r with
  | None => db_inv s1 ids kvs /\ (forall j, ps_pins s1 j = ps_pins s j) /\ ~ all_resident s ids
  | Some path => exists leaf, list.last path = Some leaf /\
      forall lk r2 s2, ps_get_page leaf lk s1 = (r2, s2) ->
      match r2 with
      | None => db_inv s2 ids kvs /\ (forall j, ps_pins s2 j = ps_pins s j) /\ ~ all_resident s ids
      | Some p => exists d lvs es lo hi pre post lpre lpost,
          at_leaf s s2 ids kvs key leaf p d lvs path es lo hi pre post lpre lpost
      end
  end.
Proof using.
  intros Hdb. unfold descend_path.
  destruct (db_inv_routed s ids kvs key Hdb) as (d & lvs & path & leaf & p & es & lo & hi & pre & post
    & lpre & lpost & Hd & Hrt & Hc & Hpr & Hlr & Hlf).
  pose proof (rt_head _ _ _ _ _ _ _ _ _ _ _ _ _ _ _ _ _ _ _ Hrt) as Hh.
  pose proof (rt_len _ _ _ _ _ _ _ _ _ _ _ _ _ _ _ _ _ _ _ Hrt) as Hlen.
  pose proof (rt_last _ _ _ _ _ _ _ _ _ _ _ _ _ _ _ _ _ _ _ Hrt) as Hlast.
  pose proof (rt_page _ _ _ _ _ _ _ _ _ _ _ _ _ _ _ _ _ _ _ Hrt) as Hpage.
  destruct path as [|root path]; [done|]. injection Hh as ->. cbn [length] in Hlen.
  intros Edp.
  destruct (descend_path_loop_spec (all_resident s ids) BTREE_MAX_DEPTH key root_page_id path [] s r s1)
    as (Hk & Hpn & Hres & Hout); try done; try apply Hdb; try apply Hrt.
  { unfold all_resident. rewrite !list.Forall_forall. intros Hall x Hx. by apply Hall, Hrt. }
  assert (db_inv s1 ids kvs) as Hdb1.
  { eapply db_inv_kept; [exact Hdb|done|]. intros j. rewrite Hpn. apply Hdb. }
  destruct Hout as [[-> _]|[-> [Hn|Hn]]]; [|done|lia]. cbn [app]. exists leaf. split; [done|].
  intros lk r2 s2 Hg.
  destruct (ps_get_law _ _ _ _ _ _ (kp_inv _ _ Hk) Hlr Hg) as (Hi2 & Hv2 & Hu2 & Hr2).
  pose proof (get_kept _ _ _ _ _ (kp_inv _ _ Hk) Hlr Hg) as Hk2.
  assert (kept s s2) as Hk02 by (by eapply kept_trans).
  assert (all_resident s ids -> ps_resident s1 leaf) as Hlres.
  { intros HA. rewrite (Hres HA). unfold all_resident in HA. rewrite list.Forall_forall in HA. auto. }
  destruct r2 as [q|]; cycle 1.
  { destruct Hr2 as [Hnr Hp2]. split_and!; [|intros j; by rewrite Hp2|auto].
    eapply db_inv_kept; [exact Hdb1|done|]. intros j. rewrite Hp2, Hpn. apply Hdb. }
  destruct Hr2 as (Hvl & Hp2 & Hres2).
  pose proof (kp_view _ _ Hk02 _ _ Hlr Hpage) as Hvl'. assert (q = p) as -> by congruence.
  assert (forall j, ps_pins s2 j = ps_pins s j + delta j leaf) as Hp02 by (intros j; by rewrite Hp2, Hpn).
  assert (forall x y, x ∈ ids -> ps_view s x = Some y -> ps_view s2 x = Some y) as Hf.
  { intros x y Hx. apply (kp_view _ _ Hk02). pose proof (di_ref _ _ _ Hdb) as Hr.
    rewrite list.Forall_forall in Hr. by apply Hr. }
  assert (lvs ⊆ ids) as Hsub.
  { eapply node_leaves_sub, (rt_put _ _ _ _ _ _ _ _ _ _ _ _ _ _ _ _ _ _ _ Hrt (ps_view s) p es);
      try apply Hrt. done. }
  exists d, lvs, es, lo, hi, pre, post, lpre, lpost. constructor; try done.
  - by eapply routed_frame.
  - eapply leaf_chain_frame; [|exact Hc]. intros x y Hx Hy. exists y. split; [|done]. auto.
  - eapply db_inv_kept; [exact Hdb|done|]. intros j. rewrite Hp02. pose proof (di_pins _ _ _ Hdb j).
    case_decide; lia.
  - intros HA j. by rewrite (Hres2 (Hlres HA)), (Hres HA).
Qed.

(** Every leaf can take [n] more bytes. *)
Definition leaves_have_room (s : S) (ids : list Z) (n : Z) : Prop :=
  forall id p, id ∈ ids -> ps_view s id = Some p -> page_type (header p) = PAGE_TYPE_LEAF ->
    n <= free_space (header p).

Lemma insert_at_leaf s s1 ids kvs key value leaf p d lvs path es lo hi pre post lpre lpost ty txn :
  at_leaf s s1 ids kvs key leaf p d lvs path es lo hi pre post lpre lpost -> pins_nonneg s ->
  find_pair p key = None -> zlen key <= MAX_KEY_SIZE -> zlen value <= MAX_VALUE_SIZE ->
  Forall is_byte key -> Forall is_byte value ->
  SIZEOF_KV_PAIR + zlen key + zlen value <= free_space (header p) ->
  exists p', insert_kv_pair p (find_key_position p key) key value 0 = Some p' /\
    let s2 := log_change txn ty leaf (insert_payload key value) s1 in
    let s' := ps_release_page leaf LOCK_EXCLUSIVE (ps_mark_page_dirty leaf (ps_store_page leaf p' s2)) in
    (forall j, ps_pins s' j = ps_pins s j) /\ kv_map kvs !! key = None /\
    exists kvs', db_inv s' ids kvs' /\ kv_map kvs' = <[key := value]> (kv_map kvs).
Proof using.
  intros Hal Hnn Hfn Hkl Hvl Hkb Hvb Hroom. pose proof Hal as [_ [] _ Hlr _ Hdb1 _ _ _].
  pose proof (find_pair_spec p es key rt_repr0 (proj1 rt_es0)) as Hfp. rewrite Hfn in Hfp.
  pose proof (find_key_position_lb p es key rt_repr0 (proj1 rt_es0)) as Hlb.
  pose proof Hlb as ((Hp0 & Hp1) & _). set (pos := find_key_position p key) in *. clearbody pos.
  replace pos with (Z.of_nat (Z.to_nat pos)) in * by lia. set (i := Z.to_nat pos) in *. clearbody i.
  set (e := mkEntry key value 0).
  assert (entry_ok e) as Hok.
  { unfold entry_ok, MAX_KEY_SIZE, MAX_VALUE_SIZE, UINT16_MAX, UINT32_MAX in *. cbn. lia. }
  assert (i <= length es)%nat as Hil by (unfold zlen in Hp1; lia).
  destruct (insert_kv_pair_repr p es i e rt_repr0 Hok Hil Hroom) as (p' & Hins & Hr' & Hh').
  exists p'. split; [done|]. intros s2 s'.
  destruct (at_leaf_write s s1 s2 ids kvs key leaf p d lvs path es lo hi pre post lpre lpost
    LOCK_EXCLUSIVE p' (insert_entry es i e) Hal Hnn) as [Hdb' Hp']; try done.
  - apply log_change_quiet, Hdb1.
  - eapply (insert_kv_pair_wf p _ _ e); try done. eapply ps_view_wf; [apply Hdb1|done|done].
  - apply entries_within_insert; try done.
  - by rewrite Hh'.
  - by rewrite Hh'.
  - eexists. split; [exact Hr'|]. rewrite Hh'. cbn.
    pose proof (page_sized_entries p es (al_sized _ _ _ _ _ _ _ _ _ _ _ _ _ _ _ _ _ Hal) rt_repr0) as Hf.
    apply Forall_app. split; [by apply Forall_take|]. constructor; [|by apply Forall_drop].
    unfold entry_sized. rewrite rt_leaf0. split; [exact Hkl|exact Hvl].
  - split_and!; try done.
    + subst kvs. by apply leaf_map_miss.
    + eexists. split; [exact Hdb'|]. subst kvs. by apply leaf_map_insert.
Qed.

Lemma db_insert_room_spec t key value s ids kvs r t' s' :
  db_inv s ids kvs -> txn_is_active t = true -> Forall is_byte key -> Forall is_byte value ->
  leaves_have_room s ids (SIZEOF_KV_PAIR + zlen key + zlen value) ->
  0 < zlen key <= MAX_KEY_SIZE -> zlen value <= MAX_VALUE_SIZE ->
  db_insert root_page_id (Some t) key value s = (r, t', s') ->
  (forall j, ps_pins s' j = ps_pins s j) /\
  ((r = 0 /\ t' = Some (add_rows 1 0 t) /\ kv_map kvs !! key = None /\
    exists kvs', db_inv s' ids kvs' /\ kv_map kvs' = <[key := value]> (kv_map kvs)) \/
   (r = -1 /\ t' = Some t /\ db_inv s' ids kvs /\
    (is_Some (kv_map kvs !! key) \/ ~ all_resident s ids))).
Proof using.
  intros Hdb Hact Hkb Hvb Hroom Hkl Hvl. unfold db_insert. rewrite Hact. cbn [negb].
  rewrite (proj2 (Z.eqb_neq (zlen key) 0)) by lia. do 2 (guard_false). cbn [orb].
  unfold BTREE_MAX_DEPTH. cbn [insert_loop].
  destruct (descend_path root_page_id key s) as [rp s1] eqn:Edp.
  pose proof (db_descend_path _ _ _ _ _ _ Hdb Edp) as Hdp. destruct rp as [path|]; cycle 1.
  { intros [= <- <- <-]. destruct Hdp as (? & ? & ?). split; [done|]. right. auto. }
  destruct Hdp as (leaf & -> & Hget).
  destruct (ps_get_page leaf LOCK_EXCLUSIVE s1) as [rg s2] eqn:Eg. specialize (Hget _ _ _ Eg).
  destruct rg as [p|]; cycle 1.
  { intros [= <- <- <-]. destruct Hget as (? & ? & ?). split; [done|]. right. auto. }
  destruct Hget as (d & lvs & es & lo & hi & pre & post & lpre & lpost & Hal).
  pose proof (di_pins _ _ _ Hdb) as Hnn.
  assert (SIZEOF_KV_PAIR + zlen key + zlen value <= free_space (header p)) as Hfit.
  { destruct Hal as [_ [] _ Hlr Hlf _ Hk _ _]. destruct Hdb as [_ _ (d0 & lvs0 & _ & Hn & _) _ _ _ _].
    destruct (node_page_some _ _ _ _ _ _ _ _ _ Hn Hlf) as [q Hq].
    pose proof (kp_view _ _ Hk _ _ Hlr Hq). assert (q = p) as -> by congruence. by eapply Hroom. }
  destruct (find_pair p key) as [kv|] eqn:Efp.
  - intros [= <- <- <-]. pose proof Hal as [_ [] _ _ _ Hdb1 _ _ _].
    destruct (at_leaf_leave _ _ s2 _ _ _ _ _ _ _ _ _ _ _ _ _ _ _ LOCK_EXCLUSIVE Hal Hnn
      (quiet_refl _ (di_store _ _ _ Hdb1))) as [? ?].
    split; [done|]. right. split_and!; try done. left.
    pose proof (find_pair_spec p es key rt_repr0 (proj1 rt_es0)) as Hfp. rewrite Efp in Hfp.
    destruct Hfp as (i & e & He & Hke & _ & _). subst kvs.
    destruct (leaf_map_split pre post key es rt_pre0 rt_post0 (proj1 rt_es0) i e He Hke) as [-> _].
    by rewrite lookup_insert_eq.
  - rewrite (proj2 (Z.ltb_ge _ _)) by done.
    destruct (insert_at_leaf _ _ _ _ _ value _ _ _ _ _ _ _ _ _ _ _ _ WAL_INSERT (txn_id t) Hal Hnn Efp)
      as (p' & -> & Hrest); try done; [lia|]. intros [= <- <- <-].
    destruct Hrest as (? & ? & ?). split; [done|]. left. auto.
Qed.
End store.
