(* ===== verification/DbScan.v ===== *)
(** * Scans (storage/src/db.c: [scan_range])

    The leaf walk visits exactly the pairs whose key starts with the prefix,
    in key order, until the callback stops it. *)
From S2P Require Import Prelude BtreePage Wal Pager PagerProofs Store Txn Db DbProofs.

Local Open Scope Z_scope.

Abbreviation kv := (bytes * bytes)%type.

(** ** Prefixes and the key order *)
Lemma memcmp_eq a b : length a = length b -> memcmp a b = Eq <-> a = b.
Proof.
  revert b. induction a as [|x a IH]; intros [|y b] Hl; try done; simpl in Hl.
  simpl. destruct (Z.compare_spec x y); [subst|split; [done|intros; simplify_eq; lia]..].
  rewrite IH by lia. split; [by intros ->|by intros [= ->]].
Qed.

Lemma has_prefix_spec prefix key : has_prefix prefix key = true <-> exists t, key = prefix ++ t.
Proof.
  unfold has_prefix. rewrite negb_true_iff, andb_false_iff, orb_false_iff.
  split.
  - intros [Hp|[Hl Hm]].
    + destruct prefix; [by exists key|]. rewrite zlen_cons in Hp. zl.
    + apply Z.ltb_ge in Hl. exists (zdrop (zlen prefix) key).
      rewrite <- (ztake_zdrop (zlen prefix) key) at 1. f_equal. apply memcmp_eq.
      * apply Nat2Z.inj. change (zlen (ztake (zlen prefix) key) = zlen prefix). zl.
      * by destruct (memcmp _ _).
  - intros [t ->]. right. split; [apply Z.ltb_ge; zl|]. rewrite ztake_app_eq by done.
    by rewrite (proj2 (memcmp_eq prefix prefix eq_refl) eq_refl).
Qed.

Lemma lex_app_le a t : lex_le a (a ++ t).
Proof.
  unfold lex_le. induction a as [|x a IH]; [by destruct t|]. simpl. by rewrite Z.compare_refl.
Qed.

Lemma prefix_convex prefix k k' :
  lex_le prefix k -> lex_le k k' -> has_prefix prefix k' = true -> has_prefix prefix k = true.
Proof.
  rewrite !has_prefix_spec. intros H1 H2 [t ->]. revert k H1 H2.
  induction prefix as [|x p IH]; intros k H1 H2; [by exists k|].
  destruct k as [|y k]; [done|]. unfold lex_le in H1, H2. simpl in H1, H2.
  destruct (Z.compare_spec x y) as [->|Hxy|Hxy]; [| |done].
  - rewrite Z.compare_refl in H2. destruct (IH k H1 H2) as [u ->]. by exists u.
  - destruct (Z.compare_spec y x); [lia|lia|done].
Qed.

Definition kvs_sorted (kvs : list kv) : Prop := StronglySorted (fun x y => lex_lt x.1 y.1) kvs.

Lemma kvs_sorted_app a b :
  kvs_sorted a -> kvs_sorted b -> (forall x y, x ∈ a -> y ∈ b -> lex_lt x.1 y.1) ->
  kvs_sorted (a ++ b).
Proof.
  unfold kvs_sorted. induction a as [|e a IH]; cbn [app]; [done|]. intros Ha Hb Hab.
  inversion Ha as [|? ? Ha' Hf]; subst. constructor.
  - apply IH; [done..|]. intros x y Hx. apply Hab. by right.
  - apply Forall_app. split; [done|]. apply list.Forall_forall. intros y Hy. apply Hab; [left|done].
Qed.

Lemma kvs_sorted_suffix a b : kvs_sorted (a ++ b) -> kvs_sorted b.
Proof. induction a; [done|]. intros Hs. inversion Hs. auto. Qed.

Lemma kvs_nodup (kvs : list (bytes * bytes)) : kvs_sorted kvs -> NoDup kvs.*1.
Proof.
  induction 1 as [|x l Hs IH Hf]; [by apply base.NoDup_nil_2|]. cbn. apply list.NoDup_cons. split; [|done].
  intros (y & E & Hy)%list_elem_of_fmap. rewrite list.Forall_forall in Hf. specialize (Hf y Hy).
  rewrite E in Hf. by apply lex_lt_irrefl in Hf.
Qed.

Lemma keys_within_gap lo mid hi a b :
  keys_within lo (Some mid) a -> keys_within (Some mid) hi b ->
  forall x y, x ∈ a -> y ∈ b -> lex_lt x.1 y.1.
Proof.
  unfold keys_within. rewrite !list.Forall_forall. intros Ha Hb x y Hx Hy.
  destruct (Ha x Hx) as [_ Hxm]. destruct (Hb y Hy) as [Hym _]. by eapply lex_le_lt_trans.
Qed.

Lemma pairs_sorted es : keys_sorted es -> kvs_sorted (map pair_of es).
Proof.
  unfold keys_sorted, kvs_sorted. induction 1 as [|e es Hs IH Hf]; simpl; [constructor|].
  constructor; [done|]. apply Forall_map. by eapply list.Forall_impl.
Qed.

(** The pairs of a subtree come out in key order. *)
Lemma node_sorted v d id lo hi kvs ids lvs : node v d id lo hi kvs ids lvs -> kvs_sorted kvs.
Proof.
  revert id lo hi kvs ids lvs. induction d as [|d IH]; intros id lo hi kvs ids lvs.
  - intros (p & es & _ & _ & _ & [Hs _] & -> & _). by apply pairs_sorted.
  - intros (p & es & ids' & _ & _ & _ & [Hw _] & Hk & _). revert kvs ids' lvs lo Hw Hk.
    induction es as [|e es IHes]; intros kvs ids' lvs lo Hw Hk; simpl in Hk; [eauto|].
    destruct Hk as (k1 & k2 & i1 & i2 & l1 & l2 & H1 & H2 & -> & -> & ->).
    apply entries_within_cons in Hw as [_ Hw]. apply kvs_sorted_app; [eauto|eauto|].
    eapply keys_within_gap; [by eapply node_within|].
    eapply kids_within; [|exact Hw|exact H2]. intros c a b k i l. apply node_within.
Qed.

(** A leaf occurs once among the leaves. *)
Lemma leaves_sublist v d id lo hi kvs ids lvs : node v d id lo hi kvs ids lvs -> sublist lvs ids.
Proof.
  revert id lo hi kvs ids lvs. induction d as [|d IH]; intros id lo hi kvs ids lvs.
  - intros (? & ? & _ & _ & _ & _ & _ & -> & ->). done.
  - intros (p & es & ids' & _ & _ & _ & _ & Hk & ->). apply sublist_cons.
    revert kvs ids' lvs lo Hk.
    induction es as [|e es IHes]; intros kvs ids' lvs lo Hk; simpl in Hk; [eauto|].
    destruct Hk as (k1 & k2 & i1 & i2 & l1 & l2 & H1 & H2 & -> & -> & ->).
    apply sublist_app; eauto.
Qed.

Lemma leaves_nodup v d id lo hi kvs ids lpre leaf lpost :
  node v d id lo hi kvs ids (lpre ++ leaf :: lpost) -> NoDup ids -> NoDup lpost.
Proof.
  intros Hn Hnd. eapply sublist_NoDup in Hnd; [|by eapply leaves_sublist].
  apply list.NoDup_app in Hnd as (_ & _ & Hnd). by apply list.NoDup_cons in Hnd as [_ ?].
Qed.

(** ** The callback run *)
Section callback.
Context {C : Type} (callback : bytes -> bytes -> C -> Z * C).

(** The callback over a list of pairs until it answers non-zero. *)
Fixpoint visit (l : list kv) (c : C) : C :=
  match l with
  | [] => c
  | (k, x) :: l' => let '(stop, c) := callback k x c in if negb (stop =? 0) then c else visit l' c
  end.

(** What the walk does with the pairs it meets. *)
Fixpoint scan_list (prefix : bytes) (l : list kv) (c : C) : bool * C :=
  match l with
  | [] => (false, c)
  | (k, x) :: l' =>
      if negb (has_prefix prefix k) then (true, c) else
      let '(stop, c) := callback k x c in
      if negb (stop =? 0) then (true, c) else scan_list prefix l' c
  end.

Lemma scan_list_app prefix a b c :
  scan_list prefix (a ++ b) c =
  let '(stop, c) := scan_list prefix a c in if stop then (true, c) else scan_list prefix b c.
Proof using.
  revert c. induction a as [|[k x] a IH]; intros c; [done|]. simpl.
  destruct (has_prefix prefix k); [|done]. simpl. destruct (callback k x c) as [st c1].
  destruct (st =? 0); [|done]. apply IH.
Qed.

Lemma scan_leaf_spec page es n i prefix c :
  page_repr page es -> (i + n = length es)%nat ->
  scan_leaf callback n (Z.of_nat i) page prefix c = scan_list prefix (map pair_of (drop i es)) c.
Proof using.
  intros Hr. revert i c. induction n as [|n IH]; intros i c Hin; simpl.
  { by rewrite drop_ge by lia. }
  destruct (lookup_lt_is_Some_2 es i) as [e He]; [lia|].
  rewrite (get_kv_pair_repr page es Hr i e He). destruct (kv_at_repr page es Hr i e He) as (-> & -> & _).
  rewrite (drop_S es e i He). simpl. destruct (has_prefix prefix (e_key e)); [|done]. simpl.
  destruct (callback _ _ _) as [st c1]. destruct (st =? 0); [|done]. simpl.
  replace (Z.of_nat i + 1) with (Z.of_nat (S i)) by lia. apply IH. lia.
Qed.

(** On sorted keys from the prefix on, stopping at the first mismatch loses
    nothing. *)
Lemma scan_list_sorted prefix l c :
  kvs_sorted l -> Forall (fun x => lex_le prefix x.1) l ->
  (scan_list prefix l c).2 = visit (List.filter (fun x => has_prefix prefix x.1) l) c.
Proof using.
  intros Hs. revert c. induction Hs as [|[k x] l Hs IH Hf]; intros c Hle; [done|].
  inversion Hle as [|? ? Hk Hle']; subst. simpl in *. destruct (has_prefix prefix k) eqn:Hp; simpl.
  - destruct (callback k x c) as [st c1]. destruct (st =? 0); [|done]. simpl. by apply IH.
  - assert (List.filter (fun x => has_prefix prefix x.1) l = []) as ->; [|done].
    clear -Hp Hf Hk. induction Hf as [|y l Hy Hf IH]; [done|]. simpl.
    destruct (has_prefix prefix y.1) eqn:Hpy; [|done].
    rewrite (prefix_convex prefix k y.1 Hk) in Hp; [done|by apply lex_lt_le|done].
Qed.

Lemma filter_below prefix (l : list kv) :
  Forall (fun x => lex_lt x.1 prefix) l -> List.filter (fun x => has_prefix prefix x.1) l = [].
Proof using.
  induction 1 as [|x l Hx Hf IH]; [done|]. simpl. destruct (has_prefix prefix x.1) eqn:Hp; [|done].
  apply has_prefix_spec in Hp as [t E]. pose proof (lex_app_le prefix t) as Hle. rewrite <- E in Hle.
  by apply lex_nlt in Hle.
Qed.
End callback.

(** ** The leaf walk over a page store *)
Section store.
Context {S : Type} `{PageStoreLaws S} (root_page_id : Z).
Context {C : Type} (callback : bytes -> bytes -> C -> Z * C).

Abbreviation delta j id := (if decide (j = id) then 1 else 0).

(** [s] is a scan in progress that started from [s0]: the leaf is pinned. *)
Record scanning (all : Prop) (s0 s : S) (leaf : Z) (page : btree_page) : Prop := {
  sc_kept : kept s0 s;
  sc_page : ps_view s leaf = Some page;
  sc_pins : forall j, ps_pins s j = ps_pins s0 j + delta j leaf;
  sc_res : all -> forall j, ps_resident s j <-> ps_resident s0 j }.

Definition scanned (all : Prop) (s0 s' : S) (r : option Z) (c' : C) (expected : bool * C) : Prop :=
  kept s0 s' /\ (forall j, ps_pins s' j = ps_pins s0 j) /\
  (r = Some 0 /\ c' = expected.2 \/ r = Some (-1) /\ ~ all).

Lemma scan_loop_spec (all : Prop) fuel prefix leaf page es i lpost post c s0 s r c' s' :
  scanning all s0 s leaf page -> page_repr page es -> (i <= length es)%nat ->
  leaf_chain (ps_view s) (leaf :: lpost) -> leaf_run (ps_view s) lpost post ->
  Forall page_ref lpost -> (length lpost <= fuel)%nat -> pins_nonneg s0 ->
  (all -> Forall (ps_resident s0) lpost) ->
  scan_loop callback fuel prefix leaf page (Z.of_nat i) c s = (r, c', s') ->
  scanned all s0 s' r c' (scan_list callback prefix (map pair_of (drop i es) ++ post) c).
Proof using.
  revert fuel leaf page es i post c s. induction lpost as [|l2 lpost IH];
    intros fuel leaf page es i post c s Hsc Hr Hi Hch Hrun Href Hfuel Hnn Hall.
  all: destruct Hsc as [Hk Hv Hp Hres].
  all: assert (0 < ps_pins s leaf) as Hp0 by (rewrite Hp, decide_True by done; specialize (Hnn leaf); lia).
  all: destruct (release_step s leaf LOCK_SHARED (kp_inv _ _ Hk) Hp0) as (Hk1 & Hv1 & Hp1 & Hr1).
  all: destruct Hch as [(q & Hq & Hnx) Hch]; assert (q = page) as -> by congruence; cbn in Hnx.
  all: set (s1 := ps_release_page leaf LOCK_SHARED s) in *.
  all: assert (kept s0 s1) as Hk01 by (by eapply kept_trans).
  all: assert (forall j, ps_pins s1 j = ps_pins s0 j) as Hp01 by (intros j; rewrite Hp1, Hp; lia).
  all: rewrite scan_list_app;
    rewrite <- (scan_leaf_spec callback page es (length es - i) i prefix c Hr) by lia.
  all: assert (Z.to_nat (key_count (header page) - Z.of_nat i) = (length es - i)%nat) as Hn
    by (rewrite (page_repr_count page es Hr); unfold zlen; lia).
  all: destruct fuel as [|fuel]; [cbn [length] in Hfuel; try lia|]; cbn [scan_loop]; rewrite Hn;
    destruct (scan_leaf callback (length es - i) (Z.of_nat i) page prefix c) as [st c1];
    fold s1; (destruct st; [intros [= <- <- <-]; split_and!; try done; by left|]);
    rewrite Hnx.
  1, 2: cbn; intros [= <- <- <-]; cbn in Hrun; subst post; split_and!; try done; by left.
  pose proof (Forall_inv Href) as Hl2.
  rewrite (proj2 (Z.eqb_neq l2 0)) by (unfold page_ref in Hl2; lia).
  destruct (ps_get_page l2 LOCK_SHARED s1) as [rg s2] eqn:Eg.
  destruct (ps_get_law _ _ _ _ _ _ (kp_inv _ _ Hk1) Hl2 Eg) as (Hi2 & Hv2 & Hu2 & Hr2).
  pose proof (get_kept _ _ _ _ _ (kp_inv _ _ Hk1) Hl2 Eg) as Hk2.
  assert (all -> ps_resident s1 l2) as Hl2res.
  { intros HA. rewrite Hr1, (Hres HA). by apply Hall, Forall_inv in HA. }
  destruct rg as [p2|]; cycle 1.
  { intros [= <- <- <-]. destruct Hr2 as [Hnr Hp2]. split_and!.
    - by eapply kept_trans.
    - intros j. by rewrite Hp2.
    - right. split; [done|]. auto. }
  destruct Hr2 as (Hv2' & Hp2 & Hres2). intros Hloop.
  destruct Hrun as (p2' & es2 & post' & Hp2' & Hr2 & -> & Hrun).
  assert (p2' = p2) as ->.
  { rewrite <- Hv1 in Hp2'. apply (Hv2 _ _ Hl2) in Hp2'. congruence. }
  assert (forall x y, x ∈ l2 :: lpost -> ps_view s x = Some y -> ps_view s2 x = Some y) as Hf.
  { intros x y Hx Hy. rewrite <- Hv1 in Hy. apply (Hv2 _ _); [|done].
    rewrite list.Forall_forall in Href. by apply Href. }
  apply (IH fuel l2 p2 es2 0%nat post' c1 s2); try done.
  - constructor; try done; [by eapply kept_trans|intros j; by rewrite Hp2, Hp01|].
    intros HA j. by rewrite (Hres2 (Hl2res HA)), Hr1, (Hres HA).
  - lia.
  - eapply leaf_chain_frame; [|exact Hch]. intros x y Hx Hy. exists y. split; [|done]. by apply Hf.
  - eapply leaf_run_frame; [|exact Hrun]. intros x y Hx. apply Hf. by right.
  - by apply Forall_inv_tail in Href.
  - cbn [length] in Hfuel. lia.
  - intros HA. by apply Hall, Forall_inv_tail in HA.
Qed.

Lemma scan_range_spec fuel t prefix c s ids kvs r c' s' :
  db_inv root_page_id s ids kvs -> txn_is_active t = true -> zlen prefix <= MAX_KEY_SIZE ->
  (BTREE_MAX_DEPTH <= fuel)%nat -> (length ids <= fuel)%nat ->
  scan_range root_page_id callback fuel (Some t) prefix c s = (r, c', s') ->
  db_inv root_page_id s' ids kvs /\ (forall j, ps_pins s' j = ps_pins s j) /\
  (r = Some 0 /\ c' = visit callback (List.filter (fun x => has_prefix prefix x.1) kvs) c \/
   r = Some (-1) /\ ~ all_resident s ids).
Proof using.
  intros Hdb Hact Hpl Hfuel Hlen. unfold scan_range. rewrite Hact. cbn [negb].
  guard_false.
  destruct (descend_to_leaf root_page_id fuel prefix LOCK_SHARED s) as [dr s1] eqn:Edl.
  pose proof (db_descend root_page_id _ _ _ _ _ _ _ _ Hdb Hfuel Edl) as Hdr.
  destruct dr as [| |leaf p]; [done| |].
  { intros [= <- <- <-]. destruct Hdr as (? & ? & ?). split_and!; try done. by right. }
  destruct Hdr as (d & lvs & path & es & lo & hi & pre & post & lpre & lpost & Hal).
  destruct Hal as [Hd Hrt Hc Hlr Hlf Hdb1 Hk Hpn Hres].
  assert (node (ps_view s1) d root_page_id None None kvs ids lvs) as Hn.
  { pose proof (rt_kvs _ _ _ _ _ _ _ _ _ _ _ _ _ _ _ _ _ _ _ Hrt) as E. rewrite E.
    apply (rt_put _ _ _ _ _ _ _ _ _ _ _ _ _ _ _ _ _ _ _ Hrt (ps_view s1) p es); try apply Hrt. done. }
  pose proof (node_leaves_sub _ _ _ _ _ _ _ _ Hn) as Hsub.
  pose proof (node_sorted _ _ _ _ _ _ _ _ Hn) as Hsorted. destruct Hrt.
  pose proof (find_key_position_lb p es prefix rt_repr (proj1 rt_es)) as (Hpos & Hlo & Hhi).
  set (pos := find_key_position p prefix) in *. clearbody pos.
  replace pos with (Z.of_nat (Z.to_nat pos)) in * by lia. set (i := Z.to_nat pos) in *. clearbody i.
  assert (i <= length es)%nat as Hil by (unfold zlen in Hpos; lia).
  assert (lpost ⊆ ids) as Hlp by (rewrite rt_lvs in Hsub; set_solver).
  intros Hloop.
  assert (scanned (all_resident s ids) s s' r c'
    (scan_list callback prefix (map pair_of (drop i es) ++ post) c)) as (Hk' & Hp' & Hout).
  { eapply (scan_loop_spec _ fuel prefix leaf p es i lpost post c s s1); try done.
    - rewrite rt_lvs in Hc. clear -Hc. induction lpre as [|x l IH]; [done|]. apply IH, Hc.
    - pose proof (di_ref _ _ _ _ Hdb) as Hr. rewrite list.Forall_forall in *. intros x Hx.
      apply Hr. by apply Hlp.
    - etransitivity; [|exact Hlen]. pose proof (di_nodup _ _ _ _ Hdb) as Hnd.
      apply submseteq_length, NoDup_submseteq; [|done].
      rewrite rt_lvs in Hn. by eapply leaves_nodup.
    - apply Hdb.
    - unfold all_resident. rewrite !list.Forall_forall. intros HA x Hx. by apply HA, Hlp. }
  split_and!; try done.
  - eapply db_inv_kept; [exact Hdb|done|]. intros j. rewrite Hp'. apply Hdb.
  - destruct Hout as [[-> ->]|[-> ?]]; [left|by right]. split; [done|].
    assert (kvs = (pre ++ map pair_of (take i es)) ++ map pair_of (drop i es) ++ post) as E.
    { rewrite rt_kvs, <- app_assoc. f_equal. by rewrite app_assoc, <- map_app, take_drop. }
    rewrite E, List.filter_app, filter_below; cbn [app].
    + apply scan_list_sorted; [rewrite E in Hsorted; by eapply kvs_sorted_suffix|].
      apply Forall_app. split.
      * apply Forall_map, list.Forall_forall. intros x (j & Hj)%list_elem_of_lookup.
        rewrite lookup_drop in Hj. apply (Hhi _ _ Hj). lia.
      * eapply list.Forall_impl; [exact rt_post|]. intros x. apply lex_lt_le.
    + apply Forall_app. split; [done|]. apply Forall_map, list.Forall_forall.
      intros x (j & Hj)%list_elem_of_lookup. apply lookup_take_Some in Hj as [Hj Hlt].
      apply (Hlo _ _ Hj). lia.
Qed.
End store.
