(* ===== verification/DbSplit.v ===== *)
(** * Node splits (storage/src/db.c): the tree while separators are on their way up

    [btree_split_node] cuts a page in two and only then inserts the separator
    into the parent, which may itself have to be split first. In between, the
    upper half of a split page is reached through no parent. [pnode] is the
    tree relation of [DbProofs] with a map of such pending splits; the lemmas
    below say what each step of a split does to it, and end in what
    [db_insert] does to any database. *)
From S2P Require Import Prelude BtreePage Wal Pager PagerProofs Store Txn Db DbProofs.

Local Open Scope Z_scope.

(** ** Cutting the children of a page *)
Fixpoint bound_after (lo : option bytes) (es : list entry) : option bytes :=
  match es with [] => lo | e :: es' => bound_after (Some (e_key e)) es' end.
Definition first_child (es : list entry) (right : Z) : Z :=
  match es with [] => right | e :: _ => e_child e end.
Definition first_hi (es : list entry) (hi : option bytes) : option bytes :=
  match es with [] => hi | e :: _ => Some (e_key e) end.

Section cut.
Context {A : Type}.
Implicit Types (R : Z -> option bytes -> option bytes -> list kv -> list A -> list Z -> Prop).

(** The children of the entries [es], without a rightmost child. *)
Fixpoint kids_pre R (lo : option bytes) (es : list entry) (kvs : list kv) (ids : list A) (lvs : list Z)
    : Prop :=
  match es with
  | [] => kvs = [] /\ ids = [] /\ lvs = []
  | e :: es' => exists k1 k2 i1 i2 l1 l2,
      R (e_child e) lo (Some (e_key e)) k1 i1 l1 /\ kids_pre R (Some (e_key e)) es' k2 i2 l2 /\
      kvs = k1 ++ k2 /\ ids = i1 ++ i2 /\ lvs = l1 ++ l2
  end.

(** The children after the first one of [es]. *)
Definition kids_post R (hi : option bytes) (es : list entry) (right : Z) (kvs : list kv) (ids : list A)
    (lvs : list Z) : Prop :=
  match es with
  | [] => kvs = [] /\ ids = [] /\ lvs = []
  | e :: es' => kids R (Some (e_key e)) hi es' right kvs ids lvs
  end.

Lemma kids_app R lo hi ea eb right kvs ids lvs :
  kids R lo hi (ea ++ eb) right kvs ids lvs <->
  exists k1 k2 i1 i2 l1 l2, kids_pre R lo ea k1 i1 l1 /\
    kids R (bound_after lo ea) hi eb right k2 i2 l2 /\ kvs = k1 ++ k2 /\ ids = i1 ++ i2 /\ lvs = l1 ++ l2.
Proof using.
  revert lo kvs ids lvs. induction ea as [|e ea IH]; intros lo kvs ids lvs; cbn.
  - split; [intros; by exists [], kvs, [], ids, [], lvs|].
    intros (k1 & k2 & i1 & i2 & l1 & l2 & (-> & -> & ->) & ? & -> & -> & ->). done.
  - split.
    + intros (k1 & k2 & i1 & i2 & l1 & l2 & H1 & H2 & -> & -> & ->).
      apply IH in H2 as (k3 & k4 & i3 & i4 & l3 & l4 & H3 & H4 & -> & -> & ->).
      exists (k1 ++ k3), k4, (i1 ++ i3), i4, (l1 ++ l3), l4. rewrite <- !app_assoc. split_and!; try done.
      exists k1, k3, i1, i3, l1, l3. done.
    + intros (k1 & k2 & i1 & i2 & l1 & l2 & (k3 & k4 & i3 & i4 & l3 & l4 & H3 & H4 & -> & -> & ->)
        & H2 & -> & -> & ->).
      exists k3, (k4 ++ k2), i3, (i4 ++ i2), l3, (l4 ++ l2). rewrite <- !app_assoc. split_and!; try done.
      apply IH. exists k4, k2, i4, i2, l4, l2. done.
Qed.

Lemma kids_first R lo hi es right kvs ids lvs :
  kids R lo hi es right kvs ids lvs <->
  exists k1 k2 i1 i2 l1 l2, R (first_child es right) lo (first_hi es hi) k1 i1 l1 /\
    kids_post R hi es right k2 i2 l2 /\ kvs = k1 ++ k2 /\ ids = i1 ++ i2 /\ lvs = l1 ++ l2.
Proof using.
  destruct es as [|e es]; [|done]. cbn. split.
  - intros. exists kvs, [], ids, [], lvs, []. rewrite !app_nil_r. done.
  - intros (k1 & k2 & i1 & i2 & l1 & l2 & H1 & (-> & -> & ->) & -> & -> & ->). by rewrite !app_nil_r.
Qed.

Lemma kids_pre_mono R R' lo es kvs ids lvs :
  kids_pre R lo es kvs ids lvs ->
  (forall c a b k i l, R c a b k i l -> i ⊆ ids -> R' c a b k i l) -> kids_pre R' lo es kvs ids lvs.
Proof using.
  revert lo kvs ids lvs. induction es as [|e es IH]; intros lo kvs ids lvs; [done|]. cbn.
  intros (k1 & k2 & i1 & i2 & l1 & l2 & H1 & H2 & -> & -> & ->) Hfr.
  exists k1, k2, i1, i2, l1, l2. split_and!; try done.
  - apply Hfr; [done|set_solver].
  - apply (IH _ _ _ _ H2). intros. apply Hfr; [done|set_solver].
Qed.

Lemma kids_post_mono R R' hi es right kvs ids lvs :
  kids_post R hi es right kvs ids lvs ->
  (forall c a b k i l, R c a b k i l -> i ⊆ ids -> R' c a b k i l) -> kids_post R' hi es right kvs ids lvs.
Proof using. destruct es as [|e es]; [done|]. apply kids_mono. Qed.

(** The child below which an id lies. *)
Lemma kids_find R lo hi es right kvs ids lvs x :
  kids R lo hi es right kvs ids lvs -> x ∈ ids ->
  exists ea eb k1 k2 k3 i1 i2 i3 l1 l2 l3, es = ea ++ eb /\ kids_pre R lo ea k1 i1 l1 /\
    R (first_child eb right) (bound_after lo ea) (first_hi eb hi) k2 i2 l2 /\
    kids_post R hi eb right k3 i3 l3 /\ x ∈ i2 /\
    kvs = k1 ++ k2 ++ k3 /\ ids = i1 ++ i2 ++ i3 /\ lvs = l1 ++ l2 ++ l3.
Proof using.
  revert lo kvs ids lvs. induction es as [|e es IH]; intros lo kvs ids lvs; cbn.
  - intros HR Hx. exists [], [], [], kvs, [], [], ids, [], [], lvs, []. cbn. rewrite !app_nil_r. done.
  - intros (k1 & k2 & i1 & i2 & l1 & l2 & H1 & H2 & -> & -> & ->) [Hx|Hx]%elem_of_app.
    + exists [], (e :: es), [], k1, k2, [], i1, i2, [], l1, l2. done.
    + destruct (IH _ _ _ _ H2 Hx) as (ea & eb & k3 & k4 & k5 & i3 & i4 & i5 & l3 & l4 & l5 & -> & Hp & Hc
        & Hq & Hx' & -> & -> & ->).
      exists (e :: ea), eb, (k1 ++ k3), k4, k5, (i1 ++ i3), i4, i5, (l1 ++ l3), l4, l5.
      rewrite <- !app_assoc. split_and!; try done. exists k1, k3, i1, i3, l1, l3. done.
Qed.

(** Whatever the key, the descent takes one of the children. *)
Lemma kids_any R lo hi es right kvs ids lvs key :
  kids R lo hi es right kvs ids lvs ->
  exists a b k i l i1 i2, R (child_at es right key) a b k i l /\ ids = i1 ++ i ++ i2.
Proof using.
  revert lo kvs ids lvs. induction es as [|e es IH]; intros lo kvs ids lvs; cbn.
  - intros HR. exists lo, hi, kvs, ids, lvs, [], []. by rewrite app_nil_r.
  - intros (k1 & k2 & i1 & i2 & l1 & l2 & H1 & H2 & -> & -> & ->). case_decide.
    + exists lo, (Some (e_key e)), k1, i1, l1, [], i2. done.
    + destruct (IH _ _ _ _ H2) as (a & b & k & i & l & j1 & j2 & HR & ->).
      exists a, b, k, i, l, (i1 ++ j1), j2. by rewrite <- app_assoc.
Qed.
End cut.

(** A key above the entries [ea] and up to the next one goes to the child
    between them. *)
Lemma bound_after_above lo es key e :
  keys_sorted es -> above (bound_after lo es) key -> e ∈ es -> lex_lt (e_key e) key.
Proof.
  revert lo e. induction es as [|x es IH]; intros lo e Hs Ha He; [set_solver|].
  inversion Hs as [|? ? Hs' Hf]; subst. cbn in Ha.
  apply elem_of_cons in He as [->|He]; [|by eapply (IH (Some (e_key x)))].
  destruct es as [|y es]; [done|].
  assert (lex_lt (e_key y) key) as Hy by (eapply (IH (Some (e_key x))); [done|done|left]).
  rewrite list.Forall_forall in Hf. specialize (Hf y ltac:(left)). eapply lex_lt_le_trans; [exact Hf|]. by apply lex_lt_le.
Qed.

Lemma child_at_between ea eb right lo hi key :
  keys_sorted ea -> within (bound_after lo ea) (first_hi eb hi) key ->
  child_at (ea ++ eb) right key = first_child eb right.
Proof.
  intros Hs [Ha Hb].
  assert (forall e, e ∈ ea -> lex_lt (e_key e) key) as Hlt by (intros; by eapply bound_after_above).
  clear Ha Hs. induction ea as [|e ea IH].
  - cbn. destruct eb as [|e eb]; [done|]. cbn in *. by rewrite decide_True.
  - cbn. rewrite decide_False; [apply IH; intros; apply Hlt; by right|].
    apply lex_nle, Hlt. left.
Qed.

(** ** Trees with pending splits

    [Q !! id = Some (sep, r)]: the page [id] was split at [sep] and its parent
    does not know the upper half [r] yet. Ids carry their height. *)
Abbreviation pends := (gmap Z (bytes * Z)).
Abbreviation hid := (nat * Z)%type.
Abbreviation subtree := (Z -> option bytes -> option bytes -> list kv -> list hid -> list Z -> Prop).

Section ptree.
Context (Q : pends) (v : Z -> option btree_page).

Definition pend_split (B : subtree) : subtree := fun id lo hi kvs ids lvs =>
  match Q !! id with
  | None => B id lo hi kvs ids lvs
  | Some (sep, r) => exists k1 k2 i1 i2 l1 l2,
      B id lo (Some sep) k1 i1 l1 /\ B r (Some sep) hi k2 i2 l2 /\ above lo sep /\ below hi sep /\
      kvs = k1 ++ k2 /\ ids = i1 ++ i2 /\ lvs = l1 ++ l2
  end.

Definition leaf_body : subtree := fun id lo hi kvs ids lvs =>
  exists p es, v id = Some p /\ page_repr p es /\ page_type (header p) = PAGE_TYPE_LEAF /\
    entries_within lo hi es /\ kvs = map pair_of es /\ ids = [(0%nat, id)] /\ lvs = [id].
Definition inner_body (d : nat) (R : subtree) : subtree := fun id lo hi kvs ids lvs =>
  exists p es ids', v id = Some p /\ page_repr p es /\ page_type (header p) = PAGE_TYPE_INTERNAL /\
    separators lo hi es /\ kids R lo hi es (next_page_id (header p)) kvs ids' lvs /\
    ids = (S d, id) :: ids'.

Fixpoint praw (d : nat) : subtree :=
  match d with O => leaf_body | S d' => inner_body d' (pend_split (praw d')) end.
Definition pnode (d : nat) : subtree := pend_split (praw d).
End ptree.

(** What a subtree relation reads. *)
Definition same_on (Q Q' : pends) (v v' : Z -> option btree_page) (ids : list hid) : Prop :=
  forall h x, (h, x) ∈ ids -> (forall p, v x = Some p -> v' x = Some p) /\ Q' !! x = Q !! x.

Lemma same_on_mono Q Q' v v' ids ids' : same_on Q Q' v v' ids -> ids' ⊆ ids -> same_on Q Q' v v' ids'.
Proof. intros Hs Hsub h x Hx. apply (Hs h). by apply Hsub. Qed.

Lemma praw_root Q v d id lo hi kvs ids lvs :
  praw Q v d id lo hi kvs ids lvs -> exists ids', ids = (d, id) :: ids'.
Proof. destruct d; cbn; [intros (?&?&?&?&?&?&?&->&?)|intros (?&?&?&?&?&?&?&?&->)]; by eexists. Qed.

Lemma pend_split_frame Q Q' v v' (B B' : subtree) id lo hi kvs ids lvs :
  (forall id lo hi kvs ids lvs, B id lo hi kvs ids lvs -> exists h, (h, id) ∈ ids) ->
  (forall id lo hi kvs ids lvs, same_on Q Q' v v' ids -> B id lo hi kvs ids lvs -> B' id lo hi kvs ids lvs) ->
  same_on Q Q' v v' ids -> pend_split Q B id lo hi kvs ids lvs -> pend_split Q' B' id lo hi kvs ids lvs.
Proof.
  intros Hroot HB Hs. unfold pend_split. destruct (Q !! id) as [[sep r]|] eqn:E.
  - intros (k1 & k2 & i1 & i2 & l1 & l2 & H1 & H2 & Hal & Hbe & -> & -> & ->).
    destruct (Hroot _ _ _ _ _ _ H1) as [h Hh].
    rewrite (proj2 (Hs h id ltac:(set_solver))), E. exists k1, k2, i1, i2, l1, l2.
    split_and!; try done; apply HB; try done; (eapply same_on_mono; [exact Hs|set_solver]).
  - intros HBi. destruct (Hroot _ _ _ _ _ _ HBi) as [h Hh].
    rewrite (proj2 (Hs h id Hh)), E. by apply HB.
Qed.

Lemma praw_root_in Q v d id lo hi kvs ids lvs : praw Q v d id lo hi kvs ids lvs -> exists h, (h, id) ∈ ids.
Proof. intros Hp. destruct (praw_root _ _ _ _ _ _ _ _ _ Hp) as [ids' ->]. exists d. left. Qed.

Lemma praw_frame Q Q' v v' d id lo hi kvs ids lvs :
  same_on Q Q' v v' ids -> praw Q v d id lo hi kvs ids lvs -> praw Q' v' d id lo hi kvs ids lvs.
Proof.
  revert id lo hi kvs ids lvs. induction d as [|d IH]; intros id lo hi kvs ids lvs Hs.
  - intros (p & es & Hp & ? & ? & ? & -> & -> & ->). exists p, es. split_and!; try done.
    apply (Hs 0%nat id); [left|done].
  - intros (p & es & ids' & Hp & Hr & Ht & Hw & Hk & ->). exists p, es, ids'. split_and!; try done.
    + apply (Hs (S d) id); [left|done].
    + eapply kids_mono; [exact Hk|]. intros c a b k i l Hn Hi.
      eapply (pend_split_frame Q Q' v v'); [apply praw_root_in|exact IH| |exact Hn].
      eapply same_on_mono; [exact Hs|set_solver].
Qed.

Lemma pnode_frame Q Q' v v' d id lo hi kvs ids lvs :
  same_on Q Q' v v' ids -> pnode Q v d id lo hi kvs ids lvs -> pnode Q' v' d id lo hi kvs ids lvs.
Proof. apply pend_split_frame; [apply praw_root_in|]. intros. by eapply praw_frame. Qed.

Lemma pnode_none Q v d id lo hi kvs ids lvs :
  Q !! id = None -> pnode Q v d id lo hi kvs ids lvs <-> praw Q v d id lo hi kvs ids lvs.
Proof. intros E. unfold pnode, pend_split. by rewrite E. Qed.

(** Heights go down. *)
Lemma kids_forall {A} (R : Z -> option bytes -> option bytes -> list kv -> list A -> list Z -> Prop) (P : A -> Prop)
    lo hi es right kvs ids lvs :
  (forall c a b k i l, R c a b k i l -> Forall P i) ->
  kids R lo hi es right kvs ids lvs -> Forall P ids.
Proof.
  intros HR. revert lo kvs ids lvs. induction es as [|e es IH]; intros lo kvs ids lvs; cbn; [eauto|].
  intros (k1 & k2 & i1 & i2 & l1 & l2 & H1 & H2 & -> & -> & ->). apply Forall_app. eauto.
Qed.

Lemma praw_heights Q v d id lo hi kvs ids lvs :
  praw Q v d id lo hi kvs ids lvs -> Forall (fun hx => (hx.1 < d)%nat \/ hx = (d, id)) ids.
Proof.
  revert id lo hi kvs ids lvs. induction d as [|d IH]; intros id lo hi kvs ids lvs.
  - intros (p & es & _ & _ & _ & _ & _ & -> & _). apply Forall_singleton. by right.
  - intros (p & es & ids' & _ & _ & _ & _ & Hk & ->). constructor; [by right|].
    eapply (kids_forall _ (fun hx => (hx.1 < S d)%nat \/ hx = (S d, id))); [|exact Hk]. intros c a b k i l. unfold pend_split.
    assert (forall c a b k i l, praw Q v d c a b k i l -> Forall (fun hx => (hx.1 < S d)%nat \/ hx = (S d, id)) i) as IH'.
    { intros c' a' b' k' i' l' Hc. eapply list.Forall_impl; [exact (IH _ _ _ _ _ _ Hc)|].
      intros [h x] [?|[= -> ->]]; left; cbn in *; lia. }
    destruct (Q !! c) as [[sep r]|]; [|apply IH'].
    intros (? & ? & i1 & i2 & ? & ? & H1 & H2 & _ & _ & _ & -> & _). apply Forall_app. eauto.
Qed.

Lemma pnode_heights Q v d id lo hi kvs ids lvs h x :
  pnode Q v d id lo hi kvs ids lvs -> (h, x) ∈ ids ->
  (h < d)%nat \/ h = d /\ (x = id \/ exists sep, Q !! id = Some (sep, x)).
Proof.
  unfold pnode, pend_split. destruct (Q !! id) as [[sep r]|] eqn:E.
  - intros (? & ? & i1 & i2 & ? & ? & H1 & H2 & _ & _ & _ & -> & _) [Hx|Hx]%elem_of_app.
    + apply praw_heights in H1. rewrite list.Forall_forall in H1. destruct (H1 _ Hx) as [?|[= -> ->]]; auto.
    + apply praw_heights in H2. rewrite list.Forall_forall in H2. destruct (H2 _ Hx) as [?|[= -> ->]]; eauto.
  - intros Hp Hx. apply praw_heights in Hp. rewrite list.Forall_forall in Hp.
    destruct (Hp _ Hx) as [?|[= -> ->]]; auto.
Qed.

Lemma within_child lo hi ea eb key :
  entries_within lo hi (ea ++ eb) -> within (bound_after lo ea) (first_hi eb hi) key -> within lo hi key.
Proof.
  intros [Hs Hf] [Ha Hb]. rewrite Forall_app in Hf. destruct Hf as [Hfa Hfb]. split.
  - destruct ea as [|e ea]; [done|]. apply keys_sorted_app in Hs as (Hs & _ & _).
    pose proof (bound_after_above lo (e :: ea) key e Hs Ha ltac:(left)) as Hlt.
    eapply above_trans; [apply (Forall_inv Hfa)|]. by apply lex_lt_le.
  - destruct eb as [|e eb]; [done|]. eapply upto_trans; [exact Hb|apply (Forall_inv Hfb)].
Qed.

Lemma pnode_praw Q v d id lo hi kvs ids lvs :
  pnode Q v d id lo hi kvs ids lvs -> exists hi' k i l i2, praw Q v d id lo hi' k i l /\ ids = i ++ i2.
Proof.
  unfold pnode, pend_split. destruct (Q !! id) as [[sep r]|].
  - intros (k1 & k2 & i1 & i2 & l1 & l2 & H1 & _ & _ & _ & _ & -> & _). by exists (Some sep), k1, i1, l1, i2.
  - intros Hp. exists hi, kvs, ids, lvs, []. by rewrite app_nil_r.
Qed.

Lemma pnode_root Q v d id lo hi kvs ids lvs :
  pnode Q v d id lo hi kvs ids lvs -> exists ids', ids = (d, id) :: ids'.
Proof.
  intros Hp. destruct (pnode_praw _ _ _ _ _ _ _ _ _ Hp) as (? & ? & i & ? & i2 & Hr & ->).
  destruct (praw_root _ _ _ _ _ _ _ _ _ Hr) as [i' ->]. by exists (i' ++ i2).
Qed.

(** A descent for any key reaches a leaf [d] levels down. *)
Lemma praw_path Q v d id lo hi kvs ids lvs key :
  praw Q v d id lo hi kvs ids lvs -> NoDup ids.*2 ->
  exists tail, route v key (id :: tail) /\ length tail = d /\ id :: tail ⊆ ids.*2.
Proof.
  revert id lo hi kvs ids lvs. induction d as [|d IH]; intros id lo hi kvs ids lvs.
  - intros (p & es & Hp & _ & Ht & _ & _ & -> & _) _. exists []. split_and!; [|done|done].
    exists p. by rewrite Ht.
  - intros (p & es & ids' & Hp & Hr & Ht & [Hw _] & Hk & ->) Hnd.
    destruct (kids_any _ _ _ _ _ _ _ _ key Hk) as (a & b & k & i & l & i1 & i2 & Hc & ->).
    destruct (pnode_praw Q v d _ _ _ _ _ _ Hc) as (b' & k' & i' & l' & i3 & Hc' & ->).
    cbn [fmap list_fmap] in Hnd. rewrite !fmap_app in Hnd. apply list.NoDup_cons in Hnd as [Hni Hnd].
    apply list.NoDup_app in Hnd as (_ & _ & Hnd). apply list.NoDup_app in Hnd as (Hnd & _ & _).
    apply list.NoDup_app in Hnd as (Hnd & _ & _).
    destruct (IH _ _ _ _ _ _ Hc' Hnd) as (tail & Hrt & Hlen & Hsub).
    set (c := child_at es (next_page_id (header p)) key) in *.
    exists (c :: tail). split_and!; [|cbn; lia|].
    + split; [|done]. exists p. split_and!; try done.
      * by rewrite (child_for_at p es) by (done || apply Hw).
      * intros E. apply Hni. rewrite <- E. specialize (Hsub c ltac:(left)). set_solver.
    + cbn [fmap list_fmap]. rewrite !fmap_app. set_solver.
Qed.

(** A subtree at height [h], the pages above it, and how to put a changed
    subtree in its place. *)
Record spot (Q : pends) (v : Z -> option btree_page) (D : nat) (root : Z) (lo hi : option bytes)
    (kvs : list kv) (ids : list hid) (lvs : list Z) (h : nat) (P : Z) (lo' hi' : option bytes)
    (kc : list kv) (ic : list hid) (lc : list Z) (anc : list Z) (kpre kpost : list kv)
    (ipre ipost : list hid) (lpre lpost : list Z) : Prop := {
  sp_node : pnode Q v h P lo' hi' kc ic lc;
  sp_kvs : kvs = kpre ++ kc ++ kpost;
  sp_ids : ids = ipre ++ ic ++ ipost;
  sp_lvs : lvs = lpre ++ lc ++ lpost;
  sp_len : (length anc + h)%nat = D;
  sp_anc : anc ⊆ ipre.*2;
  sp_head : head (anc ++ [P]) = Some root;
  sp_range : forall key, within lo' hi' key -> within lo hi key;
  sp_route : forall key tail, within lo' hi' key -> route v key (P :: tail) -> route v key (anc ++ P :: tail);
  sp_put : forall Q' v' kc' ic' lc', same_on Q Q' v v' (ipre ++ ipost) ->
    pnode Q' v' h P lo' hi' kc' ic' lc' ->
    pnode Q' v' D root lo hi (kpre ++ kc' ++ kpost) (ipre ++ ic' ++ ipost) (lpre ++ lc' ++ lpost) }.

Lemma spot_top Q v D root lo hi kvs ids lvs :
  pnode Q v D root lo hi kvs ids lvs ->
  spot Q v D root lo hi kvs ids lvs D root lo hi kvs ids lvs [] [] [] [] [] [] [].
Proof.
  constructor; rewrite ?app_nil_r; try done. intros Q' v' kc' ic' lc'. by rewrite !app_nil_r.
Qed.

Lemma pnode_spot Q v D root lo hi kvs ids lvs h d X :
  pnode Q v D root lo hi kvs ids lvs -> NoDup ids.*2 -> (h <= D)%nat -> (d <= h)%nat -> (d, X) ∈ ids ->
  (forall h' x, (h', x) ∈ ids -> (h < h')%nat -> Q !! x = None) ->
  exists P lo' hi' kc ic lc anc kpre kpost ipre ipost lpre lpost,
    spot Q v D root lo hi kvs ids lvs h P lo' hi' kc ic lc anc kpre kpost ipre ipost lpre lpost /\
    (d, X) ∈ ic.
Proof.
  revert root lo hi kvs ids lvs. induction D as [|D IH]; intros root lo hi kvs ids lvs Hp Hnd Hh Hd Hx Hq.
  { assert (h = 0%nat) as -> by lia. do 13 eexists. split; [by apply spot_top|done]. }
  destruct (decide (h = S D)) as [->|Hne].
  { do 13 eexists. split; [by apply spot_top|done]. }
  destruct (pnode_root _ _ _ _ _ _ _ _ _ Hp) as [i0 Ei].
  assert (Q !! root = None) as HQr by (apply (Hq (S D)); [rewrite Ei; left|lia]).
  apply pnode_none in Hp; [|done]. destruct Hp as (p & es & ids' & Hv & Hr & Ht & [Hw Hbw] & Hk & ->). clear Ei i0.
  apply elem_of_cons in Hx as [[= -> ->]|Hx]; [lia|].
  destruct (kids_find _ _ _ _ _ _ _ _ _ Hk Hx) as (ea & eb & k1 & k2 & k3 & i1 & i2 & i3 & l1 & l2 & l3
    & -> & Hpre & Hc & Hpost & Hx2 & -> & -> & ->).
  set (c := first_child eb (next_page_id (header p))) in *.
  cbn [fmap list_fmap] in Hnd. rewrite !fmap_app in Hnd. apply list.NoDup_cons in Hnd as [Hni Hnd].
  assert (NoDup i2.*2) as Hnd2.
  { apply list.NoDup_app in Hnd as (_ & _ & Hnd). by apply list.NoDup_app in Hnd as (? & _ & _). }
  destruct (IH c _ _ _ _ _ Hc Hnd2 ltac:(lia) Hd Hx2) as (P & lo' & hi' & kc & ic & lc & anc & kpre & kpost
    & ipre & ipost & lpre & lpost & [] & Hxc).
  { intros h' x Hin. apply Hq. set_solver. }
  exists P, lo', hi', kc, ic, lc, (root :: anc), (k1 ++ kpre), (kpost ++ k3), ((S D, root) :: i1 ++ ipre),
    (ipost ++ i3), (l1 ++ lpre), (lpost ++ l3).
  split; [|done]. subst k2 i2 l2. constructor; try done.
  - by rewrite <- !app_assoc.
  - cbn. by rewrite <- !app_assoc.
  - by rewrite <- !app_assoc.
  - cbn. lia.
  - cbn [fmap list_fmap]. rewrite fmap_app. set_solver.
  - intros key Hkey. eapply within_child; [exact Hw|]. by apply sp_range0.
  - intros key tail Hkey Hrt. specialize (sp_route0 key tail Hkey Hrt).
    assert (exists rest, anc ++ P :: tail = c :: rest) as [rest E].
    { destruct anc as [|a anc]; cbn in *; [|by injection sp_head0 as ->; eexists].
      injection sp_head0 as ->. by eexists. }
    cbn [app]. rewrite E in *. split; [|done]. exists p. split_and!; try done.
    + rewrite (child_for_at p (ea ++ eb)) by (done || apply Hw).
      eapply child_at_between; [|by apply sp_range0]. by destruct (proj1 (keys_sorted_app ea eb) (proj1 Hw)).
    + intros Ec. apply Hni. rewrite <- Ec.
      assert (c ∈ (ipre ++ ic ++ ipost).*2) as Hcin.
      { destruct (pnode_root _ _ _ _ _ _ _ _ _ Hc) as [i' Ei']. rewrite Ei'. cbn. left. }
      set_solver.
  - intros Q' v' kc' ic' lc' Hs Hn. apply pnode_none.
    { rewrite <- HQr. apply (Hs (S D) root). left. }
    assert (same_on Q Q' v v' (i1 ++ ipre ++ ipost ++ i3)) as Hs'.
    { eapply same_on_mono; [exact Hs|]. set_solver. }
    exists p, (ea ++ eb), (i1 ++ (ipre ++ ic' ++ ipost) ++ i3). split_and!; try done.
    + apply (Hs (S D) root); [left|done].
    + apply kids_app. exists k1, ((kpre ++ kc' ++ kpost) ++ k3), i1, ((ipre ++ ic' ++ ipost) ++ i3),
        l1, ((lpre ++ lc' ++ lpost) ++ l3). split_and!.
      * eapply kids_pre_mono; [exact Hpre|]. intros. eapply (pnode_frame Q Q' v v'); [|done].
        eapply same_on_mono; [exact Hs'|set_solver].
      * apply kids_first. do 6 eexists. split_and!; [apply sp_put0; [|exact Hn]| |done|done|done].
        -- eapply same_on_mono; [exact Hs'|set_solver].
        -- eapply kids_post_mono; [exact Hpost|]. intros. eapply (pnode_frame Q Q' v v'); [|done].
           eapply same_on_mono; [exact Hs'|set_solver].
      * by rewrite <- !app_assoc.
      * done.
      * by rewrite <- !app_assoc.
    + cbn. by rewrite <- !app_assoc.
Qed.

(** ** A separator reaches the parent *)
Definition redirect (r : Z) (es : list entry) : list entry :=
  match es with [] => [] | e :: es' => mkEntry (e_key e) (e_value e) r :: es' end.
Definition new_right (r : Z) (es : list entry) (right : Z) : Z :=
  match es with [] => r | _ => right end.

Lemma bound_after_gt lo es key :
  keys_sorted es -> above lo key -> (forall e, e ∈ es -> lex_lt (e_key e) key) ->
  above (bound_after lo es) key.
Proof.
  revert lo. induction es as [|e es IH]; intros lo Hs Ha Hf; [done|]. cbn. apply IH.
  - by inversion Hs.
  - apply Hf. left.
  - intros x Hx. apply Hf. by right.
Qed.

Lemma separators_insert lo hi ea eb sep X R :
  separators lo hi (ea ++ eb) -> above (bound_after lo ea) sep -> below (first_hi eb hi) sep ->
  separators lo hi (ea ++ mkEntry sep [] X :: redirect R eb).
Proof.
  intros [Hw Hb] Ha Hbe. pose proof Hw as [Hs Hf]. apply keys_sorted_app in Hs as (Hsa & Hsb & Hab).
  assert (forall e, e ∈ ea -> lex_lt (e_key e) sep) as Hlt by (intros; by apply (bound_after_above lo ea)).
  assert (forall e, e ∈ redirect R eb -> exists e', e' ∈ eb /\ e_key e = e_key e') as Hred.
  { intros e He. destruct eb as [|x eb]; cbn in *; [set_solver|].
    apply elem_of_cons in He as [->|He]; [exists x; split; [left|done]|exists e; split; [by right|done]]. }
  assert (keys_sorted (redirect R eb)) as Hsr.
  { destruct eb as [|x eb]; [done|]. cbn. inversion Hsb as [|? ? ? Hfx]; subst. constructor; [done|].
    eapply list.Forall_impl; [exact Hfx|]. done. }
  assert (forall e, e ∈ eb -> lex_lt sep (e_key e)) as Hgt.
  { intros e He. destruct eb as [|x eb]; [set_solver|]. cbn in Hbe.
    apply elem_of_cons in He as [->|He]; [done|]. inversion Hsb as [|? ? _ Hfx]; subst.
    rewrite list.Forall_forall in Hfx. eapply lex_lt_le_trans; [exact Hbe|]. by apply lex_lt_le, Hfx. }
  assert (below hi sep) as Hbs.
  { destruct eb as [|x eb]; [done|]. destruct hi as [h|]; [|done]. cbn in *.
    rewrite Forall_app in Hf. destruct Hf as [_ Hf]. destruct (Forall_inv Hf) as [_ Hu].
    by eapply lex_lt_le_trans. }
  assert (within lo hi sep) as Hws.
  { split; [|destruct hi; [by apply lex_lt_le|done]].
    destruct ea as [|x ea]; [done|]. rewrite Forall_app in Hf. destruct Hf as [Hf _].
    eapply above_trans; [apply (Forall_inv Hf)|]. apply lex_lt_le, Hlt. left. }
  rewrite Forall_app in Hf, Hb. destruct Hf as [Hfa Hfb], Hb as [Hba Hbb].
  assert (forall P : bytes -> Prop, Forall (fun e => P (e_key e)) eb -> Forall (fun e => P (e_key e)) (redirect R eb)) as Htr.
  { intros P HP. rewrite list.Forall_forall in *. intros e He. destruct (Hred e He) as (e' & He' & ->). by apply HP. }
  split.
  - change (mkEntry sep [] X :: redirect R eb) with ([mkEntry sep [] X] ++ redirect R eb).
    split; cycle 1.
    { rewrite !Forall_app, Forall_singleton. split_and!; [exact Hfa|exact Hws|exact (Htr (within lo hi) Hfb)]. }
    rewrite !keys_sorted_app. split_and!; try done; [repeat constructor| |].
    + intros x y ->%list_elem_of_singleton Hy. destruct (Hred y Hy) as (e' & He' & E).
      unfold entry_lt. cbn. rewrite E. by apply Hgt.
    + intros x y Hx [->%list_elem_of_singleton|Hy]%elem_of_app; [by apply Hlt|].
      destruct (Hred y Hy) as (e' & He' & E). unfold entry_lt. rewrite E. by apply (Hab x e').
  - apply Forall_app. split; [exact Hba|]. constructor; [exact Hbs|exact (Htr (below hi) Hbb)].
Qed.

Lemma kids_pre_child {A} R (P : Z -> A) lo es kvs ids lvs e :
  (forall c a b k i l, R c a b k i l -> P c ∈ i) -> kids_pre R lo es kvs ids lvs -> e ∈ es ->
  P (e_child e) ∈ ids.
Proof.
  intros HR. revert lo kvs ids lvs. induction es as [|x es IH]; intros lo kvs ids lvs Hk He; [set_solver|].
  destruct Hk as (k1 & k2 & i1 & i2 & l1 & l2 & H1 & H2 & -> & -> & ->).
  apply elem_of_cons in He as [->|He]; apply elem_of_app; eauto.
Qed.

(** The parent of a page whose split is pending, the route of the separator
    through it, and the tree once the parent holds the separator. *)
Record parent_spot (Q : pends) (v : Z -> option btree_page) (D : nat) (root : Z) (kvs : list kv)
    (ids : list hid) (lvs : list Z) (d : nat) (X : Z) (sep : bytes) (R : Z)
    (P : Z) (p : btree_page) (ea eb : list entry) (anc tail : list Z) : Prop := {
  pa_in : (S d, P) ∈ ids;
  pa_page : v P = Some p;
  pa_repr : page_repr p (ea ++ eb);
  pa_type : page_type (header p) = PAGE_TYPE_INTERNAL;
  pa_child : first_child eb (next_page_id (header p)) = X;
  pa_before : forall e, e ∈ ea -> e_child e <> X;
  pa_head : head (anc ++ [P]) = Some root;
  pa_route : route v sep (anc ++ P :: X :: tail);
  pa_len : length (anc ++ P :: X :: tail) = S D;
  pa_sub : anc ++ P :: X :: tail ⊆ ids.*2;
  pa_notin : X ∉ anc ++ [P];
  pa_put : forall v' p', (forall x q, x <> P -> x ∈ ids.*2 -> v x = Some q -> v' x = Some q) ->
    v' P = Some p' -> page_repr p' (ea ++ mkEntry sep [] X :: redirect R eb) ->
    page_type (header p') = PAGE_TYPE_INTERNAL ->
    next_page_id (header p') = new_right R eb (next_page_id (header p)) ->
    pnode (delete X Q) v' D root None None kvs ids lvs }.

Lemma pnode_in Q v d id lo hi kvs ids lvs : pnode Q v d id lo hi kvs ids lvs -> (d, id) ∈ ids.
Proof. intros Hp. destruct (pnode_root _ _ _ _ _ _ _ _ _ Hp) as [i ->]. left. Qed.

Lemma fst_hid_in (h : nat) (x : Z) (ids : list hid) : (h, x) ∈ ids -> x ∈ ids.*2.
Proof. intros Hx. apply list_elem_of_fmap. by exists (h, x). Qed.

Lemma nodup_mid {A} (a b : list A) x : NoDup (a ++ x :: b) -> x ∉ a /\ x ∉ b.
Proof.
  intros (_ & Hd & Hb)%list.NoDup_app. apply list.NoDup_cons in Hb as [Hb _]. split; [|done].
  intros Hx. apply (Hd _ Hx). left.
Qed.

Ltac set_clear := repeat match goal with H : ?T |- _ =>
  match T with context [_ ⊆ _] => fail 1 | _ => clear H end end; set_solver.

Lemma pnode_parent Q v D root kvs ids lvs d X sep R :
  pnode Q v D root None None kvs ids lvs -> NoDup ids.*2 -> (d, X) ∈ ids -> (d < D)%nat ->
  Q !! X = Some (sep, R) -> Q !! R = None -> (forall c s, Q !! c <> Some (s, X)) ->
  (forall h x, (h, x) ∈ ids -> (d < h)%nat -> Q !! x = None) ->
  exists P p ea eb anc tail, parent_spot Q v D root kvs ids lvs d X sep R P p ea eb anc tail.
Proof.
  intros Hn Hnd Hx Hd HQX HQR Hnr Hq.
  destruct (pnode_spot Q v D root None None kvs ids lvs (S d) d X Hn Hnd ltac:(lia) ltac:(lia) Hx)
    as (P & lo & hi & kc & ic & lc & anc & kpre & kpost & ipre & ipost & lpre & lpost & [] & Hxc).
  { intros h x Hin Hh. apply (Hq h x Hin). lia. }
  destruct (pnode_root _ _ _ _ _ _ _ _ _ sp_node0) as [i0 Ei0].
  assert ((S d, P) ∈ ids) as HPin by (rewrite sp_ids0, Ei0; set_solver).
  assert (Q !! P = None) as HQP by (apply (Hq _ _ HPin); lia). clear Ei0 i0.
  apply pnode_none in sp_node0; [|done]. destruct sp_node0 as (p & es & ids' & Hp & Hr & Ht & Hsep & Hk & ->).
  apply elem_of_cons in Hxc as [[= E _]|Hxc]; [lia|].
  destruct (kids_find _ _ _ _ _ _ _ _ _ Hk Hxc) as (ea & eb & k1 & k2 & k3 & i1 & i2 & i3 & l1 & l2 & l3
    & -> & Hpre & Hc & Hpost & Hx2 & -> & -> & ->).
  set (c := first_child eb (next_page_id (header p))) in *.
  assert (c = X) as HcX.
  { destruct (pnode_heights Q v d _ _ _ _ _ _ _ _ Hc Hx2) as [?|[_ [->|[s HQc]]]]; [lia|done|].
    by destruct (Hnr c s). }
  rewrite HcX in Hc. unfold pend_split in Hc. rewrite HQX in Hc.
  destruct Hc as (ka & kb & ia & ib & la & lb & Ha & Hb & Habv & Hbel & -> & -> & ->).
  destruct (praw_root _ _ _ _ _ _ _ _ _ Ha) as [ia' Eia]. destruct (praw_root _ _ _ _ _ _ _ _ _ Hb) as [ib' Eib].
  assert (ids.*2 = ipre.*2 ++ P :: (i1 ++ ((ia ++ ib) ++ i3) ++ ipost).*2) as EP.
  { subst ids. rewrite ?fmap_app. cbn [fmap list_fmap app]. rewrite ?fmap_app, <- ?app_assoc.
    cbn [app]. by rewrite <- ?app_assoc. }
  assert (ids.*2 = (ipre.*2 ++ P :: i1.*2) ++ X :: (ia' ++ ib ++ i3 ++ ipost).*2) as EX.
  { rewrite EP, Eia. rewrite ?fmap_app. cbn [fmap list_fmap app]. rewrite ?fmap_app, <- ?app_assoc.
    cbn [app]. by rewrite <- ?app_assoc. }
  destruct (nodup_mid _ _ _ (eq_ind _ NoDup Hnd _ EP)) as [HP1 HP2].
  destruct (nodup_mid _ _ _ (eq_ind _ NoDup Hnd _ EX)) as [HX1 HX2].
  assert (NoDup ia.*2) as Hnda.
  { rewrite EX in Hnd. apply list.NoDup_app in Hnd as (_ & _ & Hnd). rewrite fmap_app in Hnd.
    rewrite Eia. by apply (list.NoDup_app (X :: ia'.*2)) in Hnd as (? & _ & _). }
  assert (X ∈ ids.*2 /\ P ∈ ids.*2) as [HXin HPin2] by (split; eapply fst_hid_in; eassumption).
  assert (X <> P) as HXP by (intros ->; apply HX1; clear; set_solver).
  assert (X <> R) as HXR.
  { intros ->. apply HX2. rewrite Eib, !fmap_app. clear. set_solver. }
  destruct (praw_path _ _ _ _ _ _ _ _ _ sep Ha Hnda) as (tail & Hrt & Htl & Htsub).
  assert (within lo hi sep) as Hws.
  { eapply within_child; [apply Hsep|]. split; [exact Habv|].
    destruct (first_hi eb hi); [by apply lex_lt_le|done]. }
  exists P, p, ea, eb, anc, tail. constructor; try done.
  - intros e He E.
    pose proof (kids_pre_child _ (pair d) _ _ _ _ _ e (pnode_in Q v d) Hpre He) as Hin.
    rewrite E in Hin. apply fst_hid_in in Hin. apply HX1. clear -Hin. set_solver.
  - apply sp_route0; [done|]. split; [|done]. exists p. split_and!; try done.
    rewrite (child_for_at p (ea ++ eb)) by (done || apply Hsep). rewrite <- HcX.
    eapply (child_at_between ea eb _ lo hi); [by destruct (proj1 (keys_sorted_app ea eb) (proj1 (proj1 Hsep)))|].
    split; [exact Habv|]. destruct (first_hi eb hi); [by apply lex_lt_le|done].
  - rewrite length_app. cbn. lia.
  - assert (X :: tail ⊆ ids.*2) as Ht2.
    { transitivity (ia.*2); [done|]. rewrite EP, !fmap_app. clear. set_solver. }
    assert (anc ⊆ ids.*2) as Ha2 by (rewrite EP; clear -sp_anc0; set_solver).
    clear -Ha2 Ht2 HPin2. set_solver.
  - clear -HX1 sp_anc0 HXP. set_solver.
  - intros v' p' Hv Hp' Hr' Ht' Hnx.
    assert (forall i, i ⊆ ipre ++ i1 ++ ia' ++ ib ++ i3 ++ ipost -> same_on Q (delete X Q) v v' i) as Hs.
    { intros i Hi h x Hin. specialize (Hi _ Hin). apply fst_hid_in in Hi. clear Hin.
      assert (x <> P) as HxP.
      { intros ->. rewrite !fmap_app in Hi, HP2. rewrite Eia in HP2. cbn [fmap list_fmap] in HP2.
        clear -Hi HP1 HP2. set_solver. }
      assert (x <> X) as HxX.
      { intros ->. rewrite !fmap_app in Hi, HX2. clear -Hi HX1 HX2. set_solver. }
      split; [|by rewrite lookup_delete_ne]. intros q. apply Hv; [done|].
      rewrite EX, !fmap_app. rewrite !fmap_app in Hi. clear -Hi. set_solver. }
    rewrite sp_kvs0, sp_ids0, sp_lvs0.
    apply sp_put0; [apply Hs; clear; set_solver|]. apply pnode_none; [by rewrite lookup_delete_ne|].
    exists p', (ea ++ mkEntry sep [] X :: redirect R eb), (i1 ++ (ia ++ ib) ++ i3). split_and!; try done.
    + by apply separators_insert.
    + apply kids_app. exists k1, ((ka ++ kb) ++ k3), i1, ((ia ++ ib) ++ i3), l1, ((la ++ lb) ++ l3).
      split_and!; try done.
      { eapply kids_pre_mono; [exact Hpre|]. intros c1 a b k i l Hc1 Hi.
        eapply (pnode_frame Q (delete X Q) v v'); [|done]. apply Hs. set_clear. }
      assert (praw (delete X Q) v' d X (bound_after lo ea) (Some sep) ka ia la) as Ha'.
      { destruct d as [|d].
        - destruct Ha as (q & fs & Hqv & ? & ? & ? & -> & -> & ->). exists q, fs. split_and!; try done.
          by apply Hv.
        - destruct Ha as (q & fs & j & Hqv & ? & ? & ? & Hkj & E). rewrite Eia in E. injection E as ->.
          exists q, fs, j. split_and!; try done.
          + by apply Hv.
          + eapply kids_mono; [exact Hkj|]. intros c1 a b k i l Hc1 Hi.
            eapply (pnode_frame Q (delete X Q) v v'); [|done]. apply Hs. set_clear. }
      assert (pnode (delete X Q) v' d R (Some sep) (first_hi eb hi) kb ib lb) as Hb'.
      { apply pnode_none; [by rewrite lookup_delete_ne|].
        eapply (praw_frame Q (delete X Q) v v'); [|done]. apply Hs. set_clear. }
      cbn [kids]. exists ka, (kb ++ k3), ia, (ib ++ i3), la, (lb ++ l3). rewrite <- !app_assoc.
      split_and!; try done; [by apply pnode_none; [rewrite lookup_delete_eq|]|].
      assert (kids_post (pend_split (delete X Q) (praw (delete X Q) v' d)) hi eb (next_page_id (header p)) k3 i3 l3) as Hp3.
      { eapply kids_post_mono; [exact Hpost|]. intros c1 a b k i l Hc1 Hi.
        eapply (pnode_frame Q (delete X Q) v v'); [|done]. apply Hs. set_clear. }
      apply kids_first. rewrite Hnx. exists kb, k3, ib, i3, lb, l3.
      destruct eb as [|e eb]; split_and!; (done || exact Hb' || exact Hp3).
Qed.

(** ** A page is cut in two *)

(** [p] with entries [es] becomes [p1] and, on a new page [R], [p2]. *)
Inductive cut (R : Z) (p : btree_page) (es : list entry) (p1 p2 : btree_page) (sep : bytes) : Prop :=
| cut_leaf k e :
    (0 < k < length es)%nat -> es !! (k - 1)%nat = Some e -> sep = e_key e ->
    page_type (header p) = PAGE_TYPE_LEAF ->
    page_repr p1 (take k es) -> page_repr p2 (drop k es) ->
    page_type (header p1) = PAGE_TYPE_LEAF -> page_type (header p2) = PAGE_TYPE_LEAF ->
    next_page_id (header p1) = R -> next_page_id (header p2) = next_page_id (header p) ->
    cut R p es p1 p2 sep
| cut_inner k e :
    es !! k = Some e -> sep = e_key e -> page_type (header p) = PAGE_TYPE_INTERNAL ->
    page_repr p1 (take k es) -> page_repr p2 (drop (S k) es) ->
    page_type (header p1) = PAGE_TYPE_INTERNAL -> page_type (header p2) = PAGE_TYPE_INTERNAL ->
    next_page_id (header p1) = e_child e -> next_page_id (header p2) = next_page_id (header p) ->
    cut R p es p1 p2 sep.

Lemma entries_within_cut lo hi ea e eb :
  entries_within lo hi (ea ++ e :: eb) ->
  entries_within lo (Some (e_key e)) ea /\ entries_within lo (Some (e_key e)) (ea ++ [e]) /\
  entries_within (Some (e_key e)) hi eb /\ within lo hi (e_key e) /\
  Forall (fun x => below (Some (e_key e)) (e_key x)) ea /\ Forall (fun x => below hi (e_key e)) eb.
Proof.
  intros [Hs Hf]. apply keys_sorted_app in Hs as (Hsa & Hsb & Hab).
  inversion Hsb as [|? ? Hsb' Hfe]; subst. rewrite Forall_app in Hf. destruct Hf as [Hfa Hfb].
  inversion Hfb as [|? ? Hwe Hfb']; subst.
  assert (Forall (fun x => within lo (Some (e_key e)) (e_key x)) ea) as Hwa.
  { rewrite list.Forall_forall in *. intros x Hx. split; [by apply Hfa|]. apply lex_lt_le, Hab; [done|left]. }
  split_and!; try done.
  - split; [|apply Forall_app; split; [done|]; apply Forall_singleton; split; [apply Hwe|]].
    + apply keys_sorted_app. split_and!; [done|repeat constructor|].
      intros x y Hx ->%list_elem_of_singleton. apply Hab; [done|left].
    + cbn. by apply lex_le_alt; right.
  - split; [done|]. rewrite list.Forall_forall in *. intros x Hx. split; [by apply Hfe|by apply Hfb'].
  - rewrite list.Forall_forall in *. intros x Hx. apply Hab; [done|left].
  - rewrite list.Forall_forall in *. intros x Hx. destruct hi as [h|]; [|done]. cbn.
    eapply lex_lt_le_trans; [by apply Hfe|]. by apply Hfb'.
Qed.

(** The subtree of a cut page is the pair of subtrees of its halves. *)
Lemma praw_cut Q v v' d N R lo hi kvs ids lvs p es p1 p2 sep :
  praw Q v d N lo hi kvs ((d, N) :: ids) lvs -> v N = Some p -> page_repr p es ->
  cut R p es p1 p2 sep -> v' N = Some p1 -> v' R = Some p2 ->
  same_on Q (<[N := (sep, R)]> Q) v v' ids ->
  above lo sep /\ below hi sep /\ exists k1 k2 i1 i2 l1 l2,
    praw (<[N := (sep, R)]> Q) v' d N lo (Some sep) k1 ((d, N) :: i1) l1 /\
    praw (<[N := (sep, R)]> Q) v' d R (Some sep) hi k2 ((d, R) :: i2) l2 /\
    kvs = k1 ++ k2 /\ ids = i1 ++ i2 /\
    l1 ++ l2 = (if decide (d = 0%nat) then [N; R] else lvs).
Proof.
  set (Q' := <[N := (sep, R)]> Q). intros Hp Hv Hr Hcut Hv1 Hv2 Hs. destruct d as [|d].
  - destruct Hp as (q & fs & Hq & Hrq & Ht & Hw & -> & [= ->] & ->). assert (q = p) as -> by congruence.
    rewrite (page_repr_inj _ _ _ Hrq Hr) in *. clear Hrq fs.
    inversion Hcut as [k e Hk He Hsep _ Hr1 Hr2 Ht1 Ht2 Hn1 Hn2|k e He Hsep Ht']; [|by rewrite Ht in Ht'].
    assert (es = take (k - 1) es ++ e :: drop k es) as Ees.
    { rewrite <- (take_drop_middle es (k - 1) e He) at 1. by replace (S (k - 1)) with k by lia. }
    assert (take k es = take (k - 1) es ++ [e]) as Etk.
    { replace k with (S (k - 1)) at 1 by lia. by apply take_S_r. }
    pose proof Hw as Hw'. rewrite Ees in Hw'.
    destruct (entries_within_cut _ _ _ _ _ Hw') as (_ & Hwa & Hwb & [Hla _] & _ & Hbe). rewrite <- Hsep in *.
    split_and!; [done| |].
    + destruct (lookup_lt_is_Some_2 (drop k es) 0) as [y Hy]; [rewrite length_drop; lia|].
      rewrite list.Forall_forall in Hbe. apply (Hbe y). by eapply list_elem_of_lookup_2.
    + exists (map pair_of (take k es)), (map pair_of (drop k es)), [], [], [N], [R].
      split_and!; try done.
      * exists p1, (take k es). rewrite Etk in *. split_and!; done.
      * exists p2, (drop k es). split_and!; done.
      * by rewrite <- map_app, take_drop.
  - destruct Hp as (q & fs & j & Hq & Hrq & Ht & [Hw Hb] & Hk & [= ->]). assert (q = p) as -> by congruence.
    rewrite (page_repr_inj _ _ _ Hrq Hr) in *. clear Hrq fs.
    inversion Hcut as [k e _ _ _ Ht'|k e He Hsep _ Hr1 Hr2 Ht1 Ht2 Hn1 Hn2]; [by rewrite Ht in Ht'|].
    pose proof (take_drop_middle es k e He) as Ees. rewrite <- Ees in Hw, Hb, Hk.
    destruct (entries_within_cut _ _ _ _ _ Hw) as (Hwa & _ & Hwb & [Hla _] & Hba & _). rewrite <- Hsep in *.
    apply Forall_app in Hb as [_ Hb]. apply Forall_cons_1 in Hb as [Hbe Hbb]. rewrite <- Hsep in Hbe.
    apply kids_app in Hk as (k1 & k2 & i1 & i2 & l1 & l2 & Hpre & (k3 & k4 & i3 & i4 & l3 & l4 & Hc & Hpost
      & -> & -> & ->) & -> & -> & ->). rewrite <- Hsep in *.
    split_and!; [done|done|].
    exists (k1 ++ k3), k4, (i1 ++ i3), i4, (l1 ++ l3), l4. rewrite <- !app_assoc. split_and!; try done.
    + exists p1, (take k es), (i1 ++ i3). split_and!; try done. rewrite Hn1.
      rewrite <- (app_nil_r (take k es)). apply kids_app. exists k1, k3, i1, i3, l1, l3. split_and!; try done.
      * eapply kids_pre_mono; [exact Hpre|]. intros c a b k5 i l Hc1 Hi.
        eapply (pnode_frame Q Q' v v'); [|done]. eapply same_on_mono; [exact Hs|]. set_clear.
      * eapply (pnode_frame Q Q' v v'); [|exact Hc]. eapply same_on_mono; [exact Hs|]. set_clear.
    + exists p2, (drop (S k) es), i4. split_and!; try done. rewrite Hn2.
      eapply kids_mono; [exact Hpost|]. intros c a b k5 i l Hc1 Hi.
      eapply (pnode_frame Q Q' v v'); [|done]. eapply same_on_mono; [exact Hs|]. set_clear.
Qed.

(** The leaf chain after a leaf was cut. *)
Lemma leaf_chain_cut v v' a N R b p p1 p2 :
  leaf_chain v (a ++ N :: b) -> v N = Some p -> v' N = Some p1 -> v' R = Some p2 ->
  next_page_id (header p1) = R -> next_page_id (header p2) = next_page_id (header p) ->
  (forall x q, x ∈ a ++ b -> v x = Some q -> v' x = Some q) -> leaf_chain v' (a ++ N :: R :: b).
Proof.
  intros Hc Hp Hp1 Hp2 Hn1 Hn2 Hf. induction a as [|x a IH].
  - destruct Hc as [(q & Hq & Hn) Hc]. assert (q = p) as -> by congruence. cbn in *. split_and!.
    + by exists p1.
    + exists p2. split; [done|]. congruence.
    + eapply leaf_chain_frame; [|exact Hc]. intros y q Hy Hq'. exists q. split; [by apply Hf|done].
  - destruct Hc as [(q & Hq & Hn) Hc]. split.
    + exists q. split; [apply Hf; [left|done]|]. rewrite Hn. by destruct a.
    + apply IH; [done|]. intros y z Hy. apply Hf. by right.
Qed.

(** The leaves are the pages of height 0, in order. *)
Definition leaf_ids (ids : list hid) : list Z :=
  omap (fun hx : hid => match hx.1 with O => Some hx.2 | _ => None end) ids.

Lemma leaf_ids_elem ids x : x ∈ leaf_ids ids <-> (0%nat, x) ∈ ids.
Proof.
  unfold leaf_ids. rewrite list_elem_of_omap. split.
  - intros ([[|h] y] & Hy & E); cbn in E; [|done]. by injection E as ->.
  - intros Hx. by exists (0%nat, x).
Qed.

Lemma leaf_ids_nodup ids : NoDup ids.*2 -> NoDup (leaf_ids ids).
Proof.
  induction ids as [|[h x] ids IH]; [done|]. cbn [fmap list_fmap]. intros [Hx Hnd]%list.NoDup_cons.
  destruct h as [|h]; cbn; [|by apply IH]. apply list.NoDup_cons. split; [|by apply IH].
  intros Hin%leaf_ids_elem. apply Hx. by eapply fst_hid_in.
Qed.

Lemma pend_split_leaves Q (B : subtree) :
  (forall id lo hi kvs ids lvs, B id lo hi kvs ids lvs -> lvs = leaf_ids ids) ->
  forall id lo hi kvs ids lvs, pend_split Q B id lo hi kvs ids lvs -> lvs = leaf_ids ids.
Proof.
  intros HB id lo hi kvs ids lvs. unfold pend_split. destruct (Q !! id) as [[sep r]|]; [|apply HB].
  intros (? & ? & ? & ? & ? & ? & H1 & H2 & _ & _ & _ & -> & ->). unfold leaf_ids. rewrite omap_app.
  f_equal; by eapply HB.
Qed.

Lemma pnode_leaves Q v d id lo hi kvs ids lvs :
  pnode Q v d id lo hi kvs ids lvs -> lvs = leaf_ids ids.
Proof.
  apply pend_split_leaves. clear. induction d as [|d IH]; intros id lo hi kvs ids lvs.
  - by intros (p & es & _ & _ & _ & _ & _ & -> & ->).
  - intros (p & es & ids' & _ & _ & _ & _ & Hk & ->). change (leaf_ids (_ :: ids')) with (leaf_ids ids').
    revert lo kvs ids' lvs Hk. induction es as [|e es IHes]; intros lo kvs ids' lvs Hk; cbn in Hk.
    { by eapply pend_split_leaves. }
    destruct Hk as (k1 & k2 & i1 & i2 & l1 & l2 & H1 & H2 & -> & -> & ->).
    unfold leaf_ids. rewrite omap_app. f_equal; [by eapply pend_split_leaves|by eapply IHes].
Qed.

(** A page has one height. *)
Lemma hid_height (ids : list hid) h h' x : NoDup ids.*2 -> (h, x) ∈ ids -> (h', x) ∈ ids -> h = h'.
Proof.
  induction ids as [|[k y] ids IH]; cbn [fmap list_fmap]; [set_solver|].
  intros [Hy Hnd]%list.NoDup_cons [E1|H1]%elem_of_cons [E2|H2]%elem_of_cons.
  - congruence.
  - injection E1 as -> ->. by apply fst_hid_in in H2.
  - injection E2 as -> ->. by apply fst_hid_in in H1.
  - by apply IH.
Qed.

(** Cutting a page of a tree that has no pending split at its height or
    above. *)
Lemma pnode_cut Q v D root kvs ids lvs d N :
  pnode Q v D root None None kvs ids lvs -> NoDup ids.*2 -> (d, N) ∈ ids ->
  (forall h x, (h, x) ∈ ids -> (d <= h)%nat -> Q !! x = None) ->
  exists p es, v N = Some p /\ page_repr p es /\ keys_sorted es /\
    page_type (header p) = (if decide (d = 0%nat) then PAGE_TYPE_LEAF else PAGE_TYPE_INTERNAL) /\
  forall v' R p1 p2 sep, R ∉ ids.*2 -> cut R p es p1 p2 sep -> v' N = Some p1 -> v' R = Some p2 ->
  (forall x q, x <> N -> x ∈ ids.*2 -> v x = Some q -> v' x = Some q) ->
  exists ids' lvs', pnode (<[N := (sep, R)]> Q) v' D root None None kvs ids' lvs' /\
    ids' ≡ₚ (d, R) :: ids /\ (leaf_chain v lvs -> leaf_chain v' lvs').
Proof.
  intros Hn Hnd HN Hq.
  assert (d <= D)%nat as HdD.
  { destruct (pnode_heights _ _ _ _ _ _ _ _ _ _ _ Hn HN) as [?|[? _]]; lia. }
  destruct (pnode_spot Q v D root None None kvs ids lvs d d N Hn Hnd HdD ltac:(lia) HN)
    as (P & lo & hi & kc & ic & lc & anc & kpre & kpost & ipre & ipost & lpre & lpost & Hsp & HNc).
  { intros h x Hin Hh. apply (Hq h x Hin). lia. }
  pose proof (pnode_leaves _ _ _ _ _ _ _ _ _ Hn) as Hlv.
  destruct Hsp. pose proof (pnode_in _ _ _ _ _ _ _ _ _ sp_node0) as HPin.
  assert (Q !! P = None) as HQP by (apply (Hq d P); [subst ids; clear -HPin; set_solver|lia]).
  destruct (pnode_heights _ _ _ _ _ _ _ _ _ _ _ sp_node0 HNc) as [?|[_ [->|[s' E]]]]; [lia| |congruence].
  apply pnode_none in sp_node0; [|done]. destruct (praw_root _ _ _ _ _ _ _ _ _ sp_node0) as [ic' ->].
  assert (exists p es, v P = Some p /\ page_repr p es /\ keys_sorted es /\
    page_type (header p) = (if decide (d = 0%nat) then PAGE_TYPE_LEAF else PAGE_TYPE_INTERNAL)) as
    (p & es & Hv & Hr & Hso & Ht).
  { destruct d as [|d]; [destruct sp_node0 as (p & es & ? & ? & ? & [? _] & _)
      |destruct sp_node0 as (p & es & ? & ? & ? & ? & [[? _] _] & _)]; by exists p, es. }
  exists p, es. split_and!; try done. intros v' R p1 p2 sep HR Hcut Hv1 Hv2 Hf.
  assert (ids.*2 = ipre.*2 ++ P :: (ic' ++ ipost).*2) as EP.
  { subst ids. rewrite ?fmap_app. cbn [fmap list_fmap app]. by rewrite ?fmap_app. }
  destruct (nodup_mid _ _ _ (eq_ind _ NoDup Hnd _ EP)) as [HP1 HP2].
  assert (forall i, i ⊆ ipre ++ ic' ++ ipost -> same_on Q (<[P := (sep, R)]> Q) v v' i) as Hs.
  { intros i Hi h x Hin. specialize (Hi _ Hin). apply fst_hid_in in Hi. clear Hin.
    assert (x <> P) as HxP.
    { intros ->. rewrite !fmap_app in Hi, HP2. clear -Hi HP1 HP2. set_solver. }
    split; [|by rewrite lookup_insert_ne]. intros q. apply Hf; [done|].
    rewrite EP, !fmap_app. rewrite !fmap_app in Hi. clear -Hi. set_solver. }
  destruct (praw_cut Q v v' d P R lo hi kc ic' lc p es p1 p2 sep sp_node0 Hv Hr Hcut Hv1 Hv2)
    as (Hab & Hbe & k1 & k2 & i1 & i2 & l1 & l2 & H1 & H2 & -> & -> & El); [apply Hs; clear; set_solver|].
  exists (ipre ++ (((d, P) :: i1) ++ ((d, R) :: i2)) ++ ipost), (lpre ++ (l1 ++ l2) ++ lpost). split_and!.
  - subst kvs. apply sp_put0; [apply Hs; clear; set_solver|].
    unfold pnode, pend_split. rewrite lookup_insert_eq. do 6 eexists. split_and!; done.
  - subst ids. solve_Permutation.
  - intros Hc. rewrite El. case_decide as Hd0.
    + subst d. destruct sp_node0 as (p0 & es0 & _ & _ & _ & _ & _ & _ & ->). subst lvs. cbn [app] in *.
      inversion Hcut as [| ? ? ? ? Ht']; [|by rewrite Ht in Ht'].
      apply (leaf_chain_cut v v' lpre P R lpost p p1 p2); try done. intros x q Hx.
      pose proof (leaf_ids_nodup _ Hnd) as Hndl. rewrite <- Hlv in Hndl.
      destruct (nodup_mid _ _ _ Hndl) as [Hl1 Hl2]. apply Hf.
      * intros ->. by apply elem_of_app in Hx as [?|?].
      * apply (fst_hid_in 0), leaf_ids_elem. rewrite <- Hlv. clear -Hx. set_solver.
    + subst lvs. eapply leaf_chain_frame; [|exact Hc]. intros x q Hx Hxq. exists q. split; [|done].
      rewrite Hlv in Hx. apply leaf_ids_elem in Hx. apply Hf; [|by eapply fst_hid_in|done].
      intros ->. apply Hd0. eapply (hid_height ids); [done|done|exact Hx].
Qed.

(** ** The root moves down one level *)
Lemma pnode_grow Q v v' D root kvs ids lvs L p pl pr es :
  pnode Q v D root None None kvs ids lvs -> NoDup ids.*2 -> Q !! root = None -> Q !! L = None ->
  L ∉ ids.*2 -> v root = Some p -> page_repr p es ->
  v' L = Some pl -> page_repr pl es -> page_type (header pl) = page_type (header p) ->
  next_page_id (header pl) = next_page_id (header p) ->
  v' root = Some pr -> page_repr pr [] -> page_type (header pr) = PAGE_TYPE_INTERNAL ->
  next_page_id (header pr) = L ->
  (forall x q, x <> root -> x ∈ ids.*2 -> v x = Some q -> v' x = Some q) ->
  exists ids' lvs', ids = (D, root) :: ids' /\
    pnode Q v' (S D) root None None kvs ((S D, root) :: (D, L) :: ids') lvs' /\
    (leaf_chain v lvs -> leaf_chain v' lvs').
Proof.
  intros Hn Hnd HQr HQL HL Hp Hr Hpl Hrl Htl Hnl Hpr Hrr Htr Hnr Hf.
  pose proof (pnode_leaves _ _ _ _ _ _ _ _ _ Hn) as Hlv.
  apply pnode_none in Hn; [|done]. destruct (praw_root _ _ _ _ _ _ _ _ _ Hn) as [ids' Ei].
  assert (root ∉ ids'.*2) as Hroot by (rewrite Ei in Hnd; by apply list.NoDup_cons in Hnd as [? _]).
  assert (same_on Q Q v v' ids') as Hs.
  { intros h x Hx%fst_hid_in. split; [|done]. intros q. apply Hf; [by intros ->|]. rewrite Ei. by right. }
  assert (exists lvs', praw Q v' D L None None kvs ((D, L) :: ids') lvs' /\ (leaf_chain v lvs -> leaf_chain v' lvs'))
    as (lvs' & HL' & Hch).
  { destruct D as [|D].
    - destruct Hn as (q & fs & Hq & Hrq & Ht & Hw & -> & Ei' & ->). rewrite Ei in Ei'. injection Ei' as ->.
      assert (q = p) as -> by congruence. rewrite (page_repr_inj _ _ _ Hrq Hr) in *.
      exists [L]. split; [exists pl, es; split_and!; (done || congruence)|].
      intros [(q & Hq' & Hnx) _]. split; [|done]. exists pl. split; [done|]. cbn in *. congruence.
    - destruct Hn as (q & fs & j & Hq & Hrq & Ht & Hw & Hk & Ei'). rewrite Ei in Ei'. injection Ei' as ->.
      assert (q = p) as -> by congruence. rewrite (page_repr_inj _ _ _ Hrq Hr) in *.
      exists lvs. split.
      + exists pl, es, j. split_and!; try done; [congruence|]. rewrite Hnl.
        eapply kids_mono; [exact Hk|]. intros c a b k i l Hc Hi.
        eapply (pnode_frame Q Q v v'); [|done]. eapply same_on_mono; [exact Hs|done].
      + intros Hc. eapply leaf_chain_frame; [|exact Hc]. intros x y Hx Hy. exists y. split; [|done].
        rewrite Hlv, Ei in Hx. apply leaf_ids_elem in Hx. apply elem_of_cons in Hx as [[=]|Hx].
        by apply (Hs 0%nat x Hx). }
  exists ids', lvs'. split_and!; try done. apply pnode_none; [done|].
  exists pr, [], ((D, L) :: ids'). split_and!; try done; [split; [split|]; constructor|].
  cbn. rewrite Hnr. by apply pnode_none.
Qed.

(** ** Without pending splits this is the tree of [DbProofs] *)
Lemma kids_forget R (R' : Z -> option bytes -> option bytes -> list kv -> list Z -> list Z -> Prop)
    lo hi es right kvs (ids : list hid) lvs :
  (forall c a b k i l, R c a b k i l -> R' c a b k i.*2 l) ->
  kids R lo hi es right kvs ids lvs -> kids R' lo hi es right kvs ids.*2 lvs.
Proof.
  intros HR. revert lo kvs ids lvs. induction es as [|e es IH]; intros lo kvs ids lvs; cbn; [apply HR|].
  intros (k1 & k2 & i1 & i2 & l1 & l2 & H1 & H2 & -> & -> & ->). rewrite fmap_app.
  exists k1, k2, i1.*2, i2.*2, l1, l2. split_and!; auto.
Qed.

Lemma kids_recall (R : subtree) (R' : Z -> option bytes -> option bytes -> list kv -> list Z -> list Z -> Prop)
    lo hi es right kvs ids lvs :
  (forall c a b k i l, R' c a b k i l -> exists i', i'.*2 = i /\ R c a b k i' l) ->
  kids R' lo hi es right kvs ids lvs -> exists ids', ids'.*2 = ids /\ kids R lo hi es right kvs ids' lvs.
Proof.
  intros HR. revert lo kvs ids lvs. induction es as [|e es IH]; intros lo kvs ids lvs; cbn; [apply HR|].
  intros (k1 & k2 & i1 & i2 & l1 & l2 & H1 & H2 & -> & -> & ->).
  apply HR in H1 as (j1 & <- & H1). apply IH in H2 as (j2 & <- & H2). exists (j1 ++ j2).
  rewrite fmap_app. split; [done|]. exists k1, k2, j1, j2, l1, l2. done.
Qed.

Lemma pnode_node v d id lo hi kvs ids lvs :
  pnode ∅ v d id lo hi kvs ids lvs -> node v d id lo hi kvs ids.*2 lvs.
Proof.
  revert id lo hi kvs ids lvs. induction d as [|d IH]; intros id lo hi kvs ids lvs Hp;
    (apply pnode_none in Hp; [|done]).
  - destruct Hp as (p & es & ? & ? & ? & ? & -> & -> & ->). exists p, es. done.
  - destruct Hp as (p & es & ids' & ? & ? & ? & ? & Hk & ->). exists p, es, ids'.*2. split_and!; try done.
    eapply kids_forget; [|exact Hk]. exact IH.
Qed.

Lemma node_pnode v d id lo hi kvs ids lvs :
  node v d id lo hi kvs ids lvs -> exists ids', ids'.*2 = ids /\ pnode ∅ v d id lo hi kvs ids' lvs.
Proof.
  revert id lo hi kvs ids lvs. induction d as [|d IH]; intros id lo hi kvs ids lvs; cbn [node].
  - intros (p & es & ? & ? & ? & ? & -> & -> & ->). exists [(0%nat, id)]. split; [done|].
    apply pnode_none; [done|]. exists p, es. done.
  - intros (p & es & ids' & ? & ? & ? & ? & Hk & ->).
    destruct (kids_recall _ _ _ _ _ _ _ _ _ IH Hk) as (j & <- & Hk'). exists ((S d, id) :: j).
    split; [done|]. apply pnode_none; [done|]. exists p, es, j. done.
Qed.
