(* ===== verification/DbInsert.v ===== *)
(** * Insertion with splits (storage/src/db.c)

    The steps of [insert_separator], [grow_root] and [btree_split_node] over a
    page store, against the trees with pending splits of [DbSplit], and what
    [db_insert] does to any well-formed database. *)
From S2P Require Import Prelude BtreePage Wal Pager PagerProofs Store Txn Db DbProofs DbSplit.

Local Open Scope Z_scope.

(** ** Pages *)
Lemma repr_split_at p es i e :
  page_repr p es -> es !! i = Some e -> exists slack,
  data p = entries_bytes (take i es) ++ entry_bytes e ++ entries_bytes (drop (S i) es) ++ slack /\
  free_space (header p) = zlen slack.
Proof.
  intros (slack & Hd & _ & _ & Hf & _) He. exists slack. split; [|done].
  rewrite Hd. rewrite <- (take_drop_middle es i e He) at 1.
  by rewrite entries_bytes_app, entries_bytes_cons, <- !app_assoc.
Qed.

(** Rewriting the child pointer of one entry. *)
Lemma set_child_repr p es i e c :
  page_repr p es -> es !! i = Some e -> 0 <= c <= UINT32_MAX ->
  page_repr (set_child p (off_of es i) c) (<[i := mkEntry (e_key e) (e_value e) c]> es).
Proof.
  intros Hr He Hc. destruct (repr_split_at p es i e Hr He) as (slack & Hd & Hf).
  pose proof Hr as (_ & _ & Hl & Hk & _ & Hok).
  pose proof (proj1 (Forall_lookup _ _) Hok _ _ He) as (Hek & Hev & _).
  pose proof (lookup_lt_Some _ _ _ He) as Hi.
  assert (write_at (off_of es i + 4) (le_encode 4 (u32 c)) (data p) =
    entries_bytes (take i es) ++ entry_bytes (mkEntry (e_key e) (e_value e) c) ++
    entries_bytes (drop (S i) es) ++ slack) as E.
  { set (a := entries_bytes (take i es) ++ le_encode 2 (zlen (e_key e)) ++ le_encode 2 (zlen (e_value e))).
    set (b := e_key e ++ e_value e ++ entries_bytes (drop (S i) es) ++ slack).
    assert (forall c, entries_bytes (take i es) ++ entry_bytes (mkEntry (e_key e) (e_value e) c) ++
      entries_bytes (drop (S i) es) ++ slack = a ++ le_encode 4 c ++ b) as Eab.
    { intros c'. unfold entry_bytes, a, b. by rewrite <- !app_assoc. }
    rewrite Hd, u32_small by done. destruct e as [k w c0]. cbn [e_key e_value] in *. rewrite !Eab.
    rewrite (write_at_app _ a) by (unfold a, off_of; zl).
    by rewrite zdrop_app_eq by (by rewrite !zlen_le_encode). }
  unfold set_child. rewrite E. eapply (page_repr_intro _ _ _ slack).
  - rewrite insert_take_drop by done. by rewrite entries_bytes_app, entries_bytes_cons, <- !app_assoc.
  - rewrite <- E, zlen_write_at; [done|..]; pose proof (off_of_nonneg es i).
    + lia.
    + rewrite Hd. unfold off_of. rewrite zlen_le_encode. pose proof (entry_size_pos e). zl.
  - unfold zlen in *. rewrite length_insert. done.
  - done.
  - apply list.Forall_insert; [done|]. done.
Qed.

Lemma find_child_spec p es n i X :
  page_repr p es -> (i + n = length es)%nat ->
  find_child n (Z.of_nat i) p X =
  Some match list_find (fun e => e_child e = X) (drop i es) with
       | Some (j, _) => Z.of_nat (i + j) | None => -1 end.
Proof.
  intros Hr. revert i. induction n as [|n IH]; intros i Hin; cbn [find_child].
  - by rewrite drop_ge by lia.
  - destruct (lookup_lt_is_Some_2 es i) as [e He]; [lia|].
    rewrite (get_kv_pair_repr p es Hr _ _ He). cbn [mbind option_bind].
    destruct (kv_at_repr p es Hr _ _ He) as (_ & _ & -> & _).
    rewrite (drop_S es e i He). cbn [list_find].
    destruct (Z.eqb_spec (e_child e) X) as [Ec|Ec].
    + rewrite decide_True by done. by rewrite Nat.add_0_r.
    + rewrite decide_False by done. replace (Z.of_nat i + 1) with (Z.of_nat (S i)) by lia.
      rewrite IH by lia. destruct (list_find _ _) as [[j x]|]; cbn; [|done]. do 2 f_equal. lia.
Qed.

Lemma find_child_at p ea eb right X :
  page_repr p (ea ++ eb) -> (forall e, e ∈ ea -> e_child e <> X) -> first_child eb right = X ->
  find_child (Z.to_nat (key_count (header p))) 0 p X =
  Some match eb with [] => -1 | _ => zlen ea end.
Proof.
  intros Hr Hn Hx. rewrite (page_repr_count _ _ Hr). unfold zlen at 1. rewrite Nat2Z.id.
  rewrite (find_child_spec p (ea ++ eb) _ 0 X Hr) by done. rewrite drop_0. do 2 f_equal.
  destruct eb as [|e eb].
  - rewrite app_nil_r. destruct (list_find _ ea) as [[j x]|] eqn:E; [|done].
    apply list_find_Some in E as (Hj & Hc & _). by apply list_elem_of_lookup_2, Hn in Hj.
  - assert (list_find (fun e => e_child e = X) (ea ++ e :: eb) = Some (length ea, e)) as ->; [|done].
    apply list_find_Some. split_and!; [|done|].
    + by rewrite lookup_app_r, Nat.sub_diag.
    + intros j y Hj Hlt. rewrite lookup_app_l in Hj by done. by apply list_elem_of_lookup_2, Hn in Hj.
Qed.

Lemma set_child_wf p off c :
  page_wf p -> 0 <= off -> off + 8 <= btree_page_capacity -> page_wf (set_child p off c).
Proof.
  intros [Hh Hl Hb] Ho Hc. constructor; cbn; [done| |].
  - rewrite zlen_write_at by (rewrite ?zlen_le_encode; lia). done.
  - apply write_at_bytes; [apply le_encode_bytes|done].
Qed.

Lemma set_next_wf p n : page_wf p -> 0 <= n <= UINT32_MAX ->
  page_wf (mkPage (set_next_page_id (header p) n) (data p)).
Proof. intros [[] Hl Hb] Hn. by constructor. Qed.

(** A full page has enough entries to be cut. *)
Lemma sized_bytes ty es :
  Forall (entry_sized ty) es -> zlen (entries_bytes es) <= zlen es * (SIZEOF_KV_PAIR + MAX_KEY_SIZE + MAX_VALUE_SIZE).
Proof.
  unfold MAX_KEY_SIZE, MAX_VALUE_SIZE, SIZEOF_KV_PAIR.
  induction 1 as [|e es [Hk Hv] _ IH]; [done|]. rewrite entries_bytes_cons. unfold entry_sized in *.
  assert (entry_size e <= 1288).
  { unfold entry_size, SIZEOF_KV_PAIR, MAX_KEY_SIZE, MAX_VALUE_SIZE in *. destruct (ty =? PAGE_TYPE_LEAF); lia. }
  zl.
Qed.

Lemma full_page_entries p es :
  page_sized p -> page_repr p es ->
  free_space (header p) < SIZEOF_KV_PAIR + MAX_KEY_SIZE + MAX_VALUE_SIZE -> (2 <= length es)%nat.
Proof.
  intros Hs Hr Hf. pose proof (sized_bytes _ _ (page_sized_entries _ _ Hs Hr)) as Hb.
  pose proof (page_repr_capacity _ _ Hr) as Hc.
  unfold btree_page_capacity, PAGE_SIZE, SIZEOF_PAGE_HEADER, MAX_KEY_SIZE, MAX_VALUE_SIZE, SIZEOF_KV_PAIR in *.
  unfold zlen in *. lia.
Qed.

Lemma empty_right_wf : page_wf empty_right_page.
Proof.
  assert (forall n, Forall is_byte (replicate n 0)) as Hz.
  { intros n. apply Forall_replicate. unfold is_byte. lia. }
  constructor; cbn [data header empty_right_page].
  - constructor; cbn [page_id page_type key_count free_space reserved0 next_page_id prev_page_id lsn checksum
      reserved]; unfold UINT16_MAX, UINT32_MAX, UINT64_MAX; try lia; try apply Hz; try done;
      vm_compute; by split.
  - by rewrite zlen_replicate.
  - apply Hz.
Qed.

Lemma split_header_wf src dst id m p1 p2 sep es1 es2 :
  btree_split_page src dst id m = Some (p1, p2, sep) -> page_wf src -> page_wf dst -> page_ref id ->
  page_repr p1 es1 -> page_repr p2 es2 -> 0 <= next_page_id (header p1) <= UINT32_MAX ->
  page_wf p1 /\ page_wf p2 /\ Forall is_byte sep.
Proof.
  unfold btree_split_page. intros E [Hh1 Hl1 Hb1] [Hh2 Hl2 Hb2] Hid Hr1 Hr2 Hn1.
  destruct (page_repr_bounds _ _ Hr1) as [Hk1 Hf1]. destruct (page_repr_bounds _ _ Hr2) as [Hk2 Hf2].
  assert (zlen (data p1) = btree_page_capacity) as Hz1 by (by destruct Hr1 as (? & _ & ? & _)).
  assert (zlen (data p2) = btree_page_capacity) as Hz2 by (by destruct Hr2 as (? & _ & ? & _)).
  unfold page_ref in Hid.
  assert (btree_page_capacity <= UINT16_MAX) as Hcap by (vm_compute; done).
  repeat (cbv zeta in E; match type of E with
    | (if ?b then None else _) = _ => destruct b eqn:?; [discriminate E|]
    | (_ ≫= _) = _ => apply bind_Some in E as (? & _ & E)
    | (let '(_, _) := ?x in _) = _ => destruct x
    end).
  injection E as <- <- <-. cbn [header data] in *.
  assert (UINT16_MAX = 65535) as HU by done.
  destruct Hh1, Hh2. split_and!.
  - constructor; [|done|done]. constructor; cbn in *; try done; lia.
  - constructor; [|done|]; [constructor; cbn in *; try done; lia|].
    apply write_at_bytes; [apply sub_bytes, Hb1|done].
  - unfold kv_key. apply sub_bytes, Hb1.
Qed.

Definition tree_page (p : btree_page) : Prop :=
  page_type (header p) = PAGE_TYPE_LEAF \/ page_type (header p) = PAGE_TYPE_INTERNAL.

Lemma split_page_cut p es R :
  page_wf p -> page_sized p -> page_repr p es -> tree_page p -> (2 <= length es)%nat -> page_ref R ->
  exists p1 p2 sep, btree_split_page p empty_right_page R MAX_KEY_SIZE = Some (p1, p2, sep) /\
    cut R p es p1 p2 sep /\ page_wf p1 /\ page_wf p2 /\ page_sized p1 /\ page_sized p2 /\
    zlen sep <= MAX_KEY_SIZE /\ Forall is_byte sep.
Proof.
  intros Hwf Hs Hr Ht H2 HR. pose proof (page_sized_entries _ _ Hs Hr) as Hf.
  assert (Forall (fun e => zlen (e_key e) <= MAX_KEY_SIZE) es) as Hk.
  { eapply list.Forall_impl; [exact Hf|]. by intros e []. }
  assert (zlen (data empty_right_page) = btree_page_capacity) as Hd by apply empty_right_wf.
  pose proof HR as HR'. unfold page_ref in HR'.
  assert (forall k e, es !! k = Some e -> zlen (e_key e) <= MAX_KEY_SIZE /\ 0 <= e_child e <= UINT32_MAX) as Hek.
  { intros k e He. split; [exact (proj1 (Forall_lookup _ _) Hk _ _ He)|].
    destruct Hr as (_ & _ & _ & _ & _ & Hok). by destruct (proj1 (Forall_lookup _ _) Hok _ _ He) as (_ & _ & ?). }
  destruct Ht as [Ht|Ht].
  - destruct (btree_split_page_leaf p empty_right_page es R MAX_KEY_SIZE Hr Ht H2 Hk Hd)
      as (k & e & p1 & p2 & E & (Hk0 & _) & He & Hr1 & Hr2 & Ht1 & Ht2 & _ & _ & Hn1 & Hn2).
    destruct (split_header_wf _ _ _ _ _ _ _ _ _ E Hwf empty_right_wf HR Hr1 Hr2) as (? & ? & ?); [lia|].
    exists p1, p2, (e_key e). split_and!; try done.
    + by eapply cut_leaf.
    + eexists. split; [exact Hr1|]. rewrite Ht1, <- Ht. by apply Forall_take.
    + eexists. split; [exact Hr2|]. rewrite Ht2, <- Ht. by apply Forall_drop.
    + by eapply Hek.
  - destruct (btree_split_page_internal p empty_right_page es R MAX_KEY_SIZE Hr ltac:(by rewrite Ht) H2 Hk Hd)
      as (k & e & p1 & p2 & E & _ & He & Hr1 & Hr2 & Ht1 & Ht2 & _ & _ & Hn1 & Hn2).
    destruct (Hek _ _ He) as [? ?].
    destruct (split_header_wf _ _ _ _ _ _ _ _ _ E Hwf empty_right_wf HR Hr1 Hr2) as (? & ? & ?); [lia|].
    exists p1, p2, (e_key e). split_and!; try done.
    + eapply cut_inner; try done; congruence.
    + eexists. split; [exact Hr1|]. rewrite Ht1. by apply Forall_take.
    + eexists. split; [exact Hr2|]. rewrite Ht2. by apply Forall_drop.
Qed.

Lemma cut_proper R p es p1 p2 q1 q2 sep :
  page_equiv p1 q1 -> page_equiv p2 q2 -> cut R p es p1 p2 sep -> cut R p es q1 q2 sep.
Proof.
  intros E1 E2 Hc.
  destruct (page_equiv_fields _ _ E1) as (_ & Ht1 & _ & _ & Hn1 & _).
  destruct (page_equiv_fields _ _ E2) as (_ & Ht2 & _ & _ & Hn2 & _).
  destruct Hc as [k e ? ? ? ? Hr1 Hr2|k e ? ? ? Hr1 Hr2]; rewrite ?E1, ?E2 in *;
    [eapply cut_leaf|eapply cut_inner]; try done; congruence.
Qed.

Section store.
Context {S : Type} `{PageStoreLaws S} (root_page_id : Z).
Abbreviation delta j id := (if decide (j = id) then 1 else 0).
Implicit Types (s : S) (Q : pends) (ids : list hid).

(** A database in the middle of splits. *)
Record tree_inv s (D : nat) Q ids (lvs : list Z) (kvs : list kv) : Prop := {
  ti_store : ps_inv ∅ s;
  ti_pins : pins_nonneg s;
  ti_node : pnode Q (ps_view s) D root_page_id None None kvs ids lvs;
  ti_chain : leaf_chain (ps_view s) lvs;
  ti_nodup : NoDup ids.*2;
  ti_ref : Forall page_ref ids.*2;
  ti_used : Forall (ps_used s) ids.*2;
  ti_sized : forall x p, x ∈ ids.*2 -> ps_view s x = Some p -> page_sized p;
  ti_root : Q !! root_page_id = None;
  ti_dom : forall x, is_Some (Q !! x) -> x ∈ ids.*2;
  ti_rights : forall c sep r, Q !! c = Some (sep, r) ->
    (exists h, (h, c) ∈ ids /\ (h, r) ∈ ids) /\ Q !! r = None /\ zlen sep <= MAX_KEY_SIZE /\
    Forall is_byte sep }.

Lemma pnode_view Q v d id lo hi kvs ids lvs h x :
  pnode Q v d id lo hi kvs ids lvs -> (h, x) ∈ ids ->
  exists p, v x = Some p /\ tree_page p.
Proof using.
  clear. revert id lo hi kvs ids lvs. induction d as [|d IH]; intros id lo hi kvs ids lvs; unfold pnode, pend_split.
  - assert (forall id lo hi kvs ids lvs, leaf_body v id lo hi kvs ids lvs -> (h, x) ∈ ids ->
      exists p, v x = Some p /\ tree_page p) as HB.
    { intros ? ? ? ? ? ? (p & es & Hp & _ & Ht & _ & _ & -> & ->) [= -> ->]%list_elem_of_singleton.
      exists p. split; [done|by left]. }
    destruct (Q !! id) as [[sep r]|]; [|apply HB].
    intros (? & ? & ? & ? & ? & ? & H1 & H2 & _ & _ & _ & -> & ->) [Hl|Hl]%elem_of_app; eauto.
  - assert (forall id lo hi kvs ids lvs, praw Q v (Datatypes.S d) id lo hi kvs ids lvs -> (h, x) ∈ ids ->
      exists p, v x = Some p /\ tree_page p) as HB.
    { clear id lo hi kvs ids lvs.
      intros id lo hi kvs ids lvs (p & es & ids' & Hp & _ & Ht & _ & Hk & ->) [[= -> ->]|Hl]%elem_of_cons.
      { exists p. split; [done|by right]. }
      destruct (kids_find _ _ _ _ _ _ _ _ _ Hk Hl) as (ea & eb & k1 & k2 & k3 & i1 & i2 & i3 & l1 & l2 & l3
        & _ & _ & Hc & _ & Hx & _). by eapply IH. }
    destruct (Q !! id) as [[sep r]|]; [|apply HB].
    intros (? & ? & ? & ? & ? & ? & H1 & H2 & _ & _ & _ & -> & ->) [Hl|Hl]%elem_of_app; eauto.
Qed.

Lemma tree_inv_view s D Q ids lvs kvs x :
  tree_inv s D Q ids lvs kvs -> x ∈ ids.*2 -> exists p, ps_view s x = Some p /\ tree_page p.
Proof using.
  intros Ht ([h y] & -> & Hx)%list_elem_of_fmap. eapply pnode_view; [apply Ht|exact Hx].
Qed.

Lemma tree_inv_mono s s' D Q ids lvs kvs :
  tree_inv s D Q ids lvs kvs -> ps_inv ∅ s' ->
  (forall j p, page_ref j -> ps_view s j = Some p -> ps_view s' j = Some p) ->
  (forall j, ps_used s j -> ps_used s' j) -> pins_nonneg s' -> tree_inv s' D Q ids lvs kvs.
Proof using.
  intros Hti Hi' Hv0 Hu Hp. pose proof Hti as [].
  assert (forall x p, x ∈ ids.*2 -> ps_view s x = Some p -> ps_view s' x = Some p) as Hv.
  { intros x p Hx. apply Hv0. rewrite list.Forall_forall in ti_ref0. by apply ti_ref0. }
  constructor; try done.
  - eapply pnode_frame; [|exact ti_node0]. intros h x Hx%fst_hid_in. split; [|done]. intros p. by apply Hv.
  - eapply leaf_chain_frame; [|exact ti_chain0]. intros x p Hx Hq. exists p. split; [|done].
    apply Hv; [|done]. rewrite (pnode_leaves _ _ _ _ _ _ _ _ _ ti_node0) in Hx.
    apply leaf_ids_elem in Hx. by eapply fst_hid_in.
  - eapply list.Forall_impl; [exact ti_used0|]. intros x. apply Hu.
  - intros x p Hx Hq. destruct (tree_inv_view _ _ _ _ _ _ _ Hti Hx) as (q & Hq' & _).
    rewrite (Hv x q Hx Hq') in Hq. injection Hq as <-. by eapply ti_sized0.
Qed.

Lemma tree_inv_kept s s' D Q ids lvs kvs :
  tree_inv s D Q ids lvs kvs -> kept s s' -> pins_nonneg s' -> tree_inv s' D Q ids lvs kvs.
Proof using. intros Ht [Hi Hv Hu]. eapply tree_inv_mono; [exact Ht|done|done|]. intros j. apply Hu. Qed.

Lemma tree_inv_db s D ids lvs kvs :
  tree_inv s D ∅ ids lvs kvs -> (D < BTREE_MAX_DEPTH)%nat -> db_inv root_page_id s ids.*2 kvs.
Proof using.
  intros [] HD. constructor; try done. exists D, lvs. split_and!; try done. by apply pnode_node.
Qed.

Lemma db_tree_inv s l kvs :
  db_inv root_page_id s l kvs -> exists D ids lvs, ids.*2 = l /\ tree_inv s D ∅ ids lvs kvs /\ (D < BTREE_MAX_DEPTH)%nat.
Proof using.
  intros [Hi Hp (d & lvs & Hd & Hn & Hc) Hnd Href Hu Hsz].
  destruct (node_pnode _ _ _ _ _ _ _ _ Hn) as (ids & <- & Hpn). exists d, ids, lvs. split_and!; try done.
  constructor; try done. by intros x [? Hx].
Qed.

(** ** Writing several pinned pages before marking them dirty *)
Record written (s0 s : S) (U : gset Z) (W : gmap Z btree_page) : Prop := {
  wr_inv : ps_inv U s;
  wr_pins : forall j, ps_pins s j = ps_pins s0 j;
  wr_used : forall j, ps_used s j <-> ps_used s0 j;
  wr_same : forall j, W !! j = None -> ps_view s j = ps_view s0 j;
  wr_new : forall j p, W !! j = Some p -> exists q, ps_view s j = Some q /\ page_equiv p q }.

Lemma written_refl s : ps_inv ∅ s -> written s s ∅ ∅.
Proof using. by constructor. Qed.

Lemma written_store s0 s U W id p :
  written s0 s U W -> 0 < ps_pins s0 id -> page_wf p ->
  written s0 (ps_store_page id p s) ({[id]} ∪ U) (<[id := p]> W).
Proof using.
  intros [Hi Hp Hu Hs Hn] Hpin Hwf.
  destruct (ps_store_law U s id p Hi ltac:(by rewrite Hp) Hwf) as (Hi' & Hv & Hvo & Hp' & Hu' & _).
  constructor; try done.
  - intros j. by rewrite Hp'.
  - intros j. by rewrite Hu'.
  - intros j [Hj Hne]%lookup_insert_None. by rewrite Hvo, Hs.
  - intros j q [[<- <-]|[Hne Hj]]%lookup_insert_Some; [by exists p|]. rewrite Hvo by done. by apply Hn.
Qed.

Lemma written_dirty s0 s U W id p :
  written s0 s U W -> 0 < ps_pins s0 id -> W !! id = Some p ->
  written s0 (ps_mark_page_dirty id s) (U ∖ {[id]}) W.
Proof using.
  intros [Hi Hp Hu Hs Hn] Hpin HW. destruct (Hn _ _ HW) as (q & Hq & Heq).
  destruct (ps_dirty_law U s id q Hi ltac:(by rewrite Hp) Hq) as (Hi' & (q' & Hq' & Heq') & Hvo & Hp' & Hu' & _).
  constructor; try done.
  - intros j. by rewrite Hp'.
  - intros j. by rewrite Hu'.
  - intros j Hj. rewrite Hvo; [by apply Hs|]. congruence.
  - intros j y Hj. destruct (decide (j = id)) as [->|Hne].
    + exists q'. split; [done|]. assert (y = p) as -> by congruence. by trans q.
    + rewrite Hvo by done. by apply Hn.
Qed.

(** Releasing a pin after the writes. *)
Lemma written_release s0 s W id lk :
  written s0 s ∅ W -> 0 < ps_pins s0 id ->
  let s' := ps_release_page id lk s in
  ps_inv ∅ s' /\ (forall j, ps_view s' j = ps_view s j) /\
  (forall j, ps_pins s' j = ps_pins s0 j - delta j id) /\ (forall j, ps_used s' j <-> ps_used s0 j).
Proof using.
  intros [Hi Hp Hu _ _] Hpin s'. subst s'. destruct (release_step s id lk Hi ltac:(by rewrite Hp)) as (Hk & Hv & Hp' & _).
  split_and!; [apply Hk|done| |]; intros j; [by rewrite Hp', Hp|]. by rewrite (kp_used _ _ Hk), Hu.
Qed.

(** ** The parent takes the separator *)
Lemma parent_update p ea eb sep X R :
  page_wf p -> page_sized p -> page_repr p (ea ++ eb) -> page_type (header p) = PAGE_TYPE_INTERNAL ->
  zlen sep <= MAX_KEY_SIZE -> Forall is_byte sep -> page_ref X -> page_ref R ->
  SIZEOF_KV_PAIR + zlen sep <= free_space (header p) ->
  exists p1, insert_kv_pair p (zlen ea) sep [] X = Some p1 /\ page_wf p1 /\
    match eb with
    | [] => True
    | _ => get_kv_pair p1 (zlen ea + 1) = Some (off_of (ea ++ mkEntry sep [] X :: eb) (length ea + 1))
    end /\
    let p2 := match eb with
              | [] => mkPage (set_next_page_id (header p1) R) (data p1)
              | _ => set_child p1 (off_of (ea ++ mkEntry sep [] X :: eb) (length ea + 1)) R
              end in
    page_wf p2 /\ page_repr p2 (ea ++ mkEntry sep [] X :: redirect R eb) /\
    page_type (header p2) = PAGE_TYPE_INTERNAL /\
    next_page_id (header p2) = new_right R eb (next_page_id (header p)) /\ page_sized p2.
Proof using.
  clear. intros Hwf Hsz Hr Ht Hl Hb HX HR Hroom. set (e := mkEntry sep [] X).
  assert (entry_ok e) as Hok.
  { unfold entry_ok, page_ref, MAX_KEY_SIZE, UINT16_MAX in *. cbn [e e_key e_value e_child].
    change (zlen (@nil Z)) with 0. lia. }
  destruct (insert_kv_pair_repr p (ea ++ eb) (length ea) e Hr Hok) as (p1 & Hins & Hr1 & Hh1).
  { rewrite length_app. lia. }
  { unfold entry_size, e. cbn [e_key e_value]. change (zlen (@nil Z)) with 0. lia. }
  assert (insert_entry (ea ++ eb) (length ea) e = ea ++ e :: eb) as Eins.
  { unfold insert_entry. by rewrite take_app_length, drop_app_length. }
  rewrite Eins in Hr1. fold (zlen ea) in Hins. exists p1.
  assert (page_wf p1) as Hwf1 by (eapply (insert_kv_pair_wf p _ _ e); done).
  assert (Forall (entry_sized PAGE_TYPE_INTERNAL) (ea ++ e :: redirect R eb)) as Hszs.
  { pose proof (page_sized_entries _ _ Hsz Hr) as Hf. rewrite Ht in Hf. apply Forall_app in Hf as [Hfa Hfb].
    apply Forall_app. split; [done|]. constructor; [by split|]. destruct eb; [done|]. cbn.
    inversion Hfb; subst. by constructor. }
  assert (page_type (header p1) = PAGE_TYPE_INTERNAL) as Ht1 by (by rewrite Hh1).
  split_and!; [done|done| |].
  - destruct eb as [|x eb]; [done|]. replace (zlen ea + 1) with (Z.of_nat (length ea + 1)) by (unfold zlen; lia).
    apply (get_kv_pair_repr p1 _ Hr1 _ x). rewrite lookup_app_r by lia.
    replace (length ea + 1 - length ea)%nat with 1%nat by lia. done.
  - destruct eb as [|x eb]; intros p2.
    + assert (page_repr p2 (ea ++ [e])) as Hr2 by exact Hr1.
      split_and!; [apply set_next_wf; [done|unfold page_ref in HR; lia]|done|done|done|]. exists (ea ++ [e]). split; [done|]. cbn. by rewrite Ht1.
    + assert ((ea ++ e :: x :: eb) !! (length ea + 1)%nat = Some x) as Hx.
      { rewrite lookup_app_r by lia. by replace (length ea + 1 - length ea)%nat with 1%nat by lia. }
      pose proof (set_child_repr p1 _ _ x R Hr1 Hx ltac:(unfold page_ref in HR; lia)) as Hr2.
      assert (<[(length ea + 1)%nat := mkEntry (e_key x) (e_value x) R]> (ea ++ e :: x :: eb)
        = ea ++ e :: redirect R (x :: eb)) as E2.
      { rewrite insert_app_r_alt by lia. by replace (length ea + 1 - length ea)%nat with 1%nat by lia. }
      rewrite E2 in Hr2. split_and!; try done.
      * apply set_child_wf; [done|apply off_of_nonneg|].
        pose proof (off_of_succ _ _ _ Hx) as E. pose proof (entry_size_pos x).
        pose proof (off_of_le (ea ++ e :: x :: eb) (Datatypes.S (length ea + 1))).
        pose proof (page_repr_capacity _ _ Hr1). pose proof (proj2 (page_repr_bounds _ _ Hr1)). lia.
      * cbn. by rewrite Hh1.
      * exists (ea ++ e :: redirect R (x :: eb)). split; [done|].
        subst p2. unfold set_child. cbn [header]. by rewrite Ht1.
Qed.

Lemma tree_inv_separator s s' D Q ids lvs kvs d X sep R P p p' ea eb anc tail :
  tree_inv s D Q ids lvs kvs ->
  parent_spot Q (ps_view s) D root_page_id kvs ids lvs d X sep R P p ea eb anc tail ->
  ps_inv ∅ s' -> pins_nonneg s' -> (forall j, ps_used s' j <-> ps_used s j) ->
  (forall x q, x <> P -> page_ref x -> ps_view s x = Some q -> ps_view s' x = Some q) ->
  ps_view s' P = Some p' -> page_repr p' (ea ++ mkEntry sep [] X :: redirect R eb) ->
  page_type (header p') = PAGE_TYPE_INTERNAL ->
  next_page_id (header p') = new_right R eb (next_page_id (header p)) -> page_sized p' ->
  tree_inv s' D (delete X Q) ids lvs kvs.
Proof using.
  intros Hti [] Hi' Hp' Hu' Hv HP Hr' Ht' Hn' Hsz'. pose proof Hti as [].
  assert (forall x q, x <> P -> x ∈ ids.*2 -> ps_view s x = Some q -> ps_view s' x = Some q) as Hv'.
  { intros x q Hne Hx. apply Hv; [done|]. rewrite list.Forall_forall in ti_ref0. by apply ti_ref0. }
  constructor; try done.
  - by eapply pa_put.
  - eapply leaf_chain_frame; [|exact ti_chain0]. intros x q Hx Hq. exists q. split; [|done].
    rewrite (pnode_leaves _ _ _ _ _ _ _ _ _ ti_node0) in Hx. apply leaf_ids_elem in Hx.
    apply Hv'; [|by eapply fst_hid_in|done]. intros ->.
    by pose proof (hid_height _ _ _ _ ti_nodup0 Hx pa_in).
  - eapply list.Forall_impl; [exact ti_used0|]. intros x. apply Hu'.
  - intros x q Hx Hq. destruct (decide (x = P)) as [->|Hne]; [by simplify_eq|].
    destruct (tree_inv_view _ _ _ _ _ _ _ Hti Hx) as (y & Hy & _).
    rewrite (Hv' x y Hne Hx Hy) in Hq. injection Hq as <-. by eapply ti_sized0.
  - apply lookup_delete_None. by right.
  - intros x [y Hy]. apply lookup_delete_Some in Hy as [_ Hy]. by apply ti_dom0.
  - intros c sp r Hc. apply lookup_delete_Some in Hc as [_ Hc]. destruct (ti_rights0 _ _ _ Hc) as (? & ? & ? & ?).
    split_and!; try done. apply lookup_delete_None. by right.
Qed.

(** ** The mutual recursion *)

(** What a split leaves: every pair is still there, in key order along the
    leaf chain; on success no split is pending but those in [Q'], and no page
    but the root has changed its height. *)
Definition split_outcome s (rc : Z) (s' : S) (Qgoal : pends) ids (kvs : list kv) : Prop :=
  (forall j, ps_pins s' j = ps_pins s j) /\
  exists D' Q' ids' lvs', tree_inv s' D' Q' ids' lvs' kvs /\
    (rc = 0 /\ Q' = Qgoal /\ (D' < BTREE_MAX_DEPTH)%nat /\
     (forall h x, (h, x) ∈ ids -> x <> root_page_id -> (h, x) ∈ ids') \/ rc = -1).

Definition separator_spec (n : nat) : Prop := forall s D Q ids lvs kvs d X sep R rc s',
  tree_inv s D Q ids lvs kvs -> (d, X) ∈ ids -> (d < D)%nat -> Q !! X = Some (sep, R) ->
  (forall h x, (h, x) ∈ ids -> (d < h)%nat -> Q !! x = None) ->
  insert_separator root_page_id n X sep R s = (rc, s') ->
  split_outcome s rc s' (delete X Q) ids kvs.

Definition split_node_spec (n : nat) : Prop := forall s D Q ids lvs kvs d N p rc s',
  tree_inv s D Q ids lvs kvs -> (d, N) ∈ ids ->
  (forall h x, (h, x) ∈ ids -> (d <= h)%nat -> Q !! x = None) ->
  ps_view s N = Some p -> free_space (header p) < SIZEOF_KV_PAIR + MAX_KEY_SIZE + MAX_VALUE_SIZE ->
  btree_split_node root_page_id n N s = (rc, s') -> split_outcome s rc s' Q ids kvs.

(** Giving up leaves the tree as it is. *)
Lemma outcome_fail s0 s s' D Q Qgoal ids0 ids lvs kvs :
  tree_inv s D Q ids lvs kvs -> kept s s' -> pins_nonneg s0 -> (forall j, ps_pins s' j = ps_pins s0 j) ->
  split_outcome s0 (-1) s' Qgoal ids0 kvs.
Proof using.
  intros Ht Hk Hp0 Hp. split; [done|]. exists D, Q, ids, lvs. split; [|by right].
  eapply tree_inv_kept; [done|done|]. intros j. rewrite Hp. apply Hp0.
Qed.

Lemma outcome_trans s0 s rc s' Qgoal ids0 ids kvs :
  (forall j, ps_pins s j = ps_pins s0 j) ->
  (forall h x, (h, x) ∈ ids0 -> x <> root_page_id -> (h, x) ∈ ids) ->
  split_outcome s rc s' Qgoal ids kvs -> split_outcome s0 rc s' Qgoal ids0 kvs.
Proof using.
  intros Hp Hids [Hp' (D' & Q' & ids' & lvs' & Ht & Hout)]. split; [intros j; by rewrite Hp'|].
  exists D', Q', ids', lvs'. split; [done|]. destruct Hout as [(-> & -> & ? & Hg)| ->]; [|by right].
  left. split_and!; try done. intros h x Hx Hne. apply Hg; [|done]. by apply Hids.
Qed.

Lemma path_level_app a b X i : X ∉ a -> path_level (a ++ X :: b) X i = i + zlen a.
Proof using.
  clear. revert i. induction a as [|y a IH]; intros i Hx; cbn.
  - rewrite Z.eqb_refl. change (zlen (@nil Z)) with 0. lia.
  - apply not_elem_of_cons in Hx as [Hne Hx]. rewrite (proj2 (Z.eqb_neq _ _)) by done.
    rewrite IH by done. zl.
Qed.

Lemma znth_app_mid {A} (a b : list A) x : znth (a ++ x :: b) (zlen a) = Some x.
Proof using.
  clear. unfold znth, zlen. destruct (Z.ltb_spec (Z.of_nat (length a)) 0); [lia|]. rewrite Nat2Z.id.
  by rewrite lookup_app_r, Nat.sub_diag.
Qed.

(** The parent page as [insert_separator] finds it: pinned, and the route of
    the separator known. *)
Lemma separator_descent s D Q ids lvs kvs d X sep R P p ea eb anc tail r s1 :
  tree_inv s D Q ids lvs kvs ->
  parent_spot Q (ps_view s) D root_page_id kvs ids lvs d X sep R P p ea eb anc tail ->
  descend_path root_page_id sep s = (r, s1) ->
  kept s s1 /\ (forall j, ps_pins s1 j = ps_pins s j) /\
  (r = None \/ (D < BTREE_MAX_DEPTH)%nat /\ exists path, r = Some path /\
     path_level path X 0 = zlen anc + 1 /\ znth path (zlen anc) = Some P).
Proof using.
  intros Hti [] E. unfold descend_path in E.
  set (rest := tl (anc ++ P :: X :: tail)).
  assert (anc ++ P :: X :: tail = root_page_id :: rest) as Epath.
  { unfold rest. destruct anc as [|a anc]; cbn in *; congruence. }
  destruct (descend_path_loop_spec False BTREE_MAX_DEPTH sep root_page_id rest [] s r s1)
    as (Hk & Hp & _ & Hout); try done; try apply Hti.
  - by rewrite <- Epath.
  - rewrite <- Epath. pose proof (ti_ref _ _ _ _ _ _ Hti) as Hr. rewrite list.Forall_forall in *. auto.
  - split_and!; try done. destruct Hout as [[-> Hlt]|[-> _]]; [right|by left].
    assert (length rest = D) as Hl by (rewrite Epath in pa_len; cbn in pa_len; lia).
    split; [lia|]. eexists. split; [done|]. cbn [app]. rewrite <- Epath. split.
    + change (anc ++ P :: X :: tail) with (anc ++ [P] ++ X :: tail).
      rewrite app_assoc, path_level_app by done. zl.
    + apply znth_app_mid.
Qed.

Lemma separator_placed s D Q ids lvs kvs d X sep R P p ea eb anc tail s2 p1 p2 :
  tree_inv s D Q ids lvs kvs ->
  parent_spot Q (ps_view s) D root_page_id kvs ids lvs d X sep R P p ea eb anc tail ->
  kept s s2 -> (forall j, ps_pins s2 j = ps_pins s j + delta j P) ->
  page_wf p1 -> page_wf p2 -> page_repr p2 (ea ++ mkEntry sep [] X :: redirect R eb) ->
  page_type (header p2) = PAGE_TYPE_INTERNAL ->
  next_page_id (header p2) = new_right R eb (next_page_id (header p)) -> page_sized p2 ->
  (D < BTREE_MAX_DEPTH)%nat ->
  split_outcome s 0 (ps_release_page P LOCK_EXCLUSIVE
    (ps_mark_page_dirty P (ps_store_page P p2 (ps_store_page P p1 s2)))) (delete X Q) ids kvs.
Proof using.
  intros Hti Hsp Hk Hpin Hw1 Hw2 Hr2 Ht2 Hn2 Hsz2 HD.
  pose proof (ti_pins _ _ _ _ _ _ Hti) as Hnn.
  assert (0 < ps_pins s2 P) as Hp0 by (rewrite Hpin, decide_True by done; specialize (Hnn P); lia).
  pose proof (written_refl s2 (kp_inv _ _ Hk)) as Hw.
  apply (written_store _ _ _ _ P p1) in Hw; [|done|done].
  apply (written_store _ _ _ _ P p2) in Hw; [|done|done].
  apply (written_dirty _ _ _ _ P p2) in Hw; [|done|by rewrite lookup_insert_eq].
  assert ((({[P]} ∪ ({[P]} ∪ ∅)) ∖ {[P]} : gset Z) = ∅) as EU by set_solver. rewrite EU in Hw.
  destruct (written_release _ _ _ P LOCK_EXCLUSIVE Hw Hp0) as (Hi' & Hv' & Hp' & Hu').
  destruct (wr_new _ _ _ _ Hw P p2) as (q & Hq & Heq); [by rewrite lookup_insert_eq|].
  set (s' := ps_release_page P _ _) in *.
  assert (forall j, ps_pins s' j = ps_pins s j) as Hpp by (intros j; rewrite Hp', Hpin; lia).
  split; [done|]. exists D, (delete X Q), ids, lvs. split; [|by left].
  apply (tree_inv_separator s s' D Q ids lvs kvs d X sep R P p q ea eb anc tail); try done.
  - intros j. rewrite Hpp. apply Hnn.
  - intros j. by rewrite Hu', (kp_used _ _ Hk).
  - intros x y Hne Hx Hy. rewrite Hv', (wr_same _ _ _ _ Hw); [by apply (kp_view _ _ Hk)|].
    by rewrite !lookup_insert_ne.
  - by rewrite Hv'.
  - by rewrite <- Heq.
  - destruct (page_equiv_fields _ _ Heq) as (_ & <- & _). done.
  - destruct (page_equiv_fields _ _ Heq) as (_ & _ & _ & _ & <- & _). done.
  - by rewrite <- Heq.
Qed.

Lemma pending_above_grown ids ids' Q D d X :
  NoDup ids.*2 -> NoDup ids'.*2 -> (d, X) ∈ ids -> (D, root_page_id) ∈ ids -> (d < D)%nat ->
  (forall x, is_Some (Q !! x) -> x ∈ ids.*2) ->
  (forall h x, (h, x) ∈ ids -> x <> root_page_id -> (h, x) ∈ ids') ->
  (forall h x, (h, x) ∈ ids -> (d < h)%nat -> Q !! x = None) ->
  (d, X) ∈ ids' /\ (forall h x, (h, x) ∈ ids' -> (d < h)%nat -> Q !! x = None).
Proof using.
  clear. intros Hnd Hnd' HX Hroot Hd Hdom Hg Hq.
  assert (X <> root_page_id) as HXr.
  { intros ->. pose proof (hid_height _ _ _ _ Hnd HX Hroot). lia. }
  split; [by apply Hg|]. intros h x Hx Hh. destruct (Q !! x) as [y|] eqn:E; [|done]. exfalso.
  destruct (decide (x = root_page_id)) as [->|Hne].
  { rewrite (Hq D root_page_id) in E; done. }
  destruct (proj1 (list_elem_of_fmap _ _ _) (Hdom x ltac:(by rewrite E))) as ([h0 x0] & E0 & Hx0). cbn in E0. subst x0.
  pose proof (hid_height _ _ _ _ Hnd' (Hg _ _ Hx0 Hne) Hx) as ->. by rewrite (Hq h x) in E.
Qed.

Lemma separator_step n : split_node_spec n -> separator_spec n -> separator_spec (Datatypes.S n).
Proof using.
  intros IHsplit IHsep s D Q ids lvs kvs d X sep R rc s' Hti HX Hd HQX Hq E. cbn [insert_separator] in E.
  destruct (ti_rights _ _ _ _ _ _ Hti _ _ _ HQX) as ((hR & _ & HRin) & HQR & Hsl & Hsb).
  destruct (pnode_parent Q (ps_view s) D root_page_id kvs ids lvs d X sep R (ti_node _ _ _ _ _ _ Hti)
    (ti_nodup _ _ _ _ _ _ Hti) HX Hd HQX HQR) as (P & p & ea & eb & anc & tail & Hsp).
  { intros c w Hc. destruct (ti_rights _ _ _ _ _ _ Hti _ _ _ Hc) as (_ & E0 & _). congruence. }
  { done. }
  destruct (descend_path root_page_id sep s) as [r s1] eqn:Edp.
  destruct (separator_descent _ _ _ _ _ _ _ _ _ _ _ _ _ _ _ _ _ _ Hti Hsp Edp) as (Hk1 & Hp1 & Hr).
  pose proof (ti_pins _ _ _ _ _ _ Hti) as Hnn.
  destruct Hr as [->|(HD & path & -> & Hlev & Hpar)]; cbn beta iota zeta in E.
  { injection E as <- <-. by eapply outcome_fail. }
  rewrite Hlev in E. replace (zlen anc + 1 - 1) with (zlen anc) in E by lia. rewrite Hpar in E.
  destruct (Z.leb_spec (zlen anc + 1) 0); [zl|]. change (default 0 (Some P)) with P in E.
  pose proof Hsp as []. pose proof (ti_ref _ _ _ _ _ _ Hti) as Href. rewrite list.Forall_forall in Href.
  assert (page_ref P) as HPr by (apply Href; by eapply fst_hid_in).
  destruct (ps_get_page P LOCK_EXCLUSIVE s1) as [rg s2] eqn:Eg.
  destruct (ps_get_law _ _ _ _ _ _ (kp_inv _ _ Hk1) HPr Eg) as (Hi2 & Hv2 & Hu2 & Hr2).
  pose proof (get_kept _ _ _ _ _ (kp_inv _ _ Hk1) HPr Eg) as Hk2.
  assert (kept s s2) as Hk02 by (by eapply kept_trans).
  destruct rg as [page|]; cycle 1.
  { injection E as <- <-. destruct Hr2 as [_ Hp2]. eapply outcome_fail; [done|done|done|].
    intros j. by rewrite Hp2. }
  destruct Hr2 as (HvP & Hp2 & _). pose proof (kp_view _ _ Hk02 _ _ HPr pa_page) as HvP'.
  assert (page = p) as -> by congruence.
  assert (forall j, ps_pins s2 j = ps_pins s j + delta j P) as Hpin by (intros j; by rewrite Hp2, Hp1).
  rewrite (find_child_at p ea eb _ X pa_repr pa_before pa_child) in E. cbn beta iota zeta in E.
  set (old_pos := match eb with [] => -1 | _ => zlen ea end) in *.
  assert ((old_pos <? 0) && negb (next_page_id (header p) =? X) = false) as Eg1.
  { unfold old_pos. destruct eb as [|x eb]; [|destruct (Z.ltb_spec (zlen ea) 0); [zl|done]].
    cbn in pa_child. by rewrite (proj2 (Z.eqb_eq _ _) pa_child), andb_false_r. }
  rewrite Eg1 in E.
  assert ((if old_pos >=? 0 then old_pos else key_count (header p)) = zlen ea) as Epos.
  { unfold old_pos. destruct eb as [|x eb]; [|by destruct (Z.geb_spec (zlen ea) 0); [|zl]].
    rewrite (page_repr_count _ _ pa_repr), app_nil_r. done. }
  rewrite Epos in E.
  assert (0 < ps_pins s2 P) as Hp0 by (rewrite Hpin, decide_True by done; specialize (Hnn P); lia).
  destruct (Z.leb_spec (SIZEOF_KV_PAIR + zlen sep) (free_space (header p))) as [Hroom|Hfull].
  - destruct (parent_update p ea eb sep X R) as (p1 & Hins & Hw1 & Hmv & Hw2 & Hr2 & Ht2 & Hn2 & Hs2); try done.
    { by eapply ps_view_wf. }
    { eapply (ti_sized _ _ _ _ _ _ Hti); [by eapply fst_hid_in|done]. }
    { apply Href. by eapply fst_hid_in. }
    { apply Href. by eapply fst_hid_in. }
    rewrite Hins in E. unfold old_pos in E. destruct eb as [|x eb].
    + cbn [Z.geb Z.compare] in E. injection E as <- <-. by eapply separator_placed.
    + destruct (Z.geb_spec (zlen ea) 0); [|zl]. rewrite Hmv in E. injection E as <- <-.
      by eapply separator_placed.
  - rewrite insert_kv_pair_full in E by (change (zlen (@nil Z)) with 0; lia).
    destruct (release_step s2 P LOCK_EXCLUSIVE Hi2 Hp0) as (Hk3 & Hv3 & Hp3 & _).
    set (s3 := ps_release_page P LOCK_EXCLUSIVE s2) in *.
    assert (forall j, ps_pins s3 j = ps_pins s j) as Hp03 by (intros j; rewrite Hp3, Hpin; lia).
    assert (tree_inv s3 D Q ids lvs kvs) as Hti3.
    { eapply tree_inv_kept; [exact Hti|by eapply kept_trans|]. intros j. rewrite Hp03. apply Hnn. }
    match type of E with context [?f n P s3] => change f with (btree_split_node root_page_id) in E end.
    destruct (btree_split_node root_page_id n P s3) as [rc1 s4] eqn:Es.
    destruct (IHsplit s3 D Q ids lvs kvs _ P p rc1 s4 Hti3 pa_in) as [Hp4 (D4 & Q4 & ids4 & lvs4 & Hti4 & Hout)];
      try done.
    { by rewrite Hv3. }
    { unfold MAX_KEY_SIZE, MAX_VALUE_SIZE in *. lia. }
    assert (forall j, ps_pins s4 j = ps_pins s j) as Hp04 by (intros j; by rewrite Hp4).
    destruct Hout as [(-> & -> & HD4 & Hg)| ->].
    + change (insert_separator root_page_id n X sep R s4 = (rc, s')) in E.
      destruct (pending_above_grown ids ids4 Q D d X (ti_nodup _ _ _ _ _ _ Hti) (ti_nodup _ _ _ _ _ _ Hti4) HX
        (pnode_in _ _ _ _ _ _ _ _ _ (ti_node _ _ _ _ _ _ Hti)) Hd (ti_dom _ _ _ _ _ _ Hti) Hg Hq) as [HX4 Hq4].
      eapply (outcome_trans s s4 _ _ _ _ ids4); [done|done|].
      eapply (IHsep s4 D4 Q ids4 lvs4 kvs d X sep R); try done.
      pose proof (pnode_in _ _ _ _ _ _ _ _ _ (ti_node _ _ _ _ _ _ Hti4)) as HD4in.
      destruct (pnode_heights _ _ _ _ _ _ _ _ _ _ _ (ti_node _ _ _ _ _ _ Hti4) HX4) as [?|[-> _]]; [done|].
      exfalso. assert (X = root_page_id) as ->; [|by rewrite (ti_root _ _ _ _ _ _ Hti4) in HQX].
      destruct (pnode_heights _ _ _ _ _ _ _ _ _ _ _ (ti_node _ _ _ _ _ _ Hti4) HX4) as [?|[_ [->|[w Hw]]]];
        [lia|done|]. by rewrite (ti_root _ _ _ _ _ _ Hti4) in Hw.
    + change ((-1, s4) = (rc, s')) in E. injection E as <- <-. split; [done|]. exists D4, Q4, ids4, lvs4. split; [done|by right].
Qed.

(** ** A new page *)
Lemma alloc_step s D Q ids lvs kvs id s1 :
  tree_inv s D Q ids lvs kvs -> ps_allocate_page s = (id, s1) ->
  tree_inv s1 D Q ids lvs kvs /\ (forall j, ps_pins s1 j = ps_pins s j) /\
  (forall j, ps_view s1 j = ps_view s j) /\
  (id <> 0 -> page_ref id /\ (id ∉ ids.*2) /\ Q !! id = None /\ ps_used s1 id).
Proof using.
  intros Hti E. destruct (ps_alloc_law _ _ _ _ (ti_store _ _ _ _ _ _ Hti) E) as (Hi & Hv & Hp & _ & Hid).
  assert (forall j, ps_used s j -> ps_used s1 j) as Hu.
  { intros j Hj. destruct (decide (id = 0)) as [_|_]; [by apply Hid|]. apply Hid. by right. }
  assert (tree_inv s1 D Q ids lvs kvs) as Hti1.
  { eapply tree_inv_mono; [exact Hti|done| |done|]; [intros j p _; by rewrite Hv|].
    intros j. rewrite Hp. apply Hti. }
  split_and!; try done. intros Hne. rewrite decide_False in Hid by done. destruct Hid as (Hr & Hnu & Hu').
  assert (id ∉ ids.*2) as Hn.
  { intros Hin. pose proof (ti_used _ _ _ _ _ _ Hti) as Hf. rewrite list.Forall_forall in Hf. by apply Hnu, Hf. }
  split_and!; try done; [|apply Hu'; by left].
  destruct (Q !! id) eqn:EQ; [|done]. exfalso. apply Hn, (ti_dom _ _ _ _ _ _ Hti). by rewrite EQ.
Qed.

(** Two pages that were both pinned and rewritten. *)
Lemma two_written s0 s W a b lk :
  written s0 s ∅ W -> a <> b -> 0 < ps_pins s0 a -> 0 < ps_pins s0 b ->
  let s' := ps_release_page a lk (ps_release_page b lk s) in
  ps_inv ∅ s' /\ (forall j, ps_view s' j = ps_view s j) /\
  (forall j, ps_pins s' j = ps_pins s0 j - delta j a - delta j b) /\
  (forall j, ps_used s' j <-> ps_used s0 j).
Proof using.
  intros Hw Hne Ha Hb s'. destruct (written_release _ _ _ b lk Hw Hb) as (Hi & Hv & Hp & Hu).
  destruct (release_step (ps_release_page b lk s) a lk Hi) as (Hk & Hv' & Hp' & _).
  { rewrite Hp, decide_False by done. lia. }
  subst s'. split_and!; [apply Hk|..]; intros j; [by rewrite Hv', Hv|rewrite Hp', Hp; lia|].
  by rewrite (kp_used _ _ Hk), Hu.
Qed.

Lemma moved_page_ok p es L :
  page_wf p -> page_sized p -> page_repr p es -> page_ref L ->
  let pl := mkPage (set_page_identity (header p) L (page_type (header p))) (data p) in
  page_wf pl /\ page_sized pl /\ page_repr pl es.
Proof using.
  clear. intros [[] Hl Hb] Hs Hr HL pl.
  assert (page_repr pl es) as Hrl by exact Hr. split_and!; try done.
  unfold page_ref in HL. constructor; try done. constructor; cbn; try done; lia.
Qed.

Lemma grown_root_ok p L :
  page_wf p -> page_ref L ->
  let pr := mkPage (grown_root_header (header p) L) (replicate (Z.to_nat btree_page_capacity) 0) in
  page_wf pr /\ page_sized pr /\ page_repr pr [].
Proof using.
  clear. intros [[] Hl Hb] HL pr. unfold page_ref in HL.
  assert (u16 btree_page_capacity = btree_page_capacity) as Hu by done.
  assert (page_repr pr []) as Hr.
  { exists (replicate (Z.to_nat btree_page_capacity) 0). unfold pr, grown_root_header.
    cbn [data header key_count free_space]. rewrite Hu, zlen_replicate. split_and!; done. }
  split_and!; [|by exists []|done].
  constructor; [|by destruct Hr as (? & _ & ? & _)|apply Forall_replicate; unfold is_byte; lia].
  constructor; unfold pr, grown_root_header; cbn [header page_id page_type key_count free_space reserved0
    next_page_id prev_page_id lsn checksum reserved]; rewrite ?Hu; try done; try lia; vm_compute; by split.
Qed.

Lemma grow_root_spec s D Q ids lvs kvs r s' :
  tree_inv s D Q ids lvs kvs -> grow_root root_page_id s = (r, s') ->
  (forall j, ps_pins s' j = ps_pins s j) /\
  match r with
  | None => tree_inv s' D Q ids lvs kvs
  | Some L => exists ids' lvs' p p', ids = (D, root_page_id) :: ids' /\
      tree_inv s' (Datatypes.S D) Q ((Datatypes.S D, root_page_id) :: (D, L) :: ids') lvs' kvs /\
      ps_view s root_page_id = Some p /\ ps_view s' L = Some p' /\
      free_space (header p') = free_space (header p)
  end.
Proof using.
  intros Hti. unfold grow_root. destruct (ps_allocate_page s) as [L s1] eqn:Ea.
  destruct (alloc_step _ _ _ _ _ _ _ _ Hti Ea) as (Hti1 & Hp1 & Hv1 & HL).
  destruct (Z.eqb_spec L 0) as [->|HL0]; [by intros [= <- <-]|]. destruct (HL HL0) as (HLr & HLn & HQL & HLu). clear HL.
  pose proof (pnode_root _ _ _ _ _ _ _ _ _ (ti_node _ _ _ _ _ _ Hti)) as [ids0 Ei].
  assert (root_page_id ∈ ids.*2) as Hrin by (rewrite Ei; left).
  assert (page_ref root_page_id) as Hrr.
  { pose proof (ti_ref _ _ _ _ _ _ Hti) as Hf. rewrite list.Forall_forall in Hf. by apply Hf. }
  assert (L <> root_page_id) as HLR by (intros ->; done).
  pose proof (ti_pins _ _ _ _ _ _ Hti) as Hnn.
  destruct (tree_inv_view _ _ _ _ _ _ _ Hti1 Hrin) as (p & Hp & _).
  destruct (ps_get_page root_page_id LOCK_EXCLUSIVE s1) as [r2 s2] eqn:Eg.
  destruct (ps_get_law _ _ _ _ _ _ (ti_store _ _ _ _ _ _ Hti1) Hrr Eg) as (Hi2 & Hv2 & Hu2 & Hr2).
  pose proof (get_kept _ _ _ _ _ (ti_store _ _ _ _ _ _ Hti1) Hrr Eg) as Hk2.
  destruct r2 as [root|]; cycle 1.
  { intros [= <- <-]. destruct Hr2 as [_ Hp2]. assert (forall j, ps_pins s2 j = ps_pins s j) as Hpp
      by (intros j; by rewrite Hp2). split; [done|].
    eapply tree_inv_kept; [done|done|]. intros j. rewrite Hpp. apply Hnn. }
  destruct Hr2 as (Hvr & Hp2 & _). assert (root = p) as ->.
  { pose proof (Hv2 _ _ Hrr Hp). congruence. }
  destruct (ps_get_page L LOCK_EXCLUSIVE s2) as [r3 s3] eqn:Eg3.
  destruct (ps_get_law _ _ _ _ _ _ Hi2 HLr Eg3) as (Hi3 & Hv3 & Hu3 & Hr3).
  pose proof (get_kept _ _ _ _ _ Hi2 HLr Eg3) as Hk3.
  assert (kept s1 s3) as Hk13 by (by eapply kept_trans).
  destruct r3 as [left|]; cycle 1.
  { intros [= <- <-]. destruct Hr3 as [_ Hp3].
    destruct (release_step s3 root_page_id LOCK_EXCLUSIVE Hi3) as (Hk4 & _ & Hp4 & _).
    { rewrite Hp3, Hp2, Hp1, decide_True by done. specialize (Hnn root_page_id). lia. }
    assert (forall j, ps_pins (ps_release_page root_page_id LOCK_EXCLUSIVE s3) j = ps_pins s j) as Hpp.
    { intros j. rewrite Hp4, Hp3, Hp2, Hp1. lia. }
    split; [done|]. eapply tree_inv_kept; [exact Hti1|by eapply kept_trans|]. intros j. rewrite Hpp. apply Hnn. }
  destruct Hr3 as (_ & Hp3 & _). intros [= <- <-].
  assert (forall j, ps_pins s3 j = ps_pins s j + delta j root_page_id + delta j L) as Hp03
    by (intros j; by rewrite Hp3, Hp2, Hp1).
  assert (0 < ps_pins s3 root_page_id /\ 0 < ps_pins s3 L) as [HpR HpL].
  { pose proof (Hnn root_page_id). pose proof (Hnn L).
    split; rewrite Hp03; repeat case_decide; (lia || congruence). }
  assert (page_wf p) as Hwf by (eapply ps_view_wf; [apply Hti1|done|done]).
  pose proof (ti_sized _ _ _ _ _ _ Hti1 _ _ Hrin Hp) as Hsz. destruct Hsz as (es & Hr & Hszf).
  assert (page_sized p) as Hsz by (by exists es).
  destruct (moved_page_ok p es L Hwf Hsz Hr HLr) as (Hwl & Hszl & Hrl).
  destruct (grown_root_ok p L Hwf HLr) as (Hwr & Hszr & Hrr').
  set (pl := mkPage (set_page_identity _ L _) _) in *. set (pr := mkPage (grown_root_header _ L) _) in *.
  pose proof (written_refl s3 Hi3) as Hw.
  apply (written_store _ _ _ _ L pl) in Hw; [|done|done].
  apply (written_store _ _ _ _ root_page_id pr) in Hw; [|done|done].
  apply (written_dirty _ _ _ _ L pl) in Hw; [|done|by rewrite lookup_insert_ne, lookup_insert_eq].
  apply (written_dirty _ _ _ _ root_page_id pr) in Hw; [|done|by rewrite lookup_insert_eq].
  assert ((({[root_page_id]} ∪ ({[L]} ∪ ∅)) ∖ {[L]} ∖ {[root_page_id]} : gset Z) = ∅) as EU by set_solver.
  rewrite EU in Hw.
  destruct (two_written _ _ _ root_page_id L LOCK_EXCLUSIVE Hw ltac:(done) HpR HpL) as (Hi' & Hv' & Hp' & Hu').
  set (s' := ps_release_page root_page_id _ _) in *.
  destruct (wr_new _ _ _ _ Hw L pl) as (ql & Hql & Hel); [by rewrite lookup_insert_ne, lookup_insert_eq|].
  destruct (wr_new _ _ _ _ Hw root_page_id pr) as (qr & Hqr & Her); [by rewrite lookup_insert_eq|].
  rewrite <- Hv' in Hql, Hqr.
  assert (forall j, ps_pins s' j = ps_pins s j) as Hpp by (intros j; rewrite Hp', Hp03; lia).
  split; [done|].
  assert (forall x q, x <> root_page_id -> x ∈ ids.*2 -> ps_view s1 x = Some q -> ps_view s' x = Some q) as Hf.
  { intros x q Hne Hx Hq. rewrite Hv', (wr_same _ _ _ _ Hw).
    - apply (kp_view _ _ Hk13); [|done]. pose proof (ti_ref _ _ _ _ _ _ Hti) as Hfr.
      rewrite list.Forall_forall in Hfr. by apply Hfr.
    - rewrite !lookup_insert_ne; [done| |done]. by intros ->. }
  destruct (page_equiv_fields _ _ Hel) as (_ & Htl & _ & Hfl & Hnl & _).
  destruct (page_equiv_fields _ _ Her) as (_ & Htr & _ & _ & Hnr & _).
  destruct (pnode_grow Q (ps_view s1) (ps_view s') D root_page_id kvs ids lvs L p ql qr es)
    as (ids' & lvs' & -> & Hn' & Hch); try done; try apply Hti1; try (by rewrite <- Hel); try (by rewrite <- Her).
  exists ids', lvs', p, ql. split_and!; try done; [|by rewrite <- Hv1].
  pose proof Hti1 as [].
  constructor; try done; cbn [fmap list_fmap] in *.
  - intros j. rewrite Hpp. apply Hnn.
  - by apply Hch.
  - apply list.NoDup_cons in ti_nodup0 as [? ?]. apply list.NoDup_cons. split; [set_solver|].
    apply list.NoDup_cons. split; [set_solver|done].
  - constructor; [done|]. constructor; [done|]. by apply Forall_inv_tail in ti_ref0.
  - assert (forall j, ps_used s' j <-> ps_used s1 j) as Hus.
    { intros j. by rewrite Hu', (kp_used _ _ Hk13). }
    constructor; [apply Hus, (Forall_inv ti_used0)|]. constructor; [by apply Hus|].
    eapply list.Forall_impl; [exact (Forall_inv_tail ti_used0)|]. intros x. apply Hus.
  - intros x q [->|[->|Hx]%elem_of_cons]%elem_of_cons Hq.
    + cbn [snd] in Hq. rewrite Hqr in Hq. injection Hq as <-. by rewrite <- Her.
    + cbn [snd] in Hq. rewrite Hql in Hq. injection Hq as <-. by rewrite <- Hel.
    + assert (x <> root_page_id) as Hne by (intros ->; by apply list.NoDup_cons in ti_nodup0 as [? _]).
      destruct (tree_inv_view _ _ _ _ _ _ x Hti1) as (y & Hy & _); [by right|].
      rewrite (Hf x y Hne ltac:(by right) Hy) in Hq. injection Hq as <-. eapply ti_sized0; [by right|done].
  - intros x Hx. apply ti_dom0 in Hx. set_solver.
  - intros c sp r0 Hc. destruct (ti_rights0 _ _ _ Hc) as ((h & Hhc & Hhr) & ? & ? & ?). split_and!; try done.
    assert (forall x, (h, x) ∈ (D, root_page_id) :: ids' -> x <> root_page_id -> (h, x) ∈ ids') as Hin.
    { intros x [[= -> ->]|?]%elem_of_cons Hne; done. }
    assert (c <> root_page_id) as Hcr by congruence.
    exists h. split; right; right; apply Hin; try done. intros ->.
    assert (h = D) as -> by (apply (hid_height ((D, root_page_id) :: ids') h D root_page_id);
      [exact ti_nodup0|exact Hhr|left]).
    destruct (pnode_heights _ _ _ _ _ _ _ _ _ _ _ ti_node0 Hhc) as [?|[_ [?|[w Hcw]]]]; [lia|done|congruence].
Qed.

(** ** Splitting a node *)

(** [btree_split_node] once the node is not the root. *)
Definition split_child (n : nat) (node_id : Z) (s : S) : Z * S :=
  let '(right_id, s) := ps_allocate_page s in
  if right_id =? 0 then (-1, s) else
  match ps_get_page node_id LOCK_EXCLUSIVE s with
  | (None, s) => (-1, s)
  | (Some node, s) =>
      match ps_get_page right_id LOCK_EXCLUSIVE s with
      | (None, s) => (-1, ps_release_page node_id LOCK_EXCLUSIVE s)
      | (Some _, s) =>
          let s := ps_store_page right_id empty_right_page s in
          let release s := ps_release_page node_id LOCK_EXCLUSIVE
                             (ps_release_page right_id LOCK_EXCLUSIVE s) in
          match btree_split_page node empty_right_page right_id MAX_KEY_SIZE with
          | None => (-1, ps_deallocate_page right_id (release s))
          | Some (node', right', sep) =>
              let s := ps_store_page right_id right' (ps_store_page node_id node' s) in
              let s := ps_mark_page_dirty right_id (ps_mark_page_dirty node_id s) in
              insert_separator root_page_id n node_id sep right_id (release s)
          end
      end
  end.

Lemma btree_split_node_S n N s :
  btree_split_node root_page_id (Datatypes.S n) N s =
  let '(node, s) := if N =? root_page_id then grow_root root_page_id s else (Some N, s) in
  match node with None => (-1, s) | Some N => split_child n N s end.
Proof using. reflexivity. Qed.

(** A tree with one more pending split. *)
Lemma tree_inv_cut s s' D Q ids lvs kvs d N R p es p1 p2 sep :
  tree_inv s D Q ids lvs kvs -> (d, N) ∈ ids -> N <> root_page_id ->
  (forall h x, (h, x) ∈ ids -> (d <= h)%nat -> Q !! x = None) ->
  page_ref R -> R ∉ ids.*2 -> ps_view s N = Some p -> page_repr p es -> cut R p es p1 p2 sep ->
  ps_inv ∅ s' -> pins_nonneg s' -> (forall j, ps_used s j -> ps_used s' j) -> ps_used s' R ->
  (forall x q, x <> N -> x <> R -> page_ref x -> ps_view s x = Some q -> ps_view s' x = Some q) ->
  ps_view s' N = Some p1 -> ps_view s' R = Some p2 -> page_sized p1 -> page_sized p2 ->
  zlen sep <= MAX_KEY_SIZE -> Forall is_byte sep ->
  exists ids' lvs', ids' ≡ₚ (d, R) :: ids /\ tree_inv s' D (<[N := (sep, R)]> Q) ids' lvs' kvs.
Proof using.
  intros Hti HN HNr Hq HRr HRn Hp Hr Hcut Hi' Hp' Hu' HuR Hv Hv1 Hv2 Hs1 Hs2 Hsl Hsb.
  pose proof Hti as [].
  destruct (pnode_cut _ _ _ _ _ _ _ d N ti_node0 ti_nodup0 HN Hq) as (p0 & es0 & Hp0 & Hr0 & _ & _ & Hput).
  assert (p0 = p) as -> by congruence. rewrite (page_repr_inj _ _ _ Hr0 Hr) in *. clear Hp0 Hr0 es0.
  assert (forall x q, x <> N -> x ∈ ids.*2 -> ps_view s x = Some q -> ps_view s' x = Some q) as Hv'.
  { intros x q Hne Hx. apply Hv; [done|by intros ->|]. rewrite list.Forall_forall in ti_ref0. by apply ti_ref0. }
  destruct (Hput (ps_view s') R p1 p2 sep HRn Hcut Hv1 Hv2 Hv') as (ids' & lvs' & Hn' & Hperm & Hch).
  assert (ids'.*2 ≡ₚ R :: ids.*2) as Hperm2.
  { change (R :: ids.*2) with (((d, R) :: ids).*2). by rewrite Hperm. }
  exists ids', lvs'. split; [done|]. constructor; try done.
  - by apply Hch.
  - rewrite Hperm2. by apply list.NoDup_cons.
  - rewrite Hperm2. by constructor.
  - rewrite Hperm2. constructor; [done|]. eapply list.Forall_impl; [exact ti_used0|done].
  - intros x q Hx Hq'. rewrite Hperm2 in Hx. apply elem_of_cons in Hx as [->|Hx]; [congruence|].
    destruct (decide (x = N)) as [->|Hne]; [congruence|].
    destruct (tree_inv_view _ _ _ _ _ _ _ Hti Hx) as (y & Hy & _).
    rewrite (Hv' x y Hne Hx Hy) in Hq'. injection Hq' as <-. by eapply ti_sized0.
  - by rewrite lookup_insert_ne.
  - intros x Hx. rewrite Hperm2. destruct (decide (x = N)) as [->|Hne].
    + right. by eapply fst_hid_in.
    + rewrite lookup_insert_ne in Hx by done. right. by apply ti_dom0.
  - assert (forall x, Q !! x = None -> x <> N -> <[N := (sep, R)]> Q !! x = None) as Hnone.
    { intros x Hx Hne. by rewrite lookup_insert_ne. }
    assert (R <> N) as HRN by (intros ->; apply HRn; by eapply fst_hid_in).
    intros c w r [[<- [= <- <-]]|[Hne Hc]]%lookup_insert_Some.
    + split_and!; try done; [exists d; split; rewrite Hperm; [by right|left]|]. apply Hnone; [|done].
      destruct (Q !! R) eqn:E; [|done]. exfalso. apply HRn, ti_dom0. by rewrite E.
    + destruct (ti_rights0 _ _ _ Hc) as ((h & Hhc & Hhr) & Hr2 & ? & ?). split_and!; try done.
      * exists h. split; rewrite Hperm; by right.
      * apply Hnone; [done|]. intros ->.
        pose proof (hid_height _ _ _ _ ti_nodup0 Hhr HN) as ->. by rewrite (Hq d c) in Hc.
Qed.

Lemma split_child_step n s D Q ids lvs kvs d N p rc s' :
  separator_spec n -> tree_inv s D Q ids lvs kvs -> (d, N) ∈ ids -> (d < D)%nat ->
  (forall h x, (h, x) ∈ ids -> (d <= h)%nat -> Q !! x = None) ->
  ps_view s N = Some p -> free_space (header p) < SIZEOF_KV_PAIR + MAX_KEY_SIZE + MAX_VALUE_SIZE ->
  split_child n N s = (rc, s') -> split_outcome s rc s' Q ids kvs.
Proof using.
  intros IH Hti HN Hd Hq Hp Hfull. unfold split_child. destruct (ps_allocate_page s) as [R s1] eqn:Ea.
  destruct (alloc_step _ _ _ _ _ _ _ _ Hti Ea) as (Hti1 & Hp1 & Hv1 & HR).
  pose proof (ti_pins _ _ _ _ _ _ Hti) as Hnn.
  destruct (Z.eqb_spec R 0) as [->|HR0].
  { intros [= <- <-]. eapply (outcome_fail s s1 s1); try done. by apply kept_refl, Hti1. }
  destruct (HR HR0) as (HRr & HRn & HQR & HRu). clear HR.
  assert (N ∈ ids.*2) as HNin by (by eapply fst_hid_in).
  assert (page_ref N) as HNr.
  { pose proof (ti_ref _ _ _ _ _ _ Hti) as Hf. rewrite list.Forall_forall in Hf. by apply Hf. }
  assert (N <> R) as HNR by (by intros ->).
  assert (N <> root_page_id) as HNroot.
  { intros ->. pose proof (hid_height _ _ _ _ (ti_nodup _ _ _ _ _ _ Hti) HN
      (pnode_in _ _ _ _ _ _ _ _ _ (ti_node _ _ _ _ _ _ Hti))). lia. }
  rewrite <- Hv1 in Hp.
  destruct (ps_get_page N LOCK_EXCLUSIVE s1) as [r2 s2] eqn:Eg.
  destruct (ps_get_law _ _ _ _ _ _ (ti_store _ _ _ _ _ _ Hti1) HNr Eg) as (Hi2 & Hv2 & Hu2 & Hr2).
  pose proof (get_kept _ _ _ _ _ (ti_store _ _ _ _ _ _ Hti1) HNr Eg) as Hk2.
  destruct r2 as [node|]; cycle 1.
  { intros [= <- <-]. destruct Hr2 as [_ Hp2]. eapply outcome_fail; [exact Hti1|done|done|].
    intros j. by rewrite Hp2. }
  destruct Hr2 as (HvN & Hp2 & _). assert (node = p) as ->.
  { pose proof (Hv2 _ _ HNr Hp). congruence. }
  destruct (ps_get_page R LOCK_EXCLUSIVE s2) as [r3 s3] eqn:Eg3.
  destruct (ps_get_law _ _ _ _ _ _ Hi2 HRr Eg3) as (Hi3 & Hv3 & Hu3 & Hr3).
  pose proof (get_kept _ _ _ _ _ Hi2 HRr Eg3) as Hk3.
  assert (kept s1 s3) as Hk13 by (by eapply kept_trans).
  destruct r3 as [rp|]; cycle 1.
  { intros [= <- <-]. destruct Hr3 as [_ Hp3].
    destruct (release_step s3 N LOCK_EXCLUSIVE Hi3) as (Hk4 & _ & Hp4 & _).
    { rewrite Hp3, Hp2, Hp1, decide_True by done. specialize (Hnn N). lia. }
    eapply outcome_fail; [exact Hti1|by eapply kept_trans|done|]. intros j. rewrite Hp4, Hp3, Hp2, Hp1. lia. }
  destruct Hr3 as (_ & Hp3 & _).
  assert (forall j, ps_pins s3 j = ps_pins s j + delta j N + delta j R) as Hp03
    by (intros j; by rewrite Hp3, Hp2, Hp1).
  assert (0 < ps_pins s3 N /\ 0 < ps_pins s3 R) as [HpN HpR].
  { pose proof (Hnn N). pose proof (Hnn R). split; rewrite Hp03; repeat case_decide; (lia || congruence). }
  assert (page_wf p) as Hwf by (eapply ps_view_wf; [apply Hti1|done|done]).
  pose proof (ti_sized _ _ _ _ _ _ Hti1 _ _ HNin Hp) as Hsz.
  destruct (tree_inv_view _ _ _ _ _ _ _ Hti1 HNin) as (p0 & Hp0 & Htp). assert (p0 = p) as -> by congruence.
  destruct Hsz as (es & Hr & Hszf). assert (page_sized p) as Hsz by (by exists es).
  destruct (split_page_cut p es R Hwf Hsz Hr Htp (full_page_entries _ _ Hsz Hr Hfull) HRr)
    as (p1 & p2 & sep & -> & Hcut & Hw1 & Hw2 & Hs1 & Hs2 & Hsl & Hsb).
  pose proof (written_refl s3 Hi3) as Hw.
  apply (written_store _ _ _ _ R empty_right_page) in Hw; [|done|apply empty_right_wf].
  apply (written_store _ _ _ _ N p1) in Hw; [|done|done].
  apply (written_store _ _ _ _ R p2) in Hw; [|done|done].
  apply (written_dirty _ _ _ _ N p1) in Hw; [|done|by rewrite lookup_insert_ne, lookup_insert_eq].
  apply (written_dirty _ _ _ _ R p2) in Hw; [|done|by rewrite lookup_insert_eq].
  assert ((({[R]} ∪ ({[N]} ∪ ({[R]} ∪ ∅))) ∖ {[N]} ∖ {[R]} : gset Z) = ∅) as EU by (clear; set_solver).
  rewrite EU in Hw.
  destruct (two_written _ _ _ N R LOCK_EXCLUSIVE Hw ltac:(done) HpN HpR) as (Hi' & Hv' & Hp' & Hu').
  set (s4 := ps_release_page N _ _) in *. intros E.
  destruct (wr_new _ _ _ _ Hw N p1) as (q1 & Hq1 & He1); [by rewrite lookup_insert_ne, lookup_insert_eq|].
  destruct (wr_new _ _ _ _ Hw R p2) as (q2 & Hq2 & He2); [by rewrite lookup_insert_eq|].
  rewrite <- Hv' in Hq1, Hq2.
  assert (forall j, ps_pins s4 j = ps_pins s j) as Hpp by (intros j; rewrite Hp', Hp03; lia).
  destruct (tree_inv_cut s1 s4 D Q ids lvs kvs d N R p es q1 q2 sep) as (ids' & lvs' & Hperm & Hti4); try done.
  - by eapply cut_proper.
  - intros j. rewrite Hpp. apply Hnn.
  - intros j Hj. apply Hu', (kp_used _ _ Hk13), Hj.
  - by apply Hu', (kp_used _ _ Hk13).
  - intros x q Hx1 Hx2 Hxr Hxq. rewrite Hv', (wr_same _ _ _ _ Hw); [by apply (kp_view _ _ Hk13)|].
    by rewrite !lookup_insert_ne.
  - by rewrite <- He1.
  - by rewrite <- He2.
  - assert (delete N (<[N := (sep, R)]> Q) = Q) as EQ.
    { apply delete_insert_id, (Hq d N HN). lia. }
    rewrite <- EQ. eapply (outcome_trans s s4 _ _ _ _ ids'); [done| |].
    { intros h x Hx _. rewrite Hperm. by right. }
    eapply (IH s4 D _ ids' lvs' kvs d N sep R); try done.
    + rewrite Hperm. by right.
    + by rewrite lookup_insert_eq.
    + intros h x Hx Hh. rewrite Hperm in Hx. apply elem_of_cons in Hx as [[= -> ->]|Hx]; [lia|].
      rewrite lookup_insert_ne; [apply (Hq h x Hx); lia|].
      intros <-. pose proof (hid_height _ _ _ _ (ti_nodup _ _ _ _ _ _ Hti) HN Hx). lia.
Qed.

Lemma split_node_step n : separator_spec n -> split_node_spec (Datatypes.S n).
Proof using.
  intros IH s D Q ids lvs kvs d N p rc s' Hti HN Hq Hp Hfull. rewrite btree_split_node_S.
  pose proof (pnode_in _ _ _ _ _ _ _ _ _ (ti_node _ _ _ _ _ _ Hti)) as Hroot.
  pose proof (ti_nodup _ _ _ _ _ _ Hti) as Hnd.
  destruct (Z.eqb_spec N root_page_id) as [->|Hne].
  - pose proof (hid_height _ _ _ _ Hnd HN Hroot) as ->.
    destruct (grow_root root_page_id s) as [r s1] eqn:Eg.
    destruct (grow_root_spec _ _ _ _ _ _ _ _ Hti Eg) as [Hp1 Hr]. destruct r as [L|]; cycle 1.
    { intros [= <- <-]. split; [done|]. exists D, Q, ids, lvs. split; [done|by right]. }
    destruct Hr as (ids' & lvs' & p0 & p1 & -> & Hti1 & Hp0 & HvL & Hf). intros E.
    assert (p0 = p) as -> by congruence.
    eapply (outcome_trans s s1 _ _ _ _ ((Datatypes.S D, root_page_id) :: (D, L) :: ids')); [done| |].
    { intros h x Hx Hne. apply elem_of_cons in Hx as [[= -> ->]|Hx]; [done|]. right. by right. }
    eapply (split_child_step n s1 (Datatypes.S D) Q _ lvs' kvs D L p1); try done; try lia.
    + right. left.
    + intros h x Hx Hh. pose proof (ti_dom _ _ _ _ _ _ Hti) as Hdom.
      destruct (Q !! x) as [y|] eqn:EQ; [|done]. exfalso.
      destruct (proj1 (list_elem_of_fmap _ _ _) (Hdom x ltac:(by rewrite EQ))) as ([h0 x0] & E0 & Hx0).
      cbn in E0. subst x0. apply elem_of_cons in Hx0 as [[= -> ->]|Hx0].
      { by rewrite (ti_root _ _ _ _ _ _ Hti) in EQ. }
      assert (h = h0) as ->.
      { eapply hid_height; [exact (ti_nodup _ _ _ _ _ _ Hti1)|exact Hx|]. right. by right. }
      rewrite (Hq h0 x) in EQ; [done|by right|done].
  - assert (d < D)%nat as Hd.
    { destruct (pnode_heights _ _ _ _ _ _ _ _ _ _ _ (ti_node _ _ _ _ _ _ Hti) HN) as [?|[-> [?|[w Hw]]]];
        [done|done|]. by rewrite (ti_root _ _ _ _ _ _ Hti) in Hw. }
    intros E. by apply (split_child_step n s D Q ids lvs kvs d N p).
Qed.

Lemma split_specs n : separator_spec n /\ split_node_spec n.
Proof using.
  induction n as [|n [IH1 IH2]].
  - split; red; intros; match goal with E : _ = (_, _) |- _ => cbn in E; injection E as <- <- end;
      (eapply outcome_fail; [eassumption|eapply kept_refl, ti_store; eassumption|
        eapply ti_pins; eassumption|done]).
  - split; [by apply separator_step|by apply split_node_step].
Qed.

(** ** Insertion *)

(** The pairs are all still there, on the leaf chain and in key order, though
    some upper halves may not be linked from their parents. *)
Definition db_pairs (s : S) (kvs : list kv) : Prop := exists D Q ids lvs, tree_inv s D Q ids lvs kvs.

Lemma db_inv_pairs s l kvs : db_inv root_page_id s l kvs -> db_pairs s kvs.
Proof using. intros Hdb. destruct (db_tree_inv _ _ _ Hdb) as (D & ids & lvs & _ & Ht & _). by eexists _, _, _, _. Qed.

Definition insert_result (key value : bytes) (s : S) (ids : list Z) (kvs : list kv)
    (t : transaction) (r : Z) (t' : transaction) (s' : S) : Prop :=
  (forall j, ps_pins s' j = ps_pins s j) /\
  (r = 0 /\ t' = add_rows 1 0 t /\ kv_map kvs !! key = None /\
   (exists l' kvs', db_inv root_page_id s' l' kvs' /\ kv_map kvs' = <[key := value]> (kv_map kvs)) \/
   r = -1 /\ t' = t /\ db_pairs s' kvs /\
   (is_Some (kv_map kvs !! key) -> db_inv root_page_id s' ids kvs)).

(** A split on behalf of a leaf that is too full. *)
Lemma split_leaf_spec n s l kvs leaf p rc s' :
  db_inv root_page_id s l kvs -> leaf ∈ l -> ps_view s leaf = Some p ->
  free_space (header p) < SIZEOF_KV_PAIR + MAX_KEY_SIZE + MAX_VALUE_SIZE ->
  btree_split_node root_page_id n leaf s = (rc, s') ->
  (forall j, ps_pins s' j = ps_pins s j) /\
  (rc = 0 /\ (exists l', db_inv root_page_id s' l' kvs) \/ rc = -1 /\ db_pairs s' kvs).
Proof using.
  intros Hdb Hl Hp Hf E. destruct (db_tree_inv _ _ _ Hdb) as (D & ids & lvs & <- & Hti & HD).
  apply list_elem_of_fmap in Hl as ([d x] & -> & Hl).
  destruct (proj2 (split_specs n) s D ∅ ids lvs kvs d x p rc s' Hti Hl) as [Hp' (D' & Q' & ids' & lvs' & Ht' & Hout)];
    [done|done|done|done|]. split; [done|]. destruct Hout as [(-> & -> & HD' & _)| ->].
  - left. split; [done|]. exists ids'.*2. by eapply tree_inv_db.
  - right. split; [done|]. by exists D', Q', ids', lvs'.
Qed.

Lemma insert_loop_spec attempts t key value s (ids : list Z) kvs r t' s' :
  db_inv root_page_id s ids kvs -> Forall is_byte key -> Forall is_byte value ->
  0 < zlen key <= MAX_KEY_SIZE -> zlen value <= MAX_VALUE_SIZE ->
  insert_loop root_page_id attempts t key value s = (r, t', s') ->
  insert_result key value s ids kvs t r t' s'.
Proof using.
  intros Hdb Hkb Hvb Hkl Hvl. revert s ids Hdb. induction attempts as [|n IH]; intros s ids Hdb; cbn [insert_loop].
  { intros [= <- <- <-]. split; [done|]. right. split_and!; try done. by eapply db_inv_pairs. }
  assert (forall s1, db_inv root_page_id s1 ids kvs -> (forall j, ps_pins s1 j = ps_pins s j) ->
    insert_result key value s ids kvs t (-1) t s1) as Hfail.
  { intros s1 Hdb1 Hp1. split; [done|]. right. split_and!; try done. by eapply db_inv_pairs. }
  destruct (descend_path root_page_id key s) as [rp s1] eqn:Edp.
  pose proof (db_descend_path _ _ _ _ _ _ _ Hdb Edp) as Hdp. destruct rp as [path|]; cycle 1.
  { intros [= <- <- <-]. destruct Hdp as (? & ? & ?). by apply Hfail. }
  destruct Hdp as (leaf & -> & Hget).
  destruct (ps_get_page leaf LOCK_EXCLUSIVE s1) as [rg s2] eqn:Eg. specialize (Hget _ _ _ Eg).
  destruct rg as [p|]; cycle 1.
  { intros [= <- <- <-]. destruct Hget as (? & ? & ?). by apply Hfail. }
  destruct Hget as (d & lvs & es & lo & hi & pre & post & lpre & lpost & Hal).
  pose proof (di_pins _ _ _ _ Hdb) as Hnn. pose proof Hal as [_ Hrt _ _ Hlf Hdb2 _ _ _].
  destruct (at_leaf_leave _ _ _ s2 _ _ _ _ _ _ _ _ _ _ _ _ _ _ _ LOCK_EXCLUSIVE Hal Hnn
      (quiet_refl _ (di_store _ _ _ _ Hdb2))) as [Hdb3 Hp3].
  destruct (find_pair p key) as [kv|] eqn:Efp.
  { intros [= <- <- <-]. by apply Hfail. }
  destruct (Z.ltb_spec (free_space (header p)) (SIZEOF_KV_PAIR + zlen key + zlen value)) as [Hfull|Hroom].
  - destruct (btree_split_node root_page_id BTREE_MAX_DEPTH leaf (ps_release_page leaf LOCK_EXCLUSIVE s2))
      as [rc s4] eqn:Es.
    assert (ps_view (ps_release_page leaf LOCK_EXCLUSIVE s2) leaf = Some p) as Hvl3.
    { pose proof (at_leaf_pinned _ _ _ _ _ _ _ _ _ _ _ _ _ _ _ _ _ _ Hal Hnn) as Hp0.
      destruct (release_step s2 leaf LOCK_EXCLUSIVE (di_store _ _ _ _ Hdb2) Hp0) as (_ & -> & _). apply Hrt. }
    destruct (split_leaf_spec BTREE_MAX_DEPTH _ _ _ _ _ rc s4 Hdb3 Hlf Hvl3 ltac:(lia) Es) as [Hp4 Hout].
    assert (kv_map kvs !! key = None) as Habs.
    { destruct Hrt. pose proof (find_pair_spec p es key rt_repr (proj1 rt_es)) as Hfp. rewrite Efp in Hfp.
      subst kvs. by apply leaf_map_miss. }
    destruct Hout as [[-> [l' Hdb4]]|[-> Hpairs]].
    + change (negb (0 =? 0)) with false. cbn iota. intros E. destruct (IH s4 l' Hdb4 E) as [Hp' Hres].
      split; [intros j; by rewrite Hp', Hp4|]. destruct Hres as [Hok|(-> & -> & Hpr & _)]; [by left|].
      right. split_and!; try done. rewrite Habs. by intros [? ?].
    + change (negb (-1 =? 0)) with true. cbn iota. intros [= <- <- <-].
      split; [intros j; by rewrite Hp4|]. right. split_and!; try done. rewrite Habs. by intros [? ?].
  - destruct (insert_at_leaf _ _ _ _ _ _ value _ _ _ _ _ _ _ _ _ _ _ _ WAL_INSERT (txn_id t) Hal Hnn Efp)
      as (p' & -> & Hrest); try done; [lia|]. intros [= <- <- <-].
    destruct Hrest as (Hp' & Habs & kvs' & Hdb' & Hm). split; [done|]. left. split_and!; try done. by exists ids, kvs'.
Qed.

Lemma db_insert_spec t key value s (ids : list Z) kvs r t' s' :
  db_inv root_page_id s ids kvs -> txn_is_active t = true -> Forall is_byte key -> Forall is_byte value ->
  0 < zlen key <= MAX_KEY_SIZE -> zlen value <= MAX_VALUE_SIZE ->
  db_insert root_page_id (Some t) key value s = (r, t', s') ->
  exists t1, t' = Some t1 /\ insert_result key value s ids kvs t r t1 s' /\
    (all_resident s ids -> leaves_have_room s ids (SIZEOF_KV_PAIR + zlen key + zlen value) ->
     r = -1 -> is_Some (kv_map kvs !! key)).
Proof using.
  intros Hdb Hact Hkb Hvb Hkl Hvl E. pose proof E as E0. unfold db_insert in E. rewrite Hact in E. cbn [negb] in E.
  rewrite (proj2 (Z.eqb_neq (zlen key) 0)) in E by lia.
  destruct (Z.gtb_spec (zlen key) MAX_KEY_SIZE) as [?|_]; [lia|].
  destruct (Z.gtb_spec (zlen value) MAX_VALUE_SIZE) as [?|_]; [lia|]. cbn [orb] in E.
  destruct (insert_loop root_page_id BTREE_MAX_DEPTH t key value s) as [[r1 t1] s1] eqn:El.
  injection E as <- <- <-. exists t1. split; [done|]. split; [by eapply insert_loop_spec|].
  intros Hres Hroom ->. destruct (db_insert_room_spec _ _ _ _ _ _ _ _ _ _ Hdb Hact Hkb Hvb Hroom Hkl Hvl E0)
    as [_ [(? & _)|(_ & _ & _ & [?|?])]]; done.
Qed.
End store.
