(* ===== verification/Engine.v ===== *)
(** * Engine lifecycle (storage/src/engine.c)

    Initialisation from the data file, checkpointing and shutdown. What
    [open] and [malloc] answer is an argument of [init_storage_engine]; closing
    files and freeing memory have no counterpart in the model. *)
From S2P Require Import Prelude BtreePage Wal Pager PagerProofs Store Txn Db DbProofs.

Local Open Scope Z_scope.

Record engine := mkEngine {
  eng_pager : pager; eng_txns : txn_manager; eng_root_page_id : Z;
  last_checkpoint_lsn : Z; checkpoints_performed : Z }.

Definition set_pager (s : pager) (g : engine) : engine :=
  mkEngine s (eng_txns g) (eng_root_page_id g) (last_checkpoint_lsn g) (checkpoints_performed g).

Section engine.
Context (crc32 : bytes -> Z).

(** One [pwrite] without a retry: the bytes that reach the file and whether
    the call returned the full count. *)
Definition pwrite_once (io : list io_result) (buf : bytes) : bytes * bool * list io_result :=
  match io with
  | [] => (buf, true, [])
  | IoPartial n :: io' =>
      let n := Z.min (Z.max 1 n) (zlen buf) in (ztake n buf, n =? zlen buf, io')
  | _ :: io' => ([], false, io')
  end.

Definition checkpoint_frame (s : pager) (i : nat) : pager :=
  match buffer_pool s !! i with
  | None => s
  | Some e =>
      match be_dirty e, be_page e with
      | true, Some p =>
          let en := env s in
          let '(out, ok, io) := pwrite_once (env_pwrite en) (page_image p) in
          let s := set_env (mkEnv (env_clock en) (env_ticks en) io (env_pread en) (env_malloc en)) s in
          let s := set_file (file_write (be_page_id e * PAGE_SIZE) out (data_file s)) s in
          if ok : bool then update_frame i (frame_dirty false) (bump_stats 0 1 0 0 s) else s
      | _, _ => s
      end
  end.

Definition checkpoint_loop (s : pager) : pager :=
  fold_left checkpoint_frame (seq 0 (length (buffer_pool s))) s.

Definition perform_checkpoint (g : engine) : Z * engine :=
  let s := eng_pager g in
  let '(_, s) := pager_flush_wal_buffer s in
  let s := checkpoint_loop s in
  let '(_, s) := pager_write_wal_record crc32 0 WAL_CHECKOUT 0 [] s in
  let '(_, s) := pager_flush_wal_buffer s in
  (0, mkEngine s (eng_txns g) (eng_root_page_id g) (u64 (next_lsn (wal s) - 1))
        (u64 (checkpoints_performed g + 1))).

Definition cleanup_storage_engine (g : engine) : engine := (perform_checkpoint g).2.

Definition empty_frame : buffer_entry := mkFrame None 0 false false 0 (0, 0) UINT32_MAX.

(** The frames and the hash table, when the table could be allocated. *)
Definition init_buffer_pool (malloc_ok : bool) : option (list buffer_entry * list Z) :=
  if negb malloc_ok then None
  else Some (replicate (Z.to_nat BUFFER_POOL_SIZE) empty_frame,
             replicate (Z.to_nat (BUFFER_POOL_SIZE * 2)) UINT32_MAX).

(** [st_size] is [None] when [fstat] fails; the result is the page count and
    the next page id. *)
Definition recover_page_allocator (st_size : option Z) (root : Z) : Z * Z :=
  let pages_in_file :=
    match st_size with
    | Some n => if n >? 0 then u32 (u64 (n + PAGE_SIZE - 1) / PAGE_SIZE) else 0
    | None => 0
    end in
  (pages_in_file, if pages_in_file >? root then pages_in_file else u32 (root + 1)).

(** What the environment answers while the engine starts: the contents of the
    opened files, the two allocations, [fstat]. *)
Record startup := mkStartup {
  st_data : option bytes; st_wal : option bytes; st_wal_buffer : bool; st_hash_table : bool;
  st_fstat : bool; st_env : environment; st_wal_io : list io_result }.

(** The state before the root page is created. *)
Definition open_engine (u : startup) : option (engine * Z) :=
  file ← st_data u;
  log ← st_wal u;
  if negb (st_wal_buffer u) then None else
  '(pool, table) ← init_buffer_pool (st_hash_table u);
  let root := 1 in
  let '(pages, next) := recover_page_allocator (if st_fstat u then Some (zlen file) else None) root in
  let s := mkPager file pool table [] 0 next (mkWal log [] 1 0 (st_wal_io u))
             (mkStats 0 0 0 0) (mkConfig true true) (st_env u) in
  Some (mkEngine s (mkTxns ∅ None 1 0 0) root 0 0, pages).

Definition set_page_type (h : page_header) (ty : Z) : page_header :=
  set_page_identity h (page_id h) ty.

Definition init_storage_engine (u : startup) : option engine :=
  '(g, pages) ← open_engine u;
  if pages =? 0 then
    match get_page crc32 (eng_root_page_id g) LOCK_EXCLUSIVE (eng_pager g) with
    | (None, s) => Some (set_pager s g)
    | (Some root, s) =>
        let root := mkPage (set_page_type (header root) PAGE_TYPE_LEAF) (data root) in
        let s := store_page (eng_root_page_id g) root s in
        let s := mark_page_dirty crc32 (eng_root_page_id g) s in
        Some (set_pager (release_page (eng_root_page_id g) LOCK_EXCLUSIVE s) g)
    end
  else Some g.

(** ** Checkpoints *)
Definition io_full (io : list io_result) : bool :=
  forallb (fun r => match r with IoPartial n => PAGE_SIZE <=? n | _ => false end) io.

Lemma pwrite_once_spec io buf out ok io' :
  Forall is_byte buf -> 0 < zlen buf -> pwrite_once io buf = (out, ok, io') ->
  Forall is_byte out /\ zlen out <= zlen buf /\ (ok = true -> out = buf) /\
  (io_full io = true -> zlen buf <= PAGE_SIZE -> ok = true /\ io_full io' = true).
Proof using.
  intros Hb Hl. destruct io as [|[| | |n] io]; simpl; intros [= <- <- <-]; split_and!; try done; try zl.
  - unfold ztake. by apply Forall_take.
  - intros E%Z.eqb_eq. rewrite E. apply ztake_all. lia.
  - intros [Hn ?]%andb_true_iff Hle. split; [|done]. lia.
Qed.

(** The state after a checkpoint step: nothing lost, the bits cleared so far. *)
Record checkpointed (L : gmap Z nat) (s s' : pager) : Prop := {
  ck_view : view_extends s L s' L;
  ck_refs : forall j, refs_of s' L j = refs_of s L j;
  ck_clean : forall i e, buffer_pool s !! i = Some e -> be_dirty e = false ->
               exists e', buffer_pool s' !! i = Some e' /\ be_dirty e' = false;
  ck_len : length (buffer_pool s') = length (buffer_pool s);
  ck_alloc : alloc_same s s' }.

Lemma checkpointed_refl L s : checkpointed L s s.
Proof using.
  constructor; [intros id p _; done|done|intros i e ? ?; by exists e|done|done].
Qed.

Lemma checkpointed_trans L s1 s2 s3 :
  checkpointed L s1 s2 -> checkpointed L s2 s3 -> checkpointed L s1 s3.
Proof using.
  intros [Hv1 Hr1 Hc1 Hl1 Ha1] [Hv2 Hr2 Hc2 Hl2 Ha2]. constructor.
  - intros id p Hid Hp. auto.
  - intros j. by rewrite Hr2.
  - intros i e He Hd. destruct (Hc1 i e He Hd) as (e1 & He1 & Hd1). eauto.
  - congruence.
  - by trans s2.
Qed.

Lemma checkpoint_frame_spec s L ch U i :
  pager_inv s L ch U None ->
  let s' := checkpoint_frame s i in
  pager_inv s' L ch U None /\ checkpointed L s s' /\
  (io_full (env_pwrite (env s)) = true -> io_full (env_pwrite (env s')) = true /\
     forall e, buffer_pool s' !! i = Some e -> be_page e <> None -> be_dirty e = false).
Proof using.
  intros Hinv. unfold checkpoint_frame. destruct (buffer_pool s !! i) as [e|] eqn:He; cycle 1.
  { split_and!; [done|apply checkpointed_refl|]. intros Hio. split; [done|]. intros e. congruence. }
  destruct (be_dirty e) eqn:Hd; cycle 1.
  { split_and!; [done|apply checkpointed_refl|]. intros Hio. split; [done|]. intros e'. congruence. }
  destruct (be_page e) as [p|] eqn:Hp; cycle 1.
  { split_and!; [done|apply checkpointed_refl|]. intros Hio. split; [done|]. intros e'. congruence. }
  assert (L !! be_page_id e = Some i) as HL.
  { destruct (decide (L !! be_page_id e = Some i)) as [|Hne]; [done|].
    destruct (pi_unlinked _ _ _ _ _ Hinv i e He); [|done|congruence].
    intros [id Hid]. apply Hne. destruct (ho_map _ _ _ _ (pi_hash _ _ _ _ _ Hinv) _ _ Hid) as [_ (e2 & ? & ?)].
    congruence. }
  destruct (pi_linked _ _ _ _ _ Hinv _ _ HL) as (e2 & p2 & He2 & Hp2 & Hwf & _).
  assert (e2 = e) as -> by congruence. assert (p2 = p) as -> by congruence.
  destruct (pwrite_once _ _) as [[out ok] io] eqn:Ew.
  pose proof (zlen_page_image p Hwf) as Hpl.
  destruct (pwrite_once_spec _ _ _ _ _ (page_image_bytes p Hwf) ltac:(rewrite Hpl; done) Ew)
    as (Hob & Hol & Hout & Hfull). rewrite Hpl in Hol, Hfull.
  set (s' := if ok then _ else _).
  destruct (frame_written s L ch U None i e p out ok s') as (Hi' & Hv' & _ & He' & Hr'); try done.
  1-3: subst s'; destruct ok; cbn; try done; by rewrite list_alter_id.
  assert (buffer_pool s' = alter (fun e' => if ok : bool then frame_dirty false e' else e') i
    (buffer_pool s)) as Hpool by (subst s'; destruct ok; cbn; try done; by rewrite list_alter_id).
  split_and!; [done| |].
  - constructor; try done.
    + intros k e0 He0 Hd0. rewrite Hpool, list_lookup_alter, He0. case_decide; [|eauto].
      subst k. congruence.
    + rewrite Hpool. apply length_alter.
    + subst s'. by destruct ok.
  - intros Hio. destruct (Hfull Hio) as [-> Hio']; [done|]. split; [done|].
    intros e0 He0 _. rewrite He' in He0. by simplify_eq.
Qed.

Lemma checkpoint_loop_spec s L ch U :
  pager_inv s L ch U None ->
  let s' := checkpoint_loop s in
  pager_inv s' L ch U None /\ checkpointed L s s' /\
  (io_full (env_pwrite (env s)) = true ->
   forall i e, buffer_pool s' !! i = Some e -> be_page e <> None -> be_dirty e = false).
Proof using.
  intros Hinv. unfold checkpoint_loop.
  assert (forall fr s1, pager_inv s1 L ch U None ->
    let s2 := fold_left checkpoint_frame fr s1 in
    pager_inv s2 L ch U None /\ checkpointed L s1 s2 /\
    (io_full (env_pwrite (env s1)) = true ->
     forall i e, i ∈ fr -> buffer_pool s2 !! i = Some e -> be_page e <> None -> be_dirty e = false))
    as Hloop.
  { induction fr as [|i fr IH]; intros s1 Hi1; simpl.
    { split_and!; [done|apply checkpointed_refl|]. intros _ i e Hin. set_solver. }
    destruct (checkpoint_frame_spec s1 L ch U i Hi1) as (Hi2 & Hc2 & Hf2).
    set (s2 := checkpoint_frame s1 i) in *.
    destruct (IH s2 Hi2) as (Hi3 & Hc3 & Hf3). set (s3 := fold_left _ fr s2) in *.
    split_and!; [done|by eapply checkpointed_trans|]. intros Hio k e Hk He Hp.
    destruct (Hf2 Hio) as [Hio2 Hfr]. apply elem_of_cons in Hk as [->|Hk]; [|by eapply Hf3].
    destruct (decide (i ∈ fr)) as [Hin|Hout]; [by eapply Hf3|].
    destruct (lookup_lt_is_Some_2 (buffer_pool s2) i) as [e2 He2].
    { apply lookup_lt_Some in He. by rewrite (ck_len _ _ _ Hc3) in He. }
    destruct (be_dirty e2) eqn:Hd2; cycle 1.
    { destruct (ck_clean _ _ _ Hc3 i e2 He2 Hd2) as (e' & He' & ?). congruence. }
    specialize (Hfr e2 He2). destruct (be_page e2) eqn:Hpe; [by rewrite Hfr in Hd2|].
    (* a frame without a page keeps none *)
    exfalso. apply Hp. subst s3. clearbody s2. clear -Hout He He2 Hpe.
    revert s2 He2 He. induction fr as [|j fr IH]; intros s2 He2 He; simpl in He; [congruence|].
    apply not_elem_of_cons in Hout as [Hij Hout]. apply (IH Hout (checkpoint_frame s2 j)); [|done].
    unfold checkpoint_frame. repeat case_match; try done. cbn.
    by rewrite list_lookup_alter_ne by congruence. }
  destruct (Hloop (seq 0 (length (buffer_pool s))) s Hinv) as (Hi' & Hc' & Hf').
  split_and!; [done|done|]. intros Hio i e He Hp. apply (Hf' Hio i e); [|done|done].
  apply elem_of_seq. apply lookup_lt_Some in He. rewrite (ck_len _ _ _ Hc') in He. lia.
Qed.

Lemma pager_inv_set_wal s L ch U X w : pager_inv s L ch U X -> pager_inv (set_wal w s) L ch U X.
Proof using. intros []. by constructor. Qed.

(** A checkpoint loses no page, and when every write succeeds the data file
    afterwards holds every page the pager knows. *)
Lemma perform_checkpoint_spec g rc g' U :
  pager_ok U (eng_pager g) -> perform_checkpoint g = (rc, g') ->
  let s := eng_pager g in let s' := eng_pager g' in
  pager_ok U s' /\ (forall id p, page_ref id -> pager_view s id = Some p -> pager_view s' id = Some p) /\
  (forall j, pager_pins s' j = pager_pins s j) /\ alloc_same s s' /\
  (U = ∅ -> io_full (env_pwrite (env s)) = true ->
   forall id p, page_ref id -> pager_view s id = Some p -> on_disk s' id p).
Proof using.
  intros [(L & ch & Hi) Ha]. unfold perform_checkpoint, pager_flush_wal_buffer, pager_write_wal_record.
  set (s := eng_pager g) in *. destruct (flush_wal_buffer (wal s)) as [r1 w1].
  set (s1 := set_wal w1 s). assert (pager_inv s1 L ch U None) as Hi1 by (by apply pager_inv_set_wal).
  destruct (checkpoint_loop_spec s1 L ch U Hi1) as (Hi2 & Hc & Hfull).
  set (s2 := checkpoint_loop s1) in *. destruct (write_wal_record _ _ _ _ _ _) as [r2 w2].
  destruct (flush_wal_buffer (wal (set_wal w2 s2))) as [r3 w3]. intros [= <- <-]. cbn [eng_pager].
  set (s' := set_wal w3 (set_wal w2 s2)).
  assert (pager_inv s' L ch U None) as Hi' by (by do 2 apply pager_inv_set_wal).
  assert (alloc_same s s') as Hal by apply Hc. split_and!; try done.
  - split; [by exists L, ch|by eapply alloc_same_inv].
  - intros id p Hid. rewrite (pager_view_of _ _ _ _ _ Hi), (pager_view_of _ _ _ _ _ Hi').
    apply (ck_view _ _ _ Hc). unfold page_ref in Hid; lia.
  - intros j. rewrite (pager_pins_of _ _ _ _ _ Hi), (pager_pins_of _ _ _ _ _ Hi').
    apply (ck_refs _ _ _ Hc).
  - intros -> Hio id p Hid. rewrite (pager_view_of _ _ _ _ _ Hi). intros Hv.
    apply (ck_view _ _ _ Hc) in Hv; [|unfold page_ref in Hid; lia]. unfold view_of in Hv.
    destruct (L !! id) as [i|] eqn:HL; cycle 1.
    { case_decide as Hin; [|done]. injection Hv as <-. by split. }
    destruct (pi_linked _ _ _ _ _ Hi2 _ _ HL) as (e & q & He & Hq & _ & _ & _ & Hst).
    rewrite He in Hv. cbn in Hv. assert (q = p) as -> by congruence.
    destruct Hst as [Hd|[Hu|Hd]]; [|set_solver|exact Hd].
    rewrite (Hfull Hio i e He) in Hd; congruence.
Qed.

(** ** Starting up *)
Lemma recover_page_allocator_spec n root pages next :
  0 <= n <= UINT32_MAX * PAGE_SIZE -> 0 < root < UINT32_MAX ->
  recover_page_allocator (Some n) root = (pages, next) ->
  (forall id, id * PAGE_SIZE + PAGE_SIZE <= n -> id < next) /\ root < next <= UINT32_MAX /\
  (pages = 0 <-> n = 0).
Proof using.
  unfold recover_page_allocator, UINT32_MAX, PAGE_SIZE, u32, u64. intros Hn Hroot [= <- <-].
  rewrite (uwrap_small 64 (n + 4096 - 1)), (uwrap_small 32 (root + 1)) by lia.
  destruct (Z.gtb_spec n 0) as [Hpos|Hz].
  - assert (0 < (n + 4096 - 1) / 4096 <= 4294967295) as Hp by zdiv.
    rewrite uwrap_small by lia.
    split_and!; [intros id Hid; destruct (Z.gtb_spec ((n + 4096 - 1) / 4096) root); zdiv|
      destruct (Z.gtb_spec ((n + 4096 - 1) / 4096) root); lia..|lia].
  - assert (n = 0) as -> by lia. split_and!; [intros id Hid|..]; destruct (Z.gtb_spec 0 root); lia.
Qed.

Lemma fresh_pool_inv file n m next w st cf en :
  0 < Z.of_nat m -> Z.of_nat n <= UINT32_MAX -> Forall is_byte file ->
  pager_inv (mkPager file (replicate n empty_frame) (replicate m UINT32_MAX) [] 0 next w st cf en)
    ∅ (fun _ => []) ∅ None.
Proof using.
  intros Hm Hn Hf. constructor; cbn [buffer_pool hash_table data_file].
  - constructor.
    + by rewrite zlen_replicate.
    + by rewrite zlen_replicate.
    + intros b h [-> _]%lookup_replicate. done.
    + intros b. constructor.
    + set_solver.
    + set_solver.
    + intros id i. by rewrite lookup_empty.
  - done.
  - intros id i. by rewrite lookup_empty.
  - set_solver.
  - intros i e [-> _]%lookup_replicate _ _. done.
Qed.

(** Opening a data file gives a pager that shows exactly the file's pages. *)
Lemma open_engine_spec u file log :
  st_data u = Some file -> st_wal u = Some log -> st_wal_buffer u = true ->
  st_hash_table u = true -> st_fstat u = true ->
  Forall is_byte file -> zlen file <= UINT32_MAX * PAGE_SIZE ->
  exists g pages, open_engine u = Some (g, pages) /\ eng_root_page_id g = 1 /\
    (pages = 0 <-> file = []) /\ pager_ok ∅ (eng_pager g) /\ data_file (eng_pager g) = file /\
    env (eng_pager g) = st_env u /\
    buffer_pool (eng_pager g) = replicate (Z.to_nat BUFFER_POOL_SIZE) empty_frame /\
    (forall id, find_buffer_entry (eng_pager g) id = None) /\
    (forall id, in_file file id -> page_ref id -> pager_used (eng_pager g) id) /\
    pager_used (eng_pager g) 1 /\ config (eng_pager g) = mkConfig true true.
Proof using.
  intros Hd Hw Hb Hh Hs Hby Hsz. unfold open_engine, init_buffer_pool.
  rewrite Hd, Hw, Hb, Hh, Hs. cbn [mbind option_bind negb].
  destruct (recover_page_allocator (Some (zlen file)) 1) as [pages next] eqn:Er.
  destruct (recover_page_allocator_spec (zlen file) 1 pages next) as (Hin & Hnx & Hz);
    [split; [zl|done]|unfold UINT32_MAX; lia|done|].
  eexists _, _. split; [done|]. cbn [eng_pager eng_root_page_id].
  match goal with |- context [mkPager file ?b ?t [] 0 next ?w ?st ?cf ?en] =>
    pose proof (fresh_pool_inv file (Z.to_nat BUFFER_POOL_SIZE) (Z.to_nat (BUFFER_POOL_SIZE * 2))
      next w st cf en) as Hinv end.
  unfold BUFFER_POOL_SIZE in Hinv at 1 2. rewrite !Z2Nat.id in Hinv by lia.
  specialize (Hinv ltac:(lia) ltac:(unfold UINT32_MAX; lia) Hby).
  split_and!; try done.
  - rewrite Hz. split; [|by intros ->]. intros. apply nil_length_inv. unfold zlen in *; lia.
  - split; [by eexists _, _|]. constructor; cbn; [lia|constructor|done].
  - intros id. by rewrite (find_buffer_entry_spec _ _ _ (pi_hash _ _ _ _ _ Hinv)).
  - intros id Hif Hid. unfold pager_used, page_ref, in_file in *. cbn. split; [|apply not_elem_of_nil].
    split; [lia|]. apply Hin. lia.
  - unfold pager_used. cbn. split; [lia|apply not_elem_of_nil].
Qed.

Lemma on_disk_view s id p :
  find_buffer_entry s id = None -> on_disk s id p -> pager_view s id = Some p.
Proof using. intros Hf [Hin Hr]. unfold pager_view. rewrite Hf, decide_True by done. by f_equal. Qed.

(** The database invariant for the engine's own page store. *)
Definition engine_db (g : engine) (ids : list Z) (kvs : list (bytes * bytes)) : Prop :=
  @db_inv pager (pager_store crc32) (pager_store_laws crc32) (eng_root_page_id g) (eng_pager g) ids kvs.

(** Closing with a clean checkpoint and opening the same file again gives the
    same database. *)
Lemma restart_spec g rc g' ids kvs u log :
  engine_db g ids kvs -> eng_root_page_id g = 1 ->
  io_full (env_pwrite (env (eng_pager g))) = true -> perform_checkpoint g = (rc, g') ->
  st_data u = Some (data_file (eng_pager g')) -> st_wal u = Some log -> st_wal_buffer u = true ->
  st_hash_table u = true -> st_fstat u = true ->
  zlen (data_file (eng_pager g')) <= UINT32_MAX * PAGE_SIZE ->
  exists g'', init_storage_engine u = Some g'' /\ engine_db g'' ids kvs.
Proof using.
  intros [Hok Hpn (d & lvs & Hd & Hn & Hc) Hnd Href Hus Hszd] Hroot Hio Hck Hsd Hsw Hsb Hsh Hsf Hsz.
  cbn [ps_inv ps_view ps_used pager_store_laws] in *.
  destruct (perform_checkpoint_spec g rc g' ∅ Hok Hck) as (Hok' & Hv' & Hp' & Hal & Hdisk).
  assert (Forall is_byte (data_file (eng_pager g'))) as Hby by (destruct Hok' as [(L & ch & []) _]; done).
  destruct (open_engine_spec u _ log Hsd Hsw Hsb Hsh Hsf Hby Hsz)
    as (g2 & pages & Hopen & Hr2 & Hpg & Hok2 & Hdf & Henv & Hpool & Hnone & Hu2 & _ & _).
  assert (forall x p, x ∈ ids -> pager_view (eng_pager g) x = Some p ->
    on_disk (eng_pager g') x p /\ pager_view (eng_pager g2) x = Some p) as Hview.
  { intros x p Hx Hp. rewrite list.Forall_forall in Href.
    pose proof (Hdisk eq_refl Hio x p (Href x Hx) Hp) as Hod. split; [done|].
    apply on_disk_view; [done|]. unfold on_disk in *. by rewrite Hdf. }
  assert (exists p, pager_view (eng_pager g) 1 = Some p) as [p1 Hp1].
  { rewrite Hroot in Hn. destruct (node_root _ _ _ _ _ _ _ _ Hn) as [ids' E].
    eapply node_page_some; [exact Hn|]. rewrite E. left. }
  assert (1 ∈ ids) as H1 by (rewrite Hroot in Hn; destruct (node_root _ _ _ _ _ _ _ _ Hn) as [? ->]; left).
  unfold init_storage_engine. rewrite Hopen. cbn [mbind option_bind].
  destruct (Z.eqb_spec pages 0) as [Hz|Hnz].
  { exfalso. apply Hpg in Hz. destruct (Hview 1 p1 H1 Hp1) as [[Hin _] _]. unfold in_file, PAGE_SIZE in Hin.
    rewrite Hz, zlen_nil in Hin. lia. }
  exists g2. split; [done|]. constructor; cbn [ps_inv ps_view ps_used pager_store_laws]; try done.
  - intros j. cbn. unfold pager_pins. by rewrite Hnone.
  - exists d, lvs. rewrite Hr2, <- Hroot. split_and!; [done| |].
    + eapply node_frame; [|exact Hn]. intros x p Hx Hp. by apply Hview.
    + eapply leaf_chain_frame; [|exact Hc]. intros x p Hx Hp. exists p. split; [|done].
      apply Hview; [|done]. by apply (node_leaves_sub _ _ _ _ _ _ _ _ Hn).
  - rewrite list.Forall_forall in *. intros x Hx. apply Hu2; [|auto].
    destruct (node_page_some _ _ _ _ _ _ _ _ _ Hn Hx) as [p Hp].
    destruct (Hview x p Hx Hp) as [[Hin _] _]. done.
  - intros x q Hx Hq. destruct (node_page_some _ _ _ _ _ _ _ _ _ Hn Hx) as [p Hp].
    destruct (Hview x p Hx Hp) as [_ Hp2]. cbn in Hq. rewrite Hp2 in Hq. injection Hq as <-. by eapply Hszd.
Qed.

(** ** A new database *)
Lemma select_victim_fresh n i :
  select_victim (replicate n empty_frame) i (Some (0%nat, (0, 0))) = Some 0%nat.
Proof using. revert i. induction n as [|n IH]; intros i; [done|]. apply (IH (S i)). Qed.

Lemma get_page_fresh g id lk :
  buffer_pool (eng_pager g) = replicate (Z.to_nat BUFFER_POOL_SIZE) empty_frame ->
  (forall j, find_buffer_entry (eng_pager g) j = None) -> data_file (eng_pager g) = [] ->
  env_malloc (env (eng_pager g)) = [] -> env_pread (env (eng_pager g)) = [] -> 0 <= id ->
  exists s, get_page crc32 id lk (eng_pager g) = (Some (fresh_page id), s).
Proof using.
  intros Hpool Hnone Hdf Hma Hrd Hid. set (s := eng_pager g) in *. clearbody s. clear g.
  assert (exists n, Z.to_nat BUFFER_POOL_SIZE = S n) as [n Hn].
  { exists (Z.to_nat (BUFFER_POOL_SIZE - 1)). unfold BUFFER_POOL_SIZE. lia. }
  rewrite Hn in Hpool.
  unfold get_page. rewrite Hnone. unfold allocate_buffer_entry. rewrite Hpool.
  change (select_victim (replicate (S n) empty_frame) 0 None)
    with (select_victim (replicate n empty_frame) 1 (Some (0%nat, (0, 0)))).
  rewrite (select_victim_fresh n 1).
  change (replicate (S n) empty_frame !! 0%nat) with (Some empty_frame). cbn beta iota.
  change (be_dirty empty_frame) with false. cbn beta iota delta [negb].
  change (be_page_id empty_frame =? 0) with true. cbn beta iota.
  destruct (clock_gettime s) as [now s1] eqn:Ec.
  assert (env_malloc (env s1) = [] /\ env_pread (env s1) = [] /\ data_file s1 = [] /\
    buffer_pool s1 = empty_frame :: replicate n empty_frame) as (Hm1 & Hr1 & Hd1 & Hp1).
  { unfold clock_gettime in Ec. simplify_eq. cbn. by rewrite Hma, Hrd, Hdf, Hpool. }
  clear Ec. unfold update_frame at 1. cbn [buffer_pool set_pool bump_stats set_stats].
  rewrite Hp1. cbn. unfold next_malloc. cbn. rewrite Hm1. cbn.
  unfold load_page_from_disk, pread_page. cbn. rewrite Hr1. cbn. rewrite Hd1.
  change (zlen (@nil Z)) with 0. unfold PAGE_SIZE.
  replace (Z.min 4096 (Z.max 0 (0 - id * 4096))) with 0 by lia. cbn.
  destruct (Z.ltb_spec (id * 4096) 0); [lia|]. rewrite andb_false_r. by eexists.
Qed.

Lemma fresh_page_repr id : page_repr (fresh_page id) [].
Proof using.
  exists (replicate (Z.to_nat btree_page_capacity) 0). unfold fresh_page.
  cbn [data header key_count free_space]. rewrite zlen_replicate. split_and!; try done.
Qed.

Lemma init_new_spec u log :
  st_data u = Some [] -> st_wal u = Some log -> st_wal_buffer u = true ->
  st_hash_table u = true -> st_fstat u = true ->
  env_malloc (st_env u) = [] -> env_pread (st_env u) = [] ->
  exists g, init_storage_engine u = Some g /\ engine_db g [1] [] /\ eng_root_page_id g = 1 /\
    Forall (pager_resident (eng_pager g)) [1].
Proof using.
  intros Hsd Hsw Hsb Hsh Hsf Hma Hrd.
  destruct (open_engine_spec u [] log Hsd Hsw Hsb Hsh Hsf ltac:(constructor) ltac:(done))
    as (g & pages & Hopen & Hroot & Hpg & Hok & Hdf & Henv & Hpool & Hnone & _ & Hu1 & _).
  unfold init_storage_engine. rewrite Hopen. cbn [mbind option_bind].
  rewrite (proj2 Hpg eq_refl), Hroot. cbn [Z.eqb].
  destruct (get_page_fresh g 1 LOCK_EXCLUSIVE Hpool Hnone Hdf) as [s1 Hg]; [by rewrite Henv..|lia|].
  rewrite Hg.
  assert (page_ref 1) as Href by (unfold page_ref, UINT32_MAX; lia).
  destruct (pager_get_law crc32 ∅ _ 1 _ _ _ Hok Href Hg) as (Hok1 & _ & Hus1 & Hv1 & Hp1 & _).
  assert (forall j, pager_pins (eng_pager g) j = 0) as Hz by (intros j; unfold pager_pins; by rewrite Hnone).
  set (p' := mkPage (set_page_type (header (fresh_page 1)) PAGE_TYPE_LEAF) (data (fresh_page 1))).
  change p' with (fresh_page 1). clear p'.
  assert (0 < pager_pins s1 1) as Hpin by (by rewrite Hp1, Hz).
  destruct (@write_leaf_step pager (pager_store crc32) (pager_store_laws crc32) s1 1 LOCK_EXCLUSIVE
    (fresh_page 1) Hok1 Hpin) as (Hok2 & (q & Hq & Heq) & Hvo & Hp2 & Hus2 & Hrs2);
    [apply fresh_page_wf; unfold UINT32_MAX; lia|].
  cbn [ps_inv ps_view ps_pins ps_used ps_resident pager_store_laws ps_release_page ps_mark_page_dirty
    ps_store_page pager_store] in *.
  eexists. split; [done|]. cbn [eng_pager eng_root_page_id set_pager]. split_and!; [|done|]; cycle 1.
  { apply Forall_singleton. apply Hrs2. unfold pager_pins in Hpin. unfold pager_resident.
    destruct (find_buffer_entry s1 1); [done|lia]. }
  unfold engine_db. cbn [eng_pager eng_root_page_id set_pager].
  rewrite Hroot. destruct (page_equiv_fields _ _ Heq) as (_ & Ht & _ & _ & Hnx & _).
  constructor; cbn [ps_inv ps_view ps_pins ps_used pager_store_laws]; try done.
  - intros j. cbn. rewrite Hp2, Hp1, Hz. case_decide; lia.
  - exists 0%nat, [1]. split_and!; [unfold BTREE_MAX_DEPTH; lia| |].
    + exists q, []. split_and!; try done; [rewrite <- Heq; apply fresh_page_repr|].
      split; [constructor|done].
    + split; [|done]. exists q. split; [done|]. by rewrite <- Hnx.
  - apply NoDup_singleton.
  - by apply Forall_singleton.
  - apply Forall_singleton. by rewrite Hus2, Hus1.
  - intros x p ->%list_elem_of_singleton Hp. cbn in Hp. rewrite Hq in Hp. injection Hp as <-.
    rewrite <- Heq. exists []. split; [apply fresh_page_repr|done].
Qed.
End engine.
