(* ===== verification/Lru.v ===== *)
(** * The LRU cache (common/src/lru.c)

    Nodes live in a heap; the recency list runs through [prev]/[next] and the
    bucket chains through [hash_next], as in the C structures. Allocation is
    an argument: the address [malloc] returned, or [None]. The mutex makes
    each public call one step. The second half shows that the pointer
    structures implement a plain list of pairs in recency order. *)
From S2P Require Import Prelude SList.

Local Open Scope Z_scope.

Record lru_node := mkNode {
  n_key : bytes; n_value : bytes; n_prev : option Z; n_next : option Z; n_hash_next : option Z }.

Record lru_cache := mkCache {
  c_heap : gmap Z lru_node;
  t_capacity : Z; t_array : list (option Z);
  l_size : Z; l_capacity : Z; l_head : option Z; l_tail : option Z;
  c_generation : Z; c_hits : Z; c_misses : Z; c_evictions : Z }.

Definition set_prev (o : option Z) (n : lru_node) : lru_node :=
  mkNode (n_key n) (n_value n) o (n_next n) (n_hash_next n).
Definition set_next (o : option Z) (n : lru_node) : lru_node :=
  mkNode (n_key n) (n_value n) (n_prev n) o (n_hash_next n).
Definition set_hash_next (o : option Z) (n : lru_node) : lru_node :=
  mkNode (n_key n) (n_value n) (n_prev n) (n_next n) o.
Definition set_value (v : bytes) (n : lru_node) : lru_node :=
  mkNode (n_key n) v (n_prev n) (n_next n) (n_hash_next n).

Definition set_heap (h : gmap Z lru_node) (c : lru_cache) : lru_cache :=
  mkCache h (t_capacity c) (t_array c) (l_size c) (l_capacity c) (l_head c) (l_tail c)
    (c_generation c) (c_hits c) (c_misses c) (c_evictions c).
Definition set_array (a : list (option Z)) (c : lru_cache) : lru_cache :=
  mkCache (c_heap c) (t_capacity c) a (l_size c) (l_capacity c) (l_head c) (l_tail c)
    (c_generation c) (c_hits c) (c_misses c) (c_evictions c).
Definition set_list (h : gmap Z lru_node) (size : Z) (hd tl : option Z) (c : lru_cache) : lru_cache :=
  mkCache h (t_capacity c) (t_array c) size (l_capacity c) hd tl
    (c_generation c) (c_hits c) (c_misses c) (c_evictions c).
Definition bump (g hit miss ev : Z) (c : lru_cache) : lru_cache :=
  mkCache (c_heap c) (t_capacity c) (t_array c) (l_size c) (l_capacity c) (l_head c) (l_tail c)
    (u64 (c_generation c + g)) (u64 (c_hits c + hit)) (u64 (c_misses c + miss))
    (u64 (c_evictions c + ev)).

(** FNV-1a over the bytes of the key. *)
Definition fnv1a (source : bytes) : Z :=
  fold_left (fun hash p => u64 (Z.lxor hash p * 1099511628211)) source 1469598103934665603.
Definition get_hash_code (c : lru_cache) (source : bytes) : Z := fnv1a source mod t_capacity c.

Definition bucket_of (c : lru_cache) (b : Z) : option Z := default None (znth (t_array c) b).

(** The node and its two buffers, when all three allocations succeed. *)
Definition create_node (ptr : option Z) (key value : bytes) : option (Z * lru_node) :=
  a ← ptr; Some (a, mkNode key value None None None).

Definition free_node (a : Z) (c : lru_cache) : lru_cache := set_heap (delete a (c_heap c)) c.

Fixpoint find_loop (fuel : nat) (h : gmap Z lru_node) (curr : option Z) (key : bytes) : option Z :=
  match fuel, curr with
  | O, _ | _, None => None
  | S fuel', Some a =>
      match h !! a with
      | None => None
      | Some n => if bool_decide (n_key n = key) then Some a
                  else find_loop fuel' h (n_hash_next n) key
      end
  end.

Definition hash_find (c : lru_cache) (key : bytes) : option Z :=
  find_loop (S (size (c_heap c))) (c_heap c) (bucket_of c (get_hash_code c key)) key.

Definition hash_insert (a : Z) (c : lru_cache) : lru_cache :=
  match c_heap c !! a with
  | None => c
  | Some n =>
      let b := get_hash_code c (n_key n) in
      let c := set_heap (alter (set_hash_next (bucket_of c b)) a (c_heap c)) c in
      set_array (<[Z.to_nat b := Some a]> (t_array c)) c
  end.

Definition hash_remove (a : Z) (c : lru_cache) : lru_cache :=
  match c_heap c !! a with
  | None => c
  | Some n =>
      let b := get_hash_code c (n_key n) in
      let '(o, h) := unlink n_hash_next set_hash_next (S (size (c_heap c))) (c_heap c)
                       (bucket_of c b) a in
      set_array (<[Z.to_nat b := o]> (t_array c)) (set_heap (alter (set_hash_next None) a h) c)
  end.

Definition list_unlink (a : Z) (c : lru_cache) : lru_cache :=
  match c_heap c !! a with
  | None => c
  | Some n =>
      let '(h, hd) := match n_prev n with
                      | Some p => (alter (set_next (n_next n)) p (c_heap c), l_head c)
                      | None => (c_heap c, n_next n)
                      end in
      let '(h, tl) := match n_next n with
                      | Some x => (alter (set_prev (n_prev n)) x h, l_tail c)
                      | None => (h, n_prev n)
                      end in
      set_list (alter (fun n => set_prev None (set_next None n)) a h) (l_size c - 1) hd tl c
  end.

Definition list_push_back (a : Z) (c : lru_cache) : lru_cache :=
  let h := alter (fun n => set_next None (set_prev (l_tail c) n)) a (c_heap c) in
  let '(h, hd) := match l_tail c with
                  | Some t => (alter (set_next (Some a)) t h, l_head c)
                  | None => (h, Some a)
                  end in
  set_list h (l_size c + 1) hd (Some a) c.

Definition touch (a : Z) (c : lru_cache) : lru_cache := list_push_back a (list_unlink a c).

Definition evict_lru (c : lru_cache) : lru_cache :=
  match l_head c with
  | None => c
  | Some victim => bump 0 0 0 1 (free_node victim (hash_remove victim (list_unlink victim c)))
  end.

(** [INT_MAX]-sized capacities aside, [capacity * 2] does not overflow. *)
Definition lru_cache_create (capacity : Z) (alloc_ok : bool) : option lru_cache :=
  if capacity <=? 0 then None
  else if negb alloc_ok then None
  else Some (mkCache ∅ (capacity * 2) (replicate (Z.to_nat (capacity * 2)) None)
               0 capacity None None 0 0 0 0).

(** [Some (copied bytes, full length)] on a hit. *)
Definition lru_get (key : bytes) (value_length : Z) (c : lru_cache) : option (bytes * Z) * lru_cache :=
  match hash_find c key with
  | None => (None, bump 0 0 1 0 c)
  | Some a =>
      let c := touch a c in
      match c_heap c !! a with
      | None => (None, c)
      | Some n =>
          let copied := if zlen (n_value n) <? value_length then zlen (n_value n) else value_length in
          (Some (ztake copied (n_value n), zlen (n_value n)), bump 0 1 0 0 c)
      end
  end.

(** [ptr] is the allocation the insertion of a new node would get, [copy_ok]
    whether the copy of a replacement value can be allocated. *)
Definition store (ptr : option Z) (copy_ok : bool) (key value : bytes) (c : lru_cache)
    : Z * lru_cache :=
  match hash_find c key with
  | Some a =>
      if negb copy_ok then (-1, c)
      else (0, touch a (set_heap (alter (set_value value) a (c_heap c)) c))
  | None =>
      match create_node ptr key value with
      | None => (-1, c)
      | Some (a, n) =>
          let c := if l_size c >=? l_capacity c then evict_lru c else c in
          let c := set_heap (<[a := n]> (c_heap c)) c in
          (0, list_push_back a (hash_insert a c))
      end
  end.

Definition lru_put (ptr : option Z) (copy_ok : bool) (key value : bytes) (c : lru_cache)
    : Z * lru_cache :=
  store ptr copy_ok key value (bump 1 0 0 0 c).

Definition lru_fill (ptr : option Z) (copy_ok : bool) (key value : bytes) (generation : Z)
    (c : lru_cache) : Z * lru_cache :=
  if negb (c_generation c =? generation) then (1, c) else store ptr copy_ok key value c.

Definition lru_invalidate (key : bytes) (c : lru_cache) : bool * lru_cache :=
  let c := bump 1 0 0 0 c in
  match hash_find c key with
  | None => (false, c)
  | Some a => (true, free_node a (hash_remove a (list_unlink a c)))
  end.

Definition lru_generation (c : lru_cache) : Z := c_generation c.
Definition lru_stats (c : lru_cache) : Z * Z * Z * Z :=
  (c_hits c, c_misses c, c_evictions c, l_size c).

(** The walk of [lru_cache_destroy]: the nodes that stay allocated. A pointer to
    freed memory is [None]. *)
Fixpoint destroy_loop (fuel : nat) (h : gmap Z lru_node) (curr : option Z) : option (gmap Z lru_node) :=
  match curr, fuel with
  | None, _ => Some h
  | Some _, O => None
  | Some a, S fuel' => n ← h !! a; destroy_loop fuel' (delete a h) (n_next n)
  end.
Definition lru_cache_destroy (c : option lru_cache) : option (gmap Z lru_node) :=
  match c with None => Some ∅ | Some c => destroy_loop (S (size (c_heap c))) (c_heap c) (l_head c) end.

(** ** The recency list *)
Definition data_of (n : lru_node) : bytes * bytes * option Z := (n_key n, n_value n, n_hash_next n).
Definition same_data (h h' : gmap Z lru_node) : Prop :=
  forall b, data_of <$> h' !! b = data_of <$> h !! b.

(** The predecessor of position [i]. *)
Definition before (l : list Z) (i : nat) : option Z :=
  match i with O => None | S j => l !! j end.

Record dlist (h : gmap Z lru_node) (hd tl : option Z) (l : list Z) : Prop := {
  dl_nodup : NoDup l;
  dl_head : hd = head l;
  dl_tail : tl = list.last l;
  dl_links : forall i a, l !! i = Some a ->
    exists n, h !! a = Some n /\ n_prev n = before l i /\ n_next n = l !! S i }.

#[global] Instance same_data_equiv : Equivalence same_data.
Proof. split; unfold same_data; [done| |]; [intros x y Hxy b; by rewrite Hxy|]. intros x y z Hxy Hyz b.
  by rewrite Hyz, Hxy. Qed.

Lemma same_data_alter f a h : (forall n, data_of (f n) = data_of n) -> same_data h (alter f a h).
Proof.
  intros Hf b. destruct (decide (a = b)) as [->|Hb].
  - rewrite lookup_alter_eq. destruct (h !! b); [|done]. cbn. by rewrite Hf.
  - by rewrite lookup_alter_ne by done.
Qed.

(** What unlinking [a] does to the node at [b]. *)
Definition unlinked (n : lru_node) (a b : Z) (m : lru_node) : lru_node :=
  mkNode (n_key m) (n_value m)
    (if decide (b = a) then None else if decide (n_next n = Some b) then n_prev n else n_prev m)
    (if decide (b = a) then None else if decide (n_prev n = Some b) then n_next n else n_next m)
    (n_hash_next m).

Lemma list_unlink_heap a n c :
  c_heap c !! a = Some n ->
  let c' := list_unlink a c in
  (forall b, c_heap c' !! b = unlinked n a b <$> c_heap c !! b) /\
  l_head c' = match n_prev n with Some _ => l_head c | None => n_next n end /\
  l_tail c' = match n_next n with Some _ => l_tail c | None => n_prev n end /\
  l_size c' = l_size c - 1 /\ l_capacity c' = l_capacity c /\
  t_array c' = t_array c /\ t_capacity c' = t_capacity c /\ c_generation c' = c_generation c.
Proof.
  intros Hn. unfold list_unlink. rewrite Hn.
  destruct (n_prev n) as [p|] eqn:Ep, (n_next n) as [x|] eqn:Ex; cbn; split_and!; try done;
    intros b; rewrite !lookup_alter; unfold unlinked; rewrite ?Ep, ?Ex;
    repeat case_decide; simplify_eq; try done;
    repeat match goal with |- context [c_heap c !! ?x] => destruct (c_heap c !! x) as [[]|] eqn:? end;
    simplify_eq; done.
Qed.

Lemma unlinked_data n a b m : data_of (unlinked n a b m) = data_of m.
Proof. done. Qed.

Lemma head_lookup {A} (l : list A) : head l = l !! 0%nat.
Proof. by destruct l. Qed.

Lemma delete_lookup (l : list Z) i j :
  delete i l !! j = if decide (j < i)%nat then l !! j else l !! S j.
Proof. case_decide; [by apply list_lookup_delete_lt|apply list_lookup_delete_ge; lia]. Qed.

Lemma nodup_at (l : list Z) i j a : NoDup l -> l !! i = Some a -> l !! j = Some a -> i = j.
Proof. apply NoDup_lookup. Qed.

Lemma list_unlink_dlist h hd tl l i a n c :
  dlist h hd tl l -> l !! i = Some a -> h !! a = Some n ->
  c_heap c = h -> l_head c = hd -> l_tail c = tl ->
  let c' := list_unlink a c in dlist (c_heap c') (l_head c') (l_tail c') (delete i l).
Proof.
  intros [Hnd Hhd Htl Hlk] Hi Hn <- <- <-.
  destruct (list_unlink_heap a n c Hn) as (Hh & Hhd' & Htl' & _).
  destruct (Hlk i a Hi) as (n' & Hn' & Hp & Hx). assert (n' = n) as -> by congruence.
  set (c' := list_unlink a c) in *. constructor.
  - rewrite delete_take_drop. rewrite <- (take_drop_middle l i a Hi) in Hnd.
    apply list.NoDup_app in Hnd as (H1 & H2 & H3). apply list.NoDup_cons in H3 as [_ H3].
    apply list.NoDup_app. split_and!; [done| |done]. intros y Hy Hy'. apply (H2 y Hy). by right.
  - rewrite Hhd', head_lookup, delete_lookup. destruct i as [|i]; cbn in Hp; rewrite Hp.
    + rewrite Hx. done.
    + destruct (lookup_lt_is_Some_2 l i) as [y ->]; [apply lookup_lt_Some in Hi; lia|].
      rewrite Hhd, head_lookup. by rewrite decide_True by lia.
  - rewrite Htl', !last_lookup. pose proof (lookup_lt_Some _ _ _ Hi) as Hlt.
    assert (length (delete i l) = pred (length l)) as Hdl by (rewrite length_delete by eauto; lia).
    rewrite Hdl, Hx, delete_lookup. destruct (l !! S i) as [y|] eqn:Ey.
    + apply lookup_lt_Some in Ey. rewrite Htl, last_lookup, decide_False by lia. f_equal. lia.
    + apply lookup_ge_None in Ey. rewrite Hp. destruct i as [|i].
      * rewrite decide_False by lia. cbn. symmetry. apply lookup_ge_None. lia.
      * rewrite decide_True by lia. cbn. f_equal. lia.
  - intros j b Hj. rewrite delete_lookup in Hj. set (k := if decide (j < i)%nat then j else S j).
    assert (l !! k = Some b) as Hk by (subst k; by case_decide).
    assert (b <> a) as Hba.
    { intros ->. pose proof (nodup_at l i k a Hnd Hi Hk). subst k. case_decide; lia. }
    destruct (Hlk k b Hk) as (m & Hm & Hmp & Hmx). exists (unlinked n a b m).
    rewrite Hh, Hm. split; [done|]. unfold unlinked. cbn. rewrite !(decide_False (P := b = a)) by done.
    assert (l !! S i = Some b <-> k = S i) as Hnext.
    { split; [intros E; exact (nodup_at l k (S i) b Hnd Hk E)|intros E; by rewrite <- E]. }
    assert (before l i = Some b <-> S k = i) as Hprev.
    { destruct i as [|i']; cbn; [split; [done|lia]|].
      split; [intros E; f_equal; exact (nodup_at l k i' b Hnd Hk E)|intros E; injection E as E; by rewrite <- E]. }
    rewrite Hp, Hx, delete_lookup. split.
    + destruct (decide (l !! S i = Some b)) as [E|E].
      * apply Hnext in E. subst k. case_decide; [lia|]. assert (j = i) as -> by lia.
        destruct i; [done|]. cbn. by rewrite delete_lookup, decide_True by lia.
      * rewrite Hnext in E. rewrite Hmp. subst k. case_decide.
        -- destruct j; [done|]. cbn. by rewrite delete_lookup, decide_True by lia.
        -- cbn. destruct j; [lia|]. cbn. by rewrite delete_lookup, decide_False by lia.
    + destruct (decide (before l i = Some b)) as [E|E].
      * apply Hprev in E. subst k. case_decide; [|lia]. rewrite decide_False by lia. f_equal. lia.
      * rewrite Hprev in E. rewrite Hmx. subst k. repeat case_decide; try lia; done.
Qed.

Definition pushed (tl : option Z) (a b : Z) (m : lru_node) : lru_node :=
  mkNode (n_key m) (n_value m) (if decide (b = a) then tl else n_prev m)
    (if decide (b = a) then None else if decide (tl = Some b) then Some a else n_next m)
    (n_hash_next m).

Lemma list_push_back_heap a c :
  l_tail c <> Some a ->
  let c' := list_push_back a c in
  (forall b, c_heap c' !! b = pushed (l_tail c) a b <$> c_heap c !! b) /\
  l_head c' = match l_tail c with Some _ => l_head c | None => Some a end /\
  l_tail c' = Some a /\ l_size c' = l_size c + 1 /\ l_capacity c' = l_capacity c /\
  t_array c' = t_array c /\ t_capacity c' = t_capacity c /\ c_generation c' = c_generation c.
Proof.
  intros Ha. unfold list_push_back. destruct (l_tail c) as [t|]; cbn; split_and!; try done;
    intros b; rewrite !lookup_alter; unfold pushed; repeat case_decide; simplify_eq; try done;
    repeat match goal with |- context [c_heap c !! ?x] => destruct (c_heap c !! x) as [[]|] eqn:? end;
    simplify_eq; done.
Qed.

Lemma list_push_back_dlist l a c :
  dlist (c_heap c) (l_head c) (l_tail c) l -> a ∉ l -> is_Some (c_heap c !! a) ->
  let c' := list_push_back a c in dlist (c_heap c') (l_head c') (l_tail c') (l ++ [a]).
Proof.
  intros [Hnd Hhd Htl Hlk] Ha [n Hn].
  assert (l_tail c <> Some a) as Hta.
  { rewrite Htl. intros E. apply Ha. by eapply list.last_Some_elem_of. }
  destruct (list_push_back_heap a c Hta) as (Hh & Hhd' & Htl' & _).
  set (c' := list_push_back a c) in *. constructor.
  - apply list.NoDup_app. split_and!; [done|set_solver|apply NoDup_singleton].
  - rewrite Hhd', Htl, Hhd. destruct l as [|x l]; [done|]. cbn [app head].
    destruct (list.last (x :: l)) eqn:E; [done|]. by apply last_None in E.
  - rewrite Htl'. by rewrite last_snoc.
  - intros i b Hi. rewrite Hh. apply lookup_app_Some in Hi as [Hi|[Hge Hi]].
    + pose proof (lookup_lt_Some _ _ _ Hi) as Hlt.
      destruct (Hlk i b Hi) as (m & Hm & Hp & Hx). exists (pushed (l_tail c) a b m). rewrite Hm.
      split; [done|]. assert (b <> a) by (intros ->; apply Ha; by eapply list_elem_of_lookup_2).
      unfold pushed. cbn. rewrite !(decide_False (P := b = a)) by done. split.
      * rewrite Hp. destruct i; [done|]. cbn. by rewrite lookup_app_l by lia.
      * rewrite Htl, last_lookup. case_decide as E.
        -- assert (i = pred (length l)) as -> by (by eapply nodup_at). rewrite lookup_app_r by lia.
           by replace (S (pred (length l)) - length l)%nat with 0%nat by lia.
        -- rewrite Hx, lookup_app_l; [done|]. destruct (decide (S i = length l)) as [E'|]; [|lia].
           exfalso. apply E. rewrite <- Hi. f_equal. lia.
    + destruct (i - length l)%nat eqn:Ei; [|done]. cbn in Hi. injection Hi as <-.
      assert (i = length l) as -> by lia. exists (pushed (l_tail c) a a n). rewrite Hn.
      split; [done|]. unfold pushed. cbn. rewrite !decide_True by done. split.
      * rewrite Htl, last_lookup. destruct l as [|x l]; [done|]. cbn [length pred before].
        symmetry. apply lookup_app_l. cbn. lia.
      * symmetry. apply lookup_ge_None. rewrite length_app. cbn. lia.
Qed.

(** ** Bucket chains *)
Definition hash_next_chain : gmap Z lru_node -> option Z -> list Z -> Prop := chain n_hash_next.

Record hashed (c : lru_cache) (ch : nat -> list Z) : Prop := {
  hs_cap : 0 < t_capacity c /\ zlen (t_array c) = t_capacity c;
  hs_chain : forall b o, t_array c !! b = Some o -> hash_next_chain (c_heap c) o (ch b);
  hs_nodup : forall b, NoDup (ch b);
  hs_node : forall a n, c_heap c !! a = Some n -> a ∈ ch (Z.to_nat (get_hash_code c (n_key n)));
  hs_in : forall b a, a ∈ ch b ->
    exists n, c_heap c !! a = Some n /\ get_hash_code c (n_key n) = Z.of_nat b;
  hs_keys : forall a b n m, c_heap c !! a = Some n -> c_heap c !! b = Some m ->
    n_key n = n_key m -> a = b }.

Lemma hash_code_range c key ch :
  hashed c ch -> 0 <= get_hash_code c key < zlen (t_array c).
Proof. intros []. destruct hs_cap0 as [? ->]. apply Z.mod_pos_bound. lia. Qed.

Lemma bucket_chain c ch key :
  hashed c ch ->
  exists o, t_array c !! Z.to_nat (get_hash_code c key) = Some o /\
    bucket_of c (get_hash_code c key) = o /\
    hash_next_chain (c_heap c) o (ch (Z.to_nat (get_hash_code c key))).
Proof.
  intros Hh. pose proof (hash_code_range c key ch Hh) as Hr.
  destruct (lookup_lt_is_Some_2 (t_array c) (Z.to_nat (get_hash_code c key))) as [o Ho].
  { unfold zlen in Hr. lia. }
  exists o. split_and!; [done| |by apply (hs_chain _ _ Hh)].
  unfold bucket_of, znth. destruct (Z.ltb_spec (get_hash_code c key) 0); [lia|]. by rewrite Ho.
Qed.

Lemma find_loop_spec fuel h o l key :
  hash_next_chain h o l -> (length l < fuel)%nat ->
  match find_loop fuel h o key with
  | Some a => a ∈ l /\ exists n, h !! a = Some n /\ n_key n = key
  | None => forall a n, a ∈ l -> h !! a = Some n -> n_key n <> key
  end.
Proof.
  revert fuel o. induction l as [|a l IH]; intros [|fuel] o Hc Hf; cbn [length] in Hf; try lia.
  - cbn in Hc. subst o. cbn. set_solver.
  - destruct Hc as (-> & n & Hn & Hc). cbn [find_loop]. rewrite Hn. case_bool_decide as Hk.
    + split; [left|eauto].
    + specialize (IH fuel (n_hash_next n) Hc ltac:(lia)). destruct (find_loop fuel h (n_hash_next n) key).
      * destruct IH as [? ?]. split; [by right|done].
      * intros b m [->|Hb]%elem_of_cons Hm; [congruence|eauto].
Qed.

(** The lookup finds the node of the key, wherever it is in the heap. *)
Lemma hash_find_spec c ch key :
  hashed c ch ->
  match hash_find c key with
  | Some a => exists n, c_heap c !! a = Some n /\ n_key n = key
  | None => forall a n, c_heap c !! a = Some n -> n_key n <> key
  end.
Proof.
  intros Hh. destruct (bucket_chain c ch key Hh) as (o & _ & Hb & Hc). unfold hash_find. rewrite Hb.
  pose proof (chain_size n_hash_next _ _ _ Hc (hs_nodup _ _ Hh _)) as Hsz.
  pose proof (find_loop_spec (S (size (c_heap c))) _ _ _ key Hc ltac:(lia)) as Hf.
  destruct (find_loop _ _ _ _); [naive_solver|]. intros a n Hn Hk. apply (Hf a n); [|done|done].
  rewrite <- Hk. by apply (hs_node _ _ Hh).
Qed.

Definition hkey (n : lru_node) : bytes * option Z := (n_key n, n_hash_next n).

Lemma hashed_frame c c' ch :
  hashed c ch -> (forall b, hkey <$> c_heap c' !! b = hkey <$> c_heap c !! b) ->
  t_array c' = t_array c -> t_capacity c' = t_capacity c -> hashed c' ch.
Proof.
  intros [Hcap Hch Hnd Hn Hin Hk] Hs Ha Hc.
  assert (forall k, get_hash_code c' k = get_hash_code c k) as Hg by (intros; unfold get_hash_code; by rewrite Hc).
  assert (forall b n', c_heap c' !! b = Some n' -> exists n, c_heap c !! b = Some n /\
    n_key n = n_key n' /\ n_hash_next n = n_hash_next n') as Hback.
  { intros b n' Hb. specialize (Hs b). rewrite Hb in Hs. destruct (c_heap c !! b) as [n|]; [|done].
    exists n. unfold hkey in Hs. cbn in Hs. split_and!; congruence. }
  constructor; rewrite ?Ha, ?Hc; try done.
  - intros b o Ho. eapply (chain_frame n_hash_next); [|by apply Hch]. intros a _. specialize (Hs a).
    destruct (c_heap c' !! a), (c_heap c !! a); unfold hkey in Hs; cbn in *; congruence.
  - intros a n' Hn'. destruct (Hback _ _ Hn') as (n & Hn0 & <- & _). rewrite Hg. by apply Hn.
  - intros b a Hab. destruct (Hin b a Hab) as (n & Hn0 & Hg0). specialize (Hs a). rewrite Hn0 in Hs.
    destruct (c_heap c' !! a) as [n'|]; [|done]. exists n'. split; [done|]. rewrite Hg.
    unfold hkey in Hs. cbn in Hs. congruence.
  - intros a b n m Hn' Hm' E. destruct (Hback _ _ Hn') as (n0 & Hn0 & En & _).
    destruct (Hback _ _ Hm') as (m0 & Hm0 & Em & _). apply (Hk a b n0 m0); congruence.
Qed.

Lemma chain_notin c ch a b : hashed c ch -> c_heap c !! a = None -> a ∉ ch b.
Proof. intros Hh Ha Hin. destruct (hs_in _ _ Hh _ _ Hin) as (n & ? & _). congruence. Qed.

Lemma hash_insert_hashed c ch a n :
  hashed c ch -> c_heap c !! a = None ->
  (forall b m, c_heap c !! b = Some m -> n_key m <> n_key n) ->
  let c' := hash_insert a (set_heap (<[a := n]> (c_heap c)) c) in
  exists ch', hashed c' ch'.
Proof.
  intros Hh Ha Hnew c'. set (b0 := get_hash_code c (n_key n)).
  destruct (bucket_chain c ch (n_key n) Hh) as (o & Ho & Hb & Hc0). fold b0 in Ho, Hb, Hc0.
  pose proof (hash_code_range c (n_key n) ch Hh) as Hr. fold b0 in Hr.
  set (h' := <[a := set_hash_next o n]> (c_heap c)).
  assert (c' = set_array (<[Z.to_nat b0 := Some a]> (t_array c)) (set_heap h' c)) as Hc'.
  { subst c'. unfold hash_insert. cbn [c_heap set_heap]. rewrite lookup_insert_eq.
    change (get_hash_code (set_heap (<[a:=n]> (c_heap c)) c) (n_key n)) with b0.
    change (bucket_of (set_heap (<[a:=n]> (c_heap c)) c) b0) with (bucket_of c b0). rewrite Hb.
    cbn. subst h'. by rewrite alter_insert_eq. }
  clearbody c'. subst c'.
  exists (fun b => if decide (b = Z.to_nat b0) then a :: ch b else ch b).
  assert (forall k c1, t_capacity c1 = t_capacity c -> get_hash_code c1 k = get_hash_code c k) as Hg
    by (intros k c1 E; unfold get_hash_code; by rewrite E).
  assert (forall o l, a ∉ l -> hash_next_chain (c_heap c) o l -> hash_next_chain h' o l) as Hfr.
  { intros o' l Hal. apply (chain_frame n_hash_next). intros x Hx. subst h'.
    rewrite lookup_insert_ne; [done|]. by intros <-. }
  constructor; cbn [t_capacity t_array c_heap set_array set_heap].
  - rewrite zlen_insert. apply Hh.
  - intros b o'. rewrite list_lookup_insert. case_decide as E.
    + destruct E as [<- _]. intros [= <-]. rewrite decide_True by done. split; [done|].
      exists (set_hash_next o n). subst h'. rewrite lookup_insert_eq. split; [done|].
      apply Hfr; [by eapply chain_notin|done].
    + intros Hb'. rewrite decide_False.
      * apply Hfr; [by eapply chain_notin|by apply (hs_chain _ _ Hh)].
      * intros ->. apply E. split; [done|]. unfold zlen in Hr. lia.
  - intros b. case_decide; [|apply Hh]. apply list.NoDup_cons. split; [by eapply chain_notin|apply Hh].
  - intros x m. subst h'. rewrite (Hg (n_key m)) by done. rewrite lookup_insert_Some. intros [[<- <-]|[Hx Hm]].
    + cbn [n_key set_hash_next]. fold b0. rewrite decide_True by done. left.
    + pose proof (hs_node _ _ Hh _ _ Hm). case_decide; [by right|done].
  - intros b x Hx. subst h'. case_decide as E.
    + apply elem_of_cons in Hx as [->|Hx].
      * exists (set_hash_next o n). rewrite lookup_insert_eq. split; [done|].
        rewrite Hg by done. cbn [n_key set_hash_next]. fold b0. lia.
      * destruct (hs_in _ _ Hh _ _ Hx) as (m & Hm & ?). exists m.
        rewrite lookup_insert_ne by congruence. by rewrite Hg.
    + destruct (hs_in _ _ Hh _ _ Hx) as (m & Hm & ?). exists m.
      rewrite lookup_insert_ne by congruence. by rewrite Hg.
  - subst h'. intros x y m1 m2. rewrite !lookup_insert_Some.
    intros [[<- <-]|[Hx Hm1]] [[<- <-]|[Hy Hm2]]; cbn; try done.
    + intros E. by destruct (Hnew _ _ Hm2).
    + intros E. by destruct (Hnew _ _ Hm1).
    + by apply (hs_keys _ _ Hh).
Qed.

Lemma hash_remove_hashed c ch a n :
  hashed c ch -> c_heap c !! a = Some n ->
  let c' := free_node a (hash_remove a c) in
  (exists ch', hashed c' ch') /\
  (forall b m', c_heap c' !! b = Some m' -> b <> a /\ exists m, c_heap c !! b = Some m /\
     n_prev m = n_prev m' /\ n_next m = n_next m' /\ n_key m = n_key m' /\ n_value m = n_value m') /\
  (forall b, b <> a -> is_Some (c_heap c !! b) -> is_Some (c_heap c' !! b)) /\
  l_head c' = l_head c /\ l_tail c' = l_tail c /\ l_size c' = l_size c /\
  l_capacity c' = l_capacity c /\ c_generation c' = c_generation c.
Proof.
  intros Hh Hn. unfold hash_remove. rewrite Hn. set (b0 := get_hash_code c (n_key n)).
  destruct (bucket_chain c ch (n_key n) Hh) as (o & Ho & Hb & Hc0). fold b0 in Ho, Hb, Hc0. rewrite Hb.
  pose proof (hash_code_range c (n_key n) ch Hh) as Hr. fold b0 in Hr.
  pose proof (chain_size n_hash_next _ _ _ Hc0 (hs_nodup _ _ Hh _)) as Hsz. apply le_n_S in Hsz.
  destruct (unlink n_hash_next set_hash_next (S (size (c_heap c))) (c_heap c) o a) as [o' h] eqn:E.
  destruct (unlink_spec n_hash_next set_hash_next (fun _ _ => eq_refl) _ _ _ _ _ _ _ Hc0
    (hs_nodup _ _ Hh _) Hsz E) as (Hc1 & Hfr & Hgen).
  set (h' := delete a (alter (set_hash_next None) a h)).
  assert (forall b, b <> a -> exists x, h' !! b = set_hash_next x <$> c_heap c !! b \/ h' !! b = c_heap c !! b)
    as Hoth.
  { intros b Hba. destruct (Hgen b) as [x Hx]. exists x. subst h'.
    by rewrite lookup_delete_ne, lookup_alter_ne by done. }
  assert (forall b m', h' !! b = Some m' -> b <> a /\ exists m, c_heap c !! b = Some m /\
     n_prev m = n_prev m' /\ n_next m = n_next m' /\ n_key m = n_key m' /\ n_value m = n_value m') as Hback.
  { intros b m' Hm'. assert (b <> a) as Hba by (intros ->; subst h'; by rewrite lookup_delete_eq in Hm').
    split; [done|]. destruct (Hoth b Hba) as [x [Hx|Hx]]; rewrite Hx in Hm'.
    - apply fmap_Some in Hm' as (m & Hm & ->). by exists m.
    - by exists m'. }
  split; [|split; [done|split; [|done]]]; cycle 1.
  { intros b Hba [m Hm]. change (is_Some (h' !! b)). destruct (Hoth b Hba) as [x [->| ->]]; rewrite Hm; eauto. }
  exists (fun b => if decide (b = Z.to_nat b0) then filter (.≠ a) (ch b) else ch b).
  assert (forall b x, x ∈ ch b -> b <> Z.to_nat b0 -> x ∉ ch (Z.to_nat b0)) as Hdis.
  { intros b x Hx Hb' Hx'. destruct (hs_in _ _ Hh _ _ Hx) as (m & Hm & E1).
    destruct (hs_in _ _ Hh _ _ Hx') as (m' & Hm' & E2). simplify_eq. lia. }
  assert (a ∈ ch (Z.to_nat b0)) as Ha0 by (by apply (hs_node _ _ Hh)).
  constructor; cbn [t_capacity t_array c_heap set_array set_heap free_node].
  - rewrite zlen_insert. apply Hh.
  - intros b ob. rewrite list_lookup_insert. case_decide as E1.
    + destruct E1 as [<- _]. intros [= <-]. rewrite decide_True by done.
      eapply (chain_frame n_hash_next); [|exact Hc1]. intros x Hx.
      apply list_elem_of_filter in Hx as [Hx _]. by rewrite lookup_delete_ne, lookup_alter_ne by done.
    + intros Hb'. assert (b <> Z.to_nat b0) as Hbb.
      { intros ->. apply E1. split; [done|]. unfold zlen in Hr. lia. }
      rewrite decide_False by done.
      eapply (chain_frame n_hash_next); [|by apply (hs_chain _ _ Hh)]. intros x Hx.
      assert (x <> a) as Hxa by (intros ->; by eapply Hdis).
      rewrite lookup_delete_ne, lookup_alter_ne, Hfr; [done|by eapply Hdis|done|done].
  - intros b. case_decide; [apply list.NoDup_filter|]; apply Hh.
  - intros x m' Hm'. destruct (Hback x m' Hm') as [Hxa (m & Hm & _ & _ & Hk & _)].
    change (get_hash_code _ (n_key m')) with (get_hash_code c (n_key m')). rewrite <- Hk.
    pose proof (hs_node _ _ Hh _ _ Hm). case_decide; [|done]. by apply list_elem_of_filter.
  - intros b x Hx. change (get_hash_code _) with (get_hash_code c).
    assert (x ∈ ch b /\ x <> a) as [Hxb Hxa].
    { case_decide as E1; [apply list_elem_of_filter in Hx; naive_solver|]. split; [done|].
      intros ->. by eapply Hdis. }
    destruct (hs_in _ _ Hh _ _ Hxb) as (m & Hm & Hg). change (exists n0, h' !! x = Some n0 /\
      get_hash_code c (n_key n0) = Z.of_nat b).
    destruct (Hoth x Hxa) as [y [->| ->]]; rewrite Hm; [by eexists|by exists m].
  - intros x y m1 m2 H1 H2 Ek. destruct (Hback x m1 H1) as [_ (n1 & Hn1 & _ & _ & K1 & _)].
    destruct (Hback y m2 H2) as [_ (n2 & Hn2 & _ & _ & K2 & _)].
    apply (hs_keys _ _ Hh x y n1 n2); congruence.
Qed.

(** ** The cache invariant and its contents *)
Record lru_inv (c : lru_cache) (l : list Z) : Prop := {
  li_list : dlist (c_heap c) (l_head c) (l_tail c) l;
  li_hash : exists ch, hashed c ch;
  li_dom : forall a, is_Some (c_heap c !! a) <-> a ∈ l;
  li_size : l_size c = zlen l;
  li_cap : 0 < l_capacity c;
  li_fit : zlen l <= l_capacity c }.

Definition pair_at (c : lru_cache) (a : Z) : option (bytes * bytes) :=
  (fun n => (n_key n, n_value n)) <$> c_heap c !! a.
(** The pairs, least recently used first. *)
Definition contents (c : lru_cache) (l : list Z) : list (bytes * bytes) := omap (pair_at c) l.

Definition remove_key (k : bytes) (ps : list (bytes * bytes)) : list (bytes * bytes) :=
  filter (fun x => x.1 <> k) ps.
Definition find_key (k : bytes) (ps : list (bytes * bytes)) : option bytes :=
  (list_to_map ps : gmap bytes bytes) !! k.

(** What [store] means for the contents. *)
Definition spec_store (cap : Z) (k v : bytes) (ps : list (bytes * bytes)) : list (bytes * bytes) :=
  if decide (k ∈ ps.*1) then remove_key k ps ++ [(k, v)]
  else (if zlen ps >=? cap then tail ps else ps) ++ [(k, v)].

Lemma dlist_frame h h' hd tl l :
  dlist h hd tl l ->
  (forall a n, a ∈ l -> h !! a = Some n ->
     exists n', h' !! a = Some n' /\ n_prev n' = n_prev n /\ n_next n' = n_next n) ->
  dlist h' hd tl l.
Proof.
  intros [Hnd Hhd Htl Hlk] Hf. constructor; try done. intros i a Hi.
  destruct (Hlk i a Hi) as (n & Hn & Hp & Hx).
  destruct (Hf a n ltac:(by eapply list_elem_of_lookup_2) Hn) as (n' & ? & ? & ?).
  exists n'. split_and!; congruence.
Qed.

Lemma contents_cons c a l :
  contents c (a :: l) = match pair_at c a with Some x => x :: contents c l | None => contents c l end.
Proof. done. Qed.

Lemma contents_same c c' l :
  (forall a, a ∈ l -> pair_at c' a = pair_at c a) -> contents c' l = contents c l.
Proof.
  unfold contents. induction l as [|a l IH]; intros Hs; [done|]. cbn.
  rewrite (Hs a) by left. rewrite IH; [done|]. intros b Hb. apply Hs. by right.
Qed.

Lemma same_data_pair c c' a : same_data (c_heap c) (c_heap c') -> pair_at c' a = pair_at c a.
Proof.
  intros Hs. specialize (Hs a). unfold pair_at, data_of in *.
  destruct (c_heap c' !! a), (c_heap c !! a); cbn in *; congruence.
Qed.

Section inv.
Context (c : lru_cache) (l : list Z) (Hinv : lru_inv c l).

Lemma inv_node a : a ∈ l -> exists n, c_heap c !! a = Some n.
Proof using Hinv. intros Ha. by apply (li_dom _ _ Hinv) in Ha as [n ?]; eauto. Qed.

Lemma contents_length : zlen (contents c l) = zlen l.
Proof using Hinv.
  clear -Hinv. assert (forall a, a ∈ l -> is_Some (c_heap c !! a)) as Hd by (intros; by apply Hinv).
  clear Hinv. unfold contents. induction l as [|a l' IH]; [done|]. cbn. unfold pair_at at 1.
  destruct (Hd a ltac:(left)) as [n ->]. cbn. rewrite !zlen_cons, IH; [done|]. set_solver.
Qed.

Lemma contents_keys k : k ∈ (contents c l).*1 <-> exists a n, c_heap c !! a = Some n /\ n_key n = k.
Proof using Hinv.
  rewrite list_elem_of_fmap. split.
  - intros ([k' v] & -> & Hx). unfold contents in Hx. apply list_elem_of_omap in Hx as (a & Ha & Hp).
    unfold pair_at in Hp. apply fmap_Some in Hp as (n & Hn & [= -> ->]). eauto.
  - intros (a & n & Hn & <-). exists (n_key n, n_value n). split; [done|].
    apply list_elem_of_omap. exists a. split; [apply (li_dom _ _ Hinv); eauto|].
    unfold pair_at. by rewrite Hn.
Qed.

(** Removing the node of a key from the list removes the key's pair. *)
Lemma contents_delete i a n :
  l !! i = Some a -> c_heap c !! a = Some n ->
  contents c (delete i l) = remove_key (n_key n) (contents c l) /\
  contents c l = contents c (take i l) ++ (n_key n, n_value n) :: contents c (drop (S i) l).
Proof using Hinv.
  intros Hi Hn. destruct (li_hash _ _ Hinv) as [ch Hh].
  pose proof (dl_nodup _ _ _ _ (li_list _ _ Hinv)) as Hnd.
  assert (contents c l = contents c (take i l) ++ (n_key n, n_value n) :: contents c (drop (S i) l)) as E.
  { unfold contents. rewrite <- (take_drop_middle l i a Hi) at 1. rewrite omap_app. cbn.
    unfold pair_at at 2. by rewrite Hn. }
  split; [|done]. rewrite E. unfold remove_key.
  rewrite list.filter_app, filter_cons_False by naive_solver.
  rewrite delete_take_drop. unfold contents at 1. rewrite omap_app. fold (contents c).
  assert (forall l', a ∉ l' -> filter (fun x => x.1 <> n_key n) (contents c l') = contents c l') as Hf.
  { induction l' as [|b l' IH]; intros Ha; [done|]. apply not_elem_of_cons in Ha as [Hab Ha].
    rewrite contents_cons. unfold pair_at. destruct (c_heap c !! b) as [m|] eqn:Hm; cbn [fmap option_fmap option_map]; [|by apply IH].
    rewrite filter_cons_True; [f_equal; by apply IH|]. cbn. intros Ek. apply Hab.
    symmetry. by apply (hs_keys _ _ Hh b a m n). }
  rewrite <- (take_drop_middle l i a Hi) in Hnd. apply list.NoDup_app in Hnd as (_ & H2 & H3).
  apply list.NoDup_cons in H3 as [H3 _].
  rewrite !Hf; [done|done|]. intros Ha. apply (H2 a Ha). left.
Qed.
End inv.

Lemma delete_notin (l : list Z) i a : NoDup l -> l !! i = Some a -> a ∉ delete i l.
Proof.
  intros Hnd Hi. rewrite delete_take_drop.
  rewrite <- (take_drop_middle l i a Hi) in Hnd. apply list.NoDup_app in Hnd as (_ & H2 & H3).
  apply list.NoDup_cons in H3 as [H3 _]. intros [Hx|Hx]%elem_of_app; [|done].
  apply (H2 a Hx). left.
Qed.

Lemma contents_app c l1 l2 : contents c (l1 ++ l2) = contents c l1 ++ contents c l2.
Proof. apply omap_app. Qed.

Lemma list_unlink_same a n c : c_heap c !! a = Some n -> same_data (c_heap c) (c_heap (list_unlink a c)).
Proof.
  intros Hn b. destruct (list_unlink_heap a n c Hn) as (Hh & _). rewrite Hh.
  by destruct (c_heap c !! b).
Qed.

Lemma same_data_hkey h h' :
  same_data h h' -> forall b, hkey <$> h' !! b = hkey <$> h !! b.
Proof.
  intros Hs b. specialize (Hs b). unfold data_of, hkey in *.
  destruct (h' !! b), (h !! b); cbn in *; congruence.
Qed.

Lemma same_data_dom h h' a : same_data h h' -> is_Some (h' !! a) <-> is_Some (h !! a).
Proof.
  intros Hs. specialize (Hs a). destruct (h' !! a), (h !! a); cbn in *; naive_solver.
Qed.

(** [touch] moves a node to the recent end and keeps its data. *)
Lemma touch_spec c l i a n :
  lru_inv c l -> l !! i = Some a -> c_heap c !! a = Some n ->
  let c' := touch a c in
  lru_inv c' (delete i l ++ [a]) /\ same_data (c_heap c) (c_heap c') /\
  contents c' (delete i l ++ [a]) = remove_key (n_key n) (contents c l) ++ [(n_key n, n_value n)] /\
  l_capacity c' = l_capacity c /\ c_generation c' = c_generation c.
Proof.
  intros Hinv Hi Hn c'. unfold touch in c'. pose proof Hinv as [Hl [ch Hh] Hd Hsz Hcap Hfit].
  pose proof (list_unlink_dlist _ _ _ _ _ _ _ c Hl Hi Hn eq_refl eq_refl eq_refl) as Hl1.
  pose proof (list_unlink_same a n c Hn) as Hs1.
  destruct (list_unlink_heap a n c Hn) as (_ & _ & _ & Hsz1 & Hcap1 & Har1 & Htc1 & Hg1).
  set (c1 := list_unlink a c) in *.
  pose proof (delete_notin l i a (dl_nodup _ _ _ _ Hl) Hi) as Ha.
  assert (is_Some (c_heap c1 !! a)) as Hs1a by (apply (same_data_dom _ _ _ Hs1); eauto).
  pose proof (list_push_back_dlist _ a c1 Hl1 Ha Hs1a) as Hl2. fold c' in Hl2.
  assert (l_tail c1 <> Some a) as Hta.
  { rewrite (dl_tail _ _ _ _ Hl1). intros E. apply Ha. by eapply list.last_Some_elem_of. }
  destruct (list_push_back_heap a c1 Hta) as (Hh2 & _ & _ & Hsz2 & Hcap2 & Har2 & Htc2 & Hg2).
  fold c' in Hh2, Hsz2, Hcap2, Har2, Htc2, Hg2.
  assert (same_data (c_heap c1) (c_heap c')) as Hs2 by (intros b; rewrite Hh2; by destruct (c_heap c1 !! b)).
  assert (same_data (c_heap c) (c_heap c')) as Hs by (by etransitivity).
  assert (zlen (delete i l ++ [a]) = zlen l) as Hlen.
  { unfold zlen. rewrite length_app, length_delete by eauto. apply lookup_lt_Some in Hi. cbn. lia. }
  split_and!; try congruence.
  - constructor; try congruence; try lia.
    + exists ch. eapply hashed_frame; [exact Hh|by apply same_data_hkey|congruence|congruence].
    + intros b. rewrite (same_data_dom _ _ b Hs), Hd, elem_of_app, delete_take_drop, elem_of_app.
      rewrite <- (take_drop_middle l i a Hi) at 1. rewrite elem_of_app, elem_of_cons. set_solver.
  - rewrite contents_app. rewrite (contents_same c c'); [|intros; by apply same_data_pair].
    destruct (contents_delete c l Hinv i a n Hi Hn) as [-> _]. f_equal. cbn.
    rewrite (same_data_pair c c') by done. unfold pair_at. by rewrite Hn.
Qed.

(** Taking a node out of both structures and freeing it. *)
Lemma remove_spec c l i a n :
  lru_inv c l -> l !! i = Some a -> c_heap c !! a = Some n ->
  let c' := free_node a (hash_remove a (list_unlink a c)) in
  lru_inv c' (delete i l) /\ contents c' (delete i l) = remove_key (n_key n) (contents c l) /\
  (forall b, b <> a -> pair_at c' b = pair_at c b) /\ c_heap c' !! a = None /\
  l_capacity c' = l_capacity c /\ c_generation c' = c_generation c.
Proof.
  intros Hinv Hi Hn c'. pose proof Hinv as [Hl [ch Hh] Hd Hsz Hcap Hfit].
  pose proof (list_unlink_dlist _ _ _ _ _ _ _ c Hl Hi Hn eq_refl eq_refl eq_refl) as Hl1.
  pose proof (list_unlink_same a n c Hn) as Hs1.
  destruct (list_unlink_heap a n c Hn) as (Hh1 & _ & _ & Hsz1 & Hcap1 & Har1 & Htc1 & Hg1).
  set (c1 := list_unlink a c) in *.
  assert (hashed c1 ch) as Hhash1 by (eapply hashed_frame; [exact Hh|by apply same_data_hkey|done|done]).
  assert (exists n1, c_heap c1 !! a = Some n1) as [n1 Hn1] by (rewrite Hh1, Hn; by eexists).
  destruct (hash_remove_hashed c1 ch a n1 Hhash1 Hn1)
    as (Hh2 & Hback & Hkeep & Hhd2 & Htl2 & Hsz2 & Hcap2 & Hg2). fold c' in Hh2, Hback, Hkeep.
  pose proof (delete_notin l i a (dl_nodup _ _ _ _ Hl) Hi) as Ha.
  assert (forall b, is_Some (c_heap c' !! b) <-> b <> a /\ is_Some (c_heap c !! b)) as Hdom.
  { intros b. split.
    - intros [m' Hm']. destruct (Hback b m' Hm') as [Hba (m & Hm & _)]. split; [done|].
      apply (same_data_dom _ _ _ Hs1). eauto.
    - intros [Hba Hb]. apply Hkeep; [done|]. by apply (same_data_dom _ _ _ Hs1). }
  assert (forall b, b <> a -> pair_at c' b = pair_at c b) as Hpair.
  { intros b Hba. rewrite <- (same_data_pair c c1 b Hs1). unfold pair_at.
    destruct (c_heap c' !! b) as [m'|] eqn:Hm'.
    - destruct (Hback b m' Hm') as [_ (m & Hm & _ & _ & Hk & Hv)]. rewrite Hm. cbn. congruence.
    - destruct (c_heap c1 !! b) as [m|] eqn:Hm; [|done].
      destruct (Hkeep b Hba ltac:(eauto)) as [? ?]. congruence. }
  split_and!; try (subst c'; congruence).
  - constructor.
    + subst c'. rewrite Hhd2, Htl2. eapply dlist_frame; [exact Hl1|]. intros b m Hb Hm.
      assert (b <> a) as Hba by (by intros ->).
      destruct (Hkeep b Hba ltac:(eauto)) as [m' Hm']. exists m'. split; [done|].
      destruct (Hback b m' Hm') as [_ (m0 & Hm0 & Hp & Hx & _)]. split; congruence.
    + done.
    + intros b. rewrite Hdom, Hd, delete_take_drop, elem_of_app.
      rewrite <- (take_drop_middle l i a Hi) at 1. rewrite elem_of_app, elem_of_cons.
      rewrite delete_take_drop, elem_of_app in Ha. split; [naive_solver|].
      intros Hb. split; [intros ->; naive_solver|naive_solver].
    + subst c'. rewrite Hsz2, Hsz1, Hsz. unfold zlen. rewrite length_delete by eauto.
      apply lookup_lt_Some in Hi. lia.
    + subst c'. by rewrite Hcap2, Hcap1.
    + subst c'. rewrite Hcap2, Hcap1. unfold zlen in *. rewrite length_delete by eauto. lia.
  - rewrite (contents_same c c').
    + by destruct (contents_delete c l Hinv i a n Hi Hn).
    + intros b Hb. apply Hpair. by intros ->.
  - done.
  - destruct (c_heap c' !! a) as [m'|] eqn:Hm'; [|done].
    by destruct (proj1 (Hdom a) ltac:(eauto)) as [? _].
Qed.

Lemma hash_insert_heap a n c :
  c_heap c !! a = Some n ->
  let c' := hash_insert a c in
  (forall b, b <> a -> c_heap c' !! b = c_heap c !! b) /\
  (exists o, c_heap c' !! a = Some (set_hash_next o n)) /\
  l_head c' = l_head c /\ l_tail c' = l_tail c /\ l_size c' = l_size c /\
  l_capacity c' = l_capacity c /\ c_generation c' = c_generation c.
Proof.
  intros Hn. unfold hash_insert. rewrite Hn. cbn. split_and!; try done.
  - intros b Hb. by rewrite lookup_alter_ne by done.
  - rewrite lookup_alter_eq, Hn. by eexists.
Qed.

Lemma insert_new_spec c l a k v :
  lru_inv c l -> zlen l < l_capacity c -> c_heap c !! a = None ->
  (forall b m, c_heap c !! b = Some m -> n_key m <> k) ->
  let c1 := set_heap (<[a := mkNode k v None None None]> (c_heap c)) c in
  let c' := list_push_back a (hash_insert a c1) in
  lru_inv c' (l ++ [a]) /\ contents c' (l ++ [a]) = contents c l ++ [(k, v)] /\
  l_capacity c' = l_capacity c /\ c_generation c' = c_generation c.
Proof.
  intros Hinv Hlt Ha Hnew c1 c'. pose proof Hinv as [Hl [ch Hh] Hd Hsz Hcap Hfit].
  set (n := mkNode k v None None None).
  destruct (hash_insert_hashed c ch a n Hh Ha Hnew) as [ch2 Hh2].
  assert (c_heap c1 !! a = Some n) as Hn1 by (subst c1; cbn; by rewrite lookup_insert_eq).
  destruct (hash_insert_heap a n c1 Hn1) as (Hne & (o & Hna) & Hhd2 & Htl2 & Hsz2 & Hcap2 & Hg2).
  set (c2 := hash_insert a c1) in *.
  assert (forall b, b <> a -> c_heap c2 !! b = c_heap c !! b) as Hother.
  { intros b Hb. rewrite Hne by done. subst c1. cbn. by rewrite lookup_insert_ne. }
  assert (a ∉ l) as Hal by (intros Hin; apply Hd in Hin as [? ?]; congruence).
  assert (dlist (c_heap c2) (l_head c2) (l_tail c2) l) as Hl2.
  { rewrite Hhd2, Htl2. eapply dlist_frame; [exact Hl|]. intros b m Hb Hm. exists m.
    rewrite Hother; [done|]. by intros ->. }
  pose proof (list_push_back_dlist l a c2 Hl2 Hal ltac:(eauto)) as Hl3. fold c' in Hl3.
  assert (l_tail c2 <> Some a) as Hta.
  { rewrite (dl_tail _ _ _ _ Hl2). intros E. apply Hal. by eapply list.last_Some_elem_of. }
  destruct (list_push_back_heap a c2 Hta) as (Hh3 & _ & _ & Hsz3 & Hcap3 & Har3 & Htc3 & Hg3).
  fold c' in Hh3, Hsz3, Hcap3, Har3, Htc3, Hg3.
  assert (same_data (c_heap c2) (c_heap c')) as Hs by (intros b; rewrite Hh3; by destruct (c_heap c2 !! b)).
  split_and!.
  - constructor.
    + done.
    + exists ch2. eapply hashed_frame; [exact Hh2|by apply same_data_hkey|done|done].
    + intros b. rewrite (same_data_dom _ _ b Hs), elem_of_app, list_elem_of_singleton, <- Hd.
      destruct (decide (b = a)) as [->|Hb].
      * rewrite Hna. split; [by right|eauto].
      * rewrite Hother by done. naive_solver.
    + rewrite Hsz3, Hsz2. change (l_size c1) with (l_size c). rewrite Hsz, zlen_app. by cbn.
    + by rewrite Hcap3, Hcap2.
    + rewrite Hcap3, Hcap2, zlen_app. change (l_capacity c1) with (l_capacity c). change (zlen [a]) with 1. lia.
  - rewrite contents_app. f_equal.
    + apply contents_same. intros b Hb. rewrite (same_data_pair c2 c') by done. unfold pair_at.
      rewrite Hother; [done|]. by intros ->.
    + rewrite contents_cons, (same_data_pair c2 c') by done. unfold pair_at. by rewrite Hna.
  - by rewrite Hcap3, Hcap2.
  - by rewrite Hg3, Hg2.
Qed.

Lemma bump_inv g h m e c l : lru_inv c l -> lru_inv (bump g h m e c) l.
Proof.
  intros [Hl [ch Hh] Hd Hsz Hcap Hfit]. constructor; try done. exists ch. by eapply hashed_frame.
Qed.

(** Eviction drops the least recently used pair. *)
Lemma evict_spec c l :
  lru_inv c l -> l <> [] ->
  let c' := evict_lru c in
  exists a l', l = a :: l' /\ lru_inv c' l' /\ contents c' l' = tail (contents c l) /\
    (forall b, pair_at c' b = None \/ pair_at c' b = pair_at c b) /\
    l_capacity c' = l_capacity c /\ c_generation c' = u64 (c_generation c + 0).
Proof.
  intros Hinv Hne. destruct l as [|a l]; [done|]. unfold evict_lru.
  rewrite (dl_head _ _ _ _ (li_list _ _ Hinv)). cbn [head].
  destruct (inv_node c _ Hinv a ltac:(left)) as [n Hn].
  destruct (remove_spec c (a :: l) 0 a n Hinv eq_refl Hn) as (Hi' & _ & Hpair & Hna & Hcap & Hg).
  set (c1 := free_node a (hash_remove a (list_unlink a c))) in *.
  exists a, l. split_and!; try done.
  - by apply bump_inv.
  - rewrite contents_cons. unfold pair_at. rewrite Hn. cbn [tail fmap option_fmap option_map].
    apply (contents_same c c1). intros b Hb. apply Hpair. intros ->.
    pose proof (dl_nodup _ _ _ _ (li_list _ _ Hinv)) as Hnd. by apply list.NoDup_cons in Hnd as [? _].
  - intros b. destruct (decide (b = a)) as [->|Hb]; [left|right; by apply Hpair].
    change (pair_at c1 a = None). unfold pair_at. by rewrite Hna.
  - change (u64 (c_generation c1 + 0) = u64 (c_generation c + 0)). by rewrite Hg.
Qed.

Lemma pair_at_none c a : pair_at c a = None <-> c_heap c !! a = None.
Proof. unfold pair_at. by destruct (c_heap c !! a). Qed.

Lemma u64_add_0 g : 0 <= g <= UINT64_MAX -> u64 (g + 0) = g.
Proof. unfold u64, UINT64_MAX. intros. rewrite uwrap_small; lia. Qed.

(** Insertion or replacement. *)
Lemma store_spec ptr copy_ok k v c l r c' :
  lru_inv c l -> (forall a, ptr = Some a -> c_heap c !! a = None) ->
  0 <= c_generation c <= UINT64_MAX ->
  store ptr copy_ok k v c = (r, c') ->
  l_capacity c' = l_capacity c /\ c_generation c' = c_generation c /\
  ((r = 0 /\ exists l', lru_inv c' l' /\
      contents c' l' = spec_store (l_capacity c) k v (contents c l)) \/
   (r = -1 /\ c' = c /\ (ptr = None \/ copy_ok = false))).
Proof.
  intros Hinv Hptr Hgen. destruct (li_hash _ _ Hinv) as [ch Hh]. unfold store, spec_store.
  pose proof (hash_find_spec c ch k Hh) as Hf. destruct (hash_find c k) as [a|].
  - destruct Hf as (n & Hn & Hk). destruct copy_ok; cbn [negb]; cycle 1.
    { intros [= <- <-]. split_and!; try done. right. auto. }
    intros [= <- <-]. set (c1 := set_heap (alter (set_value v) a (c_heap c)) c).
    assert (a ∈ l) as Hal by (apply (li_dom _ _ Hinv); eauto).
    apply list_elem_of_lookup in Hal as [i Hi].
    assert (c_heap c1 !! a = Some (set_value v n)) as Hn1 by (subst c1; cbn; by rewrite lookup_alter_eq, Hn).
    assert (forall b, b <> a -> c_heap c1 !! b = c_heap c !! b) as Hne
      by (intros b Hb; subst c1; cbn; by rewrite lookup_alter_ne).
    assert (lru_inv c1 l) as Hinv1.
    { pose proof Hinv as [Hl _ Hd Hsz Hcap Hfit]. constructor; try done.
      - eapply dlist_frame; [exact Hl|]. intros b m Hb Hm. destruct (decide (b = a)) as [->|Hba].
        + exists (set_value v n). split; [done|]. assert (m = n) as -> by congruence. done.
        + exists m. by rewrite Hne.
      - exists ch. eapply hashed_frame; [exact Hh| |done|done]. intros b.
        destruct (decide (b = a)) as [->|Hba]; [by rewrite Hn1, Hn|by rewrite Hne].
      - intros b. destruct (decide (b = a)) as [->|Hba]; [rewrite Hn1|rewrite Hne by done]; rewrite <- Hd.
        + rewrite Hn. split; eauto.
        + done. }
    destruct (touch_spec c1 l i a _ Hinv1 Hi Hn1) as (Hi' & _ & Hc' & Hcap' & Hg').
    split_and!; [done|done|]. left. split; [done|]. eexists. split; [exact Hi'|].
    rewrite decide_True; cycle 1.
    { apply (contents_keys c l Hinv). eauto. }
    rewrite Hc'. cbn [n_key n_value set_value]. rewrite Hk. f_equal.
    destruct (contents_delete c1 l Hinv1 i a _ Hi Hn1) as [E1 _].
    destruct (contents_delete c l Hinv i a _ Hi Hn) as [E2 _].
    cbn [n_key set_value] in E1. rewrite Hk in E1, E2. rewrite <- E1, <- E2.
    apply contents_same. intros b Hb. unfold pair_at. rewrite Hne; [done|]. intros ->.
    by apply (delete_notin l i a (dl_nodup _ _ _ _ (li_list _ _ Hinv)) Hi) in Hb.
  - destruct ptr as [a|]; cbn [create_node mbind option_bind]; cycle 1.
    { intros [= <- <-]. split_and!; try done. right. auto. }
    specialize (Hptr a eq_refl). intros [= <- <-].
    rewrite decide_False; cycle 1.
    { rewrite (contents_keys c l Hinv). intros (b & m & Hm & Hk). by apply (Hf b m). }
    rewrite (contents_length c l Hinv), (li_size _ _ Hinv).
    rewrite Z.geb_leb. destruct (Z.leb_spec (l_capacity c) (zlen l)) as [Hfull|Hroom].
    + assert (l <> []) as Hne by (intros ->; pose proof (li_cap _ _ Hinv); zl).
      destruct (evict_spec c l Hinv Hne) as (x & l' & -> & Hi1 & Hc1 & Hp1 & Hcap1 & Hg1).
      set (c1 := evict_lru c) in *.
      destruct (insert_new_spec c1 l' a k v Hi1) as (Hi2 & Hc2 & Hcap2 & Hg2).
      * rewrite Hcap1. pose proof (li_fit _ _ Hinv). zl.
      * apply pair_at_none. destruct (Hp1 a) as [?| ->]; [done|]. by apply pair_at_none.
      * intros b m Hm. destruct (Hp1 b) as [E|E]; unfold pair_at in E; rewrite Hm in E; [done|].
        cbn in E. destruct (c_heap c !! b) as [m'|] eqn:Hm'; [|done]. cbn in E. simplify_eq.
        rewrite H. by apply (Hf b m').
      * split_and!; [by rewrite Hcap2, Hcap1|by rewrite Hg2, Hg1, u64_add_0|].
        left. split; [done|]. eexists. split; [exact Hi2|]. by rewrite Hc2, Hc1.
    + destruct (insert_new_spec c l a k v Hinv Hroom Hptr Hf) as (Hi2 & Hc2 & Hcap2 & Hg2).
      split_and!; [done|done|]. left. split; [done|]. eexists. split; [exact Hi2|done].
Qed.

Lemma contents_elem c l k v :
  (k, v) ∈ contents c l <-> exists a n, a ∈ l /\ c_heap c !! a = Some n /\ n_key n = k /\ n_value n = v.
Proof.
  unfold contents. rewrite list_elem_of_omap. unfold pair_at. split.
  - intros (a & Ha & (n & Hn & [= -> ->])%fmap_Some). exists a, n. done.
  - intros (a & n & Ha & Hn & <- & <-). exists a. by rewrite Hn.
Qed.

Lemma find_key_some c l a n :
  lru_inv c l -> c_heap c !! a = Some n -> find_key (n_key n) (contents c l) = Some (n_value n).
Proof.
  intros Hinv Hn. destruct (li_hash _ _ Hinv) as [ch Hh]. unfold find_key.
  apply elem_of_list_to_map_1'.
  - intros y (b & m & _ & Hm & Hk & <-)%contents_elem.
    assert (b = a) as -> by (by apply (hs_keys _ _ Hh b a m n)). congruence.
  - apply contents_elem. exists a, n. split_and!; try done. apply (li_dom _ _ Hinv). eauto.
Qed.

Lemma find_key_none c l k :
  lru_inv c l -> (forall a n, c_heap c !! a = Some n -> n_key n <> k) ->
  find_key k (contents c l) = None.
Proof.
  intros Hinv Hn. apply not_elem_of_list_to_map_1. rewrite (contents_keys c l Hinv).
  intros (a & n & Ha & Hk). by apply (Hn a n).
Qed.

Lemma remove_key_absent k ps : (forall x, x ∈ ps -> x.1 <> k) -> remove_key k ps = ps.
Proof.
  unfold remove_key. induction ps as [|x ps IH]; intros Hx; [done|].
  rewrite filter_cons_True by (apply Hx; left). f_equal. apply IH. intros y Hy. apply Hx. by right.
Qed.

(** ** The public operations against the list *)
Definition spec_get (k : bytes) (ps : list (bytes * bytes)) : list (bytes * bytes) :=
  match find_key k ps with Some v => remove_key k ps ++ [(k, v)] | None => ps end.

Lemma lru_get_spec k cap c l r c' :
  lru_inv c l -> 0 <= c_generation c <= UINT64_MAX -> lru_get k cap c = (r, c') ->
  c_generation c' = c_generation c /\ l_capacity c' = l_capacity c /\
  r = ((fun v => (ztake (Z.min (zlen v) cap) v, zlen v)) <$> find_key k (contents c l)) /\
  exists l', lru_inv c' l' /\ contents c' l' = spec_get k (contents c l).
Proof.
  intros Hinv Hgen. unfold lru_get, spec_get. destruct (li_hash _ _ Hinv) as [ch Hh].
  pose proof (hash_find_spec c ch k Hh) as Hf. destruct (hash_find c k) as [a|]; cycle 1.
  { intros [= <- <-]. rewrite (find_key_none c l k Hinv Hf). split_and!; try done.
    - cbn. by apply u64_add_0.
    - exists l. split; [by apply bump_inv|done]. }
  destruct Hf as (n & Hn & <-). rewrite (find_key_some c l a n Hinv Hn).
  assert (a ∈ l) as Hal by (apply (li_dom _ _ Hinv); eauto).
  apply list_elem_of_lookup in Hal as [i Hi].
  destruct (touch_spec c l i a n Hinv Hi Hn) as (Hi' & Hs & Hc' & Hcap' & Hg').
  set (c1 := touch a c) in *. pose proof (same_data_pair c c1 a Hs) as Hp. unfold pair_at in Hp.
  rewrite Hn in Hp. cbn in Hp. destruct (c_heap c1 !! a) as [n1|]; [|done]. cbn in Hp. injection Hp as Hk1 Hv1.
  rewrite Hv1. intros [= <- <-]. cbn [fmap option_fmap option_map]. split_and!; try done.
  - cbn. rewrite Hg'. by apply u64_add_0.
  - do 2 f_equal. f_equal. destruct (Z.ltb_spec (zlen (n_value n)) cap); lia.
  - eexists. split; [by apply bump_inv|]. exact Hc'.
Qed.

Lemma lru_put_spec ptr copy_ok k v c l r c' :
  lru_inv c l -> (forall a, ptr = Some a -> c_heap c !! a = None) ->
  lru_put ptr copy_ok k v c = (r, c') ->
  c_generation c' = u64 (c_generation c + 1) /\ l_capacity c' = l_capacity c /\
  exists l', lru_inv c' l' /\
    ((r = 0 /\ contents c' l' = spec_store (l_capacity c) k v (contents c l)) \/
     (r = -1 /\ contents c' l' = contents c l /\ (ptr = None \/ copy_ok = false))).
Proof.
  intros Hinv Hptr. unfold lru_put. intros Hs.
  assert (0 <= c_generation (bump 1 0 0 0 c) <= UINT64_MAX) as Hg.
  { cbn. unfold u64, UINT64_MAX. pose proof (uwrap_range 64 (c_generation c + 1)). lia. }
  destruct (store_spec ptr copy_ok k v (bump 1 0 0 0 c) l r c' (bump_inv _ _ _ _ _ _ Hinv) Hptr Hg Hs)
    as (Hcap & Hgen & Hout).
  split_and!; try done. destruct Hout as [(-> & l' & ? & ?)|(-> & -> & ?)].
  - exists l'. split; [done|]. by left.
  - exists l. split; [by apply bump_inv|]. by right.
Qed.

Lemma lru_invalidate_spec k c l r c' :
  lru_inv c l -> lru_invalidate k c = (r, c') ->
  c_generation c' = u64 (c_generation c + 1) /\ l_capacity c' = l_capacity c /\
  r = bool_decide (is_Some (find_key k (contents c l))) /\
  exists l', lru_inv c' l' /\ contents c' l' = remove_key k (contents c l).
Proof.
  intros Hinv. unfold lru_invalidate. apply (bump_inv 1 0 0 0) in Hinv.
  change (contents c l) with (contents (bump 1 0 0 0 c) l).
  set (c0 := bump 1 0 0 0 c) in *.
  assert (c_generation c0 = u64 (c_generation c + 1)) as Hg by done.
  assert (l_capacity c0 = l_capacity c) as Hcap by done. clearbody c0.
  destruct (li_hash _ _ Hinv) as [ch Hh].
  pose proof (hash_find_spec c0 ch k Hh) as Hf. destruct (hash_find c0 k) as [a|]; cycle 1.
  { intros [= <- <-]. rewrite (find_key_none c0 l k Hinv Hf). split_and!; try done. exists l.
    split; [done|]. symmetry. apply remove_key_absent.
    intros [k' v] (b & m & _ & Hm & <- & _)%contents_elem. by apply (Hf b m). }
  intros [= <- <-]. destruct Hf as (n & Hn & <-). rewrite (find_key_some c0 l a n Hinv Hn).
  assert (a ∈ l) as Hal by (apply (li_dom _ _ Hinv); eauto).
  apply list_elem_of_lookup in Hal as [i Hi].
  destruct (remove_spec c0 l i a n Hinv Hi Hn) as (Hi' & Hc' & _ & _ & Hcap' & Hg').
  split_and!; [congruence|congruence|by rewrite bool_decide_true by eauto|]. eauto.
Qed.

(** ** Histories

    What other threads may do to the cache between two points. *)
Inductive lru_op :=
| OpGet (k : bytes) (cap : Z)
| OpPut (ptr : option Z) (copy_ok : bool) (k v : bytes)
| OpFill (ptr : option Z) (copy_ok : bool) (k v : bytes) (gen : Z)
| OpInvalidate (k : bytes).

Definition lru_step (o : lru_op) (c : lru_cache) : lru_cache :=
  match o with
  | OpGet k cap => (lru_get k cap c).2
  | OpPut ptr ok k v => (lru_put ptr ok k v c).2
  | OpFill ptr ok k v g => (lru_fill ptr ok k v g c).2
  | OpInvalidate k => (lru_invalidate k c).2
  end.

Definition is_write (o : lru_op) : bool :=
  match o with OpPut _ _ _ _ | OpInvalidate _ => true | _ => false end.

(** [malloc] hands out addresses that are not in use. *)
Definition op_ok (o : lru_op) (c : lru_cache) : Prop :=
  match o with
  | OpPut (Some a) _ _ _ | OpFill (Some a) _ _ _ _ => c_heap c !! a = None
  | _ => True
  end.

Inductive lru_run : lru_cache -> list lru_op -> lru_cache -> Prop :=
| run_nil c : lru_run c [] c
| run_cons c o os c' : op_ok o c -> lru_run (lru_step o c) os c' -> lru_run c (o :: os) c'.

Definition gen_ok (c : lru_cache) : Prop := 0 <= c_generation c <= UINT64_MAX.

Lemma lru_step_inv o c l :
  lru_inv c l -> gen_ok c -> op_ok o c ->
  let c' := lru_step o c in
  (exists l', lru_inv c' l') /\ gen_ok c' /\ l_capacity c' = l_capacity c /\
  c_generation c' = u64 (c_generation c + (if is_write o then 1 else 0)).
Proof.
  intros Hinv Hg Hok. assert (u64 (c_generation c + 0) = c_generation c) as Hz by (by apply u64_add_0).
  assert (forall x, 0 <= u64 x <= UINT64_MAX) as Hr.
  { intros x. unfold u64, UINT64_MAX. pose proof (uwrap_range 64 x). lia. }
  unfold gen_ok in *. destruct o as [k cap|ptr ok k v|ptr ok k v g|k]; cbn [lru_step is_write].
  - destruct (lru_get k cap c) as [r c'] eqn:E.
    destruct (lru_get_spec _ _ _ _ _ _ Hinv Hg E) as (Hg' & Hc' & _ & l' & Hi' & _). cbn.
    rewrite Hz, Hg'. eauto.
  - assert (forall a, ptr = Some a -> c_heap c !! a = None) as Hptr by (intros a ->; exact Hok).
    destruct (lru_put ptr ok k v c) as [r c'] eqn:E.
    destruct (lru_put_spec _ _ _ _ _ _ _ _ Hinv Hptr E)
      as (Hg' & Hc' & l' & Hi' & _). cbn. rewrite Hg'. split_and!; eauto; apply Hr.
  - unfold lru_fill. destruct (c_generation c =? g); cbn [negb]; [|cbn; rewrite Hz; eauto].
    assert (forall a, ptr = Some a -> c_heap c !! a = None) as Hptr by (intros a ->; exact Hok).
    destruct (store ptr ok k v c) as [r c'] eqn:E. cbn.
    destruct (store_spec _ _ _ _ _ _ _ _ Hinv Hptr Hg E) as (Hc' & Hg' & Hout).
    rewrite Hz, Hg'. destruct Hout as [(_ & l' & ? & _)|(_ & -> & _)]; eauto.
  - destruct (lru_invalidate k c) as [r c'] eqn:E.
    destruct (lru_invalidate_spec _ _ _ _ _ Hinv E) as (Hg' & Hc' & _ & l' & Hi' & _). cbn.
    rewrite Hg'. split_and!; eauto; apply Hr.
Qed.

Lemma lru_run_inv c os c' l :
  lru_run c os c' -> lru_inv c l -> gen_ok c ->
  (exists l', lru_inv c' l') /\ gen_ok c' /\ l_capacity c' = l_capacity c /\
  c_generation c' = (c_generation c + zlen (List.filter is_write os)) mod 2 ^ 64.
Proof.
  intros Hr. revert l. induction Hr as [c|c o os c' Hok Hr IH]; intros l Hinv Hg.
  { split_and!; eauto. cbn. unfold gen_ok, UINT64_MAX in Hg. rewrite zlen_nil, Z.mod_small; lia. }
  destruct (lru_step_inv o c l Hinv Hg Hok) as ([l1 Hi1] & Hg1 & Hc1 & E1).
  destruct (IH l1 Hi1 Hg1) as (Hi2 & Hg2 & Hc2 & E2). split_and!; [done|done|congruence|].
  rewrite E2, E1. unfold u64, uwrap. rewrite Zplus_mod_idemp_l. f_equal. cbn.
  destruct (is_write o); rewrite ?zlen_cons; lia.
Qed.

Lemma lru_create_inv capacity c :
  lru_cache_create capacity true = Some c ->
  lru_inv c [] /\ gen_ok c /\ l_capacity c = capacity /\ contents c [] = [].
Proof.
  unfold lru_cache_create. destruct (Z.leb_spec capacity 0) as [|Hpos]; [done|]. cbn [negb].
  intros [= <-]. split_and!; try done. constructor; try done.
  - constructor; try done. apply base.NoDup_nil_2.
  - exists (fun _ => []). constructor; cbn [c_heap t_array t_capacity]; try done.
    + split; [lia|]. rewrite zlen_replicate. lia.
    + intros b o [-> _]%lookup_replicate. done.
    + intros b. apply base.NoDup_nil_2.
    + set_solver.
  - intros a. cbn. rewrite lookup_empty. split; [by intros []|set_solver].
  - cbn. zl.
Qed.

(** A speculative fill whose snapshot predates a write is dropped. *)
Lemma stale_fill_dropped c os c' l ptr ok k v :
  lru_run c os c' -> lru_inv c l -> gen_ok c ->
  0 < zlen (List.filter is_write os) < 2 ^ 64 ->
  lru_fill ptr ok k v (lru_generation c) c' = (1, c').
Proof.
  intros Hr Hi Hg Hw. destruct (lru_run_inv _ _ _ _ Hr Hi Hg) as (_ & _ & _ & E).
  unfold lru_fill, lru_generation, gen_ok, UINT64_MAX in *.
  destruct (Z.eqb_spec (c_generation c') (c_generation c)) as [E'|]; [|done].
  exfalso. rewrite E' in E. zdiv.
Qed.

(** ** Destruction *)
Lemma dlist_chain h hd tl l : dlist h hd tl l -> chain n_next h hd l.
Proof.
  intros [Hnd Hh _ Hl]. subst hd.
  assert (forall i, chain n_next h (drop i l !! 0%nat) (drop i l)) as H.
  { intros i. remember (length l - i)%nat as k eqn:Ek. revert i Ek. induction k as [|k IH]; intros i Ek.
    - rewrite drop_ge by lia. done.
    - destruct (lookup_lt_is_Some_2 l i ltac:(lia)) as [a Ha]. rewrite (drop_S _ _ _ Ha). cbn. split; [done|].
      destruct (Hl i a Ha) as (n & Hn & _ & Hx). exists n. split; [done|]. rewrite Hx.
      specialize (IH (S i) ltac:(lia)). rewrite lookup_drop, Nat.add_0_r in IH. exact IH. }
  specialize (H 0%nat). rewrite drop_0 in H. by rewrite head_lookup.
Qed.

Lemma destroy_loop_spec fuel h curr l :
  (length l <= fuel)%nat -> NoDup l -> chain n_next h curr l ->
  destroy_loop fuel h curr = Some (foldl (fun h a => delete a h) h l).
Proof.
  revert h curr fuel. induction l as [|a l IH]; intros h curr fuel Hf Hnd Hc; cbn in Hc; [subst curr; by destruct fuel|].
  destruct Hc as (-> & n & Hn & Hc). destruct fuel as [|fuel]; cbn in Hf; [lia|]. apply list.NoDup_cons in Hnd as [Ha Hnd].
  cbn [destroy_loop]. rewrite Hn. cbn [mbind option_bind foldl]. apply IH; [lia|done|]. eapply chain_frame; [|exact Hc].
  intros b Hb. rewrite lookup_delete_ne; [done|]. by intros ->.
Qed.

Lemma foldl_delete_lookup (h : gmap Z lru_node) l b :
  foldl (fun h a => delete a h) h l !! b = if decide (b ∈ l) then None else h !! b.
Proof.
  revert h. induction l as [|a l IH]; intros h; cbn [foldl]; [done|]. rewrite IH. destruct (decide (b ∈ l)) as [Hb|Hb].
  - rewrite decide_True; [done|by apply list_elem_of_further].
  - destruct (decide (b = a)) as [->|Hne].
    + rewrite decide_True by apply list_elem_of_here. apply lookup_delete_eq.
    + rewrite decide_False by (intros [?|?]%list.elem_of_cons; done). by rewrite lookup_delete_ne.
Qed.

(** Every node is freed, each once. *)
Lemma lru_cache_destroy_spec c l : lru_inv c l -> lru_cache_destroy (Some c) = Some ∅.
Proof.
  intros Hi. pose proof (li_list _ _ Hi) as Hd. pose proof (dl_nodup _ _ _ _ Hd) as Hnd. cbn [lru_cache_destroy].
  rewrite (destroy_loop_spec _ _ _ l); [|
    |done|by eapply dlist_chain].
  - f_equal. apply map_eq. intros b. rewrite foldl_delete_lookup, lookup_empty. case_decide as Hb; [done|].
    apply eq_None_not_Some. by rewrite (li_dom _ _ Hi).
  - assert (list_to_set l ⊆ dom (c_heap c)) as Hs.
    { intros a. rewrite elem_of_list_to_set, elem_of_dom. by rewrite (li_dom _ _ Hi). }
    apply subseteq_size in Hs. rewrite size_list_to_set in Hs by done. rewrite size_dom in Hs. lia.
Qed.
