(* ===== verification/Json.v ===== *)
(** * Flat JSON objects (common/src/json_util.c)

    Pointers into the body are the bytes from there to the end. The second
    half renders flat objects the way the handlers and the token code print
    them and shows that the field readers find what was rendered. *)
From S2P Require Import Prelude Text.

Local Open Scope Z_scope.

(** ** Escaping *)
Definition hex_lower (d : Z) : Z := if d <? 10 then 48 + d else 87 + d.

(** What replaces a character: a two-character escape, a [\u] escape, or the
    character itself. *)
Definition escape_char (c : Z) : bytes :=
  if c =? 34 then [92; 34]
  else if c =? 92 then [92; 92]
  else if c =? 10 then [92; 110]
  else if c =? 13 then [92; 114]
  else if c =? 9 then [92; 116]
  else if c <? 32 then [92; 117; 48; 48; hex_lower (c / 16); hex_lower (c mod 16)]
  else [c].

Fixpoint escape_loop (dst_size : Z) (src : bytes) (out : Z) : option bytes :=
  match src with
  | [] => if out >=? dst_size then None else Some []
  | c :: src' =>
      let rep := escape_char c in
      if out + zlen rep >=? dst_size then None else
      rest ← escape_loop dst_size src' (out + zlen rep);
      Some (rep ++ rest)
  end.

(** The text written to [dst], or [None] for -1. *)
Definition json_escape (dst_size : Z) (src : bytes) : option bytes := escape_loop dst_size src 0.

(** ** Reading *)
Definition is_ws (c : Z) : bool := (c =? 32) || (c =? 9) || (c =? 10) || (c =? 13).

Fixpoint skip_ws (p : bytes) : bytes :=
  match p with
  | c :: p' => if is_ws c then skip_ws p' else p
  | [] => []
  end.

(** From after an opening quote to the unescaped closing one: the raw contents
    and what follows the quote. *)
Fixpoint scan_string (q : bytes) : option (bytes * bytes) :=
  match q with
  | [] => None
  | c :: q' =>
      if c =? 34 then Some ([], q')
      else if c =? 92 then
        match q' with
        | [] => None
        | d :: q'' => '(s, rest) ← scan_string q''; Some (c :: d :: s, rest)
        end
      else '(s, rest) ← scan_string q'; Some (c :: s, rest)
  end.

Fixpoint find_loop (fuel : nat) (p field : bytes) : option bytes :=
  match fuel, p with
  | O, _ | _, [] => None
  | S fuel', c :: p' =>
      if negb (c =? 34) then find_loop fuel' p' field else
      '(s, rest) ← scan_string p';
      let after := skip_ws rest in
      match after with
      | 58 :: v => if bool_decide (s = field) then Some (skip_ws v) else find_loop fuel' rest field
      | _ => find_loop fuel' rest field
      end
  end.

(** Every pass consumes at least one byte. *)
Definition json_find_field (body field : bytes) : option bytes := find_loop (length body) body field.

Definition unescape_char (d : Z) : Z :=
  if d =? 110 then 10 else if d =? 114 then 13 else if d =? 116 then 9
  else if d =? 98 then 8 else if d =? 102 then 12 else d.

Fixpoint string_loop (p : bytes) (out_len out_size : Z) : option bytes :=
  match p with
  | [] => None
  | c :: p1 =>
      let emit x k := if out_len + 1 >=? out_size then None else cons x <$> k (out_len + 1) in
      if c =? 34 then Some []
      else if c =? 92 then
        match p1 with
        | [] => emit c (fun n => string_loop p1 n out_size)
        | d :: p2 =>
            if d =? 117 then
              match p2 with
              | _ :: _ :: _ :: _ :: p6 => emit 63 (fun n => string_loop p6 n out_size)
              | _ => emit 63 (fun n => string_loop p2 n out_size)
              end
            else emit (unescape_char d) (fun n => string_loop p2 n out_size)
        end
      else emit c (fun n => string_loop p1 n out_size)
  end.

Definition json_get_string (body field : bytes) (out_size : Z) : option bytes :=
  p ← json_find_field body field;
  match p with
  | 34 :: p' => string_loop p' 0 out_size
  | _ => None
  end.

Definition starts_with (lit p : bytes) : bool := bool_decide (ztake (zlen lit) p = lit).

Definition json_get_bool (body field : bytes) : option bool :=
  p ← json_find_field body field;
  if starts_with [116; 114; 117; 101] p then Some true
  else if starts_with [102; 97; 108; 115; 101] p then Some false
  else None.

Definition json_get_uint64 (body field : bytes) : option Z :=
  p ← json_find_field body field;
  if digit_start p then Some (scan_digits p 0).1 else None.

(** ** Escaping round trip *)
Definition escaped (s : bytes) : bytes := flat_map escape_char s.

Lemma escape_loop_spec n s out :
  0 <= out -> escape_loop n s out = if out + zlen (escaped s) <? n then Some (escaped s) else None.
Proof.
  revert out. induction s as [|c s IH]; intros out Ho; cbn [escape_loop escaped flat_map].
  - rewrite zlen_nil, Z.geb_leb. destruct (Z.leb_spec n out), (Z.ltb_spec (out + 0) n); done || lia.
  - pose proof (zlen_nonneg (escape_char c)). rewrite IH by lia. fold (escaped s).
    rewrite zlen_app, Z.geb_leb. pose proof (zlen_nonneg (escaped s)).
    destruct (Z.leb_spec n (out + zlen (escape_char c))).
    + destruct (Z.ltb_spec (out + (zlen (escape_char c) + zlen (escaped s))) n); [lia|done].
    + destruct (Z.ltb_spec (out + zlen (escape_char c) + zlen (escaped s)) n),
        (Z.ltb_spec (out + (zlen (escape_char c) + zlen (escaped s))) n); done || lia.
Qed.

Lemma hex_lower_plain d : 0 <= d < 16 -> hex_lower d <> 34 /\ hex_lower d <> 92.
Proof. unfold hex_lower. destruct (Z.ltb_spec d 10); lia. Qed.

Lemma scan_plain c rest :
  c <> 34 -> c <> 92 -> scan_string (c :: rest) = ('(s, r) ← scan_string rest; Some (c :: s, r)).
Proof. intros H1 H2. cbn. by rewrite (proj2 (Z.eqb_neq c 34)), (proj2 (Z.eqb_neq c 92)). Qed.

(** One escaped character inside a string scan. *)
Lemma scan_escape_char c rest :
  0 <= c ->
  scan_string (escape_char c ++ rest) =
  ('(s, r) ← scan_string rest; Some (escape_char c ++ s, r)).
Proof.
  intros Hc. unfold escape_char.
  destruct (Z.eqb_spec c 34); [done|]. destruct (Z.eqb_spec c 92); [done|].
  destruct (Z.eqb_spec c 10); [done|]. destruct (Z.eqb_spec c 13); [done|].
  destruct (Z.eqb_spec c 9); [done|]. destruct (Z.ltb_spec c 32); cbn [app].
  - destruct (hex_lower_plain (c / 16)); [zdiv|]. destruct (hex_lower_plain (c mod 16)); [zdiv|].
    change (scan_string (92 :: 117 :: ?l)) with ('(s, r) ← scan_string l; Some (92 :: 117 :: s, r)).
    rewrite !scan_plain by (done || lia). by destruct (scan_string rest) as [[? ?]|].
  - rewrite scan_plain by done. by destruct (scan_string rest) as [[? ?]|].
Qed.

Definition is_char (c : Z) : Prop := 0 <= c.

Lemma scan_escaped s rest :
  Forall is_char s -> scan_string (escaped s ++ 34 :: rest) = Some (escaped s, rest).
Proof.
  induction 1 as [|c s Hc Hs IH]; [done|]. cbn [escaped flat_map]. rewrite <- app_assoc.
  rewrite scan_escape_char by done. fold (escaped s). by rewrite IH.
Qed.

(** Characters whose escape the reader undoes: everything but the control
    characters that have no short escape. *)
Definition short_escape (c : Z) : bool := (32 <=? c) || (c =? 9) || (c =? 10) || (c =? 13).

Lemma string_loop_escaped s rest n size :
  Forall (fun c => short_escape c = true) s -> 0 <= n ->
  string_loop (escaped s ++ 34 :: rest) n size = if n + zlen s <? size then Some s else
    (if bool_decide (s = []) then Some [] else None).
Proof.
  intros Hs. revert n. induction Hs as [|c s Hc Hs IH]; intros n Hn.
  { cbn. by case_match. }
  rewrite (bool_decide_false (c :: s = [])) by done. cbn [escaped flat_map]. rewrite <- app_assoc.
  fold (escaped s).
  assert (string_loop (escape_char c ++ escaped s ++ 34 :: rest) n size =
    if n + 1 >=? size then None else cons c <$> string_loop (escaped s ++ 34 :: rest) (n + 1) size) as ->.
  { unfold escape_char, short_escape in *.
    destruct (Z.eqb_spec c 34) as [->|]; [done|]. destruct (Z.eqb_spec c 92) as [->|]; [done|].
    destruct (Z.eqb_spec c 10) as [->|]; [done|]. destruct (Z.eqb_spec c 13) as [->|]; [done|].
    destruct (Z.eqb_spec c 9) as [->|]; [done|]. destruct (Z.ltb_spec c 32) as [|Hge]; [lia|].
    cbn. by rewrite (proj2 (Z.eqb_neq c 34)), (proj2 (Z.eqb_neq c 92)) by done. }
  rewrite IH by lia. rewrite zlen_cons, Z.geb_leb. pose proof (zlen_nonneg s).
  destruct (Z.leb_spec size (n + 1)).
  - destruct (Z.ltb_spec (n + (1 + zlen s)) size); [lia|done].
  - destruct (Z.ltb_spec (n + 1 + zlen s) size), (Z.ltb_spec (n + (1 + zlen s)) size); try lia; try done.
    destruct s as [|x s]; [rewrite zlen_nil in *; lia|]. by rewrite bool_decide_false.
Qed.

(** ** The search loop *)
Lemma scan_string_length q s rest : scan_string q = Some (s, rest) -> (length rest < length q)%nat.
Proof.
  revert s rest. induction q as [q IH] using (induction_ltof1 _ (@length Z)). unfold ltof in IH.
  intros s rest. destruct q as [|c q]; [done|]. cbn [scan_string length].
  destruct (c =? 34); [intros [= <- <-]; lia|]. destruct (c =? 92).
  - destruct q as [|d q]; [done|]. destruct (scan_string q) as [[s' r']|] eqn:E; [|done].
    intros [= <- <-]. apply IH in E; cbn [length]; lia.
  - destruct (scan_string q) as [[s' r']|] eqn:E; [|done]. intros [= <- <-].
    apply IH in E; cbn [length]; lia.
Qed.

Lemma find_loop_fuel fuel p field :
  (length p <= fuel)%nat -> find_loop fuel p field = find_loop (length p) p field.
Proof.
  revert fuel. induction p as [p IH] using (induction_ltof1 _ (@length Z)). unfold ltof in IH.
  intros fuel Hf. destruct p as [|c p]; [by destruct fuel|]. cbn [length] in *.
  destruct fuel as [|fuel]; [lia|]. cbn [find_loop].
  destruct (negb (c =? 34)); [apply IH; lia|].
  destruct (scan_string p) as [[s rest]|] eqn:E; [|done]. cbn [mbind option_bind].
  apply scan_string_length in E.
  assert (find_loop fuel rest field = find_loop (length p) rest field) as Hrest.
  { rewrite IH by lia. symmetry. apply IH; lia. }
  rewrite Hrest. done.
Qed.

Lemma find_skip c p field : c <> 34 -> json_find_field (c :: p) field = json_find_field p field.
Proof. intros Hc. unfold json_find_field. cbn. by rewrite (proj2 (Z.eqb_neq c 34)). Qed.

Lemma find_string p s rest field :
  scan_string p = Some (s, rest) ->
  json_find_field (34 :: p) field =
  match skip_ws rest with
  | 58 :: v => if bool_decide (s = field) then Some (skip_ws v) else json_find_field rest field
  | _ => json_find_field rest field
  end.
Proof.
  intros E. unfold json_find_field. cbn [length find_loop]. rewrite Z.eqb_refl. cbn [negb].
  rewrite E. cbn [mbind option_bind]. apply scan_string_length in E.
  rewrite (find_loop_fuel (length p) rest) by lia. done.
Qed.

Lemma find_skip_many a p field :
  Forall (fun c => c <> 34) a -> json_find_field (a ++ p) field = json_find_field p field.
Proof. induction 1 as [|c a Hc Ha IH]; [done|]. cbn [app]. by rewrite find_skip. Qed.

(** ** Flat objects as text *)
Inductive jval := JStr (s : bytes) | JNum (n : Z) | JBool (b : bool).

Definition render_val (v : jval) : bytes :=
  match v with
  | JStr s => 34 :: escaped s ++ [34]
  | JNum n => dec n
  | JBool true => [116; 114; 117; 101]
  | JBool false => [102; 97; 108; 115; 101]
  end.
Definition render_field (f : bytes * jval) : bytes := 34 :: f.1 ++ 34 :: 58 :: render_val f.2.
Fixpoint render_fields (fs : list (bytes * jval)) : bytes :=
  match fs with
  | [] => []
  | f :: fs' => match fs' with [] => render_field f | _ => render_field f ++ 44 :: render_fields fs' end
  end.
Definition render_object (fs : list (bytes * jval)) : bytes := 123 :: render_fields fs ++ [125].

Definition val_ok (v : jval) : Prop :=
  match v with
  | JStr s => Forall is_char s
  | JNum n => 0 <= n <= UINT64_MAX
  | JBool _ => True
  end.
Definition key_ok (k : bytes) : Prop := Forall (fun c => c <> 34 /\ c <> 92) k.
Definition field_ok (f : bytes * jval) : Prop := key_ok f.1 /\ val_ok f.2.

Fixpoint lookup_field (field : bytes) (fs : list (bytes * jval)) : option jval :=
  match fs with
  | [] => None
  | f :: fs' => if bool_decide (f.1 = field) then Some f.2 else lookup_field field fs'
  end.

Lemma scan_key k rest : key_ok k -> scan_string (k ++ 34 :: rest) = Some (k, rest).
Proof.
  induction 1 as [|c k [H1 H2] Hk IH]; [done|]. cbn [app]. rewrite scan_plain by done. by rewrite IH.
Qed.

Lemma dec_cons n : 0 <= n <= UINT64_MAX -> exists d ds, dec n = d :: ds /\ is_digit d = true /\ all_digits ds.
Proof.
  intros Hn. destruct (dec_spec n Hn) as (Hd & _ & Hne & _). destruct (dec n) as [|d ds]; [done|].
  inversion Hd; subst. eauto.
Qed.

Lemma skip_ws_val v rest : val_ok v -> skip_ws (render_val v ++ rest) = render_val v ++ rest.
Proof.
  destruct v as [s|n|[]]; intros Hv; try done. cbn [render_val].
  destruct (dec_cons n Hv) as (d & ds & -> & Hd & _). apply is_digit_spec in Hd. cbn [app skip_ws].
  by replace (is_ws d) with false by (unfold is_ws; lia).
Qed.

(** After a value the next byte is a comma or the closing brace. *)
Definition val_end (rest : bytes) : Prop := exists c t, rest = c :: t /\ (c = 44 \/ c = 125).

Lemma find_past_val v rest field :
  val_ok v -> val_end rest ->
  json_find_field (render_val v ++ rest) field = json_find_field rest field.
Proof.
  intros Hv (c & t & -> & Hc). destruct v as [s|n|b]; cbn [render_val].
  - cbn [app]. rewrite <- app_assoc. cbn [app]. rewrite (find_string _ (escaped s) (c :: t)) by (by apply scan_escaped).
    assert (skip_ws (c :: t) = c :: t) as -> by (destruct Hc as [->| ->]; done).
    by destruct Hc as [->| ->].
  - apply find_skip_many. destruct (dec_spec n Hv) as (Hd & _). eapply list.Forall_impl; [exact Hd|].
    intros x Hx%is_digit_spec. lia.
  - destruct b; apply find_skip_many; repeat constructor; lia.
Qed.

Lemma find_field_step f rest field :
  field_ok f -> val_end rest ->
  json_find_field (render_field f ++ rest) field =
  if bool_decide (f.1 = field) then Some (render_val f.2 ++ rest) else json_find_field rest field.
Proof.
  intros [Hk Hv] He. unfold render_field. cbn [app]. rewrite <- app_assoc. cbn [app].
  rewrite (find_string _ f.1 (58 :: render_val f.2 ++ rest)) by (by apply scan_key).
  change (skip_ws (58 :: render_val f.2 ++ rest)) with (58 :: render_val f.2 ++ rest). cbn beta iota.
  rewrite skip_ws_val by done. case_bool_decide; [done|].
  rewrite find_skip by done. by apply find_past_val.
Qed.

Lemma find_fields fs field tail :
  Forall field_ok fs ->
  match lookup_field field fs with
  | Some v => exists rest, json_find_field (render_fields fs ++ 125 :: tail) field = Some (render_val v ++ rest)
                /\ val_end rest /\ val_ok v
  | None => json_find_field (render_fields fs ++ 125 :: tail) field = json_find_field tail field
  end.
Proof.
  induction 1 as [|f fs Hf Hfs IH]; cbn [lookup_field render_fields].
  { cbn [app]. by rewrite find_skip. }
  assert (match fs with [] => render_field f | _ :: _ => render_field f ++ 44 :: render_fields fs end
    ++ 125 :: tail = render_field f ++ match fs with [] => 125 :: tail | _ => 44 :: render_fields fs ++ 125 :: tail end)
    as -> by (destruct fs; [done|by rewrite <- app_assoc]).
  assert (val_end match fs with [] => 125 :: tail | _ => 44 :: render_fields fs ++ 125 :: tail end) as He
    by (destruct fs; eexists _, _; split; eauto).
  rewrite (find_field_step f _ field Hf He). case_bool_decide.
  - eexists. split_and!; [done|done|apply Hf].
  - assert (json_find_field match fs with [] => 125 :: tail | _ => 44 :: render_fields fs ++ 125 :: tail end
      field = json_find_field (render_fields fs ++ 125 :: tail) field) as ->
      by (destruct fs; [done|by rewrite find_skip]).
    exact IH.
Qed.

(** ** The readers on a rendered object *)
Lemma find_object fs field :
  Forall field_ok fs ->
  match lookup_field field fs with
  | Some v => exists rest, json_find_field (render_object fs) field = Some (render_val v ++ rest) /\
                val_end rest /\ val_ok v
  | None => json_find_field (render_object fs) field = None
  end.
Proof.
  intros Hfs. unfold render_object. rewrite find_skip by done. apply (find_fields fs field []). done.
Qed.

Lemma get_string_object fs field s size :
  Forall field_ok fs -> lookup_field field fs = Some (JStr s) ->
  Forall (fun c => short_escape c = true) s -> zlen s < size ->
  json_get_string (render_object fs) field size = Some s.
Proof.
  intros Hfs Hl Hs Hsz. pose proof (find_object fs field Hfs) as Hf. rewrite Hl in Hf.
  destruct Hf as (rest & E & _). unfold json_get_string. rewrite E. cbn [mbind option_bind render_val app].
  rewrite <- app_assoc. cbn [app]. rewrite string_loop_escaped by (done || lia).
  destruct (Z.ltb_spec (0 + zlen s) size); [done|lia].
Qed.

Lemma val_end_digit rest : val_end rest -> digit_start rest = false.
Proof. by intros (c & t & -> & [->| ->]). Qed.

Lemma get_uint64_object fs field n :
  Forall field_ok fs -> lookup_field field fs = Some (JNum n) ->
  json_get_uint64 (render_object fs) field = Some n.
Proof.
  intros Hfs Hl. pose proof (find_object fs field Hfs) as Hf. rewrite Hl in Hf.
  destruct Hf as (rest & E & He & Hn). unfold json_get_uint64. rewrite E. cbn [mbind option_bind render_val].
  destruct (dec_cons n Hn) as (d & ds & Ed & Hd & _). rewrite Ed at 1. cbn [app digit_start]. rewrite Hd.
  rewrite scan_digits_dec; [done|done|by apply val_end_digit].
Qed.

Lemma get_bool_object fs field b :
  Forall field_ok fs -> lookup_field field fs = Some (JBool b) ->
  json_get_bool (render_object fs) field = Some b.
Proof.
  intros Hfs Hl. pose proof (find_object fs field Hfs) as Hf. rewrite Hl in Hf.
  destruct Hf as (rest & E & _ & _). unfold json_get_bool. rewrite E. by destruct b.
Qed.

Lemma get_missing fs field size :
  Forall field_ok fs -> lookup_field field fs = None ->
  json_get_string (render_object fs) field size = None /\
  json_get_uint64 (render_object fs) field = None /\ json_get_bool (render_object fs) field = None.
Proof.
  intros Hfs Hl. pose proof (find_object fs field Hfs) as Hf. rewrite Hl in Hf.
  unfold json_get_string, json_get_uint64, json_get_bool. by rewrite Hf.
Qed.

(** ** Bounds *)
Lemma string_loop_fits m p n size r :
  (length p <= m)%nat -> n < size -> string_loop p n size = Some r -> n + zlen r < size.
Proof.
  revert p n r. induction m as [|m IH]; intros p n r Hm Hn; [by destruct p; [|cbn in Hm; lia]|].
  destruct p as [|c p1]; [done|].
  assert (forall x q t, (length q <= m)%nat ->
    (if n + 1 >=? size then None else cons x <$> string_loop q (n + 1) size) = Some t -> n + zlen t < size) as Hemit.
  { intros x q t Hq. destruct (Z.geb_spec (n + 1) size); [done|]. destruct (string_loop q (n + 1) size) as [t'|] eqn:E; [|done].
    intros [= <-]. apply IH in E; [zl|done|lia]. }
  cbn [string_loop]. cbn in Hm. destruct (c =? 34); [intros [= <-]; zl|].
  destruct (c =? 92); [|apply Hemit; lia]. destruct p1 as [|d p2]; [apply Hemit; cbn; lia|]. cbn in Hm.
  destruct (d =? 117); [|apply Hemit; lia]. destruct p2 as [|? [|? [|? [|? p6]]]]; apply Hemit; cbn in *; lia.
Qed.

Lemma json_get_string_fits body field size r : 0 < size -> json_get_string body field size = Some r -> zlen r < size.
Proof.
  intros Hs. unfold json_get_string. destruct (json_find_field body field) as [p|]; [|done]. cbn [mbind option_bind].
  destruct p as [|c p]; [done|]. destruct (decide (c = 34)) as [->|Hc].
  - intros E. apply (string_loop_fits _ _ _ _ _ (le_n _)) in E; lia.
  - repeat case_match; done.
Qed.
