(* ===== verification/Jwt.v ===== *)
(** * JSON web tokens (server/src/jwt.c)

    Base64url, token creation and verification. [hmac] stands for
    [crypto_hmac_sha256], an OpenSSL call: [None] when it fails, else the 32
    bytes of the tag. The clock and the secret are arguments. *)
From Stdlib Require Import String.
From S2P Require Import Prelude Text Json.

Local Open Scope Z_scope.

(** The new secret and the result. [env_secret] is [env_str]'s answer (empty
    when unset), [random] what [secure_random_bytes] drew for 32 bytes. *)
Definition jwt_init (secret env_secret : bytes) (random : option bytes) : bytes * Z :=
  match env_secret with
  | _ :: _ => (take 64 env_secret, 0)
  | [] => match random with
          | None => (secret, -1)
          | Some r => (r, 0)
          end
  end.

Definition B64URL : bytes :=
  str "ABCDEFGHIJKLMNOPQRSTUVWXYZabcdefghijklmnopqrstuvwxyz0123456789-_".
Definition b64_char (v : Z) : Z := default 0 (znth B64URL v).

(** The six-bit group of [v] that starts [k] bits up. *)
Definition six (v k : Z) : Z := Z.land (Z.shiftr v k) 63.

Fixpoint encode_loop (l : bytes) (o out_size : Z) : option bytes :=
  match l with
  | a :: b :: c :: l' =>
      let v := Z.lor (Z.lor (Z.shiftl a 16) (Z.shiftl b 8)) c in
      if o + 4 >=? out_size then None else
      rest ← encode_loop l' (o + 4) out_size;
      Some ([b64_char (six v 18); b64_char (six v 12); b64_char (six v 6); b64_char (six v 0)] ++ rest)
  | [a] =>
      let v := Z.shiftl a 16 in
      if o + 2 >=? out_size then None
      else Some [b64_char (six v 18); b64_char (six v 12)]
  | [a; b] =>
      let v := Z.lor (Z.shiftl a 16) (Z.shiftl b 8) in
      if o + 3 >=? out_size then None
      else Some [b64_char (six v 18); b64_char (six v 12); b64_char (six v 6)]
  | [] => if o >=? out_size then None else Some []
  end.

Definition b64url_encode (l : bytes) (out_size : Z) : option bytes := encode_loop l 0 out_size.

Definition b64url_value (c : Z) : Z :=
  if (65 <=? c) && (c <=? 90) then c - 65
  else if (97 <=? c) && (c <=? 122) then c - 97 + 26
  else if (48 <=? c) && (c <=? 57) then c - 48 + 52
  else if c =? 45 then 62
  else if c =? 95 then 63
  else -1.

Fixpoint decode_loop (l : bytes) (acc bits o out_size : Z) : option bytes :=
  match l with
  | [] => Some []
  | c :: l' =>
      let v := b64url_value c in
      if v <? 0 then None else
      let acc := Z.lor (u32 (Z.shiftl acc 6)) v in
      let bits := bits + 6 in
      if bits >=? 8 then
        let bits := bits - 8 in
        if o >=? out_size then None
        else cons (Z.land (Z.shiftr acc bits) 255) <$> decode_loop l' acc bits (o + 1) out_size
      else decode_loop l' acc bits o out_size
  end.

Definition b64url_decode (l : bytes) (out_size : Z) : option bytes :=
  if zlen l mod 4 =? 1 then None else decode_loop l 0 0 0 out_size.

(** [%lld] *)
Definition dec_signed (z : Z) : bytes := if z <? 0 then 45 :: dec (- z) else dec z.

Definition jwt_header : bytes :=
  [123; 34] ++ str "alg" ++ [34; 58; 34] ++ str "HS256" ++ [34; 44; 34] ++ str "typ" ++
  [34; 58; 34] ++ str "JWT" ++ [34; 125].

Definition jwt_payload (user_id : Z) (username : bytes) (now ttl : Z) : bytes :=
  [123; 34] ++ str "sub" ++ [34; 58; 34] ++ username ++ [34; 44; 34] ++ str "uid" ++ [34; 58] ++
  dec user_id ++ [44; 34] ++ str "iat" ++ [34; 58] ++ dec_signed now ++ [44; 34] ++ str "exp" ++
  [34; 58] ++ dec_signed (now + ttl) ++ [125].

Inductive jwt_result := JWT_OK (user_id : Z) (username : bytes) | JWT_INVALID | JWT_EXPIRED.

(** [strchr] for a dot: what is before it and what follows. *)
Fixpoint split_dot (l : bytes) : option (bytes * bytes) :=
  match l with
  | [] => None
  | c :: l' => if c =? 46 then Some ([], l') else '(a, b) ← split_dot l'; Some (c :: a, b)
  end.

(** The accumulated difference of two tags. *)
Fixpoint tag_diff (a b : bytes) (diff : Z) : Z :=
  match a, b with
  | x :: a', y :: b' => tag_diff a' b' (Z.lor diff (Z.lxor x y))
  | _, _ => diff
  end.

Section jwt.
Context (hmac : bytes -> bytes -> option bytes) (secret : bytes).

(** The token, or [None] for -1. *)
Definition jwt_create (user_id : Z) (username : bytes) (now ttl out_size : Z) : option bytes :=
  if zlen secret =? 0 then None else
  let payload := jwt_payload user_id username now ttl in
  if zlen payload >=? 256 then None else
  header_b64 ← b64url_encode jwt_header 512;
  if zlen header_b64 + 1 >=? 512 then None else
  payload_b64 ← b64url_encode payload (512 - zlen header_b64 - 1);
  let signing_input := header_b64 ++ 46 :: payload_b64 in
  mac ← hmac secret signing_input;
  sig_b64 ← b64url_encode mac 64;
  let out := signing_input ++ 46 :: sig_b64 in
  if zlen out >=? out_size then None else Some out.

Definition jwt_verify (token : bytes) (now username_size : Z) : jwt_result :=
  if zlen secret =? 0 then JWT_INVALID else
  match split_dot token with
  | None => JWT_INVALID
  | Some (h, after1) =>
      match split_dot after1 with
      | None => JWT_INVALID
      | Some (p, sig) =>
          match split_dot sig with
          | Some _ => JWT_INVALID
          | None =>
              match hmac secret (h ++ 46 :: p) with
              | None => JWT_INVALID
              | Some expected =>
                  match b64url_decode sig 32 with
                  | None => JWT_INVALID
                  | Some presented =>
                      if negb (zlen presented =? 32) then JWT_INVALID else
                      if negb (tag_diff expected presented 0 =? 0) then JWT_INVALID else
                      match b64url_decode p 512 with
                      | None => JWT_INVALID
                      | Some payload =>
                          match json_get_uint64 payload (str "uid"), json_get_uint64 payload (str "exp"),
                                json_get_string payload (str "sub") username_size with
                          | Some uid, Some exp, Some username =>
                              if u64 now >=? exp then JWT_EXPIRED else JWT_OK uid username
                          | _, _, _ => JWT_INVALID
                          end
                      end
                  end
              end
          end
      end
  end.
End jwt.

(** ** Base64url round trip *)
Lemma b64_char_value v : 0 <= v < 64 -> b64url_value (b64_char v) = v /\ b64_char v <> 46.
Proof.
  intros Hv. assert (forallb (fun v => (b64url_value (b64_char (Z.of_nat v)) =? Z.of_nat v) &&
    negb (b64_char (Z.of_nat v) =? 46)) (seq 0 64) = true) as H by reflexivity.
  rewrite forallb_forall in H. specialize (H (Z.to_nat v)). rewrite Z2Nat.id in H by lia.
  apply andb_true_iff in H as [H1 H2]; [|apply in_seq; lia]. lia.
Qed.

Lemma six_range v k : 0 <= six v k < 64.
Proof. unfold six. change 63 with (Z.ones 6). rewrite Z.land_ones by lia. apply Z.mod_pos_bound. lia. Qed.

Lemma six_arith v k : 0 <= k -> six v k = (v / 2 ^ k) mod 64.
Proof. intros. unfold six. change 63 with (Z.ones 6). rewrite Z.land_ones, Z.shiftr_div_pow2 by lia. done. Qed.

Lemma pack3 a b c :
  0 <= b < 256 -> 0 <= c < 256 ->
  Z.lor (Z.lor (Z.shiftl a 16) (Z.shiftl b 8)) c = a * 65536 + b * 256 + c.
Proof.
  intros Hb Hc.
  assert (Z.lor (Z.shiftl a 16) (Z.shiftl b 8) = Z.shiftl (a * 256 + b) 8) as ->.
  { change 256 with (2 ^ 8). rewrite <- (lor_disjoint a b 8) by lia. rewrite Z.shiftl_lor, Z.shiftl_shiftl by lia. done. }
  rewrite (lor_disjoint _ c 8) by lia. lia.
Qed.

Lemma pack2 a b : 0 <= b < 256 -> Z.lor (Z.shiftl a 16) (Z.shiftl b 8) = a * 65536 + b * 256.
Proof. intros Hb. rewrite <- (Z.lor_0_r (Z.lor _ _)), (pack3 a b 0) by lia. lia. Qed.

(** One six-bit group into the accumulator. *)
Definition push6 (acc v : Z) : Z := Z.lor (u32 (Z.shiftl acc 6)) v.

Lemma push6_arith acc v : 0 <= v < 64 -> push6 acc v = (acc mod 2 ^ 26) * 64 + v.
Proof.
  intros Hv. unfold push6, u32, uwrap. rewrite Z.shiftl_mul_pow2 by lia.
  replace ((acc * 2 ^ 6) mod 2 ^ 32) with (Z.shiftl (acc mod 2 ^ 26) 6).
  - by rewrite lor_disjoint by lia.
  - rewrite Z.shiftl_mul_pow2 by lia. change (2 ^ 32) with (2 ^ 26 * 2 ^ 6).
    by rewrite Zmult_mod_distr_r.
Qed.

(** The four positions of a group: the first character only fills the
    accumulator, the others give a byte each. *)
Lemma decode_first v l acc o size :
  0 <= v < 64 -> decode_loop (b64_char v :: l) acc 0 o size = decode_loop l (push6 acc v) 6 o size.
Proof.
  intros Hv. cbn [decode_loop]. destruct (b64_char_value v Hv) as [-> _].
  destruct (Z.ltb_spec v 0); [lia|]. done.
Qed.

Lemma decode_next bits bits' v l acc o size :
  0 <= v < 64 -> 2 <= bits -> bits' = bits - 2 -> o < size ->
  decode_loop (b64_char v :: l) acc bits o size =
  cons (Z.land (Z.shiftr (push6 acc v) bits') 255) <$> decode_loop l (push6 acc v) bits' (o + 1) size.
Proof.
  intros Hv Hb -> Ho. cbn [decode_loop]. destruct (b64_char_value v Hv) as [-> _].
  destruct (Z.ltb_spec v 0); [lia|]. destruct (Z.geb_spec (bits + 6) 8); [|lia].
  destruct (Z.geb_spec o size); [lia|]. by replace (bits + 6 - 8) with (bits - 2) by lia.
Qed.

Lemma low_byte x k : 0 <= k -> Z.land (Z.shiftr x k) 255 = (x / 2 ^ k) mod 256.
Proof. intros. change 255 with (Z.ones 8). rewrite Z.land_ones, Z.shiftr_div_pow2 by lia. done. Qed.

(** The four groups of three bytes decode to them. *)
Lemma groups_arith acc a b c v1 v2 v3 v4 :
  is_byte a -> is_byte b -> is_byte c ->
  v1 = a / 4 -> v2 = (a mod 4) * 16 + b / 16 -> v3 = (b mod 16) * 4 + c / 64 -> v4 = c mod 64 ->
  let acc2 := push6 (push6 acc v1) v2 in let acc3 := push6 acc2 v3 in
  Z.land (Z.shiftr acc2 4) 255 = a /\ Z.land (Z.shiftr acc3 2) 255 = b /\
  Z.land (Z.shiftr (push6 acc3 v4) 0) 255 = c.
Proof.
  intros Ha Hb Hc E1 E2 E3 E4 acc2 acc3. unfold is_byte in *.
  assert (0 <= v1 < 64) by zdiv. assert (0 <= v2 < 64) by zdiv. assert (0 <= v3 < 64) by zdiv.
  assert (0 <= v4 < 64) by zdiv.
  assert (acc2 = (push6 acc v1 mod 2 ^ 26) * 64 + v2) as A2 by (by apply push6_arith).
  assert (acc3 = (acc2 mod 2 ^ 26) * 64 + v3) as A3 by (by apply push6_arith).
  assert (push6 acc3 v4 = (acc3 mod 2 ^ 26) * 64 + v4) as A4 by (by apply push6_arith).
  rewrite push6_arith in A2 by done.
  clearbody acc2 acc3. rewrite !low_byte by lia. rewrite A4.
  change (2 ^ 26) with 67108864 in *. change (2 ^ 4) with 16. change (2 ^ 2) with 4. change (2 ^ 0) with 1.
  split_and!.
  - rewrite A2. zdiv.
  - rewrite A3. clear A3 A4. subst acc2. zdiv.
  - clear A2. subst acc3. zdiv.
Qed.

Lemma six_groups a b c v :
  is_byte a -> is_byte b -> is_byte c -> v = a * 65536 + b * 256 + c ->
  six v 18 = a / 4 /\ six v 12 = (a mod 4) * 16 + b / 16 /\ six v 6 = (b mod 16) * 4 + c / 64 /\
  six v 0 = c mod 64.
Proof.
  unfold is_byte. intros Ha Hb Hc ->. rewrite !six_arith by lia.
  change (2 ^ 18) with 262144. change (2 ^ 12) with 4096. change (2 ^ 6) with 64. change (2 ^ 0) with 1.
  split_and!; zdiv.
Qed.

Lemma group_bytes acc a b c v :
  is_byte a -> is_byte b -> is_byte c -> v = a * 65536 + b * 256 + c ->
  let acc2 := push6 (push6 acc (six v 18)) (six v 12) in let acc3 := push6 acc2 (six v 6) in
  Z.land (Z.shiftr acc2 4) 255 = a /\ Z.land (Z.shiftr acc3 2) 255 = b /\
  Z.land (Z.shiftr (push6 acc3 (six v 0)) 0) 255 = c.
Proof.
  intros Ha Hb Hc Hv. destruct (six_groups a b c v Ha Hb Hc Hv) as (E1 & E2 & E3 & E4).
  by apply (groups_arith acc a b c).
Qed.

(** What the encoder writes decodes to the bytes it read, whatever an earlier
    group left in the accumulator. *)
Lemma encode_decode_loop n l o size e :
  (length l <= n)%nat -> Forall is_byte l -> encode_loop l o size = Some e ->
  forall acc p m, p + zlen l <= m -> decode_loop e acc 0 p m = Some l.
Proof.
  assert (is_byte 0) as H0 by (unfold is_byte; lia).
  revert l o e. induction n as [|n IH]; intros l o e Hn Hl He acc p m Hm.
  { destruct l; [|cbn in Hn; lia]. cbn in He. case_match; simplify_eq. done. }
  destruct l as [|a [|b [|c l]]]; cbn [encode_loop] in He; rewrite ?zlen_cons in Hm.
  - case_match; simplify_eq. done.
  - apply Forall_inv in Hl. case_match; [done|]. apply (inj Some) in He as <-.
    destruct (group_bytes acc a 0 0 (Z.shiftl a 16)) as (D1 & _); [done..|rewrite Z.shiftl_mul_pow2; lia|].
    rewrite decode_first by apply six_range.
    rewrite (decode_next 6 4) by (apply six_range || zl). by rewrite D1.
  - pose proof (Forall_inv Hl) as Ha. pose proof (Forall_inv (Forall_inv_tail Hl)) as Hb.
    case_match; [done|]. apply (inj Some) in He as <-.
    destruct (group_bytes acc a b 0 (Z.lor (Z.shiftl a 16) (Z.shiftl b 8))) as (D1 & D2 & _);
      [done..|rewrite pack2; [lia|done]|].
    rewrite decode_first by apply six_range.
    rewrite (decode_next 6 4), (decode_next 4 2) by (apply six_range || zl). by rewrite D1, D2.
  - pose proof (Forall_inv Hl) as Ha. apply Forall_inv_tail in Hl.
    pose proof (Forall_inv Hl) as Hb. apply Forall_inv_tail in Hl.
    pose proof (Forall_inv Hl) as Hc. apply Forall_inv_tail in Hl.
    set (v := Z.lor (Z.lor (Z.shiftl a 16) (Z.shiftl b 8)) c) in *. cbn zeta in He.
    case_match; [done|]. destruct (encode_loop l (o + 4) size) as [rest|] eqn:Er; [|done].
    apply (inj Some) in He as <-. cbn [app].
    destruct (group_bytes acc a b c v) as (D1 & D2 & D3); [done..|by apply pack3|].
    rewrite decode_first by apply six_range.
    rewrite (decode_next 6 4), (decode_next 4 2), (decode_next 2 0) by (apply six_range || zl).
    rewrite D1, D2, D3.
    rewrite (IH l _ _ ltac:(cbn in Hn; lia) Hl Er) by zl. done.
Qed.

Lemma encode_loop_chars n l o size e :
  (length l <= n)%nat -> encode_loop l o size = Some e ->
  Forall (fun c => c <> 46) e /\ zlen e mod 4 <> 1 /\ 0 < size - o - zlen e /\
  3 * zlen e <= 4 * zlen l + 2.
Proof.
  revert l o e. induction n as [|n IH]; intros l o e Hn He.
  { destruct l; [|cbn in Hn; lia]. cbn in He. destruct (Z.geb_spec o size); simplify_eq. split_and!; [constructor|done|zl..]. }
  assert (forall v k, b64_char (six v k) <> 46) as Hd by (intros; apply b64_char_value, six_range).
  destruct l as [|a [|b [|c l]]]; cbn [encode_loop] in He.
  - destruct (Z.geb_spec o size); simplify_eq. split_and!; [constructor|done|zl..].
  - destruct (Z.geb_spec (o + 2) size); [done|]. apply (inj Some) in He as <-.
    split_and!; [repeat (constructor; [apply Hd|]); constructor|by vm_compute|zl..].
  - destruct (Z.geb_spec (o + 3) size); [done|]. apply (inj Some) in He as <-.
    split_and!; [repeat (constructor; [apply Hd|]); constructor|by vm_compute|zl..].
  - destruct (Z.geb_spec (o + 4) size); [done|].
    destruct (encode_loop l (o + 4) size) as [rest|] eqn:Er; [|done].
    apply (inj Some) in He as <-. apply IH in Er as (H1 & H2 & H3 & H4); [|cbn in Hn; lia]. cbn [app].
    split_and!; [repeat (constructor; [apply Hd|]); done| |zl..]. rewrite !zlen_cons. zdiv.
Qed.

Lemma b64url_roundtrip l size e m :
  Forall is_byte l -> b64url_encode l size = Some e -> zlen l <= m -> b64url_decode e m = Some l.
Proof.
  intros Hl He Hm. unfold b64url_decode.
  destruct (encode_loop_chars (length l) l 0 size e) as (_ & H & _); [done|done|].
  destruct (Z.eqb_spec (zlen e mod 4) 1); [done|].
  by apply (encode_decode_loop (length l) l 0 size e).
Qed.

(** ** Tokens *)
Lemma tag_diff_mono a b d : tag_diff a b d = 0 -> d = 0.
Proof.
  revert b d. induction a as [|x a IH]; intros [|y b] d H; [done..|].
  cbn in H. apply IH in H. by apply Z.lor_eq_0_iff in H as [-> _].
Qed.

Lemma tag_diff_eq a b : length a = length b -> tag_diff a b 0 = 0 <-> a = b.
Proof.
  intros Hl. split.
  - revert b Hl. induction a as [|x a IH]; intros [|y b] Hl H; [done..|]. cbn in H, Hl.
    pose proof (tag_diff_mono _ _ _ H) as E. rewrite E in H. rewrite Z.lor_0_l in E.
    apply Z.lxor_eq in E as ->. f_equal. apply IH; [lia|done].
  - intros <-. clear Hl. induction a as [|x a IH]; [done|]. cbn. by rewrite Z.lxor_nilpotent.
Qed.

Lemma split_dot_spec a b : Forall (fun c => c <> 46) a -> split_dot (a ++ 46 :: b) = Some (a, b).
Proof.
  induction 1 as [|c a Hc Ha IH]; [done|]. cbn. destruct (Z.eqb_spec c 46); [done|]. cbn in IH. by rewrite IH.
Qed.

Lemma split_dot_none a : Forall (fun c => c <> 46) a -> split_dot a = None.
Proof. induction 1 as [|c a Hc Ha IH]; [done|]. cbn. destruct (Z.eqb_spec c 46); [done|]. by rewrite IH. Qed.

Lemma split_dot_inv l a b : split_dot l = Some (a, b) -> l = a ++ 46 :: b.
Proof.
  revert a b. induction l as [|c l IH]; intros a b H; [done|]. cbn in H.
  destruct (Z.eqb_spec c 46) as [->|]; [by simplify_eq|].
  destruct (split_dot l) as [[a' b']|]; [|done]. cbn in H. simplify_eq. cbn. by rewrite (IH _ _ eq_refl).
Qed.

(** Characters that [jwt_create] can copy into the payload unescaped. *)
Definition plain (c : Z) : Prop := 32 <= c < 256 /\ c <> 34 /\ c <> 92.

Lemma escaped_plain u : Forall plain u -> escaped u = u.
Proof.
  induction 1 as [|c u Hc Hu IH]; [done|]. cbn [escaped flat_map]. fold (escaped u). rewrite IH.
  unfold plain in Hc. unfold escape_char.
  repeat (rewrite (proj2 (Z.eqb_neq _ _)) by lia). rewrite (proj2 (Z.ltb_ge _ _)) by lia. done.
Qed.

Definition claims (user_id : Z) (username : bytes) (now ttl : Z) : list (bytes * jval) :=
  [(str "sub", JStr username); (str "uid", JNum user_id); (str "iat", JNum now); (str "exp", JNum (now + ttl))].

Lemma jwt_payload_object user_id username now ttl :
  Forall plain username -> 0 <= now -> 0 <= now + ttl ->
  jwt_payload user_id username now ttl = render_object (claims user_id username now ttl).
Proof.
  intros Hu Hn Ht. unfold jwt_payload, render_object, dec_signed. cbn [claims render_fields].
  destruct (Z.ltb_spec now 0); [lia|]. destruct (Z.ltb_spec (now + ttl) 0); [lia|].
  unfold render_field, render_val. cbn [fst snd]. rewrite escaped_plain by done.
  cbn [app]. rewrite <- !app_assoc. cbn. rewrite <- !app_assoc. cbn. rewrite <- !app_assoc. done.
Qed.

Lemma plain_weaken u :
  Forall plain u -> Forall is_byte u /\ Forall is_char u /\ Forall (fun c => short_escape c = true) u.
Proof.
  intros Hu. split_and!; eapply list.Forall_impl; try done; unfold plain, is_byte, is_char, short_escape; lia.
Qed.

Lemma dec_bytes n : 0 <= n <= UINT64_MAX -> Forall is_byte (dec n).
Proof.
  intros Hn. destruct (dec_spec n Hn) as (Hd & _). eapply list.Forall_impl; [done|].
  intros c Hc%is_digit_spec. unfold is_byte. lia.
Qed.

Lemma claims_ok user_id username now ttl :
  Forall plain username -> 0 <= user_id <= UINT64_MAX -> 0 <= now <= UINT64_MAX ->
  0 <= now + ttl <= UINT64_MAX ->
  Forall field_ok (claims user_id username now ttl).
Proof.
  intros Hu Hi Hn Ht. apply plain_weaken in Hu as (_ & Hu & _).
  repeat constructor; cbn; (done || lia).
Qed.

Lemma payload_bytes user_id username now ttl :
  Forall plain username -> 0 <= user_id <= UINT64_MAX -> 0 <= now <= UINT64_MAX ->
  0 <= now + ttl <= UINT64_MAX -> Forall is_byte (jwt_payload user_id username now ttl).
Proof.
  intros Hu Hi Hn Ht. apply plain_weaken in Hu as (Hu & _).
  unfold jwt_payload, dec_signed. destruct (Z.ltb_spec now 0); [lia|].
  destruct (Z.ltb_spec (now + ttl) 0); [lia|].
  rewrite !list.Forall_app. split_and!; try (by apply dec_bytes); try done;
    apply (bool_decide_unpack _); vm_compute; exact I.
Qed.

Section tokens.
Context (hmac : bytes -> bytes -> option bytes) (secret : bytes).
Context (hmac_tag : forall k m t, hmac k m = Some t -> Forall is_byte t /\ zlen t = 32).

Lemma jwt_create_shape user_id username now ttl out_size tok :
  jwt_create hmac secret user_id username now ttl out_size = Some tok ->
  secret <> [] /\ zlen (jwt_payload user_id username now ttl) < 256 /\
  exists h p sg mac,
    b64url_encode jwt_header 512 = Some h /\
    b64url_encode (jwt_payload user_id username now ttl) (512 - zlen h - 1) = Some p /\
    hmac secret (h ++ 46 :: p) = Some mac /\ b64url_encode mac 64 = Some sg /\
    tok = h ++ 46 :: p ++ 46 :: sg /\ zlen tok < out_size.
Proof using.
  clear hmac_tag. unfold jwt_create. intros H.
  destruct (Z.eqb_spec (zlen secret) 0) as [|Hs]; [done|].
  destruct (Z.geb_spec (zlen (jwt_payload user_id username now ttl)) 256); [done|].
  destruct (b64url_encode jwt_header 512) as [h|]; [|done]. cbn [mbind option_bind] in H.
  case_match; [done|]. destruct (b64url_encode _ (512 - zlen h - 1)) as [p|] eqn:Ep; [|done]. cbn [mbind option_bind] in H.
  destruct (hmac secret _) as [mac|] eqn:Em; [|done]. cbn [mbind option_bind] in H.
  destruct (b64url_encode mac 64) as [sg|] eqn:Eg; [|done]. cbn [mbind option_bind] in H.
  destruct (Z.geb_spec (zlen ((h ++ 46 :: p) ++ 46 :: sg)) out_size); [done|]. apply (inj Some) in H as <-.
  split_and!; [by intros ->|lia|]. exists h, p, sg, mac. split_and!; try done.
  by rewrite <- app_assoc.
Qed.

(** What verification computes for a token of three encoded parts. *)
Lemma jwt_verify_parts h p sg mac payload now size hb pb nh np :
  secret <> [] -> b64url_encode hb nh = Some h -> b64url_encode pb np = Some p ->
  b64url_encode mac 64 = Some sg -> hmac secret (h ++ 46 :: p) = Some mac ->
  b64url_decode p 512 = Some payload ->
  jwt_verify hmac secret (h ++ 46 :: p ++ 46 :: sg) now size =
  match json_get_uint64 payload (str "uid"), json_get_uint64 payload (str "exp"),
        json_get_string payload (str "sub") size with
  | Some uid, Some exp, Some username =>
      if u64 now >=? exp then JWT_EXPIRED else JWT_OK uid username
  | _, _, _ => JWT_INVALID
  end.
Proof using hmac_tag.
  intros Hs Hh Hp Hg Hm Hd. unfold jwt_verify.
  destruct (Z.eqb_spec (zlen secret) 0) as [Hz|_]; [by destruct secret; [|zl]|].
  destruct (encode_loop_chars _ _ _ _ _ (le_n _) Hh) as (Dh & _).
  destruct (encode_loop_chars _ _ _ _ _ (le_n _) Hp) as (Dp & _).
  destruct (encode_loop_chars _ _ _ _ _ (le_n _) Hg) as (Dg & _).
  rewrite split_dot_spec, split_dot_spec, split_dot_none by done. rewrite Hm.
  destruct (hmac_tag _ _ _ Hm) as [Hb Hl].
  rewrite (b64url_roundtrip mac 64 sg 32) by (done || lia). rewrite Hl. cbn [negb Z.eqb].
  replace (tag_diff mac mac 0 =? 0) with true by (symmetry; apply Z.eqb_eq; by apply tag_diff_eq).
  cbn [negb]. by rewrite Hd.
Qed.

Lemma jwt_create_verify user_id username now ttl out_size tok now' size :
  Forall plain username -> 0 <= user_id <= UINT64_MAX -> 0 <= now <= UINT64_MAX ->
  0 <= now + ttl <= UINT64_MAX -> zlen username < size -> 0 <= now' <= UINT64_MAX ->
  jwt_create hmac secret user_id username now ttl out_size = Some tok ->
  jwt_verify hmac secret tok now' size =
  if now' >=? now + ttl then JWT_EXPIRED else JWT_OK user_id username.
Proof using hmac_tag.
  intros Hu Hi Hn Ht Hsz Hn' H. apply jwt_create_shape in H as (Hs & Hl & h & p & sg & mac & Hh & Hp & Hm & Hg & -> & _).
  rewrite (jwt_verify_parts h p sg mac (jwt_payload user_id username now ttl) _ _ _ _ _ _ Hs Hh Hp Hg Hm).
  - rewrite jwt_payload_object by (done || lia).
    pose proof (claims_ok user_id username now ttl Hu Hi Hn Ht) as Hok.
    rewrite (get_uint64_object _ (str "uid") user_id), (get_uint64_object _ (str "exp") (now + ttl)),
      (get_string_object _ (str "sub") username) by (done || by apply plain_weaken).
    rewrite u64_small; [done|]. unfold UINT64_MAX in *. lia.
  - eapply b64url_roundtrip; [by apply payload_bytes|done|lia].
Qed.

(** An accepted token carries the tag of its first two parts. *)
Lemma jwt_verify_sound tok now size uid username :
  jwt_verify hmac secret tok now size = JWT_OK uid username ->
  exists h p sg mac payload exp,
    tok = h ++ 46 :: p ++ 46 :: sg /\ hmac secret (h ++ 46 :: p) = Some mac /\
    b64url_decode sg 32 = Some mac /\ b64url_decode p 512 = Some payload /\
    json_get_uint64 payload (str "uid") = Some uid /\ json_get_uint64 payload (str "exp") = Some exp /\
    json_get_string payload (str "sub") size = Some username /\ u64 now < exp.
Proof using hmac_tag.
  unfold jwt_verify. intros H. case_match; [done|].
  destruct (split_dot tok) as [[h a1]|] eqn:E1; [|done]. apply split_dot_inv in E1 as ->.
  destruct (split_dot a1) as [[p sg]|] eqn:E2; [|done]. apply split_dot_inv in E2 as ->.
  destruct (split_dot sg); [done|]. destruct (hmac secret (h ++ 46 :: p)) as [mac|] eqn:Em; [|done].
  destruct (b64url_decode sg 32) as [pr|] eqn:Es; [|done].
  destruct (Z.eqb_spec (zlen pr) 32) as [Hl|]; [|done]. cbn [negb] in H.
  destruct (Z.eqb_spec (tag_diff mac pr 0) 0) as [Ht|]; [|done]. cbn [negb] in H.
  apply tag_diff_eq in Ht as <-; [|pose proof (proj2 (hmac_tag _ _ _ Em)); unfold zlen in *; lia].
  destruct (b64url_decode p 512) as [payload|] eqn:Ep; [|done].
  destruct (json_get_uint64 payload (str "uid")) as [u|] eqn:Eu; [|done].
  destruct (json_get_uint64 payload (str "exp")) as [ex|] eqn:Ex; [|done].
  destruct (json_get_string payload (str "sub") size) as [un|] eqn:En; [|done].
  destruct (Z.geb_spec (u64 now) ex); [done|]. simplify_eq.
  by exists h, p, sg, mac, payload, ex.
Qed.
End tokens.

(** ** Tokens are made *)
Lemma encode_loop_total n l o size :
  (length l <= n)%nat -> 3 * (size - o) > 4 * zlen l + 2 -> is_Some (encode_loop l o size).
Proof.
  revert l o. induction n as [|n IH]; intros l o Hn Hs.
  { destruct l; [|cbn in Hn; lia]. cbn. destruct (Z.geb_spec o size); [zl|by eexists]. }
  destruct l as [|a [|b [|c l]]]; cbn [encode_loop].
  - destruct (Z.geb_spec o size); [zl|by eexists].
  - destruct (Z.geb_spec (o + 2) size); [zl|by eexists].
  - destruct (Z.geb_spec (o + 3) size); [zl|by eexists].
  - pose proof (zlen_nonneg l). destruct (Z.geb_spec (o + 4) size); [zl|].
    destruct (IH l (o + 4)) as [r ->]; [cbn in Hn; lia|zl|]. by eexists.
Qed.

Lemma jwt_create_total hmac secret user_id username now ttl :
  secret <> [] -> zlen username < 64 -> 0 <= user_id <= UINT64_MAX -> 0 <= now <= UINT64_MAX -> 0 <= now + ttl <= UINT64_MAX ->
  (forall m t, hmac secret m = Some t -> zlen t = 32) ->
  match jwt_create hmac secret user_id username now ttl 512 with
  | Some tok => zlen tok <= 400
  | None => exists m, hmac secret m = None
  end.
Proof.
  intros Hs Hu Hi Hn Ht Hh. unfold jwt_create. destruct (Z.eqb_spec (zlen secret) 0) as [Hz|_]; [by apply zlen_0_nil in Hz|].
  assert (zlen (jwt_payload user_id username now ttl) <= 180) as Hp.
  { unfold jwt_payload, dec_signed. destruct (Z.ltb_spec now 0); [lia|]. destruct (Z.ltb_spec (now + ttl) 0); [lia|].
    destruct (dec_spec user_id Hi) as (_ & _ & _ & L1). destruct (dec_spec now Hn) as (_ & _ & _ & L2).
    destruct (dec_spec (now + ttl) Ht) as (_ & _ & _ & L3). rewrite !zlen_app.
    change (zlen (str "sub")) with 3. change (zlen (str "uid")) with 3. change (zlen (str "iat")) with 3. change (zlen (str "exp")) with 3.
    rewrite ?zlen_cons, ?zlen_nil. lia. }
  destruct (Z.geb_spec (zlen (jwt_payload user_id username now ttl)) 256) as [|_]; [lia|].
  destruct (b64url_encode jwt_header 512) as [h|] eqn:Eh; [|vm_compute in Eh; discriminate]. cbn [mbind option_bind].
  destruct (encode_loop_chars _ _ _ _ _ (le_n _) Eh) as (_ & _ & _ & Lh). change (zlen jwt_header) with 27 in Lh.
  destruct (Z.geb_spec (zlen h + 1) 512) as [|_]; [lia|]. set (payload := jwt_payload user_id username now ttl) in *.
  destruct (encode_loop_total _ payload 0 (512 - zlen h - 1) (le_n _) ltac:(lia)) as [pb Ep].
  change (encode_loop payload 0 (512 - zlen h - 1)) with (b64url_encode payload (512 - zlen h - 1)) in Ep. rewrite Ep. cbn [mbind option_bind].
  destruct (encode_loop_chars _ _ _ _ _ (le_n _) Ep) as (_ & _ & _ & Lp).
  destruct (hmac secret (h ++ 46 :: pb)) as [mac|] eqn:Em; cbn [mbind option_bind]; [|by eexists]. pose proof (Hh _ _ Em) as Lm.
  destruct (encode_loop_total _ mac 0 64 (le_n _) ltac:(lia)) as [sg Eg].
  change (encode_loop mac 0 64) with (b64url_encode mac 64) in Eg. rewrite Eg. cbn [mbind option_bind].
  destruct (encode_loop_chars _ _ _ _ _ (le_n _) Eg) as (_ & _ & _ & Lg).
  assert (zlen ((h ++ 46 :: pb) ++ 46 :: sg) <= 400) as Hl by (rewrite !zlen_app, !zlen_cons; lia).
  destruct (Z.geb_spec (zlen ((h ++ 46 :: pb) ++ 46 :: sg)) 512); [lia|done].
Qed.
