(* ===== verification/TodoIndex.v ===== *)
(** * The todo key space and the owner index (api/src/todo_index.c)

    The module is a client of the key-value API: it is written against the
    interface [KvStore] (transactions, insert, delete, scan), and its theorems
    against the laws [KvStoreLaws] of that interface, which say what a call
    that reports success has done to the stored map. [realloc_ok] says whether
    [realloc] serves a request of so many bytes. *)
From Stdlib Require Import String.
From stdpp Require Import sorting.
From S2P Require Import Prelude Text BtreePage Json Db DbScan.

Local Open Scope Z_scope.

(** ** The database interface *)
Class KvStore (D : Type) := {
  kv_begin : D -> option Z * D;
  kv_commit : Z -> D -> D;
  kv_abort : Z -> D -> D;
  kv_free : Z -> D -> D;
  kv_insert : Z -> bytes -> bytes -> D -> Z * D;
  kv_delete : Z -> bytes -> D -> Z * D;
  kv_search : Z -> bytes -> Z -> D -> Z * bytes * Z * D;
  kv_scan : forall C : Type, Z -> bytes -> (bytes -> bytes -> C -> Z * C) -> C -> D -> Z * C * D }.

Definition storable (k v : bytes) : Prop :=
  Forall is_byte k /\ Forall is_byte v /\ 0 < zlen k <= MAX_KEY_SIZE /\ zlen v <= MAX_VALUE_SIZE.

(** Two ghosts that no operation reads count failures: [kv_faults] those that the
    stored map does not explain (a transaction that cannot be opened, an
    insertion under a free key, a deletion or a search of a present key, a
    scan), and [kv_torn] the insertions among them, after which a node split may
    have been left half done. *)
Class KvGhost (D : Type) := { kv_faults : D -> Z; kv_torn : D -> Z }.
Definition kv_le {D : Type} `{KvGhost D} (d d' : D) : Prop := 0 <= kv_torn d' - kv_torn d <= kv_faults d' - kv_faults d.
#[global] Instance kv_le_preorder {D : Type} `{KvGhost D} : PreOrder (kv_le (D := D)).
Proof. unfold kv_le. split; red; intros; lia. Qed.

(** What a call has done, when it reports success and when it does not. Every
    call may fail; a failed call leaves the map as it was, except for an
    insertion under a free key, after which nothing is promised. *)
Class KvStoreLaws (D : Type) `{KvStore D} := {
  #[global] kv_ghost :: KvGhost D;
  kv_ok : D -> Prop;
  kv_live : Z -> D -> Prop;
  kv_abs : D -> gmap bytes bytes;
  kv_begin_law d r d' :
    kv_ok d -> kv_begin d = (r, d') ->
    kv_ok d' /\ kv_abs d' = kv_abs d /\
    match r with Some h => kv_live h d' | None => kv_faults d < kv_faults d' end;
  kv_commit_law h d : kv_ok d -> kv_live h d -> kv_ok (kv_commit h d) /\ kv_abs (kv_commit h d) = kv_abs d;
  kv_abort_law h d : kv_ok d -> kv_live h d -> kv_ok (kv_abort h d) /\ kv_abs (kv_abort h d) = kv_abs d;
  kv_free_law h d : kv_ok d -> kv_ok (kv_free h d) /\ kv_abs (kv_free h d) = kv_abs d;
  kv_insert_law h k v rc d d' :
    kv_ok d -> kv_live h d -> storable k v -> kv_insert h k v d = (rc, d') ->
    match kv_abs d !! k with
    | Some _ => rc <> 0 /\ kv_ok d' /\ kv_live h d' /\ kv_abs d' = kv_abs d
    | None => rc = 0 /\ kv_ok d' /\ kv_live h d' /\ kv_abs d' = <[k := v]> (kv_abs d) \/
              rc <> 0 /\ kv_faults d < kv_faults d' /\ kv_torn d < kv_torn d'
    end;
  kv_delete_law h k rc d d' :
    kv_ok d -> kv_live h d -> kv_delete h k d = (rc, d') ->
    kv_ok d' /\ kv_live h d' /\
    (rc = 0 /\ is_Some (kv_abs d !! k) /\ kv_abs d' = delete k (kv_abs d) \/
     rc <> 0 /\ kv_abs d' = kv_abs d /\ (kv_abs d !! k = None \/ kv_faults d < kv_faults d'));
  kv_search_law h k cap d rc v n d' :
    kv_ok d -> kv_live h d -> kv_search h k cap d = (rc, v, n, d') ->
    kv_ok d' /\ kv_live h d' /\ kv_abs d' = kv_abs d /\
    (rc = 0 /\ (exists x, kv_abs d !! k = Some x /\ v = ztake (Z.min (zlen x) cap) x /\ n = zlen x) \/
     rc <> 0 /\ (kv_abs d !! k = None \/ kv_faults d < kv_faults d'));
  kv_scan_law C h prefix (cb : bytes -> bytes -> C -> Z * C) c d rc c' d' :
    kv_ok d -> kv_live h d -> zlen prefix <= MAX_KEY_SIZE -> kv_scan C h prefix cb c d = (rc, c', d') ->
    kv_ok d' /\ kv_live h d' /\ kv_abs d' = kv_abs d /\
    (rc = 0 /\ (exists kvs, kvs_sorted kvs /\ list_to_map kvs = kv_abs d /\
       c' = visit cb (List.filter (fun x => has_prefix prefix x.1) kvs) c) \/
     rc <> 0 /\ kv_faults d < kv_faults d');
  kv_begin_mono d : kv_le d (kv_begin d).2;
  kv_commit_mono h d : kv_le d (kv_commit h d);
  kv_abort_mono h d : kv_le d (kv_abort h d);
  kv_free_mono h d : kv_le d (kv_free h d);
  kv_insert_mono h k v d : kv_le d (kv_insert h k v d).2;
  kv_delete_mono h k d : kv_le d (kv_delete h k d).2;
  kv_search_mono h k cap d : kv_le d (kv_search h k cap d).2;
  kv_scan_mono C h prefix (cb : bytes -> bytes -> C -> Z * C) c d : kv_le d (kv_scan C h prefix cb c d).2 }.

(** The counters after a call that has been evaluated. *)
Ltac ghost_after M E := let Hm := fresh "G" in pose proof M as Hm; rewrite E in Hm; cbn [snd] in Hm.

(** Solves goals about the counters from what the context says of the calls. *)
Ltac ghosts := unfold kv_le in *; lia.

(** ** Keys *)
Definition INDEX_PREFIX : bytes := str "idx:user:".
Definition INDEX_PREFIX_LEN : Z := 9.
Definition INDEX_ID_WIDTH : Z := 20.
Definition INDEX_USER_PREFIX_LEN : Z := INDEX_PREFIX_LEN + INDEX_ID_WIDTH + 1.
Definition INDEX_KEY_LEN : Z := INDEX_USER_PREFIX_LEN + INDEX_ID_WIDTH.
Definition TODO_KEY_MAX : Z := 64.

(** [snprintf] into [out_size] bytes: what it wrote, or [None] when the text
    and its NUL do not fit. *)
Definition snprintf (out_size : Z) (text : bytes) : option bytes :=
  if zlen text >=? out_size then None else Some text.

Definition todo_row_key (out_size id : Z) : option bytes := snprintf out_size (dec id).

Fixpoint row_key_loop (key : bytes) (id : Z) : option Z :=
  match key with
  | [] => Some id
  | c :: key' =>
      if (c <? 48) || (c >? 57) then None else
      let digit := c - 48 in
      if id >? (UINT64_MAX - digit) / 10 then None else row_key_loop key' (u64 (id * 10 + digit))
  end.

Definition todo_row_key_parse (key : bytes) : option Z :=
  if (zlen key =? 0) || (zlen key >? INDEX_ID_WIDTH) then None else row_key_loop key 0.

Definition index_text (user_id todo_id : Z) : bytes :=
  INDEX_PREFIX ++ dec_pad 20 user_id ++ 58 :: dec_pad 20 todo_id.
Definition todo_index_key (out_size user_id todo_id : Z) : option bytes :=
  snprintf out_size (index_text user_id todo_id).
Definition todo_index_prefix (out_size user_id : Z) : option bytes :=
  snprintf out_size (INDEX_PREFIX ++ dec_pad 20 user_id ++ [58]).

Definition todo_index_key_parse (key : bytes) : option (Z * Z) :=
  if negb (zlen key =? INDEX_KEY_LEN) then None else
  if negb (bool_decide (memcmp (ztake INDEX_PREFIX_LEN key) INDEX_PREFIX = Eq)) then None else
  if negb (bool_decide (znth key (INDEX_USER_PREFIX_LEN - 1) = Some 58)) then None else
  u ← todo_row_key_parse (ztake INDEX_ID_WIDTH (zdrop INDEX_PREFIX_LEN key));
  t ← todo_row_key_parse (ztake INDEX_ID_WIDTH (zdrop INDEX_USER_PREFIX_LEN key));
  Some (u, t).

(** ** Growable arrays *)
Definition owner_pair : Type := Z * Z.

(** [count] is the length of [items]. *)
Record vec (A : Type) := mkVec { items : list A; capacity : Z }.
Arguments mkVec {A}. Arguments items {A}. Arguments capacity {A}.
Definition empty_vec {A} : vec A := mkVec [] 0.

Section push.
Context (realloc_ok : Z -> bool) {A : Type} (elem_size first_capacity : Z).

Definition push (v : vec A) (x : A) : option (vec A) :=
  if zlen (items v) =? capacity v then
    let new_capacity := if capacity v =? 0 then first_capacity else u64 (capacity v * 2) in
    if realloc_ok (u64 (new_capacity * elem_size)) then Some (mkVec (items v ++ [x]) new_capacity) else None
  else Some (mkVec (items v ++ [x]) (capacity v)).
End push.

Definition pair_compare (a b : owner_pair) : Z :=
  if negb (a.1 =? b.1) then (if a.1 <? b.1 then -1 else 1)
  else if negb (a.2 =? b.2) then (if a.2 <? b.2 then -1 else 1)
  else 0.
Definition pair_le (a b : owner_pair) : Prop := pair_compare a b <= 0.
#[global] Instance pair_le_dec a b : Decision (pair_le a b).
Proof. unfold pair_le. apply _. Defined.

(** [qsort] with [pair_compare]: the order is total and antisymmetric, so any
    sorting routine gives this list. *)
Definition qsort (l : list owner_pair) : list owner_pair := merge_sort pair_le l.

Record reconcile_ctx := mkRec { wanted : vec owner_pair; have : vec owner_pair; max_todo_id : Z; error : bool }.
Record lookup_ctx := mkLookup { lk_list : vec Z; lk_user_id : Z; lk_error : bool }.
Record repair_stats := mkStats { inserted : Z; deleted : Z; failed : Z }.

Section index.
Context {D : Type} `{KvStore D} (realloc_ok : Z -> bool).

Definition id_list_push : vec Z -> Z -> option (vec Z) := push realloc_ok 8 32.
Definition pair_list_push : vec owner_pair -> owner_pair -> option (vec owner_pair) :=
  push realloc_ok 16 64.
Definition todo_id_list_free (l : vec Z) : vec Z := empty_vec.

Definition todo_index_insert (txn user_id todo_id : Z) (d : D) : Z * D :=
  match todo_index_key TODO_KEY_MAX user_id todo_id with
  | None => (-1, d)
  | Some key => kv_insert txn key [] d
  end.

Definition todo_index_delete (txn user_id todo_id : Z) (d : D) : Z * D :=
  match todo_index_key TODO_KEY_MAX user_id todo_id with
  | None => (-1, d)
  | Some key => kv_delete txn key d
  end.

Definition lookup_scan_cb (key value : bytes) (c : lookup_ctx) : Z * lookup_ctx :=
  match todo_index_key_parse key with
  | Some (user_id, todo_id) =>
      if negb (user_id =? lk_user_id c) then (0, c) else
      match id_list_push (lk_list c) todo_id with
      | Some l => (0, mkLookup l (lk_user_id c) (lk_error c))
      | None => (1, mkLookup (lk_list c) (lk_user_id c) true)
      end
  | None => (0, c)
  end.

Definition todo_index_lookup (txn user_id : Z) (d : D) : Z * vec Z * D :=
  match todo_index_prefix TODO_KEY_MAX user_id with
  | None => (-1, empty_vec, d)
  | Some prefix =>
      let '(rc, c, d) := kv_scan lookup_ctx txn prefix lookup_scan_cb (mkLookup empty_vec user_id false) d in
      if negb (rc =? 0) || lk_error c then (-1, todo_id_list_free (lk_list c), d)
      else (0, lk_list c, d)
  end.

Definition reconcile_scan_cb (key value : bytes) (r : reconcile_ctx) : Z * reconcile_ctx :=
  match todo_row_key_parse key with
  | Some todo_id =>
      let r := mkRec (wanted r) (have r) (if todo_id >? max_todo_id r then todo_id else max_todo_id r) (error r) in
      match json_get_uint64 value (str "user_id") with
      | Some user_id =>
          match pair_list_push (wanted r) (user_id, todo_id) with
          | Some l => (0, mkRec l (have r) (max_todo_id r) (error r))
          | None => (1, mkRec (wanted r) (have r) (max_todo_id r) true)
          end
      | None => (0, r)
      end
  | None =>
      match todo_index_key_parse key with
      | Some p =>
          match pair_list_push (have r) p with
          | Some l => (0, mkRec (wanted r) l (max_todo_id r) (error r))
          | None => (1, mkRec (wanted r) (have r) (max_todo_id r) true)
          end
      | None => (0, r)
      end
  end.

(** The repair transaction, opened on the first change. *)
Definition open_repair (repair : option Z) (d : D) : option Z * D :=
  match repair with Some h => (Some h, d) | None => kv_begin d end.

Definition add_missing (h : Z) (p : owner_pair) (st : repair_stats) (d : D) : repair_stats * D :=
  let '(rc, d) := todo_index_insert h p.1 p.2 d in
  (if rc =? 0 then mkStats (inserted st + 1) (deleted st) (failed st)
   else mkStats (inserted st) (deleted st) (failed st + 1), d).
Definition drop_orphan (h : Z) (p : owner_pair) (st : repair_stats) (d : D) : repair_stats * D :=
  let '(rc, d) := todo_index_delete h p.1 p.2 d in
  (if rc =? 0 then mkStats (inserted st) (deleted st + 1) (failed st)
   else mkStats (inserted st) (deleted st) (failed st + 1), d).

(** One change: [None] for the [break] when no transaction could be opened. *)
Definition repair_step (change : Z -> owner_pair -> repair_stats -> D -> repair_stats * D)
    (p : owner_pair) (st : repair_stats) (repair : option Z) (d : D)
    : bool * (repair_stats * option Z * D) :=
  match open_repair repair d with
  | (None, d) => (false, (mkStats (inserted st) (deleted st) (failed st + 1), None, d))
  | (Some h, d) => let '(st, d) := change h p st d in (true, (st, Some h, d))
  end.

Fixpoint repair_loop (w : list owner_pair)
    : list owner_pair -> repair_stats -> option Z -> D -> repair_stats * option Z * D :=
  fix on_have (hv : list owner_pair) (st : repair_stats) (repair : option Z) (d : D) :=
    match w, hv with
    | [], [] => (st, repair, d)
    | x :: w', y :: hv' =>
        let cmp := pair_compare x y in
        if cmp =? 0 then repair_loop w' hv' st repair d
        else if cmp <? 0 then
          let '(go, (st, repair, d)) := repair_step add_missing x st repair d in
          if go then repair_loop w' hv st repair d else (st, repair, d)
        else
          let '(go, (st, repair, d)) := repair_step drop_orphan y st repair d in
          if go then on_have hv' st repair d else (st, repair, d)
    | x :: w', [] =>
        let '(go, (st, repair, d)) := repair_step add_missing x st repair d in
        if go then repair_loop w' hv st repair d else (st, repair, d)
    | [], y :: hv' =>
        let '(go, (st, repair, d)) := repair_step drop_orphan y st repair d in
        if go then on_have hv' st repair d else (st, repair, d)
    end.

Definition apply_index_repairs (w hv : list owner_pair) (d : D) : repair_stats * D :=
  let '(st, repair, d) := repair_loop w hv (mkStats 0 0 0) None d in
  match repair with
  | Some h => (st, kv_free h (kv_commit h d))
  | None => (st, d)
  end.

(** The result, [*max_todo_id_out] when it was written, [g_index_ready]. *)
Definition todo_index_reconcile (d : D) : Z * option Z * bool * D :=
  match kv_begin d with
  | (None, d) => (-1, None, false, d)
  | (Some txn, d) =>
      let '(rc, r, d) := kv_scan reconcile_ctx txn [] reconcile_scan_cb
                           (mkRec empty_vec empty_vec 0 false) d in
      let d := kv_free txn (kv_commit txn d) in
      let max := Some (max_todo_id r) in
      if negb (rc =? 0) || error r then (-1, max, false, d) else
      let '(stats, d) := apply_index_repairs (qsort (items (wanted r))) (qsort (items (have r))) d in
      if negb (failed stats =? 0) then (-1, max, false, d) else (0, max, true, d)
  end.

Definition todo_index_available (g_index_ready : bool) : bool := g_index_ready.
End index.

(** What a search into a buffer of [MAX_VALUE_SIZE] leaves of a value. *)
Lemma value_cut (x : bytes) :
  ztake (if zlen x >? MAX_VALUE_SIZE then MAX_VALUE_SIZE else zlen x) (ztake (Z.min (zlen x) MAX_VALUE_SIZE) x) = ztake MAX_VALUE_SIZE x.
Proof.
  destruct (Z.gtb_spec (zlen x) MAX_VALUE_SIZE).
  - rewrite Z.min_r by lia. by rewrite ztake_ztake.
  - rewrite Z.min_l by lia. rewrite ztake_ztake by lia. by rewrite !ztake_all by lia.
Qed.

(** ** Key parsing *)
Lemma row_key_loop_spec key id n :
  0 <= id <= UINT64_MAX ->
  row_key_loop key id = Some n <->
  all_digits key /\ n = id * 10 ^ zlen key + digits_value key /\ n <= UINT64_MAX.
Proof.
  revert id. induction key as [|c key IH]; intros id Hid; cbn [row_key_loop].
  { unfold digits_value. cbn. rewrite zlen_nil, Z.pow_0_r. split.
    - intros [= <-]. split_and!; [constructor|lia|lia].
    - intros (_ & -> & _). f_equal. lia. }
  destruct ((c <? 48) || (c >? 57)) eqn:Ec.
  { split; [done|]. intros (Hd & _). apply Forall_inv, is_digit_spec in Hd. lia. }
  pose proof (Z.pow_pos_nonneg 10 (zlen key) ltac:(lia) ltac:(zl)) as Hpow.
  destruct (Z.gtb_spec id ((UINT64_MAX - (c - 48)) / 10)) as [Hov|Hok].
  - split; [done|]. intros (Hd & -> & Hle). apply Forall_inv_tail, digits_value_range in Hd.
    rewrite digits_value_cons, zlen_cons, Z.pow_add_r in Hle by zl.
    assert (UINT64_MAX < id * 10 + (c - 48)) by zdiv. unfold UINT64_MAX in *. nia.
  - assert (0 <= id * 10 + (c - 48) <= UINT64_MAX) as Hb by (split; [lia|zdiv]).
    rewrite u64_small, IH by done. rewrite digits_value_cons, zlen_cons, Z.pow_add_r by zl.
    replace (id * (10 ^ 1 * 10 ^ zlen key) + ((c - 48) * 10 ^ zlen key + digits_value key))
      with ((id * 10 + (c - 48)) * 10 ^ zlen key + digits_value key) by lia.
    assert (is_digit c = true) by (apply is_digit_spec; lia).
    split; intros (Hd & ? & ?); split_and!; try done; [by constructor|by apply Forall_inv_tail in Hd].
Qed.

Lemma todo_row_key_parse_iff key n :
  todo_row_key_parse key = Some n <->
  all_digits key /\ 0 < zlen key <= 20 /\ n = digits_value key /\ n <= UINT64_MAX.
Proof.
  unfold todo_row_key_parse, INDEX_ID_WIDTH. pose proof (zlen_nonneg key).
  destruct ((zlen key =? 0) || (zlen key >? 20)) eqn:E.
  - split; [done|]. lia.
  - rewrite row_key_loop_spec by (unfold UINT64_MAX; lia). rewrite Z.mul_0_l, Z.add_0_l.
    split; intros (? & ?); split_and!; try done; try lia; naive_solver.
Qed.

Definition u64_range (z : Z) : Prop := 0 <= z <= UINT64_MAX.

Lemma todo_row_key_roundtrip id : u64_range id ->
  exists key, todo_row_key TODO_KEY_MAX id = Some key /\ todo_row_key_parse key = Some id.
Proof.
  intros Hid. destruct (dec_spec id Hid) as (Hd & Hv & Hne & Hl). exists (dec id). split.
  - unfold todo_row_key, snprintf, TODO_KEY_MAX. destruct (Z.geb_spec (zlen (dec id)) 64); [lia|done].
  - apply todo_row_key_parse_iff. split_and!; [done| |done|done|by apply Hid].
    destruct (dec id); [done|zl].
Qed.

Lemma dec_pad_unique U n : all_digits U -> zlen U = 20 -> digits_value U = n -> n <= UINT64_MAX -> U = dec_pad 20 n.
Proof.
  intros Hd Hl Hv Hn. pose proof (digits_value_range U Hd).
  destruct (dec_pad_spec n) as (Hd' & Hv' & Hl'); [lia|]. apply lex_eq.
  rewrite digits_lex by (done || lia). rewrite Hv, Hv'. apply Z.compare_refl.
Qed.

Lemma parse_width U n : zlen U = 20 -> todo_row_key_parse U = Some n <-> U = dec_pad 20 n /\ u64_range n.
Proof.
  intros Hl. rewrite todo_row_key_parse_iff. split.
  - intros (Hd & _ & -> & Hn). split; [by apply dec_pad_unique|]. pose proof (digits_value_range U Hd).
    split; [lia|done].
  - intros [-> Hn]. destruct (dec_pad_spec n Hn) as (? & ? & ?). split_and!; [done|lia|lia|done|apply Hn].
Qed.

Lemma parse_parts P U c T :
  zlen P = 9 -> zlen U = 20 -> zlen T = 20 ->
  todo_index_key_parse (P ++ U ++ c :: T) =
  if bool_decide (P = INDEX_PREFIX /\ c = 58)
  then u ← todo_row_key_parse U; t ← todo_row_key_parse T; Some (u, t) else None.
Proof.
  intros HP HU HT. unfold todo_index_key_parse.
  change INDEX_KEY_LEN with 50. change INDEX_PREFIX_LEN with 9. change INDEX_ID_WIDTH with 20.
  change INDEX_USER_PREFIX_LEN with 30. change (30 - 1) with 29.
  rewrite (proj2 (Z.eqb_eq _ _)) by zl. cbn [negb].
  rewrite (ztake_app_eq 9), (zdrop_app_eq 9) by done. rewrite (ztake_app_eq 20 U) by done.
  assert (zdrop 30 (P ++ U ++ c :: T) = T) as ->.
  { rewrite zdrop_app_ge, zdrop_app_ge by lia. rewrite HP, HU. done. }
  rewrite (ztake_all 20 T) by lia.
  assert (znth (P ++ U ++ c :: T) 29 = Some c) as ->.
  { unfold znth. cbn [Z.ltb Z.compare]. unfold zlen in *. rewrite app_assoc, lookup_app_r by (rewrite length_app; lia).
    replace (Z.to_nat 29 - length (P ++ U))%nat with 0%nat by (rewrite length_app; lia). done. }
  rewrite (bool_decide_ext (memcmp P INDEX_PREFIX = Eq) (P = INDEX_PREFIX))
    by (apply memcmp_eq; unfold zlen in *; cbn; lia).
  rewrite (bool_decide_ext (Some c = Some 58) (c = 58)) by (split; congruence).
  do 3 case_bool_decide; cbn [negb]; done || tauto.
Qed.

Lemma index_key_parts (key : bytes) :
  zlen key = 50 -> exists P U c T, key = P ++ U ++ c :: T /\ zlen P = 9 /\ zlen U = 20 /\ zlen T = 20.
Proof.
  intros Hl. destruct (zdrop 20 (zdrop 9 key)) as [|c T] eqn:E.
  { pose proof (zlen_zdrop 20 (zdrop 9 key)) as Hz. rewrite E, zlen_zdrop, zlen_nil in Hz. lia. }
  exists (ztake 9 key), (ztake 20 (zdrop 9 key)), c, T. rewrite <- E, !ztake_zdrop. split; [done|].
  pose proof (zlen_zdrop 20 (zdrop 9 key)) as Hz. rewrite E, zlen_cons, zlen_zdrop in Hz.
  rewrite !zlen_ztake, zlen_zdrop. split_and!; lia.
Qed.

Lemma index_parse_iff key u t :
  todo_index_key_parse key = Some (u, t) <-> key = index_text u t /\ u64_range u /\ u64_range t.
Proof.
  split.
  - intros H. assert (zlen key = 50) as Hl.
    { unfold todo_index_key_parse in H. change INDEX_KEY_LEN with 50 in H.
      destruct (Z.eqb_spec (zlen key) 50); [done|discriminate]. }
    destruct (index_key_parts key Hl) as (P & U & c & T & -> & HP & HU & HT).
    rewrite parse_parts in H by done. case_bool_decide as Hc; [|done]. destruct Hc as [-> ->].
    destruct (todo_row_key_parse U) as [u'|] eqn:EU; [|done].
    destruct (todo_row_key_parse T) as [t'|] eqn:ET; [|done]. cbn in H. simplify_eq.
    apply parse_width in EU as [-> ?]; [|done]. apply parse_width in ET as [-> ?]; [|done]. done.
  - intros (-> & Hu & Ht). destruct (dec_pad_spec u Hu) as (_ & _ & Lu). destruct (dec_pad_spec t Ht) as (_ & _ & Lt).
    unfold index_text. rewrite parse_parts by done. rewrite bool_decide_true by done.
    rewrite (proj2 (parse_width _ u Lu)) by done. cbn. by rewrite (proj2 (parse_width _ t Lt)) by done.
Qed.

Lemma index_text_len u t : u64_range u -> u64_range t -> zlen (index_text u t) = 50.
Proof.
  intros Hu Ht. destruct (dec_pad_spec u Hu) as (_ & _ & Lu). destruct (dec_pad_spec t Ht) as (_ & _ & Lt).
  unfold index_text. rewrite !zlen_app, zlen_cons, Lu, Lt. done.
Qed.

Lemma todo_index_key_some u t :
  u64_range u -> u64_range t -> todo_index_key TODO_KEY_MAX u t = Some (index_text u t).
Proof. intros Hu Ht. unfold todo_index_key, snprintf. by rewrite index_text_len. Qed.

Lemma index_text_inj u t u' t' :
  u64_range u -> u64_range t -> index_text u t = index_text u' t' -> u64_range u' -> u64_range t' ->
  (u, t) = (u', t').
Proof.
  intros Hu Ht E Hu' Ht'. pose proof (proj2 (index_parse_iff _ u t) (conj eq_refl (conj Hu Ht))) as H1.
  rewrite E in H1. rewrite (proj2 (index_parse_iff _ u' t') (conj eq_refl (conj Hu' Ht'))) in H1. congruence.
Qed.

(** A row key is never an index key. *)
Lemma index_text_not_row u t : todo_row_key_parse (index_text u t) = None.
Proof.
  destruct (todo_row_key_parse (index_text u t)) as [n|] eqn:E; [|done].
  apply todo_row_key_parse_iff in E as (Hd & _). by apply Forall_inv in Hd.
Qed.

Lemma bytes_digits ds : all_digits ds -> Forall is_byte ds.
Proof. intros Hd. eapply list.Forall_impl; [done|]. intros c Hc%is_digit_spec. unfold is_byte. lia. Qed.

Lemma index_storable u t : u64_range u -> u64_range t -> storable (index_text u t) [].
Proof.
  intros Hu Ht. pose proof (index_text_len u t Hu Ht) as Hl. unfold storable. rewrite Hl.
  split_and!; [|constructor|done..].
  unfold index_text. rewrite !list.Forall_app, list.Forall_cons.
  split_and!; [repeat constructor; done|apply bytes_digits, dec_pad_spec, Hu|done|apply bytes_digits, dec_pad_spec, Ht].
Qed.

(** ** Order *)
Lemma pair_compare_lex a b :
  (pair_compare a b ?= 0) = match a.1 ?= b.1 with Eq => a.2 ?= b.2 | c => c end.
Proof.
  unfold pair_compare. destruct a as [a1 a2], b as [b1 b2]; cbn.
  destruct (Z.compare_spec a1 b1), (Z.compare_spec a2 b2), (Z.eqb_spec a1 b1), (Z.ltb_spec a1 b1),
    (Z.eqb_spec a2 b2), (Z.ltb_spec a2 b2); cbn; done || lia.
Qed.

Lemma lex_app_len a b a' b' :
  length a = length a' -> lex (a ++ b) (a' ++ b') = match lex a a' with Eq => lex b b' | c => c end.
Proof.
  revert a'. induction a as [|x a IH]; intros [|x' a'] Hl; try done. cbn. injection Hl as Hl.
  destruct (x ?= x'); [by apply IH|done..].
Qed.

Lemma index_text_order u t u' t' :
  u64_range u -> u64_range t -> u64_range u' -> u64_range t' ->
  lex (index_text u t) (index_text u' t') = (pair_compare (u, t) (u', t') ?= 0).
Proof.
  intros Hu Ht Hu' Ht'. rewrite pair_compare_lex. cbn [fst snd]. unfold index_text. rewrite lex_app_same.
  destruct (dec_pad_spec u Hu) as (_ & _ & L). destruct (dec_pad_spec u' Hu') as (_ & _ & L').
  rewrite lex_app_len by (unfold zlen in *; lia). rewrite dec_pad_lex by done.
  destruct (u ?= u'); [|done..]. cbn [lex]. rewrite Z.compare_refl. by apply dec_pad_lex.
Qed.

Definition pair_lt (a b : owner_pair) : Prop := pair_compare a b < 0.

Lemma pair_compare_eq a b : pair_compare a b = 0 <-> a = b.
Proof.
  unfold pair_compare. destruct a as [a1 a2], b as [b1 b2]; cbn.
  destruct (Z.eqb_spec a1 b1), (Z.ltb_spec a1 b1), (Z.eqb_spec a2 b2), (Z.ltb_spec a2 b2);
    cbn; (split; [first [lia|congruence]|intros [= ? ?]; first [lia|congruence]]).
Qed.

Lemma pair_compare_cases a b :
  pair_compare a b < 0 /\ (a.1 < b.1 \/ a.1 = b.1 /\ a.2 < b.2) \/
  pair_compare a b = 0 /\ a.1 = b.1 /\ a.2 = b.2 \/
  0 < pair_compare a b /\ (b.1 < a.1 \/ a.1 = b.1 /\ b.2 < a.2).
Proof.
  unfold pair_compare. destruct a as [a1 a2], b as [b1 b2]; cbn.
  destruct (Z.eqb_spec a1 b1), (Z.ltb_spec a1 b1), (Z.eqb_spec a2 b2), (Z.ltb_spec a2 b2); cbn; lia.
Qed.

#[global] Instance pair_le_total : Total pair_le.
Proof. intros a b. unfold pair_le. pose proof (pair_compare_cases a b). pose proof (pair_compare_cases b a). lia. Qed.
#[global] Instance pair_le_trans : Transitive pair_le.
Proof.
  intros a b c. unfold pair_le. pose proof (pair_compare_cases a b).
  pose proof (pair_compare_cases b c). pose proof (pair_compare_cases a c). lia.
Qed.
Lemma pair_lt_le_trans a b c : pair_lt a b -> pair_le b c -> pair_lt a c.
Proof.
  unfold pair_lt, pair_le. pose proof (pair_compare_cases a b).
  pose proof (pair_compare_cases b c). pose proof (pair_compare_cases a c). lia.
Qed.
Lemma pair_gt_lt a b : 0 < pair_compare a b -> pair_lt b a.
Proof. unfold pair_lt. pose proof (pair_compare_cases a b). pose proof (pair_compare_cases b a). lia. Qed.
Lemma pair_lt_irrefl a : ~ pair_lt a a.
Proof. unfold pair_lt. rewrite (proj2 (pair_compare_eq a a)) by done. lia. Qed.

Lemma qsort_sorted l : StronglySorted pair_le (qsort l).
Proof. apply StronglySorted_merge_sort; apply _. Qed.
Lemma qsort_perm l : qsort l ≡ₚ l.
Proof. apply merge_sort_Permutation. Qed.

(** A sorted list without duplicates is strictly sorted. *)
Lemma sorted_strict l : StronglySorted pair_le l -> NoDup l -> StronglySorted pair_lt l.
Proof.
  induction 1 as [|a l Hs IH Hf]; intros Hnd; [constructor|]. apply list.NoDup_cons in Hnd as [Ha Hnd].
  constructor; [by apply IH|]. apply list.Forall_forall. intros b Hb.
  rewrite list.Forall_forall in Hf. specialize (Hf b Hb). unfold pair_lt, pair_le in *.
  assert (pair_compare a b <> 0); [|lia]. by intros ->%pair_compare_eq.
Qed.

(** ** What the scans collect *)
#[local] Arguments str : simpl never.
#[local] Arguments json_get_uint64 : simpl never.
#[local] Arguments todo_row_key_parse : simpl never.
#[local] Arguments todo_index_key_parse : simpl never.
Lemma push_items ok {A} es fc (v v' : vec A) x : push ok es fc v x = Some v' -> items v' = items v ++ [x].
Proof. unfold push. intros H. repeat case_match; by simplify_eq. Qed.
Section collect.
Context (realloc_ok : Z -> bool).

Definition entry_of (user_id : Z) (x : bytes * bytes) : option Z :=
  p ← todo_index_key_parse x.1; if p.1 =? user_id then Some p.2 else None.

Lemma lookup_visit l c :
  lk_error c = false -> lk_error (visit (lookup_scan_cb realloc_ok) l c) = false ->
  items (lk_list (visit (lookup_scan_cb realloc_ok) l c)) = items (lk_list c) ++ omap (entry_of (lk_user_id c)) l.
Proof using.
  revert c. induction l as [|[k x] l IH]; intros c Hc; cbn [visit omap list_omap]; [by rewrite app_nil_r|].
  unfold lookup_scan_cb at 1 3. unfold entry_of at 1. cbn [fst].
  destruct (todo_index_key_parse k) as [[u t]|]; cbn; [|by apply IH].
  destruct (Z.eqb_spec u (lk_user_id c)) as [->|]; cbn; [|by apply IH].
  destruct (id_list_push realloc_ok (lk_list c) t) as [v|] eqn:Ep; cbn; [|done].
  intros Hv. rewrite IH by done. cbn. apply push_items in Ep as ->. by rewrite <- app_assoc.
Qed.

(** The pair a row calls for, and the pair an index entry stands for. *)
Definition row_pair (x : bytes * bytes) : option owner_pair :=
  t ← todo_row_key_parse x.1; u ← json_get_uint64 x.2 (str "user_id"); Some (u, t).
Definition entry_pair (x : bytes * bytes) : option owner_pair :=
  match todo_row_key_parse x.1 with Some _ => None | None => todo_index_key_parse x.1 end.
Definition row_ids (l : list (bytes * bytes)) : list Z := omap (fun x => todo_row_key_parse x.1) l.

Lemma reconcile_visit l c :
  error c = false -> error (visit (reconcile_scan_cb realloc_ok) l c) = false ->
  let c' := visit (reconcile_scan_cb realloc_ok) l c in
  items (wanted c') = items (wanted c) ++ omap row_pair l /\
  items (have c') = items (have c) ++ omap entry_pair l /\
  max_todo_id c' = foldl Z.max (max_todo_id c) (row_ids l).
Proof using.
  revert c. induction l as [|[k x] l IH]; intros c Hc Hv c'; [cbn; by rewrite !app_nil_r|].
  assert (c' = visit (reconcile_scan_cb realloc_ok) ((k, x) :: l) c) as E by done. clearbody c'. rewrite <- E in Hv.
  cbn [visit] in E. destruct (reconcile_scan_cb realloc_ok k x c) as [stop c1] eqn:Ecb.
  assert (stop = 0 /\ error c1 = false /\
    items (wanted c1) = items (wanted c) ++ omap row_pair [(k, x)] /\
    items (have c1) = items (have c) ++ omap entry_pair [(k, x)] /\
    max_todo_id c1 = foldl Z.max (max_todo_id c) (row_ids [(k, x)])) as (-> & Hc1 & Ew & Eh & Em).
  { unfold reconcile_scan_cb in Ecb. unfold row_ids, row_pair, entry_pair. cbn.
    destruct (todo_row_key_parse k) as [t|]; cbn in *.
    - assert ((if t >? max_todo_id c then t else max_todo_id c) = Z.max (max_todo_id c) t) as Emx by
        (destruct (Z.gtb_spec t (max_todo_id c)); lia). rewrite Emx in Ecb. rewrite app_nil_r.
      destruct (json_get_uint64 x (str "user_id")) as [u|]; cbn in *; [|simplify_eq/=; by rewrite ?app_nil_r].
      destruct (pair_list_push realloc_ok (wanted c) (u, t)) as [v|] eqn:Ep; simplify_eq/=.
      by apply push_items in Ep.
    - rewrite app_nil_r.
      destruct (todo_index_key_parse k) as [p|]; cbn in *; [|simplify_eq/=; by rewrite ?app_nil_r].
      destruct (pair_list_push realloc_ok (have c) p) as [v|] eqn:Ep; simplify_eq/=.
      by apply push_items in Ep. }
  cbn [negb Z.eqb] in E. subst c'. destruct (IH _ Hc1 Hv) as (-> & -> & ->). rewrite Ew, Eh, Em.
  change ((k, x) :: l) with ([(k, x)] ++ l). unfold row_ids. by rewrite !omap_app, !app_assoc, foldl_app.
Qed.
End collect.

Lemma push_granted realloc_ok {A : Type} sz first (v : vec A) x : (forall n, realloc_ok n = true) -> exists v', push realloc_ok sz first v x = Some v'.
Proof. intros Hre. unfold push. rewrite Hre. destruct (_ =? _); by eexists. Qed.

Lemma reconcile_visit_total realloc_ok l c :
  (forall n, realloc_ok n = true) -> error c = false -> error (visit (reconcile_scan_cb realloc_ok) l c) = false.
Proof.
  intros Hre. revert c. induction l as [|[k x] l IH]; intros c Hc; cbn [visit]; [done|].
  unfold reconcile_scan_cb at 1, pair_list_push.
  destruct (todo_row_key_parse k) as [t|]; cbn.
  - destruct (json_get_uint64 x (str "user_id")) as [u|]; cbn; [|by apply IH].
    destruct (push_granted realloc_ok 16 64 (wanted c) (u, t) Hre) as [v ->]. by apply IH.
  - destruct (todo_index_key_parse k) as [p|]; cbn; [|by apply IH].
    destruct (push_granted realloc_ok 16 64 (have c) p Hre) as [v ->]. by apply IH.
Qed.

(** ** The stored map as a sorted list *)
Lemma kvs_elem (kvs : list (bytes * bytes)) (m : gmap bytes bytes) k x :
  kvs_sorted kvs -> list_to_map kvs = m -> (k, x) ∈ kvs <-> m !! k = Some x.
Proof. intros Hs <-. by apply elem_of_list_to_map, kvs_nodup. Qed.

Lemma sorted_omap {A B} (R : A -> A -> Prop) (Q : B -> B -> Prop) (f : A -> option B) l :
  (forall x y a b, R x y -> f x = Some a -> f y = Some b -> Q a b) ->
  StronglySorted R l -> StronglySorted Q (omap f l).
Proof.
  intros Hf. induction 1 as [|x l Hs IH Hx]; [constructor|]. cbn. destruct (f x) as [a|] eqn:E; [|done].
  constructor; [done|]. apply list.Forall_forall. intros b (y & Hy & Ey)%list_elem_of_omap.
  rewrite list.Forall_forall in Hx. eauto.
Qed.

Lemma sorted_filter {A} (R : A -> A -> Prop) p l : StronglySorted R l -> StronglySorted R (List.filter p l).
Proof.
  induction 1 as [|x l Hs IH Hx]; [constructor|]. cbn. destruct (p x); [|done]. constructor; [done|].
  apply list.Forall_forall. intros y Hy%list_elem_of_In%filter_In. destruct Hy as [Hy%list_elem_of_In _].
  rewrite list.Forall_forall in Hx. by apply Hx.
Qed.

Section laws.
Context {D : Type} `{KvStoreLaws D} (realloc_ok : Z -> bool).

Lemma prefix_some u : u64_range u ->
  todo_index_prefix TODO_KEY_MAX u = Some (INDEX_PREFIX ++ dec_pad 20 u ++ [58]) /\
  zlen (INDEX_PREFIX ++ dec_pad 20 u ++ [58]) = 30.
Proof using.
  intros Hu. destruct (dec_pad_spec u Hu) as (_ & _ & L).
  assert (zlen (INDEX_PREFIX ++ dec_pad 20 u ++ [58]) = 30) as Hl by (rewrite !zlen_app, L; done).
  split; [|done]. unfold todo_index_prefix, snprintf. by rewrite Hl.
Qed.

Lemma entry_of_some u x t : entry_of u x = Some t <-> x.1 = index_text u t /\ u64_range u /\ u64_range t.
Proof using.
  unfold entry_of. rewrite <- index_parse_iff. destruct (todo_index_key_parse x.1) as [[u' t']|]; cbn; [|done].
  destruct (Z.eqb_spec u' u) as [->|]; split; congruence.
Qed.

(** A lookup that succeeds returns the ids of the user's entries, ascending. *)
Lemma lookup_spec h u d v d' :
  kv_ok d -> kv_live h d -> u64_range u -> todo_index_lookup realloc_ok h u d = (0, v, d') ->
  kv_ok d' /\ kv_live h d' /\ kv_abs d' = kv_abs d /\ StronglySorted Z.lt (items v) /\
  forall t, t ∈ items v <-> u64_range t /\ is_Some (kv_abs d !! index_text u t).
Proof using.
  intros Hok Hlv Hu. unfold todo_index_lookup. destruct (prefix_some u Hu) as [-> Hpl].
  set (prefix := INDEX_PREFIX ++ _) in *.
  destruct (kv_scan _ _ _ _ _ d) as [[rc c] d1] eqn:Es.
  destruct (Z.eqb_spec rc 0) as [->|]; cbn [negb orb]; [|done]. destruct (lk_error c) eqn:Ee; [done|].
  intros [= <- <-]. destruct (kv_scan_law _ _ _ _ _ _ _ _ _ Hok Hlv ltac:(rewrite Hpl; done) Es)
    as (Hok' & Hlv' & Habs & [(_ & kvs & Hs & Hm & ->)|[? _]]); [|done].
  rewrite lookup_visit by done. cbn [lk_list items lk_user_id empty_vec app]. split_and!; try done.
  - apply (sorted_omap (fun x y => lex_lt x.1 y.1)); [|by apply sorted_filter].
    intros x y a b Hxy (Ea & _ & Ha)%entry_of_some (Eb & _ & Hb)%entry_of_some.
    rewrite Ea, Eb in Hxy. unfold lex_lt in Hxy. rewrite index_text_order in Hxy by done.
    rewrite Z.compare_lt_iff in Hxy. pose proof (pair_compare_cases (u, a) (u, b)) as Hc. cbn [fst snd] in Hc. lia.
  - intros t. rewrite list_elem_of_omap. split.
    + intros ([k x] & Hin & (Ek & _ & Ht)%entry_of_some). cbn in Ek. subst k. split; [done|].
      apply list_elem_of_In, filter_In in Hin as [Hin%list_elem_of_In _].
      exists x. by apply (kvs_elem kvs).
    + intros [Ht [x Hx]]. exists (index_text u t, x). split; [|by apply entry_of_some].
      apply list_elem_of_In, filter_In. split; [by apply list_elem_of_In, (kvs_elem kvs (kv_abs d))|].
      apply has_prefix_spec. exists (dec_pad 20 t). unfold prefix, index_text. cbn [fst].
      by rewrite <- !app_assoc.
Qed.

(** ** The repair pass *)
Definition in_range (p : owner_pair) : Prop := u64_range p.1 /\ u64_range p.2.
Definition key_of (p : owner_pair) : bytes := index_text p.1 p.2.

Lemma key_of_inj p q : in_range p -> in_range q -> key_of p = key_of q -> p = q.
Proof using.
  destruct p as [u t], q as [u' t']. intros [Hu Ht] [Hu' Ht'] E.
  by apply (index_text_inj u t u' t').
Qed.

Definition handle_ok (repair : option Z) (d : D) : Prop := forall h, repair = Some h -> kv_live h d.

(** One change that did not fail. *)
Definition changed (ins : bool) (p : owner_pair) (m m' : gmap bytes bytes) : Prop :=
  if ins then m !! key_of p = None /\ m' = <[key_of p := []]> m
  else is_Some (m !! key_of p) /\ m' = delete (key_of p) m.

Definition change_op (ins : bool) := if ins then add_missing (D := D) else drop_orphan.

Definition change_possible (ins : bool) (p : owner_pair) (m : gmap bytes bytes) : Prop :=
  if ins then m !! key_of p = None else is_Some (m !! key_of p).

(** A transaction that could not be opened leaves no handle, one that was open
    or is opened now is live. *)
Lemma open_repair_spec repair d r d1 :
  kv_ok d -> handle_ok repair d -> open_repair repair d = (r, d1) ->
  kv_ok d1 /\ kv_abs d1 = kv_abs d /\ kv_le d d1 /\
  match r with Some h => kv_live h d1 | None => kv_faults d < kv_faults d1 end.
Proof using.
  intros Hok Hh. unfold open_repair. destruct repair as [h|].
  - intros [= <- <-]. split_and!; [done|done|done|by apply Hh].
  - intros Eo. destruct (kv_begin_law _ _ _ Hok Eo) as (? & ? & Hr). ghost_after (kv_begin_mono d) Eo. done.
Qed.

(** One change: done, or counted as failed with the map as it was, unless the
    store was torn. *)
Lemma repair_step_spec ins p st repair d go st' repair' d' :
  kv_ok d -> handle_ok repair d -> in_range p ->
  repair_step (change_op ins) p st repair d = (go, (st', repair', d')) ->
  kv_le d d' /\
  (failed st' = failed st /\ go = true /\ kv_ok d' /\ handle_ok repair' d' /\ changed ins p (kv_abs d) (kv_abs d') \/
   failed st' = failed st + 1 /\ (change_possible ins p (kv_abs d) -> kv_faults d < kv_faults d') /\
   (kv_torn d < kv_torn d' \/ kv_ok d' /\ handle_ok repair' d' /\ kv_abs d' = kv_abs d)).
Proof using.
  intros Hok Hh [Hu Ht]. unfold repair_step.
  destruct (open_repair repair d) as [o d1] eqn:Eo.
  destruct (open_repair_spec _ _ _ _ Hok Hh Eo) as (Hok1 & Ha & Hm & Hlv). destruct o as [h|]; cycle 1.
  { intros [= <- <- <- <-]. split; [done|]. right. split_and!; [done|done|]. right. done. }
  rewrite <- Ha. clear Ha Eo.
  destruct ins; cbn [change_op change_possible]; unfold add_missing, drop_orphan, todo_index_insert, todo_index_delete;
    rewrite todo_index_key_some by done.
  - destruct (kv_insert h (index_text p.1 p.2) [] d1) as [rc d2] eqn:Ei. intros [= <- <- <- <-].
    ghost_after (kv_insert_mono h (index_text p.1 p.2) [] d1) Ei. split; [ghosts|].
    pose proof (kv_insert_law _ _ _ _ _ _ Hok1 Hlv (index_storable _ _ Hu Ht) Ei) as Hi.
    unfold changed, key_of. destruct (kv_abs d1 !! index_text p.1 p.2).
    + destruct Hi as (Hrc & ? & ? & ?). rewrite (proj2 (Z.eqb_neq rc 0) Hrc). right. split_and!; [done|done|].
      right. split_and!; [done|by intros ? [= <-]|done].
    + destruct Hi as [(-> & ? & ? & ?)|(Hrc & ? & ?)]; [left; split_and!; try done; by intros ? [= <-]|].
      rewrite (proj2 (Z.eqb_neq rc 0) Hrc). right. split_and!; [done|ghosts|]. left. ghosts.
  - destruct (kv_delete h (index_text p.1 p.2) d1) as [rc d2] eqn:Ei. intros [= <- <- <- <-].
    ghost_after (kv_delete_mono h (index_text p.1 p.2) d1) Ei. split; [ghosts|].
    destruct (kv_delete_law _ _ _ _ _ Hok1 Hlv Ei) as (? & ? & [(-> & ? & ?)|(Hrc & Ha & Hw)]);
      [left; split_and!; try done; by intros ? [= <-]|].
    rewrite (proj2 (Z.eqb_neq rc 0) Hrc). right. split_and!; [done| |right; split_and!; try done; by intros ? [= <-]].
    intros [? Hn]. unfold key_of in Hn. rewrite Hn in Hw. destruct Hw as [?|?]; [done|ghosts].
Qed.

(** The map after a pass without failures: a wanted pair is indexed, a pair
    that was only held is gone, nothing else has changed. *)
Definition repaired (w hv : list owner_pair) (m m' : gmap bytes bytes) : Prop :=
  (forall p, in_range p -> p ∈ w -> is_Some (m' !! key_of p)) /\
  (forall p, in_range p -> p ∉ w -> p ∈ hv -> m' !! key_of p = None) /\
  (forall k, (forall p, p ∈ w \/ p ∈ hv -> in_range p -> key_of p <> k) -> m' !! k = m !! k).

Lemma repaired_other w hv m m' x :
  repaired w hv m m' -> in_range x -> x ∉ w -> x ∉ hv -> m' !! key_of x = m !! key_of x.
Proof using.
  intros (_ & _ & H3) Hx Hw Hh. apply H3. intros p Hp Hr E.
  apply key_of_inj in E as ->; [|done..]. tauto.
Qed.

Lemma repaired_both x w hv m m' :
  in_range x -> x ∉ hv -> is_Some (m !! key_of x) -> repaired w hv m m' -> repaired (x :: w) (x :: hv) m m'.
Proof using.
  intros Hx Hxh Hm HR. pose proof HR as (H1 & H2 & H3). split_and!.
  - intros p Hp [->|Hin]%elem_of_cons; [|by apply H1].
    destruct (decide (x ∈ w)); [by apply H1|]. by rewrite (repaired_other w hv m m' x HR).
  - intros p Hp [? ?]%not_elem_of_cons [->|Hin]%elem_of_cons; [done|by apply H2].
  - intros k Hk. apply H3. intros p Hp. apply Hk. rewrite !elem_of_cons. tauto.
Qed.

Lemma repaired_insert x w hv m m' :
  in_range x -> x ∉ hv -> repaired w hv (<[key_of x := []]> m) m' -> repaired (x :: w) hv m m'.
Proof using.
  intros Hx Hxh HR. pose proof HR as (H1 & H2 & H3). split_and!.
  - intros p Hp [->|Hin]%elem_of_cons; [|by apply H1].
    destruct (decide (x ∈ w)); [by apply H1|]. rewrite (repaired_other w hv _ m' x HR) by done.
    by rewrite lookup_insert_eq.
  - intros p Hp [? ?]%not_elem_of_cons Hin. by apply H2.
  - intros k Hk. rewrite H3; [|intros p Hp; apply Hk; rewrite elem_of_cons; tauto].
    rewrite lookup_insert_ne; [done|]. apply Hk; [left; left|done].
Qed.

Lemma repaired_delete y w hv m m' :
  in_range y -> y ∉ w -> y ∉ hv -> repaired w hv (delete (key_of y) m) m' -> repaired w (y :: hv) m m'.
Proof using.
  intros Hy Hyw Hyh HR. pose proof HR as (H1 & H2 & H3). split_and!.
  - done.
  - intros p Hp Hpw [->|Hin]%elem_of_cons; [|by apply H2].
    rewrite (repaired_other w hv _ m' y HR) by done. by rewrite lookup_delete_eq.
  - intros k Hk. rewrite H3; [|intros p Hp; apply Hk; rewrite elem_of_cons; tauto].
    rewrite lookup_delete_ne; [done|]. apply Hk; [right; left|done].
Qed.

Lemma below_notin (R : owner_pair -> owner_pair -> Prop) x l :
  (forall y, R x y -> x <> y) -> Forall (R x) l -> x ∉ l.
Proof using. intros HR Hf Hin. rewrite list.Forall_forall in Hf. by apply (HR x (Hf x Hin)). Qed.

Lemma pair_lt_ne x y : pair_lt x y -> x <> y.
Proof using. intros Hl ->. by apply pair_lt_irrefl in Hl. Qed.

Record pass_ok (w hv : list owner_pair) (repair : option Z) (d : D) : Prop := {
  pa_ok : kv_ok d; pa_handle : handle_ok repair d;
  pa_w : Forall in_range w; pa_hv : Forall in_range hv;
  pa_ws : StronglySorted pair_le w; pa_hs : StronglySorted pair_lt hv;
  pa_in : forall p, p ∈ hv -> is_Some (kv_abs d !! key_of p) }.

Lemma pass_insert x w hv repair repair' d d' :
  pass_ok (x :: w) hv repair d -> Forall (pair_lt x) hv -> kv_ok d' -> handle_ok repair' d' ->
  changed true x (kv_abs d) (kv_abs d') ->
  pass_ok w hv repair' d' /\
  forall m', repaired w hv (kv_abs d') m' -> repaired (x :: w) hv (kv_abs d) m'.
Proof using.
  intros [] Hlt Hok Hh [Hn E]. pose proof (Forall_inv pa_w0) as Hx.
  pose proof (below_notin pair_lt x hv (pair_lt_ne x) Hlt) as Hxh. split.
  - constructor; try done; [by apply Forall_inv_tail in pa_w0|by inversion pa_ws0|].
    intros p Hp. rewrite E, lookup_insert_ne; [by apply pa_in0|].
    intros Ek. apply key_of_inj in Ek as ->; [done|done|]. rewrite list.Forall_forall in pa_hv0. by apply pa_hv0.
  - intros m' HR. rewrite E in HR. by apply repaired_insert.
Qed.

Lemma pass_delete y w hv repair repair' d d' :
  pass_ok w (y :: hv) repair d -> Forall (pair_lt y) w -> kv_ok d' -> handle_ok repair' d' ->
  changed false y (kv_abs d) (kv_abs d') ->
  pass_ok w hv repair' d' /\
  forall m', repaired w hv (kv_abs d') m' -> repaired w (y :: hv) (kv_abs d) m'.
Proof using.
  intros [] Hlt Hok Hh [Hn E]. pose proof (Forall_inv pa_hv0) as Hy.
  pose proof (below_notin pair_lt y w (pair_lt_ne y) Hlt) as Hyw.
  inversion pa_hs0 as [|? ? Hs Hf]; subst. pose proof (below_notin pair_lt y hv (pair_lt_ne y) Hf) as Hyh. split.
  - constructor; try done; [by apply Forall_inv_tail in pa_hv0|].
    intros p Hp. rewrite E, lookup_delete_ne; [apply pa_in0; by right|].
    intros Ek. apply key_of_inj in Ek as ->; [done|done|].
    apply Forall_inv_tail in pa_hv0. rewrite list.Forall_forall in pa_hv0. by apply pa_hv0.
  - intros m' HR. rewrite E in HR. by apply repaired_delete.
Qed.

Lemma pass_both x w hv repair d :
  pass_ok (x :: w) (x :: hv) repair d ->
  pass_ok w hv repair d /\ forall m', repaired w hv (kv_abs d) m' -> repaired (x :: w) (x :: hv) (kv_abs d) m'.
Proof using.
  intros []. inversion pa_hs0 as [|? ? Hs Hf]; subst. inversion pa_ws0; subst.
  pose proof (below_notin pair_lt x hv (pair_lt_ne x) Hf) as Hxh. split.
  - constructor; try done; [by apply Forall_inv_tail in pa_w0|by apply Forall_inv_tail in pa_hv0|].
    intros p Hp. apply pa_in0. by right.
  - intros m'. apply repaired_both; [by apply Forall_inv in pa_w0|done|apply pa_in0; left].
Qed.

(** A change that failed: the rest of the pass, on the same map. *)
Lemma pass_skip_wanted x w hv repair repair' d d' :
  pass_ok (x :: w) hv repair d -> kv_ok d' -> handle_ok repair' d' -> kv_abs d' = kv_abs d -> pass_ok w hv repair' d'.
Proof using. intros [] Hok Hh E. constructor; try done; [by apply Forall_inv_tail in pa_w0|by inversion pa_ws0|by rewrite E]. Qed.
Lemma pass_skip_held y w hv repair repair' d d' :
  pass_ok w (y :: hv) repair d -> kv_ok d' -> handle_ok repair' d' -> kv_abs d' = kv_abs d -> pass_ok w hv repair' d'.
Proof using.
  intros [] Hok Hh E. constructor; try done; [by apply Forall_inv_tail in pa_hv0|by inversion pa_hs0|].
  rewrite E. intros p Hp. apply pa_in0. by right.
Qed.

(** Only index entries differ. *)
Definition rest_kept (m m' : gmap bytes bytes) : Prop := forall k, todo_index_key_parse k = None -> m' !! k = m !! k.
#[global] Instance rest_kept_preorder : PreOrder rest_kept.
Proof using. split; [by intros m k|]. intros m1 m2 m3 H1 H2 k Hk. by rewrite H2, H1. Qed.

Lemma changed_rest ins p m m' : in_range p -> changed ins p m m' -> rest_kept m m'.
Proof using.
  intros [Hu Ht] Hc k Hk. assert (key_of p <> k) as Hne.
  { intros <-. unfold key_of in Hk. by rewrite (proj2 (index_parse_iff _ p.1 p.2)) in Hk by done. }
  destruct ins, Hc as [_ ->]; [by rewrite lookup_insert_ne|by rewrite lookup_delete_ne].
Qed.

(** ** The whole pass *)
Lemma repair_loop_eq w hv st repair d :
  repair_loop w hv st repair d =
  let ins x w' := let '(go, (st, repair, d)) := repair_step add_missing x st repair d in
                  if go then repair_loop w' hv st repair d else (st, repair, d) in
  let del y hv' := let '(go, (st, repair, d)) := repair_step drop_orphan y st repair d in
                   if go then repair_loop w hv' st repair d else (st, repair, d) in
  match w, hv with
  | [], [] => (st, repair, d)
  | x :: w', y :: hv' =>
      let cmp := pair_compare x y in
      if cmp =? 0 then repair_loop w' hv' st repair d else if cmp <? 0 then ins x w' else del y hv'
  | x :: w', [] => ins x w'
  | [], y :: hv' => del y hv'
  end.
Proof using. by destruct w, hv. Qed.

Definition pass_result (w hv : list owner_pair) (st : repair_stats) (d : D)
    (r : repair_stats * option Z * D) : Prop :=
  let '(st', repair', d') := r in
  failed st <= failed st' /\ kv_le d d' /\
  (kv_torn d < kv_torn d' /\ failed st < failed st' \/
   kv_ok d' /\ handle_ok repair' d' /\ rest_kept (kv_abs d) (kv_abs d') /\
   (failed st' = failed st -> repaired w hv (kv_abs d) (kv_abs d'))).

(** The counters never go down. *)
Lemma repair_step_mono ins p st repair d :
  let '(_, (st', _, d')) := repair_step (change_op ins) p st repair d in failed st <= failed st' /\ kv_le d d'.
Proof using.
  unfold repair_step, open_repair.
  assert (forall r d0 d1, kv_le d d0 -> (r, d1) = (r, d0) -> match r with
    | None => failed st <= failed st + 1 /\ kv_le d d1
    | Some h => let '(st', d') := change_op ins h p st d1 in failed st <= failed st' /\ kv_le d d' end) as Hc.
  { intros [h|] d0 d1 Hm [= <-]; [|split; [lia|done]]. destruct ins; cbn [change_op]; unfold add_missing, drop_orphan, todo_index_insert, todo_index_delete.
    - destruct (todo_index_key _ _ _) as [key|]; [|cbn; split; [lia|done]]. destruct (kv_insert h key [] d1) as [rc d2] eqn:E.
      ghost_after (kv_insert_mono h key [] d1) E. destruct (rc =? 0); cbn; split; (lia || ghosts).
    - destruct (todo_index_key _ _ _) as [key|]; [|cbn; split; [lia|done]]. destruct (kv_delete h key d1) as [rc d2] eqn:E.
      ghost_after (kv_delete_mono h key d1) E. destruct (rc =? 0); cbn; split; (lia || ghosts). }
  destruct repair as [h|].
  - specialize (Hc (Some h) d d ltac:(done) eq_refl). cbn in Hc. by destruct (change_op ins h p st d).
  - destruct (kv_begin d) as [o d1] eqn:E. ghost_after (kv_begin_mono d) E. specialize (Hc o d1 d1 G eq_refl).
    destruct o as [h|]; [by destruct (change_op ins h p st d1)|exact Hc].
Qed.

Lemma repair_loop_mono w hv st repair d :
  let '(st', _, d') := repair_loop w hv st repair d in failed st <= failed st' /\ kv_le d d'.
Proof using.
  assert (forall ins p st d repair (rest : repair_stats -> option Z -> D -> repair_stats * option Z * D),
    (forall st repair d, let '(st', _, d') := rest st repair d in failed st <= failed st' /\ kv_le d d') ->
    let '(st', _, d') := let '(go, (st, repair, d)) := repair_step (change_op ins) p st repair d in
      if go then rest st repair d else (st, repair, d) in failed st <= failed st' /\ kv_le d d') as Hstep.
  { clear. intros ins p st d repair rest Hrest. pose proof (repair_step_mono ins p st repair d) as Hm.
    destruct (repair_step (change_op ins) p st repair d) as [[] [[st1 r1] d1]]; [|done]. specialize (Hrest st1 r1 d1).
    destruct (rest st1 r1 d1) as [[st2 r2] d2]. split; [lia|ghosts]. }
  revert hv st repair d. induction w as [|x w IHw].
  - induction hv as [|y hv IHh]; intros st repair d; rewrite repair_loop_eq; cbv beta zeta; [split; [lia|done]|].
    apply (Hstep false y). intros; apply IHh.
  - induction hv as [|y hv IHh]; intros st repair d; rewrite repair_loop_eq; cbv beta zeta; [apply (Hstep true x); intros; apply IHw|].
    destruct (pair_compare x y =? 0); [apply IHw|].
    destruct (pair_compare x y <? 0); [apply (Hstep true x); intros; apply IHw|apply (Hstep false y); intros; apply IHh].
Qed.

(** A change, then the rest of the pass. *)
Lemma change_then ins p w hv w1 hv1 st repair d (rest : repair_stats -> option Z -> D -> repair_stats * option Z * D) :
  pass_ok w hv repair d -> in_range p ->
  (forall repair1 d1, kv_ok d1 -> handle_ok repair1 d1 -> changed ins p (kv_abs d) (kv_abs d1) ->
     pass_ok w1 hv1 repair1 d1 /\
     forall m', repaired w1 hv1 (kv_abs d1) m' -> repaired w hv (kv_abs d) m') ->
  (forall repair1 d1, kv_ok d1 -> handle_ok repair1 d1 -> kv_abs d1 = kv_abs d -> pass_ok w1 hv1 repair1 d1) ->
  (forall st1 repair1 d1, pass_ok w1 hv1 repair1 d1 -> pass_result w1 hv1 st1 d1 (rest st1 repair1 d1)) ->
  (forall st1 repair1 d1, let '(st', _, d') := rest st1 repair1 d1 in failed st1 <= failed st' /\ kv_le d1 d') ->
  pass_result w hv st d
    (let '(go, (st, repair, d)) := repair_step (change_op ins) p st repair d in
     if go then rest st repair d else (st, repair, d)).
Proof using.
  intros Hp Hr Hstep Hskip Hrest Hmono. unfold pass_result in *.
  destruct (repair_step (change_op ins) p st repair d) as [go [[st1 repair1] d1]] eqn:Es.
  specialize (Hrest st1 repair1 d1). specialize (Hmono st1 repair1 d1).
  destruct (repair_step_spec _ _ _ _ _ _ _ _ _ (pa_ok _ _ _ _ Hp) (pa_handle _ _ _ _ Hp) Hr Es)
    as (Hm & [(Hf & -> & Hok1 & Hh1 & Hc)|(Hf & _ & Hw)]).
  - destruct (Hstep _ _ Hok1 Hh1 Hc) as [Hp1 Hback]. specialize (Hrest Hp1).
    destruct (rest st1 repair1 d1) as [[st' repair'] d']. destruct Hrest as (R1 & R2 & R3).
    split_and!; [lia|ghosts|]. destruct R3 as [[? ?]|(R3 & R4 & R5 & R6)]; [left; split; [ghosts|lia]|right].
    split_and!; [done|done|by etrans; [eapply changed_rest|]|]. intros E. apply Hback, R6. lia.
  - destruct go.
    + destruct Hw as [Hw|(Hok1 & Hh1 & Ha)].
      * destruct (rest st1 repair1 d1) as [[st' repair'] d']. split_and!; [lia|ghosts|]. left. split; [ghosts|lia].
      * specialize (Hrest (Hskip _ _ Hok1 Hh1 Ha)). destruct (rest st1 repair1 d1) as [[st' repair'] d'].
        destruct Hrest as (R1 & R2 & R3). split_and!; [lia|ghosts|]. destruct R3 as [[? ?]|(R3 & R4 & R5 & R6)]; [left; split; [ghosts|lia]|right].
        split_and!; [done|done|by rewrite <- Ha|lia].
    + split_and!; [lia|done|]. destruct Hw as [Hw|(Hok1 & Hh1 & Ha)]; [left; split; [done|lia]|right].
      split_and!; [done|done|by rewrite Ha|lia].
Qed.

Lemma below_all x y hv : pair_lt x y -> Forall (pair_lt y) hv -> Forall (pair_lt x) (y :: hv).
Proof using.
  intros Hlt Hyh. constructor; [done|]. apply (list.Forall_impl _ _ _ Hyh). intros z Hz. apply (pair_lt_le_trans x y z Hlt).
  unfold pair_le, pair_lt in *. lia.
Qed.
Lemma above_all x y w : 0 < pair_compare x y -> Forall (pair_le x) w -> Forall (pair_lt y) (x :: w).
Proof using.
  intros Hgt Hxw. assert (pair_lt y x) as Hyx by (apply pair_gt_lt; lia). constructor; [done|].
  apply (list.Forall_impl _ _ _ Hxw). intros z Hz. by eapply pair_lt_le_trans.
Qed.

Lemma repair_loop_spec w hv st repair d : pass_ok w hv repair d -> pass_result w hv st d (repair_loop w hv st repair d).
Proof using.
  revert hv st repair d. induction w as [|x w IHw].
  - induction hv as [|y hv IHh]; intros st repair d Hp; rewrite repair_loop_eq; cbv beta zeta.
    + split_and!; [lia|done|]. right. split_and!; [apply Hp|apply Hp|done|]. intros _.
      split_and!; [by intros ? ? ?%elem_of_nil|by intros ? ? _ ?%elem_of_nil|done].
    + apply (change_then false y [] (y :: hv) [] hv); [done|by apply pa_hv, Forall_inv in Hp| | |by intros; apply IHh|intros; apply repair_loop_mono].
      * intros. by eapply pass_delete.
      * intros. by eapply pass_skip_held.
  - induction hv as [|y hv IHh]; intros st repair d Hp; rewrite repair_loop_eq; cbv beta zeta;
      pose proof (Forall_inv (pa_w _ _ _ _ Hp)) as Hx.
    + apply (change_then true x (x :: w) [] w []); [done|done| | |intros; by apply IHw|intros; apply repair_loop_mono].
      * intros. by eapply pass_insert.
      * intros. by eapply pass_skip_wanted.
    + pose proof (Forall_inv (pa_hv _ _ _ _ Hp)) as Hy.
      pose proof (pa_ws _ _ _ _ Hp) as Hws. inversion Hws as [|? ? _ Hxw]; subst.
      pose proof (pa_hs _ _ _ _ Hp) as Hhs. inversion Hhs as [|? ? _ Hyh]; subst.
      destruct (Z.eqb_spec (pair_compare x y) 0) as [E|Hne].
      { apply pair_compare_eq in E as <-. destruct (pass_both _ _ _ _ _ Hp) as [Hp' Hback].
        pose proof (IHw hv st repair d Hp') as HR. destruct (repair_loop w hv st repair d) as [[st' r'] d'].
        destruct HR as (? & ? & [?|(? & ? & ? & HR)]); split_and!; try done; [by left|right; split_and!; auto]. }
      destruct (Z.ltb_spec (pair_compare x y) 0) as [Hlt|Hge].
      * apply (change_then true x (x :: w) (y :: hv) w (y :: hv)); [done|done| | |intros; by apply IHw|intros; apply repair_loop_mono].
        { intros. eapply pass_insert; try done. by apply below_all. }
        intros. by eapply pass_skip_wanted.
      * apply (change_then false y (x :: w) (y :: hv) (x :: w) hv); [done|done| | |by intros; apply IHh|intros; apply repair_loop_mono].
        { intros. eapply pass_delete; try done. apply (above_all x y w); [lia|done]. }
        intros. by eapply pass_skip_held.
Qed.

Lemma apply_index_repairs_spec w hv d st d' :
  pass_ok w hv None d -> apply_index_repairs w hv d = (st, d') ->
  0 <= failed st /\ kv_le d d' /\
  (kv_torn d < kv_torn d' /\ 0 < failed st \/
   kv_ok d' /\ rest_kept (kv_abs d) (kv_abs d') /\ (failed st = 0 -> repaired w hv (kv_abs d) (kv_abs d'))).
Proof using.
  intros Hp. unfold apply_index_repairs.
  pose proof (repair_loop_spec w hv (mkStats 0 0 0) None d Hp) as HR.
  destruct (repair_loop w hv _ None d) as [[st1 repair] d1]. destruct HR as (Hle & Hm & HR). cbn in Hle, HR.
  destruct repair as [h|]; intros [= <- <-]; [|by destruct HR as [?|(? & _ & ?)]; auto].
  pose proof (kv_commit_mono h d1) as M1. pose proof (kv_free_mono h (kv_commit h d1)) as M2.
  split; [done|]. split; [ghosts|]. destruct HR as [[? ?]|(Hok & Hh & Hk & HR)]; [left; split; [ghosts|done]|right].
  destruct (kv_commit_law h d1 Hok (Hh h eq_refl)) as [Hok1 E1].
  destruct (kv_free_law h _ Hok1) as [Hok2 E2]. rewrite E2, E1. done.
Qed.

(** ** Reconciling *)
Lemma row_pair_some k x p :
  row_pair (k, x) = Some p <-> todo_row_key_parse k = Some p.2 /\ json_get_uint64 x (str "user_id") = Some p.1.
Proof using.
  clear realloc_ok. unfold row_pair. cbn [fst snd]. destruct (todo_row_key_parse k) as [t|]; cbn; [|naive_solver].
  destruct (json_get_uint64 x (str "user_id")) as [u|]; cbn; [|naive_solver]. destruct p; naive_solver.
Qed.

Lemma entry_pair_some k x p : entry_pair (k, x) = Some p <-> k = key_of p /\ in_range p.
Proof using.
  unfold entry_pair, key_of, in_range. cbn [fst]. split.
  - intros E. destruct (todo_row_key_parse k); [done|]. destruct p. by apply index_parse_iff in E.
  - intros [-> [? ?]]. rewrite index_text_not_row. destruct p. by apply index_parse_iff.
Qed.

Lemma row_parse_range k t : todo_row_key_parse k = Some t -> u64_range t.
Proof using.
  intros (Hd & _ & -> & Hle)%todo_row_key_parse_iff. split; [|done]. by apply digits_value_range in Hd as [? _].
Qed.

(** The index agrees with the rows of [m]; everything else is as in [m]. *)
Definition in_step (m m' : gmap bytes bytes) : Prop :=
  (forall u t, u64_range u -> u64_range t ->
     is_Some (m' !! index_text u t) <-> exists k x, m !! k = Some x /\ row_pair (k, x) = Some (u, t)) /\
  rest_kept m m'.

Definition max_row_id (m : gmap bytes bytes) (mx : Z) : Prop :=
  (forall k x t, m !! k = Some x -> todo_row_key_parse k = Some t -> t <= mx) /\
  (mx = 0 \/ exists k x, m !! k = Some x /\ todo_row_key_parse k = Some mx).

Lemma foldl_max l a :
  a <= foldl Z.max a l /\ (forall x, x ∈ l -> x <= foldl Z.max a l) /\ (foldl Z.max a l = a \/ foldl Z.max a l ∈ l).
Proof using.
  revert a. induction l as [|y l IH]; intros a; cbn.
  { split_and!; [lia|by intros x ?%elem_of_nil|by left]. }
  destruct (IH (Z.max a y)) as (H1 & H2 & H3). split_and!; [lia| |].
  - intros x [->|Hx]%elem_of_cons; [lia|by apply H2].
  - destruct H3 as [H3|H3]; [|right; by right].
    destruct (Z.max_spec a y) as [[_ E]|[_ E]]; rewrite E in *; rewrite H3; [right; left|by left].
Qed.

Lemma max_row_id_spec kvs m :
  kvs_sorted kvs -> list_to_map kvs = m -> max_row_id m (foldl Z.max 0 (row_ids kvs)).
Proof using.
  intros Hs Hm. destruct (foldl_max (row_ids kvs) 0) as (_ & H2 & H3). split.
  - intros k x t Hk Ht. apply H2. apply list_elem_of_omap. exists (k, x). split; [|done].
    by apply (kvs_elem kvs m).
  - destruct H3 as [H3|([k x] & Hin & Ht)%list_elem_of_omap]; [by left|]. right. exists k, x.
    split; [by apply (kvs_elem kvs m)|done].
Qed.

Lemma scan_digits_range l v : u64_range v -> u64_range (scan_digits l v).1.
Proof using.
  revert v. induction l as [|c l IH]; intros v Hv; cbn; [done|]. destruct (is_digit c); [|done].
  apply IH. unfold u64_range, u64, UINT64_MAX. pose proof (uwrap_range 64 (v * 10 + (c - 48))). lia.
Qed.

Lemma json_uint64_range body field n : json_get_uint64 body field = Some n -> u64_range n.
Proof using.
  unfold json_get_uint64. destruct (json_find_field body field) as [p|]; [|done]. cbn [mbind option_bind].
  destruct (digit_start p); [|done]. intros [= <-]. apply scan_digits_range. done.
Qed.

(** What the scan collected is what the pass needs. *)
Lemma collected_pass kvs d :
  kv_ok d -> kvs_sorted kvs -> list_to_map kvs = kv_abs d ->
  pass_ok (qsort (omap row_pair kvs)) (qsort (omap entry_pair kvs)) None d.
Proof using.
  intros Hok Hs Hm.
  assert (StronglySorted pair_lt (omap entry_pair kvs)) as Hlt.
  { eapply sorted_omap; [|exact Hs]. intros [k x] [k' x'] p q Hkk (-> & Hp1 & Hp2)%entry_pair_some (-> & Hq1 & Hq2)%entry_pair_some.
    unfold lex_lt in Hkk. cbn in Hkk. unfold key_of in Hkk. rewrite index_text_order in Hkk by done.
    rewrite Z.compare_lt_iff in Hkk. by destruct p, q. }
  assert (NoDup (omap entry_pair kvs)) as Hnd.
  { clear -Hlt. induction Hlt as [|p l Hl IH Hf]; [by apply base.NoDup_nil_2|]. apply list.NoDup_cons.
    split; [|done]. by apply (below_notin pair_lt p l (pair_lt_ne p)). }
  constructor; try done.
  - rewrite list.Forall_forall. intros p Hp. rewrite qsort_perm in Hp.
    apply list_elem_of_omap in Hp as ([k x] & _ & (Hk & Hj)%row_pair_some).
    split; [by eapply json_uint64_range|by eapply row_parse_range].
  - rewrite list.Forall_forall. intros p Hp. rewrite qsort_perm in Hp.
    by apply list_elem_of_omap in Hp as ([k x] & _ & (_ & Hr)%entry_pair_some).
  - apply qsort_sorted.
  - apply sorted_strict; [apply qsort_sorted|]. by rewrite qsort_perm.
  - intros p Hp. rewrite qsort_perm in Hp.
    apply list_elem_of_omap in Hp as ([k x] & Hin & (-> & _)%entry_pair_some).
    exists x. by apply (kvs_elem kvs).
Qed.

Lemma repaired_in_step kvs m m' :
  kvs_sorted kvs -> list_to_map kvs = m ->
  repaired (qsort (omap row_pair kvs)) (qsort (omap entry_pair kvs)) m m' -> in_step m m'.
Proof using.
  intros Hs Hm (H1 & H2 & H3). split.
  - intros u t Hu Ht. split.
    + intros Hin. destruct (decide ((u, t) ∈ qsort (omap row_pair kvs))) as [Hw|Hw].
      { rewrite qsort_perm in Hw. apply list_elem_of_omap in Hw as ([k x] & Hk & Hp). exists k, x.
        split; [by apply (kvs_elem kvs m)|done]. }
      exfalso. assert (m' !! index_text u t = None) as Hn; [|rewrite Hn in Hin; by destruct Hin].
      destruct (decide ((u, t) ∈ qsort (omap entry_pair kvs))) as [He|He]; [by apply (H2 (u, t))|].
      change (index_text u t) with (key_of (u, t)) in *.
      rewrite (repaired_other (qsort (omap row_pair kvs)) (qsort (omap entry_pair kvs)) m m' (u, t)) in * by done.
      destruct (m !! key_of (u, t)) as [x|] eqn:Ek; [|done]. exfalso. apply He. rewrite qsort_perm.
      apply list_elem_of_omap. exists (key_of (u, t), x).
      split; [by apply (kvs_elem kvs m)|by apply entry_pair_some].
    + intros (k & x & Hk & Hp). apply (H1 (u, t)); [done|]. rewrite qsort_perm. apply list_elem_of_omap.
      exists (k, x). split; [by apply (kvs_elem kvs m)|done].
  - intros k Hk. apply H3. intros p _ [? ?] <-. destruct p as [u t].
    rewrite (proj2 (index_parse_iff _ u t)) in Hk by done. done.
Qed.

Lemma filter_nil_prefix (kvs : list (bytes * bytes)) : List.filter (fun x => has_prefix [] x.1) kvs = kvs.
Proof using.
  induction kvs as [|[k x] kvs IH]; [done|]. cbn [List.filter].
  replace (has_prefix [] (k, x).1) with true; [by f_equal|]. symmetry. apply has_prefix_spec. by exists k.
Qed.

(** What one reconcile run has done: on 0 the index agrees with the rows, the
    flag is raised and the highest id reported; on -1 the flag is down. Either
    way only index entries have changed, unless an insertion tore the store. *)
Definition reconciled (m m' : gmap bytes bytes) (rc : Z) (mx : option Z) (ready : bool) : Prop :=
  (rc = 0 /\ ready = true /\ in_step m m' /\ exists x, mx = Some x /\ max_row_id m x) \/ (rc = -1 /\ ready = false).

Lemma reconcile_spec d rc mx ready d' :
  kv_ok d -> todo_index_reconcile realloc_ok d = (rc, mx, ready, d') ->
  kv_le d d' /\
  (kv_torn d < kv_torn d' /\ rc = -1 /\ ready = false \/
   kv_ok d' /\ rest_kept (kv_abs d) (kv_abs d') /\ reconciled (kv_abs d) (kv_abs d') rc mx ready).
Proof using.
  intros Hok. unfold todo_index_reconcile. destruct (kv_begin d) as [o d1] eqn:Eb. ghost_after (kv_begin_mono d) Eb.
  destruct (kv_begin_law _ _ _ Hok Eb) as (Hok1 & E1 & Hlv). destruct o as [txn|]; cycle 1.
  { intros [= <- <- <- <-]. rewrite E1. split; [done|]. right. split_and!; [done|done|by right]. }
  destruct (kv_scan _ txn [] _ _ d1) as [[rc1 r] d2] eqn:Es.
  ghost_after (kv_scan_mono _ txn [] (reconcile_scan_cb realloc_ok) (mkRec empty_vec empty_vec 0 false) d1) Es.
  destruct (kv_scan_law _ _ [] _ _ _ _ _ _ Hok1 Hlv ltac:(done) Es) as (Hok2 & Hlv2 & E2 & Hscan).
  destruct (kv_commit_law txn d2 Hok2 Hlv2) as [Hok3 E3]. destruct (kv_free_law txn _ Hok3) as [Hok4 E4].
  pose proof (kv_commit_mono txn d2) as M3. pose proof (kv_free_mono txn (kv_commit txn d2)) as M4.
  set (d4 := kv_free txn (kv_commit txn d2)) in *. assert (kv_abs d4 = kv_abs d) as E4d by congruence.
  assert (kv_le d d4) as Hle by ghosts.
  destruct (negb (rc1 =? 0) || error r) eqn:Ef.
  { intros [= <- <- <- <-]. rewrite E4d. split; [done|]. right. split_and!; [done|done|by right]. }
  apply orb_false_iff in Ef as [Hz Ee]. apply negb_false_iff, Z.eqb_eq in Hz. subst rc1.
  destruct Hscan as [(_ & kvs & Hs & Hm & Er)|[? _]]; [|done]. rewrite filter_nil_prefix in Er.
  destruct (reconcile_visit realloc_ok kvs (mkRec empty_vec empty_vec 0 false) eq_refl) as (Ew & Eh & Em);
    [by rewrite <- Er|]. rewrite <- Er in Ew, Eh, Em. cbn in Ew, Eh, Em. rewrite Ew, Eh, Em.
  assert (list_to_map kvs = kv_abs d4) as Hm4 by congruence.
  pose proof (collected_pass kvs d4 Hok4 Hs Hm4) as Hp.
  destruct (apply_index_repairs _ _ d4) as [st d5] eqn:Ea.
  destruct (apply_index_repairs_spec _ _ _ _ _ Hp Ea) as (_ & M5 & HR).
  destruct (Z.eqb_spec (failed st) 0) as [Hz|Hz]; cbn [negb]; intros [= <- <- <- <-];
    (split; [ghosts|]);
    (destruct HR as [[? ?]|(Hok5 & Hk & HR)]; [lia || (left; split; [ghosts|done])|right]); rewrite E4d in Hk, HR; (split; [done|]); (split; [done|]); [left|by right].
  split_and!; [done|done|eapply repaired_in_step; [done| |by apply HR]; congruence|].
  eexists. split; [done|]. apply max_row_id_spec; [done|congruence].
Qed.

(** ** When a pass succeeds *)
Record pass_total (w hv : list owner_pair) (repair : option Z) (d : D) : Prop := {
  pt_ok : pass_ok w hv repair d;
  pt_ws : StronglySorted pair_lt w;
  pt_new : forall p, p ∈ w -> p ∉ hv -> kv_abs d !! key_of p = None }.

Lemma pass_in_range w hv repair d p : pass_ok w hv repair d -> p ∈ w \/ p ∈ hv -> in_range p.
Proof using.
  intros Hp. pose proof (pa_w _ _ _ _ Hp) as Hw. pose proof (pa_hv _ _ _ _ Hp) as Hh.
  rewrite list.Forall_forall in Hw, Hh. intros [?|?]; auto.
Qed.

Lemma total_insert x w hv repair repair' (d d' : D) :
  pass_total (x :: w) hv repair d -> Forall (pair_lt x) hv -> kv_ok d' -> handle_ok repair' d' ->
  changed true x (kv_abs d) (kv_abs d') -> pass_total w hv repair' d'.
Proof using.
  intros [Hp Hs Hn] Hlt Hok Hh Hc. destruct (pass_insert x w hv repair repair' d d') as [Hp' _]; [done..|].
  inversion Hs as [|? ? Hs' Hf]; subst. constructor; [done|done|]. intros p Hpw Hph. destruct Hc as [_ ->].
  rewrite lookup_insert_ne; [apply Hn; [by right|done]|]. intros E.
  apply key_of_inj in E as ->; [|apply (pass_in_range _ _ _ _ _ Hp); left; left|apply (pass_in_range _ _ _ _ _ Hp); left; by right].
  by apply (below_notin pair_lt p w (pair_lt_ne p) Hf).
Qed.

Lemma total_delete y w hv repair repair' (d d' : D) :
  pass_total w (y :: hv) repair d -> Forall (pair_lt y) w -> kv_ok d' -> handle_ok repair' d' ->
  changed false y (kv_abs d) (kv_abs d') -> pass_total w hv repair' d'.
Proof using.
  intros [Hp Hs Hn] Hlt Hok Hh Hc. destruct (pass_delete y w hv repair repair' d d') as [Hp' _]; [done..|].
  constructor; [done|done|]. intros p Hpw Hph. destruct Hc as [_ ->].
  destruct (decide (key_of y = key_of p)) as [->|]; [by rewrite lookup_delete_eq|].
  rewrite lookup_delete_ne by done. apply Hn; [done|]. intros [->|?]%elem_of_cons; done.
Qed.

(** The pass counted no failure, or a call of the store failed. *)
Definition pass_succeeds (st : repair_stats) (d : D) (r : repair_stats * option Z * D) : Prop :=
  failed r.1.1 = failed st \/ kv_faults d < kv_faults r.2.

Lemma total_then ins p w hv w1 hv1 st repair d (rest : repair_stats -> option Z -> D -> repair_stats * option Z * D) :
  pass_ok w hv repair d -> in_range p -> change_possible ins p (kv_abs d) ->
  (forall repair1 d1, kv_ok d1 -> handle_ok repair1 d1 -> changed ins p (kv_abs d) (kv_abs d1) -> pass_total w1 hv1 repair1 d1) ->
  (forall st1 repair1 d1, pass_total w1 hv1 repair1 d1 -> pass_succeeds st1 d1 (rest st1 repair1 d1)) ->
  (forall st1 repair1 d1, let '(st', _, d') := rest st1 repair1 d1 in failed st1 <= failed st' /\ kv_le d1 d') ->
  pass_succeeds st d
    (let '(go, (st, repair, d)) := repair_step (change_op ins) p st repair d in
     if go then rest st repair d else (st, repair, d)).
Proof using.
  intros Hp Hr Hc Hstep Hrest Hmono. unfold pass_succeeds in *.
  destruct (repair_step (change_op ins) p st repair d) as [go [[st1 repair1] d1]] eqn:Es.
  destruct (repair_step_spec _ _ _ _ _ _ _ _ _ (pa_ok _ _ _ _ Hp) (pa_handle _ _ _ _ Hp) Hr Es)
    as (Hm & [(Hf & -> & Hok1 & Hh1 & Hch)|(Hf & Hw & _)]).
  - destruct (Hrest st1 repair1 d1 (Hstep _ _ Hok1 Hh1 Hch)) as [?|?]; [left; congruence|right; ghosts].
  - right. specialize (Hw Hc). destruct go; [|done]. specialize (Hmono st1 repair1 d1).
    destruct (rest st1 repair1 d1) as [[st' repair'] d']. cbn. ghosts.
Qed.

Lemma repair_loop_total w hv st repair (d : D) :
  pass_total w hv repair d -> pass_succeeds st d (repair_loop w hv st repair d).
Proof using.
  revert hv st repair d. induction w as [|x w IHw].
  - induction hv as [|y hv IHh]; intros st repair d Hp; rewrite repair_loop_eq; cbv beta zeta; [by left|].
    pose proof (pt_ok _ _ _ _ Hp) as Hpo.
    apply (total_then false y [] (y :: hv) [] hv);
      [done|apply (pass_in_range _ _ _ _ _ Hpo); right; left|apply Hpo; left| |by intros; apply IHh|intros; apply repair_loop_mono].
    intros. by eapply total_delete.
  - induction hv as [|y hv IHh]; intros st repair d Hp; rewrite repair_loop_eq; cbv beta zeta;
      pose proof (pt_ok _ _ _ _ Hp) as Hpo;
      pose proof (pass_in_range _ _ _ _ x Hpo ltac:(left; left)) as Hx.
    + apply (total_then true x (x :: w) [] w []);
        [done|done|apply Hp; [left|apply not_elem_of_nil]| |by intros; apply IHw|intros; apply repair_loop_mono].
      intros. by eapply total_insert.
    + pose proof (pa_ws _ _ _ _ Hpo) as Hws. inversion Hws as [|? ? _ Hxw]; subst.
      pose proof (pt_ws _ _ _ _ Hp) as Hwt. inversion Hwt as [|? ? Hwt' Hxl]; subst.
      pose proof (pa_hs _ _ _ _ Hpo) as Hhs. inversion Hhs as [|? ? _ Hyh]; subst.
      destruct (Z.eqb_spec (pair_compare x y) 0) as [E|Hne].
      { apply pair_compare_eq in E as <-. apply IHw.
        destruct (pass_both _ _ _ _ _ Hpo) as [Hp' _]. constructor; [done|done|].
        intros p Hpw Hph. apply Hp; [by right|]. intros [->|?]%elem_of_cons; [|done].
        by apply (below_notin pair_lt x w (pair_lt_ne x) Hxl). }
      destruct (Z.ltb_spec (pair_compare x y) 0) as [Hlt|Hge].
      * pose proof (below_all x y hv Hlt Hyh) as Hall.
        apply (total_then true x (x :: w) (y :: hv) w (y :: hv));
          [done|done|apply Hp; [left|by apply (below_notin pair_lt x _ (pair_lt_ne x))]| |by intros; apply IHw|intros; apply repair_loop_mono].
        intros. by eapply total_insert.
      * pose proof (above_all x y w ltac:(lia) Hxw) as Hall.
        apply (total_then false y (x :: w) (y :: hv) (x :: w) hv);
          [done|apply (pass_in_range _ _ _ _ _ Hpo); right; left|apply Hpo; left| |by intros; apply IHh|intros; apply repair_loop_mono].
        intros. by eapply total_delete.
Qed.

(** No id has two rows (a second key such as "007" beside "7"). *)
Definition unique_rows (m : gmap bytes bytes) : Prop :=
  forall k k' t, is_Some (m !! k) -> is_Some (m !! k') ->
    todo_row_key_parse k = Some t -> todo_row_key_parse k' = Some t -> k = k'.

Lemma wanted_nodup kvs m :
  kvs_sorted kvs -> list_to_map kvs = m -> unique_rows m -> NoDup (omap row_pair kvs).
Proof using.
  intros Hs Hm Hu.
  assert (forall k x, (k, x) ∈ kvs -> is_Some (m !! k)) as Hin.
  { intros k x Hk. exists x. by apply (kvs_elem kvs m). }
  pose proof (kvs_nodup kvs Hs) as Hnd. clear Hs Hm.
  induction kvs as [|[k x] kvs IH]; cbn; [by apply base.NoDup_nil_2|].
  cbn in Hnd. apply list.NoDup_cons in Hnd as [Hk Hnd].
  assert (NoDup (omap row_pair kvs)) as Hrest by (apply IH; [|done]; intros; eapply Hin; by right).
  destruct (row_pair (k, x)) as [p|] eqn:Ep; [|done]. apply list.NoDup_cons. split; [|done].
  intros ([k' x'] & Hk' & Ep')%list_elem_of_omap. apply row_pair_some in Ep as [Ep _]. apply row_pair_some in Ep' as [Ep' _].
  assert (k = k') as ->; [|apply Hk, list_elem_of_fmap; by exists (k', x')].
  eapply Hu; [eapply Hin; left|eapply Hin; by right|done..].
Qed.

Lemma wanted_pass kvs d :
  kv_ok d -> kvs_sorted kvs -> list_to_map kvs = kv_abs d -> unique_rows (kv_abs d) ->
  pass_total (qsort (omap row_pair kvs)) (qsort (omap entry_pair kvs)) None d.
Proof using.
  intros Hok Hs Hm Hu. pose proof (collected_pass kvs d Hok Hs Hm) as Hp. constructor; [done| |].
  - apply sorted_strict; [apply qsort_sorted|]. rewrite qsort_perm. by apply (wanted_nodup kvs (kv_abs d)).
  - intros p Hpw Hph. destruct (kv_abs d !! key_of p) as [x|] eqn:Ek; [|done]. exfalso. apply Hph.
    rewrite qsort_perm. apply list_elem_of_omap. exists (key_of p, x).
    split; [by apply (kvs_elem kvs (kv_abs d))|]. apply entry_pair_some. split; [done|].
    apply (pass_in_range _ _ _ _ p Hp). by left.
Qed.

(** When no id has two rows and memory is granted, a run fails only where a call
    of the store did. *)
Lemma reconcile_total (d : D) rc mx ready d' :
  kv_ok d -> unique_rows (kv_abs d) -> (forall n, realloc_ok n = true) ->
  todo_index_reconcile realloc_ok d = (rc, mx, ready, d') ->
  rc = 0 \/ kv_faults d < kv_faults d'.
Proof using.
  intros Hok Hu Hre. unfold todo_index_reconcile.
  destruct (kv_begin d) as [o d1] eqn:Eb. destruct (kv_begin_law _ _ _ Hok Eb) as (Hok1 & E1 & Hlv).
  ghost_after (kv_begin_mono d) Eb. destruct o as [txn|]; [|intros [= <- <- <- <-]; by right].
  destruct (kv_scan _ txn [] _ _ d1) as [[rc1 r] d2] eqn:Es.
  destruct (kv_scan_law _ _ [] _ _ _ _ _ _ Hok1 Hlv ltac:(done) Es) as (Hok2 & Hlv2 & E2 & Hscan).
  ghost_after (kv_scan_mono _ txn [] (reconcile_scan_cb realloc_ok) (mkRec empty_vec empty_vec 0 false) d1) Es.
  destruct (kv_commit_law txn d2 Hok2 Hlv2) as [Hok3 E3]. destruct (kv_free_law txn _ Hok3) as [Hok4 E4].
  pose proof (kv_commit_mono txn d2) as M3. pose proof (kv_free_mono txn (kv_commit txn d2)) as M4.
  set (d4 := kv_free txn (kv_commit txn d2)) in *.
  destruct Hscan as [(-> & kvs & Hs & Hm & Er)|[Hrc Hft]]; cycle 1.
  { rewrite (proj2 (Z.eqb_neq rc1 0) Hrc). cbn [negb orb]. intros [= <- <- <- <-]. right. ghosts. }
  rewrite filter_nil_prefix in Er.
  pose proof (reconcile_visit_total realloc_ok kvs (mkRec empty_vec empty_vec 0 false) Hre eq_refl) as Ee.
  destruct (reconcile_visit realloc_ok kvs (mkRec empty_vec empty_vec 0 false) eq_refl Ee) as (Ew & Eh & Em).
  rewrite <- Er in Ee, Ew, Eh, Em. rewrite Ee. cbn [negb orb Z.eqb]. cbn in Ew, Eh. rewrite Ew, Eh.
  assert (kv_abs d4 = kv_abs d) as E4d by congruence.
  pose proof (wanted_pass kvs d4 Hok4 Hs ltac:(congruence) ltac:(by rewrite E4d)) as Hpt.
  pose proof (repair_loop_total _ _ (mkStats 0 0 0) None d4 Hpt) as Hf. unfold pass_succeeds in Hf.
  unfold apply_index_repairs. destruct (repair_loop _ _ _ None d4) as [[st rp] d5]. cbn [fst snd] in Hf.
  assert (exists d6, kv_le d5 d6 /\ match rp with Some h => (st, kv_free h (kv_commit h d5)) | None => (st, d5) end = (st, d6)) as (d6 & M6 & ->).
  { destruct rp as [h|]; [|by exists d5]. eexists. split; [|done]. etrans; [apply kv_commit_mono|apply kv_free_mono]. }
  change (failed (mkStats 0 0 0)) with 0 in Hf. destruct (Z.eqb_spec (failed st) 0); cbn [negb]; intros [= <- <- <- <-]; [by left|right].
  destruct Hf as [?|?]; [done|ghosts].
Qed.
End laws.

(** ** The abstract database
    A sorted association list whose calls all do what they are asked: the
    contract of the interface as an object of its own. *)
Module RefStore.

Fixpoint insert_sorted (k v : bytes) (l : list (bytes * bytes)) : list (bytes * bytes) :=
  match l with
  | [] => [(k, v)]
  | (k', v') :: l' =>
      match lex k k' with
      | Lt => (k, v) :: l
      | _ => (k', v') :: insert_sorted k v l'
      end
  end.

Definition has_key (k : bytes) (l : list (bytes * bytes)) : bool := bool_decide (k ∈ l.*1).

#[export] Instance ref_store : KvStore (list (bytes * bytes)) := {|
  kv_begin l := (Some 1, l);
  kv_commit _ l := l;
  kv_abort _ l := l;
  kv_free _ l := l;
  kv_insert _ k v l := if has_key k l then (-1, l) else (0, insert_sorted k v l);
  kv_delete _ k l := if has_key k l then (0, List.filter (fun x => negb (bool_decide (x.1 = k))) l) else (-1, l);
  kv_search _ k cap l :=
    match List.find (fun x => bool_decide (x.1 = k)) l with
    | Some x => (0, ztake (Z.min (zlen x.2) cap) x.2, zlen x.2, l)
    | None => (-1, [], cap, l)
    end;
  kv_scan C _ prefix cb c l := (0, visit cb (List.filter (fun x => has_prefix prefix x.1) l) c, l) |}.

Lemma insert_sorted_keys k v l x : x ∈ insert_sorted k v l <-> x = (k, v) \/ x ∈ l.
Proof.
  induction l as [|[k' v'] l IH]; cbn; [by rewrite list_elem_of_singleton, elem_of_nil; naive_solver|].
  destruct (lex k k'); rewrite !elem_of_cons, ?IH, ?elem_of_cons; naive_solver.
Qed.

Lemma insert_sorted_spec k v l :
  kvs_sorted l -> k ∉ l.*1 ->
  kvs_sorted (insert_sorted k v l) /\
  list_to_map (M := gmap bytes bytes) (insert_sorted k v l) = <[k := v]> (list_to_map l).
Proof.
  unfold kvs_sorted. induction 1 as [|[k' v'] l Hs IH Hf]; intros Hk; cbn.
  { split; [repeat constructor|done]. }
  cbn in Hk. apply not_elem_of_cons in Hk as [Hne Hk]. destruct (IH Hk) as [Hs' E].
  pose proof (lex_antisym k k') as Ha. destruct (lex k k') eqn:El.
  - by apply lex_eq in El.
  - split; [|done]. constructor; [by constructor|]. constructor; [done|].
    eapply list.Forall_impl; [exact Hf|]. cbn. intros y Hy. by eapply lex_trans.
  - split; [constructor; [done|]|cbn; rewrite E; by apply insert_insert_ne].
    apply list.Forall_forall. intros y [->|Hy]%insert_sorted_keys; [exact Ha|].
    rewrite list.Forall_forall in Hf. by apply Hf.
Qed.

Lemma has_key_spec k (l : list (bytes * bytes)) :
  if has_key k l then is_Some (list_to_map (M := gmap bytes bytes) l !! k)
  else k ∉ l.*1 /\ list_to_map (M := gmap bytes bytes) l !! k = None.
Proof.
  unfold has_key. case_bool_decide as Hk.
  - destruct (list_to_map l !! k) as [x|] eqn:E; [by exists x|]. by apply not_elem_of_list_to_map_2 in E.
  - split; [done|]. by apply not_elem_of_list_to_map_1.
Qed.

Lemma remove_map k (l : list (bytes * bytes)) :
  list_to_map (M := gmap bytes bytes) (List.filter (fun x => negb (bool_decide (x.1 = k))) l) =
  delete k (list_to_map l).
Proof.
  induction l as [|[k' v'] l IH]; cbn; [by rewrite delete_empty|]. case_bool_decide as E; cbn.
  - subst k'. by rewrite delete_insert_eq.
  - rewrite IH. by rewrite delete_insert_ne.
Qed.

Lemma find_key_spec k l :
  kvs_sorted l ->
  match List.find (fun x => bool_decide (x.1 = k)) l with
  | Some x => (list_to_map l : gmap bytes bytes) !! k = Some x.2
  | None => (list_to_map l : gmap bytes bytes) !! k = None
  end.
Proof.
  intros Hs. destruct (List.find _ l) as [[k' v]|] eqn:E.
  - apply find_some in E as [Hin Hk]. apply bool_decide_eq_true in Hk. cbn in Hk. subst k'.
    apply elem_of_list_to_map_1; [by apply kvs_nodup|]. by apply list_elem_of_In.
  - apply not_elem_of_list_to_map_1. rewrite list_elem_of_fmap. intros (x & -> & Hin).
    apply list_elem_of_In in Hin. pose proof (find_none _ _ E x Hin) as Hn. by apply bool_decide_eq_false in Hn.
Qed.

#[export, refine] Instance ref_store_laws : KvStoreLaws (list (bytes * bytes)) := {|
  kv_ghost := {| kv_faults _ := 0; kv_torn _ := 0 |};
  kv_ok := kvs_sorted; kv_live _ _ := True; kv_abs l := list_to_map l |}.
Proof.
  all: try done.
  - intros d r d' Hok [= <- <-]. done.
  - cbn. intros h k v rc d d' Hok _ _. pose proof (has_key_spec k d) as Hk. destruct (has_key k d).
    + intros [= <- <-]. destruct Hk as [x ->]. done.
    + intros [= <- <-]. destruct Hk as [Hk ->]. destruct (insert_sorted_spec k v d Hok Hk). by left.
  - cbn. intros h k rc d d' Hok _. pose proof (has_key_spec k d) as Hk. destruct (has_key k d); intros [= <- <-].
    + split_and!; [by apply sorted_filter|done|]. left. split_and!; [done|done|apply remove_map].
    + split_and!; [done|done|]. right. split_and!; [done|done|left; apply Hk].
  - cbn. intros h k cap d rc v n d' Hok _. pose proof (find_key_spec k d Hok) as Hf.
    destruct (List.find _ d) as [x|]; intros [= <- <- <- <-]; split_and!; try done; [left|right].
    + split; [done|]. by exists x.2.
    + split; [done|by left].
  - cbn. intros C h prefix cb c d rc c' d' Hok _ _ [= <- <- <-]. split_and!; try done. left. split; [done|]. by exists d.
Defined.
End RefStore.
