(* ===== verification/KvEngine.v ===== *)
(** * The storage engine keeps the promises of the key-value interface

    [todo_index.c] and [user_auth.c] call db.c and txn.c; [KvStore] is the
    interface they are written against. Here db.c and txn.c over the buffer
    pool become an instance of it, and the theorems on the tree discharge its
    laws. [kd_pairs], [kd_faults] and [kd_torn] are ghosts: what the calls that
    reported success add up to, how many calls failed though the pairs gave no
    reason (no memory for a handle, a page that could not be loaded or
    allocated), and how many of these were insertions, which may leave a split
    without its separator. No result depends on them. *)
From stdpp Require Import fin_sets.
From S2P Require Import Prelude BtreePage Wal Pager PagerProofs Store Txn Db DbProofs DbScan DbSplit DbInsert TodoIndex.

Local Open Scope Z_scope.

(** The engine as its clients see it: pages, transactions, [malloc]'s answers
    for handles, and the ghosts. *)
Record kv_db := mkKv {
  kd_pager : pager; kd_txns : txn_manager; kd_mallocs : list bool;
  kd_pairs : gmap bytes bytes; kd_faults : Z; kd_torn : Z }.

Definition absent (k : bytes) (d : kv_db) : bool := match kd_pairs d !! k with Some _ => false | None => true end.
(** The database after a call: new pages and transactions, the same ghosts
    unless the call says otherwise. *)
Definition kd_set (s : pager) (m : txn_manager) (d : kv_db) : kv_db := mkKv s m (kd_mallocs d) (kd_pairs d) (kd_faults d) (kd_torn d).
Definition kd_fault (unexplained : bool) (d : kv_db) : kv_db :=
  if unexplained then mkKv (kd_pager d) (kd_txns d) (kd_mallocs d) (kd_pairs d) (kd_faults d + 1) (kd_torn d) else d.
Definition kd_tear (unexplained : bool) (d : kv_db) : kv_db :=
  if unexplained then mkKv (kd_pager d) (kd_txns d) (kd_mallocs d) (kd_pairs d) (kd_faults d + 1) (kd_torn d + 1) else d.
Definition kd_write (m : gmap bytes bytes) (d : kv_db) : kv_db :=
  mkKv (kd_pager d) (kd_txns d) (kd_mallocs d) m (kd_faults d) (kd_torn d).

Section engine.
Context (crc32 : bytes -> Z) (root_page_id : Z) (now : Z).
#[local] Existing Instance pager_store.
#[local] Existing Instance pager_store_laws.
#[local] Instance kv_page_store : PageStore pager := pager_store crc32.
#[local] Instance kv_page_laws : PageStoreLaws pager := pager_store_laws crc32.

(** A walk along the leaves visits each page of the file at most once. *)
Definition scan_fuel (s : pager) : nat := BTREE_MAX_DEPTH + Z.to_nat (pg_next_page_id s).

Definition kd_set_txn (h : Z) (t : option transaction) (m : txn_manager) : txn_manager :=
  match t with
  | Some t => mkTxns (<[h := t]> (txn_heap m)) (active_transactions m) (next_txn_id m)
                (transactions_committed m) (transactions_aborted m)
  | None => m
  end.

Definition kd_begin (d : kv_db) : option Z * kv_db :=
  let '(ok, mallocs) := match kd_mallocs d with [] => (true, []) | b :: l => (b, l) end in
  let ptr := if ok : bool then Some (fresh (dom (txn_heap (kd_txns d)) : gset Z)) else None in
  let '(h, m) := begin_transaction ptr now (kd_txns d) (kd_pager d) in
  (h, kd_fault (match h with Some _ => false | None => true end)
        (mkKv (kd_pager d) m mallocs (kd_pairs d) (kd_faults d) (kd_torn d))).

Definition kd_commit (h : Z) (d : kv_db) : kv_db :=
  let '(_, m, s) := commit_transaction (Some h) now (kd_txns d) (kd_pager d) in kd_set s m d.

Definition kd_abort (h : Z) (d : kv_db) : kv_db :=
  let '(_, m, s) := abort_transaction (Some h) (kd_txns d) (kd_pager d) in kd_set s m d.

(** [free(txn)]. *)
Definition kd_free (h : Z) (d : kv_db) : kv_db :=
  let m := kd_txns d in
  kd_set (kd_pager d) (mkTxns (base.delete h (txn_heap m)) (active_transactions m) (next_txn_id m)
    (transactions_committed m) (transactions_aborted m)) d.

Definition kd_insert (h : Z) (k v : bytes) (d : kv_db) : Z * kv_db :=
  let '(rc, t, s) := db_insert root_page_id (txn_heap (kd_txns d) !! h) k v (kd_pager d) in
  let d1 := kd_set s (kd_set_txn h t (kd_txns d)) d in
  (rc, if rc =? 0 then kd_write (<[k := v]> (kd_pairs d)) d1 else kd_tear (absent k d) d1).

Definition kd_delete (h : Z) (k : bytes) (d : kv_db) : Z * kv_db :=
  let '(rc, t, s) := db_delete root_page_id BTREE_MAX_DEPTH (txn_heap (kd_txns d) !! h) k (kd_pager d) in
  let rc := default (-1) rc in
  let d1 := kd_set s (kd_set_txn h t (kd_txns d)) d in
  (rc, if rc =? 0 then kd_write (base.delete k (kd_pairs d)) d1 else kd_fault (negb (absent k d)) d1).

Definition kd_search (h : Z) (k : bytes) (cap : Z) (d : kv_db) : Z * bytes * Z * kv_db :=
  let '(r, s) := db_search root_page_id BTREE_MAX_DEPTH (txn_heap (kd_txns d) !! h) k cap (kd_pager d) in
  let '(rc, v, n) := default (-1, [], cap) r in
  (rc, v, n, kd_fault (negb (rc =? 0) && negb (absent k d)) (kd_set s (kd_txns d) d)).

Definition kd_scan (C : Type) (h : Z) (prefix : bytes) (cb : bytes -> bytes -> C -> Z * C) (c : C) (d : kv_db)
    : Z * C * kv_db :=
  let '(r, c, s) := db_scan_prefix root_page_id cb (scan_fuel (kd_pager d)) (txn_heap (kd_txns d) !! h) prefix c (kd_pager d) in
  let rc := default (-1) r in
  (rc, c, kd_fault (negb (rc =? 0)) (kd_set s (kd_txns d) d)).

#[export] Instance kv_engine : KvStore kv_db := {|
  kv_begin := kd_begin; kv_commit := kd_commit; kv_abort := kd_abort; kv_free := kd_free; kv_insert := kd_insert;
  kv_delete := kd_delete; kv_search := kd_search; kv_scan := kd_scan |}.

(** ** The laws *)
Definition kd_ok (d : kv_db) : Prop :=
  exists ids kvs, db_inv root_page_id (kd_pager d) ids kvs /\ kv_map kvs = kd_pairs d.
Definition kd_live (h : Z) (d : kv_db) : Prop :=
  exists t, txn_heap (kd_txns d) !! h = Some t /\ txn_is_active t = true.

Lemma ids_bound (ids : list Z) n : NoDup ids -> Forall (fun id => 0 < id < n) ids -> (length ids <= Z.to_nat n)%nat.
Proof.
  intros Hnd Hr. assert (ids ⊆+ map Z.of_nat (seq 0 (Z.to_nat n))) as Hs.
  { apply NoDup_submseteq; [done|]. intros x Hx. rewrite list.Forall_forall in Hr. specialize (Hr x Hx).
    apply list_elem_of_fmap. exists (Z.to_nat x). split; [lia|]. apply elem_of_seq. lia. }
  apply submseteq_length in Hs. rewrite length_map, length_seq in Hs. done.
Qed.

Lemma db_inv_scan_fuel s ids kvs :
  db_inv root_page_id s ids kvs -> (BTREE_MAX_DEPTH <= scan_fuel s)%nat /\ (length ids <= scan_fuel s)%nat.
Proof.
  intros Hdb. split; [unfold scan_fuel; lia|]. pose proof (ids_bound ids (pg_next_page_id s)) as Hb.
  assert (length ids <= Z.to_nat (pg_next_page_id s))%nat; [|unfold scan_fuel; lia].
  apply Hb; [apply Hdb|]. eapply list.Forall_impl; [apply (di_used _ _ _ _ Hdb)|]. intros x [Hx _]. exact Hx.
Qed.

Lemma commit_kept (m : txn_manager) h (s : pager) r m' s' ids kvs :
  db_inv root_page_id s ids kvs -> commit_transaction (Some h) now m s = (r, m', s') -> db_inv root_page_id s' ids kvs.
Proof.
  intros Hdb. unfold commit_transaction. destruct (active_txn (Some h) m) as [[a t]|]; [|by intros [= <- <- <-]].
  destruct (ps_enable_wal s); [|by intros [= <- <- <-]].
  destruct (ps_write_wal_record (txn_id t) WAL_COMMIT 0 [] s) as [r1 s1] eqn:E1.
  destruct (ps_flush_wal_buffer s1) as [r2 s2] eqn:E2. intros [= <- <- <-].
  pose proof (di_store _ _ _ _ Hdb) as Hi.
  destruct (ps_log_law _ _ _ _ _ _ _ _ Hi E1) as (Hi1 & Hv1 & Hp1 & Hu1 & _).
  destruct (ps_flush_law _ _ _ _ Hi1 E2) as (Hi2 & Hv2 & Hp2 & Hu2 & _).
  eapply db_inv_kept; [exact Hdb| |].
  - constructor; [done| |].
    + intros j p _ Hj. by rewrite Hv2, Hv1.
    + intros j. by rewrite Hu2, Hu1.
  - intros j. rewrite Hp2, Hp1. apply (di_pins _ _ _ _ Hdb).
Qed.


Lemma live_set_txn h t (m : txn_manager) : txn_is_active t = true ->
  exists t', txn_heap (kd_set_txn h (Some t) m) !! h = Some t' /\ txn_is_active t' = true.
Proof. intros Ht. exists t. split; [|done]. cbn. by rewrite lookup_insert_eq. Qed.

Lemma kd_begin_law d r d' : kd_ok d -> kd_begin d = (r, d') ->
  kd_ok d' /\ kd_pairs d' = kd_pairs d /\ match r with Some h => kd_live h d' | None => kd_faults d < kd_faults d' end.
Proof.
  intros Hok. unfold kd_begin.
  destruct (match kd_mallocs d with [] => _ | _ => _ end) as [[] l]; cbn; intros [= <- <-];
    (split; [exact Hok|split; [done|]]); [|cbn; lia].
  unfold kd_live. cbn. rewrite lookup_insert_eq. eexists. split; [done|]. done.
Qed.

Lemma kd_commit_law h d : kd_ok d -> kd_live h d -> kd_ok (kd_commit h d) /\ kd_pairs (kd_commit h d) = kd_pairs d.
Proof.
  intros (ids & kvs & Hdb & Ha) _. unfold kd_commit.
  destruct (commit_transaction (Some h) now (kd_txns d) (kd_pager d)) as [[rc m] s] eqn:E.
  split; [|done]. exists ids, kvs. split; [|done]. by eapply commit_kept.
Qed.

Lemma kd_abort_law h d : kd_ok d -> kd_live h d -> kd_ok (kd_abort h d) /\ kd_pairs (kd_abort h d) = kd_pairs d.
Proof.
  intros (ids & kvs & Hdb & Ha) _. unfold kd_abort, abort_transaction.
  destruct (active_txn (Some h) (kd_txns d)) as [[a t]|]; [|split; [by exists ids, kvs|done]].
  destruct (ps_enable_wal (kd_pager d)); [|split; [by exists ids, kvs|done]].
  destruct (ps_write_wal_record (txn_id t) WAL_ABORT 0 [] (kd_pager d)) as [r1 s1] eqn:E1. split; [|done].
  exists ids, kvs. split; [|done]. pose proof (di_store _ _ _ _ Hdb) as Hi.
  destruct (ps_log_law _ _ _ _ _ _ _ _ Hi E1) as (Hi1 & Hv1 & Hp1 & Hu1 & _).
  eapply db_inv_kept; [exact Hdb| |].
  - constructor; [done| |].
    + intros j p _ Hj. cbn. by rewrite Hv1.
    + intros j. cbn. by rewrite Hu1.
  - intros j. cbn. rewrite Hp1. apply (di_pins _ _ _ _ Hdb).
Qed.

Lemma kd_insert_law h k v rc d d' :
  kd_ok d -> kd_live h d -> storable k v -> kd_insert h k v d = (rc, d') ->
  match kd_pairs d !! k with
  | Some _ => rc <> 0 /\ kd_ok d' /\ kd_live h d' /\ kd_pairs d' = kd_pairs d
  | None => rc = 0 /\ kd_ok d' /\ kd_live h d' /\ kd_pairs d' = <[k := v]> (kd_pairs d) \/
            rc <> 0 /\ kd_faults d < kd_faults d' /\ kd_torn d < kd_torn d'
  end.
Proof.
  intros (ids & kvs & Hdb & Ha) (t & Ht & Hact) (Hkb & Hvb & Hkl & Hvl). unfold kd_insert. rewrite Ht.
  destruct (db_insert root_page_id (Some t) k v (kd_pager d)) as [[rc' t'] s] eqn:E.
  destruct (db_insert_spec root_page_id _ _ _ _ _ _ _ _ _ Hdb Hact Hkb Hvb Hkl Hvl E) as (t1 & -> & Hr & _). unfold absent. rewrite <- Ha.
  destruct Hr as [_ [(-> & -> & Hn & l' & kvs' & Hdb' & Hm)|(-> & -> & _ & Hk)]]; intros [= <- <-]; cbn [Z.eqb].
  - rewrite Hn. left. split; [done|]. split; [exists l', kvs'; done|]. split; [apply live_set_txn; done|done].
  - destruct (kv_map kvs !! k) as [x|]; cbn [kd_tear].
    + split; [done|]. split; [exists ids, kvs; split; [by apply Hk; eexists|done]|]. split; [apply live_set_txn; done|done].
    + right. cbn. split_and!; [done|lia|lia].
Qed.

Lemma kd_delete_law h k rc d d' :
  kd_ok d -> kd_live h d -> kd_delete h k d = (rc, d') ->
  kd_ok d' /\ kd_live h d' /\
  (rc = 0 /\ is_Some (kd_pairs d !! k) /\ kd_pairs d' = base.delete k (kd_pairs d) \/
   rc <> 0 /\ kd_pairs d' = kd_pairs d /\ (kd_pairs d !! k = None \/ kd_faults d < kd_faults d')).
Proof.
  intros (ids & kvs & Hdb & Ha) (t & Ht & Hact). unfold kd_delete. rewrite Ht.
  destruct (db_delete root_page_id BTREE_MAX_DEPTH (Some t) k (kd_pager d)) as [[rc' t'] s] eqn:E.
  destruct (db_delete_spec root_page_id _ _ _ _ _ _ _ _ _ Hdb Hact (Nat.le_refl _) E) as [_ Hr]. unfold absent. rewrite <- Ha.
  destruct Hr as [(-> & -> & Hs & kvs' & Hdb' & Hm)|(-> & -> & Hdb' & _)]; intros [= <- <-]; cbn [default from_option id Z.eqb].
  - split; [exists ids, kvs'; done|]. split; [apply live_set_txn; done|]. by left.
  - destruct (kv_map kvs !! k) as [x|]; cbn [negb kd_fault];
      (split; [exists ids, kvs; done|]); (split; [apply live_set_txn; done|]); right; (split; [done|]); (split; [done|]); [right; cbn; lia|by left].
Qed.

Lemma kd_search_law h k cap d rc v n d' :
  kd_ok d -> kd_live h d -> kd_search h k cap d = (rc, v, n, d') ->
  kd_ok d' /\ kd_live h d' /\ kd_pairs d' = kd_pairs d /\
  (rc = 0 /\ (exists x, kd_pairs d !! k = Some x /\ v = ztake (Z.min (zlen x) cap) x /\ n = zlen x) \/
   rc <> 0 /\ (kd_pairs d !! k = None \/ kd_faults d < kd_faults d')).
Proof.
  intros (ids & kvs & Hdb & Ha) (t & Ht & Hact). unfold kd_search. rewrite Ht.
  destruct (db_search root_page_id BTREE_MAX_DEPTH (Some t) k cap (kd_pager d)) as [r s] eqn:E.
  destruct (db_search_spec root_page_id _ _ _ _ _ _ _ _ _ Hdb Hact (Nat.le_refl _) E) as (Hdb' & _ & Hr).
  destruct (default (-1, [], cap) r) as [[rc0 v0] n0] eqn:Er. intros [= <- <- <- <-].
  assert (forall b, kd_ok (kd_fault b (kd_set s (kd_txns d) d)) /\ kd_live h (kd_fault b (kd_set s (kd_txns d) d)) /\
    kd_pairs (kd_fault b (kd_set s (kd_txns d) d)) = kd_pairs d) as Hf
    by (intros []; (split; [exists ids, kvs; done|]); (split; [exists t; done|done])).
  destruct (Hf (negb (rc0 =? 0) && negb (absent k d))) as (? & ? & ?). split_and!; [done..|].
  destruct (Z.eqb_spec rc0 0) as [->|Hrc]; [left; split; [done|]|right; split; [done|]].
  - destruct Hr as [->|[-> _]]; [|done]. cbn in Er. unfold search_result in Er. rewrite <- Ha.
    destruct (kv_map kvs !! k) as [x|]; [|done]. injection Er as <- <-. by exists x.
  - unfold absent. destruct (kd_pairs d !! k); [right; cbn; lia|by left].
Qed.

Lemma kd_scan_law C h prefix (cb : bytes -> bytes -> C -> Z * C) c d rc c' d' :
  kd_ok d -> kd_live h d -> zlen prefix <= MAX_KEY_SIZE -> kd_scan C h prefix cb c d = (rc, c', d') ->
  kd_ok d' /\ kd_live h d' /\ kd_pairs d' = kd_pairs d /\
  (rc = 0 /\ (exists kvs, kvs_sorted kvs /\ list_to_map kvs = kd_pairs d /\
     c' = visit cb (List.filter (fun x => has_prefix prefix x.1) kvs) c) \/
   rc <> 0 /\ kd_faults d < kd_faults d').
Proof.
  intros (ids & kvs & Hdb & Ha) (t & Ht & Hact) Hp. unfold kd_scan, db_scan_prefix. rewrite Ht.
  destruct (scan_range root_page_id cb (scan_fuel (kd_pager d)) (Some t) prefix c (kd_pager d)) as [[r c1] s] eqn:E.
  destruct (db_inv_scan_fuel _ _ _ Hdb) as [Hf1 Hf2].
  destruct (scan_range_spec root_page_id cb _ _ _ _ _ _ _ _ _ _ Hdb Hact Hp Hf1 Hf2 E) as (Hdb' & _ & Hr). cbv zeta.
  destruct Hr as [[-> ->]|[-> _]]; intros [= <- <- <-]; cbn [default from_option id Z.eqb negb kd_fault];
    (split; [exists ids, kvs; done|]); (split; [exists t; done|]); (split; [done|]); [left|right; split; [done|cbn; lia]].
  split; [done|]. exists kvs. destruct (di_tree _ _ _ _ Hdb) as (? & ? & _ & Hn & _). split; [by eapply node_sorted|]. done.
Qed.

(** ** The ghosts only grow *)
#[local] Instance kv_engine_ghost : KvGhost kv_db := {| kv_faults := kd_faults; kv_torn := kd_torn |}.

Lemma kd_fault_le b (d d1 : kv_db) : kv_le d d1 -> kv_le d (kd_fault b d1).
Proof. unfold kv_le. destruct b; cbn; lia. Qed.
Lemma kd_tear_le b (d d1 : kv_db) : kv_le d d1 -> kv_le d (kd_tear b d1).
Proof. unfold kv_le. destruct b; cbn; lia. Qed.
Lemma kd_set_le s m (d : kv_db) : kv_le d (kd_set s m d).
Proof. split; cbn; lia. Qed.

#[local] Ltac grows := repeat case_match; simplify_eq; repeat first [apply kd_fault_le | apply kd_tear_le | apply kd_set_le]; try (split; cbn; lia).
Lemma kd_begin_mono (d : kv_db) : kv_le d (kd_begin d).2.
Proof. unfold kd_begin. repeat case_match; simplify_eq/=; split; cbn; lia. Qed.
Lemma kd_commit_mono h (d : kv_db) : kv_le d (kd_commit h d).
Proof. unfold kd_commit. grows. Qed.
Lemma kd_abort_mono h (d : kv_db) : kv_le d (kd_abort h d).
Proof. unfold kd_abort. grows. Qed.
Lemma kd_insert_mono h k v (d : kv_db) : kv_le d (kd_insert h k v d).2.
Proof. unfold kd_insert. destruct (db_insert _ _ _ _ _) as [[rc t] s]. cbn [snd]. destruct (rc =? 0); grows. Qed.
Lemma kd_delete_mono h k (d : kv_db) : kv_le d (kd_delete h k d).2.
Proof. unfold kd_delete. destruct (db_delete _ _ _ _ _) as [[rc t] s]. cbn [snd]. destruct (default (-1) rc =? 0); grows. Qed.
Lemma kd_search_mono h k cap (d : kv_db) : kv_le d (kd_search h k cap d).2.
Proof. unfold kd_search. destruct (db_search _ _ _ _ _ _) as [r s]. destruct (default (-1, [], cap) r) as [[rc v] n]. cbn [snd]. grows. Qed.
Lemma kd_scan_mono C h prefix (cb : bytes -> bytes -> C -> Z * C) c (d : kv_db) : kv_le d (kd_scan C h prefix cb c d).2.
Proof. unfold kd_scan. destruct (db_scan_prefix _ _ _ _ _ _ _) as [[r c1] s]. cbn [snd]. grows. Qed.

(** The engine is an implementation of the interface its clients are proved against. *)
#[export] Instance kv_engine_laws : KvStoreLaws kv_db := {|
  kv_ghost := kv_engine_ghost; kv_ok := kd_ok; kv_live := kd_live; kv_abs := kd_pairs;
  kv_begin_law := kd_begin_law; kv_commit_law := kd_commit_law; kv_abort_law := kd_abort_law;
  kv_free_law := fun h d H => conj H eq_refl;
  kv_insert_law := kd_insert_law; kv_delete_law := kd_delete_law; kv_search_law := kd_search_law; kv_scan_law := kd_scan_law;
  kv_begin_mono := kd_begin_mono; kv_commit_mono := kd_commit_mono; kv_abort_mono := kd_abort_mono;
  kv_free_mono := fun h d => kd_set_le _ _ d;
  kv_insert_mono := kd_insert_mono; kv_delete_mono := kd_delete_mono; kv_search_mono := kd_search_mono; kv_scan_mono := kd_scan_mono |}.
End engine.
