(* ===== verification/Selection.v ===== *)
(** * Backend selection (balancer/src/selection.c)

    The four strategies, passive health (mark_backend_failure and
    mark_backend_success of balancer.c) and the address hash of net_util.c the
    ip-hash strategy rests on. The pool is the list of the first
    [backend_count] slots; a selected [backend_t *] is its index. [int] fields
    are exact integers: [round_robin_bounds] gives the range the weights stay
    in. *)
From S2P Require Import Prelude.

Local Open Scope Z_scope.

Definition HEALTH_FAILURE_THRESHOLD : Z := 3.
Definition HEALTH_RECOVERY_SECS : Z := 30.

(** The fields of [backend_t] selection and health use. *)
Record backend := mkBackend {
  current_weight : Z; weight : Z; current_connections : Z; failed_requests : Z;
  consecutive_failures : Z; health_status : Z; last_health_check : Z }.

Definition set_current_weight (w : Z) (b : backend) : backend :=
  mkBackend w (weight b) (current_connections b) (failed_requests b) (consecutive_failures b)
    (health_status b) (last_health_check b).
Definition set_health (failures status : Z) (b : backend) : backend :=
  mkBackend (current_weight b) (weight b) (current_connections b) (failed_requests b) failures
    status (last_health_check b).

Definition healthy (b : backend) : bool := health_status b =? 1.

(** ** Health *)
Definition recover (now : Z) (b : backend) : backend :=
  if (health_status b =? 0) && (now - last_health_check b >=? HEALTH_RECOVERY_SECS)
  then set_health 0 1 b else b.
Definition passive_recovery (now : Z) (bs : list backend) : list backend := map (recover now) bs.

Definition mark_backend_failure (now : Z) (b : backend) : backend :=
  let failures := consecutive_failures b + 1 in
  mkBackend (current_weight b) (weight b) (current_connections b) (failed_requests b + 1) failures
    (if failures >=? HEALTH_FAILURE_THRESHOLD then 0 else health_status b) now.

Definition mark_backend_success (b : backend) : backend :=
  if negb (consecutive_failures b =? 0) || negb (health_status b =? 1) then set_health 0 1 b else b.

(** ** Weighted round robin *)
Definition total_weight (bs : list backend) : Z :=
  fold_left (fun t b => if healthy b then t + weight b else t) bs 0.

(** The selection loop from slot [i]: the pool after it and the choice. *)
Fixpoint rr_loop (bs : list backend) (i : nat) (selected : option nat) (best_weight : Z)
    : list backend * option nat :=
  match bs with
  | [] => ([], selected)
  | b :: bs' =>
      if negb (healthy b) then
        let '(l, r) := rr_loop bs' (S i) selected best_weight in (b :: l, r)
      else
        let b := set_current_weight (current_weight b + weight b) b in
        let '(selected, best_weight) :=
          match selected with
          | Some s => if current_weight b >? best_weight then (Some i, current_weight b) else (selected, best_weight)
          | None => (Some i, current_weight b)
          end in
        let '(l, r) := rr_loop bs' (S i) selected best_weight in (b :: l, r)
  end.

Definition backend_round_robin_select (now : Z) (bs : list backend) : option nat * list backend :=
  let bs := passive_recovery now bs in
  let total := total_weight bs in
  if total =? 0 then (None, bs) else
  let '(bs, selected) := rr_loop bs 0 None 0 in
  match selected with
  | Some i => (Some i, alter (fun b => set_current_weight (current_weight b - total) b) i bs)
  | None => (None, bs)
  end.

(** ** Least connections *)
Fixpoint least_loop (bs : list backend) (i : nat) (best : option nat) (least_conn : Z) : option nat :=
  match bs with
  | [] => best
  | b :: bs' =>
      if negb (healthy b) then least_loop bs' (S i) best least_conn
      else if (least_conn =? -1) || (current_connections b <? least_conn)
      then least_loop bs' (S i) (Some i) (current_connections b)
      else least_loop bs' (S i) best least_conn
  end.

Definition least_connection_select (now : Z) (bs : list backend) : option nat * list backend :=
  let bs := passive_recovery now bs in (least_loop bs 0 None (-1), bs).

(** ** Client addresses (common/src/net_util.c) *)
Inductive sockaddr := AF_INET (sin_addr : bytes) | AF_INET6 (sin6_addr : bytes) | AF_OTHER.

Definition is_v4_mapped (a6 : bytes) : bool :=
  bool_decide (ztake 12 a6 = replicate 10 0 ++ [255; 255]).

Definition addr_bytes (ss : sockaddr) : bytes :=
  match ss with
  | AF_INET a => a
  | AF_INET6 a => if is_v4_mapped a then zdrop 12 a else a
  | AF_OTHER => []
  end.

Definition net_addr_hash (ss : sockaddr) : Z :=
  fold_left (fun h b => u64 (Z.lxor h b * 1099511628211)) (addr_bytes ss) 1469598103934665603.

Definition net_addr_equal (a b : sockaddr) : bool :=
  (zlen (addr_bytes a) >? 0) && (zlen (addr_bytes a) =? zlen (addr_bytes b)) &&
  match memcmp (addr_bytes a) (addr_bytes b) with Eq => true | _ => false end.

(** ** IP hash *)
Fixpoint probe_loop (n : nat) (i : Z) (initial_idx : Z) (bs : list backend) : option nat :=
  match n with
  | O => None
  | S n' =>
      let check_idx := (initial_idx + i) mod zlen bs in
      match znth bs check_idx with
      | Some b => if healthy b then Some (Z.to_nat check_idx) else probe_loop n' (i + 1) initial_idx bs
      | None => probe_loop n' (i + 1) initial_idx bs
      end
  end.

Definition ip_hash_select (now : Z) (client_addr : sockaddr) (bs : list backend) : option nat * list backend :=
  let bs := passive_recovery now bs in
  if zlen bs <=? 0 then (None, bs) else
  let hash := u32 (net_addr_hash client_addr) in
  let idx := hash mod zlen bs in
  (probe_loop (length bs) 0 idx bs, bs).

(** ** Random *)
Fixpoint alive_indices (bs : list backend) (i : nat) : list nat :=
  match bs with
  | [] => []
  | b :: bs' => if healthy b then i :: alive_indices bs' (S i) else alive_indices bs' (S i)
  end.

(** [rand] is what [rand()] returned. *)
Definition random_select (now rand : Z) (bs : list backend) : option nat * list backend :=
  let bs := passive_recovery now bs in
  if zlen bs <=? 0 then (None, bs) else
  let alive := alive_indices bs 0 in
  if zlen alive =? 0 then (None, bs) else
  (znth alive (rand mod zlen alive), bs).

(** ** Hash (balancer/src/hash.c) *)
Definition FNV_OFFSET_32 : Z := 2166136261.
Definition FNV_PRIME_32 : Z := 16777619.
Definition fnv1_32 (data : bytes) : Z :=
  fold_left (fun h b => Z.lxor (u32 (h * FNV_PRIME_32)) b) data FNV_OFFSET_32.

(** ** Round robin *)
Definition advance (b : backend) : backend :=
  if healthy b then set_current_weight (current_weight b + weight b) b else b.
Definition healthy_at (bs : list backend) (i : nat) (b : backend) : Prop :=
  bs !! i = Some b /\ healthy b = true.
Definition no_healthy (bs : list backend) : Prop := Forall (fun b => healthy b = false) bs.

Lemma healthy_advance b : healthy (advance b) = healthy b.
Proof. unfold advance. by destruct (healthy b) eqn:E. Qed.

(** [s] is the first slot whose weight is largest among the healthy ones of
    [bs], counting slots from [i]. *)
Definition first_max (bs : list backend) (i : nat) (r : option nat) : Prop :=
  match r with
  | None => no_healthy bs
  | Some s => exists b, (i <= s)%nat /\ healthy_at bs (s - i) b /\
      forall j c, healthy_at bs j c ->
        current_weight c <= current_weight b /\ ((j < s - i)%nat -> current_weight c < current_weight b)
  end.

Lemma rr_loop_map bs i sel best : (rr_loop bs i sel best).1 = map advance bs.
Proof.
  revert i sel best. induction bs as [|b bs IH]; intros i sel best; [done|]. cbn [rr_loop map].
  unfold advance at 1. destruct (healthy b); cbn [negb].
  - match goal with |- context [let '(_, _) := ?e in _] => destruct e as [sel' best'] end.
    specialize (IH (S i) sel' best'). destruct (rr_loop bs (S i) sel' best'). cbn in *. by rewrite IH.
  - specialize (IH (S i) sel best). destruct (rr_loop bs (S i) sel best). cbn in *. by rewrite IH.
Qed.

Lemma healthy_at_cons b bs j c :
  healthy_at (b :: bs) j c <-> (j = 0%nat /\ c = b /\ healthy b = true) \/ exists j', j = S j' /\ healthy_at bs j' c.
Proof.
  unfold healthy_at. destruct j as [|j]; cbn.
  - split; [intros [[= ->] ?]; by left|]. intros [(_ & -> & ?)|(? & [=] & _)]. done.
  - split; [intros ?; right; eauto|]. intros [(? & _)|(j' & [= ->] & ?)]; done.
Qed.

Lemma rr_loop_cons b bs i sel best :
  (rr_loop (b :: bs) i sel best).2 =
  if healthy b then
    let w := current_weight (advance b) in
    match sel with
    | Some s => if w >? best then (rr_loop bs (S i) (Some i) w).2 else (rr_loop bs (S i) (Some s) best).2
    | None => (rr_loop bs (S i) (Some i) w).2
    end
  else (rr_loop bs (S i) sel best).2.
Proof.
  cbn [rr_loop]. unfold advance. destruct (healthy b) eqn:Hb; cbn [negb set_current_weight current_weight].
  - destruct sel as [s|]; [destruct (current_weight b + weight b >? best)|];
      by destruct (rr_loop bs (S i) _ _).
  - by destruct (rr_loop bs (S i) sel best).
Qed.

(** A maximum of the tail that beats a healthy head is one of the whole. *)
Lemma first_max_cons a bs i s b :
  first_max bs (S i) (Some s) -> healthy_at bs (s - S i) b ->
  (healthy a = true -> current_weight a < current_weight b) ->
  first_max (a :: bs) i (Some s) /\ healthy_at (a :: bs) (s - i) b.
Proof.
  intros (b' & Hle & Hb' & Hm) Hb Ha. assert (b' = b) as -> by (destruct Hb, Hb'; congruence).
  replace (s - i)%nat with (S (s - S i)) by lia.
  assert (healthy_at (a :: bs) (S (s - S i)) b) as Hb1 by (apply healthy_at_cons; eauto).
  split; [|done]. exists b. split; [lia|]. replace (s - i)%nat with (S (s - S i)) by lia. split; [done|].
  intros j c [(-> & -> & Hc)|(j' & -> & Hj)]%healthy_at_cons; [specialize (Ha Hc); split; lia|].
  destruct (Hm j' c Hj). split; [done|]. intros. auto with lia.
Qed.

(** With a candidate in hand the loop only moves to strictly heavier slots. *)
Lemma rr_loop_some bs i s0 best :
  let r := (rr_loop bs i (Some s0) best).2 in
  (r = Some s0 /\ forall j c, healthy_at (map advance bs) j c -> current_weight c <= best) \/
  (exists s b, r = Some s /\ first_max (map advance bs) i (Some s) /\
     healthy_at (map advance bs) (s - i) b /\ best < current_weight b).
Proof.
  revert i s0 best. induction bs as [|b bs IH]; intros i s0 best.
  { left. split; [done|]. intros j c [Hj _]. by destruct j. }
  cbv zeta. rewrite rr_loop_cons. cbn [map]. destruct (healthy b) eqn:Hb; cbv zeta; cycle 1.
  { assert (healthy (advance b) <> true) as Hn by (rewrite healthy_advance; congruence).
    destruct (IH (S i) s0 best) as [[E H]|(s & b' & E & Hm & Ha & Hl)]; [left|right]; rewrite E.
    - split; [done|]. intros j c [(_ & _ & ?)|(j' & -> & Hj)]%healthy_at_cons; [done|eauto].
    - destruct (first_max_cons (advance b) _ i s b' Hm Ha ltac:(done)). exists s, b'. done. }
  destruct (Z.gtb_spec (current_weight (advance b)) best) as [Hgt|Hle].
  - right. destruct (IH (S i) i (current_weight (advance b))) as [[E H]|(s & b' & E & Hm & Ha & Hl)]; rewrite E.
    + exists i, (advance b). rewrite Nat.sub_diag. split; [done|].
      assert (healthy_at (advance b :: map advance bs) 0 (advance b)) as H0 by (split; [done|by rewrite healthy_advance]).
      split; [|done]. exists (advance b). rewrite Nat.sub_diag. split; [lia|]. split; [done|].
      intros j c [(-> & -> & _)|(j' & -> & Hj)]%healthy_at_cons; [split; lia|]. specialize (H _ _ Hj). split; lia.
    + destruct (first_max_cons (advance b) _ i s b' Hm Ha ltac:(done)). exists s, b'. split_and!; (done || lia).
  - destruct (IH (S i) s0 best) as [[E H]|(s & b' & E & Hm & Ha & Hl)]; [left|right]; rewrite E.
    + split; [done|]. intros j c [(-> & -> & _)|(j' & -> & Hj)]%healthy_at_cons; [done|eauto].
    + destruct (first_max_cons (advance b) _ i s b' Hm Ha ltac:(lia)). exists s, b'. done.
Qed.

Lemma rr_loop_none bs i best : first_max (map advance bs) i (rr_loop bs i None best).2.
Proof.
  revert i. induction bs as [|b bs IH]; intros i; [constructor|].
  rewrite rr_loop_cons. cbn [map]. destruct (healthy b) eqn:Hb; cbv zeta.
  - assert (healthy_at (advance b :: map advance bs) 0 (advance b)) as H0 by (split; [done|by rewrite healthy_advance]).
    destruct (rr_loop_some bs (S i) i (current_weight (advance b))) as [[E H]|(s & b' & E & Hm & Ha & Hl)]; rewrite E.
    + exists (advance b). rewrite Nat.sub_diag. split; [lia|]. split; [done|].
      intros j c [(-> & -> & _)|(j' & -> & Hj)]%healthy_at_cons; [split; lia|]. specialize (H _ _ Hj). split; lia.
    + by destruct (first_max_cons (advance b) _ i s b' Hm Ha ltac:(done)).
  - assert (healthy (advance b) <> true) as Hn by (rewrite healthy_advance; congruence).
    specialize (IH (S i)). destruct ((rr_loop bs (S i) None best).2) as [s|].
    + destruct (IH) as (b' & _ & Ha & _). by destruct (first_max_cons (advance b) _ i s b' IH Ha ltac:(done)).
    + constructor; [by rewrite healthy_advance|exact IH].
Qed.

(** The sum of the weights of the healthy slots. *)
Definition hsum (f : backend -> Z) (bs : list backend) : Z :=
  foldr (fun b t => (if healthy b then f b else 0) + t) 0 bs.

Lemma hsum_cons f b bs : hsum f (b :: bs) = (if healthy b then f b else 0) + hsum f bs.
Proof. done. Qed.

Lemma total_weight_hsum bs : total_weight bs = hsum weight bs.
Proof.
  unfold total_weight. assert (forall a, fold_left (fun t b => if healthy b then t + weight b else t) bs a = a + hsum weight bs) as H.
  { unfold hsum. induction bs as [|b bs IH]; intros a; cbn; [lia|]. rewrite IH. destruct (healthy b); lia. }
  rewrite H. lia.
Qed.

Lemma hsum_advance bs : hsum current_weight (map advance bs) = hsum current_weight bs + hsum weight bs.
Proof.
  induction bs as [|b bs IH]; [done|]. cbn [map]. rewrite !hsum_cons, IH, healthy_advance. unfold advance.
  destruct (healthy b); cbn; lia.
Qed.

Lemma hsum_alter bs i b x :
  healthy_at bs i b ->
  hsum current_weight (alter (fun b => set_current_weight (current_weight b - x) b) i bs) = hsum current_weight bs - x.
Proof.
  revert i. induction bs as [|a bs IH]; intros [|i] [Hi Hb]; try done.
  - injection Hi as ->. change (alter ?f 0%nat (b :: bs)) with (f b :: bs). rewrite !hsum_cons.
    unfold healthy in *. cbn [set_current_weight health_status current_weight]. rewrite Hb. lia.
  - change (alter ?f (S i) (a :: bs)) with (a :: alter f i bs). rewrite !hsum_cons, (IH i) by done. lia.
Qed.

Lemma no_healthy_total bs : no_healthy bs -> hsum weight bs = 0.
Proof. induction 1 as [|b bs Hb Hbs IH]; [done|]. by rewrite hsum_cons, Hb, IH. Qed.

(** One pick: the first slot of largest advanced weight among the healthy, and
    the healthy weights still sum to what they did. *)
Lemma round_robin_spec now bs r bs' :
  backend_round_robin_select now bs = (r, bs') ->
  let ready := passive_recovery now bs in
  match r with
  | None => total_weight ready = 0 /\ bs' = ready
  | Some i => total_weight ready <> 0 /\ first_max (map advance ready) 0 (Some i) /\
      bs' = alter (fun b => set_current_weight (current_weight b - total_weight ready) b) i (map advance ready) /\
      hsum current_weight bs' = hsum current_weight ready
  end.
Proof.
  unfold backend_round_robin_select. set (ready := passive_recovery now bs).
  destruct (Z.eqb_spec (total_weight ready) 0) as [Hz|Hz]; [by intros [= <- <-]|].
  pose proof (rr_loop_map ready 0 None 0) as Hl. pose proof (rr_loop_none ready 0 0) as Hm.
  destruct (rr_loop ready 0 None 0) as [l [i|]]; cbn in Hl, Hm; subst l.
  - intros [= <- <-]. split_and!; try done. destruct Hm as (b & _ & Hb & _). rewrite Nat.sub_0_r in Hb.
    rewrite (hsum_alter _ i b) by done. rewrite hsum_advance, total_weight_hsum. lia.
  - exfalso. apply Hz. rewrite total_weight_hsum. apply no_healthy_total.
    apply list.Forall_forall. intros b Hb. rewrite <- healthy_advance.
    assert (Forall (fun b => healthy b = false) (map advance ready)) as Hf by exact Hm.
    rewrite list.Forall_forall in Hf. apply Hf. apply list_elem_of_In, in_map, list_elem_of_In, Hb.
Qed.

(** ** The weights stay bounded *)
(** A pool between picks: the healthy weights sum to zero and none is below
    the negated total. *)
Definition settled (T : Z) (bs : list backend) : Prop :=
  hsum current_weight bs = 0 /\ forall i b, healthy_at bs i b -> - T <= current_weight b.

Lemma hsum_nonpos f bs : (forall i b, healthy_at bs i b -> f b <= 0) -> hsum f bs <= 0.
Proof.
  induction bs as [|b bs IH]; intros H; [done|]. rewrite hsum_cons.
  assert (hsum f bs <= 0) by (apply IH; intros i c Hc; apply (H (S i)); exact Hc).
  destruct (healthy b) eqn:Hb; [|lia]. specialize (H 0%nat b (conj eq_refl Hb)). lia.
Qed.

Lemma hsum_ge f bs T : 0 <= T -> (forall i b, healthy_at bs i b -> - T <= f b) -> - (T * zlen bs) <= hsum f bs.
Proof.
  intros HT. induction bs as [|b bs IH]; intros H; [rewrite zlen_nil; unfold hsum; cbn [foldr]; lia|]. rewrite hsum_cons, zlen_cons.
  assert (- (T * zlen bs) <= hsum f bs) by (apply IH; intros i c Hc; apply (H (S i)); exact Hc).
  destruct (healthy b) eqn:Hb; [specialize (H 0%nat b (conj eq_refl Hb))|]; lia.
Qed.

Lemma settled_upper T bs i b :
  0 <= T -> settled T bs -> healthy_at bs i b -> current_weight b <= T * (zlen bs - 1).
Proof.
  intros HT [Hs Hlo]. assert (forall x, hsum current_weight bs = x -> healthy_at bs i b -> current_weight b <= T * (zlen bs - 1) + x) as G.
  { clear Hs. revert i Hlo. induction bs as [|a bs IH]; intros i Hlo x Hx Hi; [by destruct Hi|].
    rewrite hsum_cons in Hx. rewrite zlen_cons.
    assert (forall i c, healthy_at bs i c -> - T <= current_weight c) as Hlo' by (intros j c Hc; apply (Hlo (S j)); exact Hc).
    apply healthy_at_cons in Hi as [(-> & -> & Ha)|(i' & -> & Hi)].
    - rewrite Ha in Hx. pose proof (hsum_ge current_weight bs T HT Hlo'). lia.
    - specialize (IH i' Hlo' _ eq_refl Hi). destruct (healthy a) eqn:Ha; [|lia].
      specialize (Hlo 0%nat a (conj eq_refl Ha)). lia. }
  intros Hi. specialize (G 0 Hs Hi). lia.
Qed.

Lemma healthy_at_alter f bs i j b :
  (forall c, healthy (f c) = healthy c) -> healthy_at (alter f i bs) j b ->
  (j = i /\ exists c, healthy_at bs i c /\ b = f c) \/ (j <> i /\ healthy_at bs j b).
Proof.
  intros Hf [Hj Hb]. destruct (decide (j = i)) as [->|Hne].
  - left. rewrite list_lookup_alter_eq in Hj. destruct (bs !! i) as [c|] eqn:Hc; [|done]. cbn in Hj. injection Hj as <-.
    split; [done|]. exists c. rewrite Hf in Hb. done.
  - right. rewrite list_lookup_alter_ne in Hj by done. done.
Qed.

Lemma healthy_at_map bs j b : healthy_at (map advance bs) j b -> exists c, healthy_at bs j c /\ b = advance c.
Proof.
  intros [Hj Hb]. change (map advance bs) with (advance <$> bs) in Hj. rewrite list_lookup_fmap in Hj.
  destruct (bs !! j) as [c|] eqn:Hc; [|done]. cbn in Hj. injection Hj as <-. rewrite healthy_advance in Hb.
  by exists c.
Qed.

Lemma round_robin_settled now bs i bs' :
  let ready := passive_recovery now bs in
  (forall j b, healthy_at ready j b -> 0 < weight b) -> settled (total_weight ready) ready ->
  backend_round_robin_select now bs = (Some i, bs') -> settled (total_weight ready) bs'.
Proof.
  intros ready Hw [Hs Hlo] E. destruct (round_robin_spec now bs (Some i) bs' E) as (HT & Hm & -> & Hsum).
  fold ready in HT, Hm, Hsum |- *. split; [congruence|].
  destruct Hm as (m & _ & Hm & Hmx). rewrite Nat.sub_0_r in Hm.
  assert (0 < total_weight ready) as Hpos.
  { apply healthy_at_map in Hm as (c & Hc & _). rewrite total_weight_hsum in *.
    assert (hsum (fun b => - weight b) ready = - hsum weight ready) as En.
    { clear. induction ready as [|b l IH]; [done|]. rewrite !hsum_cons, IH. destruct (healthy b); lia. }
    pose proof (hsum_nonpos (fun b => - weight b) ready) as Hn.
    assert (hsum (fun b => - weight b) ready <= 0) by (apply Hn; intros j b Hj; specialize (Hw j b Hj); lia). lia. }
  assert (0 < current_weight m) as Hmp.
  { destruct (Z.lt_ge_cases 0 (current_weight m)) as [|Hle]; [done|].
    assert (hsum current_weight (map advance ready) <= 0) as Hn.
    { apply hsum_nonpos. intros j c Hc. destruct (Hmx j c Hc). lia. }
    rewrite hsum_advance, Hs, <- total_weight_hsum in Hn. lia. }
  intros j b Hb. apply healthy_at_alter in Hb as [(-> & c & Hc & ->)|(Hne & Hb)]; [| |done].
  - assert (c = m) as -> by (destruct Hc, Hm; congruence). cbn. lia.
  - apply healthy_at_map in Hb as (c & Hc & ->). pose proof (Hlo j c Hc). pose proof (Hw j c Hc).
    unfold advance. rewrite (proj2 Hc). cbn. lia.
Qed.

(** ** The other strategies *)
Lemma least_loop_spec bs i best least :
  0 <= least -> (forall j b, healthy_at bs j b -> 0 <= current_connections b) ->
  let r := least_loop bs i best least in
  (r = best /\ forall j b, healthy_at bs j b -> least <= current_connections b) \/
  (exists s b, r = Some s /\ (i <= s)%nat /\ healthy_at bs (s - i) b /\ current_connections b < least /\
     forall j c, healthy_at bs j c -> current_connections b <= current_connections c).
Proof.
  revert i best least. induction bs as [|a bs IH]; intros i best least Hl Hp.
  { left. split; [done|]. intros j b [Hj _]. by destruct j. }
  assert (forall j b, healthy_at bs j b -> 0 <= current_connections b) as Hp' by (intros j b Hb; apply (Hp (S j)); exact Hb).
  cbv zeta. cbn [least_loop]. destruct (healthy a) eqn:Ha; cbn [negb]; cycle 1.
  { destruct (IH (S i) best least Hl Hp') as [[-> H]|(s & b & -> & Hs & Hb & Hlt & Hm)]; [left|right].
    - split; [done|]. intros j b [(_ & _ & ?)|(j' & -> & Hj)]%healthy_at_cons; [congruence|eauto].
    - exists s, b. split_and!; [done|lia| |done|].
      + replace (s - i)%nat with (S (s - S i)) by lia. apply healthy_at_cons. eauto.
      + intros j c [(_ & _ & ?)|(j' & -> & Hj)]%healthy_at_cons; [congruence|eauto]. }
  destruct (Z.eqb_spec least (-1)); [lia|]. cbn [orb].
  pose proof (Hp 0%nat a (conj eq_refl Ha)) as Ha0.
  destruct (Z.ltb_spec (current_connections a) least) as [Hlt|Hge].
  - right. destruct (IH (S i) (Some i) (current_connections a) Ha0 Hp') as [[-> H]|(s & b & -> & Hs & Hb & Hlt' & Hm)].
    + exists i, a. rewrite Nat.sub_diag. split_and!; [done|lia|done|lia|].
      intros j c [(_ & -> & _)|(j' & -> & Hj)]%healthy_at_cons; [lia|eauto].
    + exists s, b. split_and!; [done|lia| |lia|].
      * replace (s - i)%nat with (S (s - S i)) by lia. apply healthy_at_cons. eauto.
      * intros j c [(_ & -> & _)|(j' & -> & Hj)]%healthy_at_cons; [lia|eauto].
  - destruct (IH (S i) best least Hl Hp') as [[-> H]|(s & b & -> & Hs & Hb & Hlt & Hm)]; [left|right].
    + split; [done|]. intros j b [(_ & -> & _)|(j' & -> & Hj)]%healthy_at_cons; [lia|eauto].
    + exists s, b. split_and!; [done|lia| |done|].
      * replace (s - i)%nat with (S (s - S i)) by lia. apply healthy_at_cons. eauto.
      * intros j c [(_ & -> & _)|(j' & -> & Hj)]%healthy_at_cons; [lia|eauto].
Qed.

Lemma least_start bs i best :
  (forall j b, healthy_at bs j b -> 0 <= current_connections b) ->
  match least_loop bs i best (-1) with
  | Some s => no_healthy bs /\ best = Some s \/ exists b, (i <= s)%nat /\ healthy_at bs (s - i) b /\
      forall j c, healthy_at bs j c -> current_connections b <= current_connections c
  | None => no_healthy bs
  end.
Proof.
  revert i best. induction bs as [|a bs IH]; intros i best Hp.
  { cbn. destruct best; [left; split; [constructor|done]|constructor]. }
  assert (forall j b, healthy_at bs j b -> 0 <= current_connections b) as Hp' by (intros j b Hb; apply (Hp (S j)); exact Hb).
  cbn [least_loop]. destruct (healthy a) eqn:Ha; cbn [negb orb Z.eqb].
  - pose proof (Hp 0%nat a (conj eq_refl Ha)) as Ha0.
    assert (healthy_at (a :: bs) 0 a) as H0 by done.
    destruct (least_loop_spec bs (S i) (Some i) (current_connections a) Ha0 Hp') as [[-> H]|(s & b & -> & Hs & Hb & Hlt & Hm)].
    + right. exists a. rewrite Nat.sub_diag. split_and!; [lia|done|].
      intros j c [(_ & -> & _)|(j' & -> & Hj)]%healthy_at_cons; [lia|eauto].
    + right. exists b. split_and!; [lia| |].
      * replace (s - i)%nat with (S (s - S i)) by lia. apply healthy_at_cons. eauto.
      * intros j c [(_ & -> & _)|(j' & -> & Hj)]%healthy_at_cons; [lia|eauto].
  - specialize (IH (S i) best Hp'). destruct (least_loop bs (S i) best (-1)) as [s|].
    + destruct IH as [[? ?]|(b & Hs & Hb & Hm)]; [left; split; [by constructor|done]|right].
      exists b. split_and!; [lia| |].
      * replace (s - i)%nat with (S (s - S i)) by lia. apply healthy_at_cons. eauto.
      * intros j c [(_ & _ & ?)|(j' & -> & Hj)]%healthy_at_cons; [congruence|eauto].
    + by constructor.
Qed.

Lemma probe_loop_spec n i idx bs :
  0 < zlen bs -> 0 <= idx + i ->
  match probe_loop n i idx bs with
  | Some k => exists b, healthy_at bs k b
  | None => forall t, 0 <= t < Z.of_nat n -> exists b,
      znth bs ((idx + i + t) mod zlen bs) = Some b /\ healthy b = false
  end.
Proof.
  intros Hl. revert i. induction n as [|n IH]; intros i Hi; cbn [probe_loop]; [lia|].
  assert (0 <= (idx + i) mod zlen bs < zlen bs) as Hr by (apply Z.mod_pos_bound; lia).
  destruct (znth bs ((idx + i) mod zlen bs)) as [b|] eqn:Hb; cycle 1.
  { exfalso. unfold znth in Hb. destruct (Z.ltb_spec ((idx + i) mod zlen bs) 0); [lia|].
    apply lookup_ge_None in Hb. unfold zlen in *. lia. }
  destruct (healthy b) eqn:Hh.
  - exists b. unfold znth in Hb. destruct (Z.ltb_spec ((idx + i) mod zlen bs) 0); [lia|]. done.
  - specialize (IH (i + 1) ltac:(lia)). destruct (probe_loop n (i + 1) idx bs); [done|].
    intros t Ht. destruct (Z.eq_dec t 0) as [->|Hne]; [rewrite Z.add_0_r; eauto|].
    destruct (IH (t - 1) ltac:(lia)) as (c & Hc & ?). exists c.
    replace (idx + i + t) with (idx + (i + 1) + (t - 1)) by lia. done.
Qed.

Lemma probe_all idx bs :
  0 < zlen bs -> 0 <= idx -> probe_loop (length bs) 0 idx bs = None -> no_healthy bs.
Proof.
  intros Hl Hidx E. pose proof (probe_loop_spec (length bs) 0 idx bs Hl ltac:(lia)) as H. rewrite E in H.
  apply list.Forall_forall. intros b (j & Hj)%list_elem_of_lookup. pose proof (lookup_lt_Some _ _ _ Hj) as Hlt.
  destruct (H ((Z.of_nat j - idx) mod zlen bs)) as (c & Hc & Hh).
  { unfold zlen in *. apply Z.mod_pos_bound. lia. }
  assert ((idx + 0 + (Z.of_nat j - idx) mod zlen bs) mod zlen bs = Z.of_nat j) as Em.
  { rewrite Z.add_0_r, Zplus_mod_idemp_r. replace (idx + (Z.of_nat j - idx)) with (Z.of_nat j) by lia.
    apply Z.mod_small. unfold zlen. lia. }
  rewrite Em in Hc. unfold znth in Hc. destruct (Z.ltb_spec (Z.of_nat j) 0); [lia|].
  rewrite Nat2Z.id in Hc. congruence.
Qed.

Lemma alive_indices_spec bs i : Forall (fun k => exists b, (i <= k)%nat /\ healthy_at bs (k - i) b) (alive_indices bs i) /\
  (alive_indices bs i = [] -> no_healthy bs).
Proof.
  revert i. induction bs as [|a bs IH]; intros i; [split; [constructor|intros _; constructor]|]. cbn [alive_indices].
  destruct (IH (S i)) as [Hf Hn].
  assert (Forall (fun k => exists b, (i <= k)%nat /\ healthy_at (a :: bs) (k - i) b) (alive_indices bs (S i))) as Hf'.
  { eapply list.Forall_impl; [exact Hf|]. intros k (b & Hk & Hb). exists b. split; [lia|].
    replace (k - i)%nat with (S (k - S i)) by lia. apply healthy_at_cons. eauto. }
  destruct (healthy a) eqn:Ha; split.
  - constructor; [|done]. exists a. by rewrite Nat.sub_diag.
  - discriminate.
  - done.
  - intros E. constructor; [done|by apply Hn].
Qed.

(** Whatever the strategy, the choice is a healthy slot, and there is none only
    when the pool has no healthy backend. *)
Definition chooses_healthy (ready : list backend) (r : option nat) : Prop :=
  match r with Some i => exists b, healthy_at ready i b | None => no_healthy ready end.

Lemma least_connection_spec now bs r bs' :
  (forall j b, healthy_at (passive_recovery now bs) j b -> 0 <= current_connections b) ->
  least_connection_select now bs = (r, bs') ->
  bs' = passive_recovery now bs /\
  match r with
  | Some i => exists b, healthy_at bs' i b /\
      forall j c, healthy_at bs' j c -> current_connections b <= current_connections c
  | None => no_healthy bs'
  end.
Proof.
  unfold least_connection_select. intros Hp [= <- <-]. split; [done|].
  pose proof (least_start (passive_recovery now bs) 0 None Hp) as H.
  destruct (least_loop _ 0 None (-1)) as [s|]; [|done].
  destruct H as [[_ ?]|(b & _ & Hb & Hm)]; [done|]. rewrite Nat.sub_0_r in Hb. eauto.
Qed.

Lemma ip_hash_spec now addr bs r bs' :
  ip_hash_select now addr bs = (r, bs') -> bs' = passive_recovery now bs /\ chooses_healthy bs' r.
Proof.
  unfold ip_hash_select. set (ready := passive_recovery now bs).
  destruct (Z.leb_spec (zlen ready) 0) as [Hz|Hz].
  - intros [= <- <-]. split; [done|]. destruct ready; [constructor|zl].
  - set (idx := u32 (net_addr_hash addr) mod zlen ready). intros [= <- <-]. split; [done|].
    assert (0 <= idx < zlen ready) as Hi by (apply Z.mod_pos_bound; lia).
    unfold chooses_healthy. destruct (probe_loop (length ready) 0 idx ready) as [k|] eqn:E.
    + pose proof (probe_loop_spec (length ready) 0 idx ready Hz ltac:(lia)) as H. by rewrite E in H.
    + apply (probe_all idx); [lia|lia|done].
Qed.

Lemma random_spec now rand bs r bs' :
  random_select now rand bs = (r, bs') -> bs' = passive_recovery now bs /\ chooses_healthy bs' r.
Proof.
  unfold random_select. set (ready := passive_recovery now bs).
  destruct (Z.leb_spec (zlen ready) 0) as [Hz|Hz].
  { intros [= <- <-]. split; [done|]. destruct ready; [constructor|zl]. }
  destruct (alive_indices_spec ready 0) as [Hf Hn].
  destruct (Z.eqb_spec (zlen (alive_indices ready 0)) 0) as [Ha|Ha]; intros [= <- <-]; (split; [done|]).
  - apply Hn. destruct (alive_indices ready 0); [done|zl].
  - assert (0 <= rand mod zlen (alive_indices ready 0) < zlen (alive_indices ready 0)) as Hr
      by (apply Z.mod_pos_bound; zl).
    destruct (znth (alive_indices ready 0) (rand mod zlen (alive_indices ready 0))) as [k|] eqn:E; unfold znth in E;
      (destruct (Z.ltb_spec (rand mod zlen (alive_indices ready 0)) 0); [lia|]).
    + apply list_elem_of_lookup_2 in E. rewrite list.Forall_forall in Hf. destruct (Hf k E) as (b & _ & Hb).
      rewrite Nat.sub_0_r in Hb. by exists b.
    + apply lookup_ge_None in E. unfold zlen in *. lia.
Qed.

(** An IPv4 client and its IPv4-mapped form are the same client. *)
Lemma v4_mapped_hash a : zlen a = 4 -> addr_bytes (AF_INET6 (replicate 10 0 ++ [255; 255] ++ a)) = addr_bytes (AF_INET a).
Proof.
  intros Ha. unfold addr_bytes, is_v4_mapped. rewrite app_assoc.
  rewrite (ztake_app_eq 12), (zdrop_app_eq 12) by done. by rewrite bool_decide_true.
Qed.

(** Three failures in a row take a backend out; it is readmitted once the
    recovery time has passed since the last of them, and not before. *)
Lemma failure_window b t1 t2 t3 now :
  0 <= consecutive_failures b ->
  let b' := mark_backend_failure t3 (mark_backend_failure t2 (mark_backend_failure t1 b)) in
  healthy b' = false /\ healthy (recover now b') = (now - t3 >=? HEALTH_RECOVERY_SECS).
Proof.
  intros Hb b'. assert (health_status b' = 0 /\ last_health_check b' = t3) as [Hs Ht].
  { subst b'. unfold mark_backend_failure, HEALTH_FAILURE_THRESHOLD. cbn [consecutive_failures health_status last_health_check].
    split; [|done]. destruct (Z.geb_spec (consecutive_failures b + 1 + 1 + 1) 3); [done|lia]. }
  clearbody b'. unfold healthy, recover. rewrite Hs, Ht. cbn [Z.eqb andb]. split; [done|].
  destruct (now - t3 >=? HEALTH_RECOVERY_SECS); [done|]. by rewrite Hs.
Qed.
