(* ===== verification/HttpTypes.v ===== *)
(** * Data of the HTTP layer (common/include/http_types.h)

    Character arrays are the bytes before the terminating NUL, the header
    tables are the list of the slots in use ([header_count] is its length), and
    a body is [None] for a null pointer ([body_length] is its length). The
    [set_] functions assign one field. *)
From Stdlib Require Import String.
From S2P Require Import Prelude.

Local Open Scope Z_scope.

Definition MAX_HEADERS : Z := 64.
Definition MAX_HEADERS_SIZE : Z := 8192.

Inductive http_method :=
  HTTP_GET | HTTP_POST | HTTP_PUT | HTTP_DELETE | HTTP_HEAD | HTTP_OPTIONS | HTTP_PATCH |
  HTTP_CONNECT | HTTP_TRACE | HTTP_UNKNOWN.
#[global] Instance http_method_eq_dec : EqDecision http_method.
Proof. solve_decision. Defined.

(** [http_status_t] is the number of the status. *)
Definition HTTP_SWITCHING_PROTOCOLS : Z := 101.
Definition HTTP_OK : Z := 200.
Definition HTTP_CREATED : Z := 201.
Definition HTTP_ACCEPTED : Z := 202.
Definition HTTP_NO_CONTENT : Z := 204.
Definition HTTP_PARTIAL_CONTENT : Z := 206.
Definition HTTP_MOVED_PERMANENTLY : Z := 301.
Definition HTTP_FOUND : Z := 302.
Definition HTTP_NOT_MODIFIED : Z := 304.
Definition HTTP_BAD_REQUEST : Z := 400.
Definition HTTP_UNAUTHORIZED : Z := 401.
Definition HTTP_FORBIDDEN : Z := 403.
Definition HTTP_NOT_FOUND : Z := 404.
Definition HTTP_METHOD_NOT_ALLOWED : Z := 405.
Definition HTTP_REQUEST_TIMEOUT : Z := 408.
Definition HTTP_CONFLICT : Z := 409.
Definition HTTP_PAYLOAD_TOO_LARGE : Z := 413.
Definition HTTP_RANGE_NOT_SATISFIABLE : Z := 416.
Definition HTTP_TOO_MANY_REQUESTS : Z := 429.
Definition HTTP_INTERNAL_SERVER_ERROR : Z := 500.
Definition HTTP_NOT_IMPLEMENTED : Z := 501.
Definition HTTP_BAD_GATEWAY : Z := 502.
Definition HTTP_SERVICE_UNAVAILABLE : Z := 503.
Definition HTTP_GATEWAY_TIMEOUT : Z := 504.

Record http_header := mkHeader { hdr_name : bytes; hdr_value : bytes }.
#[global] Instance http_header_eq_dec : EqDecision http_header.
Proof. solve_decision. Defined.

Record http_request := mkRequest {
  req_method : http_method;
  req_uri : bytes;
  req_version : bytes;
  query_string : bytes;
  req_headers : list http_header;
  req_body : option bytes;
  content_length : Z;
  chunked : bool;
  if_none_match : bytes;
  if_range : bytes;
  if_modified_since : Z;
  has_range : bool;
  range_suffix : bool;
  range_start : Z;
  range_end : Z;
  req_keep_alive : bool;
  expect_continue : bool;
  is_websocket_upgrade : bool;
  websocket_key : bytes;
  websocket_protocol : bytes }.
Definition set_req_method (v : http_method) (r : http_request) : http_request :=
  mkRequest v (req_uri r) (req_version r) (query_string r) (req_headers r) (req_body r)
    (content_length r) (chunked r) (if_none_match r) (if_range r) (if_modified_since r)
    (has_range r) (range_suffix r) (range_start r) (range_end r) (req_keep_alive r)
    (expect_continue r) (is_websocket_upgrade r) (websocket_key r) (websocket_protocol r).
Definition set_req_uri (v : bytes) (r : http_request) : http_request :=
  mkRequest (req_method r) v (req_version r) (query_string r) (req_headers r) (req_body r)
    (content_length r) (chunked r) (if_none_match r) (if_range r) (if_modified_since r)
    (has_range r) (range_suffix r) (range_start r) (range_end r) (req_keep_alive r)
    (expect_continue r) (is_websocket_upgrade r) (websocket_key r) (websocket_protocol r).
Definition set_req_version (v : bytes) (r : http_request) : http_request :=
  mkRequest (req_method r) (req_uri r) v (query_string r) (req_headers r) (req_body r)
    (content_length r) (chunked r) (if_none_match r) (if_range r) (if_modified_since r)
    (has_range r) (range_suffix r) (range_start r) (range_end r) (req_keep_alive r)
    (expect_continue r) (is_websocket_upgrade r) (websocket_key r) (websocket_protocol r).
Definition set_query_string (v : bytes) (r : http_request) : http_request :=
  mkRequest (req_method r) (req_uri r) (req_version r) v (req_headers r) (req_body r)
    (content_length r) (chunked r) (if_none_match r) (if_range r) (if_modified_since r)
    (has_range r) (range_suffix r) (range_start r) (range_end r) (req_keep_alive r)
    (expect_continue r) (is_websocket_upgrade r) (websocket_key r) (websocket_protocol r).
Definition set_req_headers (v : list http_header) (r : http_request) : http_request :=
  mkRequest (req_method r) (req_uri r) (req_version r) (query_string r) v (req_body r)
    (content_length r) (chunked r) (if_none_match r) (if_range r) (if_modified_since r)
    (has_range r) (range_suffix r) (range_start r) (range_end r) (req_keep_alive r)
    (expect_continue r) (is_websocket_upgrade r) (websocket_key r) (websocket_protocol r).
Definition set_req_body (v : option bytes) (r : http_request) : http_request :=
  mkRequest (req_method r) (req_uri r) (req_version r) (query_string r) (req_headers r) v
    (content_length r) (chunked r) (if_none_match r) (if_range r) (if_modified_since r)
    (has_range r) (range_suffix r) (range_start r) (range_end r) (req_keep_alive r)
    (expect_continue r) (is_websocket_upgrade r) (websocket_key r) (websocket_protocol r).
Definition set_content_length (v : Z) (r : http_request) : http_request :=
  mkRequest (req_method r) (req_uri r) (req_version r) (query_string r) (req_headers r)
    (req_body r) v (chunked r) (if_none_match r) (if_range r) (if_modified_since r) (has_range
    r) (range_suffix r) (range_start r) (range_end r) (req_keep_alive r) (expect_continue r)
    (is_websocket_upgrade r) (websocket_key r) (websocket_protocol r).
Definition set_chunked (v : bool) (r : http_request) : http_request :=
  mkRequest (req_method r) (req_uri r) (req_version r) (query_string r) (req_headers r)
    (req_body r) (content_length r) v (if_none_match r) (if_range r) (if_modified_since r)
    (has_range r) (range_suffix r) (range_start r) (range_end r) (req_keep_alive r)
    (expect_continue r) (is_websocket_upgrade r) (websocket_key r) (websocket_protocol r).
Definition set_if_none_match (v : bytes) (r : http_request) : http_request :=
  mkRequest (req_method r) (req_uri r) (req_version r) (query_string r) (req_headers r)
    (req_body r) (content_length r) (chunked r) v (if_range r) (if_modified_since r) (has_range
    r) (range_suffix r) (range_start r) (range_end r) (req_keep_alive r) (expect_continue r)
    (is_websocket_upgrade r) (websocket_key r) (websocket_protocol r).
Definition set_if_range (v : bytes) (r : http_request) : http_request :=
  mkRequest (req_method r) (req_uri r) (req_version r) (query_string r) (req_headers r)
    (req_body r) (content_length r) (chunked r) (if_none_match r) v (if_modified_since r)
    (has_range r) (range_suffix r) (range_start r) (range_end r) (req_keep_alive r)
    (expect_continue r) (is_websocket_upgrade r) (websocket_key r) (websocket_protocol r).
Definition set_if_modified_since (v : Z) (r : http_request) : http_request :=
  mkRequest (req_method r) (req_uri r) (req_version r) (query_string r) (req_headers r)
    (req_body r) (content_length r) (chunked r) (if_none_match r) (if_range r) v (has_range r)
    (range_suffix r) (range_start r) (range_end r) (req_keep_alive r) (expect_continue r)
    (is_websocket_upgrade r) (websocket_key r) (websocket_protocol r).
Definition set_has_range (v : bool) (r : http_request) : http_request :=
  mkRequest (req_method r) (req_uri r) (req_version r) (query_string r) (req_headers r)
    (req_body r) (content_length r) (chunked r) (if_none_match r) (if_range r)
    (if_modified_since r) v (range_suffix r) (range_start r) (range_end r) (req_keep_alive r)
    (expect_continue r) (is_websocket_upgrade r) (websocket_key r) (websocket_protocol r).
Definition set_range_suffix (v : bool) (r : http_request) : http_request :=
  mkRequest (req_method r) (req_uri r) (req_version r) (query_string r) (req_headers r)
    (req_body r) (content_length r) (chunked r) (if_none_match r) (if_range r)
    (if_modified_since r) (has_range r) v (range_start r) (range_end r) (req_keep_alive r)
    (expect_continue r) (is_websocket_upgrade r) (websocket_key r) (websocket_protocol r).
Definition set_range_start (v : Z) (r : http_request) : http_request :=
  mkRequest (req_method r) (req_uri r) (req_version r) (query_string r) (req_headers r)
    (req_body r) (content_length r) (chunked r) (if_none_match r) (if_range r)
    (if_modified_since r) (has_range r) (range_suffix r) v (range_end r) (req_keep_alive r)
    (expect_continue r) (is_websocket_upgrade r) (websocket_key r) (websocket_protocol r).
Definition set_range_end (v : Z) (r : http_request) : http_request :=
  mkRequest (req_method r) (req_uri r) (req_version r) (query_string r) (req_headers r)
    (req_body r) (content_length r) (chunked r) (if_none_match r) (if_range r)
    (if_modified_since r) (has_range r) (range_suffix r) (range_start r) v (req_keep_alive r)
    (expect_continue r) (is_websocket_upgrade r) (websocket_key r) (websocket_protocol r).
Definition set_req_keep_alive (v : bool) (r : http_request) : http_request :=
  mkRequest (req_method r) (req_uri r) (req_version r) (query_string r) (req_headers r)
    (req_body r) (content_length r) (chunked r) (if_none_match r) (if_range r)
    (if_modified_since r) (has_range r) (range_suffix r) (range_start r) (range_end r) v
    (expect_continue r) (is_websocket_upgrade r) (websocket_key r) (websocket_protocol r).
Definition set_expect_continue (v : bool) (r : http_request) : http_request :=
  mkRequest (req_method r) (req_uri r) (req_version r) (query_string r) (req_headers r)
    (req_body r) (content_length r) (chunked r) (if_none_match r) (if_range r)
    (if_modified_since r) (has_range r) (range_suffix r) (range_start r) (range_end r)
    (req_keep_alive r) v (is_websocket_upgrade r) (websocket_key r) (websocket_protocol r).
Definition set_is_websocket_upgrade (v : bool) (r : http_request) : http_request :=
  mkRequest (req_method r) (req_uri r) (req_version r) (query_string r) (req_headers r)
    (req_body r) (content_length r) (chunked r) (if_none_match r) (if_range r)
    (if_modified_since r) (has_range r) (range_suffix r) (range_start r) (range_end r)
    (req_keep_alive r) (expect_continue r) v (websocket_key r) (websocket_protocol r).
Definition set_websocket_key (v : bytes) (r : http_request) : http_request :=
  mkRequest (req_method r) (req_uri r) (req_version r) (query_string r) (req_headers r)
    (req_body r) (content_length r) (chunked r) (if_none_match r) (if_range r)
    (if_modified_since r) (has_range r) (range_suffix r) (range_start r) (range_end r)
    (req_keep_alive r) (expect_continue r) (is_websocket_upgrade r) v (websocket_protocol r).
Definition set_websocket_protocol (v : bytes) (r : http_request) : http_request :=
  mkRequest (req_method r) (req_uri r) (req_version r) (query_string r) (req_headers r)
    (req_body r) (content_length r) (chunked r) (if_none_match r) (if_range r)
    (if_modified_since r) (has_range r) (range_suffix r) (range_start r) (range_end r)
    (req_keep_alive r) (expect_continue r) (is_websocket_upgrade r) (websocket_key r) v.
(** [memset(request, 0, sizeof *request)]. *)
Definition request_zero : http_request :=
  mkRequest HTTP_GET [] [] [] [] None 0 false [] [] 0 false false 0 0 false false false [] [].

Record http_response := mkResponse {
  resp_status : Z;
  resp_version : bytes;
  resp_headers : list http_header;
  resp_body : option bytes;
  resp_keep_alive : bool;
  gzip_compressed : bool;
  last_modified : Z;
  resp_etag : bytes;
  cors_origin : bytes }.
Definition set_resp_status (v : Z) (r : http_response) : http_response :=
  mkResponse v (resp_version r) (resp_headers r) (resp_body r) (resp_keep_alive r)
    (gzip_compressed r) (last_modified r) (resp_etag r) (cors_origin r).
Definition set_resp_version (v : bytes) (r : http_response) : http_response :=
  mkResponse (resp_status r) v (resp_headers r) (resp_body r) (resp_keep_alive r)
    (gzip_compressed r) (last_modified r) (resp_etag r) (cors_origin r).
Definition set_resp_headers (v : list http_header) (r : http_response) : http_response :=
  mkResponse (resp_status r) (resp_version r) v (resp_body r) (resp_keep_alive r)
    (gzip_compressed r) (last_modified r) (resp_etag r) (cors_origin r).
Definition set_resp_body (v : option bytes) (r : http_response) : http_response :=
  mkResponse (resp_status r) (resp_version r) (resp_headers r) v (resp_keep_alive r)
    (gzip_compressed r) (last_modified r) (resp_etag r) (cors_origin r).
Definition set_resp_keep_alive (v : bool) (r : http_response) : http_response :=
  mkResponse (resp_status r) (resp_version r) (resp_headers r) (resp_body r) v (gzip_compressed
    r) (last_modified r) (resp_etag r) (cors_origin r).
Definition set_gzip_compressed (v : bool) (r : http_response) : http_response :=
  mkResponse (resp_status r) (resp_version r) (resp_headers r) (resp_body r) (resp_keep_alive r)
    v (last_modified r) (resp_etag r) (cors_origin r).
Definition set_last_modified (v : Z) (r : http_response) : http_response :=
  mkResponse (resp_status r) (resp_version r) (resp_headers r) (resp_body r) (resp_keep_alive r)
    (gzip_compressed r) v (resp_etag r) (cors_origin r).
Definition set_resp_etag (v : bytes) (r : http_response) : http_response :=
  mkResponse (resp_status r) (resp_version r) (resp_headers r) (resp_body r) (resp_keep_alive r)
    (gzip_compressed r) (last_modified r) v (cors_origin r).
Definition set_cors_origin (v : bytes) (r : http_response) : http_response :=
  mkResponse (resp_status r) (resp_version r) (resp_headers r) (resp_body r) (resp_keep_alive r)
    (gzip_compressed r) (last_modified r) (resp_etag r) v.
Definition response_zero : http_response :=
  mkResponse 0 [] [] None false false 0 [] [].
