(* ===== verification/HttpText.v ===== *)
(** * Text helpers of the HTTP layer (common/src/util.c)

    The string functions of the C library the HTTP code uses, then statuses,
    methods, paths, percent-decoding, query strings and bounded appends. *)
From Stdlib Require Import String.
From S2P Require Import Prelude Text Json HttpTypes.

Local Open Scope Z_scope.

(** ** C strings

    A pointer to a string is the bytes it points to; [cstr] cuts at the NUL. *)
Fixpoint cstr (l : bytes) : bytes :=
  match l with
  | [] => []
  | c :: l' => if c =? 0 then [] else c :: cstr l'
  end.

Definition tolower (c : Z) : Z := if (65 <=? c) && (c <=? 90) then c + 32 else c.
Definition lower (s : bytes) : bytes := map tolower s.

(** [strcasecmp(a, b) == 0] and [strncasecmp(a, b, n) == 0]. *)
Definition strcaseeq (a b : bytes) : bool := bool_decide (lower a = lower b).
Definition strncaseeq (n : Z) (a b : bytes) : bool := strcaseeq (ztake n a) (ztake n b).
Definition streq (a b : bytes) : bool := bool_decide (a = b).
(** [strncmp(lit, s, strlen(lit)) == 0] is [starts_with]. *)

(** [strstr(s, lit) != NULL] and [strcasestr]. *)
Fixpoint strstr (lit s : bytes) : bool :=
  starts_with lit s || match s with [] => false | _ :: s' => strstr lit s' end.
Definition strcasestr (lit s : bytes) : bool := strstr (lower lit) (lower s).

(** [memchr]/[strchr]: what precedes the first [c] and what follows it. *)
Fixpoint split_at (c : Z) (l : bytes) : option (bytes * bytes) :=
  match l with
  | [] => None
  | x :: l' => if x =? c then Some ([], l') else '(a, b) ← split_at c l'; Some (x :: a, b)
  end.

(** The blanks the parsers skip, space and tab. *)
Definition is_blank (c : Z) : bool := (c =? 32) || (c =? 9).
Fixpoint skip_blanks (l : bytes) : bytes :=
  match l with
  | c :: l' => if is_blank c then skip_blanks l' else l
  | [] => []
  end.
Definition trim_blanks_end (l : bytes) : bytes := rev (skip_blanks (rev l)).

(** [isspace] in the C locale. *)
Definition is_space (c : Z) : bool := (c =? 32) || ((9 <=? c) && (c <=? 13)).
Fixpoint skip_spaces (l : bytes) : bytes :=
  match l with
  | c :: l' => if is_space c then skip_spaces l' else l
  | [] => []
  end.

(** [snprintf(dst, size, "%s", s)], also [strncpy] with a terminator. *)
Definition snprintf_s (size : Z) (s : bytes) : bytes := ztake (size - 1) s.

Definition CRLF : bytes := [13; 10].

(** ** Statuses and methods *)
Definition http_status_to_string (status : Z) : bytes :=
  str match status with
  | 101 => "Switching Protocols"
  | 200 => "OK"
  | 201 => "Created"
  | 202 => "Accepted"
  | 204 => "No Content"
  | 206 => "Partial Content"
  | 301 => "Moved Permanently"
  | 302 => "Found"
  | 304 => "Not Modified"
  | 400 => "Bad Request"
  | 401 => "Unauthorized"
  | 403 => "Forbidden"
  | 404 => "Not Found"
  | 405 => "Method Not Allowed"
  | 408 => "Request Timeout"
  | 409 => "Conflict"
  | 413 => "Payload Too Large"
  | 416 => "Range Not Satisfiable"
  | 429 => "Too Many Requests"
  | 500 => "Internal Server Error"
  | 501 => "Not Implemented"
  | 502 => "Bad Gateway"
  | 503 => "Service Unavailable"
  | 504 => "Gateway Timeout"
  | _ => "Unknown"
  end.

Definition string_to_http_method (method : bytes) : http_method :=
  if strcaseeq method (str "GET") then HTTP_GET
  else if strcaseeq method (str "POST") then HTTP_POST
  else if strcaseeq method (str "PUT") then HTTP_PUT
  else if strcaseeq method (str "DELETE") then HTTP_DELETE
  else if strcaseeq method (str "HEAD") then HTTP_HEAD
  else if strcaseeq method (str "OPTIONS") then HTTP_OPTIONS
  else if strcaseeq method (str "PATCH") then HTTP_PATCH
  else if strcaseeq method (str "CONNECT") then HTTP_CONNECT
  else if strcaseeq method (str "TRACE") then HTTP_TRACE
  else HTTP_UNKNOWN.

Definition http_method_to_string (method : http_method) : bytes :=
  str match method with
  | HTTP_GET => "GET"
  | HTTP_POST => "POST"
  | HTTP_PUT => "PUT"
  | HTTP_DELETE => "DELETE"
  | HTTP_HEAD => "HEAD"
  | HTTP_OPTIONS => "OPTIONS"
  | HTTP_PATCH => "PATCH"
  | HTTP_CONNECT => "CONNECT"
  | HTTP_TRACE => "TRACE"
  | HTTP_UNKNOWN => "UNKNOWN"
  end.

(** ** Paths *)
Definition is_valid_uri (uri : bytes) : bool :=
  match uri with
  | 47 :: _ =>
      if strstr [46; 46; 47] uri || strstr [46; 46; 92] uri then false else
      let len := zlen uri in
      let at_ i := default 0 (znth uri i) in
      negb ((len >=? 2) && (at_ (len - 1) =? 46) && (at_ (len - 2) =? 46) &&
            ((len =? 2) || (at_ (len - 3) =? 47)))
  | _ => false
  end.

(** -1 is [None]. Also [hex_digit] of http_protocol.c, the same function. *)
Definition hex_to_int (c : Z) : option Z :=
  if (48 <=? c) && (c <=? 57) then Some (c - 48)
  else if (97 <=? c) && (c <=? 102) then Some (c - 97 + 10)
  else if (65 <=? c) && (c <=? 70) then Some (c - 65 + 10)
  else None.

(** The loop of [url_decode]; [None] for an encoded NUL. *)
Fixpoint url_decode_loop (url : bytes) : option bytes :=
  match url with
  | [] => Some []
  | 37 :: ((h :: l :: url'') as url') =>
      match hex_to_int h, hex_to_int l with
      | Some hi, Some lo =>
          let c := Z.lor (Z.shiftl hi 4) lo in
          if c =? 0 then None else cons c <$> url_decode_loop url''
      | _, _ => cons 37 <$> url_decode_loop url'
      end
  | c :: url' => cons c <$> url_decode_loop url'
  end.
Definition url_decode (malloc_ok : bool) (url : bytes) : option bytes :=
  if malloc_ok then url_decode_loop url else None.

(** ** Query strings *)

(** The tokens of [strtok_r] on one delimiter: maximal runs without it. *)
Fixpoint strtok (c : Z) (l cur : bytes) : list bytes :=
  match l with
  | [] => match cur with [] => [] | _ => [rev cur] end
  | x :: l' => if x =? c then match cur with [] => strtok c l' [] | _ => rev cur :: strtok c l' [] end
               else strtok c l' (x :: cur)
  end.

Fixpoint query_loop (pairs : list bytes) (params_count : Z) : list http_header :=
  match pairs with
  | [] => []
  | kv :: pairs' =>
      if params_count <? MAX_HEADERS then
        match split_at 61 kv with
        | Some (name, value) =>
            mkHeader (snprintf_s 256 name) (snprintf_s 2048 value) :: query_loop pairs' (params_count + 1)
        | None => query_loop pairs' params_count
        end
      else []
  end.
Definition parse_query_string (query : bytes) : list http_header :=
  query_loop (strtok 38 (snprintf_s 2048 query) []) 0.

(** ** Bounded appends

    [buf_appendf] with the formatted text: the buffer's contents so far, or
    [None] for -1. *)
Definition buf_appendf (size : Z) (buf text : bytes) : option bytes :=
  if zlen buf >=? size then None
  else if zlen text >=? size - zlen buf then None
  else Some (buf ++ text).

(** ** Splitting and searching *)
Lemma split_at_some c l a b : split_at c l = Some (a, b) <-> l = a ++ c :: b /\ c ∉ a.
Proof.
  revert a b. induction l as [|x l IH]; intros a b; cbn [split_at].
  - split; [done|]. intros [E _]. by destruct a.
  - destruct (Z.eqb_spec x c) as [->|Hne].
    + split.
      * intros [= <- <-]. split; [done|]. apply not_elem_of_nil.
      * intros [E Hn]. destruct a as [|y a]; [by injection E as ->|].
        injection E as -> ->. exfalso. apply Hn. apply elem_of_cons; auto.
    + destruct (split_at c l) as [[a' b']|] eqn:E; cbn.
      * split.
        -- intros [= <- <-]. destruct (proj1 (IH a' b') eq_refl) as [-> Hn]. split; [done|].
           rewrite elem_of_cons. naive_solver.
        -- intros [E' Hn]. destruct a as [|y a]; [injection E' as -> _; done|]. injection E' as -> E'.
           rewrite elem_of_cons in Hn. assert (Some (a', b') = Some (a, b)) as Es by (apply IH; naive_solver).
           by injection Es as -> ->.
      * split; [done|]. intros [E' Hn]. destruct a as [|y a]; [injection E' as -> _; done|].
        injection E' as -> E'. rewrite elem_of_cons in Hn.
        assert (None = Some (a, b)) by (apply IH; naive_solver). done.
Qed.

Lemma split_at_none c l : split_at c l = None <-> c ∉ l.
Proof.
  induction l as [|x l IH]; cbn [split_at].
  - split; [intros _; apply not_elem_of_nil|done].
  - rewrite elem_of_cons. destruct (Z.eqb_spec x c) as [->|Hne]; [naive_solver|].
    destruct (split_at c l) as [[a b]|] eqn:E; cbn; [|naive_solver].
    apply split_at_some in E as [-> _]. split; [done|]. intros Hn. exfalso. apply Hn. right.
    apply elem_of_app. right. apply elem_of_cons; auto.
Qed.

Lemma split_at_app c a b : c ∉ a -> split_at c (a ++ c :: b) = Some (a, b).
Proof. intros. by apply split_at_some. Qed.

Lemma starts_with_spec lit s : starts_with lit s = true <-> exists r, s = lit ++ r.
Proof.
  unfold starts_with. rewrite bool_decide_eq_true. split.
  - intros E. exists (zdrop (zlen lit) s). rewrite <- E at 1. by rewrite ztake_zdrop.
  - intros [r ->]. by apply ztake_app_eq.
Qed.

Lemma strstr_spec lit s : strstr lit s = true <-> exists a b, s = a ++ lit ++ b.
Proof.
  induction s as [|x s IH]; cbn [strstr]; rewrite orb_true_iff, starts_with_spec.
  - split.
    + intros [[r E]|?]; [|done]. by exists [], r.
    + intros (a & b & E). left. destruct a; [|done]. by exists b.
  - rewrite IH. split.
    + intros [[r E]|(a & b & ->)]; [by exists [], r|by exists (x :: a), b].
    + intros (a & b & E). destruct a as [|y a]; [left; by exists b|]. injection E as <- ->. right. by exists a, b.
Qed.

Lemma skip_blanks_spec l : exists p, l = p ++ skip_blanks l /\ Forall (fun c => is_blank c = true) p.
Proof.
  induction l as [|c l IH]; [by exists []|]. cbn [skip_blanks]. destruct (is_blank c) eqn:E; [|by exists []].
  destruct IH as (p & E' & Hp). exists (c :: p). split; [by rewrite E' at 1|]. by constructor.
Qed.

Lemma skip_blanks_idem l : skip_blanks (skip_blanks l) = skip_blanks l.
Proof.
  induction l as [|c l IH]; [done|]. cbn [skip_blanks]. destruct (is_blank c) eqn:E; [done|].
  cbn [skip_blanks]. by rewrite E.
Qed.

Lemma lower_app a b : lower (a ++ b) = lower a ++ lower b.
Proof. apply List.map_app. Qed.
Lemma zlen_lower a : zlen (lower a) = zlen a.
Proof. apply zlen_map. Qed.
#[export] Hint Rewrite zlen_lower : zlen.
Lemma strcaseeq_len a b : strcaseeq a b = true -> zlen a = zlen b.
Proof. unfold strcaseeq. rewrite bool_decide_eq_true. intros E. by rewrite <- (zlen_lower a), E, zlen_lower. Qed.

Lemma cstr_app_nul a b : 0 ∉ a -> cstr (a ++ 0 :: b) = a.
Proof.
  induction a as [|c a IH]; intros Hn; [done|]. cbn [app cstr]. rewrite elem_of_cons in Hn.
  destruct (Z.eqb_spec c 0); [naive_solver|]. f_equal. apply IH. naive_solver.
Qed.
Lemma cstr_id a : 0 ∉ a -> cstr a = a.
Proof.
  induction a as [|c a IH]; intros Hn; [done|]. cbn [cstr]. rewrite elem_of_cons in Hn.
  destruct (Z.eqb_spec c 0); [naive_solver|]. f_equal. apply IH. naive_solver.
Qed.
Lemma cstr_no_nul a : 0 ∉ cstr a.
Proof.
  induction a as [|c a IH]; cbn [cstr]; [apply not_elem_of_nil|].
  destruct (Z.eqb_spec c 0); [apply not_elem_of_nil|]. rewrite elem_of_cons. naive_solver.
Qed.

Lemma znth_app_r {A} (a b : list A) i : 0 <= i -> znth (a ++ b) (zlen a + i) = znth b i.
Proof.
  intros Hi. unfold znth. pose proof (zlen_nonneg a).
  rewrite (proj2 (Z.ltb_ge (zlen a + i) 0)), (proj2 (Z.ltb_ge i 0)) by lia.
  rewrite list.lookup_app_r by (unfold zlen; lia). f_equal. unfold zlen. lia.
Qed.

(** ** Paths without parent steps

    A path that passes has no [..] segment: none inside, none at the end. *)
Lemma is_valid_uri_spec uri a b :
  is_valid_uri uri = true -> uri = a ++ [47; 46; 46] ++ b ->
  exists c b', b = c :: b' /\ c <> 47 /\ c <> 92.
Proof.
  intros H E. unfold is_valid_uri in H. destruct uri as [|c0 uri0]; [done|].
  destruct (decide (c0 = 47)) as [->|Hne]; cycle 1.
  { exfalso. destruct c0 as [|p|p]; try done. repeat (destruct p as [p|p|]; try done). }
  remember (47 :: uri0) as uri eqn:Eu.
  destruct (strstr [46; 46; 47] uri) eqn:E1; [done|]. destruct (strstr [46; 46; 92] uri) eqn:E2; [done|].
  cbn [orb] in H.
  assert (forall x b', b = x :: b' -> x = 47 \/ x = 92 -> False) as Hx.
  { intros x b' -> [-> | ->].
    - assert (strstr [46; 46; 47] uri = true); [|congruence]. apply strstr_spec. exists (a ++ [47]), b'.
      by rewrite E, <- !app_assoc.
    - assert (strstr [46; 46; 92] uri = true); [|congruence]. apply strstr_spec. exists (a ++ [47]), b'.
      by rewrite E, <- !app_assoc. }
  destruct b as [|c b']; cycle 1.
  { exists c, b'. split; [done|]. split; intros ->; eapply Hx; eauto. }
  exfalso. clear Hx E1 E2 Eu. subst uri. rewrite app_nil_r in H. apply negb_true_iff in H. revert H.
  rewrite zlen_app. change (zlen [47; 46; 46]) with 3.
  replace (zlen a + 3 - 1) with (zlen a + 2) by lia. replace (zlen a + 3 - 2) with (zlen a + 1) by lia.
  replace (zlen a + 3 - 3) with (zlen a + 0) by lia. rewrite !znth_app_r by lia.
  pose proof (zlen_nonneg a). replace (zlen a + 3 >=? 2) with true by lia. cbn. by rewrite orb_true_r.
Qed.

(** ** Percent-decoding *)
Definition hex_upper (d : Z) : Z := if d <? 10 then 48 + d else 55 + d.
(** A client's encoding: bytes outside [keep] become [%XY]. *)
Definition url_encode (keep : Z -> bool) (s : bytes) : bytes :=
  flat_map (fun c => if keep c then [c] else [37; hex_upper (c / 16); hex_upper (c mod 16)]) s.

Lemma hex_to_int_upper d : 0 <= d < 16 -> hex_to_int (hex_upper d) = Some d.
Proof.
  intros Hd. unfold hex_to_int, hex_upper. destruct (Z.ltb_spec d 10).
  - replace ((48 <=? 48 + d) && (48 + d <=? 57)) with true by lia. f_equal. lia.
  - replace ((48 <=? 55 + d) && (55 + d <=? 57)) with false by lia.
    replace ((97 <=? 55 + d) && (55 + d <=? 102)) with false by lia.
    replace ((65 <=? 55 + d) && (55 + d <=? 70)) with true by lia. f_equal. lia.
Qed.
Lemma hex_to_int_range c d : hex_to_int c = Some d -> 0 <= d < 16.
Proof. unfold hex_to_int. repeat case_match; intros [= <-]; lia. Qed.

Lemma url_decode_plain c url : c <> 37 -> url_decode_loop (c :: url) = cons c <$> url_decode_loop url.
Proof.
  intros Hc. destruct c as [|p|p]; try done. repeat (destruct p as [p|p|]; try done).
Qed.

Lemma url_decode_encode keep s :
  keep 37 = false -> Forall (fun c => 0 < c < 256) s -> url_decode true (url_encode keep s) = Some s.
Proof.
  intros Hk. unfold url_decode. induction 1 as [|c s Hc Hs IH]; [done|].
  cbn [url_encode flat_map]. fold (url_encode keep s). destruct (keep c) eqn:Ek.
  - cbn [app]. rewrite url_decode_plain by congruence. by rewrite IH.
  - cbn [app url_decode_loop]. rewrite !hex_to_int_upper by zdiv.
    rewrite lor_disjoint by zdiv. replace (c / 16 * 2 ^ 4 + c mod 16) with c by zdiv.
    destruct (Z.eqb_spec c 0); [lia|]. by rewrite IH.
Qed.

Lemma url_decode_no_nul malloc_ok url path : 0 ∉ url -> url_decode malloc_ok url = Some path -> 0 ∉ path.
Proof.
  unfold url_decode. destruct malloc_ok; [|done].
  remember (length url) as n eqn:En. assert (length url <= n)%nat as Hn by lia. clear En.
  revert url path Hn. induction n as [|n IH]; intros url path Hn Hz H.
  - destruct url; [|cbn in Hn; lia]. injection H as <-. apply not_elem_of_nil.
  - destruct url as [|c url]; [injection H as <-; apply not_elem_of_nil|].
    assert (forall url' p, (length url' <= n)%nat -> 0 ∉ url' -> forall x, x <> 0 -> cons x <$> url_decode_loop url' = Some p -> 0 ∉ p)
      as Hstep.
    { intros url' p Hl Hu x Hx E. destruct (url_decode_loop url') as [q|] eqn:Eq; [|done]. injection E as <-.
      rewrite elem_of_cons. intros [E|E]; [done|]. by apply (IH url' q). }
    rewrite elem_of_cons in Hz. cbn in Hn. destruct (decide (c = 37)) as [->|Hc].
    + destruct url as [|h [|l url2]].
      { eapply (Hstep []); [..|exact H]; [cbn; lia|apply not_elem_of_nil|done]. }
      { eapply (Hstep [h]); [..|exact H]; [cbn in *; lia|by intros ?; apply Hz; right|done]. }
      cbn in Hn. assert (url_decode_loop (37 :: h :: l :: url2) = cons 37 <$> url_decode_loop (h :: l :: url2) \/
        exists c, c <> 0 /\ url_decode_loop (37 :: h :: l :: url2) = cons c <$> url_decode_loop url2 \/
        url_decode_loop (37 :: h :: l :: url2) = None) as Hcase.
      { cbn [url_decode_loop]. destruct (hex_to_int h) as [hi|]; [|by left].
        destruct (hex_to_int l) as [lo|]; [|by left]. right. exists (Z.lor (Z.shiftl hi 4) lo).
        destruct (Z.eqb_spec (Z.lor (Z.shiftl hi 4) lo) 0); auto. }
      destruct Hcase as [E|(c & [[Hc E]|E])]; rewrite E in H; [| |done].
      * eapply (Hstep (h :: l :: url2)); [..|exact H]; [cbn; lia|by intros ?; apply Hz; right|done].
      * eapply (Hstep url2); [..|exact H]; [lia|by intros ?; apply Hz; right; rewrite !elem_of_cons; auto|done].
    + rewrite url_decode_plain in H by done. eapply Hstep; [..|exact H]; [lia|by intros ?; apply Hz; right|by intros ->; apply Hz; left].
Qed.
