(* ===== verification/HttpDate.v ===== *)
(** * HTTP dates (format_http_date and parse_http_date of common/src/util.c)

    [gmtime_r], [strftime], [strptime] and [timegm] for the one format the
    program uses, ["%a, %d %b %Y %H:%M:%S GMT"], in the C locale. *)
From Stdlib Require Import String.
From S2P Require Import Prelude Text Json HttpText.

Local Open Scope Z_scope.

(** ** The calendar *)

(** Days since 1970-01-01 of a date of the proleptic Gregorian calendar; years
    start in March so that the leap day comes last. *)
Definition year_days (yoe : Z) : Z := 365 * yoe + yoe / 4 - yoe / 100.
Definition days_from_civil (y m d : Z) : Z :=
  let y := if m <=? 2 then y - 1 else y in
  let era := y / 400 in
  let yoe := y - era * 400 in
  let mp := if m >? 2 then m - 3 else m + 9 in
  era * 146097 + year_days yoe + (153 * mp + 2) / 5 + d - 1 - 719468.

(** Year, month and day of a number of days. *)
Definition civil_from_days (days : Z) : Z * Z * Z :=
  let z := days + 719468 in
  let era := z / 146097 in
  let doe := z mod 146097 in
  let yoe := (doe - doe / 1460 + doe / 36524 - doe / 146096) / 365 in
  let doy := doe - year_days yoe in
  let mp := (5 * doy + 2) / 153 in
  let d := doy - (153 * mp + 2) / 5 + 1 in
  let m := if mp <? 10 then mp + 3 else mp - 9 in
  (yoe + era * 400 + (if m <=? 2 then 1 else 0), m, d).

Definition day_names : list bytes :=
  map str ["Sunday"; "Monday"; "Tuesday"; "Wednesday"; "Thursday"; "Friday"; "Saturday"]%string.
Definition month_names : list bytes :=
  map str ["January"; "February"; "March"; "April"; "May"; "June"; "July"; "August"; "September";
           "October"; "November"; "December"]%string.
Definition abbrev (name : bytes) : bytes := ztake 3 name.
Definition name_of (names : list bytes) (i : Z) : bytes := abbrev (default [] (znth names i)).

(** ** Printing *)
Definition format_http_date (t : Z) : bytes :=
  let days := t / 86400 in
  let secs := t mod 86400 in
  let '(y, m, d) := civil_from_days days in
  name_of day_names ((days + 4) mod 7) ++ str ", " ++ dec_pad 2 d ++ [32] ++
  name_of month_names (m - 1) ++ [32] ++ dec y ++ [32] ++
  dec_pad 2 (secs / 3600) ++ [58] ++ dec_pad 2 (secs / 60 mod 60) ++ [58] ++
  dec_pad 2 (secs mod 60) ++ str " GMT".

(** ** Parsing *)

(** The first name, in full or abbreviated, that starts the text whatever its
    case: its index and what follows. *)
Fixpoint match_name (names : list bytes) (i : Z) (s : bytes) : option (Z * bytes) :=
  match names with
  | [] => None
  | name :: names' =>
      if strncaseeq (zlen name) name s then Some (i, zdrop (zlen name) s)
      else if strncaseeq 3 (abbrev name) s then Some (i, zdrop 3 s)
      else match_name names' (i + 1) s
  end.

(** glibc's [get_number]: spaces, then at most [n] digits while ten times the
    value does not pass [to]. *)
Fixpoint number_loop (n : nat) (to val : Z) (s : bytes) : Z * bytes :=
  match n, s with
  | S n', c :: s' =>
      if is_digit c && (val * 10 <=? to) then number_loop n' to (val * 10 + (c - 48)) s' else (val, s)
  | _, _ => (val, s)
  end.
Fixpoint skip_sp (s : bytes) : bytes :=
  match s with 32 :: s' => skip_sp s' | _ => s end.
Definition get_number (from to : Z) (n : nat) (s : bytes) : option (Z * bytes) :=
  match skip_sp s with
  | c :: s' =>
      if is_digit c then
        let '(val, rest) := number_loop (n - 1) to (c - 48) s' in
        if (val <? from) || (val >? to) then None else Some (val, rest)
      else None
  | [] => None
  end.

Definition match_lit (lit s : bytes) : option bytes :=
  if starts_with lit s then Some (zdrop (zlen lit) s) else None.

(** [(time_t)-1] is -1. *)
Definition strptime_gmt (s : bytes) : option Z :=
  '(_, s) ← match_name day_names 0 s;
  s ← match_lit [44] s;
  '(d, s) ← get_number 1 31 2 (skip_spaces s);
  '(m, s) ← match_name month_names 0 (skip_spaces s);
  '(y, s) ← get_number 0 9999 4 (skip_spaces s);
  '(hh, s) ← get_number 0 23 2 (skip_spaces s);
  s ← match_lit [58] s;
  '(mm, s) ← get_number 0 59 2 s;
  s ← match_lit [58] s;
  '(ss, s) ← get_number 0 61 2 s;
  _ ← match_lit (str "GMT") (skip_spaces s);
  Some (days_from_civil y (m + 1) d * 86400 + hh * 3600 + mm * 60 + ss).
Definition parse_http_date (value : bytes) : Z := default (-1) (strptime_gmt value).

(** ** The calendar round trip *)
Lemma era_split doe :
  0 <= doe < 146097 -> let yoe := (doe - doe / 1460 + doe / 36524 - doe / 146096) / 365 in
  0 <= yoe < 400 /\ 0 <= doe - year_days yoe <= 365.
Proof. intros H yoe. unfold year_days, yoe. clear yoe. zdiv. Qed.

Lemma civil_from_days_spec days y m d :
  civil_from_days days = (y, m, d) ->
  1 <= m <= 12 /\ 1 <= d <= 31 /\ days_from_civil y m d = days.
Proof.
  unfold civil_from_days. set (z := days + 719468).
  assert (0 <= z mod 146097 < 146097) as Hdoe by (apply Z.mod_pos_bound; lia).
  assert (z = z / 146097 * 146097 + z mod 146097) as Hz by zdiv.
  revert Hz Hdoe. generalize (z / 146097) (z mod 146097). intros era doe Hz Hdoe.
  pose proof (era_split doe Hdoe) as H. cbv zeta in H. revert H.
  generalize ((doe - doe / 1460 + doe / 36524 - doe / 146096) / 365). intros yoe [Hy Hdoy].
  remember (doe - year_days yoe) as doy eqn:Ed.
  remember ((5 * doy + 2) / 153) as mp eqn:Emp.
  assert (0 <= mp <= 11 /\ 1 <= doy - (153 * mp + 2) / 5 + 1 <= 31) as [Hmp Hd] by (clear -Hdoy Emp; zdiv).
  intros [= <- <- <-].
  split; [destruct (Z.ltb_spec mp 10); lia|]. split; [done|]. unfold days_from_civil.
  destruct (Z.ltb_spec mp 10) as [Hlt|Hge].
  - rewrite (proj2 (Z.leb_gt (mp + 3) 2)) by lia. rewrite (proj2 (Z.gtb_lt (mp + 3) 2)) by lia.
    replace (yoe + era * 400 + 0) with (yoe + era * 400) by lia.
    replace ((yoe + era * 400) / 400) with era by (clear -Hy; zdiv).
    replace (yoe + era * 400 - era * 400) with yoe by lia.
    replace (mp + 3 - 3) with mp by lia. lia.
  - rewrite (proj2 (Z.leb_le (mp - 9) 2)) by lia.
    replace (mp - 9 >? 2) with false by (symmetry; lia).
    replace ((yoe + era * 400 + 1 - 1) / 400) with era by (clear -Hy; zdiv).
    replace (yoe + era * 400 + 1 - 1 - era * 400) with yoe by lia.
    replace (mp - 9 + 9) with mp by lia. lia.
Qed.

(** Years from 1000 to 9999 print as four digits. *)
Lemma civil_year days y m d :
  civil_from_days days = (y, m, d) -> 0 <= days < 2932897 -> 1000 <= y <= 9999.
Proof.
  intros E Hd. pose proof (civil_from_days_spec _ _ _ _ E) as (Hm & Hdd & Ey).
  unfold days_from_civil, year_days in Ey. clear E.
  destruct (Z.leb_spec m 2), (Z.gtb_spec m 2); try lia; zdiv.
Qed.

(** ** Numbers and names read back *)
Lemma number_loop_digits ds to val rest :
  all_digits ds -> 0 <= val -> val * 10 ^ zlen ds + digits_value ds <= to ->
  number_loop (length ds) to val (ds ++ rest) = (val * 10 ^ zlen ds + digits_value ds, rest).
Proof.
  intros Hd. revert val. induction Hd as [|d ds Hdd Hds IH]; intros val Hv Hto.
  - cbn [length number_loop app]. rewrite zlen_nil. unfold digits_value. cbn [fold_left].
    change (10 ^ 0) with 1. destruct rest; f_equal; lia.
  - cbn [length number_loop app]. rewrite Hdd. apply is_digit_spec in Hdd.
    rewrite digits_value_cons, zlen_cons, Z.pow_add_r in * by zl. change (10 ^ 1) with 10 in *.
    pose proof (digits_value_range ds Hds). assert (0 < 10 ^ zlen ds) by (apply Z.pow_pos_nonneg; zl).
    replace (val * 10 <=? to) with true by (symmetry; apply Z.leb_le; nia). cbn [andb].
    rewrite IH by nia. f_equal. nia.
Qed.

Lemma get_number_digits from to ds rest :
  all_digits ds -> ds <> [] -> from <= digits_value ds <= to ->
  get_number from to (length ds) (ds ++ rest) = Some (digits_value ds, rest).
Proof.
  intros Hd Hne Hr. destruct ds as [|d ds]; [done|]. inversion Hd as [|? ? Hdd Hds]; subst.
  pose proof (proj1 (is_digit_spec d) Hdd) as Hrange. unfold get_number.
  assert (skip_sp ((d :: ds) ++ rest) = d :: ds ++ rest) as ->.
  { cbn [app]. assert (d = 48 \/ d = 49 \/ d = 50 \/ d = 51 \/ d = 52 \/ d = 53 \/ d = 54 \/ d = 55 \/
      d = 56 \/ d = 57) as Hc by lia. naive_solver. }
  rewrite Hdd. cbn [length]. replace (S (length ds) - 1)%nat with (length ds) by lia.
  rewrite digits_value_cons in *. rewrite number_loop_digits by (done || lia).
  replace (_ <? from) with false by (symmetry; lia). replace (_ >? to) with false by (symmetry; lia). done.
Qed.

Lemma dec_pad2 v : 0 <= v <= 99 -> all_digits (dec_pad 2 v) /\ digits_value (dec_pad 2 v) = v /\ length (dec_pad 2 v) = 2%nat.
Proof.
  intros Hv. assert (0 <= v < 10 ^ Z.of_nat 20) as Hv' by (change (10 ^ Z.of_nat 20) with 100000000000000000000; lia).
  destruct (dec_loop_spec 20 v []) as (ds & E & Hd & Hdv & Hne & Hl & Hlow); [done|lia|].
  rewrite app_nil_r in E. unfold dec_pad, dec. rewrite E.
  assert (1 <= zlen ds <= 2) as Hlen.
  { split; [destruct ds; [done|zl]|]. destruct Hlow as [H0|Hlow].
    - rewrite H0 in E. change (dec_loop 20 0 []) with [48] in E. rewrite <- E. vm_compute. congruence.
    - destruct (Z.le_gt_cases (zlen ds) 2); [done|].
      assert (10 ^ 2 <= 10 ^ (zlen ds - 1)) by (apply Z.pow_le_mono_r; lia). lia. }
  split_and!.
  - apply Forall_app. split; [by apply Forall_replicate|done].
  - by rewrite digits_value_zeros.
  - rewrite length_app, length_replicate. unfold zlen in *. lia.
Qed.

Lemma dec_year y : 1000 <= y <= 9999 -> all_digits (dec y) /\ digits_value (dec y) = y /\ length (dec y) = 4%nat.
Proof.
  intros Hv. assert (0 <= y < 10 ^ Z.of_nat 20) as Hv' by (change (10 ^ Z.of_nat 20) with 100000000000000000000; lia).
  destruct (dec_loop_spec 20 y []) as (ds & E & Hd & Hdv & Hne & Hl & Hlow); [done|lia|].
  rewrite app_nil_r in E. unfold dec. rewrite E. split_and!; try done.
  destruct Hlow as [H0|Hlow]; [lia|]. pose proof (digits_value_range ds Hd) as Hr. rewrite Hdv in Hr.
  assert (zlen ds = 4); [|unfold zlen in *; lia].
  destruct (Z.lt_trichotomy (zlen ds) 4) as [H|[H|H]]; [|done|].
  - assert (10 ^ zlen ds <= 10 ^ 3) by (apply Z.pow_le_mono_r; lia). lia.
  - assert (10 ^ 4 <= 10 ^ (zlen ds - 1)) by (apply Z.pow_le_mono_r; lia). lia.
Qed.

Lemma get_number_pad2 from to v rest :
  0 <= v <= 99 -> from <= v <= to -> get_number from to 2 (dec_pad 2 v ++ rest) = Some (v, rest).
Proof.
  intros Hv Hr. destruct (dec_pad2 v Hv) as (Hd & E & Hl).
  rewrite <- Hl, get_number_digits, ?E by (done || (intros E0; rewrite E0 in Hl; done) || lia). done.
Qed.

Lemma match_day i rest :
  0 <= i <= 6 -> match_name day_names 0 (name_of day_names i ++ 44 :: 32 :: rest) = Some (i, 44 :: 32 :: rest).
Proof.
  intros Hi. assert (i = 0 \/ i = 1 \/ i = 2 \/ i = 3 \/ i = 4 \/ i = 5 \/ i = 6) as Hc by lia.
  destruct_or! Hc; subst i; reflexivity.
Qed.

Lemma match_month i rest :
  0 <= i <= 11 -> match_name month_names 0 (name_of month_names i ++ 32 :: rest) = Some (i, 32 :: rest).
Proof.
  intros Hi. assert (i = 0 \/ i = 1 \/ i = 2 \/ i = 3 \/ i = 4 \/ i = 5 \/ i = 6 \/ i = 7 \/ i = 8 \/ i = 9 \/
    i = 10 \/ i = 11) as Hc by lia.
  destruct_or! Hc; subst i; reflexivity.
Qed.

Lemma skip_spaces_name names i rest :
  names = day_names \/ names = month_names -> 0 <= i < zlen names ->
  skip_spaces (32 :: name_of names i ++ rest) = name_of names i ++ rest.
Proof.
  intros Hn Hi. change (skip_spaces (32 :: name_of names i ++ rest)) with (skip_spaces (name_of names i ++ rest)).
  assert (0 <= i <= 11) as Hi'.
  { destruct Hn; subst; [change (zlen day_names) with 7 in Hi|change (zlen month_names) with 12 in Hi]; lia. }
  assert (i = 0 \/ i = 1 \/ i = 2 \/ i = 3 \/ i = 4 \/ i = 5 \/ i = 6 \/ i = 7 \/ i = 8 \/ i = 9 \/
    i = 10 \/ i = 11) as Hc by lia.
  destruct Hn; subst names; destruct_or! Hc; subst i; try reflexivity; exfalso; revert Hi; vm_compute; naive_solver.
Qed.

Lemma skip_spaces_digits ds rest :
  all_digits ds -> ds <> [] -> skip_spaces (32 :: ds ++ rest) = ds ++ rest.
Proof.
  intros Hd Hne. destruct ds as [|d ds]; [done|]. inversion Hd as [|? ? Hdd _]; subst.
  apply is_digit_spec in Hdd. cbn [skip_spaces app]. change (is_space 32) with true. cbn iota.
  replace (is_space d) with false by (unfold is_space; lia). done.
Qed.

Lemma skip_spaces_pad2 v rest : 0 <= v <= 99 -> skip_spaces (32 :: dec_pad 2 v ++ rest) = dec_pad 2 v ++ rest.
Proof.
  intros Hv. destruct (dec_pad2 v Hv) as (Hd & _ & Hl). apply skip_spaces_digits; [done|].
  by intros E; rewrite E in Hl.
Qed.

(** A date prints and parses back to the same second. *)
Lemma http_date_roundtrip t :
  0 <= t < 253402300800 -> parse_http_date (format_http_date t) = t.
Proof.
  intros Ht. unfold parse_http_date, format_http_date.
  destruct (civil_from_days (t / 86400)) as [[y m] d] eqn:E.
  pose proof (civil_from_days_spec _ _ _ _ E) as (Hm & Hd & Ed).
  pose proof (civil_year _ _ _ _ E ltac:(zdiv)) as Hy.
  assert (0 <= (t / 86400 + 4) mod 7 <= 6) as Hdow by zdiv.
  assert (0 <= t mod 86400 / 3600 <= 23) as Hh by zdiv.
  assert (0 <= t mod 86400 / 60 mod 60 <= 59) as Hmm by zdiv.
  assert (0 <= t mod 86400 mod 60 <= 59) as Hs by zdiv.
  assert (t / 86400 * 86400 + t mod 86400 / 3600 * 3600 + t mod 86400 / 60 mod 60 * 60 + t mod 86400 mod 60 = t)
    as Hsum by zdiv.
  revert Hdow Hh Hmm Hs Hsum. generalize ((t / 86400 + 4) mod 7) (t mod 86400 / 3600)
    (t mod 86400 / 60 mod 60) (t mod 86400 mod 60). intros dow hh mm ss Hdow Hh Hmm Hs Hsum.
  destruct (dec_year y Hy) as (Hyd & Hyv & Hyl). unfold strptime_gmt.
  change (str ", " ++ ?x) with (44 :: 32 :: x). rewrite match_day by done. cbn [mbind option_bind].
  change (match_lit [44] (44 :: ?x)) with (Some x). cbn [mbind option_bind].
  rewrite skip_spaces_pad2, get_number_pad2 by lia. cbn [mbind option_bind app].
  rewrite skip_spaces_name, match_month by (auto || (change (zlen month_names) with 12; lia) || lia).
  cbn [mbind option_bind].
  assert (dec y <> []) as Hyne by (by intros E0; rewrite E0 in Hyl).
  rewrite skip_spaces_digits by done. rewrite <- Hyl at 1.
  rewrite get_number_digits by (done || lia). rewrite Hyv. cbn [mbind option_bind].
  rewrite skip_spaces_pad2, get_number_pad2 by lia. cbn [mbind option_bind app].
  change (match_lit [58] (58 :: ?x)) with (Some x). cbn [mbind option_bind].
  rewrite get_number_pad2 by lia. cbn [mbind option_bind app].
  change (match_lit [58] (58 :: ?x)) with (Some x). cbn [mbind option_bind].
  rewrite get_number_pad2 by lia. cbn [mbind option_bind app].
  change (match_lit (str "GMT") (skip_spaces (str " GMT"))) with (Some ([] : bytes)). cbn [mbind option_bind].
  cbn [default from_option]. replace (m - 1 + 1) with m by lia. rewrite Ed. exact Hsum.
Qed.
