(* ===== verification/Connection.v ===== *)
(** * Connections (common/include/connection.h, common/src/connection.c)

    The state of a connection and the growth and release of its read and write
    buffers. Sockets, TLS sessions and the links of the pool stay outside.
    [realloc] and [malloc] answer from a list, success once it is used up. *)
From S2P Require Import Prelude HttpTypes.

Local Open Scope Z_scope.

Definition BUFFER_SIZE : Z := 8192.
Definition MAX_RESPONSE_SIZE : Z := 1048576.
Definition CONN_READ_BUFFER_MIN : Z := BUFFER_SIZE.

Inductive connection_state :=
  CONN_STATE_READING_REQUEST | CONN_STATE_PROCESSING | CONN_STATE_WRITING_RESPONSE |
  CONN_STATE_KEEPALIVE | CONN_STATE_WEBSOCKET | CONN_STATE_CLOSING.

(** [conn_rbuf] holds [read_buffer_pos] bytes and [conn_wbuf] holds
    [write_buffer_size]; the capacity of an absent buffer is 0. [request_headers]
    and [response_headers] say whether the tables are allocated. *)
Record connection := mkConn {
  conn_state : connection_state;
  ssl_enabled : bool;
  conn_read_alloc : bool;
  conn_rbuf : bytes;
  read_buffer_cap : Z;
  conn_write_alloc : bool;
  conn_wbuf : bytes;
  write_buffer_pos : Z;
  write_buffer_cap : Z;
  conn_request : http_request;
  request_headers : bool;
  conn_response : http_response;
  response_headers : bool;
  auth_user_id : Z;
  auth_username : bytes;
  websocket_handshake_complete : bool;
  websocket_closing : bool;
  file_fd : Z;
  file_offset : Z;
  file_size : Z;
  conn_malloc : list bool }.
Definition set_conn_state (v : connection_state) (r : connection) : connection :=
  mkConn v (ssl_enabled r) (conn_read_alloc r) (conn_rbuf r) (read_buffer_cap r)
    (conn_write_alloc r) (conn_wbuf r) (write_buffer_pos r) (write_buffer_cap r) (conn_request
    r) (request_headers r) (conn_response r) (response_headers r) (auth_user_id r)
    (auth_username r) (websocket_handshake_complete r) (websocket_closing r) (file_fd r)
    (file_offset r) (file_size r) (conn_malloc r).
Definition set_ssl_enabled (v : bool) (r : connection) : connection :=
  mkConn (conn_state r) v (conn_read_alloc r) (conn_rbuf r) (read_buffer_cap r)
    (conn_write_alloc r) (conn_wbuf r) (write_buffer_pos r) (write_buffer_cap r) (conn_request
    r) (request_headers r) (conn_response r) (response_headers r) (auth_user_id r)
    (auth_username r) (websocket_handshake_complete r) (websocket_closing r) (file_fd r)
    (file_offset r) (file_size r) (conn_malloc r).
Definition set_conn_read_alloc (v : bool) (r : connection) : connection :=
  mkConn (conn_state r) (ssl_enabled r) v (conn_rbuf r) (read_buffer_cap r) (conn_write_alloc r)
    (conn_wbuf r) (write_buffer_pos r) (write_buffer_cap r) (conn_request r) (request_headers r)
    (conn_response r) (response_headers r) (auth_user_id r) (auth_username r)
    (websocket_handshake_complete r) (websocket_closing r) (file_fd r) (file_offset r)
    (file_size r) (conn_malloc r).
Definition set_conn_rbuf (v : bytes) (r : connection) : connection :=
  mkConn (conn_state r) (ssl_enabled r) (conn_read_alloc r) v (read_buffer_cap r)
    (conn_write_alloc r) (conn_wbuf r) (write_buffer_pos r) (write_buffer_cap r) (conn_request
    r) (request_headers r) (conn_response r) (response_headers r) (auth_user_id r)
    (auth_username r) (websocket_handshake_complete r) (websocket_closing r) (file_fd r)
    (file_offset r) (file_size r) (conn_malloc r).
Definition set_read_buffer_cap (v : Z) (r : connection) : connection :=
  mkConn (conn_state r) (ssl_enabled r) (conn_read_alloc r) (conn_rbuf r) v (conn_write_alloc r)
    (conn_wbuf r) (write_buffer_pos r) (write_buffer_cap r) (conn_request r) (request_headers r)
    (conn_response r) (response_headers r) (auth_user_id r) (auth_username r)
    (websocket_handshake_complete r) (websocket_closing r) (file_fd r) (file_offset r)
    (file_size r) (conn_malloc r).
Definition set_conn_write_alloc (v : bool) (r : connection) : connection :=
  mkConn (conn_state r) (ssl_enabled r) (conn_read_alloc r) (conn_rbuf r) (read_buffer_cap r) v
    (conn_wbuf r) (write_buffer_pos r) (write_buffer_cap r) (conn_request r) (request_headers r)
    (conn_response r) (response_headers r) (auth_user_id r) (auth_username r)
    (websocket_handshake_complete r) (websocket_closing r) (file_fd r) (file_offset r)
    (file_size r) (conn_malloc r).
Definition set_conn_wbuf (v : bytes) (r : connection) : connection :=
  mkConn (conn_state r) (ssl_enabled r) (conn_read_alloc r) (conn_rbuf r) (read_buffer_cap r)
    (conn_write_alloc r) v (write_buffer_pos r) (write_buffer_cap r) (conn_request r)
    (request_headers r) (conn_response r) (response_headers r) (auth_user_id r) (auth_username
    r) (websocket_handshake_complete r) (websocket_closing r) (file_fd r) (file_offset r)
    (file_size r) (conn_malloc r).
Definition set_write_buffer_pos (v : Z) (r : connection) : connection :=
  mkConn (conn_state r) (ssl_enabled r) (conn_read_alloc r) (conn_rbuf r) (read_buffer_cap r)
    (conn_write_alloc r) (conn_wbuf r) v (write_buffer_cap r) (conn_request r) (request_headers
    r) (conn_response r) (response_headers r) (auth_user_id r) (auth_username r)
    (websocket_handshake_complete r) (websocket_closing r) (file_fd r) (file_offset r)
    (file_size r) (conn_malloc r).
Definition set_write_buffer_cap (v : Z) (r : connection) : connection :=
  mkConn (conn_state r) (ssl_enabled r) (conn_read_alloc r) (conn_rbuf r) (read_buffer_cap r)
    (conn_write_alloc r) (conn_wbuf r) (write_buffer_pos r) v (conn_request r) (request_headers
    r) (conn_response r) (response_headers r) (auth_user_id r) (auth_username r)
    (websocket_handshake_complete r) (websocket_closing r) (file_fd r) (file_offset r)
    (file_size r) (conn_malloc r).
Definition set_conn_request (v : http_request) (r : connection) : connection :=
  mkConn (conn_state r) (ssl_enabled r) (conn_read_alloc r) (conn_rbuf r) (read_buffer_cap r)
    (conn_write_alloc r) (conn_wbuf r) (write_buffer_pos r) (write_buffer_cap r) v
    (request_headers r) (conn_response r) (response_headers r) (auth_user_id r) (auth_username
    r) (websocket_handshake_complete r) (websocket_closing r) (file_fd r) (file_offset r)
    (file_size r) (conn_malloc r).
Definition set_request_headers (v : bool) (r : connection) : connection :=
  mkConn (conn_state r) (ssl_enabled r) (conn_read_alloc r) (conn_rbuf r) (read_buffer_cap r)
    (conn_write_alloc r) (conn_wbuf r) (write_buffer_pos r) (write_buffer_cap r) (conn_request
    r) v (conn_response r) (response_headers r) (auth_user_id r) (auth_username r)
    (websocket_handshake_complete r) (websocket_closing r) (file_fd r) (file_offset r)
    (file_size r) (conn_malloc r).
Definition set_conn_response (v : http_response) (r : connection) : connection :=
  mkConn (conn_state r) (ssl_enabled r) (conn_read_alloc r) (conn_rbuf r) (read_buffer_cap r)
    (conn_write_alloc r) (conn_wbuf r) (write_buffer_pos r) (write_buffer_cap r) (conn_request
    r) (request_headers r) v (response_headers r) (auth_user_id r) (auth_username r)
    (websocket_handshake_complete r) (websocket_closing r) (file_fd r) (file_offset r)
    (file_size r) (conn_malloc r).
Definition set_response_headers (v : bool) (r : connection) : connection :=
  mkConn (conn_state r) (ssl_enabled r) (conn_read_alloc r) (conn_rbuf r) (read_buffer_cap r)
    (conn_write_alloc r) (conn_wbuf r) (write_buffer_pos r) (write_buffer_cap r) (conn_request
    r) (request_headers r) (conn_response r) v (auth_user_id r) (auth_username r)
    (websocket_handshake_complete r) (websocket_closing r) (file_fd r) (file_offset r)
    (file_size r) (conn_malloc r).
Definition set_auth_user_id (v : Z) (r : connection) : connection :=
  mkConn (conn_state r) (ssl_enabled r) (conn_read_alloc r) (conn_rbuf r) (read_buffer_cap r)
    (conn_write_alloc r) (conn_wbuf r) (write_buffer_pos r) (write_buffer_cap r) (conn_request
    r) (request_headers r) (conn_response r) (response_headers r) v (auth_username r)
    (websocket_handshake_complete r) (websocket_closing r) (file_fd r) (file_offset r)
    (file_size r) (conn_malloc r).
Definition set_auth_username (v : bytes) (r : connection) : connection :=
  mkConn (conn_state r) (ssl_enabled r) (conn_read_alloc r) (conn_rbuf r) (read_buffer_cap r)
    (conn_write_alloc r) (conn_wbuf r) (write_buffer_pos r) (write_buffer_cap r) (conn_request
    r) (request_headers r) (conn_response r) (response_headers r) (auth_user_id r) v
    (websocket_handshake_complete r) (websocket_closing r) (file_fd r) (file_offset r)
    (file_size r) (conn_malloc r).
Definition set_websocket_handshake_complete (v : bool) (r : connection) : connection :=
  mkConn (conn_state r) (ssl_enabled r) (conn_read_alloc r) (conn_rbuf r) (read_buffer_cap r)
    (conn_write_alloc r) (conn_wbuf r) (write_buffer_pos r) (write_buffer_cap r) (conn_request
    r) (request_headers r) (conn_response r) (response_headers r) (auth_user_id r)
    (auth_username r) v (websocket_closing r) (file_fd r) (file_offset r) (file_size r)
    (conn_malloc r).
Definition set_websocket_closing (v : bool) (r : connection) : connection :=
  mkConn (conn_state r) (ssl_enabled r) (conn_read_alloc r) (conn_rbuf r) (read_buffer_cap r)
    (conn_write_alloc r) (conn_wbuf r) (write_buffer_pos r) (write_buffer_cap r) (conn_request
    r) (request_headers r) (conn_response r) (response_headers r) (auth_user_id r)
    (auth_username r) (websocket_handshake_complete r) v (file_fd r) (file_offset r) (file_size
    r) (conn_malloc r).
Definition set_file_fd (v : Z) (r : connection) : connection :=
  mkConn (conn_state r) (ssl_enabled r) (conn_read_alloc r) (conn_rbuf r) (read_buffer_cap r)
    (conn_write_alloc r) (conn_wbuf r) (write_buffer_pos r) (write_buffer_cap r) (conn_request
    r) (request_headers r) (conn_response r) (response_headers r) (auth_user_id r)
    (auth_username r) (websocket_handshake_complete r) (websocket_closing r) v (file_offset r)
    (file_size r) (conn_malloc r).
Definition set_file_offset (v : Z) (r : connection) : connection :=
  mkConn (conn_state r) (ssl_enabled r) (conn_read_alloc r) (conn_rbuf r) (read_buffer_cap r)
    (conn_write_alloc r) (conn_wbuf r) (write_buffer_pos r) (write_buffer_cap r) (conn_request
    r) (request_headers r) (conn_response r) (response_headers r) (auth_user_id r)
    (auth_username r) (websocket_handshake_complete r) (websocket_closing r) (file_fd r) v
    (file_size r) (conn_malloc r).
Definition set_file_size (v : Z) (r : connection) : connection :=
  mkConn (conn_state r) (ssl_enabled r) (conn_read_alloc r) (conn_rbuf r) (read_buffer_cap r)
    (conn_write_alloc r) (conn_wbuf r) (write_buffer_pos r) (write_buffer_cap r) (conn_request
    r) (request_headers r) (conn_response r) (response_headers r) (auth_user_id r)
    (auth_username r) (websocket_handshake_complete r) (websocket_closing r) (file_fd r)
    (file_offset r) v (conn_malloc r).
Definition set_conn_malloc (v : list bool) (r : connection) : connection :=
  mkConn (conn_state r) (ssl_enabled r) (conn_read_alloc r) (conn_rbuf r) (read_buffer_cap r)
    (conn_write_alloc r) (conn_wbuf r) (write_buffer_pos r) (write_buffer_cap r) (conn_request
    r) (request_headers r) (conn_response r) (response_headers r) (auth_user_id r)
    (auth_username r) (websocket_handshake_complete r) (websocket_closing r) (file_fd r)
    (file_offset r) (file_size r) v.

Definition conn_next_malloc (c : connection) : bool * connection :=
  match conn_malloc c with
  | [] => (true, c)
  | b :: l => (b, set_conn_malloc l c)
  end.

(** A buffer, its contents and its capacity at once. *)
Definition set_read (a : bool) (b : bytes) (cap : Z) (c : connection) : connection :=
  set_conn_read_alloc a (set_conn_rbuf b (set_read_buffer_cap cap c)).
Definition set_write (a : bool) (b : bytes) (pos cap : Z) (c : connection) : connection :=
  set_conn_write_alloc a (set_conn_wbuf b (set_write_buffer_pos pos (set_write_buffer_cap cap c))).
Definition set_tables (req resp : bool) (c : connection) : connection :=
  set_request_headers req (set_response_headers resp c).

(** Doubling; 64 steps exhaust a [size_t]. *)
Fixpoint grow_loop (fuel : nat) (cap need : Z) : Z :=
  match fuel with
  | O => cap
  | S fuel' => if cap <? need then grow_loop fuel' (u64 (cap * 2)) need else cap
  end.
Definition grow_to (from need : Z) : Z :=
  grow_loop 64 (if from =? 0 then CONN_READ_BUFFER_MIN else from) need.

Definition conn_ensure_buffers (c : connection) : bool * connection :=
  let '(ok, c) := if conn_read_alloc c then (true, c)
                  else let '(ok, c) := conn_next_malloc c in
                       (ok, if ok : bool then set_read true [] CONN_READ_BUFFER_MIN c else c) in
  if negb ok then (false, c) else
  let '(ok, c) := if request_headers c then (true, c)
                  else let '(ok, c) := conn_next_malloc c in
                       (ok, if ok : bool then set_tables true (response_headers c) c else c) in
  if negb ok then (false, c) else
  if response_headers c then (true, c)
  else let '(ok, c) := conn_next_malloc c in
       (ok, if ok : bool then set_tables (request_headers c) true c else c).

Definition conn_reserve_read (need max : Z) (c : connection) : bool * connection :=
  if need >? max then (false, c) else
  if conn_read_alloc c && (read_buffer_cap c >=? need) then (true, c) else
  let cap := grow_to (read_buffer_cap c) need in
  let cap := if cap >? max then max else cap in
  let '(ok, c) := conn_next_malloc c in
  if negb ok then (false, c) else (cap >=? need, set_read true (conn_rbuf c) cap c).

Definition conn_reserve_write (need : Z) (c : connection) : bool * connection :=
  if need >? MAX_RESPONSE_SIZE then (false, c) else
  if conn_write_alloc c && (write_buffer_cap c >=? need) then (true, c) else
  let cap := grow_to (write_buffer_cap c) need in
  let cap := if cap >? MAX_RESPONSE_SIZE then MAX_RESPONSE_SIZE else cap in
  let '(ok, c) := conn_next_malloc c in
  if negb ok then (false, c) else (cap >=? need, set_write true (conn_wbuf c) (write_buffer_pos c) cap c).

Definition conn_release_idle (c : connection) : connection :=
  let c := set_write false [] 0 0 c in
  let c := set_request_headers false (set_conn_request (set_req_headers [] (conn_request c)) c) in
  let c := set_response_headers false (set_conn_response (set_resp_headers [] (conn_response c)) c) in
  if conn_read_alloc c && (read_buffer_cap c >? CONN_READ_BUFFER_MIN) &&
     (zlen (conn_rbuf c) <=? CONN_READ_BUFFER_MIN)
  then let '(ok, c) := conn_next_malloc c in
       if ok : bool then set_read true (conn_rbuf c) CONN_READ_BUFFER_MIN c else c
  else c.

(** The part of [cleanup_connection] on this state: the file, the bodies, the
    buffers and the tables. *)
Definition cleanup_connection (c : connection) : connection :=
  let c := if file_fd c >=? 0 then set_file_fd (-1) c else c in
  let c := set_conn_request (set_req_body None (conn_request c)) c in
  let c := set_conn_response (set_resp_body None (conn_response c)) c in
  let c := set_read false (conn_rbuf c) 0 c in
  let c := set_write false (conn_wbuf c) (write_buffer_pos c) 0 c in
  set_tables false false c.

(** ** Invariant: what is buffered fits what is allocated *)
Record conn_ok (c : connection) : Prop := {
  co_read : zlen (conn_rbuf c) <= read_buffer_cap c;
  co_write : zlen (conn_wbuf c) <= write_buffer_cap c;
  co_write_max : 0 <= write_buffer_cap c <= MAX_RESPONSE_SIZE;
  co_read_none : conn_read_alloc c = false -> read_buffer_cap c = 0;
  co_write_none : conn_write_alloc c = false -> write_buffer_cap c = 0 }.

Lemma grow_loop_spec fuel cap need :
  0 < cap -> need <= 4611686018427387904 -> need <= cap * 2 ^ Z.of_nat fuel ->
  need <= grow_loop fuel cap need /\ cap <= grow_loop fuel cap need.
Proof.
  revert cap. induction fuel as [|fuel IH]; intros cap Hc Hn Hf; cbn [grow_loop].
  - change (2 ^ Z.of_nat 0) with 1 in Hf. lia.
  - destruct (Z.ltb_spec cap need); [|lia].
    assert (u64 (cap * 2) = cap * 2) as E.
    { unfold u64. apply uwrap_small. lia. }
    rewrite E. rewrite Nat2Z.inj_succ, Z.pow_succ_r in Hf by lia.
    destruct (IH (cap * 2)); [lia|done|lia|]. lia.
Qed.

Lemma grow_to_spec from need :
  0 <= from -> need <= 4611686018427387904 -> need <= grow_to from need /\ 0 < grow_to from need.
Proof.
  intros Hf Hn. unfold grow_to.
  destruct (grow_loop_spec 64 (if from =? 0 then CONN_READ_BUFFER_MIN else from) need) as [H1 H2].
  - destruct (Z.eqb_spec from 0); [done|lia].
  - done.
  - change (2 ^ Z.of_nat 64) with 18446744073709551616. unfold CONN_READ_BUFFER_MIN, BUFFER_SIZE.
    destruct (Z.eqb_spec from 0); nia.
  - split; [done|]. destruct (Z.eqb_spec from 0); [unfold CONN_READ_BUFFER_MIN, BUFFER_SIZE in *; lia|lia].
Qed.

Definition mallocs_ok (c : connection) : Prop := Forall (fun b => b = true) (conn_malloc c).

Lemma conn_next_malloc_spec c ok c' :
  conn_next_malloc c = (ok, c') ->
  (mallocs_ok c -> ok = true /\ mallocs_ok c') /\
  conn_rbuf c' = conn_rbuf c /\ conn_wbuf c' = conn_wbuf c /\ read_buffer_cap c' = read_buffer_cap c /\
  write_buffer_cap c' = write_buffer_cap c /\ write_buffer_pos c' = write_buffer_pos c /\
  conn_read_alloc c' = conn_read_alloc c /\ conn_write_alloc c' = conn_write_alloc c.
Proof.
  unfold conn_next_malloc, mallocs_ok. destruct (conn_malloc c) as [|b l] eqn:E; intros [= <- <-].
  - split_and!; try done. rewrite E. done.
  - split_and!; try done. intros Hf. inversion Hf; subst. done.
Qed.

(** Reserving room in the write buffer: it succeeds within the limit unless the
    allocation fails, keeps what is staged and never passes the limit. *)
Lemma conn_reserve_write_spec need c ok c' :
  conn_ok c -> conn_reserve_write need c = (ok, c') ->
  conn_ok c' /\ conn_wbuf c' = conn_wbuf c /\ conn_rbuf c' = conn_rbuf c /\
  write_buffer_pos c' = write_buffer_pos c /\ read_buffer_cap c' = read_buffer_cap c /\
  (ok = true -> need <= write_buffer_cap c') /\
  (mallocs_ok c -> mallocs_ok c' /\ (ok = true <-> need <= MAX_RESPONSE_SIZE)).
Proof.
  intros Hc. unfold conn_reserve_write. destruct (Z.gtb_spec need MAX_RESPONSE_SIZE) as [Hg|Hle].
  { intros [= <- <-]. split_and!; try done. intros Hm. split; [done|]. split; [done|lia]. }
  destruct (conn_write_alloc c && (write_buffer_cap c >=? need)) eqn:Eb.
  { intros [= <- <-]. apply andb_true_iff in Eb as [_ Eb]. apply Z.geb_le in Eb. split_and!; done. }
  destruct (conn_next_malloc c) as [ok1 c1] eqn:Em.
  destruct (conn_next_malloc_spec _ _ _ Em) as (Hm & Hr & Hw & Hrc & Hwc & Hwp & Hra & Hwa).
  destruct Hc as [H1 H2 H3 H4 H5].
  assert (conn_ok c1) as Hc1 by (constructor; rewrite ?Hr, ?Hw, ?Hrc, ?Hwc, ?Hra, ?Hwa; done).
  destruct ok1; cbn [negb].
  - intros [= <- <-].
    destruct (grow_to_spec (write_buffer_cap c) need) as [Hgr Hgp]; [lia|unfold MAX_RESPONSE_SIZE in *; lia|].
    set (cap := grow_to _ _) in *.
    assert (need <= (if cap >? MAX_RESPONSE_SIZE then MAX_RESPONSE_SIZE else cap)) as Hcap.
    { destruct (Z.gtb_spec cap MAX_RESPONSE_SIZE); lia. }
    assert (write_buffer_cap c <= (if cap >? MAX_RESPONSE_SIZE then MAX_RESPONSE_SIZE else cap)) as Hcap2.
    { destruct (Z.gtb_spec cap MAX_RESPONSE_SIZE); [lia|].
      assert (write_buffer_cap c <= cap); [|lia].
      destruct (decide (write_buffer_cap c = 0)) as [E0|E0]; [lia|]. unfold cap, grow_to.
      rewrite (proj2 (Z.eqb_neq _ _) E0). apply grow_loop_spec; [lia|unfold MAX_RESPONSE_SIZE in *; lia|].
      change (2 ^ Z.of_nat 64) with 18446744073709551616. unfold MAX_RESPONSE_SIZE in *. nia. }
    assert (0 <= (if cap >? MAX_RESPONSE_SIZE then MAX_RESPONSE_SIZE else cap) <= MAX_RESPONSE_SIZE) as Hcap3.
    { destruct (Z.gtb_spec cap MAX_RESPONSE_SIZE); unfold MAX_RESPONSE_SIZE in *; lia. }
    set (cap' := if cap >? MAX_RESPONSE_SIZE then MAX_RESPONSE_SIZE else cap) in *. clearbody cap'.
    split_and!; try done.
    + destruct Hc1. constructor; cbn -[MAX_RESPONSE_SIZE]; try done; rewrite ?Hw; lia.
    + intros Hma. destruct (Hm Hma) as [_ ?]. split; [done|]. split; [done|]. intros _.
      by apply Z.geb_le.
  - intros [= <- <-]. split_and!; try done. intros Hma. by destruct (Hm Hma).
Qed.

(** What the buffer functions leave alone. *)
Definition conn_rest (c : connection) :=
  (conn_state c, ssl_enabled c, conn_request c, conn_response c, (auth_user_id c, auth_username c),
   (websocket_handshake_complete c, websocket_closing c), (file_fd c, file_offset c, file_size c)).

Lemma conn_next_malloc_rest c ok c' : conn_next_malloc c = (ok, c') -> conn_rest c' = conn_rest c.
Proof. unfold conn_next_malloc. destruct (conn_malloc c); by intros [= <- <-]. Qed.

Lemma conn_reserve_write_rest need c ok c' : conn_reserve_write need c = (ok, c') -> conn_rest c' = conn_rest c.
Proof.
  unfold conn_reserve_write. destruct (_ >? _); [by intros [= <- <-]|]. destruct (_ && _); [by intros [= <- <-]|].
  destruct (conn_next_malloc c) as [ok1 c1] eqn:E. apply conn_next_malloc_rest in E.
  destruct ok1; cbn [negb]; intros [= <- <-]; [|done]. exact E.
Qed.

(** Reserving room for reading: likewise up to the given limit. *)
Lemma conn_reserve_read_spec need max c ok c' :
  conn_ok c -> 0 <= max <= 4611686018427387904 -> conn_reserve_read need max c = (ok, c') ->
  conn_rbuf c' = conn_rbuf c /\ conn_wbuf c' = conn_wbuf c /\
  (ok = true -> need <= read_buffer_cap c') /\
  (mallocs_ok c -> (ok = true <-> need <= max)) /\
  (zlen (conn_rbuf c) <= max -> conn_ok c').
Proof.
  intros Hc Hmax. unfold conn_reserve_read. destruct (Z.gtb_spec need max) as [Hg|Hle].
  { intros [= <- <-]. split_and!; try done. intros Hm. split; [done|lia]. }
  destruct (conn_read_alloc c && (read_buffer_cap c >=? need)) eqn:Eb.
  { intros [= <- <-]. apply andb_true_iff in Eb as [_ Eb]. apply Z.geb_le in Eb. split_and!; done. }
  destruct (conn_next_malloc c) as [ok1 c1] eqn:Em.
  destruct (conn_next_malloc_spec _ _ _ Em) as (Hm & Hr & Hw & Hrc & Hwc & Hwp & Hra & Hwa).
  destruct Hc as [H1 H2 H3 H4 H5].
  destruct ok1; cbn [negb]; intros [= <- <-].
  - destruct (grow_to_spec (read_buffer_cap c) need) as [Hgr Hgp]; [zl|lia|].
    assert (read_buffer_cap c <= grow_to (read_buffer_cap c) need) as Hgc.
    { destruct (decide (read_buffer_cap c = 0)) as [E0|E0]; [lia|]. unfold grow_to.
      rewrite (proj2 (Z.eqb_neq _ _) E0). apply grow_loop_spec; [zl|lia|].
      change (2 ^ Z.of_nat 64) with 18446744073709551616. pose proof (zlen_nonneg (conn_rbuf c)). nia. }
    set (cap := grow_to _ _) in *. clearbody cap.
    destruct (Z.gtb_spec cap max); split_and!; try done; cbn [set_read];
      try (intros _; split; [intros _; done|intros _; apply Z.geb_le; lia]);
      try (intros E; apply Z.geb_le in E; done); intros Hl;
      (constructor; cbn -[MAX_RESPONSE_SIZE]; rewrite ?Hr, ?Hw, ?Hwc, ?Hwa; try done; lia).
  - split_and!; try done.
    + intros Hma. by destruct (Hm Hma).
    + intros _. constructor; rewrite ?Hr, ?Hw, ?Hrc, ?Hwc, ?Hra, ?Hwa; done.
Qed.

Lemma conn_release_idle_ok c : conn_ok c -> conn_ok (conn_release_idle c) /\ conn_rbuf (conn_release_idle c) = conn_rbuf c.
Proof.
  intros [H1 H2 H3 H4 H5]. unfold conn_release_idle. cbn -[MAX_RESPONSE_SIZE CONN_READ_BUFFER_MIN conn_next_malloc set_read].
  destruct (_ && _ && (zlen (conn_rbuf c) <=? CONN_READ_BUFFER_MIN)) eqn:E.
  - apply andb_true_iff in E as [E1 E2]. apply Z.leb_le in E2.
    destruct (conn_next_malloc _) as [ok c1] eqn:Em.
    destruct (conn_next_malloc_spec _ _ _ Em) as (_ & Hr & Hw & Hrc & Hwc & Hwp & Hra & Hwa). cbn in Hr, Hw, Hrc, Hwc, Hra, Hwa.
    destruct ok; (split; [constructor|]); cbn -[MAX_RESPONSE_SIZE CONN_READ_BUFFER_MIN]; rewrite ?Hr, ?Hw, ?Hrc, ?Hwc, ?Hra, ?Hwa; try done;
      rewrite ?zlen_nil; (unfold MAX_RESPONSE_SIZE; lia).
  - split; [|done]. constructor; cbn; try done; unfold MAX_RESPONSE_SIZE; lia.
Qed.
