(* ===== verification/HttpRequest.v ===== *)
(** * HTTP requests: framing and parsing

    Content lengths, chunked bodies, ranges and the request parser of
    common/src/http_protocol.c, and [check_request_frame] of
    server/src/worker.c, which decides how many bytes a request takes. *)
From Stdlib Require Import String.
From S2P Require Import Prelude Text HttpTypes HttpText HttpDate Connection.

Local Open Scope Z_scope.

(** ** Numbers of the C library *)

(** The run of digits in front and what follows it. *)
Fixpoint span_digits (l : bytes) : bytes * bytes :=
  match l with
  | c :: l' => if is_digit c then let '(ds, r) := span_digits l' in (c :: ds, r) else ([], l)
  | [] => ([], [])
  end.

(** [strtoll(s, &end, 10)]: [None] when no digits were found ([end == s]);
    the value is [None] for ERANGE. *)
Definition strtoll (s : bytes) : option (option Z * bytes) :=
  let s1 := skip_spaces s in
  let '(neg, s2) := match s1 with
                    | 45 :: l => (true, l)
                    | 43 :: l => (false, l)
                    | _ => (false, s1)
                    end in
  let '(ds, r) := span_digits s2 in
  match ds with
  | [] => None
  | _ => let v := if neg : bool then - digits_value ds else digits_value ds in
         Some (if (v <? -9223372036854775808) || (v >? 9223372036854775807) then None else Some v, r)
  end.

(** [strtol] saturates; [None] when there are no digits. *)
Definition LONG_MAX : Z := 9223372036854775807.
Definition strtol (s : bytes) : option Z :=
  match strtoll s with
  | None => None
  | Some (Some v, _) => Some v
  | Some (None, _) => Some (match skip_spaces s with 45 :: _ => - LONG_MAX - 1 | _ => LONG_MAX end)
  end.

(** ** Content-Length *)
Definition http_parse_content_length (value : bytes) : option Z :=
  let value := skip_blanks value in
  if negb (digit_start value) then None else
  let '(ds, endptr) := span_digits value in
  let parsed := digits_value ds in
  if parsed >? UINT64_MAX then None else
  match skip_blanks endptr with
  | [] => if parsed >? SIZE_MAX then None else Some parsed
  | _ => None
  end.

(** ** Chunked bodies *)

(** A line without its terminator: one carriage return is dropped. *)
Definition strip_cr (line : bytes) : bytes :=
  match list.last line with
  | Some 13 => removelast line
  | _ => line
  end.

(** The hex digits of a chunk-size line: [None] on overflow of [size_t], else
    the value, how many digits, and the rest of the line. *)
Fixpoint chunk_hex (l : bytes) (chunk i : Z) : option (Z * Z * bytes) :=
  match l with
  | [] => Some (chunk, i, [])
  | c :: l' =>
      match hex_to_int c with
      | None => Some (chunk, i, l)
      | Some h => if chunk >? Z.shiftr SIZE_MAX 4 then None
                  else chunk_hex l' (Z.lor (u64 (Z.shiftl chunk 4)) h) (i + 1)
      end
  end.

Definition chunk_size (line : bytes) : option Z :=
  '(chunk, i, rest) ← chunk_hex (strip_cr line) 0 0;
  if i =? 0 then None else
  match rest with
  | [] => Some chunk
  | c :: _ => if (c =? 59) || (c =? 32) || (c =? 9) then Some chunk else None
  end.

(** -1, 0 and 1. [decoded] is what was copied to [out], [consumed] what
    [*consumed] is left at. *)
Inductive chunk_result :=
  | ChunkBad
  | ChunkMore (decoded : bytes) (consumed : Z)
  | ChunkDone (decoded : bytes) (consumed : Z).

(** The trailer lines after the last chunk; [rest] is the input from [pos]. *)
Fixpoint trailer_loop (fuel : nat) (rest : bytes) (pos : Z) (decoded : bytes) : option chunk_result :=
  match split_at 10 rest with
  | None => Some (ChunkMore decoded 0)
  | Some (line, rest') =>
      let pos := pos + zlen line + 1 in
      match strip_cr line with
      | [] => Some (ChunkDone decoded pos)
      | _ => match fuel with
             | O => None
             | S fuel' => trailer_loop fuel' rest' pos decoded
             end
      end
  end.

(** The CRLF or LF that closes the data of a chunk: not there yet, wrong, or
    [k] bytes of it. *)
Inductive chunk_closing := CloseMore | CloseBad | CloseOk (rest : bytes) (k : Z).
Definition chunk_close (l : bytes) : chunk_closing :=
  match l with
  | [] => CloseMore
  | c :: l1 =>
      if c =? 13 then
        match l1 with
        | [] => CloseMore
        | d :: l2 => if negb (d =? 10) then CloseBad else CloseOk l2 2
        end
      else if negb (c =? 10) then CloseBad else CloseOk l1 1
  end.

Fixpoint chunk_loop (fuel : nat) (rest : bytes) (pos : Z) (decoded : bytes) : option chunk_result :=
  match split_at 10 rest with
  | None => Some (ChunkMore decoded pos)
  | Some (line, rest1) =>
      match chunk_size line with
      | None => Some ChunkBad
      | Some chunk =>
          let pos1 := pos + zlen line + 1 in
          if chunk =? 0 then trailer_loop (length rest1) rest1 pos1 decoded else
          if zlen rest1 <? chunk then Some (ChunkMore decoded 0) else
          let decoded := decoded ++ ztake chunk rest1 in
          match chunk_close (zdrop chunk rest1) with
          | CloseMore => Some (ChunkMore decoded 0)
          | CloseBad => Some ChunkBad
          | CloseOk rest2 k =>
              match fuel with
              | O => None
              | S fuel' => chunk_loop fuel' rest2 (pos1 + chunk + k) decoded
              end
          end
      end
  end.

(** Every pass consumes a byte, so the length of the input bounds the loops. *)
Definition http_chunked_decode (input : bytes) : option chunk_result := chunk_loop (length input) input 0 [].

(** ** Ranges *)

(** The bytes [start..end] of an entity, [None] when unsatisfiable. *)
Definition resolve_range (request : http_request) (size : Z) : option (Z * Z) :=
  if size <=? 0 then None else
  if range_suffix request then
    if range_start request =? 0 then None else
    let n := if range_start request >? size then size else range_start request in
    Some (size - n, size - 1)
  else if range_start request >=? size then None
  else Some (range_start request,
             if (range_end request <? 0) || (range_end request >=? size) then size - 1 else range_end request).

Definition set_range (suffix : bool) (first last : Z) (request : http_request) : http_request :=
  set_has_range true (set_range_end last (set_range_start first
    (if suffix then set_range_suffix true request else request))).

Definition parse_range_header (value : bytes) (request : http_request) : http_request :=
  if negb (strncaseeq 6 value (str "bytes=")) then request else
  let spec := zdrop 6 value in
  match split_at 44 spec with
  | Some _ => request
  | None =>
      let spec := skip_blanks spec in
      match spec with
      | 45 :: spec1 =>
          match strtoll spec1 with
          | Some (Some n, endp) =>
              if n <? 0 then request else
              match skip_blanks endp with
              | [] => set_range true n (-1) request
              | _ => request
              end
          | _ => request
          end
      | _ =>
          match strtoll spec with
          | Some (Some first, 45 :: after) =>
              if first <? 0 then request else
              let after := skip_blanks after in
              match after with
              | [] => set_range false first (-1) request
              | _ =>
                  match strtoll after with
                  | Some (Some last, endp2) =>
                      if last <? first then request else
                      match skip_blanks endp2 with
                      | [] => set_range false first last request
                      | _ => request
                      end
                  | _ => request
                  end
              end
          | _ => request
          end
      end
  end.

(** ** Header fields *)
Definition header_field_has_crlf (field : bytes) : bool :=
  existsb (fun c => (c =? 13) || (c =? 10)) field.
Definition strip_crlf_inplace (s : bytes) : bytes :=
  filter (fun c => negb ((c =? 13) || (c =? 10)) = true) s.

Definition client_accepts_gzip (request : http_request) : bool :=
  match List.find (fun h => strcaseeq (hdr_name h) (str "Accept-Encoding")) (req_headers request) with
  | Some h => strcasestr (str "gzip") (hdr_value h)
  | None => false
  end.

(** ** The parser *)

(** [sscanf]'s [%ns]: skip white space, then at most [n] other characters. *)
Fixpoint take_word (n : Z) (l : bytes) : bytes * bytes :=
  match l with
  | [] => ([], [])
  | c :: l' => if is_space c || (n <=? 0) then ([], l)
               else let '(w, r) := take_word (n - 1) l' in (c :: w, r)
  end.
Definition scan_word (n : Z) (l : bytes) : option (bytes * bytes) :=
  match take_word n (skip_spaces l) with
  | ([], _) => None
  | wr => Some wr
  end.

(** 0 or -1, and the request with the fields assigned so far. *)
Definition parse_request_line (line : bytes) (request : http_request) : Z * http_request :=
  match scan_word 15 line with
  | None => (-1, request)
  | Some (method_str, l1) =>
      match scan_word 2047 l1 with
      | None => (-1, request)
      | Some (uri, l2) =>
          let request := set_req_uri uri request in
          match scan_word 15 l2 with
          | None => (-1, request)
          | Some (version, _) =>
              let request := set_req_version version request in
              let request := set_req_method (string_to_http_method method_str) request in
              let request := match split_at 63 uri with
                             | Some (path, query) =>
                                 set_query_string (snprintf_s 2048 query) (set_req_uri path request)
                             | None => request
                             end in
              (0, set_req_keep_alive (streq version (str "HTTP/1.1")) request)
          end
      end
  end.

Definition store_slot (name value : bytes) (request : http_request) : http_request :=
  if zlen (req_headers request) <? MAX_HEADERS
  then set_req_headers (req_headers request ++
         [mkHeader (strip_crlf_inplace (snprintf_s 256 name)) (strip_crlf_inplace (snprintf_s 2048 value))]) request
  else request.

(** 0 or -1, the request, and [*saw_content_length]. *)
Definition store_header_field (name value : bytes) (request : http_request) (saw_content_length : bool)
    : Z * http_request * bool :=
  let request := store_slot name value request in
  if strcaseeq name (str "Connection") then
    (0, if strcasestr (str "close") value then set_req_keep_alive false request
        else if strcasestr (str "keep-alive") value || strcasestr (str "upgrade") value
        then set_req_keep_alive true request else request, saw_content_length)
  else if strcaseeq name (str "Content-Length") then
    match http_parse_content_length value with
    | None => (-1, request, saw_content_length)
    | Some n => (0, set_content_length n request, true)
    end
  else if strcaseeq name (str "Transfer-Encoding") then
    let vlen := zlen (trim_blanks_end value) in
    if negb (vlen =? 7) || negb (strncaseeq 7 value (str "chunked")) then (-1, request, saw_content_length)
    else (0, set_chunked true request, saw_content_length)
  else (0,
    (if strcaseeq name (str "If-None-Match") then set_if_none_match (snprintf_s 512 value) request
     else if strcaseeq name (str "If-Modified-Since") then
       let t := parse_http_date value in set_if_modified_since (if t =? -1 then 0 else t) request
     else if strcaseeq name (str "If-Range") then set_if_range (snprintf_s 128 value) request
     else if strcaseeq name (str "Range") then parse_range_header value request
     else if strcaseeq name (str "Expect") then set_expect_continue (strcaseeq value (str "100-continue")) request
     else if strcaseeq name (str "Upgrade") then set_is_websocket_upgrade (strcaseeq value (str "websocket")) request
     else if strcaseeq name (str "Sec-WebSocket-Key") then set_websocket_key (snprintf_s 64 value) request
     else if strcaseeq name (str "Sec-WebSocket-Protocol") then set_websocket_protocol (snprintf_s 256 value) request
     else request), saw_content_length).

(** [malloc] for a body: the answer and the answers left. *)
Definition next_malloc (mallocs : list bool) : bool * list bool :=
  match mallocs with
  | [] => (true, [])
  | b :: l => (b, l)
  end.

(** 0, -1 or -2. Only a body that is stored asks for memory. *)
Definition parse_request_body (body : bytes) (request : http_request) (mallocs : list bool)
    : option (Z * http_request * list bool) :=
  if chunked request then
    let '(ok, mallocs) := next_malloc mallocs in
    if negb ok then Some (-2, request, mallocs) else
    r ← http_chunked_decode body;
    match r with
    | ChunkDone decoded _ => Some (0, set_req_body (Some decoded) request, mallocs)
    | _ => Some (-1, request, mallocs)
    end
  else
    let len := if zlen body >? content_length request then content_length request else zlen body in
    if len =? 0 then Some (0, request, mallocs) else
    let '(ok, mallocs) := next_malloc mallocs in
    if negb ok then Some (-2, request, mallocs)
    else Some (0, set_req_body (Some (ztake len body)) request, mallocs).

(** The next line: its bytes with the terminators overwritten by NULs (the line
    itself is the C string at its start), and what follows. *)
Definition next_line (rest : bytes) : option (bytes * bytes) :=
  '(raw, rest') ← split_at 10 rest;
  Some (match list.last raw with Some 13 => removelast raw ++ [0] | _ => raw end ++ [0], rest').

(** The lines after the first. [done] is the buffer before the cursor, [rest]
    from the cursor to the end of the request. *)
Fixpoint header_loop (fuel : nat) (done rest : bytes) (request : http_request)
    (saw_content_length : bool) (mallocs : list bool) : option (Z * http_request * bytes * list bool) :=
  match next_line rest with
  | None => Some (0, request, done ++ rest, mallocs)
  | Some (stored, rest') =>
      match cstr stored with
      | [] =>
          let buf := done ++ stored ++ rest' in
          if chunked request && saw_content_length then Some (-1, request, buf, mallocs) else
          match rest' with
          | [] => Some (0, request, buf, mallocs)
          | _ => '(rc, request, mallocs) ← parse_request_body rest' request mallocs;
                 Some (rc, request, buf, mallocs)
          end
      | line =>
          match split_at 58 line with
          | None => match fuel with
                    | O => None
                    | S fuel' => header_loop fuel' (done ++ stored) rest' request saw_content_length mallocs
                    end
          | Some (name, v) =>
              let done := done ++ name ++ 0 :: zdrop (zlen name + 1) stored in
              let '(rc, request, saw) := store_header_field name (skip_blanks v) request saw_content_length in
              if negb (rc =? 0) then Some (-1, request, done ++ rest', mallocs) else
              match fuel with
              | O => None
              | S fuel' => header_loop fuel' done rest' request saw mallocs
              end
          end
      end
  end.

(** The parse of the first [request_len] bytes of the read buffer: 0, -1 or -2,
    with the request and the buffer it left. *)
Definition parse_http_request (request_len : Z) (conn : connection) : option (Z * connection) :=
  if request_len >? zlen (conn_rbuf conn) then Some (-1, conn) else
  let request := request_zero in
  let win := ztake request_len (conn_rbuf conn) in
  let beyond := zdrop request_len (conn_rbuf conn) in
  let finish rc request buf mallocs :=
    Some (rc, set_conn_malloc mallocs (set_conn_request request (set_conn_rbuf (buf ++ beyond) conn))) in
  match next_line win with
  | None => finish (-1) request win (conn_malloc conn)
  | Some (stored, rest) =>
      let '(rc, request) := parse_request_line (cstr stored) request in
      if negb (rc =? 0) then finish (-1) request (stored ++ rest) (conn_malloc conn) else
      '(rc, request, buf, mallocs) ← header_loop (length rest) stored rest request false (conn_malloc conn);
      finish rc request buf mallocs
  end.

(** ** Framing (server/src/worker.c) *)

(** Where the last header line ends and the length of the header block: the
    first line feed followed by an empty line. *)
Fixpoint header_end (l : bytes) (i : Z) : option (Z * Z) :=
  match l with
  | [] => None
  | c :: l' =>
      if c =? 10 then
        match l' with
        | 10 :: _ => Some (i, i + 2)
        | 13 :: 10 :: _ => Some (i, i + 3)
        | _ => header_end l' (i + 1)
        end
      else header_end l' (i + 1)
  end.

(** The value without its blanks; [None] when it does not fit [tmp]. *)
Definition copy_header_value (v : bytes) (tmp_size : Z) : option bytes :=
  let v := trim_blanks_end (skip_blanks v) in
  if zlen v >=? tmp_size then None else Some v.

(** -1, -2, -3, 0 and 1 with [*request_len]. *)
Inductive frame_result := FrameBad | FrameUnsupported | FrameTooLarge | FrameMore | FrameOk (request_len : Z).

(** [content_length], [saw_content_length], [chunked] and [*expect_100]. *)
Record framing := mkFraming { fr_length : Z; fr_saw_length : bool; fr_chunked : bool; fr_expect : bool }.

Definition frame_line (line : bytes) (f : framing) : frame_result + framing :=
  match split_at 58 (strip_cr line) with
  | None => inr f
  | Some (name, v) =>
      if (zlen name =? 14) && strncaseeq 14 name (str "Content-Length") then
        match copy_header_value v 32 with
        | None => inl FrameBad
        | Some tmp =>
            match http_parse_content_length tmp with
            | None => inl FrameBad
            | Some n => inr (mkFraming n true (fr_chunked f) (fr_expect f))
            end
        end
      else if (zlen name =? 17) && strncaseeq 17 name (str "Transfer-Encoding") then
        match copy_header_value v 32 with
        | None => inl FrameUnsupported
        | Some tmp => if strcaseeq tmp (str "chunked")
                      then inr (mkFraming (fr_length f) (fr_saw_length f) true (fr_expect f))
                      else inl FrameUnsupported
        end
      else if (zlen name =? 6) && strncaseeq 6 name (str "Expect") then
        match copy_header_value v 32 with
        | Some tmp => if strcaseeq tmp (str "100-continue")
                      then inr (mkFraming (fr_length f) (fr_saw_length f) (fr_chunked f) true)
                      else inr f
        | None => inr f
        end
      else inr f
  end.

(** The lines of the header block. *)
Fixpoint frame_lines (fuel : nat) (block : bytes) (f : framing) : option (frame_result + framing) :=
  match block with
  | [] => Some (inr f)
  | _ =>
      match split_at 10 block with
      | None => Some (frame_line block f)
      | Some (line, block') =>
          match frame_line line f with
          | inl r => Some (inl r)
          | inr f' => match fuel with
                      | O => None
                      | S fuel' => frame_lines fuel' block' f'
                      end
          end
      end
  end.

(** The decision, and [*expect_100] when the walk over the headers ended. *)
Definition check_request_frame (buf : bytes) (max_body : Z) : option (frame_result * bool) :=
  match header_end buf 0 with
  | None => Some (FrameMore, false)
  | Some (hdr_end, header_len) =>
      if bool_decide (0 ∈ ztake header_len buf) then Some (FrameBad, false) else
      r ← frame_lines (length buf) (ztake hdr_end buf) (mkFraming 0 false false false);
      match r with
      | inl e => Some (e, false)
      | inr f =>
          if fr_chunked f then
            if fr_saw_length f then Some (FrameBad, fr_expect f) else
            d ← http_chunked_decode (zdrop header_len buf);
            Some (match d with
                  | ChunkBad => FrameBad
                  | ChunkMore decoded _ => if zlen decoded >? max_body then FrameTooLarge else FrameMore
                  | ChunkDone decoded chunk_bytes =>
                      if zlen decoded >? max_body then FrameTooLarge else FrameOk (header_len + chunk_bytes)
                  end, fr_expect f)
          else if fr_length f >? max_body then Some (FrameTooLarge, fr_expect f)
          else if u64 (header_len + fr_length f) >? zlen buf then Some (FrameMore, fr_expect f)
          else Some (FrameOk (header_len + fr_length f), fr_expect f)
      end
  end.

(** ** Chunked bodies: the loops end, and a complete body is decided by its own bytes *)
Lemma split_at_length c l a b : split_at c l = Some (a, b) -> (length b < length l)%nat /\ zlen l = zlen a + 1 + zlen b.
Proof. intros E. apply split_at_some in E as [-> _]. rewrite length_app. cbn. split; [lia|zl]. Qed.

Lemma trailer_loop_total fuel rest pos d : (length rest <= fuel)%nat -> is_Some (trailer_loop fuel rest pos d).
Proof.
  revert rest pos. induction fuel as [|fuel IH]; intros rest pos Hl; cbn [trailer_loop];
    (destruct (split_at 10 rest) as [[line rest']|] eqn:E; [|by eexists]);
    apply split_at_length in E as [E _]; [lia|]. destruct (strip_cr line); [by eexists|]. apply IH. lia.
Qed.

Lemma chunk_close_ok l rest k :
  chunk_close l = CloseOk rest k ->
  exists sep, l = sep ++ rest /\ zlen sep = k /\ forall more, chunk_close (sep ++ more) = CloseOk more k.
Proof.
  destruct l as [|c l1]; [done|]. cbn [chunk_close]. destruct (Z.eqb_spec c 13) as [-> |Hc].
  - destruct l1 as [|x l2]; [done|]. destruct (Z.eqb_spec x 10) as [-> |]; [|done].
    intros [= -> <-]. by exists [13; 10].
  - destruct (Z.eqb_spec c 10) as [-> |]; [|done]. intros [= -> <-]. by exists [10].
Qed.

Lemma chunk_loop_total fuel rest pos d : (length rest <= fuel)%nat -> is_Some (chunk_loop fuel rest pos d).
Proof.
  revert rest pos d. induction fuel as [|fuel IH]; intros rest pos d Hl; cbn [chunk_loop];
    (destruct (split_at 10 rest) as [[line rest1]|] eqn:E; [|by eexists]);
    apply split_at_length in E as [E _]; [lia|]. destruct (chunk_size line) as [chunk|]; [|by eexists].
  destruct (chunk =? 0); [by apply trailer_loop_total|]. destruct (zlen rest1 <? chunk); [by eexists|].
  destruct (chunk_close (zdrop chunk rest1)) as [| |rest2 k] eqn:Ec; [by eexists|by eexists|]. apply IH.
  apply chunk_close_ok in Ec as (sep & Ed & _). assert (length (zdrop chunk rest1) <= length rest1)%nat as Hd.
  { unfold zdrop. rewrite length_drop. lia. }
  rewrite Ed, length_app in Hd. lia.
Qed.

Lemma trailer_loop_done fuel rest pos d d' c :
  trailer_loop fuel rest pos d = Some (ChunkDone d' c) ->
  exists used left, rest = used ++ left /\ c = pos + zlen used /\ d' = d /\ used <> [] /\
    forall fuel' more, (length used <= fuel')%nat -> trailer_loop fuel' (used ++ more) pos d = Some (ChunkDone d' c).
Proof.
  revert rest pos. induction fuel as [|fuel IH]; intros rest pos; cbn [trailer_loop];
    (destruct (split_at 10 rest) as [[line rest']|] eqn:E; [|done]); apply split_at_some in E as [-> Hn];
    destruct (strip_cr line) as [|x l] eqn:Es; try done.
  1, 2: intros [= <- <-]; exists (line ++ [10]), rest'; rewrite <- app_assoc; split_and!;
    [done|zl|done|by destruct line|]; intros fuel' more _; rewrite <- app_assoc; cbn [app];
    destruct fuel'; cbn [trailer_loop]; rewrite split_at_app, Es by done; done.
  intros H. apply IH in H as (used & left & -> & -> & -> & Hu & Hext).
  exists (line ++ 10 :: used), left. rewrite <- app_assoc. cbn [app]. split_and!; [done|zl|done|by destruct line|].
  intros fuel' more Hf. rewrite length_app in Hf. cbn in Hf. destruct fuel' as [|fuel']; [lia|].
  rewrite <- app_assoc. cbn [app trailer_loop]. rewrite split_at_app, Es by done. apply Hext. lia.
Qed.

Lemma chunk_hex_nonneg l chunk i : 0 <= chunk -> forall c j r, chunk_hex l chunk i = Some (c, j, r) -> 0 <= c.
Proof.
  revert chunk i. induction l as [|x l IH]; intros chunk i Hc c j r; cbn [chunk_hex]; [by intros [= <- _ _]|].
  destruct (hex_to_int x) as [h|] eqn:Eh; [|by intros [= <- _ _]].
  destruct (chunk >? Z.shiftr SIZE_MAX 4); [done|]. apply IH. apply Z.lor_nonneg. split.
  - apply uwrap_range. lia.
  - apply hex_to_int_range in Eh. lia.
Qed.
Lemma chunk_size_nonneg line n : chunk_size line = Some n -> 0 <= n.
Proof.
  unfold chunk_size. destruct (chunk_hex _ 0 0) as [[[c j] r]|] eqn:E; [|done]. cbn.
  apply chunk_hex_nonneg in E; [|done]. destruct (j =? 0); [done|]. destruct r as [|x r]; [by intros [= <-]|].
  destruct (_ || _); [by intros [= <-]|done].
Qed.

Lemma chunk_loop_done fuel rest pos d d' c :
  chunk_loop fuel rest pos d = Some (ChunkDone d' c) ->
  exists used left, rest = used ++ left /\ c = pos + zlen used /\ used <> [] /\
    zlen d' <= zlen d + zlen used /\
    forall fuel' more, (length used <= fuel')%nat -> chunk_loop fuel' (used ++ more) pos d = Some (ChunkDone d' c).
Proof.
  revert rest pos d. induction fuel as [|fuel IH]; intros rest pos d; cbn [chunk_loop];
    (destruct (split_at 10 rest) as [[line rest1]|] eqn:E; [|done]); apply split_at_some in E as [-> Hn];
    (destruct (chunk_size line) as [chunk|] eqn:Es; [|done]); pose proof (chunk_size_nonneg _ _ Es) as Hc0;
    (destruct (chunk =? 0) eqn:E0;
      [intros H; apply trailer_loop_done in H as (used & left & -> & -> & -> & Hu & Hext);
       exists (line ++ 10 :: used), left; rewrite <- app_assoc; split_and!; [done|zl|by destruct line|zl|];
       intros fuel' more Hf; rewrite <- app_assoc; destruct fuel' as [|fuel'];
         [rewrite length_app in Hf; cbn in Hf; lia|]; cbn [app chunk_loop];
       rewrite split_at_app, Es, E0 by done; apply Hext; rewrite !length_app; lia|]);
    destruct (Z.ltb_spec (zlen rest1) chunk) as [|Hlen]; try done;
    destruct (chunk_close (zdrop chunk rest1)) as [| |rest2 k] eqn:Ec; try done.
  intros H. apply IH in H as (used & left & -> & -> & Hu & Hdl & Hext).
  apply chunk_close_ok in Ec as (sep & Ed & Hk & Hsep).
  assert (zlen (ztake chunk rest1) = chunk) as Hct by zl.
  assert (rest1 = ztake chunk rest1 ++ sep ++ used ++ left) as Er by (by rewrite <- Ed, ztake_zdrop).
  revert Er Hct Hdl Hext. generalize (ztake chunk rest1). intros data Er Hct Hdl Hext. subst rest1.
  exists (line ++ 10 :: data ++ sep ++ used), left. split_and!.
  - by rewrite <- !app_assoc, <- app_comm_cons, <- !app_assoc.
  - zl.
  - by destruct line.
  - revert Hdl. zl.
  - intros fuel' more Hf. rewrite !length_app in Hf. cbn in Hf. rewrite !length_app in Hf.
    destruct fuel' as [|fuel']; [lia|].
    rewrite <- app_assoc. cbn [app chunk_loop]. rewrite split_at_app, Es, E0 by done. rewrite <- !app_assoc.
    replace (zlen (data ++ sep ++ used ++ more) <? chunk) with false by (symmetry; apply Z.ltb_ge; zl).
    rewrite zdrop_app_eq, ztake_app_eq by done. rewrite Hsep. apply Hext. lia.
Qed.

Lemma http_chunked_decode_total input : is_Some (http_chunked_decode input).
Proof. by apply chunk_loop_total. Qed.

(** A complete body is a prefix of the input; bytes behind it do not matter. *)
Lemma http_chunked_decode_done input d c :
  http_chunked_decode input = Some (ChunkDone d c) ->
  exists used left, input = used ++ left /\ c = zlen used /\ used <> [] /\ zlen d <= c /\
    forall more, http_chunked_decode (used ++ more) = Some (ChunkDone d c).
Proof.
  intros H. apply chunk_loop_done in H as (used & left & -> & -> & Hu & Hd & Hext).
  exists used, left. split_and!; [done|zl|done|revert Hd; zl|]. intros more. apply Hext. rewrite length_app. lia.
Qed.

(** ** A sender's chunks decode to their data

    A chunk is the digits of its size and its data. *)
Definition hex_value (vs : list Z) : Z := fold_left (fun v d => v * 16 + d) vs 0.
Definition chunk_ok (ch : list Z * bytes) : Prop :=
  Forall (fun v => 0 <= v < 16) ch.1 /\ ch.1 <> [] /\ hex_value ch.1 = zlen ch.2 /\ 0 < zlen ch.2 <= SIZE_MAX.
Definition chunk_bytes (ch : list Z * bytes) : bytes := map hex_upper ch.1 ++ CRLF ++ ch.2 ++ CRLF.
Definition chunked_body (chs : list (list Z * bytes)) : bytes := flat_map chunk_bytes chs ++ str "0" ++ CRLF ++ CRLF.

Lemma hex_value_acc vs v : fold_left (fun v d => v * 16 + d) vs v = v * 16 ^ zlen vs + hex_value vs.
Proof.
  unfold hex_value. revert v. induction vs as [|d vs IH]; intros v; cbn [fold_left].
  - rewrite zlen_nil. lia.
  - rewrite IH, (IH (0 * 16 + d)), zlen_cons, Z.pow_add_r by zl. lia.
Qed.
Lemma hex_value_cons d vs : hex_value (d :: vs) = d * 16 ^ zlen vs + hex_value vs.
Proof. unfold hex_value at 1. cbn. rewrite hex_value_acc. lia. Qed.
Lemma hex_value_nonneg vs : Forall (fun v => 0 <= v < 16) vs -> 0 <= hex_value vs.
Proof.
  induction 1 as [|d vs Hd Hvs IH]; [done|]. rewrite hex_value_cons.
  assert (0 < 16 ^ zlen vs) by (apply Z.pow_pos_nonneg; zl). nia.
Qed.

Lemma chunk_hex_spec vs chunk i :
  Forall (fun v => 0 <= v < 16) vs -> 0 <= chunk -> chunk * 16 ^ zlen vs + hex_value vs <= SIZE_MAX ->
  chunk_hex (map hex_upper vs) chunk i = Some (chunk * 16 ^ zlen vs + hex_value vs, i + zlen vs, []).
Proof.
  intros Hv. revert chunk i. induction Hv as [|d vs Hd Hvs IH]; intros chunk i Hc Hm; cbn [map chunk_hex].
  - rewrite zlen_nil. unfold hex_value. cbn. do 3 f_equal; lia.
  - rewrite hex_to_int_upper by done. rewrite hex_value_cons, zlen_cons, Z.pow_add_r in * by zl.
    change (16 ^ 1) with 16 in *. pose proof (hex_value_nonneg vs Hvs).
    assert (0 < 16 ^ zlen vs) by (apply Z.pow_pos_nonneg; zl).
    assert (chunk * 16 + d <= SIZE_MAX) as Hb by nia.
    replace (chunk >? Z.shiftr SIZE_MAX 4) with false
      by (change (Z.shiftr SIZE_MAX 4) with 1152921504606846975; unfold SIZE_MAX, UINT64_MAX in *; lia).
    assert (Z.lor (u64 (Z.shiftl chunk 4)) d = chunk * 16 + d) as ->.
    { rewrite u64_small; [by rewrite lor_disjoint by lia|]. rewrite Z.shiftl_mul_pow2 by lia.
      unfold SIZE_MAX in Hb. lia. }
    rewrite IH by nia. do 3 f_equal; [nia|lia].
Qed.

Lemma hex_upper_plain d : 0 <= d < 16 -> hex_upper d <> 10 /\ hex_upper d <> 13.
Proof. intros. unfold hex_upper. destruct (d <? 10); lia. Qed.

Lemma strip_cr_app l : strip_cr (l ++ [13]) = l.
Proof. unfold strip_cr. rewrite list.last_snoc. apply removelast_last. Qed.

Lemma chunk_size_spec vs :
  Forall (fun v => 0 <= v < 16) vs -> vs <> [] -> hex_value vs <= SIZE_MAX ->
  chunk_size (map hex_upper vs ++ [13]) = Some (hex_value vs).
Proof.
  intros Hv Hne Hm. unfold chunk_size. rewrite strip_cr_app, chunk_hex_spec by (done || lia).
  cbn [mbind option_bind]. destruct vs; [done|]. rewrite zlen_cons.
  destruct (Z.eqb_spec (0 + (1 + zlen vs)) 0); [zl|by f_equal].
Qed.

Lemma hex_line_no_lf vs : Forall (fun v => 0 <= v < 16) vs -> 10 ∉ map hex_upper vs ++ [13].
Proof.
  intros Hv. rewrite elem_of_app, list_elem_of_singleton. intros [H|H]; [|done].
  apply list_elem_of_fmap in H as (d & E & Hd). rewrite list.Forall_forall in Hv. specialize (Hv d Hd).
  pose proof (hex_upper_plain d Hv). lia.
Qed.

Lemma chunk_loop_body chs fuel pos d rest :
  Forall chunk_ok chs -> (length chs < fuel)%nat ->
  chunk_loop fuel (chunked_body chs ++ rest) pos d
  = Some (ChunkDone (d ++ flat_map snd chs) (pos + zlen (chunked_body chs))).
Proof.
  intros Hc. revert fuel pos d. induction Hc as [|[vs data] chs (Hv & Hne & Hval & Hlen) Hc IH]; intros fuel pos d Hf.
  - destruct fuel as [|fuel]; [cbn in Hf; lia|]. cbn [flat_map]. rewrite app_nil_r.
    assert (forall l : bytes, chunk_loop (S fuel) (48 :: 13 :: 10 :: 13 :: 10 :: l) pos d
      = Some (ChunkDone d (pos + zlen [48; 13] + 1 + zlen [13] + 1))) as E by reflexivity.
    change (chunked_body [] ++ rest) with (48 :: 13 :: 10 :: 13 :: 10 :: rest). rewrite E.
    do 2 f_equal. change (zlen (chunked_body [])) with 5. change (zlen [48; 13]) with 2. change (zlen [13]) with 1. lia.
  - destruct fuel as [|fuel]; [cbn in Hf; lia|]. cbn [length] in Hf. cbn [fst snd] in *.
    assert (chunked_body ((vs, data) :: chs) ++ rest
            = (map hex_upper vs ++ [13]) ++ 10 :: data ++ [13; 10] ++ chunked_body chs ++ rest) as ->.
    { unfold chunked_body, chunk_bytes, CRLF. cbn [flat_map fst snd]. rewrite <- !app_assoc. done. }
    cbn [chunk_loop]. rewrite split_at_app by (by apply hex_line_no_lf).
    rewrite chunk_size_spec by (done || lia). rewrite Hval.
    destruct (Z.eqb_spec (zlen data) 0); [lia|].
    replace (_ <? zlen data) with false by (symmetry; apply Z.ltb_ge; zl).
    rewrite zdrop_app_eq, ztake_app_eq by done.
    change (chunk_close ([13; 10] ++ ?x)) with (CloseOk x 2). cbn iota beta.
    rewrite IH by lia. do 2 f_equal.
    + cbn [flat_map snd]. by rewrite <- app_assoc.
    + unfold chunked_body, chunk_bytes, CRLF. cbn [flat_map fst snd]. zl.
Qed.

Lemma http_chunked_roundtrip chs rest :
  Forall chunk_ok chs ->
  http_chunked_decode (chunked_body chs ++ rest) = Some (ChunkDone (flat_map snd chs) (zlen (chunked_body chs))).
Proof.
  intros Hc. unfold http_chunked_decode. rewrite chunk_loop_body; [done|done|].
  unfold chunked_body. rewrite !length_app. enough (length chs <= length (flat_map chunk_bytes chs))%nat by (cbn; lia).
  clear. induction chs as [|ch chs IH]; [done|]. cbn [flat_map length]. unfold chunk_bytes at 1.
  rewrite !length_app. cbn. lia.
Qed.
