(* ===== verification/HttpFrame.v ===== *)
(** * The framing and the parser agree

    [check_request_frame] walks the raw header block, [parse_http_request]
    walks it again line by line; both must find the same end of headers and
    the same body, or a second request could hide in the first. *)
From Stdlib Require Import String.
From S2P Require Import Prelude Text HttpTypes HttpText HttpDate Connection HttpRequest.

Local Open Scope Z_scope.

(** ** Content-Length values *)
Definition blanks (l : bytes) : Prop := Forall (fun c => is_blank c = true) l.

Lemma skip_blanks_all p l : blanks p -> skip_blanks (p ++ l) = skip_blanks l.
Proof. induction 1 as [|c p Hc Hp IH]; [done|]. cbn [app skip_blanks]. by rewrite Hc. Qed.
Lemma skip_blanks_nil l : skip_blanks l = [] <-> blanks l.
Proof.
  split.
  - intros E. destruct (skip_blanks_spec l) as (p & El & Hp). rewrite E, app_nil_r in El. by subst.
  - intros H. rewrite <- (app_nil_r l). by rewrite skip_blanks_all.
Qed.
Lemma trim_blanks_end_spec l : exists p, l = trim_blanks_end l ++ p /\ blanks p.
Proof.
  unfold trim_blanks_end. destruct (skip_blanks_spec (rev l)) as (p & E & Hp). exists (rev p). split.
  - rewrite <- rev_app_distr, <- E. by rewrite rev_involutive.
  - apply Forall_rev. exact Hp.
Qed.

Lemma span_digits_spec l ds r : span_digits l = (ds, r) -> l = ds ++ r /\ all_digits ds /\ digit_start r = false.
Proof.
  revert ds r. induction l as [|c l IH]; intros ds r; cbn [span_digits]; [intros [= <- <-]; repeat constructor|].
  destruct (is_digit c) eqn:Ec.
  - destruct (span_digits l) as [ds' r'] eqn:E. intros [= <- <-]. destruct (IH _ _ eq_refl) as (-> & Hd & Hr).
    split_and!; [done|by constructor|done].
  - intros [= <- <-]. split_and!; [done|constructor|done].
Qed.
Lemma span_digits_app ds r : all_digits ds -> digit_start r = false -> span_digits (ds ++ r) = (ds, r).
Proof.
  intros Hd Hr. induction Hd as [|d ds Hd Hds IH]; cbn [app span_digits].
  - destruct r as [|c r]; [done|]. cbn in *. by rewrite Hr.
  - by rewrite Hd, IH.
Qed.

Lemma blank_not_digit c : is_blank c = true -> is_digit c = false.
Proof. unfold is_blank, is_digit. lia. Qed.
Lemma digit_not_blank c : is_digit c = true -> is_blank c = false.
Proof. unfold is_blank, is_digit. lia. Qed.

(** Exactly the digit strings of 64-bit numbers between blanks are accepted. *)
Lemma content_length_spec v n :
  http_parse_content_length v = Some n <->
  exists b1 ds b2, v = b1 ++ ds ++ b2 /\ blanks b1 /\ blanks b2 /\ all_digits ds /\ ds <> [] /\
    digits_value ds = n /\ n <= UINT64_MAX.
Proof.
  split.
  - unfold http_parse_content_length. destruct (skip_blanks_spec v) as (b1 & Ev & Hb1).
    destruct (digit_start (skip_blanks v)) eqn:Ed; [|done]. cbn [negb].
    destruct (span_digits (skip_blanks v)) as [ds r] eqn:Es. apply span_digits_spec in Es as (E & Hds & Hr).
    destruct (Z.gtb_spec (digits_value ds) UINT64_MAX); [done|].
    destruct (skip_blanks r) as [|x y] eqn:Er; [|done]. destruct (_ >? SIZE_MAX); [done|]. intros [= <-].
    exists b1, ds, r. rewrite <- E. apply skip_blanks_nil in Er. split_and!; try done.
    intros ->. rewrite E in Ed. cbn in Ed. congruence.
  - intros (b1 & ds & b2 & -> & Hb1 & Hb2 & Hds & Hne & Hv & Hn). unfold http_parse_content_length.
    rewrite skip_blanks_all by done.
    assert (skip_blanks (ds ++ b2) = ds ++ b2) as ->.
    { destruct ds as [|d ds]; [done|]. inversion Hds; subst. cbn [app skip_blanks]. by rewrite digit_not_blank. }
    assert (digit_start (ds ++ b2) = true) as ->.
    { destruct ds as [|d ds]; [done|]. by inversion Hds. }
    cbn [negb]. rewrite span_digits_app.
    + rewrite Hv. unfold SIZE_MAX. replace (n >? UINT64_MAX) with false by lia.
      by rewrite (proj2 (skip_blanks_nil b2) Hb2).
    + done.
    + destruct b2 as [|c b2]; [done|]. inversion Hb2; subst. by apply blank_not_digit.
Qed.

Lemma content_length_trim v n :
  http_parse_content_length (trim_blanks_end v) = Some n -> http_parse_content_length v = Some n.
Proof.
  rewrite !content_length_spec. intros (b1 & ds & b2 & E & Hb1 & Hb2 & H).
  destruct (trim_blanks_end_spec v) as (p & Ev & Hp). exists b1, ds, (b2 ++ p).
  rewrite Ev, E, <- !app_assoc. split; [done|]. split; [done|]. split; [by apply Forall_app|done].
Qed.

Lemma content_length_nonneg v n : http_parse_content_length v = Some n -> 0 <= n.
Proof.
  rewrite content_length_spec. intros (b1 & ds & b2 & _ & _ & _ & Hds & _ & <- & _).
  apply digits_value_range in Hds. lia.
Qed.

(** ** One header line, both ways *)
Definition agree (f : framing) (r : http_request) (saw : bool) : Prop :=
  content_length r = fr_length f /\ saw = fr_saw_length f /\ chunked r = fr_chunked f.

(** The fields of the request line. *)
Definition request_line_fields (r : http_request) : http_method * bytes * bytes * bytes :=
  (req_method r, req_uri r, req_version r, query_string r).

Lemma strncaseeq_full n a b :
  zlen b = n -> (zlen a =? n) && strncaseeq n a b = strcaseeq a b.
Proof.
  intros Hb. apply Bool.eq_true_iff_eq. rewrite andb_true_iff, Z.eqb_eq. unfold strncaseeq. split.
  - intros [Ha H]. rewrite !ztake_all in H by lia. done.
  - intros H. pose proof (strcaseeq_len _ _ H). rewrite !ztake_all by lia. split; [lia|done].
Qed.

Lemma parse_range_header_keeps value r :
  content_length (parse_range_header value r) = content_length r /\
  chunked (parse_range_header value r) = chunked r /\ req_body (parse_range_header value r) = req_body r /\
  request_line_fields (parse_range_header value r) = request_line_fields r.
Proof. unfold parse_range_header, set_range. repeat (case_match; try done). Qed.

Lemma store_slot_keeps name value r :
  content_length (store_slot name value r) = content_length r /\ chunked (store_slot name value r) = chunked r /\
  req_body (store_slot name value r) = req_body r /\
  request_line_fields (store_slot name value r) = request_line_fields r.
Proof. unfold store_slot. destruct (_ <? _); done. Qed.

Lemma frame_line_agree line f f' r saw :
  frame_line line f = inr f' -> agree f r saw ->
  match split_at 58 (strip_cr line) with
  | None => agree f' r saw
  | Some (name, v) =>
      exists r' saw', store_header_field name (skip_blanks v) r saw = (0, r', saw') /\ agree f' r' saw' /\
        req_body r' = req_body r /\ request_line_fields r' = request_line_fields r
  end.
Proof.
  unfold frame_line. destruct (split_at 58 (strip_cr line)) as [[name v]|] eqn:E; [|by intros [= ->]].
  rewrite !strncaseeq_full by reflexivity. intros H (Hl & Hs & Hc). unfold store_header_field.
  pose proof (store_slot_keeps name (skip_blanks v) r) as (Kl & Kc & Kb & Kf).
  set (r0 := store_slot name (skip_blanks v) r) in *. clearbody r0.
  assert (forall a b, strcaseeq name a = true -> lower a <> lower b -> strcaseeq name b = false) as Hdis.
  { unfold strcaseeq. intros a b Ha Hab. apply bool_decide_eq_true in Ha. apply bool_decide_eq_false. congruence. }
  unfold copy_header_value in H.
  destruct (strcaseeq name (str "Content-Length")) eqn:E1.
  { rewrite (Hdis _ (str "Connection") E1) by done.
    destruct (_ >=? 32); [done|]. destruct (http_parse_content_length _) as [n|] eqn:En; [|done].
    injection H as <-. apply content_length_trim in En. rewrite En.
    eexists _, _. split; [done|]. split_and!; try done. unfold agree. cbn. split_and!; congruence. }
  destruct (strcaseeq name (str "Transfer-Encoding")) eqn:E2.
  { rewrite (Hdis _ (str "Connection") E2) by done.
    destruct (_ >=? 32); [done|]. destruct (strcaseeq (trim_blanks_end (skip_blanks v)) _) eqn:Ec; [|done].
    injection H as <-. pose proof (strcaseeq_len _ _ Ec) as Hlen. change (zlen (str "chunked")) with 7 in Hlen.
    rewrite Hlen. cbn [Z.eqb negb orb]. destruct (trim_blanks_end_spec (skip_blanks v)) as (p & Ev & _).
    assert (strncaseeq 7 (skip_blanks v) (str "chunked") = true) as ->.
    { rewrite Ev. unfold strncaseeq. rewrite ztake_app_eq by done. exact Ec. }
    change (negb (7 =? 7) || negb true) with false. cbn iota.
    eexists _, _. split; [done|]. split_and!; try done. unfold agree. cbn. split_and!; congruence. }
  assert (f' = f \/ f' = mkFraming (fr_length f) (fr_saw_length f) (fr_chunked f) true) as Hf.
  { revert H. repeat case_match; intros [= <-]; auto. }
  assert (forall r', content_length r' = content_length r0 -> chunked r' = chunked r0 -> agree f' r' saw) as Hag.
  { intros r' H1 H2. unfold agree. destruct Hf as [-> | ->]; cbn; split_and!; congruence. }
  destruct (strcaseeq name (str "Connection")).
  { eexists _, _. split; [done|]. split_and!; [apply Hag| |]; repeat case_match; done. }
  eexists _, _. split; [done|]. pose proof (parse_range_header_keeps (skip_blanks v) r0) as (R1 & R2 & R3 & R4).
  split_and!; [apply Hag| |]; repeat (case_match; try done); congruence.
Qed.

(** ** Header blocks: lines none of which, past the first, is blank *)
Definition blank_start (l : bytes) : bool :=
  match l with
  | 10 :: _ => true
  | 13 :: 10 :: _ => true
  | _ => false
  end.

Inductive plain_block : bytes -> Prop :=
  | plain_one l : 10 ∉ l -> plain_block l
  | plain_more l b : 10 ∉ l -> blank_start (b ++ [10]) = false -> plain_block b -> plain_block (l ++ 10 :: b).

Lemma header_end_skip l rest i : 10 ∉ l -> header_end (l ++ rest) i = header_end rest (i + zlen l).
Proof.
  revert i. induction l as [|c l IH]; intros i Hn; cbn [app].
  - rewrite zlen_nil, Z.add_0_r. done.
  - rewrite elem_of_cons in Hn. cbn [header_end]. destruct (Z.eqb_spec c 10); [subst; naive_solver|].
    rewrite IH by naive_solver. f_equal. zl.
Qed.

Lemma header_end_lf rest i :
  header_end (10 :: rest) i =
  match rest with
  | 10 :: _ => Some (i, i + 2)
  | 13 :: 10 :: _ => Some (i, i + 3)
  | _ => header_end rest (i + 1)
  end.
Proof. done. Qed.

Lemma blank_start_cases rest :
  blank_start rest = true -> exists sep l, rest = sep ++ l /\ (sep = [10] \/ sep = [13; 10]).
Proof.
  destruct rest as [|c rest]; [done|]. destruct (decide (c = 10)) as [-> |H10]; [intros _; exists [10], rest; auto|].
  destruct (decide (c = 13)) as [-> |H13].
  - destruct rest as [|d rest]; [done|]. destruct (decide (d = 10)) as [-> |Hd]; [intros _; exists [13; 10], rest; auto|].
    destruct d as [|p|p]; try done. repeat (destruct p as [p|p|]; try done).
  - destruct c as [|p|p]; try done. repeat (destruct p as [p|p|]; try done).
Qed.

Lemma header_end_next rest i : blank_start rest = false -> header_end (10 :: rest) i = header_end rest (i + 1).
Proof.
  intros H. rewrite header_end_lf. destruct rest as [|c rest]; [done|].
  destruct (decide (c = 10)) as [-> |H10]; [done|]. destruct (decide (c = 13)) as [-> |H13].
  - destruct rest as [|d rest]; [done|]. destruct (decide (d = 10)) as [-> |Hd]; [done|].
    destruct d as [|p|p]; try done. repeat (destruct p as [p|p|]; try done).
  - destruct c as [|p|p]; try done. repeat (destruct p as [p|p|]; try done).
Qed.

Lemma blank_start_app b l : blank_start (b ++ 10 :: l) = blank_start (b ++ [10]).
Proof.
  destruct b as [|c [|d b]]; try done.
Qed.

Lemma header_end_block rest i he hl :
  header_end rest i = Some (he, hl) ->
  exists block sep body, rest = block ++ 10 :: sep ++ body /\ (sep = [10] \/ sep = [13; 10]) /\
    he = i + zlen block /\ hl = he + 1 + zlen sep /\ plain_block block.
Proof.
  remember (length rest) as n eqn:En. assert (length rest <= n)%nat as Hn by lia. clear En.
  revert rest i Hn. induction n as [|n IH]; intros rest i Hn H; [destruct rest; [done|cbn in Hn; lia]|].
  destruct (split_at 10 rest) as [[l rest']|] eqn:E.
  - apply split_at_some in E as [-> Hl]. rewrite header_end_skip in H by done.
    rewrite length_app in Hn. cbn in Hn. destruct (blank_start rest') eqn:Eb.
    + apply blank_start_cases in Eb as (sep & body & -> & Hsep). exists l, sep, body.
      split; [done|]. split; [done|]. destruct Hsep as [-> | ->]; injection H as <- <-; split_and!; try done;
        try (by constructor); rewrite ?zlen_cons, ?zlen_nil; lia.
    + rewrite header_end_next in H by done. apply IH in H as (block & sep & body & -> & Hsep & -> & -> & Hp); [|lia].
      exists (l ++ 10 :: block), sep, body. rewrite <- app_assoc. split_and!; try done; [zl|].
      apply plain_more; try done. by rewrite blank_start_app in Eb.
  - apply split_at_none in E. exfalso. clear IH Hn. revert i H. induction rest as [|c rest IH]; intros i; [done|].
    rewrite elem_of_cons in E. cbn [header_end]. destruct (Z.eqb_spec c 10); [subst; naive_solver|]. apply IH. naive_solver.
Qed.

(** And back: the block determines the end. *)
Lemma header_end_of_block block sep body i :
  plain_block block -> sep = [10] \/ sep = [13; 10] ->
  header_end (block ++ 10 :: sep ++ body) i = Some (i + zlen block, i + zlen block + 1 + zlen sep).
Proof.
  intros Hp Hsep. revert i. induction Hp as [l Hl|l b Hl Hb Hp IH]; intros i.
  - rewrite header_end_skip by done. destruct Hsep as [-> | ->]; cbn [app]; rewrite header_end_lf;
      rewrite ?zlen_cons, ?zlen_nil; do 2 f_equal; lia.
  - rewrite <- app_assoc. rewrite header_end_skip by done. cbn [app].
    rewrite header_end_next by (by rewrite blank_start_app). rewrite IH. do 2 f_equal; zl.
Qed.

(** ** Lines as the parser stores them *)
Lemma next_line_app raw rest :
  10 ∉ raw -> 0 ∉ raw ->
  exists stored, next_line (raw ++ 10 :: rest) = Some (stored, rest) /\ cstr stored = strip_cr raw /\
    zlen stored = zlen raw + 1.
Proof.
  intros H10 H0. unfold next_line. rewrite split_at_app by done. cbn [mbind option_bind].
  eexists. split; [done|]. unfold strip_cr.
  destruct (list.last raw) as [c|] eqn:El.
  - apply list.last_Some in El as (raw' & ->). destruct (decide (c = 13)) as [-> |Hc].
    + rewrite removelast_last. rewrite <- app_assoc. split; [|zl].
      apply cstr_app_nul. rewrite elem_of_app in H0. naive_solver.
    + assert (forall (x y : bytes), match c with 13 => x | _ => y end = y) as Hm.
      { intros. destruct c as [|p|p]; try done. repeat (destruct p as [p|p|]; try done). }
      rewrite !Hm. split; [by apply cstr_app_nul|zl].
  - apply list.last_None in El as ->. done.
Qed.

Lemma strip_cr_nil raw rest : strip_cr raw = [] -> blank_start (raw ++ 10 :: rest) = true.
Proof.
  unfold strip_cr. destruct (list.last raw) as [c|] eqn:El.
  - apply list.last_Some in El as (raw' & ->). destruct (decide (c = 13)) as [-> |Hc].
    + rewrite removelast_last. by intros ->.
    + assert (forall (x y : bytes), match c with 13 => x | _ => y end = y) as Hm.
      { intros. destruct c as [|p|p]; try done. repeat (destruct p as [p|p|]; try done). }
      rewrite Hm. by destruct raw'.
  - apply list.last_None in El as ->. done.
Qed.

Lemma zlen_strip_cr raw : zlen (strip_cr raw) <= zlen raw.
Proof.
  unfold strip_cr. destruct (list.last raw) as [c|] eqn:El; [|done]. apply list.last_Some in El as (raw' & ->).
  destruct (decide (c = 13)) as [-> |Hc]; [rewrite removelast_last; zl|].
  destruct c as [|p|p]; try done. repeat (destruct p as [p|p|]; try done).
Qed.

(** What the walk over a part of the headers keeps. *)
Definition walked (r r' : http_request) : Prop :=
  req_body r' = req_body r /\ request_line_fields r' = request_line_fields r.

Lemma header_loop_line raw rest f f' r saw fuel dn ms :
  10 ∉ raw -> 0 ∉ raw -> strip_cr raw <> [] -> frame_line raw f = inr f' -> agree f r saw ->
  exists dn' r' saw',
    header_loop (S fuel) dn (raw ++ 10 :: rest) r saw ms = header_loop fuel dn' rest r' saw' ms /\
    agree f' r' saw' /\ zlen dn' = zlen dn + zlen raw + 1 /\ walked r r'.
Proof.
  intros H10 H0 Hne Hf Ha. destruct (next_line_app raw rest H10 H0) as (stored & En & Ec & Hl).
  cbn [header_loop]. rewrite En, Ec. pose proof (frame_line_agree _ _ _ _ _ Hf Ha) as Hstep.
  destruct (strip_cr raw) as [|c line] eqn:Es; [done|].
  destruct (split_at 58 (c :: line)) as [[name v]|] eqn:Esp.
  - destruct Hstep as (r' & saw' & -> & Ha' & Hb & Hq). cbn [Z.eqb negb].
    eexists _, r', saw'. split; [done|]. split; [done|]. split; [|done].
    pose proof (zlen_strip_cr raw) as Hs. rewrite Es in Hs. apply split_at_some in Esp as [Esp _]. rewrite Esp in Hs.
    revert Hs. zl.
  - exists (dn ++ stored), r, saw. split_and!; try done. zl.
Qed.

Lemma header_loop_block block :
  plain_block block -> blank_start (block ++ [10]) = false -> 0 ∉ block ->
  forall fuel1 fuel f f' r saw dn tail ms,
  frame_lines fuel1 block f = Some (inr f') -> agree f r saw -> (length block < fuel)%nat ->
  exists fuel' dn' r' saw',
    header_loop fuel dn (block ++ 10 :: tail) r saw ms = header_loop fuel' dn' tail r' saw' ms /\
    agree f' r' saw' /\ zlen dn' = zlen dn + zlen block + 1 /\ walked r r'.
Proof.
  induction 1 as [l Hl|l b Hl Hb Hp IH]; intros Hbl H0 fuel1 fuel f f' r saw dn tail ms Hfr Ha Hfu.
  - destruct fuel as [|fuel]; [lia|]. assert (strip_cr l <> []) as Hne.
    { intros E. apply (strip_cr_nil _ []) in E. congruence. }
    assert (frame_line l f = inr f') as Hf.
    { destruct l as [|c l]; [done|].
      destruct fuel1; cbn [frame_lines] in Hfr; rewrite (proj2 (split_at_none 10 (c :: l)) Hl) in Hfr; congruence. }
    destruct (header_loop_line l tail f f' r saw fuel dn ms) as (dn' & r' & saw' & E & H); try done.
    by exists fuel, dn', r', saw'.
  - assert (0 ∉ l /\ 0 ∉ b) as [H0l H0b].
    { rewrite elem_of_app, elem_of_cons in H0. naive_solver. }
    rewrite length_app in Hfu. cbn in Hfu. destruct fuel as [|fuel]; [lia|].
    assert (strip_cr l <> []) as Hne.
    { intros E. rewrite <- app_assoc in Hbl. cbn [app] in Hbl. apply (strip_cr_nil _ (b ++ [10])) in E. congruence. }
    assert (exists f1 fuel1', frame_line l f = inr f1 /\ frame_lines fuel1' b f1 = Some (inr f')) as (f1 & fuel1' & Hf1 & Hf2).
    { destruct (l ++ 10 :: b) as [|c x] eqn:El; [by destruct l|].
      assert (split_at 10 (c :: x) = Some (l, b)) as Esp by (rewrite <- El; by apply split_at_app).
      destruct fuel1 as [|fuel1]; cbn [frame_lines] in Hfr; rewrite Esp in Hfr; destruct (frame_line l f); try done. eauto. }
    rewrite <- app_assoc. cbn [app].
    destruct (header_loop_line l (b ++ 10 :: tail) f f1 r saw fuel dn ms) as (dn1 & r1 & saw1 & E1 & Ha1 & Hd1 & Hw1);
      try done.
    rewrite E1. destruct (IH Hb H0b fuel1' fuel f1 f' r1 saw1 dn1 tail ms) as (fuel' & dn' & r' & saw' & E & Ha' & Hd & Hw);
      [done|done|lia|].
    exists fuel', dn', r', saw'. split_and!; [done|done|zl|]. unfold walked in *. destruct Hw, Hw1. split; congruence.
Qed.

(** ** The request line is not a framing field *)
Lemma take_word_spec n l w r :
  take_word n l = (w, r) -> l = w ++ r /\ (zlen w < n -> r = [] \/ exists s r', r = s :: r' /\ is_space s = true).
Proof.
  revert n w r. induction l as [|c l IH]; intros n w r; cbn [take_word]; [intros [= <- <-]; auto|].
  destruct (is_space c || (n <=? 0)) eqn:E.
  - intros [= <- <-]. split; [done|]. rewrite zlen_nil. intros Hn. right. exists c, l. split; [done|].
    apply orb_true_iff in E as [E|E]; [done|lia].
  - destruct (take_word (n - 1) l) as [w' r'] eqn:Et. intros [= <- <-]. apply IH in Et as [-> Ht].
    split; [done|]. rewrite zlen_cons. intros Hn. apply Ht. lia.
Qed.

Lemma skip_spaces_spec l : exists p, l = p ++ skip_spaces l /\ Forall (fun c => is_space c = true) p.
Proof.
  induction l as [|c l IH]; [by exists []|]. cbn [skip_spaces]. destruct (is_space c) eqn:E; [|by exists []].
  destruct IH as (p & E' & Hp). exists (c :: p). split; [by rewrite E' at 1|]. by constructor.
Qed.

Lemma known_method m :
  string_to_http_method m <> HTTP_UNKNOWN -> 58 ∉ lower m /\ zlen m <= 7.
Proof.
  unfold string_to_http_method, strcaseeq. intros H. rewrite <- (zlen_lower m).
  repeat match type of H with
  | context [bool_decide ?P] =>
      destruct (decide P) as [E|E]; [rewrite E|rewrite (bool_decide_false P) in H by done; clear E]
  end; [..|done]; (split; [apply split_at_none; reflexivity|vm_compute; congruence]).
Qed.

Lemma space_plain s : is_space s = true -> tolower s = s.
Proof. unfold is_space, tolower. destruct ((65 <=? s) && (s <=? 90)) eqn:E; lia. Qed.

Lemma prefix_no_elem (c : Z) (p a x y : bytes) : p ++ x = a ++ c :: y -> c ∉ p -> exists a', a = p ++ a'.
Proof.
  revert a. induction p as [|z p IH]; intros a E Hc; [by exists a|]. rewrite elem_of_cons in Hc.
  destruct a as [|z' a]; [injection E as -> _; naive_solver|]. injection E as -> E.
  destruct (IH a E) as (a' & ->); [naive_solver|]. by exists a'.
Qed.

(** The name in front of the first colon of a request line has a blank in it. *)
Lemma request_line_name line r r' name v :
  parse_request_line line r = (0, r') -> req_method r' <> HTTP_UNKNOWN -> split_at 58 line = Some (name, v) ->
  exists s, s ∈ name /\ is_space s = true.
Proof.
  unfold parse_request_line. destruct (scan_word 15 line) as [[m l1]|] eqn:E1; [|done].
  destruct (scan_word 2047 l1) as [[uri l2]|] eqn:E2; [|done]. destruct (scan_word 15 l2) as [[ver l3]|]; [|done].
  intros [= <-] Hm. assert (string_to_http_method m <> HTTP_UNKNOWN) as Hk.
  { revert Hm. by destruct (split_at 63 uri) as [[? ?]|]. }
  clear Hm. unfold scan_word in E1, E2.
  destruct (skip_spaces_spec line) as (sp & El & Hsp).
  destruct (take_word 15 (skip_spaces line)) as [m' l1'] eqn:Et.
  assert (m' = m /\ l1' = l1) as [-> ->] by (destruct m'; [done|by injection E1]).
  apply take_word_spec in Et as [Es Hstop]. apply known_method in Hk as [Hk7 Hkl].
  destruct Hstop as [-> |(s & l1' & -> & Hs)]; [lia|done|].
  intros Hsplit. apply split_at_some in Hsplit as [Hsplit _]. rewrite Es in El.
  destruct (prefix_no_elem 58 (sp ++ m ++ [s]) name l1' v) as (name' & ->).
  - rewrite <- Hsplit, El at 1. by rewrite <- !app_assoc.
  - rewrite !elem_of_app, list_elem_of_singleton. intros [Hin|[Hin|Heq]]; [| |by subst s].
    + rewrite list.Forall_forall in Hsp. by apply Hsp in Hin.
    + apply Hk7. unfold lower. apply list_elem_of_fmap. by exists 58.
  - exists s. split; [|done]. rewrite !elem_of_app, list_elem_of_singleton. auto.
Qed.

Lemma name_no_space name s t :
  strcaseeq name t = true -> s ∈ name -> is_space s = true -> forallb (fun c => negb (is_space c)) (lower t) = true -> False.
Proof.
  unfold strcaseeq. rewrite bool_decide_eq_true. intros E Hs Hsp Ht. rewrite <- E in Ht.
  rewrite forallb_forall in Ht. specialize (Ht s). rewrite Hsp in Ht. apply (Bool.diff_false_true), Ht.
  apply list_elem_of_In. rewrite <- (space_plain s) by done. unfold lower. apply list_elem_of_fmap. by exists s.
Qed.

Lemma frame_request_line raw f f' r r' saw :
  parse_request_line (strip_cr raw) r = (0, r') -> req_method r' <> HTTP_UNKNOWN ->
  frame_line raw f = inr f' -> agree f r saw -> agree f' r saw.
Proof.
  intros Hp Hm Hf Ha. unfold frame_line in Hf. destruct (split_at 58 (strip_cr raw)) as [[name v]|] eqn:E; [|by injection Hf as <-].
  destruct (request_line_name _ _ _ _ _ Hp Hm E) as (s & Hs & Hsp). rewrite !strncaseeq_full in Hf by reflexivity.
  destruct (strcaseeq name (str "Content-Length")) eqn:E1; [by destruct (name_no_space _ _ _ E1 Hs Hsp)|].
  destruct (strcaseeq name (str "Transfer-Encoding")) eqn:E2; [by destruct (name_no_space _ _ _ E2 Hs Hsp)|].
  destruct (strcaseeq name (str "Expect")) eqn:E3; [by destruct (name_no_space _ _ _ E3 Hs Hsp)|].
  by injection Hf as <-.
Qed.

Lemma parse_request_line_keeps line r rc r' :
  parse_request_line line r = (rc, r') ->
  content_length r' = content_length r /\ chunked r' = chunked r /\ req_body r' = req_body r.
Proof. unfold parse_request_line. repeat (case_match; try (by intros [= <- <-])). Qed.

Lemma frame_line_length line f f' : frame_line line f = inr f' -> 0 <= fr_length f -> 0 <= fr_length f'.
Proof.
  unfold frame_line. repeat (case_match; try done); intros [= <-] Hl; try done.
  cbn. by eapply content_length_nonneg.
Qed.
Lemma frame_lines_length fuel block f f' :
  frame_lines fuel block f = Some (inr f') -> 0 <= fr_length f -> 0 <= fr_length f'.
Proof.
  revert block f. induction fuel as [|fuel IH]; intros block f; cbn [frame_lines];
    (destruct block as [|c block]; [by intros [= <-]|]);
    (destruct (split_at 10 (c :: block)) as [[line block']|]; [|intros [= H]; by eapply frame_line_length]);
    destruct (frame_line line f) as [|f1] eqn:E; try done.
  intros H Hl. eapply IH; [done|]. by eapply frame_line_length.
Qed.

(** The parser on the header block of a frame: it arrives at the blank line. *)
Lemma parse_header_block block tail fuel1 f stored rest r0 ms :
  plain_block block -> 0 ∉ block ->
  frame_lines fuel1 block (mkFraming 0 false false false) = Some (inr f) ->
  next_line (block ++ 10 :: tail) = Some (stored, rest) ->
  parse_request_line (cstr stored) request_zero = (0, r0) -> req_method r0 <> HTTP_UNKNOWN ->
  exists fuel' dn r saw,
    header_loop (length rest) stored rest r0 false ms = header_loop fuel' dn tail r saw ms /\
    agree f r saw /\ zlen dn = zlen block + 1 /\ walked r0 r.
Proof.
  intros Hp H0 Hfr Hn Hrl Hm. pose proof (parse_request_line_keeps _ _ _ _ Hrl) as (K1 & K2 & _).
  assert (agree (mkFraming 0 false false false) request_zero false) as Ha0 by done.
  assert (forall g, agree g request_zero false -> agree g r0 false) as Hcong.
  { intros g (A1 & A2 & A3). unfold agree. by rewrite K1, K2. }
  destruct Hp as [l Hl|l b Hl Hb Hp].
  - destruct (next_line_app l tail Hl H0) as (st & En & Ec & Hst). rewrite En in Hn. injection Hn as <- <-.
    rewrite Ec in Hrl. exists (length tail), st, r0, false. split_and!; try done. apply Hcong.
    destruct l as [|c l].
    { destruct fuel1; injection Hfr as <-; done. }
    assert (frame_line (c :: l) (mkFraming 0 false false false) = inr f) as Hf.
    { destruct fuel1; cbn [frame_lines] in Hfr; rewrite (proj2 (split_at_none 10 (c :: l)) Hl) in Hfr; congruence. }
    by eapply frame_request_line.
  - assert (0 ∉ l /\ 0 ∉ b) as [H0l H0b] by (rewrite elem_of_app, elem_of_cons in H0; naive_solver).
    rewrite <- app_assoc in Hn. cbn [app] in Hn.
    destruct (next_line_app l (b ++ 10 :: tail) Hl H0l) as (st & En & Ec & Hst). rewrite En in Hn. injection Hn as <- <-.
    rewrite Ec in Hrl.
    assert (exists f1 fuel1', frame_line l (mkFraming 0 false false false) = inr f1 /\ frame_lines fuel1' b f1 = Some (inr f))
      as (f1 & fuel1' & Hf1 & Hf2).
    { destruct (l ++ 10 :: b) as [|c x] eqn:El; [by destruct l|].
      assert (split_at 10 (c :: x) = Some (l, b)) as Esp by (rewrite <- El; by apply split_at_app).
      destruct fuel1 as [|fuel1]; cbn [frame_lines] in Hfr; rewrite Esp in Hfr; destruct (frame_line l _); try done. eauto. }
    destruct (header_loop_block b Hp Hb H0b fuel1' (length (b ++ 10 :: tail)) f1 f r0 false st tail ms)
      as (fuel' & dn & r & saw & E & Ha & Hd & Hw); [done| |rewrite length_app; cbn; lia|].
    { apply Hcong. by eapply frame_request_line. }
    exists fuel', dn, r, saw. split_and!; try done. zl.
Qed.

Lemma header_loop_blank fuel dn sep body r saw ms :
  sep = [10] \/ sep = [13; 10] ->
  header_loop fuel dn (sep ++ body) r saw ms =
  (if chunked r && saw then Some (-1, r, dn ++ replicate (length sep) 0 ++ body, ms) else
   match body with
   | [] => Some (0, r, dn ++ replicate (length sep) 0 ++ body, ms)
   | _ => '(rc, r', ms') ← parse_request_body body r ms; Some (rc, r', dn ++ replicate (length sep) 0 ++ body, ms')
   end).
Proof. intros [-> | ->]; destruct fuel; done. Qed.

(** ** What a complete frame is *)
Record frame_view (buf : bytes) (max_body n : Z) (e : bool) (block sep body rest : bytes) (fuel : nat) (f : framing) : Prop := {
  fv_buf : buf = block ++ 10 :: sep ++ body ++ rest;
  fv_sep : sep = [10] \/ sep = [13; 10];
  fv_plain : plain_block block;
  fv_no_nul : 0 ∉ block;
  fv_lines : frame_lines fuel block (mkFraming 0 false false false) = Some (inr f);
  fv_len : n = zlen block + 1 + zlen sep + zlen body;
  fv_expect : fr_expect f = e;
  fv_body : if fr_chunked f
            then fr_saw_length f = false /\ body <> [] /\
                 exists d, zlen d <= max_body /\
                   forall more, http_chunked_decode (body ++ more) = Some (ChunkDone d (zlen body))
            else zlen body = fr_length f /\ fr_length f <= max_body }.

Lemma frame_lines_error fuel block f r :
  frame_lines fuel block f = Some (inl r) -> r = FrameBad \/ r = FrameUnsupported.
Proof.
  assert (forall line g r', frame_line line g = inl r' -> r' = FrameBad \/ r' = FrameUnsupported) as Hl.
  { intros line g r'. unfold frame_line. repeat (case_match; try done); intros [= <-]; auto. }
  revert block f. induction fuel as [|fuel IH]; intros block f; cbn [frame_lines];
    (destruct block as [|c block]; [done|]);
    (destruct (split_at 10 (c :: block)) as [[line block']|]; [|intros [= H]; by eapply Hl]);
    destruct (frame_line line f) as [|f1] eqn:E; try done; try (intros [= <-]; by eapply Hl).
  apply IH.
Qed.

Lemma check_request_frame_ok buf max_body n e :
  zlen buf + max_body <= SIZE_MAX ->
  check_request_frame buf max_body = Some (FrameOk n, e) ->
  exists block sep body rest fuel f, frame_view buf max_body n e block sep body rest fuel f.
Proof.
  intros Hmax. unfold check_request_frame. destruct (header_end buf 0) as [[he hl]|] eqn:Eh; [|done].
  apply header_end_block in Eh as (block & sep & tail & -> & Hsep & -> & -> & Hp).
  assert (block ++ 10 :: sep ++ tail = (block ++ 10 :: sep) ++ tail) as Ecat by (by rewrite <- app_assoc).
  case_bool_decide as Hz; [done|].
  assert (0 ∉ block) as H0.
  { intros Hin. apply Hz. rewrite Ecat, ztake_app_eq by zl. apply elem_of_app. by left. }
  rewrite Z.add_0_l. rewrite (ztake_app_eq _ block) by done.
  destruct (frame_lines _ block _) as [[r|f]|] eqn:Ef; cbn [mbind option_bind]; [|..|done].
  { intros [= -> _]. by apply frame_lines_error in Ef as [|]. }
  pose proof (frame_lines_length _ _ _ _ Ef ltac:(done)) as Hl0.
  destruct (fr_chunked f) eqn:Ec.
  - destruct (fr_saw_length f) eqn:Es; [done|].
    rewrite Ecat, zdrop_app_eq by zl. destruct (http_chunked_decode tail) as [[|d c|d c]|] eqn:Ed; cbn [mbind option_bind];
      [done|by destruct (_ >? _)| |done].
    destruct (Z.gtb_spec (zlen d) max_body) as [|Hd]; [done|]. intros [= <- <-].
    apply http_chunked_decode_done in Ed as (body & rest & -> & -> & Hne & Hlen & Hext).
    eexists block, sep, body, rest, _, f. constructor; try done.
    rewrite Ec. split; [done|]. split; [done|]. by exists d.
  - destruct (Z.gtb_spec (fr_length f) max_body) as [|Hm]; [done|].
    rewrite Ecat in *. rewrite u64_small by (unfold SIZE_MAX in Hmax; zl).
    destruct (Z.gtb_spec (zlen block + 1 + zlen sep + fr_length f) (zlen ((block ++ 10 :: sep) ++ tail))) as [|Hav]; [done|].
    intros [= <- <-]. eexists block, sep, (ztake (fr_length f) tail), (zdrop (fr_length f) tail), _, f.
    constructor; try done.
    + rewrite ztake_zdrop. by rewrite <- app_assoc.
    + zl.
    + rewrite Ec. split; [zl|done].
Qed.

Lemma frame_lines_total fuel block f : (length block <= fuel)%nat -> is_Some (frame_lines fuel block f).
Proof.
  revert block f. induction fuel as [|fuel IH]; intros block f Hl; cbn [frame_lines];
    (destruct block as [|c block]; [by eexists|]); [cbn in Hl; lia|].
  destruct (split_at 10 (c :: block)) as [[line block']|] eqn:E; [|by eexists].
  apply split_at_length in E as [E _]. destruct (frame_line line f); [by eexists|]. apply IH. lia.
Qed.

Lemma frame_lines_fuel fuel fuel' block f x y :
  frame_lines fuel block f = Some x -> frame_lines fuel' block f = Some y -> x = y.
Proof.
  revert fuel' block f. induction fuel as [|fuel IH]; intros fuel' block f; destruct fuel' as [|fuel']; cbn [frame_lines];
    (destruct block as [|c block]; [congruence|]);
    (destruct (split_at 10 (c :: block)) as [[line block']|]; [|congruence]);
    destruct (frame_line line f); try done; try congruence; apply IH.
Qed.

Lemma check_request_frame_view buf max_body n e block sep body rest fuel f :
  zlen buf + max_body <= SIZE_MAX ->
  frame_view buf max_body n e block sep body rest fuel f ->
  check_request_frame buf max_body = Some (FrameOk n, e).
Proof.
  intros Hmax [Hbuf Hsep Hp H0 Hfr Hlen Hexp Hbody]. unfold check_request_frame.
  assert (buf = (block ++ 10 :: sep) ++ body ++ rest) as Ecat by (by rewrite Hbuf, <- app_assoc).
  assert (header_end buf 0 = Some (0 + zlen block, 0 + zlen block + 1 + zlen sep)) as ->.
  { rewrite Hbuf. by apply header_end_of_block. }
  rewrite bool_decide_false; cycle 1.
  { rewrite Ecat, ztake_app_eq by zl. rewrite elem_of_app, elem_of_cons. intros [|[|Hin]]; [done|done|].
    destruct Hsep as [-> | ->]; repeat (apply elem_of_cons in Hin as [Hin|Hin]; [done|]); by apply elem_of_nil in Hin. }
  rewrite Z.add_0_l.
  assert (ztake (zlen block) buf = block) as -> by (rewrite Hbuf; by apply ztake_app_eq).
  assert (length block <= length buf)%nat as Hbl by (rewrite Hbuf, length_app; lia).
  destruct (frame_lines_total (length buf) block (mkFraming 0 false false false) Hbl) as [y Hy].
  rewrite Hy. assert (y = inr f) as -> by (by eapply frame_lines_fuel). cbn [mbind option_bind].
  pose proof (frame_lines_length _ _ _ _ Hfr ltac:(done)) as Hl0.
  destruct (fr_chunked f).
  - destruct Hbody as (-> & _ & d & Hd & Hdec). rewrite Ecat, zdrop_app_eq by zl. rewrite Hdec. cbn [mbind option_bind].
    replace (zlen d >? max_body) with false by lia. rewrite Hexp, Hlen. do 3 f_equal.
  - destruct Hbody as (Hb & Hm). replace (fr_length f >? max_body) with false by lia.
    assert (zlen block + 1 + zlen sep + fr_length f <= zlen buf) as Hav by (rewrite Ecat; zl).
    rewrite u64_small by (unfold SIZE_MAX in Hmax; zl).
    rewrite Hexp, Hlen, Hb. replace (_ >? zlen buf) with false by lia. done.
Qed.

(** Bytes of a following request do not change the frame. *)
Lemma frame_stable buf more max_body n e :
  zlen (buf ++ more) + max_body <= SIZE_MAX ->
  check_request_frame buf max_body = Some (FrameOk n, e) ->
  check_request_frame (buf ++ more) max_body = Some (FrameOk n, e).
Proof.
  intros Hmax H. apply check_request_frame_ok in H as (block & sep & body & rest & fuel & f & [Hbuf Hsep Hp H0 Hfr Hlen Hexp Hbody]).
  - eapply (check_request_frame_view _ _ _ _ block sep body (rest ++ more) fuel f); [done|]. constructor; try done.
    rewrite Hbuf, <- !app_assoc, <- app_comm_cons. by rewrite <- !app_assoc.
  - revert Hmax. zl.
Qed.

(** ** The parse of a frame *)
Lemma parse_body_of_frame f r saw body max_body ms :
  Forall (fun b => b = true) ms -> agree f r saw -> req_body r = None ->
  (if fr_chunked f
   then fr_saw_length f = false /\ body <> [] /\
        exists d, zlen d <= max_body /\ forall more, http_chunked_decode (body ++ more) = Some (ChunkDone d (zlen body))
   else zlen body = fr_length f /\ fr_length f <= max_body) ->
  chunked r && saw = false /\
  exists r' ms', (match body with
    | [] => Some (0, r, ms)
    | _ => parse_request_body body r ms
    end) = Some (0, r', ms') /\ request_line_fields r' = request_line_fields r /\
    chunked r' = chunked r /\ content_length r' = content_length r /\
    if chunked r then exists d, req_body r' = Some d /\ http_chunked_decode body = Some (ChunkDone d (zlen body))
    else default [] (req_body r') = body /\ content_length r' = zlen body.
Proof.
  intros Hms (A1 & A2 & A3) Hnone Hb. rewrite A3, A2. unfold parse_request_body. rewrite A3.
  assert (exists ms', next_malloc ms = (true, ms')) as [ms' Ems] by (destruct Hms; [by eexists|subst; by eexists]).
  destruct (fr_chunked f).
  - destruct Hb as (Hs & Hne & d & Hd & Hdec). rewrite Hs. split; [done|]. specialize (Hdec []). rewrite app_nil_r in Hdec.
    destruct body as [|c body]; [done|]. rewrite Ems, Hdec. cbn [negb mbind option_bind].
    eexists _, _. split; [done|]. split_and!; try done. by exists d.
  - destruct Hb as (Hlen & _). split; [done|]. destruct body as [|c body].
    + eexists r, _. split_and!; try done; [by rewrite Hnone|]. by rewrite A1, <- Hlen.
    + rewrite A1, <- Hlen. replace (zlen (c :: body) >? zlen (c :: body)) with false by lia.
      destruct (Z.eqb_spec (zlen (c :: body)) 0); [zl|]. rewrite Ems. cbn [negb].
      eexists _, _. split; [done|]. split_and!; [done|done|cbn; by rewrite A1, <- Hlen|cbn; by rewrite ztake_all|].
      cbn. by rewrite A1, <- Hlen.
Qed.

(** A complete frame parses, unless its request line is malformed: the parser
    finds the end of headers and the body the framing found, and touches
    nothing behind them. *)
Lemma frame_parse_agree conn max_body n e stored rest r0 :
  zlen (conn_rbuf conn) + max_body <= SIZE_MAX -> mallocs_ok conn ->
  check_request_frame (conn_rbuf conn) max_body = Some (FrameOk n, e) ->
  next_line (ztake n (conn_rbuf conn)) = Some (stored, rest) ->
  parse_request_line (cstr stored) request_zero = (0, r0) -> req_method r0 <> HTTP_UNKNOWN ->
  exists head body he conn',
    conn_rbuf conn = head ++ body ++ zdrop n (conn_rbuf conn) /\ zlen head + zlen body = n /\
    header_end (conn_rbuf conn) 0 = Some (he, zlen head) /\
    parse_http_request n conn = Some (0, conn') /\
    zlen (conn_rbuf conn') = zlen (conn_rbuf conn) /\ zdrop n (conn_rbuf conn') = zdrop n (conn_rbuf conn) /\
    request_line_fields (conn_request conn') = request_line_fields r0 /\
    if chunked (conn_request conn')
    then exists d, req_body (conn_request conn') = Some d /\ http_chunked_decode body = Some (ChunkDone d (zlen body))
    else default [] (req_body (conn_request conn')) = body /\ content_length (conn_request conn') = zlen body.
Proof.
  intros Hmax Hms Hck Hnl Hrl Hm.
  apply check_request_frame_ok in Hck as (block & sep & body & more & fuel & f & [Hbuf Hsep Hp H0 Hfr Hlen Hexp Hbody]); [|done].
  assert (conn_rbuf conn = (block ++ 10 :: sep ++ body) ++ more) as Ecat.
  { by rewrite Hbuf, <- !app_assoc, <- app_comm_cons, <- !app_assoc. }
  assert (ztake n (conn_rbuf conn) = block ++ 10 :: sep ++ body) as Ewin by (rewrite Ecat; apply ztake_app_eq; zl).
  assert (zdrop n (conn_rbuf conn) = more) as Emore by (rewrite Ecat; apply zdrop_app_eq; zl).
  rewrite Ewin in Hnl.
  destruct (parse_header_block block (sep ++ body) fuel f stored rest r0 (conn_malloc conn)) as
    (fuel' & dn & r & saw & Eloop & Ha & Hdn & [Hwb Hwf]); [done..|].
  pose proof (parse_request_line_keeps _ _ _ _ Hrl) as (_ & _ & K3).
  destruct (parse_body_of_frame f r saw body max_body (conn_malloc conn)) as (Hns & r' & ms' & Epb & Hq & Hc' & Hl' & Hres);
    [done|done|by rewrite Hwb, K3|done|].
  eexists (block ++ 10 :: sep), body, _, _. rewrite Emore. split_and!.
  - by rewrite Hbuf, <- app_assoc.
  - zl.
  - rewrite Hbuf, header_end_of_block by done. do 2 f_equal. zl.
  - unfold parse_http_request. rewrite Ewin, Emore, Hnl, Hrl. cbn [Z.eqb negb].
    replace (n >? zlen (conn_rbuf conn)) with false by (rewrite Ecat; zl).
    rewrite Eloop, header_loop_blank, Hns by done.
    assert (match body with
            | [] => Some (0, r, dn ++ replicate (length sep) 0 ++ body, conn_malloc conn)
            | _ => '(rc, r', ms') ← parse_request_body body r (conn_malloc conn);
                   Some (rc, r', dn ++ replicate (length sep) 0 ++ body, ms')
            end = Some (0, r', dn ++ replicate (length sep) 0 ++ body, ms')) as ->.
    { destruct body; [by injection Epb as <- <-|]. by rewrite Epb. }
    cbn [mbind option_bind]. done.
  - cbn. rewrite Ecat. autorewrite with zlen. rewrite Hdn. unfold zlen. lia.
  - cbn. apply zdrop_app_eq. rewrite !zlen_app, zlen_replicate. unfold zlen in *. lia.
  - cbn. by rewrite Hq.
  - cbn. by rewrite Hc'.
Qed.
