(* ===== verification/HttpResponse.v ===== *)
(** * HTTP responses (common/src/http_protocol.c, common/src/mime.c)

    Validators, header blocks, and the functions that stage a response in the
    write buffer. The compressor, the server's name and the clock are
    parameters; what the file system answers is an argument. *)
From Stdlib Require Import String.
From S2P Require Import Prelude Text HttpTypes HttpText HttpDate Connection HttpRequest.

Local Open Scope Z_scope.

Definition GZIP_MIN_SIZE : Z := 256.

(** ** Entity tags and conditional requests *)
Definition etag_match_weak (candidate etag : bytes) : bool :=
  let candidate := match candidate with
                   | c :: 47 :: l => if (c =? 87) || (c =? 119) then l else candidate
                   | _ => candidate
                   end in
  streq candidate etag.

(** What the loop skips between tags. *)
Fixpoint skip_list_sep (l : bytes) : bytes :=
  match l with
  | c :: l' => if is_blank c || (c =? 44) then skip_list_sep l' else l
  | [] => []
  end.

Fixpoint etag_list_loop (fuel : nat) (p etag : bytes) : option bool :=
  match skip_list_sep p with
  | [] => Some false
  | q =>
      let '(tag, rest) := match split_at 44 q with Some (a, b) => (a, 44 :: b) | None => (q, []) end in
      let tag := trim_blanks_end tag in
      if streq tag [42] then Some true else
      if etag_match_weak tag etag then Some true else
      match fuel with
      | O => None
      | S fuel' => etag_list_loop fuel' rest etag
      end
  end.
(** Every pass consumes at least one byte of the list. *)
Definition etag_list_contains (list_ etag : bytes) : option bool := etag_list_loop (length list_) list_ etag.

Definition request_not_modified (request : http_request) (etag : bytes) (mtime : Z) : option bool :=
  match if_none_match request with
  | _ :: _ => etag_list_contains (if_none_match request) etag
  | [] => Some (negb (if_modified_since request =? 0) && negb (mtime =? 0) && (mtime <=? if_modified_since request))
  end.

Definition if_range_matches (request : http_request) (etag : bytes) (mtime : Z) : bool :=
  match if_range request with
  | [] => true
  | 34 :: _ => streq (if_range request) etag
  | c :: l =>
      if ((c =? 87) || (c =? 119)) && match l with 47 :: _ => true | _ => false end then false else
      let t := parse_http_date (if_range request) in
      negb (t =? -1) && (t =? mtime)
  end.

(** ** Content types *)

(** From the last dot on. *)
Fixpoint strrchr_dot (l : bytes) (found : option bytes) : option bytes :=
  match l with
  | [] => found
  | c :: l' => strrchr_dot l' (if c =? 46 then Some l else found)
  end.

Definition get_mime_type (file_path : bytes) : bytes :=
  str match strrchr_dot file_path None with
  | None => "application/octet-stream"
  | Some ext =>
      let ext_is (e : string) := strcaseeq ext (str e) in
      if ext_is ".html"%string || ext_is ".htm"%string then "text/html"
      else if ext_is ".css"%string then "text/css"
      else if ext_is ".js"%string then "application/javascript"
      else if ext_is ".json"%string then "application/json"
      else if ext_is ".xml"%string then "application/xml"
      else if ext_is ".png"%string then "image/png"
      else if ext_is ".jpg"%string || ext_is ".jpeg"%string then "image/jpeg"
      else if ext_is ".gif"%string then "image/gif"
      else if ext_is ".svg"%string then "image/svg+xml"
      else if ext_is ".ico"%string then "image/x-icon"
      else if ext_is ".txt"%string then "text/plain"
      else if ext_is ".pdf"%string then "application/pdf"
      else "application/octet-stream"
  end.

Definition mime_type_compressible (v : bytes) : bool :=
  strncaseeq 5 v (str "text/") || strcasestr (str "json") v || strcasestr (str "javascript") v ||
  strcasestr (str "xml") v || strcasestr (str "svg") v.

Definition content_type_compressible (response : http_response) : bool :=
  match List.find (fun h => strcaseeq (hdr_name h) (str "Content-Type")) (resp_headers response) with
  | Some h => mime_type_compressible (hdr_value h)
  | None => false
  end.

Definition response_should_gzip (conn : connection) : bool :=
  let response := conn_response conn in
  if gzip_compressed response then false else
  match resp_body response with
  | None => false
  | Some body => if zlen body <? GZIP_MIN_SIZE then false
                 else content_type_compressible response && client_accepts_gzip (conn_request conn)
  end.

(** ** The header block *)
Section response.
Context (gzip : bytes -> option bytes) (server_name : bytes) (now : Z).

(** One field after another; [None] for a field with CR or LF, or no room. *)
Fixpoint append_fields (headers : list http_header) (cap : Z) (buf : bytes) : option bytes :=
  match headers with
  | [] => Some buf
  | h :: headers' =>
      if header_field_has_crlf (hdr_name h) || header_field_has_crlf (hdr_value h) then None else
      buf ← buf_appendf cap buf (hdr_name h ++ str ": " ++ hdr_value h ++ CRLF);
      append_fields headers' cap buf
  end.

Definition build_response_headers (response : http_response) (gzipped : bool) (content_length : Z)
    (no_body : bool) (cap : Z) : option bytes :=
  buf ← buf_appendf cap []
    (match resp_version response with [] => str "HTTP/1.1" | v => v end ++ [32] ++ dec (resp_status response) ++
     [32] ++ http_status_to_string (resp_status response) ++ CRLF ++
     str "Server: " ++ server_name ++ CRLF ++ str "Date: " ++ format_http_date now ++ CRLF);
  buf ← (if no_body then Some buf
         else buf_appendf cap buf (str "Content-Length: " ++ dec content_length ++ CRLF));
  buf ← buf_appendf cap buf
    (str "Connection: " ++ (if resp_keep_alive response then str "keep-alive" else str "close") ++ CRLF);
  buf ← (if gzipped
         then buf_appendf cap buf (str "Content-Encoding: gzip" ++ CRLF ++ str "Vary: Accept-Encoding" ++ CRLF)
         else Some buf);
  buf ← (if last_modified response =? 0 then Some buf
         else buf_appendf cap buf (str "Last-Modified: " ++ format_http_date (last_modified response) ++ CRLF));
  buf ← (match resp_etag response with
         | [] => Some buf
         | etag => if header_field_has_crlf etag then Some buf
                   else buf_appendf cap buf (str "ETag: " ++ (if gzipped then str "W/" else []) ++ etag ++ CRLF)
         end);
  buf ← append_fields (resp_headers response) cap buf;
  buf ← (match cors_origin response with
         | [] => Some buf
         | origin =>
             if header_field_has_crlf origin then None else
             buf_appendf cap buf (str "Access-Control-Allow-Origin: " ++ origin ++ CRLF ++
               (if streq origin (str "*") then [] else str "Vary: Origin" ++ CRLF))
         end);
  buf_appendf cap buf CRLF.

(** ** Staging a response: 0 or -1, and the connection *)
Definition send_http_response (conn : connection) : Z * connection :=
  let response := conn_response conn in
  let streaming_file := file_fd conn >=? 0 in
  let body := default [] (resp_body response) in
  let '(out_body, gzipped) :=
    if negb streaming_file && response_should_gzip conn then
      match gzip body with
      | Some compressed => if zlen compressed <? zlen body then (compressed, true) else (body, false)
      | None => (body, false)
      end
    else (body, false) in
  let no_body := resp_status response =? HTTP_NOT_MODIFIED in
  let content_length := if streaming_file then u64 (file_size conn - file_offset conn) else zlen out_body in
  match build_response_headers response gzipped content_length no_body MAX_HEADERS_SIZE with
  | None => (-1, conn)
  | Some header_buffer =>
      let head := bool_decide (req_method (conn_request conn) = HTTP_HEAD) in
      let body_in_buffer := if streaming_file || no_body || head then [] else out_body in
      let '(ok, conn) := conn_reserve_write (zlen header_buffer + zlen body_in_buffer) conn in
      if negb ok then (-1, conn) else
      let conn := if streaming_file && head
                  then set_file_fd (-1) (set_file_offset 0 (set_file_size 0 conn)) else conn in
      (0, set_conn_state CONN_STATE_WRITING_RESPONSE
            (set_conn_wbuf (header_buffer ++ body_in_buffer) (set_write_buffer_pos 0 conn)))
  end.

Definition header_slot (name value : bytes) : http_header :=
  mkHeader (snprintf_s 256 name) (snprintf_s 2048 value).
(** [response_set_header]: slots are filled in order, so the list grows by at
    most one. *)
Definition response_set_header (slot : Z) (name value : bytes) (response : http_response) : http_response :=
  set_resp_headers (ztake slot (resp_headers response) ++ [header_slot name value]) response.

Definition response_clear_body (response : http_response) : http_response := set_resp_body None response.

(** [strdup]. *)
Definition conn_strdup (s : bytes) (conn : connection) : option bytes * connection :=
  let '(ok, conn) := conn_next_malloc conn in (if ok then Some s else None, conn).

Definition error_body (status : Z) (message : bytes) : bytes :=
  let text := dec status ++ [32] ++ http_status_to_string status in
  snprintf_s 1024 (str "<html><head><title>" ++ text ++ str "</title></head>" ++
    str "<body><h1>" ++ text ++ str "</h1><p>" ++ message ++ str "</p></body></html>").

Definition send_error_response (status : Z) (message : bytes) (conn : connection) : Z * connection :=
  let response := response_clear_body (conn_response conn) in
  let response := set_resp_version (str "HTTP/1.1") (set_resp_status status response) in
  let '(body, conn) := conn_strdup (error_body status message) conn in
  let response := set_resp_keep_alive false (set_resp_body body response) in
  let response := set_last_modified 0 (set_resp_etag [] response) in
  let response := response_set_header 0 (str "Content-Type") (str "text/html") response in
  send_http_response (set_conn_response response conn).

Definition send_body_response (status : Z) (content_type body : bytes) (conn : connection) : Z * connection :=
  let '(ok, conn) := conn_next_malloc conn in
  if negb ok then send_error_response HTTP_INTERNAL_SERVER_ERROR (str "Out of memory") conn else
  let response := set_resp_body (Some body) (response_clear_body (conn_response conn)) in
  let response := set_resp_version (str "HTTP/1.1") (set_resp_status status response) in
  let response := set_resp_keep_alive (req_keep_alive (conn_request conn)) response in
  let response := response_set_header 0 (str "Content-Type") content_type response in
  send_http_response (set_conn_response response conn).

Definition send_json_response (status : Z) (json : bytes) (conn : connection) : Z * connection :=
  send_body_response status (str "application/json") json conn.

Definition send_error_json (status : Z) (msg : bytes) (conn : connection) : Z * connection :=
  let body := snprintf_s 192 ([123; 34] ++ str "error" ++ [34; 58; 34] ++ msg ++ [34; 125]) in
  let response := response_clear_body (conn_response conn) in
  let '(b, conn) := conn_strdup body conn in
  let response := set_resp_body b response in
  let response := set_resp_version (str "HTTP/1.1") (set_resp_status status response) in
  let response := set_resp_keep_alive (req_keep_alive (conn_request conn)) response in
  let response := response_set_header 0 (str "Content-Type") (str "application/json") response in
  let response :=
    if status =? HTTP_UNAUTHORIZED
    then response_set_header 1 (str "WWW-Authenticate")
           (str "Bearer realm=" ++ [34] ++ str "codo" ++ [34] ++ str ", charset=" ++ [34] ++ str "UTF-8" ++ [34]) response
    else response in
  send_http_response (set_conn_response response conn).

(** ** Files *)

(** What [open] and [fstat] say of a path: no file; [fstat] failed; or type,
    mtime, size, and what reading gives. *)
Record file_stat := mkStat { st_regular : bool; st_mtime : Z; st_size : Z }.

(** Answers of [pread]: interrupted, an error, at most [n] bytes. *)
Inductive pread_answer := PreadIntr | PreadError | PreadUpTo (n : Z).

Record open_file := mkOpen {
  of_fd : Z; of_stat : option file_stat; of_contents : bytes; of_answers : list pread_answer }.

Definition send_range_not_satisfiable (size : Z) (conn : connection) : Z * connection :=
  let body := snprintf_s 256
    (str "<html><head><title>416 Range Not Satisfiable</title></head>" ++
     str "<body><h1>416 Range Not Satisfiable</h1></body></html>") in
  let response := response_clear_body (conn_response conn) in
  let response := set_resp_version (str "HTTP/1.1") (set_resp_status HTTP_RANGE_NOT_SATISFIABLE response) in
  let '(b, conn) := conn_strdup body conn in
  let response := set_resp_body b response in
  let response := set_resp_keep_alive (req_keep_alive (conn_request conn)) response in
  let response := set_last_modified 0 (set_resp_etag [] response) in
  let content_range := snprintf_s 96 (str "bytes */" ++ dec size) in
  let response := response_set_header 0 (str "Content-Type") (str "text/html") response in
  let response := response_set_header 1 (str "Content-Range") content_range response in
  send_http_response (set_conn_response response conn).

Definition content_range_text (body_start body_end size : Z) : bytes :=
  snprintf_s 96 (str "bytes " ++ dec body_start ++ [45] ++ dec body_end ++ [47] ++ dec size).

Definition set_file_response_headers (mime etag : bytes) (st : file_stat) (partial : bool)
    (body_start body_end : Z) (conn : connection) : connection :=
  let response := set_resp_status (if partial then HTTP_PARTIAL_CONTENT else HTTP_OK) (conn_response conn) in
  let response := set_resp_keep_alive (req_keep_alive (conn_request conn)) (set_resp_version (str "HTTP/1.1") response) in
  let response := set_resp_etag (snprintf_s 64 etag) (set_last_modified (st_mtime st) response) in
  let response := response_set_header 0 (str "Content-Type") mime response in
  let response := response_set_header 1 (str "Accept-Ranges") (str "bytes") response in
  let response :=
    if partial then response_set_header 2 (str "Content-Range") (content_range_text body_start body_end (st_size st)) response
    else response in
  set_conn_response response conn.

Definition send_not_modified (etag : bytes) (mtime : Z) (conn : connection) : Z * connection :=
  let response := set_resp_status HTTP_NOT_MODIFIED (response_clear_body (conn_response conn)) in
  let response := set_resp_keep_alive (req_keep_alive (conn_request conn)) (set_resp_version (str "HTTP/1.1") response) in
  let response := set_resp_etag (snprintf_s 64 etag) (set_last_modified mtime response) in
  send_http_response (set_conn_response (set_resp_headers [] response) conn).

Definition send_file_streamed (fd : Z) (mime etag : bytes) (st : file_stat) (partial : bool)
    (body_start body_end : Z) (conn : connection) : Z * connection :=
  let conn := set_conn_response (response_clear_body (conn_response conn)) conn in
  let conn := set_file_fd fd (set_file_offset body_start (set_file_size (u64 (body_end + 1)) conn)) in
  let conn := set_file_response_headers mime etag st partial body_start body_end conn in
  let '(rc, conn) := send_http_response conn in
  if negb (rc =? 0)
  then send_error_response HTTP_INTERNAL_SERVER_ERROR (str "Response too large")
         (set_file_fd (-1) (set_file_size 0 conn))
  else (0, conn).

(** The window, [inl] -1 for an error and [inl] 1 for a short read. Once the
    answers are used up, a read gives all that is asked for and there. *)
Fixpoint read_loop (answers : list pread_answer) (contents : bytes) (start len : Z) (buf : bytes) : Z + bytes :=
  if zlen buf <? len then
    match answers with
    | [] => let got := sub (start + zlen buf) (len - zlen buf) contents in
            if zlen got <? len - zlen buf then inl 1 else inr (buf ++ got)
    | PreadIntr :: answers' => read_loop answers' contents start len buf
    | PreadError :: _ => inl (-1)
    | PreadUpTo n :: answers' =>
        let got := ztake n (sub (start + zlen buf) (len - zlen buf) contents) in
        match got with
        | [] => inl 1
        | _ => read_loop answers' contents start len (buf ++ got)
        end
    end
  else inr buf.
Definition read_file_window (file : open_file) (start len : Z) : Z + bytes :=
  read_loop (of_answers file) (of_contents file) start len [].

Definition send_file_buffered (file : open_file) (mime etag : bytes) (st : file_stat) (partial : bool)
    (body_start body_end body_len : Z) (conn : connection) : Z * connection :=
  let '(ok, conn) := conn_next_malloc conn in
  if negb ok then send_error_response HTTP_INTERNAL_SERVER_ERROR (str "Out of memory") conn else
  match read_file_window file body_start body_len with
  | inl rc => send_error_response HTTP_INTERNAL_SERVER_ERROR
                (if rc <? 0 then str "Read error" else str "Short read") conn
  | inr body =>
      let conn := set_conn_response (set_resp_body (Some body) (conn_response conn)) conn in
      send_http_response (set_file_response_headers mime etag st partial body_start body_end conn)
  end.

(** [%llx] *)
Fixpoint hex_loop (fuel : nat) (n : Z) (acc : bytes) : bytes :=
  match fuel with
  | O => acc
  | S fuel' =>
      let d := n mod 16 in
      let acc := (if d <? 10 then 48 + d else 87 + d) :: acc in
      if n <? 16 then acc else hex_loop fuel' (n / 16) acc
  end.
Definition file_etag (st : file_stat) : bytes :=
  snprintf_s 64 ([34] ++ hex_loop 16 (u64 (st_mtime st)) [] ++ [45] ++ hex_loop 16 (u64 (st_size st)) [] ++ [34]).

Definition send_file_response (file_path : bytes) (file : option open_file) (conn : connection)
    : option (Z * connection) :=
  match file with
  | None => Some (send_error_response HTTP_NOT_FOUND (str "File not found") conn)
  | Some file =>
      match of_stat file with
      | None => Some (send_error_response HTTP_INTERNAL_SERVER_ERROR (str "Could not stat file") conn)
      | Some st =>
          if negb (st_regular st) then Some (send_error_response HTTP_FORBIDDEN (str "Not a regular file") conn) else
          let mime := get_mime_type file_path in
          let etag := file_etag st in
          let request := conn_request conn in
          let is_get := bool_decide (req_method request = HTTP_GET) in
          not_modified ← (if is_get then request_not_modified request etag (st_mtime st) else Some false);
          if not_modified : bool then Some (send_not_modified etag (st_mtime st) conn) else
          let ranged := is_get && has_range request && if_range_matches request etag (st_mtime st) in
          match (if ranged then resolve_range request (st_size st) else Some (0, st_size st - 1)) with
          | None => Some (send_range_not_satisfiable (st_size st) conn)
          | Some (body_start, body_end) =>
              let partial := ranged in
              let body_len := u64 (body_end - body_start + 1) in
              let fits_buffer := body_len <=? MAX_RESPONSE_SIZE - MAX_HEADERS_SIZE in
              let want_gzip := negb partial && negb (ssl_enabled conn) && fits_buffer &&
                (body_len >=? GZIP_MIN_SIZE) && mime_type_compressible mime && client_accepts_gzip request in
              Some (if negb (ssl_enabled conn) && negb want_gzip
                    then send_file_streamed (of_fd file) mime etag st partial body_start body_end conn
                    else if negb fits_buffer
                    then send_error_response HTTP_PAYLOAD_TOO_LARGE (str "File too large") conn
                    else send_file_buffered file mime etag st partial body_start body_end body_len conn)
          end
      end
  end.

(** ** The header block, line by line *)
Definition response_lines (response : http_response) (gzipped : bool) (content_length : Z) (no_body : bool)
    : list bytes :=
  [match resp_version response with [] => str "HTTP/1.1" | v => v end ++ [32] ++ dec (resp_status response) ++
     [32] ++ http_status_to_string (resp_status response);
   str "Server: " ++ server_name;
   str "Date: " ++ format_http_date now] ++
  (if no_body then [] else [str "Content-Length: " ++ dec content_length]) ++
  [str "Connection: " ++ (if resp_keep_alive response then str "keep-alive" else str "close")] ++
  (if gzipped then [str "Content-Encoding: gzip"; str "Vary: Accept-Encoding"] else []) ++
  (if last_modified response =? 0 then [] else [str "Last-Modified: " ++ format_http_date (last_modified response)]) ++
  (match resp_etag response with
   | [] => []
   | etag => if header_field_has_crlf etag then [] else [str "ETag: " ++ (if gzipped then str "W/" else []) ++ etag]
   end) ++
  map (fun h => hdr_name h ++ str ": " ++ hdr_value h) (resp_headers response) ++
  match cors_origin response with
  | [] => []
  | origin => (str "Access-Control-Allow-Origin: " ++ origin) ::
              (if streq origin (str "*") then [] else [str "Vary: Origin"])
  end.

Definition render_lines (lines : list bytes) : bytes := flat_map (fun l => l ++ CRLF) lines.
Definition clean_fields (response : http_response) : bool :=
  forallb (fun h => negb (header_field_has_crlf (hdr_name h) || header_field_has_crlf (hdr_value h)))
    (resp_headers response) &&
  negb (header_field_has_crlf (cors_origin response)).

Definition fits (cap : Z) (b : bytes) : option bytes := if zlen b <? cap then Some b else None.

Lemma render_lines_app a b : render_lines (a ++ b) = render_lines a ++ render_lines b.
Proof. unfold render_lines. apply flat_map_app. Qed.

Lemma fits_append cap buf text rest :
  (b ← buf_appendf cap buf text; fits cap (b ++ rest)) = fits cap (buf ++ text ++ rest).
Proof.
  unfold buf_appendf, fits. rewrite app_assoc.
  destruct (Z.geb_spec (zlen buf) cap); cbn [mbind option_bind].
  { replace (zlen ((buf ++ text) ++ rest) <? cap) with false by (symmetry; apply Z.ltb_ge; zl). done. }
  destruct (Z.geb_spec (zlen text) (cap - zlen buf)); cbn [mbind option_bind]; [|done].
  replace (zlen ((buf ++ text) ++ rest) <? cap) with false by (symmetry; apply Z.ltb_ge; zl). done.
Qed.

Lemma fits_last cap buf text : buf_appendf cap buf text = fits cap (buf ++ text).
Proof.
  rewrite <- (app_nil_r (buf ++ text)), <- app_assoc, <- fits_append.
  destruct (buf_appendf cap buf text) as [b|] eqn:E; [|done]. cbn [mbind option_bind]. rewrite app_nil_r.
  unfold fits. unfold buf_appendf in E. destruct (_ >=? cap); [done|].
  destruct (Z.geb_spec (zlen text) (cap - zlen buf)); [done|]. injection E as <-.
  replace (zlen (buf ++ text) <? cap) with true by (symmetry; apply Z.ltb_lt; zl). done.
Qed.

Lemma append_fields_spec headers cap buf rest :
  (b ← append_fields headers cap buf; fits cap (b ++ rest)) =
  if forallb (fun h => negb (header_field_has_crlf (hdr_name h) || header_field_has_crlf (hdr_value h))) headers
  then fits cap (buf ++ render_lines (map (fun h => hdr_name h ++ str ": " ++ hdr_value h) headers) ++ rest) else None.
Proof.
  revert buf. induction headers as [|h headers IH]; intros buf; cbn [append_fields forallb map render_lines flat_map]; [done|].
  destruct (_ || _); cbn [negb andb]; [done|].
  rewrite option_bind_assoc. cbn beta.
  etrans; [apply option_bind_ext_fun; intros b; apply IH|]. fold (render_lines (map (λ h0, hdr_name h0 ++ str ": " ++ hdr_value h0) headers)).
  destruct (forallb _ headers).
  - rewrite fits_append, <- !app_assoc. done.
  - by destruct (buf_appendf _ _ _).
Qed.

(** A continuation that appends [r] or, with [None], fails. *)
Definition appends (cap : Z) (k : bytes -> option bytes) (r : option bytes) : Prop :=
  forall b, k b = (rest ← r; fits cap (b ++ rest)).

Lemma appends_last cap text : appends cap (fun b => buf_appendf cap b text) (Some text).
Proof. intros b. apply fits_last. Qed.
Lemma appends_step cap text k r :
  appends cap k r -> appends cap (fun b => b' ← buf_appendf cap b text; k b') (app text <$> r).
Proof.
  intros Hk b. etrans; [apply option_bind_ext_fun; intros b'; apply Hk|]. destruct r as [rest|]; cbn [fmap option_fmap option_map mbind option_bind].
  - rewrite fits_append. done.
  - by destruct (buf_appendf cap b text).
Qed.
Lemma appends_if cap (c : bool) text k r :
  appends cap k r ->
  appends cap (fun b => b' ← (if c then Some b else buf_appendf cap b text); k b') (app (if c then [] else text) <$> r).
Proof.
  intros Hk. destruct c; [|by apply appends_step]. intros b. cbn [mbind option_bind]. rewrite (Hk b). by destruct r.
Qed.
Lemma appends_if' cap (c : bool) text k r :
  appends cap k r ->
  appends cap (fun b => b' ← (if c then buf_appendf cap b text else Some b); k b') (app (if c then text else []) <$> r).
Proof.
  intros Hk. destruct c; [by apply appends_step|]. intros b. cbn [mbind option_bind]. rewrite (Hk b). by destruct r.
Qed.
Lemma appends_fields cap headers k r :
  appends cap k r ->
  appends cap (fun b => b' ← append_fields headers cap b; k b')
    (if forallb (fun h => negb (header_field_has_crlf (hdr_name h) || header_field_has_crlf (hdr_value h))) headers
     then app (render_lines (map (fun h => hdr_name h ++ str ": " ++ hdr_value h) headers)) <$> r else None).
Proof.
  intros Hk b. etrans; [apply option_bind_ext_fun; intros b'; apply Hk|]. destruct r as [rest|]; cbn [fmap option_fmap option_map mbind option_bind].
  - rewrite append_fields_spec. by destruct (forallb _ headers).
  - transitivity (None : option bytes); [by destruct (append_fields _ _ _)|]. by destruct (forallb _ headers).
Qed.

Lemma appends_some cap k r : appends cap k r -> appends cap (fun b => b' ← Some b; k b') r.
Proof. intros Hk b. apply Hk. Qed.

(** The header block is its lines, each ended by CRLF, and an empty line; it
    is refused exactly when a field carries CR or LF or the block is too long. *)
Lemma build_response_headers_spec response gzipped content_length no_body cap :
  build_response_headers response gzipped content_length no_body cap =
  if clean_fields response
  then fits cap (render_lines (response_lines response gzipped content_length no_body) ++ CRLF) else None.
Proof.
  unfold build_response_headers.
  match goal with |- mbind ?K (buf_appendf cap [] ?T) = _ =>
    evar (r : option bytes); assert (appends cap K r) as HK; [subst r|rewrite (appends_step cap T K r HK []); subst r; clear HK]
  end.
  - apply appends_if, appends_step, appends_if', appends_if.
    assert (forall k r, appends cap k r -> appends cap (fun buf => b' ← (match resp_etag response with
         | [] => Some buf
         | etag => if header_field_has_crlf etag then Some buf
                   else buf_appendf cap buf (str "ETag: " ++ (if gzipped then str "W/" else []) ++ etag ++ CRLF)
         end); k b')
      (app (match resp_etag response with
            | [] => []
            | etag => if header_field_has_crlf etag then [] else str "ETag: " ++ (if gzipped then str "W/" else []) ++ etag ++ CRLF
            end) <$> r)) as Hetag.
    { intros k r Hk. destruct (resp_etag response) as [|c l]; [|by apply appends_if]. intros b. rewrite (appends_some _ _ _ Hk b). by destruct r. }
    apply Hetag, appends_fields.
    assert (forall k r, appends cap k r -> appends cap (fun buf => b' ← (match cors_origin response with
         | [] => Some buf
         | origin =>
             if header_field_has_crlf origin then None else
             buf_appendf cap buf (str "Access-Control-Allow-Origin: " ++ origin ++ CRLF ++
               (if streq origin (str "*") then [] else str "Vary: Origin" ++ CRLF))
         end); k b')
      (match cors_origin response with
       | [] => r
       | origin => if header_field_has_crlf origin then None else
           app (str "Access-Control-Allow-Origin: " ++ origin ++ CRLF ++
               (if streq origin (str "*") then [] else str "Vary: Origin" ++ CRLF)) <$> r
       end)) as Hcors.
    { intros k r Hk. destruct (cors_origin response) as [|c l]; [by apply appends_some|].
      cbv zeta. destruct (header_field_has_crlf (c :: l)); [by intros b|by apply appends_step]. }
    apply Hcors, appends_last.
  - unfold clean_fields. destruct (forallb _ (resp_headers response)); cbn [andb]; [|done].
    assert (forall (c : bool) (x : bytes), render_lines (if c then [] else [x]) = if c then [] else x ++ CRLF) as Hif.
    { intros [] x; [done|]. apply app_nil_r. }
    assert (render_lines (if gzipped then [str "Content-Encoding: gzip"; str "Vary: Accept-Encoding"] else []) =
      if gzipped then str "Content-Encoding: gzip" ++ CRLF ++ str "Vary: Accept-Encoding" ++ CRLF else []) as Hgz
      by (by destruct gzipped).
    assert (render_lines (match resp_etag response with
      | [] => []
      | etag => if header_field_has_crlf etag then [] else [str "ETag: " ++ (if gzipped then str "W/" else []) ++ etag]
      end) = match resp_etag response with
      | [] => []
      | etag => if header_field_has_crlf etag then [] else str "ETag: " ++ (if gzipped then str "W/" else []) ++ etag ++ CRLF
      end) as Het.
    { destruct (resp_etag response) as [|c l]; [done|]. cbv zeta. destruct (header_field_has_crlf (c :: l)); [done|].
      unfold render_lines. cbn [flat_map]. by rewrite app_nil_r, <- !app_assoc. }
    cbv zeta in Het. unfold response_lines. rewrite !render_lines_app, !Hif, Hgz, Het.
    destruct (cors_origin response) as [|c l].
    + cbn [negb header_field_has_crlf existsb]. cbn [fmap option_fmap option_map mbind option_bind app]. f_equal.
      unfold render_lines. cbn [flat_map]. rewrite !app_nil_r, <- !app_assoc. cbn [app].
      destruct no_body, (last_modified response =? 0); repeat (rewrite <- ?app_assoc; cbn [app]); done.
    + destruct (header_field_has_crlf (c :: l)) eqn:Ec; [done|].
      cbn [negb fmap option_fmap option_map mbind option_bind app]. f_equal.
      unfold render_lines. cbn [flat_map]. rewrite ?app_nil_r, <- !app_assoc. cbn [app].
      destruct (streq (c :: l) (str "*")), no_body, (last_modified response =? 0); cbn [flat_map app];
        rewrite ?app_nil_r; repeat (rewrite <- ?app_assoc; cbn [app]); done.
Qed.

(** ** No line carries a line break *)
Definition plain_text (l : bytes) : bool := negb (header_field_has_crlf l).

Lemma plain_text_app a b : plain_text (a ++ b) = plain_text a && plain_text b.
Proof. unfold plain_text, header_field_has_crlf. rewrite existsb_app. by destruct (existsb _ a), (existsb _ b). Qed.
Lemma plain_text_digits ds : all_digits ds -> plain_text ds = true.
Proof.
  unfold plain_text. induction 1 as [|d ds Hd Hds IH]; [done|]. apply is_digit_spec in Hd.
  cbn [header_field_has_crlf existsb]. replace ((d =? 13) || (d =? 10)) with false by lia. exact IH.
Qed.
Lemma plain_text_dec n : 0 <= n <= UINT64_MAX -> plain_text (dec n) = true.
Proof. intros Hn. apply plain_text_digits. by destruct (dec_spec n Hn). Qed.
Lemma plain_text_pad2 n : 0 <= n <= 99 -> plain_text (dec_pad 2 n) = true.
Proof. intros Hn. apply plain_text_digits. by destruct (dec_pad2 n Hn). Qed.
Lemma plain_text_status status : plain_text (http_status_to_string status) = true.
Proof. unfold http_status_to_string. repeat case_match; reflexivity. Qed.
Lemma plain_text_name names i : names = day_names \/ names = month_names -> plain_text (name_of names i) = true.
Proof.
  intros Hn. unfold name_of. destruct (znth names i) as [x|] eqn:E; [|reflexivity].
  unfold znth in E. destruct (i <? 0); [done|]. apply list_elem_of_lookup_2 in E. cbn [default from_option].
  assert (forallb (fun l => plain_text (abbrev l)) names = true) as Hall by (destruct Hn; subst; reflexivity).
  rewrite forallb_forall in Hall. by apply Hall, list_elem_of_In.
Qed.
Definition http_time (t : Z) : Prop := 0 <= t < 253402300800.
Lemma plain_text_date t : http_time t -> plain_text (format_http_date t) = true.
Proof.
  intros Ht. unfold http_time in Ht. unfold format_http_date. destruct (civil_from_days (t / 86400)) as [[y m] d] eqn:E.
  pose proof (civil_from_days_spec _ _ _ _ E) as (Hm & Hd & _).
  pose proof (civil_year _ _ _ _ E ltac:(zdiv)) as Hy.
  rewrite !plain_text_app, !plain_text_name, plain_text_dec, !plain_text_pad2 by (auto || zdiv || (unfold UINT64_MAX; lia)).
  reflexivity.
Qed.

(** With a clean version and server name, no line of an accepted block can be
    split in two. *)
Lemma response_lines_plain response gzipped content_length no_body :
  clean_fields response = true -> plain_text (resp_version response) = true -> plain_text server_name = true ->
  0 <= resp_status response <= UINT64_MAX -> 0 <= content_length <= UINT64_MAX -> http_time now ->
  http_time (last_modified response) ->
  Forall (fun l => plain_text l = true) (response_lines response gzipped content_length no_body).
Proof.
  unfold clean_fields. rewrite andb_true_iff. intros [Hf Hc] Hv Hsn Hst Hcl Hnow Hlm. unfold response_lines.
  repeat apply Forall_app_2.
  - repeat apply List.Forall_cons; [..|apply List.Forall_nil]; rewrite !plain_text_app.
    + rewrite plain_text_dec, plain_text_status by done. destruct (resp_version response); [reflexivity|]. by rewrite Hv.
    + by rewrite Hsn.
    + by rewrite plain_text_date.
  - destruct no_body; repeat constructor. rewrite plain_text_app, plain_text_dec by done. reflexivity.
  - repeat constructor. by destruct (resp_keep_alive response).
  - by destruct gzipped; repeat constructor.
  - destruct (_ =? 0); repeat constructor. rewrite plain_text_app, plain_text_date by done. reflexivity.
  - destruct (resp_etag response) as [|c l]; [constructor|]. destruct (header_field_has_crlf (c :: l)) eqn:E; repeat constructor.
    rewrite !plain_text_app. change (plain_text (c :: l)) with (negb (header_field_has_crlf (c :: l))). rewrite E.
    by destruct gzipped.
  - clear -Hf. induction (resp_headers response) as [|h hs IH]; [constructor|]. cbn [map forallb] in *.
    apply andb_true_iff in Hf as [Hh Hf]. constructor; [|by apply IH].
    rewrite !plain_text_app. apply negb_true_iff, orb_false_iff in Hh as [H1 H2].
    unfold plain_text at 1 3. by rewrite H1, H2.
  - destruct (cors_origin response) as [|c l]; [constructor|]. constructor.
    + rewrite plain_text_app. unfold plain_text at 2. by rewrite Hc.
    + by destruct (streq _ _); repeat constructor.
Qed.

(** ** What is staged *)

(** The bytes sent as body and whether they are compressed. *)
Definition chosen_body (conn : connection) : bytes * bool :=
  let body := default [] (resp_body (conn_response conn)) in
  match (if response_should_gzip conn then gzip body else None) with
  | Some compressed => if zlen compressed <? zlen body then (compressed, true) else (body, false)
  | None => (body, false)
  end.

(** The number announced and the bytes that follow the headers in the write
    buffer: none for a queued file, a 304 or a HEAD request. *)
Definition announced_length (conn : connection) : Z :=
  if file_fd conn >=? 0 then u64 (file_size conn - file_offset conn) else zlen (chosen_body conn).1.
Definition staged_body (conn : connection) : bytes :=
  if (file_fd conn >=? 0) || (resp_status (conn_response conn) =? HTTP_NOT_MODIFIED) ||
     bool_decide (req_method (conn_request conn) = HTTP_HEAD) then [] else (chosen_body conn).1.
Definition staged_headers (conn : connection) : bytes :=
  render_lines (response_lines (conn_response conn) (if file_fd conn >=? 0 then false else (chosen_body conn).2)
    (announced_length conn) (resp_status (conn_response conn) =? HTTP_NOT_MODIFIED)) ++ CRLF.

Lemma send_http_response_spec conn rc conn' :
  conn_ok conn -> send_http_response conn = (rc, conn') ->
  conn_ok conn' /\ conn_rbuf conn' = conn_rbuf conn /\
  conn_request conn' = conn_request conn /\ conn_response conn' = conn_response conn /\
  (mallocs_ok conn -> mallocs_ok conn' /\
     (rc = 0 <-> clean_fields (conn_response conn) = true /\ zlen (staged_headers conn) < MAX_HEADERS_SIZE /\
                 zlen (staged_headers conn) + zlen (staged_body conn) <= MAX_RESPONSE_SIZE)) /\
  (rc = 0 /\ conn_wbuf conn' = staged_headers conn ++ staged_body conn /\ write_buffer_pos conn' = 0 /\
     conn_state conn' = CONN_STATE_WRITING_RESPONSE
   \/ rc = -1 /\ conn_wbuf conn' = conn_wbuf conn /\ conn_state conn' = conn_state conn).
Proof.
  intros Hok. unfold send_http_response.
  assert ((if negb (file_fd conn >=? 0) && response_should_gzip conn
     then match gzip (default [] (resp_body (conn_response conn))) with
          | Some compressed => if zlen compressed <? zlen (default [] (resp_body (conn_response conn)))
              then (compressed, true) else (default [] (resp_body (conn_response conn)), false)
          | None => (default [] (resp_body (conn_response conn)), false)
          end
     else (default [] (resp_body (conn_response conn)), false))
    = if file_fd conn >=? 0 then (default [] (resp_body (conn_response conn)), false) else chosen_body conn) as Eg.
  { unfold chosen_body. destruct (file_fd conn >=? 0), (response_should_gzip conn); done. }
  rewrite Eg. clear Eg. rewrite (surjective_pairing (if file_fd conn >=? 0 then _ else chosen_body conn)).
  rewrite build_response_headers_spec.
  assert ((if file_fd conn >=? 0 then u64 (file_size conn - file_offset conn)
           else zlen (if file_fd conn >=? 0 then (default [] (resp_body (conn_response conn)), false) else chosen_body conn).1)
          = announced_length conn) as -> by (unfold announced_length; by destruct (file_fd conn >=? 0)).
  assert ((if file_fd conn >=? 0 then (default [] (resp_body (conn_response conn)), false) else chosen_body conn).2
          = if file_fd conn >=? 0 then false else (chosen_body conn).2) as -> by (by destruct (file_fd conn >=? 0)).
  fold (staged_headers conn).
  assert ((if (file_fd conn >=? 0) || (resp_status (conn_response conn) =? HTTP_NOT_MODIFIED)
              || bool_decide (req_method (conn_request conn) = HTTP_HEAD) then []
           else (if file_fd conn >=? 0 then (default [] (resp_body (conn_response conn)), false) else chosen_body conn).1)
          = staged_body conn) as Eb by (unfold staged_body; by destruct (file_fd conn >=? 0)).
  destruct (clean_fields (conn_response conn)) eqn:Ec; cycle 1.
  { intros [= <- <-]. split_and!; try done; [|by right]. intros Hm. split; [done|]. split; [done|]. intros [? _]; done. }
  unfold fits. destruct (Z.ltb_spec (zlen (staged_headers conn)) MAX_HEADERS_SIZE) as [Hlt|Hge]; cycle 1.
  { intros [= <- <-]. split_and!; try done; [|by right]. intros Hm. split; [done|]. split; [done|lia]. }
  cbv beta iota. rewrite Eb.
  destruct (conn_reserve_write _ conn) as [ok conn1] eqn:Er.
  pose proof (conn_reserve_write_rest _ _ _ _ Er) as Hrest. injection Hrest as R1 R2 R3 R4 R5 R6 R7 R8 R9 R10 R11.
  destruct (conn_reserve_write_spec _ _ _ _ Hok Er) as (Hok1 & Hw & Hr & Hp & Hrc & Hcap & Hms).
  destruct ok; cbn [negb].
  - specialize (Hcap eq_refl). destruct Hok1 as [K1 K2 K3 K4 K5]. clear Eb.
    set (hb := staged_headers conn) in *. set (bd := staged_body conn) in *. clearbody hb bd.
    assert (zlen (hb ++ bd) <= write_buffer_cap conn1) as Hfit by (rewrite zlen_app; exact Hcap).
    assert (mallocs_ok conn -> mallocs_ok conn1 /\ (0 = 0 <->
      true = true /\ zlen hb < MAX_HEADERS_SIZE /\ zlen hb + zlen bd <= MAX_RESPONSE_SIZE)) as Hfin.
    { intros Hm. destruct (Hms Hm) as [Hm1 Hiff]. split; [done|]. split; [|done]. intros _. split_and!; try done. by apply Hiff. }
    destruct (_ && _); intros [= <- <-]; (split; [by constructor|]); split_and!; try done; by left.
  - intros [= <- <-]. split_and!; try done; [|by right]. intros Hm. destruct (Hms Hm) as [Hm1 Hiff]. split; [done|].
    split; [done|]. intros (_ & _ & Hmax). by apply Hiff in Hmax.
Qed.
End response.

(** ** Ranges *)

(** What the parser leaves in the range fields. *)
Definition range_ok (r : http_request) : Prop :=
  0 <= range_start r /\ (range_end r < 0 \/ range_start r <= range_end r).

Lemma parse_range_header_ok value r : range_ok r -> range_ok (parse_range_header value r).
Proof.
  intros Hr. unfold parse_range_header, set_range. repeat (case_match; try done); unfold range_ok; cbn; lia.
Qed.

(** A resolved range lies inside the entity. *)
Lemma resolve_range_bounds r size first last :
  range_ok r -> resolve_range r size = Some (first, last) -> 0 <= first <= last /\ last < size.
Proof.
  intros [H1 H2]. unfold resolve_range. destruct (Z.leb_spec size 0); [done|]. destruct (range_suffix r).
  - destruct (Z.eqb_spec (range_start r) 0); [done|]. destruct (Z.gtb_spec (range_start r) size); intros [= <- <-]; lia.
  - destruct (Z.geb_spec (range_start r) size); [done|].
    destruct ((range_end r <? 0) || (range_end r >=? size)) eqn:E; intros [= <- <-]; lia.
Qed.
