(* ===== verification/WebSocket.v ===== *)
(** * WebSocket frames (server/src/websocket.c)

    Decoding of client frames, the replies, and the loop over the read buffer.
    SHA-1 and base64 of the opening handshake are parameters. *)
From Stdlib Require Import String.
From S2P Require Import Prelude Text HttpTypes HttpText Connection HttpRequest HttpResponse.

Local Open Scope Z_scope.

Definition WS_OP_CONTINUATION : Z := 0.
Definition WS_OP_TEXT : Z := 1.
Definition WS_OP_BINARY : Z := 2.
Definition WS_OP_CLOSE : Z := 8.
Definition WS_OP_PING : Z := 9.
Definition WS_OP_PONG : Z := 10.
Definition WS_CLOSE_NORMAL : Z := 1000.
Definition WS_CLOSE_PROTOCOL_ERROR : Z := 1002.
Definition WS_CLOSE_UNSUPPORTED_DATA : Z := 1003.
Definition WS_CLOSE_MESSAGE_TOO_BIG : Z := 1009.
Definition WS_HANDSHAKE_MAX : Z := 256.

(** ** The opening handshake *)
Section handshake.
Context (gzip : bytes -> option bytes) (server_name : bytes) (now : Z).
Context (SHA1 : bytes -> bytes) (base64 : bytes -> option bytes).

(** [snprintf] into 256 bytes keeps 255 of them. The result is the C string
    left in [accept_key]; [None] from the encoder leaves the empty string. *)
Definition generate_websocket_accept_key (key : bytes) : bytes :=
  let concatenated := snprintf_s 256 (key ++ str "258EAFA5-E914-47DA-95CA-C5AB0DC85B11") in
  match base64 (SHA1 concatenated) with
  | None => []
  | Some b => ztake (if zlen b <? 63 then zlen b else 63) b
  end.

Definition upgrade_response (accept_key : bytes) : bytes :=
  str "HTTP/1.1 101 Switching Protocols" ++ CRLF ++ str "Upgrade: websocket" ++ CRLF ++
  str "Connection: Upgrade" ++ CRLF ++ str "Sec-WebSocket-Accept: " ++ accept_key ++ CRLF ++ CRLF.

Definition handle_websocket_upgrade (conn : connection) : Z * connection :=
  let fail := send_error_response gzip server_name now in
  match websocket_key (conn_request conn) with
  | [] => fail HTTP_BAD_REQUEST (str "Missing Sec-WebSocket-Key") conn
  | key =>
      match generate_websocket_accept_key key with
      | [] => fail HTTP_INTERNAL_SERVER_ERROR (str "Handshake failed") conn
      | accept_key =>
          let '(ok, conn) := conn_reserve_write WS_HANDSHAKE_MAX conn in
          if negb ok then (-1, conn) else
          let out := upgrade_response accept_key in
          if zlen out >=? write_buffer_cap conn
          then fail HTTP_INTERNAL_SERVER_ERROR (str "Handshake too large") conn else
          let conn := set_conn_wbuf out (set_write_buffer_pos 0 conn) in
          let conn := set_websocket_handshake_complete true (set_conn_state CONN_STATE_WRITING_RESPONSE conn) in
          let conn := set_websocket_closing false conn in
          (0, set_conn_response (set_resp_status HTTP_SWITCHING_PROTOCOLS (conn_response conn)) conn)
      end
  end.
End handshake.

(** ** Server frames *)
Definition ws_header (opcode len : Z) : bytes :=
  Z.lor 128 opcode ::
  (if len <? 126 then [u8 len]
   else if len <=? 65535 then [126; Z.land (Z.shiftr len 8) 255; Z.land len 255]
   else 127 :: map (fun i => Z.land (Z.shiftr len (56 - 8 * i)) 255) [0; 1; 2; 3; 4; 5; 6; 7]).

(** 0 or -1. *)
Definition ws_append_frame (opcode : Z) (payload : bytes) (conn : connection) : Z * connection :=
  let len := zlen payload in
  let header := ws_header opcode len in
  let '(ok, conn) := conn_reserve_write (zlen (conn_wbuf conn) + zlen header + len) conn in
  if negb ok then (-1, conn)
  else (0, set_write (conn_write_alloc conn) (conn_wbuf conn ++ header ++ payload)
             (write_buffer_pos conn) (write_buffer_cap conn) conn).

Definition close_payload (code : Z) : bytes := [Z.land (Z.shiftr code 8) 255; Z.land code 255].
Definition ws_append_close (code : Z) (conn : connection) : connection :=
  (ws_append_frame WS_OP_CLOSE (close_payload code) conn).2.

(** ** Client frames *)
Record ws_frame := mkFrame {
  fr_fin : bool; fr_opcode : Z; fr_mask : Z; fr_payload_off : Z; fr_len : Z; fr_frame_end : Z }.

(** [WsMore] for 0, [WsBad] with the close code for -1. [fr_mask] is the offset
    of the masking key. *)
Inductive ws_decoded := WsMore | WsBad (close_code : Z) | WsFrame (frame : ws_frame).

(** [buf[i]]; the bounds are a theorem below. *)
Definition byte_at (buf : bytes) (i : Z) : Z := default 0 (znth buf i).

(** [len = (len << 8) | buf[off + 2 + i]] for eight bytes, on [uint64_t]. *)
Fixpoint be_value (n : nat) (buf : bytes) (off len : Z) : Z :=
  match n with
  | O => len
  | S n' => be_value n' buf (off + 1) (Z.lor (u64 (Z.shiftl len 8)) (byte_at buf off))
  end.

Definition ws_decode_frame (buf : bytes) (avail off cap : Z) : ws_decoded :=
  if avail - off <? 2 then WsMore else
  let b0 := byte_at buf off in
  let b1 := byte_at buf (off + 1) in
  let masked := negb (Z.land b1 128 =? 0) in
  let len := Z.land b1 127 in
  let fin := negb (Z.land b0 128 =? 0) in
  let opcode := Z.land b0 15 in
  if negb (Z.land b0 112 =? 0) then WsBad WS_CLOSE_PROTOCOL_ERROR else
  let lenhdr :=
    if len =? 126 then
      if avail - off <? 4 then None
      else Some (Z.lor (Z.shiftl (byte_at buf (off + 2)) 8) (byte_at buf (off + 3)), 4)
    else if len =? 127 then
      if avail - off <? 10 then None else Some (be_value 8 buf (off + 2) 0, 10)
    else Some (len, 2) in
  match lenhdr with
  | None => WsMore
  | Some (len, header) =>
      if negb masked then WsBad WS_CLOSE_PROTOCOL_ERROR else
      if (cap <? header + 4 + 1) || (len >? cap - 1 - header - 4) then WsBad WS_CLOSE_MESSAGE_TOO_BIG else
      let mask_off := off + header in
      if avail - mask_off <? 4 then WsMore else
      let payload_off := mask_off + 4 in
      if avail - payload_off <? len then WsMore
      else WsFrame (mkFrame fin opcode mask_off payload_off len (payload_off + len))
  end.

(** [payload[i] ^= mask[i % 4]]. *)
Fixpoint unmask (mask : bytes) (i : Z) (payload : bytes) : bytes :=
  match payload with
  | [] => []
  | x :: l => Z.lxor x (byte_at mask (i mod 4)) :: unmask mask (i + 1) l
  end.

(** Whether the connection shuts down, and the connection. *)
Definition ws_handle_frame (frame : ws_frame) (payload : bytes) (conn : connection) : bool * connection :=
  let op := fr_opcode frame in
  if (op =? WS_OP_TEXT) || (op =? WS_OP_BINARY) then
    if negb (fr_fin frame) then (true, ws_append_close WS_CLOSE_UNSUPPORTED_DATA conn) else
    let '(rc, conn) := ws_append_frame op payload conn in
    if negb (rc =? 0) then (true, ws_append_close WS_CLOSE_MESSAGE_TOO_BIG conn) else (false, conn)
  else if op =? WS_OP_PING then
    if negb (fr_fin frame) || (fr_len frame >? 125)
    then (true, ws_append_close WS_CLOSE_PROTOCOL_ERROR conn)
    else (false, (ws_append_frame WS_OP_PONG payload conn).2)
  else if op =? WS_OP_PONG then (false, conn)
  else if op =? WS_OP_CLOSE then
    let code := if fr_len frame >=? 2
                then u16 (Z.lor (Z.shiftl (byte_at payload 0) 8) (byte_at payload 1))
                else WS_CLOSE_NORMAL in
    (true, ws_append_close code conn)
  else (true, ws_append_close WS_CLOSE_PROTOCOL_ERROR conn).

(** The frames of the buffer: where the loop stopped, [*should_close], and the
    connection with its replies. Every frame is longer than its two header
    bytes, so the length of the buffer bounds the passes. *)
Fixpoint ws_loop (fuel : nat) (buf : bytes) (cap off : Z) (conn : connection)
    : option (Z * bool * connection) :=
  if off <? zlen buf then
    match fuel with
    | O => None
    | S fuel' =>
        match ws_decode_frame buf (zlen buf) off cap with
        | WsMore => Some (off, false, conn)
        | WsBad close_code => Some (off, true, ws_append_close close_code conn)
        | WsFrame frame =>
            let payload := unmask (sub (fr_mask frame) 4 buf) 0 (sub (fr_payload_off frame) (fr_len frame) buf) in
            let '(should_close, conn) := ws_handle_frame frame payload conn in
            let off := fr_frame_end frame in
            if should_close then Some (off, true, conn) else ws_loop fuel' buf cap off conn
        end
    end
  else Some (off, false, conn).

(** [*should_close] and the connection. *)
Definition ws_process_frames (conn : connection) : option (bool * connection) :=
  let buf := conn_rbuf conn in
  '(off, should_close, conn) ← ws_loop (length buf) buf (read_buffer_cap conn) 0 conn;
  Some (should_close, set_read (conn_read_alloc conn) (zdrop off buf) (read_buffer_cap conn) conn).

(** ** Decoding looks only at the bytes from the offset on *)
Lemma byte_at_drop buf off i : 0 <= off -> 0 <= i -> byte_at buf (off + i) = byte_at (zdrop off buf) i.
Proof.
  intros Ho Hi. unfold byte_at, znth, zdrop. rewrite (proj2 (Z.ltb_ge (off + i) 0)), (proj2 (Z.ltb_ge i 0)) by lia.
  rewrite lookup_drop. do 2 f_equal. lia.
Qed.
Lemma byte_at_app a b i : 0 <= i < zlen a -> byte_at (a ++ b) i = byte_at a i.
Proof.
  intros Hi. unfold byte_at, znth. rewrite (proj2 (Z.ltb_ge i 0)) by lia. f_equal. unfold zlen in Hi.
  apply list.lookup_app_l. lia.
Qed.
Lemma be_value_drop n buf off i acc :
  0 <= off -> 0 <= i -> be_value n buf (off + i) acc = be_value n (zdrop off buf) i acc.
Proof.
  revert i acc. induction n as [|n IH]; intros i acc Ho Hi; [done|]. cbn [be_value].
  rewrite byte_at_drop by done. replace (off + i + 1) with (off + (i + 1)) by lia. apply IH; lia.
Qed.
Lemma be_value_app n a b i acc : 0 <= i -> i + Z.of_nat n <= zlen a -> be_value n (a ++ b) i acc = be_value n a i acc.
Proof.
  revert i acc. induction n as [|n IH]; intros i acc Hi Hl; [done|]. cbn [be_value].
  rewrite byte_at_app by lia. apply IH; lia.
Qed.

Definition shift_frame (d : Z) (r : ws_decoded) : ws_decoded :=
  match r with
  | WsFrame f => WsFrame (mkFrame (fr_fin f) (fr_opcode f) (d + fr_mask f) (d + fr_payload_off f) (fr_len f) (d + fr_frame_end f))
  | _ => r
  end.

(** The length field and the size of the header, [None] when not all there. *)
Definition ws_length (rest : bytes) : option (Z * Z) :=
  let len := Z.land (byte_at rest 1) 127 in
  if len =? 126 then
    if zlen rest <? 4 then None else Some (Z.lor (Z.shiftl (byte_at rest 2) 8) (byte_at rest 3), 4)
  else if len =? 127 then
    if zlen rest <? 10 then None else Some (be_value 8 rest 2 0, 10)
  else Some (len, 2).

Definition ws_decode (rest : bytes) (cap : Z) : ws_decoded :=
  if zlen rest <? 2 then WsMore else
  let b0 := byte_at rest 0 in
  if negb (Z.land b0 112 =? 0) then WsBad WS_CLOSE_PROTOCOL_ERROR else
  match ws_length rest with
  | None => WsMore
  | Some (len, header) =>
      if Z.land (byte_at rest 1) 128 =? 0 then WsBad WS_CLOSE_PROTOCOL_ERROR else
      if (cap <? header + 5) || (len >? cap - 5 - header) then WsBad WS_CLOSE_MESSAGE_TOO_BIG else
      if zlen rest <? header + 4 + len then WsMore
      else WsFrame (mkFrame (negb (Z.land b0 128 =? 0)) (Z.land b0 15) header (header + 4) len (header + 4 + len))
  end.

Lemma be_value_nonneg n buf off acc : 0 <= acc -> Forall (fun b => 0 <= b) buf -> 0 <= be_value n buf off acc.
Proof.
  intros Ha Hb. revert off acc Ha. induction n as [|n IH]; intros off acc Ha; [done|]. cbn [be_value]. apply IH.
  apply Z.lor_nonneg. split; [apply uwrap_range; lia|]. unfold byte_at, znth. destruct (off <? 0); [done|].
  destruct (buf !! Z.to_nat off) as [b|] eqn:E; [|done]. rewrite list.Forall_lookup in Hb. by apply Hb in E.
Qed.


Lemma byte_at_nonneg buf i : Forall (fun b => 0 <= b) buf -> 0 <= byte_at buf i.
Proof.
  intros Hb. unfold byte_at, znth. destruct (i <? 0); [done|].
  destruct (buf !! Z.to_nat i) as [b|] eqn:E; [|done]. rewrite list.Forall_lookup in Hb. by apply Hb in E.
Qed.

Lemma ws_length_spec rest len header :
  Forall (fun b => 0 <= b) rest -> 2 <= zlen rest -> ws_length rest = Some (len, header) ->
  0 <= len /\ 2 <= header <= zlen rest.
Proof.
  intros Hb Hl. unfold ws_length. destruct (_ =? 126); [|destruct (_ =? 127)].
  - destruct (Z.ltb_spec (zlen rest) 4); [done|]. intros [= <- <-]. split; [|lia].
    apply Z.lor_nonneg. split; [apply Z.shiftl_nonneg|]; by apply byte_at_nonneg.
  - destruct (Z.ltb_spec (zlen rest) 10); [done|]. generalize (be_value_nonneg 8 rest 2 0 (Z.le_refl 0) Hb).
    generalize (be_value 8 rest 2 0). intros v Hv [= <- <-]. split; [done|lia].
  - intros [= <- <-]. split; [|lia]. apply Z.land_nonneg. by right.
Qed.

Lemma ws_decode_frame_alt buf off cap :
  0 <= off <= zlen buf -> Forall (fun b => 0 <= b) buf ->
  ws_decode_frame buf (zlen buf) off cap = shift_frame off (ws_decode (zdrop off buf) cap).
Proof.
  intros Ho Hbuf. unfold ws_decode_frame, ws_decode.
  assert (zlen (zdrop off buf) = zlen buf - off) as Hl by zl. rewrite Hl.
  assert (Forall (fun b => 0 <= b) (zdrop off buf)) as Hb by (by apply Forall_drop).
  pose proof (byte_at_drop buf off 0 ltac:(lia) ltac:(lia)) as B0. rewrite Z.add_0_r in B0.
  pose proof (byte_at_drop buf off 1 ltac:(lia) ltac:(lia)) as B1.
  pose proof (byte_at_drop buf off 2 ltac:(lia) ltac:(lia)) as B2.
  pose proof (byte_at_drop buf off 3 ltac:(lia) ltac:(lia)) as B3.
  pose proof (be_value_drop 8 buf off 2 0 ltac:(lia) ltac:(lia)) as B8.
  rewrite B0, B1, B2, B3, B8. destruct (Z.ltb_spec (zlen buf - off) 2) as [|H2]; [done|].
  destruct (negb (Z.land (byte_at (zdrop off buf) 0) 112 =? 0)); [done|].
  assert ((if Z.land (byte_at (zdrop off buf) 1) 127 =? 126 then
      if zlen buf - off <? 4 then None
      else Some (Z.lor (Z.shiftl (byte_at (zdrop off buf) 2) 8) (byte_at (zdrop off buf) 3), 4)
    else if Z.land (byte_at (zdrop off buf) 1) 127 =? 127 then
      if zlen buf - off <? 10 then None else Some (be_value 8 (zdrop off buf) 2 0, 10)
    else Some (Z.land (byte_at (zdrop off buf) 1) 127, 2)) = ws_length (zdrop off buf)) as ->.
  { unfold ws_length. by rewrite Hl. }
  destruct (ws_length (zdrop off buf)) as [[len header]|] eqn:El; [|done].
  apply ws_length_spec in El as [Hlen Hh]; [|done|lia]. rewrite negb_involutive.
  destruct (Z.land (byte_at (zdrop off buf) 1) 128 =? 0); [done|].
  replace (header + 4 + 1) with (header + 5) by lia. replace (cap - 1 - header - 4) with (cap - 5 - header) by lia.
  destruct ((cap <? header + 5) || (len >? cap - 5 - header)); [done|].
  destruct (Z.ltb_spec (zlen buf - (off + header)) 4).
  { destruct (Z.ltb_spec (zlen buf - off) (header + 4 + len)); [done|lia]. }
  destruct (Z.ltb_spec (zlen buf - (off + header + 4)) len), (Z.ltb_spec (zlen buf - off) (header + 4 + len)); try lia; [done|].
  cbn. do 2 f_equal; lia.
Qed.

Definition nonneg_bytes (l : bytes) : Prop := Forall (fun b => 0 <= b) l.

Lemma ws_length_app rest more x : 2 <= zlen rest -> ws_length rest = Some x -> ws_length (rest ++ more) = Some x.
Proof.
  intros Hl. unfold ws_length. rewrite (byte_at_app rest more 1) by lia. rewrite zlen_app. pose proof (zlen_nonneg more).
  destruct (_ =? 126); [|destruct (_ =? 127); [|done]].
  - destruct (Z.ltb_spec (zlen rest) 4); [done|]. destruct (Z.ltb_spec (zlen rest + zlen more) 4); [lia|].
    by rewrite !byte_at_app by lia.
  - destruct (Z.ltb_spec (zlen rest) 10); [done|]. destruct (Z.ltb_spec (zlen rest + zlen more) 10); [lia|].
    by rewrite be_value_app by (cbn; lia).
Qed.

(** More input does not change a decision. *)
Lemma ws_decode_app rest more cap :
  ws_decode rest cap <> WsMore -> ws_decode (rest ++ more) cap = ws_decode rest cap.
Proof.
  unfold ws_decode. pose proof (zlen_nonneg more). rewrite zlen_app.
  destruct (Z.ltb_spec (zlen rest) 2) as [|H2]; [done|]. destruct (Z.ltb_spec (zlen rest + zlen more) 2); [lia|].
  rewrite (byte_at_app rest more 0), (byte_at_app rest more 1) by lia.
  destruct (negb _); [done|]. destruct (ws_length rest) as [[len header]|] eqn:El; [|done].
  rewrite (ws_length_app rest more (len, header)) by done. destruct (_ =? 0); [done|]. destruct (_ || _); [done|].
  destruct (Z.ltb_spec (zlen rest) (header + 4 + len)); [done|].
  destruct (Z.ltb_spec (zlen rest + zlen more) (header + 4 + len)); [lia|done].
Qed.

Lemma ws_decode_bounds rest cap f :
  nonneg_bytes rest -> ws_decode rest cap = WsFrame f ->
  2 <= fr_mask f /\ fr_payload_off f = fr_mask f + 4 /\ 0 <= fr_len f /\
  fr_frame_end f = fr_payload_off f + fr_len f /\ fr_frame_end f <= zlen rest.
Proof.
  intros Hb. unfold ws_decode. destruct (Z.ltb_spec (zlen rest) 2); [done|]. destruct (negb _); [done|].
  destruct (ws_length rest) as [[len header]|] eqn:El; [|done]. apply ws_length_spec in El as [Hlen Hh]; [|done|lia].
  destruct (_ =? 0); [done|]. destruct (_ || _); [done|].
  destruct (Z.ltb_spec (zlen rest) (header + 4 + len)); [done|]. intros [= <-]. cbn. lia.
Qed.

(** ** The loop on the bytes left *)
Definition frame_payload (f : ws_frame) (rest : bytes) : bytes :=
  unmask (sub (fr_mask f) 4 rest) 0 (sub (fr_payload_off f) (fr_len f) rest).

Fixpoint ws_run (fuel : nat) (cap : Z) (rest : bytes) (conn : connection) : option (bytes * bool * connection) :=
  match rest with
  | [] => Some ([], false, conn)
  | _ =>
      match fuel with
      | O => None
      | S fuel' =>
          match ws_decode rest cap with
          | WsMore => Some (rest, false, conn)
          | WsBad close_code => Some (rest, true, ws_append_close close_code conn)
          | WsFrame f =>
              let '(close, conn) := ws_handle_frame f (frame_payload f rest) conn in
              let rest := zdrop (fr_frame_end f) rest in
              if close : bool then Some (rest, true, conn) else ws_run fuel' cap rest conn
          end
      end
  end.

Lemma sub_drop {A} off m n (l : list A) : 0 <= off -> 0 <= m -> sub (off + m) n l = sub m n (zdrop off l).
Proof. intros. unfold sub. by rewrite zdrop_zdrop by lia. Qed.

Lemma nonneg_zdrop n l : nonneg_bytes l -> nonneg_bytes (zdrop n l).
Proof. intros H. unfold nonneg_bytes, zdrop. by apply list.Forall_drop. Qed.

Lemma ws_loop_run fuel buf cap off conn :
  nonneg_bytes buf -> 0 <= off <= zlen buf ->
  ws_loop fuel buf cap off conn =
  ('(rest, close, conn') ← ws_run fuel cap (zdrop off buf) conn; Some (zlen buf - zlen rest, close, conn')) /\
  (forall rest close conn', ws_run fuel cap (zdrop off buf) conn = Some (rest, close, conn') ->
     zdrop (zlen buf - zlen rest) buf = rest).
Proof.
  intros Hb. revert off conn. induction fuel as [|fuel IH]; intros off conn Ho.
  - cbn [ws_loop ws_run]. assert (zlen (zdrop off buf) = zlen buf - off) as Hl by zl.
    destruct (Z.ltb_spec off (zlen buf)); destruct (zdrop off buf) as [|c r] eqn:Ed.
    + rewrite zlen_nil in Hl. lia.
    + split; done.
    + split; [cbn; rewrite zlen_nil; do 3 f_equal; lia|]. intros rest close conn' [= <- <- <-]. rewrite zlen_nil. apply zdrop_all. lia.
    + rewrite zlen_cons in Hl. zl.
  - cbn [ws_loop ws_run]. assert (zlen (zdrop off buf) = zlen buf - off) as Hl by zl.
    pose proof (ws_decode_frame_alt buf off cap Ho Hb) as Halt.
    pose proof (nonneg_zdrop off buf Hb) as Hd.
    destruct (Z.ltb_spec off (zlen buf)); destruct (zdrop off buf) as [|c r] eqn:Ed.
    + rewrite zlen_nil in Hl. lia.
    + rewrite Halt. rewrite <- Ed in *. clear c r Ed. destruct (ws_decode (zdrop off buf) cap) as [|code|f] eqn:Ef; cbn [shift_frame mbind option_bind].
      * split; [do 3 f_equal; lia|]. intros rest close conn' [= <- <- <-]. rewrite Hl. f_equal. lia.
      * split; [do 3 f_equal; lia|]. intros rest close conn' [= <- <- <-]. rewrite Hl. f_equal. lia.
      * pose proof (ws_decode_bounds _ _ _ Hd Ef) as (B1 & B2 & B3 & B4 & B5). rewrite Hl in B5. cbn [fr_mask fr_payload_off fr_len fr_frame_end].
        rewrite !sub_drop by lia. fold (frame_payload f (zdrop off buf)).
        change (ws_handle_frame _ ?p conn) with (ws_handle_frame f p conn).
        destruct (ws_handle_frame f (frame_payload f (zdrop off buf)) conn) as [close conn1].
        rewrite zdrop_zdrop by lia. destruct close.
        -- split; [cbn; do 3 f_equal; zl|]. intros rest close conn' [= <- <- <-]. f_equal. zl.
        -- apply IH. lia.
    + split; [cbn; rewrite zlen_nil; do 3 f_equal; lia|]. intros rest close conn' [= <- <- <-]. rewrite zlen_nil. apply zdrop_all. lia.
    + rewrite zlen_cons in Hl. zl.
Qed.

Lemma ws_process_frames_run conn :
  nonneg_bytes (conn_rbuf conn) ->
  ws_process_frames conn =
  ('(rest, close, conn') ← ws_run (length (conn_rbuf conn)) (read_buffer_cap conn) (conn_rbuf conn) conn;
   Some (close, set_read (conn_read_alloc conn') rest (read_buffer_cap conn') conn')).
Proof.
  intros Hb. unfold ws_process_frames.
  destruct (ws_loop_run (length (conn_rbuf conn)) (conn_rbuf conn) (read_buffer_cap conn) 0 conn) as [E Hs];
    [done|pose proof (zlen_nonneg (conn_rbuf conn)); lia|].
  rewrite zdrop_0 in *. rewrite E. destruct (ws_run _ _ _ _) as [[[rest close] conn']|] eqn:Er; [|done].
  cbn [mbind option_bind]. by rewrite (Hs rest close conn').
Qed.

Lemma ws_run_total fuel cap rest conn :
  nonneg_bytes rest -> (length rest <= fuel)%nat -> is_Some (ws_run fuel cap rest conn).
Proof.
  revert rest conn. induction fuel as [|fuel IH]; intros rest conn Hb Hl; (destruct rest as [|c r]; [by eexists|]).
  - cbn in Hl. lia.
  - cbn [ws_run]. destruct (ws_decode (c :: r) cap) as [|code|f] eqn:Ef; [by eexists..|].
    pose proof (ws_decode_bounds _ _ _ Hb Ef) as (B1 & B2 & B3 & B4 & B5).
    destruct (ws_handle_frame _ _ _) as [close conn1]. destruct close; [by eexists|].
    apply IH; [by apply nonneg_zdrop|]. unfold zdrop. rewrite length_drop. lia.
Qed.

Lemma ws_run_mono fuel fuel' cap rest conn x :
  ws_run fuel cap rest conn = Some x -> (fuel <= fuel')%nat -> ws_run fuel' cap rest conn = Some x.
Proof.
  revert fuel' rest conn. induction fuel as [|fuel IH]; intros fuel' rest conn; (destruct rest as [|c r]; [by destruct fuel'|]); [done|].
  intros H Hf. destruct fuel' as [|fuel']; [lia|]. cbn [ws_run] in *.
  destruct (ws_decode (c :: r) cap) as [|code|f]; [done..|]. destruct (ws_handle_frame _ _ _) as [close conn1].
  destruct close; [done|]. apply IH; [done|lia].
Qed.

(** Input in two parts: what is left of the first is taken up again with the
    second; a shutdown in the first part stands. *)
Lemma ws_run_app fuel fuel' cap a b conn ra close c1 x :
  nonneg_bytes a -> ws_run fuel cap a conn = Some (ra, close, c1) ->
  (if close then Some (ra ++ b, true, c1) else ws_run fuel' cap (ra ++ b) c1) = Some x ->
  ws_run (fuel + fuel') cap (a ++ b) conn = Some x.
Proof.
  revert a conn. induction fuel as [|fuel IH]; intros a conn Hb H Hx; (destruct a as [|c r];
    [destruct b; [injection H as <- <- <-; eapply ws_run_mono; [exact Hx|lia]|injection H as <- <- <-; eapply ws_run_mono; [exact Hx|lia]]|]);
    [done|].
  cbn [ws_run] in H. remember (c :: r) as a eqn:Ea.
  assert (forall fl y, match ws_decode a cap with
    | WsMore => Some (a ++ b, false, conn)
    | WsBad code => Some (a ++ b, true, ws_append_close code conn)
    | WsFrame f => let '(cl, cn) := ws_handle_frame f (frame_payload f (a ++ b)) conn in
        if cl : bool then Some (zdrop (fr_frame_end f) (a ++ b), true, cn) else ws_run fl cap (zdrop (fr_frame_end f) (a ++ b)) cn
    end = y -> ws_decode a cap <> WsMore -> ws_run (S fl) cap (a ++ b) conn = y) as Hstep.
  { intros fl y Hy Hm. rewrite <- Hy. subst a. cbn [app ws_run]. change (c :: r ++ b) with ((c :: r) ++ b).
    rewrite ws_decode_app by done. destruct (ws_decode (c :: r) cap); done. }
  destruct (ws_decode a cap) as [|code|f] eqn:Ef.
  - injection H as <- <- <-. eapply ws_run_mono; [exact Hx|lia].
  - injection H as <- <- <-. injection Hx as <-. by apply Hstep.
  - pose proof (ws_decode_bounds _ _ _ Hb Ef) as (B1 & B2 & B3 & B4 & B5).
    apply Hstep; [|done].
    assert (frame_payload f (a ++ b) = frame_payload f a) as ->.
    { unfold frame_payload. by rewrite !sub_app_l by lia. }
    rewrite zdrop_app_le by lia. destruct (ws_handle_frame _ _ _) as [cl cn]. destruct cl.
    + injection H as <- <- <-. by injection Hx as <-.
    + apply IH; [by apply nonneg_zdrop|done|done].
Qed.

(** ** The read buffer plays no part in the replies *)
Lemma conn_reserve_write_rbuf need b c :
  conn_reserve_write need (set_conn_rbuf b c) =
  let '(ok, c') := conn_reserve_write need c in (ok, set_conn_rbuf b c').
Proof.
  unfold conn_reserve_write, conn_next_malloc. cbn -[MAX_RESPONSE_SIZE grow_to]. destruct (_ >? _); [done|].
  destruct (_ && _); [done|]. destruct (conn_malloc c) as [|[] l]; done.
Qed.
Lemma ws_append_frame_rbuf op p b c :
  ws_append_frame op p (set_conn_rbuf b c) = let '(rc, c') := ws_append_frame op p c in (rc, set_conn_rbuf b c').
Proof.
  unfold ws_append_frame. rewrite conn_reserve_write_rbuf. cbn [set_conn_rbuf conn_wbuf].
  destruct (conn_reserve_write _ c) as [ok c']. by destruct ok.
Qed.
Lemma ws_append_close_rbuf code b c :
  ws_append_close code (set_conn_rbuf b c) = set_conn_rbuf b (ws_append_close code c).
Proof. unfold ws_append_close. rewrite ws_append_frame_rbuf. by destruct (ws_append_frame _ _ c). Qed.
Lemma ws_handle_frame_rbuf f p b c :
  ws_handle_frame f p (set_conn_rbuf b c) = let '(cl, c') := ws_handle_frame f p c in (cl, set_conn_rbuf b c').
Proof.
  unfold ws_handle_frame. rewrite !ws_append_frame_rbuf, !ws_append_close_rbuf.
  destruct (ws_append_frame (fr_opcode f) p c) as [rc c1]. destruct (ws_append_frame WS_OP_PONG p c) as [rc2 c2].
  destruct (_ || _); [destruct (negb (fr_fin f)); [done|]; destruct (negb (rc =? 0)); [by rewrite ws_append_close_rbuf|done]|].
  destruct (fr_opcode f =? WS_OP_PING); [by destruct (_ || _)|]. by destruct (fr_opcode f =? WS_OP_PONG), (fr_opcode f =? WS_OP_CLOSE).
Qed.
Lemma ws_run_rbuf fuel cap rest b c :
  ws_run fuel cap rest (set_conn_rbuf b c) =
  ('(r, cl, c') ← ws_run fuel cap rest c; Some (r, cl, set_conn_rbuf b c')).
Proof.
  revert rest c. induction fuel as [|fuel IH]; intros rest c; (destruct rest as [|x r]; [done|]); [done|].
  cbn [ws_run]. destruct (ws_decode (x :: r) cap) as [|code|f]; [done|by rewrite ws_append_close_rbuf|].
  rewrite ws_handle_frame_rbuf. destruct (ws_handle_frame f _ c) as [cl c1]. destruct cl; [done|]. apply IH.
Qed.

Lemma ws_append_frame_cap op p c : read_buffer_cap (ws_append_frame op p c).2 = read_buffer_cap c.
Proof.
  unfold ws_append_frame. destruct (conn_reserve_write _ c) as [ok c'] eqn:E.
  assert (read_buffer_cap c' = read_buffer_cap c) as Hc; [|by destruct ok].
  revert E. unfold conn_reserve_write, conn_next_malloc. destruct (_ >? _); [by intros [= <- <-]|].
  destruct (_ && _); [by intros [= <- <-]|]. destruct (conn_malloc c) as [|[] l]; by intros [= <- <-].
Qed.
Lemma ws_handle_frame_cap f p c : read_buffer_cap (ws_handle_frame f p c).2 = read_buffer_cap c.
Proof.
  unfold ws_handle_frame, ws_append_close. pose proof (ws_append_frame_cap (fr_opcode f) p c) as H1.
  destruct (ws_append_frame (fr_opcode f) p c) as [rc c1]. cbn [snd] in H1.
  repeat (case_match; cbn [snd]; rewrite ?ws_append_frame_cap; try done).
Qed.
Lemma ws_run_cap fuel cap rest c r cl c' :
  ws_run fuel cap rest c = Some (r, cl, c') -> read_buffer_cap c' = read_buffer_cap c.
Proof.
  revert rest c. induction fuel as [|fuel IH]; intros rest c; (destruct rest as [|x y]; [by intros [= <- <- <-]|]); [done|].
  cbn [ws_run]. destruct (ws_decode (x :: y) cap) as [|code|f]; [by intros [= <- <- <-]| |].
  - intros [= <- <- <-]. apply ws_append_frame_cap.
  - pose proof (ws_handle_frame_cap f (frame_payload f (x :: y)) c) as H1.
    destruct (ws_handle_frame f _ c) as [cl1 c1]. cbn [snd] in H1. destruct cl1; [by intros [= <- <- <-]|].
    intros H. apply IH in H. congruence.
Qed.

(** Frames may arrive in pieces: the replies, the shutdown and what is left are
    those of all the bytes at once. *)
Lemma ws_process_frames_pieces conn b close c1 :
  nonneg_bytes (conn_rbuf conn) -> nonneg_bytes b ->
  ws_process_frames conn = Some (close, c1) ->
  ws_process_frames (set_conn_rbuf (conn_rbuf conn ++ b) conn) =
  (if close then Some (true, set_conn_rbuf (conn_rbuf c1 ++ b) c1)
   else ws_process_frames (set_conn_rbuf (conn_rbuf c1 ++ b) c1)).
Proof.
  intros Ha Hb. rewrite (ws_process_frames_run conn) by done.
  destruct (ws_run _ _ _ conn) as [[[ra cl] c2]|] eqn:E1; [|done]. cbn [mbind option_bind]. intros [= <- <-].
  pose proof (ws_run_cap _ _ _ _ _ _ _ E1) as Hcap.
  change (set_read (conn_read_alloc c2) ra (read_buffer_cap c2) c2) with (set_conn_rbuf ra c2).
  cbn [set_conn_rbuf conn_rbuf]. change (set_conn_rbuf (ra ++ b) (set_conn_rbuf ra c2)) with (set_conn_rbuf (ra ++ b) c2).
  rewrite ws_process_frames_run by (by apply Forall_app). cbn [conn_rbuf set_conn_rbuf read_buffer_cap].
  fold (set_conn_rbuf (conn_rbuf conn ++ b) conn). rewrite ws_run_rbuf.
  assert (nonneg_bytes ra) as Hra.
  { destruct (ws_loop_run (length (conn_rbuf conn)) (conn_rbuf conn) (read_buffer_cap conn) 0 conn) as [_ Hs];
      [done|pose proof (zlen_nonneg (conn_rbuf conn)); lia|].
    rewrite zdrop_0 in Hs. rewrite <- (Hs _ _ _ E1). by apply nonneg_zdrop. }
  assert (nonneg_bytes (conn_rbuf conn ++ b)) as Hab by (by apply Forall_app).
  destruct (ws_run_total (length (conn_rbuf conn ++ b)) (read_buffer_cap conn) (conn_rbuf conn ++ b) conn Hab ltac:(done)) as [y Hy].
  destruct cl.
  - pose proof (ws_run_app _ 0 _ _ b _ _ _ _ _ Ha E1 eq_refl) as E2. cbv beta iota in E2.
    eapply (ws_run_mono _ (length (conn_rbuf conn ++ b))) in E2; [|rewrite length_app; lia].
    rewrite E2. reflexivity.
  - destruct (ws_run_total (length (ra ++ b)) (read_buffer_cap conn) (ra ++ b) c2 ltac:(by apply Forall_app) ltac:(done)) as [x Hx].
    pose proof (ws_run_app _ (length (ra ++ b)) _ _ b _ _ _ _ _ Ha E1 Hx) as E2.
    eapply (ws_run_mono _ (length (conn_rbuf conn) + length (ra ++ b))) in Hy as Hy'; cycle 1.
    { rewrite !length_app. lia. }
    rewrite E2 in Hy'. injection Hy' as <-. rewrite Hy.
    rewrite ws_process_frames_run by (by apply Forall_app). cbn [conn_rbuf set_conn_rbuf read_buffer_cap].
    fold (set_conn_rbuf (ra ++ b) c2). rewrite ws_run_rbuf, Hcap, Hx. by destruct x as [[r cl] c3].
Qed.

(** ** What client and server put on the wire (RFC 6455) *)
Definition be_encode (n : nat) (z : Z) : bytes := rev (le_encode n z).
(** The seven-bit length and the extended length. *)
Definition len_field (n : Z) : Z * bytes :=
  if n <? 126 then (n, []) else if n <=? 65535 then (126, be_encode 2 n) else (127, be_encode 8 n).
Definition frame_header (fin : bool) (opcode : Z) (masked : bool) (n : Z) : bytes :=
  ((if fin then 128 else 0) + opcode) :: ((if masked then 128 else 0) + (len_field n).1) :: (len_field n).2.
Definition server_frame (opcode : Z) (payload : bytes) : bytes :=
  frame_header true opcode false (zlen payload) ++ payload.
Definition client_frame (fin : bool) (opcode : Z) (key payload : bytes) : bytes :=
  frame_header fin opcode true (zlen payload) ++ key ++ unmask key 0 payload.

Lemma zlen_be_encode n z : zlen (be_encode n z) = Z.of_nat n.
Proof. unfold be_encode, zlen. rewrite length_rev, length_le_encode. done. Qed.

Lemma opcode_bits (fin : bool) op :
  0 <= op < 16 ->
  let b0 := (if fin then 128 else 0) + op in
  Z.land b0 112 = 0 /\ negb (Z.land b0 128 =? 0) = fin /\ Z.land b0 15 = op /\ (fin = true -> Z.lor 128 op = b0).
Proof.
  intros Hop. assert (forallb (fun v => let op := Z.of_nat v in forallb (fun fin : bool =>
    let b0 := (if fin then 128 else 0) + op in
    (Z.land b0 112 =? 0) && eqb (negb (Z.land b0 128 =? 0)) fin && (Z.land b0 15 =? op) &&
    (negb fin || (Z.lor 128 op =? b0))) [true; false]) (seq 0 16) = true) as H by reflexivity.
  rewrite forallb_forall in H. specialize (H (Z.to_nat op)). rewrite Z2Nat.id in H by lia.
  specialize (H ltac:(apply in_seq; lia)). cbv zeta in H. rewrite forallb_forall in H.
  specialize (H fin ltac:(destruct fin; cbn; auto)). rewrite !andb_true_iff in H. destruct H as [[[H1 H2] H3] H4].
  cbv zeta. apply Z.eqb_eq in H1, H3. apply eqb_prop in H2. split_and!; try done.
  intros ->. cbn [negb orb] in H4. by apply Z.eqb_eq.
Qed.

Lemma length_bits l7 : 0 <= l7 < 128 -> Z.land (128 + l7) 128 =? 0 = false /\ Z.land (128 + l7) 127 = l7.
Proof.
  intros Hl. split.
  - assert (forallb (fun v => negb (Z.land (128 + Z.of_nat v) 128 =? 0)) (seq 0 128) = true) as H by reflexivity.
    rewrite forallb_forall in H. specialize (H (Z.to_nat l7)). rewrite Z2Nat.id in H by lia.
    apply negb_true_iff, H, in_seq. lia.
  - change 127 with (Z.ones 7). rewrite Z.land_ones by lia. change (2 ^ 7) with 128. zdiv.
Qed.

Lemma byte_at_cons x l i : 0 <= i -> byte_at (x :: l) (i + 1) = byte_at l i.
Proof. intros Hi. rewrite Z.add_comm, byte_at_drop by lia. done. Qed.
Lemma byte_at_0 x l : byte_at (x :: l) 0 = x.
Proof. done. Qed.

Lemma be_value_list l rest off acc :
  Forall is_byte l -> 0 <= acc -> (acc + 1) * 256 ^ zlen l <= 2 ^ 64 -> 0 <= off ->
  forall buf, zdrop off buf = l ++ rest ->
  be_value (length l) buf off acc = fold_left (fun v b => v * 256 + b) l acc.
Proof.
  intros Hl. revert off acc. induction Hl as [|b l Hb Hl IH]; intros off acc Ha Hov Ho buf Hbuf; [done|].
  cbn [length be_value fold_left]. rewrite zlen_cons, Z.pow_add_r in Hov by zl. change (256 ^ 1) with 256 in Hov.
  assert (0 < 256 ^ zlen l) by (apply Z.pow_pos_nonneg; zl).
  assert (byte_at buf off = b) as ->.
  { rewrite <- (Z.add_0_r off), byte_at_drop, Hbuf by lia. done. }
  unfold is_byte in Hb.
  rewrite u64_small by (rewrite Z.shiftl_mul_pow2 by lia; unfold UINT64_MAX; change (2 ^ 64) with 18446744073709551616 in Hov; nia).
  rewrite lor_disjoint by lia. change (2 ^ 8) with 256. apply IH; try nia.
  change (zdrop (off + 1) buf = l ++ rest). rewrite <- (zdrop_zdrop 1 off) by lia. by rewrite Hbuf.
Qed.

Lemma fold_be_encode n z : 0 <= z < 256 ^ Z.of_nat n -> fold_left (fun v b => v * 256 + b) (be_encode n z) 0 = z.
Proof.
  intros Hz. unfold be_encode. rewrite <- fold_left_rev_right, rev_involutive.
  rewrite <- (le_decode_encode n z Hz) at 2. induction (le_encode n z) as [|b l IH]; [done|].
  cbn [fold_right]. rewrite IH. unfold le_decode at 2. fold le_decode. lia.
Qed.

Lemma land_255 n k : 0 <= k -> Z.land (Z.shiftr n k) 255 = (n / 2 ^ k) mod 256.
Proof. intros. change 255 with (Z.ones 8). by rewrite Z.land_ones, Z.shiftr_div_pow2 by lia. Qed.

Lemma be_encode_2 n : be_encode 2 n = [(n / 256) mod 256; n mod 256].
Proof. done. Qed.
Lemma be_encode_8 n :
  be_encode 8 n = map (fun i => Z.land (Z.shiftr n (56 - 8 * i)) 255) [0; 1; 2; 3; 4; 5; 6; 7].
Proof.
  cbn [map]. rewrite !land_255 by lia.
  change (be_encode 8 n) with [n / 256 / 256 / 256 / 256 / 256 / 256 / 256 mod 256; n / 256 / 256 / 256 / 256 / 256 / 256 mod 256;
    n / 256 / 256 / 256 / 256 / 256 mod 256; n / 256 / 256 / 256 / 256 mod 256; n / 256 / 256 / 256 mod 256;
    n / 256 / 256 mod 256; n / 256 mod 256; n mod 256].
  rewrite !Z.div_div by lia. change (2 ^ (56 - 8 * 7)) with 1. rewrite Z.div_1_r. reflexivity.
Qed.

Lemma ws_header_spec op n : 0 <= op < 16 -> 0 <= n -> ws_header op n = frame_header true op false n.
Proof.
  intros Hop Hn. unfold ws_header, frame_header, len_field. destruct (opcode_bits true op Hop) as (_ & _ & _ & ->); [|done].
  f_equal. destruct (Z.ltb_spec n 126); [by rewrite u8_small by lia|]. destruct (Z.leb_spec n 65535).
  - cbn [fst snd]. rewrite be_encode_2. rewrite <- (Z.shiftr_0_r n) at 2. rewrite !land_255 by lia. by rewrite Z.div_1_r.
  - cbn [fst snd]. by rewrite be_encode_8.
Qed.

Lemma zlen_frame_header fin op masked n : 2 <= zlen (frame_header fin op masked n) <= 10.
Proof.
  unfold frame_header, len_field. destruct (n <? 126); [|destruct (n <=? 65535)]; cbn [snd];
    rewrite !zlen_cons, ?zlen_be_encode, ?zlen_nil; lia.
Qed.

Lemma be_encode_bytes n z : Forall is_byte (be_encode n z).
Proof. unfold be_encode. apply Forall_rev. apply le_encode_bytes. Qed.

Lemma ws_length_header fin op n rest :
  0 <= n < 2 ^ 64 -> ws_length (frame_header fin op true n ++ rest) = Some (n, zlen (frame_header fin op true n)).
Proof.
  intros Hn. unfold frame_header, len_field, ws_length. cbn [app].
  change (byte_at (?x :: ?y :: ?l) 1) with y.
  destruct (Z.ltb_spec n 126) as [H1|H1]; [|destruct (Z.leb_spec n 65535) as [H2|H2]]; cbn [fst snd].
  - destruct (length_bits n) as [_ ->]; [lia|]. destruct (Z.eqb_spec n 126); [lia|]. destruct (Z.eqb_spec n 127); [lia|]. done.
  - change (Z.land (128 + 126) 127) with 126. change (126 =? 126) with true. cbv iota.
    rewrite be_encode_2. match goal with |- context [zlen ?l <? 4] => replace (zlen l <? 4) with false by (symmetry; apply Z.ltb_ge; zl) end.
    do 3 f_equal. change (byte_at _ 2) with ((n / 256) mod 256). change (byte_at _ 3) with (n mod 256).
    rewrite lor_disjoint by zdiv. change (2 ^ 8) with 256. zdiv.
  - change (Z.land (128 + 127) 127) with 127. change (127 =? 126) with false. change (127 =? 127) with true. cbv iota.
    pose proof (zlen_be_encode 8 n) as H8.
    match goal with |- context [zlen ?l <? 10] => replace (zlen l <? 10) with false by (symmetry; apply Z.ltb_ge; zl) end.
    f_equal. assert (forall a b c d : Z, a = c -> b = d -> (a, b) = (c, d)) as Hpair by congruence.
    apply Hpair; [|rewrite !zlen_cons, H8; reflexivity].
    change 8%nat with (length (be_encode 8 n)) at 1. rewrite (be_value_list (be_encode 8 n) rest).
    + by apply fold_be_encode.
    + apply be_encode_bytes.
    + done.
    + rewrite zlen_be_encode. vm_compute. congruence.
    + done.
    + done.
Qed.

Lemma unmask_involutive key i p : unmask key i (unmask key i p) = p.
Proof.
  revert i. induction p as [|x p IH]; intros i; [done|]. cbn [unmask]. rewrite IH, Z.lxor_assoc, Z.lxor_nilpotent, Z.lxor_0_r. done.
Qed.
Lemma zlen_unmask key i p : zlen (unmask key i p) = zlen p.
Proof. revert i. induction p as [|x p IH]; intros i; [done|]. cbn [unmask]. by rewrite !zlen_cons, IH. Qed.
#[local] Hint Rewrite zlen_unmask : zlen.

Lemma len_field_range n : 0 <= n -> 0 <= (len_field n).1 < 128.
Proof. intros. unfold len_field. destruct (Z.ltb_spec n 126); [cbn; lia|]. destruct (n <=? 65535); cbn; lia. Qed.

Lemma client_frame_bytes fin op key p rest :
  byte_at (client_frame fin op key p ++ rest) 0 = (if fin then 128 else 0) + op /\
  byte_at (client_frame fin op key p ++ rest) 1 = 128 + (len_field (zlen p)).1.
Proof. done. Qed.

(** A complete masked frame decodes to its fields, and its payload unmasks. *)
Lemma ws_decode_client fin op key p rest cap :
  let h := zlen (frame_header fin op true (zlen p)) in
  0 <= op < 16 -> zlen key = 4 -> zlen p < 2 ^ 64 -> zlen p <= cap - 5 - h ->
  let f := mkFrame fin op h (h + 4) (zlen p) (h + 4 + zlen p) in
  ws_decode (client_frame fin op key p ++ rest) cap = WsFrame f /\
  frame_payload f (client_frame fin op key p ++ rest) = p /\
  h + 4 + zlen p = zlen (client_frame fin op key p).
Proof.
  intros h Hop Hk Hn Hcap f. pose proof (zlen_nonneg p) as Hp0.
  assert (h + 4 + zlen p = zlen (client_frame fin op key p)) as Hlen by (unfold client_frame, h; zl).
  split_and!; [| |done].
  - unfold ws_decode. destruct (client_frame_bytes fin op key p rest) as [-> ->].
    destruct (opcode_bits fin op Hop) as (-> & -> & -> & _). destruct (length_bits _ (len_field_range _ Hp0)) as [-> _].
    rewrite zlen_app, <- Hlen. pose proof (zlen_frame_header fin op true (zlen p)) as Hh. fold h in Hh.
    replace (h + 4 + zlen p + zlen rest <? 2) with false by (symmetry; apply Z.ltb_ge; zl). cbn [negb Z.eqb].
    unfold client_frame at 1. rewrite <- app_assoc, ws_length_header by lia. fold h.
    replace ((cap <? h + 5) || (zlen p >? cap - 5 - h)) with false by lia.
    replace (h + 4 + zlen p + zlen rest <? h + 4 + zlen p) with false by (symmetry; apply Z.ltb_ge; zl). done.
  - unfold frame_payload, f, client_frame. cbn [fr_mask fr_payload_off fr_len]. rewrite <- !app_assoc.
    rewrite (sub_eq_app h 4 _ (frame_header fin op true (zlen p)) key (unmask key 0 p ++ rest)) by done.
    rewrite (sub_eq_app (h + 4) (zlen p) _ (frame_header fin op true (zlen p) ++ key) (unmask key 0 p) rest).
    + apply unmask_involutive.
    + by rewrite <- app_assoc.
    + rewrite zlen_app. unfold h. lia.
    + by rewrite zlen_unmask.
Qed.

(** A frame cut short is never decided early. *)
Lemma ws_decode_partial fin op key p a b cap :
  0 <= op < 16 -> zlen p < 2 ^ 64 -> zlen key = 4 -> zlen p <= cap - 5 - zlen (frame_header fin op true (zlen p)) ->
  client_frame fin op key p = a ++ b -> b <> [] -> ws_decode a cap = WsMore.
Proof.
  intros Hop Hn Hk Hcap E Hb. destruct (ws_decode a cap) as [|code|f] eqn:Ed; [done|..];
    assert (ws_decode (a ++ b) cap = ws_decode a cap) as Ea by (apply ws_decode_app; congruence);
    destruct (ws_decode_client fin op key p [] cap) as (Ec & _ & El); try done;
    rewrite app_nil_r, E in Ec; rewrite Ec, Ed in Ea; [done|].
  injection Ea as <-. exfalso.
  assert (zlen a < zlen (client_frame fin op key p)) as Hlt.
  { rewrite E, zlen_app. destruct b; [done|]. zl. }
  unfold ws_decode in Ed. destruct (zlen a <? 2); [done|]. destruct (negb _); [done|].
  destruct (ws_length a) as [[len header]|]; [|done]. destruct (_ =? 0); [done|]. destruct (_ || _); [done|].
  destruct (Z.ltb_spec (zlen a) (header + 4 + len)); [done|]. injection Ed. intros. lia.
Qed.

(** ** Replies *)
Lemma ws_append_frame_ok op p c :
  conn_ok c -> mallocs_ok c -> 0 <= op < 16 ->
  zlen (conn_wbuf c) + zlen (server_frame op p) <= MAX_RESPONSE_SIZE ->
  exists c', ws_append_frame op p c = (0, c') /\ conn_ok c' /\ mallocs_ok c' /\
    conn_wbuf c' = conn_wbuf c ++ server_frame op p /\ conn_rbuf c' = conn_rbuf c.
Proof.
  intros Hok Hm Hop Hfit. unfold ws_append_frame. rewrite ws_header_spec by (done || zl).
  unfold server_frame in *. rewrite zlen_app in Hfit.
  destruct (conn_reserve_write _ c) as [ok c'] eqn:E.
  destruct (conn_reserve_write_spec _ _ _ _ Hok E) as (Hok' & Hw & Hr & Hp & Hrc & Hcap & Hms).
  destruct (Hms Hm) as [Hm' Hiff]. assert (ok = true) as -> by (apply Hiff; lia). cbn [negb].
  eexists. split; [done|]. specialize (Hcap eq_refl). destruct Hok' as [K1 K2 K3 K4 K5]. split_and!.
  - set (hd := frame_header true op false (zlen p)) in *. clearbody hd.
    constructor; cbn -[MAX_RESPONSE_SIZE]; try done. rewrite Hw. zl.
  - done.
  - cbn [set_write set_conn_wbuf set_conn_write_alloc conn_wbuf]. by rewrite Hw.
  - done.
Qed.

(** A data message of a client: opcode, masking key, payload. *)
Record message := mkMessage { msg_op : Z; msg_key : bytes; msg_data : bytes }.
Definition message_ok (cap : Z) (m : message) : Prop :=
  (msg_op m = WS_OP_TEXT \/ msg_op m = WS_OP_BINARY) /\ zlen (msg_key m) = 4 /\ zlen (msg_data m) < 2 ^ 64 /\
  zlen (msg_data m) <= cap - 5 - zlen (frame_header true (msg_op m) true (zlen (msg_data m))).
Definition sent (m : message) : bytes := client_frame true (msg_op m) (msg_key m) (msg_data m).
Definition echoed (m : message) : bytes := server_frame (msg_op m) (msg_data m).

Lemma ws_run_echo ms fuel cap tail c :
  conn_ok c -> mallocs_ok c -> Forall (message_ok cap) ms ->
  zlen (conn_wbuf c) + zlen (flat_map echoed ms) <= MAX_RESPONSE_SIZE ->
  exists c', ws_run (length ms + fuel) cap (flat_map sent ms ++ tail) c = ws_run fuel cap tail c' /\
    conn_ok c' /\ mallocs_ok c' /\ conn_wbuf c' = conn_wbuf c ++ flat_map echoed ms /\ conn_rbuf c' = conn_rbuf c.
Proof.
  intros Hok Hm Hms. revert c Hok Hm. induction Hms as [|m ms (Hop & Hk & Hn & Hcap) Hms IH]; intros c Hok Hm Hfit.
  { exists c. cbn. rewrite app_nil_r. done. }
  cbn [flat_map length]. cbn [flat_map] in Hfit. rewrite zlen_app in Hfit. pose proof (zlen_nonneg (flat_map echoed ms)).
  assert (0 <= msg_op m < 16) as Hop16 by (destruct Hop as [-> | ->]; unfold WS_OP_TEXT, WS_OP_BINARY; lia).
  destruct (ws_decode_client true (msg_op m) (msg_key m) (msg_data m) (flat_map sent ms ++ tail) cap) as (Ed & Ep & El); try done.
  fold (sent m) in Ed, Ep, El. set (f := mkFrame _ _ _ _ _ _) in *.
  destruct (ws_append_frame_ok (msg_op m) (msg_data m) c) as (c1 & E1 & Hok1 & Hm1 & Hw1 & Hr1); try done;
    [fold (echoed m); lia|]. fold (echoed m) in Hw1.
  assert (ws_handle_frame f (msg_data m) c = (false, c1)) as Hh.
  { unfold ws_handle_frame, f. cbn [fr_opcode fr_fin]. rewrite E1. destruct Hop as [-> | ->]; done. }
  destruct (IH c1) as (c' & E' & Hok' & Hm' & Hw' & Hr'); [done|done|rewrite Hw1, zlen_app; lia|].
  exists c'. split_and!; try done.
  - rewrite <- E', <- app_assoc. destruct (sent m ++ flat_map sent ms ++ tail) as [|x l] eqn:Es; [done|].
    rewrite <- Es in *. assert (forall fl, ws_run (S fl) cap (sent m ++ flat_map sent ms ++ tail) c
      = let '(close, c2) := ws_handle_frame f (msg_data m) c in
        if close : bool then Some (zdrop (fr_frame_end f) (sent m ++ flat_map sent ms ++ tail), true, c2)
        else ws_run fl cap (zdrop (fr_frame_end f) (sent m ++ flat_map sent ms ++ tail)) c2) as Hs.
    { intros fl. rewrite Es. cbn [ws_run]. rewrite <- Es, Ed. by rewrite Ep. }
    cbn [Nat.add]. rewrite Hs, Hh. rewrite zdrop_app_eq by done. done.
  - rewrite Hw', Hw1, <- app_assoc. done.
  - congruence.
Qed.
