(* ===== verification/Route.v ===== *)
(** * Routing, middleware, API keys and static files
      (server/src/route.c, middleware.c, auth.c)

    A handler takes the connection, whose request and response it works on, to
    its return code and the connection; [None] is a loop of it out of fuel.
    The members of the chain that keep state are in RateLimit, Metrics and App,
    where the chain is put together. *)
From Stdlib Require Import String.
From S2P Require Import Prelude Text Json HttpTypes HttpText HttpDate Connection HttpRequest HttpResponse.

Local Open Scope Z_scope.

Definition handler : Type := connection -> option (Z * connection).

(** ** Routes (route.c) *)
Section routes.
Context {H : Type}.

Record route := mkRoute { rt_pattern : bytes; rt_method : http_method; rt_handler : H; rt_offload : bool }.

(** [None] for -1; the list's head is [server->routes]. *)
Definition add_route (calloc_ok : bool) (pattern : bytes) (method : http_method) (h : H) (routes : list route)
    : option (list route) :=
  if calloc_ok then Some (mkRoute (snprintf_s 512 pattern) method h false :: routes) else None.

Definition add_route_offloaded (calloc_ok : bool) (pattern : bytes) (method : http_method) (h : H)
    (routes : list route) : option (list route) :=
  match add_route calloc_ok pattern method h routes with
  | Some (r :: l) => Some (mkRoute (rt_pattern r) (rt_method r) (rt_handler r) true :: l)
  | _ => None
  end.

Definition is_wildcard (pattern : bytes) : bool :=
  match list.last pattern with Some 42 => true | _ => false end.

Definition exact_match (uri : bytes) (method : http_method) (r : route) : bool :=
  bool_decide (rt_method r = method) && negb (is_wildcard (rt_pattern r)) && streq (rt_pattern r) uri.
Definition wildcard_match (uri : bytes) (method : http_method) (r : route) : bool :=
  bool_decide (rt_method r = method) && is_wildcard (rt_pattern r) &&
  starts_with (removelast (rt_pattern r)) uri.

Definition find_route (uri : bytes) (method : http_method) (routes : list route) : option route :=
  match List.find (exact_match uri method) routes with
  | Some r => Some r
  | None => List.find (wildcard_match uri method) routes
  end.

(** The handler of a request and whether it blocks. *)
Definition resolve_handler (uri : bytes) (method : http_method) (routes : list route) (default_handler : H)
    : H * bool :=
  match find_route uri method routes with
  | Some r => (rt_handler r, rt_offload r)
  | None => (default_handler, true)
  end.
End routes.
Arguments route : clear implicits.

(** ** The middleware chain (middleware.c) *)
Definition MAX_MIDDLEWARES : Z := 16.
Definition middleware : Type := handler -> handler.

(** The chain of handlers of any type: [H -> H] takes what comes next. *)
Definition add_middleware {H : Type} (fn : H -> H) (chain : list (H -> H)) : option (list (H -> H)) :=
  if zlen chain >=? MAX_MIDDLEWARES then None else Some (chain ++ [fn]).

(** [middleware_next] with the rest of the chain. *)
Fixpoint middleware_next {H : Type} (chain : list (H -> H)) (h : H) : H :=
  match chain with
  | [] => h
  | fn :: chain' => fn (middleware_next chain' h)
  end.
Definition run_with_middleware (middlewares : list middleware) (h : handler) : handler := middleware_next middlewares h.

(** First header of that name, whatever its case. *)
Definition request_header (request : http_request) (name : bytes) : option bytes :=
  hdr_value <$> List.find (fun h => strcaseeq (hdr_name h) name) (req_headers request).

Section server.
Context (gzip : bytes -> option bytes) (server_name : bytes) (now : Z).

Definition set_cors_origin_field (allow : bytes) (conn : connection) : connection :=
  set_conn_response (set_cors_origin (snprintf_s 256 allow) (conn_response conn)) conn.

Definition cors_middleware (cors_allow_origin : bytes) : middleware := fun next conn =>
  let allow := match cors_allow_origin with [] => str "*" | a => a end in
  let request := conn_request conn in
  let origin := request_header request (str "Origin") in
  if bool_decide (req_method request = HTTP_OPTIONS) then
    let response := set_resp_status HTTP_NO_CONTENT (set_resp_body None (conn_response conn)) in
    let response := set_resp_version (str "HTTP/1.1") response in
    let response := set_resp_keep_alive (req_keep_alive request) response in
    let response := response_set_header 0 (str "Access-Control-Allow-Methods")
                      (str "GET, POST, PUT, DELETE, OPTIONS") response in
    let response := response_set_header 1 (str "Access-Control-Allow-Headers")
                      (default (str "Content-Type") (request_header request (str "Access-Control-Request-Headers"))) response in
    let response := response_set_header 2 (str "Access-Control-Max-Age") (str "86400") response in
    let conn := set_conn_response response conn in
    let conn := match origin with Some _ => set_cors_origin_field allow conn | None => conn end in
    Some (send_http_response gzip server_name now conn)
  else
    next (match origin with Some _ => set_cors_origin_field allow conn | None => conn end).

(** ** API keys (auth.c) *)
Definition MAX_API_KEYS : Z := 32.
Definition MAX_KEY_LEN : Z := 256.

Fixpoint auth_keys_loop (toks : list bytes) (count : Z) : list bytes :=
  match toks with
  | [] => []
  | tok :: toks' =>
      if count <? MAX_API_KEYS then
        let key := trim_blanks_end (skip_blanks tok) in
        let len := zlen key in
        if (len >? 0) && (len <? MAX_KEY_LEN) then key :: auth_keys_loop toks' (count + 1)
        else auth_keys_loop toks' count
      else []
  end.
(** The keys, from what API_KEYS holds. *)
Definition auth_init (raw : bytes) : list bytes :=
  match raw with
  | [] => []
  | _ => auth_keys_loop (strtok 44 (snprintf_s (MAX_API_KEYS * MAX_KEY_LEN) raw) []) 0
  end.

Definition method_is_protected (m : http_method) : bool :=
  match m with HTTP_POST | HTTP_PUT | HTTP_DELETE | HTTP_PATCH => true | _ => false end.
Definition path_uses_jwt (uri : bytes) : bool :=
  starts_with (str "/api/todos") uri || starts_with (str "/api/auth/") uri.

(** The loop over the longer string; a string is read as 0 behind its end. *)
Fixpoint equals_loop (n : nat) (a b : bytes) (diff : Z) : Z :=
  match n with
  | O => diff
  | S n' =>
      let '(ca, a') := match a with x :: l => (x, l) | [] => (0, []) end in
      let '(cb, b') := match b with x :: l => (x, l) | [] => (0, []) end in
      equals_loop n' a' b' (Z.lor diff (Z.lxor ca cb))
  end.
Definition secure_equals (a b : bytes) : bool :=
  let la := zlen a in
  let lb := zlen b in
  equals_loop (Z.to_nat (if la >? lb then la else lb)) a b (u8 (Z.lxor la lb)) =? 0.

Definition key_is_valid (keys : list bytes) (key : bytes) : bool :=
  fold_left (fun ok k => if secure_equals key k then true else ok) keys false.

(** The text behind [Bearer ] of an Authorization value. *)
Definition bearer_value (authz : bytes) : option bytes :=
  if strncaseeq 7 authz (str "Bearer ") then Some (skip_sp (zdrop 7 authz)) else None.

Definition presented_key (request : http_request) : option bytes :=
  match request_header request (str "X-API-Key") with
  | Some k => Some k
  | None => authz ← request_header request (str "Authorization"); bearer_value authz
  end.

Definition auth_middleware (keys : list bytes) : middleware := fun next conn =>
  let request := conn_request conn in
  if (zlen keys =? 0) || negb (method_is_protected (req_method request)) || path_uses_jwt (req_uri request)
  then next conn else
  match presented_key request with
  | None | Some [] => Some (send_error_json gzip server_name now HTTP_UNAUTHORIZED (str "missing API key") conn)
  | Some presented =>
      if negb (key_is_valid keys presented)
      then Some (send_error_json gzip server_name now HTTP_FORBIDDEN (str "invalid API key") conn)
      else next conn
  end.

(** ** Static files (route.c) *)

(** What the file system answers: whether [stat] succeeds, the canonical path,
    the file opened. *)
Record fs := mkFs {
  fs_stat : bytes -> bool;
  fs_realpath : bytes -> option bytes;
  fs_open : bytes -> option open_file }.

(** The path to serve, or the status and text of the refusal. *)
Definition static_path (fs : fs) (document_root : bytes) (malloc_ok : bool) (uri : bytes) : (Z * bytes) + bytes :=
  match url_decode malloc_ok uri with
  | None => inl (HTTP_BAD_REQUEST, str "Malformed request path")
  | Some path =>
      if negb (is_valid_uri path) then inl (HTTP_FORBIDDEN, str "Access denied") else
      let suffix := match list.last path with Some 47 => str "index.html" | _ => [] end in
      let file_path := document_root ++ path ++ suffix in
      if zlen file_path >=? 4096 then inl (HTTP_NOT_FOUND, str "File not found") else
      if negb (fs_stat fs file_path) then inl (HTTP_NOT_FOUND, str "File not found") else
      match fs_realpath fs document_root, fs_realpath fs file_path with
      | Some real_root, Some real_path =>
          if negb (starts_with real_root real_path) ||
             match zdrop (zlen real_root) real_path with
             | [] => false
             | c :: _ => negb (c =? 47)
             end
          then inl (HTTP_FORBIDDEN, str "Access denied")
          else inr real_path
      | _, _ => inl (HTTP_NOT_FOUND, str "File not found")
      end
  end.

Definition default_file_handler (fs : fs) (document_root : bytes) : handler := fun conn =>
  let request := conn_request conn in
  let refuse status message := Some (send_error_response gzip server_name now status message conn) in
  match req_method request with
  | HTTP_GET | HTTP_HEAD =>
      let '(malloc_ok, conn') := conn_next_malloc conn in
      match static_path fs document_root malloc_ok (req_uri request) with
      | inl (status, message) => Some (send_error_response gzip server_name now status message conn')
      | inr real_path => send_file_response gzip server_name now real_path (fs_open fs real_path) conn'
      end
  | _ => refuse HTTP_METHOD_NOT_ALLOWED (str "Method not allowed")
  end.
End server.

(** ** Route lookup *)
Lemma find_route_spec {H} uri method (routes : list (route H)) :
  match find_route uri method routes with
  | Some r => r ∈ routes /\ rt_method r = method /\
      (exact_match uri method r = true \/
       wildcard_match uri method r = true /\ forall r', r' ∈ routes -> exact_match uri method r' = false)
  | None => forall r, r ∈ routes -> exact_match uri method r = false /\ wildcard_match uri method r = false
  end.
Proof.
  unfold find_route. destruct (List.find (exact_match uri method) routes) as [r|] eqn:E1.
  - apply find_some in E1 as [Hin E1]. apply list_elem_of_In in Hin. split_and!; [done| |by left].
    unfold exact_match in E1. rewrite !andb_true_iff, bool_decide_eq_true in E1. naive_solver.
  - pose proof (find_none _ _ E1) as Hn.
    destruct (List.find (wildcard_match uri method) routes) as [r|] eqn:E2.
    + apply find_some in E2 as [Hin E2]. apply list_elem_of_In in Hin. split_and!; [done| |].
      * unfold wildcard_match in E2. rewrite !andb_true_iff, bool_decide_eq_true in E2. naive_solver.
      * right. split; [done|]. intros r' Hr. by apply Hn, list_elem_of_In.
    + intros r Hr. apply list_elem_of_In in Hr. split; [by apply Hn|]. by apply (find_none _ _ E2).
Qed.

(** A wildcard is a prefix of the path and a star. *)
Lemma wildcard_match_spec {H} uri method (r : route H) :
  wildcard_match uri method r = true <->
  rt_method r = method /\ exists p s, rt_pattern r = p ++ [42] /\ uri = p ++ s.
Proof.
  unfold wildcard_match, is_wildcard. rewrite !andb_true_iff, bool_decide_eq_true.
  destruct (list.last (rt_pattern r)) as [c|] eqn:El.
  - apply list.last_Some in El as (p & E). rewrite E, removelast_last. split.
    + intros [[Hm Hc] Hp]. split; [done|]. apply starts_with_spec in Hp as [s ->]. exists p, s. split; [|done].
      f_equal. destruct c as [|q|q]; try done. repeat (destruct q as [q|q|]; try done).
    + intros [Hm (p' & s & Ep & ->)]. apply app_inj_tail in Ep as [<- ->]. split; [done|].
      apply starts_with_spec. by exists s.
  - apply list.last_None in El. rewrite El. split; [naive_solver|]. intros [_ (p & s & Ep & _)]. by destruct p.
Qed.

(** ** API keys *)
Lemma equals_loop_mono n a b d : 0 <= d -> Forall (fun x => 0 <= x) a -> Forall (fun x => 0 <= x) b ->
  equals_loop n a b d = 0 -> d = 0.
Proof.
  revert a b d. induction n as [|n IH]; intros a b d Hd Ha Hb; [done|]. cbn [equals_loop].
  assert (forall x y a' b', 0 <= x -> 0 <= y -> Forall (fun x => 0 <= x) a' -> Forall (fun x => 0 <= x) b' ->
    equals_loop n a' b' (Z.lor d (Z.lxor x y)) = 0 -> d = 0) as Hs.
  { intros x y a' b' Hx Hy Ha' Hb' H. apply IH in H; [|apply Z.lor_nonneg; split; [done|by apply Z.lxor_nonneg]|done|done].
    by apply Z.lor_eq_0_iff in H as [-> _]. }
  destruct Ha, Hb; apply Hs; try done; constructor.
Qed.

Lemma equals_loop_spec n a b :
  Forall (fun x => 0 < x) a -> Forall (fun x => 0 < x) b -> (length a <= n)%nat -> (length b <= n)%nat ->
  equals_loop n a b 0 = 0 <-> a = b.
Proof.
  assert (forall l : bytes, Forall (fun x => 0 < x) l -> Forall (fun x => 0 <= x) l) as Hw.
  { intros l Hl. eapply list.Forall_impl; [exact Hl|]. cbn. lia. }
  revert a b. induction n as [|n IH]; intros a b Ha Hb Hla Hlb.
  { destruct a, b; cbn in *; try lia. done. }
  destruct Ha as [|x a Hx Ha], Hb as [|y b Hy Hb]; cbn [equals_loop]; rewrite ?Z.lor_0_l.
  - rewrite IH by (constructor || (cbn; lia)). done.
  - split; [|done]. rewrite Z.lxor_0_l. intros H. apply equals_loop_mono in H; [lia|lia|constructor|by apply Hw].
  - split; [|done]. rewrite Z.lxor_0_r. intros H. apply equals_loop_mono in H; [lia|lia|by apply Hw|constructor].
  - cbn in Hla, Hlb. split.
    + intros H. pose proof H as H0. apply equals_loop_mono in H0; [|apply Z.lxor_nonneg; lia|by apply Hw|by apply Hw].
      apply Z.lxor_eq in H0 as ->. rewrite Z.lxor_nilpotent in H. apply IH in H as ->; [done|done|done|lia|lia].
    + intros [= -> ->]. rewrite Z.lxor_nilpotent. apply IH; try done; lia.
Qed.

(** Constant-time comparison of strings is equality. *)
Lemma secure_equals_spec a b :
  Forall (fun x => 0 < x) a -> Forall (fun x => 0 < x) b -> secure_equals a b = true <-> a = b.
Proof.
  intros Ha Hb. unfold secure_equals. rewrite Z.eqb_eq.
  set (n := Z.to_nat (if zlen a >? zlen b then zlen a else zlen b)).
  assert (length a <= n /\ length b <= n)%nat as [Hla Hlb].
  { unfold n, zlen. destruct (Z.gtb_spec (Z.of_nat (length a)) (Z.of_nat (length b))); lia. }
  split.
  - intros H. assert (u8 (Z.lxor (zlen a) (zlen b)) = 0) as E.
    { apply (equals_loop_mono n a b); [apply uwrap_range; lia| | |done]; (eapply list.Forall_impl; [done|]; cbn; lia). }
    rewrite E in H. by apply (equals_loop_spec n) in H.
  - intros ->. rewrite Z.lxor_nilpotent. change (u8 0) with 0. by apply equals_loop_spec.
Qed.

Definition text_ok (s : bytes) : Prop := Forall (fun x => 0 < x) s.

Lemma key_is_valid_spec keys key :
  text_ok key -> Forall text_ok keys -> key_is_valid keys key = true <-> key ∈ keys.
Proof.
  intros Hk Hks. unfold key_is_valid.
  assert (forall ok, fold_left (fun ok k => if secure_equals key k then true else ok) keys ok = true <-> ok = true \/ key ∈ keys)
    as H.
  { induction Hks as [|k ks Hkk Hks IH]; intros ok; cbn [fold_left]; [set_solver|]. rewrite IH, elem_of_cons.
    destruct (secure_equals key k) eqn:E.
    - apply secure_equals_spec in E as ->; [|done|done]. naive_solver.
    - assert (key <> k) by (intros ->; rewrite (proj2 (secure_equals_spec k k Hkk Hkk) eq_refl) in E; done). naive_solver. }
  rewrite H. naive_solver.
Qed.

(** ** Static files stay below the root *)
Lemma static_path_inside fs root malloc_ok uri path :
  static_path fs root malloc_ok uri = inr path ->
  exists real_root rel decoded, fs_realpath fs root = Some real_root /\
    path = real_root ++ rel /\ (rel = [] \/ exists rel', rel = 47 :: rel') /\
    url_decode malloc_ok uri = Some decoded /\ is_valid_uri decoded = true.
Proof.
  unfold static_path. destruct (url_decode malloc_ok uri) as [decoded|] eqn:Ed; [|done].
  destruct (is_valid_uri decoded) eqn:Ev; [|done]. cbn [negb]. destruct (_ >=? 4096); [done|].
  destruct (negb (fs_stat _ _)); [done|].
  destruct (fs_realpath fs root) as [rr|] eqn:Er; [|done]. destruct (fs_realpath fs (root ++ _)) as [rp|]; [|done].
  destruct (starts_with rr rp) eqn:Es; cbn [negb orb]; [|done]. apply starts_with_spec in Es as [rel ->].
  rewrite zdrop_app_eq by done. destruct rel as [|c rel].
  - intros [= <-]. exists rr, [], decoded. split_and!; try done. by left.
  - destruct (Z.eqb_spec c 47) as [-> |]; [|done]. intros [= <-]. exists rr, (47 :: rel), decoded.
    split_and!; try done. right. by exists rel.
Qed.

(** ** Who passes the API-key guard *)
Section guard.
Context (gzip : bytes -> option bytes) (server_name : bytes) (now : Z).

Definition guarded (keys : list bytes) (request : http_request) : bool :=
  negb ((zlen keys =? 0) || negb (method_is_protected (req_method request)) || path_uses_jwt (req_uri request)).

(** A guarded request reaches the next stage only with a configured key. *)
Lemma auth_middleware_spec keys next conn :
  Forall text_ok keys ->
  (forall key, presented_key (conn_request conn) = Some key -> text_ok key) ->
  auth_middleware gzip server_name now keys next conn =
  if guarded keys (conn_request conn) then
    match presented_key (conn_request conn) with
    | None | Some [] => Some (send_error_json gzip server_name now HTTP_UNAUTHORIZED (str "missing API key") conn)
    | Some key => if bool_decide (key ∈ keys) then next conn
                  else Some (send_error_json gzip server_name now HTTP_FORBIDDEN (str "invalid API key") conn)
    end
  else next conn.
Proof.
  intros Hks Hkey. unfold auth_middleware, guarded. destruct (_ || _); [done|]. cbn [negb].
  destruct (presented_key (conn_request conn)) as [[|c l]|] eqn:E; try done.
  pose proof (key_is_valid_spec keys (c :: l) (Hkey _ eq_refl) Hks) as Hv.
  destruct (key_is_valid keys (c :: l)) eqn:Ek; cbn [negb].
  - rewrite bool_decide_true by (by apply Hv). done.
  - rewrite bool_decide_false; [done|]. intros Hin. apply Hv in Hin. congruence.
Qed.
End guard.
