(* ===== verification/Worker.v ===== *)
(** * The worker: one connection's events (server/src/worker.c)

    [wconn] is a connection with the fields only worker.c uses, what the kernel
    will answer on its socket, and the worker's counters. Reads, writes and
    [sendfile] answer from lists and would block once these are used up; an end
    of file is answered again to every later read. [w_sent] collects the bytes
    the peer receives. [epoll_ctl] and [thread_pool_submit] answer from lists,
    success once used up. A loop with a fuel bound gives [None] when it runs
    out; [handle_client_data_total] and [handle_client_write_total] show that
    it does not. *)
From Stdlib Require Import String.
From S2P Require Import Prelude Text Json HttpTypes HttpText Connection HttpRequest HttpFrame HttpResponse WebSocket Route Selection.

Local Open Scope Z_scope.

(** ** Socket transfers *)
Inductive io_result := IO_OK | IO_WOULD_BLOCK | IO_CLOSED | IO_ERROR.

(** What [read] or [SSL_read] has for us next: bytes, end of file, EAGAIN (a
    TLS WANT error), EINTR, another failure. *)
Inductive recv_answer := RecvData (d : bytes) | RecvEof | RecvAgain | RecvIntr | RecvFail.
(** [write], [SSL_write] or [sendfile] take up to [n] bytes, or fail. *)
Inductive send_answer := SendUpTo (n : Z) | SendAgain | SendIntr | SendFail.

Record wconn := mkW {
  w_conn : connection;
  w_addr : sockaddr;
  w_proxy_done : bool;
  w_offloaded : bool;
  w_task : option handler;
  w_continue_pos : Z;
  w_continue_sent : bool;
  w_last_activity : Z;
  w_reads : list recv_answer;
  w_writes : list send_answer;
  w_sendfiles : list send_answer;
  w_file : bytes;
  w_epoll : list bool;
  w_submits : list bool;
  w_interest : Z;
  w_sent : bytes;
  w_bytes_received : Z;
  w_bytes_sent : Z;
  w_requests : Z }.
Definition set_w_conn (v : connection) (r : wconn) : wconn :=
  mkW v (w_addr r) (w_proxy_done r) (w_offloaded r) (w_task r) (w_continue_pos r)
    (w_continue_sent r) (w_last_activity r) (w_reads r) (w_writes r) (w_sendfiles r) (w_file r)
    (w_epoll r) (w_submits r) (w_interest r) (w_sent r) (w_bytes_received r) (w_bytes_sent r)
    (w_requests r).
Definition set_w_addr (v : sockaddr) (r : wconn) : wconn :=
  mkW (w_conn r) v (w_proxy_done r) (w_offloaded r) (w_task r) (w_continue_pos r)
    (w_continue_sent r) (w_last_activity r) (w_reads r) (w_writes r) (w_sendfiles r) (w_file r)
    (w_epoll r) (w_submits r) (w_interest r) (w_sent r) (w_bytes_received r) (w_bytes_sent r)
    (w_requests r).
Definition set_w_proxy_done (v : bool) (r : wconn) : wconn :=
  mkW (w_conn r) (w_addr r) v (w_offloaded r) (w_task r) (w_continue_pos r) (w_continue_sent r)
    (w_last_activity r) (w_reads r) (w_writes r) (w_sendfiles r) (w_file r) (w_epoll r)
    (w_submits r) (w_interest r) (w_sent r) (w_bytes_received r) (w_bytes_sent r) (w_requests
    r).
Definition set_w_offloaded (v : bool) (r : wconn) : wconn :=
  mkW (w_conn r) (w_addr r) (w_proxy_done r) v (w_task r) (w_continue_pos r) (w_continue_sent r)
    (w_last_activity r) (w_reads r) (w_writes r) (w_sendfiles r) (w_file r) (w_epoll r)
    (w_submits r) (w_interest r) (w_sent r) (w_bytes_received r) (w_bytes_sent r) (w_requests
    r).
Definition set_w_task (v : option handler) (r : wconn) : wconn :=
  mkW (w_conn r) (w_addr r) (w_proxy_done r) (w_offloaded r) v (w_continue_pos r)
    (w_continue_sent r) (w_last_activity r) (w_reads r) (w_writes r) (w_sendfiles r) (w_file r)
    (w_epoll r) (w_submits r) (w_interest r) (w_sent r) (w_bytes_received r) (w_bytes_sent r)
    (w_requests r).
Definition set_w_continue_pos (v : Z) (r : wconn) : wconn :=
  mkW (w_conn r) (w_addr r) (w_proxy_done r) (w_offloaded r) (w_task r) v (w_continue_sent r)
    (w_last_activity r) (w_reads r) (w_writes r) (w_sendfiles r) (w_file r) (w_epoll r)
    (w_submits r) (w_interest r) (w_sent r) (w_bytes_received r) (w_bytes_sent r) (w_requests
    r).
Definition set_w_continue_sent (v : bool) (r : wconn) : wconn :=
  mkW (w_conn r) (w_addr r) (w_proxy_done r) (w_offloaded r) (w_task r) (w_continue_pos r) v
    (w_last_activity r) (w_reads r) (w_writes r) (w_sendfiles r) (w_file r) (w_epoll r)
    (w_submits r) (w_interest r) (w_sent r) (w_bytes_received r) (w_bytes_sent r) (w_requests
    r).
Definition set_w_last_activity (v : Z) (r : wconn) : wconn :=
  mkW (w_conn r) (w_addr r) (w_proxy_done r) (w_offloaded r) (w_task r) (w_continue_pos r)
    (w_continue_sent r) v (w_reads r) (w_writes r) (w_sendfiles r) (w_file r) (w_epoll r)
    (w_submits r) (w_interest r) (w_sent r) (w_bytes_received r) (w_bytes_sent r) (w_requests
    r).
Definition set_w_reads (v : list recv_answer) (r : wconn) : wconn :=
  mkW (w_conn r) (w_addr r) (w_proxy_done r) (w_offloaded r) (w_task r) (w_continue_pos r)
    (w_continue_sent r) (w_last_activity r) v (w_writes r) (w_sendfiles r) (w_file r) (w_epoll
    r) (w_submits r) (w_interest r) (w_sent r) (w_bytes_received r) (w_bytes_sent r) (w_requests
    r).
Definition set_w_writes (v : list send_answer) (r : wconn) : wconn :=
  mkW (w_conn r) (w_addr r) (w_proxy_done r) (w_offloaded r) (w_task r) (w_continue_pos r)
    (w_continue_sent r) (w_last_activity r) (w_reads r) v (w_sendfiles r) (w_file r) (w_epoll r)
    (w_submits r) (w_interest r) (w_sent r) (w_bytes_received r) (w_bytes_sent r) (w_requests
    r).
Definition set_w_sendfiles (v : list send_answer) (r : wconn) : wconn :=
  mkW (w_conn r) (w_addr r) (w_proxy_done r) (w_offloaded r) (w_task r) (w_continue_pos r)
    (w_continue_sent r) (w_last_activity r) (w_reads r) (w_writes r) v (w_file r) (w_epoll r)
    (w_submits r) (w_interest r) (w_sent r) (w_bytes_received r) (w_bytes_sent r) (w_requests
    r).
Definition set_w_file (v : bytes) (r : wconn) : wconn :=
  mkW (w_conn r) (w_addr r) (w_proxy_done r) (w_offloaded r) (w_task r) (w_continue_pos r)
    (w_continue_sent r) (w_last_activity r) (w_reads r) (w_writes r) (w_sendfiles r) v (w_epoll
    r) (w_submits r) (w_interest r) (w_sent r) (w_bytes_received r) (w_bytes_sent r) (w_requests
    r).
Definition set_w_epoll (v : list bool) (r : wconn) : wconn :=
  mkW (w_conn r) (w_addr r) (w_proxy_done r) (w_offloaded r) (w_task r) (w_continue_pos r)
    (w_continue_sent r) (w_last_activity r) (w_reads r) (w_writes r) (w_sendfiles r) (w_file r)
    v (w_submits r) (w_interest r) (w_sent r) (w_bytes_received r) (w_bytes_sent r) (w_requests
    r).
Definition set_w_submits (v : list bool) (r : wconn) : wconn :=
  mkW (w_conn r) (w_addr r) (w_proxy_done r) (w_offloaded r) (w_task r) (w_continue_pos r)
    (w_continue_sent r) (w_last_activity r) (w_reads r) (w_writes r) (w_sendfiles r) (w_file r)
    (w_epoll r) v (w_interest r) (w_sent r) (w_bytes_received r) (w_bytes_sent r) (w_requests
    r).
Definition set_w_interest (v : Z) (r : wconn) : wconn :=
  mkW (w_conn r) (w_addr r) (w_proxy_done r) (w_offloaded r) (w_task r) (w_continue_pos r)
    (w_continue_sent r) (w_last_activity r) (w_reads r) (w_writes r) (w_sendfiles r) (w_file r)
    (w_epoll r) (w_submits r) v (w_sent r) (w_bytes_received r) (w_bytes_sent r) (w_requests r).
Definition set_w_sent (v : bytes) (r : wconn) : wconn :=
  mkW (w_conn r) (w_addr r) (w_proxy_done r) (w_offloaded r) (w_task r) (w_continue_pos r)
    (w_continue_sent r) (w_last_activity r) (w_reads r) (w_writes r) (w_sendfiles r) (w_file r)
    (w_epoll r) (w_submits r) (w_interest r) v (w_bytes_received r) (w_bytes_sent r) (w_requests
    r).
Definition set_w_bytes_received (v : Z) (r : wconn) : wconn :=
  mkW (w_conn r) (w_addr r) (w_proxy_done r) (w_offloaded r) (w_task r) (w_continue_pos r)
    (w_continue_sent r) (w_last_activity r) (w_reads r) (w_writes r) (w_sendfiles r) (w_file r)
    (w_epoll r) (w_submits r) (w_interest r) (w_sent r) v (w_bytes_sent r) (w_requests r).
Definition set_w_bytes_sent (v : Z) (r : wconn) : wconn :=
  mkW (w_conn r) (w_addr r) (w_proxy_done r) (w_offloaded r) (w_task r) (w_continue_pos r)
    (w_continue_sent r) (w_last_activity r) (w_reads r) (w_writes r) (w_sendfiles r) (w_file r)
    (w_epoll r) (w_submits r) (w_interest r) (w_sent r) (w_bytes_received r) v (w_requests r).
Definition set_w_requests (v : Z) (r : wconn) : wconn :=
  mkW (w_conn r) (w_addr r) (w_proxy_done r) (w_offloaded r) (w_task r) (w_continue_pos r)
    (w_continue_sent r) (w_last_activity r) (w_reads r) (w_writes r) (w_sendfiles r) (w_file r)
    (w_epoll r) (w_submits r) (w_interest r) (w_sent r) (w_bytes_received r) (w_bytes_sent r) v.
(** Outcome, bytes received, what is left to be read. TLS reports a closed
    session or an interrupted call as an error. *)
Fixpoint recv_from (tls : bool) (reads : list recv_answer) (len : Z) : io_result * bytes * list recv_answer :=
  match reads with
  | [] => (IO_WOULD_BLOCK, [], [])
  | RecvAgain :: reads' => (IO_WOULD_BLOCK, [], reads')
  | RecvIntr :: reads' => if tls then (IO_ERROR, [], reads') else recv_from tls reads' len
  | RecvFail :: reads' => (IO_ERROR, [], reads')
  | RecvEof :: _ => (if tls then IO_ERROR else IO_CLOSED, [], reads)
  | RecvData d :: reads' =>
      if zlen (ztake len d) =? 0 then (if tls then IO_ERROR else IO_CLOSED, [], reads)
      else (IO_OK, ztake len d, match zdrop len d with [] => reads' | d' => RecvData d' :: reads' end)
  end.
Definition conn_recv (len : Z) (w : wconn) : io_result * bytes * wconn :=
  let '(r, d, reads) := recv_from (ssl_enabled (w_conn w)) (w_reads w) len in (r, d, set_w_reads reads w).

(** Outcome, number of bytes taken, answers left. *)
Fixpoint send_to (tls : bool) (writes : list send_answer) (len : Z) : io_result * Z * list send_answer :=
  match writes with
  | [] => (IO_WOULD_BLOCK, 0, [])
  | SendAgain :: writes' => (IO_WOULD_BLOCK, 0, writes')
  | SendIntr :: writes' => if tls then (IO_ERROR, 0, writes') else send_to tls writes' len
  | SendFail :: writes' => (IO_ERROR, 0, writes')
  | SendUpTo n :: writes' => if Z.min n len <=? 0 then (IO_ERROR, 0, writes') else (IO_OK, Z.min n len, writes')
  end.
Definition conn_send (buf : bytes) (w : wconn) : io_result * Z * wconn :=
  let '(r, n, writes) := send_to (ssl_enabled (w_conn w)) (w_writes w) (zlen buf) in
  (r, n, set_w_sent (w_sent w ++ ztake n buf) (set_w_writes writes w)).

Definition conn_consume_read (len : Z) (w : wconn) : wconn :=
  set_w_conn (set_conn_rbuf (zdrop len (conn_rbuf (w_conn w))) (w_conn w)) w.

Definition EPOLLIN : Z := 1.
Definition EPOLLOUT : Z := 4.
Definition EPOLLET : Z := 2 ^ 31.
Definition arm_socket (events : Z) (w : wconn) : Z * wconn :=
  let '(ok, l) := match w_epoll w with [] => (true, []) | b :: l => (b, l) end in
  if ok : bool then (0, set_w_interest events (set_w_epoll l w)) else (-1, set_w_epoll l w).

(** ** The PROXY header *)
(** [sscanf]'s [%u]: white space, a sign, digits; glibc saturates at
    [ULONG_MAX] and keeps 32 bits. *)
Definition scan_unsigned (l : bytes) : option (Z * bytes) :=
  let l := skip_spaces l in
  let '(neg, l) := match l with 45 :: l' => (true, l') | 43 :: l' => (false, l') | _ => (false, l) end in
  match span_digits l with
  | ([], _) => None
  | (ds, rest) =>
      let v := digits_value ds in
      Some (u32 (if v >? UINT64_MAX then UINT64_MAX else if neg : bool then u64 (- v) else v), rest)
  end.

(** What the worker reads of the server's configuration. *)
Record config := mkConfig {
  max_request_size : Z; trust_proxy_protocol : bool; enable_keepalive : bool;
  srv_routes : list (route (option handler)); srv_default : option handler;
  srv_middlewares : list middleware; srv_pool : bool; srv_running : bool }.

Section worker.
Context (gzip : bytes -> option bytes) (server_name : bytes) (now : Z).
(** [inet_pton] for the two families. *)
Context (inet_pton4 inet_pton6 : bytes -> option bytes).

Definition net_addr_from_str (addr : bytes) : option sockaddr :=
  match inet_pton4 addr with
  | Some a => Some (AF_INET a)
  | None => AF_INET6 <$> inet_pton6 addr
  end.

(** The five fields of "PROXY %7s %45s %45s %u %u" behind the literal, when all
    are there. *)
Definition scan_proxy (l : bytes) : option (bytes * bytes * Z) :=
  '(proto, l) ← scan_word 7 l; '(src, l) ← scan_word 45 l; '(_, l) ← scan_word 45 l;
  '(sport, l) ← scan_unsigned l; '(_, _) ← scan_unsigned l; Some (proto, src, sport).

Definition PROXY_MAX : Z := 108.
Definition consume_proxy_header (w : wconn) : Z * wconn :=
  let buf := conn_rbuf (w_conn w) in
  let avail := zlen buf in
  if avail <? 6 then (if bool_decide (ztake avail (str "PROXY ") = buf) then 0 else -1, w) else
  if negb (starts_with (str "PROXY ") buf) then (-1, w) else
  match split_at 10 (ztake PROXY_MAX buf) with
  | None => (if avail >=? PROXY_MAX then -1 else 0, w)
  | Some (text, _) =>
      let line_len := zlen text + 1 in
      let line := cstr (strip_cr text) in
      if zlen (strip_cr text) >=? 128 then (-1, w) else
      match scan_proxy (zdrop 5 line) with
      | Some (proto, src, sport) =>
          if (streq proto (str "TCP4") || streq proto (str "TCP6")) && (sport <=? 65535) then
            let w := match net_addr_from_str src with Some a => set_w_addr a w | None => w end in
            (1, conn_consume_read line_len w)
          else if starts_with (str "PROXY UNKNOWN") line then (1, conn_consume_read line_len w) else (-1, w)
      | None => if starts_with (str "PROXY UNKNOWN") line then (1, conn_consume_read line_len w) else (-1, w)
      end
  end.

(** ** Finishing a request *)
Context (cfg : config).

Definition STORAGE_PRIORITY_WRITE : Z := 0.
Definition STORAGE_PRIORITY_READ : Z := 1.
Definition request_priority (request : http_request) : Z :=
  match req_method request with
  | HTTP_GET | HTTP_HEAD => STORAGE_PRIORITY_READ
  | _ => STORAGE_PRIORITY_WRITE
  end.

Definition map_conn (f : connection -> connection) (w : wconn) : wconn := set_w_conn (f (w_conn w)) w.

Definition finalize_response (w : wconn) : Z * wconn :=
  let w := set_w_requests (u64 (w_requests w + 1)) w in
  arm_socket (Z.lor EPOLLOUT EPOLLET) (map_conn (set_conn_state CONN_STATE_WRITING_RESPONSE) w).

Definition send_error (status : Z) (message : bytes) (w : wconn) : wconn :=
  set_w_conn (send_error_response gzip server_name now status message (w_conn w)).2 w.

Definition reject_request (status : Z) (message : bytes) (w : wconn) : Z * wconn :=
  finalize_response (map_conn (set_conn_rbuf []) (send_error status message w)).

(** The handler and, when it failed without staging anything, a 500. *)
Definition run_handler (h : handler) (w : wconn) : option wconn :=
  '(rc, c) ← run_with_middleware (srv_middlewares cfg) h (w_conn w);
  let w := set_w_conn c w in
  Some (if negb (rc =? 0) && (zlen (conn_wbuf c) =? 0)
        then send_error HTTP_INTERNAL_SERVER_ERROR (str "Handler error") w else w).

(** On a pool thread, for a connection handed over with [w_task]. *)
Definition run_offloaded_handler (w : wconn) : option wconn :=
  h ← w_task w;
  w ← run_handler h (set_w_task None w);
  let w := set_w_requests (u64 (w_requests w + 1)) w in
  let w := map_conn (set_conn_state CONN_STATE_WRITING_RESPONSE) (set_w_last_activity now w) in
  Some (arm_socket (Z.lor EPOLLOUT EPOLLET) (set_w_offloaded false w)).2.

(** ** Reading *)
Definition INTERIM : bytes := str "HTTP/1.1 100 Continue" ++ CRLF ++ CRLF.

Fixpoint continue_loop (fuel : nat) (w : wconn) : option (Z * wconn) :=
  if w_continue_pos w <? zlen INTERIM then
    match fuel with
    | O => None
    | S fuel' =>
        match conn_send (zdrop (w_continue_pos w) INTERIM) w with
        | (IO_WOULD_BLOCK, _, w) => Some (0, w)
        | (IO_OK, sent, w) => continue_loop fuel' (set_w_continue_pos (w_continue_pos w + sent) w)
        | (_, _, w) => Some (-1, w)
        end
    end
  else Some (0, set_w_continue_sent true w).
Definition send_100_continue (w : wconn) : option (Z * wconn) := continue_loop (S (length (w_writes w))) w.

(** Bytes just read, with the worker's accounting. *)
Definition received (d : bytes) (w : wconn) : wconn :=
  let w := map_conn (fun c => set_conn_rbuf (conn_rbuf c ++ d) c) w in
  set_w_last_activity now (set_w_bytes_received (u64 (w_bytes_received w + zlen d)) w).

Definition read_full (w : wconn) : bool :=
  zlen (conn_rbuf (w_conn w)) >=? u64 (read_buffer_cap (w_conn w) - 1).
Definition read_room (w : wconn) : Z := u64 (read_buffer_cap (w_conn w) - zlen (conn_rbuf (w_conn w)) - 1).

(** rc, [buffer_full], [peer_closed]. *)
Fixpoint drain_loop (fuel : nat) (w : wconn) : option (Z * bool * bool * wconn) :=
  match fuel with
  | O => None
  | S fuel' =>
      let '(ok, w) := if read_full w
                      then let '(ok, c) := conn_reserve_read (u64 (read_buffer_cap (w_conn w) * 2)) (max_request_size cfg) (w_conn w) in
                           (ok, set_w_conn c w)
                      else (true, w) in
      if negb ok then Some (0, true, false, w) else
      match conn_recv (read_room w) w with
      | (IO_WOULD_BLOCK, _, w) => Some (0, false, false, w)
      | (IO_CLOSED, _, w) => if zlen (conn_rbuf (w_conn w)) >? 0 then Some (0, false, true, w) else Some (-1, false, false, w)
      | (IO_ERROR, _, w) => Some (-1, false, false, w)
      | (IO_OK, d, w) => drain_loop fuel' (received d w)
      end
  end.
(** Every round reads a byte or ends. *)
Fixpoint recv_size (reads : list recv_answer) : nat :=
  match reads with
  | [] => O
  | RecvData d :: reads' => S (length d + recv_size reads')
  | _ :: reads' => S (recv_size reads')
  end.
Definition drain_socket_reads (w : wconn) : option (Z * bool * bool * wconn) := drain_loop (S (recv_size (w_reads w))) w.

(** The inner loop of [handle_websocket_data]: rc and [drained]. *)
Fixpoint ws_fill_loop (fuel : nat) (w : wconn) : option (Z * bool * wconn) :=
  match fuel with
  | O => None
  | S fuel' =>
      if read_full w then Some (0, false, w) else
      match conn_recv (read_room w) w with
      | (IO_WOULD_BLOCK, _, w) => Some (0, true, w)
      | (IO_OK, d, w) => ws_fill_loop fuel' (received d w)
      | (_, _, w) => Some (-1, false, w)
      end
  end.
Definition ws_fill (w : wconn) : option (Z * bool * wconn) := ws_fill_loop (S (recv_size (w_reads w))) w.

(** The outer loop: rc and [should_close]. *)
Fixpoint ws_data_loop (fuel : nat) (w : wconn) : option (Z * bool * wconn) :=
  match fuel with
  | O => None
  | S fuel' =>
      '(rc, drained, w) ← ws_fill w;
      if negb (rc =? 0) then Some (-1, false, w) else
      '(should_close, c) ← ws_process_frames (w_conn w);
      let w := set_w_conn c w in
      if should_close : bool then Some (0, true, w) else
      if drained : bool then Some (0, false, w) else
      if read_full w then Some (0, true, w) else ws_data_loop fuel' w
  end.

Definition handle_websocket_data (w : wconn) : option (Z * wconn) :=
  '(rc, should_close, w) ← ws_data_loop (S (S (recv_size (w_reads w)))) w;
  if negb (rc =? 0) then Some (-1, w) else
  if zlen (conn_wbuf (w_conn w)) >? 0 then
    let w := map_conn (fun c => set_conn_state CONN_STATE_WRITING_RESPONSE
               (set_websocket_closing should_close (set_write_buffer_pos 0 c))) w in
    let '(rc, w) := arm_socket (Z.lor EPOLLOUT EPOLLET) w in
    Some (if rc <? 0 then -1 else 0, w)
  else Some (if should_close : bool then -1 else 0, w).

(** ** Dispatch *)
(** True once the pool owns the connection; [malloc]'s answer is taken from the
    connection's list. *)
Definition dispatch_offloaded (h : handler) (w : wconn) : bool * wconn :=
  let '(ok, c) := conn_next_malloc (w_conn w) in
  let w := set_w_conn c w in
  if negb ok then (false, w) else
  let w := (arm_socket EPOLLET (set_w_offloaded true w)).2 in
  let '(ok, l) := match w_submits w with [] => (true, []) | b :: l => (b, l) end in
  let w := set_w_submits l w in
  if ok : bool then (true, set_w_task (Some h) w) else (false, set_w_offloaded false w).

Definition respond (h : option handler) (w : wconn) : option (Z * wconn) :=
  w ← match h with
      | Some h => run_handler h w
      | None => Some (send_error HTTP_NOT_FOUND (str "Not Found") w)
      end;
  Some (finalize_response w).

(** From a complete request of [n] bytes. *)
Definition dispatch_request (n : Z) (w : wconn) : option (Z * wconn) :=
  let w := map_conn (set_conn_state CONN_STATE_PROCESSING) w in
  '(parse_result, c) ← parse_http_request n (w_conn w);
  let w := set_w_conn c w in
  if parse_result =? -2
  then Some (reject_request HTTP_INTERNAL_SERVER_ERROR (str "Internal Server Error") w) else
  if negb (parse_result =? 0) then Some (reject_request HTTP_BAD_REQUEST (str "Bad Request") w) else
  let w := conn_consume_read n w in
  let request := conn_request (w_conn w) in
  let '(h, offload) := resolve_handler (req_uri request) (req_method request) (srv_routes cfg) (srv_default cfg) in
  match h with
  | Some f =>
      if offload && srv_pool cfg && srv_running cfg then
        let '(owned, w) := dispatch_offloaded f w in
        if owned : bool then Some (0, w) else respond h w
      else respond h w
  | None => respond h w
  end.

(** The part of [handle_client_data] behind the PROXY header. *)
Definition frame_request (buffer_full peer_closed : bool) (w : wconn) : option (Z * wconn) :=
  '(frame, expect_100) ← check_request_frame (conn_rbuf (w_conn w)) (max_request_size cfg);
  match frame with
  | FrameMore =>
      if buffer_full then Some (reject_request HTTP_PAYLOAD_TOO_LARGE (str "Request too large") w) else
      if peer_closed then Some (-1, w) else
      if (expect_100 : bool) && negb (w_continue_sent w) then
        '(rc, w) ← send_100_continue w; Some (if rc =? 0 then 0 else -1, w)
      else Some (0, w)
  | FrameUnsupported => Some (reject_request HTTP_NOT_IMPLEMENTED (str "Unsupported Transfer-Encoding") w)
  | FrameTooLarge => Some (reject_request HTTP_PAYLOAD_TOO_LARGE (str "Request too large") w)
  | FrameBad => Some (reject_request HTTP_BAD_REQUEST (str "Bad Request") w)
  | FrameOk n =>
      if (w_continue_pos w >? 0) && negb (w_continue_sent w) then
        '(rc, w) ← send_100_continue w;
        if negb (rc =? 0) || negb (w_continue_sent w) then Some (-1, w) else dispatch_request n w
      else dispatch_request n w
  end.

Definition handle_client_data (w : wconn) : option (Z * wconn) :=
  let '(ok, c) := conn_ensure_buffers (w_conn w) in
  let w := set_w_conn c w in
  if negb ok then Some (-1, w) else
  match conn_state c with
  | CONN_STATE_WEBSOCKET => handle_websocket_data w
  | _ =>
      '(rc, buffer_full, peer_closed, w) ← drain_socket_reads w;
      if negb (rc =? 0) then Some (-1, w) else
      if trust_proxy_protocol cfg && negb (w_proxy_done w) then
        let '(pr, w) := consume_proxy_header w in
        if pr <? 0 then Some (-1, w) else
        if pr =? 0 then Some (if peer_closed : bool then -1 else 0, w) else
        frame_request buffer_full peer_closed (set_w_proxy_done true w)
      else frame_request buffer_full peer_closed w
  end.

(** ** Writing *)
Fixpoint flush_loop (fuel : nat) (w : wconn) : option (Z * wconn) :=
  let c := w_conn w in
  if write_buffer_pos c <? zlen (conn_wbuf c) then
    match fuel with
    | O => None
    | S fuel' =>
        match conn_send (zdrop (write_buffer_pos c) (conn_wbuf c)) w with
        | (IO_WOULD_BLOCK, _, w) => Some (1, w)
        | (IO_OK, written, w) =>
            let w := map_conn (set_write_buffer_pos (write_buffer_pos c + written)) w in
            flush_loop fuel' (set_w_bytes_sent (u64 (w_bytes_sent w + written)) (set_w_last_activity now w))
        | (_, _, w) => Some (-1, w)
        end
    end
  else Some (0, w).
Definition flush_write_buffer (w : wconn) : option (Z * wconn) := flush_loop (S (length (w_writes w))) w.

(** [sendfile] moves at most what the file still has behind the offset. *)
Fixpoint stream_loop (files : list send_answer) (w : wconn) : Z * wconn :=
  let c := w_conn w in
  if file_offset c <? file_size c then
    match files with
    | [] => (1, set_w_sendfiles [] w)
    | SendAgain :: files' => (1, set_w_sendfiles files' w)
    | SendIntr :: files' => stream_loop files' w
    | SendFail :: files' => (-1, set_w_sendfiles files' w)
    | SendUpTo n :: files' =>
        let d := ztake (Z.min n (file_size c - file_offset c)) (zdrop (file_offset c) (w_file w)) in
        if zlen d =? 0 then (-1, set_w_sendfiles files' w) else
        let w := map_conn (set_file_offset (file_offset c + zlen d)) (set_w_sent (w_sent w ++ d) w) in
        stream_loop files' (set_w_bytes_sent (u64 (w_bytes_sent w + zlen d)) (set_w_last_activity now w))
    end
  else (0, map_conn (fun c => set_file_fd (-1) (set_file_offset 0 (set_file_size 0 c))) (set_w_sendfiles files w)).
Definition stream_queued_file (w : wconn) : Z * wconn := stream_loop (w_sendfiles w) w.

Definition reset_for_next_request (w : wconn) : wconn :=
  let w := map_conn (fun c => set_conn_state CONN_STATE_READING_REQUEST (set_conn_wbuf [] (set_write_buffer_pos 0 c))) w in
  let w := set_w_continue_sent false (set_w_continue_pos 0 w) in
  let w := map_conn (fun c => set_conn_request request_zero (set_conn_response response_zero c)) w in
  if zlen (conn_rbuf (w_conn w)) =? 0 then map_conn conn_release_idle w else w.

Definition handle_client_write (w : wconn) : option (Z * wconn) :=
  match conn_state (w_conn w) with
  | CONN_STATE_WRITING_RESPONSE =>
      '(flushed, w) ← flush_write_buffer w;
      if negb (flushed =? 0) then Some (if flushed <? 0 then -1 else 0, w) else
      let '(streamed, w) := if file_fd (w_conn w) >=? 0 then stream_queued_file w else (0, w) in
      if negb (streamed =? 0) then Some (if streamed <? 0 then -1 else 0, w) else
      let c := w_conn w in
      if websocket_handshake_complete c then
        if websocket_closing c then Some (-1, w) else
        let w := map_conn (fun c => set_conn_wbuf [] (set_write_buffer_pos 0 (set_conn_state CONN_STATE_WEBSOCKET c))) w in
        let '(rc, w) := arm_socket (Z.lor EPOLLIN EPOLLET) w in
        Some (if rc <? 0 then -1 else 0, w)
      else
      if negb (req_keep_alive (conn_request c)) || negb (resp_keep_alive (conn_response c)) || negb (enable_keepalive cfg)
      then Some (-1, w) else
      let w := reset_for_next_request w in
      let '(rc, w) := arm_socket (Z.lor EPOLLIN EPOLLET) w in
      if rc <? 0 then Some (-1, w) else
      if zlen (conn_rbuf (w_conn w)) >? 0 then handle_client_data w else Some (0, w)
  | _ => Some (-1, w)
  end.

Definition EPOLLERR : Z := 8.
Definition EPOLLHUP : Z := 16.
(** One event of the worker's loop; the flag tells that the connection is to be
    dropped. *)
Definition dispatch_connection_event (events : Z) (w : wconn) : option (bool * wconn) :=
  if w_offloaded w then Some (false, w) else
  if negb (Z.land events (Z.lor EPOLLERR EPOLLHUP) =? 0) then Some (true, w) else
  '(rc, w) ← (if negb (Z.land events EPOLLIN =? 0) then handle_client_data w else Some (0, w));
  if negb (rc =? 0) then Some (true, w) else
  if w_offloaded w then Some (false, w) else
  '(rc, w) ← (if negb (Z.land events EPOLLOUT =? 0) then handle_client_write w else Some (0, w));
  Some (negb (rc =? 0), w).
End worker.
