(* ===== verification/WorkerProofs.v ===== *)
(** * The worker's loops: termination, delivery, pipelining

    Facts about worker.c: the read and write loops end and move exactly the
    bytes the socket moves; a request that is still arriving only accumulates;
    pipelined requests are answered in order. *)
From S2P Require Import Prelude Text Json HttpTypes HttpText Connection HttpRequest HttpFrame HttpResponse WebSocket Route Selection Worker.

Local Open Scope Z_scope.

(** ** Transfers *)
Lemma recv_from_spec tls reads len r d reads' :
  recv_from tls reads len = (r, d, reads') ->
  (r = IO_OK -> d <> [] /\ zlen d <= len /\ (recv_size reads' < recv_size reads)%nat) /\ (r <> IO_OK -> d = []).
Proof.
  induction reads as [|a reads IH]; cbn [recv_from]; [by intros [= <- <- <-]|].
  destruct a as [x| | | |]; try (by destruct tls; intros [= <- <- <-]).
  - destruct (Z.eqb_spec (zlen (ztake len x)) 0) as [E|E]; [by destruct tls; intros [= <- <- <-]|].
    intros [= <- <- <-]. split; [|done]. intros _. rewrite zlen_ztake in *. pose proof (zlen_nonneg x).
    split; [intros Hn; assert (zlen (ztake len x) = 0) as Hz by (by rewrite Hn); rewrite zlen_ztake in Hz; lia|].
    split; [lia|]. pose proof (zlen_zdrop len x) as Hz. unfold zlen in *.
    destruct (zdrop len x); cbn [recv_size length] in *; lia.
  - destruct tls; [by intros [= <- <- <-]|]. intros E. destruct (IH E) as [H1 H2]. split; [|done].
    intros Hr. destruct (H1 Hr) as (? & ? & ?). split_and!; try done. cbn [recv_size]. lia.
Qed.

Lemma send_to_spec tls writes len r n writes' :
  send_to tls writes len = (r, n, writes') ->
  (r = IO_OK -> 0 < n <= len) /\ (r <> IO_OK -> n = 0) /\
  ((length writes' < length writes)%nat \/ r = IO_WOULD_BLOCK /\ writes' = writes).
Proof.
  induction writes as [|a writes IH]; cbn [send_to]; [intros [= <- <- <-]; split_and!; [done|done|by right]|].
  destruct a as [x| | |]; try (intros [= <- <- <-]; cbn; split_and!; [done|done|left; lia]).
  - destruct (Z.leb_spec (Z.min x len) 0); intros [= <- <- <-]; cbn; split_and!; try done; try lia; left; lia.
  - destruct tls; [intros [= <- <- <-]; cbn; split_and!; [done|done|left; lia]|].
    intros E. destruct (IH E) as (H1 & H2 & [H3|[-> ->]]); split_and!; try done; left; cbn; lia.
Qed.

(** What only the write half of worker.c changes, and what only the read half does. *)
Definition w_read_rest (w : wconn) :=
  (w_addr w, w_proxy_done w, (w_offloaded w, w_task w), (w_continue_pos w, w_continue_sent w),
   (w_writes w, w_sendfiles w, w_file w), (w_epoll w, w_submits w, w_interest w), w_sent w, w_bytes_sent w, w_requests w).
Definition w_write_rest (w : wconn) :=
  (w_addr w, w_proxy_done w, (w_offloaded w, w_task w), w_reads w, (w_epoll w, w_submits w, w_interest w),
   w_bytes_received w, w_requests w).

(** ** Writing: every byte once, in order *)
(** What is still to be sent of the staged bytes. *)
Definition pending (w : wconn) : bytes := zdrop (write_buffer_pos (w_conn w)) (conn_wbuf (w_conn w)).

Lemma conn_send_spec buf w r n w' :
  conn_send buf w = (r, n, w') ->
  w_conn w' = w_conn w /\ w_sent w' = w_sent w ++ ztake n buf /\ w_write_rest w' = w_write_rest w /\
  w_bytes_sent w' = w_bytes_sent w /\ (w_continue_pos w', w_continue_sent w') = (w_continue_pos w, w_continue_sent w) /\
  (w_sendfiles w', w_file w') = (w_sendfiles w, w_file w) /\
  (r = IO_OK -> 0 < n <= zlen buf /\ (length (w_writes w') < length (w_writes w))%nat) /\ (r <> IO_OK -> n = 0).
Proof.
  unfold conn_send. destruct (send_to (ssl_enabled (w_conn w)) (w_writes w) (zlen buf)) as [[r1 n1] wr] eqn:E.
  destruct (send_to_spec _ _ _ _ _ _ E) as (H1 & H2 & H3). intros [= <- <- <-]. split_and!; try done.
  intros ->. split; [by apply H1|]. by destruct H3 as [?|[? _]].
Qed.

Section flush.
Context (now : Z).

Record flushed (w : wconn) (rc : Z) (w' : wconn) : Prop := {
  fl_conn : exists p, w_conn w' = set_write_buffer_pos p (w_conn w) /\ write_buffer_pos (w_conn w) <= p /\
              (p <= zlen (conn_wbuf (w_conn w)) \/ p = write_buffer_pos (w_conn w));
  fl_bytes : w_sent w' ++ pending w' = w_sent w ++ pending w;
  fl_rest : w_write_rest w' = w_write_rest w;
  fl_continue : (w_continue_pos w', w_continue_sent w') = (w_continue_pos w, w_continue_sent w);
  fl_files : (w_sendfiles w', w_file w') = (w_sendfiles w, w_file w);
  fl_done : rc = 0 <-> zlen (conn_wbuf (w_conn w)) <= write_buffer_pos (w_conn w');
  fl_rc : rc = 0 \/ rc = 1 \/ rc = -1 }.

Lemma flush_loop_spec fuel w :
  0 <= write_buffer_pos (w_conn w) -> (length (w_writes w) < fuel)%nat ->
  exists rc w', flush_loop now fuel w = Some (rc, w') /\ flushed w rc w'.
Proof using.
  revert w. induction fuel as [|fuel IH]; intros w Hp Hf; [lia|]. cbn [flush_loop].
  destruct (Z.ltb_spec (write_buffer_pos (w_conn w)) (zlen (conn_wbuf (w_conn w)))) as [Hlt|Hge].
  2:{ exists 0, w. split; [done|]. constructor; try done; [|lia].
      exists (write_buffer_pos (w_conn w)). destruct w as [[] ]. split; [done|]. split; [done|by right]. }
  destruct (conn_send (zdrop (write_buffer_pos (w_conn w)) (conn_wbuf (w_conn w))) w) as [[r n] w1] eqn:E.
  destruct (conn_send_spec _ _ _ _ _ E) as (Hc & Hs & Hw & Hb & Hcon & Hfi & Hok & Hno).
  assert (forall rc, r <> IO_OK -> rc = 1 \/ rc = -1 -> flushed w rc w1) as Hstop.
  { intros rc Hr Hrc. specialize (Hno Hr). subst n. rewrite ztake_0, app_nil_r in Hs. constructor; try done.
    - exists (write_buffer_pos (w_conn w)). rewrite Hc. destruct w as [[] ]. split; [done|]. split; [done|by right].
    - unfold pending. by rewrite Hs, Hc.
    - rewrite Hc. lia.
    - auto. }
  destruct r; [|exists 1, w1; auto|exists (-1), w1; auto|exists (-1), w1; auto].
  destruct (Hok eq_refl) as [Hn Hlen]. rewrite zlen_zdrop in Hn.
  set (w2 := set_w_bytes_sent _ _).
  destruct (IH w2) as (rc & w' & E' & F).
  { subst w2. cbn. lia. }
  { subst w2. cbn. lia. }
  exists rc, w'. split; [exact E'|]. destruct F as [(p & Fc & Fp & Fq) Fb Fr Fk Ff Fd Frc].
  subst w2. cbn in Fc, Fp, Fq, Fb, Fr, Fk, Ff, Fd. rewrite Hc in Fc, Fq, Fd. constructor; try done.
  - exists p. rewrite Fc. destruct (w_conn w); cbn in *. split; [done|]. lia.
  - rewrite Fb, Hs, <- app_assoc. f_equal. unfold pending. cbn. rewrite Hc. cbn.
    rewrite <- zdrop_zdrop by lia. by rewrite ztake_zdrop.
  - by rewrite Fr, <- Hw.
  - by rewrite Fk, <- Hcon.
  - by rewrite Ff, <- Hfi.
Qed.

Lemma flush_write_buffer_spec w :
  0 <= write_buffer_pos (w_conn w) -> exists rc w', flush_write_buffer now w = Some (rc, w') /\ flushed w rc w'.
Proof using. intros Hp. apply flush_loop_spec; [done|lia]. Qed.
End flush.

(** ** Reading: what arrives is appended *)
(** The bytes the peer has sent and nobody has read yet. *)
Fixpoint recv_bytes (reads : list recv_answer) : bytes :=
  match reads with
  | [] => []
  | RecvData d :: reads' => d ++ recv_bytes reads'
  | _ :: reads' => recv_bytes reads'
  end.

Lemma recv_from_bytes tls reads len r d reads' :
  recv_from tls reads len = (r, d, reads') -> recv_bytes reads = d ++ recv_bytes reads'.
Proof.
  induction reads as [|a reads IH]; cbn [recv_from]; [by intros [= <- <- <-]|].
  destruct a as [x| | | |]; try (by destruct tls; intros [= <- <- <-]).
  - destruct (_ =? 0); [by destruct tls; intros [= <- <- <-]|]. intros [= <- <- <-]. cbn [recv_bytes].
    rewrite <- (ztake_zdrop len x) at 1. rewrite <- app_assoc. f_equal. by destruct (zdrop len x).
  - destruct tls; [by intros [= <- <- <-]|]. apply IH.
Qed.

Lemma conn_recv_spec len w r d w' :
  conn_recv len w = (r, d, w') ->
  w_conn w' = w_conn w /\ w_read_rest w' = w_read_rest w /\ recv_bytes (w_reads w) = d ++ recv_bytes (w_reads w') /\
  (r = IO_OK -> d <> [] /\ zlen d <= len /\ (recv_size (w_reads w') < recv_size (w_reads w))%nat) /\ (r <> IO_OK -> d = []).
Proof.
  unfold conn_recv. destruct (recv_from (ssl_enabled (w_conn w)) (w_reads w) len) as [[r1 d1] rd] eqn:E.
  destruct (recv_from_spec _ _ _ _ _ _ E) as [H1 H2]. apply recv_from_bytes in E. intros [= <- <- <-]. done.
Qed.

Definition READ_MAX : Z := 4611686018427387904.

(** The read buffer of [c'] holds [b] and is no smaller; the rest is that of [c]. *)
Record buffered (c c' : connection) (b : bytes) : Prop := {
  bf_shape : exists a cap m, c' = set_conn_malloc m (set_read a b cap c) /\ read_buffer_cap c <= cap <= READ_MAX /\
               (conn_read_alloc c = true -> a = true);
  bf_ok : conn_ok c';
  bf_mallocs : mallocs_ok c -> mallocs_ok c' }.

Lemma buffered_refl c : conn_ok c -> read_buffer_cap c <= READ_MAX -> buffered c c (conn_rbuf c).
Proof.
  intros Hok Hc. constructor; try done. exists (conn_read_alloc c), (read_buffer_cap c), (conn_malloc c).
  destruct c; done.
Qed.

Lemma buffered_trans c c1 c2 b1 b2 : buffered c c1 b1 -> buffered c1 c2 b2 -> buffered c c2 b2.
Proof.
  intros [(a1 & cap1 & m1 & -> & Hc1 & Ha1) _ Hm1] [(a2 & cap2 & m2 & -> & Hc2 & Ha2) Hok2 Hm2].
  constructor; [|done|auto]. exists a2, cap2, m2. destruct c; cbn in *. split; [done|]. split; [lia|]. auto.
Qed.

Lemma conn_reserve_read_grow need max c ok c' :
  conn_ok c -> read_buffer_cap c <= READ_MAX -> 0 <= max <= READ_MAX -> read_buffer_cap c <= need ->
  conn_reserve_read need max c = (ok, c') ->
  buffered c c' (conn_rbuf c) /\ (ok = true -> need <= read_buffer_cap c').
Proof.
  intros Hok Hcap Hmax Hneed. pose proof (buffered_refl c Hok Hcap) as Hr. unfold conn_reserve_read.
  destruct (Z.gtb_spec need max) as [Hgt|Hle]; [by intros [= <- <-]|].
  destruct (conn_read_alloc c && (read_buffer_cap c >=? need)) eqn:Eg.
  { intros [= <- <-]. split; [done|]. intros _. apply andb_true_iff in Eg as [_ Eg]. lia. }
  destruct (conn_next_malloc c) as [b c1] eqn:Em.
  destruct (conn_next_malloc_spec _ _ _ Em) as (Hms & Hrb & Hwb & Hrc & Hwc & Hwp & Hra & Hwa).
  assert (exists m, c1 = set_conn_malloc m c) as [m ->].
  { unfold conn_next_malloc in Em. destruct (conn_malloc c) as [|x l] eqn:El; injection Em as <- <-.
    - exists []. destruct c; cbn in *; by subst.
    - by exists l. }
  destruct Hok as [H1 H2 H3 H4 H5]. pose proof (zlen_nonneg (conn_rbuf c)).
  assert (need <= grow_to (read_buffer_cap c) need) as Hg by (apply grow_to_spec; unfold READ_MAX in *; lia).
  set (cap := if _ >? _ then _ else _). assert (need <= cap <= max) as Hcp.
  { subst cap. destruct (Z.gtb_spec (grow_to (read_buffer_cap c) need) max); lia. }
  destruct b; cbn [negb]; intros [= <- <-].
  - split; [|cbn; lia]. constructor.
    + exists true, cap, m. destruct c; cbn in *. split; [done|]. split; [lia|done].
    + constructor; cbn; try done. lia.
    + unfold mallocs_ok in *. intros HF. destruct (Hms HF) as [_ HF']. exact HF'.
  - split; [|done]. constructor.
    + exists (conn_read_alloc c), (read_buffer_cap c), m. destruct c; cbn in *. split; [done|]. split; [lia|done].
    + constructor; cbn; done.
    + intros HF. by destruct (Hms HF) as [? _].
Qed.

Section drain.
Context (now : Z) (cfg : config).
Hypothesis max_size : 0 <= max_request_size cfg <= READ_MAX.

(** A buffer in use: allocated, with room for the NUL, of a size that doubles
    without overflow. *)
Definition read_ready (c : connection) : Prop := conn_ok c /\ 2 <= read_buffer_cap c <= READ_MAX.

Record drained (w w' : wconn) (got : bytes) : Prop := {
  dr_conn : buffered (w_conn w) (w_conn w') (conn_rbuf (w_conn w) ++ got);
  dr_bytes : recv_bytes (w_reads w) = got ++ recv_bytes (w_reads w');
  dr_rest : w_read_rest w' = w_read_rest w }.

Lemma drained_refl w : read_ready (w_conn w) -> drained w w [].
Proof using. intros [Hok Hc]. constructor; try done. rewrite app_nil_r. apply buffered_refl; [done|lia]. Qed.

Lemma buffered_ready c c' b : read_ready c -> buffered c c' b -> read_ready c' /\ conn_rbuf c' = b.
Proof using.
  intros [_ Hc] [(a & cap & m & -> & Hcap & _) Hok _]. split; [split; [done|cbn; lia]|done].
Qed.

Lemma read_room_spec w : read_ready (w_conn w) -> read_full w = false ->
  0 < read_room w /\ zlen (conn_rbuf (w_conn w)) + read_room w < read_buffer_cap (w_conn w).
Proof using.
  intros [_ Hc]. unfold read_full, read_room. pose proof (zlen_nonneg (conn_rbuf (w_conn w))).
  rewrite Z.geb_leb, Z.leb_gt. unfold READ_MAX in Hc.
  unfold u64. rewrite (uwrap_small 64 (read_buffer_cap _ - 1)) by (change (2 ^ 64) with 18446744073709551616; lia).
  intros Hl. rewrite uwrap_small by (change (2 ^ 64) with 18446744073709551616; lia). lia.
Qed.

Lemma received_drained w d :
  read_ready (w_conn w) -> read_full w = false -> zlen d <= read_room w ->
  buffered (w_conn w) (w_conn (received now d w)) (conn_rbuf (w_conn w) ++ d) /\
  w_read_rest (received now d w) = w_read_rest w /\ w_reads (received now d w) = w_reads w.
Proof using.
  intros [[H1 H2 H3 H4 H5] Hc] Hf Hd. pose proof (read_room_spec w ltac:(by split) Hf) as Hr.
  split_and!; try done. unfold received. cbn. constructor; [|constructor; cbn; try done; rewrite zlen_app; lia|done].
  exists (conn_read_alloc (w_conn w)), (read_buffer_cap (w_conn w)), (conn_malloc (w_conn w)).
  destruct (w_conn w); cbn in *. split; [done|]. split; [lia|done].
Qed.

(** Making room before a read. *)
Lemma make_room w ok w1 :
  read_ready (w_conn w) ->
  (if read_full w
   then let '(ok, c) := conn_reserve_read (u64 (read_buffer_cap (w_conn w) * 2)) (max_request_size cfg) (w_conn w) in
        (ok, set_w_conn c w)
   else (true, w)) = (ok, w1) ->
  buffered (w_conn w) (w_conn w1) (conn_rbuf (w_conn w)) /\ w_read_rest w1 = w_read_rest w /\ w_reads w1 = w_reads w /\
  (ok = true -> read_full w1 = false) /\ (read_full w = false -> ok = true /\ w1 = w).
Proof using max_size.
  intros Hr. pose proof Hr as [Hok Hc]. destruct (read_full w) eqn:Ef; cycle 1.
  { intros [= <- <-]. split_and!; try done. apply buffered_refl; [done|lia]. }
  destruct (conn_reserve_read _ _ _) as [b c] eqn:E. intros [= <- <-].
  unfold u64 in E. rewrite uwrap_small in E by (unfold READ_MAX in *; change (2 ^ 64) with 18446744073709551616; lia).
  destruct (conn_reserve_read_grow (read_buffer_cap (w_conn w) * 2) (max_request_size cfg) (w_conn w) b c Hok ltac:(lia) max_size ltac:(lia) E) as [Hb Hn].
  split_and!; try done. intros ->. specialize (Hn eq_refl).
  destruct (buffered_ready _ _ _ Hr Hb) as [[_ Hc'] Hrb]. unfold read_full. cbn. rewrite Hrb.
  rewrite Z.geb_leb, Z.leb_gt. unfold u64. unfold READ_MAX in *.
  rewrite uwrap_small by (change (2 ^ 64) with 18446744073709551616; lia). destruct Hok. lia.
Qed.

Lemma drain_loop_spec fuel w :
  read_ready (w_conn w) -> (recv_size (w_reads w) < fuel)%nat ->
  exists rc full closed w' got, drain_loop now cfg fuel w = Some (rc, full, closed, w') /\ drained w w' got /\
    (rc = 0 \/ rc = -1) /\ (w_reads w = [] -> read_full w = false -> (rc, full, closed) = (0, false, false) /\ w' = w).
Proof using max_size.
  revert w. induction fuel as [|fuel IH]; intros w Hr Hf; [lia|]. cbn [drain_loop].
  destruct (if read_full w then _ else _) as [ok w1] eqn:Er.
  destruct (make_room _ _ _ Hr Er) as (Hb & Hrest & Hrd & Hnf & Hsame).
  assert (drained w w1 []) as Hd1 by (constructor; [by rewrite app_nil_r|by rewrite Hrd|done]).
  destruct ok; cbn [negb]; cycle 1.
  { exists 0, true, false, w1, []. split_and!; try done; [auto|]. intros _ Hf2. by destruct (Hsame Hf2). }
  destruct (conn_recv (read_room w1) w1) as [[r d] w2] eqn:Ec.
  destruct (conn_recv_spec _ _ _ _ _ Ec) as (Hc2 & Hrest2 & Hby & Hok2 & Hno2).
  destruct (buffered_ready _ _ _ Hr Hb) as [Hr1 Hrb1].
  assert (r <> IO_OK -> drained w w2 []) as Hstop.
  { intros Hn. specialize (Hno2 Hn). subst d. destruct Hd1. constructor.
    - by rewrite Hc2.
    - by rewrite Hrd in Hby.
    - congruence. }
  assert (w_reads w = [] -> read_full w = false -> r = IO_WOULD_BLOCK /\ w2 = w) as Hempty.
  { intros Hrn Hfn. destruct (Hsame Hfn) as [_ ->]. unfold conn_recv in Ec. rewrite Hrn in Ec. cbn in Ec.
    injection Ec as <- _ <-. split; [done|]. destruct w; cbn in *. by subst. }
  destruct r.
  - destruct (Hok2 eq_refl) as (Hd & Hlen & Hsz).
    assert (read_ready (w_conn w2)) as Hr2 by (by rewrite Hc2).
    assert (read_full w2 = false) as Hf2 by (unfold read_full in *; rewrite Hc2; by apply Hnf).
    assert (read_room w2 = read_room w1) as Hrr by (unfold read_room; by rewrite Hc2).
    destruct (received_drained w2 d Hr2 Hf2 ltac:(lia)) as (Hb3 & Hrest3 & Hrd3).
    destruct (buffered_ready _ _ _ Hr2 Hb3) as [Hr3 Hrb3].
    destruct (IH (received now d w2) Hr3 ltac:(rewrite Hrd3; rewrite Hrd in Hsz; lia)) as (rc & full & closed & w' & got & E & [D1 D2 D3] & Hrc & _).
    exists rc, full, closed, w', (d ++ got). split; [exact E|]. split; [|split; [done|]].
    + constructor.
      * eapply buffered_trans; [exact Hb|]. rewrite Hrb3, Hc2, Hrb1 in D1. rewrite Hc2, Hrb1 in Hb3.
        rewrite app_assoc. eapply buffered_trans; [exact Hb3|exact D1].
      * rewrite Hrd3 in D2. rewrite <- Hrd, Hby, D2. by rewrite app_assoc.
      * congruence.
    + intros Hrn Hfn. by destruct (Hempty Hrn Hfn).
  - exists 0, false, false, w2, []. split_and!; auto. intros Hrn Hfn. by destruct (Hempty Hrn Hfn) as [_ ->].
  - destruct (_ >? 0).
    + exists 0, false, true, w2, []. split_and!; auto. intros Hrn Hfn. by destruct (Hempty Hrn Hfn).
    + exists (-1), false, false, w2, []. split_and!; auto. intros Hrn Hfn. by destruct (Hempty Hrn Hfn).
  - exists (-1), false, false, w2, []. split_and!; auto. intros Hrn Hfn. by destruct (Hempty Hrn Hfn).
Qed.
End drain.

(** ** WebSocket frames keep the connection well formed *)
(** The write buffer may grow; the read buffer is that of [c]. *)
Definition replied (c c' : connection) : Prop :=
  conn_ok c' /\ conn_rbuf c' = conn_rbuf c /\ read_buffer_cap c' = read_buffer_cap c /\ conn_rest c' = conn_rest c.

Lemma replied_trans c c1 c2 : replied c c1 -> replied c1 c2 -> replied c c2.
Proof. intros (? & ? & ? & ?) (? & ? & ? & ?). split_and!; congruence. Qed.

Lemma ws_append_frame_replied op p c : conn_ok c -> replied c (ws_append_frame op p c).2.
Proof.
  intros Hok. unfold ws_append_frame. destruct (conn_reserve_write _ c) as [ok c'] eqn:E.
  pose proof (conn_reserve_write_rest _ _ _ _ E) as Hrest.
  destruct (conn_reserve_write_spec _ _ _ _ Hok E) as ([H1 H2 H3 H4 H5] & Hw & Hr & _ & Hc & Hn & _).
  destruct ok; cbn [negb snd]; [|split_and!; try done; by constructor]. specialize (Hn eq_refl).
  split_and!; try done. constructor; cbn -[ws_header MAX_RESPONSE_SIZE]; try done. rewrite !zlen_app, Hw. lia.
Qed.

Lemma ws_append_close_replied code c : conn_ok c -> replied c (ws_append_close code c).
Proof. apply ws_append_frame_replied. Qed.

Lemma ws_handle_frame_replied f p c : conn_ok c -> replied c (ws_handle_frame f p c).2.
Proof.
  intros Hok. unfold ws_handle_frame. pose proof (ws_append_frame_replied (fr_opcode f) p c Hok) as H1.
  destruct (ws_append_frame (fr_opcode f) p c) as [rc c1]. cbn [snd] in H1.
  destruct (_ || _).
  { destruct (negb (fr_fin f)); [by apply ws_append_close_replied|].
    destruct (negb (rc =? 0)); [|done]. eapply replied_trans; [exact H1|]. apply ws_append_close_replied, H1. }
  destruct (_ =? WS_OP_PING).
  { destruct (_ || _); [by apply ws_append_close_replied|by apply ws_append_frame_replied]. }
  destruct (_ =? WS_OP_PONG); [done|].
  destruct (_ =? WS_OP_CLOSE); by apply ws_append_close_replied.
Qed.

Lemma ws_run_replied fuel cap rest c r cl c' :
  conn_ok c -> nonneg_bytes rest -> ws_run fuel cap rest c = Some (r, cl, c') ->
  replied c c' /\ nonneg_bytes r /\ zlen r <= zlen rest.
Proof.
  intros Hok Hn. revert rest c Hok Hn. induction fuel as [|fuel IH]; intros rest c Hok Hn E.
  { destruct rest; cbn in E; [|done]. by injection E as <- <- <-. }
  destruct rest as [|x l] eqn:El; [by injection E as <- <- <-|]. cbn [ws_run] in E. rewrite <- El in *.
  destruct (ws_decode rest cap) as [|code|f].
  - by injection E as <- <- <-.
  - injection E as <- <- <-. split; [by apply ws_append_close_replied|done].
  - pose proof (ws_handle_frame_replied f (frame_payload f rest) c Hok) as Hh.
    destruct (ws_handle_frame f (frame_payload f rest) c) as [close c1]. cbn [snd] in Hh.
    assert (nonneg_bytes (zdrop (fr_frame_end f) rest)) as Hd by by apply nonneg_zdrop.
    assert (zlen (zdrop (fr_frame_end f) rest) <= zlen rest) as Hl.
    { rewrite zlen_zdrop. pose proof (zlen_nonneg rest). lia. }
    destruct close; [by injection E as <- <- <-|].
    destruct (IH _ _ (proj1 Hh) Hd E) as (H1 & H2 & H3). split_and!; [by eapply replied_trans|done|lia].
Qed.

Lemma ws_process_frames_kept c cl c' :
  conn_ok c -> nonneg_bytes (conn_rbuf c) -> ws_process_frames c = Some (cl, c') ->
  conn_ok c' /\ nonneg_bytes (conn_rbuf c') /\ zlen (conn_rbuf c') <= zlen (conn_rbuf c) /\
  read_buffer_cap c' = read_buffer_cap c.
Proof.
  intros Hok Hn E. rewrite ws_process_frames_run in E by done.
  destruct (ws_run _ _ _ _) as [[[rest close] c1]|] eqn:Er; [|done]. cbn in E. injection E as <- <-.
  destruct (ws_run_replied _ _ _ _ _ _ _ Hok Hn Er) as ((Hok1 & Hr & Hc & _) & Hn1 & Hl).
  split_and!; try done. destruct Hok1 as [H1 H2 H3 H4 H5]. constructor; cbn; try done. rewrite Hr in H1. lia.
Qed.

Section ws_data.
Context (now : Z).

Definition ws_state (w : wconn) : Prop :=
  read_ready (w_conn w) /\ nonneg_bytes (conn_rbuf (w_conn w)) /\ nonneg_bytes (recv_bytes (w_reads w)).

Lemma ws_fill_loop_spec fuel w :
  ws_state w -> (recv_size (w_reads w) < fuel)%nat ->
  exists rc dr w', ws_fill_loop now fuel w = Some (rc, dr, w') /\ ws_state w' /\
    (rc = 0 -> dr = false -> read_full w = false -> (recv_size (w_reads w') < recv_size (w_reads w))%nat).
Proof using.
  revert w. induction fuel as [|fuel IH]; intros w Hw Hf; [lia|]. cbn [ws_fill_loop].
  destruct (read_full w) eqn:Ef; [exists 0, false, w; done|].
  destruct (conn_recv (read_room w) w) as [[r d] w1] eqn:Ec.
  destruct (conn_recv_spec _ _ _ _ _ Ec) as (Hc & _ & Hby & Hok & Hno). destruct Hw as (Hr & Hn & Hnr).
  assert (r <> IO_OK -> ws_state w1) as Hstop.
  { intros Hx. rewrite (Hno Hx) in Hby. cbn in Hby. split_and!; rewrite ?Hc; try done. by rewrite <- Hby. }
  destruct r; [|exists 0, true, w1|exists (-1), false, w1|exists (-1), false, w1];
    try (split_and!; [done|by apply Hstop|done]).
  destruct (Hok eq_refl) as (_ & Hlen & Hsz). rewrite Hby in Hnr. apply Forall_app in Hnr as [Hnd Hnr].
  assert (read_ready (w_conn w1)) as Hr1 by by rewrite Hc.
  assert (read_full w1 = false) as Hf1 by (unfold read_full in *; by rewrite Hc).
  assert (read_room w1 = read_room w) as Hrr by (unfold read_room; by rewrite Hc).
  destruct (received_drained now w1 d Hr1 Hf1 ltac:(lia)) as (Hb & _ & Hrd).
  destruct (buffered_ready _ _ _ Hr1 Hb) as [Hr2 Hrb].
  destruct (IH (received now d w1)) as (rc & dr & w' & E & Hw' & Hx).
  { split_and!; [done|rewrite Hrb, Hc; by apply Forall_app|by rewrite Hrd]. }
  { rewrite Hrd. lia. }
  exists rc, dr, w'. split; [exact E|]. split; [done|]. intros -> -> _.
  destruct (read_full (received now d w1)) eqn:Ef2.
  - destruct fuel; [lia|]. cbn [ws_fill_loop] in E. rewrite Ef2 in E. injection E as <-. by rewrite Hrd.
  - specialize (Hx eq_refl eq_refl eq_refl). rewrite Hrd in Hx. lia.
Qed.

Lemma ws_data_loop_total fuel w :
  ws_state w -> (recv_size (w_reads w) + (if read_full w then 1 else 0) < fuel)%nat ->
  exists rc cl w', ws_data_loop now fuel w = Some (rc, cl, w') /\ ws_state w'.
Proof using.
  revert w. induction fuel as [|fuel IH]; intros w Hw Hf; [lia|]. cbn [ws_data_loop].
  destruct (ws_fill_loop_spec (S (recv_size (w_reads w))) w Hw ltac:(lia)) as (rc & dr & w1 & E & Hw1 & Hx).
  unfold ws_fill. rewrite E. cbn. destruct (Z.eqb_spec rc 0) as [->|]; cbn [negb]; [|by eexists _, _, _].
  destruct Hw1 as (Hr1 & Hn1 & Hnr1). pose proof (ws_run_total (length (conn_rbuf (w_conn w1))) (read_buffer_cap (w_conn w1))
    (conn_rbuf (w_conn w1)) (w_conn w1) Hn1 (Nat.le_refl _)) as [[[rest close] c1] Et].
  destruct (ws_process_frames (w_conn w1)) as [[cl c']|] eqn:Ep; cbn; cycle 1.
  { rewrite ws_process_frames_run, Et in Ep by done. done. }
  destruct (ws_process_frames_kept _ _ _ (proj1 Hr1) Hn1 Ep) as (Hok' & Hn' & Hl' & Hcap').
  assert (ws_state (set_w_conn c' w1)) as Hw2.
  { split_and!; cbn; try done. split; [done|]. rewrite Hcap'. apply Hr1. }
  destruct cl; [by eexists _, _, _|]. destruct dr; [by eexists _, _, _|].
  destruct (read_full (set_w_conn c' w1)) eqn:Ef; [by eexists _, _, _|].
  apply IH; [done|]. rewrite Ef. cbn. destruct (read_full w) eqn:Ef0; [|specialize (Hx eq_refl eq_refl eq_refl); lia].
  cbn [ws_fill_loop] in E. rewrite Ef0 in E. injection E as <-. lia.
Qed.

Lemma handle_websocket_data_total w : ws_state w -> is_Some (handle_websocket_data now w).
Proof using.
  intros Hw. unfold handle_websocket_data.
  destruct (ws_data_loop_total (S (S (recv_size (w_reads w)))) w Hw) as (rc & cl & w' & -> & _);
    [destruct (read_full w); lia|].
  cbn. repeat (case_match; try by eexists).
Qed.
End ws_data.
