(* ===== verification/WorkerList.v ===== *)
(** * The worker's connections and who owns them
      (server/src/worker.c, connection_pool.c)

    Connections are heap cells on the worker's doubly linked list. A worker
    thread links, reaps and drops them; a connection handed to the storage pool
    has [offloaded] set and belongs to a pool thread until that thread clears
    the flag. The list is read and written under [connections_lock], so the
    interleavings of the threads are sequences of these steps; the drain of a
    worker that exits takes no lock and is a step too, as long as the accept
    loop has stopped by then. *)
From stdpp Require Import fin_sets relations.
From S2P Require Import Prelude.

Local Open Scope Z_scope.

Record cnode := mkCell { c_prev : option Z; c_next : option Z; c_offloaded : bool; c_last_activity : Z }.
(** [wl_active] is the server's count of live connections. *)
Record worker_list := mkList {
  wl_heap : gmap Z cnode; wl_head : option Z; wl_count : Z; wl_active : Z }.

Definition set_c_prev (o : option Z) (n : cnode) : cnode := mkCell o (c_next n) (c_offloaded n) (c_last_activity n).
Definition set_c_next (o : option Z) (n : cnode) : cnode := mkCell (c_prev n) o (c_offloaded n) (c_last_activity n).
Definition set_c_offloaded (b : bool) (n : cnode) : cnode := mkCell (c_prev n) (c_next n) b (c_last_activity n).
Definition set_c_last (t : Z) (n : cnode) : cnode := mkCell (c_prev n) (c_next n) (c_offloaded n) t.
Definition set_wl_heap (h : gmap Z cnode) (s : worker_list) : worker_list := mkList h (wl_head s) (wl_count s) (wl_active s).

(** ** Operations *)
(** [ptr] is what [calloc] returned. *)
Definition allocate_connection (ptr : option Z) (s : worker_list) : option Z * worker_list :=
  match ptr with
  | None => (None, s)
  | Some a => (Some a, mkList (<[a := mkCell None None false 0]> (wl_heap s)) (wl_head s) (wl_count s) (wl_active s + 1))
  end.

Definition free_connection (a : Z) (s : worker_list) : worker_list :=
  mkList (delete a (wl_heap s)) (wl_head s) (wl_count s)
    (if wl_active s >? 0 then wl_active s - 1 else wl_active s).

Definition remove_connection_from_worker (a : Z) (s : worker_list) : worker_list :=
  match wl_heap s !! a with
  | None => s
  | Some n =>
      let '(h, hd) := match c_prev n with
                      | Some p => (alter (set_c_next (c_next n)) p (wl_heap s), wl_head s)
                      | None => (wl_heap s, c_next n)
                      end in
      let h := match c_next n with Some q => alter (set_c_prev (c_prev n)) q h | None => h end in
      let h := alter (fun n => set_c_prev None (set_c_next None n)) a h in
      mkList h hd (if wl_count s >? 0 then wl_count s - 1 else wl_count s) (wl_active s)
  end.

Definition drop_connection (a : Z) (s : worker_list) : worker_list :=
  match wl_heap s !! a with
  | Some n => if c_offloaded n then s else free_connection a (remove_connection_from_worker a s)
  | None => s
  end.

Definition handle_new_connection (ptr : option Z) (now : Z) (epoll_ok : bool) (s : worker_list) : Z * worker_list :=
  match allocate_connection ptr s with
  | (None, s) => (-1, s)
  | (Some a, s) =>
      let h := alter (fun n => set_c_next (wl_head s) (set_c_last now n)) a (wl_heap s) in
      let h := match wl_head s with Some b => alter (set_c_prev (Some a)) b h | None => h end in
      let s := mkList h (Some a) (wl_count s + 1) (wl_active s) in
      if epoll_ok then (0, s) else (-1, free_connection a (remove_connection_from_worker a s))
  end.

(** The sweep from [cur]; [fuel] bounds the nodes visited. *)
Fixpoint reap_loop (fuel : nat) (now keepalive_timeout : Z) (cur : option Z) (s : worker_list) : option worker_list :=
  match cur with
  | None => Some s
  | Some a =>
      match fuel, wl_heap s !! a with
      | S fuel', Some n =>
          let next := c_next n in
          let s := if negb (c_offloaded n) && (now - c_last_activity n >? keepalive_timeout)
                   then free_connection a (remove_connection_from_worker a s) else s in
          reap_loop fuel' now keepalive_timeout next s
      | _, _ => None
      end
  end.
Definition reap_idle_connections (now keepalive_timeout : Z) (s : worker_list) : option worker_list :=
  reap_loop (size (wl_heap s)) now keepalive_timeout (wl_head s) s.

(** At shutdown: the offloaded connections stay, on a list built anew. *)
Fixpoint drain_list_loop (fuel : nat) (cur head : option Z) (count : Z) (s : worker_list) : option worker_list :=
  match cur with
  | None => Some (mkList (wl_heap s) head count (wl_active s))
  | Some a =>
      match fuel, wl_heap s !! a with
      | S fuel', Some n =>
          let next := c_next n in
          if c_offloaded n then
            let h := alter (fun n => set_c_next head (set_c_prev None n)) a (wl_heap s) in
            let h := match head with Some b => alter (set_c_prev (Some a)) b h | None => h end in
            drain_list_loop fuel' next (Some a) (count + 1) (set_wl_heap h s)
          else drain_list_loop fuel' next head count (free_connection a s)
      | _, _ => None
      end
  end.
Definition drain_worker_connections (s : worker_list) : option worker_list :=
  drain_list_loop (size (wl_heap s)) (wl_head s) None 0 s.

(** What [http_server_cleanup] frees of a worker once its thread and the pool
    are gone. *)
Fixpoint cleanup_loop (fuel : nat) (cur : option Z) (s : worker_list) : option worker_list :=
  match cur with
  | None => Some (mkList (wl_heap s) None 0 (wl_active s))
  | Some a =>
      match fuel, wl_heap s !! a with
      | S fuel', Some n => cleanup_loop fuel' (c_next n) (free_connection a s)
      | _, _ => None
      end
  end.
Definition cleanup_connections (s : worker_list) : option worker_list := cleanup_loop (size (wl_heap s)) (wl_head s) s.

(** ** The list in the heap *)
Fixpoint dl (h : gmap Z cnode) (prev cur : option Z) (l : list Z) : Prop :=
  match l with
  | [] => cur = None
  | a :: l' => cur = Some a /\ exists n, h !! a = Some n /\ c_prev n = prev /\ dl h (Some a) (c_next n) l'
  end.

Lemma dl_frame h h' prev cur l :
  (forall a n, a ∈ l -> h !! a = Some n -> exists n', h' !! a = Some n' /\ c_prev n' = c_prev n /\ c_next n' = c_next n) ->
  dl h prev cur l -> dl h' prev cur l.
Proof.
  revert prev cur. induction l as [|a l IH]; intros prev cur Hf; [done|]. intros (-> & n & Hn & Hp & Hl). split; [done|].
  destruct (Hf a n ltac:(left) Hn) as (n' & Hn' & Hp' & Hx'). exists n'. rewrite Hp', Hx'. split_and!; try done.
  apply IH; [|done]. intros b m Hb. apply Hf. by right.
Qed.

Lemma dl_live h prev cur l a : dl h prev cur l -> a ∈ l -> is_Some (h !! a).
Proof.
  revert prev cur. induction l as [|b l IH]; intros prev cur Hl Ha; [by apply not_elem_of_nil in Ha|].
  destruct Hl as (_ & n & Hn & _ & Hl). apply elem_of_cons in Ha as [->|Ha]; [by exists n|by eapply IH].
Qed.

(** The cells of a removal, pointwise. *)
Definition removed (n : cnode) (a x : Z) (m : cnode) : cnode :=
  let m := if bool_decide (c_prev n = Some x) then set_c_next (c_next n) m else m in
  let m := if bool_decide (c_next n = Some x) then set_c_prev (c_prev n) m else m in
  if bool_decide (x = a) then set_c_prev None (set_c_next None m) else m.

Lemma remove_heap a n s x :
  wl_heap s !! a = Some n -> wl_heap (remove_connection_from_worker a s) !! x = removed n a x <$> wl_heap s !! x.
Proof.
  intros Hn. unfold remove_connection_from_worker. rewrite Hn.
  destruct (match c_prev n with Some p => _ | None => _ end) as [h hd] eqn:E. cbn.
  assert (h !! x = (fun m => if bool_decide (c_prev n = Some x) then set_c_next (c_next n) m else m) <$> wl_heap s !! x) as Hh.
  { destruct (c_prev n) as [p|]; injection E as <- <-.
    - destruct (decide (p = x)) as [->|Hp]; [rewrite lookup_alter_eq|rewrite lookup_alter_ne by done].
      + by rewrite bool_decide_true.
      + rewrite bool_decide_false by congruence. by destruct (wl_heap s !! x).
    - rewrite bool_decide_false by done. by destruct (wl_heap s !! x). }
  assert ((match c_next n with Some q => alter (set_c_prev (c_prev n)) q h | None => h end) !! x =
    (fun m => if bool_decide (c_next n = Some x) then set_c_prev (c_prev n) m else m) <$> h !! x) as Hq.
  { destruct (c_next n) as [q|].
    - destruct (decide (q = x)) as [->|Hp]; [rewrite lookup_alter_eq|rewrite lookup_alter_ne by done].
      + by rewrite bool_decide_true.
      + rewrite bool_decide_false by congruence. by destruct (h !! x).
    - rewrite bool_decide_false by done. by destruct (h !! x). }
  unfold removed. destruct (decide (x = a)) as [->|Hx].
  - rewrite lookup_alter_eq, Hq, Hh. rewrite (bool_decide_true (a = a)) by done. by destruct (wl_heap s !! a).
  - rewrite lookup_alter_ne, Hq, Hh by done. rewrite (bool_decide_false (x = a)) by done. by destruct (wl_heap s !! x).
Qed.

Lemma dl_at h prev cur l1 a l2 n :
  dl h prev cur (l1 ++ a :: l2) -> h !! a = Some n ->
  c_next n = head l2 /\ c_prev n = match list.last l1 with Some b => Some b | None => prev end.
Proof.
  revert prev cur. induction l1 as [|b l1 IH]; intros prev cur.
  - intros (_ & m & Hm & Hp & Hl) Hn. rewrite Hn in Hm. injection Hm as <-. split; [|done].
    destruct l2; [done|]. by destruct Hl.
  - intros (_ & m & _ & _ & Hl) Hn. destruct (IH _ _ Hl Hn) as [H1 H2]. split; [done|]. rewrite H2.
    destruct l1 as [|c l1]; [done|]. rewrite last_cons_cons. by destruct (list.last (c :: l1)) eqn:E; [|apply last_None in E].
Qed.

Lemma removed_other n a x m : x <> a -> c_prev n <> Some x -> c_next n <> Some x -> removed n a x m = m.
Proof. intros H1 H2 H3. unfold removed. by rewrite !bool_decide_false. Qed.

Lemma dl_removed h h' n a prev cur l1 l2 :
  h !! a = Some n -> (forall x, h' !! x = removed n a x <$> h !! x) -> NoDup (l1 ++ a :: l2) ->
  (forall p, prev = Some p -> p ∉ l1 ++ a :: l2) -> dl h prev cur (l1 ++ a :: l2) ->
  dl h' prev (match l1 with [] => c_next n | _ => cur end) (l1 ++ l2).
Proof.
  intros Hn Hh'. revert prev cur. induction l1 as [|b l1 IH]; intros prev cur Hnd Hp Hl; cbn [app] in *.
  - destruct (dl_at h prev cur [] a l2 n Hl Hn) as [Hnx Hpv]. cbn in Hpv.
    destruct Hl as (_ & n0 & Hn0 & _ & Hl). rewrite Hn in Hn0. injection Hn0 as <-.
    destruct l2 as [|q l2]; [done|]. cbn in Hnx. destruct Hl as (_ & m & Hm & Hpm & Hl).
    apply list.NoDup_cons in Hnd as [Ha Hnd]. apply list.NoDup_cons in Hnd as [Hq Hnd].
    assert (forall p, prev = Some p -> p <> a /\ p <> q /\ p ∉ l2) as Hpp.
    { intros p E. specialize (Hp p E). rewrite !not_elem_of_cons in Hp. tauto. }
    rewrite not_elem_of_cons in Ha. split; [done|]. exists (set_c_prev prev m). rewrite Hh', Hm. split; [|split; [done|]].
    + cbn. f_equal. unfold removed. rewrite Hnx, Hpv. rewrite (bool_decide_false (q = a)) by (intros ->; tauto).
      rewrite (bool_decide_true (Some q = Some q)) by done. rewrite bool_decide_false; [done|]. intros E. by destruct (Hpp q E) as (_ & ? & _).
    + cbn. eapply dl_frame; [|exact Hl]. intros x k Hx Hk. exists k. rewrite Hh', Hk. cbn. rewrite removed_other; [done|..].
      * intros ->. tauto.
      * rewrite Hpv. intros E. by destruct (Hpp x E) as (_ & _ & ?).
      * rewrite Hnx. intros [= ->]. done.
  - destruct (dl_at h prev cur (b :: l1) a l2 n Hl Hn) as [Hnx Hpv].
    destruct Hl as (-> & m & Hm & Hpm & Hl). apply list.NoDup_cons in Hnd as [Hb Hnd].
    rewrite elem_of_app, elem_of_cons in Hb.
    specialize (IH (Some b) (c_next m) Hnd). split; [done|]. exists (removed n a b m). rewrite Hh', Hm. split; [done|].
    assert (c_next n <> Some b) as Hnb.
    { rewrite Hnx. intros E. destruct l2; [done|]. injection E as ->. apply Hb. right. right. left. }
    assert (b <> a) as Hba by tauto.
    assert (c_prev (removed n a b m) = prev /\ c_next (removed n a b m) = match l1 with [] => c_next n | _ => c_next m end) as [E1 E2].
    { unfold removed. rewrite (bool_decide_false (b = a)) by done. rewrite (bool_decide_false (c_next n = Some b)) by done.
      destruct l1 as [|c l1].
      - cbn in Hpv. rewrite Hpv. rewrite bool_decide_true by done. done.
      - rewrite bool_decide_false; [done|]. rewrite Hpv, last_cons_cons. intros E. apply Hb. left.
        destruct (list.last (c :: l1)) as [y|] eqn:El; [|by apply last_None in El]. injection E as ->.
        apply last_Some in El as [k ->]. apply elem_of_app. right. left. }
    split; [done|]. rewrite E2. apply IH; [|done]. intros p [= <-]. rewrite elem_of_app, elem_of_cons. tauto.
Qed.

(** ** Invariant *)
(** The list holds every live connection once; both counts are its length. *)
Record wl_inv (s : worker_list) (l : list Z) : Prop := {
  wi_list : dl (wl_heap s) None (wl_head s) l;
  wi_nodup : NoDup l;
  wi_live : forall a, is_Some (wl_heap s !! a) -> a ∈ l;
  wi_count : wl_count s = zlen l;
  wi_active : wl_active s = zlen l }.

(** What a connection carries besides its links. *)
Definition cell (s : worker_list) (a : Z) : option (bool * Z) :=
  (fun n => (c_offloaded n, c_last_activity n)) <$> wl_heap s !! a.

Lemma removed_cell n a x m :
  (c_offloaded (removed n a x m), c_last_activity (removed n a x m)) = (c_offloaded m, c_last_activity m).
Proof. unfold removed. by repeat case_bool_decide. Qed.

(** Taking a connection off the list and freeing it. *)
Lemma unlink_free_spec s l1 a l2 :
  wl_inv s (l1 ++ a :: l2) ->
  let s' := free_connection a (remove_connection_from_worker a s) in
  wl_inv s' (l1 ++ l2) /\ wl_heap s' !! a = None /\ (forall x, x <> a -> cell s' x = cell s x).
Proof.
  intros [Hl Hnd Hlive Hc Ha] s'.
  destruct (dl_live _ _ _ _ a Hl ltac:(apply elem_of_app; right; left)) as [n Hn].
  assert (forall x, wl_heap (remove_connection_from_worker a s) !! x = removed n a x <$> wl_heap s !! x) as Hh
    by (intros x; by apply remove_heap).
  pose proof (dl_removed _ _ n a None _ l1 l2 Hn Hh Hnd ltac:(done) Hl) as Hd.
  pose proof Hnd as Hnd0. apply list.NoDup_app in Hnd as (Hn1 & Hdis & Hn2). apply list.NoDup_cons in Hn2 as [Ha2 Hn2].
  assert (a ∉ l1) as Ha1 by (intros H1; apply (Hdis a H1); left).
  destruct (dl_at _ _ _ _ _ _ _ Hl Hn) as [Hnx Hpv].
  assert (wl_head (remove_connection_from_worker a s) = match l1 with [] => c_next n | _ => wl_head s end /\
    wl_count (remove_connection_from_worker a s) = zlen (l1 ++ l2) /\ wl_active (remove_connection_from_worker a s) = wl_active s) as (Hhd & Hct & Hac).
  { unfold remove_connection_from_worker. rewrite Hn. rewrite Hc, zlen_app, zlen_cons.
    pose proof (zlen_nonneg l1). pose proof (zlen_nonneg l2).
    destruct (Z.gtb_spec (zlen l1 + (1 + zlen l2)) 0); [|lia].
    destruct l1 as [|b l1].
    - cbn in Hpv. rewrite Hpv. cbn. split_and!; try done. zl.
    - destruct (list.last (b :: l1)) as [y|] eqn:El; [|by apply last_None in El].  rewrite Hpv. cbn [wl_head wl_count wl_active]. split_and!; try done. rewrite zlen_app. lia. }
  assert (NoDup (l1 ++ l2)) as Hndr.
  { apply list.NoDup_app. split_and!; [done| |done]. intros x Hx Hx2. apply (Hdis x Hx). by right. }
  subst s'. split; [constructor|split_and!].
  - cbn. rewrite Hhd. eapply dl_frame; [|exact Hd]. intros x m Hx Hm. exists m. split; [|done].
    rewrite lookup_delete_ne; [done|]. intros ->. apply elem_of_app in Hx as [?|?]; done.
  - done.
  - intros x [m Hm]. cbn in Hm. apply lookup_delete_Some in Hm as [Hxa Hm]. rewrite Hh in Hm.
    destruct (wl_heap s !! x) as [k|] eqn:Ek; [|done].
    pose proof (Hlive x ltac:(by exists k)) as Hx. rewrite elem_of_app, elem_of_cons in Hx. rewrite elem_of_app.
    destruct Hx as [?|[->|?]]; [by left|done|by right].
  - done.
  - cbn. rewrite Hac, Ha, !zlen_app, zlen_cons. pose proof (zlen_nonneg l1). pose proof (zlen_nonneg l2).
    destruct (Z.gtb_spec (zlen l1 + (1 + zlen l2)) 0); lia.
  - cbn. apply lookup_delete_eq.
  - intros x Hx. unfold cell. cbn. rewrite lookup_delete_ne, Hh by done.
    destruct (wl_heap s !! x) as [m|]; [|done]. cbn. f_equal. apply removed_cell.
Qed.

Lemma drop_connection_spec s l1 a l2 :
  wl_inv s (l1 ++ a :: l2) ->
  match cell s a with
  | Some (true, _) => drop_connection a s = s
  | _ => wl_inv (drop_connection a s) (l1 ++ l2) /\ wl_heap (drop_connection a s) !! a = None /\
         forall x, x <> a -> cell (drop_connection a s) x = cell s x
  end.
Proof.
  intros Hi. destruct (dl_live _ _ _ _ a (wi_list _ _ Hi) ltac:(apply elem_of_app; right; left)) as [n Hn].
  unfold drop_connection, cell at 1. rewrite Hn. cbn. destruct (c_offloaded n); [done|]. by apply unlink_free_spec.
Qed.

Lemma dl_head h prev cur l : dl h prev cur l -> cur = head l.
Proof. destruct l; [done|]. by intros [-> _]. Qed.

(** Pushing a cell in front: the old head points back to it. *)
Definition pushed (hd : option Z) (a x : Z) (m : cnode) : cnode :=
  if bool_decide (hd = Some x) then set_c_prev (Some a) m else m.

Lemma push_heap (h : gmap Z cnode) hd a x :
  (match hd with Some b => alter (set_c_prev (Some a)) b h | None => h end) !! x = pushed hd a x <$> h !! x.
Proof.
  unfold pushed. destruct hd as [b|].
  - destruct (decide (b = x)) as [->|Hb].
    + rewrite lookup_alter_eq, bool_decide_true by done. done.
    + rewrite lookup_alter_ne, bool_decide_false by congruence. by destruct (h !! x).
  - rewrite bool_decide_false by done. by destruct (h !! x).
Qed.

Lemma pushed_cell hd a x m :
  (c_offloaded (pushed hd a x m), c_last_activity (pushed hd a x m)) = (c_offloaded m, c_last_activity m) /\
  c_next (pushed hd a x m) = c_next m.
Proof. unfold pushed. by case_bool_decide. Qed.

Lemma dl_push h h' hd a l n :
  dl h None hd l -> NoDup l -> a ∉ l -> h' !! a = Some n -> c_prev n = None -> c_next n = hd ->
  (forall x, x <> a -> h' !! x = pushed hd a x <$> h !! x) -> dl h' None (Some a) (a :: l).
Proof.
  intros Hl Hnd Hal Ha Hp Hx Hh. split; [done|]. exists n. rewrite Hx. split_and!; try done.
  destruct l as [|b l]; [done|]. destruct Hl as (-> & m & Hm & Hpm & Hl). split; [done|].
  apply not_elem_of_cons in Hal as [Hab Hal]. exists (set_c_prev (Some a) m).
  rewrite (Hh b), Hm by done. unfold pushed. cbn. rewrite bool_decide_true by done. split_and!; try done.
  eapply dl_frame; [|exact Hl]. intros x k Hxl Hk. exists k. apply list.NoDup_cons in Hnd as [Hb _].
  rewrite Hh by (intros ->; done). rewrite Hk. unfold pushed. cbn. rewrite bool_decide_false; [done|]. intros [= ->]. done.
Qed.

Lemma link_spec s l a now :
  wl_inv s l -> wl_heap s !! a = None ->
  let s' := (handle_new_connection (Some a) now true s).2 in
  (handle_new_connection (Some a) now true s).1 = 0 /\ wl_inv s' (a :: l) /\ cell s' a = Some (false, now) /\
  forall x, x <> a -> cell s' x = cell s x.
Proof.
  intros [Hl Hnd Hlive Hc Ha] Hf. cbn. split; [done|].
  set (h1 := alter _ a (<[a:=mkCell None None false 0]> (wl_heap s))).
  set (h2 := match wl_head s with Some b => alter (set_c_prev (Some a)) b h1 | None => h1 end).
  assert (a ∉ l) as Hal by (intros Hx; destruct (dl_live _ _ _ _ _ Hl Hx) as [n Hn]; congruence).
  assert (h2 !! a = Some (mkCell None (wl_head s) false now)) as H2a.
  { subst h2. rewrite push_heap. subst h1. rewrite lookup_alter_eq, lookup_insert_eq. cbn. unfold pushed.
    rewrite bool_decide_false; [done|]. rewrite (dl_head _ _ _ _ Hl). intros E. apply Hal. destruct l; [done|].
    injection E as ->. left. }
  assert (forall x, x <> a -> h2 !! x = pushed (wl_head s) a x <$> wl_heap s !! x) as H2x.
  { intros x Hx. subst h2. rewrite push_heap. subst h1. by rewrite lookup_alter_ne, lookup_insert_ne by done. }
  clearbody h1 h2. split; [constructor|split].
  - cbn. by eapply dl_push.
  - by apply list.NoDup_cons.
  - cbn. intros x [m Hm]. destruct (decide (x = a)) as [->|Hx]; [left|right]. rewrite H2x in Hm by done.
    destruct (wl_heap s !! x) as [k|] eqn:Ek; [|done]. apply Hlive. by exists k.
  - cbn. rewrite Hc. zl.
  - cbn. rewrite Ha. zl.
  - unfold cell. cbn. by rewrite H2a.
  - intros x Hx. unfold cell. cbn. rewrite H2x by done. destruct (wl_heap s !! x) as [m|]; [|done]. cbn.
    f_equal. apply pushed_cell.
Qed.

Lemma new_connection_spec ptr now epoll_ok s l :
  wl_inv s l -> (forall a, ptr = Some a -> wl_heap s !! a = None) ->
  let '(rc, s') := handle_new_connection ptr now epoll_ok s in
  (rc = 0 /\ exists a, ptr = Some a /\ wl_inv s' (a :: l) /\ cell s' a = Some (false, now) /\ forall x, x <> a -> cell s' x = cell s x) \/
  (rc = -1 /\ wl_inv s' l /\ forall x, cell s' x = cell s x).
Proof.
  intros Hi Hf. destruct ptr as [a|]; [|by right]. specialize (Hf a eq_refl).
  destruct (link_spec s l a now Hi Hf) as (H1 & H2 & H3 & H4). unfold handle_new_connection in *. cbn in *.
  destruct epoll_ok; [left; split; [done|]; by exists a|]. right. split; [done|].
  match goal with |- context [remove_connection_from_worker a ?x] => set (s1 := x) in * end.
  destruct (unlink_free_spec s1 [] a l H2) as (K1 & K2 & K3). split; [done|].
  intros x. destruct (decide (x = a)) as [->|Hx]; [|rewrite K3 by done; by apply H4].
  unfold cell at 1. rewrite K2. unfold cell. by rewrite Hf.
Qed.

(** ** The sweep *)
Definition kept (now timeout : Z) (s : worker_list) (a : Z) : bool :=
  match cell s a with Some (off, last) => off || (now - last <=? timeout) | None => false end.

Lemma filter_ext_in {A} (f g : A -> bool) l : (forall x, x ∈ l -> f x = g x) -> List.filter f l = List.filter g l.
Proof.
  induction l as [|x l IH]; intros H; cbn; [done|]. rewrite (H x) by left. rewrite IH; [done|]. intros y Hy. apply H. by right.
Qed.

Lemma reap_loop_spec fuel now timeout s l1 l2 :
  wl_inv s (l1 ++ l2) -> (length l2 <= fuel)%nat ->
  exists s', reap_loop fuel now timeout (head l2) s = Some s' /\ wl_inv s' (l1 ++ List.filter (kept now timeout s) l2) /\
    forall x, x ∈ l1 ++ List.filter (kept now timeout s) l2 -> cell s' x = cell s x.
Proof.
  revert s l1 l2. induction fuel as [|fuel IH]; intros s l1 l2 Hi Hf.
  { destruct l2; [|cbn in Hf; lia]. exists s. done. }
  destruct l2 as [|a l2]; [exists s; done|]. cbn [head reap_loop].
  destruct (dl_live _ _ _ _ a (wi_list _ _ Hi) ltac:(apply elem_of_app; right; left)) as [n Hn]. rewrite Hn.
  destruct (dl_at _ _ _ _ _ _ _ (wi_list _ _ Hi) Hn) as [Hnx _]. rewrite Hnx. cbn in Hf.
  assert (kept now timeout s a = c_offloaded n || (now - c_last_activity n <=? timeout)) as Hk
    by (unfold kept, cell; by rewrite Hn).
  cbn [List.filter]. rewrite Hk. pose proof (wi_nodup _ _ Hi) as Hnd.
  destruct (negb (c_offloaded n) && (now - c_last_activity n >? timeout)) eqn:Eg.
  - assert (c_offloaded n || (now - c_last_activity n <=? timeout) = false) as ->.
    { apply andb_true_iff in Eg as [E1 E2]. destruct (c_offloaded n); [done|]. cbn. lia. }
    destruct (unlink_free_spec s l1 a l2 Hi) as (K1 & K2 & K3). set (s1 := free_connection _ _) in *.
    destruct (IH s1 l1 l2 K1 ltac:(lia)) as (s' & E & Hi' & Hc').
    assert (forall x, x ∈ l1 ++ l2 -> cell s1 x = cell s x) as Hsame.
    { intros x Hx. apply K3. intros ->. apply list.NoDup_app in Hnd as (_ & Hd & Hn2). apply list.NoDup_cons in Hn2 as [Hn2 _].
      apply elem_of_app in Hx as [Hx|Hx]; [|done]. apply (Hd a Hx). left. }
    assert (List.filter (kept now timeout s1) l2 = List.filter (kept now timeout s) l2) as Hfe.
    { apply filter_ext_in. intros x Hx. unfold kept. rewrite Hsame; [done|]. apply elem_of_app. by right. }
    rewrite Hfe in Hi', Hc'.
    exists s'. split_and!; try done. intros x Hx. rewrite Hc' by done. apply Hsame.
    apply elem_of_app in Hx as [Hx|Hx]; apply elem_of_app; [by left|right].
    apply list_elem_of_In, List.filter_In in Hx as [Hx _]. by apply list_elem_of_In.
  - assert (c_offloaded n || (now - c_last_activity n <=? timeout) = true) as ->.
    { destruct (c_offloaded n); [done|]. cbn in *. lia. }
    rewrite (cons_middle a l1 l2), app_assoc in Hi.
    destruct (IH s (l1 ++ [a]) l2 Hi ltac:(lia)) as (s' & E & Hi' & Hc'). rewrite <- app_assoc in Hi', Hc'.
    exists s'. done.
Qed.

Lemma live_nodes s l : wl_inv s l -> (length l <= size (wl_heap s))%nat.
Proof.
  intros Hi. rewrite <- size_dom, <- (size_list_to_set (C := gset Z) l) by apply Hi.
  apply subseteq_size. intros a Ha%elem_of_list_to_set. apply elem_of_dom. eapply dl_live; [apply Hi|done].
Qed.

Lemma reap_spec now timeout s l :
  wl_inv s l -> exists s', reap_idle_connections now timeout s = Some s' /\ wl_inv s' (List.filter (kept now timeout s) l) /\
    forall x, x ∈ List.filter (kept now timeout s) l -> cell s' x = cell s x.
Proof.
  intros Hi. unfold reap_idle_connections. rewrite (dl_head _ _ _ _ (wi_list _ _ Hi)).
  apply (reap_loop_spec _ now timeout s [] l Hi). by apply live_nodes.
Qed.

(** ** Shutdown *)
(** Following [next] alone: the [prev] links are stale while the list is rebuilt. *)
Fixpoint nl (h : gmap Z cnode) (cur : option Z) (l : list Z) : Prop :=
  match l with
  | [] => cur = None
  | a :: l' => cur = Some a /\ exists n, h !! a = Some n /\ nl h (c_next n) l'
  end.

Lemma nl_frame h h' cur l :
  (forall a n, a ∈ l -> h !! a = Some n -> exists n', h' !! a = Some n' /\ c_next n' = c_next n) -> nl h cur l -> nl h' cur l.
Proof.
  revert cur. induction l as [|a l IH]; intros cur Hf; [done|]. intros (-> & n & Hn & Hl). split; [done|].
  destruct (Hf a n ltac:(left) Hn) as (n' & Hn' & Hx'). exists n'. rewrite Hx'. split; [done|].
  apply IH; [|done]. intros b m Hb. apply Hf. by right.
Qed.

Lemma dl_nl h prev cur l : dl h prev cur l -> nl h cur l.
Proof. revert prev cur. induction l as [|a l IH]; intros prev cur; [done|]. intros (-> & n & Hn & _ & Hl). split; [done|]. exists n. eauto. Qed.

Definition is_offloaded (s : worker_list) (a : Z) : bool := match cell s a with Some (off, _) => off | None => false end.

Record draining (s : worker_list) (head : option Z) (count : Z) (acc todo : list Z) : Prop := {
  dn_acc : dl (wl_heap s) None head acc;
  dn_nodup : NoDup (acc ++ todo);
  dn_live : forall a, is_Some (wl_heap s !! a) -> a ∈ acc ++ todo;
  dn_count : count = zlen acc;
  dn_active : wl_active s = zlen acc + zlen todo }.

Lemma drain_list_loop_spec fuel cur head count s acc todo :
  draining s head count acc todo -> nl (wl_heap s) cur todo -> (length todo <= fuel)%nat ->
  exists s', drain_list_loop fuel cur head count s = Some s' /\
    wl_inv s' (rev (List.filter (is_offloaded s) todo) ++ acc) /\
    forall x, x ∈ rev (List.filter (is_offloaded s) todo) ++ acc -> cell s' x = cell s x.
Proof.
  revert cur head count s acc todo. induction fuel as [|fuel IH]; intros cur hd count s acc todo [Hl Hnd Hlive Hc Ha] Hn Hf.
  all: destruct todo as [|a todo]; [cbn in Hn; subst cur; cbn;
    exists (mkList (wl_heap s) hd count (wl_active s)); rewrite ?app_nil_r in *; split; [done|]; split; [|done];
    constructor; cbn; try done; rewrite Ha, zlen_nil; lia|cbn in Hf; try lia].
  destruct Hn as (-> & n & Ha' & Hn). cbn [drain_list_loop]. rewrite Ha'. cbn [List.filter].
  assert (is_offloaded s a = c_offloaded n) as Hoff by (unfold is_offloaded, cell; by rewrite Ha'). rewrite Hoff.
  pose proof Hnd as Hnd0. apply list.NoDup_app in Hnd as (Hnda & Hdis & Hndt). apply list.NoDup_cons in Hndt as [Hat Hndt].
  assert (a ∉ acc) as Haa by (intros Hx; apply (Hdis a Hx); left).
  destruct (c_offloaded n) eqn:Eo.
  - set (h1 := alter _ a (wl_heap s)). set (h2 := match hd with Some b => _ | None => _ end).
    assert (h2 !! a = Some (mkCell None hd true (c_last_activity n))) as H2a.
    { subst h2. rewrite push_heap. subst h1. rewrite lookup_alter_eq, Ha'. cbn. unfold pushed.
      rewrite bool_decide_false; [cbn; unfold set_c_next, set_c_prev; cbn; by rewrite Eo|]. rewrite (dl_head _ _ _ _ Hl). intros E. apply Haa. destruct acc; [done|].
      injection E as ->. left. }
    assert (forall x, x <> a -> h2 !! x = pushed hd a x <$> wl_heap s !! x) as H2x.
    { intros x Hx. subst h2. rewrite push_heap. subst h1. by rewrite lookup_alter_ne by done. }
    clearbody h1 h2.
    assert (forall x, cell (set_wl_heap h2 s) x = cell s x) as Hcell.
    { intros x. unfold cell. cbn. destruct (decide (x = a)) as [->|Hx]; [by rewrite H2a, Ha'; cbn; rewrite Eo|].
      rewrite H2x by done. destruct (wl_heap s !! x); [|done]. cbn. f_equal. apply pushed_cell. }
    destruct (IH (c_next n) (Some a) (count + 1) (set_wl_heap h2 s) (a :: acc) todo) as (s' & E & Hi & Hcs).
    + constructor; cbn.
      * by eapply dl_push.
      * by rewrite <- Permutation_middle in Hnd0.
      * intros x [m Hm]. destruct (decide (x = a)) as [->|Hx]; [left|]. rewrite H2x in Hm by done.
        destruct (wl_heap s !! x) as [k|] eqn:Ek; [|done]. pose proof (Hlive x ltac:(by exists k)) as Hx'.
        rewrite elem_of_app, elem_of_cons in Hx'. rewrite elem_of_cons, elem_of_app. tauto.
      * rewrite Hc. zl.
      * rewrite Ha. zl.
    + eapply nl_frame; [|exact Hn]. intros x m Hx Hm. cbn. rewrite H2x by (intros ->; done). rewrite Hm. cbn.
      eexists. split; [done|]. apply pushed_cell.
    + cbn in Hf. lia.
    + assert (List.filter (is_offloaded (set_wl_heap h2 s)) todo = List.filter (is_offloaded s) todo) as Hfe.
      { apply filter_ext_in. intros x _. unfold is_offloaded. by rewrite Hcell. }
      rewrite Hfe in Hi, Hcs. cbn [rev]. rewrite <- app_assoc. exists s'. split_and!; try done. intros x Hx. rewrite Hcs by done. apply Hcell.
  - assert (forall x, x <> a -> cell (free_connection a s) x = cell s x) as Hcell.
    { intros x Hx. unfold cell. cbn. by rewrite lookup_delete_ne by done. }
    destruct (IH (c_next n) hd count (free_connection a s) acc todo) as (s' & E & Hi & Hcs).
    + constructor; cbn; try done.
      * eapply dl_frame; [|exact Hl]. intros x m Hx Hm. exists m. by rewrite lookup_delete_ne by (intros ->; done).
      * apply list.NoDup_app. split_and!; try done. intros x Hx Hx2. apply (Hdis x Hx). by right.
      * intros x [m Hm]. apply lookup_delete_Some in Hm as [Hxa Hm]. pose proof (Hlive x ltac:(by exists m)) as Hx'.
        rewrite elem_of_app, elem_of_cons in Hx'. rewrite elem_of_app. destruct Hx' as [?|[->|?]]; [by left|done|by right].
      * rewrite Ha, zlen_cons. pose proof (zlen_nonneg acc). pose proof (zlen_nonneg todo). destruct (Z.gtb_spec (zlen acc + (1 + zlen todo)) 0); lia.
    + eapply nl_frame; [|exact Hn]. intros x m Hx Hm. cbn. exists m. by rewrite lookup_delete_ne by (intros ->; done).
    + cbn in Hf. lia.
    + assert (List.filter (is_offloaded (free_connection a s)) todo = List.filter (is_offloaded s) todo) as Hfe.
      { apply filter_ext_in. intros x Hx. unfold is_offloaded. rewrite Hcell; [done|]. by intros ->. }
      rewrite Hfe in Hi, Hcs. exists s'. split_and!; try done. intros x Hx. rewrite Hcs by done. apply Hcell. intros ->.
      apply elem_of_app in Hx as [Hx|Hx]; [|done]. apply list_elem_of_In, in_rev, List.filter_In in Hx as [Hx _].
      apply Hat. by apply list_elem_of_In.
Qed.

(** Shutdown frees the connections no pool thread owns and keeps the others. *)
Lemma drain_spec s l :
  wl_inv s l -> exists s', drain_worker_connections s = Some s' /\ wl_inv s' (rev (List.filter (is_offloaded s) l)) /\
    forall x, x ∈ List.filter (is_offloaded s) l -> cell s' x = cell s x.
Proof.
  intros Hi. unfold drain_worker_connections.
  destruct (drain_list_loop_spec (size (wl_heap s)) (wl_head s) None 0 s [] l) as (s' & E & Hi' & Hc).
  - destruct Hi. by constructor.
  - eapply dl_nl. apply Hi.
  - by apply live_nodes.
  - rewrite app_nil_r in *. exists s'. split_and!; try done. intros x Hx. apply Hc. by rewrite list_elem_of_In, <- in_rev, <- list_elem_of_In.
Qed.

Lemma cleanup_loop_spec fuel cur s l :
  nl (wl_heap s) cur l -> NoDup l -> (forall a, is_Some (wl_heap s !! a) -> a ∈ l) -> wl_active s = zlen l -> (length l <= fuel)%nat ->
  cleanup_loop fuel cur s = Some (mkList ∅ None 0 0).
Proof.
  revert cur s l. induction fuel as [|fuel IH]; intros cur s l Hn Hnd Hlive Ha Hf.
  - destruct l as [|a l]; [|cbn in Hf; lia]. cbn in Hn. subst cur. cbn. rewrite Ha. f_equal. f_equal. apply map_eq. intros a. rewrite lookup_empty.
    destruct (wl_heap s !! a) eqn:E; [|done]. destruct (not_elem_of_nil a). apply Hlive. by rewrite E.
  - destruct l as [|a l].
    + cbn in Hn. subst cur. cbn. rewrite Ha. f_equal. f_equal. apply map_eq. intros a. rewrite lookup_empty.
      destruct (wl_heap s !! a) eqn:E; [|done]. destruct (not_elem_of_nil a). apply Hlive. by rewrite E.
    + destruct Hn as (-> & n & Hn & Hl). apply list.NoDup_cons in Hnd as [Hal Hnd]. cbn [cleanup_loop]. rewrite Hn. apply (IH _ _ l); [|done| | |cbn in Hf; lia].
      * eapply nl_frame; [|exact Hl]. intros b m Hb Hm. exists m. cbn. rewrite lookup_delete_ne; [done|]. by intros ->.
      * intros b [m Hm]. cbn in Hm. apply lookup_delete_Some in Hm as [Hne Hm]. assert (b ∈ a :: l) as Hb by (apply Hlive; by exists m).
        by apply elem_of_cons in Hb as [->|?].
      * cbn. rewrite Ha, zlen_cons. pose proof (zlen_nonneg l). destruct (Z.gtb_spec (1 + zlen l) 0); lia.
Qed.

Lemma cleanup_spec s l : wl_inv s l -> cleanup_connections s = Some (mkList ∅ None 0 0).
Proof.
  intros Hi. apply (cleanup_loop_spec _ _ _ l); [eapply dl_nl; apply Hi|apply Hi|apply Hi|apply Hi|by apply live_nodes].
Qed.

(** ** Interleavings of the worker and the pool *)
Lemma update_spec f a s l :
  wl_inv s l -> (forall n, c_prev (f n) = c_prev n /\ c_next (f n) = c_next n) ->
  wl_inv (set_wl_heap (alter f a (wl_heap s)) s) l /\ forall x, x <> a -> cell (set_wl_heap (alter f a (wl_heap s)) s) x = cell s x.
Proof.
  intros [Hl Hnd Hlive Hc Ha] Hf. split.
  - constructor; cbn; try done.
    + eapply dl_frame; [|exact Hl]. intros x n Hx Hn. destruct (decide (x = a)) as [->|Hxa].
      * rewrite lookup_alter_eq, Hn. cbn. eexists. split; [done|]. apply Hf.
      * rewrite lookup_alter_ne by done. by exists n.
    + intros x [n Hn]. apply Hlive. destruct (decide (x = a)) as [->|Hxa].
      * rewrite lookup_alter_eq in Hn. destruct (wl_heap s !! a) as [m|]; [by exists m|done].
      * rewrite lookup_alter_ne in Hn by done. by exists n.
  - intros x Hx. unfold cell. cbn. by rewrite lookup_alter_ne by done.
Qed.

(** [ow_pool] are the tasks a pool thread runs or will run. *)
Record owners := mkOwners { ow_list : worker_list; ow_pool : list Z }.

Inductive ostep : owners -> owners -> Prop :=
| os_accept ptr now epoll_ok s p :
    (forall a, ptr = Some a -> wl_heap s !! a = None) ->
    ostep (mkOwners s p) (mkOwners (handle_new_connection ptr now epoll_ok s).2 p)
| os_offload a n s p :  (** [dispatch_offloaded] with a successful submit *)
    wl_heap s !! a = Some n -> c_offloaded n = false ->
    ostep (mkOwners s p) (mkOwners (set_wl_heap (alter (set_c_offloaded true) a (wl_heap s)) s) (p ++ [a]))
| os_activity a t n s p :  (** bytes moved on an event; events of offloaded connections are deferred *)
    wl_heap s !! a = Some n -> c_offloaded n = false ->
    ostep (mkOwners s p) (mkOwners (set_wl_heap (alter (set_c_last t) a (wl_heap s)) s) p)
| os_drop a s p : ostep (mkOwners s p) (mkOwners (drop_connection a s) p)
| os_reap now timeout s s' p :
    reap_idle_connections now timeout s = Some s' -> ostep (mkOwners s p) (mkOwners s' p)
| os_done a t s p1 p2 :  (** the end of [run_offloaded_handler] *)
    ostep (mkOwners s (p1 ++ a :: p2))
      (mkOwners (set_wl_heap (alter (fun n => set_c_offloaded false (set_c_last t n)) a (wl_heap s)) s) (p1 ++ p2))
| os_drain s s' p : drain_worker_connections s = Some s' -> ostep (mkOwners s p) (mkOwners s' p).

(** A pool thread holds exactly the live connections marked [offloaded], each once. *)
Record own_inv (o : owners) (l : list Z) : Prop := {
  oi_list : wl_inv (ow_list o) l;
  oi_nodup : NoDup (ow_pool o);
  oi_owned : forall a, a ∈ ow_pool o <-> is_offloaded (ow_list o) a = true }.

Lemma is_offloaded_live s a : is_offloaded s a = true -> is_Some (wl_heap s !! a).
Proof. unfold is_offloaded, cell. destruct (wl_heap s !! a) as [n|]; [by exists n|done]. Qed.

Lemma cell_none s a : wl_heap s !! a = None -> is_offloaded s a = false.
Proof. unfold is_offloaded, cell. by intros ->. Qed.

Lemma is_offloaded_cell s s' a : cell s' a = cell s a -> is_offloaded s' a = is_offloaded s a.
Proof. unfold is_offloaded. by intros ->. Qed.

(** Freeing some connections, none of them offloaded. *)
Lemma own_inv_freed s s' p l l' :
  own_inv (mkOwners s p) l -> wl_inv s' l' -> l' ⊆ l -> (forall x, x ∈ l' -> cell s' x = cell s x) ->
  (forall x, x ∈ l -> is_offloaded s x = true -> x ∈ l') -> own_inv (mkOwners s' p) l'.
Proof.
  intros [Hi Hnd Ho] Hi' Hsub Hc Hkeep. constructor; [done|done|]. intros a. cbn. cbn in Ho, Hi. rewrite Ho. split; intros Ha.
  - rewrite (is_offloaded_cell s); [done|]. apply Hc, Hkeep; [|done]. by apply (wi_live _ _ Hi), is_offloaded_live.
  - pose proof (wi_live _ _ Hi' a (is_offloaded_live _ _ Ha)) as Hl. by rewrite (is_offloaded_cell s s' a (Hc _ Hl)) in Ha.
Qed.

Lemma drop_own a s p l : own_inv (mkOwners s p) l -> exists l', own_inv (mkOwners (drop_connection a s) p) l'.
Proof.
  intros Hi. pose proof (oi_list _ _ Hi) as Hw. cbn in Hw.
  destruct (wl_heap s !! a) as [n|] eqn:En; [|exists l; unfold drop_connection; by rewrite En].
  pose proof (wi_live _ _ Hw a ltac:(by exists n)) as Hal. apply list_elem_of_split in Hal as (l1 & l2 & ->).
  pose proof (drop_connection_spec s l1 a l2 Hw) as Hd. unfold cell at 1 in Hd. rewrite En in Hd. cbn in Hd.
  destruct (c_offloaded n) eqn:Eo; [by exists (l1 ++ a :: l2); rewrite Hd|].
  destruct Hd as (Hw' & Hna & Hc). exists (l1 ++ l2). eapply own_inv_freed; [exact Hi|done| | |].
  - intros x. rewrite !elem_of_app, elem_of_cons. tauto.
  - intros x Hx. apply Hc. intros ->. pose proof (dl_live _ _ _ _ _ (wi_list _ _ Hw') Hx) as [m Hm]. congruence.
  - intros x Hx Hox. rewrite elem_of_app, elem_of_cons in Hx. rewrite elem_of_app.
    destruct Hx as [?|[->|?]]; [by left| |by right]. unfold is_offloaded, cell in Hox. rewrite En in Hox. cbn in Hox. congruence.
Qed.

Lemma elem_of_filter_list {A} (f : A -> bool) (l : list A) x : x ∈ List.filter f l <-> x ∈ l /\ f x = true.
Proof. rewrite list_elem_of_In, List.filter_In, <- list_elem_of_In. done. Qed.

Lemma flag_own f a s p p' l b :
  own_inv (mkOwners s p) l -> (forall n, c_prev (f n) = c_prev n /\ c_next (f n) = c_next n /\ c_offloaded (f n) = b) ->
  is_Some (wl_heap s !! a) -> NoDup p' -> (forall x, x <> a -> x ∈ p' <-> x ∈ p) -> (a ∈ p' <-> b = true) ->
  own_inv (mkOwners (set_wl_heap (alter f a (wl_heap s)) s) p') l.
Proof.
  intros [Hi Hnd Ho] Hf [n Hn] Hnd' Hp Ha. cbn in *. destruct (update_spec f a s l Hi) as [Hi' Hc]; [intros m; by destruct (Hf m) as (? & ? & _)|].
  constructor; cbn; [done|done|]. intros x. destruct (decide (x = a)) as [->|Hx].
  - rewrite Ha. unfold is_offloaded, cell. cbn. rewrite lookup_alter_eq, Hn. cbn. destruct (Hf n) as (_ & _ & ->). done.
  - rewrite Hp, Ho by done. by rewrite (is_offloaded_cell _ _ x (Hc x Hx)).
Qed.

Lemma ostep_inv o o' l : own_inv o l -> ostep o o' -> exists l', own_inv o' l'.
Proof.
  intros Hi Hs. destruct Hs as [ptr now ok s p Hf|a n s p Hn Ho|a t n s p Hn Ho|a s p|now timeout s s' p E|a t s p1 p2|s s' p E].
  - pose proof Hi as [Hw Hnd Hown]. cbn in *. pose proof (new_connection_spec ptr now ok s l Hw Hf) as Hnew.
    destruct (handle_new_connection ptr now ok s) as [rc s']. cbn in *.
    destruct Hnew as [(_ & a & -> & Hw' & Ha & Hc)|(_ & Hw' & Hc)].
    + exists (a :: l). constructor; cbn; [done|done|]. intros x. rewrite Hown. destruct (decide (x = a)) as [->|Hx].
      * rewrite (cell_none s a) by by apply Hf. unfold is_offloaded. by rewrite Ha.
      * by rewrite (is_offloaded_cell s s' x (Hc x Hx)).
    + exists l. constructor; cbn; [done|done|]. intros x. by rewrite Hown, (is_offloaded_cell s s' x (Hc x)).
  - exists l. apply (flag_own _ _ _ p _ _ true); [exact Hi|done|by exists n| | |].
    + apply list.NoDup_app. split; [apply Hi|]. split; [|apply NoDup_singleton]. intros x Hx Hxa%list_elem_of_singleton. subst x.
      apply (oi_owned _ _ Hi) in Hx. unfold is_offloaded, cell in Hx. cbn in Hx. rewrite Hn in Hx. cbn in Hx. congruence.
    + intros x Hx. rewrite elem_of_app, list_elem_of_singleton. tauto.
    + split; [done|]. intros _. apply elem_of_app. right. left.
  - exists l. pose proof Hi as [Hw Hnd Hown]. cbn in *. destruct (update_spec (set_c_last t) a s l Hw ltac:(done)) as [Hw' Hc].
    constructor; cbn; [done|done|]. intros x. rewrite Hown. destruct (decide (x = a)) as [->|Hx]; [|by rewrite (is_offloaded_cell _ _ x (Hc x Hx))].
    unfold is_offloaded, cell. cbn. by rewrite lookup_alter_eq, Hn.
  - by eapply drop_own.
  - destruct (reap_spec now timeout s l (oi_list _ _ Hi)) as (s1 & E1 & Hw' & Hc). rewrite E in E1. injection E1 as <-.
    eexists. eapply own_inv_freed; [exact Hi|exact Hw'| |done|].
    + intros x Hx. by apply elem_of_filter_list in Hx as [? _].
    + intros x Hx Hox. apply elem_of_filter_list. split; [done|]. unfold kept, is_offloaded in *. destruct (cell s x) as [[off last]|]; [|done].
      by rewrite Hox.
  - exists l. pose proof (oi_nodup _ _ Hi) as Hnd. cbn in Hnd. apply list.NoDup_app in Hnd as (Hn1 & Hd & Hn2). apply list.NoDup_cons in Hn2 as [Ha2 Hn2].
    apply (flag_own _ _ _ (p1 ++ a :: p2) _ _ false); [exact Hi|done| | | |].
    + apply is_offloaded_live, (oi_owned _ _ Hi). cbn. apply elem_of_app. right. left.
    + apply list.NoDup_app. split_and!; try done. intros x Hx Hx2. apply (Hd x Hx). by right.
    + intros x Hx. rewrite !elem_of_app, elem_of_cons. tauto.
    + split; [|done]. intros [Ha|Ha]%elem_of_app; [|done]. destruct (Hd a Ha). left.
  - destruct (drain_spec s l (oi_list _ _ Hi)) as (s1 & E1 & Hw' & Hc). rewrite E in E1. injection E1 as <-.
    eexists. eapply own_inv_freed; [exact Hi|exact Hw'| | |].
    + intros x Hx. rewrite list_elem_of_In, <- in_rev, <- list_elem_of_In in Hx. by apply elem_of_filter_list in Hx as [? _].
    + intros x Hx. rewrite list_elem_of_In, <- in_rev, <- list_elem_of_In in Hx. by apply Hc.
    + intros x Hx Hox. rewrite list_elem_of_In, <- in_rev, <- list_elem_of_In. apply elem_of_filter_list. done.
Qed.

Definition no_connections : owners := mkOwners (mkList ∅ None 0 0) [].

Lemma no_connections_inv : own_inv no_connections [].
Proof.
  constructor; cbn; [|constructor|].
  - constructor; cbn; try done; [constructor|]. intros a [n Hn]. by rewrite lookup_empty in Hn.
  - intros a. rewrite cell_none by apply lookup_empty. split; [by intros ?%not_elem_of_nil|done].
Qed.

Lemma reachable_inv o : rtc ostep no_connections o -> exists l, own_inv o l.
Proof.
  intros Hr. remember no_connections as o0 eqn:E. assert (exists l, own_inv o0 l) as Hi by (subst; exists []; apply no_connections_inv).
  clear E. induction Hr as [o|o o1 o2 Hs Hr IH]; [done|]. apply IH. destruct Hi as [l Hi]. by eapply ostep_inv.
Qed.
