(* ===== verification/Pipeline.v ===== *)
(** * Pipelined requests through the worker

    What [parse_http_request] returns is a function of the request's own bytes
    ([parse_bytes]); from there one exchange, and by induction a whole
    pipeline, of [handle_client_data] and [handle_client_write]. *)
From Stdlib Require Import String.
From S2P Require Import Prelude Text Json HttpTypes HttpText Connection HttpRequest HttpFrame HttpResponse WebSocket Route Selection Worker WorkerProofs.

Local Open Scope Z_scope.

(** ** Parsing does not move bytes *)
Lemma next_line_length rest stored rest' : next_line rest = Some (stored, rest') -> zlen stored + zlen rest' = zlen rest.
Proof.
  unfold next_line. destruct (split_at 10 rest) as [[raw r]|] eqn:E; cbn; [|done].
  apply split_at_some in E as [-> _]. intros [= <- <-].
  assert (zlen (match list.last raw with Some 13 => removelast raw ++ [0] | _ => raw end) = zlen raw) as Hr.
  { destruct (list.last raw) as [c|] eqn:El; [|done].
    assert (zlen (removelast raw ++ [0]) = zlen raw) as Hr
      by (apply last_Some in El as [l' ->]; by rewrite removelast_last, !zlen_app).
    by repeat case_match. }
  rewrite zlen_app, Hr, zlen_app, zlen_cons, zlen_cons. zl.
Qed.

Lemma cstr_prefix l : exists t, l = cstr l ++ t.
Proof. induction l as [|x l [t IH]]; [by exists []|]. cbn. destruct x; [by exists (0 :: l)|..]; exists t; cbn; by f_equal. Qed.

Lemma header_loop_length fuel dn rest r saw ms rc r' buf ms' :
  header_loop fuel dn rest r saw ms = Some (rc, r', buf, ms') -> zlen buf = zlen dn + zlen rest.
Proof.
  revert dn rest r saw ms. induction fuel as [|fuel IH]; intros dn rest r saw ms.
  all: cbn [header_loop]; destruct (next_line rest) as [[stored rest']|] eqn:En;
    [apply next_line_length in En|intros [= <- <- <- <-]; by rewrite zlen_app].
  all: destruct (cstr stored) as [|c0 line0] eqn:Ec;
    [destruct (_ && _); [intros [= <- <- <- <-]; rewrite !zlen_app; lia|];
     destruct rest' as [|y ys];
       [intros [= <- <- <- <-]; rewrite !zlen_app; lia|];
     destruct (parse_request_body _ _ _) as [[[rc1 r1] ms1]|]; cbn; [|done]; intros [= <- <- <- <-]; rewrite !zlen_app; lia|].
  all: destruct (split_at 58 (c0 :: line0)) as [[name v]|] eqn:Es.
  1,3: apply split_at_some in Es as [Es _]; destruct (cstr_prefix stored) as [t Ht]; rewrite Ec, Es in Ht;
    assert (zlen (name ++ 0 :: zdrop (zlen name + 1) stored) = zlen stored) as Hz by
      (rewrite zlen_app, zlen_cons, zlen_zdrop; rewrite Ht, !zlen_app, zlen_cons;
       pose proof (zlen_nonneg name); pose proof (zlen_nonneg v); pose proof (zlen_nonneg t); lia);
    destruct (store_header_field name (skip_blanks v) r saw) as [[rc1 r1] saw1];
    destruct (negb (rc1 =? 0)); [intros [= <- <- <- <-]; rewrite !zlen_app in *; lia|].
  - done.
  - intros E. apply IH in E. rewrite !zlen_app in *. lia.
  - done.
  - intros E. apply IH in E. rewrite !zlen_app in *. lia.
Qed.

(** ** With memory available, parsing depends on the request's bytes alone *)
Definition granted (ms : list bool) : Prop := Forall (fun b => b = true) ms.

Lemma next_malloc_granted ms : granted ms -> exists ms', next_malloc ms = (true, ms') /\ granted ms'.
Proof. intros H. destruct H as [|b l -> H]; cbn; eexists; split; try done; constructor. Qed.

Lemma parse_request_body_granted body r ms1 ms2 rc r' ms1' :
  granted ms1 -> granted ms2 -> parse_request_body body r ms1 = Some (rc, r', ms1') ->
  granted ms1' /\ exists ms2', parse_request_body body r ms2 = Some (rc, r', ms2') /\ granted ms2'.
Proof.
  intros H1 H2. unfold parse_request_body.
  destruct (next_malloc_granted _ H1) as (n1 & -> & G1), (next_malloc_granted _ H2) as (n2 & -> & G2). cbn [negb].
  destruct (chunked r).
  - destruct (http_chunked_decode body) as [[]|]; cbn; intros [= <- <- <-]; (split; [done|]); by eexists.
  - destruct (_ =? 0); intros [= <- <- <-]; (split; [done|]); by eexists.
Qed.

Lemma header_loop_granted fuel dn rest r saw ms1 ms2 rc r' buf ms1' :
  granted ms1 -> granted ms2 -> header_loop fuel dn rest r saw ms1 = Some (rc, r', buf, ms1') ->
  granted ms1' /\ exists ms2', header_loop fuel dn rest r saw ms2 = Some (rc, r', buf, ms2') /\ granted ms2'.
Proof.
  intros H1 H2. revert dn rest r saw. induction fuel as [|fuel IH]; intros dn rest r saw.
  all: cbn [header_loop]; destruct (next_line rest) as [[stored rest']|];
    [|intros [= <- <- <- <-]; split; [done|by eexists]].
  all: destruct (cstr stored) as [|c0 line0];
    [destruct (_ && _); [intros [= <- <- <- <-]; split; [done|by eexists]|];
     destruct rest' as [|y ys]; [intros [= <- <- <- <-]; split; [done|by eexists]|];
     destruct (parse_request_body (y :: ys) r ms1) as [[[rc1 r1] m1]|] eqn:Eb; cbn; [|done]; intros [= <- <- <- <-];
     destruct (parse_request_body_granted _ _ _ _ _ _ _ H1 H2 Eb) as (G1 & m2 & -> & G2); split; [done|by eexists]|].
  all: destruct (split_at 58 (c0 :: line0)) as [[name v]|];
    [destruct (store_header_field name (skip_blanks v) r saw) as [[rc1 r1] saw1];
     destruct (negb (rc1 =? 0)); [intros [= <- <- <- <-]; split; [done|by eexists]|]|].
  all: first [done|apply IH].
Qed.

(** The request the parser makes of exactly these bytes, with its return code. *)
Definition parse_bytes (f : bytes) : option (Z * http_request) :=
  '(stored, rest) ← next_line f;
  let '(rc, request) := parse_request_line (cstr stored) request_zero in
  if negb (rc =? 0) then Some (-1, request) else
  '(rc, request, _, _) ← header_loop (length rest) stored rest request false [];
  Some (rc, request).

Lemma parse_http_request_bytes n c r :
  0 <= n <= zlen (conn_rbuf c) -> mallocs_ok c -> parse_bytes (ztake n (conn_rbuf c)) = Some (0, r) ->
  exists buf ms, parse_http_request n c =
      Some (0, set_conn_malloc ms (set_conn_request r (set_conn_rbuf (buf ++ zdrop n (conn_rbuf c)) c))) /\
    zlen buf = n /\ granted ms.
Proof.
  intros Hn Hm. unfold parse_bytes, parse_http_request.
  destruct (Z.gtb_spec n (zlen (conn_rbuf c))) as [?|_]; [lia|].
  destruct (next_line (ztake n (conn_rbuf c))) as [[stored rest]|] eqn:En; cbn; [|done].
  destruct (parse_request_line (cstr stored) request_zero) as [rc0 r0].
  destruct (negb (rc0 =? 0)); [by intros [= ? ?]|].
  destruct (header_loop (length rest) stored rest r0 false []) as [[[[rc1 r1] buf] ms]|] eqn:Eh; cbn; [|done].
  intros [= -> ->].
  destruct (header_loop_granted _ _ _ _ _ [] (conn_malloc c) _ _ _ _ ltac:(constructor) Hm Eh) as (_ & ms2 & -> & G). cbn.
  exists buf, ms2. split; [done|]. split; [|done]. apply header_loop_length in Eh. apply next_line_length in En.
  rewrite zlen_ztake in En. lia.
Qed.

(** ** One exchange *)
Lemma conn_ensure_buffers_granted c :
  conn_read_alloc c = true -> mallocs_ok c ->
  exists m, conn_ensure_buffers c = (true, set_conn_malloc m (set_tables true true c)) /\ granted m.
Proof.
  intros Ha Hm. unfold conn_ensure_buffers, conn_next_malloc, mallocs_ok in *.
  destruct c as [st ssl ra rb rc wa wb wp wc rq th rs rh au an ws wcl fd fo fz ms]. cbn in *. subst ra. cbn.
  destruct th; cbn.
  - destruct rh; cbn; [exists ms; done|]. destruct Hm as [|b l -> Hm]; cbn; eexists; split; try done; constructor.
  - destruct Hm as [|b l -> Hm]; cbn.
    + destruct rh; cbn; eexists; split; try done; constructor.
    + destruct rh; cbn; [by eexists|]. destruct Hm as [|b l' -> Hm]; cbn; eexists; split; try done; constructor.
Qed.

Section pipeline.
Context (gzip : bytes -> option bytes) (server_name : bytes) (now : Z).
Context (inet_pton4 inet_pton6 : bytes -> option bytes) (cfg : config).
Context (answer : http_request -> bytes).

#[local] Abbreviation data := (handle_client_data gzip server_name now inet_pton4 inet_pton6 cfg).
#[local] Abbreviation write := (handle_client_write gzip server_name now inet_pton4 inet_pton6 cfg).

(** What a connection is between requests, with [b] received and not yet framed
    and nothing more on the socket. *)
Record quiet (w : wconn) (b : bytes) : Prop := {
  qu_ok : conn_ok (w_conn w);
  qu_mallocs : mallocs_ok (w_conn w);
  qu_rbuf : conn_rbuf (w_conn w) = b;
  qu_alloc : conn_read_alloc (w_conn w) = true;
  qu_cap : zlen b + 1 < read_buffer_cap (w_conn w) <= READ_MAX;
  qu_file : file_fd (w_conn w) = -1;
  qu_ws : websocket_handshake_complete (w_conn w) = false;
  qu_reads : w_reads w = [];
  qu_epoll : w_epoll w = [];
  qu_proxy : trust_proxy_protocol cfg && negb (w_proxy_done w) = false }.
Record ready (w : wconn) (b : bytes) : Prop := {
  rd_quiet : quiet w b;
  rd_state : conn_state (w_conn w) = CONN_STATE_READING_REQUEST;
  rd_wbuf : conn_wbuf (w_conn w) = [];
  rd_response : conn_response (w_conn w) = response_zero;
  rd_continue : w_continue_pos w = 0 }.
(** A response staged, the bytes [b] of later requests behind it. *)
Record staged (w : wconn) (b resp : bytes) : Prop := {
  sg_quiet : quiet w b;
  sg_state : conn_state (w_conn w) = CONN_STATE_WRITING_RESPONSE;
  sg_wbuf : conn_wbuf (w_conn w) = resp;
  sg_pos : write_buffer_pos (w_conn w) = 0;
  sg_keep : req_keep_alive (conn_request (w_conn w)) = true /\ resp_keep_alive (conn_response (w_conn w)) = true }.

(** The route's handler answers the request at [c]: it stages [answer] of it and
    leaves what has been read alone. *)
Record answers_at (c : connection) (h : handler) (c' : connection) : Prop := {
  an_run : run_with_middleware (srv_middlewares cfg) h c = Some (0, c');
  an_ok : conn_ok c';
  an_mallocs : mallocs_ok c';
  an_wbuf : conn_wbuf c' = answer (conn_request c);
  an_pos : write_buffer_pos c' = 0;
  an_read : (conn_read_alloc c', conn_rbuf c', read_buffer_cap c') = (conn_read_alloc c, conn_rbuf c, read_buffer_cap c);
  an_request : conn_request c' = conn_request c;
  an_keep : resp_keep_alive (conn_response c') = true;
  an_file : file_fd c' = file_fd c;
  an_ws : websocket_handshake_complete c' = websocket_handshake_complete c }.
Definition serves : Prop := forall c,
  conn_ok c -> mallocs_ok c -> conn_wbuf c = [] -> file_fd c = -1 -> req_keep_alive (conn_request c) = true ->
  conn_response c = response_zero -> exists h off c', resolve_handler (req_uri (conn_request c)) (req_method (conn_request c)) (srv_routes cfg) (srv_default cfg)
                     = (Some h, off) /\ answers_at c h c'.

(** The bytes of one complete keep-alive request. *)
Record request_bytes (f : bytes) (r : http_request) : Prop := {
  rb_frame : exists e, check_request_frame f (max_request_size cfg) = Some (FrameOk (zlen f), e);
  rb_parse : parse_bytes f = Some (0, r);
  rb_keep : req_keep_alive r = true }.

Hypothesis max_size : 0 <= max_request_size cfg <= READ_MAX.
Hypothesis serving : serves.
Hypothesis inline : srv_pool cfg = false.

Lemma quiet_not_full w b : quiet w b -> read_full w = false.
Proof using.
  intros Q. unfold read_full. rewrite (qu_rbuf _ _ Q). pose proof (qu_cap _ _ Q) as Hc. unfold READ_MAX in Hc.
  pose proof (zlen_nonneg b). rewrite Z.geb_leb, Z.leb_gt. unfold u64.
  rewrite uwrap_small by (change (2 ^ 64) with 18446744073709551616; lia). lia.
Qed.

(** [handle_client_data] on a quiet connection is the framing of what it holds. *)
Lemma data_ready w b : ready w b ->
  exists w1, data w = frame_request gzip server_name now cfg false false w1 /\ ready w1 b /\
    (w_sent w1, w_writes w1, w_interest w1) = (w_sent w, w_writes w, w_interest w).
Proof using max_size.
  intros [Q Hst Hwb Hrs Hct]. pose proof Q as [Hok Hm Hrb Hra Hcap Hfd Hws Hrd Hep Hpx].
  destruct (conn_ensure_buffers_granted _ Hra Hm) as (m & Ee & Gm).
  set (w1 := set_w_conn (set_conn_malloc m (set_tables true true (w_conn w))) w).
  assert (quiet w1 b) as Q1.
  { destruct Hok as [H1 H2 H3 H4 H5]. constructor; cbn; try done. }
  exists w1. split_and!; try done.
  unfold handle_client_data. rewrite Ee. cbn [negb]. fold w1.
  assert (conn_state (set_conn_malloc m (set_tables true true (w_conn w))) = CONN_STATE_READING_REQUEST) as -> by done.
  destruct (drain_loop_spec now cfg max_size (S (recv_size (w_reads w1))) w1) as (rc & full & closed & w' & got & Ed & _ & _ & Hs).
  { split; [apply Q1|]. pose proof (qu_cap _ _ Q1). pose proof (zlen_nonneg b). lia. }
  { lia. }
  destruct (Hs ltac:(done) (quiet_not_full _ _ Q1)) as [[= -> -> ->] ->].
  unfold drain_socket_reads. rewrite Ed. pose proof (qu_proxy _ _ Q1) as Hp. cbn in Hp |- *. by rewrite Hp.
Qed.

(** A framed request is parsed, consumed and answered. *)
Lemma dispatch_request_step w f rest r :
  ready w (f ++ rest) -> request_bytes f r ->
  exists w', dispatch_request gzip server_name now cfg (zlen f) w = Some (0, w') /\ staged w' rest (answer r) /\
    (w_sent w', w_writes w') = (w_sent w, w_writes w).
Proof using serving inline.
  intros [Q Hst Hwb Hrs Hct] [_ Hpb Hka]. pose proof Q as [Hok Hm Hrb Hra Hcap Hfd Hws Hrd Hep Hpx].
  unfold dispatch_request. cbn [map_conn w_conn set_w_conn].
  set (c0 := set_conn_state CONN_STATE_PROCESSING (w_conn w)).
  assert (ztake (zlen f) (conn_rbuf c0) = f) as Ht by (cbn; rewrite Hrb; by apply ztake_app_eq).
  destruct (parse_http_request_bytes (zlen f) c0 r) as (buf & ms & -> & Hbuf & Gm).
  { cbn. rewrite Hrb, zlen_app. pose proof (zlen_nonneg f). pose proof (zlen_nonneg rest). lia. }
  { done. }
  { by rewrite Ht. }
  assert (zdrop (zlen f) (conn_rbuf c0) = rest) as -> by (cbn; rewrite Hrb; by apply zdrop_app_eq).
  unfold conn_consume_read. cbn [mbind option_bind w_conn set_w_conn].
  change (0 =? -2) with false. change (negb (0 =? 0)) with false. cbn iota.
  match goal with |- context [set_conn_rbuf (zdrop (zlen f) (conn_rbuf ?x)) ?x] =>
    assert (zdrop (zlen f) (conn_rbuf x) = rest) as -> by (cbn; by apply zdrop_app_eq);
    set (c1 := set_conn_rbuf rest x) end.
  rewrite zlen_app in Hcap. pose proof (zlen_nonneg f).
  destruct (serving c1) as (h & off & c2 & Er & [A1 A2 A3 A4 A5 A6 A7 A8 A9 A10]); try done.
  { destruct Hok as [H1 H2 H3 H4 H5]. subst c1. constructor; cbn; try done. lia. }
  rewrite Er, inline. cbn [andb]. rewrite andb_false_r. cbn [andb].
  unfold respond, run_handler. cbn. rewrite A1. cbn. unfold finalize_response, arm_socket. cbn. rewrite Hep. cbn.
  eexists. split; [done|]. split; [|done]. injection A6 as A61 A62 A63.
  destruct A2 as [K1 K2 K3 K4 K5]. constructor; cbn; try done; [constructor; cbn; try done|by rewrite A7].
  - by rewrite A61.
  - rewrite A63. subst c1. cbn. lia.
  - by rewrite A9.
  - by rewrite A10.
Qed.

Lemma data_step w f rest r :
  ready w (f ++ rest) -> request_bytes f r -> zlen (f ++ rest) + max_request_size cfg <= SIZE_MAX ->
  exists w', data w = Some (0, w') /\ staged w' rest (answer r) /\ (w_sent w', w_writes w') = (w_sent w, w_writes w).
Proof using max_size serving inline.
  intros Hw Hrb Hsz. destruct (data_ready _ _ Hw) as (w1 & -> & R1 & Hk).
  destruct (dispatch_request_step _ _ _ _ R1 Hrb) as (w' & E & S' & Hk').
  exists w'. split; [|split; [done|congruence]].
  destruct Hrb as [[e Hf] _ _]. unfold frame_request. rewrite (qu_rbuf _ _ (rd_quiet _ _ R1)).
  rewrite (frame_stable _ rest _ _ _ Hsz Hf). cbn. by rewrite (rd_continue _ _ R1).
Qed.

(** A request that is still arriving leaves the connection as it is. *)
Lemma data_more w b :
  ready w b -> check_request_frame b (max_request_size cfg) = Some (FrameMore, false) ->
  exists w', data w = Some (0, w') /\ ready w' b /\ (w_sent w', w_writes w', w_interest w') = (w_sent w, w_writes w, w_interest w).
Proof using max_size.
  intros Hw Hf. destruct (data_ready _ _ Hw) as (w1 & -> & R1 & Hk). exists w1. split; [|done].
  unfold frame_request. rewrite (qu_rbuf _ _ (rd_quiet _ _ R1)), Hf. done.
Qed.

(** A socket that takes a whole response in each of at least [k] writes. *)
Definition ample (k : nat) (w : wconn) : Prop :=
  (k <= length (w_writes w))%nat /\ Forall (fun a => exists n, a = SendUpTo n /\ MAX_RESPONSE_SIZE <= n) (w_writes w).

Lemma flush_ample k w :
  ample (S k) w -> conn_ok (w_conn w) -> write_buffer_pos (w_conn w) = 0 ->
  exists w', flush_write_buffer now w = Some (0, w') /\ ample k w' /\ w_sent w' = w_sent w ++ conn_wbuf (w_conn w) /\
    w_conn w' = set_write_buffer_pos (zlen (conn_wbuf (w_conn w))) (w_conn w) /\ w_write_rest w' = w_write_rest w.
Proof using.
  intros [Hlen Hall] Hok Hpos. unfold flush_write_buffer.
  assert (set_write_buffer_pos 0 (w_conn w) = w_conn w) as Hsame by (destruct (w_conn w); cbn in *; by subst).
  destruct (w_writes w) as [|a l] eqn:Ew; [cbn in Hlen; lia|]. apply list.Forall_cons in Hall as [(n & -> & Hn) Hall].
  cbn [flush_loop length]. rewrite Hpos, zdrop_0. destruct Hok as [H1 H2 H3 H4 H5].
  destruct (Z.ltb_spec 0 (zlen (conn_wbuf (w_conn w)))) as [Hlt|Hge].
  - unfold conn_send. rewrite Ew. cbn [send_to]. rewrite Z.min_r by lia.
    destruct (Z.leb_spec (zlen (conn_wbuf (w_conn w))) 0); [lia|]. cbn -[flush_loop]. cbn [flush_loop].
    cbn. rewrite Z.ltb_irrefl. eexists. split; [done|]. split; [split; [cbn in *; lia|done]|].
    cbn. rewrite ztake_all by lia. done.
  - assert (conn_wbuf (w_conn w) = []) as Hnil by (apply zlen_0_nil; pose proof (zlen_nonneg (conn_wbuf (w_conn w))); lia).
    exists w. split; [done|]. split; [split; [rewrite Ew; cbn in *; lia|rewrite Ew; by constructor; [exists n|]]|].
    rewrite Hnil, app_nil_r, zlen_nil. done.
Qed.

Lemma conn_release_idle_kept c :
  conn_ok c -> mallocs_ok c -> conn_read_alloc c = true -> conn_rbuf c = [] -> 1 < read_buffer_cap c <= READ_MAX ->
  let c' := conn_release_idle c in
  conn_ok c' /\ mallocs_ok c' /\ conn_read_alloc c' = true /\ conn_rbuf c' = [] /\ 1 < read_buffer_cap c' <= READ_MAX /\
  conn_wbuf c' = [] /\ conn_state c' = conn_state c /\ file_fd c' = file_fd c /\
  websocket_handshake_complete c' = websocket_handshake_complete c /\
  (conn_response c = response_zero -> conn_response c' = response_zero).
Proof using.
  intros Hok Hm Ha Hb Hc c'. destruct (conn_release_idle_ok _ Hok) as [Hok' Hrb']. fold c' in Hok', Hrb'.
  split; [exact Hok'|]. rewrite Hb in Hrb'. clear Hok Hok'. subst c'. revert Hrb'. unfold conn_release_idle. cbv zeta.
  set (c0 := set_response_headers false _).
  assert (mallocs_ok c0 /\ conn_read_alloc c0 = true /\ conn_rbuf c0 = [] /\ read_buffer_cap c0 = read_buffer_cap c /\
    conn_wbuf c0 = [] /\ conn_state c0 = conn_state c /\ file_fd c0 = file_fd c /\
    websocket_handshake_complete c0 = websocket_handshake_complete c /\
    (conn_response c = response_zero -> conn_response c0 = response_zero)) as (M & A & B & C & D & E & F & G & R).
  { subst c0. destruct c; cbn in *. split_and!; try (assumption || reflexivity). by intros ->. }
  clearbody c0. rewrite <- C in Hc. rewrite A, B, <- E, <- F, <- G. revert R. generalize (conn_response c = response_zero). intros P R. clear C E F G c Hm Ha Hb.
  assert (1 < CONN_READ_BUFFER_MIN <= READ_MAX) as Hmin by (unfold CONN_READ_BUFFER_MIN, BUFFER_SIZE, READ_MAX; lia).
  destruct (_ && _); [|intros _; split_and!; first [assumption|reflexivity|apply Hc]].
  destruct (conn_next_malloc c0) as [ok c1] eqn:Em. destruct (conn_next_malloc_spec _ _ _ Em) as (Hms & Hr1 & Hw1 & Hrc1 & _ & _ & Hra1 & _).
  destruct (Hms M) as [-> M1]. pose proof (conn_next_malloc_rest _ _ _ Em) as Hrest. injection Hrest as E1 _ _ E4 _ _ E2 _ E3 _ _.
  intros Hrb. cbn -[CONN_READ_BUFFER_MIN] in *. split_and!; first [assumption|reflexivity|apply Hmin|congruence|(intros HP; rewrite E4; exact (R HP))].
Qed.

(** Once the response is out the connection is ready for what follows it. *)
Lemma write_step k w b resp :
  staged w b resp -> ample (S k) w -> enable_keepalive cfg = true ->
  exists w1, write w = (if zlen b >? 0 then data w1 else Some (0, w1)) /\ ready w1 b /\ ample k w1 /\
    w_sent w1 = w_sent w ++ resp /\ w_interest w1 = Z.lor EPOLLIN EPOLLET.
Proof using.
  intros [Q Hst Hwb Hpos [Hk1 Hk2]] Ha Hka. pose proof Q as [Hok Hm Hrb Hra Hcap Hfd Hws Hrd Hep Hpx].
  destruct (flush_ample k w Ha Hok Hpos) as (w0 & Ef & Ha0 & Hs0 & Hc0 & Hr0).
  injection Hr0 as R1 R2 R3 R4 R5 R6 R7 R8 R9 R10.
  unfold handle_client_write. rewrite Hst, Ef. cbn -[flush_write_buffer]. rewrite Hc0. cbn. rewrite Hfd. cbn.
  rewrite Hc0. cbn. rewrite Hws, Hk1, Hk2, Hka. cbn.
  unfold reset_for_next_request, arm_socket. cbn. rewrite Hc0. cbn. rewrite Hrb.
  match goal with |- context [map_conn conn_release_idle ?x] => set (w2 := x) end.
  assert (ready w2 b /\ ample k w2 /\ w_sent w2 = w_sent w ++ resp /\ w_epoll w2 = []) as (Hr2 & Ha2 & Hs2 & He2).
  { split_and!.
    - constructor; [|done|done|done|done]. constructor; cbn; rewrite ?R5, ?R6, ?R2; try done.
      all: rewrite ?Hc0; cbn; try done. destruct Hok as [H1 H2 H3 H4 H5]. constructor; cbn; try done; zl.
    - done.
    - cbn. by rewrite Hs0, Hwb.
    - cbn. by rewrite R6. }
  clearbody w2. clear - Hr2 Ha2 Hs2 He2. set (w3 := if zlen b =? 0 then _ else _).
  assert (ready w3 b /\ ample k w3 /\ w_sent w3 = w_sent w ++ resp /\ w_epoll w3 = []) as (Hr3 & Ha3 & Hs3 & He3).
  { subst w3. destruct (Z.eqb_spec (zlen b) 0) as [Hz|_]; [|done]. apply zlen_0_nil in Hz. subst b. split_and!; try done.
    destruct Hr2 as [[H1 H2 H3 H4 H5 H6 H7 H8 H9 H10] H11 H12 H13 H14].
    destruct (conn_release_idle_kept (w_conn w2) H1 H2 H4 H3) as (I1 & I2 & I3 & I4 & I5 & I6 & I7 & I8 & I9 & I10).
    { rewrite zlen_nil in H5. lia. }
    constructor; [constructor| | | |]; cbn -[conn_release_idle]; try done; try congruence; by apply I10. }
  clearbody w3. rewrite He3. exists (set_w_interest (Z.lor EPOLLIN EPOLLET) (set_w_epoll [] w3)).
  destruct Hr3 as [[H1 H2 H3 H4 H5 H6 H7 H8 H9 H10] H11 H12 H13 H14]. cbn. rewrite H3. split_and!; try done.
Qed.

(** ** The pipeline *)
(** [k] times the socket becomes writable. *)
Fixpoint pump (k : nat) (w : wconn) : option (Z * wconn) :=
  match k with
  | O => Some (0, w)
  | S k' => '(rc, w) ← write w; if rc =? 0 then pump k' w else Some (rc, w)
  end.

Lemma pump_staged fs rs tail w resp :
  staged w (concat fs ++ tail) resp -> Forall2 request_bytes fs rs -> ample (S (length fs)) w ->
  enable_keepalive cfg = true -> zlen (concat fs ++ tail) + max_request_size cfg <= SIZE_MAX ->
  check_request_frame tail (max_request_size cfg) = Some (FrameMore, false) ->
  exists w', pump (S (length fs)) w = Some (0, w') /\ ready w' tail /\ w_sent w' = w_sent w ++ resp ++ flat_map answer rs /\
    w_interest w' = Z.lor EPOLLIN EPOLLET.
Proof using max_size serving inline.
  intros Hs Hf. revert w resp Hs. induction Hf as [|f r fs rs Hf Hfs IH]; intros w resp Hs Ha Hk Hsz Ht.
  - cbn [concat app length] in *. destruct (write_step _ _ _ _ Hs Ha Hk) as (w1 & E & R & _ & Hse & Hi).
    cbn [pump]. rewrite E. cbn [flat_map]. rewrite app_nil_r.
    destruct (zlen tail >? 0); [|by exists w1].
    destruct (data_more _ _ R Ht) as (w2 & -> & R2 & Hk2). injection Hk2 as E1 E2 E3. exists w2. split; [done|].
    split; [done|]. split; congruence.
  - cbn [concat length] in *. rewrite <- app_assoc in *.
    destruct (write_step _ _ _ _ Hs Ha Hk) as (w1 & E & R & Ha1 & Hse & Hi).
    destruct (data_step _ _ _ _ R Hf Hsz) as (w2 & E2 & S2 & Hk2). injection Hk2 as K1 K2.
    assert (zlen (f ++ concat fs ++ tail) >? 0 = true) as Hpos.
    { rewrite zlen_app. destruct Hf as [[e Hfr] _ _]. destruct f; [done|].
      rewrite zlen_cons. pose proof (zlen_nonneg f). pose proof (zlen_nonneg (concat fs ++ tail)). lia. }
    destruct (IH w2 (answer r) S2) as (w' & E' & R' & Hs' & Hi'); try done.
    { destruct Ha1 as [L1 L2]. split; rewrite K2; done. }
    { rewrite !zlen_app in *. pose proof (zlen_nonneg f). lia. }
    exists w'. split_and!; try done.
    + cbn [pump]. rewrite E, Hpos, E2. cbn. exact E'.
    + rewrite Hs', K1, Hse. cbn [flat_map]. by rewrite !app_assoc.
Qed.

(** Requests that arrived together are answered one by one, in order, with
    nothing lost between them, and an incomplete one after them waits. *)
Lemma pipeline_spec f r fs rs tail w :
  ready w (f ++ concat fs ++ tail) -> request_bytes f r -> Forall2 request_bytes fs rs -> ample (S (length fs)) w ->
  enable_keepalive cfg = true -> zlen (f ++ concat fs ++ tail) + max_request_size cfg <= SIZE_MAX ->
  check_request_frame tail (max_request_size cfg) = Some (FrameMore, false) ->
  exists w1 w2, data w = Some (0, w1) /\ pump (S (length fs)) w1 = Some (0, w2) /\ ready w2 tail /\
    w_sent w2 = w_sent w ++ flat_map answer (r :: rs) /\ w_interest w2 = Z.lor EPOLLIN EPOLLET.
Proof using max_size serving inline.
  intros Hr Hf Hfs Ha Hk Hsz Ht. destruct (data_step _ _ _ _ Hr Hf Hsz) as (w1 & E1 & S1 & K). injection K as K1 K2.
  destruct (pump_staged fs rs tail w1 (answer r) S1 Hfs) as (w2 & E2 & R2 & Hs & Hi); try done.
  { destruct Ha as [L1 L2]. split; rewrite K2; done. }
  { rewrite !zlen_app in *. pose proof (zlen_nonneg f). lia. }
  exists w1, w2. split_and!; try done. rewrite Hs, K1. done.
Qed.
End pipeline.

(** ** Termination *)
Lemma header_loop_total fuel dn rest r saw ms : (length rest <= fuel)%nat -> is_Some (header_loop fuel dn rest r saw ms).
Proof.
  revert dn rest r saw. induction fuel as [|fuel IH]; intros dn rest r saw Hf.
  { destruct rest; [|cbn in Hf; lia]. cbn. by eexists. }
  cbn [header_loop]. destruct (next_line rest) as [[stored rest']|] eqn:En; [|by eexists].
  assert (length rest' <= fuel)%nat as Hr.
  { unfold next_line in En. destruct (split_at 10 rest) as [[raw r']|] eqn:Es; [|done]. cbn in En. injection En as _ <-.
    apply split_at_some in Es as [-> _]. rewrite length_app in Hf. cbn in Hf. lia. }
  destruct (cstr stored) as [|c0 line].
  - destruct (_ && _); [by eexists|]. destruct rest' as [|y ys]; [by eexists|]. unfold parse_request_body.
    destruct (http_chunked_decode_total (y :: ys)) as [d ->].
    destruct (chunked r); [destruct (next_malloc ms) as [[] ms1]; cbn; [|by eexists]; destruct d; by eexists|].
    destruct (_ =? 0); cbn; [by eexists|]. destruct (next_malloc ms) as [[] ms1]; by eexists.
  - destruct (split_at 58 (c0 :: line)) as [[name v]|]; [|by apply IH].
    destruct (store_header_field name (skip_blanks v) r saw) as [[rc r1] saw1]. destruct (negb (rc =? 0)); [by eexists|by apply IH].
Qed.

Lemma parse_http_request_total n c : is_Some (parse_http_request n c).
Proof.
  unfold parse_http_request. destruct (_ >? _); [by eexists|].
  destruct (next_line (ztake n (conn_rbuf c))) as [[stored rest]|]; [|by eexists].
  destruct (parse_request_line (cstr stored) request_zero) as [rc r]. destruct (negb (rc =? 0)); [by eexists|].
  destruct (header_loop_total (length rest) stored rest r false (conn_malloc c) (Nat.le_refl _)) as [[[[rc1 r1] buf] ms] ->].
  by eexists.
Qed.

Lemma check_request_frame_total buf max_body : is_Some (check_request_frame buf max_body).
Proof.
  unfold check_request_frame. destruct (header_end buf 0) as [[he hl]|] eqn:Eh; [|by eexists].
  destruct (bool_decide _); [by eexists|].
  destruct (frame_lines_total (length buf) (ztake he buf) (mkFraming 0 false false false)) as [[e|f] ->]; cbn.
  - unfold ztake. rewrite length_take. lia.
  - by eexists.
  - destruct (fr_chunked f).
    + destruct (fr_saw_length f); [by eexists|]. destruct (http_chunked_decode_total (zdrop hl buf)) as [d ->]. by eexists.
    + destruct (_ >? _); [by eexists|]. destruct (_ >? _); by eexists.
Qed.

Lemma continue_loop_total fuel w : (length (w_writes w) < fuel)%nat -> is_Some (continue_loop fuel w).
Proof.
  revert w. induction fuel as [|fuel IH]; intros w Hf; [lia|]. cbn [continue_loop].
  destruct (_ <? _); [|by eexists].
  destruct (conn_send (zdrop (w_continue_pos w) INTERIM) w) as [[r n] w1] eqn:E.
  destruct (conn_send_spec _ _ _ _ _ E) as (_ & _ & _ & _ & _ & _ & Hok & _).
  destruct r; [|by eexists..]. apply IH. cbn. destruct (Hok eq_refl). lia.
Qed.

Section totality.
Context (gzip : bytes -> option bytes) (server_name : bytes) (now : Z).
Context (inet_pton4 inet_pton6 : bytes -> option bytes) (cfg : config).
Hypothesis max_size : 0 <= max_request_size cfg <= READ_MAX.
(** Every handler the server can pick returns. *)
Hypothesis handlers_return : forall uri method h off c,
  resolve_handler uri method (srv_routes cfg) (srv_default cfg) = (Some h, off) ->
  is_Some (run_with_middleware (srv_middlewares cfg) h c).

Lemma respond_total uri method h off w :
  resolve_handler uri method (srv_routes cfg) (srv_default cfg) = (h, off) ->
  is_Some (respond gzip server_name now cfg h w).
Proof using handlers_return.
  intros Er. unfold respond, run_handler. destruct h as [h|]; [|by eexists].
  destruct (handlers_return _ _ _ _ (w_conn w) Er) as [[rc c] ->]. by eexists.
Qed.

Lemma dispatch_request_total n w : is_Some (dispatch_request gzip server_name now cfg n w).
Proof using handlers_return.
  unfold dispatch_request. destruct (parse_http_request_total n (w_conn (map_conn (set_conn_state CONN_STATE_PROCESSING) w))) as [[rc c] ->].
  cbn [mbind option_bind]. destruct (rc =? -2); [by eexists|]. destruct (negb (rc =? 0)); [by eexists|].
  destruct (resolve_handler _ _ _ _) as [h off] eqn:Er.
  destruct h as [h|]; [|by eapply respond_total]. destruct (_ && _); [|by eapply respond_total].
  destruct (dispatch_offloaded _ _) as [[] w1]; [by eexists|by eapply respond_total].
Qed.

Lemma frame_request_total full closed w : is_Some (frame_request gzip server_name now cfg full closed w).
Proof using handlers_return.
  unfold frame_request. destruct (check_request_frame_total (conn_rbuf (w_conn w)) (max_request_size cfg)) as [[fr e] ->].
  cbn [mbind option_bind]. destruct (continue_loop_total (S (length (w_writes w))) w ltac:(lia)) as [[rc1 w1] Ec].
  destruct fr; try by eexists.
  - destruct full; [by eexists|]. destruct closed; [by eexists|]. destruct (_ && _); [|by eexists].
    unfold send_100_continue. rewrite Ec. by eexists.
  - destruct (_ && _); [|by apply dispatch_request_total]. unfold send_100_continue. rewrite Ec. cbn [mbind option_bind].
    destruct (_ || _); [by eexists|by apply dispatch_request_total].
Qed.

(** The connection is of a kind its event can be handled on: its read buffer,
    once there, is of a usable size, and its bytes are bytes. *)
Definition event_ready (w : wconn) : Prop :=
  conn_ok (w_conn w) /\ (conn_read_alloc (w_conn w) = true -> 2 <= read_buffer_cap (w_conn w) <= READ_MAX) /\
  nonneg_bytes (conn_rbuf (w_conn w)) /\ nonneg_bytes (recv_bytes (w_reads w)).

Lemma conn_ensure_buffers_ready c c' :
  conn_ok c -> (conn_read_alloc c = true -> 2 <= read_buffer_cap c <= READ_MAX) -> nonneg_bytes (conn_rbuf c) ->
  conn_ensure_buffers c = (true, c') -> read_ready c' /\ nonneg_bytes (conn_rbuf c').
Proof using.
  intros [H1 H2 H3 H4 H5] Hc Hn. unfold conn_ensure_buffers.
  set (x := if conn_read_alloc c then _ else _). destruct x as [ok c1] eqn:Ex.
  assert (ok = true -> read_ready c1 /\ nonneg_bytes (conn_rbuf c1)) as Hx.
  { subst x. destruct (conn_read_alloc c) eqn:Ea.
    - injection Ex as <- <-. intros _. split; [split; [constructor; try done; by rewrite Ea|exact (Hc eq_refl)]|done].
    - destruct (conn_next_malloc c) as [b c2] eqn:Em.
      destruct (conn_next_malloc_spec _ _ _ Em) as (_ & Hr & Hw & Hrc & Hwc & _ & _ & Hwa). injection Ex as <- <-.
      intros ->. split; [|constructor]. split; [|cbn -[CONN_READ_BUFFER_MIN]; unfold READ_MAX, CONN_READ_BUFFER_MIN, BUFFER_SIZE; lia].
      constructor; cbn -[MAX_RESPONSE_SIZE]; rewrite ?Hw, ?Hwc, ?Hwa; try done. }
  clearbody x. destruct ok; cbn [negb]; [|done]. destruct (Hx eq_refl) as [Hr Hb]. clear Hx Ex.
  assert (forall c2 ms, read_ready c2 -> nonneg_bytes (conn_rbuf c2) ->
    forall t1 t2, read_ready (set_tables t1 t2 (set_conn_malloc ms c2)) /\ nonneg_bytes (conn_rbuf (set_tables t1 t2 (set_conn_malloc ms c2)))) as Ht.
  { intros c2 ms [[K1 K2 K3 K4 K5] K] Kb t1 t2. split; [|done]. split; [by constructor|done]. }
  assert (forall c2, read_ready c2 -> nonneg_bytes (conn_rbuf c2) -> forall b c3, conn_next_malloc c2 = (b, c3) ->
    forall t1 t2, read_ready (set_tables t1 t2 c3) /\ nonneg_bytes (conn_rbuf (set_tables t1 t2 c3))) as Hm.
  { intros c2 K Kb b c3 E t1 t2. unfold conn_next_malloc in E. destruct (conn_malloc c2) as [|m ms] eqn:El; injection E as _ <-.
    - specialize (Ht c2 [] K Kb t1 t2). destruct c2; cbn in *. by subst.
    - by apply Ht. }
  destruct (request_headers c1).
  - cbn [negb]. destruct (response_headers c1); [by intros [= <-]|].
    destruct (conn_next_malloc c1) as [b c3] eqn:Em. intros [= -> <-]. by eapply Hm.
  - destruct (conn_next_malloc c1) as [b c3] eqn:Em. destruct b; cbn [negb]; [|done].
    destruct (Hm c1 Hr Hb _ _ Em true (response_headers c3)) as [K Kb].
    destruct (response_headers (set_tables true (response_headers c3) c3)); [by intros [= <-]|].
    destruct (conn_next_malloc (set_tables true (response_headers c3) c3)) as [b2 c4] eqn:Em2. intros [= -> <-]. by eapply Hm.
Qed.

Lemma handle_client_data_total w :
  event_ready w -> is_Some (handle_client_data gzip server_name now inet_pton4 inet_pton6 cfg w).
Proof using max_size handlers_return.
  intros (Hok & Hcap & Hn & Hnr). unfold handle_client_data.
  destruct (conn_ensure_buffers (w_conn w)) as [ok c] eqn:Ee. destruct ok; cbn [negb]; [|by eexists].
  destruct (conn_ensure_buffers_ready _ _ Hok Hcap Hn Ee) as [Hr Hb].
  destruct (drain_loop_spec now cfg max_size (S (recv_size (w_reads (set_w_conn c w)))) (set_w_conn c w) Hr ltac:(lia))
    as (rc & full & closed & w' & got & Ed & _).
  assert (is_Some ('(rc, buffer_full, peer_closed, w) ← drain_socket_reads now cfg (set_w_conn c w);
      if negb (rc =? 0) then Some (-1, w) else
      if trust_proxy_protocol cfg && negb (w_proxy_done w) then
        let '(pr, w) := consume_proxy_header inet_pton4 inet_pton6 w in
        if pr <? 0 then Some (-1, w) else
        if pr =? 0 then Some (if peer_closed : bool then -1 else 0, w) else
        frame_request gzip server_name now cfg buffer_full peer_closed (set_w_proxy_done true w)
      else frame_request gzip server_name now cfg buffer_full peer_closed w)) as Hgo.
  { unfold drain_socket_reads. rewrite Ed. cbn [mbind option_bind]. destruct (negb (rc =? 0)); [by eexists|].
    destruct (_ && _); [|by apply frame_request_total].
    destruct (consume_proxy_header _ _ _) as [pr w2]. destruct (pr <? 0); [by eexists|]. destruct (pr =? 0); [by eexists|].
    by apply frame_request_total. }
  destruct (conn_state c); try exact Hgo. apply handle_websocket_data_total. by split_and!.
Qed.
Lemma stream_loop_kept files w rc w' :
  stream_loop now files w = (rc, w') ->
  w_reads w' = w_reads w /\ exists fd off size, w_conn w' = set_file_fd fd (set_file_offset off (set_file_size size (w_conn w))).
Proof using.
  revert w. induction files as [|a files IH]; intros w; cbn [stream_loop].
  all: assert (exists fd off size, w_conn w = set_file_fd fd (set_file_offset off (set_file_size size (w_conn w)))) as Hid
    by (exists (file_fd (w_conn w)), (file_offset (w_conn w)), (file_size (w_conn w)); by destruct (w_conn w)).
  all: destruct (file_offset (w_conn w) <? file_size (w_conn w));
    [|intros [= <- <-]; split; [done|]; by exists (-1), 0, 0].
  - intros [= <- <-]. split; [done|exact Hid].
  - destruct a; try (intros [= <- <-]; split; [done|exact Hid]); [|apply IH].
    destruct (_ =? 0); [intros [= <- <-]; split; [done|exact Hid]|]. intros E. apply IH in E as [Hr (fd & off & size & Hc)]. split; [exact Hr|].
    exists fd, off, size. rewrite Hc. reflexivity.
Qed.

Lemma arm_socket_kept events w rc w' : arm_socket events w = (rc, w') -> w_conn w' = w_conn w /\ w_reads w' = w_reads w.
Proof using. unfold arm_socket. destruct (w_epoll w) as [|[] l]; by intros [= _ <-]. Qed.

Lemma reset_event_ready w :
  event_ready w -> zlen (conn_rbuf (w_conn (reset_for_next_request w))) >? 0 = true -> event_ready (reset_for_next_request w).
Proof using.
  intros ([H1 H2 H3 H4 H5] & Hcap & Hn & Hnr). unfold reset_for_next_request.
  set (w1 := map_conn _ (set_w_continue_sent _ _)).
  assert (event_ready w1 /\ conn_rbuf (w_conn w1) = conn_rbuf (w_conn w)) as [Hw1 Hr1].
  { subst w1. split; [|done]. split_and!; cbn; try done. constructor; cbn; try done. rewrite zlen_nil. lia. }
  clearbody w1. destruct (Z.eqb_spec (zlen (conn_rbuf (w_conn w1))) 0) as [Hz|_]; [|done].
  cbn -[conn_release_idle]. destruct (conn_release_idle_ok (w_conn w1) (proj1 Hw1)) as [_ ->]. rewrite Hz. done.
Qed.

Lemma handle_client_write_total w :
  event_ready w -> 0 <= write_buffer_pos (w_conn w) ->
  is_Some (handle_client_write gzip server_name now inet_pton4 inet_pton6 cfg w).
Proof using max_size handlers_return.
  intros (Hok & Hcap & Hn & Hnr) Hp. unfold handle_client_write. destruct (conn_state (w_conn w)); try by eexists.
  destruct (flush_write_buffer_spec now w Hp) as (rc & w1 & -> & F). destruct F as [(p & Hc1 & _) _ Hr1 _ _ _ _].
  injection Hr1 as _ _ _ _ Hrd1 _ _ _ _ _. cbn [mbind option_bind]. destruct (negb (rc =? 0)); [by eexists|].
  destruct (if file_fd (w_conn w1) >=? 0 then stream_queued_file now w1 else (0, w1)) as [rc2 w2] eqn:Es.
  assert (w_reads w2 = w_reads w /\ exists fd off size p,
    w_conn w2 = set_file_fd fd (set_file_offset off (set_file_size size (set_write_buffer_pos p (w_conn w))))) as (Hrd2 & fd & off & size & p2 & Hc2).
  { destruct (file_fd (w_conn w1) >=? 0).
    - apply stream_loop_kept in Es as (Hr & fd & off & size & Hc). split; [congruence|]. exists fd, off, size, p. by rewrite Hc, Hc1.
    - injection Es as <- <-. split; [done|]. exists (file_fd (w_conn w)), (file_offset (w_conn w)), (file_size (w_conn w)), p.
      rewrite Hc1. by destruct (w_conn w). }
  clear Es. destruct (negb (rc2 =? 0)); [by eexists|].
  destruct (websocket_handshake_complete (w_conn w2)).
  { destruct (websocket_closing (w_conn w2)); [by eexists|]. destruct (arm_socket _ _) as [rc3 w3]. by eexists. }
  destruct (_ || _); [by eexists|].
  destruct (arm_socket (Z.lor EPOLLIN EPOLLET) (reset_for_next_request w2)) as [rc3 w3] eqn:Ea.
  destruct (rc3 <? 0); [by eexists|]. destruct (zlen (conn_rbuf (w_conn w3)) >? 0) eqn:Ez; [|by eexists].
  apply handle_client_data_total. apply arm_socket_kept in Ea as [Hc3 Hrd3]. rewrite Hc3 in Ez.
  assert (event_ready (reset_for_next_request w2)) as He.
  { apply reset_event_ready; [|exact Ez]. destruct Hok as [H1 H2 H3 H4 H5]. unfold event_ready. rewrite Hc2, Hrd2.
    split_and!; cbn; try done. }
  unfold event_ready in *. by rewrite Hc3, Hrd3.
Qed.
End totality.

(** ** Offloading is transparent *)
Lemma offload_inline gzip server_name now cfg f w w3 :
  w_epoll w = [] -> w_submits w = [] -> w_offloaded w = false -> w_task w = None -> conn_malloc (w_conn w) = [] ->
  respond gzip server_name now cfg (Some f) w = Some (0, w3) ->
  exists w1, dispatch_offloaded f w = (true, w1) /\ w_offloaded w1 = true /\ w_interest w1 = EPOLLET /\ w_conn w1 = w_conn w /\
    run_offloaded_handler gzip server_name now cfg w1 = Some (set_w_last_activity now w3).
Proof.
  intros He Hs Ho Ht Hm. unfold respond, dispatch_offloaded, run_offloaded_handler, conn_next_malloc, run_handler.
  rewrite Hm. cbn [negb]. unfold arm_socket. cbn. rewrite He. cbn. rewrite Hs.
  destruct (run_with_middleware (srv_middlewares cfg) f (w_conn w)) as [[rc c]|] eqn:E; cbn; [|done].
  unfold finalize_response, arm_socket, send_error. intros Hw3.
  eexists. split; [done|]. split; [done|]. split; [done|]. split; [done|]. cbn. rewrite E. cbn.
  destruct w; cbn in *; subst. destruct (negb (rc =? 0) && (zlen (conn_wbuf c) =? 0)); cbn in *; injection Hw3 as <-; done.
Qed.
