(* ===== verification/Handlers.v ===== *)
(** * The small API handlers (api/src/handlers.c)

    Greeting, echo, status, liveness, readiness and the WebSocket upgrade, over
    the response functions and, for readiness, the key-value interface. The
    server's counters are arguments. Statistics and metrics pages are in
    Metrics. *)
From Stdlib Require Import String.
From S2P Require Import Prelude Text HttpTypes HttpText Connection HttpRequest HttpResponse WebSocket Route TodoIndex.

Local Open Scope Z_scope.

Section handlers.
Context (gzip : bytes -> option bytes) (server_name : bytes) (now : Z).
Context (SHA1 : bytes -> bytes) (base64 : bytes -> option bytes).

Definition quoted (s : bytes) : bytes := [34] ++ s ++ [34].

Definition hello_msg : bytes :=
  str "{" ++ quoted (str "message") ++ str ": " ++ quoted (str "Hello, World!") ++ str ", " ++
  quoted (str "timestamp") ++ str ": " ++ quoted (str "2026-01-01T00:00:00Z") ++ str "}".

Definition api_hello_handler : handler := fun conn =>
  Some (send_json_response gzip server_name now HTTP_OK hello_msg conn).

Definition api_echo_handler : handler := fun conn =>
  match req_method (conn_request conn) with
  | HTTP_POST => Some (send_body_response gzip server_name now HTTP_OK (str "text/plain")
                         (default [] (req_body (conn_request conn))) conn)
  | _ => Some (send_error_response gzip server_name now HTTP_METHOD_NOT_ALLOWED (str "Method not allowed") conn)
  end.

Definition api_status_handler (total_connections total_requests active_connections : Z) : handler := fun conn =>
  let status_json := snprintf_s 1024
    (str "{" ++ quoted (str "server") ++ str ": " ++ quoted server_name ++ str "," ++
     quoted (str "total_connections") ++ str ": " ++ dec total_connections ++ str "," ++
     quoted (str "total_requests") ++ str ": " ++ dec total_requests ++ str "," ++
     quoted (str "active_connections") ++ str ": " ++ dec active_connections ++ str "}") in
  Some (send_json_response gzip server_name now HTTP_OK status_json conn).

Definition api_healthz_handler : handler := fun conn =>
  Some (send_json_response gzip server_name now HTTP_OK (str "{" ++ quoted (str "status") ++ str ":" ++ quoted (str "ok") ++ str "}") conn).

(** A transaction that starts and commits shows that storage answers. *)
Definition api_readyz_handler {D : Type} `{KvStore D} (conn : connection) (d : D) : Z * connection * D :=
  match kv_begin d with
  | (None, d) => (send_error_response gzip server_name now HTTP_SERVICE_UNAVAILABLE (str "Storage not ready") conn, d)
  | (Some txn, d) =>
      let d := kv_free txn (kv_commit txn d) in
      (send_json_response gzip server_name now HTTP_OK
         (str "{" ++ quoted (str "status") ++ str ":" ++ quoted (str "ready") ++ str "}") conn, d)
  end.

Definition websocket_chat_handler : handler := fun conn =>
  if is_websocket_upgrade (conn_request conn)
  then Some (handle_websocket_upgrade gzip server_name now SHA1 base64 conn)
  else Some (send_error_response gzip server_name now HTTP_BAD_REQUEST (str "WebSocket upgrade required") conn).

(** ** What a body response puts on the wire *)
(** The response the body functions build on a fresh one. *)
Definition body_response (status : Z) (content_type body : bytes) (keep : bool) : http_response :=
  response_set_header 0 (str "Content-Type") content_type
    (set_resp_keep_alive keep (set_resp_version (str "HTTP/1.1") (set_resp_status status (set_resp_body (Some body) response_zero)))).

(** The bytes staged for a request, whatever the state of its connection. *)
Definition body_bytes (status : Z) (content_type body : bytes) (request : http_request) : bytes :=
  let c := mkConn CONN_STATE_PROCESSING false true [] 0 false [] 0 0 request true
             (body_response status content_type body (req_keep_alive request)) true 0 [] false false (-1) 0 0 [] in
  staged_headers gzip server_name now c ++ staged_body gzip c.
(** It fits the header and response limits. *)
Definition body_fits (status : Z) (content_type body : bytes) (request : http_request) : Prop :=
  let c := mkConn CONN_STATE_PROCESSING false true [] 0 false [] 0 0 request true
             (body_response status content_type body (req_keep_alive request)) true 0 [] false false (-1) 0 0 [] in
  clean_fields (conn_response c) = true /\ zlen (staged_headers gzip server_name now c) < MAX_HEADERS_SIZE /\
  zlen (staged_headers gzip server_name now c) + zlen (staged_body gzip c) <= MAX_RESPONSE_SIZE.

Lemma staged_same c c' :
  conn_request c' = conn_request c -> conn_response c' = conn_response c -> file_fd c = -1 -> file_fd c' = -1 ->
  staged_headers gzip server_name now c' = staged_headers gzip server_name now c /\ staged_body gzip c' = staged_body gzip c.
Proof using.
  intros Hq Hs Hf Hf'. unfold staged_headers, staged_body, announced_length, chosen_body, response_should_gzip.
  by rewrite Hq, Hs, Hf, Hf'.
Qed.

Lemma send_http_response_rest c rc c' :
  file_fd c = -1 -> send_http_response gzip server_name now c = (rc, c') ->
  conn_read_alloc c' = conn_read_alloc c /\ read_buffer_cap c' = read_buffer_cap c /\ file_fd c' = -1 /\
  websocket_handshake_complete c' = websocket_handshake_complete c /\ write_buffer_pos c' = (if rc =? 0 then 0 else write_buffer_pos c).
Proof using.
  intros Hf. unfold send_http_response. rewrite Hf. change (-1 >=? 0) with false. cbn [negb andb orb].
  destruct (if response_should_gzip c then _ else _) as [body gz].
  destruct (build_response_headers _ _ _ _ _ _ _) as [hb|]; [|by intros [= <- <-]].
  destruct (conn_reserve_write _ c) as [ok c1] eqn:E. pose proof (conn_reserve_write_rest _ _ _ _ E) as Hr.
  injection Hr as _ _ _ _ _ _ Hws _ Hfd _ _.
  assert (conn_read_alloc c1 = conn_read_alloc c /\ read_buffer_cap c1 = read_buffer_cap c /\ write_buffer_pos c1 = write_buffer_pos c) as (H1 & H2 & H3).
  { unfold conn_reserve_write in E. destruct (_ >? _); [by injection E as _ <-|]. destruct (_ && _); [by injection E as _ <-|].
    destruct (conn_next_malloc c) as [b c2] eqn:Em. destruct (conn_next_malloc_spec _ _ _ Em) as (_ & _ & _ & A & _ & B & C & _).
    destruct b; injection E as _ <-; done. }
  destruct ok; cbn [negb]; intros [= <- <-]; cbn; rewrite ?H1, ?H2, ?H3, ?Hws, ?Hfd, ?Hf; done.
Qed.

(** A body response on a connection with a fresh response. *)
Lemma send_body_response_spec status content_type body c :
  conn_ok c -> mallocs_ok c -> file_fd c = -1 -> conn_response c = response_zero ->
  body_fits status content_type body (conn_request c) ->
  exists c', send_body_response gzip server_name now status content_type body c = (0, c') /\
    conn_ok c' /\ mallocs_ok c' /\ conn_wbuf c' = body_bytes status content_type body (conn_request c) /\ write_buffer_pos c' = 0 /\
    (conn_read_alloc c', conn_rbuf c', read_buffer_cap c') = (conn_read_alloc c, conn_rbuf c, read_buffer_cap c) /\
    conn_request c' = conn_request c /\ resp_keep_alive (conn_response c') = req_keep_alive (conn_request c) /\
    file_fd c' = -1 /\ websocket_handshake_complete c' = websocket_handshake_complete c.
Proof using.
  intros Hok Hm Hf Hrz (Hcl & Hh & Ht). unfold send_body_response. destruct (conn_next_malloc c) as [ok c1] eqn:Em.
  destruct (conn_next_malloc_spec _ _ _ Em) as (Hms & Hrb & Hwb & Hrc & Hwc & Hwp & Hra & Hwa). destruct (Hms Hm) as [-> Hm1].
  pose proof (conn_next_malloc_rest _ _ _ Em) as Hr. injection Hr as Hst _ Hq Hs _ _ Hws _ Hfd _ _. cbn [negb].
  rewrite Hs, Hrz, Hq. fold (body_response status content_type body (req_keep_alive (conn_request c))).
  set (c2 := set_conn_response _ c1).
  assert (conn_ok c2) as Hok2.
  { destruct Hok as [H1 H2 H3 H4 H5]. subst c2. constructor; cbn; rewrite ?Hrb, ?Hwb, ?Hrc, ?Hwc, ?Hra, ?Hwa; done. }
  assert (file_fd c2 = -1) as Hf2 by (subst c2; cbn; congruence).
  destruct (send_http_response gzip server_name now c2) as [rc c'] eqn:E.
  destruct (send_http_response_rest _ _ _ Hf2 E) as (R1 & R2 & R3 & R4 & R5).
  destruct (send_http_response_spec _ _ _ _ _ _ Hok2 E) as (K1 & K2 & K3 & K4 & K5 & K6).
  match goal with H : zlen (staged_headers gzip server_name now ?x) < _ |- _ => set (c0 := x) in * end.
  destruct (staged_same c0 c2) as [Es Eb]; [subst c2; cbn; congruence|done|done|done|].
  destruct (K5 Hm1) as [Hm' Hrc0]. rewrite Es, Eb in Hrc0, K6.
  assert (rc = 0) as -> by (apply Hrc0; done).
  exists c'. split; [done|]. split; [done|]. split; [done|].
  destruct K6 as [(_ & Hw & Hp & _)|[? _]]; [|done]. subst c2. cbn in *.
  split_and!; try congruence; try done. rewrite K4. done.
Qed.
End handlers.
