(* ===== verification/Crypto.v ===== *)
(** * The locked memory pool and key derivation (src/common/src/crypto.c)

    [secure_malloc] and [secure_free] carve 64-byte blocks out of a locked
    region, tracked by a table of flags; [pbkdf2_derive_key] keeps the derived
    key there. The invariant names the regions handed out: they are disjoint,
    the table and the counter describe exactly them, and every byte of a block
    outside of them is zero. A pointer is an offset into the region. The calls
    of libcrypto are parameters. *)
From stdpp Require Import relations.
From S2P Require Import Prelude.

Local Open Scope Z_scope.

Definition SECURE_BLOCK_SIZE : Z := 64.
Definition SECURE_MEMORY_SIZE : Z := 1024 * 1024.

Record secure_pool := mkPool {
  pool_memory : bytes;
  pool_size : Z;
  pool_allocated : Z;
  allocation_map : list bool }.

Definition total_blocks (p : secure_pool) : Z := pool_size p / SECURE_BLOCK_SIZE.

Definition fresh_pool (size : Z) : secure_pool :=
  mkPool (replicate (Z.to_nat size) 0) size 0 (replicate (Z.to_nat (size / SECURE_BLOCK_SIZE)) false).

(** The answers of mmap, mlock and calloc. *)
Definition init_secure_memory_pool (mmap_ok mlock_ok calloc_ok : bool) : option secure_pool :=
  if negb mmap_ok then None else
  if negb mlock_ok then None else
  if negb calloc_ok then None else Some (fresh_pool SECURE_MEMORY_SIZE).

Definition blocks_needed (size : Z) : Z :=
  let n := u64 (size + SECURE_BLOCK_SIZE - 1) / SECURE_BLOCK_SIZE in
  if n =? 0 then 1 else n.

Fixpoint run_free (m : list bool) (i : Z) (n : nat) : bool :=
  match n with
  | O => true
  | S n' => if default true (m !! Z.to_nat i) then false else run_free m (i + 1) n'
  end.

Fixpoint find_run (fuel : nat) (m : list bool) (i blocks total : Z) : option Z :=
  match fuel with
  | O => None
  | S fuel' =>
      if i + blocks <=? total
      then if run_free m i (Z.to_nat blocks) then Some i else find_run fuel' m (i + 1) blocks total
      else None
  end.

Fixpoint set_run (m : list bool) (i : Z) (n : nat) (b : bool) : list bool :=
  match n with
  | O => m
  | S n' => set_run (<[Z.to_nat i := b]> m) (i + 1) n' b
  end.

Definition secure_malloc (size : Z) (p : secure_pool) : option Z * secure_pool :=
  let blocks := blocks_needed size in
  if blocks >? total_blocks p then (None, p) else
  match find_run (S (Z.to_nat (total_blocks p))) (allocation_map p) 0 blocks (total_blocks p) with
  | Some i =>
      (Some (i * SECURE_BLOCK_SIZE),
       mkPool (pool_memory p) (pool_size p) (u64 (pool_allocated p + blocks * SECURE_BLOCK_SIZE))
         (set_run (allocation_map p) i (Z.to_nat blocks) true))
  | None => (None, p)
  end.

Definition secure_free (ptr : option Z) (size : Z) (p : secure_pool) : secure_pool :=
  match ptr with
  | None => p
  | Some offset =>
      let start_block := offset / SECURE_BLOCK_SIZE in
      let blocks := blocks_needed size in
      mkPool (write_at offset (replicate (Z.to_nat (blocks * SECURE_BLOCK_SIZE)) 0) (pool_memory p)) (pool_size p)
        (u64 (pool_allocated p - blocks * SECURE_BLOCK_SIZE))
        (set_run (allocation_map p) start_block (Z.to_nat blocks) false)
  end.

(** A caller's write through its pointer, and its read. *)
Definition pool_write (off : Z) (bs : bytes) (p : secure_pool) : secure_pool :=
  mkPool (write_at off bs (pool_memory p)) (pool_size p) (pool_allocated p) (allocation_map p).
Definition pool_read (off n : Z) (p : secure_pool) : bytes := sub off n (pool_memory p).

(** getrandom, then libcrypto, then the random device. *)
Definition secure_random_bytes (getrandom rand_bytes urandom : option bytes) (size : Z) : option bytes :=
  match getrandom with
  | Some b => if zlen b =? size then Some b else
              match rand_bytes with Some b => Some b | None => urandom end
  | None => match rand_bytes with Some b => Some b | None => urandom end
  end.

Section kdf.
(** [PKCS5_PBKDF2_HMAC] with SHA-256: password, salt, iterations, key length. *)
Context (PBKDF2 : bytes -> bytes -> Z -> Z -> option bytes).

Definition pbkdf2_derive_key (password salt : bytes) (iterations key_len : Z) (p : secure_pool) : option Z * secure_pool :=
  match secure_malloc key_len p with
  | (None, p) => (None, p)
  | (Some ptr, p) =>
      match PBKDF2 password salt iterations key_len with
      | None => (None, secure_free (Some ptr) key_len p)
      | Some key => (Some ptr, pool_write ptr key p)
      end
  end.
End kdf.

(** [HMAC] with SHA-256 answers a tag; one of another length is refused. *)
Definition crypto_hmac_sha256 (HMAC : bytes -> bytes -> option bytes) (key data : bytes) : option bytes :=
  hmac ← HMAC key data;
  if zlen hmac =? 32 then Some hmac else None.

(** ** Regions *)
Definition region_blocks (r : Z * Z) : list Z := seqZ r.1 r.2.
Definition taken (live : list (Z * Z)) : list Z := flat_map region_blocks live.

Record pool_inv (p : secure_pool) (live : list (Z * Z)) : Prop := {
  pi_size : 0 <= pool_size p <= UINT64_MAX - SECURE_BLOCK_SIZE;
  pi_map : zlen (allocation_map p) = total_blocks p;
  pi_memory : zlen (pool_memory p) = pool_size p;
  pi_region : forall s n, (s, n) ∈ live -> 0 <= s /\ 0 < n /\ s + n <= total_blocks p;
  pi_taken : forall b, 0 <= b -> (allocation_map p !! Z.to_nat b = Some true <-> b ∈ taken live);
  pi_disjoint : NoDup (taken live);
  pi_allocated : pool_allocated p = SECURE_BLOCK_SIZE * zlen (taken live);
  pi_clean : forall off, 0 <= off < total_blocks p * SECURE_BLOCK_SIZE -> off / SECURE_BLOCK_SIZE ∉ taken live ->
    pool_memory p !! Z.to_nat off = Some 0 }.

Lemma elem_of_taken b live : b ∈ taken live <-> exists s n, (s, n) ∈ live /\ s <= b < s + n.
Proof.
  unfold taken. rewrite list_elem_of_In, in_flat_map. split.
  - intros ([s n] & Hin & Hb). apply list_elem_of_In in Hb, Hin. unfold region_blocks in Hb. cbn in Hb.
    apply elem_of_seqZ in Hb. exists s, n. split; [done|lia].
  - intros (s & n & Hin & Hb). exists (s, n). split; [by apply list_elem_of_In|].
    apply list_elem_of_In. unfold region_blocks. cbn. apply elem_of_seqZ. lia.
Qed.

Lemma taken_cons s n live : taken ((s, n) :: live) = seqZ s n ++ taken live.
Proof. done. Qed.

Lemma taken_perm live live' : live ≡ₚ live' -> taken live ≡ₚ taken live'.
Proof. intros H. unfold taken. by rewrite H. Qed.

Lemma blocks_needed_pos size : 0 < blocks_needed size.
Proof.
  unfold blocks_needed, SECURE_BLOCK_SIZE. pose proof (uwrap_range 64 (size + 64 - 1) ltac:(lia)) as Hr.
  fold u64 in Hr. change (u64 (size + 64 - 1)) with (uwrap 64 (size + 64 - 1)) in *.
  destruct (Z.eqb_spec (uwrap 64 (size + 64 - 1) / 64) 0); zdiv.
Qed.

(** Enough blocks, unless the sum wrapped. *)
Lemma blocks_needed_enough size :
  0 <= size <= UINT64_MAX - SECURE_BLOCK_SIZE -> size <= blocks_needed size * SECURE_BLOCK_SIZE.
Proof.
  unfold blocks_needed, SECURE_BLOCK_SIZE. intros H. rewrite u64_small by lia.
  destruct (Z.eqb_spec ((size + 64 - 1) / 64) 0); zdiv.
Qed.

Lemma set_run_spec n m i b k :
  0 <= i -> 0 <= k ->
  set_run m i n b !! Z.to_nat k =
  if (i <=? k) && (k <? i + Z.of_nat n) then (fun _ => b) <$> (m !! Z.to_nat k) else m !! Z.to_nat k.
Proof.
  revert m i. induction n as [|n IH]; intros m i Hi Hk; cbn [set_run].
  { destruct (Z.leb_spec i k), (Z.ltb_spec k (i + Z.of_nat 0)); cbn; try done; lia. }
  rewrite IH by lia. destruct (decide (k = i)) as [->|Hne].
  - assert ((i + 1 <=? i) = false) as -> by (apply Z.leb_gt; lia).
    assert ((i <=? i) = true) as -> by (apply Z.leb_le; lia).
    assert ((i <? i + Z.of_nat (S n)) = true) as -> by (apply Z.ltb_lt; lia). cbn.
    destruct (m !! Z.to_nat i) eqn:E; cbn.
    + rewrite list_lookup_insert_eq; [done|]. by eapply lookup_lt_Some.
    + apply lookup_ge_None in E. by apply lookup_ge_None; rewrite length_insert.
  - rewrite list_lookup_insert_ne by lia. f_equal.
    destruct (Z.leb_spec (i + 1) k), (Z.leb_spec i k), (Z.ltb_spec k (i + 1 + Z.of_nat n)), (Z.ltb_spec k (i + Z.of_nat (S n))); cbn; try done; lia.
Qed.

Lemma zlen_set_run n m i b : zlen (set_run m i n b) = zlen m.
Proof. revert m i. induction n as [|n IH]; intros m i; cbn; [done|]. by rewrite IH, zlen_insert. Qed.

Lemma run_free_spec n m i :
  0 <= i -> (run_free m i n = true <-> forall k, i <= k < i + Z.of_nat n -> m !! Z.to_nat k = Some false).
Proof.
  revert i. induction n as [|n IH]; intros i Hi; cbn [run_free].
  - split; [intros _ k ?; lia|done].
  - destruct (m !! Z.to_nat i) as [[|]|] eqn:E; cbn.
    + split; [done|]. intros Hk. specialize (Hk i ltac:(lia)). congruence.
    + rewrite IH by lia. split; intros Hk k Hr; [|apply Hk; lia].
      destruct (decide (k = i)) as [->|]; [done|]. apply Hk. lia.
    + split; [done|]. intros Hk. specialize (Hk i ltac:(lia)). congruence.
Qed.

Lemma find_run_spec fuel m i blocks total :
  0 <= i -> 0 <= total - i < Z.of_nat fuel \/ total < i -> 0 < blocks ->
  match find_run fuel m i blocks total with
  | Some s => i <= s /\ s + blocks <= total /\ run_free m s (Z.to_nat blocks) = true
  | None => forall s, i <= s -> s + blocks <= total -> run_free m s (Z.to_nat blocks) = false
  end.
Proof.
  revert i. induction fuel as [|fuel IH]; intros i Hi Hf Hb; cbn [find_run].
  { intros s Hs Hle. lia. }
  destruct (Z.leb_spec (i + blocks) total) as [Hle|Hgt]; [|intros s Hs Hle; lia].
  destruct (run_free m i (Z.to_nat blocks)) eqn:E; [done|].
  specialize (IH (i + 1) ltac:(lia) ltac:(lia) Hb). destruct (find_run fuel m (i + 1) blocks total) as [s|].
  - destruct IH as (H1 & H2 & H3). split; [lia|done].
  - intros s Hs Hs2. destruct (decide (s = i)) as [->|]; [done|]. apply IH; lia.
Qed.

Lemma taken_bound p live b : pool_inv p live -> b ∈ taken live -> 0 <= b < total_blocks p.
Proof. intros Hi (s & n & Hin & Hb)%elem_of_taken. pose proof (pi_region _ _ Hi s n Hin). lia. Qed.

Lemma map_free p live b :
  pool_inv p live -> 0 <= b -> (allocation_map p !! Z.to_nat b = Some false <-> b < total_blocks p /\ b ∉ taken live).
Proof.
  intros Hi Hb. pose proof (pi_map _ _ Hi) as Hm. unfold zlen in Hm. pose proof (pi_taken _ _ Hi b Hb) as Ht. split.
  - intros E. split; [apply lookup_lt_Some in E; lia|]. intros Hin%Ht. congruence.
  - intros [Hlt Hn]. destruct (lookup_lt_is_Some_2 (allocation_map p) (Z.to_nat b) ltac:(lia)) as [[|] E]; [|done].
    by apply Ht in E.
Qed.

(** Disjoint regions inside a pool hold at most its blocks, so the counter does
    not wrap. *)
Lemma taken_size live total :
  0 <= total -> (forall s n, (s, n) ∈ live -> 0 <= s /\ 0 < n /\ s + n <= total) -> NoDup (taken live) -> zlen (taken live) <= total.
Proof.
  intros Ht Hr Hn. unfold zlen. enough (length (taken live) <= length (seqZ 0 total))%nat as H by (rewrite length_seqZ in H; lia).
  apply submseteq_length, NoDup_submseteq; [done|]. intros b (s & n & Hin & Hb)%elem_of_taken.
  apply elem_of_seqZ. specialize (Hr _ _ Hin). lia.
Qed.

Lemma total_blocks_bound p : 0 <= pool_size p -> total_blocks p * SECURE_BLOCK_SIZE <= pool_size p.
Proof. unfold total_blocks, SECURE_BLOCK_SIZE. intros. zdiv. Qed.

Lemma zlen_seqZ s n : 0 <= n -> zlen (seqZ s n) = n.
Proof. intros. unfold zlen. rewrite length_seqZ. lia. Qed.

Lemma pool_inv_perm p live live' : live ≡ₚ live' -> pool_inv p live -> pool_inv p live'.
Proof.
  intros HP [H1 H2 H3 H4 H5 H6 H7 H8]. pose proof (taken_perm _ _ HP) as HT. constructor; try done.
  - intros s n Hin. apply H4. by rewrite HP.
  - intros b Hb. rewrite H5 by done. by rewrite HT.
  - by rewrite <- HT.
  - rewrite H7. unfold zlen. by rewrite HT.
  - intros off Ho Hn. apply H8; [done|]. by rewrite HT.
Qed.

(** ** The operations on regions *)
Lemma secure_malloc_spec p live size :
  pool_inv p live ->
  match secure_malloc size p with
  | (Some ptr, p') => exists s, ptr = s * SECURE_BLOCK_SIZE /\ pool_inv p' ((s, blocks_needed size) :: live) /\
      pool_memory p' = pool_memory p /\ pool_size p' = pool_size p /\ (forall b, s <= b < s + blocks_needed size -> b ∉ taken live) /\
      allocation_map p' = set_run (allocation_map p) s (Z.to_nat (blocks_needed size)) true
  | (None, p') => p' = p /\ forall s, 0 <= s -> s + blocks_needed size <= total_blocks p ->
      exists b, s <= b < s + blocks_needed size /\ b ∈ taken live
  end.
Proof.
  intros Hi. unfold secure_malloc. pose proof (blocks_needed_pos size) as Hb. set (n := blocks_needed size) in *.
  assert (0 <= total_blocks p) as Htot by (rewrite <- (pi_map _ _ Hi); apply zlen_nonneg).
  destruct (Z.gtb_spec n (total_blocks p)) as [Hg|Hle]; [split; [done|]; intros s Hs Hse; lia|].
  pose proof (find_run_spec (S (Z.to_nat (total_blocks p))) (allocation_map p) 0 n (total_blocks p) ltac:(lia) ltac:(lia) Hb) as Hf.
  destruct (find_run _ _ 0 n _) as [s|].
  - destruct Hf as (Hs & Hse & Hrun). exists s. rewrite run_free_spec in Hrun by done. rewrite Z2Nat.id in Hrun by lia.
    assert (forall b, s <= b < s + n -> b ∉ taken live) as Hfree.
    { intros b Hr. apply (map_free _ _ b Hi ltac:(lia)). by apply Hrun. }
    split; [done|]. split; [|split_and!; done]. destruct Hi as [H1 H2 H3 H4 H5 H6 H7 H8].
    assert (forall s' n', (s', n') ∈ (s, n) :: live -> 0 <= s' /\ 0 < n' /\ s' + n' <= total_blocks p) as Hreg.
    { intros s' n' [[= -> ->]|Hin]%list.elem_of_cons; [lia|]. by apply H4. }
    assert (NoDup (taken ((s, n) :: live))) as Hnd.
    { rewrite taken_cons. apply list.NoDup_app. split; [apply NoDup_seqZ|]. split; [|done].
      intros b Hb0%elem_of_seqZ. apply Hfree. lia. }
    constructor; unfold total_blocks; cbn [pool_memory pool_size pool_allocated allocation_map]; fold (total_blocks p); try done.
    + by rewrite zlen_set_run.
    + intros b Hb0. rewrite set_run_spec, Z2Nat.id by lia. rewrite taken_cons, elem_of_app, elem_of_seqZ, <- H5 by done.
      destruct ((s <=? b) && (b <? s + n)) eqn:Er.
      * apply andb_true_iff in Er as [E1%Z.leb_le E2%Z.ltb_lt]. rewrite (Hrun b) by lia. cbn. split; [intros _; left; lia|done].
      * apply andb_false_iff in Er. rewrite Z.leb_gt, Z.ltb_ge in Er. split; [by right|]. intros [?|?]; [lia|done].
    + rewrite H7, taken_cons, zlen_app, zlen_seqZ by lia.
      rewrite u64_small; [unfold SECURE_BLOCK_SIZE; lia|].
      pose proof (taken_size _ _ Htot Hreg Hnd) as Hsz. rewrite taken_cons, zlen_app, zlen_seqZ in Hsz by lia.
      pose proof (total_blocks_bound p ltac:(lia)). pose proof (zlen_nonneg (taken live)). unfold SECURE_BLOCK_SIZE in *. lia.
    + intros off Ho Hn. apply H8; [done|]. contradict Hn. rewrite taken_cons. apply elem_of_app. by right.
  - split; [done|]. intros s Hs Hse. specialize (Hf s Hs Hse).
    destruct (decide (Forall (fun b => b ∉ taken live) (seqZ s n))) as [Hall|Hnot].
    + exfalso. enough (run_free (allocation_map p) s (Z.to_nat n) = true) by congruence.
      apply run_free_spec; [done|]. rewrite Z2Nat.id by lia. intros k Hk. apply (map_free _ _ k Hi ltac:(lia)). split; [lia|].
      rewrite list.Forall_forall in Hall. apply Hall, elem_of_seqZ. lia.
    + apply not_Forall_Exists in Hnot; [|solve_decision]. apply list.Exists_exists in Hnot as (b & Hb0%elem_of_seqZ & Hin).
      exists b. split; [lia|]. by apply dec_stable in Hin.
Qed.

Lemma write_at_lookup {A} off (bs l : list A) k :
  0 <= off -> off + zlen bs <= zlen l -> 0 <= k ->
  write_at off bs l !! Z.to_nat k =
  if (off <=? k) && (k <? off + zlen bs) then bs !! Z.to_nat (k - off) else l !! Z.to_nat k.
Proof.
  intros Ho Hl Hk. unfold write_at, ztake, zdrop, zlen in *.
  destruct (Z.leb_spec off k) as [H1|H1]; [destruct (Z.ltb_spec k (off + Z.of_nat (length bs))) as [H2|H2]|]; cbn.
  - rewrite lookup_app_r by (rewrite length_take; lia). rewrite length_take, lookup_app_l by lia. f_equal. lia.
  - rewrite lookup_app_r by (rewrite length_take; lia). rewrite length_take, lookup_app_r by lia.
    rewrite lookup_drop. f_equal. lia.
  - rewrite lookup_app_l by (rewrite length_take; lia). apply lookup_take_lt. lia.
Qed.

Lemma secure_free_spec p live s size :
  pool_inv p ((s, blocks_needed size) :: live) -> pool_inv (secure_free (Some (s * SECURE_BLOCK_SIZE)) size p) live.
Proof.
  intros Hi. assert (0 <= total_blocks p) as Htot by (rewrite <- (pi_map _ _ Hi); apply zlen_nonneg).
  pose proof (taken_size _ _ Htot (pi_region _ _ Hi) (pi_disjoint _ _ Hi)) as Hsz.
  destruct Hi as [H1 H2 H3 H4 H5 H6 H7 H8]. unfold secure_free. pose proof (blocks_needed_pos size) as Hb.
  set (n := blocks_needed size) in *. destruct (H4 s n ltac:(apply list_elem_of_here)) as (Hs & _ & Hse).
  pose proof (total_blocks_bound p ltac:(lia)) as Htb.
  assert (s * SECURE_BLOCK_SIZE / SECURE_BLOCK_SIZE = s) as -> by (unfold SECURE_BLOCK_SIZE; zdiv).
  rewrite taken_cons in *. apply list.NoDup_app in H6 as (_ & Hdis & Hnd).
  rewrite zlen_app, zlen_seqZ in Hsz, H7 by lia.
  constructor; unfold total_blocks; cbn [pool_memory pool_size pool_allocated allocation_map]; fold (total_blocks p); try done.
  - by rewrite zlen_set_run.
  - rewrite zlen_write_at; rewrite ?zlen_replicate; unfold SECURE_BLOCK_SIZE in *; lia.
  - intros s' n' Hin. apply H4. by apply list_elem_of_further.
  - intros b Hb0. rewrite set_run_spec, Z2Nat.id by lia. specialize (H5 b Hb0). rewrite elem_of_app, elem_of_seqZ in H5.
    destruct ((s <=? b) && (b <? s + n)) eqn:Er.
    + apply andb_true_iff in Er as [E1%Z.leb_le E2%Z.ltb_lt]. split; [by destruct (allocation_map p !! Z.to_nat b)|].
      intros Hin. exfalso. apply (Hdis b); [apply elem_of_seqZ; lia|done].
    + rewrite H5. apply andb_false_iff in Er. rewrite Z.leb_gt, Z.ltb_ge in Er. split; [intros [?|?]; [lia|done]|by right].
  - rewrite H7, u64_small; pose proof (zlen_nonneg (taken live)); unfold SECURE_BLOCK_SIZE in *; lia.
  - intros off Ho Hn. rewrite write_at_lookup; rewrite ?zlen_replicate; [|unfold SECURE_BLOCK_SIZE in *; lia..].
    destruct (_ && _) eqn:Er.
    + apply andb_true_iff in Er as [E1%Z.leb_le E2%Z.ltb_lt]. apply lookup_replicate. split; [done|unfold SECURE_BLOCK_SIZE in *; lia].
    + apply H8; [done|]. intros [Hin%elem_of_seqZ|Hin]%elem_of_app; [|done]. apply andb_false_iff in Er.
      rewrite Z.leb_gt, Z.ltb_ge in Er. unfold SECURE_BLOCK_SIZE in *. revert Hin Er. intros. zdiv.
Qed.

(** A write inside a region. *)
Lemma pool_write_spec p live s n off bs :
  pool_inv p live -> (s, n) ∈ live -> s * SECURE_BLOCK_SIZE <= off -> off + zlen bs <= (s + n) * SECURE_BLOCK_SIZE ->
  pool_inv (pool_write off bs p) live.
Proof.
  intros [H1 H2 H3 H4 H5 H6 H7 H8] Hin Hlo Hhi. destruct (H4 s n Hin) as (Hs & Hn & Hse).
  pose proof (total_blocks_bound p ltac:(lia)) as Htb. pose proof (zlen_nonneg bs).
  constructor; unfold total_blocks; cbn [pool_memory pool_size pool_allocated allocation_map pool_write]; fold (total_blocks p); try done.
  - rewrite zlen_write_at; unfold SECURE_BLOCK_SIZE in *; lia.
  - intros o Ho Hno. rewrite write_at_lookup; [|unfold SECURE_BLOCK_SIZE in *; lia..].
    destruct (_ && _) eqn:Er; [|by apply H8]. apply andb_true_iff in Er as [E1%Z.leb_le E2%Z.ltb_lt].
    exfalso. apply Hno, elem_of_taken. exists s, n. split; [done|]. unfold SECURE_BLOCK_SIZE in *. split; zdiv.
Qed.

Lemma fresh_secure_pool_inv size : 0 <= size <= UINT64_MAX - SECURE_BLOCK_SIZE -> pool_inv (fresh_pool size) [].
Proof.
  intros Hs. assert (0 <= size / SECURE_BLOCK_SIZE /\ size / SECURE_BLOCK_SIZE * SECURE_BLOCK_SIZE <= size) as [Ht1 Ht2]
    by (unfold SECURE_BLOCK_SIZE; split; zdiv).
  constructor; unfold total_blocks; cbn [pool_memory pool_size pool_allocated allocation_map fresh_pool].
  - done.
  - rewrite zlen_replicate. lia.
  - rewrite zlen_replicate. lia.
  - by intros s n ?%not_elem_of_nil.
  - intros b Hb. split; [|by intros ?%not_elem_of_nil]. intros [? _]%lookup_replicate. done.
  - constructor.
  - done.
  - intros off Ho _. apply lookup_replicate. split; [done|lia].
Qed.

(** ** Use and release *)
(** Releasing what was just taken gives back the pool as it was, whatever the
    holder wrote to its region. *)
Lemma free_restores p live size ptr p1 bs :
  pool_inv p live -> secure_malloc size p = (Some ptr, p1) -> zlen bs <= blocks_needed size * SECURE_BLOCK_SIZE ->
  secure_free (Some ptr) size (pool_write ptr bs p1) = p.
Proof.
  intros Hi Em Hbs. pose proof (secure_malloc_spec p live size Hi) as Hm. rewrite Em in Hm.
  destruct Hm as (s & -> & Hi1 & Hmem & Hsize & Hfree & Hmap). pose proof (blocks_needed_pos size) as Hb.
  destruct (pi_region _ _ Hi1 s (blocks_needed size) ltac:(apply list_elem_of_here)) as (Hs & _ & Hse).
  assert (pool_inv (pool_write (s * SECURE_BLOCK_SIZE) bs p1) ((s, blocks_needed size) :: live)) as Hi2.
  { eapply (pool_write_spec _ _ s (blocks_needed size)); [done|apply list_elem_of_here|lia|lia]. }
  pose proof (secure_free_spec _ _ _ _ Hi2) as Hi3. unfold secure_free in *.
  assert (s * SECURE_BLOCK_SIZE / SECURE_BLOCK_SIZE = s) as Hdiv by (unfold SECURE_BLOCK_SIZE; zdiv). rewrite Hdiv in *.
  unfold total_blocks in Hse. rewrite Hsize in Hse. fold (total_blocks p) in Hse.
  pose proof (total_blocks_bound p ltac:(apply (pi_size _ _ Hi))) as Htb. pose proof (zlen_nonneg bs) as Hz.
  destruct p as [mem sz al mp]. cbn [pool_memory pool_size pool_allocated allocation_map pool_write] in *. f_equal.
  - pose proof (pi_memory _ _ Hi) as Hml. cbn in Hml. rewrite Hmem.
    apply list_eq. intros k. rewrite <- (Nat2Z.id k). set (o := Z.of_nat k) in *.
    assert (0 <= o) as Ho by lia. clearbody o. set (rep := replicate _ 0).
    assert (zlen rep = blocks_needed size * SECURE_BLOCK_SIZE) as Hrep by (unfold rep, SECURE_BLOCK_SIZE in *; rewrite zlen_replicate; lia).
    assert (s * SECURE_BLOCK_SIZE + zlen rep <= zlen mem) as Hfit by (unfold SECURE_BLOCK_SIZE in *; lia).
    rewrite write_at_lookup; [|unfold SECURE_BLOCK_SIZE in *; lia|rewrite zlen_write_at; unfold SECURE_BLOCK_SIZE in *; lia|done].
    destruct (_ && _) eqn:Er.
    + apply andb_true_iff in Er as [E1%Z.leb_le E2%Z.ltb_lt].
      transitivity (Some 0); [|symmetry; apply (pi_clean _ _ Hi o); [unfold SECURE_BLOCK_SIZE in *; lia|apply Hfree; unfold SECURE_BLOCK_SIZE in *; split; zdiv]].
      unfold rep. apply lookup_replicate. split; [done|unfold SECURE_BLOCK_SIZE in *; lia].
    + rewrite write_at_lookup; [|unfold SECURE_BLOCK_SIZE in *; lia..].
      apply andb_false_iff in Er. rewrite Z.leb_gt, Z.ltb_ge in Er.
      destruct (_ && _) eqn:Er2; [|done]. apply andb_true_iff in Er2 as [E1%Z.leb_le E2%Z.ltb_lt]. lia.
  - done.
  - pose proof (pi_allocated _ _ Hi) as Ha. pose proof (pi_allocated _ _ Hi3) as Ha3. cbn in Ha, Ha3. by rewrite Ha, Ha3.
  - rewrite Hmap. apply list_eq. intros k. rewrite <- (Nat2Z.id k). set (b := Z.of_nat k) in *. assert (0 <= b) as Hb0 by lia. clearbody b.
    rewrite !set_run_spec, !Z2Nat.id by lia. destruct (_ && _) eqn:Er; [|done].
    apply andb_true_iff in Er as [E1%Z.leb_le E2%Z.ltb_lt].
    assert (mp !! Z.to_nat b = Some false) as -> by (apply (map_free _ _ b Hi Hb0); split; [lia|apply Hfree; lia]). done.
Qed.

Lemma pool_read_write p off bs :
  0 <= off -> off + zlen bs <= zlen (pool_memory p) -> pool_read off (zlen bs) (pool_write off bs p) = bs.
Proof.
  intros Ho Hl. unfold pool_read, pool_write. cbn [pool_memory]. unfold write_at.
  eapply sub_eq_app; [reflexivity|zl|done].
Qed.

Section derive.
Context (PBKDF2 : bytes -> bytes -> Z -> Z -> option bytes).
(** The derived key has the requested length. *)
Context (PBKDF2_length : forall pw salt it n k, PBKDF2 pw salt it n = Some k -> zlen k = n).

Lemma pbkdf2_derive_key_spec pw salt it n p live r p1 :
  pool_inv p live -> 0 <= n <= UINT64_MAX - SECURE_BLOCK_SIZE -> pbkdf2_derive_key PBKDF2 pw salt it n p = (r, p1) ->
  match r with
  | None => p1 = p
  | Some ptr => exists k, PBKDF2 pw salt it n = Some k /\ pool_read ptr n p1 = k /\ secure_free (Some ptr) n p1 = p
  end.
Proof using PBKDF2_length.
  intros Hi Hn. unfold pbkdf2_derive_key. pose proof (blocks_needed_enough n Hn) as Hen.
  pose proof (secure_malloc_spec p live n Hi) as Hm. destruct (secure_malloc n p) as [[ptr|] p0] eqn:Em.
  - destruct (PBKDF2 pw salt it n) as [k|] eqn:Ek; intros [= <- <-].
    + exists k. pose proof (PBKDF2_length _ _ _ _ _ Ek) as Hk. split; [done|]. split; [|eapply free_restores; [done|done|lia]].
      destruct Hm as (s & -> & Hi1 & Hmem & Hsize & Hfree & Hmap). subst n. apply pool_read_write.
      * pose proof (pi_region _ _ Hi1 s _ ltac:(apply list_elem_of_here)). unfold SECURE_BLOCK_SIZE. lia.
      * destruct (pi_region _ _ Hi1 s _ ltac:(apply list_elem_of_here)) as (Hs & _ & Hse).
        pose proof (total_blocks_bound p0 ltac:(apply (pi_size _ _ Hi1))). rewrite (pi_memory _ _ Hi1). unfold SECURE_BLOCK_SIZE in *. lia.
    + assert (0 <= ptr) as Hp.
      { destruct Hm as (s & -> & Hi1 & _). pose proof (pi_region _ _ Hi1 s _ ltac:(apply list_elem_of_here)). unfold SECURE_BLOCK_SIZE. lia. }
      transitivity (secure_free (Some ptr) n (pool_write ptr [] p0)).
      * unfold pool_write. rewrite write_at_nil by done. by destruct p0.
      * eapply free_restores; [done|done|]. rewrite zlen_nil. pose proof (blocks_needed_pos n). unfold SECURE_BLOCK_SIZE. lia.
  - destruct Hm as [-> _]. by intros [= <- <-].
Qed.
End derive.

(** ** Runs *)
(** The pool with the regions its users hold, as pointer and size. A user frees
    what it holds with the size it asked for and writes within that size. *)
Inductive pstep : secure_pool * list (Z * Z) -> secure_pool * list (Z * Z) -> Prop :=
| ps_malloc size ptr p p' held :
    0 <= size <= UINT64_MAX - SECURE_BLOCK_SIZE -> secure_malloc size p = (Some ptr, p') -> pstep (p, held) (p', (ptr, size) :: held)
| ps_fail size p p' held : secure_malloc size p = (None, p') -> pstep (p, held) (p', held)
| ps_free ptr size p held held' :
    held ≡ₚ (ptr, size) :: held' -> pstep (p, held) (secure_free (Some ptr) size p, held')
| ps_free_null size p held : pstep (p, held) (secure_free None size p, held)
| ps_write ptr size off bs p held :
    (ptr, size) ∈ held -> ptr <= off -> off + zlen bs <= ptr + size -> pstep (p, held) (pool_write off bs p, held).

Definition region_of (r : Z * Z) : Z * Z := (r.1 / SECURE_BLOCK_SIZE, blocks_needed r.2).
Record held_ok (o : secure_pool * list (Z * Z)) : Prop := {
  ho_inv : pool_inv o.1 (map region_of o.2);
  ho_aligned : forall ptr size, (ptr, size) ∈ o.2 ->
    ptr = ptr / SECURE_BLOCK_SIZE * SECURE_BLOCK_SIZE /\ 0 <= size <= UINT64_MAX - SECURE_BLOCK_SIZE }.

Lemma pstep_held_ok o o' : held_ok o -> pstep o o' -> held_ok o'.
Proof.
  intros [Hi Ha] Hs. destruct Hs as [size ptr p p' held Hsz Em|size p p' held Em|ptr size p held held' HP|size p held|ptr size off bs p held Hin Hlo Hhi];
    cbn in *.
  - pose proof (secure_malloc_spec p _ size Hi) as Hm. rewrite Em in Hm. destruct Hm as (s & -> & Hi1 & _).
    assert (s * SECURE_BLOCK_SIZE / SECURE_BLOCK_SIZE = s) as Hd by (unfold SECURE_BLOCK_SIZE; zdiv). constructor; cbn.
    + unfold region_of at 1. cbn. by rewrite Hd.
    + intros ptr' size' [[= -> ->]|Hin]%list.elem_of_cons; [|by apply Ha]. by rewrite Hd.
  - pose proof (secure_malloc_spec p _ size Hi) as Hm. rewrite Em in Hm. destruct Hm as [-> _]. by constructor.
  - destruct (Ha ptr size) as [Hal Hsz]; [rewrite HP; apply list_elem_of_here|]. constructor; cbn.
    + change (pool_inv (secure_free (Some ptr) size p) (map region_of held')). rewrite Hal at 1. apply secure_free_spec. apply (pool_inv_perm _ (map region_of held)); [by rewrite HP|done].
    + intros ptr' size' Hin. apply Ha. rewrite HP. by apply list_elem_of_further.
  - by constructor.
  - destruct (Ha ptr size Hin) as [Hal Hsz]. constructor; [|done]. cbn.
    eapply (pool_write_spec _ _ (ptr / SECURE_BLOCK_SIZE) (blocks_needed size)); [done| | |].
    + apply list_elem_of_In, in_map_iff. exists (ptr, size). split; [done|by apply list_elem_of_In].
    + lia.
    + pose proof (blocks_needed_enough size Hsz). unfold SECURE_BLOCK_SIZE in *. lia.
Qed.

Lemma taken_apart live i j r1 r2 b :
  NoDup (taken live) -> i <> j -> live !! i = Some r1 -> live !! j = Some r2 -> b ∈ region_blocks r1 -> b ∈ region_blocks r2 -> False.
Proof.
  assert (forall (l : list (Z * Z)) k r, l !! k = Some r -> b ∈ region_blocks r -> b ∈ taken l) as Hin.
  { intros l k [s n] Hl Hb. apply elem_of_taken. exists s, n. split; [by eapply list_elem_of_lookup_2|].
    unfold region_blocks in Hb. apply elem_of_seqZ in Hb. done. }
  revert i j. induction live as [|r live IH]; intros i j Hnd Hne Hi Hj H1 H2; [done|].
  change (taken (r :: live)) with (region_blocks r ++ taken live) in Hnd. apply list.NoDup_app in Hnd as (_ & Hd & Hnd).
  destruct i as [|i], j as [|j]; cbn in Hi, Hj; [done| | |].
  - injection Hi as ->. by apply (Hd b H1), (Hin live j r2).
  - injection Hj as ->. by apply (Hd b H2), (Hin live i r1).
  - eapply (IH i j); try done. congruence.
Qed.

Lemma held_apart p held i j p1 s1 p2 s2 :
  held_ok (p, held) -> i <> j -> held !! i = Some (p1, s1) -> held !! j = Some (p2, s2) -> p1 + s1 <= p2 \/ p2 + s2 <= p1.
Proof.
  intros [Hi Ha] Hne H1 H2. cbn in Hi, Ha.
  destruct (Ha p1 s1 ltac:(by eapply list_elem_of_lookup_2)) as [A1 B1]. destruct (Ha p2 s2 ltac:(by eapply list_elem_of_lookup_2)) as [A2 B2].
  pose proof (blocks_needed_enough s1 B1). pose proof (blocks_needed_enough s2 B2).
  pose proof (blocks_needed_pos s1). pose proof (blocks_needed_pos s2).
  assert (forall b, p1 / SECURE_BLOCK_SIZE <= b < p1 / SECURE_BLOCK_SIZE + blocks_needed s1 ->
    p2 / SECURE_BLOCK_SIZE <= b < p2 / SECURE_BLOCK_SIZE + blocks_needed s2 -> False) as Hap.
  { intros b Hb1 Hb2. eapply (taken_apart (map region_of held) i j (region_of (p1, s1)) (region_of (p2, s2)) b).
    - apply (pi_disjoint _ _ Hi).
    - done.
    - rewrite list_lookup_fmap, H1. done.
    - rewrite list_lookup_fmap, H2. done.
    - unfold region_blocks, region_of. cbn. apply elem_of_seqZ. lia.
    - unfold region_blocks, region_of. cbn. apply elem_of_seqZ. lia. }
  unfold SECURE_BLOCK_SIZE in *. specialize (Hap (Z.max (p1 / 64) (p2 / 64))). lia.
Qed.

Lemma held_inside p held ptr size :
  held_ok (p, held) -> (ptr, size) ∈ held -> 0 <= ptr /\ ptr + size <= pool_size p.
Proof.
  intros [Hi Ha] Hin. cbn in Hi, Ha. destruct (Ha ptr size Hin) as [A B]. pose proof (blocks_needed_enough size B).
  destruct (pi_region _ _ Hi (ptr / SECURE_BLOCK_SIZE) (blocks_needed size)) as (R1 & _ & R3).
  { apply list_elem_of_In, in_map_iff. exists (ptr, size). split; [done|by apply list_elem_of_In]. }
  pose proof (total_blocks_bound p ltac:(apply (pi_size _ _ Hi))). unfold SECURE_BLOCK_SIZE in *. lia.
Qed.

Lemma held_clean p held off :
  held_ok (p, held) -> 0 <= off < total_blocks p * SECURE_BLOCK_SIZE ->
  (forall ptr size, (ptr, size) ∈ held -> ~ (ptr <= off < ptr + blocks_needed size * SECURE_BLOCK_SIZE)) ->
  pool_memory p !! Z.to_nat off = Some 0.
Proof.
  intros [Hi Ha] Ho Hn. cbn in Hi, Ha. apply (pi_clean _ _ Hi); [done|]. intros (s & n & Hin & Hb)%elem_of_taken.
  apply list_elem_of_In, in_map_iff in Hin as ([ptr size] & [= <- <-] & Hin%list_elem_of_In).
  destruct (Ha ptr size Hin) as [A B]. apply (Hn ptr size Hin). unfold SECURE_BLOCK_SIZE in *. revert Hb A. cbn. intros. zdiv.
Qed.

Lemma held_ok_run o o' : rtc pstep o o' -> held_ok o -> held_ok o'.
Proof. induction 1 as [|x y z Hxy _ IH]; [done|]. intros Hx. apply IH. by eapply pstep_held_ok. Qed.
