(* ===== verification/Users.v ===== *)
(** * User accounts (src/server/src/user_auth.c)

    Registration, login, the current user and the middleware that turns a
    bearer token into the identity of a connection. Accounts are rows of the
    database interface [KvStore]; a password is stored as the hash
    [pbkdf2_derive_key] derives in the locked pool; a login answers a token of
    [Jwt]. Random bytes, the key derivation and the MAC are parameters; [now] is
    the clock during the call. *)
From Stdlib Require Import String.
From S2P Require Import Prelude Text BtreePage Db DbScan Json Jwt TodoIndex HttpTypes HttpText Connection HttpResponse Route Crypto.

Local Open Scope Z_scope.

Definition PBKDF2_ITERATIONS : Z := 100000.
Definition PW_SALT_SIZE : Z := 16.
Definition PW_HASH_SIZE : Z := 32.
Definition USER_KEY_PREFIX : bytes := str "user:".
Definition MIN_USERNAME_LEN : Z := 3.
Definition MAX_USERNAME_LEN : Z := 64.
Definition MIN_PASSWORD_LEN : Z := 8.
Definition MAX_PASSWORD_LEN : Z := 128.

Record user_record := mkUser {
  user_id : Z;
  user_name : bytes;
  user_salt : bytes;
  user_hash : bytes;
  user_iterations : Z }.

(** ** Text *)
Fixpoint hex_encode (l : bytes) : bytes :=
  match l with
  | [] => []
  | b :: l' => hex_lower (Z.shiftr b 4) :: hex_lower (Z.land b 15) :: hex_encode l'
  end.

Definition hex_nibble (c : Z) : option Z :=
  if (48 <=? c) && (c <=? 57) then Some (c - 48)
  else if (97 <=? c) && (c <=? 102) then Some (c - 97 + 10)
  else if (65 <=? c) && (c <=? 70) then Some (c - 65 + 10)
  else None.

(** Exactly [n] bytes from a string that ends behind them. *)
Fixpoint hex_decode (n : nat) (l : bytes) : option bytes :=
  match n with
  | O => match l with [] => Some [] | _ => None end
  | S n' =>
      match l with
      | h :: o :: l' =>
          hi ← hex_nibble h; lo ← hex_nibble o;
          rest ← hex_decode n' l';
          Some (u8 (Z.lor (Z.shiftl hi 4) lo) :: rest)
      | _ => None
      end
  end.

Definition username_char (c : Z) : bool :=
  ((97 <=? c) && (c <=? 122)) || ((65 <=? c) && (c <=? 90)) || ((48 <=? c) && (c <=? 57)) ||
  (c =? 95) || (c =? 46) || (c =? 45).
Definition username_valid (username : bytes) : bool :=
  let len := zlen username in
  if (len <? MIN_USERNAME_LEN) || (len >=? MAX_USERNAME_LEN) then false else forallb username_char username.

Definition user_key (username : bytes) : bytes := USER_KEY_PREFIX ++ username.

Definition user_text (u : user_record) : bytes :=
  [123; 34] ++ str "id" ++ [34; 58] ++ dec (user_id u) ++ [44; 34] ++ str "username" ++ [34; 58; 34] ++ user_name u ++
  [34; 44; 34] ++ str "salt" ++ [34; 58; 34] ++ hex_encode (user_salt u) ++ [34; 44; 34] ++ str "hash" ++ [34; 58; 34] ++
  hex_encode (user_hash u) ++ [34; 44; 34] ++ str "iter" ++ [34; 58] ++ dec (user_iterations u) ++ [125].
Definition build_user_json (dst_size : Z) (u : user_record) : option bytes := snprintf dst_size (user_text u).

(** The fields of a stored record. *)
Definition read_user (value : bytes) : option user_record :=
  id ← json_get_uint64 value (str "id");
  name ← json_get_string value (str "username") MAX_USERNAME_LEN;
  salt_hex ← json_get_string value (str "salt") (PW_SALT_SIZE * 2 + 1);
  hash_hex ← json_get_string value (str "hash") (PW_HASH_SIZE * 2 + 1);
  iterations ← json_get_uint64 value (str "iter");
  salt ← hex_decode (Z.to_nat PW_SALT_SIZE) (cstr salt_hex);
  hash ← hex_decode (Z.to_nat PW_HASH_SIZE) (cstr hash_hex);
  if iterations >? 0 then Some (mkUser id (cstr name) salt hash iterations) else None.

(** A conversion to [int]. *)
Definition to_int (z : Z) : Z := let u := u32 z in if u >=? 2 ^ 31 then u - 2 ^ 32 else u.

(** The parts of the service a request changes: the database, the locked pool
    and the next user id. *)
Record accounts (D : Type) := mkAccounts { acc_db : D; acc_pool : secure_pool; next_user_id : Z }.
Arguments mkAccounts {D}.
Arguments acc_db {D}.
Arguments acc_pool {D}.
Arguments next_user_id {D}.

Section users.
Context (gzip : bytes -> option bytes) (server_name : bytes) (now : Z).
Context (HMAC : bytes -> bytes -> option bytes) (secret : bytes) (token_ttl : Z).
Context (PBKDF2 : bytes -> bytes -> Z -> Z -> option bytes).
Context {D : Type} `{KvStore D}.

Definition hash_password (password salt : bytes) (iterations : Z) (p : secure_pool) : option bytes * secure_pool :=
  match pbkdf2_derive_key PBKDF2 password salt iterations PW_HASH_SIZE p with
  | (None, p) => (None, p)
  | (Some derived, p) => (Some (pool_read derived PW_HASH_SIZE p), secure_free (Some derived) PW_HASH_SIZE p)
  end.

Definition load_user (username : bytes) (d : D) : option user_record * D :=
  match snprintf MAX_KEY_SIZE (user_key username) with
  | None => (None, d)
  | Some key =>
      match kv_begin d with
      | (None, d) => (None, d)
      | (Some txn, d) =>
          let '(rc, v, n, d) := kv_search txn key MAX_VALUE_SIZE d in
          let d := kv_free txn (kv_commit txn d) in
          if negb (rc =? 0) then (None, d) else
          let value := ztake (if n >? MAX_VALUE_SIZE then MAX_VALUE_SIZE else n) v in
          (read_user value, d)
      end
  end.

(** The credentials, or the connection with the refusal staged. *)
Definition parse_credentials (conn : connection) : connection + (bytes * bytes) :=
  let refuse msg := inl (send_error_json gzip server_name now HTTP_BAD_REQUEST msg conn).2 in
  match req_body (conn_request conn) with
  | None | Some [] => refuse (str "request body required")
  | Some body =>
      match json_get_string body (str "username") MAX_USERNAME_LEN with
      | None => refuse (str "missing or invalid 'username'")
      | Some username =>
          match json_get_string body (str "password") (MAX_PASSWORD_LEN + 1) with
          | None => refuse (str "missing or invalid 'password'")
          | Some password => inr (cstr username, cstr password)
          end
      end
  end.

Definition register_text (id : Z) (username token : bytes) : bytes :=
  [123; 34] ++ str "id" ++ [34; 58] ++ dec id ++ [44; 34] ++ str "username" ++ [34; 58; 34] ++ username ++
  [34; 44; 34] ++ str "token" ++ [34; 58; 34] ++ token ++ [34; 44; 34] ++ str "token_type" ++ [34; 58; 34] ++ str "Bearer" ++
  [34; 44; 34] ++ str "expires_in" ++ [34; 58] ++ dec_signed token_ttl ++ [125].

(** [salt]: what [secure_random_bytes] answers. *)
Definition user_register_handler (salt : option bytes) (conn : connection) (a : accounts D) : Z * connection * accounts D :=
  match parse_credentials conn with
  | inl conn => (0, conn, a)
  | inr (username, password) =>
      if negb (username_valid username) then
        (send_error_json gzip server_name now HTTP_BAD_REQUEST (str "username must be 3-63 characters of [A-Za-z0-9_.-]") conn, a) else
      if zlen password <? MIN_PASSWORD_LEN then
        (send_error_json gzip server_name now HTTP_BAD_REQUEST (str "password must be at least 8 characters") conn, a) else
      let '(hashed, a) :=
        match salt with
        | None => (None, a)
        | Some salt =>
            let '(h, p) := hash_password password salt PBKDF2_ITERATIONS (acc_pool a) in
            ((fun h => (salt, h)) <$> h, mkAccounts (acc_db a) p (next_user_id a))
        end in
      match hashed with
      | None => (send_error_response gzip server_name now HTTP_INTERNAL_SERVER_ERROR (str "Password hashing failed") conn, a)
      | Some (salt, hash) =>
          let id := next_user_id a in
          let a := mkAccounts (acc_db a) (acc_pool a) (u64 (id + 1)) in
          let user := mkUser id username salt hash PBKDF2_ITERATIONS in
          match snprintf MAX_KEY_SIZE (user_key username), build_user_json MAX_VALUE_SIZE user with
          | Some key, Some value =>
              match kv_begin (acc_db a) with
              | (None, d) => (send_error_response gzip server_name now HTTP_INTERNAL_SERVER_ERROR (str "Transaction failed") conn,
                               mkAccounts d (acc_pool a) (next_user_id a))
              | (Some txn, d) =>
                  let '(rc, d) := kv_insert txn key value d in
                  let a := mkAccounts (kv_free txn (kv_commit txn d)) (acc_pool a) (next_user_id a) in
                  if negb (rc =? 0) then (send_error_json gzip server_name now HTTP_CONFLICT (str "username already exists") conn, a) else
                  match jwt_create (crypto_hmac_sha256 HMAC) secret id username now token_ttl 512 with
                  | None => (send_error_response gzip server_name now HTTP_INTERNAL_SERVER_ERROR (str "Token creation failed") conn, a)
                  | Some token =>
                      match snprintf 768 (register_text id username token) with
                      | None => (send_error_response gzip server_name now HTTP_INTERNAL_SERVER_ERROR (str "Response too large") conn, a)
                      | Some body => (send_json_response gzip server_name now HTTP_CREATED body conn, a)
                      end
                  end
              end
          | _, _ => (send_error_response gzip server_name now HTTP_INTERNAL_SERVER_ERROR (str "User record too large") conn, a)
          end
      end
  end.

(** The accumulated difference of the computed hash and the stored one; a user
    that was not found leaves it non-zero. *)
Definition hash_diff (computed : bytes) (found : option user_record) : Z :=
  tag_diff computed (match found with Some u => user_hash u | None => replicate (Z.to_nat PW_HASH_SIZE) 0 end)
    (match found with Some _ => 0 | None => 1 end).

Definition login_text (u : user_record) (token : bytes) : bytes :=
  [123; 34] ++ str "token" ++ [34; 58; 34] ++ token ++ [34; 44; 34] ++ str "token_type" ++ [34; 58; 34] ++ str "Bearer" ++
  [34; 44; 34] ++ str "expires_in" ++ [34; 58] ++ dec_signed token_ttl ++ [44; 34] ++ str "user" ++ [34; 58; 123; 34] ++
  str "id" ++ [34; 58] ++ dec (user_id u) ++ [44; 34] ++ str "username" ++ [34; 58; 34] ++ user_name u ++ [34; 125; 125].

Definition user_login_handler (conn : connection) (a : accounts D) : Z * connection * accounts D :=
  match parse_credentials conn with
  | inl conn => (0, conn, a)
  | inr (username, password) =>
      let '(found, d) := load_user username (acc_db a) in
      let salt := match found with Some u => user_salt u | None => replicate (Z.to_nat PW_SALT_SIZE) 0 end in
      let iterations := match found with Some u => to_int (user_iterations u) | None => PBKDF2_ITERATIONS end in
      let '(computed, p) := hash_password password salt iterations (acc_pool a) in
      let a := mkAccounts d p (next_user_id a) in
      match computed with
      | None => (send_error_response gzip server_name now HTTP_INTERNAL_SERVER_ERROR (str "Password hashing failed") conn, a)
      | Some computed =>
          if negb (hash_diff computed found =? 0) then
            (send_error_json gzip server_name now HTTP_UNAUTHORIZED (str "invalid username or password") conn, a) else
          let user := default (mkUser 0 [] [] [] 0) found in
          match jwt_create (crypto_hmac_sha256 HMAC) secret (user_id user) (user_name user) now token_ttl 512 with
          | None => (send_error_response gzip server_name now HTTP_INTERNAL_SERVER_ERROR (str "Token creation failed") conn, a)
          | Some token =>
              match snprintf 768 (login_text user token) with
              | None => (send_error_response gzip server_name now HTTP_INTERNAL_SERVER_ERROR (str "Response too large") conn, a)
              | Some body => (send_json_response gzip server_name now HTTP_OK body conn, a)
              end
          end
      end
  end.

Definition user_me_handler : handler := fun conn =>
  let body := snprintf_s 128 ([123; 34] ++ str "id" ++ [34; 58] ++ dec (auth_user_id conn) ++ [44; 34] ++ str "username" ++
                [34; 58; 34] ++ auth_username conn ++ [34; 125]) in
  Some (send_json_response gzip server_name now HTTP_OK body conn).

(** ** The middleware *)
Definition path_requires_jwt (uri : bytes) : bool :=
  starts_with (str "/api/todos") uri || bool_decide (uri = str "/api/auth/me").

Definition AUTH_USERNAME_SIZE : Z := 64.
Definition with_identity (id : Z) (name : bytes) (conn : connection) : connection :=
  set_auth_username name (set_auth_user_id id conn).

Definition jwt_middleware : middleware := fun next conn =>
  let conn := with_identity 0 [] conn in
  let request := conn_request conn in
  if negb (path_requires_jwt (req_uri request)) then next conn else
  match (authz ← request_header request (str "Authorization"); bearer_value authz) with
  | None | Some [] => Some (send_error_json gzip server_name now HTTP_UNAUTHORIZED (str "missing bearer token") conn)
  | Some token =>
      match jwt_verify (crypto_hmac_sha256 HMAC) secret token now AUTH_USERNAME_SIZE with
      | JWT_EXPIRED => Some (send_error_json gzip server_name now HTTP_UNAUTHORIZED (str "token expired") conn)
      | JWT_INVALID => Some (send_error_json gzip server_name now HTTP_UNAUTHORIZED (str "invalid token") conn)
      | JWT_OK id username =>
          if id =? 0 then Some (send_error_json gzip server_name now HTTP_UNAUTHORIZED (str "invalid token") conn) else
          next (with_identity id (snprintf_s AUTH_USERNAME_SIZE (cstr username)) conn)
      end
  end.

(** ** Start *)
Definition seed_user_id_scan_cb (key value : bytes) (max_id : Z) : Z * Z :=
  if negb (starts_with USER_KEY_PREFIX key) then (0, max_id) else
  match json_get_uint64 value (str "id") with
  | Some id => (0, if id >? max_id then id else max_id)
  | None => (0, max_id)
  end.

(** The pool, the secret, the lifetime of tokens and the next user id; [None]
    when the pool or the secret cannot be set up. *)
Definition user_api_init (pool : option secure_pool) (secret env_secret : bytes) (random : option bytes) (ttl : Z) (d : D)
    : option (accounts D * bytes * Z) * D :=
  match pool with
  | None => (None, d)
  | Some p =>
      let '(secret, rc) := jwt_init secret env_secret random in
      if negb (rc =? 0) then (None, d) else
      let ttl := if ttl >? 0 then ttl else 3600 in
      let '(max_id, d) :=
        match kv_begin d with
        | (None, d) => (0, d)
        | (Some txn, d) =>
            let '(_, max_id, d) := kv_scan Z txn [] seed_user_id_scan_cb 0 d in
            (max_id, kv_free txn (kv_commit txn d))
        end in
      (Some (mkAccounts d p (u64 (max_id + 1)), secret, ttl), d)
  end.
End users.

(** ** Text lemmas *)
Lemma hex_lower_nibble d : 0 <= d < 16 -> hex_nibble (hex_lower d) = Some d /\ plain (hex_lower d).
Proof.
  intros Hd. assert (d ∈ [0;1;2;3;4;5;6;7;8;9;10;11;12;13;14;15]) as Hin by (rewrite !elem_of_cons; lia).
  repeat (apply list.elem_of_cons in Hin as [->|Hin]; [split; [done|unfold plain; split; [split|split]; vm_compute; congruence]|]).
  by apply not_elem_of_nil in Hin.
Qed.

Lemma byte_nibbles b : is_byte b ->
  0 <= Z.shiftr b 4 < 16 /\ 0 <= Z.land b 15 < 16 /\ u8 (Z.lor (Z.shiftl (Z.shiftr b 4) 4) (Z.land b 15)) = b.
Proof.
  unfold is_byte. intros Hb. change 15 with (Z.ones 4). rewrite Z.land_ones, Z.shiftr_div_pow2 by lia.
  rewrite lor_disjoint by (try apply Z.mod_pos_bound; lia). change (2 ^ 4) with 16.
  split; [zdiv|]. split; [zdiv|]. rewrite u8_small by zdiv. zdiv.
Qed.

Lemma hex_roundtrip l : Forall is_byte l -> hex_decode (length l) (hex_encode l) = Some l.
Proof.
  induction 1 as [|b l Hb Hl IH]; [done|]. cbn [hex_encode length hex_decode].
  destruct (byte_nibbles b Hb) as (H1 & H2 & H3). destruct (hex_lower_nibble _ H1) as [-> _]. destruct (hex_lower_nibble _ H2) as [-> _].
  cbn [mbind option_bind]. rewrite IH. cbn [mbind option_bind]. by rewrite H3.
Qed.

Lemma hex_encode_plain l : Forall is_byte l -> Forall plain (hex_encode l).
Proof.
  induction 1 as [|b l Hb Hl IH]; [constructor|]. cbn [hex_encode]. destruct (byte_nibbles b Hb) as (H1 & H2 & _).
  constructor; [by apply hex_lower_nibble|]. constructor; [by apply hex_lower_nibble|done].
Qed.

Lemma zlen_hex_encode l : zlen (hex_encode l) = 2 * zlen l.
Proof. induction l as [|b l IH]; [done|]. cbn [hex_encode]. rewrite !zlen_cons, IH. lia. Qed.

Lemma username_valid_spec name :
  username_valid name = true -> Forall plain name /\ MIN_USERNAME_LEN <= zlen name < MAX_USERNAME_LEN.
Proof.
  unfold username_valid. destruct (Z.ltb_spec (zlen name) MIN_USERNAME_LEN), (Z.geb_spec (zlen name) MAX_USERNAME_LEN); cbn; try done.
  intros Hf. split; [|lia]. rewrite forallb_forall in Hf. apply list.Forall_forall. intros c Hc%list_elem_of_In%Hf.
  unfold username_char in Hc. unfold plain. rewrite !orb_true_iff, !andb_true_iff, !Z.leb_le, !Z.eqb_eq in Hc. lia.
Qed.

Lemma plain_cstr l : Forall plain l -> cstr l = l.
Proof.
  induction 1 as [|c l Hc Hl IH]; [done|]. cbn. destruct (Z.eqb_spec c 0) as [->|]; [|by rewrite IH].
  unfold plain in Hc. lia.
Qed.

(** ** Stored records *)
Record user_ok (u : user_record) : Prop := {
  uo_id : 0 <= user_id u <= UINT64_MAX;
  uo_name : username_valid (user_name u) = true;
  uo_salt : Forall is_byte (user_salt u) /\ zlen (user_salt u) = PW_SALT_SIZE;
  uo_hash : Forall is_byte (user_hash u) /\ zlen (user_hash u) = PW_HASH_SIZE;
  uo_iterations : 0 < user_iterations u <= UINT64_MAX }.

Definition user_fields (u : user_record) : list (bytes * jval) :=
  [(str "id", JNum (user_id u)); (str "username", JStr (user_name u)); (str "salt", JStr (hex_encode (user_salt u)));
   (str "hash", JStr (hex_encode (user_hash u))); (str "iter", JNum (user_iterations u))].

Lemma user_text_object u : user_ok u -> user_text u = render_object (user_fields u).
Proof.
  intros [H1 H2 [H3 _] [H4 _] H5]. apply username_valid_spec in H2 as [H2 _].
  unfold user_text, render_object. cbn [user_fields render_fields]. unfold render_field, render_val. cbn [fst snd].
  rewrite !escaped_plain by (done || by apply hex_encode_plain).
  cbn [app str]. repeat (rewrite <- app_assoc; cbn [app]). done.
Qed.

Lemma user_fields_ok u : user_ok u -> Forall field_ok (user_fields u).
Proof.
  intros [H1 H2 [H3 _] [H4 _] H5]. apply username_valid_spec in H2 as [(_ & H2 & _)%plain_weaken _].
  apply hex_encode_plain, plain_weaken in H3 as (_ & H3 & _). apply hex_encode_plain, plain_weaken in H4 as (_ & H4 & _).
  repeat constructor; cbn; (done || lia).
Qed.

Lemma zlen_user_text u : user_ok u -> zlen (user_text u) < 300.
Proof.
  intros [H1 H2 [_ H3] [_ H4] H5]. apply username_valid_spec in H2 as [_ H2]. unfold MAX_USERNAME_LEN, MIN_USERNAME_LEN in H2.
  destruct (dec_spec _ H1) as (_ & _ & _ & L1). destruct (dec_spec (user_iterations u) ltac:(lia)) as (_ & _ & _ & L2).
  unfold user_text. rewrite !zlen_app, !zlen_hex_encode, H3, H4. unfold PW_SALT_SIZE, PW_HASH_SIZE.
  change (zlen (str "id")) with 2. change (zlen (str "username")) with 8. change (zlen (str "salt")) with 4.
  change (zlen (str "hash")) with 4. change (zlen (str "iter")) with 4. rewrite ?zlen_cons, ?zlen_nil. lia.
Qed.

Lemma user_text_bytes u : user_ok u -> Forall is_byte (user_text u).
Proof.
  intros [H1 H2 [H3 _] [H4 _] H5]. apply username_valid_spec in H2 as [(H2 & _)%plain_weaken _].
  apply hex_encode_plain, plain_weaken in H3 as (H3 & _). apply hex_encode_plain, plain_weaken in H4 as (H4 & _).
  unfold user_text. rewrite !list.Forall_app. split_and!; try done; try (apply dec_bytes; lia);
    apply (bool_decide_unpack _); vm_compute; exact I.
Qed.

Lemma user_storable u : user_ok u -> storable (user_key (user_name u)) (user_text u).
Proof.
  intros Hu. pose proof (zlen_user_text u Hu). pose proof (user_text_bytes u Hu). destruct Hu as [_ Hn _ _ _].
  apply username_valid_spec in Hn as [(Hb & _)%plain_weaken Hl]. unfold MAX_USERNAME_LEN, MIN_USERNAME_LEN in Hl. unfold storable, user_key.
  rewrite zlen_app, list.Forall_app. change (zlen USER_KEY_PREFIX) with 5. unfold MAX_KEY_SIZE, MAX_VALUE_SIZE.
  split_and!; try done; try lia. apply (bool_decide_unpack _); vm_compute; exact I.
Qed.

Lemma snprintf_fits n text : zlen text < n -> snprintf n text = Some text.
Proof. intros Hn. unfold snprintf. destruct (Z.geb_spec (zlen text) n); [lia|done]. Qed.

Lemma read_user_text u : user_ok u -> read_user (user_text u) = Some u.
Proof.
  intros Hu. unfold read_user. rewrite (user_text_object u Hu). pose proof (user_fields_ok u Hu) as Hf.
  destruct Hu as [H1 H2 [H3 L3] [H4 L4] H5]. apply username_valid_spec in H2 as [H2 Hl].
  pose proof (hex_encode_plain _ H3) as P3. pose proof (hex_encode_plain _ H4) as P4.
  rewrite (get_uint64_object _ (str "id") (user_id u) Hf) by done. cbn [mbind option_bind].
  rewrite (get_string_object _ (str "username") (user_name u) _ Hf) by (done || (by apply plain_weaken) || lia). cbn [mbind option_bind].
  rewrite (get_string_object _ (str "salt") (hex_encode (user_salt u)) _ Hf) by (done || (by apply plain_weaken) || (rewrite zlen_hex_encode; lia)).
  cbn [mbind option_bind].
  rewrite (get_string_object _ (str "hash") (hex_encode (user_hash u)) _ Hf) by (done || (by apply plain_weaken) || (rewrite zlen_hex_encode; lia)).
  cbn [mbind option_bind]. rewrite (get_uint64_object _ (str "iter") (user_iterations u) Hf) by done. cbn [mbind option_bind].
  rewrite !plain_cstr by done. replace (Z.to_nat PW_SALT_SIZE) with (length (user_salt u)) by (unfold zlen in L3; lia).
  replace (Z.to_nat PW_HASH_SIZE) with (length (user_hash u)) by (unfold zlen in L4; lia).
  rewrite !hex_roundtrip by done. cbn [mbind option_bind]. destruct (Z.gtb_spec (user_iterations u) 0); [by destruct u|lia].
Qed.

Lemma hex_decode_length n l r : hex_decode n l = Some r -> length r = n.
Proof.
  revert l r. induction n as [|n IH]; intros l r; cbn [hex_decode].
  - by destruct l; intros [= <-].
  - destruct l as [|h [|o l]]; [done..|]. destruct (hex_nibble h); [|done]. destruct (hex_nibble o); [|done]. cbn [mbind option_bind].
    destruct (hex_decode n l) as [rest|] eqn:E; [|done]. cbn. intros [= <-]. cbn. by rewrite (IH _ _ E).
Qed.

Lemma read_user_hash value u : read_user value = Some u -> zlen (user_hash u) = PW_HASH_SIZE.
Proof.
  unfold read_user. intros E. repeat (apply bind_Some in E as (? & ? & E)). case_match; [|done]. injection E as <-. cbn.
  match goal with Hh : hex_decode (Z.to_nat PW_HASH_SIZE) _ = Some ?x |- zlen ?x = _ => apply hex_decode_length in Hh; unfold zlen; rewrite Hh; done end.
Qed.

Lemma hash_diff_spec computed found :
  zlen computed = PW_HASH_SIZE -> (forall u, found = Some u -> zlen (user_hash u) = PW_HASH_SIZE) ->
  hash_diff computed found = 0 <-> exists u, found = Some u /\ user_hash u = computed.
Proof.
  intros Hc Hf. unfold hash_diff. destruct found as [u|].
  - rewrite tag_diff_eq by (specialize (Hf u eq_refl); unfold zlen in *; lia). split; [intros ->; by exists u|by intros (? & [= <-] & ->)].
  - split; [intros Hd%tag_diff_mono; done|by intros (? & ? & _)].
Qed.

(** ** The handlers over a database *)
Definition has_room (p : secure_pool) (live : list (Z * Z)) : Prop := exists b, 0 <= b < total_blocks p /\ b ∉ taken live.

Section account_laws.
Context (gzip : bytes -> option bytes) (server_name : bytes).
Context (HMAC : bytes -> bytes -> option bytes) (secret : bytes) (token_ttl : Z).
Context (PBKDF2 : bytes -> bytes -> Z -> Z -> option bytes).
(** The derived key is of the requested length. *)
Context (PBKDF2_key : forall pw salt it n k, PBKDF2 pw salt it n = Some k -> Forall is_byte k /\ zlen k = n).

(** The pool is as it was; the hash is the derived key when the pool has room
    for it. *)
Lemma hash_password_spec pw salt it p live r p' :
  pool_inv p live -> hash_password PBKDF2 pw salt it p = (r, p') ->
  p' = p /\ (forall h, r = Some h -> PBKDF2 pw salt it PW_HASH_SIZE = Some h) /\
  (has_room p live -> r = PBKDF2 pw salt it PW_HASH_SIZE).
Proof using PBKDF2_key.
  intros Hi. unfold hash_password. destruct (pbkdf2_derive_key PBKDF2 pw salt it PW_HASH_SIZE p) as [[ptr|] p1] eqn:E;
    pose proof (pbkdf2_derive_key_spec PBKDF2 (fun pw salt it n k E => proj2 (PBKDF2_key pw salt it n k E)) pw salt it PW_HASH_SIZE p live _ _ Hi
      ltac:(unfold PW_HASH_SIZE, UINT64_MAX, SECURE_BLOCK_SIZE; lia) E) as Hs; intros [<- <-]%pair_equal_spec.
  - destruct Hs as (k & Hk & -> & ->). rewrite Hk. split; [done|]. split; [by intros h [= <-]|done].
  - split; [done|]. split; [done|]. intros (b & Hb & Hn). unfold pbkdf2_derive_key in E.
    pose proof (secure_malloc_spec p live PW_HASH_SIZE Hi) as Hm. destruct (secure_malloc PW_HASH_SIZE p) as [[ptr|] p2].
    + destruct (PBKDF2 pw salt it PW_HASH_SIZE); [done|]. done.
    + destruct Hm as [_ Hm]. change (blocks_needed PW_HASH_SIZE) with 1 in Hm.
      destruct (Hm b ltac:(lia) ltac:(lia)) as (b' & Hb' & Hin). assert (b' = b) as -> by lia. done.
Qed.

Context {D : Type} `{KvStoreLaws D}.

(** The stored account of a name, as the code reads it. *)
Definition account (m : gmap bytes bytes) (name : bytes) : option user_record :=
  x ← m !! user_key name; read_user (ztake MAX_VALUE_SIZE x).

(** The account of the name, or none where a call of the store failed. *)
Lemma load_user_spec name d r d' :
  kv_ok d -> zlen name < MAX_USERNAME_LEN -> load_user name d = (r, d') ->
  kv_ok d' /\ kv_abs d' = kv_abs d /\ kv_le d d' /\ (r = account (kv_abs d) name \/ r = None /\ kv_faults d < kv_faults d').
Proof using.
  intros Hok Hn. unfold load_user. rewrite snprintf_fits
    by (unfold user_key, MAX_KEY_SIZE, MAX_USERNAME_LEN in *; rewrite zlen_app; change (zlen USER_KEY_PREFIX) with 5; lia).
  destruct (kv_begin d) as [o d1] eqn:Eb; destruct (kv_begin_law _ _ _ Hok Eb) as (Hok1 & Ha1 & Hl1). ghost_after (kv_begin_mono d) Eb.
  destruct o as [h|]; [|intros [= <- <-]; split_and!; try done; by right].
  destruct (kv_search h (user_key name) MAX_VALUE_SIZE d1) as [[[rc v] n] d2] eqn:Es.
  destruct (kv_search_law _ _ _ _ _ _ _ _ Hok1 Hl1 Es) as (Hok2 & Hl2 & Ha2 & Hv). ghost_after (kv_search_mono h (user_key name) MAX_VALUE_SIZE d1) Es.
  destruct (kv_commit_law h d2 Hok2 Hl2) as [Hok3 Ha3]. destruct (kv_free_law h _ Hok3) as [Hok4 Ha4].
  pose proof (kv_commit_mono h d2) as M3. pose proof (kv_free_mono h (kv_commit h d2)) as M4.
  unfold account. rewrite <- Ha1. destruct Hv as [(-> & x & Hx & -> & ->)|[Hrc Hv]].
  - cbn [negb Z.eqb]. intros [= <- <-]. split_and!; [done|congruence|ghosts|]. left. rewrite Hx. cbn [mbind option_bind]. f_equal. apply value_cut.
  - rewrite (proj2 (Z.eqb_neq rc 0) Hrc). cbn [negb]. intros [= <- <-]. split_and!; [done|congruence|ghosts|].
    destruct Hv as [->|Hv]; [by left|right; split; [done|ghosts]].
Qed.

Lemma cstr_le l : zlen (cstr l) <= zlen l.
Proof using. clear. induction l as [|c l IH]; [done|]. cbn. destruct (c =? 0); zl. Qed.

Lemma parse_credentials_fits now conn name pw :
  parse_credentials gzip server_name now conn = inr (name, pw) -> zlen name < MAX_USERNAME_LEN.
Proof using.
  unfold parse_credentials. destruct (req_body (conn_request conn)) as [[|c body]|]; [done| |done].
  destruct (json_get_string (c :: body) (str "username") MAX_USERNAME_LEN) as [u|] eqn:E; [|done].
  apply json_get_string_fits in E; [|unfold MAX_USERNAME_LEN; lia].
  destruct (json_get_string _ (str "password") _); [|done]. intros [= <- <-]. pose proof (cstr_le u). lia.
Qed.

(** A login answers a token only for the account of that name, and only for a
    password whose derived key is the stored hash; it changes no row and leaves
    the pool as it was. *)
Lemma user_login_spec now conn a name pw live r a' :
  kv_ok (acc_db a) -> pool_inv (acc_pool a) live -> parse_credentials gzip server_name now conn = inr (name, pw) ->
  user_login_handler gzip server_name now HMAC secret token_ttl PBKDF2 conn a = (r, a') ->
  kv_ok (acc_db a') /\ kv_abs (acc_db a') = kv_abs (acc_db a) /\ acc_pool a' = acc_pool a /\ next_user_id a' = next_user_id a /\
  kv_le (acc_db a) (acc_db a') /\
  ((exists msg, r = send_error_response gzip server_name now HTTP_INTERNAL_SERVER_ERROR msg conn) \/
   r = send_error_json gzip server_name now HTTP_UNAUTHORIZED (str "invalid username or password") conn \/
   exists u tok, account (kv_abs (acc_db a)) name = Some u /\
     PBKDF2 pw (user_salt u) (to_int (user_iterations u)) PW_HASH_SIZE = Some (user_hash u) /\
     jwt_create (crypto_hmac_sha256 HMAC) secret (user_id u) (user_name u) now token_ttl 512 = Some tok /\
     r = send_json_response gzip server_name now HTTP_OK (login_text token_ttl u tok) conn).
Proof using PBKDF2_key.
  intros Hok Hi Hp. unfold user_login_handler. rewrite Hp. destruct (load_user name (acc_db a)) as [found d] eqn:El.
  destruct (load_user_spec _ _ _ _ Hok (parse_credentials_fits _ _ _ _ Hp) El) as (Hd & Ha & Hle & Hf).
  assert (found = None \/ found = account (kv_abs (acc_db a)) name) as Hf0 by tauto. clear Hf. rename Hf0 into Hf.
  set (salt := match found with Some u => user_salt u | None => _ end). set (it := match found with Some u => to_int _ | None => _ end).
  destruct (hash_password PBKDF2 pw salt it (acc_pool a)) as [computed p] eqn:Eh.
  destruct (hash_password_spec _ _ _ _ _ _ _ Hi Eh) as (-> & Hc & _).
  destruct computed as [computed|]; [|intros [<- <-]%pair_equal_spec; split_and!; try done; by left; eexists].
  specialize (Hc _ eq_refl). destruct (PBKDF2_key _ _ _ _ _ Hc) as [_ Hcl].
  assert (forall u, found = Some u -> zlen (user_hash u) = PW_HASH_SIZE) as Hfl.
  { intros u ->. destruct Hf as [?|Hf]; [done|]. symmetry in Hf. unfold account in Hf.
    apply bind_Some in Hf as (x & _ & Hx). by eapply read_user_hash. }
  destruct (Z.eqb_spec (hash_diff computed found) 0) as [Hz|Hz]; cbn [negb].
  2:{ intros [<- <-]%pair_equal_spec. split_and!; try done. by right; left. }
  apply hash_diff_spec in Hz as (u & -> & Hu); [|done|done]. cbn [default from_option id]. subst salt it. cbn in Hc.
  destruct (jwt_create _ _ _ _ _ _ _) as [tok|] eqn:Ej; [|intros [<- <-]%pair_equal_spec; split_and!; try done; by left; eexists].
  destruct (snprintf 768 (login_text token_ttl u tok)) as [body|] eqn:Eb; [|intros [<- <-]%pair_equal_spec; split_and!; try done; by left; eexists].
  intros [<- <-]%pair_equal_spec. split_and!; try done. right. right. exists u, tok. destruct Hf as [?|Hf]; [done|].
  rewrite Hu. split_and!; try done. unfold snprintf in Eb. destruct (_ >=? _); [done|]. by injection Eb as <-.
Qed.

(** ** Which answer, and why *)
(** A MAC has its length. *)
Context (HMAC_tag : forall k m t, HMAC k m = Some t -> Forall is_byte t /\ zlen t = 32) (secret_set : secret <> []).

Definition token_time (now : Z) : Prop := 0 <= now /\ 0 <= token_ttl /\ now + token_ttl <= UINT64_MAX.

(** No MAC for some text, no key for the password: OpenSSL has failed. *)
Definition no_mac : Prop := exists m, HMAC secret m = None.
Definition no_key (pw : bytes) : Prop := exists salt it, PBKDF2 pw salt it PW_HASH_SIZE = None.

Lemma hmac_tag k m t : crypto_hmac_sha256 HMAC k m = Some t -> Forall is_byte t /\ zlen t = 32.
Proof using HMAC_tag.
  unfold crypto_hmac_sha256. intros (x & Hx & E)%bind_Some. destruct (_ =? 32); [|done]. injection E as <-. by eapply HMAC_tag.
Qed.

(** The token carries this identity until it expires. *)
Definition token_for (now : Z) (u : user_record) (tok : bytes) : Prop :=
  forall now', 0 <= now' <= UINT64_MAX ->
    jwt_verify (crypto_hmac_sha256 HMAC) secret tok now' AUTH_USERNAME_SIZE =
    if now' >=? now + token_ttl then JWT_EXPIRED else JWT_OK (user_id u) (user_name u).

Lemma token_made now u :
  token_time now -> user_ok u ->
  match jwt_create (crypto_hmac_sha256 HMAC) secret (user_id u) (user_name u) now token_ttl 512 with
  | Some tok => zlen tok <= 400 /\ token_for now u tok
  | None => no_mac
  end.
Proof using HMAC_tag secret_set.
  intros (H1 & H2 & H3) Hu. destruct Hu as [Hid Hn _ _ _]. apply username_valid_spec in Hn as [Hn Hl].
  unfold MAX_USERNAME_LEN in Hl.
  pose proof (jwt_create_total (crypto_hmac_sha256 HMAC) secret (user_id u) (user_name u) now token_ttl secret_set ltac:(lia) Hid
    ltac:(lia) ltac:(lia) (fun m t E => proj2 (hmac_tag secret m t E))) as Ht.
  destruct (jwt_create _ _ _ _ _ _ _) as [tok|] eqn:Ec.
  - split; [done|]. intros now' Hn'. eapply jwt_create_verify; try done; unfold AUTH_USERNAME_SIZE; try lia. exact hmac_tag.
  - destruct Ht as [m Hm]. exists m. unfold crypto_hmac_sha256 in Hm. destruct (HMAC secret m) as [t|] eqn:E; [|done]. cbn in Hm.
    destruct (HMAC_tag _ _ _ E) as [_ El]. by rewrite El in Hm.
Qed.

Lemma dec_signed_le z : 0 <= z <= UINT64_MAX -> zlen (dec_signed z) <= 20.
Proof using. clear. intros Hz. unfold dec_signed. destruct (Z.ltb_spec z 0); [lia|]. by destruct (dec_spec z Hz) as (_ & _ & _ & ?). Qed.

Lemma register_text_fits id name tok :
  0 <= id <= UINT64_MAX -> zlen name < 64 -> zlen tok <= 400 -> 0 <= token_ttl <= UINT64_MAX ->
  snprintf 768 (register_text token_ttl id name tok) = Some (register_text token_ttl id name tok).
Proof using.
  intros Hi Hn Ht Httl. apply snprintf_fits. unfold register_text. destruct (dec_spec id Hi) as (_ & _ & _ & L1).
  pose proof (dec_signed_le _ Httl). rewrite !zlen_app. change (zlen (str "id")) with 2. change (zlen (str "username")) with 8.
  change (zlen (str "token")) with 5. change (zlen (str "token_type")) with 10. change (zlen (str "Bearer")) with 6.
  change (zlen (str "expires_in")) with 10. rewrite ?zlen_cons, ?zlen_nil. lia.
Qed.

Lemma login_text_fits u tok :
  user_ok u -> zlen tok <= 400 -> 0 <= token_ttl <= UINT64_MAX -> snprintf 768 (login_text token_ttl u tok) = Some (login_text token_ttl u tok).
Proof using.
  intros [Hi Hn _ _ _] Ht Httl. apply username_valid_spec in Hn as [_ Hn]. unfold MAX_USERNAME_LEN in Hn.
  apply snprintf_fits. unfold login_text. destruct (dec_spec _ Hi) as (_ & _ & _ & L1).
  pose proof (dec_signed_le _ Httl). rewrite !zlen_app. change (zlen (str "id")) with 2. change (zlen (str "username")) with 8.
  change (zlen (str "user")) with 4. change (zlen (str "token")) with 5. change (zlen (str "token_type")) with 10. change (zlen (str "Bearer")) with 6.
  change (zlen (str "expires_in")) with 10. rewrite ?zlen_cons, ?zlen_nil. lia.
Qed.

(** Registration of a valid name and password: every answer with its reason and
    what it leaves stored. *)
Definition register_outcome (now : Z) (conn : connection) (live : list (Z * Z)) (name pw salt : bytes) (a : accounts D) (r : Z * connection) (a' : accounts D) : Prop :=
  let m := kv_abs (acc_db a) in
  let fail msg := send_error_response gzip server_name now HTTP_INTERNAL_SERVER_ERROR msg conn in
  let conflict := send_error_json gzip server_name now HTTP_CONFLICT (str "username already exists") conn in
  (r = fail (str "Password hashing failed") /\ a' = a /\
     (PBKDF2 pw salt PBKDF2_ITERATIONS PW_HASH_SIZE = None \/ ~ has_room (acc_pool a) live)) \/
  (exists h, PBKDF2 pw salt PBKDF2_ITERATIONS PW_HASH_SIZE = Some h /\ acc_pool a' = acc_pool a /\ next_user_id a' = next_user_id a + 1 /\
   let u := mkUser (next_user_id a) name salt h PBKDF2_ITERATIONS in
   (kv_ok (acc_db a') /\ m !! user_key name = None /\ kv_abs (acc_db a') = <[user_key name := user_text u]> m /\
      ((exists tok, r = send_json_response gzip server_name now HTTP_CREATED (register_text token_ttl (user_id u) name tok) conn /\ token_for now u tok) \/
       (r = fail (str "Token creation failed") /\ no_mac))) \/
   (kv_ok (acc_db a') /\ kv_abs (acc_db a') = m /\
      ((r = conflict /\ is_Some (m !! user_key name)) \/
       (r = fail (str "Transaction failed") /\ kv_faults (acc_db a) < kv_faults (acc_db a')))) \/
   (r = conflict /\ m !! user_key name = None /\ kv_faults (acc_db a) < kv_faults (acc_db a') /\ kv_torn (acc_db a) < kv_torn (acc_db a'))).

Lemma user_register_spec now salt conn a name pw live r a' :
  kv_ok (acc_db a) -> pool_inv (acc_pool a) live -> 0 <= next_user_id a < UINT64_MAX -> token_time now ->
  parse_credentials gzip server_name now conn = inr (name, pw) -> username_valid name = true -> MIN_PASSWORD_LEN <= zlen pw ->
  Forall is_byte salt -> zlen salt = PW_SALT_SIZE ->
  user_register_handler gzip server_name now HMAC secret token_ttl PBKDF2 (Some salt) conn a = (r, a') ->
  kv_le (acc_db a) (acc_db a') /\ register_outcome now conn live name pw salt a r a'.
Proof using PBKDF2_key HMAC_tag secret_set.
  intros Hok Hi Hid Htime Hp Hv Hpw Hsb Hsl. unfold user_register_handler. rewrite Hp, Hv. cbn [negb].
  destruct (Z.ltb_spec (zlen pw) MIN_PASSWORD_LEN); [lia|].
  destruct (hash_password PBKDF2 pw salt PBKDF2_ITERATIONS (acc_pool a)) as [hr p'] eqn:Eh.
  destruct (hash_password_spec _ _ _ _ _ _ _ Hi Eh) as (-> & Hsome & Hr). destruct hr as [h|]; cbn [fmap option_fmap option_map next_user_id acc_db acc_pool]; cycle 1.
  { intros [<- <-]%pair_equal_spec. cbn [acc_db]. split; [done|]. left. split; [done|]. split; [by destruct a|].
    destruct (PBKDF2 pw salt PBKDF2_ITERATIONS PW_HASH_SIZE); [right|by left]. intros Hro. by specialize (Hr Hro). }
  specialize (Hsome h eq_refl). set (u := mkUser (next_user_id a) name salt h PBKDF2_ITERATIONS).
  assert (user_ok u) as Hu.
  { subst u. constructor; cbn -[PBKDF2_ITERATIONS]; [lia|done|done|by eapply PBKDF2_key|]. unfold PBKDF2_ITERATIONS, UINT64_MAX. lia. }
  rewrite snprintf_fits by (apply username_valid_spec in Hv as [_ Hv]; unfold user_key, MAX_KEY_SIZE, MAX_USERNAME_LEN in *; rewrite zlen_app; change (zlen USER_KEY_PREFIX) with 5; lia).
  unfold build_user_json. rewrite snprintf_fits by (pose proof (zlen_user_text u Hu); unfold MAX_VALUE_SIZE; lia).
  rewrite u64_small by lia.
  destruct (kv_begin (acc_db a)) as [o d1] eqn:Eb. ghost_after (kv_begin_mono (acc_db a)) Eb.
  destruct (kv_begin_law _ _ _ Hok Eb) as (Hok1 & Ha1 & Hl1). unfold register_outcome. cbv zeta. fold u. destruct o as [t|]; cycle 1.
  { intros [<- <-]%pair_equal_spec. cbn [acc_db acc_pool next_user_id]. split; [done|]. right. exists h. split_and!; try done. right. left. split_and!; try done. by right. }
  destruct (kv_insert t (user_key name) (user_text u) d1) as [rc d2] eqn:Ei. ghost_after (kv_insert_mono t (user_key name) (user_text u) d1) Ei.
  pose proof (kv_insert_law t (user_key name) (user_text u) rc d1 d2 Hok1 Hl1 (user_storable u Hu) Ei) as Hins. rewrite <- Ha1.
  pose proof (kv_commit_mono t d2) as M3. pose proof (kv_free_mono t (kv_commit t d2)) as M4.
  assert (forall c : Z * connection, (c, mkAccounts (kv_free t (kv_commit t d2)) (acc_pool a) (next_user_id a + 1)) = (r, a') ->
    kv_le (acc_db a) (acc_db a') /\ acc_pool a' = acc_pool a /\ next_user_id a' = next_user_id a + 1 /\ acc_db a' = kv_free t (kv_commit t d2) /\ r = c) as Hend.
  { intros c [<- <-]%pair_equal_spec. split_and!; try done. cbn [acc_db]. ghosts. }
  destruct (kv_abs d1 !! user_key name) as [x|] eqn:Ex.
  - destruct Hins as (Hrc & Hok2 & Hl2 & Ha2). rewrite (proj2 (Z.eqb_neq rc 0) Hrc). cbn [negb]. intros (Hle & E1 & E2 & E3 & ->)%Hend.
    destruct (kv_commit_law t d2 Hok2 Hl2) as [Hok3 Ha3]. destruct (kv_free_law t _ Hok3) as [Hok4 Ha4].
    split; [done|]. right. exists h. rewrite E3. split_and!; try done. right. left. split_and!; [done|congruence|]. left. split; [done|by eexists].
  - destruct Hins as [(-> & Hok2 & Hl2 & Ha2)|(Hrc & Hf & Ht)]; cycle 1.
    { rewrite (proj2 (Z.eqb_neq rc 0) Hrc). cbn [negb]. intros (Hle & E1 & E2 & E3 & ->)%Hend. split; [done|]. right. exists h. rewrite E3.
      split_and!; try done. right. right. split_and!; try done; ghosts. }
    destruct (kv_commit_law t d2 Hok2 Hl2) as [Hok3 Ha3]. destruct (kv_free_law t _ Hok3) as [Hok4 Ha4]. cbn [negb Z.eqb].
    pose proof (token_made now u Htime Hu) as Hmade. change (user_id u) with (next_user_id a) in Hmade. change (user_name u) with name in Hmade.
    destruct (jwt_create _ _ _ _ _ _ _) as [tok|].
    + destruct Hmade as [Hl Hfor]. rewrite register_text_fits; [|lia|apply username_valid_spec in Hv as [_ Hv]; unfold MAX_USERNAME_LEN in Hv; lia|done|destruct Htime; lia].
      intros (Hle & E1 & E2 & E3 & ->)%Hend. split; [done|]. right. exists h. rewrite E3. split_and!; try done. left.
      split_and!; [done|done|by rewrite Ha4, Ha3, Ha2|]. left. by exists tok.
    + intros (Hle & E1 & E2 & E3 & ->)%Hend. split; [done|]. right. exists h. rewrite E3. split_and!; try done. left.
      split_and!; [done|done|by rewrite Ha4, Ha3, Ha2|]. by right.
Qed.

(** ** The accounts of a database *)
(** Every row under a user key is the record of that user, ids lie below the
    next one, and no two accounts share an id. *)
Record accounts_inv (m : gmap bytes bytes) (next : Z) : Prop := {
  ai_rows : forall name x, m !! user_key name = Some x ->
    exists u, user_ok u /\ user_name u = name /\ x = user_text u /\ 0 < user_id u < next /\ user_iterations u < 2 ^ 31;
  ai_ids : forall n1 n2 u1 u2, account m n1 = Some u1 -> account m n2 = Some u2 -> user_id u1 = user_id u2 -> n1 = n2 }.

Lemma account_text m name u : m !! user_key name = Some (user_text u) -> user_ok u -> account m name = Some u.
Proof using.
  intros Hm Hu. unfold account. rewrite Hm. cbn [mbind option_bind]. rewrite ztake_all.
  - by apply read_user_text.
  - pose proof (zlen_user_text u Hu). unfold MAX_VALUE_SIZE. lia.
Qed.

Lemma account_inv m next name u :
  accounts_inv m next -> account m name = Some u ->
  user_ok u /\ user_name u = name /\ 0 < user_id u < next /\ user_iterations u < 2 ^ 31.
Proof using.
  intros [Hr _] Ha. destruct (m !! user_key name) as [x|] eqn:Ex; [|unfold account in Ha; by rewrite Ex in Ha].
  destruct (Hr _ _ Ex) as (v & Hv & Hn & -> & Hid & Hit). rewrite (account_text m name v Ex Hv) in Ha. by injection Ha as <-.
Qed.

Lemma account_insert m u name :
  account (<[user_key (user_name u) := user_text u]> m) name =
  if bool_decide (name = user_name u) then read_user (ztake MAX_VALUE_SIZE (user_text u)) else account m name.
Proof using.
  unfold account. case_bool_decide as E.
  - subst name. by rewrite lookup_insert_eq.
  - rewrite lookup_insert_ne; [done|]. unfold user_key. intros Hk. by apply app_inv_head in Hk.
Qed.

Lemma accounts_register m next u :
  accounts_inv m next -> 0 < next -> user_ok u -> user_id u = next -> user_iterations u < 2 ^ 31 ->
  accounts_inv (<[user_key (user_name u) := user_text u]> m) (next + 1).
Proof using.
  intros Hi Hn Hu Hid Hit. constructor.
  - intros name x. destruct (decide (name = user_name u)) as [->|Hne].
    + rewrite lookup_insert_eq. intros [= <-]. exists u. split_and!; done || lia.
    + rewrite lookup_insert_ne by (unfold user_key; intros Hk; by apply app_inv_head in Hk).
      intros Hx. destruct (ai_rows _ _ Hi _ _ Hx) as (v & ? & ? & ? & ? & ?). exists v. split_and!; done || lia.
  - assert (read_user (ztake MAX_VALUE_SIZE (user_text u)) = Some u) as Hru.
    { rewrite ztake_all by (pose proof (zlen_user_text u Hu); unfold MAX_VALUE_SIZE; lia). by apply read_user_text. }
    intros n1 n2 u1 u2. rewrite !account_insert, Hru.
    case_bool_decide as E1; case_bool_decide as E2; intros H1 H2 He; try congruence.
    + injection H1 as <-. destruct (account_inv _ _ _ _ Hi H2) as (_ & _ & ? & _). lia.
    + injection H2 as <-. destruct (account_inv _ _ _ _ Hi H1) as (_ & _ & ? & _). lia.
    + by eapply (ai_ids _ _ Hi).
Qed.

Lemma accounts_inv_next m next : accounts_inv m next -> accounts_inv m (next + 1).
Proof using.
  intros [Hr Hi]. constructor; [|exact Hi]. intros name x Hx. destruct (Hr name x Hx) as (u & ? & ? & ? & ? & ?). exists u. split_and!; done || lia.
Qed.

Lemma to_int_small z : 0 <= z < 2 ^ 31 -> to_int z = z.
Proof using. clear. intros Hz. unfold to_int. rewrite u32_small by (unfold UINT32_MAX; lia). destruct (Z.geb_spec z (2 ^ 31)); [lia|done]. Qed.

(** A login against well-formed accounts: every answer with its reason. *)
Definition login_outcome (now : Z) (conn : connection) (live : list (Z * Z)) (name pw : bytes) (a : accounts D) (r : Z * connection) (a' : accounts D) : Prop :=
  let found := account (kv_abs (acc_db a)) name in
  let key u := PBKDF2 pw (user_salt u) (user_iterations u) PW_HASH_SIZE in
  (exists u tok, found = Some u /\ key u = Some (user_hash u) /\
     r = send_json_response gzip server_name now HTTP_OK (login_text token_ttl u tok) conn /\ token_for now u tok) \/
  (r = send_error_json gzip server_name now HTTP_UNAUTHORIZED (str "invalid username or password") conn /\
     (found = None \/ (exists u, found = Some u /\ key u <> Some (user_hash u)) \/ kv_faults (acc_db a) < kv_faults (acc_db a'))) \/
  (exists msg, r = send_error_response gzip server_name now HTTP_INTERNAL_SERVER_ERROR msg conn /\
     (~ has_room (acc_pool a) live \/ no_key pw \/ no_mac)).

Lemma user_login_cases now conn a name pw live r a' :
  kv_ok (acc_db a) -> pool_inv (acc_pool a) live -> token_time now ->
  accounts_inv (kv_abs (acc_db a)) (next_user_id a) -> parse_credentials gzip server_name now conn = inr (name, pw) ->
  user_login_handler gzip server_name now HMAC secret token_ttl PBKDF2 conn a = (r, a') ->
  login_outcome now conn live name pw a r a'.
Proof using PBKDF2_key HMAC_tag secret_set.
  intros Hok Hi Htime Hacc Hp. unfold user_login_handler, login_outcome. rewrite Hp.
  destruct (load_user name (acc_db a)) as [found d] eqn:El.
  destruct (load_user_spec _ _ _ _ Hok (parse_credentials_fits _ _ _ _ Hp) El) as (_ & _ & _ & Hf). cbv zeta.
  assert (forall u, account (kv_abs (acc_db a)) name = Some u -> user_ok u /\ to_int (user_iterations u) = user_iterations u) as Hacct.
  { intros u Hu. destruct (account_inv _ _ _ _ Hacc Hu) as (H1 & H2 & _ & H4). split; [done|]. apply to_int_small. destruct H1 as [_ _ _ _ H1]. lia. }
  set (salt := match found with Some u => user_salt u | None => _ end). set (it := match found with Some u => to_int _ | None => _ end).
  destruct (hash_password PBKDF2 pw salt it (acc_pool a)) as [hr p'] eqn:Eh.
  destruct (hash_password_spec _ _ _ _ _ _ _ Hi Eh) as (-> & Hsome & Hr). destruct hr as [computed|]; cycle 1.
  { intros [<- <-]%pair_equal_spec. right. right. eexists. split; [done|]. destruct (PBKDF2 pw salt it PW_HASH_SIZE) eqn:Ek.
    - left. intros Hro. by specialize (Hr Hro).
    - right. left. by exists salt, it. }
  specialize (Hsome _ eq_refl). destruct (PBKDF2_key _ _ _ _ _ Hsome) as [_ Hcl].
  assert (forall u, found = Some u -> account (kv_abs (acc_db a)) name = Some u) as Hfu by (intros u ->; by destruct Hf as [?|[? _]]).
  assert (forall u, found = Some u -> zlen (user_hash u) = PW_HASH_SIZE) as Hfl by (intros u Hu; by destruct (Hacct u (Hfu u Hu)) as ([_ _ _ [_ ?] _] & _)).
  pose proof (hash_diff_spec computed found Hcl Hfl) as Hdiff.
  destruct (Z.eqb_spec (hash_diff computed found) 0) as [Hz|Hz]; cbn [negb]; cycle 1.
  { intros [<- <-]%pair_equal_spec. right. left. split; [done|]. cbn [acc_db]. destruct Hf as [Hf|[_ Hf]]; [|by right; right].
    destruct found as [u|]; [right; left|by left]. exists u. split; [done|]. destruct (Hacct u (Hfu u eq_refl)) as [_ Hto].
    subst salt it. rewrite Hto in Hsome. rewrite Hsome. intros [= Heq]. apply Hz, Hdiff. by exists u. }
  apply Hdiff in Hz as (u & -> & Hu). cbn [default from_option id]. specialize (Hfu u eq_refl). destruct (Hacct u Hfu) as [Huok Hto].
  subst salt it. rewrite Hto in Hsome. pose proof (token_made now u Htime Huok) as Hmade.
  destruct (jwt_create _ _ _ _ _ _ _) as [tok|].
  - destruct Hmade as [Hl Hfor]. rewrite login_text_fits by (done || (destruct Htime; lia)). intros [<- <-]%pair_equal_spec.
    left. exists u, tok. by rewrite Hsome, Hu.
  - intros [<- <-]%pair_equal_spec. right. right. eexists. split; [done|]. by right; right.
Qed.
End account_laws.

(** ** Start *)
Lemma seed_visit l m0 :
  let r := visit seed_user_id_scan_cb l m0 in
  m0 <= r /\ (forall k v id, (k, v) ∈ l -> starts_with USER_KEY_PREFIX k = true -> json_get_uint64 v (str "id") = Some id -> id <= r) /\
  (r = m0 \/ exists k v, (k, v) ∈ l /\ starts_with USER_KEY_PREFIX k = true /\ json_get_uint64 v (str "id") = Some r).
Proof.
  revert m0. induction l as [|[k v] l IH]; intros m0; cbn [visit].
  { split; [lia|]. split; [by intros ? ? ? ?%not_elem_of_nil|by left]. }
  set (m1 := (seed_user_id_scan_cb k v m0).2).
  assert (seed_user_id_scan_cb k v m0 = (0, m1)) as ->.
  { subst m1. unfold seed_user_id_scan_cb. repeat case_match; done. }
  assert (m0 <= m1 /\ (forall id, starts_with USER_KEY_PREFIX k = true -> json_get_uint64 v (str "id") = Some id -> id <= m1) /\
    (m1 = m0 \/ starts_with USER_KEY_PREFIX k = true /\ json_get_uint64 v (str "id") = Some m1)) as (H1 & H2 & H3).
  { subst m1. unfold seed_user_id_scan_cb. destruct (starts_with USER_KEY_PREFIX k); cbn [negb snd]; [|split_and!; [lia|done|by left]].
    destruct (json_get_uint64 v (str "id")) as [id|]; cbn [snd]; [|split_and!; [lia|done|by left]].
    destruct (Z.gtb_spec id m0); (split; [lia|]); (split; [intros i _ [= <-]; lia|]); [by right|by left]. }
  clearbody m1. cbn [negb Z.eqb]. destruct (IH m1) as (I1 & I2 & I3). split; [lia|]. split.
  - intros k' v' id [[= -> ->]|Hin]%list.elem_of_cons Hk Hid; [|by eapply I2]. specialize (H2 id Hk Hid). lia.
  - destruct I3 as [->|(k' & v' & Hin & Hk & Hid)].
    + destruct H3 as [->|[Hk Hid]]; [by left|]. right. exists k, v. split; [apply list_elem_of_here|done].
    + right. exists k', v'. split; [by apply list_elem_of_further|done].
Qed.

Lemma starts_with_user_key name : starts_with USER_KEY_PREFIX (user_key name) = true.
Proof. unfold starts_with, user_key. apply bool_decide_eq_true. by apply ztake_app_eq. Qed.

Lemma starts_with_user_key_inv k : starts_with USER_KEY_PREFIX k = true -> exists name, k = user_key name.
Proof.
  unfold starts_with. intros Hk%bool_decide_eq_true. exists (zdrop 5 k). unfold user_key. rewrite <- Hk.
  change (zlen USER_KEY_PREFIX) with 5. by rewrite ztake_zdrop.
Qed.

Lemma user_text_id u : user_ok u -> json_get_uint64 (user_text u) (str "id") = Some (user_id u).
Proof. intros Hu. rewrite (user_text_object u Hu). apply get_uint64_object; [by apply user_fields_ok|done]. Qed.

Section start.
Context {D : Type} `{KvStoreLaws D}.

(** The module starts with a secret and the pool, whatever the scan finds. *)
Lemma user_api_init_shape pool secret env_secret random ttl d :
  (jwt_init secret env_secret random).2 = 0 ->
  exists a, user_api_init (Some pool) secret env_secret random ttl d =
      (Some (a, (jwt_init secret env_secret random).1, if ttl >? 0 then ttl else 3600), acc_db a) /\
    acc_pool a = pool /\ kv_le d (acc_db a).
Proof using.
  intros Hj. unfold user_api_init. destruct (jwt_init secret env_secret random) as [sec rc]. cbn in Hj. subst rc. cbn [negb Z.eqb fst].
  pose proof (kv_begin_mono d) as M1. destruct (kv_begin d) as [[h|] d1]; [|by eexists (mkAccounts _ _ _)].
  pose proof (kv_scan_mono Z h [] seed_user_id_scan_cb 0 d1) as M2. destruct (kv_scan Z h [] seed_user_id_scan_cb 0 d1) as [[rc mx] d2].
  eexists (mkAccounts _ _ _). split; [reflexivity|]. split; [done|]. cbn [acc_db snd] in *.
  etrans; [exact M1|]. etrans; [exact M2|]. etrans; [apply kv_commit_mono|apply kv_free_mono].
Qed.

(** Starting on a database of accounts: the rows stay, and the next id lies above
    every id in use unless a call of the store failed. *)
Lemma user_api_init_spec pool secret env_secret random ttl d next :
  kv_ok d -> accounts_inv (kv_abs d) next -> 0 < next <= UINT64_MAX -> (jwt_init secret env_secret random).2 = 0 ->
  exists a d', user_api_init (Some pool) secret env_secret random ttl d =
      (Some (a, (jwt_init secret env_secret random).1, if ttl >? 0 then ttl else 3600), d') /\
    acc_db a = d' /\ acc_pool a = pool /\ kv_ok d' /\ kv_abs d' = kv_abs d /\ kv_le d d' /\
    (kv_faults d < kv_faults d' \/ 0 < next_user_id a <= next /\ accounts_inv (kv_abs d) (next_user_id a)).
Proof using.
  intros Hok Hacc Hnext Hj. unfold user_api_init. destruct (jwt_init secret env_secret random) as [sec rc]. cbn in Hj. subst rc. cbn [negb Z.eqb fst].
  destruct (kv_begin d) as [o d1] eqn:Eb. destruct (kv_begin_law _ _ _ Hok Eb) as (Hok1 & Ha1 & Hl1). ghost_after (kv_begin_mono d) Eb.
  destruct o as [h|]; [|eexists _, _; split; [reflexivity|]; split_and!; try done; by left].
  assert (zlen (@nil Z) <= MAX_KEY_SIZE) as Hz by (vm_compute; congruence).
  destruct (kv_scan Z h [] seed_user_id_scan_cb 0 d1) as [[rc mx] d2] eqn:Es. ghost_after (kv_scan_mono Z h [] seed_user_id_scan_cb 0 d1) Es.
  destruct (kv_scan_law _ _ _ _ _ _ _ _ _ Hok1 Hl1 Hz Es) as (Hok2 & Hl2 & Ha2 & Hscan).
  destruct (kv_commit_law h d2 Hok2 Hl2) as [Hok3 Ha3]. destruct (kv_free_law h _ Hok3) as [Hok4 Ha4].
  pose proof (kv_commit_mono h d2) as M3. pose proof (kv_free_mono h (kv_commit h d2)) as M4.
  eexists _, _. split; [reflexivity|]. cbn [acc_db acc_pool next_user_id]. split_and!; [done|done|done|congruence|ghosts|].
  destruct Hscan as [(_ & kvs & Hs & Hm & Hmx)|[_ Hft]]; [right|left; ghosts].
  assert (List.filter (fun x => has_prefix [] x.1) kvs = kvs) as Hfil.
  { clear. induction kvs as [|x kvs IH]; [done|]. cbn. by rewrite IH. }
  rewrite Hfil in Hmx. destruct (seed_visit kvs 0) as (S1 & S2 & S3). rewrite <- Hmx in *.
  assert (forall k v, (k, v) ∈ kvs <-> kv_abs d !! k = Some v) as Hel.
  { intros k v. rewrite <- Ha1, <- Hm. apply elem_of_list_to_map. by apply kvs_nodup. }
  assert (mx < next) as Hmn.
  { destruct S3 as [->|(k & v & Hin & [name ->]%starts_with_user_key_inv & Hid)]; [lia|]. apply Hel in Hin.
    destruct (ai_rows _ _ Hacc _ _ Hin) as (u & Hu & _ & -> & Hb & _). rewrite user_text_id in Hid by done. injection Hid as <-. lia. }
  rewrite u64_small by lia. split; [lia|]. constructor; [|apply (ai_ids _ _ Hacc)].
  intros name x Hx. destruct (ai_rows _ _ Hacc _ _ Hx) as (u & Hu & Hn & -> & Hb & Hi). exists u. split_and!; try done; [lia|].
  assert (user_id u <= mx); [|lia]. eapply S2; [by apply Hel|apply starts_with_user_key|by apply user_text_id].
Qed.
End start.
