(* ===== verification/TodoCache.v ===== *)
(** * The cache interface of the todo handlers

    What todo_handlers.c relies on of lru.c, as a class of operations and one of
    laws over the map of cached entries; a cache may forget entries at any
    insertion, so the laws bound the map from above. The instance is the LRU
    cache behind a pointer that may be NULL, every operation of which tolerates
    it. [A] is what the allocator answers during an insertion. *)
From S2P Require Import Prelude Lru.

Local Open Scope Z_scope.

Class TodoCache (C A : Type) := {
  tc_get : bytes -> Z -> C -> option (bytes * Z) * C;
  tc_put : A -> bytes -> bytes -> C -> Z * C;
  tc_fill : A -> bytes -> bytes -> Z -> C -> Z * C;
  tc_invalidate : bytes -> C -> bool * C;
  tc_generation : C -> Z }.

Class TodoCacheLaws (C A : Type) `{TodoCache C A} := {
  tc_repr : C -> gmap bytes bytes -> Prop;
  tc_fresh : A -> C -> Prop;  (** what the allocator returns is not in use *)
  tc_granted : A -> Prop;  (** the allocations succeed *)
  tc_get_law k cap c m r c' :
    tc_repr c m -> tc_get k cap c = (r, c') ->
    tc_repr c' m /\ r = ((fun v => (ztake (Z.min (zlen v) cap) v, zlen v)) <$> m !! k) /\ tc_generation c' = tc_generation c /\
    (forall a, tc_fresh a c -> tc_fresh a c');
  tc_put_law a k v c m r c' :
    tc_repr c m -> tc_fresh a c -> tc_put a k v c = (r, c') ->
    exists m', tc_repr c' m' /\ (m' ⊆ <[k := v]> m \/ m' = m /\ ~ tc_granted a);
  tc_fill_law a k v g c m r c' :
    tc_repr c m -> tc_fresh a c -> tc_fill a k v g c = (r, c') ->
    exists m', tc_repr c' m' /\ (m' = m \/ m' ⊆ <[k := v]> m /\ g = tc_generation c);
  tc_invalidate_law k c m r c' :
    tc_repr c m -> tc_invalidate k c = (r, c') -> tc_repr c' (delete k m) }.

(** ** The LRU cache *)
(** The block a new node would get, and whether the copy of a replacement value
    can be allocated. *)
Definition lru_alloc : Type := option Z * bool.

#[export] Instance lru_todo_cache : TodoCache (option lru_cache) lru_alloc := {|
  tc_get k cap c :=
    match c with None => (None, None) | Some c => let '(r, c) := lru_get k cap c in (r, Some c) end;
  tc_put a k v c :=
    match c with None => (-1, None) | Some c => let '(r, c) := lru_put a.1 a.2 k v c in (r, Some c) end;
  tc_fill a k v g c :=
    match c with None => (-1, None) | Some c => let '(r, c) := lru_fill a.1 a.2 k v g c in (r, Some c) end;
  tc_invalidate k c :=
    match c with None => (false, None) | Some c => let '(r, c) := lru_invalidate k c in (r, Some c) end;
  tc_generation c := match c with None => 0 | Some c => lru_generation c end |}.

Lemma contents_lookup c l k v : lru_inv c l -> (k, v) ∈ contents c l -> (list_to_map (contents c l) : gmap bytes bytes) !! k = Some v.
Proof. intros Hi (a & n & _ & Hn & <- & <-)%contents_elem. by apply find_key_some with (a := a). Qed.

Lemma moved_lookup k v ps j :
  (list_to_map (remove_key k ps ++ [(k, v)]) : gmap bytes bytes) !! j = if bool_decide (j = k) then Some v else (list_to_map ps : gmap bytes bytes) !! j.
Proof.
  unfold remove_key. induction ps as [|[k' v'] ps IH].
  - cbn. case_bool_decide as E; [subst j; by rewrite lookup_insert_eq|]. rewrite lookup_insert_ne by done. done.
  - rewrite filter_cons. cbn [fst]. destruct (decide (k' <> k)) as [Hk|Hk].
    + cbn. destruct (decide (j = k')) as [->|Hj].
      * rewrite !lookup_insert_eq. by rewrite bool_decide_false.
      * rewrite !lookup_insert_ne by done. exact IH.
    + apply dec_stable in Hk as ->. rewrite IH. case_bool_decide as E; [done|]. cbn. by rewrite lookup_insert_ne.
Qed.

Lemma snoc_lookup (ps : list (bytes * bytes)) k v j :
  k ∉ ps.*1 -> (list_to_map (ps ++ [(k, v)]) : gmap bytes bytes) !! j = if bool_decide (j = k) then Some v else (list_to_map ps : gmap bytes bytes) !! j.
Proof.
  intros Hk. pose proof (moved_lookup k v ps j) as Hm. rewrite remove_key_absent in Hm; [exact Hm|].
  intros [k' v'] Hin. cbn. intros ->. apply Hk, list_elem_of_fmap. by exists (k, v').
Qed.

Lemma spec_store_subset c l k v :
  lru_inv c l -> (list_to_map (spec_store (l_capacity c) k v (contents c l)) : gmap bytes bytes) ⊆ <[k := v]> (list_to_map (contents c l)).
Proof.
  intros Hi. apply map_subseteq_spec. intros j x. unfold spec_store. destruct (decide (k ∈ (contents c l).*1)) as [Hk|Hk].
  - rewrite moved_lookup. case_bool_decide as E; [subst j; by rewrite lookup_insert_eq|by rewrite lookup_insert_ne].
  - set (ps := if zlen (contents c l) >=? l_capacity c then tail (contents c l) else contents c l).
    assert (forall y, y ∈ ps -> y ∈ contents c l) as Hsub.
    { intros y. subst ps. destruct (_ >=? _); [|done]. destruct (contents c l); [done|]. by apply list_elem_of_further. }
    rewrite snoc_lookup by (rewrite list_elem_of_fmap; intros (y & -> & Hy); apply Hk, list_elem_of_fmap; exists y; split; [done|by apply Hsub]).
    case_bool_decide as E; [subst j; by rewrite lookup_insert_eq|]. rewrite lookup_insert_ne by done.
    intros Hx%elem_of_list_to_map_2. by apply contents_lookup, Hsub.
Qed.

Lemma list_to_map_remove_key k ps :
  (list_to_map (remove_key k ps) : gmap bytes bytes) = delete k (list_to_map ps).
Proof.
  unfold remove_key. induction ps as [|[k' v'] ps IH]; [cbn; by rewrite delete_empty|]. rewrite filter_cons. cbn [fst].
  destruct (decide (k' <> k)) as [Hk|Hk]; cbn.
  - rewrite IH. by rewrite delete_insert_ne.
  - apply dec_stable in Hk as ->. rewrite IH. by rewrite delete_insert_eq.
Qed.

(** A lookup allocates and frees nothing. *)
Lemma lru_get_dom k cap c l p : lru_inv c l -> c_heap c !! p = None -> c_heap (lru_get k cap c).2 !! p = None.
Proof.
  intros Hi Hp. unfold lru_get. destruct (li_hash _ _ Hi) as [ch Hh]. pose proof (hash_find_spec c ch k Hh) as Hf.
  destruct (hash_find c k) as [a|]; [|done]. destruct Hf as (n & Hn & _).
  assert (a ∈ l) as [i Hl]%list_elem_of_lookup by (apply (li_dom _ _ Hi); eauto).
  destruct (touch_spec c l i a n Hi Hl Hn) as (_ & Hs & _).
  assert (c_heap (touch a c) !! p = None) as Ht.
  { apply eq_None_not_Some. rewrite (same_data_dom _ _ p Hs), Hp. by intros [? ?]. }
  destruct (c_heap (touch a c) !! a); exact Ht.
Qed.

#[export, refine] Instance lru_todo_cache_laws : TodoCacheLaws (option lru_cache) lru_alloc := {|
  tc_repr c m := match c with
                 | None => m = ∅
                 | Some c => gen_ok c /\ exists l, lru_inv c l /\ m = list_to_map (contents c l)
                 end;
  tc_fresh a c := forall p c', a.1 = Some p -> c = Some c' -> c_heap c' !! p = None;
  tc_granted a := is_Some a.1 /\ a.2 = true |}.
Proof.
  - intros k cap [c|] m r c'; cbn; [|intros -> [= <- <-]; by rewrite lookup_empty].
    intros [Hg (l & Hi & ->)]. pose proof (lru_get_dom k cap c l) as Hdom. destruct (lru_get k cap c) as [r1 c1] eqn:E. intros [= <- <-].
    destruct (lru_get_spec _ _ _ _ _ _ Hi Hg E) as (Hg1 & Hc1 & -> & l1 & Hi1 & Hs). split; [|split_and!].
    + split; [unfold gen_ok; by rewrite Hg1|]. exists l1. split; [done|]. rewrite Hs. unfold spec_get.
      destruct (find_key k (contents c l)) as [v|] eqn:Ek; [|done]. apply map_eq. intros j. rewrite moved_lookup.
      case_bool_decide as Ej; [|done]. subst j. by unfold find_key in Ek.
    + done.
    + by unfold lru_generation.
    + intros a Hf p c' Hp [= <-]. apply Hdom; [done|]. by eapply Hf.
  - intros [ptr ok] k v [c|] m r c'; cbn; [|intros -> _ [= <- <-]; exists ∅; split; [done|left; apply map_empty_subseteq]].
    intros [Hg (l & Hi & ->)] Hf. destruct (lru_put ptr ok k v c) as [r1 c1] eqn:E. intros [= <- <-].
    destruct (lru_put_spec _ _ _ _ _ _ _ _ Hi (fun a Ha => Hf a c Ha eq_refl) E) as (Hg1 & Hc1 & l1 & Hi1 & Hs).
    exists (list_to_map (contents c1 l1)). split; [split; [|by exists l1]|].
    + unfold gen_ok in *. rewrite Hg1. unfold u64, UINT64_MAX. pose proof (uwrap_range 64 (c_generation c + 1)). lia.
    + destruct Hs as [[_ ->]|(_ & -> & Hn)]; [left; by apply spec_store_subset|]. right. split; [done|].
      intros [[x Hx] Hok]. destruct Hn; congruence.
  - intros [ptr ok] k v g [c|] m r c'; cbn; [|intros -> _ [= <- <-]; exists ∅; split; [done|by left]].
    intros [Hg (l & Hi & ->)] Hf. unfold lru_fill. destruct (Z.eqb_spec (c_generation c) g) as [<-|Hne]; cbn [negb].
    + destruct (store ptr ok k v c) as [r1 c1] eqn:E. intros [= <- <-].
      destruct (store_spec _ _ _ _ _ _ _ _ Hi (fun a Ha => Hf a c Ha eq_refl) Hg E) as (Hc1 & Hg1 & [(_ & l1 & Hi1 & Hs)|(_ & -> & _)]).
      * exists (list_to_map (contents c1 l1)). split; [split; [unfold gen_ok in *; by rewrite Hg1|by exists l1]|].
        right. split; [|done]. rewrite Hs. by apply spec_store_subset.
      * exists (list_to_map (contents c l)). split; [split; [done|by exists l]|by left].
    + intros [= <- <-]. exists (list_to_map (contents c l)). split; [split; [done|by exists l]|by left].
  - intros k [c|] m r c'; cbn; [|intros -> [= <- <-]; by rewrite delete_empty].
    intros [Hg (l & Hi & ->)]. destruct (lru_invalidate k c) as [r1 c1] eqn:E. intros [= <- <-].
    destruct (lru_invalidate_spec _ _ _ _ _ Hi E) as (Hg1 & _ & _ & l1 & Hi1 & Hs). split.
    + unfold gen_ok in *. rewrite Hg1. unfold u64, UINT64_MAX. pose proof (uwrap_range 64 (c_generation c + 1)). lia.
    + exists l1. split; [done|]. rewrite Hs. symmetry. apply list_to_map_remove_key.
Defined.
