(* ===== verification/Todos.v ===== *)
(** * The todo handlers (src/api/src/todo_handlers.c)

    Create, read, update, delete and list the todos of the authenticated user,
    over the database interface [KvStore], the owner index of [TodoIndex] and
    the cache interface [TodoCache]. A handler runs without interleaving except
    where a definition names a part of it: [todo_create_store] is a creation up
    to its commit, [todo_create_publish] what follows. [now] is the clock during
    the call, [realloc_ok] the answers of realloc, [A] those of the allocator to
    the cache. *)
From Stdlib Require Import String.
From S2P Require Import Prelude Text BtreePage Db Json Jwt TodoIndex TodoCache HttpTypes HttpText Connection HttpRequest HttpResponse Route.

Local Open Scope Z_scope.

Definition TODO_COLLECTION : bytes := str "/api/todos".
Definition TODO_ITEM_PREFIX : bytes := str "/api/todos/".

(** ** Rows *)
Definition todo_text (id user_id : Z) (escaped_title : bytes) (completed : bool) : bytes :=
  [123; 34] ++ str "id" ++ [34; 58] ++ dec id ++ [44; 34] ++ str "user_id" ++ [34; 58] ++ dec user_id ++ [44; 34] ++
  str "title" ++ [34; 58; 34] ++ escaped_title ++ [34; 44; 34] ++ str "completed" ++ [34; 58] ++
  (if completed then str "true" else str "false") ++ [125].

Definition build_todo_json (dst_size id user_id : Z) (title : bytes) (completed : bool) : option bytes :=
  escaped ← json_escape MAX_VALUE_SIZE title;
  snprintf dst_size (todo_text id user_id escaped completed).

Definition todo_owned_by (value : bytes) (user_id : Z) : bool :=
  match json_get_uint64 value (str "user_id") with
  | Some owner => owner =? user_id
  | None => false
  end.

(** The digits of an id up to the end of the path segment. *)
Fixpoint id_digits (id : bytes) (out_len out_size : Z) : option bytes :=
  match id with
  | [] => Some []
  | c :: id' =>
      if (c =? 47) || (c =? 63) then Some [] else
      if (c <? 48) || (c >? 57) then None else
      if out_len + 1 >=? out_size then None else cons c <$> id_digits id' (out_len + 1) out_size
  end.

Definition extract_id (uri : bytes) (out_size : Z) : option (bytes * Z) :=
  if negb (starts_with TODO_ITEM_PREFIX uri) then None else
  out ← id_digits (zdrop (zlen TODO_ITEM_PREFIX) uri) 0 out_size;
  if zlen out =? 0 then None else
  id ← todo_row_key_parse out;
  Some (out, id).

(** ** Filters *)
Record todo_filter := mkFilter {
  completed_filter : option bool;
  filter_q : option bytes;
  filter_offset : Z;
  filter_limit : Z }.

Definition apply_param (decode_ok : bytes -> bool) (f : todo_filter) (p : http_header) : todo_filter :=
  let name := hdr_name p in
  let val := hdr_value p in
  if streq name (str "completed") then
    if streq val (str "true") then mkFilter (Some true) (filter_q f) (filter_offset f) (filter_limit f)
    else if streq val (str "false") then mkFilter (Some false) (filter_q f) (filter_offset f) (filter_limit f)
    else f
  else if streq name (str "q") then
    match url_decode (decode_ok val) val with
    | None => f
    | Some decoded =>
        let q := snprintf_s 256 (cstr decoded) in
        mkFilter (completed_filter f) (match q with [] => None | _ => Some q end) (filter_offset f) (filter_limit f)
    end
  else if streq name (str "limit") then
    match strtol val with
    | Some n => if n >=? 0 then mkFilter (completed_filter f) (filter_q f) (filter_offset f) n else f
    | None => f
    end
  else if streq name (str "offset") then
    match strtol val with
    | Some n => if n >=? 0 then mkFilter (completed_filter f) (filter_q f) n (filter_limit f) else f
    | None => f
    end
  else f.

Definition parse_todo_filter (decode_ok : bytes -> bool) (query : bytes) : todo_filter :=
  let f := mkFilter None None 0 (-1) in
  match query with
  | [] => f
  | _ => foldl (apply_param decode_ok) f (parse_query_string query)
  end.

(** ** The listing *)
Record list_ctx := mkList {
  ls_buf : bytes;
  ls_cap : Z;
  ls_count : Z;
  ls_matched : Z;
  ls_error : bool }.

Fixpoint grow_cap (fuel : nat) (new_cap need : Z) : Z :=
  match fuel with
  | O => new_cap
  | S fuel' => if new_cap <? need then grow_cap fuel' (u64 (new_cap * 2)) need else new_cap
  end.

(** Whether the row passes the filter. *)
Definition list_row_matches (f : todo_filter) (value : bytes) : bool :=
  let completed_ok :=
    match completed_filter f with
    | None => true
    | Some want => Bool.eqb (default false (json_get_bool value (str "completed"))) want
    end in
  let q_ok :=
    match filter_q f with
    | None => true
    | Some q =>
        match json_get_string value (str "title") MAX_VALUE_SIZE with
        | None => false
        | Some title => strcasestr q (cstr title)
        end
    end in
  completed_ok && q_ok.

Section listing.
Context (realloc_ok : Z -> bool).

Definition list_append (data : bytes) (l : list_ctx) : bool * list_ctx :=
  let len := zlen (ls_buf l) in
  let need := len + zlen data + 1 in
  let cap :=
    if need >? ls_cap l
    then let new_cap := grow_cap 64 (if ls_cap l =? 0 then 4096 else u64 (ls_cap l * 2)) need in
         if realloc_ok new_cap then Some new_cap else None
    else Some (ls_cap l) in
  match cap with
  | None => (false, mkList (ls_buf l) (ls_cap l) (ls_count l) (ls_matched l) true)
  | Some cap => (true, mkList (ls_buf l ++ data) cap (ls_count l) (ls_matched l) (ls_error l))
  end.

Definition list_emit (value : bytes) (l : list_ctx) : list_ctx :=
  let '(ok, l) := if ls_count l >? 0 then list_append [44] l else (true, l) in
  if negb ok then l else
  let '(ok, l) := list_append value l in
  if negb ok then l else mkList (ls_buf l) (ls_cap l) (ls_count l + 1) (ls_matched l) (ls_error l).

Definition list_consider_row (f : todo_filter) (value : bytes) (l : list_ctx) : list_ctx :=
  if negb (list_row_matches f value) then l else
  let index := ls_matched l in
  let l := mkList (ls_buf l) (ls_cap l) (ls_count l) (index + 1) (ls_error l) in
  if index <? filter_offset f then l else
  if (filter_limit f >=? 0) && (ls_count l >=? filter_limit f) then l else
  list_emit value l.

Definition list_scan_cb (f : todo_filter) (user_id : Z) (key value : bytes) (l : list_ctx) : Z * list_ctx :=
  match todo_row_key_parse key with
  | None => (0, l)
  | Some _ =>
      if negb (todo_owned_by value user_id) then (0, l) else
      let l := list_consider_row f value l in
      (if ls_error l then 1 else 0, l)
  end.

Definition needs_every_row (f : todo_filter) : bool :=
  match completed_filter f, filter_q f with None, None => false | _, _ => true end.

Context {D : Type} `{KvStore D}.

Fixpoint index_loop (f : todo_filter) (txn user_id : Z) (ids : list Z) (i : Z) (l : list_ctx) (d : D) : list_ctx * D :=
  match ids with
  | [] => (l, d)
  | id :: ids' =>
      if ls_error l then (l, d) else
      if negb (needs_every_row f) && (i <? filter_offset f) then index_loop f txn user_id ids' (i + 1) l d else
      if negb (needs_every_row f) && (filter_limit f >=? 0) && (ls_count l >=? filter_limit f) then (l, d) else
      match todo_row_key TODO_KEY_MAX id with
      | None => index_loop f txn user_id ids' (i + 1) l d
      | Some key =>
          let '(rc, v, n, d) := kv_search txn key MAX_VALUE_SIZE d in
          if negb (rc =? 0) then index_loop f txn user_id ids' (i + 1) l d else
          let value := ztake (if n >? MAX_VALUE_SIZE then MAX_VALUE_SIZE else n) v in
          if negb (todo_owned_by value user_id) then index_loop f txn user_id ids' (i + 1) l d else
          let l := if needs_every_row f then list_consider_row f value l else list_emit value l in
          index_loop f txn user_id ids' (i + 1) l d
      end
  end.

Definition list_from_index (f : todo_filter) (txn user_id : Z) (ids : list Z) (l : list_ctx) (d : D) : list_ctx * D :=
  let '(l, d) := index_loop f txn user_id ids 0 l d in
  (if negb (needs_every_row f) then mkList (ls_buf l) (ls_cap l) (ls_count l) (zlen ids) (ls_error l) else l, d).
End listing.

(** ** The handlers *)
(** What the handlers share: the database, the cache, the next id, and whether
    the owner index is in step. *)
Record todos (D C : Type) := mkTodos { td_db : D; td_cache : C; next_todo_id : Z; index_ready : bool }.
Arguments mkTodos {D C}.
Arguments td_db {D C}.
Arguments td_cache {D C}.
Arguments next_todo_id {D C}.
Arguments index_ready {D C}.

Section handlers.
Context (gzip : bytes -> option bytes) (server_name : bytes) (now : Z) (realloc_ok : Z -> bool).
Context {D : Type} `{KvStore D} {C A : Type} `{TodoCache C A}.

Definition fail_response (status : Z) (msg : bytes) (conn : connection) : Z * connection :=
  send_error_response gzip server_name now status msg conn.

Definition list_response (body : bytes) (matched : Z) (conn : connection) : Z * connection :=
  let response := set_resp_version (str "HTTP/1.1") (set_resp_status HTTP_OK (conn_response conn)) in
  let response := set_resp_keep_alive (req_keep_alive (conn_request conn)) (set_resp_body (Some body) response) in
  let response := response_set_header 0 (str "Content-Type") (str "application/json") response in
  let response := response_set_header 1 (str "X-Total-Count") (dec_signed matched) response in
  send_http_response gzip server_name now (set_conn_response response conn).

Definition todo_list_handler (decode_ok : bytes -> bool) (conn : connection) (t : todos D C) : Z * connection * todos D C :=
  let f := parse_todo_filter decode_ok (query_string (conn_request conn)) in
  let uid := auth_user_id conn in
  let '(ok, l) := list_append realloc_ok [91] (mkList [] 0 0 0 false) in
  if negb ok then (fail_response HTTP_INTERNAL_SERVER_ERROR (str "Out of memory") conn, t) else
  match kv_begin (td_db t) with
  | (None, d) => (fail_response HTTP_INTERNAL_SERVER_ERROR (str "Transaction failed") conn, mkTodos d (td_cache t) (next_todo_id t) (index_ready t))
  | (Some txn, d) =>
      let '(l, d) :=
        if index_ready t then
          let '(rc, ids, d) := todo_index_lookup realloc_ok txn uid d in
          if rc =? 0 then list_from_index realloc_ok f txn uid (items ids) l d
          else (mkList (ls_buf l) (ls_cap l) (ls_count l) (ls_matched l) true, d)
        else
          let '(rc, l, d) := kv_scan list_ctx txn [] (list_scan_cb realloc_ok f uid) l d in
          (if negb (rc =? 0) then mkList (ls_buf l) (ls_cap l) (ls_count l) (ls_matched l) true else l, d) in
      let t := mkTodos (kv_free txn (kv_commit txn d)) (td_cache t) (next_todo_id t) (index_ready t) in
      if ls_error l then (fail_response HTTP_INTERNAL_SERVER_ERROR (str "Out of memory") conn, t) else
      let '(ok, l) := list_append realloc_ok [93] l in
      if negb ok then (fail_response HTTP_INTERNAL_SERVER_ERROR (str "Out of memory") conn, t) else
      (list_response (ls_buf l) (ls_matched l) conn, t)
  end.

(** The title and the flag of a request body, or the refusal's text. *)
Definition todo_body (request : http_request) : bytes + (bytes * bool) :=
  match req_body request with
  | None | Some [] => inl (str "Request body required")
  | Some body =>
      match json_get_string body (str "title") MAX_VALUE_SIZE with
      | None => inl (str "Missing or invalid 'title'")
      | Some title => inr (cstr title, default false (json_get_bool body (str "completed")))
      end
  end.

(** The row and its index entry in one transaction; a row whose entry cannot be
    written is taken out again. *)
Definition todo_create_insert (key value : bytes) (uid id : Z) (t : todos D C) : option Z * todos D C :=
  match kv_begin (td_db t) with
  | (None, d) => (None, mkTodos d (td_cache t) (next_todo_id t) (index_ready t))
  | (Some txn, d) =>
      let '(rc, d) := kv_insert txn key value d in
      let '(rc, d) :=
        if (rc =? 0) && index_ready t then
          let '(irc, d) := todo_index_insert txn uid id d in
          if negb (irc =? 0) then let '(_, d) := kv_delete txn key d in (-1, d) else (rc, d)
        else (rc, d) in
      (Some rc, mkTodos (kv_free txn (kv_commit txn d)) (td_cache t) (next_todo_id t) (index_ready t))
  end.

(** A creation up to its commit: the key and the row, or the refusal. *)
Definition todo_create_store (conn : connection) (t : todos D C) : ((Z * connection) + (bytes * bytes)) * todos D C :=
  match todo_body (conn_request conn) with
  | inl msg => (inl (fail_response HTTP_BAD_REQUEST msg conn), t)
  | inr (title, completed) =>
      let id := next_todo_id t in
      let t := mkTodos (td_db t) (td_cache t) (u64 (id + 1)) (index_ready t) in
      match todo_row_key TODO_KEY_MAX id with
      | None => (inl (fail_response HTTP_INTERNAL_SERVER_ERROR (str "Id too large") conn), t)
      | Some key =>
          match build_todo_json MAX_VALUE_SIZE id (auth_user_id conn) title completed with
          | None => (inl (fail_response HTTP_PAYLOAD_TOO_LARGE (str "Todo too large") conn), t)
          | Some value =>
              match todo_create_insert key value (auth_user_id conn) id t with
              | (None, t) => (inl (fail_response HTTP_INTERNAL_SERVER_ERROR (str "Transaction failed") conn), t)
              | (Some rc, t) =>
                  if negb (rc =? 0) then (inl (fail_response HTTP_INTERNAL_SERVER_ERROR (str "Insert failed") conn), t)
                  else (inr (key, value), t)
              end
          end
      end
  end.

Definition set_cache (c : C) (t : todos D C) : todos D C := mkTodos (td_db t) c (next_todo_id t) (index_ready t).
Definition set_db (d : D) (t : todos D C) : todos D C := mkTodos d (td_cache t) (next_todo_id t) (index_ready t).

Definition todo_create_publish (a : A) (key value : bytes) (conn : connection) (t : todos D C) : Z * connection * todos D C :=
  let '(_, c) := tc_put a key value (td_cache t) in
  (send_json_response gzip server_name now HTTP_CREATED value conn, set_cache c t).

Definition todo_create_handler (a : A) (conn : connection) (t : todos D C) : Z * connection * todos D C :=
  match todo_create_store conn t with
  | (inl r, t) => (r, t)
  | (inr (key, value), t) => todo_create_publish a key value conn t
  end.

(** The answer to a reader: the row to its owner, otherwise as for a missing row. *)
Definition reveal (value : bytes) (conn : connection) : Z * connection :=
  if negb (todo_owned_by value (auth_user_id conn)) then fail_response HTTP_NOT_FOUND (str "Todo not found") conn
  else send_json_response gzip server_name now HTTP_OK (cstr value) conn.

Definition todo_get_handler (a : A) (conn : connection) (t : todos D C) : Z * connection * todos D C :=
  match extract_id (req_uri (conn_request conn)) TODO_KEY_MAX with
  | None => (fail_response HTTP_BAD_REQUEST (str "Invalid todo id") conn, t)
  | Some (key, _) =>
      match tc_get key MAX_VALUE_SIZE (td_cache t) with
      | (Some (v, n), c) => (reveal (ztake (if n >? MAX_VALUE_SIZE then MAX_VALUE_SIZE else n) v) conn, set_cache c t)
      | (None, c) =>
          let generation := tc_generation c in
          match kv_begin (td_db t) with
          | (None, d) => (fail_response HTTP_INTERNAL_SERVER_ERROR (str "Transaction failed") conn, set_db d (set_cache c t))
          | (Some txn, d) =>
              let '(rc, v, n, d) := kv_search txn key MAX_VALUE_SIZE d in
              let t := set_db (kv_free txn (kv_commit txn d)) (set_cache c t) in
              if negb (rc =? 0) then (fail_response HTTP_NOT_FOUND (str "Todo not found") conn, t) else
              let value := ztake (if n >? MAX_VALUE_SIZE then MAX_VALUE_SIZE else n) v in
              let '(_, c) := tc_fill a key value generation c in
              (reveal value conn, set_cache c t)
          end
      end
  end.

(** The row of [key], when it is the user's. *)
Definition find_owned (txn uid : Z) (key : bytes) (d : D) : option bytes * D :=
  let '(rc, v, n, d) := kv_search txn key MAX_VALUE_SIZE d in
  if negb (rc =? 0) then (None, d) else
  let existing := ztake (if n >? MAX_VALUE_SIZE then MAX_VALUE_SIZE else n) v in
  (if todo_owned_by existing uid then Some existing else None, d).

Definition todo_update_handler (a : A) (conn : connection) (t : todos D C) : Z * connection * todos D C :=
  match extract_id (req_uri (conn_request conn)) TODO_KEY_MAX with
  | None => (fail_response HTTP_BAD_REQUEST (str "Invalid todo id") conn, t)
  | Some (key, id) =>
      match todo_body (conn_request conn) with
      | inl msg => (fail_response HTTP_BAD_REQUEST msg conn, t)
      | inr (title, completed) =>
          match build_todo_json MAX_VALUE_SIZE id (auth_user_id conn) title completed with
          | None => (fail_response HTTP_PAYLOAD_TOO_LARGE (str "Todo too large") conn, t)
          | Some value =>
              match kv_begin (td_db t) with
              | (None, d) => (fail_response HTTP_INTERNAL_SERVER_ERROR (str "Transaction failed") conn, set_db d t)
              | (Some txn, d) =>
                  match find_owned txn (auth_user_id conn) key d with
                  | (None, d) => (fail_response HTTP_NOT_FOUND (str "Todo not found") conn, set_db (kv_free txn (kv_commit txn d)) t)
                  | (Some existing, d) =>
                      let '(rc, d) := kv_delete txn key d in
                      let '(rc, c, d) :=
                        if rc =? 0 then
                          let '(rc, d) := kv_insert txn key value d in
                          if negb (rc =? 0) then
                            let '(back, d) := kv_insert txn key existing d in
                            (rc, if negb (back =? 0) then (tc_invalidate key (td_cache t)).2 else td_cache t, d)
                          else (rc, td_cache t, d)
                        else (rc, td_cache t, d) in
                      if negb (rc =? 0) then
                        (fail_response HTTP_INTERNAL_SERVER_ERROR (str "Update failed") conn, set_db (kv_free txn (kv_abort txn d)) (set_cache c t))
                      else
                        let '(_, c) := tc_put a key value c in
                        (send_json_response gzip server_name now HTTP_OK value conn, set_db (kv_free txn (kv_commit txn d)) (set_cache c t))
                  end
              end
          end
      end
  end.

Definition todo_delete_handler (conn : connection) (t : todos D C) : Z * connection * todos D C :=
  match extract_id (req_uri (conn_request conn)) TODO_KEY_MAX with
  | None => (fail_response HTTP_BAD_REQUEST (str "Invalid todo id") conn, t)
  | Some (key, id) =>
      match kv_begin (td_db t) with
      | (None, d) => (fail_response HTTP_INTERNAL_SERVER_ERROR (str "Transaction failed") conn, set_db d t)
      | (Some txn, d) =>
          match find_owned txn (auth_user_id conn) key d with
          | (None, d) => (fail_response HTTP_NOT_FOUND (str "Todo not found") conn, set_db (kv_free txn (kv_commit txn d)) t)
          | (Some existing, d) =>
              let d := if index_ready t then (todo_index_delete txn (auth_user_id conn) id d).2 else d in
              let '(_, d) := kv_delete txn key d in
              let '(_, c) := tc_invalidate key (td_cache t) in
              (send_json_response gzip server_name now HTTP_NO_CONTENT [] conn, set_db (kv_free txn (kv_commit txn d)) (set_cache c t))
          end
      end
  end.

(** Start: the index is reconciled, which also gives the highest id in use. *)
Definition todo_api_init (cache : C) (d : D) : todos D C :=
  let '(_, max_id, ready, d) := todo_index_reconcile realloc_ok d in
  mkTodos d cache (u64 (default 0 max_id + 1)) ready.
End handlers.
