(* ===== verification/TodoProofs.v ===== *)
(** * The todo handlers over the service's state

    The rows of the database as a map from ids to todos, the invariant that ties
    the database, the owner index, the id counter and the cache to it, and what
    each handler does to that map. *)
From Stdlib Require Import String.
From S2P Require Import Prelude Text BtreePage Db DbScan Json Jwt TodoIndex TodoCache HttpTypes HttpText Connection HttpResponse Todos.

Local Open Scope Z_scope.

(** ** Todos *)
Record todo := mkTodo { todo_owner : Z; todo_title : bytes; todo_completed : bool }.

Definition row_text (id : Z) (x : todo) : bytes := todo_text id (todo_owner x) (escaped (todo_title x)) (todo_completed x).

Record todo_ok (id : Z) (x : todo) : Prop := {
  to_id : u64_range id;
  to_owner : u64_range (todo_owner x);
  to_title : Forall is_byte (todo_title x);
  to_fits : zlen (row_text id x) < MAX_VALUE_SIZE }.

Definition todo_fields (id : Z) (x : todo) : list (bytes * jval) :=
  [(str "id", JNum id); (str "user_id", JNum (todo_owner x)); (str "title", JStr (todo_title x)); (str "completed", JBool (todo_completed x))].

Lemma row_text_object id x : row_text id x = render_object (todo_fields id x).
Proof.
  unfold row_text, todo_text, render_object. cbn [todo_fields render_fields]. unfold render_field, render_val. cbn [fst snd].
  destruct (todo_completed x); cbn [app str]; repeat (rewrite <- app_assoc; cbn [app]); done.
Qed.

Lemma todo_fields_ok id x : todo_ok id x -> Forall field_ok (todo_fields id x).
Proof.
  intros [H1 H2 H3 _]. unfold u64_range in *. repeat constructor; cbn; try (done || lia).
  eapply list.Forall_impl; [exact H3|]. unfold is_byte, is_char. lia.
Qed.

Lemma row_owned id x uid : todo_ok id x -> todo_owned_by (row_text id x) uid = (todo_owner x =? uid).
Proof.
  intros Hx. unfold todo_owned_by. rewrite row_text_object.
  by rewrite (get_uint64_object _ (str "user_id") (todo_owner x) (todo_fields_ok id x Hx)).
Qed.

(** Escapes can be told apart: none starts another. *)
Lemma escape_char_apart c d a b : is_byte c -> is_byte d -> escape_char c ++ a = escape_char d ++ b -> c = d /\ a = b.
Proof.
  assert (forallb (fun x => forallb (fun y => (x =? y) || negb (starts_with (escape_char x) (escape_char y))) (map Z.of_nat (seq 0 256))) (map Z.of_nat (seq 0 256)) = true) as Hall
    by (vm_compute; reflexivity).
  assert (forall x, is_byte x -> In x (map Z.of_nat (seq 0 256))) as Hin.
  { intros x Hx. apply in_map_iff. exists (Z.to_nat x). unfold is_byte in Hx. split; [lia|]. apply in_seq. lia. }
  assert (forall x y l, is_byte x -> is_byte y -> escape_char y = escape_char x ++ l -> x = y) as Hne.
  { intros x y l Hx Hy Hp. rewrite forallb_forall in Hall. specialize (Hall x (Hin x Hx)). cbv beta in Hall. rewrite forallb_forall in Hall.
    specialize (Hall y (Hin y Hy)). apply orb_true_iff in Hall as [Hall|Hall]; [lia|]. apply negb_true_iff in Hall. exfalso.
    assert (starts_with (escape_char x) (escape_char y) = true) as Hc; [|congruence]. apply starts_with_spec. by exists l. }
  intros Hc Hd E. apply app_eq_app in E as (l & [[E1 E2]|[E1 E2]]).
  - assert (d = c) as -> by (by eapply Hne). split; [done|]. rewrite <- (app_nil_r (escape_char c)) in E1 at 1. apply app_inv_head in E1 as <-. done.
  - assert (c = d) as -> by (by eapply Hne). split; [done|]. rewrite <- (app_nil_r (escape_char d)) in E1 at 1. apply app_inv_head in E1 as <-. done.
Qed.

Lemma escaped_inj s t : Forall is_byte s -> Forall is_byte t -> escaped s = escaped t -> s = t.
Proof.
  assert (forall c, escape_char c <> []) as Hn by (intros c; unfold escape_char; repeat case_match; done).
  intros Hs. revert t. induction Hs as [|c s Hc Hs IH]; intros t Ht E.
  - destruct t as [|d t]; [done|]. cbn in E. symmetry in E. apply app_eq_nil in E as [E _]. by destruct (Hn d).
  - destruct Ht as [|d t Hd Ht]; cbn in E; [apply app_eq_nil in E as [E _]; by destruct (Hn c)|].
    apply escape_char_apart in E as [-> E]; [|done|done]. f_equal. by apply IH.
Qed.

(** A row says which todo it is. *)
Lemma row_text_inj id x y : todo_ok id x -> todo_ok id y -> row_text id x = row_text id y -> x = y.
Proof.
  intros Hx Hy. pose proof (todo_fields_ok id x Hx) as Fx. pose proof (todo_fields_ok id y Hy) as Fy. intros E0. pose proof E0 as E. rewrite !row_text_object in E.
  assert (todo_owner x = todo_owner y) as Ho.
  { apply (inj Some). rewrite <- (get_uint64_object _ (str "user_id") (todo_owner x) Fx), <- (get_uint64_object _ (str "user_id") (todo_owner y) Fy) by done.
    by rewrite E. }
  assert (todo_completed x = todo_completed y) as Hc.
  { apply (inj Some). rewrite <- (get_bool_object _ (str "completed") (todo_completed x) Fx), <- (get_bool_object _ (str "completed") (todo_completed y) Fy) by done.
    by rewrite E. }
  pose proof (to_title _ _ Hx) as Hx'. pose proof (to_title _ _ Hy) as Hy'. clear E Fx Fy Hx Hy.
  destruct x as [o1 t1 c1], y as [o2 t2 c2]. cbn [todo_owner todo_completed todo_title] in *. subst o2 c2. f_equal.
  apply escaped_inj; [done|done|]. unfold row_text, todo_text in E0. cbn [todo_owner todo_completed todo_title] in E0.
  repeat apply app_inv_head in E0. by apply app_inv_tail in E0.
Qed.

(** Every character that is written is a byte and none is NUL. *)
Lemma escape_char_bytes c : is_byte c -> Forall (fun d => 1 <= d < 256) (escape_char c).
Proof.
  unfold is_byte, escape_char, hex_lower. intros Hc.
  repeat case_match; repeat constructor; try lia; rewrite ?Z.ltb_lt, ?Z.ltb_ge in *; try zdiv.
Qed.

Lemma escaped_bytes s : Forall is_byte s -> Forall (fun d => 1 <= d < 256) (escaped s).
Proof.
  induction 1 as [|c s Hc Hs IH]; [constructor|]. cbn [escaped flat_map]. apply list.Forall_app. split; [by apply escape_char_bytes|exact IH].
Qed.

Lemma digits_nonzero n : 0 <= n <= UINT64_MAX -> Forall (fun d => 1 <= d < 256) (dec n).
Proof.
  intros Hn. destruct (dec_spec n Hn) as (Hd & _). eapply list.Forall_impl; [exact Hd|]. intros c Hc%is_digit_spec. lia.
Qed.

Lemma row_text_chars id x : todo_ok id x -> Forall (fun d => 1 <= d < 256) (row_text id x).
Proof.
  intros [H1 H2 H3 _]. apply escaped_bytes in H3. unfold u64_range in *. unfold row_text, todo_text. rewrite !list.Forall_app.
  split_and!; try done; try (by apply digits_nonzero); try (apply (bool_decide_unpack _); vm_compute; exact I).
  destruct (todo_completed x); apply (bool_decide_unpack _); vm_compute; exact I.
Qed.

Lemma nonzero_cstr l : Forall (fun d => 1 <= d < 256) l -> cstr l = l.
Proof. induction 1 as [|c l Hc Hl IH]; [done|]. cbn. destruct (Z.eqb_spec c 0); [lia|]. by rewrite IH. Qed.

Lemma dec_key_spec id : u64_range id ->
  todo_row_key TODO_KEY_MAX id = Some (dec id) /\ todo_row_key_parse (dec id) = Some id /\ Forall is_byte (dec id) /\ 0 < zlen (dec id) <= MAX_KEY_SIZE.
Proof.
  intros Hid. destruct (dec_spec id Hid) as (Hd & Hv & Hne & Hl). split; [|split; [|split]].
  - unfold todo_row_key, snprintf, TODO_KEY_MAX. destruct (Z.geb_spec (zlen (dec id)) 64); [lia|done].
  - apply todo_row_key_parse_iff. split_and!; [done| |done|done|by apply Hid]. destruct (dec id); [done|zl].
  - by apply dec_bytes.
  - unfold MAX_KEY_SIZE. destruct (dec id); [done|zl].
Qed.

Lemma row_storable id x : todo_ok id x -> storable (dec id) (row_text id x).
Proof.
  intros Hx. pose proof (row_text_chars id x Hx) as Hc. destruct Hx as [H1 _ _ H4]. destruct (dec_key_spec id H1) as (_ & _ & Hb & Hl).
  unfold storable. split_and!; try done; try lia. eapply list.Forall_impl; [exact Hc|]. cbn. unfold is_byte. lia.
Qed.

Lemma row_cut id x : todo_ok id x -> ztake MAX_VALUE_SIZE (row_text id x) = row_text id x.
Proof. intros [_ _ _ H]. apply ztake_all. lia. Qed.

Lemma build_todo_json_spec id uid title completed :
  build_todo_json MAX_VALUE_SIZE id uid title completed =
  if zlen (row_text id (mkTodo uid title completed)) <? MAX_VALUE_SIZE then Some (row_text id (mkTodo uid title completed)) else None.
Proof.
  unfold build_todo_json, json_escape. rewrite escape_loop_spec by (unfold MAX_VALUE_SIZE; lia). rewrite Z.add_0_l.
  unfold row_text. cbn [todo_owner todo_title todo_completed].
  assert (zlen (escaped title) <= zlen (todo_text id uid (escaped title) completed)) as Hle.
  { unfold todo_text. rewrite !zlen_app. zlen_facts. lia. }
  destruct (Z.ltb_spec (zlen (escaped title)) MAX_VALUE_SIZE) as [Hlt|Hge]; cbn [mbind option_bind].
  - unfold snprintf. destruct (Z.geb_spec (zlen (todo_text id uid (escaped title) completed)) MAX_VALUE_SIZE),
      (Z.ltb_spec (zlen (todo_text id uid (escaped title) completed)) MAX_VALUE_SIZE); done || lia.
  - destruct (Z.ltb_spec (zlen (todo_text id uid (escaped title) completed)) MAX_VALUE_SIZE); [lia|done].
Qed.

(** What a reader copies out of a body is bytes. *)
Lemma string_loop_bytes m p n size r :
  (length p <= m)%nat -> Forall is_byte p -> string_loop p n size = Some r -> Forall is_byte r.
Proof.
  revert p n r. induction m as [|m IH]; intros p n r Hm Hp; [by destruct p; [|cbn in Hm; lia]|].
  destruct p as [|c p1]; [done|]. apply list.Forall_cons in Hp as [Hc Hp].
  assert (forall x q t, (length q <= m)%nat -> is_byte x -> Forall is_byte q ->
    (if n + 1 >=? size then None else cons x <$> string_loop q (n + 1) size) = Some t -> Forall is_byte t) as Hemit.
  { intros x q t Hq Hx Hqb. destruct (Z.geb_spec (n + 1) size); [done|]. destruct (string_loop q (n + 1) size) as [t'|] eqn:E; [|done].
    intros [= <-]. constructor; [done|]. by eapply IH. }
  assert (forall d, is_byte d -> is_byte (unescape_char d)) as Hu by (intros d Hd; unfold unescape_char; repeat case_match; done || (unfold is_byte; lia)).
  cbn [string_loop]. cbn in Hm. destruct (c =? 34); [intros [= <-]; constructor|].
  destruct (c =? 92); [|apply Hemit; done || lia]. destruct p1 as [|d p2]; [apply Hemit; done || (cbn; lia)|]. cbn in Hm.
  apply list.Forall_cons in Hp as [Hd Hp2].
  destruct (d =? 117); [|apply Hemit; [lia|by apply Hu|done]].
  assert (is_byte 63) as H63 by (unfold is_byte; lia).
  destruct p2 as [|? [|? [|? [|? p6]]]]; (apply Hemit; [cbn in *; lia|done|]); rewrite ?list.Forall_cons in *; tauto || constructor.
Qed.

Lemma skip_ws_bytes p : Forall is_byte p -> Forall is_byte (skip_ws p).
Proof. induction 1 as [|c p Hc Hp IH]; [constructor|]. cbn. destruct (is_ws c); [done|by constructor]. Qed.

Lemma scan_string_bytes m p a b : (length p <= m)%nat -> Forall is_byte p -> scan_string p = Some (a, b) -> Forall is_byte b.
Proof.
  revert p a b. induction m as [|m IH]; intros p a b Hm Hp; [by destruct p; [|cbn in Hm; lia]|].
  destruct p as [|c p]; [done|]. apply list.Forall_cons in Hp as [_ Hp]. cbn in Hm. cbn [scan_string].
  destruct (c =? 34); [by intros [= _ <-]|]. destruct (c =? 92).
  - destruct p as [|d p]; [done|]. cbn in Hm. apply list.Forall_cons in Hp as [_ Hp].
    destruct (scan_string p) as [[s r]|] eqn:E; [|done]. cbn. intros [= _ <-]. eapply IH; [|exact Hp|exact E]. lia.
  - destruct (scan_string p) as [[s r]|] eqn:E; [|done]. cbn. intros [= _ <-]. eapply IH; [|exact Hp|exact E]. lia.
Qed.

Lemma find_loop_bytes fuel p field q : Forall is_byte p -> find_loop fuel p field = Some q -> Forall is_byte q.
Proof.
  revert p. induction fuel as [|fuel IH]; intros p Hp; [done|]. destruct p as [|c p]; [done|]. cbn [find_loop].
  apply list.Forall_cons in Hp as [_ Hp]. destruct (negb (c =? 34)); [by apply IH|].
  destruct (scan_string p) as [[s rest]|] eqn:E; [|done]. cbn [mbind option_bind].
  pose proof (scan_string_bytes _ _ _ _ (le_n _) Hp E) as Hr. pose proof (skip_ws_bytes _ Hr) as Hs.
  destruct (skip_ws rest) as [|x v]; [by apply IH|]. apply list.Forall_cons in Hs as [_ Hs].
  destruct (decide (x = 58)) as [->|Hx].
  - case_bool_decide; [|by apply IH]. intros [= <-]. by apply skip_ws_bytes.
  - repeat case_match; try done; by apply IH.
Qed.

Lemma json_get_string_bytes body field size r : Forall is_byte body -> json_get_string body field size = Some r -> Forall is_byte r.
Proof.
  intros Hb. unfold json_get_string, json_find_field. destruct (find_loop (length body) body field) as [p|] eqn:E; [|done].
  cbn [mbind option_bind]. apply find_loop_bytes in E; [|done]. destruct p as [|c p]; [done|]. apply list.Forall_cons in E as [_ E].
  destruct (decide (c = 34)) as [->|Hc].
  - by apply (string_loop_bytes _ _ _ _ _ (le_n _)).
  - repeat case_match; done.
Qed.

Lemma cstr_bytes l : Forall is_byte l -> Forall is_byte (cstr l).
Proof. induction 1 as [|c l Hc Hl IH]; [constructor|]. cbn. destruct (c =? 0); [constructor|by constructor]. Qed.

Lemma todo_body_bytes request title completed :
  (forall b, req_body request = Some b -> Forall is_byte b) -> todo_body request = inr (title, completed) -> Forall is_byte title.
Proof.
  intros Hb. unfold todo_body. destruct (req_body request) as [[|c body]|]; [done| |done]. specialize (Hb _ eq_refl).
  destruct (json_get_string (c :: body) (str "title") MAX_VALUE_SIZE) as [u|] eqn:E; [|done]. intros [= <- _].
  apply cstr_bytes. by eapply json_get_string_bytes.
Qed.

(** ** The rows of a database *)
Record todo_repr (m : gmap bytes bytes) (T : gmap Z todo) (next : Z) (ready : bool) : Prop := {
  tr_row : forall id, u64_range id -> m !! dec id = row_text id <$> T !! id;
  tr_canon : forall k id, todo_row_key_parse k = Some id -> is_Some (m !! k) -> k = dec id;
  tr_ok : forall id x, T !! id = Some x -> todo_ok id x /\ id < next;
  tr_index : ready = true -> forall u id, u64_range u -> u64_range id ->
    is_Some (m !! index_text u id) <-> exists x, T !! id = Some x /\ todo_owner x = u;
  tr_next : 0 <= next <= UINT64_MAX }.

(** The todo behind a path key: a key with leading zeros names no row. *)
Definition at_key (T : gmap Z todo) (key : bytes) (id : Z) : option todo := if bool_decide (key = dec id) then T !! id else None.

Lemma parse_range key id : todo_row_key_parse key = Some id -> u64_range id.
Proof.
  intros (Hd & Hl & -> & Hm)%todo_row_key_parse_iff. split; [|done]. by apply digits_value_range.
Qed.

Lemma key_row m T next ready key id :
  todo_repr m T next ready -> todo_row_key_parse key = Some id -> m !! key = row_text id <$> at_key T key id.
Proof.
  intros Hr Hk. unfold at_key. case_bool_decide as E.
  - subst key. apply (tr_row _ _ _ _ Hr). by eapply parse_range.
  - destruct (m !! key) as [x|] eqn:Ex; [|done]. exfalso. apply E. eapply (tr_canon _ _ _ _ Hr); [done|by eexists].
Qed.

Lemma at_key_some T key id x : at_key T key id = Some x -> key = dec id /\ T !! id = Some x.
Proof. unfold at_key. case_bool_decide; [done|done]. Qed.

Lemma dec_inj a b : u64_range a -> u64_range b -> dec a = dec b -> a = b.
Proof. intros Ha Hb E. destruct (dec_spec a Ha) as (_ & <- & _). destruct (dec_spec b Hb) as (_ & <- & _). by rewrite E. Qed.

Lemma dec_not_index id u j : u64_range id -> dec id <> index_text u j.
Proof.
  intros Hid E. destruct (dec_key_spec id Hid) as (_ & Hp & _). rewrite E, index_text_not_row in Hp. done.
Qed.

Lemma not_row_key k id : todo_row_key_parse k = None -> u64_range id -> dec id <> k.
Proof. intros Hk Hid <-. destruct (dec_key_spec id Hid) as (_ & Hp & _). congruence. Qed.

Lemma not_index_key k u id : todo_index_key_parse k = None -> u64_range u -> u64_range id -> index_text u id <> k.
Proof. intros Hk Hu Hid <-. assert (todo_index_key_parse (index_text u id) = Some (u, id)) by (by apply index_parse_iff). congruence. Qed.

(** The map after the row of [id] and its index entry are set or removed. *)
Lemma repr_insert m T next id x :
  todo_repr m T next true -> u64_range id -> id < next -> T !! id = None -> todo_ok id x ->
  todo_repr (<[index_text (todo_owner x) id := []]> (<[dec id := row_text id x]> m)) (<[id := x]> T) next true.
Proof.
  intros [H1 H2 H3 H4 H5] Hid Hn HT Hx. constructor.
  - intros j Hj. rewrite lookup_insert_ne by (intros E; by apply (dec_not_index j (todo_owner x) id Hj)).
    destruct (decide (j = id)) as [->|Hne]; [by rewrite !lookup_insert_eq|].
    rewrite !lookup_insert_ne; [by apply H1|done|]. intros E. apply Hne. symmetry. by apply dec_inj.
  - intros k j Hk. destruct (decide (k = index_text (todo_owner x) id)) as [->|Hk1]; [by rewrite index_text_not_row in Hk|].
    rewrite lookup_insert_ne by done. destruct (decide (k = dec id)) as [->|Hk2].
    + destruct (dec_key_spec id Hid) as (_ & Hp & _). rewrite Hp in Hk. by injection Hk as <-.
    + rewrite lookup_insert_ne by done. by apply H2.
  - intros j y. destruct (decide (j = id)) as [->|Hne]; [rewrite lookup_insert_eq; by intros [= <-]|rewrite lookup_insert_ne by done; by apply H3].
  - intros _ u j Hu Hj. destruct (decide ((u, j) = (todo_owner x, id))) as [[= -> ->]|Hne].
    + rewrite !lookup_insert_eq. split; [intros _; by exists x|by eexists].
    + rewrite lookup_insert_ne.
      2:{ intros E. apply Hne. symmetry. apply index_text_inj; try done. apply Hx. }
      rewrite lookup_insert_ne by (intros E; by apply (dec_not_index id u j Hid)). rewrite H4 by done.
      destruct (decide (j = id)) as [->|Hj2].
      * rewrite lookup_insert_eq, HT. split; [by intros (? & ? & _)|]. intros (y & [= <-] & <-). done.
      * by rewrite lookup_insert_ne.
  - done.
Qed.

Lemma repr_update m T next ready id x y :
  todo_repr m T next ready -> T !! id = Some x -> todo_ok id y -> todo_owner y = todo_owner x ->
  todo_repr (<[dec id := row_text id y]> (delete (dec id) m)) (<[id := y]> T) next ready.
Proof.
  intros [H1 H2 H3 H4 H5] HT Hy Ho. pose proof (to_id _ _ Hy) as Hid. rewrite insert_delete_eq. constructor.
  - intros j Hj. destruct (decide (j = id)) as [->|Hne]; [by rewrite !lookup_insert_eq|].
    rewrite !lookup_insert_ne; [by apply H1|done|]. intros E. apply Hne. symmetry. by apply dec_inj.
  - intros k j Hk. destruct (decide (k = dec id)) as [->|Hk2].
    + destruct (dec_key_spec id Hid) as (_ & Hp & _). rewrite Hp in Hk. by injection Hk as <-.
    + rewrite lookup_insert_ne by done. by apply H2.
  - intros j z. destruct (decide (j = id)) as [->|Hne]; [|rewrite lookup_insert_ne by done; by apply H3].
    rewrite lookup_insert_eq. intros [= <-]. split; [done|]. by eapply H3.
  - intros Hr u j Hu Hj. rewrite lookup_insert_ne by (intros E; by apply (dec_not_index id u j Hid)). rewrite (H4 Hr u j Hu Hj).
    destruct (decide (j = id)) as [->|Hne]; [|by rewrite lookup_insert_ne].
    rewrite lookup_insert_eq, HT. split; [intros (z & [= <-] & <-); by exists y|intros (z & [= <-] & <-); by exists x].
  - done.
Qed.

Lemma repr_delete m T next id x :
  todo_repr m T next true -> T !! id = Some x ->
  todo_repr (delete (dec id) (delete (index_text (todo_owner x) id) m)) (delete id T) next true.
Proof.
  intros [H1 H2 H3 H4 H5] HT. destruct (H3 _ _ HT) as [Hx Hn]. pose proof (to_id _ _ Hx) as Hid. constructor.
  - intros j Hj. destruct (decide (j = id)) as [->|Hne]; [by rewrite !lookup_delete_eq|].
    rewrite lookup_delete_ne by (intros E; apply Hne; symmetry; by apply dec_inj).
    rewrite !lookup_delete_ne; [by apply H1|done|]. intros E. by apply (dec_not_index j (todo_owner x) id Hj).
  - intros k j Hk [y Hy]. apply lookup_delete_Some in Hy as [_ Hy]. apply lookup_delete_Some in Hy as [_ Hy]. by eapply H2; [|eexists].
  - intros j y [_ Hy]%lookup_delete_Some. by apply H3.
  - intros _ u j Hu Hj. rewrite lookup_delete_ne by (intros E; by apply (dec_not_index id u j Hid)).
    destruct (decide ((u, j) = (todo_owner x, id))) as [[= -> ->]|Hne].
    + rewrite !lookup_delete_eq. split; [by intros [? ?]|by intros (? & ? & _)].
    + rewrite lookup_delete_ne.
      2:{ intros E. apply Hne. symmetry. apply index_text_inj; try done. apply Hx. }
      rewrite H4 by done. destruct (decide (j = id)) as [->|Hj2]; [|by rewrite lookup_delete_ne].
      rewrite lookup_delete_eq, HT. split; [intros (y & [= <-] & <-); done|by intros (? & ? & _)].
  - done.
Qed.

(** Only index entries differ: the same rows. *)
Lemma repr_rest m m' T next : todo_repr m T next false -> rest_kept m m' -> todo_repr m' T next false.
Proof.
  intros [H1 H2 H3 _ H5] Hk. constructor; try done.
  - intros id Hid. rewrite Hk; [by apply H1|]. destruct (todo_index_key_parse (dec id)) as [[u j]|] eqn:E; [|done].
    apply index_parse_iff in E as (E & _). by apply (dec_not_index id u j Hid) in E.
  - intros k id Hp [x Hx]. apply (H2 k id Hp). rewrite <- Hk; [by eexists|].
    destruct (todo_index_key_parse k) as [[u j]|] eqn:Ep; [|done]. apply index_parse_iff in Ep as (-> & _). by rewrite index_text_not_row in Hp.
Qed.

Lemma repr_weaken m T next ready next' : todo_repr m T next ready -> next <= next' <= UINT64_MAX -> todo_repr m T next' false.
Proof. intros [H1 H2 H3 _ H5] Hn. constructor; try done; [|lia]. intros id x Hx. destruct (H3 id x Hx). split; [done|lia]. Qed.

(** The rows determine the todos. *)
Lemma repr_unique m T1 T2 n1 n2 r1 r2 : todo_repr m T1 n1 r1 -> todo_repr m T2 n2 r2 -> T1 = T2.
Proof.
  intros H1 H2. apply map_eq. intros id.
  assert (forall (Ta Tb : gmap Z todo) na nb ra rb x, todo_repr m Ta na ra -> todo_repr m Tb nb rb -> Ta !! id = Some x -> Tb !! id = Some x) as Hsub.
  { intros Ta Tb na nb ra rb x Ha Hb Hx. destruct (tr_ok _ _ _ _ Ha _ _ Hx) as [Hok _]. pose proof (to_id _ _ Hok) as Hid.
    pose proof (tr_row _ _ _ _ Ha id Hid) as Ea. rewrite (tr_row _ _ _ _ Hb id Hid), Hx in Ea. destruct (Tb !! id) as [y|] eqn:Ey; [|done].
    cbn [fmap option_fmap option_map] in Ea. apply (inj Some) in Ea. destruct (tr_ok _ _ _ _ Hb _ _ Ey) as [Hoky _].
    f_equal. by eapply row_text_inj. }
  destruct (T1 !! id) as [x|] eqn:E1; [symmetry; exact (Hsub T1 T2 _ _ _ _ x H1 H2 E1)|]. destruct (T2 !! id) as [y|] eqn:E2; [|done].
  rewrite (Hsub T2 T1 _ _ _ _ y H2 H1 E2) in E1. done.
Qed.

Lemma rest_insert_index m u id v : u64_range u -> u64_range id -> rest_kept m (<[index_text u id := v]> m).
Proof. intros Hu Hid k Hk. rewrite lookup_insert_ne; [done|]. by apply not_index_key. Qed.
Lemma rest_delete_index m u id : u64_range u -> u64_range id -> rest_kept m (delete (index_text u id) m).
Proof. intros Hu Hid k Hk. rewrite lookup_delete_ne; [done|]. by apply not_index_key. Qed.

Lemma repr_put m T next id x :
  todo_repr m T next false -> todo_ok id x -> id < next -> todo_repr (<[dec id := row_text id x]> m) (<[id := x]> T) next false.
Proof.
  intros [H1 H2 H3 _ H5] Hx Hn. pose proof (to_id _ _ Hx) as Hid. constructor; try done.
  - intros j Hj. destruct (decide (j = id)) as [->|Hne]; [by rewrite !lookup_insert_eq|].
    rewrite !lookup_insert_ne; [by apply H1|done|]. intros E. apply Hne. symmetry. by apply dec_inj.
  - intros k j Hk. destruct (decide (k = dec id)) as [->|Hk2].
    + destruct (dec_key_spec id Hid) as (_ & Hp & _). rewrite Hp in Hk. by injection Hk as <-.
    + rewrite lookup_insert_ne by done. by apply H2.
  - intros j z. destruct (decide (j = id)) as [->|Hne]; [|rewrite lookup_insert_ne by done; by apply H3].
    rewrite lookup_insert_eq. by intros [= <-].
Qed.

Lemma repr_drop m T next id :
  todo_repr m T next false -> u64_range id -> todo_repr (delete (dec id) m) (delete id T) next false.
Proof.
  intros [H1 H2 H3 _ H5] Hid. constructor; try done.
  - intros j Hj. destruct (decide (j = id)) as [->|Hne]; [by rewrite !lookup_delete_eq|].
    rewrite !lookup_delete_ne; [by apply H1|done|]. intros E. apply Hne. symmetry. by apply dec_inj.
  - intros k j Hk [y [_ Hy]%lookup_delete_Some]. by eapply H2; [|eexists].
  - intros j y [_ Hy]%lookup_delete_Some. by apply H3.
Qed.

(** The cache holds only rows of the database. *)
Definition coherent (mc m : gmap bytes bytes) : Prop :=
  forall k v, mc !! k = Some v -> m !! k = Some v /\ is_Some (todo_row_key_parse k).

(** The cache holds rows of stored ids under their owners, though perhaps an
    earlier title or flag. *)
Definition cached (mc : gmap bytes bytes) (T : gmap Z todo) : Prop :=
  forall k v, mc !! k = Some v ->
    exists id x y, k = dec id /\ v = row_text id x /\ todo_ok id x /\ T !! id = Some y /\ todo_owner x = todo_owner y.

Lemma coherent_cached mc m T next ready : coherent mc m -> todo_repr m T next ready -> cached mc T.
Proof.
  intros Hc Hr k v Hv. destruct (Hc k v Hv) as [Hm [id Hk]]. rewrite (key_row _ _ _ _ _ _ Hr Hk) in Hm.
  destruct (at_key T k id) as [x|] eqn:Ex; [|done]. apply at_key_some in Ex as [-> HT]. cbn in Hm. apply (inj Some) in Hm as <-.
  destruct (tr_ok _ _ _ _ Hr _ _ HT). by exists id, x, x.
Qed.

Lemma cached_stale mc T id y : cached mc T -> (forall x, T !! id = Some x -> todo_owner x = todo_owner y) -> cached mc (<[id := y]> T).
Proof.
  intros Hc Ho k v Hv. destruct (Hc k v Hv) as (j & x & z & -> & -> & Hx & HT & E). destruct (decide (j = id)) as [->|Hne].
  - exists id, x, y. rewrite lookup_insert_eq. split_and!; try done. rewrite E. by apply Ho.
  - exists j, x, z. by rewrite lookup_insert_ne.
Qed.

Lemma cached_put mc mc' T id y :
  cached mc T -> todo_ok id y -> (forall x, T !! id = Some x -> todo_owner x = todo_owner y) ->
  mc' ⊆ <[dec id := row_text id y]> mc -> cached mc' (<[id := y]> T).
Proof.
  intros Hc Hy Ho Hs k v Hv. apply (lookup_weaken _ _ _ _ Hv) in Hs. destruct (decide (k = dec id)) as [->|Hne].
  - rewrite lookup_insert_eq in Hs. injection Hs as <-. exists id, y, y. by rewrite lookup_insert_eq.
  - rewrite lookup_insert_ne in Hs by done. by apply (cached_stale mc T id y Hc Ho).
Qed.

Lemma cached_drop mc T id (gone : bool) : cached mc T -> cached (delete (dec id) mc) (if gone then delete id T else T).
Proof.
  intros Hc k v [Hne Hv]%lookup_delete_Some. destruct (Hc k v Hv) as (j & x & z & -> & -> & Hx & HT & E).
  exists j, x, z. split_and!; try done. destruct gone; [|done]. rewrite lookup_delete_ne; [done|]. by intros ->.
Qed.

(** ** Pages of a listing *)
Definition window {X} (off lim : Z) (l : list X) : list X := let r := zdrop off l in if lim >=? 0 then ztake lim r else r.

Fixpoint join (rows : list bytes) : bytes :=
  match rows with
  | [] => []
  | r :: rows' => match rows' with [] => r | _ => r ++ 44 :: join rows' end
  end.

Lemma join_snoc rows r : join (rows ++ [r]) = match rows with [] => r | _ => join rows ++ 44 :: r end.
Proof.
  induction rows as [|x rows IH]; [done|]. destruct rows as [|y rows]; [done|].
  change ((x :: y :: rows) ++ [r]) with (x :: ((y :: rows) ++ [r])).
  assert (join (x :: ((y :: rows) ++ [r])) = x ++ 44 :: join ((y :: rows) ++ [r])) as -> by done.
  rewrite IH. cbn [join]. by rewrite <- app_assoc.
Qed.

Lemma window_snoc {X} off lim (l : list X) x :
  0 <= off ->
  window off lim (l ++ [x]) =
  if zlen l <? off then window off lim l
  else if (lim >=? 0) && (zlen (window off lim l) >=? lim) then window off lim l else window off lim l ++ [x].
Proof.
  intros Ho. unfold window. destruct (Z.ltb_spec (zlen l) off) as [Hlt|Hge].
  { rewrite !zdrop_all by zl. done. }
  rewrite zdrop_app_le by lia. destruct (Z.geb_spec lim 0) as [Hl|Hl]; cbn [andb]; [|done].
  rewrite zlen_ztake. destruct (Z.geb_spec (Z.min (Z.max 0 lim) (zlen (zdrop off l))) lim) as [Hf|Hf].
  - apply ztake_app_le. lia.
  - rewrite (ztake_all lim (zdrop off l)) by lia. rewrite ztake_all; [done|]. zl.
Qed.

Lemma window_full {X} off lim (l k : list X) :
  0 <= off -> 0 <= lim -> lim <= zlen (window off lim l) -> window off lim (l ++ k) = window off lim l.
Proof.
  intros Ho Hl Hf. induction k as [|x k IH] using rev_ind; [by rewrite app_nil_r|].
  rewrite app_assoc, window_snoc by done. rewrite IH. destruct (_ <? _); [done|].
  destruct (Z.geb_spec lim 0); [|lia]. destruct (Z.geb_spec (zlen (window off lim l)) lim); [done|lia].
Qed.

Section pages.
Context (realloc_ok : Z -> bool) (realloc_grants : forall n, realloc_ok n = true) (f : todo_filter) (offset_ok : 0 <= filter_offset f).

Definition selected (rows : list bytes) : list bytes := List.filter (list_row_matches f) rows.
Definition page (rows : list bytes) : list bytes := window (filter_offset f) (filter_limit f) (selected rows).

(** The listing so far shows the page of the rows seen. *)
Record shows (rows : list bytes) (l : list_ctx) : Prop := {
  sh_buf : ls_buf l = 91 :: join (page rows);
  sh_count : ls_count l = zlen (page rows);
  sh_error : ls_error l = false;
  sh_matched : needs_every_row f = true -> ls_matched l = zlen (selected rows) }.

Lemma list_append_ok data l : exists cap, list_append realloc_ok data l = (true, mkList (ls_buf l ++ data) cap (ls_count l) (ls_matched l) (ls_error l)).
Proof using realloc_grants. unfold list_append. destruct (_ >? ls_cap l); [rewrite realloc_grants|]; by eexists. Qed.

Lemma list_emit_ok value l pg :
  ls_buf l = 91 :: join pg -> ls_count l = zlen pg ->
  exists cap, list_emit realloc_ok value l = mkList (91 :: join (pg ++ [value])) cap (zlen (pg ++ [value])) (ls_matched l) (ls_error l).
Proof using realloc_grants.
  intros Hb Hc. unfold list_emit. rewrite join_snoc. destruct pg as [|p pg].
  - rewrite Hc. change (zlen (@nil bytes) >? 0) with false. cbn iota. cbn [negb]. destruct (list_append_ok value l) as [cap ->]. cbn [negb ls_buf ls_cap ls_count ls_matched ls_error].
    exists cap. rewrite Hb, Hc. done.
  - assert (zlen (p :: pg) > 0) as Hpos by zl. rewrite Hc. destruct (Z.gtb_spec (zlen (p :: pg)) 0); [|lia].
    destruct (list_append_ok [44] l) as [cap1 ->]. cbn [negb]. destruct (list_append_ok value (mkList (ls_buf l ++ [44]) cap1 (ls_count l) (ls_matched l) (ls_error l))) as [cap2 ->].
    cbn [negb ls_buf ls_cap ls_count ls_matched ls_error]. exists cap2. rewrite Hb, Hc, zlen_app. f_equal. rewrite <- app_assoc. done.
Qed.

Lemma selected_snoc rows v : selected (rows ++ [v]) = if list_row_matches f v then selected rows ++ [v] else selected rows.
Proof using. unfold selected. rewrite List.filter_app. cbn. destruct (list_row_matches f v); [done|]. by rewrite app_nil_r. Qed.

Lemma list_consider_shows rows value l :
  needs_every_row f = true -> shows rows l -> shows (rows ++ [value]) (list_consider_row realloc_ok f value l).
Proof using realloc_grants offset_ok.
  intros Hn [Hb Hc He Hm]. specialize (Hm Hn). unfold list_consider_row. pose proof (selected_snoc rows value) as Hs.
  destruct (list_row_matches f value) eqn:Em; cbn [negb].
  2:{ constructor; unfold page; rewrite ?Hs; done. }
  assert (page (rows ++ [value]) = if zlen (selected rows) <? filter_offset f then page rows else
    if (filter_limit f >=? 0) && (zlen (page rows) >=? filter_limit f) then page rows else page rows ++ [value]) as Hp
    by (unfold page; rewrite Hs; by apply window_snoc).
  rewrite Hm. cbn [ls_count]. rewrite Hc. destruct (zlen (selected rows) <? filter_offset f).
  { constructor; rewrite ?Hp; cbn; try done. intros _. by rewrite Hs, zlen_app. }
  destruct ((filter_limit f >=? 0) && (zlen (page rows) >=? filter_limit f)).
  { constructor; rewrite ?Hp; cbn; try done. intros _. by rewrite Hs, zlen_app. }
  destruct (list_emit_ok value (mkList (ls_buf l) (ls_cap l) (zlen (page rows)) (zlen (selected rows) + 1) (ls_error l)) (page rows) Hb eq_refl) as [cap ->].
  constructor; rewrite ?Hp; cbn; try done. intros _. by rewrite Hs, zlen_app.
Qed.

Lemma page_nil : 0 <= filter_offset f -> page [] = [].
Proof using.
  clear. intros Ho. unfold page, window. change (selected []) with (@nil bytes). rewrite zdrop_all by zl.
  destruct (_ >=? 0); [|done]. unfold ztake. by rewrite take_nil.
Qed.

Lemma unfiltered_selected rows : needs_every_row f = false -> selected rows = rows.
Proof using.
  unfold needs_every_row, selected, list_row_matches. destruct (completed_filter f), (filter_q f); try done. intros _.
  induction rows as [|r rows IH]; [done|]. cbn in IH |- *. by rewrite IH.
Qed.
End pages.

Section service.
Context (gzip : bytes -> option bytes) (server_name : bytes) (now : Z).
Context {D : Type} `{KvStoreLaws D} {C A : Type} `{TodoCacheLaws C A}.

(** The service's state holds the todos [T], with the owner index and the cache in step. *)
Record service (t : todos D C) (T : gmap Z todo) : Prop := {
  sv_db : kv_ok (td_db t);
  sv_rows : todo_repr (kv_abs (td_db t)) T (next_todo_id t) true;
  sv_ready : index_ready t = true;
  sv_cache : exists mc, tc_repr (td_cache t) mc /\ coherent mc (kv_abs (td_db t)) }.

(** The rows of the database are the todos [T], whatever the state of the index,
    of the id counter and of the texts in the cache: what failures of single
    calls leave of [service]. *)
Record stored (t : todos D C) (T : gmap Z todo) : Prop := {
  st_db : kv_ok (td_db t);
  st_rows : todo_repr (kv_abs (td_db t)) T UINT64_MAX false;
  st_next : 0 <= next_todo_id t <= UINT64_MAX;
  st_cache : exists mc, tc_repr (td_cache t) mc /\ cached mc T }.

Lemma service_stored t T : service t T -> stored t T.
Proof using.
  intros [Hok Hr _ (mc & Hc & Hco)]. pose proof (tr_next _ _ _ _ Hr). constructor; [done|eapply repr_weaken; [done|lia]|done|].
  exists mc. split; [done|]. by eapply coherent_cached.
Qed.

(** How far the store's counters have moved. *)
Definition no_faults (t t' : todos D C) : Prop := kv_faults (td_db t') = kv_faults (td_db t).
Definition not_torn (t t' : todos D C) : Prop := kv_torn (td_db t') = kv_torn (td_db t).

(** Every key that is neither a row nor an index entry keeps its value. *)
Definition others_kept (t t' : todos D C) : Prop :=
  forall k, todo_row_key_parse k = None -> todo_index_key_parse k = None -> kv_abs (td_db t') !! k = kv_abs (td_db t) !! k.

Lemma others_same t t' : kv_abs (td_db t') = kv_abs (td_db t) -> others_kept t t'.
Proof using. intros E k _ _. by rewrite E. Qed.
Lemma others_rows t t' id v : u64_range id -> kv_abs (td_db t') = <[dec id := v]> (kv_abs (td_db t)) -> others_kept t t'.
Proof using. intros Hid E k K1 K2. rewrite E, lookup_insert_ne; [done|]. by eapply not_row_key. Qed.
Lemma others_created t t' u id v : u64_range u -> u64_range id ->
  kv_abs (td_db t') = <[index_text u id := []]> (<[dec id := v]> (kv_abs (td_db t))) -> others_kept t t'.
Proof using. intros Hu Hid E k K1 K2. rewrite E, !lookup_insert_ne; [done|by eapply not_row_key|by eapply not_index_key]. Qed.

Lemma finish h d : kv_ok d -> kv_live h d ->
  kv_ok (kv_free h (kv_commit h d)) /\ kv_abs (kv_free h (kv_commit h d)) = kv_abs d.
Proof using.
  intros Hok Hl. destruct (kv_commit_law h d Hok Hl) as [Hok3 Ha3]. destruct (kv_free_law h _ Hok3) as [Hok4 Ha4]. split; [done|congruence].
Qed.
Lemma finish_mono h d : kv_le d (kv_free h (kv_commit h d)).
Proof using. etrans; [apply kv_commit_mono|apply kv_free_mono]. Qed.
Lemma finish_abort h d : kv_ok d -> kv_live h d ->
  kv_ok (kv_free h (kv_abort h d)) /\ kv_abs (kv_free h (kv_abort h d)) = kv_abs d.
Proof using.
  intros Hok Hl. destruct (kv_abort_law h d Hok Hl) as [Hok3 Ha3]. destruct (kv_free_law h _ Hok3) as [Hok4 Ha4]. split; [done|congruence].
Qed.
Lemma finish_abort_mono h d : kv_le d (kv_free h (kv_abort h d)).
Proof using. etrans; [apply kv_abort_mono|apply kv_free_mono]. Qed.

(** A search on a store where rows are at most [MAX_VALUE_SIZE] bytes. *)
Lemma search_row h key d ready T next id rc v n d' :
  kv_ok d -> kv_live h d -> todo_repr (kv_abs d) T next ready -> todo_row_key_parse key = Some id ->
  kv_search h key MAX_VALUE_SIZE d = (rc, v, n, d') ->
  kv_ok d' /\ kv_live h d' /\ kv_abs d' = kv_abs d /\ kv_le d d' /\
  ((exists x, at_key T key id = Some x /\ rc = 0 /\ ztake (if n >? MAX_VALUE_SIZE then MAX_VALUE_SIZE else n) v = row_text id x) \/
   rc <> 0 /\ (at_key T key id = None \/ kv_faults d < kv_faults d')).
Proof using.
  intros Hok Hl Hr Hk Es. ghost_after (kv_search_mono h key MAX_VALUE_SIZE d) Es.
  destruct (kv_search_law _ _ _ _ _ _ _ _ Hok Hl Es) as (Hok2 & Hl2 & Ha2 & Hv). split_and!; try done.
  pose proof (key_row _ _ _ _ _ _ Hr Hk) as Hrow. destruct Hv as [(-> & y & Hy & -> & ->)|[Hrc Hv]].
  - left. rewrite Hrow in Hy. destruct (at_key T key id) as [x|] eqn:Ex; [|done]. apply at_key_some in Ex as [-> HT].
    destruct (tr_ok _ _ _ _ Hr _ _ HT) as [Hx _]. exists x. split_and!; try done. cbn in Hy. apply (inj Some) in Hy as <-.
    rewrite value_cut. by apply row_cut.
  - right. split; [done|]. destruct Hv as [Hv|Hv]; [left|by right]. rewrite Hrow in Hv. by destruct (at_key T key id).
Qed.

(** ** Reading *)
Definition shown (id : Z) (x : option todo) (conn : connection) : Z * connection :=
  match x with
  | Some x => if todo_owner x =? auth_user_id conn then send_json_response gzip server_name now HTTP_OK (row_text id x) conn
              else fail_response gzip server_name now HTTP_NOT_FOUND (str "Todo not found") conn
  | None => fail_response gzip server_name now HTTP_NOT_FOUND (str "Todo not found") conn
  end.

Lemma reveal_row id x conn : todo_ok id x -> reveal gzip server_name now (row_text id x) conn = shown id (Some x) conn.
Proof using.
  intros Hx. unfold reveal, shown. rewrite row_owned by done. destruct (todo_owner x =? auth_user_id conn); cbn [negb]; [|done].
  by rewrite nonzero_cstr by by apply row_text_chars.
Qed.

Lemma coherent_insert mc mc' m k v :
  coherent mc m -> m !! k = Some v -> is_Some (todo_row_key_parse k) -> mc' ⊆ <[k := v]> mc -> coherent mc' m.
Proof using.
  intros Hc Hm Hk Hs j x Hj. apply (lookup_weaken _ _ _ _ Hj) in Hs.
  destruct (decide (j = k)) as [->|Hne]; [rewrite lookup_insert_eq in Hs; by injection Hs as <-|rewrite lookup_insert_ne in Hs by done; by apply Hc].
Qed.

Lemma extract_id_parse uri size key id : extract_id uri size = Some (key, id) -> todo_row_key_parse key = Some id.
Proof using.
  clear. unfold extract_id. destruct (negb (starts_with TODO_ITEM_PREFIX uri)); [done|]. intros (out & _ & E)%bind_Some.
  destruct (zlen out =? 0); [done|]. apply bind_Some in E as (i & Hi & [= <- <-]). done.
Qed.

(** The database holds the same pairs; the counters may have moved. *)
Record same_pairs (t t' : todos D C) : Prop := {
  sp_ok : kv_ok (td_db t');
  sp_abs : kv_abs (td_db t') = kv_abs (td_db t);
  sp_next : next_todo_id t' = next_todo_id t;
  sp_ready : index_ready t' = index_ready t }.

Abbreviation no_memory := (fail_response gzip server_name now HTTP_INTERNAL_SERVER_ERROR (str "Transaction failed")).
Abbreviation not_found := (fail_response gzip server_name now HTTP_NOT_FOUND (str "Todo not found")).

(** A read: from the cache what it holds; otherwise the stored row, unless a
    call of the store failed. *)
Lemma todo_get_effect a conn t T next ready mc key id r t' :
  kv_ok (td_db t) -> todo_repr (kv_abs (td_db t)) T next ready -> tc_repr (td_cache t) mc -> tc_fresh a (td_cache t) ->
  extract_id (req_uri (conn_request conn)) TODO_KEY_MAX = Some (key, id) ->
  todo_get_handler gzip server_name now a conn t = (r, t') ->
  same_pairs t t' /\ kv_le (td_db t) (td_db t') /\
  (exists mc', tc_repr (td_cache t') mc' /\ (mc' = mc \/ exists x, at_key T key id = Some x /\ mc' ⊆ <[key := row_text id x]> mc)) /\
  match mc !! key with
  | Some v => r = reveal gzip server_name now (ztake MAX_VALUE_SIZE v) conn
  | None => r = shown id (at_key T key id) conn \/ kv_faults (td_db t) < kv_faults (td_db t') /\ (r = no_memory conn \/ r = not_found conn)
  end.
Proof using.
  intros Hok Hr Hc Hf He. pose proof (extract_id_parse _ _ _ _ He) as Hk. unfold todo_get_handler. rewrite He.
  destruct (tc_get key MAX_VALUE_SIZE (td_cache t)) as [g c1] eqn:Eg.
  destruct (tc_get_law _ _ _ _ _ _ Hc Eg) as (Hc1 & -> & Hg & Hfr).
  destruct (mc !! key) as [v|] eqn:Ev; cbn [fmap option_fmap option_map].
  { intros [<- <-]%pair_equal_spec. split_and!; [by constructor|done|by exists mc; auto|]. by rewrite value_cut. }
  destruct (kv_begin (td_db t)) as [o d1] eqn:Eb. destruct (kv_begin_law _ _ _ Hok Eb) as (Hok1 & Ha1 & Hl1). ghost_after (kv_begin_mono (td_db t)) Eb.
  destruct o as [h|]; [|intros [<- <-]%pair_equal_spec; split_and!; [by constructor|done|by exists mc; auto|right; auto]].
  destruct (kv_search h key MAX_VALUE_SIZE d1) as [[[rc v] n] d2] eqn:Es. rewrite <- Ha1 in Hr.
  destruct (search_row _ _ _ _ _ _ _ _ _ _ _ Hok1 Hl1 Hr Hk Es) as (Hok2 & Hl2 & Ha2 & Hm2 & Hres).
  destruct (finish h d2 Hok2 Hl2) as [Hok3 Ha3]. pose proof (finish_mono h d2) as Hm3. set (d3 := kv_free h (kv_commit h d2)) in *. clearbody d3.
  assert (kv_abs d3 = kv_abs (td_db t)) as Ha by congruence. assert (kv_le (td_db t) d3) as Hle by ghosts.
  destruct Hres as [(x & Hx & -> & ->)|[Hrc Hres]].
  - cbn [negb Z.eqb]. destruct (tc_fill a key (row_text id x) (tc_generation c1) c1) as [r2 c2] eqn:Ef.
    destruct (tc_fill_law _ _ _ _ _ _ _ _ Hc1 (Hfr a Hf) Ef) as (mc2 & Hc2 & Hm4). intros [<- <-]%pair_equal_spec.
    split_and!; [by constructor|done| |].
    + exists mc2. split; [done|]. destruct Hm4 as [->|[Hm4 _]]; [by left|right; by exists x].
    + left. rewrite Hx. apply reveal_row. apply at_key_some in Hx as [_ HT]. by destruct (tr_ok _ _ _ _ Hr _ _ HT).
  - rewrite (proj2 (Z.eqb_neq rc 0) Hrc). cbn [negb]. intros [<- <-]%pair_equal_spec.
    split_and!; [by constructor|done|by exists mc; auto|]. destruct Hres as [->|Hft]; [by left|right]. split; [cbn; ghosts|by right].
Qed.

(** No row changed: the same todos. *)
Lemma service_kept t t' T :
  service t T -> same_pairs t t' -> (exists mc, tc_repr (td_cache t') mc /\ coherent mc (kv_abs (td_db t))) -> service t' T.
Proof using. intros [Q1 Q2 Q3 Q4] [P1 P2 P3 P4] Hc. constructor; rewrite ?P2, ?P3, ?P4; done. Qed.
Lemma service_same t t' T :
  service t T -> kv_ok (td_db t') -> kv_abs (td_db t') = kv_abs (td_db t) -> td_cache t' = td_cache t ->
  next_todo_id t' = next_todo_id t -> index_ready t' = index_ready t -> service t' T.
Proof using. intros Hs Hok Ha Hc Hn Hr. eapply service_kept; [exact Hs|by constructor|]. rewrite Hc. apply Hs. Qed.
Lemma stored_kept t t' T :
  stored t T -> same_pairs t t' -> (exists mc, tc_repr (td_cache t') mc /\ cached mc T) -> stored t' T.
Proof using. intros [Q1 Q2 Q3 Q4] [P1 P2 P3 P4] Hc. constructor; rewrite ?P2, ?P3; done. Qed.
Lemma stored_same t t' T : stored t T -> same_pairs t t' -> td_cache t' = td_cache t -> stored t' T.
Proof using. intros Hs Hp Hc. eapply stored_kept; [done|done|]. rewrite Hc. apply Hs. Qed.

Lemma todo_get_spec a conn t T key id r t' :
  service t T -> tc_fresh a (td_cache t) -> extract_id (req_uri (conn_request conn)) TODO_KEY_MAX = Some (key, id) ->
  todo_get_handler gzip server_name now a conn t = (r, t') ->
  service t' T /\ others_kept t t' /\
  (r = shown id (at_key T key id) conn \/ kv_faults (td_db t) < kv_faults (td_db t') /\ (r = no_memory conn \/ r = not_found conn)).
Proof using.
  intros Hs Hf He E. destruct (sv_cache _ _ Hs) as (mc & Hc & Hco). pose proof (sv_rows _ _ Hs) as Hr.
  pose proof (extract_id_parse _ _ _ _ He) as Hk. pose proof (key_row _ _ _ _ _ _ Hr Hk) as Hrow.
  destruct (todo_get_effect _ _ _ _ _ _ _ _ _ _ _ (sv_db _ _ Hs) Hr Hc Hf He E) as (Hp & Hle & (mc' & Hc' & Hm) & Hres). split_and!.
  - eapply service_kept; [exact Hs|exact Hp|]. exists mc'. split; [done|]. destruct Hm as [->|(x & Hx & Hm)]; [done|].
    eapply coherent_insert; [exact Hco|by rewrite Hrow, Hx|by eexists|exact Hm].
  - apply others_same, Hp.
  - destruct (mc !! key) as [v|] eqn:Ev; [left|exact Hres]. destruct (Hco _ _ Ev) as [Hv _]. rewrite Hrow in Hv.
    destruct (at_key T key id) as [x|] eqn:Ex; [|done]. cbn [fmap option_fmap option_map] in Hv. apply (inj Some) in Hv as <-.
    apply at_key_some in Ex as [_ HT]. destruct (tr_ok _ _ _ _ Hr _ _ HT) as [Hx _]. rewrite Hres, row_cut by done. by apply reveal_row.
Qed.

Lemma todo_get_stored a conn t T r t' :
  stored t T -> tc_fresh a (td_cache t) -> todo_get_handler gzip server_name now a conn t = (r, t') ->
  stored t' T /\ others_kept t t' /\ kv_le (td_db t) (td_db t').
Proof using.
  intros Hs Hf E. destruct (extract_id (req_uri (conn_request conn)) TODO_KEY_MAX) as [[key id]|] eqn:He; cycle 1.
  { unfold todo_get_handler in E. rewrite He in E. apply pair_equal_spec in E as [_ <-]. done. }
  destruct (st_cache _ _ Hs) as (mc & Hc & Hca). pose proof (st_rows _ _ Hs) as Hr.
  destruct (todo_get_effect _ _ _ _ _ _ _ _ _ _ _ (st_db _ _ Hs) Hr Hc Hf He E) as (Hp & Hle & (mc' & Hc' & Hm) & _). split_and!; [|apply others_same, Hp|done].
  eapply stored_kept; [exact Hs|exact Hp|]. exists mc'. split; [done|]. destruct Hm as [->|(x & [-> HT]%at_key_some & Hm)]; [done|].
  rewrite <- (insert_id T id x HT). destruct (tr_ok _ _ _ _ Hr _ _ HT) as [Hx _]. eapply cached_put; [exact Hca|done|congruence|exact Hm].
Qed.

(** ** Creating *)
Lemma coherent_new mc m id u v :
  coherent mc m -> u64_range id -> m !! dec id = None -> coherent mc (<[index_text u id := []]> (<[dec id := v]> m)).
Proof using.
  clear. intros Hc Hid Hn k x Hk. destruct (Hc k x Hk) as [Hm Hp]. split; [|done].
  rewrite lookup_insert_ne by (intros <-; rewrite index_text_not_row in Hp; by destruct Hp).
  rewrite lookup_insert_ne; [done|]. intros <-. congruence.
Qed.

(** What a creation has stored under its key and its index entry. *)
Definition created (ready : bool) (key idx value : bytes) (m m' : gmap bytes bytes) : Prop :=
  m !! key = None /\ if ready then m !! idx = None /\ m' = <[idx := []]> (<[key := value]> m) else m' = <[key := value]> m.
(** Why it stored nothing, or a row without an entry. *)
Definition not_created (ready : bool) (key idx value : bytes) (m m' : gmap bytes bytes) (fault : Prop) : Prop :=
  m' = m /\ (fault \/ is_Some (m !! key) \/ ready = true /\ is_Some (m !! idx)) \/ fault /\ m !! key = None /\ m' = <[key := value]> m.

Lemma create_insert_effect key value uid id (t : todos D C) r t' :
  let idx := index_text uid id in
  kv_ok (td_db t) -> storable key value -> u64_range uid -> u64_range id -> key <> idx ->
  todo_create_insert key value uid id t = (r, t') ->
  td_cache t' = td_cache t /\ next_todo_id t' = next_todo_id t /\ index_ready t' = index_ready t /\ kv_le (td_db t) (td_db t') /\
  (r <> Some 0 /\ r <> None /\ kv_torn (td_db t) < kv_torn (td_db t') /\ kv_faults (td_db t) < kv_faults (td_db t') \/
   kv_ok (td_db t') /\
   (r = Some 0 /\ created (index_ready t) key idx value (kv_abs (td_db t)) (kv_abs (td_db t')) \/
    r = None /\ kv_abs (td_db t') = kv_abs (td_db t) /\ kv_faults (td_db t) < kv_faults (td_db t') \/
    r <> Some 0 /\ r <> None /\
      not_created (index_ready t) key idx value (kv_abs (td_db t)) (kv_abs (td_db t')) (kv_faults (td_db t) < kv_faults (td_db t')))).
Proof using.
  intros idx Hok Hst Hu Hid Hne. unfold todo_create_insert. destruct (kv_begin (td_db t)) as [o d1] eqn:Eb.
  destruct (kv_begin_law _ _ _ Hok Eb) as (Hok1 & Ha1 & Hl1). ghost_after (kv_begin_mono (td_db t)) Eb. rewrite <- Ha1.
  destruct o as [h|]; [|intros [<- <-]%pair_equal_spec; split_and!; try done; right; split; [done|]; right; by left].
  destruct (kv_insert h key value d1) as [rc d2] eqn:Ei. ghost_after (kv_insert_mono h key value d1) Ei.
  pose proof (kv_insert_law _ _ _ _ _ _ Hok1 Hl1 Hst Ei) as Hins. unfold created, not_created.
  destruct (kv_abs d1 !! key) as [x|] eqn:Ek.
  { destruct Hins as (Hrc & Hok2 & Hl2 & Ha2). rewrite (proj2 (Z.eqb_neq rc 0) Hrc). cbn [andb]. intros [<- <-]%pair_equal_spec.
    destruct (finish h d2 Hok2 Hl2) as [Hok3 Ha3]. pose proof (finish_mono h d2). cbn [td_cache next_todo_id index_ready td_db]. split_and!; try done; [ghosts|].
    right. split; [done|]. right. right. split_and!; [congruence|done|]. left. split; [congruence|]. right. left. by eexists. }
  destruct Hins as [(-> & Hok2 & Hl2 & Ha2)|(Hrc & Hft & Htn)]; cycle 1.
  { rewrite (proj2 (Z.eqb_neq rc 0) Hrc). cbn [andb]. intros [<- <-]%pair_equal_spec. pose proof (finish_mono h d2).
    cbn [td_cache next_todo_id index_ready td_db]. split_and!; try done; [ghosts|]. left. split_and!; [congruence|done|ghosts|ghosts]. }
  cbn [Z.eqb andb]. destruct (index_ready t) eqn:Erd; cycle 1.
  { intros [<- <-]%pair_equal_spec. destruct (finish h d2 Hok2 Hl2) as [Hok3 Ha3]. pose proof (finish_mono h d2).
    cbn [td_cache next_todo_id index_ready td_db]. split_and!; try done; [ghosts|]. right. split; [done|]. left. split_and!; [done|done|congruence]. }
  unfold todo_index_insert. rewrite todo_index_key_some by done. fold idx.
  destruct (kv_insert h idx [] d2) as [irc d3] eqn:Ej. ghost_after (kv_insert_mono h idx [] d2) Ej.
  pose proof (kv_insert_law _ _ _ _ _ _ Hok2 Hl2 (index_storable _ _ Hu Hid) Ej) as Hinx. fold idx in Hinx. rewrite Ha2, lookup_insert_ne in Hinx by done.
  assert (forall rest d4, kv_delete h key d3 = (rest, d4) -> kv_le d3 d4) as Hdm by (intros rest d4 Ed; ghost_after (kv_delete_mono h key d3) Ed; done).
  destruct (kv_abs d1 !! idx) as [y|] eqn:Ey.
  - destruct Hinx as (Hrc & Hok3 & Hl3 & Ha3). rewrite (proj2 (Z.eqb_neq irc 0) Hrc). cbn [negb].
    destruct (kv_delete h key d3) as [drc d4] eqn:Ed. intros [<- <-]%pair_equal_spec. specialize (Hdm _ _ eq_refl).
    destruct (kv_delete_law _ _ _ _ _ Hok3 Hl3 Ed) as (Hok4 & Hl4 & Hd). destruct (finish h d4 Hok4 Hl4) as [Hok5 Ha5]. pose proof (finish_mono h d4).
    cbn [td_cache next_todo_id index_ready td_db]. split_and!; try done; [ghosts|]. right. split; [done|]. right. right. split_and!; [done|done|].
    rewrite Ha3 in Hd. destruct Hd as [(_ & _ & Hd)|(_ & Hd & Hw)].
    + left. split; [rewrite Ha5, Hd; by apply delete_insert_id|]. right. right. split; [done|by eexists].
    + rewrite lookup_insert_eq in Hw. destruct Hw as [?|Hw]; [done|]. right. split_and!; [ghosts|done|congruence].
  - destruct Hinx as [(-> & Hok3 & Hl3 & Ha3)|(Hrc & Hft & Htn)].
    + cbn [negb Z.eqb]. intros [<- <-]%pair_equal_spec. destruct (finish h d3 Hok3 Hl3) as [Hok5 Ha5]. pose proof (finish_mono h d3).
      cbn [td_cache next_todo_id index_ready td_db]. split_and!; try done; [ghosts|]. right. split; [done|]. left. split_and!; try done. by rewrite Ha5, Ha3.
    + rewrite (proj2 (Z.eqb_neq irc 0) Hrc). cbn [negb]. destruct (kv_delete h key d3) as [drc d4] eqn:Ed. intros [<- <-]%pair_equal_spec.
      specialize (Hdm _ _ eq_refl). pose proof (finish_mono h d4). cbn [td_cache next_todo_id index_ready td_db]. split_and!; try done; [ghosts|].
      left. split_and!; [done|done|ghosts|ghosts].
Qed.

Abbreviation too_large := (fail_response gzip server_name now HTTP_PAYLOAD_TOO_LARGE (str "Todo too large")).
Abbreviation insert_failed := (fail_response gzip server_name now HTTP_INTERNAL_SERVER_ERROR (str "Insert failed")).

(** What [tc_put] leaves of the cache: at most the new entry is added; a copy
    that cannot be allocated leaves it as it was. *)
Definition published (a : A) (k v : bytes) (mc : gmap bytes bytes) (c' : C) : Prop :=
  exists mc', tc_repr c' mc' /\ (mc' ⊆ <[k := v]> mc \/ mc' = mc /\ ~ tc_granted a).

Lemma todo_create_effect a conn t mc title completed r t' :
  let id := next_todo_id t in
  let x := mkTodo (auth_user_id conn) title completed in
  let idx := index_text (auth_user_id conn) id in
  let fault := kv_faults (td_db t) < kv_faults (td_db t') in
  let m := kv_abs (td_db t) in
  let m' := kv_abs (td_db t') in
  kv_ok (td_db t) -> tc_repr (td_cache t) mc -> tc_fresh a (td_cache t) -> 0 <= id < UINT64_MAX -> u64_range (auth_user_id conn) ->
  todo_body (conn_request conn) = inr (title, completed) -> Forall is_byte title ->
  todo_create_handler gzip server_name now a conn t = (r, t') ->
  next_todo_id t' = id + 1 /\ index_ready t' = index_ready t /\ kv_le (td_db t) (td_db t') /\
  if zlen (row_text id x) <? MAX_VALUE_SIZE then
    r = insert_failed conn /\ kv_torn (td_db t) < kv_torn (td_db t') /\ fault \/
    kv_ok (td_db t') /\
    (r = send_json_response gzip server_name now HTTP_CREATED (row_text id x) conn /\
       created (index_ready t) (dec id) idx (row_text id x) m m' /\ published a (dec id) (row_text id x) mc (td_cache t') \/
     td_cache t' = td_cache t /\
       (r = no_memory conn /\ m' = m /\ fault \/ r = insert_failed conn /\ not_created (index_ready t) (dec id) idx (row_text id x) m m' fault))
  else r = too_large conn /\ kv_ok (td_db t') /\ m' = m /\ td_cache t' = td_cache t.
Proof using.
  intros id x idx fault m m' Hok Hc Hf Hid Hu Hb Ht. assert (u64_range id) as Hidr by (split; lia).
  unfold todo_create_handler, todo_create_store. rewrite Hb. fold id. rewrite u64_small by lia.
  destruct (dec_key_spec id Hidr) as (-> & Hparse & _). rewrite build_todo_json_spec. fold x.
  destruct (Z.ltb_spec (zlen (row_text id x)) MAX_VALUE_SIZE) as [Hlt|Hge]; [|by intros [<- <-]%pair_equal_spec].
  assert (todo_ok id x) as Hx by (by constructor).
  destruct (todo_create_insert (dec id) (row_text id x) (auth_user_id conn) id _) as [o t1] eqn:Ei.
  destruct (create_insert_effect _ _ _ _ (mkTodos (td_db t) (td_cache t) (id + 1) (index_ready t)) _ _ Hok (row_storable id x Hx) Hu Hidr (dec_not_index id (auth_user_id conn) id Hidr) Ei)
    as (E1 & E2 & E3 & Hle & Hres). cbn [td_cache next_todo_id index_ready td_db] in E1, E2, E3, Hle, Hres. fold idx in Hres. fold m in Hres.
  destruct o as [rc|].
  2:{ intros [<- <-]%pair_equal_spec. split_and!; [done|done|done|]. destruct Hres as [(_ & ? & _)|(Hok' & [[? _]|[Hres|(_ & ? & _)]])]; try done.
      right. split; [done|]. right. split; [done|]. left. destruct Hres as (_ & ? & ?). done. }
  destruct (Z.eqb_spec rc 0) as [->|Hrc]; cbn [negb].
  - unfold todo_create_publish. destruct (tc_put a (dec id) (row_text id x) (td_cache t1)) as [pr c'] eqn:Ep. rewrite E1 in Ep.
    intros [<- <-]%pair_equal_spec. cbn [set_cache next_todo_id index_ready td_db td_cache]. split_and!; [done|done|done|].
    destruct Hres as [(? & _)|(Hok' & [[_ Hres]|[[? _]|[? _]]])]; try done. right. split; [done|]. left. split_and!; [done|done|].
    destruct (tc_put_law _ _ _ _ _ _ _ Hc Hf Ep) as (mc' & Hc' & Hm'). by exists mc'.
  - intros [<- <-]%pair_equal_spec. split_and!; [done|done|done|]. destruct Hres as [(_ & _ & ? & ?)|(Hok' & Hres)]; [by left|right].
    split; [done|]. right. split; [done|]. right. split; [done|].
    destruct Hres as [[? _]|[[? _]|(_ & _ & Hres)]]; [congruence|done|exact Hres].
Qed.

Lemma create_body_missing a conn (t : todos D C) msg :
  todo_body (conn_request conn) = inl msg ->
  todo_create_handler gzip server_name now a conn t = (fail_response gzip server_name now HTTP_BAD_REQUEST msg conn, t).
Proof using. intros Hb. unfold todo_create_handler, todo_create_store. by rewrite Hb. Qed.

Lemma created_rows ready key u id x m m' :
  u64_range u -> u64_range id -> created ready key (index_text u id) (row_text id x) m m' -> rest_kept (<[key := row_text id x]> m) m'.
Proof using. intros Hu Hid [_ Hm]. destruct ready; [destruct Hm as [_ ->]; by apply rest_insert_index|by rewrite Hm]. Qed.

(** Creation, whatever fails: 201 is answered only for a row that is stored; no
    other row changes, and a 500 may leave the new row without its entry. *)
Lemma todo_create_stored a conn t T title completed r t' :
  let id := next_todo_id t in
  let x := mkTodo (auth_user_id conn) title completed in
  stored t T -> tc_fresh a (td_cache t) -> id < UINT64_MAX -> u64_range (auth_user_id conn) ->
  todo_body (conn_request conn) = inr (title, completed) -> Forall is_byte title ->
  todo_create_handler gzip server_name now a conn t = (r, t') ->
  kv_le (td_db t) (td_db t') /\ (not_torn t t' -> others_kept t t' /\
  (r = send_json_response gzip server_name now HTTP_CREATED (row_text id x) conn /\ T !! id = None /\ stored t' (<[id := x]> T) \/
   (r = too_large conn \/ r = no_memory conn) /\ stored t' T \/
   r = insert_failed conn /\ (stored t' T \/ T !! id = None /\ stored t' (<[id := x]> T)))).
Proof using.
  intros id x Hs Hf Hid Hu Hb Ht E. destruct (st_cache _ _ Hs) as (mc & Hc & Hca). pose proof (st_next _ _ Hs) as Hn. pose proof (st_rows _ _ Hs) as Hr.
  assert (u64_range id) as Hidr by (subst id; split; lia).
  destruct (todo_create_effect a conn t mc title completed r t' (st_db _ _ Hs) Hc Hf) as (E1 & E2 & Hle & Hres); [fold id; lia|done..|].
  fold id x in E1, Hres. split; [done|]. intros Htn. unfold not_torn in Htn.
  assert (kv_abs (td_db t) !! dec id = None -> T !! id = None) as Hnew.
  { rewrite (tr_row _ _ _ _ Hr id Hidr). by destruct (T !! id). }
  assert (forall T', todo_repr (kv_abs (td_db t')) T' UINT64_MAX false -> kv_ok (td_db t') -> (exists mc', tc_repr (td_cache t') mc' /\ cached mc' T') -> stored t' T') as Hst
    by (intros T' ? ? ?; constructor; [done|done|lia|done]).
  destruct (Z.ltb_spec (zlen (row_text id x)) MAX_VALUE_SIZE) as [Hlt|Hge]; cycle 1.
  { destruct Hres as (-> & Hok' & Hm & Hcc). split; [by apply others_same|]. right. left. split; [by left|].
    apply Hst; [by rewrite Hm|done|]. rewrite Hcc. by exists mc. }
  assert (todo_ok id x) as Hx by (by constructor).
  destruct Hres as [(_ & ? & _)|(Hok' & Hres)]; [lia|].
  destruct Hres as [(-> & Hcr & mc' & Hc' & Hm')|[Hcc Hres]].
  - pose proof Hcr as [Hkn Hcr2]. specialize (Hnew Hkn). split.
    { destruct (index_ready t); [destruct Hcr2 as [_ Hcr2]; by apply (others_created t t' (auth_user_id conn) id (row_text id x))|by apply (others_rows t t' id (row_text id x))]. }
    left. split_and!; [done|done|]. apply Hst; [|done|].
    + eapply repr_rest; [eapply (repr_put _ T _ id x); [exact Hr|done|lia]|]. by apply (created_rows (index_ready t) (dec id) (auth_user_id conn) id x).
    + exists mc'. split; [done|]. destruct Hm' as [Hm'|[-> _]]; [eapply cached_put; try done; congruence|apply cached_stale; [done|congruence]].
  - assert (kv_abs (td_db t') = kv_abs (td_db t) \/ kv_abs (td_db t) !! dec id = None /\ kv_abs (td_db t') = <[dec id := row_text id x]> (kv_abs (td_db t))) as Hm.
    { destruct Hres as [(_ & ? & _)|[_ [[? _]|(_ & ? & ?)]]]; auto. }
    split; [destruct Hm as [Hm|[_ Hm]]; [by apply others_same|by eapply others_rows]|].
    right. destruct Hres as [(-> & Hsame & _)|(-> & _)].
    { left. split; [by right|]. apply Hst; [by rewrite Hsame|done|]. rewrite Hcc. by exists mc. }
    right. split; [done|]. destruct Hm as [Hm|[Hkn Hm]].
    + left. apply Hst; [by rewrite Hm|done|]. rewrite Hcc. by exists mc.
    + right. split; [by apply Hnew|]. apply Hst; [|done|].
      * rewrite Hm. apply repr_put; [done|done|lia].
      * rewrite Hcc. exists mc. split; [done|]. apply cached_stale; [done|]. rewrite (Hnew Hkn). done.
Qed.

(** Creation without a failing call. *)
Lemma todo_create_spec a conn t T title completed r t' :
  let id := next_todo_id t in
  let x := mkTodo (auth_user_id conn) title completed in
  service t T -> tc_fresh a (td_cache t) -> id < UINT64_MAX -> u64_range (auth_user_id conn) ->
  todo_body (conn_request conn) = inr (title, completed) -> Forall is_byte title ->
  todo_create_handler gzip server_name now a conn t = (r, t') ->
  T !! id = None /\ next_todo_id t' = id + 1 /\
  if zlen (row_text id x) <? MAX_VALUE_SIZE then
    kv_faults (td_db t) < kv_faults (td_db t') \/
    r = send_json_response gzip server_name now HTTP_CREATED (row_text id x) conn /\ service t' (<[id := x]> T)
  else r = too_large conn /\ service t' T.
Proof using.
  intros id x Hs Hf Hid Hu Hb Ht E. destruct (sv_cache _ _ Hs) as (mc & Hc & Hco). pose proof (sv_rows _ _ Hs) as Hr.
  pose proof (tr_next _ _ _ _ Hr) as Hn. assert (u64_range id) as Hidr by (subst id; split; lia).
  assert (T !! id = None) as Hnew.
  { destruct (T !! id) as [y|] eqn:Ey; [|done]. destruct (tr_ok _ _ _ _ Hr _ _ Ey). subst id. lia. }
  destruct (todo_create_effect a conn t mc title completed r t' (sv_db _ _ Hs) Hc Hf) as (E1 & E2 & Hle & Hres); [fold id; lia|done..|].
  fold id x in E1, Hres. split; [done|]. split; [done|]. rewrite (sv_ready _ _ Hs) in *.
  assert (todo_repr (kv_abs (td_db t)) T (id + 1) true) as Hr1.
  { destruct Hr as [R1 R2 R3 R4 R5]. constructor; try done; [|lia]. intros j y Hj. destruct (R3 j y Hj). split; [done|]. subst id. lia. }
  destruct (Z.ltb_spec (zlen (row_text id x)) MAX_VALUE_SIZE) as [Hlt|Hge]; cycle 1.
  { destruct Hres as (-> & Hok' & Hm & Hcc). split; [done|]. constructor; rewrite ?Hm, ?E1, ?Hcc; try done. by exists mc. }
  assert (todo_ok id x) as Hx by (by constructor).
  pose proof (tr_row _ _ _ _ Hr id Hidr) as Hrow. rewrite Hnew in Hrow. cbn [fmap option_fmap option_map] in Hrow.
  assert (kv_abs (td_db t) !! index_text (auth_user_id conn) id = None) as Hni.
  { apply eq_None_not_Some. rewrite (tr_index _ _ _ _ Hr eq_refl _ _ Hu Hidr). intros (y & Hy & _). congruence. }
  destruct Hres as [(_ & _ & ?)|(Hok' & Hres)]; [by left|]. destruct Hres as [(-> & [_ [_ Hm]] & mc' & Hc' & Hm')|[_ Hres]]; cycle 1.
  { left. destruct Hres as [(_ & _ & ?)|[_ [[_ [?|[Hy|[_ Hy]]]]|[? _]]]]; try done; [rewrite Hrow in Hy|rewrite Hni in Hy]; by destruct Hy. }
  right. split; [done|]. constructor; [done| |done|].
  - rewrite Hm, E1. apply (repr_insert _ _ _ id x); [exact Hr1|done|lia|done|done].
  - exists mc'. split; [done|]. rewrite Hm. pose proof (coherent_new mc _ id (auth_user_id conn) (row_text id x) Hco Hidr Hrow) as Hco2.
    destruct Hm' as [Hm'|[-> _]]; [|done]. eapply coherent_insert; [exact Hco2| |by eexists; by apply dec_key_spec|exact Hm'].
    rewrite lookup_insert_ne by (intros E0; by apply (dec_not_index id (auth_user_id conn) id Hidr)). by rewrite lookup_insert_eq.
Qed.

(** ** Changing *)
(** The todo of a key that the user owns. *)
Definition owned (uid : Z) (x : option todo) : option todo := x ← x; if todo_owner x =? uid then Some x else None.

Lemma owned_some uid T key id x : owned uid (at_key T key id) = Some x -> key = dec id /\ T !! id = Some x /\ todo_owner x = uid.
Proof using.
  unfold owned. intros (y & [-> Hy]%at_key_some & E)%bind_Some. destruct (Z.eqb_spec (todo_owner y) uid); [|done]. by injection E as <-.
Qed.

Lemma find_owned_spec h uid key id d T next ready r d' :
  kv_ok d -> kv_live h d -> todo_repr (kv_abs d) T next ready -> todo_row_key_parse key = Some id -> find_owned h uid key d = (r, d') ->
  kv_ok d' /\ kv_live h d' /\ kv_abs d' = kv_abs d /\ kv_le d d' /\
  (r = row_text id <$> owned uid (at_key T key id) \/ r = None /\ kv_faults d < kv_faults d').
Proof using.
  intros Hok Hl Hr Hk. unfold find_owned. destruct (kv_search h key MAX_VALUE_SIZE d) as [[[rc v] n] d1] eqn:Es.
  destruct (search_row _ _ _ _ _ _ _ _ _ _ _ Hok Hl Hr Hk Es) as (Hok' & Hl' & Ha' & Hle & Hres).
  destruct Hres as [(x & Ex & -> & ->)|[Hrc Hres]].
  - cbn [negb Z.eqb]. intros [= <- <-]. split_and!; try done. left. rewrite Ex. apply at_key_some in Ex as [_ HT]. destruct (tr_ok _ _ _ _ Hr _ _ HT) as [Hx _].
    rewrite row_owned by done. cbn [owned mbind option_bind]. by destruct (todo_owner x =? uid).
  - rewrite (proj2 (Z.eqb_neq rc 0) Hrc). cbn [negb]. intros [= <- <-]. split_and!; try done. destruct Hres as [->|?]; [by left|by right].
Qed.

Abbreviation update_failed := (fail_response gzip server_name now HTTP_INTERNAL_SERVER_ERROR (str "Update failed")).

(** A request on one todo that found no todo of its caller, or met a failing call. *)
Definition missed (more : Prop) (conn : connection) (x : option todo) (r : Z * connection) (t t' : todos D C) : Prop :=
  same_pairs t t' /\ td_cache t' = td_cache t /\
  (r = not_found conn /\ x = None \/
   kv_faults (td_db t) < kv_faults (td_db t') /\ (r = not_found conn \/ r = no_memory conn \/ more)).

Lemma todo_update_effect a conn t T next ready mc key id title completed r t' :
  let y := mkTodo (auth_user_id conn) title completed in
  let x := owned (auth_user_id conn) (at_key T key id) in
  kv_ok (td_db t) -> todo_repr (kv_abs (td_db t)) T next ready -> tc_repr (td_cache t) mc -> tc_fresh a (td_cache t) -> u64_range (auth_user_id conn) ->
  extract_id (req_uri (conn_request conn)) TODO_KEY_MAX = Some (key, id) ->
  todo_body (conn_request conn) = inr (title, completed) -> Forall is_byte title ->
  todo_update_handler gzip server_name now a conn t = (r, t') ->
  kv_le (td_db t) (td_db t') /\
  if negb (zlen (row_text id y) <? MAX_VALUE_SIZE) then r = too_large conn /\ t' = t
  else
    is_Some x /\ r = update_failed conn /\ kv_torn (td_db t) < kv_torn (td_db t') /\ kv_faults (td_db t) < kv_faults (td_db t') \/
    missed (r = update_failed conn) conn x r t t' \/
    is_Some x /\ r = send_json_response gzip server_name now HTTP_OK (row_text id y) conn /\ kv_ok (td_db t') /\
      next_todo_id t' = next_todo_id t /\ index_ready t' = index_ready t /\
      kv_abs (td_db t') = <[dec id := row_text id y]> (delete (dec id) (kv_abs (td_db t))) /\ published a (dec id) (row_text id y) mc (td_cache t').
Proof using.
  intros y x Hok Hr Hc Hf Hu He Hb Ht. pose proof (extract_id_parse _ _ _ _ He) as Hk. pose proof (parse_range _ _ Hk) as Hidr.
  unfold todo_update_handler. rewrite He, Hb, build_todo_json_spec. fold y.
  destruct (Z.ltb_spec (zlen (row_text id y)) MAX_VALUE_SIZE) as [Hlt|Hge]; cbn [negb]; [|by intros [<- <-]%pair_equal_spec].
  assert (todo_ok id y) as Hy by (by constructor). destruct (kv_begin (td_db t)) as [o d1] eqn:Eb.
  destruct (kv_begin_law _ _ _ Hok Eb) as (Hok1 & Ha1 & Hl1). ghost_after (kv_begin_mono (td_db t)) Eb.
  destruct o as [h|]; [|intros [<- <-]%pair_equal_spec; split; [done|]; right; left; split_and!; [by constructor|done|right; auto]].
  rewrite <- Ha1 in Hr. destruct (find_owned h (auth_user_id conn) key d1) as [o d2] eqn:Efo.
  destruct (find_owned_spec _ _ _ _ _ _ _ _ _ _ Hok1 Hl1 Hr Hk Efo) as (Hok2 & Hl2 & Ha2 & Hm2 & Hfo). fold x in Hfo. destruct o as [existing|].
  2:{ destruct (finish h d2 Hok2 Hl2) as [Hok3 Ha3]. pose proof (finish_mono h d2). intros [<- <-]%pair_equal_spec. split; [cbn; ghosts|]. right. left.
      split_and!; [constructor; cbn; congruence || done|done|]. destruct Hfo as [Hfo|[_ Hft]]; [left; split; [done|by destruct x]|right; split; [cbn; ghosts|by left]]. }
  destruct Hfo as [Hfo|[? _]]; [|done]. destruct x as [x0|] eqn:Ex; [|done]. cbn [fmap option_fmap option_map] in Hfo. apply (inj Some) in Hfo as ->.
  subst x. apply owned_some in Ex as (-> & HT & Ho).
  pose proof (tr_row _ _ _ _ Hr id Hidr) as Hrow. rewrite HT in Hrow. cbn [fmap option_fmap option_map] in Hrow.
  destruct (kv_delete h (dec id) d2) as [rc d3] eqn:Ed. ghost_after (kv_delete_mono h (dec id) d2) Ed.
  destruct (kv_delete_law _ _ _ _ _ Hok2 Hl2 Ed) as (Hok3 & Hl3 & [(-> & _ & Ha3)|(Hrc & Ha3 & Hw)]); cycle 1.
  { rewrite !(proj2 (Z.eqb_neq rc 0) Hrc). cbn [negb]. rewrite Ha2, Hrow in Hw. destruct Hw as [?|Hw]; [done|].
    destruct (finish_abort h d3 Hok3 Hl3) as [Hok4 Ha4]. pose proof (finish_abort_mono h d3). intros [<- <-]%pair_equal_spec. split; [cbn; ghosts|]. right. left.
    split_and!; [constructor; cbn; congruence || done|done|]. right. split; [cbn; ghosts|auto]. }
  cbn [Z.eqb]. destruct (kv_insert h (dec id) (row_text id y) d3) as [rc d4] eqn:Ei. ghost_after (kv_insert_mono h (dec id) (row_text id y) d3) Ei.
  pose proof (kv_insert_law _ _ _ _ _ _ Hok3 Hl3 (row_storable id y Hy) Ei) as Hins. rewrite Ha3, lookup_delete_eq in Hins.
  destruct Hins as [(-> & Hok4 & Hl4 & Ha4)|(Hrc & Hft & Htn)]; cycle 1.
  { rewrite (proj2 (Z.eqb_neq rc 0) Hrc). cbn [negb]. destruct (kv_insert h (dec id) (row_text id x0) d4) as [back d5] eqn:Ej.
    ghost_after (kv_insert_mono h (dec id) (row_text id x0) d4) Ej. rewrite (proj2 (Z.eqb_neq rc 0) Hrc). cbn [negb]. pose proof (finish_abort_mono h d5).
    intros [<- <-]%pair_equal_spec. split; [cbn; ghosts|]. left. split_and!; [by eexists|done|cbn; ghosts|cbn; ghosts]. }
  cbn [negb Z.eqb]. destruct (tc_put a (dec id) (row_text id y) (td_cache t)) as [pr c'] eqn:Ep.
  destruct (tc_put_law _ _ _ _ _ _ _ Hc Hf Ep) as (mc' & Hc' & Hm'). destruct (finish h d4 Hok4 Hl4) as [Hok5 Ha5]. pose proof (finish_mono h d4).
  intros [<- <-]%pair_equal_spec. split; [cbn; ghosts|]. right. right. cbn [set_db set_cache td_db td_cache next_todo_id index_ready].
  split_and!; try done; [by rewrite Ha5, Ha4, Ha2, Ha1|by exists mc'].
Qed.

Lemma todo_update_stored a conn t T key id title completed r t' :
  let y := mkTodo (auth_user_id conn) title completed in
  stored t T -> tc_fresh a (td_cache t) -> u64_range (auth_user_id conn) ->
  extract_id (req_uri (conn_request conn)) TODO_KEY_MAX = Some (key, id) ->
  todo_body (conn_request conn) = inr (title, completed) -> Forall is_byte title ->
  todo_update_handler gzip server_name now a conn t = (r, t') ->
  kv_le (td_db t) (td_db t') /\ (not_torn t t' -> others_kept t t' /\
  (is_Some (owned (auth_user_id conn) (at_key T key id)) /\
     r = send_json_response gzip server_name now HTTP_OK (row_text id y) conn /\ stored t' (<[id := y]> T) \/
   (r = too_large conn \/ r = not_found conn \/ r = no_memory conn \/ r = update_failed conn) /\ stored t' T)).
Proof using.
  intros y Hs Hf Hu He Hb Ht E. destruct (st_cache _ _ Hs) as (mc & Hc & Hca). pose proof (st_rows _ _ Hs) as Hr. unfold not_torn.
  destruct (todo_update_effect _ _ _ _ _ _ _ _ _ _ _ _ _ (st_db _ _ Hs) Hr Hc Hf Hu He Hb Ht E) as [Hle Hres]. fold y in Hres. split; [done|]. intros Htn.
  destruct (Z.ltb_spec (zlen (row_text id y)) MAX_VALUE_SIZE) as [Hlt|Hge]; cbn [negb] in Hres; [|destruct Hres as [-> ->]; split; [by apply others_same|auto]].
  destruct Hres as [(_ & _ & ? & _)|[(Hp & Hcc & Hwhy)|([x Hx] & -> & Hok' & Hn' & _ & Hm & mc' & Hc' & Hm')]]; [lia| |].
  - split; [apply others_same, Hp|]. right. split; [|by eapply stored_same]. tauto.
  - pose proof (parse_range _ _ (extract_id_parse _ _ _ _ He)) as Hidr. rewrite Hx. apply owned_some in Hx as (-> & HT & Ho).
    rewrite insert_delete_eq in Hm. split; [by eapply others_rows|]. left. split_and!; [by eexists|done|].
    assert (todo_ok id y) as Hy by (by constructor). destruct (tr_ok _ _ _ _ Hr _ _ HT) as [_ Hlt2].
    assert (forall z, T !! id = Some z -> todo_owner z = todo_owner y) as Hown by (intros z Hz; rewrite HT in Hz; injection Hz as <-; exact Ho).
    constructor; [done|rewrite Hm; by apply repr_put|rewrite Hn'; apply Hs|]. exists mc'. split; [done|].
    destruct Hm' as [Hm'|[-> _]]; [by eapply cached_put|by apply cached_stale].
Qed.

Lemma todo_update_spec a conn t T key id title completed r t' :
  let y := mkTodo (auth_user_id conn) title completed in
  service t T -> tc_fresh a (td_cache t) -> u64_range (auth_user_id conn) ->
  extract_id (req_uri (conn_request conn)) TODO_KEY_MAX = Some (key, id) ->
  todo_body (conn_request conn) = inr (title, completed) -> Forall is_byte title ->
  todo_update_handler gzip server_name now a conn t = (r, t') ->
  if negb (zlen (row_text id y) <? MAX_VALUE_SIZE) then r = too_large conn /\ service t' T
  else kv_faults (td_db t) < kv_faults (td_db t') \/
    match owned (auth_user_id conn) (at_key T key id) with
    | None => r = not_found conn /\ service t' T
    | Some _ => r = send_json_response gzip server_name now HTTP_OK (row_text id y) conn /\ (tc_granted a -> service t' (<[id := y]> T))
    end.
Proof using.
  intros y Hs Hf Hu He Hb Ht E. destruct (sv_cache _ _ Hs) as (mc & Hc & Hco). pose proof (sv_rows _ _ Hs) as Hr.
  destruct (todo_update_effect _ _ _ _ _ _ _ _ _ _ _ _ _ (sv_db _ _ Hs) Hr Hc Hf Hu He Hb Ht E) as [Hle Hres]. fold y in Hres.
  destruct (Z.ltb_spec (zlen (row_text id y)) MAX_VALUE_SIZE) as [Hlt|Hge]; cbn [negb] in Hres |- *; [|by destruct Hres as [-> ->]].
  destruct Hres as [(_ & _ & _ & ?)|[(Hp & Hcc & [[-> Hx]|[? _]])|([x Hx] & -> & Hok' & Hn' & Hrd' & Hm & mc' & Hc' & Hm')]]; [by left| |by left|]; right.
  - rewrite Hx. split; [done|]. destruct Hp. by eapply service_same.
  - pose proof (parse_range _ _ (extract_id_parse _ _ _ _ He)) as Hidr. rewrite Hx. split; [done|]. intros Hg.
    apply owned_some in Hx as (-> & HT & Ho). destruct Hm' as [Hm'|[_ ?]]; [|done].
    assert (todo_ok id y) as Hy by (by constructor). constructor; [done| |rewrite Hrd'; apply Hs|].
    + rewrite Hm, Hn'. eapply repr_update; [exact Hr|exact HT|done|done].
    + exists mc'. split; [done|]. rewrite Hm. intros k v Hv. apply (lookup_weaken _ _ _ _ Hv) in Hm'.
      destruct (decide (k = dec id)) as [->|Hne].
      * rewrite lookup_insert_eq in Hm' |- *. split; [done|]. exists id. by apply dec_key_spec.
      * rewrite lookup_insert_ne in Hm' by done. rewrite lookup_insert_ne, lookup_delete_ne by done. by apply Hco.
Qed.

(** ** Removing *)
Definition drop_if (b : bool) (k : bytes) (m : gmap bytes bytes) : gmap bytes bytes := if b then delete k m else m.

(** A removal that found the todo answers 204, whatever became of the entry and
    of the row. *)
Lemma todo_delete_effect conn t T next ready mc key id r t' :
  let x := owned (auth_user_id conn) (at_key T key id) in
  let idx := index_text (auth_user_id conn) id in
  let fault := kv_faults (td_db t) < kv_faults (td_db t') in
  kv_ok (td_db t) -> todo_repr (kv_abs (td_db t)) T next ready -> tc_repr (td_cache t) mc -> u64_range (auth_user_id conn) ->
  extract_id (req_uri (conn_request conn)) TODO_KEY_MAX = Some (key, id) ->
  todo_delete_handler gzip server_name now conn t = (r, t') ->
  kv_le (td_db t) (td_db t') /\
  (missed False conn x r t t' \/
   is_Some x /\ r = send_json_response gzip server_name now HTTP_NO_CONTENT [] conn /\ kv_ok (td_db t') /\
     next_todo_id t' = next_todo_id t /\ index_ready t' = index_ready t /\ tc_repr (td_cache t') (delete (dec id) mc) /\
     exists b1 b2, kv_abs (td_db t') = drop_if b2 (dec id) (drop_if b1 idx (kv_abs (td_db t))) /\
       (b1 = true \/ index_ready t = false \/ kv_abs (td_db t) !! idx = None \/ fault) /\ (b2 = true \/ fault)).
Proof using.
  intros x idx fault Hok Hr Hc Hu He. pose proof (extract_id_parse _ _ _ _ He) as Hk. pose proof (parse_range _ _ Hk) as Hidr.
  unfold todo_delete_handler. rewrite He. destruct (kv_begin (td_db t)) as [o d1] eqn:Eb.
  destruct (kv_begin_law _ _ _ Hok Eb) as (Hok1 & Ha1 & Hl1). ghost_after (kv_begin_mono (td_db t)) Eb.
  destruct o as [h|]; [|intros [<- <-]%pair_equal_spec; split; [done|]; left; split_and!; [by constructor|done|right; auto]].
  rewrite <- Ha1 in Hr. destruct (find_owned h (auth_user_id conn) key d1) as [o d2] eqn:Efo.
  destruct (find_owned_spec _ _ _ _ _ _ _ _ _ _ Hok1 Hl1 Hr Hk Efo) as (Hok2 & Hl2 & Ha2 & Hm2 & Hfo). fold x in Hfo. destruct o as [existing|].
  2:{ destruct (finish h d2 Hok2 Hl2) as [Hok3 Ha3]. pose proof (finish_mono h d2). intros [<- <-]%pair_equal_spec. split; [cbn; ghosts|]. left.
      split_and!; [constructor; cbn; congruence || done|done|]. destruct Hfo as [Hfo|[_ Hft]]; [left; split; [done|by destruct x]|right; split; [cbn; ghosts|by left]]. }
  destruct Hfo as [Hfo|[? _]]; [|done]. destruct x as [x0|] eqn:Ex; [|done]. clear Hfo. subst x. apply owned_some in Ex as (-> & HT & Ho).
  pose proof (tr_row _ _ _ _ Hr id Hidr) as Hrow. rewrite HT in Hrow. cbn [fmap option_fmap option_map] in Hrow.
  set (d3 := if index_ready t then _ else d2).
  assert (exists b1, kv_ok d3 /\ kv_live h d3 /\ kv_le d2 d3 /\ kv_abs d3 = drop_if b1 idx (kv_abs (td_db t)) /\
    (b1 = true \/ index_ready t = false \/ kv_abs (td_db t) !! idx = None \/ kv_faults d2 < kv_faults d3)) as (b1 & Hok3 & Hl3 & Hm3 & Ha3 & Hb1).
  { subst d3. destruct (index_ready t); [|exists false; split_and!; [done|done|done|cbn; congruence|by right; left]].
    unfold todo_index_delete. rewrite todo_index_key_some by done. fold idx. destruct (kv_delete h idx d2) as [rc d3] eqn:Ed. cbn [snd].
    ghost_after (kv_delete_mono h idx d2) Ed. rewrite <- Ha1, <- Ha2.
    destruct (kv_delete_law _ _ _ _ _ Hok2 Hl2 Ed) as (? & ? & [(_ & _ & ?)|(_ & ? & Hw)]); [exists true|exists false]; split_and!; try done; [by left|].
    destruct Hw; auto. }
  clearbody d3. destruct (kv_delete h (dec id) d3) as [rc d4] eqn:Ed. ghost_after (kv_delete_mono h (dec id) d3) Ed.
  destruct (kv_delete_law _ _ _ _ _ Hok3 Hl3 Ed) as (Hok4 & Hl4 & Hdel).
  assert (kv_abs d3 !! dec id = Some (row_text id x0)) as Hrow3.
  { rewrite Ha3, <- Ha1. destruct b1; cbn [drop_if]; [|done]. rewrite lookup_delete_ne; [done|]. intros E. by apply (dec_not_index id (auth_user_id conn) id Hidr). }
  destruct (tc_invalidate (dec id) (td_cache t)) as [ir c'] eqn:Ei. pose proof (tc_invalidate_law _ _ _ _ _ Hc Ei) as Hc'.
  destruct (finish h d4 Hok4 Hl4) as [Hok5 Ha5]. pose proof (finish_mono h d4). intros [<- <-]%pair_equal_spec.
  subst fault. cbn [set_db set_cache td_db td_cache next_todo_id index_ready]. split; [ghosts|]. right. split_and!; try done.
  destruct Hdel as [(_ & _ & Hd)|(_ & Hd & [?|Hw])]; [exists b1, true|congruence|exists b1, false]; cbn [drop_if]; (split; [congruence|]);
    (split; [destruct Hb1 as [?|[?|[?|?]]]; auto; right; right; right; ghosts|]); [by left|right; ghosts].
Qed.

Lemma todo_delete_stored conn t T key id r t' :
  stored t T -> u64_range (auth_user_id conn) -> extract_id (req_uri (conn_request conn)) TODO_KEY_MAX = Some (key, id) ->
  todo_delete_handler gzip server_name now conn t = (r, t') ->
  kv_le (td_db t) (td_db t') /\ others_kept t t' /\
  (is_Some (owned (auth_user_id conn) (at_key T key id)) /\
     r = send_json_response gzip server_name now HTTP_NO_CONTENT [] conn /\ (stored t' (delete id T) \/ stored t' T) \/
   (r = not_found conn \/ r = no_memory conn) /\ stored t' T).
Proof using.
  intros Hs Hu He E. destruct (st_cache _ _ Hs) as (mc & Hc & Hca). pose proof (st_rows _ _ Hs) as Hr.
  pose proof (parse_range _ _ (extract_id_parse _ _ _ _ He)) as Hidr.
  destruct (todo_delete_effect _ _ _ _ _ _ _ _ _ _ (st_db _ _ Hs) Hr Hc Hu He E) as [Hle Hres]. split; [done|].
  destruct Hres as [(Hp & Hcc & Hwhy)|(Hx & -> & Hok' & Hn' & _ & Hc' & b1 & b2 & Hm & _)].
  - split; [apply others_same, Hp|]. right. split; [|by eapply stored_same]. tauto.
  - split.
    { intros k K1 K2. rewrite Hm. destruct b1, b2; cbn [drop_if]; rewrite ?lookup_delete_ne; try done; by (eapply not_row_key || eapply not_index_key). }
    left. split_and!; [done|done|]. assert (stored t' (if b2 then delete id T else T)) as Hst; [|destruct b2; auto].
    constructor; [done| |rewrite Hn'; apply Hs|exists (delete (dec id) mc); split; [done|by apply cached_drop]].
    assert (todo_repr (drop_if b1 (index_text (auth_user_id conn) id) (kv_abs (td_db t))) T UINT64_MAX false) as Hr1.
    { destruct b1; cbn [drop_if]; [|done]. eapply repr_rest; [done|]. by apply rest_delete_index. }
    rewrite Hm. destruct b2; cbn [drop_if]; [by apply repr_drop|done].
Qed.

Lemma todo_delete_spec conn t T key id r t' :
  service t T -> u64_range (auth_user_id conn) -> extract_id (req_uri (conn_request conn)) TODO_KEY_MAX = Some (key, id) ->
  todo_delete_handler gzip server_name now conn t = (r, t') ->
  kv_faults (td_db t) < kv_faults (td_db t') \/
  match owned (auth_user_id conn) (at_key T key id) with
  | None => r = not_found conn /\ service t' T
  | Some _ => r = send_json_response gzip server_name now HTTP_NO_CONTENT [] conn /\ service t' (delete id T)
  end.
Proof using.
  intros Hs Hu He E. destruct (sv_cache _ _ Hs) as (mc & Hc & Hco). pose proof (sv_rows _ _ Hs) as Hr.
  pose proof (parse_range _ _ (extract_id_parse _ _ _ _ He)) as Hidr.
  destruct (todo_delete_effect _ _ _ _ _ _ _ _ _ _ (sv_db _ _ Hs) Hr Hc Hu He E) as [Hle Hres].
  destruct Hres as [(Hp & Hcc & [[-> Hx]|[? _]])|([x Hx] & -> & Hok' & Hn' & Hrd' & Hc' & b1 & b2 & Hm & Hb1 & Hb2)]; [|by left|].
  - right. rewrite Hx. split; [done|]. destruct Hp. by eapply service_same.
  - rewrite Hx. apply owned_some in Hx as (-> & HT & Ho).
    assert (is_Some (kv_abs (td_db t) !! index_text (auth_user_id conn) id)) as Hidx.
    { apply (tr_index _ _ _ _ Hr eq_refl _ _ Hu Hidr). by exists x. }
    destruct Hb2 as [->|?]; [|by left]. destruct Hb1 as [->|[?|[Hb1|?]]]; [|by rewrite (sv_ready _ _ Hs) in *|rewrite Hb1 in Hidx; by destruct Hidx|by left].
    right. split; [done|]. cbn [drop_if] in Hm. constructor; [done| |rewrite Hrd'; apply Hs|].
    + rewrite Hm, Hn', <- Ho. by apply repr_delete.
    + exists (delete (dec id) mc). split; [done|]. rewrite Hm. intros k v [Hne Hv]%lookup_delete_Some. destruct (Hco k v Hv) as [Hmk Hpk].
      split; [|done]. rewrite !lookup_delete_ne; [done| |done]. intros <-. rewrite index_text_not_row in Hpk. by destruct Hpk.
Qed.

(** ** Listing *)
Context (realloc_ok : Z -> bool).

Lemma index_loop_kept f h uid ids i l d l' d' :
  kv_ok d -> kv_live h d -> index_loop realloc_ok f h uid ids i l d = (l', d') ->
  kv_ok d' /\ kv_live h d' /\ kv_abs d' = kv_abs d /\ kv_le d d'.
Proof using.
  revert i l d. induction ids as [|id ids IH]; intros i l d Hok Hl; cbn [index_loop]; [by intros [= <- <-]|].
  destruct (ls_error l); [by intros [= <- <-]|]. destruct (_ && _); [by apply IH|]. destruct (_ && _); [by intros [= <- <-]|].
  destruct (todo_row_key TODO_KEY_MAX id) as [key|]; [|by apply IH].
  destruct (kv_search h key MAX_VALUE_SIZE d) as [[[rc v] n] d1] eqn:Es. ghost_after (kv_search_mono h key MAX_VALUE_SIZE d) Es.
  destruct (kv_search_law _ _ _ _ _ _ _ _ Hok Hl Es) as (Hok1 & Hl1 & Ha1 & _).
  assert (forall i l, index_loop realloc_ok f h uid ids i l d1 = (l', d') -> kv_ok d' /\ kv_live h d' /\ kv_abs d' = kv_abs d /\ kv_le d d') as Hrest.
  { intros j k E. destruct (IH j k d1 Hok1 Hl1 E) as (? & ? & ? & ?). split_and!; [done|done|congruence|ghosts]. }
  repeat (destruct (negb _); [by apply Hrest|]). by apply Hrest.
Qed.

(** A listing changes no pair, whichever of its calls fail. *)
Lemma todo_list_effect decode_ok conn t r t' :
  kv_ok (td_db t) -> u64_range (auth_user_id conn) -> todo_list_handler gzip server_name now realloc_ok decode_ok conn t = (r, t') ->
  same_pairs t t' /\ td_cache t' = td_cache t /\ kv_le (td_db t) (td_db t').
Proof using.
  intros Hok Hu. unfold todo_list_handler. destruct (list_append realloc_ok [91] _) as [ok l]. destruct (negb ok); [by intros [<- <-]%pair_equal_spec|].
  destruct (kv_begin (td_db t)) as [o d1] eqn:Eb. destruct (kv_begin_law _ _ _ Hok Eb) as (Hok1 & Ha1 & Hl1). ghost_after (kv_begin_mono (td_db t)) Eb.
  destruct o as [h|]; [|by intros [<- <-]%pair_equal_spec].
  set (body := if index_ready t then _ else _).
  assert (exists l2 d2, body = (l2, d2) /\ kv_ok d2 /\ kv_live h d2 /\ kv_abs d2 = kv_abs d1 /\ kv_le d1 d2) as (l2 & d2 & -> & Hok2 & Hl2 & Ha2 & Hm2).
  { subst body. destruct (index_ready t).
    - unfold todo_index_lookup. destruct (prefix_some (auth_user_id conn) Hu) as [-> Hpl]. set (prefix := INDEX_PREFIX ++ _) in *.
      destruct (kv_scan _ h prefix _ _ d1) as [[rc c] d2] eqn:Es. ghost_after (kv_scan_mono _ h prefix (lookup_scan_cb realloc_ok) (mkLookup empty_vec (auth_user_id conn) false) d1) Es.
      destruct (kv_scan_law _ _ _ _ _ _ _ _ _ Hok1 Hl1 ltac:(rewrite Hpl; done) Es) as (Hok2 & Hl2 & Ha2 & _).
      destruct (negb (rc =? 0) || lk_error c); [by eexists _, _|]. cbn [Z.eqb]. unfold list_from_index.
      destruct (index_loop _ _ _ _ _ _ _ d2) as [l3 d3] eqn:El. destruct (index_loop_kept _ _ _ _ _ _ _ _ _ Hok2 Hl2 El) as (? & ? & ? & ?).
      eexists _, _. split; [done|]. split_and!; [done|done|congruence|ghosts].
    - destruct (kv_scan _ h [] _ _ d1) as [[rc l3] d2] eqn:Es. ghost_after (kv_scan_mono _ h [] (list_scan_cb realloc_ok (parse_todo_filter decode_ok (query_string (conn_request conn))) (auth_user_id conn)) l d1) Es.
      destruct (kv_scan_law _ _ [] _ _ _ _ _ _ Hok1 Hl1 ltac:(done) Es) as (? & ? & ? & _). by eexists _, _. }
  destruct (finish h d2 Hok2 Hl2) as [Hok3 Ha3]. pose proof (finish_mono h d2).
  assert (forall c : Z * connection, (c, mkTodos (kv_free h (kv_commit h d2)) (td_cache t) (next_todo_id t) (index_ready t)) = (r, t') ->
    same_pairs t t' /\ td_cache t' = td_cache t /\ kv_le (td_db t) (td_db t')) as Hend.
  { intros c [_ <-]%pair_equal_spec. split; [constructor; cbn; congruence || done|]. split; [done|cbn; ghosts]. }
  destruct (ls_error l2); [apply Hend|]. destruct (list_append realloc_ok [93] l2) as [ok2 l3]. destruct (negb ok2); apply Hend.
Qed.

(** The rows of the given ids. *)
Definition rows_of (T : gmap Z todo) (ids : list Z) : list bytes := omap (fun id => row_text id <$> T !! id) ids.

(** A row of one of the user's todos. *)
Definition own_row (T : gmap Z todo) (uid : Z) (row : bytes) : Prop :=
  exists id x, T !! id = Some x /\ todo_owner x = uid /\ row = row_text id x.

(** Whatever failed, what a listing has collected is rows of its user. *)
Definition shows_own (T : gmap Z todo) (uid : Z) (l : list_ctx) : Prop :=
  ls_error l = true \/ exists rows, ls_buf l = 91 :: join rows /\ ls_count l = zlen rows /\ Forall (own_row T uid) rows.

Lemma list_append_cases data l :
  list_append realloc_ok data l = (false, mkList (ls_buf l) (ls_cap l) (ls_count l) (ls_matched l) true) \/
  exists cap, list_append realloc_ok data l = (true, mkList (ls_buf l ++ data) cap (ls_count l) (ls_matched l) (ls_error l)).
Proof using. unfold list_append. destruct (_ >? ls_cap l); [destruct (realloc_ok _)|]; eauto. Qed.

Lemma list_emit_own T uid value l : own_row T uid value -> shows_own T uid l -> shows_own T uid (list_emit realloc_ok value l).
Proof using.
  intros Hv Hs. unfold list_emit.
  assert (forall l1, ls_error l1 = true \/ (exists rows, ls_buf l1 ++ value = 91 :: join (rows ++ [value]) /\ ls_count l1 = zlen rows /\ Forall (own_row T uid) rows) ->
    shows_own T uid (let '(ok, l) := list_append realloc_ok value l1 in if negb ok then l else mkList (ls_buf l) (ls_cap l) (ls_count l + 1) (ls_matched l) (ls_error l))) as Hlast.
  { intros l1 Hl1. destruct (list_append_cases value l1) as [->|[cap ->]]; cbn [negb]; [by left|]. cbn [ls_buf ls_cap ls_count ls_matched ls_error].
    destruct Hl1 as [?|(rows & Hb & Hc & Hf)]; [by left|right]. exists (rows ++ [value]). cbn. split_and!; [done|rewrite Hc, zlen_app; done|].
    apply list.Forall_app. split; [done|]. by constructor. }
  destruct (ls_count l >? 0) eqn:Ec.
  - destruct (list_append_cases [44] l) as [->|[cap ->]]; cbn [negb]; [by left|]. apply Hlast. cbn [ls_error ls_buf ls_count].
    destruct Hs as [?|(rows & Hb & Hc & Hf)]; [by left|right]. exists rows. split_and!; [|done|done]. rewrite join_snoc. destruct rows as [|row rows]; [rewrite Hc in Ec; done|].
    rewrite Hb. cbn [app]. by rewrite <- app_assoc.
  - cbn [negb]. apply Hlast. destruct Hs as [?|(rows & Hb & Hc & Hf)]; [by left|right]. exists rows. split_and!; [|done|done]. rewrite join_snoc, Hb.
    destruct rows as [|row rows]; [done|]. rewrite Hc in Ec. assert (0 < zlen (row :: rows)) by zl. lia.
Qed.

Lemma list_consider_own f T uid value l : own_row T uid value -> shows_own T uid l -> shows_own T uid (list_consider_row realloc_ok f value l).
Proof using.
  intros Hv Hs. unfold list_consider_row. destruct (negb _); [done|].
  assert (shows_own T uid (mkList (ls_buf l) (ls_cap l) (ls_count l) (ls_matched l + 1) (ls_error l))) as Hs1 by exact Hs.
  destruct (_ <? _); [done|]. destruct (_ && _); [done|]. by apply list_emit_own.
Qed.

Lemma index_loop_own f h uid T next ready ids i l d l' d' :
  kv_ok d -> kv_live h d -> todo_repr (kv_abs d) T next ready -> (forall id, id ∈ ids -> u64_range id) -> shows_own T uid l ->
  index_loop realloc_ok f h uid ids i l d = (l', d') -> shows_own T uid l'.
Proof using.
  intros Hok Hl Hr Hids. revert i l d Hok Hl Hr. induction ids as [|id ids IH]; intros i l d Hok Hl Hr Hs; cbn [index_loop]; [by intros [= <- <-]|].
  assert (forall j, j ∈ ids -> u64_range j) as Hids' by (intros j Hj; apply Hids; by apply list_elem_of_further). specialize (IH Hids').
  assert (u64_range id) as Hidr by (apply Hids, list_elem_of_here).
  destruct (ls_error l); [by intros [= <- <-]|]. destruct (_ && _); [by apply IH|]. destruct (_ && _); [by intros [= <- <-]|].
  destruct (dec_key_spec id Hidr) as (-> & Hparse & _).
  destruct (kv_search h (dec id) MAX_VALUE_SIZE d) as [[[rc v] n] d1] eqn:Es.
  destruct (search_row _ _ _ _ _ _ _ _ _ _ _ Hok Hl Hr Hparse Es) as (Hok1 & Hl1 & Ha1 & _ & Hres). rewrite <- Ha1 in Hr.
  destruct Hres as [(x & [_ HT]%at_key_some & -> & ->)|[Hrc _]]; [|rewrite (proj2 (Z.eqb_neq rc 0) Hrc); cbn [negb]; by apply IH].
  cbn [negb Z.eqb]. destruct (tr_ok _ _ _ _ Hr _ _ HT) as [Hx _]. rewrite row_owned by done.
  destruct (Z.eqb_spec (todo_owner x) uid) as [Ho|Ho]; cbn [negb]; [|by apply IH]. apply IH; try done.
  assert (own_row T uid (row_text id x)) as Hown by (by exists id, x).
  destruct (needs_every_row f); [by apply list_consider_own|by apply list_emit_own].
Qed.

Lemma index_loop_spec f h uid T next ids i l d rows l' d' :
  (forall n, realloc_ok n = true) -> 0 <= filter_offset f ->
  (forall id, id ∈ ids -> exists x, T !! id = Some x /\ todo_owner x = uid) ->
  kv_ok d -> kv_live h d -> todo_repr (kv_abs d) T next true -> shows f rows l -> i = zlen rows ->
  index_loop realloc_ok f h uid ids i l d = (l', d') ->
  kv_faults d < kv_faults d' \/ shows f (rows ++ rows_of T ids) l'.
Proof using.
  intros Hre Hoff. revert i l d rows. induction ids as [|id ids IH]; intros i l d rows Hids Hok Hl Hr Hs Hi; cbn [index_loop].
  { intros [= <- <-]. right. cbn [rows_of omap list_omap]. by rewrite app_nil_r. }
  destruct (Hids id ltac:(apply list_elem_of_here)) as (x & HT & Hox). destruct (tr_ok _ _ _ _ Hr _ _ HT) as [Hx _]. pose proof (to_id _ _ Hx) as Hidr.
  assert (forall j, j ∈ ids -> exists x, T !! j = Some x /\ todo_owner x = uid) as Hids' by (intros j Hj; apply Hids; by apply list_elem_of_further).
  assert (rows_of T (id :: ids) = row_text id x :: rows_of T ids) as Hrows by (unfold rows_of; cbn [omap list_omap]; by rewrite HT).
  rewrite (sh_error _ _ _ Hs), Hrows. change (rows ++ row_text id x :: rows_of T ids) with (rows ++ [row_text id x] ++ rows_of T ids). rewrite app_assoc.
  assert (needs_every_row f = false -> page f (rows ++ [row_text id x]) =
    if zlen rows <? filter_offset f then page f rows
    else if (filter_limit f >=? 0) && (zlen (page f rows) >=? filter_limit f) then page f rows else page f rows ++ [row_text id x]) as Hpage.
  { intros Hn. unfold page. rewrite !unfiltered_selected by done. by apply window_snoc. }
  destruct (negb (needs_every_row f) && (i <? filter_offset f)) eqn:Eskip.
  { apply andb_true_iff in Eskip as [Hn%negb_true_iff Hlt]. apply IH; try done; [|subst i; zl].
    rewrite Hi in Hlt. specialize (Hpage Hn). rewrite Hlt in Hpage. destruct Hs as [Q1 Q2 Q3 Q4]. constructor; rewrite ?Hpage; try done. congruence. }
  destruct (negb (needs_every_row f) && (filter_limit f >=? 0) && (ls_count l >=? filter_limit f)) eqn:Efull.
  { apply andb_true_iff in Efull as [[Hn%negb_true_iff Hlim%Z.geb_le]%andb_true_iff Hfull%Z.geb_le]. intros [= <- <-]. right.
    destruct Hs as [Q1 Q2 Q3 Q4]. rewrite <- app_assoc.
    assert (page f (rows ++ [row_text id x] ++ rows_of T ids) = page f rows) as Hp.
    { unfold page. rewrite Q2 in Hfull. unfold page in Hfull. rewrite !unfiltered_selected in * by done. by apply window_full. }
    constructor; rewrite ?Hp; try done. congruence. }
  destruct (dec_key_spec id Hidr) as (-> & Hparse & _).
  destruct (kv_search h (dec id) MAX_VALUE_SIZE d) as [[[rc v] n] d1] eqn:Es.
  destruct (search_row _ _ _ _ _ _ _ _ _ _ _ Hok Hl Hr Hparse Es) as (Hok' & Hl' & Ha' & Hm' & Hres).
  assert (at_key T (dec id) id = Some x) as Hat by (unfold at_key; by rewrite bool_decide_true). rewrite Hat in Hres.
  destruct Hres as [(x0 & [= <-] & -> & ->)|[Hrc [?|Hft]]]; [|done|]; cycle 1.
  { rewrite (proj2 (Z.eqb_neq rc 0) Hrc). cbn [negb]. intros E. left. destruct (index_loop_kept _ _ _ _ _ _ _ _ _ Hok' Hl' E) as (_ & _ & _ & ?). ghosts. }
  cbn [negb Z.eqb]. rewrite row_owned, Hox, Z.eqb_refl by done. cbn [negb]. rewrite <- Ha' in Hr. intros E.
  destruct (IH (i + 1) (if needs_every_row f then list_consider_row realloc_ok f (row_text id x) l else list_emit realloc_ok (row_text id x) l)
    d1 (rows ++ [row_text id x])) as [?|?]; try done; [|subst i; zl|left; ghosts|by right].
  destruct (needs_every_row f) eqn:En; [by apply list_consider_shows|]. cbn [negb andb] in *.
  rewrite <- Hi in Hpage. rewrite Eskip, <- (sh_count _ _ _ Hs), Efull in Hpage.
  destruct Hs as [Q1 Q2 Q3 Q4]. destruct (list_emit_ok realloc_ok Hre (row_text id x) l (page f rows) Q1 Q2) as [cap ->].
  constructor; rewrite ?(Hpage eq_refl); try done. congruence.
Qed.

(** The ids of a user's todos, ascending. *)
Definition user_ids (T : gmap Z todo) (uid : Z) (ids : list Z) : Prop :=
  StronglySorted Z.lt ids /\ forall id, id ∈ ids <-> exists x, T !! id = Some x /\ todo_owner x = uid.

Lemma user_ids_rows T uid ids : user_ids T uid ids -> zlen ids = zlen (rows_of T ids).
Proof using.
  intros [_ Hids]. assert (forall l, (forall id, id ∈ l -> is_Some (T !! id)) -> zlen l = zlen (rows_of T l)) as Hlen.
  { induction l as [|id l IH]; intros Hi; [done|]. destruct (Hi id ltac:(apply list_elem_of_here)) as [x Hx].
    unfold rows_of. cbn [omap list_omap]. rewrite Hx. cbn [fmap option_fmap option_map]. rewrite !zlen_cons. f_equal. apply IH.
    intros j Hj. apply Hi. by apply list_elem_of_further. }
  apply Hlen. intros id Hid. apply Hids in Hid as (x & -> & _). by eexists.
Qed.

Lemma lookup_visit_total l c : (forall n, realloc_ok n = true) -> lk_error c = false -> lk_error (visit (lookup_scan_cb realloc_ok) l c) = false.
Proof using.
  intros Hre. revert c. induction l as [|[k v] l IH]; intros c Hc; [done|]. cbn [visit]. unfold lookup_scan_cb at 1.
  destruct (todo_index_key_parse k) as [[u t]|]; [|by apply IH]. destruct (negb (u =? lk_user_id c)); [by apply IH|].
  unfold id_list_push. destruct (push_granted realloc_ok 8 32 (lk_list c) t Hre) as [v' ->]. by apply IH.
Qed.

(** A lookup that fails: the store failed, or memory was refused. *)
Lemma lookup_cases h u d rc v d' :
  kv_ok d -> kv_live h d -> u64_range u -> todo_index_lookup realloc_ok h u d = (rc, v, d') ->
  kv_ok d' /\ kv_live h d' /\ kv_abs d' = kv_abs d /\ kv_le d d' /\
  (rc = 0 \/ rc <> 0 /\ ((forall n, realloc_ok n = true) -> kv_faults d < kv_faults d')).
Proof using.
  intros Hok Hl Hu. unfold todo_index_lookup. destruct (prefix_some u Hu) as [-> Hpl]. set (prefix := INDEX_PREFIX ++ _) in *.
  destruct (kv_scan _ h prefix _ _ d) as [[rc1 c] d1] eqn:Es. ghost_after (kv_scan_mono _ h prefix (lookup_scan_cb realloc_ok) (mkLookup empty_vec u false) d) Es.
  destruct (kv_scan_law _ _ _ _ _ _ _ _ _ Hok Hl ltac:(rewrite Hpl; done) Es) as (? & ? & ? & [(-> & kvs & _ & _ & ->)|[Hrc Hft]]).
  - cbn [negb Z.eqb orb]. destruct (lk_error _) eqn:Ee; intros [= <- <- <-]; split_and!; try done; [right; split; [done|]|by left].
    intros Hre. rewrite lookup_visit_total in Ee; done.
  - rewrite (proj2 (Z.eqb_neq rc1 0) Hrc). cbn [negb orb]. intros [= <- <- <-]. split_and!; try done. by right.
Qed.

Abbreviation out_of_memory := (fail_response gzip server_name now HTTP_INTERNAL_SERVER_ERROR (str "Out of memory")).

(** A listing on a service: only rows of its caller, and all of the selected
    page when no call failed. *)
Lemma todo_list_spec decode_ok conn t T r t' :
  let f := parse_todo_filter decode_ok (query_string (conn_request conn)) in
  let uid := auth_user_id conn in
  service t T -> u64_range uid -> 0 <= filter_offset f ->
  todo_list_handler gzip server_name now realloc_ok decode_ok conn t = (r, t') ->
  (r = out_of_memory conn \/ r = no_memory conn \/
   exists rows matched, r = list_response gzip server_name now (91 :: join rows ++ [93]) matched conn /\ Forall (own_row T uid) rows) /\
  ((forall n, realloc_ok n = true) -> kv_faults (td_db t) < kv_faults (td_db t') \/
   exists ids, user_ids T uid ids /\
     r = list_response gzip server_name now (91 :: join (page f (rows_of T ids)) ++ [93]) (zlen (selected f (rows_of T ids))) conn).
Proof using.
  intros f uid Hsv Hu Hoff. unfold todo_list_handler. fold f uid.
  destruct (list_append_cases [91] (mkList [] 0 0 0 false)) as [El|[cap ->]]; [rewrite El|]; cbn [negb ls_buf ls_count ls_matched ls_error app].
  { intros [<- <-]%pair_equal_spec. split; [by left|]. intros Hre. destruct (list_append_ok realloc_ok Hre [91] (mkList [] 0 0 0 false)) as [cap Ec]. congruence. }
  destruct (kv_begin (td_db t)) as [o d1] eqn:Eb. destruct (kv_begin_law _ _ _ (sv_db _ _ Hsv) Eb) as (Hok1 & Ha1 & Hl1). ghost_after (kv_begin_mono (td_db t)) Eb.
  destruct o as [h|]; [|intros [<- <-]%pair_equal_spec; split; [auto|by left]]. rewrite (sv_ready _ _ Hsv).
  destruct (todo_index_lookup realloc_ok h uid d1) as [[rc v] d2] eqn:El.
  destruct (lookup_cases _ _ _ _ _ _ Hok1 Hl1 Hu El) as (Hok2 & Hl2 & Ha2 & Hm2 & [->|[Hrc Hwhy]]); cycle 1.
  { rewrite (proj2 (Z.eqb_neq rc 0) Hrc). cbn [ls_error]. intros [<- <-]%pair_equal_spec. split; [by left|]. intros Hre. left. cbn.
    specialize (Hwhy Hre). pose proof (finish_mono h d2). ghosts. }
  destruct (lookup_spec _ _ _ _ _ _ Hok1 Hl1 Hu El) as (_ & _ & _ & Hsort & Hel). cbn [Z.eqb].
  pose proof (sv_rows _ _ Hsv) as Hr. rewrite <- Ha1 in Hr.
  assert (user_ids T uid (items v)) as Hids.
  { split; [done|]. intros id. rewrite Hel. split.
    - intros [Hid Hs]. by apply (tr_index _ _ _ _ Hr eq_refl _ _ Hu Hid).
    - intros (x & HT & Ho). destruct (tr_ok _ _ _ _ Hr _ _ HT) as [Hx _]. split; [apply Hx|].
      apply (tr_index _ _ _ _ Hr eq_refl); [done|apply Hx|by exists x]. }
  rewrite <- Ha2 in Hr. unfold list_from_index. destruct (index_loop _ _ _ _ _ _ _ d2) as [l' d3] eqn:Eil.
  destruct (index_loop_kept _ _ _ _ _ _ _ _ _ Hok2 Hl2 Eil) as (Hok3 & Hl3 & Ha3 & Hm3).
  assert (shows_own T uid l') as Hown.
  { eapply (index_loop_own f h uid T (next_todo_id t) true (items v)); [exact Hok2|exact Hl2|exact Hr| | |exact Eil].
    - intros id Hid. by apply Hel in Hid as [? _].
    - right. exists []. split_and!; [done|done|constructor]. }
  assert ((forall n, realloc_ok n = true) -> kv_faults d2 < kv_faults d3 \/ shows f (rows_of T (items v)) l') as Hall.
  { intros Hre. eapply (index_loop_spec f h uid T (next_todo_id t) (items v) 0 (mkList [91] cap 0 0 false) d2 []); try done.
    - intros id Hid. by apply Hids.
    - by constructor; rewrite ?page_nil. }
  set (l2 := if negb (needs_every_row f) then _ else l'). pose proof (finish_mono h d3) as Hm4.
  assert (ls_buf l2 = ls_buf l' /\ ls_error l2 = ls_error l') as [B2 E2] by (subst l2; by destruct (needs_every_row f)).
  assert (shows f (rows_of T (items v)) l' -> ls_matched l2 = zlen (selected f (rows_of T (items v)))) as M2.
  { intros [Q1 Q2 Q3 Q4]. subst l2. destruct (needs_every_row f) eqn:En; cbn [negb]; [by apply Q4|]. cbn [ls_matched].
    rewrite unfiltered_selected by done. by eapply user_ids_rows. }
  clearbody l2. rewrite E2. destruct (ls_error l') eqn:Ee.
  { intros [<- <-]%pair_equal_spec. split; [by left|]. intros Hre. left. cbn. destruct (Hall Hre) as [?|[_ _ ? _]]; [ghosts|congruence]. }
  destruct Hown as [?|(rows & Hb & _ & Hf)]; [congruence|].
  destruct (list_append_cases [93] l2) as [Ea|[cap2 ->]]; [rewrite Ea|]; cbn [negb]; intros [<- <-]%pair_equal_spec.
  { split; [by left|]. intros Hre. destruct (list_append_ok realloc_ok Hre [93] l2) as [cap2 Ec]. congruence. }
  cbn [ls_buf ls_matched]. rewrite B2, Hb. split; [right; right; by eexists _, _|]. intros Hre. cbn [td_db].
  destruct (Hall Hre) as [?|Hsh]; [left; ghosts|right]. exists (items v). split; [done|]. rewrite (M2 Hsh). rewrite <- Hb, (sh_buf _ _ _ Hsh). done.
Qed.

(** ** Start *)
Lemma dec_not_entry id : u64_range id -> todo_index_key_parse (dec id) = None.
Proof using.
  clear. intros Hid. destruct (todo_index_key_parse (dec id)) as [[u j]|] eqn:E; [|done].
  apply index_parse_iff in E as (E & _). by apply (dec_not_index id u j Hid) in E.
Qed.

Lemma row_entry_pair m T next ready k x u j :
  todo_repr m T next ready -> m !! k = Some x -> row_pair (k, x) = Some (u, j) -> exists y, T !! j = Some y /\ todo_owner y = u.
Proof using.
  clear. intros Hr Hk Hp. unfold row_pair in Hp. cbn [fst snd] in Hp. apply bind_Some in Hp as (i & Hi & Hp). apply bind_Some in Hp as (o & Ho & [= <- <-]).
  pose proof (parse_range _ _ Hi) as Hir. pose proof (key_row _ _ _ _ _ _ Hr Hi) as Hrow. rewrite Hk in Hrow.
  destruct (at_key T k i) as [y|] eqn:Ey; [|done]. cbn [fmap option_fmap option_map] in Hrow. apply (inj Some) in Hrow as ->.
  apply at_key_some in Ey as [-> HT]. exists y. split; [done|]. destruct (tr_ok _ _ _ _ Hr _ _ HT) as [Hy _].
  pose proof (row_owned i y o Hy) as Hown. unfold todo_owned_by in Hown. rewrite Ho, Z.eqb_refl in Hown. symmetry in Hown. by apply Z.eqb_eq in Hown.
Qed.

(** An index in step with the rows is the index of the todos. *)
Lemma in_step_repr m m' T next mx :
  todo_repr m T next false -> in_step m m' -> max_row_id m mx -> 0 <= mx < UINT64_MAX -> todo_repr m' T (mx + 1) true.
Proof using.
  clear. intros Hr [Hidx Hrest] [Hmax _] Hmx. pose proof (repr_rest _ _ _ _ Hr Hrest) as [R1 R2 R3 _ R5]. constructor; [done|done| | |lia].
  - intros i x HT. destruct (R3 _ _ HT) as [Hx _]. split; [done|]. pose proof (to_id _ _ Hx) as Hi.
    assert (i <= mx); [|lia]. eapply Hmax; [rewrite (tr_row _ _ _ _ Hr i Hi), HT; reflexivity|by apply dec_key_spec].
  - intros _ u i Hu Hi. rewrite Hidx by done. split.
    + intros (k & x & Hk & Hp). by eapply row_entry_pair.
    + intros (y & HT & <-). destruct (R3 _ _ HT) as [Hy _]. exists (dec i), (row_text i y).
      split; [by rewrite (tr_row _ _ _ _ Hr i Hi), HT|]. unfold row_pair. cbn [fst snd].
      destruct (dec_key_spec i Hi) as (_ & -> & _). cbn [mbind option_bind]. rewrite row_text_object.
      by rewrite (get_uint64_object _ (str "user_id") (todo_owner y) (todo_fields_ok i y Hy)).
Qed.

(** Starting on a database of todos, its index in whatever state: the same todos,
    and a service of them when no call failed. *)
Lemma todo_api_init_spec cache d T next :
  kv_ok d -> todo_repr (kv_abs d) T next false -> tc_repr cache ∅ ->
  let t := todo_api_init realloc_ok cache d in
  kv_le d (td_db t) /\
  (kv_torn d < kv_torn (td_db t) \/ stored t T /\ rest_kept (kv_abs d) (kv_abs (td_db t))) /\
  ((forall n, realloc_ok n = true) -> kv_faults d < kv_faults (td_db t) \/ service t T /\ next_todo_id t <= Z.max 1 next).
Proof using.
  intros Hok Hr Hc. unfold todo_api_init.
  assert (unique_rows (kv_abs d)) as Huniq.
  { intros k k' j Hk Hk' Hp Hp'. by rewrite (tr_canon _ _ _ _ Hr k j Hp Hk), (tr_canon _ _ _ _ Hr k' j Hp' Hk'). }
  destruct (todo_index_reconcile realloc_ok d) as [[[rc mx] ready] d'] eqn:E.
  pose proof (reconcile_total realloc_ok d rc mx ready d' Hok Huniq) as Htot.
  destruct (reconcile_spec realloc_ok _ _ _ _ _ Hok E) as [Hle Hcase]. cbv zeta. cbn [td_db]. pose proof (tr_next _ _ _ _ Hr) as Hnx. split_and!; [done| |].
  - destruct Hcase as [(? & _)|(Hok' & Hk & _)]; [by left|right]. split; [|done].
    constructor; cbn [td_db td_cache next_todo_id index_ready]; [done|eapply repr_rest; [|done]; eapply repr_weaken; [done|lia]| |exists ∅; split; [done|]; intros k v; by rewrite lookup_empty].
    unfold u64, UINT64_MAX. pose proof (uwrap_range 64 (default 0 mx + 1)). lia.
  - intros Hre. destruct (Htot Hre E) as [->|?]; [|by left].
    destruct Hcase as [(_ & ? & _)|(Hok' & Hk & [(_ & -> & Hstep & m & -> & Hmax)|[? _]])]; [done| |done]. right. cbn [default from_option id].
    assert (0 <= m < UINT64_MAX /\ m + 1 <= Z.max 1 next) as [Hm Hm2].
    { destruct Hmax as [_ [->|(k & x & Hk2 & Hp)]]; [split; [done|lia]|]. pose proof (parse_range _ _ Hp) as [? _].
      rewrite (key_row _ _ _ _ _ _ Hr Hp) in Hk2. destruct (at_key T k m) as [y|] eqn:Ey; [|done]. apply at_key_some in Ey as [_ HT].
      destruct (tr_ok _ _ _ _ Hr _ _ HT) as [_ Hn]. lia. }
    rewrite u64_small by lia. split; [|cbn [next_todo_id]; lia].
    constructor; cbn [td_db td_cache next_todo_id index_ready]; [done|by eapply in_step_repr|done|exists ∅; split; [done|]; intros k v; by rewrite lookup_empty].
Qed.
End service.

(** The offset of a parsed query is never negative. *)
Lemma parse_todo_filter_offset decode_ok query : 0 <= filter_offset (parse_todo_filter decode_ok query).
Proof.
  assert (forall ps f, 0 <= filter_offset f -> 0 <= filter_offset (foldl (apply_param decode_ok) f ps)) as Hfold.
  { induction ps as [|p ps IH]; intros f Hf; [done|]. cbn [foldl]. apply IH. unfold apply_param.
    repeat case_match; cbn; try done; rewrite ?Z.geb_le in *; done. }
  unfold parse_todo_filter. destruct query; [done|]. by apply Hfold.
Qed.
