(* ===== verification/ThreadPool.v ===== *)
(** * The thread pool (common/src/thread_pool.c)

    The priority queue of tasks, linked in a heap of [task_t] nodes, and the
    pool around it: submission, the worker loop with its blocking pop, local
    queues and stealing, and shutdown. The queue operations are functions on
    the data a mutex guards; the pool is a step relation in which every thread
    moves on its own. A critical section is one step unless it can block: in
    [task_queue_pop] acquiring the mutex, the test of the waiting loop, the
    release inside [pthread_cond_wait] and the removal are steps of their own,
    because the shutdown flag is stored without the mutex. A signal wakes a
    waiter if there is one, and waiters may also wake spuriously.

    [size] counts nodes that are in memory at once and is an exact integer; the
    counters that only grow ([total_tasks] and the 64-bit statistics) are never
    read by the code. *)
From stdpp Require Import relations.
From S2P Require Import Prelude SList.

Local Open Scope Z_scope.

(** ** Tasks and queues *)
Record task := mkTask { t_function : Z; t_argument : Z; t_next : option Z; t_priority : Z }.
Definition set_next (o : option Z) (t : task) : task := mkTask (t_function t) (t_argument t) o (t_priority t).

Record task_queue := mkQueue {
  q_heads : list (option Z);  (** queues *)
  q_tails : list (option Z);  (** tails *)
  q_size : Z; q_total : Z; q_shutdown : bool }.
Definition num_priorities (q : task_queue) : Z := zlen (q_heads q).

(** The answers of the two [calloc] and of the two initialisations. *)
Definition task_queue_init (heads_ok tails_ok mutex_ok cond_ok : bool) (n : Z) : option task_queue :=
  if negb heads_ok then None else
  if negb tails_ok then None else
  if negb mutex_ok then None else
  if negb cond_ok then None else
  Some (mkQueue (replicate (Z.to_nat n) None) (replicate (Z.to_nat n) None) 0 0 false).

(** The body of [task_queue_push] under the mutex, [p] being a valid priority. *)
Definition append_task (t : Z) (p : nat) (h : gmap Z task) (q : task_queue) : gmap Z task * task_queue :=
  let h := alter (set_next None) t h in
  match q_heads q !! p with
  | Some None | None =>
      (h, mkQueue (<[p := Some t]> (q_heads q)) (<[p := Some t]> (q_tails q)) (q_size q + 1) (q_total q + 1) (q_shutdown q))
  | Some (Some _) =>
      let h := match q_tails q !! p with Some (Some last) => alter (set_next (Some t)) last h | _ => h end in
      (h, mkQueue (q_heads q) (<[p := Some t]> (q_tails q)) (q_size q + 1) (q_total q + 1) (q_shutdown q))
  end.

Definition task_queue_push (t : Z) (h : gmap Z task) (q : task_queue) : Z * gmap Z task * task_queue :=
  match h !! t with
  | None => (-1, h, q)
  | Some tk =>
      if (t_priority tk <? 0) || (t_priority tk >=? num_priorities q) then (-1, h, q) else
      let '(h, q) := append_task t (Z.to_nat (t_priority tk)) h q in (0, h, q)
  end.

(** The search for the highest non-empty priority, below [n]. *)
Fixpoint dequeue (n : nat) (h : gmap Z task) (q : task_queue) : option Z * gmap Z task * task_queue :=
  match n with
  | O => (None, h, q)
  | S i =>
      match q_heads q !! i with
      | Some (Some t) =>
          let next := h !! t ≫= t_next in
          (Some t, alter (set_next None) t h,
           mkQueue (<[i := next]> (q_heads q)) (match next with None => <[i := None]> (q_tails q) | Some _ => q_tails q end)
             (q_size q - 1) (q_total q) (q_shutdown q))
      | _ => dequeue i h q
      end
  end.

(** [task_queue_pop] once it is past its waiting loop. *)
Definition pop_locked (h : gmap Z task) (q : task_queue) : option Z * gmap Z task * task_queue :=
  if q_size q =? 0 then (None, h, q) else dequeue (length (q_heads q)) h q.

(** The test of the waiting loop. *)
Definition must_wait (q : task_queue) : bool := (q_size q =? 0) && negb (q_shutdown q).

(** [lock_ok]: whether [pthread_mutex_trylock] got the mutex. *)
Definition task_queue_try_pop (lock_ok : bool) (h : gmap Z task) (q : task_queue) : option Z * gmap Z task * task_queue :=
  if negb lock_ok then (None, h, q) else
  if q_size q >? 0 then dequeue (length (q_heads q)) h q else (None, h, q).

(** Freeing the nodes of one list, and then of all. *)
Fixpoint free_chain (fuel : nat) (cur : option Z) (h : gmap Z task) : gmap Z task :=
  match fuel, cur with
  | S fuel', Some t => free_chain fuel' (h !! t ≫= t_next) (delete t h)
  | _, _ => h
  end.

Definition task_queue_drain (h : gmap Z task) (q : task_queue) : gmap Z task * task_queue :=
  (foldl (fun h hd => free_chain (size h) hd h) h (q_heads q),
   mkQueue (replicate (length (q_heads q)) None) (replicate (length (q_heads q)) None) 0 (q_total q) (q_shutdown q)).

Definition flag_queue (q : task_queue) : task_queue := mkQueue (q_heads q) (q_tails q) (q_size q) (q_total q) true.

(** ** The pool *)
Record thread_pool := mkTpool {
  tp_heap : gmap Z task; tp_queue : task_queue; tp_locals : option (list task_queue);
  tp_shutdown : bool; tp_immediate : bool; tp_submitted : Z; tp_completed : Z; tp_rr : Z }.

(** One attempt of [steal_task] on [target]: [cas_ok] is whether the queue's
    flag was taken, [lock_ok] whether its mutex was. *)
Definition steal_from (cas_ok lock_ok : bool) (target : nat) (h : gmap Z task) (locals : list task_queue) : option Z * gmap Z task * list task_queue :=
  if negb cas_ok then (None, h, locals) else
  match locals !! target with
  | None => (None, h, locals)
  | Some q => let '(t, h, q) := task_queue_try_pop lock_ok h q in (t, h, <[target := q]> locals)
  end.

(** Where a worker thread is. *)
Inductive wstate :=
  | WBegin  (** before it takes its number *)
  | WLoop  (** at the test of the loop *)
  | WLocal  (** about to try its local queue *)
  | WLock  (** about to lock the queue's mutex *)
  | WCheck  (** holds the mutex, at the waiting test *)
  | WPark  (** holds the mutex, about to wait *)
  | WWait  (** parked on the condition variable *)
  | WWoken  (** woken, about to lock again *)
  | WTake  (** holds the mutex, past the loop *)
  | WSteal (i : nat)  (** about to try the [i]th victim *)
  | WRun (t : Z)  (** runs a task *)
  | WEmpty  (** found nothing *)
  | WExit.
#[global] Instance wstate_eq_dec : EqDecision wstate.
Proof. solve_decision. Defined.

(** Where a submitting thread is in [thread_pool_submit]. *)
Inductive cstate :=
  | CIdle
  | CReady (f arg prio : Z)  (** past the shutdown test *)
  | CCount.  (** pushed, about to count *)

(** Where [thread_pool_destroy] is. *)
Inductive dstate := DNone | DFlag | DLock | DJoin | DDone.

(** What identifies a task to its submitter. *)
Definition payload : Type := Z * Z * Z.
Definition payload_of (t : task) : payload := (t_function t, t_argument t, t_priority t).

(** The threads over the pool; the last three fields are histories: the tasks
    accepted, taken by a worker, and finished. *)
Record system := mkSys {
  s_pool : thread_pool; s_owner : option nat; s_workers : list (Z * wstate); s_clients : list cstate; s_destroy : dstate;
  s_accepted : list payload; s_started : list payload; s_done : list payload }.

Definition set_pool (p : thread_pool) (s : system) : system :=
  mkSys p (s_owner s) (s_workers s) (s_clients s) (s_destroy s) (s_accepted s) (s_started s) (s_done s).
Definition set_worker (w : nat) (id : Z) (x : wstate) (s : system) : system :=
  mkSys (s_pool s) (s_owner s) (<[w := (id, x)]> (s_workers s)) (s_clients s) (s_destroy s) (s_accepted s) (s_started s) (s_done s).
Definition set_owner (o : option nat) (s : system) : system :=
  mkSys (s_pool s) o (s_workers s) (s_clients s) (s_destroy s) (s_accepted s) (s_started s) (s_done s).
Definition set_client (c : nat) (x : cstate) (s : system) : system :=
  mkSys (s_pool s) (s_owner s) (s_workers s) (<[c := x]> (s_clients s)) (s_destroy s) (s_accepted s) (s_started s) (s_done s).
Definition set_destroy (d : dstate) (s : system) : system :=
  mkSys (s_pool s) (s_owner s) (s_workers s) (s_clients s) d (s_accepted s) (s_started s) (s_done s).
Definition accept (x : payload) (s : system) : system :=
  mkSys (s_pool s) (s_owner s) (s_workers s) (s_clients s) (s_destroy s) (s_accepted s ++ [x]) (s_started s) (s_done s).
Definition start (x : option payload) (s : system) : system :=
  mkSys (s_pool s) (s_owner s) (s_workers s) (s_clients s) (s_destroy s) (s_accepted s) (s_started s ++ option_list x) (s_done s).
Definition finish_task (x : option payload) (s : system) : system :=
  mkSys (s_pool s) (s_owner s) (s_workers s) (s_clients s) (s_destroy s) (s_accepted s) (s_started s) (s_done s ++ option_list x).

Definition set_tasks (h : gmap Z task) (q : task_queue) (l : option (list task_queue)) (p : thread_pool) : thread_pool :=
  mkTpool h q l (tp_shutdown p) (tp_immediate p) (tp_submitted p) (tp_completed p) (tp_rr p).

Fixpoint drain_locals (h : gmap Z task) (ls : list task_queue) : gmap Z task * list task_queue :=
  match ls with
  | [] => (h, [])
  | q :: ls => let '(h, q) := task_queue_drain h q in let '(h, ls) := drain_locals h ls in (h, q :: ls)
  end.

(** The queues at the end of [thread_pool_destroy]. *)
Definition drain_pool (p : thread_pool) : thread_pool :=
  let '(h, q) := task_queue_drain (tp_heap p) (tp_queue p) in
  match tp_locals p with
  | None => set_tasks h q None p
  | Some ls => let '(h, ls) := drain_locals h ls in set_tasks h q (Some ls) p
  end.

(** Two's complement of 32 bits, and of the unsigned view of an [int]. *)
Definition int_add1 (z : Z) : Z := let u := u32 (z + 1) in if u >=? 2 ^ 31 then u - 2 ^ 32 else u.
Definition worker_number (rr : Z) (capacity : Z) : Z := u32 rr mod capacity.

Definition wake (x : Z * wstate) : Z * wstate := match x.2 with WWait => (x.1, WWoken) | _ => x end.

(** What a worker does next when a pop gave [t]. *)
Definition after_pop (t : option Z) (otherwise : wstate) : wstate := match t with Some t => WRun t | None => otherwise end.

(** [thread_pool_create] once every allocation has succeeded. *)
Definition initial_pool (num_threads : nat) (stealing : bool) (n : Z) : thread_pool :=
  let q := mkQueue (replicate (Z.to_nat n) None) (replicate (Z.to_nat n) None) 0 0 false in
  mkTpool ∅ q (if stealing then Some (replicate num_threads q) else None) false false 0 0 0.

Definition initial (num_threads clients : nat) (stealing : bool) (n : Z) : system :=
  mkSys (initial_pool num_threads stealing n) None (replicate num_threads (0, WBegin)) (replicate clients CIdle) DNone [] [] [].

(** ** Steps *)
(** A thread of the pool (worker_thread, with task_queue_pop and steal_task). *)
Inductive worker_step : system -> system -> Prop :=
  | st_begin w i s : let p := s_pool s in
      s_workers s !! w = Some (i, WBegin) ->
      worker_step s (set_worker w (worker_number (tp_rr p) (zlen (s_workers s))) WLoop
        (set_pool (mkTpool (tp_heap p) (tp_queue p) (tp_locals p) (tp_shutdown p) (tp_immediate p) (tp_submitted p) (tp_completed p) (int_add1 (tp_rr p))) s))
  | st_loop w i s : let p := s_pool s in
      s_workers s !! w = Some (i, WLoop) ->
      worker_step s (set_worker w i (if tp_shutdown p then WExit else match tp_locals p with Some _ => WLocal | None => WLock end) s)
  | st_local w i ls ok t h ls' s : let p := s_pool s in
      s_workers s !! w = Some (i, WLocal) -> tp_locals p = Some ls -> steal_from true ok (Z.to_nat i) (tp_heap p) ls = (t, h, ls') ->
      worker_step s (start (t ≫= (fun t => payload_of <$> h !! t)) (set_worker w i (after_pop t WLock) (set_pool (set_tasks h (tp_queue p) (Some ls') p) s)))
  | st_lock w i x s :
      s_workers s !! w = Some (i, x) -> x = WLock \/ x = WWoken -> s_owner s = None ->
      worker_step s (set_owner (Some w) (set_worker w i WCheck s))
  | st_check w i s :
      s_workers s !! w = Some (i, WCheck) ->
      worker_step s (set_worker w i (if must_wait (tp_queue (s_pool s)) then WPark else WTake) s)
  | st_park w i s :
      s_workers s !! w = Some (i, WPark) -> worker_step s (set_owner None (set_worker w i WWait s))
  | st_spurious w i s :
      s_workers s !! w = Some (i, WWait) -> worker_step s (set_worker w i WWoken s)
  | st_take w i t h q s : let p := s_pool s in
      s_workers s !! w = Some (i, WTake) -> pop_locked (tp_heap p) (tp_queue p) = (t, h, q) ->
      worker_step s (start (t ≫= (fun t => payload_of <$> h !! t)) (set_owner None
        (set_worker w i (after_pop t (match tp_locals p with Some _ => WSteal 1 | None => WEmpty end)) (set_pool (set_tasks h q (tp_locals p) p) s))))
  | st_steal w i n cas ok t h ls ls' s : let p := s_pool s in
      s_workers s !! w = Some (i, WSteal n) -> tp_locals p = Some ls -> (n < length (s_workers s))%nat ->
      steal_from cas ok ((Z.to_nat i + n) mod length (s_workers s)) (tp_heap p) ls = (t, h, ls') ->
      worker_step s (start (t ≫= (fun t => payload_of <$> h !! t)) (set_worker w i (after_pop t (WSteal (S n))) (set_pool (set_tasks h (tp_queue p) (Some ls') p) s)))
  | st_stolen w i n s :
      s_workers s !! w = Some (i, WSteal n) -> (length (s_workers s) <= n)%nat -> worker_step s (set_worker w i WEmpty s)
  | st_empty w i s :
      s_workers s !! w = Some (i, WEmpty) -> worker_step s (set_worker w i (if tp_immediate (s_pool s) then WExit else WLoop) s)
  | st_run w i t s : let p := s_pool s in
      s_workers s !! w = Some (i, WRun t) ->
      worker_step s (finish_task (payload_of <$> tp_heap p !! t) (set_worker w i WLoop
        (set_pool (mkTpool (delete t (tp_heap p)) (tp_queue p) (tp_locals p) (tp_shutdown p) (tp_immediate p) (tp_submitted p) (tp_completed p + 1) (tp_rr p)) s))).

(** thread_pool_submit: no thread submits once the pool is being destroyed. *)
Inductive submit_step : system -> system -> Prop :=
  | st_submit c f arg prio s :
      s_clients s !! c = Some CIdle -> s_destroy s = DNone ->
      submit_step s (set_client c (if tp_shutdown (s_pool s) then CIdle else CReady f arg prio) s)
  | st_no_memory c f arg prio s :
      s_clients s !! c = Some (CReady f arg prio) -> submit_step s (set_client c CIdle s)
  | st_reject c f arg prio s :
      s_clients s !! c = Some (CReady f arg prio) -> prio < 0 \/ num_priorities (tp_queue (s_pool s)) <= prio ->
      submit_step s (set_client c CIdle s)
  | st_push c f arg prio t h q woken s : let p := s_pool s in
      s_clients s !! c = Some (CReady f arg prio) -> s_owner s = None -> tp_heap p !! t = None ->
      task_queue_push t (<[t := mkTask f arg None prio]> (tp_heap p)) (tp_queue p) = (0, h, q) ->
      (match woken with
       | Some w => exists i, s_workers s !! w = Some (i, WWait)
       | None => forall w i, s_workers s !! w <> Some (i, WWait)
       end) ->
      submit_step s (accept (f, arg, prio) (set_client c CCount (mkSys (set_tasks h q (tp_locals p) p) None
        (match woken with Some w => alter wake w (s_workers s) | None => s_workers s end)
        (s_clients s) (s_destroy s) (s_accepted s) (s_started s) (s_done s))))
  | st_count c s : let p := s_pool s in
      s_clients s !! c = Some CCount ->
      submit_step s (set_client c CIdle
        (set_pool (mkTpool (tp_heap p) (tp_queue p) (tp_locals p) (tp_shutdown p) (tp_immediate p) (tp_submitted p + 1) (tp_completed p) (tp_rr p)) s)).

(** thread_pool_destroy: called when the submitting threads have been joined. *)
Inductive destroy_step : system -> system -> Prop :=
  | st_stop s : let p := s_pool s in
      s_destroy s = DNone -> (forall c x, s_clients s !! c = Some x -> x = CIdle) ->
      destroy_step s (set_destroy DFlag
        (set_pool (mkTpool (tp_heap p) (tp_queue p) (tp_locals p) true (tp_immediate p) (tp_submitted p) (tp_completed p) (tp_rr p)) s))
  | st_flag s : let p := s_pool s in
      s_destroy s = DFlag -> destroy_step s (set_destroy DLock (set_pool (set_tasks (tp_heap p) (flag_queue (tp_queue p)) (tp_locals p) p) s))
  | st_broadcast s : let p := s_pool s in
      s_destroy s = DLock -> s_owner s = None ->
      destroy_step s (mkSys (set_tasks (tp_heap p) (tp_queue p) (map flag_queue <$> tp_locals p) p) None
        (map wake (s_workers s)) (s_clients s) DJoin (s_accepted s) (s_started s) (s_done s))
  | st_join s :
      s_destroy s = DJoin -> (forall w i x, s_workers s !! w = Some (i, x) -> x = WExit) ->
      destroy_step s (set_destroy DDone (set_pool (drain_pool (s_pool s)) s)).

(** Any thread moves. *)
Inductive step (s s' : system) : Prop :=
  | by_worker : worker_step s s' -> step s s'
  | by_client : submit_step s s' -> step s s'
  | by_destroyer : destroy_step s s' -> step s s'.

(** ** The queue against lists *)
(** [Q] lists the nodes of each priority, in the order they were pushed. *)
Record queue_repr (h : gmap Z task) (q : task_queue) (Q : list (list Z)) : Prop := {
  qr_heads : length (q_heads q) = length Q;
  qr_tails : length (q_tails q) = length Q;
  qr_list : forall i l, Q !! i = Some l ->
    exists hd, q_heads q !! i = Some hd /\ chain t_next h hd l /\ q_tails q !! i = Some (list.last l);
  qr_prio : forall i l a, Q !! i = Some l -> a ∈ l -> exists t, h !! a = Some t /\ t_priority t = Z.of_nat i;
  qr_nodup : NoDup (concat Q);
  qr_size : q_size q = Z.of_nat (length (concat Q)) }.

(** Heaps that hold the same tasks under the same addresses. *)
Definition same_tasks (h h' : gmap Z task) : Prop := forall a, payload_of <$> h' !! a = payload_of <$> h !! a.

Lemma same_tasks_refl h : same_tasks h h.
Proof. by intros a. Qed.
Lemma same_tasks_trans h1 h2 h3 : same_tasks h1 h2 -> same_tasks h2 h3 -> same_tasks h1 h3.
Proof. intros H1 H2 a. by rewrite H2. Qed.
Lemma same_tasks_next o a h : same_tasks h (alter (set_next o) a h).
Proof.
  intros b. destruct (decide (b = a)) as [->|Hne]; [|by rewrite lookup_alter_ne].
  rewrite lookup_alter_eq. by destruct (h !! a).
Qed.
Lemma same_tasks_prio h h' a t i :
  same_tasks h h' -> h !! a = Some t -> t_priority t = i -> exists t', h' !! a = Some t' /\ t_priority t' = i.
Proof. intros Hs Ha Hp. pose proof (Hs a) as E. rewrite Ha in E. destruct (h' !! a) as [t'|]; [|done]. injection E as _ _ E. exists t'. split; [done|congruence]. Qed.

Lemma concat_insert {X} (Q : list (list X)) p l :
  Q !! p = Some l -> exists A B, concat Q = A ++ l ++ B /\ forall l', concat (<[p := l']> Q) = A ++ l' ++ B.
Proof.
  revert p. induction Q as [|x Q IH]; intros [|p]; try done; cbn.
  - intros [= ->]. exists [], (concat Q). done.
  - intros (A & B & E & H)%IH. exists (x ++ A), B. split; [by rewrite E, <- !app_assoc|]. intros l'. by rewrite H, <- !app_assoc.
Qed.

Lemma elem_concat {X} (Q : list (list X)) p l a : Q !! p = Some l -> a ∈ l -> a ∈ concat Q.
Proof. intros HQ Ha. apply list_elem_of_In, in_concat. exists l. split; [apply list_elem_of_In; by eapply list_elem_of_lookup_2|by apply list_elem_of_In]. Qed.

Lemma elem_concat_inv {X} (Q : list (list X)) a : a ∈ concat Q -> exists p l, Q !! p = Some l /\ a ∈ l.
Proof. intros (l & [p Hp]%list_elem_of_In%list_elem_of_lookup & Ha%list_elem_of_In)%list_elem_of_In%in_concat. by exists p, l. Qed.

Lemma chain_snoc (h : gmap Z task) hd l z t tk :
  chain t_next h hd l -> list.last l = Some z -> NoDup l -> t ∉ l -> h !! t = Some tk -> t_next tk = None ->
  chain t_next (alter (set_next (Some t)) z h) hd (l ++ [t]).
Proof.
  revert hd. induction l as [|a l IH]; intros hd; [done|]. intros (-> & n & Hn & Hc) Hlast [Ha Hnd]%list.NoDup_cons Ht Htk Hnx.
  apply not_elem_of_cons in Ht as [Hta Htl]. split; [done|]. destruct l as [|b l].
  - cbn in Hlast. injection Hlast as <-. exists (set_next (Some t) n). rewrite lookup_alter_eq, Hn. split; [done|]. cbn. split; [done|].
    exists tk. by rewrite lookup_alter_ne.
  - exists n. rewrite lookup_alter_ne; [split; [done|by apply IH]|].
    intros <-. rewrite last_cons in Hlast. apply Ha. apply list_elem_of_lookup. destruct (list.last (b :: l)) eqn:E; [|by rewrite last_None in E].
    exists (pred (length (b :: l))). rewrite <- last_lookup. congruence.
Qed.

Lemma queue_lists_apart h q Q i j li lj a :
  queue_repr h q Q -> Q !! i = Some li -> Q !! j = Some lj -> a ∈ li -> a ∈ lj -> i = j.
Proof.
  intros Hq Hi Hj Ha Hb. destruct (qr_prio _ _ _ Hq _ _ _ Hi Ha) as (t & Ht & E). destruct (qr_prio _ _ _ Hq _ _ _ Hj Hb) as (t' & Ht' & E').
  rewrite Ht in Ht'. injection Ht' as <-. lia.
Qed.

Lemma queue_nodup h q Q i l : queue_repr h q Q -> Q !! i = Some l -> NoDup l.
Proof. intros Hq Hi. destruct (concat_insert Q i l Hi) as (A & B & E & _). pose proof (qr_nodup _ _ _ Hq) as Hn. rewrite E in Hn. by apply list.NoDup_app in Hn as (_ & _ & [? _]%list.NoDup_app). Qed.

(** A push appends to the list of its priority. *)
Lemma append_task_spec t tk p l h q Q h' q' :
  queue_repr h q Q -> h !! t = Some tk -> t_priority tk = Z.of_nat p -> Q !! p = Some l -> t ∉ concat Q ->
  append_task t p h q = (h', q') ->
  queue_repr h' q' (<[p := l ++ [t]]> Q) /\ same_tasks h h' /\ q_shutdown q' = q_shutdown q /\ dom h' = dom h.
Proof.
  intros Hq Ht Hpr HQ Hnew. destruct (qr_list _ _ _ Hq p l HQ) as (hd & Hhd & Hch & Htl). unfold append_task. rewrite Hhd, Htl.
  assert (t ∉ l) as Htl' by (intros ?; by eapply Hnew, elem_concat).
  pose proof (queue_nodup _ _ _ _ _ Hq HQ) as Hndl. pose proof (lookup_lt_Some _ _ _ HQ) as Hlt.
  set (h1 := alter (set_next None) t h). assert (h1 !! t = Some (set_next None tk)) as Ht1 by (unfold h1; by rewrite lookup_alter_eq, Ht).
  assert (forall a, a <> t -> h1 !! a = h !! a) as Hh1 by (intros; unfold h1; by rewrite lookup_alter_ne).
  assert (forall hd' l', t ∉ l' -> chain t_next h hd' l' -> chain t_next h1 hd' l') as Hfr1.
  { intros hd' l' Hn. apply chain_frame. intros a Ha. rewrite Hh1; [done|]. by intros ->. }
  destruct (concat_insert Q p l HQ) as (A & B & E & Hins).
  assert (NoDup (concat (<[p := l ++ [t]]> Q))) as Hnd2.
  { rewrite Hins. pose proof (qr_nodup _ _ _ Hq) as Hn. rewrite E in Hn, Hnew.
    apply (NoDup_Permutation_proper (A ++ (l ++ [t]) ++ B) (t :: A ++ l ++ B)); [|apply list.NoDup_cons; by split].
    rewrite <- app_assoc. cbn. rewrite <- !Permutation_middle. done. }
  assert (Z.of_nat (length (concat (<[p := l ++ [t]]> Q))) = q_size q + 1) as Hsz2.
  { rewrite (qr_size _ _ _ Hq), E, Hins, !length_app. cbn. lia. }
  assert (forall h2 heads, same_tasks h h2 -> dom h2 = dom h -> length heads = length Q -> (exists hd2, heads !! p = Some hd2 /\ chain t_next h2 hd2 (l ++ [t])) ->
    (forall j, j <> p -> heads !! j = q_heads q !! j) -> (forall j lj, j <> p -> Q !! j = Some lj -> forall a, a ∈ lj -> h2 !! a = h !! a) ->
    queue_repr h2 (mkQueue heads (<[p := Some t]> (q_tails q)) (q_size q + 1) (q_total q + 1) (q_shutdown q)) (<[p := l ++ [t]]> Q)) as Hmk.
  { intros h2 heads Hs2 Hdom Hl2 (hd2 & Hhd2 & Hc2) Hoth Hfr. constructor; cbn [q_heads q_tails q_size]; rewrite ?length_insert; [done|apply (qr_tails _ _ _ Hq)| | |done|done].
    - intros j lj. destruct (decide (j = p)) as [->|Hj].
      + rewrite list_lookup_insert_eq by done. intros [= <-]. exists hd2. split; [done|]. split; [done|].
        rewrite list_lookup_insert_eq by (rewrite (qr_tails _ _ _ Hq); done). by rewrite last_snoc.
      + rewrite list_lookup_insert_ne by done. intros Hlj. destruct (qr_list _ _ _ Hq j lj Hlj) as (hj & H1 & H2 & H3). exists hj.
        rewrite Hoth, list_lookup_insert_ne by done. split; [done|]. split; [|done]. eapply chain_frame; [|exact H2].
        intros a Ha. by rewrite (Hfr j lj Hj Hlj a Ha).
    - intros j lj a. destruct (decide (j = p)) as [->|Hj].
      + rewrite list_lookup_insert_eq by done. intros [= <-] [Ha|Ha%list_elem_of_singleton]%elem_of_app.
        * destruct (qr_prio _ _ _ Hq p l a HQ Ha) as (x & Hx & Hxp). by eapply same_tasks_prio.
        * subst a. by eapply same_tasks_prio.
      + rewrite list_lookup_insert_ne by done. intros Hlj Ha. destruct (qr_prio _ _ _ Hq j lj a Hlj Ha) as (x & Hx & Hxp). by eapply same_tasks_prio. }
  destruct hd as [x|].
  - destruct l as [|b l0]; [done|]. destruct (list.last (b :: l0)) as [z|] eqn:Ez; [|by rewrite last_None in Ez].
    intros [<- <-]%pair_equal_spec. split; [|split; [|split; [done|unfold h1; by rewrite !dom_alter_L]]].
    + apply Hmk; [apply (same_tasks_trans _ h1); apply same_tasks_next|unfold h1; by rewrite !dom_alter_L|apply (qr_heads _ _ _ Hq)| |done|].
      * exists (Some x). split; [done|]. eapply chain_snoc; [by apply Hfr1|done|done|done|exact Ht1|done].
      * intros j lj Hj Hlj a Ha. assert (a <> t) by (intros ->; by eapply Hnew, elem_concat).
        rewrite lookup_alter_ne; [by apply Hh1|]. intros ->. apply Hj. eapply (queue_lists_apart _ _ _ j p); [exact Hq|exact Hlj|exact HQ|exact Ha|].
        rewrite last_lookup in Ez. by eapply list_elem_of_lookup_2.
    + apply (same_tasks_trans _ h1); apply same_tasks_next.
  - assert (l = []) as -> by (destruct l; [done|by destruct Hch]).
    intros [<- <-]%pair_equal_spec. split; [|split; [apply same_tasks_next|split; [done|unfold h1; by rewrite dom_alter_L]]].
    apply Hmk; [apply same_tasks_next|unfold h1; by rewrite dom_alter_L|by rewrite length_insert, (qr_heads _ _ _ Hq)| |by intros; rewrite list_lookup_insert_ne|].
    + exists (Some t). rewrite list_lookup_insert_eq by (rewrite (qr_heads _ _ _ Hq); done). split; [done|]. cbn. split; [done|]. by exists (set_next None tk).
    + intros j lj Hj Hlj a Ha. apply Hh1. intros ->. by eapply Hnew, elem_concat.
Qed.

Lemma concat_nil {X} (Q : list (list X)) : (forall j l, Q !! j = Some l -> l = []) -> concat Q = [].
Proof. induction Q as [|x Q IH]; intros HQ; [done|]. cbn. rewrite (HQ 0%nat x eq_refl), IH; [done|]. intros j l Hj. by apply (HQ (S j)). Qed.

(** Taking the head of the list at [i]. *)
Lemma remove_head h q Q i t l :
  queue_repr h q Q -> Q !! i = Some (t :: l) ->
  let next := h !! t ≫= t_next in
  queue_repr (alter (set_next None) t h)
    (mkQueue (<[i := next]> (q_heads q)) (match next with None => <[i := None]> (q_tails q) | Some _ => q_tails q end)
      (q_size q - 1) (q_total q) (q_shutdown q)) (<[i := l]> Q).
Proof.
  intros Hq HQ next. destruct (qr_list _ _ _ Hq i _ HQ) as (hd & Hhd & (-> & tk & Htk & Hch) & Htl).
  pose proof (lookup_lt_Some _ _ _ HQ) as Hlt. pose proof (queue_nodup _ _ _ _ _ Hq HQ) as [Htl' Hndl]%list.NoDup_cons.
  assert (next = t_next tk) as Hnx by (unfold next; by rewrite Htk). rewrite Hnx. clear next Hnx.
  destruct (concat_insert Q i _ HQ) as (A & B & E & Hins).
  assert (length (match t_next tk with None => <[i:=None]> (q_tails q) | Some _ => q_tails q end) = length Q) as Hlt2.
  { destruct (t_next tk); rewrite ?length_insert; apply (qr_tails _ _ _ Hq). }
  assert (match t_next tk with None => <[i:=None]> (q_tails q) | Some _ => q_tails q end !! i = Some (list.last l)) as Hti.
  { destruct l as [|b l]; cbn in Hch.
    - rewrite Hch. by rewrite list_lookup_insert_eq by (rewrite (qr_tails _ _ _ Hq); done).
    - destruct Hch as [-> _]. rewrite Htl. by rewrite last_cons_cons. }
  assert (forall j, j <> i -> match t_next tk with None => <[i:=None]> (q_tails q) | Some _ => q_tails q end !! j = q_tails q !! j) as Htj.
  { intros j Hj. destruct (t_next tk); [done|]. by rewrite list_lookup_insert_ne. }
  assert (forall hd' l', t ∉ l' -> chain t_next h hd' l' -> chain t_next (alter (set_next None) t h) hd' l') as Hfr.
  { intros hd' l' Hn. apply chain_frame. intros a Ha. rewrite lookup_alter_ne; [done|]. by intros ->. }
  constructor; cbn [q_heads q_tails q_size]; rewrite ?length_insert; [apply (qr_heads _ _ _ Hq)|done| | | |].
  - intros j lj. destruct (decide (j = i)) as [->|Hj].
    + rewrite !list_lookup_insert_eq by (rewrite ?(qr_heads _ _ _ Hq); done). intros [= <-]. exists (t_next tk). split; [done|]. split; [by apply Hfr|done].
    + rewrite !list_lookup_insert_ne by done. intros Hlj. destruct (qr_list _ _ _ Hq j lj Hlj) as (hj & H1 & H2 & H3). exists hj.
      rewrite Htj by done. split; [done|]. split; [|done]. apply Hfr; [|done]. intros Ht. apply Hj. eapply (queue_lists_apart _ _ _ j i); [exact Hq|exact Hlj|exact HQ|exact Ht|left].
  - intros j lj a Hlj Ha. assert (exists lj0, Q !! j = Some lj0 /\ a ∈ lj0) as (lj0 & Hj0 & Ha0).
    { destruct (decide (j = i)) as [->|Hj]; [rewrite list_lookup_insert_eq in Hlj by done; injection Hlj as <-; exists (t :: l); split; [done|by right]|].
      rewrite list_lookup_insert_ne in Hlj by done. by exists lj. }
    destruct (qr_prio _ _ _ Hq j lj0 a Hj0 Ha0) as (x & Hx & Hp). eapply same_tasks_prio; [apply same_tasks_next|exact Hx|exact Hp].
  - rewrite Hins. pose proof (qr_nodup _ _ _ Hq) as Hn. rewrite E in Hn. cbn in Hn. rewrite <- Permutation_middle in Hn. by apply list.NoDup_cons in Hn as [_ Hn].
  - rewrite (qr_size _ _ _ Hq), E, Hins, !length_app. cbn. lia.
Qed.

(** The pop takes the oldest task of the highest priority that has one. *)
Lemma dequeue_spec n h q Q r h' q' :
  queue_repr h q Q -> (n <= length Q)%nat -> (forall j l, (n <= j)%nat -> Q !! j = Some l -> l = []) -> dequeue n h q = (r, h', q') ->
  match r with
  | None => h' = h /\ q' = q /\ concat Q = []
  | Some t => exists i l, Q !! i = Some (t :: l) /\ (forall j lj, (i < j)%nat -> Q !! j = Some lj -> lj = []) /\
      queue_repr h' q' (<[i := l]> Q) /\ same_tasks h h' /\ q_shutdown q' = q_shutdown q /\ dom h' = dom h
  end.
Proof.
  intros Hq. induction n as [|n IH]; intros Hn Hz; cbn [dequeue].
  { intros [[<- <-]%pair_equal_spec <-]%pair_equal_spec. split_and!; try done. apply concat_nil. intros j l. apply Hz. lia. }
  destruct (lookup_lt_is_Some_2 Q n ltac:(lia)) as [l Hl]. destruct (qr_list _ _ _ Hq n l Hl) as (hd & Hhd & Hch & Htl). rewrite Hhd.
  destruct l as [|t l].
  - cbn in Hch. subst hd. apply IH; [lia|]. intros j lj Hj Hlj. destruct (decide (j = n)) as [->|]; [congruence|]. apply (Hz j); [lia|done].
  - destruct Hch as (-> & _). intros [[<- <-]%pair_equal_spec <-]%pair_equal_spec. exists n, l. split; [done|]. split; [intros j lj Hj; apply Hz; lia|].
    split; [by apply remove_head|]. split; [apply same_tasks_next|]. split; [done|by rewrite dom_alter_L].
Qed.

Lemma pop_locked_spec h q Q r h' q' :
  queue_repr h q Q -> pop_locked h q = (r, h', q') ->
  match r with
  | None => h' = h /\ q' = q /\ concat Q = []
  | Some t => exists i l, Q !! i = Some (t :: l) /\ (forall j lj, (i < j)%nat -> Q !! j = Some lj -> lj = []) /\
      queue_repr h' q' (<[i := l]> Q) /\ same_tasks h h' /\ q_shutdown q' = q_shutdown q /\ dom h' = dom h
  end.
Proof.
  intros Hq. unfold pop_locked. destruct (Z.eqb_spec (q_size q) 0) as [E|E].
  - intros [[<- <-]%pair_equal_spec <-]%pair_equal_spec. split_and!; try done. apply nil_length_inv. rewrite (qr_size _ _ _ Hq) in E. lia.
  - apply dequeue_spec; [done|by rewrite (qr_heads _ _ _ Hq)|]. intros j l Hj Hl%lookup_lt_Some. rewrite (qr_heads _ _ _ Hq) in Hj. lia.
Qed.

Lemma try_pop_spec ok h q Q : queue_repr h q Q -> (0 < q_size q) -> task_queue_try_pop ok h q = if ok then pop_locked h q else (None, h, q).
Proof.
  intros _ Hs. unfold task_queue_try_pop, pop_locked. destruct ok; [|done]. cbn [negb].
  destruct (Z.gtb_spec (q_size q) 0); [|lia]. by destruct (Z.eqb_spec (q_size q) 0); [lia|].
Qed.

Lemma free_chain_spec fuel h hd l :
  chain t_next h hd l -> NoDup l -> (length l <= fuel)%nat -> free_chain fuel hd h = foldl (fun h a => delete a h) h l.
Proof.
  revert h hd fuel. induction l as [|a l IH]; intros h hd fuel; cbn.
  { intros ->. by destruct fuel. }
  intros (-> & n & Hn & Hc) [Ha Hnd]%list.NoDup_cons Hf. destruct fuel as [|fuel]; [lia|]. cbn. rewrite Hn. cbn.
  apply IH; [|done|lia]. eapply chain_frame; [|exact Hc]. intros b Hb. rewrite lookup_delete_ne; [done|]. by intros ->.
Qed.

Lemma delete_all_lookup (l : list Z) (h : gmap Z task) a : foldl (fun h a => delete a h) h l !! a = if decide (a ∈ l) then None else h !! a.
Proof.
  revert h. induction l as [|b l IH]; intros h; cbn; [by rewrite decide_False by apply not_elem_of_nil|]. rewrite IH.
  destruct (decide (a ∈ l)), (decide (a ∈ b :: l)) as [H|H]; try done.
  - exfalso. apply H. by right.
  - apply elem_of_cons in H as [->|]; [by rewrite lookup_delete_eq|done].
  - rewrite lookup_delete_ne; [done|]. intros ->. apply H. left.
Qed.

(** Draining frees exactly the queued nodes. *)
Lemma task_queue_drain_spec h q Q h' q' :
  queue_repr h q Q -> task_queue_drain h q = (h', q') ->
  (forall a, h' !! a = if decide (a ∈ concat Q) then None else h !! a) /\ q_size q' = 0 /\ q_shutdown q' = q_shutdown q.
Proof.
  intros Hq [<- <-]%pair_equal_spec. split; [|done].
  assert (forall hs Qs h1, Forall2 (chain t_next h1) hs Qs -> NoDup (concat Qs) ->
    forall a, foldl (fun h hd => free_chain (size h) hd h) h1 hs !! a = if decide (a ∈ concat Qs) then None else h1 !! a) as Hgen.
  { clear. intros hs. induction hs as [|hd hs IH]; intros Qs h1 HF Hnd a.
    - apply Forall2_nil_inv_l in HF as ->. by rewrite decide_False by apply not_elem_of_nil.
    - apply Forall2_cons_inv_l in HF as (l & Qs' & Hl & HF & ->). cbn [concat] in Hnd |- *. apply list.NoDup_app in Hnd as (Hnl & Hdis & HnQ).
      cbn [foldl]. rewrite (free_chain_spec _ _ _ _ Hl Hnl (chain_size _ _ _ _ Hl Hnl)). rewrite (IH Qs'); [|clear IH|done].
      + rewrite delete_all_lookup. destruct (decide (a ∈ concat Qs')), (decide (a ∈ l)), (decide (a ∈ l ++ concat Qs')) as [H|H]; try done;
          exfalso; rewrite ?elem_of_app in H; tauto.
      + apply Forall2_same_length_lookup_2; [exact (Forall2_length HF)|]. intros i x y Hx Hy.
        eapply chain_frame; [|exact (Forall2_lookup_lr _ _ _ _ _ _ HF Hx Hy)]. intros b Hb. rewrite delete_all_lookup. destruct (decide (b ∈ l)) as [Hbl|]; [|done].
        exfalso. eapply Hdis; [exact Hbl|]. by eapply elem_concat. }
  apply Hgen; [|apply (qr_nodup _ _ _ Hq)]. apply Forall2_same_length_lookup_2; [apply (qr_heads _ _ _ Hq)|].
  intros i x l Hx Hl. destruct (qr_list _ _ _ Hq i l Hl) as (hd & Hhd & Hc & _). congruence.
Qed.

Lemma queue_repr_same h h' q Q :
  queue_repr h q Q -> (forall a, a ∈ concat Q -> h' !! a = h !! a) -> queue_repr h' q Q.
Proof.
  intros Hq Hs. constructor; [apply (qr_heads _ _ _ Hq)|apply (qr_tails _ _ _ Hq)| | |apply (qr_nodup _ _ _ Hq)|apply (qr_size _ _ _ Hq)].
  - intros i l Hl. destruct (qr_list _ _ _ Hq i l Hl) as (hd & H1 & H2 & H3). exists hd. split; [done|]. split; [|done].
    eapply chain_frame; [|exact H2]. intros a Ha. rewrite Hs; [done|]. by eapply elem_concat.
  - intros i l a Hl Ha. rewrite Hs by (by eapply elem_concat). by apply (qr_prio _ _ _ Hq i l a).
Qed.

Lemma queue_repr_empty h n : queue_repr h (mkQueue (replicate n None) (replicate n None) 0 0 false) (replicate n []).
Proof.
  assert (concat (replicate n ([] : list Z)) = []) as E by (apply concat_nil; intros j l [-> _]%lookup_replicate; done).
  constructor; cbn; rewrite ?length_replicate; try done.
  - intros i l [-> Hi]%lookup_replicate. exists None. rewrite !lookup_replicate_2 by done. done.
  - intros i l a [-> Hi]%lookup_replicate. by intros ?%not_elem_of_nil.
  - rewrite E. apply NoDup_nil_2.
  - by rewrite E.
Qed.
