(* ===== verification/PoolProofs.v ===== *)
(** * The thread pool in every interleaving

    The invariant of the system of threads of ThreadPool.v: who holds the
    mutex, where every task is, and in which phase the shutdown is. From it:
    tasks run exactly once and in order of submission within a priority, queued
    work never meets only sleeping workers, and a shutdown that has set its
    flags always ends. *)
From stdpp Require Import relations.
From S2P Require Import Prelude SList ThreadPool.

Local Open Scope Z_scope.

Definition holds (x : wstate) : bool := match x with WCheck | WPark | WTake => true | _ => false end.
Definition run1 (x : Z * wstate) : list Z := match x.2 with WRun t => [t] | _ => [] end.
(** The tasks the workers run. *)
Definition runs (s : system) : list Z := concat (map run1 (s_workers s)).
Definition of_prio (p : Z) (l : list payload) : list payload := filter (fun x : payload => x.2 = p) l.
Definition payloads (h : gmap Z task) (l : list Z) : list payload := omap (fun a => payload_of <$> h !! a) l.
Definition stopping (d : dstate) : bool := match d with DNone => false | _ => true end.
Definition flagged (d : dstate) : bool := match d with DNone | DFlag => false | _ => true end.
Definition steals (x : wstate) : bool := match x with WLocal | WSteal _ => true | _ => false end.

Record pool_ok (s : system) (Q : list (list Z)) : Prop := {
  po_queue : queue_repr (tp_heap (s_pool s)) (tp_queue (s_pool s)) Q;
  po_owner : forall w, s_owner s = Some w <-> exists i x, s_workers s !! w = Some (i, x) /\ holds x = true;
  po_nodup : NoDup (runs s ++ concat Q);
  po_dom : forall a, is_Some (tp_heap (s_pool s) !! a) <-> a ∈ runs s ++ concat Q;
  po_fifo : forall p l, Q !! p = Some l ->
    of_prio (Z.of_nat p) (s_accepted s) = of_prio (Z.of_nat p) (s_started s) ++ payloads (tp_heap (s_pool s)) l;
  po_prio : Forall (fun x : payload => 0 <= x.2 < zlen Q) (s_accepted s);
  po_started : s_started s ≡ₚ payloads (tp_heap (s_pool s)) (runs s) ++ s_done s;
  po_locals : forall ls q, tp_locals (s_pool s) = Some ls -> q ∈ ls -> q_size q = 0 /\ Forall (.= None) (q_heads q);
  po_steals : forall w i x, s_workers s !! w = Some (i, x) -> steals x = true -> is_Some (tp_locals (s_pool s));
  po_park : forall w i, s_workers s !! w = Some (i, WPark) -> concat Q = [];
  po_wake : concat Q <> [] -> s_workers s = [] \/ exists w i x, s_workers s !! w = Some (i, x) /\ x <> WWait;
  po_alive : s_destroy s = DNone -> forall w i, s_workers s !! w <> Some (i, WExit);
  po_now : tp_immediate (s_pool s) = false;
  po_stop : tp_shutdown (s_pool s) = stopping (s_destroy s);
  po_flag : q_shutdown (tp_queue (s_pool s)) = flagged (s_destroy s);
  po_clients : stopping (s_destroy s) = true -> forall c x, s_clients s !! c = Some x -> x = CIdle;
  po_join : s_destroy s = DJoin -> forall w i x, s_workers s !! w = Some (i, x) -> x <> WWait /\ x <> WPark;
  po_open : s_destroy s <> DDone }.

(** ** Worker lists *)
Lemma insert_case (ws : list (Z * wstate)) w i x v j y :
  <[w := (i, x)]> ws !! v = Some (j, y) -> v = w /\ y = x \/ v <> w /\ ws !! v = Some (j, y).
Proof.
  destruct (decide (v = w)) as [->|Hv]; [|rewrite list_lookup_insert_ne by done; by right].
  intros Hl. pose proof (lookup_lt_Some _ _ _ Hl) as Hlt. rewrite length_insert in Hlt. rewrite list_lookup_insert_eq in Hl by done.
  injection Hl as _ <-. by left.
Qed.
Lemma runs_insert ws w i x :
  ws !! w = Some (i, x) -> exists A B, concat (map run1 ws) = A ++ run1 (i, x) ++ B /\
  forall y, concat (map run1 (<[w := y]> ws)) = A ++ run1 y ++ B.
Proof.
  intros Hw. destruct (concat_insert (map run1 ws) w (run1 (i, x))) as (A & B & E & H); [by rewrite list_lookup_fmap, Hw|].
  exists A, B. split; [done|]. intros y. rewrite <- H. f_equal. apply list_fmap_insert.
Qed.

Lemma runs_same ws w i x y :
  ws !! w = Some (i, x) -> run1 (i, x) = [] -> run1 y = [] -> concat (map run1 (<[w := y]> ws)) = concat (map run1 ws).
Proof. intros Hw Hx Hy. destruct (runs_insert ws w i x Hw) as (A & B & E & H). by rewrite H, E, Hx, Hy. Qed.

Lemma run1_wake x : run1 (wake x) = run1 x.
Proof. by destruct x as [i []]. Qed.
Lemma holds_wake x : holds (wake x).2 = holds x.2.
Proof. by destruct x as [i []]. Qed.
Lemma wake_not_waiting x : (wake x).2 <> WWait.
Proof. by destruct x as [i []]. Qed.
Lemma wake_cases x : wake x = x \/ x.2 = WWait /\ wake x = (x.1, WWoken).
Proof. destruct x as [i []]; cbn; auto. Qed.

Lemma runs_alter_wake ws w : concat (map run1 (alter wake w ws)) = concat (map run1 ws).
Proof.
  f_equal. revert w. induction ws as [|x ws IH]; intros [|w]; cbn; try done; [by rewrite run1_wake|]. f_equal. apply IH.
Qed.
Lemma runs_map_wake ws : concat (map run1 (map wake ws)) = concat (map run1 ws).
Proof. f_equal. rewrite map_map. apply map_ext. apply run1_wake. Qed.

Lemma elem_runs ws w i t : ws !! w = Some (i, WRun t) -> t ∈ concat (map run1 ws).
Proof. intros Hw. apply (elem_concat _ w [t]); [by rewrite list_lookup_fmap, Hw|left]. Qed.

Lemma payloads_same h h' l : (forall a, a ∈ l -> payload_of <$> h' !! a = payload_of <$> h !! a) -> payloads h' l = payloads h l.
Proof.
  unfold payloads. induction l as [|a l IH]; intros Hs; [done|]. cbn. rewrite (Hs a) by left. destruct (payload_of <$> h !! a); [f_equal|]; apply IH; intros b Hb; apply Hs; by right.
Qed.
Lemma payloads_app h l1 l2 : payloads h (l1 ++ l2) = payloads h l1 ++ payloads h l2.
Proof. apply omap_app. Qed.
Lemma of_prio_app p l1 l2 : of_prio p (l1 ++ l2) = of_prio p l1 ++ of_prio p l2.
Proof. apply list.filter_app. Qed.

Lemma of_prio_one p (x : payload) : of_prio p [x] = if decide (x.2 = p) then [x] else [].
Proof. unfold of_prio. rewrite list.filter_cons. by destruct (decide (x.2 = p)). Qed.
Lemma payloads_cons h a t l : h !! a = Some t -> payloads h (a :: l) = payload_of t :: payloads h l.
Proof. unfold payloads. cbn. by intros ->. Qed.

(** ** A worker moves without touching the tasks *)
Lemma pool_ok_worker s Q w i x i' x' o :
  pool_ok s Q -> s_workers s !! w = Some (i, x) -> run1 (i, x) = [] -> run1 (i', x') = [] ->
  (if holds x' then o = Some w /\ (holds x = true \/ s_owner s = None) else o = if holds x then None else s_owner s) ->
  (steals x' = true -> is_Some (tp_locals (s_pool s))) ->
  (x' = WPark \/ x' = WWait -> concat Q = [] /\ s_destroy s <> DJoin) ->
  (x' = WExit -> s_destroy s <> DNone) ->
  pool_ok (set_owner o (set_worker w i' x' s)) Q.
Proof.
  intros Hok Hw Hx Hx' Ho Hst Hp He.
  assert (runs (set_owner o (set_worker w i' x' s)) = runs s) as Hr by (by apply runs_same with i x).
  pose proof (lookup_lt_Some _ _ _ Hw) as Hlt.
  destruct Hok as [H1 H2 H3 H4 H5 H6 H7 H8 H9 H10 H11 H12 H13 H14 H15 H16 H17 H18].
  constructor; rewrite ?Hr; cbn -[zlen of_prio payloads]; try done.
  - intros v. destruct (decide (v = w)) as [->|Hv].
    + rewrite list_lookup_insert_eq by done. destruct (holds x') eqn:Eh; [destruct Ho as [-> _]; naive_solver|].
      split; [|intros (? & ? & [= <- <-] & ?); congruence]. destruct (holds x) eqn:Ehx; [congruence|]. intros Hsw. exfalso.
      rewrite <- Ho in H2. apply H2 in Hsw as (? & ? & E & ?). rewrite Hw in E. injection E as <- <-. congruence.
    + rewrite list_lookup_insert_ne by done. destruct (holds x') eqn:Eh.
      * destruct Ho as [-> Ho]. split; [congruence|]. intros Hex. apply H2 in Hex. destruct Ho as [Ho|Ho]; [|congruence].
        assert (s_owner s = Some w) by (apply H2; eauto). congruence.
      * destruct (holds x) eqn:Ehx; [|by rewrite Ho]. rewrite Ho. split; [done|]. intros Hex%H2.
        assert (s_owner s = Some w) by (apply H2; eauto). congruence.
  - intros v j y Hv Hs. destruct (insert_case _ _ _ _ _ _ _ Hv) as [[_ ->]|[_ Hv']]; [by apply Hst|by eapply H9].
  - intros v j Hv. destruct (insert_case _ _ _ _ _ _ _ Hv) as [[_ <-]|[_ Hv']]; [by apply Hp; left|by eapply H10].
  - intros Hq. right. destruct (decide (x' = WWait)) as [->|Hn]; [destruct Hp; auto; done|].
    exists w, i', x'. by rewrite list_lookup_insert_eq.
  - intros Hd v j Hv. destruct (insert_case _ _ _ _ _ _ _ Hv) as [[_ <-]|[_ Hv']]; [by apply He|by eapply H12].
  - intros Hd v j y Hv. destruct (insert_case _ _ _ _ _ _ _ Hv) as [[_ ->]|[_ Hv']]; [|by eapply H17].
    split; intros ->; destruct Hp as [_ Hp]; auto.
Qed.

(** The counters and the submitting threads do not matter to the rest. *)
Lemma pool_ok_frame s s' Q :
  pool_ok s Q ->
  tp_heap (s_pool s') = tp_heap (s_pool s) -> tp_queue (s_pool s') = tp_queue (s_pool s) -> tp_locals (s_pool s') = tp_locals (s_pool s) ->
  tp_shutdown (s_pool s') = tp_shutdown (s_pool s) -> tp_immediate (s_pool s') = tp_immediate (s_pool s) ->
  s_owner s' = s_owner s -> s_workers s' = s_workers s -> s_destroy s' = s_destroy s ->
  s_accepted s' = s_accepted s -> s_started s' = s_started s -> s_done s' = s_done s ->
  (stopping (s_destroy s) = true -> forall c x, s_clients s' !! c = Some x -> x = CIdle) -> pool_ok s' Q.
Proof.
  intros [H1 H2 H3 H4 H5 H6 H7 H8 H9 H10 H11 H12 H13 H14 H15 H16 H17 H18] E1 E2 E3 E4 E5 E6 E7 E8 E9 E10 E11 Hc.
  assert (runs s' = runs s) as Er by (unfold runs; by rewrite E7).
  constructor; rewrite ?Er, ?E1, ?E2, ?E3, ?E4, ?E5, ?E6, ?E7, ?E8, ?E9, ?E10, ?E11; done.
Qed.

Lemma steal_from_empty cas ok k h ls :
  (forall q, q ∈ ls -> q_size q = 0 /\ Forall (.= None) (q_heads q)) -> steal_from cas ok k h ls = (None, h, ls).
Proof.
  intros Hls. unfold steal_from. destruct cas; [|done]. cbn [negb]. destruct (ls !! k) as [q|] eqn:E; [|done].
  destruct (Hls q ltac:(by eapply list_elem_of_lookup_2)) as [Hz _]. unfold task_queue_try_pop. rewrite Hz.
  destruct ok; cbn; by rewrite list_insert_id.
Qed.

(** A worker takes a task from the queue. *)
Lemma pool_ok_take s Q w i t h q p l :
  pool_ok s Q -> s_workers s !! w = Some (i, WTake) -> Q !! p = Some (t :: l) -> queue_repr h q (<[p := l]> Q) ->
  same_tasks (tp_heap (s_pool s)) h -> q_shutdown q = q_shutdown (tp_queue (s_pool s)) -> dom h = dom (tp_heap (s_pool s)) ->
  pool_ok (start (payload_of <$> h !! t) (set_owner None (set_worker w i (WRun t) (set_pool (set_tasks h q (tp_locals (s_pool s)) (s_pool s)) s)))) (<[p := l]> Q).
Proof.
  intros Hok Hw HQ Hq Hs Hsd Hdom. destruct (runs_insert _ _ _ _ Hw) as (A & B & Er & Hr). specialize (Hr (i, WRun t)). cbn in Er, Hr.
  destruct (concat_insert Q p _ HQ) as (C & D & Ec & Hc). specialize (Hc l). cbn in Ec.
  destruct (qr_prio _ _ _ (po_queue _ _ Hok) p (t :: l) t HQ ltac:(left)) as (tk & Htk & Hpk).
  pose proof (Hs t) as Eht. rewrite Htk in Eht. destruct (h !! t) as [tk'|] eqn:Eh; [|done]. injection Eht as Ef Ea Ep.
  pose proof (lookup_lt_Some _ _ _ Hw) as Hlt. pose proof (lookup_lt_Some _ _ _ HQ) as HltQ.
  assert (forall l0, payloads h l0 = payloads (tp_heap (s_pool s)) l0) as Hpl by (intros; by apply payloads_same).
  assert ((A ++ t :: B) ++ C ++ l ++ D ≡ₚ (A ++ B) ++ C ++ (t :: l) ++ D) as Hperm.
  { rewrite <- (Permutation_middle A B t). cbn. rewrite <- (Permutation_middle C (l ++ D) t), <- Permutation_middle. done. }
  assert (s_owner s = Some w) as Hown by (apply (po_owner _ _ Hok); eauto).
  destruct Hok as [H1 H2 H3 H4 H5 H6 H7 H8 H9 H10 H11 H12 H13 H14 H15 H16 H17 H18]. unfold runs in H3, H4, H7. rewrite Er, Ec in H3, H4.
  constructor; unfold runs; cbn -[zlen of_prio payloads]; rewrite ?Hr, ?Hc; try done.
  - intros v. split; [done|]. intros (j & y & Hv & Hy). exfalso. destruct (insert_case _ _ _ _ _ _ _ Hv) as [[_ ->]|[Hne Hv']]; [done|].
    assert (s_owner s = Some v) by (apply H2; eauto). congruence.
  - by rewrite Hperm.
  - intros a. rewrite Hperm, <- H4, <- !elem_of_dom. by rewrite Hdom.
  - intros j lj. rewrite of_prio_app, Hpl. destruct (decide (j = p)) as [->|Hj].
    + rewrite list_lookup_insert_eq by done. intros [= <-]. rewrite (H5 p _ HQ). rewrite <- app_assoc. f_equal.
      rewrite (payloads_cons _ _ _ _ Htk), of_prio_one, decide_True by (cbn; congruence). unfold payload_of. by rewrite Ef, Ea, Ep.
    + rewrite list_lookup_insert_ne by done. intros Hlj. rewrite of_prio_one, decide_False by (cbn; lia). rewrite app_nil_r. by apply H5.
  - eapply list.Forall_impl; [exact H6|]. cbn. intros x Hx. unfold zlen in *. by rewrite length_insert.
  - rewrite Er in H7. cbn in H7. rewrite H7, Hpl, !payloads_app, (payloads_cons _ _ _ _ Htk). unfold payload_of. rewrite Ef, Ea, Ep.
    rewrite <- Permutation_cons_append, <- Permutation_middle. done.
  - intros v j y Hv Hy. destruct (insert_case _ _ _ _ _ _ _ Hv) as [[_ ->]|[_ Hv']]; [done|by eapply H9].
  - intros v j Hv. exfalso. destruct (insert_case _ _ _ _ _ _ _ Hv) as [[_ ?]|[Hne Hv']]; [done|]. assert (s_owner s = Some v) by (apply H2; exists j, WPark; done). congruence.
  - intros _. right. exists w, i, (WRun t). by rewrite list_lookup_insert_eq.
  - intros Hd v j Hv. destruct (insert_case _ _ _ _ _ _ _ Hv) as [[_ ?]|[_ Hv']]; [done|by eapply H12].
  - congruence.
  - intros Hd v j y Hv. destruct (insert_case _ _ _ _ _ _ _ Hv) as [[_ ->]|[_ Hv']]; [done|by eapply H17].
Qed.

(** A task returns and its node is freed. *)
Lemma pool_ok_run s Q w i t p' :
  pool_ok s Q -> s_workers s !! w = Some (i, WRun t) ->
  tp_heap p' = delete t (tp_heap (s_pool s)) -> tp_queue p' = tp_queue (s_pool s) -> tp_locals p' = tp_locals (s_pool s) ->
  tp_shutdown p' = tp_shutdown (s_pool s) -> tp_immediate p' = tp_immediate (s_pool s) ->
  pool_ok (finish_task (payload_of <$> tp_heap (s_pool s) !! t) (set_worker w i WLoop (set_pool p' s))) Q.
Proof.
  intros Hok Hw E1 E2 E3 E4 E5. destruct (runs_insert _ _ _ _ Hw) as (A & B & Er & Hr). specialize (Hr (i, WLoop)). cbn in Er, Hr.
  pose proof (lookup_lt_Some _ _ _ Hw) as Hlt.
  destruct Hok as [H1 H2 H3 H4 H5 H6 H7 H8 H9 H10 H11 H12 H13 H14 H15 H16 H17 H18]. unfold runs in H3, H4, H7. rewrite Er in H3, H4, H7.
  assert (t ∉ (A ++ B) ++ concat Q /\ NoDup ((A ++ B) ++ concat Q)) as [Ht Hnd].
  { rewrite <- (Permutation_middle A B t) in H3. by apply list.NoDup_cons in H3. }
  assert (forall l, t ∉ l -> payloads (delete t (tp_heap (s_pool s))) l = payloads (tp_heap (s_pool s)) l) as Hpl.
  { intros l Hl. apply payloads_same. intros a Ha. rewrite lookup_delete_ne; [done|]. by intros ->. }
  rewrite elem_of_app in Ht.
  constructor; unfold runs; cbn -[zlen of_prio payloads]; rewrite ?E1, ?E2, ?E3, ?E4, ?E5, ?Hr; try done.
  - eapply queue_repr_same; [exact H1|]. intros a Ha. rewrite lookup_delete_ne; [done|]. intros ->. tauto.
  - intros v. rewrite H2. split.
    + intros (j & y & Hv & Hy). exists j, y. rewrite list_lookup_insert_ne; [done|]. intros ->. rewrite Hw in Hv. injection Hv as <- <-. done.
    + intros (j & y & Hv & Hy). destruct (insert_case _ _ _ _ _ _ _ Hv) as [[_ ->]|[_ Hv']]; [done|by exists j, y].
  - intros a. destruct (decide (a = t)) as [->|Hne]; [rewrite lookup_delete_eq; split; [by intros [? ?]|rewrite elem_of_app; tauto]|].
    rewrite lookup_delete_ne by done. rewrite H4. rewrite <- (Permutation_middle A B t). cbn. rewrite elem_of_cons. naive_solver.
  - intros p l Hl. rewrite Hpl; [by apply H5|]. intros Hin. destruct Ht. right. by eapply elem_concat.
  - rewrite H7, Hpl by tauto. rewrite !payloads_app. cbn. destruct (payload_of <$> tp_heap (s_pool s) !! t) as [x|]; cbn; [|by rewrite app_nil_r].
    rewrite <- Permutation_middle. rewrite (Permutation_app_comm (s_done s) [x]). cbn. by rewrite <- Permutation_middle.
  - intros v j y Hv Hy. destruct (insert_case _ _ _ _ _ _ _ Hv) as [[_ ->]|[_ Hv']]; [done|by eapply H9].
  - intros v j Hv. destruct (insert_case _ _ _ _ _ _ _ Hv) as [[_ ?]|[_ Hv']]; [done|by eapply H10].
  - intros _. right. exists w, i, WLoop. by rewrite list_lookup_insert_eq.
  - intros Hd v j Hv. destruct (insert_case _ _ _ _ _ _ _ Hv) as [[_ ?]|[_ Hv']]; [done|by eapply H12].
  - intros Hd v j y Hv. destruct (insert_case _ _ _ _ _ _ _ Hv) as [[_ ->]|[_ Hv']]; [done|by eapply H17].
Qed.

(** Waking parked workers. *)
Record woken_from (ws ws' : list (Z * wstate)) : Prop := {
  wf_len : length ws' = length ws;
  wf_runs : concat (map run1 ws') = concat (map run1 ws);
  wf_at : forall v j y, ws' !! v = Some (j, y) -> ws !! v = Some (j, y) \/ y = WWoken /\ ws !! v = Some (j, WWait);
  wf_keep : forall v j y, ws !! v = Some (j, y) -> y <> WWait -> ws' !! v = Some (j, y) }.

Lemma woken_refl ws : woken_from ws ws.
Proof. constructor; auto. Qed.
Lemma woken_alter ws w : woken_from ws (alter wake w ws).
Proof.
  constructor; [apply length_alter|apply runs_alter_wake| |].
  - intros v j y. destruct (decide (v = w)) as [->|Hv]; [|rewrite list_lookup_alter_ne by done; by left]. rewrite list_lookup_alter_eq.
    destruct (ws !! w) as [[k x]|]; cbn; [|done]. intros [= E]. destruct (wake_cases (k, x)) as [H|[H1 H2]]; [left; congruence|].
    rewrite H2 in E. cbn in E, H1. injection E as <- <-. right. by rewrite H1.
  - intros v j y Hv Hy. destruct (decide (v = w)) as [->|Hne]; [|by rewrite list_lookup_alter_ne]. rewrite list_lookup_alter_eq, Hv. cbn.
    by destruct (wake_cases (j, y)) as [->|[H _]].
Qed.
Lemma woken_map ws : woken_from ws (map wake ws).
Proof.
  constructor; [apply length_map|apply runs_map_wake| |].
  - intros v j y. rewrite list_lookup_fmap. destruct (ws !! v) as [[k x]|]; cbn; [|done]. intros [= E].
    destruct (wake_cases (k, x)) as [H|[H1 H2]]; [left; congruence|]. rewrite H2 in E. cbn in E, H1. injection E as <- <-. right. by rewrite H1.
  - intros v j y Hv Hy. rewrite list_lookup_fmap, Hv. cbn. by destruct (wake_cases (j, y)) as [->|[H _]].
Qed.

(** The facts about workers that waking preserves. *)
Lemma woken_owner ws ws' (o : option nat) :
  woken_from ws ws' -> (forall w, o = Some w <-> exists i x, ws !! w = Some (i, x) /\ holds x = true) ->
  forall w, o = Some w <-> exists i x, ws' !! w = Some (i, x) /\ holds x = true.
Proof.
  intros Hw Ho w. rewrite Ho. split; intros (i & x & Hx & Hh); exists i, x; (split; [|done]).
  - apply (wf_keep _ _ Hw); [done|]. by intros ->.
  - by destruct (wf_at _ _ Hw _ _ _ Hx) as [|[-> _]].
Qed.

Lemma woken_forall ws ws' (P : wstate -> Prop) :
  woken_from ws ws' -> P WWoken -> (forall w i x, ws !! w = Some (i, x) -> P x) -> forall w i x, ws' !! w = Some (i, x) -> P x.
Proof. intros Hw H0 HP w i x Hx. destruct (wf_at _ _ Hw _ _ _ Hx) as [|[-> _]]; [by eapply HP|done]. Qed.

(** A submission is queued. *)
Lemma pool_ok_push s Q c f arg prio t h q woken :
  let p := s_pool s in
  pool_ok s Q -> s_clients s !! c = Some (CReady f arg prio) -> s_owner s = None -> tp_heap p !! t = None ->
  task_queue_push t (<[t := mkTask f arg None prio]> (tp_heap p)) (tp_queue p) = (0, h, q) ->
  (match woken with
   | Some w => exists i, s_workers s !! w = Some (i, WWait)
   | None => forall w i, s_workers s !! w <> Some (i, WWait)
   end) ->
  exists Q', length Q' = length Q /\ pool_ok (accept (f, arg, prio) (set_client c CCount (mkSys (set_tasks h q (tp_locals p) p) None
        (match woken with Some w => alter wake w (s_workers s) | None => s_workers s end)
        (s_clients s) (s_destroy s) (s_accepted s) (s_started s) (s_done s)))) Q'.
Proof.
  intros p Hok Hc Hown Ht Hpush Hwk. subst p. unfold task_queue_push in Hpush. rewrite lookup_insert_eq in Hpush. cbn [t_priority] in Hpush.
  pose proof (po_queue _ _ Hok) as Hq. pose proof (qr_heads _ _ _ Hq) as HqL. unfold num_priorities, zlen in Hpush. rewrite HqL in Hpush.
  destruct ((prio <? 0) || (prio >=? Z.of_nat (length Q))) eqn:Eb; [by injection Hpush|].
  apply orb_false_iff in Eb as [E1%Z.ltb_ge E2]. rewrite Z.geb_leb in E2. apply Z.leb_gt in E2.
  destruct (append_task t (Z.to_nat prio) _ _) as [h1 q1] eqn:Ea. injection Hpush as <- <-.
  destruct (lookup_lt_is_Some_2 Q (Z.to_nat prio) ltac:(lia)) as [l Hl].
  assert (t ∉ runs s ++ concat Q) as Hnew by (intros Hin; apply (po_dom _ _ Hok) in Hin as [? ?]; congruence).
  rewrite elem_of_app in Hnew. set (hn := <[t := mkTask f arg None prio]> (tp_heap (s_pool s))) in *.
  assert (forall a, a <> t -> hn !! a = tp_heap (s_pool s) !! a) as Hhn by (intros; by apply lookup_insert_ne).
  assert (queue_repr hn (tp_queue (s_pool s)) Q) as Hqn.
  { eapply queue_repr_same; [exact Hq|]. intros a Ha. apply Hhn. intros ->. tauto. }
  destruct (append_task_spec t (mkTask f arg None prio) (Z.to_nat prio) l hn _ Q h1 q1 Hqn) as (Hq1 & Hs1 & Hsd & Hdom); [apply lookup_insert_eq|cbn; lia|done|tauto|done|].
  set (Q' := <[Z.to_nat prio := l ++ [t]]> Q). exists Q'. split; [apply length_insert|].
  set (ws' := match woken with Some w => alter wake w (s_workers s) | None => s_workers s end).
  assert (woken_from (s_workers s) ws') as Hwf by (subst ws'; destruct woken; [apply woken_alter|apply woken_refl]).
  destruct (concat_insert Q _ _ Hl) as (A & B & Ec & Hins). specialize (Hins (l ++ [t])). fold Q' in Hins.
  assert (forall l0, t ∉ l0 -> payloads h1 l0 = payloads (tp_heap (s_pool s)) l0) as Hpl.
  { intros l0 Hl0. apply payloads_same. intros a Ha. rewrite Hs1, Hhn; [done|]. by intros ->. }
  assert (payloads h1 [t] = [(f, arg, prio)]) as Hplt.
  { unfold payloads. cbn. rewrite Hs1. unfold hn. by rewrite lookup_insert_eq. }
  assert (forall X, X ++ concat Q' ≡ₚ t :: X ++ concat Q) as Hperm.
  { intros X. rewrite Hins, Ec. rewrite Permutation_middle, <- app_assoc. f_equiv. cbn. by rewrite <- !Permutation_middle. }
  destruct Hok as [H1 H2 H3 H4 H5 H6 H7 H8 H9 H10 H11 H12 H13 H14 H15 H16 H17 H18].
  constructor; unfold runs; cbn -[zlen of_prio payloads]; fold ws'; rewrite ?(wf_runs _ _ Hwf); fold (runs s); try done.
  - rewrite <- Hown. by apply (woken_owner (s_workers s)).
  - rewrite Hperm. apply list.NoDup_cons. split; [rewrite elem_of_app; tauto|done].
  - intros a. rewrite <- elem_of_dom, Hdom, elem_of_dom, Hperm, elem_of_cons, <- H4. destruct (decide (a = t)) as [->|Hne].
    + unfold hn. rewrite lookup_insert_eq. split; [by left|by eexists].
    + rewrite Hhn by done. naive_solver.
  - intros j lj. rewrite of_prio_app, of_prio_one. cbn [snd]. destruct (decide (j = Z.to_nat prio)) as [->|Hj].
    + unfold Q'. rewrite list_lookup_insert_eq by lia. intros [= <-]. rewrite decide_True by lia. rewrite (H5 _ _ Hl), payloads_app, Hplt, Hpl, <- app_assoc; [done|].
      intros Hin. apply Hnew. right. by eapply elem_concat.
    + unfold Q'. rewrite list_lookup_insert_ne by done. intros Hlj. rewrite decide_False by lia. rewrite app_nil_r, Hpl; [by apply H5|].
      intros Hin. apply Hnew. right. by eapply elem_concat.
  - apply Forall_app. unfold zlen, Q' in *. rewrite length_insert. split; [done|]. repeat constructor; cbn; lia.
  - rewrite Hpl by tauto. done.
  - intros w i x Hx Hst. revert Hst. eapply (woken_forall _ _ (fun x => steals x = true -> is_Some (tp_locals (s_pool s))) Hwf); [done|exact H9|exact Hx].
  - intros w i Hw. exfalso. destruct (wf_at _ _ Hwf _ _ _ Hw) as [Hw'|[? _]]; [|done].
    assert (s_owner s = Some w) by (apply H2; exists i, WPark; done). congruence.
  - intros _. subst ws'. destruct woken as [w|].
    + destruct Hwk as [i Hi]. right. exists w, i, WWoken. by rewrite list_lookup_alter_eq, Hi.
    + destruct (s_workers s) as [|[i x] ws] eqn:Ew; [by left|]. right. exists 0%nat, i, x. split; [done|]. intros ->. by apply (Hwk 0%nat i).
  - intros Hd w i Hw. eapply (woken_forall _ _ (fun x => x <> WExit) Hwf); [done| |exact Hw|done]. intros v j x Hx ->. by eapply (H12 Hd v j).
  - rewrite Hsd. done.
  - intros Hstp. exfalso. by specialize (H16 Hstp c _ Hc).
  - intros Hd w i x Hx. eapply (woken_forall _ _ (fun x => x <> WWait /\ x <> WPark) Hwf); [done|exact (H17 Hd)|exact Hx].
Qed.

(** ** The end of a shutdown *)
Record pool_final (s : system) : Prop := {
  pf_done : s_destroy s = DDone;
  pf_heap : tp_heap (s_pool s) = ∅;
  pf_exit : forall w i x, s_workers s !! w = Some (i, x) -> x = WExit;
  pf_clients : forall c x, s_clients s !! c = Some x -> x = CIdle;
  pf_run : s_started s ≡ₚ s_done s;
  pf_order : forall p, 0 <= p < num_priorities (tp_queue (s_pool s)) -> exists dropped, of_prio p (s_accepted s) = of_prio p (s_started s) ++ dropped }.

Lemma drain_locals_empty h ls :
  (forall q, q ∈ ls -> q_size q = 0 /\ Forall (.= None) (q_heads q)) -> (drain_locals h ls).1 = h.
Proof.
  revert h. induction ls as [|q ls IH]; intros h Hls; [done|]. cbn.
  assert (foldl (fun h hd => free_chain (size h) hd h) h (q_heads q) = h) as ->.
  { destruct (Hls q ltac:(left)) as [_ Hf]. clear - Hf. induction Hf as [|x l -> _ IH]; [done|]. cbn. by destruct (size h). }
  specialize (IH h). destruct (drain_locals h ls) as [h' ls']. cbn in *. apply IH. intros q' Hq'. apply Hls. by right.
Qed.

Lemma pool_ok_drain s Q :
  pool_ok s Q -> s_destroy s = DJoin -> (forall w i x, s_workers s !! w = Some (i, x) -> x = WExit) ->
  pool_final (set_destroy DDone (set_pool (drain_pool (s_pool s)) s)).
Proof.
  intros Hok Hd Hex. assert (runs s = []) as Hr.
  { apply concat_nil. intros j l. rewrite list_lookup_fmap. destruct (s_workers s !! j) as [[i x]|] eqn:E; [|done]. cbn. intros [= <-]. by rewrite (Hex _ _ _ E). }
  assert (tp_heap (drain_pool (s_pool s)) = ∅) as Hheap.
  { unfold drain_pool. destruct (task_queue_drain _ _) as [h q] eqn:E. destruct (task_queue_drain_spec _ _ _ _ _ (po_queue _ _ Hok) E) as [Hh _].
    assert (h = ∅) as ->.
    { apply map_empty. intros a. rewrite Hh. destruct (decide (a ∈ concat Q)) as [|Hn]; [done|]. apply eq_None_not_Some. rewrite (po_dom _ _ Hok), Hr. done. }
    destruct (tp_locals (s_pool s)) as [ls|] eqn:El; [|done]. pose proof (drain_locals_empty ∅ ls (fun q => po_locals _ _ Hok ls q El)) as Hl.
    destruct (drain_locals ∅ ls). exact Hl. }
  assert (num_priorities (tp_queue (drain_pool (s_pool s))) = num_priorities (tp_queue (s_pool s))) as Hnum.
  { unfold drain_pool, num_priorities, zlen. cbn. destruct (tp_locals (s_pool s)) as [ls|]; [destruct (drain_locals _ ls)|]; cbn; by rewrite length_replicate. }
  constructor; cbn -[of_prio num_priorities drain_pool]; try done.
  - apply (po_clients _ _ Hok). by rewrite Hd.
  - rewrite (po_started _ _ Hok), Hr. done.
  - intros p Hp. rewrite Hnum in Hp. unfold num_priorities, zlen in Hp. rewrite (qr_heads _ _ _ (po_queue _ _ Hok)) in Hp.
    destruct (lookup_lt_is_Some_2 Q (Z.to_nat p)) as [l Hl]; [lia|]. eexists. pose proof (po_fifo _ _ Hok _ _ Hl) as Hf.
    rewrite Z2Nat.id in Hf by lia. exact Hf.
Qed.

(** ** The phases of a shutdown *)
Lemma queue_repr_flag h q Q : queue_repr h q Q -> queue_repr h (flag_queue q) Q.
Proof. by intros [? ? ? ? ? ?]. Qed.

Lemma pool_ok_stop s Q p' :
  pool_ok s Q -> s_destroy s = DNone -> (forall c x, s_clients s !! c = Some x -> x = CIdle) ->
  tp_heap p' = tp_heap (s_pool s) -> tp_queue p' = tp_queue (s_pool s) -> tp_locals p' = tp_locals (s_pool s) -> tp_shutdown p' = true ->
  tp_immediate p' = tp_immediate (s_pool s) -> pool_ok (set_destroy DFlag (set_pool p' s)) Q.
Proof.
  intros [H1 H2 H3 H4 H5 H6 H7 H8 H9 H10 H11 H12 H13 H14 H15 H16 H17 H18] Hd Hcl E1 E2 E3 E4 E5. rewrite Hd in H15.
  constructor; unfold runs; cbn -[zlen of_prio payloads]; rewrite ?E1, ?E2, ?E3, ?E4, ?E5; done.
Qed.

Lemma pool_ok_flag s Q :
  pool_ok s Q -> s_destroy s = DFlag ->
  pool_ok (set_destroy DLock (set_pool (set_tasks (tp_heap (s_pool s)) (flag_queue (tp_queue (s_pool s))) (tp_locals (s_pool s)) (s_pool s)) s)) Q.
Proof.
  intros [H1 H2 H3 H4 H5 H6 H7 H8 H9 H10 H11 H12 H13 H14 H15 H16 H17 H18] Hd. rewrite Hd in H14, H16.
  constructor; unfold runs; cbn -[zlen of_prio payloads]; try done. by apply queue_repr_flag.
Qed.

Lemma pool_ok_broadcast s Q :
  let p := s_pool s in pool_ok s Q -> s_destroy s = DLock -> s_owner s = None ->
  pool_ok (mkSys (set_tasks (tp_heap p) (tp_queue p) (map flag_queue <$> tp_locals p) p) None
    (map wake (s_workers s)) (s_clients s) DJoin (s_accepted s) (s_started s) (s_done s)) Q.
Proof.
  intros p [H1 H2 H3 H4 H5 H6 H7 H8 H9 H10 H11 H12 H13 H14 H15 H16 H17 H18] Hd Ho. subst p. rewrite Hd in H14, H15, H16.
  pose proof (woken_map (s_workers s)) as Hwf.
  constructor; unfold runs; cbn -[zlen of_prio payloads]; rewrite ?(wf_runs _ _ Hwf); try done.
  - rewrite <- Ho. by apply (woken_owner (s_workers s)).
  - intros ls q. destruct (tp_locals (s_pool s)) as [ls0|]; [|done]. cbn. intros [= <-] (q0 & -> & Hq)%list_elem_of_fmap. by apply (H8 ls0 q0).
  - intros w i x Hx Hst. apply (fmap_is_Some). revert Hst.
    eapply (woken_forall _ _ (fun x => steals x = true -> is_Some (tp_locals (s_pool s))) Hwf); [done|exact H9|exact Hx].
  - intros w i Hw. destruct (wf_at _ _ Hwf _ _ _ Hw) as [Hw'|[? _]]; [by eapply H10|done].
  - intros _. destruct (s_workers s) as [|x ws]; [by left|]. right. exists 0%nat, (wake x).1, (wake x).2. split; [by destruct x as [i []]|apply wake_not_waiting].
  - intros _ w i x Hx. split.
    + rewrite list_lookup_fmap in Hx. destruct (s_workers s !! w) as [y|]; [|done]. injection Hx as E. pose proof (wake_not_waiting y) as Hn. by rewrite E in Hn.
    + intros ->. destruct (wf_at _ _ Hwf _ _ _ Hx) as [Hw'|[? _]]; [|done]. assert (s_owner s = Some w) by (apply H2; exists i, WPark; done). congruence.
Qed.

(** ** Every step keeps the invariant *)
(** A step in which one worker moves and at most a counter changes; what is
    left is what the new place asks for. *)
Ltac worker_move Hok Hw x o :=
  eapply pool_ok_frame;
  [eapply (pool_ok_worker _ _ _ _ _ _ x o Hok Hw); try done; try (by intros [?|?]; done)|..];
  try done; try (cbn; by rewrite app_nil_r); try apply Hok.

Lemma pool_ok_step s s' Q : pool_ok s Q -> step s s' -> pool_final s' \/ exists Q', length Q' = length Q /\ pool_ok s' Q'.
Proof.
  intros Hok Hst. destruct Hst as [Hst|Hst|Hst];
    [destruct Hst as [w i s p Hw|w i s p Hw|w i ls ok t h ls' s p Hw Hls He|w i x s Hw Hx Ho|w i s Hw|w i s Hw|w i s Hw|w i t h q s p Hw He
    |w i n cas ok t h ls ls' s p Hw Hls Hn He|w i n s Hw Hn|w i s Hw|w i t s p Hw]|destruct Hst as [c f arg prio s Hc Hd|c f arg prio s Hc|c f arg prio s Hc Hp
    |c f arg prio t h q woken s p Hc Ho Ht Hpush Hwk|c s p Hc]|destruct Hst as [s p Hd Hcl|s p Hd|s p Hd Ho|s Hd Hex]].
  - right. exists Q. split; [done|]. worker_move Hok Hw WLoop (s_owner s).
  - right. exists Q. split; [done|]. pose proof (po_stop _ _ Hok) as Hstop. fold p in Hstop. destruct (tp_shutdown p); [|destruct (tp_locals p) eqn:El].
    + worker_move Hok Hw WExit (s_owner s). intros _ Hd. by rewrite Hd in Hstop.
    + worker_move Hok Hw WLocal (s_owner s); by eexists.
    + worker_move Hok Hw WLock (s_owner s).
  - right. exists Q. split; [done|]. rewrite (steal_from_empty _ _ _ _ _ (fun q => po_locals _ _ Hok ls q Hls)) in He.
    apply pair_equal_spec in He as [[<- <-]%pair_equal_spec <-]. worker_move Hok Hw WLock (s_owner s).
  - right. exists Q. split; [done|]. worker_move Hok Hw WCheck (Some w); [by destruct Hx as [-> | ->]|by split; [|right]].
  - right. exists Q. split; [done|]. assert (s_owner s = Some w) as Hown by (apply (po_owner _ _ Hok); exists i, WCheck; done).
    destruct (must_wait (tp_queue (s_pool s))) eqn:Ew.
    + worker_move Hok Hw WPark (s_owner s); [by split; [|left]|]. intros _. apply andb_true_iff in Ew as [Ez%Z.eqb_eq Ef%negb_true_iff].
      rewrite (qr_size _ _ _ (po_queue _ _ Hok)) in Ez. split; [apply nil_length_inv; lia|]. intros Hj. by rewrite (po_flag _ _ Hok), Hj in Ef.
    + worker_move Hok Hw WTake (s_owner s). by split; [|left].
  - right. exists Q. split; [done|]. worker_move Hok Hw WWait (@None nat).
    intros _. split; [by eapply (po_park _ _ Hok)|]. intros Hd. by destruct (po_join _ _ Hok Hd _ _ _ Hw).
  - right. exists Q. split; [done|]. worker_move Hok Hw WWoken (s_owner s).
  - right. pose proof (pop_locked_spec _ _ _ _ _ _ (po_queue _ _ Hok) He) as Hpop. destruct t as [t|].
    + destruct Hpop as (k & l & Hk & _ & Hq & Hs & Hsd & Hdom). exists (<[k := l]> Q). split; [apply length_insert|].
      exact (pool_ok_take s Q w i t h q k l Hok Hw Hk Hq Hs Hsd Hdom).
    + destruct Hpop as (-> & -> & Hnil). exists Q. split; [done|]. cbn [mbind option_bind after_pop].
      destruct (tp_locals p) eqn:El; [worker_move Hok Hw (WSteal 1) (@None nat); by eexists|worker_move Hok Hw WEmpty (@None nat)].
  - right. exists Q. split; [done|]. rewrite (steal_from_empty _ _ _ _ _ (fun q => po_locals _ _ Hok ls q Hls)) in He.
    apply pair_equal_spec in He as [[<- <-]%pair_equal_spec <-]. worker_move Hok Hw (WSteal (S n)) (s_owner s); by eexists.
  - right. exists Q. split; [done|]. worker_move Hok Hw WEmpty (s_owner s).
  - right. exists Q. split; [done|]. rewrite (po_now _ _ Hok). worker_move Hok Hw WLoop (s_owner s).
  - right. exists Q. split; [done|]. by apply pool_ok_run.
  - right. exists Q. split; [done|]. eapply pool_ok_frame; [exact Hok|..]; try done. intros Hs. by rewrite Hd in Hs.
  - right. exists Q. split; [done|]. eapply pool_ok_frame; [exact Hok|..]; try done. intros Hs. by specialize (po_clients _ _ Hok Hs _ _ Hc).
  - right. exists Q. split; [done|]. eapply pool_ok_frame; [exact Hok|..]; try done. intros Hs. by specialize (po_clients _ _ Hok Hs _ _ Hc).
  - right. by eapply pool_ok_push.
  - right. exists Q. split; [done|]. eapply pool_ok_frame; [exact Hok|..]; try done. intros Hs. by specialize (po_clients _ _ Hok Hs _ _ Hc).
  - right. exists Q. split; [done|]. by apply pool_ok_stop.
  - right. exists Q. split; [done|]. by apply pool_ok_flag.
  - right. exists Q. split; [done|]. by apply pool_ok_broadcast.
  - left. by eapply pool_ok_drain.
Qed.

(** ** Reachable states *)
Definition pool_reach (n clients : nat) (stealing : bool) (prios : Z) (s : system) : Prop := rtc step (initial n clients stealing prios) s.

Lemma pool_ok_initial n clients stealing prios : pool_ok (initial n clients stealing prios) (replicate (Z.to_nat prios) []).
Proof.
  assert (concat (replicate (Z.to_nat prios) ([] : list Z)) = []) as E by (apply concat_nil; intros j l [-> _]%lookup_replicate; done).
  assert (runs (initial n clients stealing prios) = []) as Er.
  { apply concat_nil. intros j l. cbn. rewrite list_lookup_fmap. intros (x & [-> _]%lookup_replicate & ->)%fmap_Some. done. }
  constructor; rewrite ?Er, ?E; cbn; try done.
  - apply queue_repr_empty.
  - intros w. split; [done|]. by intros (i & x & [[= -> ->] _]%lookup_replicate & ?).
  - apply NoDup_nil_2.
  - intros a. rewrite lookup_empty. split; [by intros [? ?]|by intros ?%not_elem_of_nil].
  - by intros p l [-> _]%lookup_replicate.
  - intros ls q. destruct stealing; [|done]. intros [= <-] [k [-> _]%lookup_replicate]%list_elem_of_lookup. split; [done|]. by apply Forall_replicate.
  - by intros w i x [[= -> ->] _]%lookup_replicate.
  - by intros _ w i [[= ? ?] _]%lookup_replicate.
Qed.

Lemma pool_final_stuck s s' : pool_final s -> ~ step s s'.
Proof.
  intros [Hd _ Hex Hcl _ _] Hst. destruct Hst as [Hst|Hst|Hst];
    [destruct Hst as [? ? ? ? Hw|? ? ? ? Hw|? ? ? ? ? ? ? ? ? Hw|? ? ? ? Hw Hx|? ? ? Hw|? ? ? Hw|? ? ? Hw|? ? ? ? ? ? ? Hw
    |? ? ? ? ? ? ? ? ? ? ? Hw|? ? ? ? Hw|? ? ? Hw|? ? ? ? ? Hw]|destruct Hst as [? ? ? ? ? Hc|? ? ? ? ? Hc|? ? ? ? ? Hc|? ? ? ? ? ? ? ? ? ? Hc|? ? ? Hc]|destruct Hst as [| | |]];
    try (by specialize (Hex _ _ _ Hw)); try (by specialize (Hcl _ _ Hc)); try congruence.
  specialize (Hex _ _ _ Hw). by destruct Hx; congruence.
Qed.

Lemma pool_reach_inv n clients stealing prios s :
  pool_reach n clients stealing prios s -> pool_final s \/ exists Q, length Q = Z.to_nat prios /\ pool_ok s Q.
Proof.
  unfold pool_reach. intros Hr. assert (pool_final (initial n clients stealing prios) \/ exists Q, length Q = Z.to_nat prios /\ pool_ok (initial n clients stealing prios) Q) as H0.
  { right. eexists. split; [|apply pool_ok_initial]. apply length_replicate. }
  induction Hr as [s|s1 s2 s3 Hst _ IH]; [done|]. apply IH. destruct H0 as [Hf|(Q & HQ & Hok)]; [by eapply pool_final_stuck in Hst|].
  destruct (pool_ok_step _ _ _ Hok Hst) as [?|(Q' & Hl & Hok')]; [by left|]. right. exists Q'. split; [congruence|done].
Qed.

(** ** Progress *)
(** A worker that holds the mutex can always go on. *)
Lemma holder_steps s w i x :
  s_workers s !! w = Some (i, x) -> holds x = true -> exists s', step s s' /\ s_workers s' !! w <> Some (i, x).
Proof.
  intros Hw Hx. pose proof (lookup_lt_Some _ _ _ Hw) as Hlt. destruct x; try done.
  - eexists. split; [by eapply by_worker, st_check|]. cbn. rewrite list_lookup_insert_eq by done. by destruct (must_wait (tp_queue (s_pool s))).
  - eexists. split; [by eapply by_worker, st_park|]. cbn. by rewrite list_lookup_insert_eq.
  - destruct (pop_locked (tp_heap (s_pool s)) (tp_queue (s_pool s))) as [[t h] q] eqn:E. eexists. split; [by eapply by_worker, st_take|].
    cbn. rewrite list_lookup_insert_eq by done. destruct t, (tp_locals (s_pool s)); done.
Qed.

(** With the mutex free, every worker that is neither parked nor gone can. *)
Lemma active_steps s Q w i x :
  pool_ok s Q -> s_owner s = None -> s_workers s !! w = Some (i, x) -> x <> WWait -> x <> WExit ->
  exists s', step s s' /\ s_workers s' !! w <> Some (i, x).
Proof.
  intros Hok Ho Hw Hx1 Hx2. pose proof (lookup_lt_Some _ _ _ Hw) as Hlt. destruct (holds x) eqn:Hh; [by eapply holder_steps|].
  destruct x; try done.
  - eexists. split; [by eapply by_worker, st_begin|]. cbn. by rewrite list_lookup_insert_eq.
  - eexists. split; [by eapply by_worker, st_loop|]. cbn. rewrite list_lookup_insert_eq by done. by destruct (tp_shutdown (s_pool s)), (tp_locals (s_pool s)).
  - destruct (po_steals _ _ Hok _ _ _ Hw eq_refl) as [ls Hls]. eexists. split.
    + eapply by_worker, (st_local w i ls true); [done|done|]. apply steal_from_empty. intros q. by apply (po_locals _ _ Hok).
    + cbn. by rewrite list_lookup_insert_eq.
  - eexists. split; [eapply by_worker, st_lock; [done|by left|done]|]. cbn. by rewrite list_lookup_insert_eq.
  - eexists. split; [eapply by_worker, st_lock; [done|by right|done]|]. cbn. by rewrite list_lookup_insert_eq.
  - destruct (decide (i0 < length (s_workers s))%nat) as [Hn|Hn].
    + destruct (po_steals _ _ Hok _ _ _ Hw eq_refl) as [ls Hls]. eexists. split.
      * eapply by_worker, (st_steal w i i0 true true); [done|done|done|]. apply steal_from_empty. intros q. by apply (po_locals _ _ Hok).
      * cbn. rewrite list_lookup_insert_eq by done. intros [= E]. lia.
    + eexists. split; [eapply by_worker, st_stolen; [done|lia]|]. cbn. by rewrite list_lookup_insert_eq.
  - eexists. split; [by eapply by_worker, st_run|]. cbn. by rewrite list_lookup_insert_eq.
  - eexists. split; [by eapply by_worker, st_empty|]. cbn. rewrite list_lookup_insert_eq by done. by destruct (tp_immediate (s_pool s)).
Qed.

(** Somebody who is not parked goes on. *)
Lemma pool_progress s Q w i x :
  pool_ok s Q -> s_workers s !! w = Some (i, x) -> x <> WWait -> x <> WExit ->
  exists v j y s', s_workers s !! v = Some (j, y) /\ y <> WWait /\ step s s' /\ s_workers s' !! v <> Some (j, y).
Proof.
  intros Hok Hw H1 H2. destruct (s_owner s) as [v|] eqn:Ho.
  - apply (po_owner _ _ Hok) in Ho as (j & y & Hv & Hy). destruct (holder_steps _ _ _ _ Hv Hy) as (s' & Hs & Hne).
    exists v, j, y, s'. split_and!; try done. by intros ->.
  - destruct (active_steps _ _ _ _ _ Hok Ho Hw H1 H2) as (s' & Hs & Hne). exists w, i, x, s'. done.
Qed.

(** ** The end of a shutdown *)
(** How far a worker is from its exit once both flags are set. *)
Definition distance (n : nat) (x : Z * wstate) : nat :=
  match x.2 with
  | WExit => 0 | WLoop => 1 | WEmpty | WRun _ => 2 | WSteal i => 3 + (n - i) | WTake => n + 4 | WCheck => n + 5
  | WLock | WWoken => n + 6 | WWait | WLocal => n + 7 | WPark => n + 8 | WBegin => 2
  end.
Definition phase_rank (d : dstate) : nat := match d with DNone => 4 | DFlag => 3 | DLock => 2 | DJoin => 1 | DDone => 0 end.
Definition work_left (s : system) : nat := sum_list_with (distance (length (s_workers s))) (s_workers s) + phase_rank (s_destroy s).

Lemma sum_insert {X} (f : X -> nat) ws w y z :
  ws !! w = Some y -> (sum_list_with f (<[w := z]> ws) + f y = sum_list_with f ws + f z)%nat.
Proof. revert w. induction ws as [|x ws IH]; intros [|w]; cbn; try done; [intros [= ->]; lia|]. intros H%IH. rewrite <- !Nat.add_assoc. f_equal. exact H. Qed.

Lemma sum_wake n ws : (sum_list_with (distance n) (map wake ws) <= sum_list_with (distance n) ws)%nat.
Proof.
  induction ws as [|[i x] ws IH]; cbn [map sum_list_with]; [lia|].
  assert (distance n (wake (i, x)) <= distance n (i, x))%nat by (destruct x; cbn; lia). lia.
Qed.

Lemma work_left_worker s w i x i' x' s' :
  s_workers s !! w = Some (i, x) -> s_workers s' = <[w := (i', x')]> (s_workers s) -> s_destroy s' = s_destroy s ->
  (distance (length (s_workers s)) (i', x') < distance (length (s_workers s)) (i, x))%nat -> (work_left s' < work_left s)%nat.
Proof.
  intros Hw Es Ed Hlt. unfold work_left. rewrite Es, Ed, length_insert.
  pose proof (sum_insert (distance (length (s_workers s))) _ _ _ (i', x') Hw). lia.
Qed.

Lemma flagged_step s s' Q :
  pool_ok s Q -> flagged (s_destroy s) = true -> step s s' -> (work_left s' < work_left s)%nat /\ flagged (s_destroy s') = true.
Proof.
  intros Hok Hfl Hst. assert (tp_shutdown (s_pool s) = true) as Hsd by (rewrite (po_stop _ _ Hok); by destruct (s_destroy s)).
  assert (must_wait (tp_queue (s_pool s)) = false) as Hmw by (unfold must_wait; rewrite (po_flag _ _ Hok), Hfl; apply andb_false_r).
  assert (forall c x, s_clients s !! c = Some x -> x = CIdle) as Hcl by (apply (po_clients _ _ Hok); by destruct (s_destroy s)).
  pose proof (po_locals _ _ Hok) as Hloc.
  destruct Hst as [Hst|Hst|Hst];
    [destruct Hst as [w i s p Hw|w i s p Hw|w i ls ok t h ls' s p Hw Hls He|w i x s Hw Hx Ho|w i s Hw|w i s Hw|w i s Hw|w i t h q s p Hw He
    |w i n cas ok t h ls ls' s p Hw Hls Hn He|w i n s Hw Hn|w i s Hw|w i t s p Hw]|destruct Hst as [c f arg prio s Hc Hd|c f arg prio s Hc|c f arg prio s Hc Hp
    |c f arg prio t h q woken s p Hc Ho Ht Hpush Hwk|c s p Hc]|destruct Hst as [s p Hd Hcl'|s p Hd|s p Hd Ho|s Hd Hex]];
    try (by specialize (Hcl _ _ Hc)); try (by rewrite Hd in Hfl); (split; [|done]) || idtac.
  - eapply work_left_worker; [exact Hw|done|done|cbn; lia].
  - eapply work_left_worker; [exact Hw|done|done|]. fold p in Hsd. rewrite Hsd. cbn. lia.
  - rewrite (steal_from_empty _ _ _ _ _ (fun q => Hloc ls q Hls)) in He. apply pair_equal_spec in He as [[<- <-]%pair_equal_spec <-].
    eapply work_left_worker; [exact Hw|done|done|cbn; lia].
  - eapply work_left_worker; [exact Hw|done|done|]. destruct Hx as [-> | ->]; cbn; lia.
  - eapply work_left_worker; [exact Hw|done|done|]. rewrite Hmw. cbn. lia.
  - eapply work_left_worker; [exact Hw|done|done|cbn; lia].
  - eapply work_left_worker; [exact Hw|done|done|cbn; lia].
  - eapply work_left_worker; [exact Hw|done|done|]. destruct t, (tp_locals p); cbn; lia.
  - rewrite (steal_from_empty _ _ _ _ _ (fun q => Hloc ls q Hls)) in He. apply pair_equal_spec in He as [[<- <-]%pair_equal_spec <-].
    eapply work_left_worker; [exact Hw|done|done|]. unfold distance. cbn [snd after_pop]. lia.
  - eapply work_left_worker; [exact Hw|done|done|cbn; lia].
  - eapply work_left_worker; [exact Hw|done|done|]. rewrite (po_now _ _ Hok). cbn. lia.
  - eapply work_left_worker; [exact Hw|done|done|cbn; lia].
  - unfold work_left. cbn [s_workers s_destroy]. rewrite Hd, length_map. pose proof (sum_wake (length (s_workers s)) (s_workers s)). cbn. lia.
  - unfold work_left. cbn. rewrite Hd. cbn. lia.
Qed.

Lemma flagged_terminates s Q : pool_ok s Q -> flagged (s_destroy s) = true -> sn step s.
Proof.
  intros Hok Hfl. remember (work_left s) as n eqn:En. revert s Q Hok Hfl En.
  induction n as [n IH] using lt_wf_ind. intros s Q Hok Hfl ->. constructor. intros s' Hst. cbn in Hst.
  destruct (flagged_step _ _ _ Hok Hfl Hst) as [Hlt Hfl']. destruct (pool_ok_step _ _ _ Hok Hst) as [Hfin|(Q' & _ & Hok')].
  - constructor. intros s'' Hst'. by apply (pool_final_stuck _ _ Hfin) in Hst'.
  - by eapply IH.
Qed.

(** With both flags set, something can happen until the pool is gone. *)
Lemma flagged_not_stuck s Q : pool_ok s Q -> flagged (s_destroy s) = true -> exists s', step s s'.
Proof.
  intros Hok Hfl. destruct (s_owner s) as [v|] eqn:Ho.
  { apply (po_owner _ _ Hok) in Ho as (j & y & Hv & Hy). destruct (holder_steps _ _ _ _ Hv Hy) as (s' & Hs & _). by exists s'. }
  destruct (s_destroy s) eqn:Ed; try done; [eexists; by apply by_destroyer, st_broadcast| |by destruct (po_open _ _ Hok)].
  destruct (decide (Forall (fun x => x.2 = WExit) (s_workers s))) as [Hall|Hn].
  - eexists. apply by_destroyer, st_join; [done|]. intros w i x Hx. eapply Forall_lookup_1 in Hall; [|exact Hx]. done.
  - apply not_Forall_Exists in Hn; [|intros; apply wstate_eq_dec]. apply list.Exists_exists in Hn as ([i x] & [w Hw]%list_elem_of_lookup & Hx).
    destruct (po_join _ _ Hok Ed _ _ _ Hw) as [Hx1 _]. destruct (active_steps _ _ _ _ _ Hok Ho Hw Hx1 Hx) as (s' & Hs & _). by exists s'.
Qed.

Lemma flagged_run s s' Q :
  pool_ok s Q -> flagged (s_destroy s) = true -> rtc step s s' -> nf step s' -> pool_final s'.
Proof.
  intros Hok Hfl Hr. revert Q Hok Hfl. induction Hr as [s|s1 s2 s3 Hst Hr IH]; intros Q Hok Hfl Hnf.
  - exfalso. destruct (flagged_not_stuck _ _ Hok Hfl) as [s' Hs]. apply Hnf. by exists s'.
  - destruct (flagged_step _ _ _ Hok Hfl Hst) as [_ Hfl']. destruct (pool_ok_step _ _ _ Hok Hst) as [Hfin|(Q' & _ & Hok')]; [|by eapply IH].
    destruct Hr as [|a b c Hs _]; [done|]. by apply (pool_final_stuck _ _ Hfin) in Hs.
Qed.
