(* ===== verification/Balancer.v ===== *)
(** * The balancer's proxy loop (balancer/src/balancer.c)

    Connections live in a heap by address; [lb_closed] is the list linked
    through [next_closed]. A buffer with its length is the list of its valid
    bytes. What the kernel answers (reads, writes, accepts, times, readiness)
    comes with each event. Handlers give [None] when they touch a connection
    that is no longer allocated. [epoll_ctl] changes the interest of an open
    descriptor without failing. The last four fields of a connection collect
    the bytes read from and written to its two sides. *)
From Stdlib Require Import String.
From S2P Require Import Prelude Text HttpTypes HttpText Selection.

Local Open Scope Z_scope.

Definition LB_BUFFER_SIZE : Z := 8192.
Definition MAX_BACKENDS : Z := 100.
Definition EPOLLIN : Z := 1.
Definition EPOLLOUT : Z := 4.
Definition EPOLLERR : Z := 8.
Definition EPOLLHUP : Z := 16.
Definition has_flag (events flag : Z) : bool := negb (Z.land events flag =? 0).

Inductive lb_strategy := LB_STRATEGY_ROUND_ROBIN | LB_STRATEGY_LEAST_CONN | LB_STRATEGY_IP_HASH | LB_STRATEGY_RANDOM.
Inductive io_role := IO_LISTEN | IO_CLIENT | IO_BACKEND.
#[global] Instance io_role_eq_dec : EqDecision io_role.
Proof. solve_decision. Defined.

(** A monotonic time: seconds and nanoseconds. *)
Definition timespec : Type := Z * Z.

Record lb_connection := mkLbConn {
  lc_backend : nat; lc_addr : sockaddr;
  lc_hdr : bytes; lc_hdr_sent : Z;  (** proxy_hdr, proxy_hdr_sent *)
  lc_cbuf : bytes; lc_csent : Z;  (** client_buffer, client_buffer_sent *)
  lc_bbuf : bytes; lc_bsent : Z;  (** backend_buffer, backend_buffer_sent *)
  lc_start : timespec; lc_eof : bool; lc_closed : bool;
  lc_cevents : Z; lc_bevents : Z;  (** the interest registered for the two sockets *)
  lc_from_client : bytes; lc_to_backend : bytes; lc_from_backend : bytes; lc_to_client : bytes }.

(** Counters of [backend_t] that selection does not read. *)
Record backend_stats := mkStats { total_requests : Z; avg_response_time : Z }.

Record load_balancer := mkLb {
  lb_backends : list backend; lb_stats : list backend_stats; lb_hosts : list (bytes * Z);
  lb_strategy_of : lb_strategy; lb_conns : gmap Z lb_connection; lb_closed : list Z }.

Definition set_backends (bs : list backend) (lb : load_balancer) : load_balancer :=
  mkLb bs (lb_stats lb) (lb_hosts lb) (lb_strategy_of lb) (lb_conns lb) (lb_closed lb).
Definition set_conn (a : Z) (c : lb_connection) (lb : load_balancer) : load_balancer :=
  mkLb (lb_backends lb) (lb_stats lb) (lb_hosts lb) (lb_strategy_of lb) (<[a := c]> (lb_conns lb)) (lb_closed lb).

(** ** Start *)
Definition load_balancer_init (epoll_ok listen_ok nonblocking_ok register_ok : bool) : option load_balancer :=
  if negb epoll_ok then None else if negb listen_ok then None else if negb nonblocking_ok then None else if negb register_ok then None else
  Some (mkLb [] [] [] LB_STRATEGY_ROUND_ROBIN ∅ []).

(** [resolved]: whether the name resolves. *)
Definition add_backend (resolved : bool) (host : bytes) (port w : Z) (lb : load_balancer) : Z * load_balancer :=
  if zlen (lb_backends lb) >=? MAX_BACKENDS then (-1, lb) else
  if negb resolved then (-1, lb) else
  (0, mkLb (lb_backends lb ++ [mkBackend 0 (if w >? 0 then w else 1) 0 0 0 1 0]) (lb_stats lb ++ [mkStats 0 0])
        (lb_hosts lb ++ [(snprintf_s 256 host, port)]) (lb_strategy_of lb) (lb_conns lb) (lb_closed lb)).

(** ** Writing *)
(** What [write] answers: it takes up to [n] bytes, would block, or fails; it
    would block once the answers are used up. *)
Inductive write_answer := WrTook (n : Z) | WrAgain | WrFail.
Inductive pump := Pumped | Blocked | Broken.

(** A loop that writes [pending]: the outcome, how much was taken, the answers
    that are left. *)
Fixpoint write_loop (ws : list write_answer) (pending : bytes) : pump * Z * list write_answer :=
  match pending with
  | [] => (Pumped, 0, ws)
  | _ =>
      match ws with
      | [] => (Blocked, 0, [])
      | WrAgain :: ws => (Blocked, 0, ws)
      | WrFail :: ws => (Broken, 0, ws)
      | WrTook n :: ws =>
          let n := Z.min n (zlen pending) in
          if n >? 0 then let '(r, m, ws) := write_loop ws (zdrop n pending) in (r, n + m, ws) else (Broken, 0, ws)
      end
  end.

Definition SERVICE_UNAVAILABLE : bytes :=
  str "HTTP/1.1 503 Service Unavailable" ++ CRLF ++ str "Content-Type: text/plain" ++ CRLF ++ str "Content-Length: 20" ++ CRLF ++
  str "Connection: close" ++ CRLF ++ CRLF ++ str "No backend available".
(** The bytes of the reply that reach the client. *)
Definition send_503 (ws : list write_answer) : bytes := let '(_, n, _) := write_loop ws SERVICE_UNAVAILABLE in ztake n SERVICE_UNAVAILABLE.

(** ** Interest *)
Definition c2b_pending (c : lb_connection) : bool := (zlen (lc_cbuf c) >? lc_csent c) || (zlen (lc_hdr c) >? lc_hdr_sent c).
Definition b2c_pending (c : lb_connection) : bool := zlen (lc_bbuf c) >? lc_bsent c.

Definition set_events (ce be : Z) (c : lb_connection) : lb_connection :=
  mkLbConn (lc_backend c) (lc_addr c) (lc_hdr c) (lc_hdr_sent c) (lc_cbuf c) (lc_csent c) (lc_bbuf c) (lc_bsent c) (lc_start c) (lc_eof c) (lc_closed c)
    ce be (lc_from_client c) (lc_to_backend c) (lc_from_backend c) (lc_to_client c).

Definition update_epoll_interest (c : lb_connection) : lb_connection :=
  let client_events := if negb (c2b_pending c) && negb (lc_eof c) then EPOLLIN else 0 in
  let backend_events := if negb (b2c_pending c) then EPOLLIN else 0 in
  let backend_events := if c2b_pending c then Z.lor backend_events EPOLLOUT else backend_events in
  let client_events := if b2c_pending c then Z.lor client_events EPOLLOUT else client_events in
  set_events client_events backend_events c.

(** ** Health and closing *)
Definition on_backend (i : nat) (f : backend -> backend) (lb : load_balancer) : load_balancer := set_backends (alter f i (lb_backends lb)) lb.

Definition set_connections (n : Z) (b : backend) : backend :=
  mkBackend (current_weight b) (weight b) n (failed_requests b) (consecutive_failures b) (health_status b) (last_health_check b).

(** The response time in milliseconds, with the borrow of the nanoseconds. *)
Definition response_time (start_time end_time : timespec) : Z :=
  let sec := end_time.1 - start_time.1 in
  let nsec := end_time.2 - start_time.2 in
  let '(sec, nsec) := if nsec <? 0 then (sec - 1, nsec + 1000000000) else (sec, nsec) in
  let t := sec * 1000 + nsec / 1000000 in
  if t <? 0 then 0 else t.

Definition moving_average (avg t : Z) : Z := if avg =? 0 then t else (avg * 9 + t) / 10.

Definition set_closed (c : lb_connection) : lb_connection :=
  mkLbConn (lc_backend c) (lc_addr c) (lc_hdr c) (lc_hdr_sent c) (lc_cbuf c) (lc_csent c) (lc_bbuf c) (lc_bsent c) (lc_start c) (lc_eof c) true
    0 0 (lc_from_client c) (lc_to_backend c) (lc_from_backend c) (lc_to_client c).

Definition lb_close_connection (now : timespec) (a : Z) (lb : load_balancer) : option load_balancer :=
  c ← lb_conns lb !! a;
  if lc_closed c then Some lb else
  let t := response_time (lc_start c) now in
  let lb := on_backend (lc_backend c) (fun b => set_connections (current_connections b - 1) b) lb in
  let stats := alter (fun s => mkStats (total_requests s) (moving_average (avg_response_time s) t)) (lc_backend c) (lb_stats lb) in
  Some (mkLb (lb_backends lb) stats (lb_hosts lb) (lb_strategy_of lb) (<[a := set_closed c]> (lb_conns lb)) (a :: lb_closed lb)).

(** ** The two directions *)
Definition set_c2b (hdr_sent : Z) (cbuf : bytes) (csent : Z) (sent : bytes) (c : lb_connection) : lb_connection :=
  mkLbConn (lc_backend c) (lc_addr c) (lc_hdr c) hdr_sent cbuf csent (lc_bbuf c) (lc_bsent c) (lc_start c) (lc_eof c) (lc_closed c)
    (lc_cevents c) (lc_bevents c) (lc_from_client c) (lc_to_backend c ++ sent) (lc_from_backend c) (lc_to_client c).
Definition set_b2c (bbuf : bytes) (bsent : Z) (sent : bytes) (c : lb_connection) : lb_connection :=
  mkLbConn (lc_backend c) (lc_addr c) (lc_hdr c) (lc_hdr_sent c) (lc_cbuf c) (lc_csent c) bbuf bsent (lc_start c) (lc_eof c) (lc_closed c)
    (lc_cevents c) (lc_bevents c) (lc_from_client c) (lc_to_backend c) (lc_from_backend c) (lc_to_client c ++ sent).

(** The header first, then the client's bytes. *)
Definition pump_c2b (ws : list write_answer) (c : lb_connection) : pump * lb_connection :=
  let hdr := zdrop (lc_hdr_sent c) (lc_hdr c) in
  let '(r, n, ws) := write_loop ws hdr in
  let c := set_c2b (lc_hdr_sent c + n) (lc_cbuf c) (lc_csent c) (ztake n hdr) c in
  match r with
  | Blocked | Broken => (r, c)
  | Pumped =>
      let payload := zdrop (lc_csent c) (lc_cbuf c) in
      let '(r, n, _) := write_loop ws payload in
      let c := set_c2b (lc_hdr_sent c) (lc_cbuf c) (lc_csent c + n) (ztake n payload) c in
      match r with Pumped => (Pumped, set_c2b (lc_hdr_sent c) [] 0 [] c) | _ => (r, c) end
  end.

Definition flush_client_to_backend (now : timespec) (ws : list write_answer) (a : Z) (lb : load_balancer) : option load_balancer :=
  c ← lb_conns lb !! a;
  match pump_c2b ws c with
  | (Pumped, c) | (Blocked, c) => Some (set_conn a (update_epoll_interest c) lb)
  | (Broken, c) => lb_close_connection now a (on_backend (lc_backend c) (mark_backend_failure now.1) (set_conn a c lb))
  end.

Definition pump_b2c (ws : list write_answer) (c : lb_connection) : pump * lb_connection :=
  let payload := zdrop (lc_bsent c) (lc_bbuf c) in
  let '(r, n, _) := write_loop ws payload in
  let c := set_b2c (lc_bbuf c) (lc_bsent c + n) (ztake n payload) c in
  match r with Pumped => (Pumped, set_b2c [] 0 [] c) | _ => (r, c) end.

Definition flush_backend_to_client (now : timespec) (ws : list write_answer) (a : Z) (lb : load_balancer) : option load_balancer :=
  c ← lb_conns lb !! a;
  match pump_b2c ws c with
  | (Pumped, c) | (Blocked, c) => Some (set_conn a (update_epoll_interest c) lb)
  | (Broken, c) => lb_close_connection now a (set_conn a c lb)
  end.

(** ** Reading *)
Inductive read_answer := RdData (d : bytes) | RdEof | RdAgain | RdFail.

Definition fill_client (d : bytes) (c : lb_connection) : lb_connection :=
  mkLbConn (lc_backend c) (lc_addr c) (lc_hdr c) (lc_hdr_sent c) d 0 (lc_bbuf c) (lc_bsent c) (lc_start c) (lc_eof c) (lc_closed c)
    (lc_cevents c) (lc_bevents c) (lc_from_client c ++ d) (lc_to_backend c) (lc_from_backend c) (lc_to_client c).
Definition fill_backend (d : bytes) (c : lb_connection) : lb_connection :=
  mkLbConn (lc_backend c) (lc_addr c) (lc_hdr c) (lc_hdr_sent c) (lc_cbuf c) (lc_csent c) d 0 (lc_start c) (lc_eof c) (lc_closed c)
    (lc_cevents c) (lc_bevents c) (lc_from_client c) (lc_to_backend c) (lc_from_backend c ++ d) (lc_to_client c).
Definition set_eof (c : lb_connection) : lb_connection :=
  mkLbConn (lc_backend c) (lc_addr c) (lc_hdr c) (lc_hdr_sent c) (lc_cbuf c) (lc_csent c) (lc_bbuf c) (lc_bsent c) (lc_start c) true (lc_closed c)
    (lc_cevents c) (lc_bevents c) (lc_from_client c) (lc_to_backend c) (lc_from_backend c) (lc_to_client c).

Definition lb_handle_client_data (now : timespec) (r : read_answer) (ws : list write_answer) (a : Z) (lb : load_balancer) : option load_balancer :=
  c ← lb_conns lb !! a;
  match r with
  | RdEof => Some (set_conn a (update_epoll_interest (set_eof c)) lb)
  | RdAgain => Some lb
  | RdFail => lb_close_connection now a lb
  | RdData d => flush_client_to_backend now ws a (set_conn a (fill_client d c) lb)
  end.

Definition lb_handle_backend_data (now : timespec) (r : read_answer) (ws : list write_answer) (a : Z) (lb : load_balancer) : option load_balancer :=
  c ← lb_conns lb !! a;
  match r with
  | RdEof => lb_close_connection now a lb
  | RdAgain => Some lb
  | RdFail => lb_close_connection now a (on_backend (lc_backend c) (mark_backend_failure now.1) lb)
  | RdData d => flush_backend_to_client now ws a (set_conn a (fill_backend d c) (on_backend (lc_backend c) mark_backend_success lb))
  end.

Definition lb_handle_client_write := flush_backend_to_client.
Definition lb_handle_backend_write := flush_client_to_backend.

(** [soerr]: the backend socket has a pending error. *)
Definition lb_handle_connection_error (now : timespec) (soerr : bool) (a : Z) (lb : load_balancer) : option load_balancer :=
  c ← lb_conns lb !! a;
  lb_close_connection now a (if soerr then on_backend (lc_backend c) (mark_backend_failure now.1) lb else lb).

(** ** New connections *)
Section proxy.
Context (inet_ntop4 inet_ntop6 : bytes -> option bytes).

Definition net_addr_str (ss : sockaddr) : option bytes :=
  match ss with
  | AF_INET a => inet_ntop4 a
  | AF_INET6 a => if is_v4_mapped a then inet_ntop4 (zdrop 12 a) else inet_ntop6 a
  | AF_OTHER => None
  end.

Definition net_addr_version (ss : sockaddr) : Z := let n := zlen (addr_bytes ss) in if n =? 4 then 4 else if n =? 16 then 6 else 0.

Definition proxy_text (cv : Z) (src dst : bytes) (sport dport : Z) : bytes :=
  str "PROXY TCP" ++ dec cv ++ [32] ++ src ++ [32] ++ dst ++ [32] ++ dec sport ++ [32] ++ dec dport ++ CRLF.
Definition PROXY_UNKNOWN : bytes := str "PROXY UNKNOWN" ++ CRLF.

(** [local]: what [getsockname] answers, the address and its port. *)
Definition build_proxy_header (enabled : bool) (addr : sockaddr) (port : Z) (local : option (sockaddr * Z)) : bytes :=
  if negb enabled then [] else
  default PROXY_UNKNOWN
    ('(la, lport) ← local;
     let cv := net_addr_version addr in
     if (cv =? 0) || negb (net_addr_version la =? cv) then None else
     src ← net_addr_str addr; dst ← net_addr_str la;
     let text := proxy_text cv src dst port lport in
     if zlen text <? 128 then Some text else None).

(** What the kernel and the allocator answer while a connection is set up. *)
Record accepted := mkAccepted {
  ac_addr : sockaddr; ac_port : Z; ac_local : option (sockaddr * Z); ac_nonblocking : bool; ac_rand : Z; ac_writes : list write_answer;
  ac_connect : bool; ac_block : option Z; ac_register : bool }.

Definition select_backend (now rand : Z) (addr : sockaddr) (lb : load_balancer) : option nat * load_balancer :=
  let '(r, bs) :=
    match lb_strategy_of lb with
    | LB_STRATEGY_ROUND_ROBIN => backend_round_robin_select now (lb_backends lb)
    | LB_STRATEGY_LEAST_CONN => least_connection_select now (lb_backends lb)
    | LB_STRATEGY_IP_HASH => ip_hash_select now addr (lb_backends lb)
    | LB_STRATEGY_RANDOM => random_select now rand (lb_backends lb)
    end in (r, set_backends bs lb).

(** A connection as it is when both sockets are registered. *)
Definition new_connection (i : nat) (addr : sockaddr) (hdr : bytes) (now : timespec) : lb_connection :=
  mkLbConn i addr hdr 0 [] 0 [] 0 now false false EPOLLIN EPOLLIN [] [] [] [].

(** [ac]: the answers, or [None] when [accept] fails. The second result is what
    a client that is turned away reads. *)
Definition lb_handle_new_connection (proxy : bool) (now : timespec) (ac : option accepted) (lb : load_balancer) : load_balancer * bytes :=
  match ac with
  | None => (lb, [])
  | Some ac =>
      if negb (ac_nonblocking ac) then (lb, []) else
      match select_backend now.1 (ac_rand ac) (ac_addr ac) lb with
      | (None, lb) => (lb, send_503 (ac_writes ac))
      | (Some i, lb) =>
          if negb (ac_connect ac) then (on_backend i (mark_backend_failure now.1) lb, []) else
          match ac_block ac with
          | None => (lb, [])
          | Some a =>
              if negb (ac_register ac) then (lb, []) else
              let c := new_connection i (ac_addr ac) (build_proxy_header proxy (ac_addr ac) (ac_port ac) (ac_local ac)) now in
              let lb := on_backend i (fun b => set_connections (current_connections b + 1) b) lb in
              (mkLb (lb_backends lb) (alter (fun s => mkStats (total_requests s + 1) (avg_response_time s)) i (lb_stats lb))
                 (lb_hosts lb) (lb_strategy_of lb) (<[a := c]> (lb_conns lb)) (lb_closed lb), [])
          end
      end
  end.

(** ** The loop *)
(** One entry of a batch: what fired, and what the kernel answers to the
    handler. *)
Record lb_event := mkEvent {
  ev_role : io_role; ev_conn : Z; ev_flags : Z; ev_time : timespec; ev_read : read_answer; ev_writes : list write_answer;
  ev_soerr : bool; ev_accept : option accepted }.

Definition lb_dispatch (proxy : bool) (ev : lb_event) (lb : load_balancer) : option load_balancer :=
  match ev_role ev with
  | IO_LISTEN => Some (lb_handle_new_connection proxy (ev_time ev) (ev_accept ev) lb).1
  | role =>
      c ← lb_conns lb !! ev_conn ev;
      if lc_closed c then Some lb else
      let a := ev_conn ev in
      if has_flag (ev_flags ev) (Z.lor EPOLLHUP EPOLLERR) && negb (has_flag (ev_flags ev) EPOLLIN) then
        lb_handle_connection_error (ev_time ev) (ev_soerr ev) a lb
      else if has_flag (ev_flags ev) EPOLLIN then
        match role with
        | IO_CLIENT => lb_handle_client_data (ev_time ev) (ev_read ev) (ev_writes ev) a lb
        | _ => lb_handle_backend_data (ev_time ev) (ev_read ev) (ev_writes ev) a lb
        end
      else if has_flag (ev_flags ev) EPOLLOUT then
        match role with
        | IO_CLIENT => lb_handle_client_write (ev_time ev) (ev_writes ev) a lb
        | _ => lb_handle_backend_write (ev_time ev) (ev_writes ev) a lb
        end
      else Some lb
  end.

Fixpoint dispatch_all (proxy : bool) (evs : list lb_event) (lb : load_balancer) : option load_balancer :=
  match evs with
  | [] => Some lb
  | ev :: evs => lb ← lb_dispatch proxy ev lb; dispatch_all proxy evs lb
  end.

(** The connections closed during the batch are freed behind it. *)
Definition free_closed (lb : load_balancer) : load_balancer :=
  mkLb (lb_backends lb) (lb_stats lb) (lb_hosts lb) (lb_strategy_of lb) (foldl (fun h a => delete a h) (lb_conns lb) (lb_closed lb)) [].

Definition lb_batch (proxy : bool) (evs : list lb_event) (lb : load_balancer) : option load_balancer :=
  free_closed <$> dispatch_all proxy evs lb.
End proxy.
