(* ===== verification/BalancerProofs.v ===== *)
(** * The balancer over every batch of events

    What a connection keeps of the two byte streams, and that every batch epoll
    can report keeps it: bytes are forwarded unchanged and in order, pending
    bytes are never overwritten, the connection counts of the backends are
    exact and no freed connection is touched. *)
From Stdlib Require Import String.
From stdpp Require Import relations.
From S2P Require Import Prelude Text HttpTypes HttpText Selection Balancer.

Local Open Scope Z_scope.

(** ** One connection *)
Record conn_ok (c : lb_connection) : Prop := {
  co_hdr : 0 <= lc_hdr_sent c <= zlen (lc_hdr c);
  co_c : 0 <= lc_csent c <= zlen (lc_cbuf c);
  co_b : 0 <= lc_bsent c <= zlen (lc_bbuf c);
  co_c2b : lc_to_backend c ++ zdrop (lc_hdr_sent c) (lc_hdr c) ++ zdrop (lc_csent c) (lc_cbuf c) = lc_hdr c ++ lc_from_client c;
  co_b2c : lc_to_client c ++ zdrop (lc_bsent c) (lc_bbuf c) = lc_from_backend c;
  co_size : zlen (lc_cbuf c) <= LB_BUFFER_SIZE /\ zlen (lc_bbuf c) <= LB_BUFFER_SIZE }.

(** The interest fits the buffers: a side is read only when nothing read from it
    is waiting, and a side that bytes wait for is watched for writing. *)
Record interest_ok (c : lb_connection) : Prop := {
  io_read_client : has_flag (lc_cevents c) EPOLLIN = true -> lc_csent c = zlen (lc_cbuf c);
  io_read_backend : has_flag (lc_bevents c) EPOLLIN = true -> lc_bsent c = zlen (lc_bbuf c);
  io_write_backend : lc_csent c < zlen (lc_cbuf c) -> has_flag (lc_bevents c) EPOLLOUT = true;
  io_write_client : lc_bsent c < zlen (lc_bbuf c) -> has_flag (lc_cevents c) EPOLLOUT = true }.

Lemma write_loop_spec ws p r n ws' : write_loop ws p = (r, n, ws') -> 0 <= n <= zlen p /\ (r = Pumped -> n = zlen p).
Proof.
  revert p r n ws'. induction ws as [|w ws IH]; intros p r n ws'; destruct p as [|b p]; cbn [write_loop].
  - intros [[<- <-]%pair_equal_spec _]%pair_equal_spec. done.
  - intros [[<- <-]%pair_equal_spec _]%pair_equal_spec. pose proof (zlen_nonneg (b :: p)). split; [lia|done].
  - intros [[<- <-]%pair_equal_spec _]%pair_equal_spec. done.
  - pose proof (zlen_nonneg (b :: p)). destruct w as [k| |]; [|intros [[<- <-]%pair_equal_spec _]%pair_equal_spec; split; [lia|done]..].
    destruct (Z.gtb_spec (Z.min k (zlen (b :: p))) 0) as [Hk|]; [|intros [[<- <-]%pair_equal_spec _]%pair_equal_spec; split; [lia|done]].
    destruct (write_loop ws (zdrop (Z.min k (zlen (b :: p))) (b :: p))) as [[r1 m] ws1] eqn:E. intros [[<- <-]%pair_equal_spec _]%pair_equal_spec.
    apply IH in E as [Hm Hr]. rewrite zlen_zdrop in Hm, Hr by lia. split; [lia|]. intros ->. specialize (Hr eq_refl). lia.
Qed.

(** What writing leaves untouched. *)
Definition same_side (c c' : lb_connection) : Prop :=
  lc_backend c' = lc_backend c /\ lc_closed c' = lc_closed c /\ lc_hdr c' = lc_hdr c /\ lc_start c' = lc_start c.

Lemma pump_c2b_ok ws c r c' :
  conn_ok c -> pump_c2b ws c = (r, c') ->
  conn_ok c' /\ same_side c c' /\ (r = Pumped -> lc_csent c' = zlen (lc_cbuf c') /\ lc_hdr_sent c' = zlen (lc_hdr c')) /\
  lc_bbuf c' = lc_bbuf c /\ lc_bsent c' = lc_bsent c.
Proof.
  intros [H1 H2 H3 H4 H5 H6]. unfold pump_c2b. set (hdr := zdrop (lc_hdr_sent c) (lc_hdr c)).
  destruct (write_loop ws hdr) as [[r1 n1] ws1] eqn:E1. apply write_loop_spec in E1 as [Hn1 Hr1].
  assert (zlen hdr = zlen (lc_hdr c) - lc_hdr_sent c) as Hh by (unfold hdr; rewrite zlen_zdrop; lia).
  assert (ztake n1 hdr ++ zdrop (lc_hdr_sent c + n1) (lc_hdr c) = hdr) as Ehdr.
  { rewrite <- zdrop_zdrop by lia. apply ztake_zdrop. }
  cbn [set_c2b lc_csent lc_cbuf lc_hdr_sent lc_hdr].
  assert (forall r0, conn_ok (set_c2b (lc_hdr_sent c + n1) (lc_cbuf c) (lc_csent c) (ztake n1 hdr) c) /\
    same_side c (set_c2b (lc_hdr_sent c + n1) (lc_cbuf c) (lc_csent c) (ztake n1 hdr) c) /\ (r0 <> Pumped -> r0 = Pumped -> False)) as Hmid.
  { intros r0. split; [|split; [by repeat split|done]]. constructor; cbn; try done; [lia|]. rewrite <- H4, <- !app_assoc. f_equal. rewrite app_assoc. by rewrite Ehdr. }
  destruct r1; [|intros [<- <-]%pair_equal_spec; destruct (Hmid Blocked) as (? & ? & _); split_and!; done|intros [<- <-]%pair_equal_spec; destruct (Hmid Broken) as (? & ? & _); split_and!; done].
  specialize (Hr1 eq_refl). assert (lc_hdr_sent c + n1 = zlen (lc_hdr c)) as Hfull by lia.
  rewrite Hfull, zdrop_all in Ehdr by lia. rewrite app_nil_r in Ehdr.
  set (payload := zdrop (lc_csent c) (lc_cbuf c)). destruct (write_loop ws1 payload) as [[r2 n2] ws2] eqn:E2. apply write_loop_spec in E2 as [Hn2 Hr2].
  assert (zlen payload = zlen (lc_cbuf c) - lc_csent c) as Hp by (unfold payload; rewrite zlen_zdrop; lia).
  assert (ztake n2 payload ++ zdrop (lc_csent c + n2) (lc_cbuf c) = payload) as Epay by (rewrite <- zdrop_zdrop by lia; apply ztake_zdrop).
  cbn [set_c2b lc_csent lc_cbuf lc_hdr_sent lc_hdr]. rewrite Hfull, Ehdr.
  assert (lc_to_backend c ++ hdr ++ payload = lc_hdr c ++ lc_from_client c) as H4' by exact H4. rewrite <- Epay in H4'.
  assert (forall cb cs, 0 <= cs <= zlen cb -> zlen cb <= LB_BUFFER_SIZE -> zdrop cs cb = zdrop (lc_csent c + n2) (lc_cbuf c) ->
    forall extra, extra = [] -> conn_ok (mkLbConn (lc_backend c) (lc_addr c) (lc_hdr c) (zlen (lc_hdr c)) cb cs (lc_bbuf c) (lc_bsent c) (lc_start c) (lc_eof c) (lc_closed c)
      (lc_cevents c) (lc_bevents c) (lc_from_client c) (((lc_to_backend c ++ hdr) ++ ztake n2 payload) ++ extra) (lc_from_backend c) (lc_to_client c))) as Hmk.
  { intros cb cs Hcs Hsz Ed extra ->. constructor; cbn; try done; [pose proof (zlen_nonneg (lc_hdr c)); lia| |tauto]. rewrite (zdrop_all (zlen (lc_hdr c)) (lc_hdr c)) by lia. rewrite Ed, app_nil_r, <- !app_assoc. exact H4'. }
  destruct r2.
  - specialize (Hr2 eq_refl). intros [<- <-]%pair_equal_spec. split; [|by repeat split]. apply Hmk; [done|done| |done]. by rewrite (zdrop_all _ (lc_cbuf c)) by lia.
  - intros [<- <-]%pair_equal_spec. split; [|by repeat split]. specialize (Hmk (lc_cbuf c) (lc_csent c + n2) ltac:(lia) ltac:(tauto) eq_refl [] eq_refl). by rewrite app_nil_r in Hmk.
  - intros [<- <-]%pair_equal_spec. split; [|by repeat split]. specialize (Hmk (lc_cbuf c) (lc_csent c + n2) ltac:(lia) ltac:(tauto) eq_refl [] eq_refl). by rewrite app_nil_r in Hmk.
Qed.

Lemma pump_b2c_ok ws c r c' :
  conn_ok c -> pump_b2c ws c = (r, c') ->
  conn_ok c' /\ same_side c c' /\ (r = Pumped -> lc_bsent c' = zlen (lc_bbuf c')) /\
  lc_cbuf c' = lc_cbuf c /\ lc_csent c' = lc_csent c.
Proof.
  intros [H1 H2 H3 H4 H5 H6]. unfold pump_b2c. set (payload := zdrop (lc_bsent c) (lc_bbuf c)).
  destruct (write_loop ws payload) as [[r1 n1] ws1] eqn:E1. apply write_loop_spec in E1 as [Hn1 Hr1].
  assert (zlen payload = zlen (lc_bbuf c) - lc_bsent c) as Hp by (unfold payload; rewrite zlen_zdrop; lia).
  assert (ztake n1 payload ++ zdrop (lc_bsent c + n1) (lc_bbuf c) = payload) as Epay by (rewrite <- zdrop_zdrop by lia; apply ztake_zdrop).
  assert (lc_to_client c ++ payload = lc_from_backend c) as H5' by exact H5. rewrite <- Epay in H5'.
  destruct r1; intros [<- <-]%pair_equal_spec; (split; [|by repeat split]); constructor; cbn; rewrite ?app_nil_r; try done; try lia; try tauto.
  - specialize (Hr1 eq_refl). rewrite zdrop_all in H5' by lia. by rewrite app_nil_r in H5'.
  - split; [tauto|done].
  - by rewrite <- app_assoc.
  - by rewrite <- app_assoc.
Qed.

Lemma update_interest_ok c : conn_ok c -> conn_ok (update_epoll_interest c) /\ interest_ok (update_epoll_interest c) /\ same_side c (update_epoll_interest c).
Proof.
  intros [H1 H2 H3 H4 H5 H6]. split; [by constructor|]. split; [|by repeat split].
  unfold update_epoll_interest, set_events. destruct (c2b_pending c) eqn:Ec, (b2c_pending c) eqn:Eb, (lc_eof c);
    unfold c2b_pending, b2c_pending in Ec, Eb; rewrite ?orb_true_iff, ?orb_false_iff in Ec; rewrite ?Z.gtb_ltb, ?Z.ltb_lt, ?Z.ltb_ge in *;
    constructor; cbn; try done; intros; lia.
Qed.

(** ** Connection counts *)
Definition live_on (i : nat) (c : lb_connection) : Prop := lc_backend c = i /\ lc_closed c = false.
#[global] Instance live_on_dec i c : Decision (live_on i c).
Proof. unfold live_on. apply _. Defined.
(** The open connections to backend [i]. *)
Definition open_on (i : nat) (m : gmap Z lb_connection) : nat := size (filter (fun kv => live_on i kv.2) m).
Definition one (P : Prop) `{Decision P} : nat := if decide P then 1 else 0.

Lemma one_iff (P Q : Prop) `{Decision P, Decision Q} : (P <-> Q) -> one P = one Q.
Proof. intros. unfold one. destruct (decide P), (decide Q); tauto. Qed.
Lemma one_true (P : Prop) `{Decision P} : P -> one P = 1%nat.
Proof. intros. unfold one. by rewrite decide_True. Qed.
Lemma one_false (P : Prop) `{Decision P} : ~ P -> one P = 0%nat.
Proof. intros. unfold one. by rewrite decide_False. Qed.

Lemma open_on_insert i m a c :
  (open_on i (<[a := c]> m) + match m !! a with Some c0 => one (live_on i c0) | None => 0 end = open_on i m + one (live_on i c))%nat.
Proof.
  unfold open_on, one. set (P := fun kv : Z * lb_connection => live_on i kv.2).
  assert (filter P m !! a = match m !! a with Some c0 => if decide (live_on i c0) then Some c0 else None | None => None end) as Ea.
  { rewrite map_lookup_filter. destruct (m !! a) as [c0|]; [|done]. cbn. destruct (decide (live_on i c0)) as [H|H].
    - by rewrite option_guard_True.
    - by rewrite option_guard_False. }
  destruct (decide (live_on i c)) as [Hc|Hc].
  - rewrite map_filter_insert_True by done. rewrite map_size_insert, Ea. destruct (m !! a) as [c0|]; [destruct (decide (live_on i c0))|]; cbn; unfold id; lia.
  - rewrite map_filter_insert_False by done. rewrite map_filter_delete, map_size_delete, Ea.
    destruct (m !! a) as [c0|] eqn:E0; [destruct (decide (live_on i c0)) as [Hl|]|]; cbn; unfold id; try lia.
    assert (size (filter P m) <> 0%nat); [|lia]. intros Hz%map_size_empty_inv. by rewrite Hz, lookup_empty in Ea.
Qed.

Lemma open_on_delete_closed i m a c : m !! a = Some c -> lc_closed c = true -> open_on i (delete a m) = open_on i m.
Proof.
  intros Ha Hc. unfold open_on. rewrite map_filter_delete, delete_id; [done|]. rewrite map_lookup_filter, Ha. cbn.
  rewrite option_guard_False; [done|]. intros [_ H]. congruence.
Qed.

(** ** The invariant *)
Record lb_inv (lb : load_balancer) : Prop := {
  li_conns : forall a c, lb_conns lb !! a = Some c -> conn_ok c /\ (lc_closed c = false -> interest_ok c);
  li_nodup : NoDup (lb_closed lb);
  li_closed : forall a, a ∈ lb_closed lb <-> exists c, lb_conns lb !! a = Some c /\ lc_closed c = true;
  li_counts : forall i b, lb_backends lb !! i = Some b -> current_connections b = Z.of_nat (open_on i (lb_conns lb)) }.

(** [lb'] is [lb] with the connection at [a] replaced and the backends' counts
    as they were. *)
Record touched (lb : load_balancer) (a : Z) (c : lb_connection) (lb' : load_balancer) : Prop := {
  to_counts : map current_connections (lb_backends lb') = map current_connections (lb_backends lb);
  to_conns : lb_conns lb' = <[a := c]> (lb_conns lb);
  to_closed : lb_closed lb' = lb_closed lb }.

Lemma counts_lookup (bs bs' : list backend) i b :
  map current_connections bs' = map current_connections bs -> bs' !! i = Some b -> exists b0, bs !! i = Some b0 /\ current_connections b = current_connections b0.
Proof.
  intros E Hb. pose proof (f_equal (fun l => l !! i) E) as Ei. cbn in Ei. rewrite !list_lookup_fmap, Hb in Ei. cbn in Ei.
  destruct (bs !! i) as [b0|]; [|done]. injection Ei as Ei. by exists b0.
Qed.

Lemma touched_inv lb a c c' lb' :
  lb_inv lb -> lb_conns lb !! a = Some c -> lc_closed c = false -> touched lb a c' lb' -> same_side c c' -> conn_ok c' -> interest_ok c' -> lb_inv lb'.
Proof.
  intros [H1 H2 H3 H4] Ha Hc [T1 T2 T3] (S1 & S2 & _) Hok Hin. rewrite Hc in S2. constructor; rewrite ?T2, ?T3; [|done| |].
  - intros b x [[<- <-]|[_ Hx]]%lookup_insert_Some; [done|by apply (H1 b)].
  - intros b. rewrite H3. destruct (decide (b = a)) as [->|Hne]; [|by rewrite lookup_insert_ne].
    rewrite lookup_insert_eq, Ha. split; intros (x & [= <-] & Hx); congruence.
  - intros i b Hb. destruct (counts_lookup _ _ _ _ T1 Hb) as (b0 & Hb0 & ->). rewrite (H4 _ _ Hb0). f_equal.
    pose proof (open_on_insert i (lb_conns lb) a c') as Ho. rewrite Ha in Ho.
    rewrite (one_iff (live_on i c') (live_on i c)) in Ho by (unfold live_on; rewrite S1, S2, Hc; tauto). lia.
Qed.

Lemma lb_close_spec now lb a c c' lb' :
  lb_inv lb -> lb_conns lb !! a = Some c -> lc_closed c = false -> touched lb a c' lb' -> same_side c c' -> conn_ok c' ->
  exists lb2, lb_close_connection now a lb' = Some lb2 /\ lb_inv lb2 /\ lb_conns lb2 = <[a := set_closed c']> (lb_conns lb).
Proof.
  intros [H1 H2 H3 H4] Ha Hc [T1 T2 T3] (S1 & S2 & _) Hok. rewrite Hc in S2. unfold lb_close_connection. rewrite T2, lookup_insert_eq. cbn [mbind option_bind].
  rewrite S2. eexists. split; [reflexivity|]. cbn [lb_conns on_backend set_backends lb_closed lb_backends]. rewrite T2, insert_insert_eq. split; [|done].
  assert (a ∉ lb_closed lb) as Hna by (intros (x & Hx & Hxc)%H3; congruence).
  constructor; cbn [lb_conns lb_closed lb_backends]; rewrite ?T3.
  - intros b x [[<- <-]|[_ Hx]]%lookup_insert_Some; [|by apply (H1 b)]. split; [by destruct Hok; constructor|done].
  - apply list.NoDup_cons. by split.
  - intros b. rewrite elem_of_cons, H3. destruct (decide (b = a)) as [->|Hne].
    + rewrite lookup_insert_eq. split; [intros _; by exists (set_closed c')|by left].
    + rewrite lookup_insert_ne by done. naive_solver.
  - intros i b Hb. pose proof (open_on_insert i (lb_conns lb) a (set_closed c')) as Ho. rewrite Ha in Ho.
    rewrite (one_false (live_on i (set_closed c'))) in Ho by (by intros [_ ?]).
    destruct (decide (i = lc_backend c')) as [->|Hi].
    + rewrite list_lookup_alter_eq in Hb. apply fmap_Some in Hb as (b1 & Hb1 & ->). destruct (counts_lookup _ _ _ _ T1 Hb1) as (b0 & Hb0 & E).
      cbn. rewrite E, (H4 _ _ Hb0). rewrite one_true in Ho by done. lia.
    + rewrite list_lookup_alter_ne in Hb by done. destruct (counts_lookup _ _ _ _ T1 Hb) as (b0 & Hb0 & ->). rewrite (H4 _ _ Hb0).
      rewrite one_false in Ho by (intros [? _]; congruence). lia.
Qed.

(** ** Handlers *)
Definition drained_c (c : lb_connection) : Prop := lc_csent c = zlen (lc_cbuf c).
Definition drained_b (c : lb_connection) : Prop := lc_bsent c = zlen (lc_bbuf c).

(** A handler has dealt with the connection at [a]: the invariant holds, no
    other connection changed, and [keep] holds of it unless it was closed. *)
Record served (lb : load_balancer) (a : Z) (keep : lb_connection -> Prop) (lb' : load_balancer) : Prop := {
  sv_inv : lb_inv lb';
  sv_conn : exists c', lb_conns lb' = <[a := c']> (lb_conns lb) /\ (lc_closed c' = false -> keep c') }.

Lemma counts_alter f i bs : (forall b, current_connections (f b) = current_connections b) -> map current_connections (alter f i bs) = map current_connections bs.
Proof. intros Hf. revert i. induction bs as [|b bs IH]; intros [|i]; cbn; [done|done|by rewrite Hf|]. f_equal. apply IH. Qed.

Lemma failure_count now b : current_connections (mark_backend_failure now b) = current_connections b.
Proof. done. Qed.
Lemma success_count b : current_connections (mark_backend_success b) = current_connections b.
Proof. unfold mark_backend_success. by destruct (_ || _). Qed.

Lemma touched_refl lb a c : lb_conns lb !! a = Some c -> touched lb a c lb.
Proof. intros Ha. constructor; [done|by rewrite insert_id|done]. Qed.
Lemma touched_conn lb a c c' lb' : touched lb a c lb' -> touched lb a c' (set_conn a c' lb').
Proof. intros [H1 H2 H3]. constructor; cbn; [done|by rewrite H2, insert_insert_eq|done]. Qed.
Lemma touched_backend lb a c lb' i f :
  (forall b, current_connections (f b) = current_connections b) -> touched lb a c lb' -> touched lb a c (on_backend i f lb').
Proof. intros Hf [H1 H2 H3]. constructor; cbn; [|done|done]. by rewrite counts_alter. Qed.

Lemma touched_lookup lb a c lb' : touched lb a c lb' -> lb_conns lb' !! a = Some c.
Proof. intros [_ -> _]. apply lookup_insert_eq. Qed.

Lemma same_side_trans c1 c2 c3 : same_side c1 c2 -> same_side c2 c3 -> same_side c1 c3.
Proof. unfold same_side. intuition congruence. Qed.

Section handlers.
Context (now : timespec) (ws : list write_answer) (lb : load_balancer) (a : Z) (c : lb_connection).
Context (Hinv : lb_inv lb) (Ha : lb_conns lb !! a = Some c) (Hopen : lc_closed c = false).

Lemma close_served keep c' lb' :
  touched lb a c' lb' -> same_side c c' -> conn_ok c' -> exists lb2, lb_close_connection now a lb' = Some lb2 /\ served lb a keep lb2.
Proof using Hinv Ha Hopen.
  intros Ht Hs Hok. destruct (lb_close_spec now lb a c c' lb' Hinv Ha Hopen Ht Hs Hok) as (lb2 & -> & Hi & Hc).
  exists lb2. split; [done|]. split; [done|]. by exists (set_closed c').
Qed.

Lemma interest_served (keep : lb_connection -> Prop) c0 c' lb' :
  touched lb a c0 lb' -> same_side c c' -> conn_ok c' -> (keep c' -> keep (update_epoll_interest c')) -> keep c' ->
  served lb a keep (set_conn a (update_epoll_interest c') lb').
Proof using Hinv Ha Hopen.
  intros Ht Hs Hok Hk Hkc. destruct (update_interest_ok c' Hok) as (Hok' & Hin & Hs'). pose proof (touched_conn _ _ _ (update_epoll_interest c') _ Ht) as Ht'.
  split; [|exists (update_epoll_interest c'); split; [apply (to_conns _ _ _ _ Ht')|auto]].
  eapply touched_inv; [exact Hinv|exact Ha|done|exact Ht'|by eapply same_side_trans|done|done].
Qed.

Lemma flush_c2b_served c0 lb0 :
  touched lb a c0 lb0 -> same_side c c0 -> conn_ok c0 ->
  exists lb', flush_client_to_backend now ws a lb0 = Some lb' /\ served lb a (fun c' => drained_b c0 -> drained_b c') lb'.
Proof using Hinv Ha Hopen.
  intros Ht Hs Hok. unfold flush_client_to_backend. rewrite (touched_lookup _ _ _ _ Ht). cbn [mbind option_bind].
  destruct (pump_c2b ws c0) as [r c1] eqn:E. destruct (pump_c2b_ok _ _ _ _ Hok E) as (Hok1 & Hs1 & _ & Hb & Hbs).
  pose proof (same_side_trans _ _ _ Hs Hs1) as Hs2. pose proof (touched_conn _ _ _ c1 _ Ht) as Ht1.
  assert (drained_b c0 -> drained_b c1) as Hd by (unfold drained_b; by rewrite Hb, Hbs).
  destruct r; [eexists; split; [reflexivity|eapply interest_served; [exact Ht|exact Hs2|exact Hok1|intros H; exact H|exact Hd]]..|].
  eapply close_served; [|exact Hs2|exact Hok1]. apply touched_backend; [apply failure_count|exact Ht1].
Qed.

Lemma flush_b2c_served c0 lb0 :
  touched lb a c0 lb0 -> same_side c c0 -> conn_ok c0 ->
  exists lb', flush_backend_to_client now ws a lb0 = Some lb' /\ served lb a (fun c' => drained_c c0 -> drained_c c') lb'.
Proof using Hinv Ha Hopen.
  intros Ht Hs Hok. unfold flush_backend_to_client. rewrite (touched_lookup _ _ _ _ Ht). cbn [mbind option_bind].
  destruct (pump_b2c ws c0) as [r c1] eqn:E. destruct (pump_b2c_ok _ _ _ _ Hok E) as (Hok1 & Hs1 & _ & Hb & Hbs).
  pose proof (same_side_trans _ _ _ Hs Hs1) as Hs2. pose proof (touched_conn _ _ _ c1 _ Ht) as Ht1.
  assert (drained_c c0 -> drained_c c1) as Hd by (unfold drained_c; by rewrite Hb, Hbs).
  destruct r; [eexists; split; [reflexivity|eapply interest_served; [exact Ht|exact Hs2|exact Hok1|intros H; exact H|exact Hd]]..|]. by eapply close_served.
Qed.

(** The write handler of a side keeps the other direction drained too. *)
Lemma pump_b2c_drained c0 : drained_b c0 -> drained_b (pump_b2c ws c0).2.
Proof using. unfold drained_b, pump_b2c. intros Hd. rewrite Hd, zdrop_all by lia. by destruct ws. Qed.

Definition read_fits (r : read_answer) : Prop := match r with RdData d => zlen d <= LB_BUFFER_SIZE | _ => True end.

Lemma client_data_served r :
  drained_c c -> read_fits r -> exists lb', lb_handle_client_data now r ws a lb = Some lb' /\ served lb a (fun c' => drained_b c -> drained_b c') lb'.
Proof using Hinv Ha Hopen.
  intros Hd Hr. unfold lb_handle_client_data. rewrite Ha. cbn [mbind option_bind]. destruct (li_conns _ Hinv a c Ha) as [Hok Hin].
  pose proof (touched_refl lb a c Ha) as Ht. assert (same_side c c) as Hss by by repeat split. destruct r as [d| | |].
  - assert (conn_ok (fill_client d c)) as Hok1.
    { destruct Hok as [H1 H2 H3 H4 H5 H6]. constructor; cbn; try done; [pose proof (zlen_nonneg d); lia| |split; [done|tauto]].
      rewrite zdrop_0. unfold drained_c in Hd. rewrite Hd, (zdrop_all _ (lc_cbuf c)), app_nil_r in H4 by lia. by rewrite !app_assoc, <- H4, <- !app_assoc. }
    apply (flush_c2b_served (fill_client d c)); [by eapply touched_conn|by repeat split|done].
  - eexists. split; [reflexivity|]. eapply interest_served; [exact Ht|by repeat split|by destruct Hok; constructor|intros H; exact H|done].
  - eexists. split; [reflexivity|]. split; [done|]. exists c. by rewrite insert_id.
  - by eapply close_served.
Qed.

Lemma backend_data_served r :
  drained_b c -> read_fits r -> exists lb', lb_handle_backend_data now r ws a lb = Some lb' /\ served lb a (fun c' => drained_c c -> drained_c c') lb'.
Proof using Hinv Ha Hopen.
  intros Hd Hr. unfold lb_handle_backend_data. rewrite Ha. cbn [mbind option_bind]. destruct (li_conns _ Hinv a c Ha) as [Hok Hin].
  pose proof (touched_refl lb a c Ha) as Ht. assert (same_side c c) as Hss by by repeat split. destruct r as [d| | |].
  - assert (conn_ok (fill_backend d c)) as Hok1.
    { destruct Hok as [H1 H2 H3 H4 H5 H6]. constructor; cbn; try done; [pose proof (zlen_nonneg d); lia| |split; [tauto|done]].
      rewrite zdrop_0. unfold drained_b in Hd. rewrite Hd, zdrop_all, app_nil_r in H5 by lia. by rewrite H5. }
    apply (flush_b2c_served (fill_backend d c)); [|by repeat split|done]. eapply touched_conn, touched_backend; [apply success_count|exact Ht].
  - by eapply close_served.
  - eexists. split; [reflexivity|]. split; [done|]. exists c. by rewrite insert_id.
  - eapply close_served; [|exact Hss|exact Hok]. apply touched_backend; [apply failure_count|exact Ht].
Qed.

Lemma client_write_served :
  exists lb', lb_handle_client_write now ws a lb = Some lb' /\ served lb a (fun c' => drained_b c -> drained_b c') lb'.
Proof using Hinv Ha Hopen.
  destruct (li_conns _ Hinv a c Ha) as [Hok Hin]. pose proof (touched_refl lb a c Ha) as Ht. unfold lb_handle_client_write, flush_backend_to_client.
  rewrite Ha. cbn [mbind option_bind]. pose proof (pump_b2c_drained c) as Hd.
  destruct (pump_b2c ws c) as [r c1] eqn:E. destruct (pump_b2c_ok _ _ _ _ Hok E) as (Hok1 & Hs1 & _). cbn [snd] in Hd.
  destruct r; [eexists; split; [reflexivity|eapply interest_served; [exact Ht|exact Hs1|exact Hok1|intros H; exact H|exact Hd]]..|].
  eapply close_served; [by eapply touched_conn|exact Hs1|exact Hok1].
Qed.

Lemma pump_c2b_drained c0 : conn_ok c0 -> drained_c c0 -> drained_c (pump_c2b ws c0).2.
Proof using.
  intros Hok Hd. destruct (pump_c2b ws c0) as [r c1] eqn:E. destruct (pump_c2b_ok _ _ _ _ Hok E) as (_ & _ & Hp & _). cbn [snd].
  unfold pump_c2b in E. destruct (write_loop ws _) as [[r1 n1] ws1]. destruct r1; cbn in E.
  - rewrite (zdrop_all _ (lc_cbuf c0)) in E by (unfold drained_c in Hd; lia). destruct ws1; cbn in E; injection E as <- <-; by apply Hp.
  - injection E as <- <-. exact Hd.
  - injection E as <- <-. exact Hd.
Qed.

Lemma backend_write_served :
  exists lb', lb_handle_backend_write now ws a lb = Some lb' /\ served lb a (fun c' => drained_c c -> drained_c c') lb'.
Proof using Hinv Ha Hopen.
  destruct (li_conns _ Hinv a c Ha) as [Hok Hin]. pose proof (touched_refl lb a c Ha) as Ht. unfold lb_handle_backend_write, flush_client_to_backend.
  rewrite Ha. cbn [mbind option_bind]. pose proof (pump_c2b_drained c Hok) as Hd.
  destruct (pump_c2b ws c) as [r c1] eqn:E. destruct (pump_c2b_ok _ _ _ _ Hok E) as (Hok1 & Hs1 & _). cbn [snd] in Hd.
  destruct r; [eexists; split; [reflexivity|eapply interest_served; [exact Ht|exact Hs1|exact Hok1|intros H; exact H|exact Hd]]..|].
  eapply close_served; [|exact Hs1|exact Hok1]. apply touched_backend; [apply failure_count|by eapply touched_conn].
Qed.

Lemma error_served soerr keep : exists lb', lb_handle_connection_error now soerr a lb = Some lb' /\ served lb a keep lb'.
Proof using Hinv Ha Hopen.
  destruct (li_conns _ Hinv a c Ha) as [Hok _]. pose proof (touched_refl lb a c Ha) as Ht. unfold lb_handle_connection_error. rewrite Ha. cbn [mbind option_bind].
  eapply close_served; [|by repeat split|exact Hok]. destruct soerr; [|done]. apply touched_backend; [apply failure_count|exact Ht].
Qed.
End handlers.

(** ** New connections *)
Lemma recover_count now b : current_connections (recover now b) = current_connections b.
Proof. unfold recover. by destruct (_ && _). Qed.
Lemma recovery_counts now bs : map current_connections (passive_recovery now bs) = map current_connections bs.
Proof. unfold passive_recovery. rewrite map_map. apply map_ext, recover_count. Qed.
Lemma advance_count b : current_connections (advance b) = current_connections b.
Proof. unfold advance. by destruct (healthy b). Qed.

Lemma select_counts now rand addr lb r lb' :
  select_backend now rand addr lb = (r, lb') ->
  map current_connections (lb_backends lb') = map current_connections (lb_backends lb) /\ lb_conns lb' = lb_conns lb /\ lb_closed lb' = lb_closed lb.
Proof.
  unfold select_backend. match goal with |- (let '(_, _) := ?e in _) = _ -> _ => destruct e as [r0 bs] eqn:E end.
  intros [_ <-]%pair_equal_spec. split; [|done]. cbn [lb_backends set_backends].
  assert (map current_connections bs = map current_connections (lb_backends lb)); [|done].
  destruct (lb_strategy_of lb); revert E.
  - unfold backend_round_robin_select. destruct (total_weight _ =? 0); [intros [_ <-]%pair_equal_spec; apply recovery_counts|].
    pose proof (rr_loop_map (passive_recovery now (lb_backends lb)) 0 None 0) as Hm. destruct (rr_loop _ 0 None 0) as [l [i|]]; cbn [fst] in Hm;
      intros [_ <-]%pair_equal_spec; rewrite ?counts_alter by done; rewrite Hm, map_map, <- (recovery_counts now); apply map_ext, advance_count.
  - intros [_ <-]%pair_equal_spec. apply recovery_counts.
  - unfold ip_hash_select. destruct (_ <=? 0); intros [_ <-]%pair_equal_spec; apply recovery_counts.
  - unfold random_select. destruct (_ <=? 0); [intros [_ <-]%pair_equal_spec; apply recovery_counts|]. destruct (_ =? 0); intros [_ <-]%pair_equal_spec; apply recovery_counts.
Qed.

(** The address a new connection would get is not in use. *)
Definition fresh_block (ac : option accepted) (lb : load_balancer) : Prop :=
  forall x a, ac = Some x -> ac_block x = Some a -> lb_conns lb !! a = None.

Section loop.
Context (inet_ntop4 inet_ntop6 : bytes -> option bytes) (proxy : bool).

Lemma new_connection_inv now ac lb :
  lb_inv lb -> fresh_block ac lb ->
  let lb' := (lb_handle_new_connection inet_ntop4 inet_ntop6 proxy now ac lb).1 in
  lb_inv lb' /\ forall a c, lb_conns lb !! a = Some c -> lb_conns lb' !! a = Some c.
Proof.
  intros Hi Hf. unfold lb_handle_new_connection. destruct ac as [x|]; [|done]. destruct (ac_nonblocking x); [|done]. cbn [negb].
  destruct (select_backend now.1 (ac_rand x) (ac_addr x) lb) as [r lb1] eqn:E. apply select_counts in E as (E1 & E2 & E3).
  assert (forall f i, (forall b, current_connections (f b) = current_connections b) ->
    lb_inv (on_backend i f lb1)) as Hmark.
  { intros f i Hf'. destruct Hi as [H1 H2 H3 H4]. constructor; cbn; rewrite ?E2, ?E3; try done. intros j b Hb.
    destruct (counts_lookup (lb_backends lb) (alter f i (lb_backends lb1)) j b) as (b0 & Hb0 & ->); [by rewrite counts_alter|exact Hb|by apply H4]. }
  assert (lb_inv lb1) as Hi1.
  { destruct Hi as [H1 H2 H3 H4]. constructor; rewrite ?E2, ?E3; try done. intros j b Hb.
    destruct (counts_lookup (lb_backends lb) (lb_backends lb1) j b E1 Hb) as (b0 & Hb0 & ->). by apply H4. }
  destruct r as [i|]; [|cbn; by rewrite E2]. destruct (ac_connect x); cbn [negb]; [|cbn -[on_backend]; split; [by apply Hmark|cbn; by rewrite E2]].
  destruct (ac_block x) as [a|] eqn:Ea; [|cbn; by rewrite E2]. destruct (ac_register x); cbn [negb]; [|cbn; by rewrite E2].
  specialize (Hf x a eq_refl Ea). cbn [fst lb_conns]. set (cn := new_connection _ _ _ _). rewrite <- E2 in Hf |- *.
  split; [|intros b c Hb; rewrite lookup_insert_ne; [done|]; intros <-; congruence]. clear Hmark.
  destruct Hi1 as [H1 H2 H3 H4]. constructor; cbn [lb_conns lb_closed lb_backends on_backend set_backends].
  - intros b c [[<- <-]|[_ Hc]]%lookup_insert_Some; [|by apply (H1 b)]. split.
    + constructor; cbn; try done. pose proof (zlen_nonneg (build_proxy_header inet_ntop4 inet_ntop6 proxy (ac_addr x) (ac_port x) (ac_local x))). lia.
    + intros _. constructor; cbn; done.
  - done.
  - intros b. rewrite H3. destruct (decide (b = a)) as [->|Hne]; [|by rewrite lookup_insert_ne].
    rewrite lookup_insert_eq, Hf. split; intros (c & [= <-] & Hc). done.
  - intros j b Hb. pose proof (open_on_insert j (lb_conns lb1) a cn) as Ho. rewrite Hf in Ho. destruct (decide (j = i)) as [->|Hj].
    + rewrite list_lookup_alter_eq in Hb. apply fmap_Some in Hb as (b1 & Hb1 & ->). cbn. rewrite (H4 _ _ Hb1). rewrite (one_true (live_on i cn)) in Ho by done. lia.
    + rewrite list_lookup_alter_ne in Hb by done. rewrite (H4 _ _ Hb). rewrite (one_false (live_on j cn)) in Ho by (intros [? _]; cbn in *; congruence). lia.
Qed.

(** ** Batches *)
(** What epoll can report of an entry: its connection is open, it is reported
    readable only when that is of interest, and a read fits the buffer. *)
Definition reported (lb : load_balancer) (ev : lb_event) : Prop :=
  ev_role ev <> IO_LISTEN -> exists c, lb_conns lb !! ev_conn ev = Some c /\ lc_closed c = false /\ read_fits (ev_read ev) /\
    (has_flag (ev_flags ev) EPOLLIN = true -> has_flag (match ev_role ev with IO_CLIENT => lc_cevents c | _ => lc_bevents c end) EPOLLIN = true).

(** Two entries are of different sockets. *)
Definition other_socket (e1 e2 : lb_event) : Prop := ev_role e1 = IO_LISTEN \/ ev_role e2 = IO_LISTEN \/ (ev_role e1, ev_conn e1) <> (ev_role e2, ev_conn e2).
Fixpoint distinct_sockets (evs : list lb_event) : Prop :=
  match evs with [] => True | ev :: evs => Forall (other_socket ev) evs /\ distinct_sockets evs end.

(** The allocator never returns a block in use, along the batch. *)
Fixpoint fresh_blocks (evs : list lb_event) (lb : load_balancer) : Prop :=
  match evs with
  | [] => True
  | ev :: evs =>
      (ev_role ev = IO_LISTEN -> fresh_block (ev_accept ev) lb) /\
      forall lb1, lb_dispatch inet_ntop4 inet_ntop6 proxy ev lb = Some lb1 -> fresh_blocks evs lb1
  end.

(** An entry that is still to be dispatched: its connection is allocated, and
    unless it has been closed the buffer the entry would fill is empty. *)
Definition awaiting (lb : load_balancer) (ev : lb_event) : Prop :=
  ev_role ev <> IO_LISTEN -> exists c, lb_conns lb !! ev_conn ev = Some c /\ read_fits (ev_read ev) /\
    (lc_closed c = false -> has_flag (ev_flags ev) EPOLLIN = true -> match ev_role ev with IO_CLIENT => drained_c c | _ => drained_b c end).

Lemma reported_awaiting lb ev : lb_inv lb -> reported lb ev -> awaiting lb ev.
Proof.
  intros Hi Hr Hl. destruct (Hr Hl) as (c & Hc & Ho & Hf & Hin). exists c. split; [done|]. split; [done|]. intros _ Hfl. specialize (Hin Hfl).
  destruct (li_conns _ Hi _ _ Hc) as [_ Hio]. specialize (Hio Ho). destruct (ev_role ev); [done|by apply io_read_client|by apply io_read_backend].
Qed.

(** The direction an entry's handler may not fill. *)
Definition kept (ev : lb_event) (c c' : lb_connection) : Prop :=
  match ev_role ev with IO_CLIENT => drained_b c -> drained_b c' | _ => drained_c c -> drained_c c' end.

Lemma served_awaiting lb ev c lb' :
  ev_role ev <> IO_LISTEN -> lb_conns lb !! ev_conn ev = Some c -> lc_closed c = false -> served lb (ev_conn ev) (kept ev c) lb' ->
  forall ev', awaiting lb ev' -> other_socket ev ev' -> awaiting lb' ev'.
Proof.
  intros Hl Hc Hop [Hi' (c' & Hc' & Hk)] ev' Hw' Hne Hl'. rewrite Hc'.
  destruct (Hw' Hl') as (c1 & Hc1 & Hr1 & Hd1). destruct (decide (ev_conn ev' = ev_conn ev)) as [Ea|Hna]; [|rewrite lookup_insert_ne by done; by exists c1].
  rewrite Ea, lookup_insert_eq. exists c'. split; [done|]. split; [done|]. intros Ho' Hfl. rewrite Ea, Hc in Hc1. injection Hc1 as <-. specialize (Hd1 Hop Hfl).
  specialize (Hk Ho'). unfold kept in Hk. destruct Hne as [?|[?|Hne]]; [done|done|]. rewrite Ea in Hne. destruct (ev_role ev), (ev_role ev'); try done; by apply Hk.
Qed.

(** The handler of an entry of an open connection. *)
Lemma dispatch_served ev lb c :
  lb_inv lb -> awaiting lb ev -> ev_role ev <> IO_LISTEN -> lb_conns lb !! ev_conn ev = Some c -> lc_closed c = false ->
  exists lb', lb_dispatch inet_ntop4 inet_ntop6 proxy ev lb = Some lb' /\ served lb (ev_conn ev) (kept ev c) lb'.
Proof.
  intros Hi Hw Hl Hc Ho. destruct (Hw Hl) as (c0 & Hc0 & Hr & Hd). rewrite Hc in Hc0. injection Hc0 as <-. specialize (Hd Ho).
  assert (served lb (ev_conn ev) (kept ev c) lb) as Hsame.
  { split; [done|]. exists c. rewrite insert_id by done. split; [done|]. intros _. unfold kept. by destruct (ev_role ev). }
  unfold lb_dispatch, kept in *. destruct (ev_role ev); [done| |]; rewrite Hc; cbn [mbind option_bind]; rewrite Ho.
  all: destruct (has_flag (ev_flags ev) EPOLLIN) eqn:Ein; cbn [negb]; rewrite ?andb_false_r, ?andb_true_r.
  - apply client_data_served; auto.
  - destruct (has_flag (ev_flags ev) (Z.lor EPOLLHUP EPOLLERR)); [by eapply error_served|]. destruct (has_flag (ev_flags ev) EPOLLOUT); [by apply client_write_served|by exists lb].
  - apply backend_data_served; auto.
  - destruct (has_flag (ev_flags ev) (Z.lor EPOLLHUP EPOLLERR)); [by eapply error_served|]. destruct (has_flag (ev_flags ev) EPOLLOUT); [by apply backend_write_served|by exists lb].
Qed.

Lemma dispatch_spec ev lb :
  lb_inv lb -> awaiting lb ev -> (ev_role ev = IO_LISTEN -> fresh_block (ev_accept ev) lb) ->
  exists lb', lb_dispatch inet_ntop4 inet_ntop6 proxy ev lb = Some lb' /\ lb_inv lb' /\
    forall ev', awaiting lb ev' -> other_socket ev ev' -> awaiting lb' ev'.
Proof.
  intros Hi Hw Hf. destruct (decide (ev_role ev = IO_LISTEN)) as [El|Hl].
  { unfold lb_dispatch. rewrite El. destruct (new_connection_inv (ev_time ev) (ev_accept ev) lb Hi (Hf El)) as [Hi' Hk]. eexists. split; [reflexivity|]. split; [done|].
    intros ev' Hw' _ Hl'. destruct (Hw' Hl') as (c & Hc & Hr). exists c. split; [by apply Hk|done]. }
  destruct (Hw Hl) as (c & Hc & _). destruct (lc_closed c) eqn:Eo.
  { exists lb. split; [|done]. unfold lb_dispatch. destruct (ev_role ev); [done|by rewrite Hc; cbn; rewrite Eo..]. }
  destruct (dispatch_served ev lb c Hi Hw Hl Hc Eo) as (lb' & He & Hs). exists lb'. split; [done|]. split; [apply Hs|by eapply served_awaiting].
Qed.

Lemma dispatch_all_spec evs lb :
  lb_inv lb -> Forall (awaiting lb) evs -> distinct_sockets evs -> fresh_blocks evs lb ->
  exists lb', dispatch_all inet_ntop4 inet_ntop6 proxy evs lb = Some lb' /\ lb_inv lb'.
Proof.
  revert lb. induction evs as [|ev evs IH]; intros lb Hi Hw Hd Hf; [by exists lb|]. apply list.Forall_cons in Hw as [Hw Hws]. destruct Hd as [Hd1 Hd2], Hf as [Hf1 Hf2].
  destruct (dispatch_spec ev lb Hi Hw Hf1) as (lb1 & He & Hi1 & Hk). cbn [dispatch_all]. rewrite He. cbn [mbind option_bind]. apply IH; [done| |done|by apply Hf2].
  apply list.Forall_forall. intros ev' Hin. rewrite list.Forall_forall in Hws, Hd1. auto.
Qed.

Lemma free_closed_inv lb : lb_inv lb -> lb_inv (free_closed lb) /\
  (forall a c, lb_conns (free_closed lb) !! a = Some c <-> lb_conns lb !! a = Some c /\ lc_closed c = false).
Proof.
  intros [H1 H2 H3 H4].
  assert (forall l m, (forall a, a ∈ l -> exists c, m !! a = Some c /\ lc_closed c = true) -> NoDup l ->
    (forall a, foldl (fun h a => delete a h) m l !! a = if decide (a ∈ l) then None else m !! a) /\
    forall i, open_on i (foldl (fun h a => delete a h) m l) = open_on i m) as Hgen.
  { clear. intros l. induction l as [|b l IH]; intros m Hl Hnd; cbn [foldl].
    - split; [|done]. intros a. by rewrite decide_False by apply not_elem_of_nil.
    - apply list.NoDup_cons in Hnd as [Hb Hnd]. destruct (Hl b ltac:(left)) as (c & Hc & Hcc). destruct (IH (delete b m)) as [IH1 IH2]; [|done|].
      + intros a Ha. rewrite lookup_delete_ne by (by intros ->). apply Hl. by right.
      + split; [|intros i; rewrite IH2; by eapply open_on_delete_closed]. intros a. rewrite IH1.
        destruct (decide (a ∈ l)), (decide (a ∈ b :: l)) as [H|H]; try done; [exfalso; apply H; by right| |].
        * apply elem_of_cons in H as [->|]; [by rewrite lookup_delete_eq|done].
        * rewrite lookup_delete_ne; [done|]. intros ->. apply H. left. }
  destruct (Hgen (lb_closed lb) (lb_conns lb) (fun a => proj1 (H3 a)) H2) as [Hg1 Hg2].
  assert (forall a c, lb_conns (free_closed lb) !! a = Some c <-> lb_conns lb !! a = Some c /\ lc_closed c = false) as Hl.
  { intros a c. unfold free_closed. cbn [lb_conns]. rewrite Hg1. destruct (decide (a ∈ lb_closed lb)) as [Ha|Ha].
    - split; [done|]. intros [Hc Hcc]. apply H3 in Ha as (c' & Hc' & Hcc'). congruence.
    - split; [|by intros [? _]]. intros Hc. split; [done|]. destruct (lc_closed c) eqn:E; [|done]. exfalso. apply Ha, H3. by exists c. }
  split; [|done]. constructor.
  - intros a c [Hc _]%Hl. by apply (H1 a).
  - apply NoDup_nil_2.
  - intros a. split; [by intros ?%not_elem_of_nil|]. intros (c & [_ ?]%Hl & ?). congruence.
  - intros i b Hb. unfold free_closed. cbn [lb_conns]. rewrite Hg2. by apply H4.
Qed.

(** ** Runs *)
(** A batch that epoll reports and the allocator serves. *)
Record batch_ok (evs : list lb_event) (lb : load_balancer) : Prop := {
  bo_reported : Forall (reported lb) evs;
  bo_distinct : distinct_sockets evs;
  bo_fresh : fresh_blocks evs lb }.

Definition lb_step (lb lb' : load_balancer) : Prop := exists evs, batch_ok evs lb /\ lb_batch inet_ntop4 inet_ntop6 proxy evs lb = Some lb'.

(** A balancer with its backends and no connection yet. *)
Definition lb_fresh (lb : load_balancer) : Prop :=
  lb_conns lb = ∅ /\ lb_closed lb = [] /\ Forall (fun b => current_connections b = 0) (lb_backends lb).

Lemma lb_fresh_inv lb : lb_fresh lb -> lb_inv lb.
Proof.
  intros (H1 & H2 & H3). constructor; rewrite ?H1, ?H2; [by intros a c; rewrite lookup_empty|apply NoDup_nil_2| |].
  - intros a. split; [by intros ?%not_elem_of_nil|]. by intros (c & ?%lookup_empty_Some & _).
  - intros i b Hb. eapply Forall_lookup_1 in H3; [|exact Hb]. cbn in H3. by rewrite H3.
Qed.

Lemma batch_spec evs lb :
  lb_inv lb -> batch_ok evs lb -> exists lb1, dispatch_all inet_ntop4 inet_ntop6 proxy evs lb = Some lb1 /\ lb_inv lb1.
Proof.
  intros Hi [H1 H2 H3]. apply dispatch_all_spec; try done. eapply list.Forall_impl; [exact H1|]. intros ev. by apply reported_awaiting.
Qed.

Lemma lb_reach_inv lb lb' : lb_fresh lb -> rtc lb_step lb lb' -> lb_inv lb'.
Proof.
  intros Hf%lb_fresh_inv Hr. induction Hr as [|lb1 lb2 lb3 (evs & Hb & He) _ IH]; [done|]. apply IH.
  destruct (batch_spec evs lb1 Hf Hb) as (lb4 & Hd & Hi). unfold lb_batch in He. rewrite Hd in He. injection He as <-. by apply free_closed_inv.
Qed.
End loop.
