(* ===== verification/ProxyLink.v ===== *)
(** * The PROXY header between balancer and server

    build_proxy_header of balancer.c writes what consume_proxy_header of
    worker.c reads: the server learns the client's address, whatever the pieces
    the header arrives in, and finds the request right behind it. *)
From Stdlib Require Import String.
From S2P Require Import Prelude Text Json HttpTypes HttpText Connection HttpRequest HttpFrame Selection Worker Balancer.

Local Open Scope Z_scope.

(** Characters other than blanks and controls. *)
Definition visible (s : bytes) : Prop := s <> [] /\ Forall (fun c => 33 <= c <= 126) s.

Lemma visible_not_in c s : visible s -> ~ (33 <= c <= 126) -> c ∉ s.
Proof. intros [_ Hf] Hc Hin. rewrite list.Forall_forall in Hf. by apply Hc, Hf. Qed.

Lemma take_word_visible n s r : Forall (fun c => 33 <= c <= 126) s -> zlen s <= n -> take_word n (s ++ 32 :: r) = (s, 32 :: r).
Proof.
  intros Hf. revert n. induction Hf as [|c s Hc _ IH]; intros n Hn; [done|]. rewrite zlen_cons in Hn. pose proof (zlen_nonneg s). cbn [app take_word].
  assert (is_space c = false) as -> by (unfold is_space; lia). destruct (Z.leb_spec n 0); [lia|]. cbn [orb]. by rewrite IH by lia.
Qed.

Lemma scan_word_visible n s r : visible s -> zlen s <= n -> scan_word n (32 :: s ++ 32 :: r) = Some (s, 32 :: r).
Proof.
  intros [Hne Hf] Hn. unfold scan_word. change (skip_spaces (32 :: s ++ 32 :: r)) with (skip_spaces (s ++ 32 :: r)).
  assert (skip_spaces (s ++ 32 :: r) = s ++ 32 :: r) as ->.
  { destruct s as [|c s]; [done|]. cbn. inversion Hf; subst. assert (is_space c = false) as -> by (unfold is_space; lia). done. }
  rewrite take_word_visible by done. by destruct s.
Qed.

Lemma dec_port p : 0 <= p <= 65535 -> all_digits (dec p) /\ digits_value (dec p) = p /\ dec p <> [] /\ zlen (dec p) <= 5.
Proof.
  intros Hp. destruct (decide (p = 0)) as [->|Hz]; [split_and!; [repeat constructor|done|done|done]|].
  destruct (dec_spec p) as (Hd & Hv & Hne & _); [unfold UINT64_MAX; lia|]. split_and!; try done.
  destruct (dec_loop_spec 20 p []) as (ds & E & _ & Hv' & _ & _ & Hlow); [change (10 ^ Z.of_nat 20) with 100000000000000000000; lia|lia|].
  unfold dec. rewrite E, app_nil_r. destruct Hlow as [Hl|Hl]; [done|].
  destruct (Z.le_gt_cases (zlen ds) 5) as [|Hgt]; [done|]. assert (10 ^ 5 <= 10 ^ (zlen ds - 1)) by (apply Z.pow_le_mono_r; lia). lia.
Qed.

Lemma scan_unsigned_dec p r : 0 <= p <= 65535 -> digit_start r = false -> scan_unsigned (32 :: dec p ++ r) = Some (p, r).
Proof.
  intros Hp Hr. destruct (dec_port p Hp) as (Hd & Hv & Hne & _). unfold scan_unsigned.
  change (skip_spaces (32 :: dec p ++ r)) with (skip_spaces (dec p ++ r)).
  destruct (dec p) as [|c ds] eqn:E; [done|]. apply list.Forall_cons in Hd as [Hc Hds]. apply is_digit_spec in Hc as Hc'.
  assert (skip_spaces ((c :: ds) ++ r) = (c :: ds) ++ r) as -> by (cbn; assert (is_space c = false) as -> by (unfold is_space; lia); done).
  assert ((let '(neg, l) := match (c :: ds) ++ r with 45 :: l' => (true, l') | 43 :: l' => (false, l') | _ => (false, (c :: ds) ++ r) end in
    match span_digits l with ([], _) => None | (ds0, rest) => Some (u32 (if digits_value ds0 >? UINT64_MAX then UINT64_MAX else if neg : bool then u64 (- digits_value ds0) else digits_value ds0), rest) end)
    = Some (p, r)) as H; [|exact H].
  assert (match (c :: ds) ++ r with 45 :: l' => (true, l') | 43 :: l' => (false, l') | _ => (false, (c :: ds) ++ r) end = (false, (c :: ds) ++ r)) as ->.
  { cbn [app]. assert (c <> 45 /\ c <> 43) by lia. do 6 (destruct c as [|c|c]; try done; try lia). }
  rewrite span_digits_app; [|by constructor|done]. rewrite Hv. destruct (Z.gtb_spec p UINT64_MAX); [unfold UINT64_MAX in *; lia|].
  rewrite u32_small by (unfold UINT32_MAX; lia). done.
Qed.

(** ** What the header looks like *)
Section link.
Context (inet_ntop4 inet_ntop6 inet_pton4 inet_pton6 : bytes -> option bytes).
(** The texts of addresses: short, without blanks, and read back. An IPv6 text
    is not an IPv4 text. *)
Context (ntop4 : forall a s, inet_ntop4 a = Some s -> visible s /\ zlen s <= 15 /\ inet_pton4 s = Some a).
Context (ntop6 : forall a s, inet_ntop6 a = Some s -> visible s /\ zlen s <= 39 /\ inet_pton4 s = None /\ inet_pton6 s = Some a).

Lemma net_addr_str_back addr s :
  net_addr_str inet_ntop4 inet_ntop6 addr = Some s ->
  visible s /\ zlen s <= 39 /\ exists a, net_addr_from_str inet_pton4 inet_pton6 s = Some a /\ addr_bytes a = addr_bytes addr.
Proof using ntop4 ntop6.
  unfold net_addr_str, net_addr_from_str. destruct addr as [a|a|]; [| |done].
  - intros (Hv & Hl & ->)%ntop4. split; [done|]. split; [lia|]. by exists (AF_INET a).
  - destruct (is_v4_mapped a) eqn:Em.
    + intros (Hv & Hl & ->)%ntop4. split; [done|]. split; [lia|]. eexists. split; [done|]. cbn. by rewrite Em.
    + intros (Hv & Hl & -> & ->)%ntop6. split; [done|]. split; [lia|]. by exists (AF_INET6 a).
Qed.

(** A header is one line: visible words and single spaces, then CR LF. *)
Record header_line (hdr line : bytes) : Prop := {
  hl_end : hdr = line ++ CRLF;
  hl_start : exists r, line = str "PROXY " ++ r;
  hl_text : Forall (fun c => 32 <= c <= 126) line;
  hl_len : zlen hdr <= PROXY_MAX }.

Lemma hl_not_in hdr line c : header_line hdr line -> ~ (32 <= c <= 126) -> c ∉ line.
Proof using. intros H Hc Hin. pose proof (hl_text _ _ H) as Hf. rewrite list.Forall_forall in Hf. by apply Hc, Hf. Qed.

(** The whole header, and what follows it, in the read buffer. *)
Lemma header_split hdr line rest :
  header_line hdr line -> split_at 10 (ztake PROXY_MAX (hdr ++ rest)) = Some (line ++ [13], ztake (PROXY_MAX - zlen hdr) rest).
Proof using.
  intros H. rewrite ztake_app_ge by apply (hl_len _ _ H). rewrite (hl_end _ _ H) at 1. unfold CRLF. rewrite <- !app_assoc. cbn [app].
  change (line ++ 13 :: 10 :: ?x) with (line ++ [13] ++ 10 :: x). rewrite app_assoc. apply split_at_app.
  rewrite elem_of_app, list_elem_of_singleton. intros [Hin|Hin]; [|done]. revert Hin. apply (hl_not_in _ _ _ H). lia.
Qed.

Lemma header_strip hdr line : header_line hdr line -> cstr (strip_cr (line ++ [13])) = line /\ zlen (strip_cr (line ++ [13])) < 128.
Proof using.
  intros H. unfold strip_cr. rewrite list.last_snoc, removelast_last. split; [apply cstr_id, (hl_not_in _ _ _ H); lia|].
  pose proof (hl_len _ _ H) as Hl. rewrite (hl_end _ _ H), zlen_app in Hl. unfold PROXY_MAX in Hl. change (zlen CRLF) with 2 in Hl. lia.
Qed.

(** While part of the header is missing the server waits. *)
Lemma header_partial hdr line p q w :
  header_line hdr line -> hdr = p ++ q -> q <> [] -> conn_rbuf (w_conn w) = p -> consume_proxy_header inet_pton4 inet_pton6 w = (0, w).
Proof using.
  intros H E Hq Hb. unfold consume_proxy_header. rewrite Hb. destruct (hl_start _ _ H) as [r Hr]. pose proof (hl_len _ _ H) as Hl.
  assert (zlen p < PROXY_MAX) as Hp by (rewrite E, zlen_app in Hl; destruct q; [done|]; rewrite zlen_cons in Hl; pose proof (zlen_nonneg q); lia).
  assert (hdr = str "PROXY " ++ r ++ CRLF) as E2 by (rewrite (hl_end _ _ H), Hr; by rewrite <- app_assoc).
  destruct (Z.ltb_spec (zlen p) 6) as [Hlt|Hge].
  - rewrite bool_decide_true; [done|]. assert (ztake (zlen p) hdr = p) as Ht by (rewrite E; by apply ztake_app_eq).
    rewrite E2, ztake_app_le in Ht; [done|]. change (zlen (str "PROXY ")) with 6. lia.
  - assert (starts_with (str "PROXY ") p = true) as ->.
    { apply starts_with_spec. exists (zdrop 6 p). rewrite <- (ztake_zdrop 6 p) at 1. f_equal.
      assert (ztake 6 hdr = str "PROXY ") as <- by (rewrite E2; by apply ztake_app_eq). rewrite E. symmetry. apply ztake_app_le. lia. }
    cbn [negb]. rewrite ztake_all by lia. assert (split_at 10 p = None) as ->; [|by destruct (Z.geb_spec (zlen p) PROXY_MAX); [lia|]].
    apply split_at_none. intros Hin.
    assert (exists t, line ++ [13] = p ++ t) as [t Ht].
    { destruct q as [|x q] using rev_ind; [done|]. exists q. clear IHq. rewrite (hl_end _ _ H) in E. unfold CRLF in E.
      change (line ++ [13; 10]) with (line ++ [13] ++ [10]) in E. rewrite app_assoc, (app_assoc p) in E. by apply app_inj_tail in E as [? _]. }
    assert (10 ∈ line ++ [13]) as Hin2 by (rewrite Ht; apply elem_of_app; by left). apply elem_of_app in Hin2 as [Hin2|?%list_elem_of_singleton]; [|done].
    revert Hin2. apply (hl_not_in _ _ _ H). lia.
Qed.

(** With the header complete the decision rests on its line. *)
Lemma consume_header hdr line rest w :
  header_line hdr line -> conn_rbuf (w_conn w) = hdr ++ rest ->
  consume_proxy_header inet_pton4 inet_pton6 w =
  let unknown := if starts_with (str "PROXY UNKNOWN") line then (1, conn_consume_read (zlen hdr) w) else (-1, w) in
  match scan_proxy (zdrop 5 line) with
  | Some (proto, src, sport) =>
      if (streq proto (str "TCP4") || streq proto (str "TCP6")) && (sport <=? 65535) then
        (1, conn_consume_read (zlen hdr) (match net_addr_from_str inet_pton4 inet_pton6 src with Some a => set_w_addr a w | None => w end))
      else unknown
  | None => unknown
  end.
Proof using.
  intros H Hb. unfold consume_proxy_header. rewrite Hb. destruct (hl_start _ _ H) as [r Hr]. pose proof (header_strip _ _ H) as [Hs Hl].
  assert (hdr ++ rest = str "PROXY " ++ (r ++ CRLF ++ rest)) as E2 by (rewrite (hl_end _ _ H), Hr; by rewrite <- !app_assoc).
  assert (zlen (hdr ++ rest) <? 6 = false) as ->.
  { rewrite E2, zlen_app. change (zlen (str "PROXY ")) with 6. pose proof (zlen_nonneg (r ++ CRLF ++ rest)). apply Z.ltb_ge. lia. }
  assert (starts_with (str "PROXY ") (hdr ++ rest) = true) as -> by (apply starts_with_spec; eauto). cbn [negb].
  rewrite (header_split _ _ _ H), Hs. destruct (Z.geb_spec (zlen (strip_cr (line ++ [13]))) 128); [lia|].
  assert (zlen (line ++ [13]) + 1 = zlen hdr) as -> by (rewrite (hl_end _ _ H), !zlen_app; change (zlen CRLF) with 2; change (zlen [13]) with 1; lia).
  done.
Qed.

Lemma proxy_text_line cv src dst p1 p2 :
  cv = 4 \/ cv = 6 -> visible src -> visible dst -> zlen src <= 39 -> zlen dst <= 39 -> 0 <= p1 <= 65535 -> 0 <= p2 <= 65535 ->
  exists line, header_line (proxy_text cv src dst p1 p2) line /\ scan_proxy (zdrop 5 line) = Some (str "TCP" ++ dec cv, src, p1).
Proof using.
  intros Hcv Hs Hd Hls Hld Hp1 Hp2. destruct (dec_port p1 Hp1) as (Hd1 & _ & Hne1 & Hl1), (dec_port p2 Hp2) as (Hd2 & _ & Hne2 & Hl2).
  assert (visible (str "TCP" ++ dec cv) /\ zlen (str "TCP" ++ dec cv) = 4) as [Hv Hlv].
  { destruct Hcv as [-> | ->]; (split; [|reflexivity]); (split; [done|]); by apply (bool_decide_unpack _). }
  set (line := str "PROXY" ++ 32 :: (str "TCP" ++ dec cv) ++ 32 :: src ++ 32 :: dst ++ 32 :: dec p1 ++ 32 :: dec p2). exists line.
  assert (proxy_text cv src dst p1 p2 = line ++ CRLF) as E.
  { unfold proxy_text, line. change (str "PROXY TCP") with (str "PROXY" ++ [32] ++ str "TCP"). by rewrite <- !app_assoc; cbn [app]; rewrite <- !app_assoc; cbn [app]; rewrite <- !app_assoc; cbn [app]; rewrite <- !app_assoc; cbn [app]; rewrite <- !app_assoc. }
  split; [constructor|].
  - exact E.
  - exists ((str "TCP" ++ dec cv) ++ 32 :: src ++ 32 :: dst ++ 32 :: dec p1 ++ 32 :: dec p2). reflexivity.
  - assert (forall x, visible x -> Forall (fun c => 32 <= c <= 126) x) as Hw by (intros x [_ Hx]; eapply list.Forall_impl; [exact Hx|]; cbn; lia).
    assert (forall x, all_digits x -> Forall (fun c => 32 <= c <= 126) x) as Hg by (intros x Hx; eapply list.Forall_impl; [exact Hx|]; intros c ?%is_digit_spec; lia).
    unfold line. repeat first [apply Forall_app; split|apply list.Forall_cons; split]; try lia; auto; destruct Hcv as [-> | ->]; by apply (bool_decide_unpack _).
  - rewrite E. unfold line. repeat rewrite ?zlen_app, ?zlen_cons. rewrite zlen_app in Hlv. change (zlen (str "PROXY")) with 5. change (zlen CRLF) with 2. unfold PROXY_MAX. lia.
  - unfold line. rewrite zdrop_app_eq by done. unfold scan_proxy. rewrite scan_word_visible by (done || lia). cbn [mbind option_bind].
    rewrite scan_word_visible by (done || lia). cbn [mbind option_bind]. rewrite scan_word_visible by (done || lia). cbn [mbind option_bind].
    rewrite scan_unsigned_dec by done. cbn [mbind option_bind]. rewrite <- (app_nil_r (dec p2)), scan_unsigned_dec by done. done.
Qed.

Lemma unknown_line : header_line PROXY_UNKNOWN (str "PROXY UNKNOWN").
Proof using. constructor; [done|by eexists|by apply (bool_decide_unpack _)|vm_compute; congruence]. Qed.

(** Whatever header the balancer builds, the server consumes exactly it; a
    declared address is the client's, and otherwise the server keeps what it
    knows. *)
Lemma proxy_link addr port local w rest :
  let hdr := build_proxy_header inet_ntop4 inet_ntop6 true addr port local in
  0 <= port <= 65535 -> (forall la lp, local = Some (la, lp) -> 0 <= lp <= 65535) -> conn_rbuf (w_conn w) = hdr ++ rest ->
  (exists line, header_line hdr line) /\
  exists a, consume_proxy_header inet_pton4 inet_pton6 w = (1, conn_consume_read (zlen hdr) (set_w_addr a w)) /\
    (hdr = PROXY_UNKNOWN /\ a = w_addr w \/ hdr <> PROXY_UNKNOWN /\ addr_bytes a = addr_bytes addr).
Proof using ntop4 ntop6.
  intros hdr Hp Hlp Hb.
  assert (hdr = PROXY_UNKNOWN \/ exists la lp src dst, local = Some (la, lp) /\ (net_addr_version addr = 4 \/ net_addr_version addr = 6) /\
    net_addr_str inet_ntop4 inet_ntop6 addr = Some src /\ net_addr_str inet_ntop4 inet_ntop6 la = Some dst /\ hdr = proxy_text (net_addr_version addr) src dst port lp) as Hcases.
  { unfold hdr, build_proxy_header. cbn [negb]. destruct local as [[la lp]|]; [|by left]. cbn [mbind option_bind].
    destruct (net_addr_version addr =? 0) eqn:Ev; [by left|]. cbn [orb]. destruct (negb _); [by left|].
    destruct (net_addr_str _ _ addr) as [src|] eqn:Es; [|by left]. cbn [mbind option_bind]. destruct (net_addr_str _ _ la) as [dst|] eqn:Ed; [|by left]. cbn [mbind option_bind].
    destruct (zlen _ <? 128); [|by left]. right. exists la, lp, src, dst. split; [done|]. split; [|done].
    unfold net_addr_version in *. destruct (_ =? 4); [by left|]. destruct (_ =? 16); [by right|done]. }
  destruct Hcases as [E|(la & lp & src & dst & -> & Hcv & Hs & Hd & E)]; rewrite E in Hb |- *.
  - split; [eexists; exact unknown_line|]. exists (w_addr w). split; [|by left]. rewrite (consume_header _ _ _ _ unknown_line Hb).
    change (scan_proxy (zdrop 5 (str "PROXY UNKNOWN"))) with (@None (bytes * bytes * Z)). cbn zeta. by destruct w.
  - destruct (net_addr_str_back _ _ Hs) as (Hvs & Hls & a & Ha & Hab), (net_addr_str_back _ _ Hd) as (Hvd & Hld & _).
    destruct (proxy_text_line (net_addr_version addr) src dst port lp Hcv Hvs Hvd Hls Hld Hp (Hlp la lp eq_refl)) as (line & Hline & Hscan).
    split; [by exists line|]. exists a. split.
    + rewrite (consume_header _ _ _ _ Hline Hb), Hscan, Ha. cbn zeta.
      assert (streq (str "TCP" ++ dec (net_addr_version addr)) (str "TCP4") || streq (str "TCP" ++ dec (net_addr_version addr)) (str "TCP6") = true) as -> by (by destruct Hcv as [-> | ->]).
      destruct (Z.leb_spec port 65535); [done|lia].
    + right. split; [|done]. intros Eu. apply (f_equal (fun l => ztake 9 l)) in Eu. unfold proxy_text in Eu. rewrite ztake_app_eq in Eu by done. by vm_compute in Eu.
Qed.
End link.
