(* ===== verification/Weights.v ===== *)
(** * The weights of the round robin stay within [int]

    Smooth weighted round robin while backends fail and recover in any order:
    the current weights of every set of slots stay above a quadratic bound in
    the size of the set, so [int] arithmetic never wraps for the weights and
    the number of backends the configuration admits. *)
From S2P Require Import Prelude Selection.

Local Open Scope Z_scope.

(** ** Sums over a set of slots *)
(** The sum of [f] over the slots [m] picks. *)
Fixpoint msum (f : backend -> Z) (m : nat -> bool) (bs : list backend) : Z :=
  match bs with
  | [] => 0
  | b :: bs => (if m 0%nat then f b else 0) + msum f (fun i => m (S i)) bs
  end.

Definition full (_ : nat) : bool := true.
Definition with_slot (j : nat) (m : nat -> bool) (i : nat) : bool := (i =? j)%nat || m i.
Definition without_slot (j : nat) (m : nat -> bool) (i : nat) : bool := negb (i =? j)%nat && m i.

Lemma msum_ext f g m m' bs :
  (forall i b, bs !! i = Some b -> m i = m' i /\ f b = g b) -> msum f m bs = msum g m' bs.
Proof.
  revert m m'. induction bs as [|b bs IH]; intros m m' H; [done|]. cbn.
  destruct (H 0%nat b eq_refl) as [-> ->]. f_equal. apply IH. intros i c Hc. apply (H (S i)). exact Hc.
Qed.

Lemma msum_with f m bs j b : bs !! j = Some b -> m j = false -> msum f (with_slot j m) bs = msum f m bs + f b.
Proof.
  revert m j. induction bs as [|a bs IH]; intros m [|j] Hj Hm; try done; cbn.
  - injection Hj as ->. rewrite Hm. cbn. change (fun i => with_slot 0 m (S i)) with (fun i => m (S i)). lia.
  - change (fun i => with_slot (S j) m (S i)) with (with_slot j (fun i => m (S i))). rewrite (IH (fun i => m (S i)) j Hj Hm).
    unfold with_slot. cbn. lia.
Qed.

Lemma msum_without f m bs j b : bs !! j = Some b -> m j = true -> msum f (without_slot j m) bs = msum f m bs - f b.
Proof.
  intros Hj Hm. rewrite (msum_ext f f m (with_slot j (without_slot j m)) bs).
  - rewrite (msum_with _ _ _ _ _ Hj); [lia|]. unfold without_slot. by rewrite Nat.eqb_refl.
  - intros i c _. split; [|done]. unfold with_slot, without_slot. destruct (Nat.eqb_spec i j) as [->|]; [by rewrite Hm|done].
Qed.

Lemma msum_map f g m bs : msum f m (map g bs) = msum (fun b => f (g b)) m bs.
Proof. revert m. induction bs as [|b bs IH]; intros m; [done|]. cbn. by rewrite IH. Qed.

Lemma msum_plus f g m bs : msum (fun b => f b + g b) m bs = msum f m bs + msum g m bs.
Proof. revert m. induction bs as [|b bs IH]; intros m; [done|]. cbn. rewrite IH. destruct (m 0%nat); lia. Qed.

Lemma msum_alter f g m bs i b :
  bs !! i = Some b -> msum f m (alter g i bs) = msum f m bs + (if m i then f (g b) - f b else 0).
Proof.
  revert m i. induction bs as [|a bs IH]; intros m [|i] Hi; try done.
  - injection Hi as ->. cbn. destruct (m 0%nat); lia.
  - change (alter g (S i) (a :: bs)) with (a :: alter g i bs). cbn [msum]. rewrite (IH (fun i => m (S i)) i Hi). lia.
Qed.

Lemma msum_mono f m m' bs :
  (forall b, b ∈ bs -> 0 <= f b) -> (forall i, m i = true -> m' i = true) -> msum f m bs <= msum f m' bs.
Proof.
  revert m m'. induction bs as [|b bs IH]; intros m m' Hf Hm; [done|]. cbn.
  assert (msum f (fun i => m (S i)) bs <= msum f (fun i => m' (S i)) bs).
  { apply IH; [intros c Hc; apply Hf; by right|]. intros i. apply Hm. }
  assert (0 <= f b) by (apply Hf; left). specialize (Hm 0%nat). destruct (m 0%nat), (m' 0%nat); lia || discriminate (Hm eq_refl).
Qed.

Lemma msum_le f g m bs : (forall b, b ∈ bs -> f b <= g b) -> msum f m bs <= msum g m bs.
Proof.
  revert m. induction bs as [|b bs IH]; intros m Hf; [done|]. cbn.
  assert (msum f (fun i => m (S i)) bs <= msum g (fun i => m (S i)) bs) by (apply IH; intros c Hc; apply Hf; by right).
  assert (f b <= g b) by (apply Hf; left). destruct (m 0%nat); lia.
Qed.

Lemma msum_complement f m bs : msum f m bs + msum f (fun i => negb (m i)) bs = msum f full bs.
Proof.
  revert m. induction bs as [|b bs IH]; intros m; [done|]. cbn [msum]. specialize (IH (fun i => m (S i))). cbv beta in IH.
  change (fun i => full (S i)) with full. change (full 0%nat) with true. destruct (m 0%nat); cbn [negb]; lia.
Qed.

Lemma msum_covers f m bs : (forall i b, bs !! i = Some b -> m i = false -> f b = 0) -> msum f m bs = msum f full bs.
Proof.
  revert m. induction bs as [|b bs IH]; intros m H; [done|]. cbn [msum]. change (fun i => full (S i)) with full.
  rewrite (IH (fun i => m (S i))) by (intros i c Hc; by apply (H (S i))). specialize (H 0%nat b eq_refl). destruct (m 0%nat); [done|]. rewrite (H eq_refl). done.
Qed.

(** How many slots a set has. *)
Definition mcount (m : nat -> bool) (bs : list backend) : Z := msum (fun _ => 1) m bs.

Lemma mcount_full bs : mcount full bs = zlen bs.
Proof. unfold mcount. induction bs as [|b bs IH]; [done|]. cbn [msum]. change (fun i => full (S i)) with full. rewrite IH, zlen_cons. cbn. lia. Qed.
Lemma msum_const x m bs : msum (fun _ => x) m bs = x * mcount m bs.
Proof. unfold mcount. revert m. induction bs as [|b bs IH]; intros m; [cbn; lia|]. cbn. rewrite IH. destruct (m 0%nat); lia. Qed.

(** ** The invariant *)
Definition scale (W : Z) (bs : list backend) : Z := (2 * zlen bs + 1) * W.

Record balanced (W : Z) (bs : list backend) : Prop := {
  bl_weight : forall b, b ∈ bs -> 0 < weight b <= W;
  bl_sum : msum current_weight full bs = 0;
  bl_low : forall m, - (scale W bs * (mcount m bs * (zlen bs - mcount m bs))) <= 2 * msum current_weight m bs }.

(** Pools with the same weights, whatever the health of their slots. *)
Definition same_weights (bs bs' : list backend) : Prop :=
  map (fun b => (current_weight b, weight b)) bs = map (fun b => (current_weight b, weight b)) bs'.

#[global] Instance same_weights_equiv : Equivalence same_weights.
Proof. split; [by intros bs|intros bs bs'; unfold same_weights; congruence|]. intros a b c. unfold same_weights. congruence. Qed.

Lemma same_weights_cons b bs c bs' :
  same_weights (b :: bs) (c :: bs') <-> (current_weight b = current_weight c /\ weight b = weight c) /\ same_weights bs bs'.
Proof. unfold same_weights. cbn. split; [by intros [= -> -> ->]|]. by intros [[-> ->] ->]. Qed.

Lemma same_weights_length bs bs' : same_weights bs bs' -> length bs = length bs'.
Proof. intros H%(f_equal length). by rewrite !length_map in H. Qed.

Lemma same_weights_msum (g : Z * Z -> Z) m bs bs' :
  same_weights bs bs' -> msum (fun b => g (current_weight b, weight b)) m bs = msum (fun b => g (current_weight b, weight b)) m bs'.
Proof.
  revert m bs'. induction bs as [|b bs IH]; intros m [|c bs'] H; try done. apply same_weights_cons in H as [[H1 H2] H].
  cbn. by rewrite H1, H2, (IH _ bs').
Qed.

Lemma same_weights_elem bs bs' b : same_weights bs bs' -> b ∈ bs -> exists b', b' ∈ bs' /\ weight b' = weight b.
Proof.
  revert bs'. induction bs as [|a bs IH]; intros [|c bs'] H Hb; try done; [by apply not_elem_of_nil in Hb|].
  apply same_weights_cons in H as [[_ H2] H]. apply elem_of_cons in Hb as [->|Hb]; [exists c; by split; [left|]|].
  destruct (IH bs' H Hb) as (b' & Hb' & E). exists b'. by split; [right|].
Qed.

#[global] Instance balanced_proper W : Proper (same_weights ==> iff) (balanced W).
Proof.
  assert (forall bs bs', same_weights bs bs' -> balanced W bs -> balanced W bs') as H; [|intros bs bs' E; split; apply H; [done|by symmetry]].
  intros bs bs' E [H1 H2 H3]. assert (zlen bs' = zlen bs) as El by (unfold zlen; by rewrite (same_weights_length _ _ E)).
  pose proof (fun m => same_weights_msum fst m bs bs' E) as Em. cbn in Em.
  assert (forall m, mcount m bs = mcount m bs') as Ec by (intros m; apply (same_weights_msum (fun _ => 1) m bs bs' E)). constructor.
  - intros b Hb. symmetry in E. destruct (same_weights_elem _ _ _ E Hb) as (b' & Hb' & <-). by apply H1.
  - by rewrite <- Em.
  - intros m. unfold scale. rewrite El, <- Em, <- Ec. apply H3.
Qed.

(** A pool none of whose slots has been picked yet. *)
Lemma balanced_start W bs : (forall b, b ∈ bs -> 0 < weight b <= W) -> (forall b, b ∈ bs -> current_weight b = 0) -> balanced W bs.
Proof.
  intros Hw Hc. assert (forall m, msum current_weight m bs = 0) as Hz.
  { intros m. rewrite (msum_ext _ (fun _ => 0) m m bs); [rewrite msum_const; lia|]. intros i b Hb. split; [done|]. apply Hc. by eapply list_elem_of_lookup_2. }
  constructor; [done|apply Hz|]. intros m. rewrite Hz. destruct bs as [|b bs']; [cbn; lia|]. set (bs := b :: bs') in *.
  assert (0 < weight b <= W) by (apply Hw; left).
  assert (0 <= mcount m bs) by (rewrite <- (Z.mul_0_l (mcount m bs)), <- msum_const; apply msum_le; intros; lia).
  assert (mcount m bs <= zlen bs) by (rewrite <- mcount_full; apply msum_mono; [intros; lia|done]).
  unfold scale. pose proof (zlen_nonneg bs). assert (0 <= (2 * zlen bs + 1) * W) by nia.
  assert (0 <= mcount m bs * (zlen bs - mcount m bs)) by nia. nia.
Qed.

(** A single weight, from both sides. *)
Lemma balanced_bound W bs b : balanced W bs -> b ∈ bs -> - (scale W bs * (zlen bs - 1)) <= 2 * current_weight b <= scale W bs * (zlen bs - 1).
Proof.
  intros [_ Hs Hl] [j Hj]%list_elem_of_lookup. set (m := fun i => (i =? j)%nat).
  assert (forall f, msum f m bs = f b) as Hm.
  { intros f. rewrite (msum_ext f f m (with_slot j (fun _ => false))); [|intros; unfold with_slot, m; by rewrite orb_false_r].
    rewrite (msum_with _ _ _ _ _ Hj) by done. assert (forall l, msum f (fun _ => false) l = 0) as ->; [|lia]. induction l; [done|]. cbn. lia. }
  assert (mcount m bs = 1) as Hc by apply Hm. pose proof (msum_complement current_weight m bs) as Hcw. rewrite Hm, Hs in Hcw.
  pose proof (msum_complement (fun _ => 1) m bs) as Hcc. fold (mcount full bs) in Hcc. rewrite mcount_full, Hm in Hcc.
  pose proof (Hl m) as H1. rewrite Hc, Hm in H1. pose proof (Hl (fun i => negb (m i))) as H2.
  unfold mcount in H2. replace (msum (fun _ => 1) (fun i => negb (m i)) bs) with (zlen bs - 1) in H2 by lia.
  replace (msum current_weight (fun i => negb (m i)) bs) with (- current_weight b) in H2 by lia. nia.
Qed.

(** ** A pick keeps the balance *)
(** What the loop adds to a slot. *)
Definition gain (b : backend) : Z := if healthy b then weight b else 0.

Lemma advance_weight b : current_weight (advance b) = current_weight b + gain b.
Proof. unfold advance, gain. destruct (healthy b); cbn; lia. Qed.

Lemma total_msum bs : total_weight bs = msum gain full bs.
Proof. rewrite total_weight_hsum. induction bs as [|b bs IH]; [done|]. rewrite hsum_cons, IH. done. Qed.

Lemma recovery_same now bs : same_weights (passive_recovery now bs) bs.
Proof. unfold same_weights, passive_recovery. rewrite map_map. apply map_ext. intros b. unfold recover. by destruct (_ && _). Qed.

Lemma advance_lookup bs i b : map advance bs !! i = Some b -> exists c, bs !! i = Some c /\ b = advance c.
Proof. change (map advance bs) with (advance <$> bs). rewrite list_lookup_fmap. intros (c & Hc & ->)%fmap_Some. by exists c. Qed.

Lemma healthy_covered (m : nat -> bool) (bs : list backend) :
  (exists j c, bs !! j = Some c /\ m j = false /\ healthy c = true) \/ (forall j c, bs !! j = Some c -> m j = false -> healthy c = false).
Proof.
  revert m. induction bs as [|b bs IH]; intros m; [by right|]. destruct (IH (fun i => m (S i))) as [(j & c & H)|H]; [left; by exists (S j), c|].
  destruct (m 0%nat) eqn:Hm; [|destruct (healthy b) eqn:Hb; [left; by exists 0%nat, b|]];
    right; intros [|j] c Hj Hmj; cbn in Hj; try (by apply (H j)); congruence.
Qed.

Section pick.
Context (W : Z) (ready : list backend) (i : nat).
Definition charged : list backend :=
  alter (fun b => set_current_weight (current_weight b - total_weight ready) b) i (map advance ready).

Lemma charged_msum m b : ready !! i = Some b ->
  msum current_weight m charged = msum current_weight m ready + msum gain m ready - (if m i then total_weight ready else 0) /\ mcount m charged = mcount m ready.
Proof.
  intros Hi. assert (map advance ready !! i = Some (advance b)) as Ha by (change (map advance ready) with (advance <$> ready); by rewrite list_lookup_fmap, Hi).
  unfold charged, mcount. rewrite !(msum_alter _ _ _ _ i (advance b) Ha), !msum_map.
  rewrite (msum_ext (fun b => current_weight (advance b)) (fun b => current_weight b + gain b) m m) by (intros; split; [done|apply advance_weight]).
  rewrite msum_plus. cbn. destruct (m i); lia.
Qed.

Lemma charged_weight b : b ∈ charged -> exists c, c ∈ ready /\ weight b = weight c.
Proof.
  intros [j Hj]%list_elem_of_lookup. unfold charged in Hj.
  assert (exists a, map advance ready !! j = Some a /\ weight b = weight a) as (a & Ha & ->).
  { destruct (decide (j = i)) as [->|Hne]; [rewrite list_lookup_alter_eq in Hj; apply fmap_Some in Hj as (a & Ha & ->); by exists a|].
    rewrite list_lookup_alter_ne in Hj by done. by exists b. }
  apply advance_lookup in Ha as (c & Hc & ->). exists c. split; [by eapply list_elem_of_lookup_2|]. unfold advance. by destruct (healthy c).
Qed.

(** The slot that is charged is a heaviest one: a set that holds it and misses
    a healthy slot was far enough above its bound. *)
Lemma missed_slot (m : nat -> bool) bi j bj :
  balanced W ready -> ready !! i = Some bi -> ready !! j = Some bj -> m i = true -> m j = false ->
  current_weight bj + gain bj <= current_weight bi + gain bi -> 0 <= gain bj -> gain bi <= W ->
  - (scale W ready * (mcount m ready * (zlen ready - mcount m ready))) + scale W ready - W <= 2 * msum current_weight m ready.
Proof.
  intros Hb Hi Hj Hmi Hmj Hle Hgj Hgi.
  pose proof (bl_low _ _ Hb (without_slot i m)) as H1. pose proof (bl_low _ _ Hb (with_slot j m)) as H2.
  unfold mcount in H1, H2. rewrite !(msum_without _ _ _ _ _ Hi Hmi) in H1. rewrite !(msum_with _ _ _ _ _ Hj Hmj) in H2.
  fold (mcount m ready) in H1, H2. set (k := mcount m ready) in *. set (n := zlen ready) in *. set (K := scale W ready) in *. nia.
Qed.

Lemma charged_balanced b :
  balanced W ready -> first_max (map advance ready) 0 (Some i) -> ready !! i = Some b -> healthy b = true -> balanced W charged.
Proof.
  intros Hb (mb & _ & Hm & Hmax) Hi Hh. rewrite Nat.sub_0_r in Hm.
  assert (mb = advance b) as -> by (destruct Hm as [Hm _]; apply advance_lookup in Hm as (c & Hc & ->); congruence).
  assert (zlen charged = zlen ready) as El by (unfold charged, zlen; by rewrite length_alter, length_map).
  assert (forall c, c ∈ ready -> 0 <= gain c <= W) as Hg.
  { intros c Hc. pose proof (bl_weight _ _ Hb c Hc). unfold gain. destruct (healthy c); lia. }
  assert (b ∈ ready) as Hbin by by eapply list_elem_of_lookup_2.
  assert (forall m, 0 <= msum gain m ready) as Hpos by (intros m; rewrite <- (Z.mul_0_l (mcount m ready)), <- msum_const; apply msum_le; intros c Hc; apply Hg, Hc).
  constructor.
  - intros c (d & Hd & ->)%charged_weight. by apply (bl_weight _ _ Hb).
  - rewrite (proj1 (charged_msum full b Hi)), (bl_sum _ _ Hb), total_msum. cbn. lia.
  - intros m. destruct (charged_msum m b Hi) as [-> ->]. unfold scale. rewrite El. fold (scale W ready).
    pose proof (bl_low _ _ Hb m) as Hlow. destruct (m i) eqn:Emi; [|specialize (Hpos m); lia].
    destruct (healthy_covered m ready) as [(j & c & Hj & Hmj & Hc)|Hx].
    + assert (healthy_at (map advance ready) j (advance c)) as Ha.
      { split; [|by rewrite healthy_advance]. change (map advance ready) with (advance <$> ready). by rewrite list_lookup_fmap, Hj. }
      apply Hmax in Ha as [Ha _]. rewrite !advance_weight in Ha. pose proof (Hg c (list_elem_of_lookup_2 _ _ _ Hj)) as Hgc. pose proof (Hg b Hbin) as Hgb.
      pose proof (missed_slot m b j c Hb Hi Hj Emi Hmj Ha (proj1 Hgc) (proj2 Hgb)) as Hms.
      assert (total_weight ready <= W * zlen ready) as HT by (rewrite total_msum, <- mcount_full, <- msum_const; apply msum_le; intros d Hd; apply Hg, Hd).
      specialize (Hpos m). unfold scale in *. lia.
    + assert (msum gain m ready = total_weight ready) as ->; [|lia]. rewrite total_msum.
      apply msum_covers. intros j c Hj Hmj. unfold gain. by rewrite (Hx j c Hj Hmj).
Qed.
End pick.

(** Whatever is healthy at the time, a pick keeps the pool balanced. *)
Lemma round_robin_balanced W now bs r bs' : balanced W bs -> backend_round_robin_select now bs = (r, bs') -> balanced W bs'.
Proof.
  intros Hb E. pose proof (round_robin_spec _ _ _ _ E) as H. cbn in H.
  assert (balanced W (passive_recovery now bs)) as Hr by (by rewrite recovery_same). destruct r as [i|].
  - destruct H as (_ & Hm & -> & _). pose proof Hm as (mb & _ & [Hl Hh] & _). rewrite Nat.sub_0_r in Hl.
    apply advance_lookup in Hl as (b & Hl & ->). rewrite healthy_advance in Hh. exact (charged_balanced W _ i b Hr Hm Hl Hh).
  - by destruct H as [_ ->].
Qed.

(** ** The same pick in 32-bit arithmetic *)
Definition total_weight_int (bs : list backend) : Z :=
  fold_left (fun t b => if healthy b then int32 (t + weight b) else t) bs 0.

Fixpoint rr_loop_int (bs : list backend) (i : nat) (selected : option nat) (best_weight : Z) : list backend * option nat :=
  match bs with
  | [] => ([], selected)
  | b :: bs' =>
      if negb (healthy b) then
        let '(l, r) := rr_loop_int bs' (S i) selected best_weight in (b :: l, r)
      else
        let b := set_current_weight (int32 (current_weight b + weight b)) b in
        let '(selected, best_weight) :=
          match selected with
          | Some s => if current_weight b >? best_weight then (Some i, current_weight b) else (selected, best_weight)
          | None => (Some i, current_weight b)
          end in
        let '(l, r) := rr_loop_int bs' (S i) selected best_weight in (b :: l, r)
  end.

Definition backend_round_robin_select_int (now : Z) (bs : list backend) : option nat * list backend :=
  let bs := passive_recovery now bs in
  let total := total_weight_int bs in
  if total =? 0 then (None, bs) else
  let '(bs, selected) := rr_loop_int bs 0 None 0 in
  match selected with
  | Some i => (Some i, alter (fun b => set_current_weight (int32 (current_weight b - total)) b) i bs)
  | None => (None, bs)
  end.

(** Slots and a count that keep every intermediate value in range. *)
Definition in_range (bs : list backend) : Prop :=
  zlen bs <= 100 /\ forall b, b ∈ bs -> 0 < weight b <= 10000 /\ -1000000000 <= current_weight b <= 1000000000.

Lemma total_weight_int_eq bs : in_range bs -> total_weight_int bs = total_weight bs /\ 0 <= total_weight bs <= 1000000.
Proof.
  unfold total_weight_int, total_weight. intros [Hn Hb].
  assert (forall t, 0 <= t -> t + 10000 * zlen bs <= 1000000 ->
    fold_left (fun t b => if healthy b then int32 (t + weight b) else t) bs t = fold_left (fun t b => if healthy b then t + weight b else t) bs t /\
    0 <= fold_left (fun t b => if healthy b then t + weight b else t) bs t <= 1000000) as H; [|apply H; lia].
  clear Hn. induction bs as [|b bs IH]; intros t H0 Ht; [change (zlen (@nil backend)) with 0 in Ht; cbn; lia|]. rewrite zlen_cons in Ht. pose proof (zlen_nonneg bs).
  destruct (Hb b) as [Hw _]; [left|]. cbn [fold_left]. rewrite int32_id by (unfold fits_int; lia).
  apply IH; [intros c Hc; apply Hb; by right|destruct (healthy b); lia..].
Qed.

Lemma rr_loop_int_eq bs i sel best : in_range bs -> rr_loop_int bs i sel best = rr_loop bs i sel best.
Proof.
  intros [_ Hb]. revert i sel best. induction bs as [|b bs IH]; intros i sel best; [done|]. cbn [rr_loop_int rr_loop].
  destruct (Hb b) as [Hw Hc]; [left|]. rewrite int32_id by (unfold fits_int; lia).
  assert (forall c, c ∈ bs -> 0 < weight c <= 10000 /\ -1000000000 <= current_weight c <= 1000000000) as Hb' by (intros c Hx; apply Hb; by right).
  destruct (healthy b); cbn [negb]; [|by rewrite (IH Hb')]. destruct sel as [s|]; [destruct (_ >? best)|]; by rewrite (IH Hb').
Qed.

Lemma in_range_same bs bs' : same_weights bs bs' -> in_range bs -> in_range bs'.
Proof.
  intros Hs [Hn Hb]. split; [unfold zlen in *; by rewrite <- (same_weights_length _ _ Hs)|]. clear Hn.
  revert bs Hs Hb. induction bs' as [|c bs' IH]; intros [|b bs] Hs Hb; try done.
  apply same_weights_cons in Hs as [[E1 E2] Hs]. intros x [->|Hx]%elem_of_cons; [rewrite <- E1, <- E2; apply Hb; left|].
  apply (IH bs Hs); [|done]. intros y Hy. apply Hb. by right.
Qed.

Lemma round_robin_int_eq now bs : in_range bs -> backend_round_robin_select_int now bs = backend_round_robin_select now bs.
Proof.
  intros Hr. apply (in_range_same _ (passive_recovery now bs)) in Hr; [|symmetry; apply recovery_same].
  unfold backend_round_robin_select_int, backend_round_robin_select. set (ready := passive_recovery now bs) in *.
  destruct (total_weight_int_eq ready Hr) as [-> HT]. destruct (total_weight ready =? 0); [done|]. rewrite (rr_loop_int_eq _ _ _ _ Hr).
  pose proof (rr_loop_map ready 0 None 0) as Hl. destruct (rr_loop ready 0 None 0) as [l [i|]]; [|done]. cbn in Hl. subst l. f_equal.
  apply list_alter_ext; [|done]. intros b (c & Hc & ->)%advance_lookup. destruct Hr as [_ Hr].
  destruct (Hr c (list_elem_of_lookup_2 _ _ _ Hc)) as [Hw Hcw]. rewrite int32_id; [done|]. unfold fits_int. rewrite advance_weight. unfold gain. destruct (healthy c); lia.
Qed.

(** A pool the configuration admits, balanced, is in range. *)
Lemma balanced_in_range bs : zlen bs <= 100 -> balanced 10000 bs -> in_range bs.
Proof.
  intros Hn Hb. split; [done|]. intros b Hin. split; [by apply (bl_weight _ _ Hb)|]. pose proof (balanced_bound _ _ b Hb Hin) as H.
  unfold scale in H. pose proof (zlen_nonneg bs). nia.
Qed.
