(* ===== verification/Config.v ===== *)
(** * Configuration (common/src/env.c, server/src/server_config.c,
      balancer/src/balancer_config.c, balancer/src/main.c)

    The environment is a map from names to values; [load_env] adds what a file
    assigns. Files are given by what opening and reading them yields, name
    resolution by whether it succeeds. *)
From Stdlib Require Import String.
From S2P Require Import Prelude Text Json HttpTypes HttpText HttpRequest HttpFrame Selection Balancer Weights.

Local Open Scope Z_scope.

(** ** The environment *)
Definition environ : Type := gmap bytes bytes.
Definition getenv (key : bytes) (e : environ) : option bytes := e !! key.
(** [setenv(key, val, 0)]: a name that is empty or has an equals sign is
    refused, a name that is set is kept. *)
Definition setenv (key val : bytes) (e : environ) : environ :=
  if bool_decide (key = [] \/ 61 ∈ key) then e else
  match e !! key with Some _ => e | None => <[key := val]> e end.

(** ** Files of assignments *)
(** [fgets]: at most [n] bytes, up to and with a line feed. *)
Fixpoint fgets (n : nat) (f : bytes) : bytes * bytes :=
  match n, f with
  | S n, c :: f => if c =? 10 then ([c], f) else let '(line, f) := fgets n f in (c :: line, f)
  | _, _ => ([], f)
  end.
(** [char line[1024]] with its terminator. *)
Definition ENV_LINE : nat := 1023.

(** [line[strcspn(line, "\r\n")] = '\0'], as a C string. *)
Fixpoint chomp (l : bytes) : bytes :=
  match l with
  | [] => []
  | c :: l => if (c =? 0) || (c =? 10) || (c =? 13) then [] else c :: chomp l
  end.

Definition is_quote (c : Z) : bool := (c =? 34) || (c =? 39).
Definition unquote (val : bytes) : bytes :=
  match val with
  | q :: r => if (zlen val >=? 2) && is_quote q && bool_decide (list.last val = Some q) then removelast r else val
  | [] => val
  end.

Definition parse_env_line (line : bytes) : option (bytes * bytes) :=
  let p := skip_blanks (chomp line) in
  match p with
  | [] => None
  | c :: _ =>
      if c =? 35 then None else
      let p := if starts_with (str "export ") p then skip_blanks (zdrop 7 p) else p in
      '(key, val) ← split_at 61 p;
      Some (trim_blanks_end key, unquote (skip_blanks val))
  end.

Definition env_line (line : bytes) (e : environ) : environ :=
  match parse_env_line line with Some (key, val) => setenv key val e | None => e end.

(** Every turn takes a byte or more, so the length of the file is enough. *)
Fixpoint env_loop (fuel : nat) (f : bytes) (e : environ) : environ :=
  match fuel, f with
  | S fuel, _ :: _ => let '(line, f) := fgets ENV_LINE f in env_loop fuel f (env_line line e)
  | _, _ => e
  end.

Definition load_env (file : option bytes) (e : environ) : Z * environ :=
  match file with None => (-1, e) | Some f => (0, env_loop (length f) f e) end.

(** ** Typed values *)
Definition env_str (key def : bytes) (e : environ) : bytes :=
  match getenv key e with Some (c :: v) => c :: v | _ => def end.

Definition env_int (key : bytes) (def : Z) (e : environ) : Z :=
  match getenv key e with
  | None | Some [] => def
  | Some v =>
      match strtoll v with
      | Some (Some n, []) => if (n <? -2147483648) || (n >? 2147483647) then def else n
      | _ => def
      end
  end.

Definition env_bool (key : bytes) (def : bool) (e : environ) : bool :=
  match getenv key e with
  | None | Some [] => def
  | Some v =>
      if strcaseeq v (str "1") || strcaseeq v (str "true") || strcaseeq v (str "yes") || strcaseeq v (str "on") then true else
      if strcaseeq v (str "0") || strcaseeq v (str "false") || strcaseeq v (str "no") || strcaseeq v (str "off") then false else def
  end.

(** [atoi] is [strtol] cut to an [int]. *)
Definition atoi (s : bytes) : Z := int32 (default 0 (strtol s)).

Definition env_file (e : environ) : bytes := default (str ".env") (getenv (str "ENV_FILE") e).

(** ** The server *)
Record server_config := mkServerConfig {
  sc_port : Z; sc_document_root : bytes; sc_ssl_enabled : bool; sc_ssl_cert_file : bytes; sc_ssl_key_file : bytes;
  sc_db_file : bytes; sc_wal_file : bytes; sc_cors_allow_origin : bytes; sc_trust_proxy_protocol : bool }.

(** [fs] opens and reads a file; [argv] starts with the program's name. *)
Definition server_config_load (fs : bytes -> option bytes) (argv : list bytes) (e : environ) : Z * server_config * environ :=
  let '(_, e) := load_env (fs (env_file e)) e in
  let port := env_int (str "PORT") 8080 e in
  let document_root := env_str (str "DOCUMENT_ROOT") (str "/var/www/html") e in
  let port := match argv !! 1%nat with Some a => atoi a | None => port end in
  let document_root := match argv !! 2%nat with Some a => a | None => document_root end in
  let config := mkServerConfig port document_root (env_bool (str "SSL_ENABLED") true e) (env_str (str "SSL_CERT_FILE") (str "server.crt") e)
    (env_str (str "SSL_KEY_FILE") (str "server.key") e) (env_str (str "DB_FILE") (str "codo.db") e) (env_str (str "WAL_FILE") (str "codo.wal") e)
    (env_str (str "CORS_ALLOW_ORIGIN") (str "*") e) (env_bool (str "TRUST_PROXY_PROTOCOL") false e) in
  (if (port <=? 0) || (port >? 65535) then -1 else 0, config, e).

(** ** The balancer *)
Definition MAX_BACKEND_WEIGHT : Z := 10000.

Definition parse_bounded_int (s : bytes) (min max : Z) : option Z :=
  match strtoll s with
  | Some (Some v, []) => if (v <? min) || (v >? max) then None else Some v
  | _ => None
  end.

Record balancer_config := mkBalancerConfig { bc_port : Z; bc_backends : bytes; bc_proxy_protocol : bool }.

Definition balancer_config_load (fs : bytes -> option bytes) (argv : list bytes) (e : environ) : Z * balancer_config * environ :=
  let '(_, e) := load_env (fs (env_file e)) e in
  let port := env_int (str "BALANCER_PORT") 8000 e in
  let backends := env_str (str "BALANCER_BACKENDS") (str "127.0.0.1:8080") e in
  let port := match argv !! 1%nat with Some a => atoi a | None => port end in
  let backends := match argv !! 2%nat with Some a => a | None => backends end in
  let config := mkBalancerConfig port backends (env_bool (str "PROXY_PROTOCOL") false e) in
  (if (port <=? 0) || (port >? 65535) then -1 else 0, config, e).

(** The host, in brackets or not, and what follows its colon. *)
Definition entry_host (tok : bytes) : option (bytes * bytes) :=
  match tok with
  | 91 :: t => '(host, r) ← split_at 93 t; match r with 58 :: port_str => Some (host, port_str) | _ => None end
  | _ => split_at 58 tok
  end.
(** The port and the optional weight. *)
Definition entry_port (port_str : bytes) : option (Z * Z) :=
  '(port_str, weight) ←
    match split_at 58 port_str with
    | Some (p, w) => w ← parse_bounded_int w 0 MAX_BACKEND_WEIGHT; Some (p, w)
    | None => Some (port_str, 1)
    end;
  port ← parse_bounded_int port_str 1 65535;
  Some (port, weight).
(** One entry of the list: host, port and weight, or [None] when it is skipped. *)
Definition backend_entry (tok : bytes) : option (bytes * Z * Z) :=
  '(host, port_str) ← entry_host (skip_blanks tok);
  '(port, weight) ← entry_port port_str;
  Some (host, port, weight).

Fixpoint backends_loop (resolve : bytes -> Z -> bool) (toks : list bytes) (added : Z) (lb : load_balancer) : Z * load_balancer :=
  match toks with
  | [] => (added, lb)
  | tok :: toks =>
      match backend_entry tok with
      | None => backends_loop resolve toks added lb
      | Some (host, port, weight) =>
          let '(rc, lb) := add_backend (resolve host port) host port weight lb in
          backends_loop resolve toks (if rc =? 0 then added + 1 else added) lb
      end
  end.

Definition balancer_add_backends (strdup_ok : bool) (resolve : bytes -> Z -> bool) (spec : bytes) (lb : load_balancer) : Z * load_balancer :=
  if negb strdup_ok then (0, lb) else backends_loop resolve (strtok 44 spec []) 0 lb.

(** The start of the balancer up to its loop: whether headers are sent, and
    the balancer, or the exit status. *)
Definition balancer_main (fs : bytes -> option bytes) (argv : list bytes) (epoll_ok listen_ok nonblocking_ok register_ok strdup_ok : bool)
    (resolve : bytes -> Z -> bool) (e : environ) : Z + bool * load_balancer :=
  let '(rc, config, e) := balancer_config_load fs argv e in
  if negb (rc =? 0) then inl 1 else
  match load_balancer_init epoll_ok listen_ok nonblocking_ok register_ok with
  | None => inl 1
  | Some lb =>
      let '(added, lb) := balancer_add_backends strdup_ok resolve (bc_backends config) lb in
      if added =? 0 then inl 1 else inr (bc_proxy_protocol config, lb)
  end.
