(* ===== verification/ConfigProofs.v ===== *)
(** * What a configuration guarantees

    Backend lists parse back to what they were written from; a configured pool
    stays balanced through every batch of the balancer; a file of assignments
    adds exactly its bindings. *)
From Stdlib Require Import String.
From S2P Require Import Prelude Text Json HttpTypes HttpText HttpRequest HttpFrame Selection Balancer BalancerProofs Weights Config.

Local Open Scope Z_scope.

(** ** The pool under the balancer's loop *)
Lemma alter_same_weights f i bs :
  (forall b, current_weight (f b) = current_weight b /\ weight (f b) = weight b) -> same_weights (alter f i bs) bs.
Proof.
  intros Hf. revert i. induction bs as [|b bs IH]; intros [|i]; try done; apply same_weights_cons; [by split; [apply Hf|]|].
  split; [done|]. apply IH.
Qed.

(** [lb'] has the weights of [lb]. *)
Definition weights_kept (lb lb' : load_balancer) : Prop := same_weights (lb_backends lb') (lb_backends lb).

Lemma on_backend_kept i f lb :
  (forall b, current_weight (f b) = current_weight b /\ weight (f b) = weight b) -> weights_kept lb (on_backend i f lb).
Proof. intros Hf. by apply alter_same_weights. Qed.

Lemma fleet_kept_trans lb1 lb2 lb3 : weights_kept lb1 lb2 -> weights_kept lb2 lb3 -> weights_kept lb1 lb3.
Proof. unfold weights_kept. intros H1 H2. by rewrite H2. Qed.

Lemma failure_kept i now lb : weights_kept lb (on_backend i (mark_backend_failure now) lb).
Proof. by apply on_backend_kept. Qed.
Lemma success_kept i lb : weights_kept lb (on_backend i mark_backend_success lb).
Proof. apply on_backend_kept. intros b. unfold mark_backend_success. by destruct (_ || _). Qed.

Lemma close_kept now a lb lb' : lb_close_connection now a lb = Some lb' -> weights_kept lb lb'.
Proof.
  unfold lb_close_connection. intros (c & _ & H)%bind_Some. destruct (lc_closed c); [by injection H as <-|].
  injection H as <-. unfold weights_kept. cbn. by apply alter_same_weights.
Qed.

Lemma flush_c2b_kept now ws a lb lb' : flush_client_to_backend now ws a lb = Some lb' -> weights_kept lb lb'.
Proof.
  unfold flush_client_to_backend. intros (c & _ & H)%bind_Some. destruct (pump_c2b ws c) as [[] c']; try by injection H as <-.
  eapply fleet_kept_trans; [|by eapply close_kept]. exact (failure_kept (lc_backend c') now.1 (set_conn a c' lb)).
Qed.
Lemma flush_b2c_kept now ws a lb lb' : flush_backend_to_client now ws a lb = Some lb' -> weights_kept lb lb'.
Proof.
  unfold flush_backend_to_client. intros (c & _ & H)%bind_Some. destruct (pump_b2c ws c) as [[] c']; try by injection H as <-.
  exact (close_kept _ _ (set_conn a c' lb) _ H).
Qed.

Lemma client_data_kept now r ws a lb lb' : lb_handle_client_data now r ws a lb = Some lb' -> weights_kept lb lb'.
Proof.
  unfold lb_handle_client_data. intros (c & _ & H)%bind_Some.
  destruct r; [exact (flush_c2b_kept _ _ _ (set_conn a _ lb) _ H)|by injection H as <-|by injection H as <-|by eapply close_kept].
Qed.
Lemma backend_data_kept now r ws a lb lb' : lb_handle_backend_data now r ws a lb = Some lb' -> weights_kept lb lb'.
Proof.
  unfold lb_handle_backend_data. intros (c & _ & H)%bind_Some. destruct r; [|by eapply close_kept|by injection H as <-|].
  - apply flush_b2c_kept in H. eapply fleet_kept_trans; [apply (success_kept (lc_backend c))|exact H].
  - apply close_kept in H. eapply fleet_kept_trans; [apply (failure_kept (lc_backend c) now.1)|exact H].
Qed.
Lemma error_kept now soerr a lb lb' : lb_handle_connection_error now soerr a lb = Some lb' -> weights_kept lb lb'.
Proof.
  unfold lb_handle_connection_error. intros (c & _ & H)%bind_Some. apply close_kept in H.
  eapply fleet_kept_trans; [|exact H]. destruct soerr; [apply failure_kept|done].
Qed.

(** A pool the configuration admits. *)
Definition admitted (bs : list backend) : Prop := zlen bs <= MAX_BACKENDS /\ balanced MAX_BACKEND_WEIGHT bs.

Lemma admitted_same bs bs' : same_weights bs' bs -> admitted bs -> admitted bs'.
Proof.
  intros Hs [Hn Hb]. split; [unfold zlen in *; by rewrite (same_weights_length _ _ Hs)|]. by rewrite Hs.
Qed.
Lemma admitted_kept lb lb' : weights_kept lb lb' -> admitted (lb_backends lb) -> admitted (lb_backends lb').
Proof. apply admitted_same. Qed.

Lemma round_robin_length now bs r bs' : backend_round_robin_select now bs = (r, bs') -> length bs' = length bs.
Proof.
  intros E. pose proof (round_robin_spec _ _ _ _ E) as H. cbn in H. unfold passive_recovery in H.
  destruct r; [destruct H as (_ & _ & -> & _); by rewrite length_alter, !length_map|destruct H as [_ ->]; by rewrite length_map].
Qed.

Lemma select_admitted now rand addr lb r lb' :
  select_backend now rand addr lb = (r, lb') -> admitted (lb_backends lb) -> admitted (lb_backends lb').
Proof.
  unfold select_backend. intros E Hp. pose proof (admitted_same _ _ (recovery_same now (lb_backends lb)) Hp) as Hr.
  destruct (lb_strategy_of lb).
  - destruct (backend_round_robin_select now (lb_backends lb)) as [r0 bs] eqn:Es. injection E as _ <-. cbn. destruct Hp as [Hn Hb].
    split; [unfold zlen in *; by rewrite (round_robin_length _ _ _ _ Es)|by eapply round_robin_balanced].
  - by injection E as _ <-.
  - unfold ip_hash_select in E. cbn zeta in E. destruct (_ <=? 0); by injection E as _ <-.
  - unfold random_select in E. cbn zeta in E. destruct (_ <=? 0); [by injection E as _ <-|]. destruct (_ =? 0); by injection E as _ <-.
Qed.

Section loop.
Context (inet_ntop4 inet_ntop6 : bytes -> option bytes) (proxy : bool).

Lemma new_connection_admitted now ac lb :
  admitted (lb_backends lb) -> admitted (lb_backends (lb_handle_new_connection inet_ntop4 inet_ntop6 proxy now ac lb).1).
Proof.
  intros Hp. unfold lb_handle_new_connection. destruct ac as [ac|]; [|done]. destruct (negb _); [done|].
  destruct (select_backend now.1 (ac_rand ac) (ac_addr ac) lb) as [[i|] lb1] eqn:E; apply select_admitted in E; try done.
  destruct (negb (ac_connect ac)); [exact (admitted_kept _ _ (failure_kept i now.1 lb1) E)|]. destruct (ac_block ac); [|done].
  destruct (negb (ac_register ac)); [done|]. cbn. eapply admitted_same; [|exact E]. by apply alter_same_weights.
Qed.

Lemma dispatch_admitted ev lb lb' :
  lb_dispatch inet_ntop4 inet_ntop6 proxy ev lb = Some lb' -> admitted (lb_backends lb) -> admitted (lb_backends lb').
Proof.
  unfold lb_dispatch. intros H Hp. destruct (ev_role ev); [injection H as <-; by apply new_connection_admitted| |];
    apply bind_Some in H as (c & _ & H); destruct (lc_closed c); try (by injection H as <-);
    destruct (_ && _); try (eapply admitted_kept; [by eapply error_kept|done]); destruct (has_flag _ EPOLLIN).
  - eapply admitted_kept; [by eapply client_data_kept|done].
  - destruct (has_flag _ EPOLLOUT); [|by injection H as <-]. eapply admitted_kept; [by eapply flush_b2c_kept|done].
  - eapply admitted_kept; [by eapply backend_data_kept|done].
  - destruct (has_flag _ EPOLLOUT); [|by injection H as <-]. eapply admitted_kept; [by eapply flush_c2b_kept|done].
Qed.

Lemma dispatch_all_admitted evs lb lb' :
  dispatch_all inet_ntop4 inet_ntop6 proxy evs lb = Some lb' -> admitted (lb_backends lb) -> admitted (lb_backends lb').
Proof.
  revert lb. induction evs as [|ev evs IH]; intros lb H Hp; [by injection H as <-|]. cbn in H. apply bind_Some in H as (lb1 & H1 & H2).
  eapply IH; [exact H2|]. by eapply dispatch_admitted.
Qed.

(** Batch after batch. *)
Definition lb_runs (lb lb' : load_balancer) : Prop := exists evs, lb_batch inet_ntop4 inet_ntop6 proxy evs lb = Some lb'.
Lemma runs_admitted lb lb' : rtc lb_runs lb lb' -> admitted (lb_backends lb) -> admitted (lb_backends lb').
Proof.
  induction 1 as [|lb1 lb2 lb3 (evs & (lb0 & E & ->)%fmap_Some) _ IH]; [done|]. intros Hp. apply IH. cbn. by eapply dispatch_all_admitted.
Qed.
End loop.

(** ** Numbers *)
Lemma strtoll_dec n : 0 <= n <= LONG_MAX -> strtoll (dec n) = Some (Some n, []).
Proof.
  intros Hn. unfold LONG_MAX in Hn. destruct (dec_spec n) as (Hd & Hv & Hne & _); [unfold UINT64_MAX; lia|].
  destruct (dec n) as [|c ds] eqn:E; [done|]. pose proof Hd as [Hc _]%list.Forall_cons. pose proof Hc as Hc'%is_digit_spec.
  assert (skip_spaces (c :: ds) = c :: ds) as Hs by (cbn; unfold is_space; by replace ((c =? 32) || ((9 <=? c) && (c <=? 13))) with false by lia).
  unfold strtoll. rewrite Hs.
  assert (match c :: ds with 45 :: l => (true, l) | 43 :: l => (false, l) | _ => (false, c :: ds) end = (false, c :: ds)) as ->.
  { clear -Hc'. destruct c as [|p|p]; try done. repeat (destruct p as [p|p|]; try done; try (exfalso; lia)). }
  rewrite <- (app_nil_r (c :: ds)), span_digits_app by done. rewrite Hv.
  by replace ((n <? -9223372036854775808) || (n >? 9223372036854775807)) with false by lia.
Qed.

Lemma parse_bounded_dec n min max : min <= n <= max -> 0 <= n <= LONG_MAX -> parse_bounded_int (dec n) min max = Some n.
Proof. intros Hn Hl. unfold parse_bounded_int. rewrite strtoll_dec by done. by replace ((n <? min) || (n >? max)) with false by lia. Qed.

Lemma parse_bounded_range s min max v : parse_bounded_int s min max = Some v -> min <= v <= max.
Proof.
  unfold parse_bounded_int. destruct (strtoll s) as [[[n|] [|]]|]; try done. destruct ((n <? min) || (n >? max)) eqn:E; [done|]. intros [= <-]. lia.
Qed.

(** ** Backend lists *)
Lemma backend_entry_range tok h p w : backend_entry tok = Some (h, p, w) -> 1 <= p <= 65535 /\ 0 <= w <= MAX_BACKEND_WEIGHT.
Proof.
  unfold backend_entry, entry_port. intros ([h1 ps] & _ & ([p0 w0] & ([ps' w'] & Hw & (p' & Hp%parse_bounded_range & [= <- <-])%bind_Some)%bind_Some & [= <- <- <-])%bind_Some)%bind_Some.
  split; [done|]. destruct (split_at 58 ps) as [[p1 w1]|]; [|injection Hw as <- <-; unfold MAX_BACKEND_WEIGHT; lia].
  apply bind_Some in Hw as (w2 & Hw2%parse_bounded_range & [= <- <-]). done.
Qed.

Definition fresh_backend (w : Z) : backend := mkBackend 0 (if w >? 0 then w else 1) 0 0 0 1 0.

(** The balancer with further backends behind the ones it has. *)
Definition with_backends (es : list (bytes * Z * Z)) (lb : load_balancer) : load_balancer :=
  mkLb (lb_backends lb ++ map (fun e => fresh_backend e.2) es) (lb_stats lb ++ map (fun _ => mkStats 0 0) es)
    (lb_hosts lb ++ map (fun e => (snprintf_s 256 e.1.1, e.1.2)) es) (lb_strategy_of lb) (lb_conns lb) (lb_closed lb).

Lemma with_backends_nil lb : with_backends [] lb = lb.
Proof. destruct lb. unfold with_backends. cbn. by rewrite !app_nil_r. Qed.
Lemma with_backends_app es es' lb : with_backends es' (with_backends es lb) = with_backends (es ++ es') lb.
Proof. unfold with_backends. cbn. by rewrite !map_app, !app_assoc. Qed.

(** The entries a list of tokens stands for that resolve, and room for them. *)
Definition listed (resolve : bytes -> Z -> bool) (toks : list bytes) : list (bytes * Z * Z) :=
  filter (fun e => resolve e.1.1 e.1.2 = true) (omap backend_entry toks).
Definition room (lb : load_balancer) : nat := Z.to_nat (MAX_BACKENDS - zlen (lb_backends lb)).

Lemma room_with es lb : room (with_backends es lb) = (room lb - length es)%nat.
Proof. unfold room, with_backends. cbn. rewrite zlen_app. unfold zlen at 2. rewrite length_map. lia. Qed.

Lemma add_backend_spec ok host port w lb :
  add_backend ok host port w lb = if ok && (0 <? room lb)%nat then (0, with_backends [(host, port, w)] lb) else (-1, lb).
Proof.
  unfold add_backend, room. destruct (Z.geb_spec (zlen (lb_backends lb)) MAX_BACKENDS) as [H|H].
  - replace (Z.to_nat _) with 0%nat by lia. by rewrite andb_false_r.
  - replace (0 <? Z.to_nat _)%nat with true by (symmetry; apply Nat.ltb_lt; lia). by destruct ok.
Qed.

Lemma backends_loop_spec resolve toks added lb :
  let es := take (room lb) (listed resolve toks) in
  backends_loop resolve toks added lb = (added + zlen es, with_backends es lb).
Proof.
  cbn zeta. revert added lb. induction toks as [|tok toks IH]; intros added lb.
  { change (listed resolve []) with (@nil (bytes * Z * Z)). rewrite take_nil, with_backends_nil. cbn [backends_loop]. f_equal. change (zlen (@nil (bytes * Z * Z))) with 0. lia. }
  cbn [backends_loop]. unfold listed. cbn [omap list_omap]. destruct (backend_entry tok) as [[[h p] w]|]; [|apply IH].
  rewrite filter_cons, add_backend_spec. cbn [fst snd]. fold (listed resolve toks). destruct (resolve h p) eqn:Er; cbn [andb]; [|rewrite decide_False by done; apply IH].
  rewrite decide_True by done. destruct (Nat.ltb_spec 0 (room lb)) as [Hr|Hr]; rewrite IH; cbn [Z.eqb].
  - rewrite room_with. destruct (room lb) as [|r]; [lia|]. cbn [length take]. rewrite Nat.sub_succ, Nat.sub_0_r, with_backends_app, zlen_cons. f_equal. lia.
  - replace (room lb) with 0%nat by lia. by rewrite !take_0.
Qed.

(** ** Lists as they are written *)
(** [host:port], [host:port:weight], or with the host in brackets, behind
    blanks. *)
Record entry := mkEntry { en_pad : bytes; en_bracket : bool; en_host : bytes; en_port : Z; en_weight : option Z }.

Definition entry_text (e : entry) : bytes :=
  en_pad e ++ (if en_bracket e then 91 :: en_host e ++ [93] else en_host e) ++ 58 :: dec (en_port e) ++
  match en_weight e with Some w => 58 :: dec w | None => [] end.
Definition entry_value (e : entry) : bytes * Z * Z := (en_host e, en_port e, default 1 (en_weight e)).

Definition entry_ok (e : entry) : Prop :=
  blanks (en_pad e) /\ 44 ∉ en_host e /\ 1 <= en_port e <= 65535 /\ (forall w, en_weight e = Some w -> 0 <= w <= MAX_BACKEND_WEIGHT) /\
  if en_bracket e then 93 ∉ en_host e
  else 58 ∉ en_host e /\ match en_host e with c :: _ => is_blank c = false /\ c <> 91 | [] => True end.

Fixpoint join (c : Z) (toks : list bytes) : bytes :=
  match toks with
  | [] => []
  | [tok] => tok
  | tok :: toks => tok ++ c :: join c toks
  end.

Lemma digits_not_in c ds : all_digits ds -> is_digit c = false -> c ∉ ds.
Proof. intros Hd Hc Hin. eapply list.Forall_forall in Hd; [|exact Hin]. cbn in Hd. congruence. Qed.
Lemma dec_not_in c n : 0 <= n <= UINT64_MAX -> is_digit c = false -> c ∉ dec n.
Proof. intros Hn. apply digits_not_in. by destruct (dec_spec n Hn). Qed.

Lemma skip_blanks_start c l : is_blank c = false -> skip_blanks (c :: l) = c :: l.
Proof. intros H. cbn. by rewrite H. Qed.

Lemma port_parses p w :
  1 <= p <= 65535 -> (forall x, w = Some x -> 0 <= x <= MAX_BACKEND_WEIGHT) ->
  entry_port (dec p ++ match w with Some w => 58 :: dec w | None => [] end) = Some (p, default 1 w).
Proof.
  intros Hp Hw. assert (58 ∉ dec p) as Hn by (apply dec_not_in; [unfold UINT64_MAX; lia|done]).
  assert (parse_bounded_int (dec p) 1 65535 = Some p) as Hpp by (apply parse_bounded_dec; unfold LONG_MAX; lia).
  unfold entry_port. destruct w as [w|].
  - specialize (Hw w eq_refl). unfold MAX_BACKEND_WEIGHT in Hw. rewrite split_at_app by done. rewrite parse_bounded_dec by (unfold MAX_BACKEND_WEIGHT, LONG_MAX; lia).
    cbn [mbind option_bind]. by rewrite Hpp.
  - rewrite app_nil_r. replace (split_at 58 (dec p)) with (@None (bytes * bytes)) by (symmetry; by apply split_at_none). cbn [mbind option_bind]. by rewrite Hpp.
Qed.

Lemma entry_parses e : entry_ok e -> backend_entry (entry_text e) = Some (entry_value e).
Proof.
  intros (Hpad & _ & Hp & Hw & Hh). pose proof (port_parses _ _ Hp Hw) as Hpw. unfold entry_text, backend_entry, entry_value.
  rewrite skip_blanks_all by done. set (ps := dec (en_port e) ++ _) in *.
  assert (entry_host (skip_blanks ((if en_bracket e then 91 :: en_host e ++ [93] else en_host e) ++ 58 :: ps)) = Some (en_host e, ps)) as ->.
  { destruct (en_bracket e).
    - cbn [app]. rewrite skip_blanks_start by done. cbn [entry_host]. rewrite <- app_assoc. cbn [app]. by rewrite split_at_app.
    - destruct Hh as [Hh Hc]. destruct (en_host e) as [|c host]; cbn [app]; [done|]. destruct Hc as [Hb Hc]. rewrite skip_blanks_start by done.
      assert (split_at 58 (c :: host ++ 58 :: ps) = Some (c :: host, ps)) as Es by (by apply (split_at_app 58 (c :: host))).
      clear -Es Hc. unfold entry_host. destruct c as [|p|p]; try done. repeat (destruct p as [p|p|]; try done). }
  cbn [mbind option_bind]. by rewrite Hpw.
Qed.

Lemma strtok_join c toks : Forall (fun tok => tok <> [] /\ c ∉ tok) toks -> strtok c (join c toks) [] = toks.
Proof.
  assert (forall a l cur, c ∉ a -> rev cur ++ a <> [] -> strtok c (a ++ c :: l) cur = (rev cur ++ a) :: strtok c l []) as Hmid.
  { induction a as [|x a IH]; intros l cur Hn Hne; cbn [app strtok].
    - rewrite Z.eqb_refl, app_nil_r in *. by destruct cur.
    - apply not_elem_of_cons in Hn as [Hx Hn]. replace (x =? c) with false by (symmetry; apply Z.eqb_neq; congruence).
      rewrite IH; [|done|cbn; by rewrite <- app_assoc]. cbn. by rewrite <- app_assoc. }
  assert (forall a cur, c ∉ a -> rev cur ++ a <> [] -> strtok c a cur = [rev cur ++ a]) as Hend.
  { induction a as [|x a IH]; intros cur Hn Hne; cbn [strtok].
    - rewrite app_nil_r in *. by destruct cur.
    - apply not_elem_of_cons in Hn as [Hx Hn]. replace (x =? c) with false by (symmetry; apply Z.eqb_neq; congruence).
      rewrite IH; [|done|cbn; by rewrite <- app_assoc]. cbn. by rewrite <- app_assoc. }
  induction 1 as [|tok toks [Hne Hn] Ht IH]; [done|]. destruct toks as [|t toks]; [by apply (Hend tok [])|].
  change (join c (tok :: t :: toks)) with (tok ++ c :: join c (t :: toks)). rewrite (Hmid tok _ []) by done. by rewrite IH.
Qed.

Lemma entry_text_token e : entry_ok e -> entry_text e <> [] /\ 44 ∉ entry_text e.
Proof.
  intros (Hpad & Hh & Hp & Hw & _). split.
  { unfold entry_text. intros E%(f_equal length). rewrite !length_app in E. cbn in E. lia. }
  unfold entry_text. rewrite !elem_of_app. intros [H|[H|[|[H|H]%elem_of_app]%elem_of_cons]]; try done.
  - eapply list.Forall_forall in Hpad; [|exact H]. done.
  - destruct (en_bracket e); [|done]. apply elem_of_cons in H as [|[H|H%list_elem_of_singleton]%elem_of_app]; done.
  - refine (dec_not_in 44 _ _ eq_refl H). unfold UINT64_MAX. lia.
  - destruct (en_weight e) as [w|]; [|by apply not_elem_of_nil in H]. apply elem_of_cons in H as [|H]; [done|].
    specialize (Hw w eq_refl). unfold MAX_BACKEND_WEIGHT in Hw. refine (dec_not_in 44 _ _ eq_refl H). unfold UINT64_MAX. lia.
Qed.

Lemma listed_entries resolve es :
  Forall entry_ok es -> listed resolve (strtok 44 (join 44 (map entry_text es)) []) = filter (fun e => resolve e.1.1 e.1.2 = true) (map entry_value es).
Proof.
  intros He. rewrite strtok_join.
  - unfold listed. f_equal. induction He as [|e es Hok He IH]; [done|]. cbn. rewrite entry_parses by done. cbn in IH. by rewrite IH.
  - induction He as [|e es Hok He IH]; [constructor|]. constructor; [by apply entry_text_token|done].
Qed.

(** ** Files of assignments *)
(** A line: a comment, blanks, or an assignment with its quotes. *)
Inductive env_entry :=
  | Comment (pad text : bytes)
  | Blanks (pad : bytes)
  | Assign (pad : bytes) (export : bool) (key mid1 mid2 : bytes) (quote : option Z) (val : bytes).

Definition env_text (x : env_entry) : bytes :=
  match x with
  | Comment pad text => pad ++ 35 :: text
  | Blanks pad => pad
  | Assign pad export key mid1 mid2 quote val =>
      pad ++ (if export then str "export " else []) ++ key ++ mid1 ++ 61 :: mid2 ++
      match quote with Some q => q :: val ++ [q] | None => val end
  end.

(** Bytes that do not end a line. *)
Definition inline (c : Z) : Prop := c <> 0 /\ c <> 10 /\ c <> 13.
(** Bytes of a name. *)
Definition name_byte (c : Z) : Prop := inline c /\ is_blank c = false /\ c <> 61 /\ c <> 35.

Definition env_entry_ok (x : env_entry) : Prop :=
  zlen (env_text x) < 1023 /\
  match x with
  | Comment pad text => blanks pad /\ Forall inline text
  | Blanks pad => blanks pad
  | Assign pad _ key mid1 mid2 quote val =>
      blanks pad /\ blanks mid1 /\ blanks mid2 /\ key <> [] /\ key <> str "export" /\ Forall name_byte key /\ Forall inline val /\
      match quote with Some q => is_quote q = true | None => skip_blanks val = val /\ unquote val = val end
  end.

Definition binding (x : env_entry) : option (bytes * bytes) :=
  match x with Assign _ _ key _ _ _ val => Some (key, val) | _ => None end.

Lemma blank_inline pad : blanks pad -> Forall inline pad.
Proof. intros H. eapply list.Forall_impl; [exact H|]. intros c. cbn. unfold is_blank, inline. lia. Qed.

Lemma env_text_inline x : env_entry_ok x -> Forall inline (env_text x).
Proof.
  intros [_ H]. destruct x as [pad text|pad|pad export key mid1 mid2 quote val]; cbn.
  - destruct H as [H1%blank_inline H2]. apply Forall_app. split; [done|]. constructor; [done|done].
  - by apply blank_inline.
  - destruct H as (H1%blank_inline & H2%blank_inline & H3%blank_inline & _ & _ & H4 & H5 & H6). rewrite !Forall_app. split; [done|].
    split; [destruct export; [by apply (bool_decide_unpack _)|constructor]|]. split; [eapply list.Forall_impl; [exact H4|]; by intros c []|].
    split; [done|]. constructor; [done|]. apply Forall_app. split; [done|]. destruct quote as [q|]; [|done].
    assert (inline q) by (unfold is_quote, inline in *; lia). constructor; [done|]. apply Forall_app. by split; [|constructor].
Qed.

Lemma chomp_line l rest : Forall inline l -> chomp (l ++ 10 :: rest) = l.
Proof.
  induction 1 as [|c l (H0 & H1 & H2) Hl IH]; [done|]. cbn. replace (c =? 0) with false by lia. replace (c =? 10) with false by lia.
  replace (c =? 13) with false by lia. cbn. by rewrite IH.
Qed.

Lemma fgets_line n l rest : Forall inline l -> (length l < n)%nat -> fgets n (l ++ 10 :: rest) = (l ++ [10], rest).
Proof.
  intros Hl. revert n. induction Hl as [|c l (_ & H1 & _) Hl IH]; intros [|n] Hn; cbn in Hn; try lia; [done|]. cbn.
  replace (c =? 10) with false by lia. by rewrite IH by lia.
Qed.

Lemma unquote_quoted q val : is_quote q = true -> unquote (q :: val ++ [q]) = val.
Proof.
  intros Hq. unfold unquote. replace (zlen (q :: val ++ [q]) >=? 2) with true by (rewrite zlen_cons, zlen_app; change (zlen [q]) with 1; pose proof (zlen_nonneg val); lia).
  rewrite Hq. rewrite bool_decide_true by (by rewrite app_comm_cons, list.last_snoc). cbn. apply removelast_last.
Qed.

Lemma trim_name key mid : Forall name_byte key -> blanks mid -> trim_blanks_end (key ++ mid) = key.
Proof.
  intros Hk Hm. unfold trim_blanks_end. rewrite rev_app_distr, skip_blanks_all by (by apply Forall_rev). apply Forall_rev in Hk.
  destruct (rev key) as [|c l] eqn:E; [rewrite <- (rev_involutive key), E; done|]. apply list.Forall_cons in Hk as [(_ & Hb & _) _].
  rewrite skip_blanks_start by done. by rewrite <- E, rev_involutive.
Qed.

(** A name other than [export] does not read as that keyword. *)
Lemma name_not_export key mid rest :
  Forall name_byte key -> blanks mid -> key <> str "export" -> starts_with (str "export ") (key ++ mid ++ 61 :: rest) = false.
Proof.
  intros Hk Hm Hne. apply not_true_is_false. intros (r & E)%starts_with_spec. change (str "export ") with (str "export" ++ [32]) in E. rewrite <- app_assoc in E.
  assert (forall (a b c d : bytes), (length a <= length b)%nat -> a ++ c = b ++ d -> exists x, b = a ++ x /\ c = x ++ d) as Hsplit.
  { clear. induction a as [|x a IH]; intros b c d Hl E; [by exists b|]. destruct b as [|y b]; [cbn in Hl; lia|]. cbn in E, Hl. injection E as -> E.
    destruct (IH b c d ltac:(lia) E) as (z & -> & ->). by exists z. }
  destruct (le_lt_dec (length key) (length (str "export"))) as [Hl|Hl].
  - destruct (Hsplit _ _ _ _ Hl E) as ([|c x] & E1 & E2); [by rewrite app_nil_r in E1|].
    assert (Forall (fun c => name_byte c) (c :: x)) as [Hc _]%list.Forall_cons.
    { assert (Forall name_byte (str "export")) as Hx by (by apply (bool_decide_unpack _)). rewrite E1 in Hx. by apply Forall_app in Hx as [_ Hx]. }
    destruct Hc as (_ & Hb & H61 & _). destruct mid as [|m mid]; [cbn in E2; congruence|]. apply list.Forall_cons in Hm as [Hm _]. cbn in E2. congruence.
  - symmetry in E. destruct (Hsplit (str "export") key _ _ ltac:(lia) E) as ([|c x] & E1 & E2); [rewrite app_nil_r in E1; by symmetry in E1|].
    rewrite E1 in Hk. apply Forall_app in Hk as [_ [(_ & Hb & _) _]%list.Forall_cons]. cbn in E2. injection E2 as <- _. done.
Qed.

Lemma env_line_parses x rest : env_entry_ok x -> parse_env_line (env_text x ++ 10 :: rest) = binding x.
Proof.
  intros Hok. unfold parse_env_line. rewrite chomp_line by (by apply env_text_inline). destruct Hok as [_ H].
  destruct x as [pad text|pad|pad export key mid1 mid2 quote val]; cbn [env_text binding].
  - destruct H as [H _]. by rewrite skip_blanks_all.
  - assert (skip_blanks pad = []) as -> by (by apply skip_blanks_nil). done.
  - destruct H as (H1 & H2 & H3 & Hne & Hnx & Hk & Hv & Hq). rewrite skip_blanks_all by done. set (rhs := mid2 ++ _).
    assert (unquote (skip_blanks rhs) = val) as Hrhs.
    { unfold rhs. rewrite skip_blanks_all by done. destruct quote as [q|]; [|by destruct Hq as [-> ->]].
      rewrite skip_blanks_start by (unfold is_quote, is_blank in *; lia). by apply unquote_quoted. }
    assert (61 ∉ key ++ mid1) as H61.
    { intros [Hin|Hin]%elem_of_app; [eapply list.Forall_forall in Hk; [|exact Hin]; by destruct Hk as (_ & _ & ? & _)|].
      eapply list.Forall_forall in H2; [|exact Hin]. done. }
    assert (skip_blanks (key ++ mid1 ++ 61 :: rhs) = key ++ mid1 ++ 61 :: rhs) as Hsk.
    { destruct key as [|c key]; [done|]. apply list.Forall_cons in Hk as [(_ & Hb & _) _]. by apply skip_blanks_start. }
    assert (('(key0, val0) ← split_at 61 (key ++ mid1 ++ 61 :: rhs); Some (trim_blanks_end key0, unquote (skip_blanks val0))) = Some (key, val)) as Hfin.
    { rewrite app_assoc, split_at_app by done. cbn [mbind option_bind]. by rewrite trim_name, Hrhs. }
    destruct export.
    + change (str "export " ++ ?l) with (101 :: [120; 112; 111; 114; 116; 32] ++ l). rewrite skip_blanks_start by done. cbn [Z.eqb].
      change (101 :: [120; 112; 111; 114; 116; 32] ++ ?l) with (str "export " ++ l).
      assert (starts_with (str "export ") (str "export " ++ key ++ mid1 ++ 61 :: rhs) = true) as -> by (apply starts_with_spec; by eexists).
      change 7 with (zlen (str "export ")). rewrite zdrop_app_eq by done. by rewrite Hsk.
    + cbn [app]. rewrite Hsk, name_not_export by done. destruct key as [|c key]; [done|]. pose proof Hk as [(_ & _ & _ & Hc) _]%list.Forall_cons.
      cbn [app]. replace (c =? 35) with false by lia. exact Hfin.
Qed.

Lemma setenv_union key val e : key <> [] -> Forall name_byte key -> setenv key val e = e ∪ {[key := val]}.
Proof.
  intros Hne Hk. unfold setenv, environ in *. rewrite bool_decide_false.
  - destruct (e !! key) as [v|] eqn:E.
    + apply map_eq. intros k. rewrite lookup_union. destruct (decide (k = key)) as [->|Hn]; [by rewrite E, lookup_singleton_eq|].
      rewrite lookup_singleton_ne by done. by destruct (e !! k).
    + rewrite insert_union_singleton_r by done. done.
  - intros [|Hin]; [done|]. eapply list.Forall_forall in Hk; [|exact Hin]. by destruct Hk as (_ & _ & ? & _).
Qed.

(** The file of a list of lines. *)
Definition env_file_text (es : list env_entry) : bytes := concat (map (fun x => env_text x ++ [10]) es).

Lemma env_loop_spec es fuel e :
  Forall env_entry_ok es -> (length (env_file_text es) <= fuel)%nat ->
  env_loop fuel (env_file_text es) e = e ∪ list_to_map (omap binding es).
Proof.
  intros Hok. revert fuel e. induction Hok as [|x es Hx Hes IH]; intros fuel e Hf.
  { unfold environ in *. cbn. rewrite (right_id_L ∅ (∪)). by destruct fuel. }
  change (env_file_text (x :: es)) with ((env_text x ++ [10]) ++ env_file_text es) in *. rewrite <- app_assoc in Hf |- *. cbn [app] in Hf |- *. rewrite length_app in Hf. cbn in Hf. destruct fuel as [|fuel]; [lia|].
  set (rest := env_file_text es) in *. assert (fgets ENV_LINE (env_text x ++ 10 :: rest) = (env_text x ++ [10], rest)) as Eg.
  { apply fgets_line; [by apply env_text_inline|]. destruct Hx as [Hx _]. unfold zlen in Hx. unfold ENV_LINE. lia. }
  assert (env_loop (S fuel) (env_text x ++ 10 :: rest) e = env_loop fuel rest (env_line (env_text x ++ [10]) e)) as ->.
  { cbn [env_loop]. rewrite Eg. by destruct (env_text x). }
  rewrite IH by lia. unfold env_line. rewrite env_line_parses by done. destruct x as [| |pad export key mid1 mid2 quote val]; cbn [binding omap list_omap]; [done|done|].
  destruct Hx as [_ (_ & _ & _ & Hne & _ & Hk & _)]. rewrite setenv_union by done. unfold environ in *. rewrite <- (assoc_L (∪)). f_equal. cbn. by rewrite insert_union_singleton_l.
Qed.
