(* ===== verification/Double.v ===== *)
(** * Doubles: IEEE binary64 as the C code uses it

    Arithmetic is that of [SpecFloat] at 53 bits of mantissa and exponents
    below 1024, rounding to nearest, ties to even. On integers below 2^53 it is
    exact. *)
From S2P Require Import Prelude.
From Stdlib Require Import SpecFloat.

Local Open Scope Z_scope.

Definition double : Type := spec_float.
Definition dadd : double -> double -> double := SFadd 53 1024.
Definition dsub : double -> double -> double := SFsub 53 1024.
Definition dmul : double -> double -> double := SFmul 53 1024.
Definition ddiv : double -> double -> double := SFdiv 53 1024.
(** [x < y] and [x <= y]. *)
Definition dlt : double -> double -> bool := SFltb.
Definition dle : double -> double -> bool := SFleb.

(** [(double)z] of an integer. *)
Definition of_int (z : Z) : double := binary_normalize 53 1024 z 0 false.
(** [(int)x]: towards zero, for values an [int] holds. *)
Definition to_int (x : double) : Z :=
  match x with
  | S754_finite s m e => let v := if e >=? 0 then Zpos m * 2 ^ e else Zpos m / 2 ^ (- e) in if s then - v else v
  | _ => 0
  end.

(** ** Exact rounding *)
Lemma digits2_log p : Zpos (digits2_pos p) = Z.log2 (Zpos p) + 1.
Proof. induction p as [p IH|p IH|]; cbn [digits2_pos]; [..|done]; rewrite Pos2Z.inj_succ, IH; destruct p; cbn; lia. Qed.

Lemma shr_1_double m : 0 < m -> shr_1 (Build_shr_record (m * 2) false false) = Build_shr_record m false false.
Proof. destruct m as [|p|p]; try lia. rewrite Z.mul_comm. done. Qed.

Lemma shr_exact n m : 0 < m -> iter_pos shr_1 n (Build_shr_record (m * 2 ^ Zpos n) false false) = Build_shr_record m false false.
Proof.
  revert m. induction n as [n IH|n IH|]; intros m Hm; cbn [iter_pos].
  - replace (m * 2 ^ Zpos n~1) with ((m * 2 ^ Zpos n * 2 ^ Zpos n) * 2).
    + rewrite shr_1_double by lia. rewrite IH by lia. by apply IH.
    + change (Zpos n~1) with (2 * Zpos n + 1). rewrite Z.pow_add_r, Z.pow_twice_r by lia. lia.
  - replace (m * 2 ^ Zpos n~0) with (m * 2 ^ Zpos n * 2 ^ Zpos n).
    + rewrite IH by lia. by apply IH.
    + change (Zpos n~0) with (2 * Zpos n). rewrite Z.pow_twice_r. lia.
  - change (2 ^ 1) with 2. by apply shr_1_double.
Qed.

Lemma shr_pow n m e : 0 < m -> 0 <= n -> shr (Build_shr_record (m * 2 ^ n) false false) e n = (Build_shr_record m false false, e + n).
Proof. intros Hm Hn. destruct n as [|n|n]; [cbn; f_equal; [f_equal|]; lia| |lia]. unfold shr. by rewrite shr_exact. Qed.

(** The number of bits of a positive integer. *)
Definition bits (z : Z) : Z := Z.log2 z + 1.

Lemma digits_pow z k : 0 < z -> 0 <= k -> Zdigits2 (z * 2 ^ k) = bits z + k.
Proof.
  intros Hz Hk. unfold bits. assert (0 < z * 2 ^ k) as Hp by lia. destruct (z * 2 ^ k) as [|p|p] eqn:E; try lia. cbn [Zdigits2].
  rewrite digits2_log, <- E, Z.log2_mul_pow2 by lia. lia.
Qed.

Lemma bits_range z : 0 < z < 2 ^ 53 -> 1 <= bits z <= 53.
Proof.
  intros Hz. unfold bits. pose proof (Z.log2_nonneg z). assert (Z.log2 z < 53) by (apply Z.log2_lt_pow2; lia). lia.
Qed.

(** The double of a positive integer below 2^53. *)
Definition canon (z : Z) : double := S754_finite false (Z.to_pos (z * 2 ^ (53 - bits z))) (bits z - 53).

Lemma round_exact z k :
  0 < z < 2 ^ 53 -> 53 - bits z <= k -> binary_round_aux 53 1024 false (z * 2 ^ k) (- k) loc_Exact = canon z.
Proof.
  intros Hz Hk. pose proof (bits_range z Hz) as Hb. unfold binary_round_aux, shr_fexp. rewrite digits_pow by lia. cbn [shr_record_of_loc].
  assert (forall x, 1 <= x -> fexp 53 1024 x = x - 53) as Hf by (intros x Hx; unfold fexp, emin; lia).
  replace (bits z + k + - k) with (bits z) by lia. rewrite Hf by lia.
  replace (z * 2 ^ k) with ((z * 2 ^ (53 - bits z)) * 2 ^ (bits z - 53 - - k)) by (rewrite <- Z.mul_assoc, <- Z.pow_add_r by lia; f_equal; f_equal; lia).
  rewrite shr_pow by lia. cbn [shr_m loc_of_shr_record round_nearest_even]. rewrite digits_pow by lia.
  replace (bits z + (53 - bits z) + (- k + (bits z - 53 - - k))) with (bits z) by lia. rewrite Hf by lia.
  replace (bits z - 53 - (- k + (bits z - 53 - - k))) with 0 by lia. cbn [shr shr_m].
  assert (0 < z * 2 ^ (53 - bits z)) as Hp by lia. unfold canon. destruct (z * 2 ^ (53 - bits z)) as [|p|p] eqn:E; try lia.
  replace (- k + (bits z - 53 - - k)) with (bits z - 53) by lia. by replace (bits z - 53 <=? 1024 - 53) with true by lia.
Qed.

Lemma iter_xO p n : Zpos (Pos.iter xO p n) = Zpos p * 2 ^ Zpos n.
Proof.
  revert p. induction n as [|n IH] using Pos.peano_ind; intros p; [change (2 ^ 1) with 2; change (Pos.iter xO p 1) with (p~0)%positive; lia|]. rewrite Pos.iter_succ_r, IH, Pos2Z.inj_succ, Z.pow_succ_r by lia.
  change (Zpos p~0) with (2 * Zpos p). lia.
Qed.

(** The mantissa of [m * 2^e] at a smaller exponent. *)
Lemma shl_align_value m e e' : e' <= e -> Zpos (shl_align m e e').1 = Zpos m * 2 ^ (e - e').
Proof.
  intros He. unfold shl_align. destruct (e' - e) as [|p|p] eqn:E; [|lia|]; cbn [fst].
  - replace (e - e') with 0 by lia. lia.
  - rewrite iter_xO. f_equal. f_equal. lia.
Qed.

Lemma normalize_exact z k : 0 < z < 2 ^ 53 -> 0 <= k -> binary_normalize 53 1024 (z * 2 ^ k) (- k) false = canon z.
Proof.
  intros Hz Hk. pose proof (bits_range z Hz) as Hb. assert (0 < z * 2 ^ k) as Hp by lia. pose proof (digits_pow z k ltac:(lia) Hk) as Hd.
  destruct (z * 2 ^ k) as [|p|p] eqn:E; try lia. cbn [binary_normalize Zdigits2] in Hd |- *. unfold binary_round. rewrite Hd.
  replace (fexp 53 1024 (bits z + k + - k)) with (bits z - 53) by (unfold fexp, emin; lia).
  destruct (Z.le_gt_cases (53 - bits z) k) as [Hle|Hgt].
  - unfold shl_align. destruct (bits z - 53 - - k) as [|q|q] eqn:Eq; [| |lia]; rewrite <- E; by apply round_exact.
  - pose proof (shl_align_value p (- k) (bits z - 53) ltac:(lia)) as Hv. destruct (shl_align p (- k) (bits z - 53)) as [m e] eqn:Es.
    assert (e = - (53 - bits z)) as -> by (unfold shl_align in Es; destruct (bits z - 53 - - k) eqn:?; [lia|lia|injection Es as _ <-; lia]).
    cbn [fst] in Hv. rewrite Hv, <- E, <- Z.mul_assoc, <- Z.pow_add_r by lia. replace (k + (- k - (bits z - 53))) with (53 - bits z) by lia.
    by apply round_exact.
Qed.

Lemma of_int_0 : of_int 0 = S754_zero false.
Proof. done. Qed.
Lemma of_int_canon z : 0 < z < 2 ^ 53 -> of_int z = canon z.
Proof. intros Hz. unfold of_int. rewrite <- (normalize_exact z 0) by lia. by rewrite Z.mul_1_r. Qed.

(** The mantissa of [canon z] at an exponent no larger than its own. *)
Lemma canon_shl z k :
  0 < z < 2 ^ 53 -> 53 - bits z <= k ->
  Zpos (shl_align (Z.to_pos (z * 2 ^ (53 - bits z))) (bits z - 53) (- k)).1 = z * 2 ^ k.
Proof.
  intros Hz Hk. pose proof (bits_range z Hz). rewrite shl_align_value by lia. rewrite Z2Pos.id by lia.
  rewrite <- Z.mul_assoc, <- Z.pow_add_r by lia. f_equal. f_equal. lia.
Qed.

(** ** Exact arithmetic on small integers *)
Section exact.
Context (a b : Z) (Ha : 0 <= a < 2 ^ 53) (Hb : 0 <= b < 2 ^ 53).

Lemma dadd_exact : a + b < 2 ^ 53 -> dadd (of_int a) (of_int b) = of_int (a + b).
Proof using Ha Hb.
  intros Hs. destruct (Z.eq_dec a 0) as [->|Hna]; [destruct (Z.eq_dec b 0) as [->|Hnb]; [done|rewrite (of_int_canon b), Z.add_0_l, (of_int_canon b) by lia; done]|].
  destruct (Z.eq_dec b 0) as [->|Hnb]; [rewrite Z.add_0_r, (of_int_canon a) by lia; done|].
  pose proof (bits_range a ltac:(lia)). pose proof (bits_range b ltac:(lia)).
  rewrite !of_int_canon by lia. unfold dadd, canon at 1 2. cbn [SFadd cond_Zopp].
  set (k := 53 - Z.min (bits a) (bits b)). replace (Z.min (bits a - 53) (bits b - 53)) with (- k) by lia.
  rewrite !canon_shl by lia. rewrite <- Z.mul_add_distr_r. apply normalize_exact; lia.
Qed.

Lemma dsub_exact : b <= a -> dsub (of_int a) (of_int b) = of_int (a - b).
Proof using Ha Hb.
  intros Hs. destruct (Z.eq_dec b 0) as [->|Hnb]; [rewrite Z.sub_0_r; destruct (Z.eq_dec a 0) as [->|Hna]; [done|rewrite (of_int_canon a) by lia; done]|].
  pose proof (bits_range a ltac:(lia)). pose proof (bits_range b ltac:(lia)).
  rewrite (of_int_canon a), (of_int_canon b) by lia. unfold dsub, canon. cbn [SFsub cond_Zopp].
  set (k := 53 - Z.min (bits a) (bits b)). replace (Z.min (bits a - 53) (bits b - 53)) with (- k) by lia.
  rewrite !canon_shl by lia. rewrite <- Z.mul_sub_distr_r. destruct (Z.eq_dec a b) as [->|Hne]; [by rewrite Z.sub_diag|].
  rewrite of_int_canon by lia. apply normalize_exact; lia.
Qed.

Lemma dmul_exact : a * b < 2 ^ 53 -> dmul (of_int a) (of_int b) = of_int (a * b).
Proof using Ha Hb.
  intros Hs. destruct (Z.eq_dec a 0) as [->|Hna]; [destruct (Z.eq_dec b 0) as [->|Hnb]; [done|rewrite (of_int_canon b) by lia; done]|].
  destruct (Z.eq_dec b 0) as [->|Hnb]; [rewrite Z.mul_0_r, (of_int_canon a) by lia; done|].
  pose proof (bits_range a ltac:(lia)). pose proof (bits_range b ltac:(lia)).
  rewrite !of_int_canon by nia. unfold dmul, canon at 1 2. cbn [SFmul xorb]. rewrite Pos2Z.inj_mul, !Z2Pos.id by lia.
  set (k := (53 - bits a) + (53 - bits b)). replace (bits a - 53 + (bits b - 53)) with (- k) by lia.
  replace (a * 2 ^ (53 - bits a) * (b * 2 ^ (53 - bits b))) with (a * b * 2 ^ k) by (unfold k; rewrite Z.pow_add_r by lia; lia).
  apply round_exact; [nia|]. assert (bits a + bits b - 1 <= bits (a * b)); [|lia]. unfold bits. pose proof (Z.log2_mul_below a b ltac:(lia) ltac:(lia)). lia.
Qed.

Lemma compare_exact : SFcompare (of_int a) (of_int b) = Some (a ?= b).
Proof using Ha Hb.
  destruct (Z.eq_dec a 0) as [->|Hna]; [destruct (Z.eq_dec b 0) as [->|Hnb]; [done|rewrite (of_int_canon b) by lia; destruct b; try lia; done]|].
  destruct (Z.eq_dec b 0) as [->|Hnb]; [rewrite (of_int_canon a) by lia; destruct a; try lia; done|].
  pose proof (bits_range a ltac:(lia)). pose proof (bits_range b ltac:(lia)).
  rewrite !of_int_canon by lia. unfold canon. cbn [SFcompare]. f_equal.
  destruct (Z.compare_spec (bits a - 53) (bits b - 53)) as [He|He|He].
  - assert (bits a = bits b) as Eb by lia. rewrite <- Eb. change (Pos.compare_cont Eq ?x ?y) with (x ?= y)%positive. rewrite <- Z2Pos.inj_compare by lia.
    symmetry. apply Zmult_compare_compat_r. lia.
  - symmetry. apply Z.compare_lt_iff. unfold bits in He. apply Z.log2_lt_cancel. lia.
  - symmetry. apply Z.compare_gt_iff. unfold bits in He. apply Z.log2_lt_cancel. lia.
Qed.

Lemma dlt_exact : dlt (of_int a) (of_int b) = (a <? b).
Proof using Ha Hb. unfold dlt, SFltb. rewrite compare_exact. unfold Z.ltb. by destruct (a ?= b). Qed.
Lemma dle_exact : dle (of_int a) (of_int b) = (a <=? b).
Proof using Ha Hb. unfold dle, SFleb. rewrite compare_exact. unfold Z.leb. by destruct (a ?= b). Qed.
End exact.

(** ** Order *)
(** Numbers by sign, then exponent, then mantissa. *)
Definition rank (x : double) : Z * Z * Z :=
  match x with
  | S754_infinity true => (-2, 0, 0)
  | S754_finite true m e => (-1, - e, Zneg m)
  | S754_zero _ => (0, 0, 0)
  | S754_finite false m e => (1, e, Zpos m)
  | S754_infinity false => (2, 0, 0)
  | S754_nan => (3, 0, 0)
  end.
Definition rank_lt (p q : Z * Z * Z) : Prop :=
  p.1.1 < q.1.1 \/ p.1.1 = q.1.1 /\ (p.1.2 < q.1.2 \/ p.1.2 = q.1.2 /\ p.2 < q.2).

Lemma dlt_rank x y : x <> S754_nan -> y <> S754_nan -> dlt x y = true <-> rank_lt (rank x) (rank y).
Proof.
  intros Hx Hy. unfold dlt, SFltb, rank_lt. destruct x as [sx|sx| |sx mx ex], y as [sy|sy| |sy my ey]; try done;
    destruct sx, sy; cbn;
    try (change (Pos.compare_cont Eq mx my) with (mx ?= my)%positive; destruct (Z.compare_spec ex ey), (Pos.compare_spec mx my); cbn);
    (split; [done || lia|intros; done || lia]).
Qed.

(** [z <= y] and [y <= x] give [z <= x]. *)
Lemma dlt_false_trans x y z :
  x <> S754_nan -> y <> S754_nan -> z <> S754_nan -> dlt x y = false -> dlt y z = false -> dlt x z = false.
Proof.
  intros Hx Hy Hz. rewrite <- !not_true_iff_false, !dlt_rank by done. unfold rank_lt. lia.
Qed.

(** ** Signs *)
Definition nonneg (x : double) : Prop :=
  match x with S754_zero _ | S754_infinity false | S754_finite false _ _ => True | _ => False end.

Lemma shr_nonneg m r s n : 0 <= m -> 0 <= shr_m (iter_pos shr_1 n (Build_shr_record m r s)).
Proof.
  assert (forall x, 0 <= shr_m x -> 0 <= shr_m (shr_1 x)) as H1 by (intros [[|[p|p|]|p] r0 s0]; cbn; lia).
  assert (forall n x, 0 <= shr_m x -> 0 <= shr_m (iter_pos shr_1 n x)) as H; [|intros; by apply H].
  clear n. intros n. induction n as [n IH|n IH|]; intros x Hx; cbn [iter_pos]; auto.
Qed.

Lemma shr_fexp_nonneg m e l : 0 <= m -> 0 <= shr_m (shr_fexp 53 1024 m e l).1.
Proof.
  intros Hm. unfold shr_fexp. assert (exists r s, shr_record_of_loc m l = Build_shr_record m r s) as (r & s & ->) by (destruct l as [|[]]; by eexists _, _).
  unfold shr. destruct (fexp 53 1024 (Zdigits2 m + e) - e); cbn [fst]; [done|by apply shr_nonneg|done].
Qed.

Lemma round_nonneg m e l : 0 <= m -> nonneg (binary_round_aux 53 1024 false m e l).
Proof.
  intros Hm. unfold binary_round_aux. pose proof (shr_fexp_nonneg m e l Hm) as H1. destruct (shr_fexp 53 1024 m e l) as [mrs e1]. cbn [fst] in H1.
  assert (0 <= round_nearest_even (shr_m mrs) (loc_of_shr_record mrs)) as H2.
  { destruct (loc_of_shr_record mrs) as [|[]]; cbn; [lia| |lia|lia]. destruct (Z.even _); lia. }
  pose proof (shr_fexp_nonneg _ e1 loc_Exact H2) as H3. destruct (shr_fexp 53 1024 _ e1 loc_Exact) as [mrs2 e2]. cbn [fst] in H3.
  destruct (shr_m mrs2); [done| |lia]. by destruct (_ <=? _).
Qed.

Lemma normalize_nonneg m e : 0 <= m -> nonneg (binary_normalize 53 1024 m e false).
Proof. intros Hm. destruct m as [|m|m]; [done| |lia]. cbn. unfold binary_round. destruct (shl_align _ _ _). by apply round_nonneg. Qed.

Lemma of_int_nonneg z : 0 <= z -> nonneg (of_int z).
Proof. apply normalize_nonneg. Qed.

Lemma dadd_nonneg x y : nonneg x -> nonneg y -> nonneg (dadd x y).
Proof.
  destruct x as [[]|[]| |[] mx ex], y as [[]|[]| |[] my ey]; cbn; try done. intros _ _. apply normalize_nonneg. lia.
Qed.

Lemma ddiv_nonneg x m e : nonneg x -> nonneg (ddiv x (S754_finite false m e)).
Proof.
  destruct x as [[]|[]| |[] mx ex]; cbn; try done. intros _. unfold ddiv, SFdiv. cbn [xorb].
  destruct (SFdiv_core_binary 53 1024 (Zpos mx) ex (Zpos m) e) as [[q e'] l] eqn:E. apply round_nonneg. unfold SFdiv_core_binary in E.
  match type of E with context [Z.div_eucl ?x ?y] => pose proof (Z_div_pos x y ltac:(lia)) as Hd; unfold Z.div in Hd; assert (0 <= x) as Hx end.
  { match goal with |- context [match ?s with _ => _ end] => destruct s end; [lia|apply Z.shiftl_nonneg; lia|lia]. }
  specialize (Hd Hx). destruct (Z.div_eucl _ _) as [q0 r0]. injection E as <- _ _. exact Hd.
Qed.

Lemma nonneg_not_nan x : nonneg x -> x <> S754_nan.
Proof. by destruct x. Qed.
