(* ===== verification/RateLimit.v ===== *)
(** * Rate limiting (server/src/rate_limit.c)

    The table of token buckets, its bounded probing and eviction, the refill
    and the middleware. A [bucket_t *] is the index of its slot. Tokens and
    times are doubles. *)
From Stdlib Require Import String.
From S2P Require Import Prelude Text Double HttpTypes HttpText Connection HttpResponse Route Selection Config.

Local Open Scope Z_scope.

Record bucket := mkBucket { b_addr : sockaddr; b_hash : Z; b_tokens : double; b_last : double; b_used : bool }.

Definition TABLE_SIZE : Z := 4096.
Definition PROBE_WINDOW : Z := 16.
(** [g_table] as the program starts. *)
Definition table_zero : list bucket := replicate (Z.to_nat TABLE_SIZE) (mkBucket AF_OTHER 0 (of_int 0) (of_int 0) false).

(** The configuration: [g_enabled], [g_rps], [g_burst]. *)
Record limits := mkLimits { g_enabled : bool; g_rps : double; g_burst : double }.
Definition rate_limit_init (e : environ) : limits :=
  let rps := env_int (str "RATE_LIMIT_RPS") 100 e in
  let burst := env_int (str "RATE_LIMIT_BURST") 200 e in
  mkLimits (env_bool (str "RATE_LIMIT_ENABLED") true e) (if rps >? 0 then of_int rps else of_int 100) (if burst >? 0 then of_int burst else of_int 200).

(** [ts]: seconds and nanoseconds of CLOCK_MONOTONIC. *)
Definition monotonic_seconds (ts : Z * Z) : double := dadd (of_int ts.1) (ddiv (of_int ts.2) (of_int 1000000000)).

(** ** Buckets *)
(** The [i]-th slot of the window of a hash. *)
Definition slot (hash i : Z) : nat :=
  let base := Z.land (u32 hash) (TABLE_SIZE - 1) in Z.to_nat (Z.land (base + i) (TABLE_SIZE - 1)).

(** The loop with [n] slots to go; [lru] is the stalest slot met and its time. *)
Fixpoint probe (n : nat) (i : Z) (fresh : bucket) (lru : option (nat * double)) (tbl : list bucket) : nat * list bucket :=
  match n with
  | O => match lru with Some (s, _) => (s, <[s := fresh]> tbl) | None => (0%nat, tbl) end
  | S n =>
      let s := slot (b_hash fresh) i in
      match tbl !! s with
      | None => (s, tbl)
      | Some b =>
          if negb (b_used b) then (s, <[s := fresh]> tbl) else
          if (b_hash b =? b_hash fresh) && net_addr_equal (b_addr b) (b_addr fresh) then (s, tbl) else
          let lru := match lru with
                     | Some (_, last) => if dlt (b_last b) last then Some (s, b_last b) else lru
                     | None => Some (s, b_last b)
                     end in
          probe n (i + 1) fresh lru tbl
      end
  end.

Section limiter.
Context (g : limits).

Definition acquire_bucket (addr : sockaddr) (now : double) (tbl : list bucket) : nat * list bucket :=
  probe (Z.to_nat PROBE_WINDOW) 0 (mkBucket addr (net_addr_hash addr) (g_burst g) now true) None tbl.

(** ** Spending a token *)
Definition refill (now : double) (b : bucket) : bucket :=
  let elapsed := dsub now (b_last b) in
  if dlt (of_int 0) elapsed then
    let tokens := dadd (b_tokens b) (dmul elapsed (g_rps g)) in
    let tokens := if dlt (g_burst g) tokens then g_burst g else tokens in
    mkBucket (b_addr b) (b_hash b) tokens now (b_used b)
  else b.

(** Seconds to the next token, rounded up, at least one. *)
Definition retry_seconds (b : bucket) : Z :=
  let secs := ddiv (dsub (of_int 1) (b_tokens b)) (g_rps g) in
  let wait := to_int secs in
  let wait := if dlt (of_int wait) secs then wait + 1 else wait in
  if wait >? 0 then wait else 1.

(** Whether the request is let through, the time to wait otherwise, and the
    bucket behind it. *)
Definition spend (now : double) (b : bucket) : bool * Z * bucket :=
  let b := refill now b in
  if dle (of_int 1) (b_tokens b)
  then (true, 1, mkBucket (b_addr b) (b_hash b) (dsub (b_tokens b) (of_int 1)) (b_last b) (b_used b))
  else (false, retry_seconds b, b).

Definition allow_request (addr : sockaddr) (ts : Z * Z) (tbl : list bucket) : bool * Z * list bucket :=
  let now := monotonic_seconds ts in
  let '(s, tbl) := acquire_bucket addr now tbl in
  match tbl !! s with
  | None => (false, 1, tbl)
  | Some b => let '(allowed, retry_after, b) := spend now b in (allowed, retry_after, <[s := b]> tbl)
  end.

(** ** The middleware *)
Context (gzip : bytes -> option bytes) (server_name : bytes) (date : Z).

Definition LIMIT_BODY : bytes := [123; 34] ++ str "error" ++ [34; 58; 34] ++ str "rate limit exceeded" ++ [34; 125].

Definition send_429 (retry_after : Z) (conn : connection) : Z * connection :=
  let request := conn_request conn in
  let response := set_resp_status HTTP_TOO_MANY_REQUESTS (response_clear_body (conn_response conn)) in
  let response := set_resp_version (str "HTTP/1.1") response in
  let '(body, conn) := conn_strdup LIMIT_BODY conn in
  let response := set_resp_keep_alive (req_keep_alive request) (set_resp_body body response) in
  let response := response_set_header 0 (str "Content-Type") (str "application/json") response in
  let response := response_set_header 1 (str "Retry-After") (snprintf_s 16 (dec retry_after)) response in
  send_http_response gzip server_name date (set_conn_response response conn).

(** The request of the client at [addr]; the table is shared by all threads
    under the lock. *)
Definition rate_limit_middleware (addr : sockaddr) (ts : Z * Z) (next : handler) (conn : connection) (tbl : list bucket)
    : list bucket * option (Z * connection) :=
  if negb (g_enabled g) then (tbl, next conn) else
  let '(allowed, retry_after, tbl) := allow_request addr ts tbl in
  (tbl, if allowed then next conn else Some (send_429 retry_after conn)).
End limiter.
