(* ===== verification/RateProofs.v ===== *)
(** * The rate limiter: one bucket per client, exact on whole seconds

    The probing table is a map from clients to buckets that may forget the
    stalest of sixteen; on whole seconds a bucket is the ideal token bucket. *)
From Stdlib Require Import String.
From S2P Require Import Prelude Text Double HttpTypes HttpText HttpRequest Selection DbScan Config RateLimit.
From Stdlib Require Import SpecFloat.

Local Open Scope Z_scope.

(** ** Addresses and slots *)
Lemma net_addr_equal_spec a b : net_addr_equal a b = true <-> addr_bytes a = addr_bytes b /\ addr_bytes a <> [].
Proof.
  unfold net_addr_equal. rewrite !andb_true_iff. split.
  - intros [[Hn Hl] Hc]. assert (memcmp (addr_bytes a) (addr_bytes b) = Eq) as He by (by destruct (memcmp _ _)).
    apply memcmp_eq in He; [|unfold zlen in Hl; lia]. split; [done|]. intros E. rewrite E in Hn. done.
  - intros [E Hne]. rewrite <- E. split; [split; [destruct (addr_bytes a); [done|rewrite zlen_cons; pose proof (zlen_nonneg l); lia]|lia]|].
    by rewrite (proj2 (memcmp_eq _ _ eq_refl) eq_refl).
Qed.

Lemma hash_bytes a b : addr_bytes a = addr_bytes b -> net_addr_hash a = net_addr_hash b.
Proof. unfold net_addr_hash. by intros ->. Qed.

Lemma land_table z : Z.land z (TABLE_SIZE - 1) = z mod 4096.
Proof. change (TABLE_SIZE - 1) with (Z.ones 12). by rewrite Z.land_ones. Qed.
Lemma slot_mod h i : slot h i = Z.to_nat ((u32 h mod 4096 + i) mod 4096).
Proof. unfold slot. by rewrite !land_table. Qed.
Lemma slot_lt h i : (slot h i < 4096)%nat.
Proof. rewrite slot_mod. pose proof (Z.mod_pos_bound (u32 h mod 4096 + i) 4096). lia. Qed.
Lemma slot_inj h i j : 0 <= i < 16 -> 0 <= j < 16 -> slot h i = slot h j -> i = j.
Proof.
  rewrite !slot_mod. intros Hi Hj E. pose proof (Z.mod_pos_bound (u32 h) 4096 ltac:(lia)) as Hb. set (x := u32 h mod 4096) in *.
  apply Z2Nat.inj in E; [|apply Z.mod_pos_bound; lia..]. zdiv.
Qed.

(** ** The table *)
(** [b] is the bucket of the client with these address bytes. *)
Definition known (tbl : list bucket) (k : bytes) (b : bucket) : Prop :=
  exists s, tbl !! s = Some b /\ b_used b = true /\ addr_bytes (b_addr b) = k.
Definition used_at (tbl : list bucket) (s : nat) : Prop := exists b, tbl !! s = Some b /\ b_used b = true.

(** A bucket lies in the window of its client, behind used slots only, and a
    client has one bucket. *)
Record table_ok (tbl : list bucket) : Prop := {
  tb_len : length tbl = 4096%nat;
  tb_home : forall s b, tbl !! s = Some b -> b_used b = true ->
    b_hash b = net_addr_hash (b_addr b) /\ b_last b <> S754_nan /\
    exists i, 0 <= i < 16 /\ s = slot (b_hash b) i /\ forall j, 0 <= j < i -> used_at tbl (slot (b_hash b) j);
  tb_unique : forall s s' b b', tbl !! s = Some b -> tbl !! s' = Some b' -> b_used b = true -> b_used b' = true ->
    addr_bytes (b_addr b) = addr_bytes (b_addr b') -> addr_bytes (b_addr b) <> [] -> s = s' }.

Lemma known_unique tbl k b b' : table_ok tbl -> k <> [] -> known tbl k b -> known tbl k b' -> b = b'.
Proof.
  intros Hok Hk (s & Hs & Hu & E) (s' & Hs' & Hu' & E'). assert (s = s') as <-; [|congruence].
  apply (tb_unique _ Hok s s' b b'); try done; congruence.
Qed.

Lemma table_zero_ok : table_ok table_zero.
Proof.
  assert (forall s b, table_zero !! s = Some b -> b_used b = false) as H by (intros s b [-> _]%lookup_replicate; done). constructor.
  - unfold table_zero. by rewrite length_replicate.
  - intros s b Hs Hu. rewrite (H s b Hs) in Hu. done.
  - intros s s' b b' Hs _ Hu. rewrite (H s b Hs) in Hu. done.
Qed.

(** Writing a used bucket over a slot. *)
Lemma used_insert tbl s b s' : b_used b = true -> (s < length tbl)%nat -> used_at tbl s' -> used_at (<[s := b]> tbl) s'.
Proof.
  intros Hb Hl (x & Hx & Hu). destruct (decide (s' = s)) as [->|Hne]; [exists b; by rewrite list_lookup_insert_eq|].
  exists x. by rewrite list_lookup_insert_ne.
Qed.

Lemma insert_ok tbl s b i :
  table_ok tbl -> b_used b = true -> b_hash b = net_addr_hash (b_addr b) -> b_last b <> S754_nan -> 0 <= i < 16 -> s = slot (b_hash b) i ->
  (forall j, 0 <= j < i -> used_at tbl (slot (b_hash b) j)) ->
  (forall s' x, s' <> s -> tbl !! s' = Some x -> b_used x = true -> addr_bytes (b_addr x) = addr_bytes (b_addr b) -> addr_bytes (b_addr b) = []) ->
  table_ok (<[s := b]> tbl).
Proof.
  intros [H1 H2 H3] Hu Hh Hn Hi Es Hbefore Hother. assert (s < length tbl)%nat as Hs by (rewrite H1, Es; apply slot_lt). constructor.
  - by rewrite length_insert.
  - intros s' x Hx Hxu. destruct (decide (s' = s)) as [->|Hne].
    + rewrite list_lookup_insert_eq in Hx by done. injection Hx as <-. split; [done|]. split; [done|]. exists i. split; [done|]. split; [done|].
      intros j Hj. apply used_insert; [done|done|by apply Hbefore].
    + rewrite list_lookup_insert_ne in Hx by done. destruct (H2 s' x Hx Hxu) as (E1 & E2 & i' & Hi' & E3 & Hb'). split; [done|]. split; [done|].
      exists i'. split; [done|]. split; [done|]. intros j Hj. apply used_insert; [done|done|by apply Hb'].
  - intros s1 s2 x y. destruct (decide (s1 = s)) as [->|Hn1], (decide (s2 = s)) as [->|Hn2]; [done|..];
      rewrite ?(list_lookup_insert_eq tbl s b Hs), ?(list_lookup_insert_ne tbl s s1 b) by done; rewrite ?(list_lookup_insert_ne tbl s s2 b) by done.
    + intros [= <-] Hy _ Hyu E Hne. exfalso. by apply Hne, (Hother s2 y).
    + intros Hx [= <-] Hxu _ E Hne. exfalso. rewrite E in Hne. by apply Hne, (Hother s1 x).
    + by apply H3.
Qed.

(** ** Probing *)
Section probe.
Context (tbl : list bucket) (fresh : bucket).
Context (Hok : table_ok tbl) (Hk : addr_bytes (b_addr fresh) <> []) (Hh : b_hash fresh = net_addr_hash (b_addr fresh)).

(** The first [i] slots of the window are of other clients. *)
Definition passed (i : Z) : Prop :=
  forall j, 0 <= j < i -> exists b, tbl !! slot (b_hash fresh) j = Some b /\ b_used b = true /\ addr_bytes (b_addr b) <> addr_bytes (b_addr fresh).
(** [lru] is the stalest of them. *)
Definition stalest (i : Z) (lru : option (nat * double)) : Prop :=
  match lru with
  | None => i = 0
  | Some (l, d) => exists j b, 0 <= j < i /\ l = slot (b_hash fresh) j /\ tbl !! l = Some b /\ d = b_last b /\
      forall j' b', 0 <= j' < i -> tbl !! slot (b_hash fresh) j' = Some b' -> dlt (b_last b') d = false
  end.

Lemma stalest_step i lru b :
  0 <= i -> passed i -> tbl !! slot (b_hash fresh) i = Some b -> b_used b = true -> stalest i lru ->
  stalest (i + 1) (match lru with
    | Some (_, last) => if dlt (b_last b) last then Some (slot (b_hash fresh) i, b_last b) else lru
    | None => Some (slot (b_hash fresh) i, b_last b) end).
Proof using Hok.
  intros Hi Hp Hb Hu Hs. assert (forall d, dlt d d = false) as Hirr.
  { intros d. apply not_true_is_false. unfold dlt, SFltb. destruct d as [[]|[]| |[] m e]; cbn; try done;
      rewrite Z.compare_refl; change (Pos.compare_cont Eq m m) with (m ?= m)%positive; rewrite Pos.compare_refl; done. }
  assert (forall j x, 0 <= j <= i -> tbl !! slot (b_hash fresh) j = Some x -> b_last x <> S754_nan) as Hnan.
  { intros j x Hj Hx. destruct (Z.eq_dec j i) as [->|Hne].
    - rewrite Hb in Hx. injection Hx as <-. by destruct (tb_home _ Hok _ _ Hb Hu) as (_ & ? & _).
    - destruct (Hp j ltac:(lia)) as (y & Hy & Hyu & _). rewrite Hx in Hy. injection Hy as <-. by destruct (tb_home _ Hok _ _ Hx Hyu) as (_ & ? & _). }
  destruct lru as [[l d]|].
  - destruct Hs as (j & x & Hj & -> & Hx & -> & Hmin). destruct (dlt (b_last b) (b_last x)) eqn:E.
    + exists i, b. split; [lia|]. split; [done|]. split; [done|]. split; [done|]. intros j' b' Hj' Hb'.
      destruct (Z.eq_dec j' i) as [->|Hne]; [rewrite Hb in Hb'; injection Hb' as <-; apply Hirr|].
      apply not_true_is_false. intros Hlt. specialize (Hmin j' b' ltac:(lia) Hb'). rewrite <- not_true_iff_false in Hmin. apply Hmin.
      assert (b_last b' <> S754_nan /\ b_last b <> S754_nan /\ b_last x <> S754_nan) as (N1 & N2 & N3).
      { split; [apply (Hnan j' b'); [lia|done]|]. split; [apply (Hnan i b); [lia|done]|apply (Hnan j x); [lia|done]]. }
      rewrite dlt_rank in Hlt, E |- * by done. unfold rank_lt in *. lia.
    + exists j, x. split; [lia|]. split; [done|]. split; [done|]. split; [done|]. intros j' b' Hj' Hb'.
      destruct (Z.eq_dec j' i) as [->|Hne]; [by rewrite Hb in Hb'; injection Hb' as <-|]. apply (Hmin j'); [lia|done].
  - cbn in Hs. subst i. exists 0, b. split; [lia|]. split; [done|]. split; [done|]. split; [done|]. intros j' b' Hj' Hb'.
    assert (j' = 0) as -> by lia. rewrite Hb in Hb'. injection Hb' as <-. apply Hirr.
Qed.

(** Behind a slot that is free, and in a window without it, the client is
    unknown. *)
Lemma passed_unknown i b :
  0 <= i <= 16 -> passed i -> (i = 16 \/ tbl !! slot (b_hash fresh) i = Some b /\ b_used b = false) ->
  forall x, ~ known tbl (addr_bytes (b_addr fresh)) x.
Proof using Hok Hk Hh.
  intros Hi Hp Hend x (s & Hs & Hu & E). destruct (tb_home _ Hok s x Hs Hu) as (Hxh & _ & i' & Hi' & Es & Hbefore).
  assert (b_hash x = b_hash fresh) as Eh by (rewrite Hxh, Hh; by apply hash_bytes). rewrite Eh in *. subst s.
  destruct (Z.lt_trichotomy i' i) as [Hlt|[->|Hgt]].
  - destruct (Hp i' ltac:(lia)) as (y & Hy & _ & Hne). rewrite Hs in Hy. injection Hy as <-. by apply Hne.
  - destruct Hend as [->|[Hb Hbu]]; [lia|]. congruence.
  - destruct Hend as [->|[Hb Hbu]]; [lia|]. destruct (Hbefore i ltac:(lia)) as (y & Hy & Hyu). congruence.
Qed.

(** The client's own bucket, or a slot for a fresh one: free, or the stalest of
    a full window. *)
Definition outcome (s : nat) (tbl' : list bucket) : Prop :=
  (exists b, tbl !! s = Some b /\ b_used b = true /\ addr_bytes (b_addr b) = addr_bytes (b_addr fresh) /\ tbl' = tbl) \/
  (tbl' = <[s := fresh]> tbl /\ (forall x, ~ known tbl (addr_bytes (b_addr fresh)) x) /\
   exists i b, 0 <= i < 16 /\ s = slot (b_hash fresh) i /\ tbl !! s = Some b /\ (forall j, 0 <= j < i -> used_at tbl (slot (b_hash fresh) j)) /\
     (b_used b = true -> forall j, 0 <= j < 16 -> exists b', tbl !! slot (b_hash fresh) j = Some b' /\ b_used b' = true /\ dlt (b_last b') (b_last b) = false)).

Lemma probe_spec n i lru s tbl' :
  Z.of_nat n + i = 16 -> 0 <= i -> passed i -> stalest i lru -> probe n i fresh lru tbl = (s, tbl') -> outcome s tbl'.
Proof using Hok Hk Hh.
  revert i lru. induction n as [|n IH]; intros i lru Hn Hi Hp Hs E; cbn [probe] in E.
  - assert (i = 16) as -> by lia. destruct lru as [[l d]|]; [|done]. destruct Hs as (j & b & Hj & -> & Hb & -> & Hmin).
    injection E as <- <-. right. split; [done|]. split; [apply (passed_unknown 16 fresh); [lia|done|by left]|]. exists j, b.
    split; [done|]. split; [done|]. split; [done|]. split.
    + intros j' Hj'. destruct (Hp j' ltac:(lia)) as (x & Hx & Hxu & _). by exists x.
    + intros _ j' Hj'. destruct (Hp j' Hj') as (x & Hx & Hxu & _). exists x. split; [done|]. split; [done|]. by apply (Hmin j').
  - destruct (tbl !! slot (b_hash fresh) i) as [b|] eqn:Hb.
    + destruct (b_used b) eqn:Hu; cbn [negb] in E.
      * destruct ((b_hash b =? b_hash fresh) && net_addr_equal (b_addr b) (b_addr fresh)) eqn:Em.
        -- injection E as <- <-. left. exists b. split; [done|]. split; [done|]. split; [|done].
           apply andb_true_iff in Em as [_ Em]. by apply net_addr_equal_spec in Em as [? _].
        -- assert (addr_bytes (b_addr b) <> addr_bytes (b_addr fresh)) as Hne.
           { intros Eb. destruct (tb_home _ Hok _ _ Hb Hu) as (Hbh & _). rewrite andb_false_iff in Em. destruct Em as [Em|Em].
             - rewrite Hbh, Hh, (hash_bytes _ _ Eb), Z.eqb_refl in Em. done.
             - rewrite (proj2 (net_addr_equal_spec (b_addr b) (b_addr fresh))) in Em; [done|]. by rewrite Eb. }
           eapply (IH (i + 1)); [lia|lia| |by apply stalest_step|exact E].
           intros j Hj. destruct (Z.eq_dec j i) as [->|]; [by exists b|apply Hp; lia].
      * injection E as <- <-. right. split; [done|]. split; [apply (passed_unknown i b); [lia|done|by right]|]. exists i, b.
        split; [lia|]. split; [done|]. split; [done|]. split; [|by rewrite Hu]. intros j Hj. destruct (Hp j Hj) as (x & Hx & Hxu & _). by exists x.
    + exfalso. apply lookup_ge_None in Hb. rewrite (tb_len _ Hok) in Hb. pose proof (slot_lt (b_hash fresh) i). lia.
Qed.
End probe.

(** ** A request and the table *)
Lemma monotonic_nonneg ts : 0 <= ts.1 -> 0 <= ts.2 -> nonneg (monotonic_seconds ts).
Proof.
  intros H1 H2. unfold monotonic_seconds. apply dadd_nonneg; [by apply of_int_nonneg|].
  change (of_int 1000000000) with (ltac:(let x := eval vm_compute in (of_int 1000000000) in exact x)). by apply ddiv_nonneg, of_int_nonneg.
Qed.

Section requests.
Context (g : limits).

(** Spending keeps the client of a bucket and gives it a time that is one. *)
Lemma spend_same now b ok retry b' :
  spend g now b = (ok, retry, b') -> now <> S754_nan -> b_last b <> S754_nan ->
  b_addr b' = b_addr b /\ b_hash b' = b_hash b /\ b_used b' = b_used b /\ b_last b' <> S754_nan.
Proof.
  intros E Hn Hl. assert (exists t l, refill g now b = mkBucket (b_addr b) (b_hash b) t l (b_used b) /\ l <> S754_nan) as (t & l & Er & Hl').
  { unfold refill. destruct (dlt _ _); [by eexists _, _|]. exists (b_tokens b), (b_last b). by destruct b. }
  unfold spend in E. rewrite Er in E. cbn in E. destruct (dle _ _); injection E as <- <- <-; done.
Qed.

Definition fresh_bucket (addr : sockaddr) (now : double) : bucket := mkBucket addr (net_addr_hash addr) (g_burst g) now true.

(** A request spends from the bucket of its client, a fresh one for a client
    that is not known, and touches no other bucket, except that a new client
    may take the place of the stalest of the sixteen of its full window. *)
Lemma allow_request_spec addr ts tbl ok retry tbl' :
  table_ok tbl -> addr_bytes addr <> [] -> 0 <= ts.1 -> 0 <= ts.2 -> allow_request g addr ts tbl = (ok, retry, tbl') ->
  let now := monotonic_seconds ts in let k := addr_bytes addr in
  table_ok tbl' /\
  (exists b b', (known tbl k b \/ b = fresh_bucket addr now /\ forall x, ~ known tbl k x) /\ spend g now b = (ok, retry, b') /\ known tbl' k b') /\
  (forall k' b, k' <> k -> known tbl' k' b -> known tbl k' b) /\
  (forall k' b, k' <> k -> known tbl k' b -> known tbl' k' b \/
     (forall x, ~ known tbl k x) /\
     forall j, 0 <= j < 16 -> exists b', tbl !! slot (net_addr_hash addr) j = Some b' /\ b_used b' = true /\ dlt (b_last b') (b_last b) = false).
Proof.
  intros Hok Hk H1 H2 E now k. unfold allow_request in E. fold now in E. set (fresh := fresh_bucket addr now).
  assert (now <> S754_nan) as Hnow by (apply nonneg_not_nan, monotonic_nonneg; done).
  change (acquire_bucket g addr now tbl) with (probe 16 0 fresh None tbl) in E. destruct (probe 16 0 fresh None tbl) as [s tbl1] eqn:Ep.
  assert (outcome tbl fresh s tbl1) as [(b & Hb & Hu & Ek & ->)|(-> & Hunk & i & b0 & Hi & Es & Hb0 & Hbefore & Hfull)].
  { eapply (probe_spec tbl fresh Hok Hk eq_refl 16 0 None); [done|done| |done|exact Ep]. intros j Hj. lia. }
  - rewrite Hb in E. destruct (spend g now b) as [[ok1 r1] b'] eqn:Esp. injection E as <- <- <-.
    destruct (tb_home _ Hok s b Hb Hu) as (Hbh & Hbl & i & Hi & Es & Hbefore).
    destruct (spend_same _ _ _ _ _ Esp Hnow Hbl) as (Ea & Eh & Eu & Hl'). pose proof (lookup_lt_Some _ _ _ Hb) as Hs.
    split; [|split; [|split]].
    + apply (insert_ok tbl s b' i); rewrite ?Eh, ?Ea; try done; [congruence|]. intros s' x Hne Hx Hxu Exb. exfalso. apply Hne.
      apply (tb_unique _ Hok s' s x b); try done. rewrite Exb, Ek. exact Hk.
    + exists b, b'. split; [left; by exists s|]. split; [done|]. exists s. rewrite list_lookup_insert_eq by done. split; [done|]. split; [congruence|]. by rewrite Ea.
    + intros k' x Hk' (s' & Hx & Hxu & Exk). destruct (decide (s' = s)) as [->|Hne].
      * rewrite list_lookup_insert_eq in Hx by done. injection Hx as <-. exfalso. apply Hk'. rewrite <- Exk, Ea. exact Ek.
      * rewrite list_lookup_insert_ne in Hx by done. by exists s'.
    + intros k' x Hk' (s' & Hx & Hxu & Exk). left. exists s'. rewrite list_lookup_insert_ne; [done|]. intros <-. rewrite Hb in Hx. injection Hx as <-. apply Hk'. by rewrite <- Exk.
  - assert (s < length tbl)%nat as Hs by (eapply lookup_lt_Some, Hb0). rewrite list_lookup_insert_eq in E by done.
    destruct (spend g now fresh) as [[ok1 r1] b'] eqn:Esp. injection E as <- <- <-. rewrite list_insert_insert_eq.
    destruct (spend_same _ _ _ _ _ Esp Hnow Hnow) as (Ea & Eh & Eu & Hl').
    split; [|split; [|split]].
    + apply (insert_ok tbl s b' i); rewrite ?Eh, ?Ea; try done. intros s' x Hne Hx Hxu Exb. exfalso. apply (Hunk x). by exists s'.
    + exists fresh, b'. split; [by right|]. split; [done|]. exists s. rewrite list_lookup_insert_eq by done. split; [done|]. split; [by rewrite Eu|]. by rewrite Ea.
    + intros k' x Hk' (s' & Hx & Hxu & Exk). destruct (decide (s' = s)) as [->|Hne].
      * rewrite list_lookup_insert_eq in Hx by done. injection Hx as <-. exfalso. apply Hk'. by rewrite <- Exk, Ea.
      * rewrite list_lookup_insert_ne in Hx by done. by exists s'.
    + intros k' x Hk' (s' & Hx & Hxu & Exk). destruct (decide (s' = s)) as [->|Hne].
      * right. split; [done|]. rewrite Hb0 in Hx. injection Hx as <-. by apply Hfull.
      * left. exists s'. by rewrite list_lookup_insert_ne.
Qed.
End requests.

(** ** Whole seconds *)
(** The ideal bucket: tokens and the time of the last refill are integers. *)
Definition ideal_refill (rps burst now : Z) (b : Z * Z) : Z * Z :=
  if b.2 <? now then (Z.min burst (b.1 + (now - b.2) * rps), now) else b.
Definition ideal_spend (rps burst now : Z) (b : Z * Z) : bool * (Z * Z) :=
  let '(t, l) := ideal_refill rps burst now b in if 1 <=? t then (true, (t - 1, l)) else (false, (t, l)).
Fixpoint ideal_run (rps burst : Z) (times : list Z) (b : Z * Z) : list bool :=
  match times with
  | [] => []
  | now :: times => let '(ok, b) := ideal_spend rps burst now b in ok :: ideal_run rps burst times b
  end.

(** The requests of one client, one after the other. *)
Fixpoint client_run (g : limits) (addr : sockaddr) (times : list Z) (tbl : list bucket) : list bool * list bucket :=
  match times with
  | [] => ([], tbl)
  | now :: times =>
      let '(ok, _, tbl) := allow_request g addr (now, 0) tbl in
      let '(oks, tbl) := client_run g addr times tbl in (ok :: oks, tbl)
  end.

Lemma monotonic_whole sec : 0 <= sec < 2 ^ 53 -> monotonic_seconds (sec, 0) = of_int sec.
Proof.
  intros Hs. unfold monotonic_seconds. cbn [fst snd]. change (ddiv (of_int 0) (of_int 1000000000)) with (of_int 0). rewrite dadd_exact by lia. by rewrite Z.add_0_r.
Qed.

(** A time before the last refill gives nothing. *)
Lemma elapsed_negative a b : 0 <= a < b -> b < 2 ^ 53 -> dlt (of_int 0) (dsub (of_int a) (of_int b)) = false.
Proof.
  intros Ha Hb. assert (forall m e, dlt (of_int 0) (binary_round_aux 53 1024 true m e loc_Exact) = false) as Hneg.
  { intros m e. unfold binary_round_aux. destruct (shr_fexp _ _ _ _ _) as [m1 e1]. destruct (shr_fexp _ _ _ _ _) as [m2 e2].
    destruct (shr_m m2); [done| |done]. by destruct (_ <=? _). }
  rewrite (of_int_canon b) by lia. destruct (Z.eq_dec a 0) as [->|Hna]; [done|]. rewrite (of_int_canon a) by lia.
  pose proof (bits_range a ltac:(lia)). pose proof (bits_range b ltac:(lia)). unfold dsub, canon. cbn [SFsub cond_Zopp].
  set (k := 53 - Z.min (bits a) (bits b)). replace (Z.min (bits a - 53) (bits b - 53)) with (- k) by lia. rewrite !canon_shl by lia.
  rewrite <- Z.mul_sub_distr_r. assert ((a - b) * 2 ^ k < 0) as Hlt by nia. destruct ((a - b) * 2 ^ k) as [|p|p]; try lia.
  cbn [binary_normalize]. unfold binary_round. destruct (shl_align _ _ _). apply Hneg.
Qed.

Section whole.
Context (en : bool) (rps burst : Z) (Hr : 1 <= rps < 2 ^ 31) (Hb : 1 <= burst < 2 ^ 31).
Definition whole_limits : limits := mkLimits en (of_int rps) (of_int burst).

(** [b] is the bucket with these integers. *)
Definition whole (b : bucket) (i : Z * Z) : Prop := b_tokens b = of_int i.1 /\ b_last b = of_int i.2.

Lemma refill_exact now b i :
  whole b i -> 0 <= i.1 <= burst -> 0 <= i.2 -> i.2 * rps < 2 ^ 52 -> 0 <= now -> now * rps < 2 ^ 52 ->
  whole (refill whole_limits (of_int now) b) (ideal_refill rps burst now i) /\
  0 <= (ideal_refill rps burst now i).1 <= burst /\ (ideal_refill rps burst now i).2 = Z.max i.2 now.
Proof using Hr Hb.
  intros [Ht Hl] H1 H2 H3 H4 H5. destruct i as [t l]. cbn [fst snd] in *.
  assert (l < 2 ^ 53 /\ now < 2 ^ 53) as [Hl53 Hn53] by nia.
  unfold refill, ideal_refill. rewrite Ht, Hl. cbn [fst snd whole_limits g_rps g_burst]. destruct (Z.ltb_spec l now) as [Hlt|Hge].
  - rewrite dsub_exact by lia. rewrite dlt_exact by lia. replace (0 <? now - l) with true by lia. cbv zeta.
    assert (0 <= (now - l) * rps < 2 ^ 52) by nia. rewrite dmul_exact by lia. rewrite dadd_exact by lia. rewrite dlt_exact by lia.
    split; [|cbn; lia]. destruct (Z.ltb_spec burst (t + (now - l) * rps)); (split; [cbn; f_equal; lia|done]).
  - replace (dlt (of_int 0) (dsub (of_int now) (of_int l))) with false; [split; [done|cbn; lia]|]. symmetry.
    destruct (Z.eq_dec now l) as [->|Hne]; [rewrite dsub_exact, Z.sub_diag by lia; done|]. apply elapsed_negative; lia.
Qed.

Lemma spend_exact now b i ok retry b' :
  whole b i -> 0 <= i.1 <= burst -> 0 <= i.2 -> i.2 * rps < 2 ^ 52 -> 0 <= now -> now * rps < 2 ^ 52 ->
  spend whole_limits (of_int now) b = (ok, retry, b') ->
  exists i', ideal_spend rps burst now i = (ok, i') /\ whole b' i' /\ 0 <= i'.1 <= burst /\ i'.2 = Z.max i.2 now.
Proof using Hr Hb.
  intros Hw H1 H2 H3 H4 H5 E. destruct (refill_exact now b i Hw H1 H2 H3 H4 H5) as ([Ht Hl] & Hrange & Hlast). unfold spend in E. unfold ideal_spend.
  destruct (ideal_refill rps burst now i) as [t l]. cbn [fst snd] in *. rewrite Ht, dle_exact in E by lia. destruct (Z.leb_spec 1 t).
  - apply pair_equal_spec in E as [[<- <-]%pair_equal_spec <-]. eexists. split; [done|]. split; [split; [cbn [b_tokens fst]; rewrite dsub_exact by lia; done|done]|]. cbn. lia.
  - apply pair_equal_spec in E as [[<- <-]%pair_equal_spec <-]. eexists. split; [done|]. split; [by split|]. done.
Qed.

Lemma client_run_known addr times b i tbl :
  table_ok tbl -> addr_bytes addr <> [] -> known tbl (addr_bytes addr) b -> whole b i ->
  0 <= i.1 <= burst -> 0 <= i.2 -> i.2 * rps < 2 ^ 52 -> Forall (fun t => 0 <= t /\ t * rps < 2 ^ 52) times ->
  (client_run whole_limits addr times tbl).1 = ideal_run rps burst times i.
Proof using Hr Hb.
  intros Hok Hk Hkn Hw H1 H2 H3 Ht. revert tbl b i Hok Hkn Hw H1 H2 H3. induction Ht as [|now times [Hn0 Hn1] Ht IH]; intros tbl b i Hok Hkn Hw H1 H2 H3; [done|].
  cbn [client_run ideal_run]. destruct (allow_request whole_limits addr (now, 0) tbl) as [[ok retry] tbl1] eqn:E.
  destruct (allow_request_spec whole_limits addr (now, 0) tbl ok retry tbl1 Hok Hk Hn0 ltac:(done) E) as (Hok1 & (b0 & b1 & Hb0 & Hs & Hk1) & _).
  assert (b0 = b) as -> by (destruct Hb0 as [Hb0|[_ Hno]]; [exact (known_unique _ _ _ _ Hok Hk Hb0 Hkn)|by destruct (Hno b)]).
  rewrite monotonic_whole in Hs by nia. destruct (spend_exact now b i ok retry b1 Hw H1 H2 H3 Hn0 Hn1 Hs) as (i' & Ei & Hw' & Hr1 & Hr2). rewrite Ei.
  assert (0 <= i'.2 /\ i'.2 * rps < 2 ^ 52) as [L1 L2] by (rewrite Hr2; split; [lia|nia]).
  specialize (IH tbl1 b1 i' Hok1 Hk1 Hw' Hr1 L1 L2). destruct (client_run whole_limits addr times tbl1) as [oks tbl2]. cbn [fst] in *. by rewrite IH.
Qed.

Lemma client_run_new addr t0 times tbl :
  table_ok tbl -> addr_bytes addr <> [] -> (forall x, ~ known tbl (addr_bytes addr) x) ->
  Forall (fun t => 0 <= t /\ t * rps < 2 ^ 52) (t0 :: times) ->
  (client_run whole_limits addr (t0 :: times) tbl).1 = ideal_run rps burst (t0 :: times) (burst, t0).
Proof using Hr Hb.
  intros Hok Hk Hno [[Hn0 Hn1] Ht]%list.Forall_cons.
  cbn [client_run ideal_run]. destruct (allow_request whole_limits addr (t0, 0) tbl) as [[ok retry] tbl1] eqn:E.
  destruct (allow_request_spec whole_limits addr (t0, 0) tbl ok retry tbl1 Hok Hk Hn0 ltac:(done) E) as (Hok1 & (b0 & b1 & Hb0 & Hs & Hk1) & _).
  assert (whole b0 (burst, t0)) as Hw0.
  { destruct Hb0 as [Hb0|[-> _]]; [by destruct (Hno b0)|]. rewrite monotonic_whole by nia. done. }
  rewrite monotonic_whole in Hs by nia.
  destruct (spend_exact t0 b0 (burst, t0) ok retry b1 Hw0 ltac:(cbn; lia) Hn0 Hn1 Hn0 Hn1 Hs) as (i' & Ei & Hw' & Hr1 & Hr2). rewrite Ei.
  cbn [snd] in Hr2. rewrite Z.max_id in Hr2. pose proof (client_run_known addr times b1 i' tbl1 Hok1 Hk Hk1 Hw' Hr1 ltac:(lia) ltac:(lia) Ht) as Hrun.
  destruct (client_run whole_limits addr times tbl1) as [oks tbl2]. cbn [fst] in *. by rewrite Hrun.
Qed.

(** ** What the ideal bucket admits *)
Definition admitted_count (oks : list bool) : Z := zlen (filter (fun b => b = true) oks).

Lemma ideal_bound t1 times i :
  0 <= i.1 <= burst -> Forall (fun t => t <= t1) times -> i.2 <= t1 ->
  admitted_count (ideal_run rps burst times i) <= i.1 + rps * (t1 - i.2).
Proof using Hr Hb.
  intros Hi Ht. revert i Hi. induction Ht as [|now times Hn Ht IH]; intros [t l] Hi Hl; cbn [fst snd] in *.
  { change (admitted_count (ideal_run rps burst [] (t, l))) with 0. nia. }
  cbn [ideal_run]. unfold ideal_spend, ideal_refill. cbn [fst snd].
  set (r := if l <? now then (Z.min burst (t + (now - l) * rps), now) else (t, l)).
  assert (0 <= r.1 <= burst /\ r.2 <= t1 /\ r.1 + rps * (t1 - r.2) <= t + rps * (t1 - l)) as (R1 & R2 & R3).
  { unfold r. destruct (Z.ltb_spec l now); cbn [fst snd]; [|lia]. split; [nia|]. split; [lia|]. nia. }
  destruct r as [t' l']. cbn [fst snd] in *. unfold admitted_count in *. destruct (Z.leb_spec 1 t'); rewrite filter_cons.
  - rewrite decide_True by done. rewrite zlen_cons. specialize (IH (t' - 1, l') ltac:(cbn; lia) ltac:(cbn; lia)). cbn [fst snd] in IH. lia.
  - rewrite decide_False by done. specialize (IH (t', l') ltac:(cbn; lia) ltac:(cbn; lia)). cbn [fst snd] in IH. lia.
Qed.

Lemma ideal_first times i : 0 <= i.1 <= burst -> Forall (fun b => b = true) (take (Z.to_nat i.1) (ideal_run rps burst times i)).
Proof using Hr Hb.
  revert i. induction times as [|now times IH]; intros [t l] Hi; cbn [fst snd] in *; [cbn [ideal_run]; rewrite take_nil; constructor|].
  cbn [ideal_run]. unfold ideal_spend, ideal_refill. cbn [fst snd].
  set (r := if l <? now then (Z.min burst (t + (now - l) * rps), now) else (t, l)).
  assert (t <= r.1 <= burst) as R1 by (unfold r; destruct (Z.ltb_spec l now); cbn [fst]; nia).
  destruct r as [t' l']. cbn [fst snd] in *. destruct (Z.eq_dec t 0) as [->|Hne]; [rewrite take_0; constructor|].
  replace (1 <=? t') with true by lia. replace (Z.to_nat t) with (S (Z.to_nat (t - 1))) by lia. cbn [take]. constructor; [done|].
  specialize (IH (t' - 1, l') ltac:(cbn; lia)). cbn [fst] in IH.
  replace (take (Z.to_nat (t - 1)) (ideal_run rps burst times (t' - 1, l'))) with
    (take (Z.to_nat (t - 1)) (take (Z.to_nat (t' - 1)) (ideal_run rps burst times (t' - 1, l')))) by (rewrite take_take; f_equal; lia).
  by apply Forall_take.
Qed.
End whole.

(** What the environment sets. *)
Definition configured_rps (e : environ) : Z := let r := env_int (str "RATE_LIMIT_RPS") 100 e in if r >? 0 then r else 100.
Definition configured_burst (e : environ) : Z := let r := env_int (str "RATE_LIMIT_BURST") 200 e in if r >? 0 then r else 200.

Lemma env_int_range key def e : fits_int def -> fits_int (env_int key def e).
Proof.
  intros Hd. unfold env_int. destruct (getenv key e) as [[|c v]|]; try done. destruct (strtoll (c :: v)) as [[[n|] [|]]|]; try done.
  destruct ((n <? -2147483648) || (n >? 2147483647)) eqn:E; [done|]. unfold fits_int. lia.
Qed.

Lemma configured_limits e :
  rate_limit_init e = whole_limits (env_bool (str "RATE_LIMIT_ENABLED") true e) (configured_rps e) (configured_burst e) /\
  1 <= configured_rps e < 2 ^ 31 /\ 1 <= configured_burst e < 2 ^ 31.
Proof.
  pose proof (env_int_range (str "RATE_LIMIT_RPS") 100 e) as H1. pose proof (env_int_range (str "RATE_LIMIT_BURST") 200 e) as H2.
  unfold fits_int in *. specialize (H1 ltac:(lia)). specialize (H2 ltac:(lia)). unfold rate_limit_init, whole_limits, configured_rps, configured_burst. cbv zeta.
  destruct (Z.gtb_spec (env_int (str "RATE_LIMIT_RPS") 100 e) 0), (Z.gtb_spec (env_int (str "RATE_LIMIT_BURST") 200 e) 0); (split; [done|]); lia.
Qed.
