(* ===== verification/Metrics.v ===== *)
(** * Metrics and statistics
      (common/src/metrics.c, common/src/stats.c, the pages of
      api/src/handlers.c, the metrics middleware of server/src/middleware.c)

    Request counters, the latency histogram and their Prometheus text. The
    counters are 64-bit atomics; an addition wraps. *)
From Stdlib Require Import String.
From S2P Require Import Prelude Text Double HttpTypes HttpText Connection HttpResponse Route Handlers.
From Stdlib Require Import SpecFloat.

Local Open Scope Z_scope.

(** ** Counters *)
Definition NUM_METHODS : Z := 10.
Definition NUM_CLASSES : Z := 6.
(** A decimal literal is the double nearest to its value. *)
Definition BUCKET_BOUNDS : list double :=
  map (fun '(n, d) => ddiv (of_int n) (of_int d))
    [(5, 10000); (1, 1000); (25, 10000); (5, 1000); (1, 100); (25, 1000); (5, 100); (1, 10); (25, 100); (5, 10); (1, 1); (25, 10); (5, 1); (10, 1)].
(** What [%g] prints of them. *)
Definition BUCKET_LABELS : list bytes :=
  map str ["0.0005"; "0.001"; "0.0025"; "0.005"; "0.01"; "0.025"; "0.05"; "0.1"; "0.25"; "0.5"; "1"; "2.5"; "5"; "10"]%string.

Record metrics := mkMetrics {
  g_requests : list (list Z); g_bucket : list Z; g_request_count : Z; g_duration_us : Z; g_start_time : Z }.
Definition metrics_init (now : Z) : metrics := mkMetrics (replicate 10 (replicate 6 0)) (replicate 14 0) 0 0 now.

Definition method_index (method : http_method) : nat :=
  match method with
  | HTTP_GET => 0 | HTTP_POST => 1 | HTTP_PUT => 2 | HTTP_DELETE => 3 | HTTP_HEAD => 4 | HTTP_OPTIONS => 5 | HTTP_PATCH => 6
  | HTTP_CONNECT => 7 | HTTP_TRACE => 8 | HTTP_UNKNOWN => 9
  end.
Definition METHODS : list http_method :=
  [HTTP_GET; HTTP_POST; HTTP_PUT; HTTP_DELETE; HTTP_HEAD; HTTP_OPTIONS; HTTP_PATCH; HTTP_CONNECT; HTTP_TRACE; HTTP_UNKNOWN].

Definition status_class (status : Z) : nat :=
  let cls := Z.quot status 100 in if (cls <? 0) || (cls >=? NUM_CLASSES) then 0 else Z.to_nat cls.

(** [atomic_fetch_add(p, n)] *)
Definition bump (n v : Z) : Z := u64 (v + n).

(** The first bucket whose bound the duration does not exceed. *)
Fixpoint find_bucket (d : double) (bounds : list double) : option nat :=
  match bounds with
  | [] => None
  | b :: bounds => if dle d b then Some 0%nat else S <$> find_bucket d bounds
  end.

Definition clamp_duration (d : double) : double := if dlt d (of_int 0) then of_int 0 else d.

Definition metrics_record_request (method : http_method) (status : Z) (duration : double) (m : metrics) : metrics :=
  let requests := alter (alter (bump 1) (status_class status)) (method_index method) (g_requests m) in
  let duration := clamp_duration duration in
  let bucket := match find_bucket duration BUCKET_BOUNDS with Some i => alter (bump 1) i (g_bucket m) | None => g_bucket m end in
  mkMetrics requests bucket (bump 1 (g_request_count m)) (bump (to_int (dmul duration (of_int 1000000))) (g_duration_us m)) (g_start_time m).

(** The middleware times the rest of the chain and counts what it answered.
    [start] and [finish] are the clock before and behind it. *)
Definition elapsed_seconds (start finish : Z * Z) : double :=
  dadd (of_int (finish.1 - start.1)) (ddiv (of_int (finish.2 - start.2)) (of_int 1000000000)).
Definition metrics_middleware (start finish : Z * Z) (next : handler) (conn : connection) (m : metrics) : metrics * option (Z * connection) :=
  let r := next conn in
  let conn' := match r with Some (_, conn) => conn | None => conn end in
  (metrics_record_request (req_method (conn_request conn')) (resp_status (conn_response conn')) (elapsed_seconds start finish) m, r).

(** ** Text *)
Definition class_label (c : nat) : bytes := dec (Z.of_nat c) ++ str "xx".

(** [%.6f] of a double that is not negative: the exact value to the nearest
    millionth, ties to even. *)
Definition millionths (x : double) : Z :=
  match x with
  | S754_finite _ m e =>
      if e >=? 0 then Zpos m * 1000000 * 2 ^ e else
      let d := 2 ^ (- e) in
      let q := Zpos m * 1000000 / d in
      let r := Zpos m * 1000000 mod d in
      if (d <? 2 * r) || ((d =? 2 * r) && Z.odd q) then q + 1 else q
  | _ => 0
  end.
Definition fixed6 (x : double) : bytes := dec (millionths x / 1000000) ++ str "." ++ dec_pad 6 (millionths x mod 1000000).

(** [%ld] *)
Definition dec_signed (z : Z) : bytes := if z <? 0 then str "-" ++ dec (- z) else dec z.

Definition LF : bytes := [10].
Definition label (name value : bytes) : bytes := name ++ str "=" ++ quoted value.

Definition request_lines (m : metrics) : list bytes :=
  concat (imap (fun i row => concat (imap (fun c v =>
    if v =? 0 then []
    else [str "codo_requests_total{" ++ label (str "method") (http_method_to_string (nth i METHODS HTTP_UNKNOWN)) ++ str "," ++
          label (str "status") (class_label c) ++ str "} " ++ dec v ++ LF]) row)) (g_requests m)).

(** Running totals. *)
Fixpoint running (acc : Z) (l : list Z) : list Z :=
  match l with [] => [] | v :: l => let acc := u64 (acc + v) in acc :: running acc l end.

Definition bucket_lines (m : metrics) : list bytes :=
  zip_with (fun b v => str "codo_request_duration_seconds_bucket{" ++ label (str "le") b ++ str "} " ++ dec v ++ LF) BUCKET_LABELS (running 0 (g_bucket m)).

Definition metrics_texts (now : Z) (m : metrics) : list bytes :=
  [str "# HELP codo_requests_total Total HTTP requests by method and status class." ++ LF ++ str "# TYPE codo_requests_total counter" ++ LF] ++
  request_lines m ++
  [str "# HELP codo_request_duration_seconds Handler chain latency." ++ LF ++ str "# TYPE codo_request_duration_seconds histogram" ++ LF] ++
  bucket_lines m ++
  [str "codo_request_duration_seconds_bucket{" ++ label (str "le") (str "+Inf") ++ str "} " ++ dec (g_request_count m) ++ LF ++
   str "codo_request_duration_seconds_sum " ++ fixed6 (ddiv (of_int (g_duration_us m)) (of_int 1000000)) ++ LF ++
   str "codo_request_duration_seconds_count " ++ dec (g_request_count m) ++ LF;
   str "# HELP codo_uptime_seconds Seconds since the server started." ++ LF ++ str "# TYPE codo_uptime_seconds gauge" ++ LF ++
   str "codo_uptime_seconds " ++ dec_signed (if g_start_time m =? 0 then 0 else now - g_start_time m) ++ LF].

Fixpoint append_all (size : Z) (buf : bytes) (texts : list bytes) : option bytes :=
  match texts with [] => Some buf | t :: texts => buf ← buf_appendf size buf t; append_all size buf texts end.

Definition metrics_format_prometheus (size now : Z) (m : metrics) : option bytes := append_all size [] (metrics_texts now m).

(** ** Network statistics *)
Record network_stats := mkNetStats {
  bytes_sent : Z; bytes_received : Z; packets_sent : Z; packets_received : Z; connections_accepted : Z; connections_closed : Z; errors : Z }.
Definition stats_record_connection_accepted (s : network_stats) : network_stats :=
  mkNetStats (bytes_sent s) (bytes_received s) (packets_sent s) (packets_received s) (bump 1 (connections_accepted s)) (connections_closed s) (errors s).
Definition stats_record_connection_closed (s : network_stats) : network_stats :=
  mkNetStats (bytes_sent s) (bytes_received s) (packets_sent s) (packets_received s) (connections_accepted s) (bump 1 (connections_closed s)) (errors s).
Definition stats_record_bytes_received (n : Z) (s : network_stats) : network_stats :=
  mkNetStats (bytes_sent s) (bump n (bytes_received s)) (packets_sent s) (bump 1 (packets_received s)) (connections_accepted s) (connections_closed s) (errors s).
Definition stats_record_bytes_sent (n : Z) (s : network_stats) : network_stats :=
  mkNetStats (bump n (bytes_sent s)) (bytes_received s) (bump 1 (packets_sent s)) (packets_received s) (connections_accepted s) (connections_closed s) (errors s).
Definition stats_record_error (s : network_stats) : network_stats :=
  mkNetStats (bytes_sent s) (bytes_received s) (packets_sent s) (packets_received s) (connections_accepted s) (connections_closed s) (bump 1 (errors s)).

Definition stats_text (s : network_stats) : bytes :=
  str "{" ++ quoted (str "bytes_sent") ++ str ":" ++ dec (bytes_sent s) ++ str "," ++
  quoted (str "bytes_received") ++ str ":" ++ dec (bytes_received s) ++ str "," ++
  quoted (str "packets_sent") ++ str ":" ++ dec (packets_sent s) ++ str "," ++
  quoted (str "packets_received") ++ str ":" ++ dec (packets_received s) ++ str "," ++
  quoted (str "connections_accepted") ++ str ":" ++ dec (connections_accepted s) ++ str "," ++
  quoted (str "connections_closed") ++ str ":" ++ dec (connections_closed s) ++ str "," ++
  quoted (str "errors") ++ str ":" ++ dec (errors s) ++ str "}".
Definition stats_format_json (size : Z) (s : network_stats) : option bytes :=
  if zlen (stats_text s) >=? size then None else Some (stats_text s).

(** ** Pages *)
Section pages.
Context (gzip : bytes -> option bytes) (server_name : bytes) (date : Z).

Definition api_stats_handler (s : network_stats) : handler := fun conn =>
  match stats_format_json 512 s with
  | None => Some (send_error_response gzip server_name date HTTP_INTERNAL_SERVER_ERROR (str "Stats too large") conn)
  | Some json => Some (send_json_response gzip server_name date HTTP_OK json conn)
  end.

Definition gauge_text (active total received : Z) : bytes :=
  str "# HELP codo_active_connections Currently open connections." ++ LF ++ str "# TYPE codo_active_connections gauge" ++ LF ++
  str "codo_active_connections " ++ dec active ++ LF ++
  str "# HELP codo_connections_total Connections accepted since start." ++ LF ++ str "# TYPE codo_connections_total counter" ++ LF ++
  str "codo_connections_total " ++ dec total ++ LF ++
  str "# HELP codo_requests_received_total Requests seen by the accept loop." ++ LF ++ str "# TYPE codo_requests_received_total counter" ++ LF ++
  str "codo_requests_received_total " ++ dec received ++ LF.

(** The page, or [None] when it does not fit. *)
Definition metrics_page (now active total received : Z) (m : metrics) : option bytes :=
  body ← metrics_format_prometheus 8192 now m;
  let extra := gauge_text active total received in
  if zlen extra >=? 8192 - zlen body then None else Some (body ++ extra).

Definition api_metrics_handler (now active total received : Z) (m : metrics) : handler := fun conn =>
  match metrics_page now active total received m with
  | None => Some (send_error_response gzip server_name date HTTP_INTERNAL_SERVER_ERROR (str "Metrics too large") conn)
  | Some body => Some (send_body_response gzip server_name date HTTP_OK (str "text/plain; version=0.0.4; charset=utf-8") body conn)
  end.
End pages.

(** ** The histogram *)
Lemma dle_dlt x y : x <> S754_nan -> y <> S754_nan -> dle x y = negb (dlt y x).
Proof.
  intros Hx Hy. unfold dle, dlt, SFleb, SFltb. destruct x as [sx|sx| |sx mx ex], y as [sy|sy| |sy my ey]; try done;
    destruct sx, sy; cbn; try done;
    change (Pos.compare_cont Eq ?a ?b) with (a ?= b)%positive; rewrite (Z.compare_antisym ex ey), (Pos.compare_antisym mx my);
    destruct (ex ?= ey), (mx ?= my)%positive; done.
Qed.
Lemma dle_not_nan x y : dle x y = true -> x <> S754_nan /\ y <> S754_nan.
Proof. unfold dle, SFleb. by destruct x as [[]|[]| |[] mx ex], y as [[]|[]| |[] my ey]. Qed.
Lemma dle_trans x y z : dle x y = true -> dle y z = true -> dle x z = true.
Proof.
  intros H1 H2. destruct (dle_not_nan _ _ H1) as [Hx Hy], (dle_not_nan _ _ H2) as [_ Hz]. rewrite dle_dlt in * by done.
  apply negb_true_iff in H1, H2. apply negb_true_iff. by eapply (dlt_false_trans z y x).
Qed.

Lemma bounds_sorted i j b c : BUCKET_BOUNDS !! i = Some b -> BUCKET_BOUNDS !! j = Some c -> (i <= j)%nat -> dle b c = true.
Proof.
  assert (forallb (fun i => forallb (fun j => negb (i <=? j)%nat ||
    match BUCKET_BOUNDS !! i, BUCKET_BOUNDS !! j with Some b, Some c => dle b c | _, _ => true end) (seq 0 14)) (seq 0 14) = true) as H by reflexivity.
  intros Hi Hj Hle. assert (length BUCKET_BOUNDS = 14)%nat as Hl by reflexivity. pose proof (lookup_lt_Some _ _ _ Hi). pose proof (lookup_lt_Some _ _ _ Hj).
  rewrite forallb_forall in H. specialize (H i ltac:(apply in_seq; lia)). rewrite forallb_forall in H. specialize (H j ltac:(apply in_seq; lia)).
  rewrite Hi, Hj in H. by replace (i <=? j)%nat with true in H by (symmetry; by apply Nat.leb_le).
Qed.

Lemma find_bucket_first d bounds :
  match find_bucket d bounds with
  | Some k => (exists b, bounds !! k = Some b /\ dle d b = true) /\ forall i b, (i < k)%nat -> bounds !! i = Some b -> dle d b = false
  | None => forall i b, bounds !! i = Some b -> dle d b = false
  end.
Proof.
  induction bounds as [|b bounds IH]; [by intros i b|]. cbn. destruct (dle d b) eqn:E; [split; [by exists b|lia]|].
  destruct (find_bucket d bounds) as [k|]; cbn.
  - destruct IH as [H1 H2]. split; [exact H1|]. intros [|i] c Hi Hc; [by injection Hc as <-|]. apply (H2 i); [lia|done].
  - intros [|i] c Hc; [by injection Hc as <-|]. by apply (IH i).
Qed.

(** A duration lands at or below a bucket exactly when it does not exceed its
    bound. *)
Lemma find_bucket_le d i b :
  BUCKET_BOUNDS !! i = Some b -> dle d b = match find_bucket d BUCKET_BOUNDS with Some k => bool_decide (k <= i)%nat | None => false end.
Proof.
  intros Hb. pose proof (find_bucket_first d BUCKET_BOUNDS) as H. destruct (find_bucket d BUCKET_BOUNDS) as [k|]; [|by apply (H i)].
  destruct H as [(c & Hc & Hd) H]. destruct (decide (k <= i)%nat) as [Hk|Hk].
  - rewrite bool_decide_true by done. eapply dle_trans; [exact Hd|]. by eapply bounds_sorted.
  - rewrite bool_decide_false by done. apply (H i); [lia|done].
Qed.

Definition zsum (l : list Z) : Z := foldr Z.add 0 l.

Lemma zsum_alter l k v n : l !! k = Some v -> zsum (take n (alter (Z.add 1) k l)) = zsum (take n l) + (if bool_decide (k < n)%nat then 1 else 0).
Proof.
  revert k n. induction l as [|x l IH]; intros [|k] [|n] Hk; try done.
  { change (alter (Z.add 1) 0%nat (x :: l)) with (1 + x :: l). cbn [take zsum foldr]. rewrite bool_decide_true by lia. unfold zsum. lia. }
  change (alter (Z.add 1) (S k) (x :: l)) with (x :: alter (Z.add 1) k l). cbn [take zsum foldr]. fold (zsum (take n (alter (Z.add 1) k l))). fold (zsum (take n l)).
  rewrite (IH k n Hk). rewrite (bool_decide_ext (S k < S n)%nat (k < n)%nat) by lia. lia.
Qed.

(** An observation: method, status and duration. *)
Definition record_all (obs : list (http_method * Z * double)) (m : metrics) : metrics :=
  foldl (fun m o => metrics_record_request o.1.1 o.1.2 o.2 m) m obs.
Definition count_if {A} (p : A -> bool) (l : list A) : Z := zlen (List.filter p l).

Lemma count_if_snoc {A} (p : A -> bool) l x : count_if p (l ++ [x]) = count_if p l + (if p x then 1 else 0).
Proof. unfold count_if. rewrite List.filter_app, zlen_app. cbn [List.filter]. by destruct (p x). Qed.
Lemma count_if_le {A} (p : A -> bool) l : 0 <= count_if p l <= zlen l.
Proof. induction l as [|x l IH] using rev_ind; [done|]. rewrite count_if_snoc, zlen_app. change (zlen [x]) with 1. destruct (p x); lia. Qed.

(** The counters after [obs]. *)
Record counted (obs : list (http_method * Z * double)) (m : metrics) : Prop := {
  ct_total : g_request_count m = zlen obs;
  ct_buckets : length (g_bucket m) = 14%nat;
  ct_below : forall i b, BUCKET_BOUNDS !! i = Some b -> zsum (take (S i) (g_bucket m)) = count_if (fun o => dle (clamp_duration o.2) b) obs;
  ct_range : forall v, v ∈ g_bucket m -> 0 <= v <= zlen obs;
  ct_table : forall i c, (i < 10)%nat -> (c < 6)%nat ->
    g_requests m !! i ≫= (fun row => row !! c) = Some (count_if (fun o => bool_decide (method_index o.1.1 = i) && bool_decide (status_class o.1.2 = c)) obs) }.

Lemma status_class_lt status : (status_class status < 6)%nat.
Proof. unfold status_class, NUM_CLASSES. destruct (_ || _) eqn:E; lia. Qed.
Lemma method_index_lt m : (method_index m < 10)%nat.
Proof. destruct m; cbn; lia. Qed.

Lemma alter_bump (l : list Z) (k : nat) : (forall v, v ∈ l -> 0 <= v < UINT64_MAX) -> alter (bump 1) k l = alter (Z.add 1) k l.
Proof.
  intros H. apply list_alter_ext; [|done]. intros v Hv%list_elem_of_lookup_2%H. unfold bump, u64, UINT64_MAX in *. rewrite uwrap_small by lia. lia.
Qed.

Lemma record_counted obs m method status d :
  zlen obs < UINT64_MAX -> counted obs m -> counted (obs ++ [(method, status, d)]) (metrics_record_request method status d m).
Proof.
  intros Hn [H1 H2 H3 H4 H5]. pose proof (zlen_nonneg obs). unfold metrics_record_request. set (dc := clamp_duration d).
  assert (forall k, alter (bump 1) k (g_bucket m) = alter (Z.add 1) k (g_bucket m)) as Hb by (intros k; apply alter_bump; intros v Hv%H4; lia).
  constructor; cbn [g_request_count g_bucket g_requests].
  - rewrite H1, zlen_app. unfold bump, u64, UINT64_MAX in *. rewrite uwrap_small by lia. done.
  - destruct (find_bucket dc BUCKET_BOUNDS); [by rewrite length_alter|done].
  - intros i b Hib. rewrite count_if_snoc. cbn [snd]. fold dc. rewrite (find_bucket_le dc i b Hib), <- (H3 i b Hib).
    pose proof (find_bucket_first dc BUCKET_BOUNDS) as Hf. destruct (find_bucket dc BUCKET_BOUNDS) as [k|]; [|lia]. rewrite Hb.
    destruct Hf as [(c & Hc & _) _]. apply lookup_lt_Some in Hc. change (length BUCKET_BOUNDS) with 14%nat in Hc.
    destruct (lookup_lt_is_Some_2 (g_bucket m) k) as [v Hv]; [lia|]. rewrite (zsum_alter _ _ v _ Hv).
    rewrite (bool_decide_ext (k < S i)%nat (k <= i)%nat) by lia. destruct (bool_decide (k <= i)%nat); lia.
  - intros v Hv. rewrite zlen_app. change (zlen [(method, status, d)]) with 1. destruct (find_bucket dc BUCKET_BOUNDS) as [k|]; [|specialize (H4 v Hv); lia].
    rewrite Hb in Hv. apply list_elem_of_lookup in Hv as [j Hj]. destruct (decide (j = k)) as [->|Hne].
    + rewrite list_lookup_alter_eq in Hj. apply fmap_Some in Hj as (w & Hw%list_elem_of_lookup_2%H4 & ->). lia.
    + rewrite list_lookup_alter_ne in Hj by done. apply list_elem_of_lookup_2, H4 in Hj. lia.
  - intros i c Hi Hc. rewrite count_if_snoc. cbn [fst snd]. specialize (H5 i c Hi Hc). apply bind_Some in H5 as (row & Hr & Hv).
    set (p := fun o : http_method * Z * double => _) in Hv |- *. pose proof (count_if_le p obs).
    destruct (decide (method_index method = i)) as [<-|Hm].
    + rewrite list_lookup_alter_eq, Hr. cbn [fmap option_fmap option_map mbind option_bind]. rewrite (bool_decide_true (method_index method = method_index method)) by done. cbn [andb].
      destruct (decide (status_class status = c)) as [<-|Hs].
      * rewrite list_lookup_alter_eq, Hv. rewrite bool_decide_true by done. cbn. unfold bump, u64, UINT64_MAX in *. by rewrite uwrap_small by lia.
      * rewrite list_lookup_alter_ne, Hv by done. rewrite bool_decide_false by done. by rewrite Z.add_0_r.
    + rewrite list_lookup_alter_ne, Hr by done. rewrite (bool_decide_false (method_index method = i)) by done. cbn [andb mbind option_bind]. by rewrite Hv, Z.add_0_r.
Qed.

Lemma init_counted now : counted [] (metrics_init now).
Proof.
  constructor; [done|done| |intros v [j [-> _]%(lookup_replicate 14 0)]%list_elem_of_lookup; done|].
  - intros i b Hb. apply lookup_lt_Some in Hb. change (length BUCKET_BOUNDS) with 14%nat in Hb. do 14 (destruct i as [|i]; [done|]). lia.
  - intros i c Hi Hc. cbn [g_requests metrics_init]. rewrite lookup_replicate_2 by done. cbn [mbind option_bind]. by rewrite lookup_replicate_2.
Qed.

Lemma record_all_counted obs now : zlen obs <= UINT64_MAX -> counted obs (record_all obs (metrics_init now)).
Proof.
  induction obs as [|[[me st] d] obs IH] using rev_ind; intros Hn; [apply init_counted|]. unfold record_all. rewrite foldl_app. cbn [foldl fst snd].
  rewrite zlen_app in Hn. change (zlen [(me, st, d)]) with 1 in Hn. apply record_counted; [lia|]. apply IH. lia.
Qed.

Lemma running_lookup l acc i v :
  (forall j, (j <= i)%nat -> 0 <= acc + zsum (take (S j) l) <= UINT64_MAX) -> l !! i = Some v -> running acc l !! i = Some (acc + zsum (take (S i) l)).
Proof.
  assert (forall x (l : list Z) n, zsum (take (S n) (x :: l)) = x + zsum (take n l)) as Hz by done.
  revert acc i. induction l as [|x l IH]; intros acc i Hr Hi; [done|]. cbn [running].
  assert (u64 (acc + x) = acc + x) as E.
  { specialize (Hr 0%nat ltac:(lia)). rewrite Hz, take_0 in Hr. change (zsum []) with 0 in Hr. unfold u64, UINT64_MAX in *. rewrite uwrap_small; lia. }
  rewrite E, Hz. destruct i as [|i]; [rewrite take_0; change (zsum []) with 0; cbn [lookup list_lookup]; f_equal; lia|].
  change ((acc + x :: running (acc + x) l) !! S i) with (running (acc + x) l !! i). rewrite (IH (acc + x) i); [f_equal; lia| |exact Hi].
  intros j Hj. specialize (Hr (S j) ltac:(lia)). rewrite Hz in Hr. lia.
Qed.

(** ** The page fits *)
Lemma append_all_spec size buf texts :
  zlen buf + zlen (concat texts) < size -> append_all size buf texts = Some (buf ++ concat texts).
Proof.
  revert buf. induction texts as [|t texts IH]; intros buf Hl; [by rewrite app_nil_r|]. cbn [append_all concat] in *. rewrite zlen_app in Hl.
  pose proof (zlen_nonneg t). pose proof (zlen_nonneg (concat texts)). unfold buf_appendf. replace (zlen buf >=? size) with false by lia.
  replace (zlen t >=? size - zlen buf) with false by lia. cbn [mbind option_bind]. rewrite IH by (rewrite zlen_app; lia). by rewrite app_assoc.
Qed.

Lemma concat_length_le (n : Z) (ls : list bytes) : (forall l, l ∈ ls -> zlen l <= n) -> zlen (concat ls) <= n * zlen ls.
Proof.
  induction ls as [|l ls IH]; intros H; [change (zlen (@nil bytes)) with 0; change (zlen (concat (@nil bytes))) with 0; lia|]. cbn [concat]. rewrite zlen_app, zlen_cons.
  assert (zlen l <= n) by (apply H; left). assert (zlen (concat ls) <= n * zlen ls) by (apply IH; intros; apply H; by right). lia.
Qed.

Lemma imap_length_le {A} (f : nat -> A -> list bytes) (l : list A) n :
  (forall i x, l !! i = Some x -> zlen (concat (f i x)) <= n) -> zlen (concat (concat (imap f l))) <= n * zlen l.
Proof.
  intros H. assert (concat (concat (imap f l)) = concat (map (@concat Z) (imap f l))) as -> by (clear; induction (imap f l) as [|x L IH]; [done|]; cbn; by rewrite concat_app, IH).
  replace (zlen l) with (zlen (map (@concat Z) (imap f l))) by (unfold zlen; by rewrite length_map, length_imap). apply concat_length_le.
  intros b (y & -> & [i Hi]%list_elem_of_lookup)%list_elem_of_fmap. rewrite list_lookup_imap in Hi. apply fmap_Some in Hi as (x & Hx & ->). by apply H.
Qed.

Lemma dec_length n : zlen (dec n) <= 20.
Proof.
  assert (forall fuel n acc, zlen (dec_loop fuel n acc) <= Z.of_nat fuel + zlen acc) as H.
  { clear n. induction fuel as [|fuel IH]; intros n acc; cbn [dec_loop]; [lia|]. destruct (n <? 10); [rewrite zlen_cons; lia|].
    specialize (IH (n / 10) ((48 + n mod 10) :: acc)). rewrite zlen_cons in IH. lia. }
  specialize (H 20%nat n []). exact H.
Qed.

(** The tables have their sizes. *)
Definition metrics_shape (m : metrics) : Prop := length (g_requests m) = 10%nat /\ forall row, row ∈ g_requests m -> length row = 6%nat.

Lemma method_name_length method : zlen (http_method_to_string method) <= 7.
Proof. by destruct method. Qed.

Ltac text_length :=
  repeat rewrite zlen_app;
  repeat match goal with |- context [zlen (str ?s)] => let n := eval vm_compute in (zlen (str s)) in change (zlen (str s)) with n end;
  change (zlen [34]) with 1; change (zlen LF) with 1.

Lemma request_lines_length m : metrics_shape m -> zlen (concat (request_lines m)) <= 5460.
Proof.
  intros [H1 H2]. unfold request_lines.
  assert (forall i row, g_requests m !! i = Some row -> zlen (concat (concat (imap (fun c v => if v =? 0 then [] else
    [str "codo_requests_total{" ++ label (str "method") (http_method_to_string (nth i METHODS HTTP_UNKNOWN)) ++ str "," ++
     label (str "status") (class_label c) ++ str "} " ++ dec v ++ LF]) row))) <= 546) as Hrow.
  { intros i row Hr. etrans; [apply (imap_length_le _ row 91)|].
    - intros c v _. destruct (v =? 0); [done|]. cbn [concat]. rewrite app_nil_r. unfold label, quoted, class_label. text_length.
      pose proof (method_name_length (nth i METHODS HTTP_UNKNOWN)). pose proof (dec_length v). pose proof (dec_length (Z.of_nat c)). lia.
    - unfold zlen. rewrite (H2 row) by (by eapply list_elem_of_lookup_2). lia. }
  etrans; [apply (imap_length_le _ _ 546), Hrow|]. unfold zlen. rewrite H1. lia.
Qed.

Lemma bucket_lines_length m : zlen (concat (bucket_lines m)) <= 1120.
Proof.
  unfold bucket_lines. etrans; [apply (concat_length_le 80)|].
  - intros l [j Hj]%list_elem_of_lookup. apply lookup_zip_with_Some in Hj as (b & v & -> & Hb & _).
    assert (zlen b <= 6) as Hlb.
    { apply list_elem_of_lookup_2 in Hb. assert (Forall (fun b => zlen b <= 6) BUCKET_LABELS) as H by (by apply (bool_decide_unpack _)).
      rewrite list.Forall_forall in H. by apply H. }
    unfold label, quoted. text_length. pose proof (dec_length v). lia.
  - assert (length (zip_with (fun b v => str "codo_request_duration_seconds_bucket{" ++ label (str "le") b ++ str "} " ++ dec v ++ LF) BUCKET_LABELS (running 0 (g_bucket m))) <= 14)%nat as H
      by (rewrite length_zip_with; change (length BUCKET_LABELS) with 14%nat; lia). unfold zlen. lia.
Qed.

Lemma metrics_texts_length now m : metrics_shape m -> zlen (concat (metrics_texts now m)) <= 7250.
Proof.
  intros Hm. unfold metrics_texts. rewrite !concat_app, !zlen_app. pose proof (request_lines_length m Hm). pose proof (bucket_lines_length m).
  assert (forall x, zlen (fixed6 x) <= 47) as Hfix.
  { intros x. unfold fixed6, dec_pad. text_length. rewrite zlen_replicate. pose proof (dec_length (millionths x / 1000000)). pose proof (dec_length (millionths x mod 1000000)). zl. }
  assert (forall z, zlen (dec_signed z) <= 21) as Hsig.
  { intros z. unfold dec_signed. destruct (z <? 0); [text_length|]; pose proof (dec_length z); pose proof (dec_length (- z)); lia. }
  cbn [concat]. rewrite !app_nil_r. unfold label, quoted. text_length. pose proof (dec_length (g_request_count m)).
  pose proof (Hfix (ddiv (of_int (g_duration_us m)) (of_int 1000000))). pose proof (Hsig (if g_start_time m =? 0 then 0 else now - g_start_time m)). lia.
Qed.

(** Counting keeps the sizes. *)
Lemma record_shape method status d m : metrics_shape m -> metrics_shape (metrics_record_request method status d m).
Proof.
  intros [H1 H2]. split; cbn [g_requests metrics_record_request]; [by rewrite length_alter|].
  intros row [j Hj]%list_elem_of_lookup. destruct (decide (j = method_index method)) as [->|Hne].
  - rewrite list_lookup_alter_eq in Hj. apply fmap_Some in Hj as (r & Hr & ->). rewrite length_alter. apply H2. by eapply list_elem_of_lookup_2.
  - rewrite list_lookup_alter_ne in Hj by done. apply H2. by eapply list_elem_of_lookup_2.
Qed.
Lemma record_all_shape obs now : metrics_shape (record_all obs (metrics_init now)).
Proof.
  induction obs as [|o obs IH] using rev_ind; [|unfold record_all; rewrite foldl_app; by apply record_shape].
  split; [done|]. intros row [j [-> _]%(lookup_replicate 10)]%list_elem_of_lookup. done.
Qed.

(** The page of any counters fits its buffer. *)
Lemma metrics_page_fits now active total received m :
  metrics_shape m -> metrics_page now active total received m = Some (concat (metrics_texts now m) ++ gauge_text active total received).
Proof.
  intros Hm. pose proof (metrics_texts_length now m Hm). unfold metrics_page, metrics_format_prometheus. rewrite append_all_spec by (change (zlen (@nil Z)) with 0; lia).
  cbn [mbind option_bind app]. assert (zlen (gauge_text active total received) <= 500) as Hg.
  { unfold gauge_text. text_length. pose proof (dec_length active). pose proof (dec_length total). pose proof (dec_length received). lia. }
  by replace (zlen (gauge_text active total received) >=? 8192 - zlen (concat (metrics_texts now m))) with false by lia.
Qed.
