(* ===== verification/App.v ===== *)
(** * The application: routes, chain, handlers, start
      (api/src/api.c, the route tables of todo_handlers.c and user_auth.c,
      register_default_middleware and logging_middleware of middleware.c,
      todo_cache_stats_handler)

    [app] is what the handlers share behind their locks and atomics. A request
    takes it through the chain of middlewares to the handler its route names;
    an [endpoint] is a handler's function pointer. Requests are whole steps:
    the locks make each access to the state one, and the interleavings of the
    handlers' inner steps are the subject of Todos and Lru. *)
From Stdlib Require Import String.
From Stdlib Require Import SpecFloat.
From S2P Require Import Prelude Text Double Lru Jwt TodoIndex TodoCache HttpTypes HttpText Connection HttpRequest HttpResponse Route Handlers Crypto Users Todos Selection Balancer Config RateLimit Metrics.

Local Open Scope Z_scope.

(** ** Routes *)
Inductive endpoint :=
  | api_hello | api_echo | api_status | api_stats | websocket_chat | api_metrics | api_healthz | api_readyz
  | todo_list | todo_create | todo_get | todo_update | todo_delete | todo_cache_stats
  | user_register | user_login | user_me | default_file.
#[global] Instance endpoint_eq_dec : EqDecision endpoint.
Proof. solve_decision. Defined.

(** What [calloc] will answer, and the routes so far; a route that cannot be
    allocated is left out, the return code is not looked at. *)
Definition mounted : Type := list bool * list (route endpoint).
Definition next_ok (mem : list bool) : bool * list bool := match mem with [] => (true, []) | b :: mem => (b, mem) end.
Definition mount (offload : bool) (pattern : bytes) (method : http_method) (h : endpoint) (m : mounted) : mounted :=
  let '(ok, mem) := next_ok m.1 in
  (mem, default m.2 (if offload then add_route_offloaded ok pattern method h m.2 else add_route ok pattern method h m.2)).

Definition todo_api_register_routes (m : mounted) : mounted :=
  let m := mount true TODO_COLLECTION HTTP_GET todo_list m in
  let m := mount true TODO_COLLECTION HTTP_POST todo_create m in
  let m := mount true (str "/api/todos/*") HTTP_GET todo_get m in
  let m := mount true (str "/api/todos/*") HTTP_PUT todo_update m in
  let m := mount true (str "/api/todos/*") HTTP_DELETE todo_delete m in
  mount false (str "/api/cache") HTTP_GET todo_cache_stats m.

Definition user_api_register_routes (m : mounted) : mounted :=
  let m := mount true (str "/api/auth/register") HTTP_POST user_register m in
  let m := mount true (str "/api/auth/login") HTTP_POST user_login m in
  mount false (str "/api/auth/me") HTTP_GET user_me m.

Definition api_mount (m : mounted) : mounted :=
  let m := mount false (str "/api/hello") HTTP_GET api_hello m in
  let m := mount false (str "/api/echo") HTTP_POST api_echo m in
  let m := mount false (str "/api/status") HTTP_GET api_status m in
  let m := mount false (str "/api/stats") HTTP_GET api_stats m in
  let m := mount false (str "/ws/chat") HTTP_GET websocket_chat m in
  let m := mount false (str "/metrics") HTTP_GET api_metrics m in
  let m := mount false (str "/healthz") HTTP_GET api_healthz m in
  let m := mount true (str "/readyz") HTTP_GET api_readyz m in
  user_api_register_routes (todo_api_register_routes m).

(** ** The state *)
Record app (D : Type) := mkApp {
  app_db : D; app_cache : option lru_cache; app_next_todo : Z; app_index_ready : bool;
  app_pool : secure_pool; app_next_user : Z;
  app_metrics : metrics; app_buckets : list bucket; app_log : list bytes }.
Arguments mkApp {D}.
Arguments app_db {D}.
Arguments app_cache {D}.
Arguments app_next_todo {D}.
Arguments app_index_ready {D}.
Arguments app_pool {D}.
Arguments app_next_user {D}.
Arguments app_metrics {D}.
Arguments app_buckets {D}.
Arguments app_log {D}.

Section views.
Context {D : Type}.
(** The part of the todo handlers and the part of the accounts; the database is
    in both. *)
Definition app_todos (s : app D) : todos D (option lru_cache) := mkTodos (app_db s) (app_cache s) (app_next_todo s) (app_index_ready s).
Definition set_todos (t : todos D (option lru_cache)) (s : app D) : app D :=
  mkApp (td_db t) (td_cache t) (next_todo_id t) (index_ready t) (app_pool s) (app_next_user s) (app_metrics s) (app_buckets s) (app_log s).
Definition app_accounts (s : app D) : accounts D := mkAccounts (app_db s) (app_pool s) (app_next_user s).
Definition set_accounts (a : accounts D) (s : app D) : app D :=
  mkApp (acc_db a) (app_cache s) (app_next_todo s) (app_index_ready s) (acc_pool a) (next_user_id a) (app_metrics s) (app_buckets s) (app_log s).
Definition set_app_db (d : D) (s : app D) : app D :=
  mkApp d (app_cache s) (app_next_todo s) (app_index_ready s) (app_pool s) (app_next_user s) (app_metrics s) (app_buckets s) (app_log s).
Definition set_metrics (m : metrics) (s : app D) : app D :=
  mkApp (app_db s) (app_cache s) (app_next_todo s) (app_index_ready s) (app_pool s) (app_next_user s) m (app_buckets s) (app_log s).
Definition set_buckets (b : list bucket) (s : app D) : app D :=
  mkApp (app_db s) (app_cache s) (app_next_todo s) (app_index_ready s) (app_pool s) (app_next_user s) (app_metrics s) b (app_log s).
Definition add_log (line : bytes) (s : app D) : app D :=
  mkApp (app_db s) (app_cache s) (app_next_todo s) (app_index_ready s) (app_pool s) (app_next_user s) (app_metrics s) (app_buckets s) (app_log s ++ [line]).
End views.

(** A handler over the state, and what may stand in front of it. *)
Definition shandler (D : Type) : Type := connection -> app D -> option (Z * connection) * app D.
Definition smiddleware (D : Type) : Type := shandler D -> shandler D.

(** What the environment answers during one request: the clocks around the two
    timing stages and at the limiter, the client's address, the salt, the cache's
    allocations, decoding buffers, and the counters of other threads. *)
Record answers := mkAnswers {
  an_now : Z; an_log_start : Z * Z; an_log_end : Z * Z; an_start : Z * Z; an_end : Z * Z; an_limit : Z * Z;
  an_addr : sockaddr; an_salt : option bytes; an_alloc : lru_alloc; an_decode : bytes -> bool;
  an_connections : Z; an_requests : Z; an_active : Z; an_net : network_stats }.

(** ** Text *)
(** [%.nf]: the exact value to the nearest digit, ties to even. *)
Definition scaled (scale : Z) (m : positive) (e : Z) : Z :=
  if e >=? 0 then Zpos m * scale * 2 ^ e else
  let d := 2 ^ (- e) in
  let q := Zpos m * scale / d in
  let r := Zpos m * scale mod d in
  if (d <? 2 * r) || ((d =? 2 * r) && Z.odd q) then q + 1 else q.
Definition fixed (n : nat) (x : double) : bytes :=
  let put (s : bool) (q : Z) := (if s then [45] else []) ++ dec (q / 10 ^ Z.of_nat n) ++ [46] ++ dec_pad (Z.of_nat n) (q mod 10 ^ Z.of_nat n) in
  match x with
  | S754_zero s => put s 0
  | S754_finite s m e => put s (scaled (10 ^ Z.of_nat n) m e)
  | S754_infinity s => (if s then [45] else []) ++ str "inf"
  | S754_nan => str "nan"
  end.

(** Control bytes become question marks; the copy holds what [uri] can. *)
Definition safe_uri (uri : bytes) : bytes := map (fun c => if (c <? 32) || (c =? 127) then 63 else c) (ztake 2047 uri).
Definition elapsed_ms (start finish : Z * Z) : double :=
  dadd (dmul (of_int (finish.1 - start.1)) (of_int 1000)) (ddiv (of_int (finish.2 - start.2)) (of_int 1000000)).

Section app.
Context (gzip : bytes -> option bytes) (server_name : bytes) (realloc_ok : Z -> bool).
Context (SHA1 : bytes -> bytes) (base64 : bytes -> option bytes).
Context (HMAC : bytes -> bytes -> option bytes) (PBKDF2 : bytes -> bytes -> Z -> Z -> option bytes).
Context (inet_ntop4 inet_ntop6 : bytes -> option bytes) (files : fs) (document_root : bytes).
Context {D : Type} `{KvStore D}.

(** What [register_default_middleware] and [user_api_init] read of the
    environment. *)
Record settings := mkSettings { set_origin : bytes; set_limits : limits; set_keys : list bytes; set_secret : bytes; set_ttl : Z }.
Context (cfg : settings).

(** ** Handlers *)
Definition todo_cache_stats_handler (now : Z) (cache : option lru_cache) : handler := fun conn =>
  let '(hits, misses, evictions, size) := match cache with Some c => lru_stats c | None => (0, 0, 0, 0) end in
  let lookups := u64 (hits + misses) in
  let hit_rate := if lookups =? 0 then of_int 0 else ddiv (of_int hits) (of_int lookups) in
  let json := str "{" ++ quoted (str "entries") ++ str ":" ++ dec size ++ str "," ++
    quoted (str "capacity") ++ str ":" ++ dec_signed (match cache with Some c => l_capacity c | None => 0 end) ++ str "," ++
    quoted (str "hits") ++ str ":" ++ dec hits ++ str "," ++ quoted (str "misses") ++ str ":" ++ dec misses ++ str "," ++
    quoted (str "evictions") ++ str ":" ++ dec evictions ++ str "," ++ quoted (str "hit_rate") ++ str ":" ++ fixed 4 hit_rate ++ str "}" in
  if zlen json >=? 256
  then Some (send_error_response gzip server_name now HTTP_INTERNAL_SERVER_ERROR (str "Stats too large") conn)
  else Some (send_json_response gzip server_name now HTTP_OK json conn).

Definition plain (h : handler) : shandler D := fun conn s => (h conn, s).
Definition on_todos (f : connection -> todos D (option lru_cache) -> Z * connection * todos D (option lru_cache)) : shandler D :=
  fun conn s => let '(r, t) := f conn (app_todos s) in (Some r, set_todos t s).
Definition on_accounts (f : connection -> accounts D -> Z * connection * accounts D) : shandler D :=
  fun conn s => let '(r, a) := f conn (app_accounts s) in (Some r, set_accounts a s).

(** The handler behind a function pointer. *)
Definition call (an : answers) (e : endpoint) : shandler D :=
  let now := an_now an in
  match e with
  | api_hello => plain (api_hello_handler gzip server_name now)
  | api_echo => plain (api_echo_handler gzip server_name now)
  | api_status => plain (api_status_handler gzip server_name now (an_connections an) (an_requests an) (an_active an))
  | api_stats => plain (api_stats_handler gzip server_name now (an_net an))
  | websocket_chat => plain (websocket_chat_handler gzip server_name now SHA1 base64)
  | api_metrics => fun conn s =>
      (api_metrics_handler gzip server_name now now (an_active an) (an_connections an) (an_requests an) (app_metrics s) conn, s)
  | api_healthz => plain (api_healthz_handler gzip server_name now)
  | api_readyz => fun conn s => let '(r, d) := api_readyz_handler gzip server_name now conn (app_db s) in (Some r, set_app_db d s)
  | todo_list => on_todos (todo_list_handler gzip server_name now realloc_ok (an_decode an))
  | todo_create => on_todos (todo_create_handler gzip server_name now (an_alloc an))
  | todo_get => on_todos (todo_get_handler gzip server_name now (an_alloc an))
  | todo_update => on_todos (todo_update_handler gzip server_name now (an_alloc an))
  | todo_delete => on_todos (todo_delete_handler gzip server_name now)
  | todo_cache_stats => fun conn s => (todo_cache_stats_handler now (app_cache s) conn, s)
  | user_register => on_accounts (user_register_handler gzip server_name now HMAC (set_secret cfg) (set_ttl cfg) PBKDF2 (an_salt an))
  | user_login => on_accounts (user_login_handler gzip server_name now HMAC (set_secret cfg) (set_ttl cfg) PBKDF2)
  | user_me => plain (user_me_handler gzip server_name now)
  | default_file => plain (default_file_handler gzip server_name now files document_root)
  end.

(** ** The chain *)
(** A middleware that keeps no state, in front of a handler that does. It calls
    what is next at most once (the [_gate] lemmas of AppProofs): asked with a next that never
    returns it shows whether it answers by itself, asked with one that hands
    the connection back, what it passes on. *)
Definition through (M : middleware) : smiddleware D := fun next conn s =>
  match M (fun _ => None) conn with
  | Some r => (Some r, s)
  | None => match M (fun c => Some (0, c)) conn with Some (_, c) => next c s | None => (None, s) end
  end.

Definition log_line (an : answers) (conn : connection) : bytes :=
  default (str "-") (net_addr_str inet_ntop4 inet_ntop6 (an_addr an)) ++ [32] ++
  http_method_to_string (req_method (conn_request conn)) ++ [32] ++ safe_uri (req_uri (conn_request conn)) ++
  str " -> " ++ dec_signed (resp_status (conn_response conn)) ++ str " (" ++
  fixed 2 (elapsed_ms (an_log_start an) (an_log_end an)) ++ str " ms)" ++ [10].

Definition logging_middleware (an : answers) : smiddleware D := fun next conn s =>
  let '(r, s) := next conn s in
  match r with Some (_, c) => (r, add_log (log_line an c) s) | None => (r, s) end.

Definition metrics_stage (an : answers) : smiddleware D := fun next conn s =>
  let '(r, s) := next conn s in
  match r with
  | Some _ => (r, set_metrics (metrics_middleware (an_start an) (an_end an) (fun _ => r) conn (app_metrics s)).1 s)
  | None => (r, s)
  end.

(** The table is updated under its lock before anything else runs. *)
Definition rate_limit_stage (an : answers) : smiddleware D := fun next conn s =>
  let run (n : handler) (c : connection) := rate_limit_middleware (set_limits cfg) gzip server_name (an_now an) (an_addr an) (an_limit an) n c (app_buckets s) in
  through (fun n c => (run n c).2) next conn (set_buckets (run (fun _ => None) conn).1 s).

Definition default_chain (an : answers) : list (smiddleware D) :=
  let add fn chain := default chain (add_middleware fn chain) in
  let now := an_now an in
  add (through (jwt_middleware gzip server_name now HMAC (set_secret cfg)))
    (add (through (auth_middleware gzip server_name now (set_keys cfg)))
      (add (rate_limit_stage an)
        (add (through (cors_middleware gzip server_name now (set_origin cfg)))
          (add (metrics_stage an) (add (logging_middleware an) []))))).

(** One request: the handler of its route at the end of the chain. *)
Definition serve (an : answers) (routes : list (route endpoint)) (conn : connection) (s : app D) : option (Z * connection) * app D :=
  let '(e, _) := resolve_handler (req_uri (conn_request conn)) (req_method (conn_request conn)) routes default_file in
  middleware_next (default_chain an) (call an e) conn s.
End app.

(** ** Start and stop *)
Section start.
Context {D : Type} `{KvStore D} (realloc_ok : Z -> bool).

(** [storage]: what [init_storage_engine] gives; [random]: the secret drawn when
    none is configured. *)
Definition api_init (storage : option D) (cache_ok : bool) (pool : option secure_pool) (random : option bytes) (now : Z) (e : environ)
    : option (app D * (bytes * Z)) :=
  d ← storage;
  let t := todo_api_init realloc_ok (lru_cache_create (env_int (str "TODO_CACHE_CAPACITY") 1024 e) cache_ok) d in
  match user_api_init pool [] (env_str (str "JWT_SECRET") [] e) random (env_int (str "JWT_TTL_SECONDS") 3600 e) (td_db t) with
  | (None, _) => None
  | (Some (a, secret, ttl), d) =>
      Some (mkApp d (td_cache t) (next_todo_id t) (index_ready t) (acc_pool a) (next_user_id a) (metrics_init now) table_zero [], (secret, ttl))
  end.

(** What the chain reads of the environment, behind [api_init]. *)
Definition register_default_middleware (cors_allow_origin : option bytes) (secret : bytes) (ttl : Z) (e : environ) : settings :=
  mkSettings (snprintf_s 256 (default (str "*") cors_allow_origin)) (rate_limit_init e) (auth_init (env_str (str "API_KEYS") [] e)) secret ttl.
End start.
