(* ===== verification/AppProofs.v ===== *)
(** * The application: what a request may reach and change

    Which routes are guarded and offloaded, what the chain of middlewares lets
    through, and that every endpoint keeps the state well formed and changes
    only what its caller owns. *)
From Stdlib Require Import String.
From stdpp Require Import sorting.
From S2P Require Import Prelude Text BtreePage Double Lru Json Jwt TodoIndex TodoCache HttpTypes HttpText Connection HttpRequest HttpResponse Route Handlers Crypto Users Todos TodoProofs Selection Balancer Config RateLimit Metrics App.

Local Open Scope Z_scope.

(** ** Routes *)
(** Endpoints that serve one user's data, and endpoints that touch storage, the
    disk or the key derivation. *)
Definition per_user (e : endpoint) : bool :=
  match e with todo_list | todo_create | todo_get | todo_update | todo_delete | user_me => true | _ => false end.
Definition blocking (e : endpoint) : bool :=
  match e with
  | todo_list | todo_create | todo_get | todo_update | todo_delete | user_register | user_login | api_readyz | default_file => true
  | _ => false
  end.

Definition good_route (r : route endpoint) : Prop :=
  (blocking (rt_handler r) = true -> rt_offload r = true) /\
  (per_user (rt_handler r) = true ->
     is_wildcard (rt_pattern r) = false /\ path_requires_jwt (rt_pattern r) = true \/ rt_pattern r = str "/api/todos/*").

Lemma mount_good off pattern method h m :
  good_route (mkRoute (snprintf_s 512 pattern) method h off) -> Forall good_route m.2 -> Forall good_route (mount off pattern method h m).2.
Proof.
  intros Hg Hm. unfold mount. destruct (next_ok m.1) as [ok mem]. cbn [snd].
  unfold add_route_offloaded, add_route. destruct ok, off; cbn [default from_option id rt_pattern rt_method rt_handler]; try done; by constructor.
Qed.

Lemma api_mount_good m : Forall good_route m.2 -> Forall good_route (api_mount m).2.
Proof.
  intros Hm. unfold api_mount, todo_api_register_routes, user_api_register_routes. cbv zeta.
  repeat (apply mount_good;
    [split; [first [intros _; reflexivity|cbn; congruence]|
             first [cbn; congruence|intros _; left; split; vm_compute; reflexivity|intros _; right; vm_compute; reflexivity]]|]).
  exact Hm.
Qed.

(** Whatever could be allocated: an endpoint that serves one user's data is
    reached on guarded paths only, and one that blocks is offloaded. *)
Lemma resolve_mounted mem uri method e off :
  resolve_handler uri method (api_mount (mem, [])).2 default_file = (e, off) ->
  (per_user e = true -> path_requires_jwt uri = true) /\ (blocking e = true -> off = true).
Proof.
  unfold resolve_handler. pose proof (api_mount_good (mem, []) ltac:(constructor)) as Hg. rewrite list.Forall_forall in Hg.
  pose proof (find_route_spec uri method (api_mount (mem, [])).2) as Hs.
  destruct (find_route uri method (api_mount (mem, [])).2) as [r|]; [|intros [= <- <-]; done].
  intros [= <- <-]. destruct Hs as (Hin & Hm & Hmatch). destruct (Hg r Hin) as [Hb Hp]. split; [|done].
  intros Hu. destruct (Hp Hu) as [[Hw Hj]|Hpat].
  - destruct Hmatch as [He|[Hx _]].
    + unfold exact_match in He. apply andb_true_iff in He as [_ He]. unfold streq in He. apply bool_decide_eq_true in He as <-. exact Hj.
    + unfold wildcard_match in Hx. rewrite Hw, andb_false_r in Hx. done.
  - destruct Hmatch as [He|[Hx _]].
    + unfold exact_match in He. rewrite Hpat in He. rewrite andb_false_r in He. done.
    + apply wildcard_match_spec in Hx as (_ & p & x & Ep & ->). rewrite Hpat in Ep.
      change (str "/api/todos/*") with (str "/api/todos/" ++ [42]) in Ep. apply app_inj_tail in Ep as [<- _].
      unfold path_requires_jwt. apply orb_true_iff. left. apply starts_with_spec.
      exists ([47] ++ x). reflexivity.
Qed.

(** ** Gates *)
Section gates.
Context (gzip : bytes -> option bytes) (server_name : bytes) (now : Z) {D : Type}.

Lemma through_pass M (next : shandler D) conn s c : (forall n, M n conn = n c) -> through M next conn s = next c s.
Proof using. intros Hm. unfold through. by rewrite !Hm. Qed.
Lemma through_stop M (next : shandler D) conn s r : (forall n, M n conn = Some r) -> through M next conn s = (Some r, s).
Proof using. intros Hm. unfold through. by rewrite Hm. Qed.

Lemma cors_gate origin conn :
  (req_method (conn_request conn) = HTTP_OPTIONS /\ exists r, forall next, cors_middleware gzip server_name now origin next conn = Some r) \/
  (req_method (conn_request conn) <> HTTP_OPTIONS /\ exists c, conn_request c = conn_request conn /\
     forall next, cors_middleware gzip server_name now origin next conn = next c).
Proof using.
  unfold cors_middleware. case_bool_decide as E; [left|right].
  - split; [done|]. eexists. intros next. reflexivity.
  - split; [done|]. eexists. split; [|intros next; reflexivity]. by destruct (request_header _ _).
Qed.

(** A request the API keys refuse. *)
Definition key_refused (keys : list bytes) (request : http_request) : Prop :=
  keys <> [] /\ method_is_protected (req_method request) = true /\ path_uses_jwt (req_uri request) = false /\
  forall k, presented_key request = Some k -> k <> [] -> key_is_valid keys k = false.

Lemma auth_gate keys conn :
  (key_refused keys (conn_request conn) /\ exists r, forall next, auth_middleware gzip server_name now keys next conn = Some r) \/
  (~ key_refused keys (conn_request conn) /\ forall next, auth_middleware gzip server_name now keys next conn = next conn).
Proof using.
  unfold auth_middleware, key_refused. set (q := conn_request conn).
  destruct (Z.eqb_spec (zlen keys) 0) as [Hz|Hz]; cbn [orb].
  { right. split; [|done]. intros [Hk _]. apply Hk. destruct keys; [done|zl]. }
  assert (keys <> []) as Hk by (by intros ->).
  destruct (method_is_protected (req_method q)); cbn [negb orb]; [|right; split; [by intros (_ & ? & _)|done]].
  destruct (path_uses_jwt (req_uri q)); [right; split; [by intros (_ & _ & ? & _)|done]|].
  destruct (presented_key q) as [[|b k]|].
  - left. split; [split_and!; try done; congruence|]. by eexists.
  - destruct (key_is_valid keys (b :: k)) eqn:Ev; cbn [negb].
    + right. split; [|done]. intros (_ & _ & _ & Hv). rewrite (Hv (b :: k)) in Ev; done.
    + left. split; [split_and!; try done; by intros ? [= <-]|]. by eexists.
  - left. split; [split_and!; try done|]. by eexists.
Qed.

(** The identity a request proves. *)
Definition proves (HMAC : bytes -> bytes -> option bytes) (secret : bytes) (request : http_request) (id : Z) (name : bytes) : Prop :=
  exists authz tok, request_header request (str "Authorization") = Some authz /\ bearer_value authz = Some tok /\
    jwt_verify (crypto_hmac_sha256 HMAC) secret tok now AUTH_USERNAME_SIZE = JWT_OK id name /\ id <> 0.

Lemma jwt_gate HMAC secret conn :
  let q := conn_request conn in
  (path_requires_jwt (req_uri q) = true /\ (forall id name, ~ proves HMAC secret q id name) /\
     exists r, forall next, jwt_middleware gzip server_name now HMAC secret next conn = Some r) \/
  (exists c, conn_request c = q /\ (forall next, jwt_middleware gzip server_name now HMAC secret next conn = next c) /\
     if path_requires_jwt (req_uri q) then exists name, proves HMAC secret q (auth_user_id c) name else auth_user_id c = 0).
Proof using.
  intros q. unfold jwt_middleware. change (conn_request (with_identity 0 [] conn)) with q.
  destruct (path_requires_jwt (req_uri q)) eqn:Ep; cbn [negb]; [|right; by exists (with_identity 0 [] conn)].
  destruct (request_header q (str "Authorization")) as [authz|] eqn:Eh; cbn [mbind option_bind].
  2:{ left. split; [done|]. split; [|by eexists]. intros id name (a & tok & Ha & _). congruence. }
  destruct (bearer_value authz) as [[|b tok]|] eqn:Eb.
  - left. split; [done|]. split; [|by eexists]. intros id name (a & tok & Ha & Hb & Hv & _). assert (tok = []) as -> by congruence.
    unfold jwt_verify in Hv. cbn [split_dot] in Hv. by destruct (zlen secret =? 0).
  - destruct (jwt_verify _ _ _ _ _) as [id name| |] eqn:Ev.
    2,3: left; split; [done|]; split; [|by eexists]; intros id name (a & t & Ha & Hb & Hv & _); assert (t = b :: tok) as -> by congruence; congruence.
    destruct (Z.eqb_spec id 0) as [->|Hid].
    + left. split; [done|]. split; [|by eexists]. intros id n (a & t & Ha & Hb & Hv & Hn). assert (t = b :: tok) as -> by congruence. congruence.
    + right. eexists. split; [|split; [intros next; reflexivity|]]; [done|]. exists name, authz, (b :: tok). done.
  - left. split; [done|]. split; [|by eexists]. intros id name (a & tok & Ha & Hb & _). congruence.
Qed.
End gates.

(** ** The chain *)
Section chain.
Context (gzip : bytes -> option bytes) (server_name : bytes) (HMAC : bytes -> bytes -> option bytes).
Context (inet_ntop4 inet_ntop6 : bytes -> option bytes) {D : Type} (cfg : settings).

(** The stages inside logging and metrics. *)
Definition inner (an : answers) (h : shandler D) : shandler D :=
  through (cors_middleware gzip server_name (an_now an) (set_origin cfg))
    (rate_limit_stage gzip server_name cfg an
      (through (auth_middleware gzip server_name (an_now an) (set_keys cfg))
        (through (jwt_middleware gzip server_name (an_now an) HMAC (set_secret cfg)) h))).

Lemma default_chain_stages an h :
  middleware_next (default_chain gzip server_name HMAC inet_ntop4 inet_ntop6 cfg an) h =
  logging_middleware inet_ntop4 inet_ntop6 an (metrics_stage an (inner an h)).
Proof using. reflexivity. Qed.

(** What is recorded of a request that was answered. *)
Definition observe (an : answers) (conn : connection) (s : app D) : app D :=
  add_log (log_line inet_ntop4 inet_ntop6 an conn)
    (set_metrics (metrics_record_request (req_method (conn_request conn)) (resp_status (conn_response conn))
                    (elapsed_seconds (an_start an) (an_end an)) (app_metrics s)) s).

Lemma chain_observes an h conn s :
  middleware_next (default_chain gzip server_name HMAC inet_ntop4 inet_ntop6 cfg an) h conn s =
  let '(r, s') := inner an h conn s in
  (r, match r with Some (_, c) => observe an c s' | None => s' end).
Proof using.
  rewrite default_chain_stages. unfold logging_middleware, metrics_stage. destruct (inner an h conn s) as [[[rc c]|] s']; reflexivity.
Qed.

(** The table of the limiter behind a request it sees, and its verdict. *)
Definition limiter (an : answers) (tbl : list bucket) : bool * list bucket :=
  if negb (g_enabled (set_limits cfg)) then (true, tbl) else
  let '(allowed, _, tbl) := allow_request (set_limits cfg) (an_addr an) (an_limit an) tbl in (allowed, tbl).

Lemma rate_limit_gate an conn tbl :
  let '(allowed, tbl') := limiter an tbl in
  if allowed then forall h (s : app D), app_buckets s = tbl -> rate_limit_stage gzip server_name cfg an h conn s = h conn (set_buckets tbl' s)
  else exists r, forall h (s : app D), app_buckets s = tbl -> rate_limit_stage gzip server_name cfg an h conn s = (Some r, set_buckets tbl' s).
Proof using.
  unfold limiter, rate_limit_stage, rate_limit_middleware. destruct (negb (g_enabled (set_limits cfg))); [intros h s ->; by apply through_pass|].
  destruct (allow_request _ _ _ _) as [[[] retry] tbl'] eqn:E; [|eexists]; intros h s ->; rewrite E; [by apply through_pass|by apply through_stop].
Qed.

(** Why a request does not reach its handler. *)
Inductive refusal (an : answers) (request : http_request) (tbl : list bucket) : Prop :=
  | preflight : req_method request = HTTP_OPTIONS -> refusal an request tbl
  | out_of_tokens : (limiter an tbl).1 = false -> refusal an request tbl
  | no_key : key_refused (set_keys cfg) request -> refusal an request tbl
  | no_token : path_requires_jwt (req_uri request) = true ->
      (forall id name, ~ proves (an_now an) HMAC (set_secret cfg) request id name) -> refusal an request tbl.

(** What holds where the handler runs on [c]. *)
Record admitted (an : answers) (request : http_request) (tbl : list bucket) (c : connection) : Prop := {
  ad_request : conn_request c = request;
  ad_method : req_method request <> HTTP_OPTIONS;
  ad_tokens : (limiter an tbl).1 = true;
  ad_key : ~ key_refused (set_keys cfg) request;
  ad_identity : if path_requires_jwt (req_uri request)
                then exists name, proves (an_now an) HMAC (set_secret cfg) request (auth_user_id c) name
                else auth_user_id c = 0 }.

Lemma admitted_not_refused an request tbl c : admitted an request tbl c -> ~ refusal an request tbl.
Proof using.
  intros [_ Hm Ht Hk Hi] [Ho|Ho|Ho|Hp Ho]; [done|congruence|done|]. rewrite Hp in Hi. destruct Hi as [name Hi]. by eapply Ho.
Qed.

Definition seen (an : answers) (request : http_request) (tbl : list bucket) : list bucket :=
  if bool_decide (req_method request = HTTP_OPTIONS) then tbl else (limiter an tbl).2.

(** The decision rests on the request and the limiter's table alone. *)
Lemma inner_cases an conn tbl :
  let q := conn_request conn in
  (exists c, admitted an q tbl c /\ forall h s, app_buckets s = tbl -> inner an h conn s = h c (set_buckets (seen an q tbl) s)) \/
  (refusal an q tbl /\ exists r, forall h s, app_buckets s = tbl -> inner an h conn s = (Some r, set_buckets (seen an q tbl) s)).
Proof using.
  intros q. assert (forall s : app D, app_buckets s = tbl -> set_buckets tbl s = s) as Hs by (by intros [] <-). unfold seen, inner.
  destruct (cors_gate gzip server_name (an_now an) (set_origin cfg) conn) as [(Hm & r & Hr)|(Hm & c1 & Hq1 & H1)].
  { right. split; [by constructor 1|]. exists r. intros h s E. rewrite (through_stop _ _ _ _ _ Hr). fold q in Hm. by rewrite bool_decide_true, Hs. }
  fold q in Hm, Hq1. rewrite bool_decide_false by done.
  pose proof (rate_limit_gate an c1 tbl) as Hl. destruct (limiter an tbl) as [[] tbl'] eqn:El; cycle 1.
  { right. split; [constructor 2; by rewrite El|]. destruct Hl as [r Hr]. exists r. intros h s E. by rewrite (through_pass _ _ _ _ _ H1), Hr. }
  destruct (auth_gate gzip server_name (an_now an) (set_keys cfg) c1) as [(Hk & r & Hr)|(Hk & H2)]; rewrite Hq1 in Hk.
  { right. split; [by constructor 3|]. exists r. intros h s E. by rewrite (through_pass _ _ _ _ _ H1), Hl, (through_stop _ _ _ _ _ Hr). }
  destruct (jwt_gate gzip server_name (an_now an) HMAC (set_secret cfg) c1) as [(Hp & Hno & r & Hr)|(c2 & Hq2 & H3 & Hid)].
  { rewrite Hq1 in *. right. split; [by constructor 4|]. exists r. intros h s E.
    by rewrite (through_pass _ _ _ _ _ H1), Hl, (through_pass _ _ _ _ _ H2), (through_stop _ _ _ _ _ Hr). }
  left. rewrite Hq1 in *. exists c2. split; [constructor; try done; by rewrite El|]. intros h s E.
  by rewrite (through_pass _ _ _ _ _ H1), Hl, (through_pass _ _ _ _ _ H2), (through_pass _ _ _ _ _ H3).
Qed.
End chain.

(** ** Accounts and todos in one database *)
Lemma user_key_foreign name : todo_row_key_parse (user_key name) = None /\ todo_index_key_parse (user_key name) = None.
Proof.
  split.
  - destruct (todo_row_key_parse (user_key name)) as [n|] eqn:E; [|done]. apply todo_row_key_parse_iff in E as (Hd & _).
    apply list.Forall_cons in Hd as [Hd _]. done.
  - destruct (todo_index_key_parse (user_key name)) as [[u t]|] eqn:E; [|done]. apply index_parse_iff in E as (E & _). done.
Qed.

Lemma accounts_inv_kept m m' next :
  (forall name, m' !! user_key name = m !! user_key name) -> accounts_inv m next -> accounts_inv m' next.
Proof.
  intros Hk [Hr Hi]. constructor.
  - intros name x. rewrite Hk. apply Hr.
  - intros n1 n2 u1 u2. unfold account. rewrite !Hk. apply Hi.
Qed.

Lemma accounts_inv_later m n n' : n <= n' -> accounts_inv m n -> accounts_inv m n'.
Proof.
  intros Hn [Hr Hi]. constructor; [|exact Hi]. intros name x Hx. destruct (Hr name x Hx) as (u & ? & ? & ? & ? & ?). exists u.
  split_and!; done || lia.
Qed.

(** A new account is no todo. *)
Lemma todo_repr_account m T next ready name v : todo_repr m T next ready -> todo_repr (<[user_key name := v]> m) T next ready.
Proof.
  destruct (user_key_foreign name) as [F1 F2]. intros [H1 H2 H3 H4 H5]. constructor; [| |done| |done].
  - intros id Hid. rewrite lookup_insert_ne; [by apply H1|]. intros E. by apply (not_row_key (user_key name) id F1 Hid).
  - intros k id Hk Hs. apply (H2 k id Hk). rewrite lookup_insert_ne in Hs; [done|]. intros <-. congruence.
  - intros Hr u id Hu Hid. rewrite lookup_insert_ne; [by apply H4|]. intros E. by apply (not_index_key (user_key name) u id F2 Hu Hid).
Qed.

Lemma coherent_account mc m name v : coherent mc m -> coherent mc (<[user_key name := v]> m).
Proof.
  destruct (user_key_foreign name) as [F1 _]. intros Hc k x Hk. destruct (Hc k x Hk) as [Hm Hp]. split; [|done].
  rewrite lookup_insert_ne; [done|]. intros <-. rewrite F1 in Hp. by destruct Hp.
Qed.

Section state.
Context {D : Type} `{KvStoreLaws D}.

(** The state holds the todos [T], index and cache in step, and well-formed accounts. *)
Record app_inv (s : app D) (T : gmap Z todo) : Prop := {
  ap_todos : service (app_todos s) T;
  ap_accounts : accounts_inv (kv_abs (app_db s)) (app_next_user s);
  ap_users : 0 < app_next_user s <= UINT64_MAX;
  ap_pool : exists live, pool_inv (app_pool s) live }.

(** The same with the todos stored, whatever the state of index and cache. *)
Record app_stored (s : app D) (T : gmap Z todo) : Prop := {
  as_todos : stored (app_todos s) T;
  as_accounts : accounts_inv (kv_abs (app_db s)) (app_next_user s);
  as_users : 0 < app_next_user s <= UINT64_MAX;
  as_pool : exists live, pool_inv (app_pool s) live }.

Lemma app_inv_stored s T : app_inv s T -> app_stored s T.
Proof using. intros [H1 H2 H3 H4]. constructor; try done. by apply service_stored. Qed.

Lemma app_stored_unique s T1 T2 : app_stored s T1 -> app_stored s T2 -> T1 = T2.
Proof using. intros H1 H2. exact (repr_unique _ _ _ _ _ _ _ (st_rows _ _ (as_todos _ _ H1)) (st_rows _ _ (as_todos _ _ H2))). Qed.

(** Todos that are not [uid]'s are the same. *)
Definition own_only (uid : Z) (T T' : gmap Z todo) : Prop :=
  forall id x, todo_owner x <> uid -> T !! id = Some x <-> T' !! id = Some x.
(** No account is changed or removed. *)
Definition accounts_stay (s s' : app D) : Prop :=
  forall name u, account (kv_abs (app_db s)) name = Some u -> account (kv_abs (app_db s')) name = Some u.
(** The counters, the limiter's table and the log are not the handlers' to write. *)
Definition same_record (s s' : app D) : Prop :=
  app_metrics s' = app_metrics s /\ app_buckets s' = app_buckets s /\ app_log s' = app_log s.
(** No call of the store failed unexplained; no insertion did. *)
Definition quiet (s s' : app D) : Prop := kv_faults (app_db s') = kv_faults (app_db s).
Definition untorn (s s' : app D) : Prop := kv_torn (app_db s') = kv_torn (app_db s).

Lemma own_only_refl uid T : own_only uid T T.
Proof using. by intros id x _. Qed.

(** What of the rest the todo handlers leave as it was. *)
Lemma todos_accounts s t' :
  others_kept (app_todos s) t' -> accounts_inv (kv_abs (app_db s)) (app_next_user s) ->
  accounts_inv (kv_abs (td_db t')) (app_next_user s) /\ accounts_stay s (set_todos t' s).
Proof using.
  intros Ho Ha.
  assert (forall name, kv_abs (td_db t') !! user_key name = kv_abs (app_db s) !! user_key name) as Hk
    by (intros name; destruct (user_key_foreign name); by apply Ho).
  split; [by apply (accounts_inv_kept (kv_abs (app_db s)))|]. intros name u. unfold account. cbn [app_db set_todos]. by rewrite Hk.
Qed.

Lemma app_inv_todos s T t' T' : app_inv s T -> service t' T' -> others_kept (app_todos s) t' -> app_inv (set_todos t' s) T'.
Proof using. intros [H1 H2 H3 H4] Hs Ho. destruct (todos_accounts _ _ Ho H2). constructor; try done. by destruct t'. Qed.
Lemma app_stored_todos s T t' T' : app_stored s T -> stored t' T' -> others_kept (app_todos s) t' -> app_stored (set_todos t' s) T'.
Proof using. intros [H1 H2 H3 H4] Hs Ho. destruct (todos_accounts _ _ Ho H2). constructor; try done. by destruct t'. Qed.

(** The accounts' part, with the same rows or one more account. *)
Definition accounts_step (s : app D) (a' : accounts D) : Prop :=
  kv_ok (acc_db a') /\ acc_pool a' = app_pool s /\ 0 < next_user_id a' <= UINT64_MAX /\ app_next_user s <= next_user_id a' /\
  (kv_abs (acc_db a') = kv_abs (app_db s) \/
   exists u, user_ok u /\ user_id u = app_next_user s /\ user_iterations u < 2 ^ 31 /\ app_next_user s < next_user_id a' /\
     kv_abs (app_db s) !! user_key (user_name u) = None /\
     kv_abs (acc_db a') = <[user_key (user_name u) := user_text u]> (kv_abs (app_db s))).

Lemma accounts_step_ok s a' :
  accounts_step s a' -> 0 < app_next_user s -> accounts_inv (kv_abs (app_db s)) (app_next_user s) ->
  accounts_inv (kv_abs (acc_db a')) (next_user_id a') /\ accounts_stay s (set_accounts a' s).
Proof using.
  intros (Hok & Hp & Hn & Hle & [Ha|(u & Hu & Hid & Hit & Hlt & Hnew & Ha)]) Hpos Hi.
  - rewrite Ha. split; [by eapply accounts_inv_later|]. intros name u. unfold account. cbn [app_db set_accounts]. by rewrite Ha.
  - rewrite Ha. split.
    + apply (accounts_inv_later _ (app_next_user s + 1)); [lia|]. by apply accounts_register.
    + intros name w Hw. cbn [app_db set_accounts]. rewrite Ha, account_insert. case_bool_decide as E; [|done]. subst name.
      unfold account in Hw. by rewrite Hnew in Hw.
Qed.

Lemma accounts_step_repr s a' T next ready :
  accounts_step s a' -> todo_repr (kv_abs (app_db s)) T next ready -> todo_repr (kv_abs (acc_db a')) T next ready.
Proof using. intros (_ & _ & _ & _ & [->|(u & _ & _ & _ & _ & _ & ->)]) Hr; [done|by apply todo_repr_account]. Qed.

Lemma app_inv_accounts s T a' : app_inv s T -> accounts_step s a' -> app_inv (set_accounts a' s) T.
Proof using.
  intros [[S1 S2 S3 S4] H2 H3 H4] Ha. destruct (accounts_step_ok _ _ Ha ltac:(lia) H2). pose proof (accounts_step_repr _ _ _ _ _ Ha S2).
  destruct Ha as (Hok & Hp & Hn & _ & Hd). constructor; cbn [set_accounts app_db app_next_user app_pool]; [|done|done|by rewrite Hp].
  constructor; cbn; [done|done|done|]. destruct S4 as (mc & Hc & Hco). exists mc. split; [done|].
  destruct Hd as [->|(u & _ & _ & _ & _ & _ & ->)]; [done|by apply coherent_account].
Qed.
Lemma app_stored_accounts s T a' : app_stored s T -> accounts_step s a' -> app_stored (set_accounts a' s) T.
Proof using.
  intros [[S1 S2 S3 S4] H2 H3 H4] Ha. destruct (accounts_step_ok _ _ Ha ltac:(lia) H2). pose proof (accounts_step_repr _ _ _ _ _ Ha S2).
  destruct Ha as (Hok & Hp & Hn & _ & Hd). constructor; cbn [set_accounts app_db app_next_user app_pool]; [|done|done|by rewrite Hp].
  by constructor.
Qed.
End state.

(** ** Every endpoint *)
Section endpoints.
Context (gzip : bytes -> option bytes) (server_name : bytes) (realloc_ok : Z -> bool).
Context (SHA1 : bytes -> bytes) (base64 : bytes -> option bytes).
Context (HMAC : bytes -> bytes -> option bytes) (PBKDF2 : bytes -> bytes -> Z -> Z -> option bytes).
Context (PBKDF2_key : forall pw salt it n k, PBKDF2 pw salt it n = Some k -> Forall is_byte k /\ zlen k = n).
Context (files : fs) (document_root : bytes).
Context {D : Type} `{KvStoreLaws D}.
Context (cfg : settings).

(** The allocator hands out memory that is free, salts are 16 random bytes, the
    counters are not exhausted, and the body is bytes. *)
Record sound (an : answers) (request : http_request) (s : app D) : Prop := {
  so_fresh : tc_fresh (an_alloc an) (app_cache s);
  so_salt : forall salt, an_salt an = Some salt -> Forall is_byte salt /\ zlen salt = PW_SALT_SIZE;
  so_todos : app_next_todo s < UINT64_MAX;
  so_users : app_next_user s < UINT64_MAX;
  so_body : forall b, req_body request = Some b -> Forall is_byte b }.

(** A registration adds at most the new account, unless it tears the store. *)
Lemma register_step now salt conn (s : app D) live r a' :
  kv_ok (app_db s) -> pool_inv (app_pool s) live -> 0 < app_next_user s < UINT64_MAX ->
  (forall x, salt = Some x -> Forall is_byte x /\ zlen x = PW_SALT_SIZE) ->
  user_register_handler gzip server_name now HMAC (set_secret cfg) (set_ttl cfg) PBKDF2 salt conn (app_accounts s) = (r, a') ->
  kv_torn (app_db s) < kv_torn (acc_db a') \/ accounts_step s a'.
Proof using PBKDF2_key.
  intros Hok Hp Hn Hsalt. unfold user_register_handler.
  assert (forall a1, kv_ok (acc_db a1) -> acc_pool a1 = app_pool s -> next_user_id a1 = app_next_user s \/ next_user_id a1 = app_next_user s + 1 ->
    kv_abs (acc_db a1) = kv_abs (app_db s) -> kv_torn (app_db s) < kv_torn (acc_db a1) \/ accounts_step s a1) as Hsame.
  { intros a1 Hok1 Hp1 Hn1 Ha1. right. split_and!; try done; try lia; by left. }
  destruct (parse_credentials gzip server_name now conn) as [c|[name pw]]; [intros [_ <-]%pair_equal_spec; apply Hsame; auto|].
  destruct (username_valid name) eqn:Ev; cbn [negb]; [|intros [_ <-]%pair_equal_spec; apply Hsame; auto].
  destruct (_ <? MIN_PASSWORD_LEN); [intros [_ <-]%pair_equal_spec; apply Hsame; auto|].
  destruct salt as [salt|]; [|intros [_ <-]%pair_equal_spec; apply Hsame; auto]. cbn [acc_pool app_accounts acc_db next_user_id].
  destruct (hash_password PBKDF2 pw salt PBKDF2_ITERATIONS (app_pool s)) as [hr p'] eqn:Eh.
  destruct (hash_password_spec PBKDF2 PBKDF2_key _ _ _ _ _ _ _ Hp Eh) as (-> & Hk & _).
  destruct hr as [hash|]; cbn [fmap option_fmap option_map]; [|intros [_ <-]%pair_equal_spec; apply Hsame; auto].
  cbn [acc_pool acc_db next_user_id]. rewrite u64_small by (unfold UINT64_MAX in *; lia). destruct (Hsalt salt eq_refl) as [Hsb Hsl].
  set (u := mkUser (app_next_user s) name salt hash PBKDF2_ITERATIONS).
  assert (user_ok u) as Hu.
  { subst u. constructor; cbn -[PBKDF2_ITERATIONS]; [lia|done|done|by eapply PBKDF2_key, Hk|]. unfold PBKDF2_ITERATIONS, UINT64_MAX. lia. }
  destruct (snprintf MAX_KEY_SIZE (user_key name)) as [key|] eqn:Ek; [|intros [_ <-]%pair_equal_spec; apply Hsame; auto].
  destruct (build_user_json MAX_VALUE_SIZE u) as [value|] eqn:Eu; [|intros [_ <-]%pair_equal_spec; apply Hsame; auto].
  assert (key = user_key name /\ value = user_text u) as [-> ->].
  { unfold build_user_json, snprintf in *. repeat case_match; by simplify_eq. }
  destruct (kv_begin (app_db s)) as [o d1] eqn:Eb. destruct (kv_begin_law _ _ _ Hok Eb) as (Hok1 & Ha1 & Hl1). ghost_after (kv_begin_mono (app_db s)) Eb.
  destruct o as [h|]; [|intros [_ <-]%pair_equal_spec; apply Hsame; auto].
  pose proof (user_storable u Hu) as Hst. destruct (kv_insert h (user_key name) (user_text u) d1) as [rc d2] eqn:Ei.
  set (a1 := mkAccounts (kv_free h (kv_commit h d2)) (app_pool s) (app_next_user s + 1)).
  assert (kv_torn (app_db s) < kv_torn (acc_db a1) \/ accounts_step s a1) as Hres.
  { pose proof (kv_insert_law h (user_key name) (user_text u) rc d1 d2 Hok1 Hl1 Hst Ei) as Hins. pose proof (finish_mono h d2) as Hm.
    destruct (kv_abs d1 !! user_key name) as [x|] eqn:Ex.
    - destruct Hins as (_ & Hok2 & Hl2 & Ha2). destruct (finish h d2 Hok2 Hl2) as [Hok3 Ha3]. apply Hsame; auto. cbn. congruence.
    - destruct Hins as [(_ & Hok2 & Hl2 & Ha2)|(_ & _ & Ht)]; [|left; cbn; ghosts]. destruct (finish h d2 Hok2 Hl2) as [Hok3 Ha3]. right.
      split_and!; try done; cbn [acc_db next_user_id a1]; [lia|lia|lia|]. right. exists u.
      split_and!; try done; [cbn; lia|by rewrite <- Ha1|by rewrite Ha3, Ha2, Ha1]. }
  intros Hr. assert (a' = a1) as ->; [|exact Hres]. revert Hr. clear. subst a1. repeat case_match; by intros [_ <-]%pair_equal_spec.
Qed.

Lemma login_step now conn (s : app D) live r a' :
  kv_ok (app_db s) -> pool_inv (app_pool s) live -> 0 < app_next_user s <= UINT64_MAX ->
  user_login_handler gzip server_name now HMAC (set_secret cfg) (set_ttl cfg) PBKDF2 conn (app_accounts s) = (r, a') ->
  accounts_step s a'.
Proof using PBKDF2_key.
  intros Hok Hp Hn Hr. destruct (parse_credentials gzip server_name now conn) as [c|[name pw]] eqn:Ec.
  - unfold user_login_handler in Hr. rewrite Ec in Hr. apply pair_equal_spec in Hr as [_ <-]. split_and!; try done; try (cbn; lia); by left.
  - destruct (user_login_spec gzip server_name HMAC _ _ PBKDF2 PBKDF2_key now conn (app_accounts s) name pw live r a' Hok Hp Ec Hr)
      as (Hok' & Ha & Hpool & Hid & _). cbn in Hid. split_and!; try done; try lia; by left.
Qed.

(** What an endpoint leaves behind, for the caller [uid]. *)
Definition keeps (uid : Z) (s s' : app D) (T T' : gmap Z todo) : Prop :=
  app_stored s' T' /\ own_only uid T T' /\ accounts_stay s s' /\ same_record s s'.

Lemma keeps_same uid s T : app_stored s T -> keeps uid s s T T.
Proof using. intros Hs. split_and!; [done|apply own_only_refl|by intros name u|done]. Qed.

(** A todo handler that changes at most the caller's own todos. *)
Definition own_change (uid : Z) (t t' : todos D (option lru_cache)) (T : gmap Z todo) : Prop :=
  exists T', stored t' T' /\ own_only uid T T' /\ others_kept t t'.

Lemma on_todos_keeps f conn (s : app D) T :
  (forall r t', f conn (app_todos s) = (r, t') -> untorn s (set_todos t' s) -> own_change (auth_user_id conn) (app_todos s) t' T) ->
  app_stored s T -> untorn s (on_todos f conn s).2 -> exists T', keeps (auth_user_id conn) s (on_todos f conn s).2 T T'.
Proof using.
  intros Hf Hs. unfold on_todos. destruct (f conn (app_todos s)) as [r t'] eqn:E. cbn [snd]. intros Hu. destruct (Hf _ _ eq_refl Hu) as (T' & Ht & Ho & Hk).
  exists T'. pose proof (app_stored_todos _ _ _ _ Hs Ht Hk). destruct (todos_accounts _ _ Hk (as_accounts _ _ Hs)) as [_ ?]. by split_and!.
Qed.

(** A todo of the caller's own written or removed. *)
Lemma own_insert uid T id y : (forall x, T !! id = Some x -> todo_owner x = uid) -> todo_owner y = uid -> own_only uid T (<[id := y]> T).
Proof using.
  intros Hx Hy j x Hne. destruct (decide (j = id)) as [->|Hj]; [|by rewrite lookup_insert_ne].
  rewrite lookup_insert_eq. split; [intros Hj; by destruct Hne; apply Hx|intros [= <-]; done].
Qed.
Lemma own_delete uid T id : (forall x, T !! id = Some x -> todo_owner x = uid) -> own_only uid T (delete id T).
Proof using.
  intros Hx j x Hne. destruct (decide (j = id)) as [->|Hj]; [|by rewrite lookup_delete_ne].
  rewrite lookup_delete_eq. split; [intros Hj; by destruct Hne; apply Hx|done].
Qed.

Lemma unchanged uid (t t' : todos D (option lru_cache)) T : stored t' T -> others_kept t t' -> own_change uid t t' T.
Proof using. intros Hs Ho. exists T. split; [done|]. split; [apply own_only_refl|done]. Qed.
Lemma refused uid (t : todos D (option lru_cache)) T : stored t T -> own_change uid t t T.
Proof using. intros Hs. by apply unchanged. Qed.

Lemma list_keeps now decode_ok conn t T r t' :
  stored t T -> u64_range (auth_user_id conn) ->
  todo_list_handler gzip server_name now realloc_ok decode_ok conn t = (r, t') -> own_change (auth_user_id conn) t t' T.
Proof using.
  intros Hs Hu Hr. destruct (todo_list_effect _ _ _ _ _ _ _ _ _ (st_db _ _ Hs) Hu Hr) as (Hp & Hc & _).
  apply unchanged; [by eapply stored_same|apply others_same, Hp].
Qed.

Lemma get_keeps now a conn t T r t' :
  stored t T -> tc_fresh a (td_cache t) ->
  todo_get_handler gzip server_name now a conn t = (r, t') -> own_change (auth_user_id conn) t t' T.
Proof using. intros Hs Hf Hr. destruct (todo_get_stored _ _ _ _ _ _ _ _ _ Hs Hf Hr) as (? & ? & _). by apply unchanged. Qed.

Lemma create_keeps now a conn t T r t' :
  stored t T -> tc_fresh a (td_cache t) -> next_todo_id t < UINT64_MAX -> u64_range (auth_user_id conn) ->
  (forall b, req_body (conn_request conn) = Some b -> Forall is_byte b) ->
  todo_create_handler gzip server_name now a conn t = (r, t') -> not_torn t t' -> own_change (auth_user_id conn) t t' T.
Proof using.
  intros Hs Hf Hn Hu Hb Hr Ht. destruct (todo_body (conn_request conn)) as [msg|[title completed]] eqn:Et.
  { rewrite (create_body_missing _ _ _ _ _ _ _ Et) in Hr. apply pair_equal_spec in Hr as [_ <-]. by apply refused. }
  destruct (todo_create_stored _ _ _ _ _ _ _ _ _ _ _ Hs Hf Hn Hu Et (todo_body_bytes _ _ _ Hb Et) Hr) as (_ & Hcase). destruct (Hcase Ht) as [Hk Hc]. clear Hcase. rename Hc into Hcase.
  assert (forall T', stored t' (<[next_todo_id t := mkTodo (auth_user_id conn) title completed]> T) -> T !! next_todo_id t = None -> T' = T -> own_change (auth_user_id conn) t t' T') as Hnew.
  { intros T' Hst HT ->. eexists. split; [exact Hst|]. split; [|done]. apply own_insert; [|done]. by rewrite HT. }
  destruct Hcase as [(_ & ? & ?)|[[_ ?]|[_ [?|[? ?]]]]]; [by eapply Hnew|by apply unchanged|by apply unchanged|by eapply Hnew].
Qed.

Lemma update_keeps now a conn t T r t' :
  stored t T -> tc_fresh a (td_cache t) -> u64_range (auth_user_id conn) ->
  (forall b, req_body (conn_request conn) = Some b -> Forall is_byte b) ->
  todo_update_handler gzip server_name now a conn t = (r, t') -> not_torn t t' -> own_change (auth_user_id conn) t t' T.
Proof using.
  intros Hs Hf Hu Hb Hr Ht. destruct (extract_id (req_uri (conn_request conn)) TODO_KEY_MAX) as [[key id]|] eqn:Ee.
  2:{ unfold todo_update_handler in Hr. rewrite Ee in Hr. apply pair_equal_spec in Hr as [_ <-]. by apply refused. }
  destruct (todo_body (conn_request conn)) as [msg|[title completed]] eqn:Et.
  { unfold todo_update_handler in Hr. rewrite Ee, Et in Hr. apply pair_equal_spec in Hr as [_ <-]. by apply refused. }
  destruct (todo_update_stored _ _ _ _ _ _ _ _ _ _ _ _ _ Hs Hf Hu Ee Et (todo_body_bytes _ _ _ Hb Et) Hr) as (_ & Hcase). destruct (Hcase Ht) as (Hk & [([x Hx] & _ & Hst)|[_ Hst]]); [|by apply unchanged].
  apply owned_some in Hx as (_ & HT & Ho). eexists. split; [exact Hst|]. split; [|done]. apply own_insert; [|done]. intros y Hy. congruence.
Qed.

Lemma delete_keeps now conn t T r t' :
  stored t T -> u64_range (auth_user_id conn) ->
  todo_delete_handler gzip server_name now conn t = (r, t') -> own_change (auth_user_id conn) t t' T.
Proof using.
  intros Hs Hu Hr. destruct (extract_id (req_uri (conn_request conn)) TODO_KEY_MAX) as [[key id]|] eqn:Ee.
  2:{ unfold todo_delete_handler in Hr. rewrite Ee in Hr. apply pair_equal_spec in Hr as [_ <-]. by apply refused. }
  destruct (todo_delete_stored _ _ _ _ _ _ _ _ _ _ Hs Hu Ee Hr) as (_ & Hk & [([x Hx] & _ & [Hst|Hst])|[_ Hst]]); [|by apply unchanged..].
  apply owned_some in Hx as (_ & HT & Ho). eexists. split; [exact Hst|]. split; [|done]. apply own_delete. intros y Hy. congruence.
Qed.

(** The readiness probe: the same pairs. *)
Lemma readyz_step now conn (s : app D) r d :
  kv_ok (app_db s) -> 0 < app_next_user s <= UINT64_MAX -> api_readyz_handler gzip server_name now conn (app_db s) = (r, d) ->
  set_app_db d s = set_accounts (mkAccounts d (app_pool s) (app_next_user s)) s /\ accounts_step s (mkAccounts d (app_pool s) (app_next_user s)).
Proof using.
  intros Hok Hn. unfold api_readyz_handler. destruct (kv_begin (app_db s)) as [o d1] eqn:Eb. destruct (kv_begin_law _ _ _ Hok Eb) as (Hok1 & Ha1 & Hl1).
  assert (forall d2, kv_ok d2 -> kv_abs d2 = kv_abs (app_db s) ->
    set_app_db d2 s = set_accounts (mkAccounts d2 (app_pool s) (app_next_user s)) s /\ accounts_step s (mkAccounts d2 (app_pool s) (app_next_user s))) as Hsame.
  { intros d2 Hok2 Ha2. split; [done|]. split_and!; cbn; try done; try lia; by left. }
  destruct o as [h|]; intros [_ <-]%pair_equal_spec; [|by apply Hsame]. destruct (finish h d1 Hok1 Hl1) as [Hok2 Ha2]. apply Hsame; [done|congruence].
Qed.

(** Counters, table and log are written by the chain alone. *)
Lemma call_record an e conn (s : app D) :
  same_record s (call gzip server_name realloc_ok SHA1 base64 HMAC PBKDF2 files document_root cfg an e conn s).2.
Proof using.
  destruct e; cbn [call plain snd]; try done; unfold on_todos, on_accounts;
    match goal with |- same_record _ (let '(_, _) := ?x in _).2 => by destruct x end.
Qed.

Abbreviation run := (call gzip server_name realloc_ok SHA1 base64 HMAC PBKDF2 files document_root cfg).

(** An endpoint on accounts or the probe. *)
Lemma accounts_keeps uid (s : app D) a' T : app_stored s T -> accounts_step s a' -> keeps uid s (set_accounts a' s) T T.
Proof using.
  intros Hs Ha. pose proof (app_stored_accounts _ _ _ Hs Ha). destruct Hs as [_ H2 H3 _]. destruct (accounts_step_ok _ _ Ha ltac:(lia) H2) as [_ ?].
  by split_and!.
Qed.

(** Whatever the endpoint and whichever calls fail, short of a torn store: the
    todos stay stored, only the caller's own change, and none at all on an
    endpoint that is not per user. *)
Lemma call_keeps an e conn (s : app D) T :
  app_stored s T -> sound an (conn_request conn) s -> u64_range (auth_user_id conn) -> untorn s (run an e conn s).2 ->
  exists T', keeps (auth_user_id conn) s (run an e conn s).2 T T' /\ (per_user e = false -> T' = T).
Proof using PBKDF2_key.
  intros Hs [S1 S3 S4 S5 S6] Hu. pose proof Hs as [V H2 H3 [live H4]]. pose proof (st_db _ _ V) as Hok.
  destruct e; cbn [call plain snd per_user]; try (intros _; exists T; split; [by apply keeps_same|done]).
  - destruct (api_readyz_handler _ _ _ _ _) as [r d] eqn:E. cbn [snd]. intros _. destruct (readyz_step _ _ _ _ _ Hok H3 E) as [-> Ha].
    exists T. split; [by apply accounts_keeps|done].
  - intros Ht. edestruct on_todos_keeps as [T' HT]; [intros r t' Hr _; by eapply list_keeps|exact Hs|exact Ht|]. by exists T'.
  - intros Ht. edestruct on_todos_keeps as [T' HT]; [intros r t' Hr Hx; by eapply create_keeps|exact Hs|exact Ht|]. by exists T'.
  - intros Ht. edestruct on_todos_keeps as [T' HT]; [intros r t' Hr _; by eapply get_keeps|exact Hs|exact Ht|]. by exists T'.
  - intros Ht. edestruct on_todos_keeps as [T' HT]; [intros r t' Hr Hx; by eapply update_keeps|exact Hs|exact Ht|]. by exists T'.
  - intros Ht. edestruct on_todos_keeps as [T' HT]; [intros r t' Hr _; by eapply delete_keeps|exact Hs|exact Ht|]. by exists T'.
  - unfold on_accounts. destruct (user_register_handler _ _ _ _ _ _ _ _ _ _) as [r a'] eqn:E. cbn [snd]. intros Ht.
    exists T. split; [|done]. destruct (register_step _ _ _ _ _ _ _ Hok H4 ltac:(lia) S3 E) as [?|Ha]; [unfold untorn in Ht; cbn in Ht; lia|by apply accounts_keeps].
  - unfold on_accounts. destruct (user_login_handler _ _ _ _ _ _ _ _ _) as [r a'] eqn:E. cbn [snd]. intros _.
    exists T. split; [|done]. apply accounts_keeps; [done|]. by eapply login_step.
Qed.

(** The same in step, when no call fails and the cache gets its memory. *)
Definition in_step_change (t t' : todos D (option lru_cache)) : Prop := exists T', service t' T' /\ others_kept t t'.

Lemma on_todos_in_step f conn (s : app D) T :
  (forall r t', f conn (app_todos s) = (r, t') -> quiet s (set_todos t' s) -> in_step_change (app_todos s) t') ->
  app_inv s T -> quiet s (on_todos f conn s).2 -> exists T', app_inv (on_todos f conn s).2 T'.
Proof using.
  intros Hf Hs. unfold on_todos. destruct (f conn (app_todos s)) as [r t'] eqn:E. cbn [snd]. intros Hu. destruct (Hf _ _ eq_refl Hu) as (T' & Ht & Ho).
  exists T'. by eapply app_inv_todos.
Qed.

Context (realloc_grants : forall n, realloc_ok n = true).

Lemma todos_in_step an e conn (s : app D) T :
  app_inv s T -> sound an (conn_request conn) s -> tc_granted (an_alloc an) -> u64_range (auth_user_id conn) -> quiet s (run an e conn s).2 ->
  match e with todo_list | todo_create | todo_get | todo_update | todo_delete => True | _ => False end ->
  exists T', app_inv (run an e conn s).2 T'.
Proof using realloc_grants.
  intros Hs [S1 S3 S4 S5 S6] Hg Hu Hq He. pose proof Hs as [V H2 H3 [live H4]]. pose proof (service_stored _ _ V) as W.
  destruct e; try done; cbn [call] in *; (eapply on_todos_in_step; [|exact Hs|exact Hq]); intros r t' Hr Hqt; unfold quiet in Hqt; cbn [app_db set_todos] in Hqt;
    change (app_db s) with (td_db (app_todos s)) in Hqt.
  - destruct (todo_list_effect _ _ _ _ _ _ _ _ _ (st_db _ _ W) Hu Hr) as ([] & Hc & _). exists T. split; [by eapply service_same|by apply others_same].
  - destruct (todo_body (conn_request conn)) as [msg|[title completed]] eqn:Et.
    { rewrite (create_body_missing _ _ _ _ _ _ _ Et) in Hr. apply pair_equal_spec in Hr as [_ <-]. by exists T. }
    pose proof (todo_body_bytes _ _ _ S6 Et) as Hb. destruct (todo_create_spec _ _ _ _ _ _ _ _ _ _ _ V S1 S4 Hu Et Hb Hr) as (Hnew & _ & Hcase).
    destruct (todo_create_stored _ _ _ _ _ _ _ _ _ _ _ W S1 S4 Hu Et Hb Hr) as [Hle Hk]. destruct Hk as [Hk _]; [unfold not_torn; ghosts|].
    destruct (_ <? MAX_VALUE_SIZE); [destruct Hcase as [?|[_ ?]]; [lia|by eexists]|destruct Hcase; by eexists].
  - destruct (extract_id (req_uri (conn_request conn)) TODO_KEY_MAX) as [[key id]|] eqn:Ee.
    2:{ unfold todo_get_handler in Hr. rewrite Ee in Hr. apply pair_equal_spec in Hr as [_ <-]. by exists T. }
    destruct (todo_get_spec _ _ _ _ _ _ _ _ _ _ _ V S1 Ee Hr) as (? & ? & _). by exists T.
  - destruct (extract_id (req_uri (conn_request conn)) TODO_KEY_MAX) as [[key id]|] eqn:Ee.
    2:{ unfold todo_update_handler in Hr. rewrite Ee in Hr. apply pair_equal_spec in Hr as [_ <-]. by exists T. }
    destruct (todo_body (conn_request conn)) as [msg|[title completed]] eqn:Et.
    { unfold todo_update_handler in Hr. rewrite Ee, Et in Hr. apply pair_equal_spec in Hr as [_ <-]. by exists T. }
    pose proof (todo_body_bytes _ _ _ S6 Et) as Hb. pose proof (todo_update_spec _ _ _ _ _ _ _ _ _ _ _ _ _ V S1 Hu Ee Et Hb Hr) as Hcase.
    destruct (todo_update_stored _ _ _ _ _ _ _ _ _ _ _ _ _ W S1 Hu Ee Et Hb Hr) as [Hle Hk]. destruct Hk as [Hk _]; [unfold not_torn; ghosts|].
    destruct (negb _); [destruct Hcase; by eexists|]. destruct Hcase as [?|Hcase]; [lia|]. destruct (owned _ _); destruct Hcase; eexists; eauto.
  - destruct (extract_id (req_uri (conn_request conn)) TODO_KEY_MAX) as [[key id]|] eqn:Ee.
    2:{ unfold todo_delete_handler in Hr. rewrite Ee in Hr. apply pair_equal_spec in Hr as [_ <-]. by exists T. }
    pose proof (todo_delete_spec _ _ _ _ _ _ _ _ _ _ V Hu Ee Hr) as Hcase.
    destruct (todo_delete_stored _ _ _ _ _ _ _ _ _ _ W Hu Ee Hr) as (_ & Hk & _).
    destruct Hcase as [?|Hcase]; [lia|]. destruct (owned _ _); destruct Hcase; eexists; eauto.
Qed.

(** Every endpoint keeps a state in step in step, when no call of the store
    fails and the cache gets its memory. *)
Lemma call_in_step an e conn (s : app D) T :
  app_inv s T -> sound an (conn_request conn) s -> tc_granted (an_alloc an) -> u64_range (auth_user_id conn) ->
  quiet s (run an e conn s).2 -> untorn s (run an e conn s).2 -> exists T', app_inv (run an e conn s).2 T'.
Proof using realloc_grants PBKDF2_key.
  intros Hs Hso Hg Hu Hq Ht. destruct (match e with todo_list | todo_create | todo_get | todo_update | todo_delete => true | _ => false end) eqn:Ee.
  { apply (todos_in_step an e conn s T); try done. by destruct e. }
  pose proof Hso as [S1 S3 S4 S5 S6]. pose proof Hs as [V H2 H3 [live H4]]. pose proof (sv_db _ _ V) as Hok.
  exists T. revert Hq Ht. destruct e; try done; cbn [call plain snd]; try (by intros _ _).
  - destruct (api_readyz_handler _ _ _ _ _) as [r d] eqn:E. cbn [snd]. intros _ _. destruct (readyz_step _ _ _ _ _ Hok H3 E) as [-> Ha]. by apply app_inv_accounts.
  - unfold on_accounts. destruct (user_register_handler _ _ _ _ _ _ _ _ _ _) as [r a'] eqn:E. cbn [snd]. intros _ Ht.
    destruct (register_step _ _ _ _ _ _ _ Hok H4 ltac:(lia) S3 E) as [?|Ha]; [unfold untorn in Ht; cbn in Ht; lia|by apply app_inv_accounts].
  - unfold on_accounts. destruct (user_login_handler _ _ _ _ _ _ _ _ _) as [r a'] eqn:E. cbn [snd]. intros _ _.
    apply app_inv_accounts; [done|]. by eapply login_step.
Qed.
End endpoints.

(** ** What an answer depends on *)
(** The two states hold the same todos of [uid]. *)
Definition same_own (uid : Z) (T1 T2 : gmap Z todo) : Prop :=
  forall id x, todo_owner x = uid -> T1 !! id = Some x <-> T2 !! id = Some x.

Lemma owned_same uid T1 T2 key id : same_own uid T1 T2 -> owned uid (at_key T1 key id) = owned uid (at_key T2 key id).
Proof.
  intros Hs. apply option_eq. intros x.
  assert (forall T, owned uid (at_key T key id) = Some x <-> key = dec id /\ T !! id = Some x /\ todo_owner x = uid) as H.
  { intros T. split; [apply owned_some|]. intros (-> & HT & <-). unfold at_key. rewrite bool_decide_true, HT by done. cbn. by rewrite Z.eqb_refl. }
  rewrite !H. split; intros (Hk & HT & Hu); split_and!; try done; by apply (Hs id x Hu).
Qed.

Lemma user_ids_same uid T1 T2 l1 l2 : same_own uid T1 T2 -> user_ids T1 uid l1 -> user_ids T2 uid l2 -> l1 = l2.
Proof.
  intros Hs [S1 E1] [S2 E2].
  assert (forall l, StronglySorted Z.lt l -> NoDup l) as Hnd.
  { induction 1 as [|a l Hl IH Ha]; [constructor|]. constructor; [|done]. intros Hin. rewrite list.Forall_forall in Ha. specialize (Ha a Hin). lia. }
  assert (AntiSymm (=) Z.lt) by (intros x y ? ?; lia). apply (StronglySorted_unique Z.lt); [done|done|]. apply NoDup_Permutation; [by apply Hnd..|].
  intros id. rewrite E1, E2. split; intros (x & HT & Hx); exists x; (split; [|done]); by apply (Hs id x Hx).
Qed.

Lemma rows_of_same uid T1 T2 ids : same_own uid T1 T2 -> user_ids T1 uid ids -> rows_of T1 ids = rows_of T2 ids.
Proof.
  intros Hs [_ Hi]. assert (forall l, (forall id, id ∈ l -> id ∈ ids) -> rows_of T1 l = rows_of T2 l) as H; [|by apply H].
  induction l as [|id l IH]; intros Hl; [done|]. unfold rows_of. cbn [omap list_omap].
  destruct (proj1 (Hi id) (Hl id (list_elem_of_here _ _))) as (x & HT & Hx). rewrite HT, (proj1 (Hs id x Hx) HT). cbn [fmap option_fmap option_map].
  f_equal. apply IH. intros j Hj. apply Hl. by apply list_elem_of_further.
Qed.

Section private.
Context (gzip : bytes -> option bytes) (server_name : bytes) (realloc_ok : Z -> bool) (realloc_grants : forall n, realloc_ok n = true).
Context (SHA1 : bytes -> bytes) (base64 : bytes -> option bytes).
Context (HMAC : bytes -> bytes -> option bytes) (PBKDF2 : bytes -> bytes -> Z -> Z -> option bytes).
Context (files : fs) (document_root : bytes).
Context {D : Type} `{KvStoreLaws D}.
Context (cfg : settings).

Definition reads_own (e : endpoint) : bool := match e with todo_list | todo_get | todo_update | todo_delete => true | _ => false end.

(** Each handler, in two states with the same todos of the caller. *)
Lemma list_private now decode_ok conn (t1 t2 t1' t2' : todos D (option lru_cache)) T1 T2 r1 r2 :
  service t1 T1 -> service t2 T2 -> u64_range (auth_user_id conn) -> same_own (auth_user_id conn) T1 T2 ->
  todo_list_handler gzip server_name now realloc_ok decode_ok conn t1 = (r1, t1') -> no_faults t1 t1' ->
  todo_list_handler gzip server_name now realloc_ok decode_ok conn t2 = (r2, t2') -> no_faults t2 t2' -> r1 = r2.
Proof using realloc_grants.
  intros V1 V2 Hu Hown E1 Q1 E2 Q2. unfold no_faults in *.
  destruct (todo_list_spec _ _ _ _ _ _ _ _ _ _ V1 Hu (parse_todo_filter_offset _ _) E1) as [_ C1].
  destruct (todo_list_spec _ _ _ _ _ _ _ _ _ _ V2 Hu (parse_todo_filter_offset _ _) E2) as [_ C2].
  destruct (C1 realloc_grants) as [?|(i1 & I1 & ->)]; [lia|]. destruct (C2 realloc_grants) as [?|(i2 & I2 & ->)]; [lia|].
  rewrite <- (user_ids_same _ _ _ _ _ Hown I1 I2). by rewrite (rows_of_same _ _ _ _ Hown I1).
Qed.

Lemma get_private now a conn (t1 t2 t1' t2' : todos D (option lru_cache)) T1 T2 r1 r2 :
  service t1 T1 -> service t2 T2 -> tc_fresh a (td_cache t1) -> tc_fresh a (td_cache t2) -> same_own (auth_user_id conn) T1 T2 ->
  todo_get_handler gzip server_name now a conn t1 = (r1, t1') -> no_faults t1 t1' ->
  todo_get_handler gzip server_name now a conn t2 = (r2, t2') -> no_faults t2 t2' -> r1 = r2.
Proof using.
  intros V1 V2 F1 F2 Hown E1 Q1 E2 Q2. unfold no_faults in *.
  destruct (extract_id (req_uri (conn_request conn)) TODO_KEY_MAX) as [[key id]|] eqn:Ee; [|unfold todo_get_handler in E1, E2; rewrite Ee in E1, E2; congruence].
  destruct (todo_get_spec _ _ _ _ _ _ _ _ _ _ _ V1 F1 Ee E1) as (_ & _ & [->|[? _]]); [|lia].
  destruct (todo_get_spec _ _ _ _ _ _ _ _ _ _ _ V2 F2 Ee E2) as (_ & _ & [->|[? _]]); [|lia].
  pose proof (owned_same _ _ _ key id Hown) as Ho. unfold shown, owned in *.
  destruct (at_key T1 key id) as [x1|], (at_key T2 key id) as [x2|]; cbn [mbind option_bind] in Ho; try done;
    repeat case_match; try done; simplify_eq; done.
Qed.

Lemma update_private now a conn (t1 t2 t1' t2' : todos D (option lru_cache)) T1 T2 r1 r2 :
  service t1 T1 -> service t2 T2 -> tc_fresh a (td_cache t1) -> tc_fresh a (td_cache t2) -> u64_range (auth_user_id conn) ->
  (forall b, req_body (conn_request conn) = Some b -> Forall is_byte b) -> same_own (auth_user_id conn) T1 T2 ->
  todo_update_handler gzip server_name now a conn t1 = (r1, t1') -> no_faults t1 t1' ->
  todo_update_handler gzip server_name now a conn t2 = (r2, t2') -> no_faults t2 t2' -> r1 = r2.
Proof using.
  intros V1 V2 F1 F2 Hu Hbody Hown E1 Q1 E2 Q2. unfold no_faults in *.
  destruct (extract_id (req_uri (conn_request conn)) TODO_KEY_MAX) as [[key id]|] eqn:Ee; [|unfold todo_update_handler in E1, E2; rewrite Ee in E1, E2; congruence].
  destruct (todo_body (conn_request conn)) as [msg|[title completed]] eqn:Et; [unfold todo_update_handler in E1, E2; rewrite Ee, Et in E1, E2; congruence|].
  pose proof (todo_body_bytes _ _ _ Hbody Et) as Hb.
  pose proof (todo_update_spec _ _ _ _ _ _ _ _ _ _ _ _ _ V1 F1 Hu Ee Et Hb E1) as C1.
  pose proof (todo_update_spec _ _ _ _ _ _ _ _ _ _ _ _ _ V2 F2 Hu Ee Et Hb E2) as C2.
  cbv zeta in C1, C2. destruct (negb _); [by destruct C1 as [-> _], C2 as [-> _]|].
  destruct C1 as [?|C1]; [lia|]. destruct C2 as [?|C2]; [lia|]. rewrite (owned_same _ _ _ key id Hown) in C1.
  destruct (owned _ _); by destruct C1 as [-> _], C2 as [-> _].
Qed.

Lemma delete_private now conn (t1 t2 t1' t2' : todos D (option lru_cache)) T1 T2 r1 r2 :
  service t1 T1 -> service t2 T2 -> u64_range (auth_user_id conn) -> same_own (auth_user_id conn) T1 T2 ->
  todo_delete_handler gzip server_name now conn t1 = (r1, t1') -> no_faults t1 t1' ->
  todo_delete_handler gzip server_name now conn t2 = (r2, t2') -> no_faults t2 t2' -> r1 = r2.
Proof using.
  intros V1 V2 Hu Hown E1 Q1 E2 Q2. unfold no_faults in *.
  destruct (extract_id (req_uri (conn_request conn)) TODO_KEY_MAX) as [[key id]|] eqn:Ee; [|unfold todo_delete_handler in E1, E2; rewrite Ee in E1, E2; congruence].
  destruct (todo_delete_spec _ _ _ _ _ _ _ _ _ _ V1 Hu Ee E1) as [?|C1]; [lia|].
  destruct (todo_delete_spec _ _ _ _ _ _ _ _ _ _ V2 Hu Ee E2) as [?|C2]; [lia|].
  rewrite (owned_same _ _ _ key id Hown) in C1. destruct (owned _ _); by destruct C1 as [-> _], C2 as [-> _].
Qed.

Abbreviation run := (call gzip server_name realloc_ok SHA1 base64 HMAC PBKDF2 files document_root cfg).

(** Reading, listing, changing and removing todos answers the same whatever the
    other users have, as long as no call of the store fails. *)
Lemma call_private an e conn (s1 s2 : app D) T1 T2 :
  reads_own e = true -> app_inv s1 T1 -> app_inv s2 T2 -> sound an (conn_request conn) s1 -> sound an (conn_request conn) s2 ->
  u64_range (auth_user_id conn) -> same_own (auth_user_id conn) T1 T2 ->
  quiet s1 (run an e conn s1).2 -> quiet s2 (run an e conn s2).2 -> (run an e conn s1).1 = (run an e conn s2).1.
Proof using realloc_grants.
  intros He Hs1 Hs2 [F1 _ _ _ B] [F2 _ _ _ _] Hu Hown.
  pose proof (ap_todos _ _ Hs1) as V1. pose proof (ap_todos _ _ Hs2) as V2. unfold quiet.
  destruct e; cbn in He; try done; cbn [call]; unfold on_todos;
    lazymatch goal with
    | |- context [let '(_, _) := ?f conn (app_todos s1) in _] =>
        destruct (f conn (app_todos s1)) as [r1 t1'] eqn:E1; destruct (f conn (app_todos s2)) as [r2 t2'] eqn:E2
    end; cbn [fst snd]; intros Q1 Q2; f_equal.
  - exact (list_private _ _ _ _ _ _ _ _ _ _ _ V1 V2 Hu Hown E1 Q1 E2 Q2).
  - exact (get_private _ _ _ _ _ _ _ _ _ _ _ V1 V2 F1 F2 Hown E1 Q1 E2 Q2).
  - exact (update_private _ _ _ _ _ _ _ _ _ _ _ V1 V2 F1 F2 Hu B Hown E1 Q1 E2 Q2).
  - exact (delete_private _ _ _ _ _ _ _ _ _ _ V1 V2 Hu Hown E1 Q1 E2 Q2).
Qed.
End private.

(** A verified identity fits its field. *)
Lemma jwt_verify_range hmac secret tok now size id name : jwt_verify hmac secret tok now size = JWT_OK id name -> u64_range id.
Proof.
  unfold jwt_verify. intros Hv. repeat (case_match; try done). simplify_eq. by eapply json_uint64_range.
Qed.

Lemma proves_range now HMAC secret q id name : proves now HMAC secret q id name -> u64_range id.
Proof. intros (authz & tok & _ & _ & Hv & _). by eapply jwt_verify_range. Qed.

Lemma proves_unique now HMAC secret q i j n1 n2 : proves now HMAC secret q i n1 -> proves now HMAC secret q j n2 -> i = j.
Proof. intros (a & t & Ha & Ht & Hv & _) (a' & t' & Ha' & Ht' & Hv' & _). simplify_eq. congruence. Qed.

(** ** A run of requests *)
Section requests.
Context (gzip : bytes -> option bytes) (server_name : bytes) (realloc_ok : Z -> bool).
Context (SHA1 : bytes -> bytes) (base64 : bytes -> option bytes).
Context (HMAC : bytes -> bytes -> option bytes) (PBKDF2 : bytes -> bytes -> Z -> Z -> option bytes).
Context (PBKDF2_key : forall pw salt it n k, PBKDF2 pw salt it n = Some k -> Forall is_byte k /\ zlen k = n).
Context (inet_ntop4 inet_ntop6 : bytes -> option bytes) (files : fs) (document_root : bytes).
Context {D : Type} `{KvStoreLaws D}.
Context (cfg : settings) (mem : list bool).

Abbreviation serve' := (serve gzip server_name realloc_ok SHA1 base64 HMAC PBKDF2 inet_ntop4 inet_ntop6 files document_root cfg).
Abbreviation routes := (snd (api_mount (mem, []))).

(** The request, as the chain sees it. *)
Lemma serve_cases an conn (s : app D) :
  let q := conn_request conn in
  let e := (resolve_handler (req_uri q) (req_method q) routes default_file).1 in
  let s1 := set_buckets (seen cfg an q (app_buckets s)) s in
  let record r s' := match r with Some (_, c) => observe inet_ntop4 inet_ntop6 an c s' | None => s' end in
  (exists c, admitted HMAC cfg an q (app_buckets s) c /\
     let '(r, s') := call gzip server_name realloc_ok SHA1 base64 HMAC PBKDF2 files document_root cfg an e c s1 in serve' an routes conn s = (r, record r s')) \/
  (refusal HMAC cfg an q (app_buckets s) /\ exists r, serve' an routes conn s = (Some r, record (Some r) s1)).
Proof using.
  intros q e s1 record. unfold serve. fold q. subst e. destruct (resolve_handler (req_uri q) (req_method q) routes default_file) as [e off]. cbn [fst].
  rewrite chain_observes. destruct (inner_cases (D := D) gzip server_name HMAC cfg an conn (app_buckets s)) as [(c & Hc & Hi)|(Hr & r & Hi)].
  - left. exists c. split; [done|]. rewrite Hi by done. by destruct (call _ _ _ _ _ _ _ _ _ _ _ _ _ _) as [[[rc c']|] s'].
  - right. split; [done|]. exists r. rewrite Hi by done. done.
Qed.

Definition after (an : answers) (conn : connection) (s : app D) : app D := (serve' an routes conn s).2.

(** What reaches a handler: the user of a verified token, on the routes of the
    users, and nobody elsewhere. *)
Lemma admitted_caller an q tbl c e off :
  admitted HMAC cfg an q tbl c -> resolve_handler (req_uri q) (req_method q) routes default_file = (e, off) ->
  u64_range (auth_user_id c) /\ (per_user e = true -> exists name, proves (an_now an) HMAC (set_secret cfg) q (auth_user_id c) name).
Proof using.
  intros Ha Er. destruct (resolve_mounted _ _ _ _ _ Er) as [Hg _]. pose proof (ad_identity _ _ _ _ _ _ Ha) as Hid. split.
  - destruct (path_requires_jwt (req_uri q)); [destruct Hid as [name Hid]; by eapply proves_range|rewrite Hid; done].
  - intros Hp. by rewrite (Hg Hp) in Hid.
Qed.

Lemma sound_buckets an q (s : app D) tbl : sound an q s -> sound an q (set_buckets tbl s).
Proof using. intros []. by constructor. Qed.

(** One request, whatever fails short of tearing the store: the todos stay
    stored, and change only for the user whose token it carries. *)
Lemma serve_keeps an conn (s : app D) T :
  let q := conn_request conn in
  app_stored s T -> sound an q s -> untorn s (after an conn s) ->
  exists T', app_stored (after an conn s) T' /\ accounts_stay s (after an conn s) /\
    (T' = T \/ exists uid name, proves (an_now an) HMAC (set_secret cfg) q uid name /\ own_only uid T T').
Proof using PBKDF2_key.
  intros q Hs Hso. pose proof (serve_cases an conn s) as Hc. cbv zeta in Hc. fold q in Hc. unfold after.
  set (s1 := set_buckets _ s) in Hc. assert (app_stored s1 T) as Hs1 by (destruct Hs; by constructor).
  destruct Hc as [(c & Ha & Hc)|(_ & r & ->)]; cycle 1.
  { exists T. cbn [snd]. destruct r as [rc c]. split; [|split; [by intros name u|by left]]. destruct Hs1. by constructor. }
  destruct (resolve_handler (req_uri q) (req_method q) routes default_file) as [e off] eqn:Er. cbn [fst] in Hc.
  destruct (admitted_caller _ _ _ _ _ _ Ha Er) as [Hu Hid].
  assert (sound an (conn_request c) s1) as Hso1 by (rewrite (ad_request _ _ _ _ _ _ Ha); by apply sound_buckets).
  pose proof (call_keeps gzip server_name realloc_ok SHA1 base64 HMAC PBKDF2 PBKDF2_key files document_root cfg an e c s1 T Hs1 Hso1 Hu) as Hkeep.
  destruct (call _ _ _ _ _ _ _ _ _ _ _ _ _ _) as [r s2]. cbn [snd] in Hkeep. rewrite Hc. cbn [snd]. intros Ht.
  destruct Hkeep as (T' & Hk & Hsame); [destruct r as [[rc c']|]; exact Ht|]. exists T'.
  destruct Hk as ([I1 I2 I3 I4] & Ho & Hst & _). split; [|split].
  - destruct r as [[rc c']|]; by constructor.
  - destruct r as [[rc c']|]; exact Hst.
  - destruct (per_user e) eqn:Ep; [|left; by apply Hsame]. right. destruct (Hid eq_refl) as [name Hp]. by exists (auth_user_id c), name.
Qed.

(** When nothing fails, index and cache stay in step too. *)
Lemma serve_in_step an conn (s : app D) T :
  (forall n, realloc_ok n = true) -> app_inv s T -> sound an (conn_request conn) s -> tc_granted (an_alloc an) ->
  untorn s (after an conn s) -> quiet s (after an conn s) -> exists T', app_inv (after an conn s) T'.
Proof using PBKDF2_key.
  intros Hre Hs Hso Hg. set (q := conn_request conn). pose proof (serve_cases an conn s) as Hc. cbv zeta in Hc. fold q in Hc. unfold after.
  set (s1 := set_buckets _ s) in Hc. assert (app_inv s1 T) as Hs1 by (destruct Hs; by constructor).
  destruct Hc as [(c & Ha & Hc)|(_ & r & ->)]; cycle 1.
  { exists T. cbn [snd]. destruct r as [rc c], Hs1. by constructor. }
  destruct (resolve_handler (req_uri q) (req_method q) routes default_file) as [e off] eqn:Er. cbn [fst] in Hc.
  destruct (admitted_caller _ _ _ _ _ _ Ha Er) as [Hu _].
  assert (sound an (conn_request c) s1) as Hso1 by (rewrite (ad_request _ _ _ _ _ _ Ha); by apply sound_buckets).
  pose proof (call_in_step gzip server_name realloc_ok SHA1 base64 HMAC PBKDF2 PBKDF2_key files document_root cfg Hre an e c s1 T Hs1 Hso1 Hg Hu) as Hkeep.
  destruct (call _ _ _ _ _ _ _ _ _ _ _ _ _ _) as [r s2]. cbn [snd] in Hkeep. rewrite Hc. cbn [snd]. intros Ht Hq.
  destruct Hkeep as (T' & [I1 I2 I3 I4]); [destruct r as [[rc c']|]; exact Hq|destruct r as [[rc c']|]; exact Ht|].
  exists T'. destruct r as [[rc c']|]; by constructor.
Qed.

Fixpoint serve_all (s : app D) (l : list (answers * connection)) : app D :=
  match l with [] => s | (an, conn) :: l => serve_all (after an conn s) l end.
(** Every request of the run finds the environment sound, and none tears the store. *)
Fixpoint all_sound (s : app D) (l : list (answers * connection)) : Prop :=
  match l with
  | [] => True
  | (an, conn) :: l => sound an (conn_request conn) s /\ untorn s (after an conn s) /\ all_sound (after an conn s) l
  end.
(** No request meets a failing call of the store or a refused allocation. *)
Fixpoint all_quiet (s : app D) (l : list (answers * connection)) : Prop :=
  match l with
  | [] => True
  | (an, conn) :: l => tc_granted (an_alloc an) /\ quiet s (after an conn s) /\ all_quiet (after an conn s) l
  end.

Lemma serve_all_keeps l (s : app D) T :
  app_stored s T -> all_sound s l ->
  exists T', app_stored (serve_all s l) T' /\ accounts_stay s (serve_all s l) /\
    forall uid, (forall an conn name, (an, conn) ∈ l -> ~ proves (an_now an) HMAC (set_secret cfg) (conn_request conn) uid name) ->
      forall id x, todo_owner x = uid -> T !! id = Some x <-> T' !! id = Some x.
Proof using PBKDF2_key.
  revert s T. induction l as [|[an conn] l IH]; intros s T Hs Hl.
  { exists T. split; [exact Hs|]. split; [by intros name u|]. done. }
  destruct Hl as (Hso & Ht & Hl). destruct (serve_keeps an conn s T Hs Hso Ht) as (T1 & Hs1 & Ha1 & Hd).
  cbn [serve_all]. set (s1 := after an conn s) in *. clearbody s1.
  destruct (IH s1 T1 Hs1 Hl) as (T2 & Hs2 & Ha2 & Hd2). exists T2. split; [exact Hs2|]. split; [intros name u Hu; exact (Ha2 name u (Ha1 name u Hu))|].
  intros uid Hno id x Hx. rewrite <- (Hd2 uid); [|intros an' conn' name Hin; apply Hno; by apply list_elem_of_further|exact Hx].
  destruct Hd as [->|(w & name & Hp & Ho)]; [done|]. apply Ho. rewrite Hx. intros ->. by apply (Hno an conn name (list_elem_of_here _ _)).
Qed.

Lemma serve_all_in_step l (s : app D) T :
  (forall n, realloc_ok n = true) -> app_inv s T -> all_sound s l -> all_quiet s l -> exists T', app_inv (serve_all s l) T'.
Proof using PBKDF2_key.
  intros Hre. revert s T. induction l as [|[an conn] l IH]; intros s T Hs Hl Hq; [by exists T|].
  destruct Hl as (Hso & Ht & Hl), Hq as (Hg & Hq & Hql). destruct (serve_in_step an conn s T Hre Hs Hso Hg Ht Hq) as [T1 Hs1]. by eapply IH.
Qed.
End requests.

(** ** The log *)
Definition visible (c : Z) : Prop := 32 <= c /\ c <> 127.

Lemma dec_loop_visible fuel n acc : 0 <= n -> Forall visible acc -> Forall visible (dec_loop fuel n acc).
Proof.
  unfold visible. revert n acc. induction fuel as [|fuel IH]; intros n acc Hn Ha; [done|]. cbn [dec_loop]. destruct (Z.ltb_spec n 10).
  - constructor; [lia|done].
  - apply IH; [zdiv|]. constructor; [zdiv|done].
Qed.
Lemma dec_visible n : 0 <= n -> Forall visible (dec n).
Proof. intros Hn. by apply dec_loop_visible. Qed.

Lemma visible_str b : forallb (fun c => (32 <=? c) && negb (c =? 127)) b = true -> Forall visible b.
Proof. rewrite forallb_forall. intros Hb. apply list.Forall_forall. intros c Hc. apply list_elem_of_In, Hb in Hc. unfold visible. lia. Qed.

Lemma scaled_nonneg scale m e : 0 < scale -> 0 <= scaled scale m e.
Proof.
  intros Hs. unfold scaled. destruct (Z.geb_spec e 0); [apply Z.mul_nonneg_nonneg; [lia|by apply Z.pow_nonneg]|].
  assert (0 <= Z.pos m * scale / 2 ^ (- e)) by (apply Z.div_pos; [lia|apply Z.pow_pos_nonneg; lia]). destruct (_ || _); lia.
Qed.

Lemma fixed_visible n x : Forall visible (fixed n x).
Proof.
  assert (forall (s : bool) q, 0 <= q -> Forall visible ((if s then [45] else []) ++ dec (q / 10 ^ Z.of_nat n) ++ [46] ++ dec_pad (Z.of_nat n) (q mod 10 ^ Z.of_nat n))) as H.
  { intros s q Hq. assert (0 < 10 ^ Z.of_nat n) by (apply Z.pow_pos_nonneg; lia). unfold dec_pad. rewrite !list.Forall_app. split_and!.
    - destruct s; by apply visible_str.
    - apply dec_visible. by apply Z.div_pos.
    - by apply visible_str.
    - by apply Forall_replicate.
    - apply dec_visible. by apply Z.mod_pos_bound. }
  unfold fixed. destruct x as [s|s| |s m e]; [by apply H|destruct s; by apply visible_str|by apply visible_str|].
  apply H, scaled_nonneg, Z.pow_pos_nonneg; lia.
Qed.


(** A line of the log is one line, without control bytes, whatever was asked. *)
Lemma log_line_visible inet_ntop4 inet_ntop6 an conn :
  (forall a s, inet_ntop4 a = Some s \/ inet_ntop6 a = Some s -> Forall visible s) ->
  exists body, log_line inet_ntop4 inet_ntop6 an conn = body ++ [10] /\ Forall visible body.
Proof.
  intros Hn. unfold log_line. eexists. split; [rewrite !app_assoc; reflexivity|]. rewrite !list.Forall_app. split_and!.
  - unfold net_addr_str. destruct (an_addr an) as [a|a|]; cbn.
    + destruct (inet_ntop4 a) eqn:E; [eapply Hn; by left|by apply visible_str].
    + destruct (is_v4_mapped a); [destruct (inet_ntop4 _) eqn:E; [eapply Hn; by left|by apply visible_str]|].
      destruct (inet_ntop6 a) eqn:E; [eapply Hn; by right|by apply visible_str].
    + by apply visible_str.
  - by apply visible_str.
  - destruct (req_method (conn_request conn)); by apply visible_str.
  - by apply visible_str.
  - unfold safe_uri. apply list.Forall_forall. intros c (x & -> & _)%list_elem_of_fmap. unfold visible.
    destruct (Z.ltb_spec x 32), (Z.eqb_spec x 127); cbn; lia.
  - by apply visible_str.
  - unfold dec_signed. destruct (Z.ltb_spec (resp_status (conn_response conn)) 0); [rewrite list.Forall_app; split; [by apply visible_str|]|]; apply dec_visible; lia.
  - by apply visible_str.
  - apply fixed_visible.
  - by apply visible_str.
Qed.

(** ** Start *)
Section starting.
Context {D : Type} `{KvStoreLaws D}.

Lemma empty_cache capacity ok : tc_repr (lru_cache_create capacity ok) ∅.
Proof using.
  destruct (lru_cache_create capacity ok) as [c|] eqn:E; [|done]. destruct ok; [|unfold lru_cache_create in E; by destruct (_ <=? _)].
  destruct (lru_create_inv _ _ E) as (Hi & Hg & _ & Hc). split; [done|]. exists []. split; [done|]. by rewrite Hc.
Qed.

(** Start on a database: the server comes up whatever calls of the store fail.
    Short of a torn store, rows and accounts are the ones stored; with no failure
    at all, index, cache and counters are in step. *)
Lemma api_init_spec realloc_ok d T next unext cache_ok pool live random now e :
  let secret := env_str (str "JWT_SECRET") [] e in
  kv_ok d -> todo_repr (kv_abs d) T next false -> accounts_inv (kv_abs d) unext -> 0 < unext <= UINT64_MAX ->
  pool_inv pool live -> (jwt_init [] secret random).2 = 0 ->
  exists s ttl, api_init realloc_ok (Some d) cache_ok (Some pool) random now e = Some (s, ((jwt_init [] secret random).1, ttl)) /\
    0 < ttl /\ app_metrics s = metrics_init now /\ app_buckets s = table_zero /\ app_log s = [] /\ kv_le d (app_db s) /\
    (kv_torn d < kv_torn (app_db s) \/
     stored (app_todos s) T /\ forall name, account (kv_abs (app_db s)) name = account (kv_abs d) name) /\
    ((forall n, realloc_ok n = true) -> kv_faults d < kv_faults (app_db s) \/
     app_inv s T /\ app_next_todo s <= Z.max 1 next /\ app_next_user s <= unext).
Proof using.
  intros secret Hok Hr Ha Hu Hp Hj. unfold api_init. cbn [mbind option_bind].
  set (cache := lru_cache_create _ cache_ok).
  destruct (todo_api_init_spec realloc_ok cache d T next Hok Hr (empty_cache _ _)) as (Hle & Hweak & Hstrong).
  set (t := todo_api_init realloc_ok cache d) in *. clearbody t. fold secret.
  set (ttl := env_int (str "JWT_TTL_SECONDS") 3600 e).
  destruct (user_api_init_shape pool [] secret random ttl (td_db t) Hj) as (a & Ea & Hpool & Hm). rewrite Ea.
  eexists _, _. split; [reflexivity|]. cbn [app_db app_metrics app_buckets app_log]. split_and!; try done.
  - destruct (Z.gtb_spec ttl 0); lia.
  - etrans; [exact Hle|exact Hm].
  - destruct Hweak as [?|[Hst Hk]]; [left; ghosts|right].
    assert (forall name, kv_abs (td_db t) !! user_key name = kv_abs d !! user_key name) as Hkey by (intros name; apply Hk, user_key_foreign).
    destruct (user_api_init_spec pool [] secret random ttl (td_db t) unext (st_db _ _ Hst) (accounts_inv_kept _ _ _ Hkey Ha) Hu Hj) as (a' & d' & Ea' & Hd & _ & Hok' & Ha' & _).
    rewrite Ea in Ea'. simplify_eq. split; [|intros name; unfold account; by rewrite Ha', Hkey]. eapply stored_same; [exact Hst|by constructor|done].
  - intros Hre. destruct (Hstrong Hre) as [?|[Hs Hn]]; [left; ghosts|].
    destruct Hweak as [?|[Hst Hk]]; [left; ghosts|].
    assert (forall name, kv_abs (td_db t) !! user_key name = kv_abs d !! user_key name) as Hkey by (intros name; apply Hk, user_key_foreign).
    destruct (user_api_init_spec pool [] secret random ttl (td_db t) unext (sv_db _ _ Hs) (accounts_inv_kept _ _ _ Hkey Ha) Hu Hj) as (a' & d' & Ea' & Hd & _ & Hok' & Ha' & _ & Hids).
    rewrite Ea in Ea'. simplify_eq. destruct Hids as [?|[Hids Hinv]]; [left; ghosts|right]. split; [|split; [exact Hn|cbn [app_next_user]; lia]].
    constructor; cbn [app_db app_next_user app_pool]; [by eapply service_same|by rewrite Ha'|lia|by exists live].
Qed.
End starting.
