(* ===== verification/StorageProps.v ===== *)
(** * The storage engine: main theorems

    The claims about db.c, engine.c, pager.c, btree.c, wal.c and txn.c, each
    with an instance at a concrete engine, page or log. *)
From Stdlib Require Import String.
From S2P Require Import Prelude BtreePage Wal Pager PagerProofs Store Txn Db DbProofs DbScan DbSplit DbInsert Engine.

Local Open Scope Z_scope.

(** ** A concrete engine to instantiate the theorems at *)
Definition demo_crc (b : bytes) : Z := fold_left (fun a x => (a * 31 + x) mod 2 ^ 32) b 7.
#[local] Instance demo_store : PageStore pager := pager_store demo_crc.
#[local] Instance demo_laws : PageStoreLaws pager := pager_store_laws demo_crc.

Definition demo_startup : startup :=
  mkStartup (Some []) (Some []) true true true (mkEnv (fun n => (Z.of_nat n, 0)) 0 [] [] []) [].
Definition demo_txn : transaction := mkTxn 1 TXN_STATE_ACTIVE 0 0 0 0 0 0 0 None.

Definition demo_engine : option engine := init_storage_engine demo_crc demo_startup.

Lemma demo_new : exists g,
  (demo_engine = Some g /\ eng_root_page_id g = 1) /\ db_inv 1 (eng_pager g) [1] [] /\
  all_resident (eng_pager g) [1].
Proof.
  destruct (init_new_spec demo_crc demo_startup []) as (g & E & Hdb & Hr & Hres); [done..|].
  exists g. unfold engine_db in Hdb. rewrite Hr in Hdb. split; [split; [exact E|exact Hr]|]. split; [exact Hdb|exact Hres].
Qed.

Lemma demo_room s n : db_inv 1 s [1] [] -> n <= btree_page_capacity -> leaves_have_room s [1] n.
Proof.
  intros [_ _ (d & lvs & _ & Hn & _) _ _ _ _] Hle id p Hid%list_elem_of_singleton Hp Ht. subst id.
  destruct d as [|d]; cbn [node] in Hn.
  - destruct Hn as (q & es & Hq & Hr & _ & _ & Hes & _). rewrite Hp in Hq. injection Hq as <-.
    destruct es; [|done]. pose proof (page_repr_capacity _ _ Hr). cbn in *. zl.
  - destruct Hn as (q & es & ids' & Hq & _ & Ht' & _). rewrite Hp in Hq. injection Hq as <-.
    rewrite Ht in Ht'. discriminate.
Qed.

(** The page store after an insert of one pair into the new engine. *)
Definition demo_inserted (g : engine) : pager :=
  (db_insert 1 (Some demo_txn) (str "k") (str "v") (eng_pager g)).2.

Lemma demo_inserted_resident :
  match demo_engine with
  | Some g => bool_decide (is_Some (find_buffer_entry (demo_inserted g) 1))
  | None => false
  end = true.
Proof. vm_compute. reflexivity. Qed.

Lemma singleton_kvs (kvs : list (bytes * bytes)) k v : kvs_sorted kvs -> kv_map kvs = {[k := v]} -> kvs = [(k, v)].
Proof.
  intros Hs Hm. pose proof (map_to_list_to_map (M := gmap bytes) kvs (kvs_nodup _ Hs)) as Hp.
  unfold kv_map in Hm. rewrite Hm, map_to_list_singleton in Hp. by apply Permutation_length_1_inv in Hp.
Qed.

Lemma demo_one : exists g, let s := demo_inserted g in
  (demo_engine = Some g /\ eng_root_page_id g = 1) /\
  db_inv 1 s [1] [(str "k", str "v")] /\ all_resident s [1].
Proof.
  destruct demo_new as (g & Eg & Hdb & Hres). pose proof demo_inserted_resident as Hc.
  rewrite (proj1 Eg) in Hc. apply bool_decide_eq_true in Hc.
  exists g. intros s'. split; [exact Eg|]. clear Eg. subst s'. unfold demo_inserted in *.
  destruct (db_insert 1 (Some demo_txn) (str "k") (str "v") (eng_pager g)) as [[r t] s] eqn:E.
  pose proof (demo_room _ (SIZEOF_KV_PAIR + zlen (str "k") + zlen (str "v")) Hdb ltac:(done)) as demo_fits.
  destruct (db_insert_room_spec 1 demo_txn (str "k") (str "v") _ [1] [] _ _ _ Hdb ltac:(done) ltac:(by repeat constructor)
    ltac:(by repeat constructor) demo_fits ltac:(done) ltac:(done) E)
    as [_ [(_ & _ & _ & kvs & Hdb' & Hm)|(_ & _ & _ & [[x Hx]|Hnr])]].
  - cbn [snd] in *. split; [|constructor; [exact Hc|constructor]].
    destruct (di_tree _ _ _ _ Hdb') as (d & lvs & _ & Hn & _).
    rewrite (singleton_kvs kvs (str "k") (str "v")) in Hdb'; [exact Hdb'|by eapply node_sorted|].
    rewrite Hm. apply insert_empty.
  - discriminate.
  - destruct (Hnr Hres).
Qed.

(** ** The key-value API *)
Section api.
Context {S : Type} `{PageStoreLaws S} (root_page_id : Z).

(** C1: a search in an active transaction returns the stored value, cut to the
    caller's buffer and with its full length, or -1 when the key is not stored
    (or a page of the tree could not be brought into memory); it changes
    neither the stored pairs nor any pin. *)
Theorem db_search_correct fuel t key cap s ids kvs r s' :
  db_inv root_page_id s ids kvs -> txn_is_active t = true -> (BTREE_MAX_DEPTH <= fuel)%nat ->
  db_search root_page_id fuel (Some t) key cap s = (r, s') ->
  db_inv root_page_id s' ids kvs /\ (forall j, ps_pins s' j = ps_pins s j) /\
  (r = Some (search_result kvs key cap) \/ r = Some (-1, [], cap) /\ ~ all_resident s ids).
Proof using. apply db_search_spec. Qed.

(** C2: an insert that reports success stored exactly the new pair under a key
    that was absent and counted the row, whatever pages it had to split and
    whether or not the root had to grow; an insert that reports failure has
    lost no pair, changes nothing when the key was present, and fails for no
    other reason when the pages are buffered and the leaves have room. Pins
    are balanced on every path. *)
Theorem db_insert_correct t key value s ids kvs r t' s' :
  db_inv root_page_id s ids kvs -> txn_is_active t = true -> Forall is_byte key -> Forall is_byte value ->
  0 < zlen key <= MAX_KEY_SIZE -> zlen value <= MAX_VALUE_SIZE ->
  db_insert root_page_id (Some t) key value s = (r, t', s') ->
  (forall j, ps_pins s' j = ps_pins s j) /\
  (r = 0 /\ t' = Some (add_rows 1 0 t) /\ kv_map kvs !! key = None /\
   (exists ids' kvs', db_inv root_page_id s' ids' kvs' /\ kv_map kvs' = <[key := value]> (kv_map kvs)) \/
   r = -1 /\ t' = Some t /\ db_pairs root_page_id s' kvs /\
   (is_Some (kv_map kvs !! key) -> db_inv root_page_id s' ids kvs) /\
   (all_resident s ids -> leaves_have_room s ids (SIZEOF_KV_PAIR + zlen key + zlen value) ->
    is_Some (kv_map kvs !! key))).
Proof using.
  intros Hdb Hact Hkb Hvb Hkl Hvl E.
  destruct (db_insert_spec _ _ _ _ _ _ _ _ _ _ Hdb Hact Hkb Hvb Hkl Hvl E) as (t1 & -> & [Hp Hr] & Hwhy).
  split; [done|]. destruct Hr as [(-> & -> & ? & ?)|(-> & -> & ? & ?)]; [left|right]; split_and!; auto.
Qed.

(** C3: a delete removes exactly the pair of the key when it is stored and
    counts the row; otherwise it reports -1 and the pairs stay. *)
Theorem db_delete_correct fuel t key s ids kvs r t' s' :
  db_inv root_page_id s ids kvs -> txn_is_active t = true -> (BTREE_MAX_DEPTH <= fuel)%nat ->
  db_delete root_page_id fuel (Some t) key s = (r, t', s') ->
  (forall j, ps_pins s' j = ps_pins s j) /\
  ((r = Some 0 /\ t' = Some (add_rows 0 1 t) /\ is_Some (kv_map kvs !! key) /\
    exists kvs', db_inv root_page_id s' ids kvs' /\ kv_map kvs' = delete key (kv_map kvs)) \/
   (r = Some (-1) /\ t' = Some t /\ db_inv root_page_id s' ids kvs /\
    (kv_map kvs !! key = None \/ ~ all_resident s ids))).
Proof using. apply db_delete_spec. Qed.

(** C4: a prefix scan calls the callback on exactly the pairs whose key starts
    with the prefix, in key order, stopping where the callback asks to; the
    walk ends within one step per page of the tree. *)
Theorem db_scan_prefix_correct {C} (callback : bytes -> bytes -> C -> Z * C) fuel t prefix c s ids kvs r c' s' :
  db_inv root_page_id s ids kvs -> txn_is_active t = true -> zlen prefix <= MAX_KEY_SIZE ->
  (BTREE_MAX_DEPTH <= fuel)%nat -> (length ids <= fuel)%nat ->
  db_scan_prefix root_page_id callback fuel (Some t) prefix c s = (r, c', s') ->
  db_inv root_page_id s' ids kvs /\ (forall j, ps_pins s' j = ps_pins s j) /\
  (r = Some 0 /\ c' = visit callback (List.filter (fun x => has_prefix prefix x.1) kvs) c \/
   r = Some (-1) /\ ~ all_resident s ids).
Proof using. apply scan_range_spec. Qed.
End api.

Lemma db_search_correct_witness : exists s s',
  db_search 1 32 (Some demo_txn) (str "k") 10 s = (Some (0, str "v", 1), s').
Proof.
  destruct demo_one as (g & _ & Hdb & Hres). set (s := demo_inserted g) in *. clearbody s.
  destruct (db_search 1 32 (Some demo_txn) (str "k") 10 s) as [r s'] eqn:E. exists s, s'. rewrite E.
  destruct (db_search_correct 1 32 demo_txn (str "k") 10 s [1] _ r s' Hdb ltac:(done)
    ltac:(unfold BTREE_MAX_DEPTH; lia) E) as (_ & _ & [->|[-> Hnr]]); [reflexivity|destruct (Hnr Hres)].
Defined.

Lemma db_insert_correct_witness : exists s s' ids kvs,
  db_insert 1 (Some demo_txn) (str "k") (str "v") s = (0, Some (add_rows 1 0 demo_txn), s') /\
  db_inv 1 s' ids kvs /\ kv_map kvs = {[str "k" := str "v"]}.
Proof.
  destruct demo_new as (g & _ & Hdb & Hres).
  destruct (db_insert 1 (Some demo_txn) (str "k") (str "v") (eng_pager g)) as [[r t] s] eqn:E.
  pose proof (demo_room _ (SIZEOF_KV_PAIR + zlen (str "k") + zlen (str "v")) Hdb ltac:(done)) as demo_fits.
  destruct (db_insert_correct 1 demo_txn (str "k") (str "v") _ [1] [] _ _ _ Hdb ltac:(done) ltac:(by repeat constructor)
    ltac:(by repeat constructor) ltac:(done) ltac:(done) E)
    as [_ [(-> & -> & _ & ids & kvs & Hdb' & Hm)|(_ & _ & _ & _ & Hwhy)]].
  - exists (eng_pager g), s, ids, kvs. split; [exact E|]. split; [exact Hdb'|]. rewrite Hm. apply insert_empty.
  - destruct (Hwhy Hres demo_fits) as [x Hx]. discriminate.
Defined.

Lemma db_delete_correct_witness : exists s s' kvs,
  db_delete 1 32 (Some demo_txn) (str "k") s = (Some 0, Some (add_rows 0 1 demo_txn), s') /\
  db_inv 1 s' [1] kvs /\ kv_map kvs = ∅.
Proof.
  destruct demo_one as (g & _ & Hdb & Hres). set (s := demo_inserted g) in *. clearbody s.
  destruct (db_delete 1 32 (Some demo_txn) (str "k") s) as [[r t] s'] eqn:E.
  destruct (db_delete_correct 1 32 demo_txn (str "k") s [1] _ r t s' Hdb ltac:(done)
    ltac:(unfold BTREE_MAX_DEPTH; lia) E) as (_ & [(-> & -> & _ & kvs & Hdb' & Hm)|(_ & _ & _ & [Hn|Hnr])]).
  - exists s, s', kvs. split; [exact E|]. split; [exact Hdb'|]. rewrite Hm. reflexivity.
  - discriminate.
  - destruct (Hnr Hres).
Defined.

Definition demo_collect (k v : bytes) (c : list bytes) : Z * list bytes := (0, c ++ [k]).

Lemma db_scan_prefix_correct_witness : exists s s',
  db_scan_prefix 1 demo_collect 32 (Some demo_txn) (str "k") [] s = (Some 0, [str "k"], s').
Proof.
  destruct demo_one as (g & _ & Hdb & Hres). set (s := demo_inserted g) in *. clearbody s.
  destruct (db_scan_prefix 1 demo_collect 32 (Some demo_txn) (str "k") [] s) as [[r c] s'] eqn:E.
  exists s, s'. rewrite E.
  destruct (db_scan_prefix_correct 1 demo_collect 32 demo_txn (str "k") [] s [1] _ r c s' Hdb ltac:(done)
    ltac:(done) ltac:(unfold BTREE_MAX_DEPTH; lia) ltac:(cbn; lia) E) as (_ & _ & [[-> ->]|[-> Hnr]]);
    [reflexivity|destruct (Hnr Hres)].
Defined.

(** ** The engine *)
(** C5: after a checkpoint whose page writes succeed, starting the engine again
    on the data file it left gives a database with the same tree and the same
    pairs, whatever the log holds. *)
Theorem restart_durable crc32 g rc g' ids kvs u log :
  engine_db crc32 g ids kvs -> eng_root_page_id g = 1 ->
  io_full (env_pwrite (env (eng_pager g))) = true -> perform_checkpoint crc32 g = (rc, g') ->
  st_data u = Some (data_file (eng_pager g')) -> st_wal u = Some log -> st_wal_buffer u = true ->
  st_hash_table u = true -> st_fstat u = true ->
  zlen (data_file (eng_pager g')) <= UINT32_MAX * PAGE_SIZE ->
  exists g'', init_storage_engine crc32 u = Some g'' /\ engine_db crc32 g'' ids kvs.
Proof. apply restart_spec. Qed.

(** On a data file that is new, start-up succeeds and gives the empty
    database on root page 1, which stays buffered. *)
Theorem init_new_database crc32 u log :
  st_data u = Some [] -> st_wal u = Some log -> st_wal_buffer u = true ->
  st_hash_table u = true -> st_fstat u = true ->
  env_malloc (st_env u) = [] -> env_pread (st_env u) = [] ->
  exists g, init_storage_engine crc32 u = Some g /\ engine_db crc32 g [1] [] /\ eng_root_page_id g = 1 /\
    Forall (pager_resident (eng_pager g)) [1].
Proof. apply init_new_spec. Qed.

Lemma init_new_database_witness : exists g,
  init_storage_engine demo_crc demo_startup = Some g /\ engine_db demo_crc g [1] [].
Proof.
  destruct (init_new_database demo_crc demo_startup []) as (g & E & Hdb & _);
    [reflexivity..|]. exists g. split; [exact E|exact Hdb].
Defined.

(** The engine after one insert, checkpointed: the file it leaves. *)
Definition demo_engine_one (g : engine) : engine := set_pager (demo_inserted g) g.
Definition demo_checkpointed (g : engine) : engine := (perform_checkpoint demo_crc (demo_engine_one g)).2.
Definition demo_restart (g : engine) : startup :=
  mkStartup (Some (data_file (eng_pager (demo_checkpointed g)))) (Some []) true true true
    (mkEnv (fun n => (Z.of_nat n, 0)) 0 [] [] []) [].

Lemma demo_restart_checks :
  match demo_engine with
  | Some g => io_full (env_pwrite (env (demo_inserted g))) &&
      (zlen (data_file (eng_pager (demo_checkpointed g))) <=? UINT32_MAX * PAGE_SIZE) &&
      (zlen (data_file (eng_pager (demo_checkpointed g))) =? 2 * PAGE_SIZE)
  | None => false
  end = true.
Proof. vm_compute. reflexivity. Qed.

(** ** The buffer pool *)
(** C32: [get_page] keeps the pool well formed (hash chains, pins, every clean
    page equal to its disk image) and hands out the page's current contents
    with one more pin; whatever frame it evicts, no page it knew is lost. On
    failure no pin is taken. *)
Theorem get_page_correct crc32 U s id lk r s' :
  pager_ok U s -> page_ref id -> get_page crc32 id lk s = (r, s') ->
  pager_ok U s' /\
  (forall j p, page_ref j -> pager_view s j = Some p -> pager_view s' j = Some p) /\
  (forall j, pager_used s' j <-> pager_used s j) /\
  match r with
  | Some p => pager_view s' id = Some p /\
      (forall j, pager_pins s' j = pager_pins s j + (if decide (j = id) then 1 else 0)) /\
      (pager_resident s id -> forall j, pager_resident s' j <-> pager_resident s j)
  | None => ~ pager_resident s id /\ (forall j, pager_pins s' j = pager_pins s j)
  end.
Proof. apply pager_get_law. Qed.

Lemma get_page_correct_witness : exists s p s',
  get_page demo_crc 1 LOCK_SHARED s = (Some p, s') /\ pager_view s' 1 = Some p.
Proof.
  destruct demo_new as (g & _ & Hdb & Hres). pose proof (di_store _ _ _ _ Hdb) as Hok. clear Hdb.
  destruct (get_page demo_crc 1 LOCK_SHARED (eng_pager g)) as [r s'] eqn:E.
  destruct (get_page_correct demo_crc ∅ (eng_pager g) 1 LOCK_SHARED r s' Hok ltac:(split; vm_compute; congruence) E)
    as (_ & _ & _ & Hr).
  destruct r as [p|]; [|destruct (proj1 Hr (Forall_inv Hres))].
  exists (eng_pager g), p, s'. split; [exact E|apply Hr].
Defined.

(** A checkpoint keeps every page and pin, and when every page write
    succeeds the data file afterwards holds every page the pager knows. *)
Theorem perform_checkpoint_correct crc32 g rc g' U :
  pager_ok U (eng_pager g) -> perform_checkpoint crc32 g = (rc, g') ->
  let s := eng_pager g in let s' := eng_pager g' in
  pager_ok U s' /\ (forall id p, page_ref id -> pager_view s id = Some p -> pager_view s' id = Some p) /\
  (forall j, pager_pins s' j = pager_pins s j) /\ alloc_same s s' /\
  (U = ∅ -> io_full (env_pwrite (env s)) = true ->
   forall id p, page_ref id -> pager_view s id = Some p -> on_disk s' id p).
Proof. apply perform_checkpoint_spec. Qed.

Lemma perform_checkpoint_correct_witness : exists g g',
  perform_checkpoint demo_crc g = (0, g') /\ pager_ok ∅ (eng_pager g').
Proof.
  destruct demo_new as (g & _ & Hdb & _). pose proof (di_store _ _ _ _ Hdb) as Hok. clear Hdb.
  destruct (perform_checkpoint demo_crc g) as [rc g'] eqn:E.
  destruct (perform_checkpoint_correct demo_crc g rc g' ∅ Hok E) as [Hok' _].
  exists g, g'. rewrite E. split; [|exact Hok']. unfold perform_checkpoint in E.
  destruct (pager_flush_wal_buffer _), (pager_write_wal_record _ _ _ _ _ _).
  destruct (pager_flush_wal_buffer _). congruence.
Defined.

Lemma restart_durable_witness : exists g g'', init_storage_engine demo_crc (demo_restart g) = Some g'' /\
  engine_db demo_crc g'' [1] [(str "k", str "v")].
Proof.
  destruct demo_one as (g & [Eg Hr] & Hdb & _). pose proof demo_restart_checks as Hc. rewrite Eg in Hc. clear Eg.
  apply andb_true_iff in Hc as [Hc _]. apply andb_true_iff in Hc as [Hio Hlen]. apply Z.leb_le in Hlen.
  exists g. assert (engine_db demo_crc (demo_engine_one g) [1] [(str "k", str "v")]) as Hg.
  { unfold engine_db, demo_engine_one. cbn [eng_root_page_id eng_pager set_pager]. rewrite Hr. exact Hdb. }
  apply (restart_durable demo_crc (demo_engine_one g) (perform_checkpoint demo_crc (demo_engine_one g)).1
    (demo_checkpointed g) [1] [(str "k", str "v")] (demo_restart g) [] Hg Hr Hio);
    [apply surjective_pairing|reflexivity..|exact Hlen].
Defined.

(** [allocate_page] hands out an id that no live page has, and marks it
    used; when none is left it returns 0 and nothing changes. *)
Theorem allocate_page_fresh s id s' :
  alloc_inv s -> allocate_page s = (id, s') ->
  alloc_inv s' /\
  (if decide (id = 0) then forall j, pager_used s' j <-> pager_used s j
   else page_ref id /\ ~ pager_used s id /\ forall j, pager_used s' j <-> j = id \/ pager_used s j).
Proof. apply allocate_page_alloc. Qed.

(** The bytes a page is written to disk as read back as the same page. *)
Theorem page_image_roundtrip p : page_wf p -> page_of_image (page_image p) = p.
Proof. apply page_of_image_image. Qed.

Lemma page_image_roundtrip_witness : page_of_image (page_image (fresh_page 7)) = fresh_page 7.
Proof. apply page_image_roundtrip, fresh_page_wf. split; vm_compute; congruence. Defined.

Definition demo_pager : pager :=
  mkPager [] [] [] [5; 3] 16 8 (mkWal [] [] 1 0 []) (Pager.mkStats 0 0 0 0) (mkConfig true true)
    (mkEnv (fun n => (0, 0)) 0 [] [] []).

Lemma demo_alloc_inv : alloc_inv demo_pager.
Proof.
  constructor; cbn; [split; vm_compute; congruence| |].
  - apply (bool_decide_unpack _). vm_compute. exact I.
  - repeat constructor.
Qed.

Lemma allocate_page_fresh_witness : exists s', allocate_page demo_pager = (3, s') /\ pager_used s' 3.
Proof.
  destruct (allocate_page demo_pager) as [id s'] eqn:E. pose proof E as E'.
  vm_compute in E'. injection E' as E1 _. rewrite <- E1 in E |- *.
  destruct (allocate_page_fresh demo_pager 3 s' demo_alloc_inv E) as (_ & _ & _ & Hu).
  exists s'. split; [reflexivity|]. apply Hu. by left.
Defined.

(** ** B-tree pages *)
Definition demo_entry (k : Z) : entry := mkEntry [k] [k; k] 0.

(** Inserting into a page with room shifts the entries from the position
    on and leaves a well-formed page with the new entry there; only the key
    count and the free space of the header change. *)
Theorem insert_kv_pair_correct page es i e :
  page_repr page es -> entry_ok e -> (i <= length es)%nat -> entry_size e <= free_space (header page) ->
  exists page',
    insert_kv_pair page (Z.of_nat i) (e_key e) (e_value e) (e_child e) = Some page' /\
    page_repr page' (insert_entry es i e) /\
    header page' = set_header_fields (header page) (key_count (header page) + 1)
                     (free_space (header page) - entry_size e).
Proof. apply insert_kv_pair_repr. Qed.

(** Deleting an entry closes the gap and leaves the page without it. *)
Theorem delete_kv_pair_correct page es i e :
  page_repr page es -> es !! i = Some e ->
  exists page',
    delete_kv_pair page (Z.of_nat i) = Some page' /\ page_repr page' (delete_entry es i) /\
    header page' = set_header_fields (header page) (key_count (header page) - 1)
                     (free_space (header page) + entry_size e).
Proof. apply delete_kv_pair_repr. Qed.

(** The search within a page returns the lower bound of the key: the keys
    before the position are smaller, those from it on are not. *)
Theorem find_key_position_correct page es key :
  page_repr page es -> keys_sorted es -> lower_bound es key (find_key_position page key).
Proof. apply find_key_position_lb. Qed.

(** A leaf built by inserts. *)
Definition demo_leaf (n : nat) : btree_page :=
  fold_left (fun p i => default p (insert_kv_pair p (Z.of_nat i) [Z.of_nat i] [Z.of_nat i; Z.of_nat i] 0))
    (seq 0 n) (fresh_page 1).

Lemma demo_leaf_repr n : (n <= 100)%nat -> page_repr (demo_leaf n) (map (fun i => demo_entry (Z.of_nat i)) (seq 0 n)).
Proof.
  unfold demo_leaf. induction n as [|n IH]; intros Hn; [apply fresh_page_repr|].
  rewrite seq_S, fold_left_app, map_app. cbn [fold_left map Nat.add]. specialize (IH ltac:(lia)).
  destruct (insert_kv_pair_repr _ _ n (demo_entry (Z.of_nat n)) IH) as (p' & E & Hr & _).
  - repeat split; cbn; (lia || done).
  - by rewrite length_map, length_seq.
  - pose proof (page_repr_capacity _ _ IH) as Hc. change btree_page_capacity with 4024 in Hc.
    assert (zlen (entries_bytes (map (fun i => demo_entry (Z.of_nat i)) (seq 0 n))) = 11 * Z.of_nat n) as Hz; [|change (entry_size (demo_entry (Z.of_nat n))) with 11; lia].
    clear. generalize 0%nat. induction n as [|n IHn]; intros k; [done|]. cbn [seq map entries_bytes flat_map].
    rewrite zlen_app. fold (entries_bytes (map (fun i => demo_entry (Z.of_nat i)) (seq (S k) n))).
    rewrite IHn. unfold entry_bytes. rewrite !zlen_app, !zlen_le_encode. cbn. zl.
  - cbn [demo_entry e_key e_value e_child] in E. rewrite E. cbn [default].
    unfold insert_entry in Hr. rewrite take_ge, drop_ge in Hr by (by rewrite length_map, length_seq). done.
Qed.

Lemma demo_leaf_sorted n : keys_sorted (map (fun i => demo_entry (Z.of_nat i)) (seq 0 n)).
Proof.
  generalize 0%nat. induction n as [|n IH]; intros k; cbn; constructor; [apply IH|].
  apply list.Forall_forall. intros e (i & <- & Hi)%list_elem_of_In%in_map_iff. apply in_seq in Hi.
  unfold entry_lt, lex_lt, demo_entry. cbn [e_key lex]. by rewrite (proj2 (Z.compare_lt_iff _ _)) by lia.
Qed.

Lemma insert_kv_pair_correct_witness : exists page',
  insert_kv_pair (demo_leaf 3) 1 [9] [9; 9] 0 = Some page' /\
  page_repr page' [demo_entry 0; demo_entry 9; demo_entry 1; demo_entry 2].
Proof.
  destruct (insert_kv_pair_correct (demo_leaf 3) _ 1 (demo_entry 9) (demo_leaf_repr 3 ltac:(lia)))
    as (page' & E & Hr & _).
  - repeat split; vm_compute; congruence.
  - cbn. lia.
  - vm_compute. congruence.
  - exists page'. split; [exact E|exact Hr].
Defined.

Lemma delete_kv_pair_correct_witness : exists page',
  delete_kv_pair (demo_leaf 3) 1 = Some page' /\ page_repr page' [demo_entry 0; demo_entry 2].
Proof.
  destruct (delete_kv_pair_correct (demo_leaf 3) _ 1 (demo_entry 1) (demo_leaf_repr 3 ltac:(lia)) eq_refl)
    as (page' & E & Hr & _).
  exists page'. split; [exact E|exact Hr].
Defined.

Lemma find_key_position_correct_witness :
  lower_bound (map (fun i => demo_entry (Z.of_nat i)) (seq 0 3)) [1] (find_key_position (demo_leaf 3) [1]) /\
  find_key_position (demo_leaf 3) [1] = 1.
Proof.
  split; [apply (find_key_position_correct _ _ [1] (demo_leaf_repr 3 ltac:(lia)) (demo_leaf_sorted 3))|].
  vm_compute. reflexivity.
Defined.

(** Splitting a leaf with two entries or more moves the upper half to the
    new page and links it after the old one; the separator is the last key
    that stayed. No entry is lost, doubled or reordered. *)
Theorem split_leaf_correct src dst es id sep_size :
  page_repr src es -> page_type (header src) = PAGE_TYPE_LEAF ->
  (2 <= length es)%nat -> Forall (fun e => zlen (e_key e) <= sep_size) es ->
  zlen (data dst) = btree_page_capacity ->
  exists k e src' dst',
    btree_split_page src dst id sep_size = Some (src', dst', e_key e) /\
    split_point es k /\ es !! (k - 1)%nat = Some e /\
    page_repr src' (take k es) /\ page_repr dst' (drop k es) /\
    page_type (header src') = PAGE_TYPE_LEAF /\ page_type (header dst') = PAGE_TYPE_LEAF /\
    page_id (header src') = page_id (header src) /\ page_id (header dst') = id /\
    next_page_id (header src') = id /\ next_page_id (header dst') = next_page_id (header src).
Proof. apply btree_split_page_leaf. Qed.

(** Splitting an internal page promotes one entry: its key is the
    separator, its child becomes the rightmost child of the old page. *)
Theorem split_internal_correct src dst es id sep_size :
  page_repr src es -> page_type (header src) <> PAGE_TYPE_LEAF ->
  (2 <= length es)%nat -> Forall (fun e => zlen (e_key e) <= sep_size) es ->
  zlen (data dst) = btree_page_capacity ->
  exists k e src' dst',
    btree_split_page src dst id sep_size = Some (src', dst', e_key e) /\
    split_point es k /\ es !! k = Some e /\
    page_repr src' (take k es) /\ page_repr dst' (drop (S k) es) /\
    page_type (header src') = page_type (header src) /\
    page_type (header dst') = page_type (header src) /\
    page_id (header src') = page_id (header src) /\ page_id (header dst') = id /\
    next_page_id (header src') = e_child e /\ next_page_id (header dst') = next_page_id (header src).
Proof. apply btree_split_page_internal. Qed.

(** The split index is chosen by bytes: neither side exceeds half of the
    used bytes by more than one largest entry. *)
Theorem choose_split_index_balanced page es m :
  page_repr page es -> (2 <= length es)%nat -> Forall (fun e => entry_size e <= m) es ->
  exists k, choose_split_index page (zlen (entries_bytes es)) = Z.of_nat k /\ (0 < k < length es)%nat /\
    zlen (entries_bytes (take k es)) <= zlen (entries_bytes es) / 2 + m /\
    zlen (entries_bytes (drop k es)) <= zlen (entries_bytes es) / 2 + 1 + m.
Proof.
  intros Hr Hl Hm. destruct (choose_split_index_spec page es Hr Hl) as (k & E & Hk).
  exists k. split_and!; [exact E|apply Hk..|apply split_point_balance; done|by apply split_point_balance].
Qed.

(** A page with a single entry, internal ones included, is never split. *)
Lemma split_single_refused src dst e id sep_size :
  page_repr src [e] -> btree_split_page src dst id sep_size = None.
Proof.
  intros Hr. unfold btree_split_page. rewrite (btree_used_bytes_repr _ _ Hr). cbn [mbind option_bind].
  case_match; [done|]. by rewrite choose_split_index_one.
Qed.

Lemma split_leaf_correct_witness : exists k e src' dst',
  btree_split_page (demo_leaf 4) (fresh_page 2) 2 MAX_KEY_SIZE = Some (src', dst', e_key e) /\
  page_repr src' (take k (map (fun i => demo_entry (Z.of_nat i)) (seq 0 4))).
Proof.
  destruct (split_leaf_correct (demo_leaf 4) (fresh_page 2) _ 2 MAX_KEY_SIZE (demo_leaf_repr 4 ltac:(lia)))
    as (k & e & src' & dst' & E & _ & _ & Hs & _).
  - vm_compute. reflexivity.
  - cbn. lia.
  - repeat constructor; vm_compute; congruence.
  - vm_compute. reflexivity.
  - exists k, e, src', dst'. split; [exact E|exact Hs].
Defined.

Definition demo_internal : btree_page :=
  mkPage (set_page_identity (header (demo_leaf 4)) 1 PAGE_TYPE_INTERNAL) (data (demo_leaf 4)).

Lemma demo_internal_repr : page_repr demo_internal (map (fun i => demo_entry (Z.of_nat i)) (seq 0 4)).
Proof. exact (demo_leaf_repr 4 ltac:(lia)). Qed.

Lemma split_internal_correct_witness : exists k e src' dst',
  btree_split_page demo_internal (fresh_page 2) 2 MAX_KEY_SIZE = Some (src', dst', e_key e) /\
  next_page_id (header src') = e_child e /\
  page_repr src' (take k (map (fun i => demo_entry (Z.of_nat i)) (seq 0 4))).
Proof.
  destruct (split_internal_correct demo_internal (fresh_page 2) _ 2 MAX_KEY_SIZE demo_internal_repr)
    as (k & e & src' & dst' & E & _ & _ & Hs & _ & _ & _ & _ & _ & Hc & _).
  - vm_compute. discriminate.
  - cbn. lia.
  - repeat constructor; vm_compute; congruence.
  - vm_compute. reflexivity.
  - exists k, e, src', dst'. split; [exact E|]. split; [exact Hc|exact Hs].
Defined.

Lemma choose_split_index_balanced_witness : exists k, choose_split_index (demo_leaf 4) 44 = Z.of_nat k /\ (0 < k < 4)%nat.
Proof.
  destruct (choose_split_index_balanced (demo_leaf 4) _ 11 (demo_leaf_repr 4 ltac:(lia))) as (k & E & Hk & _).
  - cbn. lia.
  - repeat constructor; vm_compute; congruence.
  - exists k. split; [exact E|exact Hk].
Defined.

(** ** The write-ahead log *)
Section log.
Context (crc32 : bytes -> Z).

(** When writes do not fail, a record is appended with the next sequence
    number after everything logged before, flushing first when the buffer has
    no room; file and buffer together still hold exactly the records logged. *)
Theorem write_wal_record_correct w rs n txn type pid data :
  wal_repr crc32 w rs n -> io_clean (wal_io w) = true ->
  0 <= txn <= UINT64_MAX -> 0 <= pid <= UINT32_MAX -> next_lsn w < UINT64_MAX ->
  zlen data + SIZEOF_WAL_RECORD + 7 <= WAL_BUFFER_SIZE ->
  exists w' n',
    write_wal_record crc32 txn type pid data w = (0, w') /\
    wal_repr crc32 w' (rs ++ [mkRecord (next_lsn w) txn type pid data]) n' /\
    (n <= n')%nat /\ next_lsn w' = next_lsn w + 1 /\ io_clean (wal_io w') = true.
Proof using. apply write_wal_record_clean. Qed.

(** A flush whose writes do not fail (short writes are retried) leaves
    every record in the file, in order, and an empty buffer. *)
Theorem flush_wal_buffer_correct w rs n :
  wal_repr crc32 w rs n -> io_clean (wal_io w) = true ->
  exists w', flush_wal_buffer w = (0, w') /\ wal_repr crc32 w' rs (length rs) /\
    next_lsn w' = next_lsn w /\ io_clean (wal_io w') = true /\ wal_file w' = log_bytes crc32 rs.
Proof using. apply flush_wal_buffer_clean. Qed.

(** The log format is unambiguous: the bytes of a sequence of records
    parse back, checksums included, to that sequence. *)
Theorem log_roundtrip fuel rs :
  Forall record_wf rs -> (length rs <= fuel)%nat -> parse_log crc32 fuel (log_bytes crc32 rs) = Some rs.
Proof using. apply parse_log_bytes. Qed.
End log.

Definition demo_wal (io : list io_result) : wal_state := mkWal [] [] 1 0 io.

Lemma demo_wal_repr io : wal_repr demo_crc (demo_wal io) [] 0.
Proof. constructor; cbn; try done; try lia. exists 0. done. Qed.

Lemma write_wal_record_correct_witness : exists w' n',
  write_wal_record demo_crc 7 WAL_INSERT 3 [1; 2; 3] (demo_wal []) = (0, w') /\
  wal_repr demo_crc w' [mkRecord 1 7 WAL_INSERT 3 [1; 2; 3]] n'.
Proof.
  destruct (write_wal_record_correct demo_crc (demo_wal []) [] 0 7 WAL_INSERT 3 [1; 2; 3] (demo_wal_repr []) eq_refl)
    as (w' & n' & E & Hr & _); [split; vm_compute; congruence|split; vm_compute; congruence|reflexivity|vm_compute; congruence|].
  exists w', n'. split; [exact E|exact Hr].
Defined.

Lemma flush_wal_buffer_correct_witness : exists w w',
  flush_wal_buffer w = (0, w') /\ wal_file w' = log_bytes demo_crc [mkRecord 1 7 WAL_INSERT 3 [1; 2; 3]].
Proof.
  destruct (write_wal_record_clean demo_crc (demo_wal []) [] 0 7 WAL_INSERT 3 [1; 2; 3] (demo_wal_repr []) eq_refl)
    as (w & n & _ & Hr & _ & _ & Hio); [split; vm_compute; congruence|split; vm_compute; congruence|reflexivity|vm_compute; congruence|].
  destruct (flush_wal_buffer_correct demo_crc w _ n Hr Hio) as (w' & E & _ & _ & _ & Hf).
  exists w, w'. split; [exact E|exact Hf].
Defined.

Definition demo_record : wal_record := mkRecord 5 7 WAL_DELETE 3 [1; 2; 3].

Lemma log_roundtrip_witness : parse_log demo_crc 2 (log_bytes demo_crc [demo_record; demo_record]) = Some [demo_record; demo_record].
Proof.
  apply log_roundtrip; [|cbn; lia]. repeat constructor; vm_compute; congruence.
Defined.

(** ** Transactions *)
Section transactions.
Context {S : Type} `{PageStoreLaws S}.

(** [begin_transaction] returns an active handle with a new id and puts it
    at the head of the active list, which holds exactly the active handles. *)
Theorem begin_transaction_correct m l a now (s : S) :
  txn_inv m l -> txn_heap m !! a = None -> 0 <= next_txn_id m < UINT64_MAX ->
  exists m' t, begin_transaction (Some a) now m s = (Some a, m') /\ txn_inv m' (a :: l) /\
    txn_heap m' = <[a := t]> (txn_heap m) /\ txn_state t = TXN_STATE_ACTIVE /\
    txn_id t = next_txn_id m /\ next_txn_id m' = next_txn_id m + 1.
Proof using. apply begin_transaction_spec. Qed.

(** Committing an active handle marks it committed and takes it off the
    active list; the other handles keep their states and no page changes. *)
Theorem commit_transaction_correct m l txn a t now U (s : S) r m' s' :
  txn_inv m l -> ps_inv U s -> active_txn txn m = Some (a, t) ->
  commit_transaction txn now m s = (r, m', s') ->
  r = 0 /\ txn_inv m' (filter (.≠ a) l) /\
  (exists t', txn_heap m' !! a = Some t' /\ txn_state t' = TXN_STATE_COMMITED /\ txn_next t' = None) /\
  (forall b, b <> a -> txn_state <$> txn_heap m' !! b = txn_state <$> txn_heap m !! b) /\
  ps_inv U s' /\ (forall j, ps_view s' j = ps_view s j).
Proof using. apply commit_transaction_spec. Qed.

(** C40: aborting marks the handle aborted and unlinks it; as the code has no
    undo, the pages keep what the transaction wrote. *)
Theorem abort_transaction_correct m l txn a t U (s : S) r m' s' :
  txn_inv m l -> ps_inv U s -> active_txn txn m = Some (a, t) ->
  abort_transaction txn m s = (r, m', s') ->
  r = 0 /\ txn_inv m' (filter (.≠ a) l) /\
  (exists t', txn_heap m' !! a = Some t' /\ txn_state t' = TXN_STATE_ABORTED /\ txn_next t' = None) /\
  (forall b, b <> a -> txn_state <$> txn_heap m' !! b = txn_state <$> txn_heap m !! b) /\
  ps_inv U s' /\ (forall j, ps_view s' j = ps_view s j).
Proof using. apply abort_transaction_spec. Qed.
End transactions.

Definition demo_txns : txn_manager := mkTxns ∅ None 1 0 0.

Lemma demo_txns_inv : txn_inv demo_txns [].
Proof. constructor; cbn; try done. apply base.NoDup_nil_2. Qed.

Lemma begin_transaction_correct_witness : exists g m' t,
  begin_transaction (Some 64) 0 demo_txns (eng_pager g) = (Some 64, m') /\
  txn_heap m' !! 64 = Some t /\ txn_inv m' [64].
Proof.
  destruct demo_new as (g & _).
  destruct (begin_transaction_correct demo_txns [] 64 0 (eng_pager g) demo_txns_inv eq_refl
    ltac:(split; vm_compute; congruence)) as (m' & t & E & Hi & Hh & _).
  exists g, m', t. split; [exact E|]. split; [rewrite Hh; apply lookup_insert_eq|exact Hi].
Defined.

(** A manager with one active handle. *)
Lemma demo_begun : exists m t, txn_inv m [64] /\ active_txn (Some 64) m = Some (64, t).
Proof.
  destruct demo_new as (g & _).
  destruct (begin_transaction_spec demo_txns [] 64 0 (eng_pager g) demo_txns_inv eq_refl
    ltac:(split; vm_compute; congruence)) as (m & t & _ & Hi & Hh & Hs & _).
  exists m, t. split; [exact Hi|]. unfold active_txn, txn_is_active. cbn [mbind option_bind].
  rewrite Hh, lookup_insert_eq. cbn [mbind option_bind]. by rewrite bool_decide_true.
Qed.

Lemma commit_transaction_correct_witness : exists g m m' s',
  commit_transaction (Some 64) 9 m (eng_pager g) = (0, m', s') /\ txn_inv m' [].
Proof.
  destruct demo_new as (g & _ & Hdb & _). pose proof (di_store _ _ _ _ Hdb) as Hok. clear Hdb.
  destruct demo_begun as (m & t & Hi & Ha).
  destruct (commit_transaction (Some 64) 9 m (eng_pager g)) as [[r m'] s'] eqn:E.
  destruct (commit_transaction_correct m [64] (Some 64) 64 t 9 ∅ (eng_pager g) r m' s' Hi Hok Ha E)
    as (-> & Hi' & _).
  exists g, m, m', s'. split; [exact E|exact Hi'].
Defined.

Lemma abort_transaction_correct_witness : exists g m m' s',
  abort_transaction (Some 64) m (eng_pager g) = (0, m', s') /\ txn_inv m' [].
Proof.
  destruct demo_new as (g & _ & Hdb & _). pose proof (di_store _ _ _ _ Hdb) as Hok. clear Hdb.
  destruct demo_begun as (m & t & Hi & Ha).
  destruct (abort_transaction (Some 64) m (eng_pager g)) as [[r m'] s'] eqn:E.
  destruct (abort_transaction_correct m [64] (Some 64) 64 t ∅ (eng_pager g) r m' s' Hi Hok Ha E)
    as (-> & Hi' & _).
  exists g, m, m', s'. split; [exact E|exact Hi'].
Defined.
