(* ===== verification/ServiceProps.v ===== *)
(** * Cache, JSON, tokens, todo index and backend selection: main theorems

    The claims about lru.c, json_util.c, jwt.c, todo_index.c and selection.c,
    each with an instance at a concrete input. *)
From Stdlib Require Import String.
From S2P Require Import Prelude Text BtreePage Wal Pager Engine Lru Json Jwt Txn Db DbProofs DbScan Store TodoIndex KvEngine Selection StorageProps.

Local Open Scope Z_scope.

(** ** The LRU cache *)
(** A lookup returns the cached value, cut to the caller's buffer and with
    its full length, and makes the key the most recently used; a miss changes
    nothing in the contents. *)
Theorem lru_get_correct k cap c l r c' :
  lru_inv c l -> 0 <= c_generation c <= UINT64_MAX -> lru_get k cap c = (r, c') ->
  c_generation c' = c_generation c /\ l_capacity c' = l_capacity c /\
  r = ((fun v => (ztake (Z.min (zlen v) cap) v, zlen v)) <$> find_key k (contents c l)) /\
  exists l', lru_inv c' l' /\ contents c' l' = spec_get k (contents c l).
Proof. apply lru_get_spec. Qed.

(** A put makes the key most recently used with the new value, evicting
    the least recently used entry only when a new key meets a full cache; a
    failed allocation leaves the contents. It always advances the generation. *)
Theorem lru_put_correct ptr copy_ok k v c l r c' :
  lru_inv c l -> (forall a, ptr = Some a -> c_heap c !! a = None) ->
  lru_put ptr copy_ok k v c = (r, c') ->
  c_generation c' = u64 (c_generation c + 1) /\ l_capacity c' = l_capacity c /\
  exists l', lru_inv c' l' /\
    ((r = 0 /\ contents c' l' = spec_store (l_capacity c) k v (contents c l)) \/
     (r = -1 /\ contents c' l' = contents c l /\ (ptr = None \/ copy_ok = false))).
Proof. apply lru_put_spec. Qed.

(** An invalidation removes exactly the key, says whether it was there,
    and advances the generation. *)
Theorem lru_invalidate_correct k c l r c' :
  lru_inv c l -> lru_invalidate k c = (r, c') ->
  c_generation c' = u64 (c_generation c + 1) /\ l_capacity c' = l_capacity c /\
  r = bool_decide (is_Some (find_key k (contents c l))) /\
  exists l', lru_inv c' l' /\ contents c' l' = remove_key k (contents c l).
Proof. apply lru_invalidate_spec. Qed.

(** Any sequence of cache operations keeps the list, the hash chains and
    the heap consistent and the size within the capacity; the generation
    counts the writes. *)
Theorem lru_run_invariant c os c' l :
  lru_run c os c' -> lru_inv c l -> gen_ok c ->
  (exists l', lru_inv c' l') /\ gen_ok c' /\ l_capacity c' = l_capacity c /\
  c_generation c' = (c_generation c + zlen (List.filter is_write os)) mod 2 ^ 64.
Proof. apply lru_run_inv. Qed.

(** A fill computed before a write is dropped: once any put or
    invalidation ran since the generation was read, [lru_fill] changes nothing. *)
Theorem lru_stale_fill c os c' l ptr ok k v :
  lru_run c os c' -> lru_inv c l -> gen_ok c ->
  0 < zlen (List.filter is_write os) < 2 ^ 64 ->
  lru_fill ptr ok k v (lru_generation c) c' = (1, c').
Proof. apply stale_fill_dropped. Qed.

Definition demo_cache : lru_cache :=
  mkCache ∅ 4 (replicate 4 None) 0 2 None None 0 0 0 0.

Lemma demo_cache_inv : lru_inv demo_cache [] /\ gen_ok demo_cache /\ l_capacity demo_cache = 2 /\ contents demo_cache [] = [].
Proof. by apply (lru_create_inv 2). Qed.

(** The cache after a put of one pair. *)
Lemma demo_cache_one : exists c l, lru_inv c l /\ 0 <= c_generation c <= UINT64_MAX /\
  contents c l = [(str "k", str "v")].
Proof.
  destruct demo_cache_inv as (Hi & _ & Hc & He).
  destruct (lru_put (Some 10) true (str "k") (str "v") demo_cache) as [r c] eqn:E.
  destruct (lru_put_spec (Some 10) true _ _ _ [] _ _ Hi ltac:(by intros ? [= <-]) E)
    as (Hg & _ & l & Hi' & [[_ Hc']|(_ & _ & [?|?])]); [|done..].
  exists c, l. split; [done|]. split; [rewrite Hg; vm_compute; split; congruence|].
  rewrite Hc', He. reflexivity.
Qed.

Lemma lru_get_correct_witness : exists c c', lru_get (str "k") 10 c = (Some (str "v", 1), c').
Proof.
  destruct demo_cache_one as (c & l & Hi & Hg & Hc).
  destruct (lru_get (str "k") 10 c) as [r c'] eqn:E.
  destruct (lru_get_correct (str "k") 10 c l r c' Hi Hg E) as (_ & _ & Hr & _).
  exists c, c'. rewrite E, Hr, Hc. reflexivity.
Defined.

Lemma lru_put_correct_witness : exists c c' l', lru_put (Some 11) true (str "x") (str "y") c = (0, c') /\
  contents c' l' = [(str "k", str "v"); (str "x", str "y")].
Proof.
  destruct demo_cache_inv as (Hi0 & _ & Hc0 & He0).
  destruct (lru_put (Some 10) true (str "k") (str "v") demo_cache) as [r0 c] eqn:E0.
  destruct (lru_put_correct (Some 10) true _ _ _ [] _ _ Hi0 ltac:(intros ? [= <-]; reflexivity) E0)
    as (_ & Hcap & l & Hi & [[_ Hc]|(_ & _ & [?|?])]); [|discriminate..].
  rewrite He0 in Hc. destruct (lru_put (Some 11) true (str "x") (str "y") c) as [r c'] eqn:E.
  destruct (lru_put_correct (Some 11) true (str "x") (str "y") c l r c' Hi) as (_ & _ & l' & _ & [[-> Hc']|(_ & _ & [?|?])]).
  - intros ? [= <-]. vm_compute in E0. injection E0 as _ <-. reflexivity.
  - exact E.
  - exists c, c', l'. split; [exact E|]. rewrite Hc', Hc, Hcap, Hc0. reflexivity.
  - discriminate.
  - discriminate.
Defined.

Lemma lru_invalidate_correct_witness : exists c c' l', lru_invalidate (str "k") c = (true, c') /\ contents c' l' = [].
Proof.
  destruct demo_cache_one as (c & l & Hi & Hg & Hc).
  destruct (lru_invalidate (str "k") c) as [r c'] eqn:E.
  destruct (lru_invalidate_correct (str "k") c l r c' Hi E) as (_ & _ & Hr & l' & _ & Hc').
  rewrite Hc in Hr, Hc'. exists c, c', l'. split; [rewrite E, Hr; reflexivity|rewrite Hc'; reflexivity].
Defined.

Definition demo_ops : list lru_op :=
  [OpPut (Some 10) true (str "k") (str "v"); OpGet (str "k") 8; OpInvalidate (str "k")].
Definition demo_cache_run : lru_cache := fold_left (fun c o => lru_step o c) demo_ops demo_cache.

Lemma demo_run : lru_run demo_cache demo_ops demo_cache_run.
Proof. repeat (apply run_cons; [done|]). apply run_nil. Qed.

Lemma lru_run_invariant_witness : (exists l', lru_inv demo_cache_run l') /\ c_generation demo_cache_run = 2.
Proof.
  destruct demo_cache_inv as (Hi & Hg & _).
  destruct (lru_run_invariant demo_cache demo_ops demo_cache_run [] demo_run Hi Hg) as (Hi' & _ & _ & E).
  split; [exact Hi'|]. rewrite E. reflexivity.
Defined.

Lemma lru_stale_fill_witness :
  lru_fill (Some 12) true (str "k") (str "old") (lru_generation demo_cache) demo_cache_run = (1, demo_cache_run).
Proof.
  destruct demo_cache_inv as (Hi & Hg & _).
  apply (lru_stale_fill demo_cache demo_ops demo_cache_run [] (Some 12) true (str "k") (str "old") demo_run Hi Hg).
  split; vm_compute; congruence.
Defined.

(** ** JSON *)
(** Text that [json_escape] accepts fits its buffer with the NUL, and,
    written between quotes as a field of an object, reads back as the original
    (control characters without a short escape apart). *)
Theorem json_escape_roundtrip n s e field size :
  json_escape n s = Some e -> key_ok field -> Forall (fun c => short_escape c = true) s -> zlen s < size ->
  zlen e < n /\ json_get_string (123 :: 34 :: field ++ 34 :: 58 :: 34 :: e ++ [34; 125]) field size = Some s.
Proof.
  unfold json_escape. intros He Hf Hs Hsz. rewrite escape_loop_spec in He by lia.
  destruct (Z.ltb_spec (0 + zlen (escaped s)) n); [|done]. apply (inj Some) in He as <-. split; [lia|].
  rewrite <- (get_string_object [(field, JStr s)] field s size); try done.
  - f_equal. unfold render_object, render_fields, render_field, render_val. cbn [fst snd].
    cbn [app]. f_equal. f_equal. rewrite <- !app_assoc. cbn [app]. f_equal. f_equal. f_equal. f_equal.
    by rewrite <- app_assoc.
  - constructor; [|constructor]. split; [done|]. cbn. eapply list.Forall_impl; [exact Hs|].
    unfold short_escape, is_char. lia.
  - cbn. by rewrite bool_decide_true by done.
Qed.

(** The accessors find the first field of the given name of a flat
    object, whatever the other keys and values contain, and report a missing
    one. *)
Theorem json_fields_correct fs field :
  Forall field_ok fs ->
  match lookup_field field fs with
  | Some (JStr s) => forall size, Forall (fun c => short_escape c = true) s -> zlen s < size ->
      json_get_string (render_object fs) field size = Some s
  | Some (JNum n) => json_get_uint64 (render_object fs) field = Some n
  | Some (JBool b) => json_get_bool (render_object fs) field = Some b
  | None => json_get_uint64 (render_object fs) field = None /\ json_get_bool (render_object fs) field = None /\
      forall size, json_get_string (render_object fs) field size = None
  end.
Proof.
  intros Hfs. destruct (lookup_field field fs) as [[s|n|b]|] eqn:E.
  - intros size Hs Hsz. by apply get_string_object.
  - by apply get_uint64_object.
  - by apply get_bool_object.
  - destruct (get_missing fs field 0 Hfs E) as (_ & ? & ?). split_and!; try done.
    intros size. by destruct (get_missing fs field size Hfs E).
Qed.

Lemma json_escape_roundtrip_witness :
  json_get_string (123 :: 34 :: str "t" ++ 34 :: 58 :: 34 :: [97; 92; 34; 98] ++ [34; 125]) (str "t") 8 = Some [97; 34; 98].
Proof.
  apply (json_escape_roundtrip 16 [97; 34; 98] [97; 92; 34; 98] (str "t") 8);
    [reflexivity|repeat constructor; vm_compute; congruence|repeat constructor|reflexivity].
Defined.

Definition demo_fields : list (bytes * jval) := [(str "t", JStr (str "id")); (str "id", JNum 42)].

Lemma json_fields_correct_witness : json_get_uint64 (render_object demo_fields) (str "id") = Some 42.
Proof.
  refine (json_fields_correct demo_fields (str "id") _).
  repeat constructor; vm_compute; congruence.
Defined.

(** ** Tokens *)
(** Base64url decodes what it encodes, into any buffer the bytes fit. *)
Theorem b64url_encode_decode l size e m :
  Forall is_byte l -> b64url_encode l size = Some e -> zlen l <= m -> b64url_decode e m = Some l.
Proof. apply b64url_roundtrip. Qed.

Lemma b64url_encode_decode_witness : b64url_decode (str "AQL_") 3 = Some [1; 2; 255].
Proof.
  apply (b64url_encode_decode [1; 2; 255] 5 (str "AQL_") 3);
    [repeat constructor; vm_compute; congruence|reflexivity|vm_compute; congruence].
Defined.

Section tokens.
Context (hmac : bytes -> bytes -> option bytes) (secret : bytes).
(** HMAC-SHA256 gives 32 bytes. *)
Context (hmac_tag : forall k m t, hmac k m = Some t -> Forall is_byte t /\ zlen t = 32).

(** A token made for a user name of plain characters verifies under the
    same secret to that user until the time it expires, and is reported
    expired from then on. *)
Theorem jwt_create_verifies user_id username now ttl out_size tok now' size :
  Forall plain username -> 0 <= user_id <= UINT64_MAX -> 0 <= now <= UINT64_MAX ->
  0 <= now + ttl <= UINT64_MAX -> zlen username < size -> 0 <= now' <= UINT64_MAX ->
  jwt_create hmac secret user_id username now ttl out_size = Some tok ->
  jwt_verify hmac secret tok now' size =
  if now' >=? now + ttl then JWT_EXPIRED else JWT_OK user_id username.
Proof using hmac_tag. by apply jwt_create_verify. Qed.

(** C36: a token that verifies carries, base64url encoded, the HMAC of its own
    header and payload under the secret; the identity is the payload's, and
    the payload's expiry lies in the future. *)
Theorem jwt_verify_authentic tok now size uid username :
  jwt_verify hmac secret tok now size = JWT_OK uid username ->
  exists h p sg mac payload exp,
    tok = h ++ 46 :: p ++ 46 :: sg /\ hmac secret (h ++ 46 :: p) = Some mac /\
    b64url_decode sg 32 = Some mac /\ b64url_decode p 512 = Some payload /\
    json_get_uint64 payload (str "uid") = Some uid /\ json_get_uint64 payload (str "exp") = Some exp /\
    json_get_string payload (str "sub") size = Some username /\ u64 now < exp.
Proof using hmac_tag. by apply jwt_verify_sound. Qed.
End tokens.

(** A tag function of the right shape. *)
Definition demo_hmac (k m : bytes) : option bytes :=
  Some (replicate 32 (fold_left (fun a x => (a * 31 + x) mod 256) (k ++ m) 7 mod 256)).

Lemma demo_hmac_tag k m t : demo_hmac k m = Some t -> Forall is_byte t /\ zlen t = 32.
Proof.
  unfold demo_hmac. intros <-%(inj Some). split; [|by rewrite zlen_replicate]. apply Forall_replicate.
  unfold is_byte. apply Z.mod_pos_bound. lia.
Qed.

Definition demo_token : bytes := default [] (jwt_create demo_hmac (str "s") 42 (str "ann") 1000 60 512).

Lemma jwt_create_verifies_witness : jwt_verify demo_hmac (str "s") demo_token 1010 64 = JWT_OK 42 (str "ann").
Proof.
  apply (jwt_create_verifies demo_hmac (str "s") demo_hmac_tag 42 (str "ann") 1000 60 512 demo_token 1010 64);
    [repeat constructor; vm_compute; congruence|split; vm_compute; congruence|split; vm_compute; congruence|
     split; vm_compute; congruence|reflexivity|split; vm_compute; congruence|vm_compute; reflexivity].
Defined.

Lemma jwt_verify_authentic_witness : exists h p sg mac,
  demo_token = h ++ 46 :: p ++ 46 :: sg /\ demo_hmac (str "s") (h ++ 46 :: p) = Some mac /\ b64url_decode sg 32 = Some mac.
Proof.
  destruct (jwt_verify_authentic demo_hmac (str "s") demo_hmac_tag demo_token 1010 64 42 (str "ann"))
    as (h & p & sg & mac & payload & exp & E & Hm & Hd & _); [vm_compute; reflexivity|].
  exists h, p, sg, mac. split; [exact E|]. split; [exact Hm|exact Hd].
Defined.

(** ** The todo index *)
(** A key is read as the entry (u, t) exactly when it is the text written
    for them: both ids in range, padded to 20 digits. *)
Theorem todo_index_key_parse_correct key u t :
  todo_index_key_parse key = Some (u, t) <->
  u64_range u /\ u64_range t /\ todo_index_key TODO_KEY_MAX u t = Some key.
Proof.
  rewrite index_parse_iff. split.
  - intros (-> & Hu & Ht). by rewrite todo_index_key_some.
  - intros (Hu & Ht & E). rewrite todo_index_key_some in E by done. by injection E as <-.
Qed.

(** The byte order of index keys is the numeric order of (owner, id), the
    order [pair_compare] sorts by. *)
Theorem todo_index_key_order u t u' t' :
  u64_range u -> u64_range t -> u64_range u' -> u64_range t' ->
  compare_keys (index_text u t) (index_text u' t') = (pair_compare (u, t) (u', t') ?= 0).
Proof. rewrite compare_keys_lex. apply index_text_order. Qed.

Lemma todo_index_key_order_witness : compare_keys (index_text 9 30) (index_text 10 2) = Lt.
Proof. rewrite todo_index_key_order by (split; vm_compute; congruence). reflexivity. Defined.

Section index.
Context {D : Type} `{KvStoreLaws D}.

(** A lookup that succeeds returns, ascending and without repeats, the
    ids of exactly the entries the database holds for the user. *)
Theorem todo_index_lookup_correct realloc_ok h u d v d' :
  kv_ok d -> kv_live h d -> u64_range u -> todo_index_lookup realloc_ok h u d = (0, v, d') ->
  kv_ok d' /\ kv_live h d' /\ kv_abs d' = kv_abs d /\ StronglySorted Z.lt (items v) /\
  forall t, t ∈ items v <-> u64_range t /\ is_Some (kv_abs d !! index_text u t).
Proof using. apply lookup_spec. Qed.

(** Reconciling touches index entries only, unless one of its insertions fails
    and tears the store; a run that returns 0 leaves the index in step with the
    rows (an entry for each row's owner and id and no other), raises the ready
    flag and reports the highest row id; in every other case it returns -1 with
    the flag down. *)
Theorem todo_index_reconcile_correct realloc_ok d rc mx ready d' :
  kv_ok d -> todo_index_reconcile realloc_ok d = (rc, mx, ready, d') ->
  kv_torn d < kv_torn d' /\ rc = -1 /\ ready = false \/
  kv_ok d' /\ rest_kept (kv_abs d) (kv_abs d') /\ reconciled (kv_abs d) (kv_abs d') rc mx ready.
Proof using. intros Hok E. by destruct (reconcile_spec realloc_ok _ _ _ _ _ Hok E) as [_ ?]. Qed.

(** When no id has two rows and memory is granted, reconciling returns 0 unless
    a call of the store failed. *)
Theorem todo_index_reconcile_total realloc_ok d rc mx ready d' :
  kv_ok d -> unique_rows (kv_abs d) -> (forall n, realloc_ok n = true) ->
  todo_index_reconcile realloc_ok d = (rc, mx, ready, d') -> rc = 0 \/ kv_faults d < kv_faults d'.
Proof using. apply reconcile_total. Qed.
End index.

Import RefStore.

(** A row of user 5 without its entry, and an orphan entry. *)
Definition demo_row : bytes := render_object [(str "user_id", JNum 5)].
Definition demo_rows : list (bytes * bytes) := [(str "12", demo_row); (index_text 6 7, [])].

Lemma demo_rows_ok : kv_ok demo_rows.
Proof. repeat constructor. Qed.

Lemma demo_rows_unique : unique_rows (kv_abs demo_rows).
Proof.
  intros k k' t [x Hk] [x' Hk'] Ht Ht'. apply elem_of_list_to_map_2 in Hk, Hk'.
  apply elem_of_cons in Hk as [[= -> _]|Hk], Hk' as [[= -> _]|Hk']; try done;
    repeat match goal with H : _ ∈ [_] |- _ => apply list_elem_of_singleton in H; injection H as -> _ end;
    rewrite index_text_not_row in *; done.
Qed.

Lemma todo_index_lookup_correct_witness : exists v,
  todo_index_lookup (fun _ => true) 1 6 demo_rows = (0, v, demo_rows) /\ 7 ∈ items v.
Proof.
  exists (mkVec [7] 32). split; [vm_compute; reflexivity|].
  apply (todo_index_lookup_correct (fun _ => true) 1 6 demo_rows (mkVec [7] 32) demo_rows demo_rows_ok I);
    [split; vm_compute; congruence|vm_compute; reflexivity|].
  split; [split; vm_compute; congruence|]. exists []. vm_compute. reflexivity.
Defined.

Lemma todo_index_reconcile_correct_witness :
  in_step (kv_abs demo_rows) (kv_abs [(str "12", demo_row); (index_text 5 12, [])]).
Proof.
  destruct (todo_index_reconcile_correct (fun _ => true) demo_rows 0 (Some 12) true
    [(str "12", demo_row); (index_text 5 12, [])] demo_rows_ok) as [(_ & Hc & _)|(_ & _ & [(_ & _ & Hs & _)|[Hc _]])];
    [vm_compute; reflexivity|discriminate|exact Hs|discriminate].
Defined.

Lemma todo_index_reconcile_total_witness :
  (todo_index_reconcile (fun _ => true) demo_rows).1.1.1 = 0.
Proof.
  destruct (todo_index_reconcile (fun _ => true) demo_rows) as [[[rc mx] ready] d'] eqn:E.
  destruct (todo_index_reconcile_total (fun _ => true) demo_rows rc mx ready d' demo_rows_ok demo_rows_unique (fun _ => eq_refl) E); [done|].
  exfalso. by eapply Z.lt_irrefl.
Defined.

(** ** The storage engine behind the index *)
(** A new engine as the application's store, and one pair put into it. *)
#[export] Instance demo_kv_store : KvStore kv_db := kv_engine demo_crc 1 0.
#[export] Instance demo_kv_laws : KvStoreLaws kv_db := kv_engine_laws demo_crc 1 0.

Definition demo_pager : pager :=
  match demo_engine with
  | Some g => eng_pager g
  | None => mkPager [] [] [] [] 0 0 (mkWal [] [] 0 0 []) (Pager.mkStats 0 0 0 0) (mkConfig true true) (mkEnv (fun n => (Z.of_nat n, 0)) 0 [] [] [])
  end.
Definition demo_kv : kv_db := mkKv demo_pager (mkTxns ∅ None 1 0 0) [] ∅ 0 0.

Lemma demo_kv_ok : kv_ok demo_kv.
Proof. destruct demo_new as (g & [Eg _] & Hdb & _). exists [1], []. split; [|done]. unfold demo_kv, demo_pager. by rewrite Eg. Qed.

Definition demo_put {D} `{KvStore D} (k v : bytes) (d : D) : D :=
  match kv_begin d with
  | (Some h, d) => kv_free h (kv_commit h (kv_insert h k v d).2)
  | (None, d) => d
  end.

Lemma demo_put_spec {D} `{KvStoreLaws D} k v (d : D) :
  kv_ok d -> storable k v -> kv_abs d !! k = None -> kv_faults (demo_put k v d) = kv_faults d ->
  kv_ok (demo_put k v d) /\ kv_abs (demo_put k v d) = <[k := v]> (kv_abs d).
Proof.
  intros Hok Hst Hk. unfold demo_put. destruct (kv_begin d) as [o d1] eqn:Eb. destruct (kv_begin_law _ _ _ Hok Eb) as (Hok1 & Ha1 & Hl1).
  ghost_after (kv_begin_mono d) Eb. destruct o as [h|]; [|intros Hq; exfalso; ghosts].
  destruct (kv_insert h k v d1) as [rc d2] eqn:Ei. pose proof (kv_insert_law h k v rc d1 d2 Hok1 Hl1 Hst Ei) as Hins.
  ghost_after (kv_insert_mono h k v d1) Ei. rewrite Ha1, Hk in Hins. cbn [snd].
  pose proof (kv_commit_mono h d2) as Mc. pose proof (kv_free_mono h (kv_commit h d2)) as Mf.
  destruct Hins as [(_ & Hok2 & Hl2 & Ha2)|(_ & Hft & _)]; [intros _|intros Hq; exfalso; ghosts].
  destruct (kv_commit_law h d2 Hok2 Hl2) as [Hok3 Ha3]. destruct (kv_free_law h _ Hok3) as [Hok4 Ha4]. split; [done|congruence].
Qed.

(** C31: reconciling over the B-tree, the buffer pool and the log. Three
    things are shown. Unless an insertion of the run failed although its key was
    absent (which may leave a split half done, and then it answers -1 with the
    flag down), the tree is well formed afterwards and every pair that is no index
    entry is as before. In that case, a run that returns 0 has raised the flag,
    reports the highest row id, and the stored index entries are exactly the ones
    of the rows; any other run returns -1 with the flag down. And it does return
    0, when no todo id has two rows and every realloc is granted, unless a call
    of the engine failed without a reason in the stored pairs ([kd_faults], the
    count of such failures, went up). *)
Theorem engine_reconcile_correct crc32 root_page_id now realloc_ok (d : kv_db) rc mx ready d' :
  kd_ok crc32 root_page_id d ->
  @todo_index_reconcile kv_db (kv_engine crc32 root_page_id now) realloc_ok d = (rc, mx, ready, d') ->
  (kd_torn d < kd_torn d' /\ rc = -1 /\ ready = false \/
   kd_ok crc32 root_page_id d' /\ rest_kept (kd_pairs d) (kd_pairs d') /\
   (rc = 0 /\ ready = true /\ in_step (kd_pairs d) (kd_pairs d') /\ (exists x, mx = Some x /\ max_row_id (kd_pairs d) x) \/
    rc = -1 /\ ready = false)) /\
  (unique_rows (kd_pairs d) -> (forall n, realloc_ok n = true) -> rc = 0 \/ kd_faults d < kd_faults d').
Proof.
  intros Hok E. split.
  - exact (proj2 (@reconcile_spec kv_db (kv_engine crc32 root_page_id now) (kv_engine_laws crc32 root_page_id now) realloc_ok _ _ _ _ _ Hok E)).
  - intros Hu Hre. exact (@reconcile_total kv_db (kv_engine crc32 root_page_id now) (kv_engine_laws crc32 root_page_id now) realloc_ok _ _ _ _ _ Hok Hu Hre E).
Qed.

(** A new engine with a row of user 5 and an entry that has no row. *)
Definition demo_stored : kv_db := demo_put (index_text 6 7) [] (demo_put (str "12") demo_row demo_kv).

Lemma demo_stored_ok : kv_ok demo_stored /\ kv_abs demo_stored = kv_abs demo_rows.
Proof.
  destruct (demo_put_spec (str "12") demo_row demo_kv demo_kv_ok) as [H1 E1]; [by split_and!; repeat constructor|done|vm_compute; reflexivity|].
  destruct (demo_put_spec (index_text 6 7) [] (demo_put (str "12") demo_row demo_kv) H1) as [H2 E2];
    [by split_and!; repeat constructor|rewrite E1; vm_compute; reflexivity|vm_compute; reflexivity|].
  split; [exact H2|]. unfold demo_stored. rewrite E2, E1. vm_compute. reflexivity.
Qed.

Lemma demo_stored_quiet : kd_faults (todo_index_reconcile (fun _ => true) demo_stored).2 = kd_faults demo_stored.
Proof. vm_compute. reflexivity. Qed.

Lemma demo_stored_row : kd_pairs demo_stored !! str "12" = Some demo_row.
Proof. change (kv_abs demo_stored !! str "12" = Some demo_row). rewrite (proj2 demo_stored_ok). vm_compute. reflexivity. Qed.

Lemma demo_stored_max x : max_row_id (kd_pairs demo_stored) x -> x = 12.
Proof.
  intros [Hall Hx]. specialize (Hall (str "12") demo_row 12 demo_stored_row eq_refl). destruct Hx as [->|(k & v & Hk & Hp)]; [lia|].
  change (kv_abs demo_stored !! k = Some v) in Hk. rewrite (proj2 demo_stored_ok) in Hk.
  apply elem_of_list_to_map_2 in Hk. apply elem_of_cons in Hk as [[= -> _]|Hk]; [by vm_compute in Hp; injection Hp|].
  apply list_elem_of_singleton in Hk. injection Hk as -> _. by rewrite index_text_not_row in Hp.
Qed.

Lemma demo_stored_entry d' : in_step (kd_pairs demo_stored) (kd_pairs d') -> is_Some (kd_pairs d' !! index_text 5 12).
Proof.
  intros [Hs _]. apply Hs; [split; vm_compute; congruence..|]. exists (str "12"), demo_row. split; [exact demo_stored_row|]. vm_compute. reflexivity.
Qed.

(** The missing entry is written and the orphan removed, in the tree. *)
Lemma engine_reconcile_correct_witness : exists mx d',
  todo_index_reconcile (fun _ => true) demo_stored = (0, mx, true, d') /\ mx = Some 12 /\
  kd_ok demo_crc 1 d' /\ in_step (kd_pairs demo_stored) (kd_pairs d') /\ is_Some (kd_pairs d' !! index_text 5 12).
Proof.
  pose proof demo_stored_quiet as Hq. destruct demo_stored_ok as [Hok Habs].
  destruct (todo_index_reconcile (fun _ => true) demo_stored) as [[[rc mx] ready] d'] eqn:E.
  destruct (engine_reconcile_correct demo_crc 1 0 (fun _ => true) demo_stored rc mx ready d' Hok E) as [Hcase Htot].
  assert (rc = 0) as ->.
  { destruct Htot as [Hrc|Hf]; [|reflexivity|exact Hrc|exfalso; cbn [snd] in Hq; rewrite Hq in Hf; by eapply Z.lt_irrefl].
    change (kd_pairs demo_stored) with (kv_abs demo_stored). rewrite Habs. exact demo_rows_unique. }
  destruct Hcase as [(_ & Hc & _)|(Hok' & _ & [(_ & -> & Hs & x & -> & Hx)|[Hc _]])]; [discriminate| |discriminate].
  exists (Some x), d'. split; [reflexivity|]. assert (x = 12) as -> by exact (demo_stored_max x Hx).
  split; [reflexivity|]. split; [exact Hok'|]. split; [exact Hs|]. exact (demo_stored_entry d' Hs).
Defined.

(** ** Backend selection *)
(** A round-robin pick advances every healthy weight, takes the first slot
    of largest weight and charges it the total, so the healthy weights keep
    their sum; there is no pick exactly when the healthy weights total zero. *)
Theorem round_robin_correct now bs r bs' :
  backend_round_robin_select now bs = (r, bs') ->
  let ready := passive_recovery now bs in
  match r with
  | None => total_weight ready = 0 /\ bs' = ready
  | Some i => total_weight ready <> 0 /\ first_max (map advance ready) 0 (Some i) /\
      bs' = alter (fun b => set_current_weight (current_weight b - total_weight ready) b) i (map advance ready) /\
      hsum current_weight bs' = hsum current_weight ready
  end.
Proof. apply round_robin_spec. Qed.

(** With positive weights and an unchanged healthy set, the weights of a
    settled pool stay settled pick after pick, between minus the total and the
    total times the number of other slots: no [int] overflow, no starvation
    debt that grows. *)
Theorem round_robin_bounds now bs i bs' j b :
  let ready := passive_recovery now bs in
  let T := total_weight ready in
  (forall j b, healthy_at ready j b -> 0 < weight b) -> settled T ready ->
  backend_round_robin_select now bs = (Some i, bs') -> 0 <= T -> healthy_at bs' j b ->
  settled T bs' /\ - T <= current_weight b <= T * (zlen bs' - 1).
Proof.
  intros ready T Hw Hs E HT Hb. pose proof (round_robin_settled now bs i bs' Hw Hs E) as Hs'.
  split; [done|]. split; [by eapply (proj2 Hs')|by eapply settled_upper].
Qed.

(** Least-connections picks a healthy slot with the fewest connections,
    ip-hash and random some healthy slot; each fails only when no slot is
    healthy, and none changes the pool beyond readmitting recovered slots. *)
Theorem selection_healthy now addr rand bs :
  (forall j b, healthy_at (passive_recovery now bs) j b -> 0 <= current_connections b) ->
  let ready := passive_recovery now bs in
  (least_connection_select now bs).2 = ready /\
  match (least_connection_select now bs).1 with
  | Some i => exists b, healthy_at ready i b /\
      forall j c, healthy_at ready j c -> current_connections b <= current_connections c
  | None => no_healthy ready
  end /\
  (ip_hash_select now addr bs).2 = ready /\ chooses_healthy ready (ip_hash_select now addr bs).1 /\
  (random_select now rand bs).2 = ready /\ chooses_healthy ready (random_select now rand bs).1.
Proof.
  intros Hp ready.
  destruct (least_connection_spec now bs _ _ Hp (surjective_pairing _)) as [E1 H1].
  destruct (ip_hash_spec now addr bs _ _ (surjective_pairing _)) as [E2 H2].
  destruct (random_spec now rand bs _ _ (surjective_pairing _)) as [E3 H3].
  rewrite E1 in H1. rewrite E2 in H2. rewrite E3 in H3. done.
Qed.

Definition demo_pool : list backend :=
  [mkBackend 0 5 2 0 0 1 0; mkBackend 0 1 0 0 3 0 100; mkBackend 0 1 1 0 0 1 0].

Lemma round_robin_correct_witness :
  hsum current_weight (backend_round_robin_select 110 demo_pool).2 = 0 /\
  (backend_round_robin_select 110 demo_pool).1 = Some 0%nat.
Proof.
  destruct (backend_round_robin_select 110 demo_pool) as [r bs'] eqn:E. pose proof E as E'.
  vm_compute in E'. injection E' as <- _.
  destruct (round_robin_correct 110 demo_pool (Some 0%nat) bs' E) as (_ & _ & _ & H).
  split; [exact H|reflexivity].
Defined.

Lemma round_robin_bounds_witness : exists bs',
  backend_round_robin_select 110 demo_pool = (Some 0%nat, bs') /\ settled 6 bs'.
Proof.
  exists (backend_round_robin_select 110 demo_pool).2. split; [vm_compute; reflexivity|].
  apply (round_robin_bounds 110 demo_pool 0 _ 0 (mkBackend (-1) 5 2 0 0 1 0)).
  - intros j b [Hj Hb]. destruct j as [|[|[|j]]]; vm_compute in Hj; (discriminate || injection Hj as <-); done.
  - split; [reflexivity|]. intros j b [Hj Hb].
    destruct j as [|[|[|j]]]; vm_compute in Hj; (discriminate || injection Hj as <-); vm_compute; congruence.
  - vm_compute. reflexivity.
  - vm_compute. congruence.
  - split; vm_compute; reflexivity.
Defined.

Lemma selection_healthy_witness :
  (least_connection_select 110 demo_pool).1 = Some 2%nat /\
  chooses_healthy (passive_recovery 110 demo_pool) (ip_hash_select 110 (AF_INET [10; 0; 0; 1]) demo_pool).1.
Proof.
  split; [vm_compute; reflexivity|].
  apply (selection_healthy 110 (AF_INET [10; 0; 0; 1]) 7 demo_pool).
  intros j b [Hj Hb]. destruct j as [|[|[|j]]]; vm_compute in Hj; (discriminate || injection Hj as <-); vm_compute; congruence.
Defined.
