(* ===== verification/NetProps.v ===== *)
(** * HTTP, WebSocket and routing: main theorems

    The claims about http_protocol.c, util.c, connection.c, websocket.c, route.c,
    auth.c and the request framing of worker.c, each with an instance at a
    concrete input. *)
From Stdlib Require Import String.
From S2P Require Import Prelude Text HttpTypes HttpText HttpDate Connection HttpRequest HttpFrame HttpResponse WebSocket Route.

Local Open Scope Z_scope.

(** A connection that has just read [buf]. *)
Definition demo_conn (buf : bytes) : connection :=
  mkConn CONN_STATE_READING_REQUEST false true buf CONN_READ_BUFFER_MIN false [] 0 0
    request_zero true response_zero true 0 [] false false (-1) 0 0 [].

Lemma demo_conn_ok buf : zlen buf <= CONN_READ_BUFFER_MIN -> conn_ok (demo_conn buf).
Proof. intros H. constructor; cbn -[CONN_READ_BUFFER_MIN]; try done; rewrite ?zlen_nil; unfold MAX_RESPONSE_SIZE; lia. Qed.
Lemma demo_conn_mallocs buf : mallocs_ok (demo_conn buf).
Proof. constructor. Qed.




(** A body cut into chunks and written in the chunked coding decodes to the
    body, and the decoder stops exactly where the coding ends, whatever follows. *)
Theorem chunked_coding_roundtrip chs rest :
  Forall chunk_ok chs ->
  http_chunked_decode (chunked_body chs ++ rest) = Some (ChunkDone (flat_map snd chs) (zlen (chunked_body chs))).
Proof. apply http_chunked_roundtrip. Qed.

Lemma chunked_coding_roundtrip_witness :
  http_chunked_decode (chunked_body [([0; 3], str "abc"); ([1], str "d")] ++ str "GET") =
  Some (ChunkDone (str "abcd") 20).
Proof.
  rewrite (chunked_coding_roundtrip [([0; 3], str "abc"); ([1], str "d")] (str "GET")); [vm_compute; reflexivity|].
  repeat constructor; cbn; try done; vm_compute; congruence.
Defined.

(** The date of a Last-Modified header reads back from If-Modified-Since as
    the same second, for every time up to the year 9999. *)
Theorem http_date_reads_back t :
  0 <= t < 253402300800 -> parse_http_date (format_http_date t) = t.
Proof. apply http_date_roundtrip. Qed.

Lemma http_date_reads_back_witness :
  format_http_date 784111777 = str "Sun, 06 Nov 1994 08:49:37 GMT" /\
  parse_http_date (format_http_date 784111777) = 784111777.
Proof. split; [vm_compute; reflexivity|apply http_date_reads_back; lia]. Defined.

(** A range request that is served lies inside the file, whatever Range
    headers the client sent before. *)
Theorem served_range_inside value r size first last :
  range_ok r -> resolve_range (parse_range_header value r) size = Some (first, last) ->
  0 <= first <= last /\ last < size.
Proof. intros Hr. by apply resolve_range_bounds, parse_range_header_ok. Qed.

Lemma served_range_inside_witness :
  resolve_range (parse_range_header (str "bytes=2-900") request_zero) 10 = Some (2, 9) /\ 9 < 10.
Proof.
  split; [vm_compute; reflexivity|].
  apply (served_range_inside (str "bytes=2-900") request_zero 10 2 9);
    [split; [vm_compute; congruence|right; vm_compute; congruence]|vm_compute; reflexivity].
Defined.

(** ** Responses *)
Section responses.
Context (gzip : bytes -> option bytes) (server_name : bytes) (now : Z).

(** C33: a header block is the status line, the server's fields and the
    response's own fields, one per line and in order, with an empty line after
    them; no value can start a line of its own, because a response one of whose
    fields holds CR or LF is refused. *)
Theorem response_not_split response gzipped content_length no_body cap :
  plain_text (resp_version response) = true -> plain_text server_name = true ->
  0 <= resp_status response <= UINT64_MAX -> 0 <= content_length <= UINT64_MAX -> http_time now ->
  http_time (last_modified response) ->
  match build_response_headers server_name now response gzipped content_length no_body cap with
  | Some block => exists lines, block = render_lines lines ++ CRLF /\ zlen block < cap /\
      lines = response_lines server_name now response gzipped content_length no_body /\
      Forall (fun l => plain_text l = true) lines
  | None => clean_fields response = false \/
      cap <= zlen (render_lines (response_lines server_name now response gzipped content_length no_body) ++ CRLF)
  end.
Proof using gzip now server_name.
  intros Hv Hs Hst Hcl Hn Hlm. rewrite build_response_headers_spec.
  destruct (clean_fields response) eqn:Ec; [|by left]. unfold fits.
  destruct (Z.ltb_spec (zlen (render_lines (response_lines server_name now response gzipped content_length no_body) ++ CRLF)) cap);
    [|by right]. eexists. split_and!; [done|done|done|]. by apply response_lines_plain.
Qed.

(** A response is staged whole or not at all: on success the write buffer is
    its headers and then its body, with the announced length; on failure what was
    staged before stays. With memory available it fails only for a field with a
    line break or for a size limit. *)
Theorem send_http_response_correct conn rc conn' :
  conn_ok conn -> send_http_response gzip server_name now conn = (rc, conn') ->
  conn_ok conn' /\ conn_rbuf conn' = conn_rbuf conn /\
  conn_request conn' = conn_request conn /\ conn_response conn' = conn_response conn /\
  (mallocs_ok conn -> mallocs_ok conn' /\
     (rc = 0 <-> clean_fields (conn_response conn) = true /\ zlen (staged_headers gzip server_name now conn) < MAX_HEADERS_SIZE /\
        zlen (staged_headers gzip server_name now conn) + zlen (staged_body gzip conn) <= MAX_RESPONSE_SIZE)) /\
  (rc = 0 /\ conn_wbuf conn' = staged_headers gzip server_name now conn ++ staged_body gzip conn /\
     write_buffer_pos conn' = 0 /\ conn_state conn' = CONN_STATE_WRITING_RESPONSE
   \/ rc = -1 /\ conn_wbuf conn' = conn_wbuf conn /\ conn_state conn' = conn_state conn).
Proof using. apply send_http_response_spec. Qed.
End responses.

Definition demo_response : http_response :=
  set_resp_headers [mkHeader (str "Content-Type") (str "text/plain")]
    (set_resp_body (Some (str "hello")) (set_resp_status 200 response_zero)).

Lemma response_not_split_witness : exists block,
  build_response_headers (str "codo") 0 demo_response false 5 false MAX_HEADERS_SIZE = Some block /\
  exists lines, block = render_lines lines ++ CRLF /\ Forall (fun l => plain_text l = true) lines.
Proof.
  pose proof (response_not_split (fun _ => None) (str "codo") 0 demo_response false 5 false MAX_HEADERS_SIZE) as H.
  destruct (build_response_headers (str "codo") 0 demo_response false 5 false MAX_HEADERS_SIZE) as [block|] eqn:E;
    [|vm_compute in E; discriminate].
  exists block. split; [reflexivity|].
  destruct H as (lines & Hb & _ & _ & Hl); [first [reflexivity|split; vm_compute; congruence]..|]. exists lines. split; [exact Hb|exact Hl].
Defined.

Lemma send_http_response_correct_witness : exists conn',
  send_http_response (fun _ => None) (str "codo") 0 (set_conn_response demo_response (demo_conn [])) = (0, conn') /\
  conn_wbuf conn' = staged_headers (fun _ => None) (str "codo") 0 (set_conn_response demo_response (demo_conn [])) ++ str "hello".
Proof.
  destruct (send_http_response (fun _ => None) (str "codo") 0 (set_conn_response demo_response (demo_conn []))) as [rc c] eqn:E.
  assert (conn_ok (set_conn_response demo_response (demo_conn []))) as Hok
    by (destruct (demo_conn_ok []) as []; [vm_compute; congruence|constructor; assumption]).
  destruct (send_http_response_correct _ _ _ _ rc c Hok E) as (_ & _ & _ & _ & Hm & Hr).
  assert (rc = 0) as -> by (apply Hm; [constructor|vm_compute; split; [reflexivity|split; congruence]]).
  exists c. split; [reflexivity|]. destruct Hr as [(_ & Hw & _)|[? _]]; [exact Hw|discriminate].
Defined.

(** ** WebSocket frames *)
(** Decoding terminates: a pass over the buffered bytes always ends, also on
    frames with zero-length payloads and on malformed ones. *)
Theorem ws_process_frames_total conn :
  nonneg_bytes (conn_rbuf conn) -> is_Some (ws_process_frames conn).
Proof.
  intros Hb. rewrite ws_process_frames_run by done.
  destruct (ws_run_total (length (conn_rbuf conn)) (read_buffer_cap conn) (conn_rbuf conn) conn Hb (Nat.le_refl _))
    as [[[rest close] c] ->]. cbn. by eexists.
Qed.

(** C37: how the kernel cuts the byte stream does not matter: decoding what has
    arrived and then the rest gives the frames, replies and leftover bytes of
    decoding everything at once; after a close nothing more is decoded. *)
Theorem ws_delivery_independent conn b close c1 :
  nonneg_bytes (conn_rbuf conn) -> nonneg_bytes b ->
  ws_process_frames conn = Some (close, c1) ->
  ws_process_frames (set_conn_rbuf (conn_rbuf conn ++ b) conn) =
  (if close then Some (true, set_conn_rbuf (conn_rbuf c1 ++ b) c1)
   else ws_process_frames (set_conn_rbuf (conn_rbuf c1 ++ b) c1)).
Proof. apply ws_process_frames_pieces. Qed.

Lemma sent_length ms : (length ms <= length (flat_map sent ms))%nat.
Proof.
  induction ms as [|m ms IH]; cbn [flat_map length]; [lia|]. rewrite length_app.
  enough (0 < length (sent m))%nat by lia. unfold sent, client_frame, frame_header. cbn. lia.
Qed.

(** Complete text and binary messages, masked by the client as RFC 6455
    requires, are echoed unmasked, in order, with the same opcode and payload,
    and consumed; a partial frame after them stays buffered. *)
Theorem ws_echoes_messages ms part conn :
  conn_ok conn -> mallocs_ok conn -> Forall (message_ok (read_buffer_cap conn)) ms ->
  nonneg_bytes (conn_rbuf conn) -> conn_rbuf conn = flat_map sent ms ++ part ->
  zlen (conn_wbuf conn) + zlen (flat_map echoed ms) <= MAX_RESPONSE_SIZE ->
  ws_decode part (read_buffer_cap conn) = WsMore ->
  exists conn', ws_process_frames conn = Some (false, conn') /\ conn_ok conn' /\
    conn_wbuf conn' = conn_wbuf conn ++ flat_map echoed ms /\ conn_rbuf conn' = part.
Proof.
  intros Hok Hm Hms Hnn Hb Hw Hp. rewrite ws_process_frames_run by done. rewrite Hb.
  pose proof (sent_length ms) as Hl.
  replace (length (flat_map sent ms ++ part)) with (length ms + (length part + (length (flat_map sent ms) - length ms)))%nat
    by (rewrite length_app; lia).
  destruct (ws_run_echo ms (length part + (length (flat_map sent ms) - length ms)) (read_buffer_cap conn) part conn Hok Hm Hms Hw)
    as (c & -> & [Hr1 Hr2 Hr3 Hr4 Hr5] & _ & Hwb & Hrb).
  assert (forall k, ws_run (length part + k) (read_buffer_cap conn) part c = Some (part, false, c)) as ->.
  { intros k. destruct part; [by destruct k|]. cbn. cbn in Hp. by rewrite Hp. }
  cbn. eexists. split; [done|]. split; [|done]. constructor; cbn; try done.
  rewrite Hrb, Hb, zlen_app in Hr1. pose proof (zlen_nonneg (flat_map sent ms)). lia.
Qed.

Definition demo_messages : list message :=
  [mkMessage WS_OP_TEXT [1; 2; 3; 4] (str "hello"); mkMessage WS_OP_BINARY [9; 8; 7; 6] [0; 255; 7]].
Definition demo_frames : bytes := flat_map sent demo_messages ++ [129].

Lemma demo_frames_nonneg : nonneg_bytes demo_frames.
Proof. repeat constructor; vm_compute; congruence. Qed.

Lemma ws_process_frames_total_witness : is_Some (ws_process_frames (demo_conn demo_frames)).
Proof. exact (ws_process_frames_total (demo_conn demo_frames) demo_frames_nonneg). Defined.

Lemma ws_delivery_independent_witness :
  let first := demo_conn (ztake 3 demo_frames) in
  ws_process_frames first = Some (false, first) /\
  ws_process_frames (set_conn_rbuf (conn_rbuf first ++ zdrop 3 demo_frames) first) =
  ws_process_frames (demo_conn demo_frames).
Proof.
  split; [vm_compute; reflexivity|].
  apply (ws_delivery_independent (demo_conn (ztake 3 demo_frames)) (zdrop 3 demo_frames) false (demo_conn (ztake 3 demo_frames)));
    [repeat constructor; vm_compute; congruence|repeat constructor; vm_compute; congruence|vm_compute; reflexivity].
Defined.

Lemma ws_echoes_messages_witness : exists conn',
  ws_process_frames (demo_conn demo_frames) = Some (false, conn') /\ conn_rbuf conn' = [129] /\
  conn_wbuf conn' = [129; 5; 104; 101; 108; 108; 111; 130; 3; 0; 255; 7].
Proof.
  destruct (ws_echoes_messages demo_messages [129] (demo_conn demo_frames)) as (c & H1 & _ & H2 & H3).
  - apply demo_conn_ok. vm_compute. congruence.
  - apply demo_conn_mallocs.
  - constructor; [split; [left; reflexivity|vm_compute; repeat split; congruence]|].
    constructor; [split; [right; reflexivity|vm_compute; repeat split; congruence]|constructor].
  - exact demo_frames_nonneg.
  - reflexivity.
  - vm_compute. congruence.
  - vm_compute. reflexivity.
  - exists c. split; [exact H1|]. split; [exact H3|]. rewrite H2. vm_compute. reflexivity.
Defined.

(** ** Routing, API keys, static files *)
(** A request goes to a route of its method that matches exactly, to a
    wildcard route only when no route matches exactly, and to no route only
    when none matches either way. *)
Theorem find_route_correct {H} uri method (routes : list (route H)) :
  match find_route uri method routes with
  | Some r => r ∈ routes /\ rt_method r = method /\
      (exact_match uri method r = true \/
       wildcard_match uri method r = true /\ forall r', r' ∈ routes -> exact_match uri method r' = false)
  | None => forall r, r ∈ routes -> exact_match uri method r = false /\ wildcard_match uri method r = false
  end.
Proof. apply find_route_spec. Qed.

(** A guarded request passes the API-key check exactly when the key it
    presents is one of the configured keys; without a key it is answered 401,
    with another key 403, and the handler does not run. *)
Theorem auth_middleware_correct gzip server_name now keys next conn :
  Forall text_ok keys ->
  (forall key, presented_key (conn_request conn) = Some key -> text_ok key) ->
  auth_middleware gzip server_name now keys next conn =
  if guarded keys (conn_request conn) then
    match presented_key (conn_request conn) with
    | None | Some [] => Some (send_error_json gzip server_name now HTTP_UNAUTHORIZED (str "missing API key") conn)
    | Some key => if bool_decide (key ∈ keys) then next conn
                  else Some (send_error_json gzip server_name now HTTP_FORBIDDEN (str "invalid API key") conn)
    end
  else next conn.
Proof. apply auth_middleware_spec. Qed.

(** C39: a static file is opened only under the resolved document root: the path
    is the root or continues it with a slash, and comes from a request path that
    holds no parent step once decoded. *)
Theorem static_files_confined fs root malloc_ok uri path :
  static_path fs root malloc_ok uri = inr path ->
  exists real_root rel decoded, fs_realpath fs root = Some real_root /\
    path = real_root ++ rel /\ (rel = [] \/ exists rel', rel = 47 :: rel') /\
    url_decode malloc_ok uri = Some decoded /\ is_valid_uri decoded = true.
Proof. apply static_path_inside. Qed.

Definition demo_keys : list bytes := [str "k1"; str "secret"].
Definition demo_post (key : bytes) : connection :=
  set_conn_request (set_req_method HTTP_POST (set_req_uri (str "/api/echo")
    (set_req_headers [mkHeader (str "x-api-key") key] request_zero))) (demo_conn []).

Lemma auth_middleware_correct_witness :
  auth_middleware (fun _ => None) (str "codo") 0 demo_keys (fun c => Some (7, c)) (demo_post (str "secret")) =
    Some (7, demo_post (str "secret")) /\
  auth_middleware (fun _ => None) (str "codo") 0 demo_keys (fun c => Some (7, c)) (demo_post (str "secre")) =
    Some (send_error_json (fun _ => None) (str "codo") 0 HTTP_FORBIDDEN (str "invalid API key") (demo_post (str "secre"))).
Proof.
  split.
  - etransitivity; [apply (auth_middleware_correct (fun _ => None) (str "codo") 0 demo_keys (fun c => Some (7, c)) (demo_post (str "secret")))|].
    + repeat constructor.
    + intros key [= <-]. repeat constructor.
    + vm_compute. reflexivity.
  - etransitivity; [apply (auth_middleware_correct (fun _ => None) (str "codo") 0 demo_keys (fun c => Some (7, c)) (demo_post (str "secre")))|].
    + repeat constructor.
    + intros key [= <-]. repeat constructor.
    + vm_compute. reflexivity.
Defined.

(** A file system with one page under the root. *)
Definition demo_fs : fs :=
  mkFs (fun p => bool_decide (p = str "www/a b.html"))
    (fun p => if bool_decide (p = str "www") then Some (str "/srv/www")
              else if bool_decide (p = str "www/a b.html") then Some (str "/srv/www/a b.html") else None)
    (fun _ => None).

Lemma static_files_confined_witness :
  exists rel, str "/srv/www/a b.html" = str "/srv/www" ++ rel /\ (rel = [] \/ exists rel', rel = 47 :: rel').
Proof.
  destruct (static_files_confined demo_fs (str "www") true (str "/a%20b.html") (str "/srv/www/a b.html"))
    as (root & rel & _ & Hr & Hp & Hrel & _); [vm_compute; reflexivity|].
  vm_compute in Hr. injection Hr as <-. exists rel. split; [exact Hp|exact Hrel].
Defined.
