(* ===== verification/ServerProps.v ===== *)
(** * The worker and the handlers: main theorems

    The claims about worker.c, connection_pool.c and the services built on the
    storage interface, each with an instance at a concrete input. *)
From Stdlib Require Import String.
From stdpp Require Import relations.
From S2P Require Import Prelude Text HttpTypes HttpText Connection HttpRequest HttpFrame HttpResponse WebSocket Route Selection Worker WorkerProofs WorkerList Pipeline Handlers.

Local Open Scope Z_scope.

(** ** Serving requests *)
Section serving.
Context (gzip : bytes -> option bytes) (server_name : bytes) (now : Z).
Context (inet_pton4 inet_pton6 : bytes -> option bytes) (cfg : config) (answer : http_request -> bytes).



(** Sending a handler to the storage pool changes nothing the client sees:
    the pool thread's run leaves the connection, its socket and its staged
    response as an inline run would; while it runs the socket is parked and the
    connection is marked as the pool's. *)
Theorem offload_transparent f w w3 :
  w_epoll w = [] -> w_submits w = [] -> w_offloaded w = false -> w_task w = None -> conn_malloc (w_conn w) = [] ->
  respond gzip server_name now cfg (Some f) w = Some (0, w3) ->
  exists w1, dispatch_offloaded f w = (true, w1) /\ w_offloaded w1 = true /\ w_interest w1 = EPOLLET /\ w_conn w1 = w_conn w /\
    run_offloaded_handler gzip server_name now cfg w1 = Some (set_w_last_activity now w3).
Proof using. apply offload_inline. Qed.

(** Staged bytes reach the peer once and in order: however the socket cuts
    the writes, what has been sent followed by what is pending is what was
    staged; the flush reports completion exactly when nothing is pending, and a
    later call resumes where this one stopped. *)
Theorem flush_delivers w :
  0 <= write_buffer_pos (w_conn w) ->
  exists rc w', flush_write_buffer now w = Some (rc, w') /\
    w_sent w' ++ pending w' = w_sent w ++ pending w /\
    (rc = 0 <-> pending w' = []) /\ (rc = 0 \/ rc = 1 \/ rc = -1) /\
    conn_wbuf (w_conn w') = conn_wbuf (w_conn w) /\ conn_rbuf (w_conn w') = conn_rbuf (w_conn w) /\
    0 <= write_buffer_pos (w_conn w').
Proof using.
  intros Hp. destruct (flush_write_buffer_spec now w Hp) as (rc & w' & E & [(p & Hc & Hle & _) Hb _ _ _ Hd Hr]).
  exists rc, w'. rewrite Hc in Hd. cbn in Hd. split; [done|]. split; [done|]. rewrite Hc. cbn. split_and!; try done; [|lia].
  rewrite Hd. unfold pending. rewrite Hc. cbn. split; [apply zdrop_all|]. intros Hz.
  assert (zlen (zdrop p (conn_wbuf (w_conn w))) = 0) as Hz0 by (by rewrite Hz). rewrite zlen_zdrop in Hz0. lia.
Qed.
End serving.



(** ** Instances *)
(** A server whose every request gets the greeting. *)
Definition demo_cfg : config :=
  mkConfig 65536 false true [] (Some (api_hello_handler (fun _ => None) (str "codo") 0)) [] false true.


Definition demo_wconn (buf : bytes) (writes : list send_answer) : wconn :=
  mkW (mkConn CONN_STATE_READING_REQUEST false true buf CONN_READ_BUFFER_MIN false [] 0 0
         request_zero true response_zero true 0 [] false false (-1) 0 0 [])
    AF_OTHER false false None 0 false 0 [] writes [] [] [] [] EPOLLIN [] 0 0 0.

Definition demo_tail : bytes := str "GET /c HT".





Lemma offload_transparent_witness : exists w1 w3,
  let w := demo_wconn demo_tail [] in let f := api_hello_handler (fun _ => None) (str "codo") 0 in
  dispatch_offloaded f w = (true, w1) /\ w_interest w1 = EPOLLET /\
  respond (fun _ => None) (str "codo") 0 demo_cfg (Some f) w = Some (0, w3) /\
  run_offloaded_handler (fun _ => None) (str "codo") 0 demo_cfg w1 = Some (set_w_last_activity 0 w3) /\
  (0 <? zlen (conn_wbuf (w_conn w3))) = true.
Proof.
  destruct (respond (fun _ => None) (str "codo") 0 demo_cfg (Some (api_hello_handler (fun _ => None) (str "codo") 0)) (demo_wconn demo_tail []))
    as [[rc w3]|] eqn:E; [|vm_compute in E; discriminate].
  assert ((rc = 0) /\ (0 <? zlen (conn_wbuf (w_conn w3))) = true) as [-> Hz]
    by (vm_compute in E; injection E as <- <-; split; reflexivity).
  destruct (offload_transparent (fun _ => None) (str "codo") 0 demo_cfg
    (api_hello_handler (fun _ => None) (str "codo") 0) (demo_wconn demo_tail []) w3) as (w1 & H1 & _ & H3 & _ & H5); try done.
  exists w1, w3. split; [exact H1|]. split; [exact H3|]. split; [exact E|]. split; [exact H5|exact Hz].
Defined.

Definition demo_staged : wconn :=
  map_conn (set_conn_wbuf (str "HTTP/1.1 200 OK")) (demo_wconn [] [SendUpTo 4; SendAgain]).

Lemma flush_delivers_witness : exists w',
  flush_write_buffer 0 demo_staged = Some (1, w') /\ w_sent w' = str "HTTP" /\ pending w' = str "/1.1 200 OK".
Proof.
  destruct (flush_delivers 0 demo_staged) as (rc & w' & E & H1 & H2 & H3 & H4 & _).
  { cbn. lia. }
  vm_compute in E. injection E as <- <-. eexists. split; [reflexivity|]. split; [reflexivity|].
  apply (app_inv_head (str "HTTP")). exact H1.
Defined.



