(* ===== verification/AppProps.v ===== *)
(** * Accounts and todos: main theorems

    The claims about crypto.c, user_auth.c and todo_handlers.c over the
    database and cache interfaces, each with an instance on concrete stores. *)
From Stdlib Require Import String.
From stdpp Require Import relations.
From S2P Require Import Prelude Text BtreePage Lru Json Jwt TodoIndex KvEngine TodoCache HttpTypes HttpText Connection HttpResponse Route Crypto Users Todos TodoProofs ServiceProps.

Local Open Scope Z_scope.

(** ** The locked pool *)
(** C35: whatever its users allocate, write and free, the regions of the locked
    pool that are handed out lie inside it and do not overlap, and every byte of
    a block that nobody holds is zero: no key material outlives its release. *)
Theorem secure_pool_sound size p held :
  0 <= size <= UINT64_MAX - SECURE_BLOCK_SIZE -> rtc pstep (fresh_pool size, []) (p, held) ->
  (forall ptr n, (ptr, n) ∈ held -> 0 <= ptr /\ ptr + n <= pool_size p) /\
  (forall i j p1 n1 p2 n2, i <> j -> held !! i = Some (p1, n1) -> held !! j = Some (p2, n2) -> p1 + n1 <= p2 \/ p2 + n2 <= p1) /\
  (forall off, 0 <= off < total_blocks p * SECURE_BLOCK_SIZE ->
     (forall ptr n, (ptr, n) ∈ held -> ~ (ptr <= off < ptr + blocks_needed n * SECURE_BLOCK_SIZE)) ->
     pool_memory p !! Z.to_nat off = Some 0).
Proof.
  intros Hs Hr.
  assert (held_ok (p, held)) as Ho.
  { eapply held_ok_run; [exact Hr|]. constructor; cbn; [by apply fresh_secure_pool_inv|by intros ? ? ?%not_elem_of_nil]. }
  split_and!; [intros; by eapply held_inside|intros; by eapply held_apart|intros; by eapply held_clean].
Qed.

Lemma secure_pool_sound_witness : exists p held,
  rtc pstep (fresh_pool 256, []) (p, held) /\ held = [(128, 64); (0, 65)] /\ 0 + 65 <= 128.
Proof.
  set (p1 := (secure_malloc 65 (fresh_pool 256)).2). set (p2 := (secure_malloc 64 p1).2).
  assert (rtc pstep (fresh_pool 256, []) (p2, [(128, 64); (0, 65)])) as Hr.
  { eapply rtc_l; [apply (ps_malloc 65 0 (fresh_pool 256) p1); [split; vm_compute; congruence|reflexivity]|].
    apply rtc_once, (ps_malloc 64 128 p1 p2); [split; vm_compute; congruence|reflexivity]. }
  exists p2, [(128, 64); (0, 65)]. split; [exact Hr|]. split; [reflexivity|].
  destruct (secure_pool_sound 256 p2 _ ltac:(split; vm_compute; congruence) Hr) as (_ & Ha & _).
  destruct (Ha 1%nat 0%nat 0 65 128 64 ltac:(done) eq_refl eq_refl) as [H|H]; [exact H|]. exfalso. revert H. vm_compute. congruence.
Defined.

(** A size close to the largest [size_t] wraps in the block count: the request is
    granted one block. *)
Example secure_malloc_wraps : (secure_malloc UINT64_MAX (fresh_pool 128)).1 = Some 0 /\ blocks_needed UINT64_MAX = 1.
Proof. split; reflexivity. Qed.

(** ** Accounts *)
Section accounts.
Context (gzip : bytes -> option bytes) (server_name : bytes).
Context (HMAC : bytes -> bytes -> option bytes) (secret : bytes) (token_ttl : Z).
Context (PBKDF2 : bytes -> bytes -> Z -> Z -> option bytes).
Context (PBKDF2_key : forall pw salt it n k, PBKDF2 pw salt it n = Some k -> Forall is_byte k /\ zlen k = n).
Context {D : Type} `{KvStoreLaws D}.

(** A login answers a token only for an account that is stored under the
    given name, and only when the key derived from the given password and the
    stored salt is the stored hash; every other answer is an error. It changes
    no row, and the locked pool is byte for byte as it was. *)
Theorem login_sound now conn a name pw live r a' :
  kv_ok (acc_db a) -> pool_inv (acc_pool a) live -> parse_credentials gzip server_name now conn = inr (name, pw) ->
  user_login_handler gzip server_name now HMAC secret token_ttl PBKDF2 conn a = (r, a') ->
  kv_ok (acc_db a') /\ kv_abs (acc_db a') = kv_abs (acc_db a) /\ acc_pool a' = acc_pool a /\ next_user_id a' = next_user_id a /\
  ((exists msg, r = send_error_response gzip server_name now HTTP_INTERNAL_SERVER_ERROR msg conn) \/
   r = send_error_json gzip server_name now HTTP_UNAUTHORIZED (str "invalid username or password") conn \/
   exists u tok, account (kv_abs (acc_db a)) name = Some u /\
     PBKDF2 pw (user_salt u) (to_int (user_iterations u)) PW_HASH_SIZE = Some (user_hash u) /\
     jwt_create (crypto_hmac_sha256 HMAC) secret (user_id u) (user_name u) now token_ttl 512 = Some tok /\
     r = send_json_response gzip server_name now HTTP_OK (login_text token_ttl u tok) conn).
Proof using PBKDF2_key.
  intros Hok Hi Hp E. destruct (user_login_spec gzip server_name HMAC secret token_ttl PBKDF2 PBKDF2_key _ _ _ _ _ _ _ _ Hok Hi Hp E)
    as (H1 & H2 & H3 & H4 & _ & H5). done.
Qed.

Context (HMAC_tag : forall k m t, HMAC k m = Some t -> Forall is_byte t /\ zlen t = 32) (secret_set : secret <> []).

(** C34: registering a valid name and password, with a salt drawn. Every
    answer has its reason ([register_outcome]): 500 because the key derivation
    failed or the locked pool is full, and then nothing has changed; otherwise the
    id counter has advanced, also when the registration is refused, and
    - the new account's row, and nothing else, was added to a name that was free:
      201 with a token that verifies to the new identity until it expires, or 500
      when the MAC could not be computed, with the account stored all the same;
    - no row changed: 409 for a name that is taken, 500 when no transaction could
      be begun;
    - 409 although the name was free: the insertion failed for a reason of the
      store's own, which may leave the tree torn.
    Unless it is torn, accounts stay well formed: one per name, ids distinct and
    below the counter. When no call of the store fails, key derivation and MAC
    work and the pool has room, the answer is 201 with the account stored exactly
    when the name is free. *)
Theorem register_correct now salt conn a name pw live r a' :
  kv_ok (acc_db a) -> pool_inv (acc_pool a) live -> 0 < next_user_id a < UINT64_MAX ->
  token_time token_ttl now -> accounts_inv (kv_abs (acc_db a)) (next_user_id a) ->
  parse_credentials gzip server_name now conn = inr (name, pw) -> username_valid name = true -> MIN_PASSWORD_LEN <= zlen pw ->
  Forall is_byte salt -> zlen salt = PW_SALT_SIZE ->
  user_register_handler gzip server_name now HMAC secret token_ttl PBKDF2 (Some salt) conn a = (r, a') ->
  let m := kv_abs (acc_db a) in
  kv_le (acc_db a) (acc_db a') /\
  register_outcome gzip server_name HMAC secret token_ttl PBKDF2 now conn live name pw salt a r a' /\
  (kv_torn (acc_db a') = kv_torn (acc_db a) -> kv_ok (acc_db a') /\ accounts_inv (kv_abs (acc_db a')) (next_user_id a')) /\
  (kv_faults (acc_db a') = kv_faults (acc_db a) -> has_room (acc_pool a) live -> ~ no_mac HMAC secret ->
   forall h, PBKDF2 pw salt PBKDF2_ITERATIONS PW_HASH_SIZE = Some h ->
   let u := mkUser (next_user_id a) name salt h PBKDF2_ITERATIONS in
   match account m name with
   | Some _ => r = send_error_json gzip server_name now HTTP_CONFLICT (str "username already exists") conn /\ kv_abs (acc_db a') = m
   | None => account (kv_abs (acc_db a')) name = Some u /\ kv_abs (acc_db a') = <[user_key name := user_text u]> m /\
       exists tok, r = send_json_response gzip server_name now HTTP_CREATED (register_text token_ttl (user_id u) name tok) conn /\
         token_for HMAC secret token_ttl now u tok
   end).
Proof using PBKDF2_key HMAC_tag secret_set.
  intros Hok Hi Hid Htime Hacc Hp Hv Hpw Hsb Hsl E m.
  destruct (user_register_spec gzip server_name HMAC secret token_ttl PBKDF2 PBKDF2_key HMAC_tag secret_set
    now salt conn a name pw live r a' Hok Hi ltac:(lia) Htime Hp Hv Hpw Hsb Hsl E) as [Hle Hout].
  split; [exact Hle|]. split; [exact Hout|]. unfold register_outcome in Hout. fold m in Hout.
  assert (forall h, PBKDF2 pw salt PBKDF2_ITERATIONS PW_HASH_SIZE = Some h -> let u := mkUser (next_user_id a) name salt h PBKDF2_ITERATIONS in
    user_ok u /\ accounts_inv (<[user_key name := user_text u]> m) (next_user_id a + 1)) as Hnew.
  { intros h Hh u. assert (user_ok u) as Hu.
    { constructor; cbn -[PBKDF2_ITERATIONS]; [lia|done|done|by eapply PBKDF2_key|]. unfold PBKDF2_ITERATIONS, UINT64_MAX. lia. }
    split; [done|]. apply (accounts_register _ _ u); [done|lia|done|done|]. vm_compute. reflexivity. }
  split.
  - intros Ht. destruct Hout as [(_ & -> & _)|(h & Hh & _ & En & [(Hok' & _ & -> & _)|[(Hok' & -> & _)|(_ & _ & _ & ?)]])]; [done| | |lia]; rewrite En; (split; [done|]).
    + by apply Hnew.
    + by apply accounts_inv_next.
  - intros Hf Hroom Hmac h Hh u. destruct (Hnew h Hh) as [Hu _].
    destruct Hout as [(_ & _ & [?|?])|(h' & Hh' & _ & _ & Hcase)]; [congruence|done|]. assert (h' = h) as -> by congruence. fold u in Hcase.
    destruct Hcase as [(_ & Hn & Ha & [(tok & -> & Htok)|[_ ?]])|[(_ & Ha & [[-> [x Hx]]|[_ ?]])|(_ & _ & ? & _)]]; try done; try lia.
    + assert (account m name = None) as -> by (unfold account; by rewrite Hn). split_and!; [|done|by exists tok].
      rewrite Ha. apply account_text; [|done]. by rewrite lookup_insert_eq.
    + destruct (ai_rows _ _ Hacc _ _ Hx) as (w & Hw & _ & -> & _). by rewrite (account_text _ _ w Hx Hw).
Qed.


(** A start on a database of accounts leaves the rows as they are and, unless
    a call of the store failed, sets the next user id above every id in use, so
    ids stay distinct across restarts. *)
Theorem user_ids_survive_restart pool sec env_secret random ttl d next :
  kv_ok d -> accounts_inv (kv_abs d) next -> 0 < next <= UINT64_MAX -> (jwt_init sec env_secret random).2 = 0 ->
  exists a d', user_api_init (Some pool) sec env_secret random ttl d =
      (Some (a, (jwt_init sec env_secret random).1, if ttl >? 0 then ttl else 3600), d') /\
    acc_db a = d' /\ acc_pool a = pool /\ kv_ok d' /\ kv_abs d' = kv_abs d /\
    (kv_faults d < kv_faults d' \/ 0 < next_user_id a <= next /\ accounts_inv (kv_abs d) (next_user_id a)).
Proof using.
  intros Hok Ha Hn Hj. destruct (user_api_init_spec pool sec env_secret random ttl d next Hok Ha Hn Hj) as (a & d' & H1 & H2 & H3 & H4 & H5 & _ & H6).
  by exists a, d'.
Qed.
End accounts.

(** Behind the token middleware a handler of a guarded path runs only for a
    bearer token that verifies, with that token's user as the connection's
    identity; otherwise the client gets a 401 with the identity cleared. On every
    other path the handler runs with no identity, whatever the connection
    carried before. *)
Theorem jwt_middleware_correct gzip server_name now HMAC secret next conn :
  let clean := with_identity 0 [] conn in
  let run := jwt_middleware gzip server_name now HMAC secret next conn in
  if path_requires_jwt (req_uri (conn_request conn)) then
    (exists authz tok id name, request_header (conn_request conn) (str "Authorization") = Some authz /\ bearer_value authz = Some tok /\
       jwt_verify (crypto_hmac_sha256 HMAC) secret tok now AUTH_USERNAME_SIZE = JWT_OK id name /\ id <> 0 /\
       run = next (with_identity id (snprintf_s AUTH_USERNAME_SIZE (cstr name)) clean)) \/
    (exists msg, run = Some (send_error_json gzip server_name now HTTP_UNAUTHORIZED msg clean))
  else run = next clean.
Proof.
  cbv zeta. unfold jwt_middleware. change (conn_request (with_identity 0 [] conn)) with (conn_request conn).
  destruct (path_requires_jwt (req_uri (conn_request conn))); cbn [negb]; [|done].
  destruct (request_header (conn_request conn) (str "Authorization")) as [authz|] eqn:Eh; cbn [mbind option_bind]; [|right; by eexists].
  destruct (bearer_value authz) as [[|c tok]|] eqn:Eb; [right; by eexists| |right; by eexists].
  destruct (jwt_verify _ _ _ _ _) as [id name| |] eqn:Ev; [|right; by eexists|right; by eexists].
  destruct (Z.eqb_spec id 0) as [->|Hid]; [right; by eexists|]. left. exists authz, (c :: tok), id, name. done.
Qed.

(** ** Todos *)
Section todos.
Context (gzip : bytes -> option bytes) (server_name : bytes) (now : Z) (realloc_ok : Z -> bool).
Context {D : Type} `{KvStoreLaws D} {C A : Type} `{TodoCacheLaws C A}.

Abbreviation fail := (fail_response gzip server_name now).
Abbreviation answer := (send_json_response gzip server_name now).

(** C26: creating a todo. On a service in step, the todo gets the next id, which
    no todo has; when its row fits a record and no call of the store fails, the
    answer is 201 with the row and the service holds exactly one more todo, owned
    by the caller, with row, index entry and cache in step. A row that does not
    fit is answered 413 and no todo changes; the counter advances in every case.
    Whatever fails, short of an insertion that tears the store: keys that belong
    to no todo keep their values; a 201 means the new todo is stored beside the
    old ones; with a 413, or the 500 of a transaction that cannot be begun, the
    stored todos are the old ones; with the 500 of a failed insertion they are the
    old ones, or the old ones and the new one (the roll back may fail too). *)
Theorem todo_create_correct a conn t T title completed r t' :
  let id := next_todo_id t in
  let x := mkTodo (auth_user_id conn) title completed in
  stored t T -> tc_fresh a (td_cache t) -> id < UINT64_MAX -> u64_range (auth_user_id conn) ->
  todo_body (conn_request conn) = inr (title, completed) -> (forall b, req_body (conn_request conn) = Some b -> Forall is_byte b) ->
  todo_create_handler gzip server_name now a conn t = (r, t') ->
  (not_torn t t' -> others_kept t t' /\
   (r = answer HTTP_CREATED (row_text id x) conn /\ T !! id = None /\ stored t' (<[id := x]> T) \/
    (r = fail HTTP_PAYLOAD_TOO_LARGE (str "Todo too large") conn \/ r = fail HTTP_INTERNAL_SERVER_ERROR (str "Transaction failed") conn) /\
    stored t' T \/
    r = fail HTTP_INTERNAL_SERVER_ERROR (str "Insert failed") conn /\ (stored t' T \/ T !! id = None /\ stored t' (<[id := x]> T)))) /\
  (service t T -> T !! id = None /\ next_todo_id t' = id + 1 /\
   if zlen (row_text id x) <? MAX_VALUE_SIZE then
     no_faults t t' -> r = answer HTTP_CREATED (row_text id x) conn /\ service t' (<[id := x]> T)
   else r = fail HTTP_PAYLOAD_TOO_LARGE (str "Todo too large") conn /\ service t' T).
Proof using.
  intros id x Hs Hf Hi Hu Hb Hby E. pose proof (todo_body_bytes _ _ _ Hby Hb) as Ht. split.
  - by apply (todo_create_stored gzip server_name now a conn t T title completed r t').
  - intros Hsv. destruct (todo_create_spec gzip server_name now a conn t T title completed r t' Hsv Hf Hi Hu Hb Ht E) as (Hnew & Hnext & H3).
    split; [done|]. split; [done|]. fold id x in H3. destruct (_ <? _); [|done]. intros Hq. unfold no_faults in Hq. destruct H3 as [?|?]; [lia|done].
Qed.

(** C25: reading a todo, from the cache or from storage, on a service in step:
    its owner is answered the row, and everybody else 404, exactly as for an id
    without a todo, unless a call of the store failed (a 500, or a 404 for a row
    that could not be read). The service holds the same todos afterwards, index
    and cache in step, whatever failed. *)
Theorem todo_get_correct a conn t T key id r t' :
  service t T -> tc_fresh a (td_cache t) -> extract_id (req_uri (conn_request conn)) TODO_KEY_MAX = Some (key, id) ->
  todo_get_handler gzip server_name now a conn t = (r, t') ->
  service t' T /\ others_kept t t' /\
  (r = match owned (auth_user_id conn) (at_key T key id) with
       | Some x => answer HTTP_OK (row_text id x) conn
       | None => fail HTTP_NOT_FOUND (str "Todo not found") conn
       end \/
   kv_faults (td_db t) < kv_faults (td_db t') /\
   (r = fail HTTP_INTERNAL_SERVER_ERROR (str "Transaction failed") conn \/ r = fail HTTP_NOT_FOUND (str "Todo not found") conn)).
Proof using.
  intros Hs Hf He E. destruct (todo_get_spec gzip server_name now a conn t T key id r t' Hs Hf He E) as (Hs' & Ho & Hr).
  split; [done|]. split; [done|]. destruct Hr as [->|Hr]; [left|by right].
  unfold shown, owned. destruct (at_key T key id) as [x|]; [|done]. cbn [mbind option_bind]. by destruct (todo_owner x =? auth_user_id conn).
Qed.

(** C27: updating a todo. Whatever fails, short of an insertion that tears the
    store: only a todo its caller owns changes, to the new title and flag, and
    then the answer is 200; with every other answer (413, 404, 500) all todos are
    as before. On a service in step: a row that does not fit is answered 413; when
    no call of the store fails, the answer is 200 for the caller's own todo and
    404 for any other id; and the cache shows the new row if it got the memory for
    its copy (otherwise the old row stays there). *)
Theorem todo_update_correct a conn t T key id title completed r t' :
  let y := mkTodo (auth_user_id conn) title completed in
  stored t T -> tc_fresh a (td_cache t) -> u64_range (auth_user_id conn) ->
  extract_id (req_uri (conn_request conn)) TODO_KEY_MAX = Some (key, id) ->
  todo_body (conn_request conn) = inr (title, completed) -> (forall b, req_body (conn_request conn) = Some b -> Forall is_byte b) ->
  todo_update_handler gzip server_name now a conn t = (r, t') ->
  (not_torn t t' -> others_kept t t' /\
   (is_Some (owned (auth_user_id conn) (at_key T key id)) /\ r = answer HTTP_OK (row_text id y) conn /\ stored t' (<[id := y]> T) \/
    (r = fail HTTP_PAYLOAD_TOO_LARGE (str "Todo too large") conn \/ r = fail HTTP_NOT_FOUND (str "Todo not found") conn \/
     r = fail HTTP_INTERNAL_SERVER_ERROR (str "Transaction failed") conn \/ r = fail HTTP_INTERNAL_SERVER_ERROR (str "Update failed") conn) /\
    stored t' T)) /\
  (service t T ->
   if negb (zlen (row_text id y) <? MAX_VALUE_SIZE) then r = fail HTTP_PAYLOAD_TOO_LARGE (str "Todo too large") conn /\ service t' T
   else no_faults t t' ->
     match owned (auth_user_id conn) (at_key T key id) with
     | None => r = fail HTTP_NOT_FOUND (str "Todo not found") conn /\ service t' T
     | Some _ => r = answer HTTP_OK (row_text id y) conn /\ (tc_granted a -> service t' (<[id := y]> T))
     end).
Proof using.
  intros y Hs Hf Hu He Hb Hby E. pose proof (todo_body_bytes _ _ _ Hby Hb) as Ht. split.
  - by apply (todo_update_stored gzip server_name now a conn t T key id title completed r t').
  - intros Hsv. pose proof (todo_update_spec gzip server_name now a conn t T key id title completed r t' Hsv Hf Hu He Hb Ht E) as H3. fold y in H3.
    destruct (negb _); [done|]. intros Hq. unfold no_faults in Hq. destruct H3 as [?|?]; [lia|done].
Qed.

(** C28: deleting a todo. Whatever calls fail: only a todo its caller owns may
    go, and then the answer is 204; with every other answer (404, 500) all todos
    are as before. A 204 does not by itself say that the row is gone: the handler
    ignores a deletion that fails. On a service in step and when no call of the
    store fails, the caller's own todo is gone from rows, index and cache, and any
    other id is answered 404. *)
Theorem todo_delete_correct conn t T key id r t' :
  stored t T -> u64_range (auth_user_id conn) ->
  extract_id (req_uri (conn_request conn)) TODO_KEY_MAX = Some (key, id) ->
  todo_delete_handler gzip server_name now conn t = (r, t') ->
  others_kept t t' /\
  (is_Some (owned (auth_user_id conn) (at_key T key id)) /\ r = answer HTTP_NO_CONTENT [] conn /\ (stored t' (delete id T) \/ stored t' T) \/
   (r = fail HTTP_NOT_FOUND (str "Todo not found") conn \/ r = fail HTTP_INTERNAL_SERVER_ERROR (str "Transaction failed") conn) /\ stored t' T) /\
  (service t T -> no_faults t t' ->
   match owned (auth_user_id conn) (at_key T key id) with
   | None => r = fail HTTP_NOT_FOUND (str "Todo not found") conn /\ service t' T
   | Some _ => r = answer HTTP_NO_CONTENT [] conn /\ service t' (delete id T)
   end).
Proof using.
  intros Hs Hu He E. destruct (todo_delete_stored gzip server_name now conn t T key id r t' Hs Hu He E) as (_ & Ho & Hcase). split; [done|]. split; [done|].
  intros Hsv Hq. unfold no_faults in Hq. destruct (todo_delete_spec gzip server_name now conn t T key id r t' Hsv Hu He E) as [?|?]; [lia|done].
Qed.

(** C29: a listing on a service in step. Whatever fails, the answer is a 500 or
    rows of the caller's own todos, and the service holds the same todos with the
    same cache. When realloc grants the memory and no call of the store fails, it
    is the page that offset and limit cut out of the caller's todos that pass the
    filter, in ascending order of id, and the total it reports is their number
    before paging. *)
Theorem todo_list_correct decode_ok conn t T r t' :
  let f := parse_todo_filter decode_ok (query_string (conn_request conn)) in
  let uid := auth_user_id conn in
  service t T -> u64_range uid -> todo_list_handler gzip server_name now realloc_ok decode_ok conn t = (r, t') ->
  service t' T /\ others_kept t t' /\
  (r = fail HTTP_INTERNAL_SERVER_ERROR (str "Out of memory") conn \/ r = fail HTTP_INTERNAL_SERVER_ERROR (str "Transaction failed") conn \/
   exists rows matched, r = list_response gzip server_name now (91 :: join rows ++ [93]) matched conn /\ Forall (own_row T uid) rows) /\
  ((forall n, realloc_ok n = true) -> no_faults t t' ->
   exists ids, user_ids T uid ids /\
     r = list_response gzip server_name now (91 :: join (page f (rows_of T ids)) ++ [93]) (zlen (selected f (rows_of T ids))) conn).
Proof using.
  intros f uid Hs Hu E. destruct (todo_list_effect _ _ _ _ _ _ _ _ _ (sv_db _ _ Hs) Hu E) as (Hp & Hc & _).
  split; [destruct Hp; by eapply service_same|]. split; [apply others_same, Hp|].
  destruct (todo_list_spec _ _ _ _ _ _ _ _ _ _ Hs Hu (parse_todo_filter_offset _ _) E) as [Hany Hall]. split; [done|].
  intros Hre Hq. unfold no_faults in Hq. destruct (Hall Hre) as [?|?]; [lia|done].
Qed.

(** A start on a database of todo rows, whatever the state of its index: unless
    an insertion tears the store, exactly those todos are stored; when memory is
    granted and no call of the store fails, the index is in step. *)
Theorem todo_api_init_correct cache d T next :
  kv_ok d -> todo_repr (kv_abs d) T next false -> tc_repr cache ∅ ->
  let t := todo_api_init realloc_ok cache d in
  (kv_torn (td_db t) = kv_torn d -> stored t T) /\
  ((forall n, realloc_ok n = true) -> kv_faults (td_db t) = kv_faults d -> service t T).
Proof using.
  intros Hok Hr Hc t. destruct (todo_api_init_spec realloc_ok cache d T next Hok Hr Hc) as (_ & Hweak & Hstrong). fold t in Hweak, Hstrong. split.
  - intros Hq. destruct Hweak as [?|[? _]]; [lia|done].
  - intros Hre Hq. destruct (Hstrong Hre) as [?|[? _]]; [lia|done].
Qed.
End todos.

(** ** Instances *)
Import RefStore.

Definition app_kdf (pw salt : bytes) (it n : Z) : option bytes := if n <? 0 then None else Some (replicate (Z.to_nat n) (zlen pw mod 256)).
Definition app_hmac (key m : bytes) : option bytes := Some (replicate 32 (zlen m mod 256)).
Definition no_gzip (_ : bytes) : option bytes := None.

Lemma app_kdf_key pw salt it n k : app_kdf pw salt it n = Some k -> Forall is_byte k /\ zlen k = n.
Proof.
  unfold app_kdf. destruct (Z.ltb_spec n 0); [done|]. intros <-%(inj Some). rewrite zlen_replicate. split; [|lia].
  apply Forall_replicate. unfold is_byte. apply Z.mod_pos_bound. lia.
Qed.
Lemma app_hmac_tag k m t : app_hmac k m = Some t -> Forall is_byte t /\ zlen t = 32.
Proof.
  unfold app_hmac. intros <-%(inj Some). split; [|by rewrite zlen_replicate]. apply Forall_replicate. unfold is_byte. apply Z.mod_pos_bound. lia.
Qed.
Lemma app_hmac_works : ~ no_mac app_hmac (str "s").
Proof. by intros [m Hm]. Qed.
Lemma app_secret : str "s" <> [].
Proof. done. Qed.

Definition app_conn (uid : Z) (uri body : bytes) : connection :=
  mkConn CONN_STATE_PROCESSING false true [] CONN_READ_BUFFER_MIN false [] 0 0
    (set_req_uri uri (set_req_body (Some body) request_zero)) true response_zero true uid [] false false (-1) 0 0 [].

Definition app_credentials (pw : bytes) : bytes := render_object [(str "username", JStr (str "ann")); (str "password", JStr pw)].
Definition app_pw : bytes := str "long enough".
Definition app_salt : bytes := replicate 16 7.
Definition app_user : user_record := mkUser 1 (str "ann") app_salt (default [] (app_kdf app_pw app_salt PBKDF2_ITERATIONS PW_HASH_SIZE)) PBKDF2_ITERATIONS.
Definition app_empty : accounts (list (bytes * bytes)) := mkAccounts [] (fresh_pool 64) 1.
Definition app_one : accounts (list (bytes * bytes)) := mkAccounts [(user_key (str "ann"), user_text app_user)] (fresh_pool 64) 2.

Lemma app_pool : pool_inv (fresh_pool 64) [] /\ has_room (fresh_pool 64) [].
Proof. split; [apply fresh_secure_pool_inv; split; vm_compute; congruence|]. exists 0. split; [split; vm_compute; congruence|apply not_elem_of_nil]. Qed.

Lemma app_no_accounts : accounts_inv ∅ 1.
Proof.
  constructor; [intros name x; by rewrite lookup_empty|]. intros n1 n2 u1 u2 H1. unfold account in H1. by rewrite lookup_empty in H1.
Qed.

Lemma app_user_ok : user_ok app_user.
Proof.
  constructor; [split; vm_compute; congruence|reflexivity|split; [repeat constructor; vm_compute; congruence|reflexivity]| |split; vm_compute; congruence].
  split; [|reflexivity]. apply Forall_replicate. split; vm_compute; congruence.
Qed.

Lemma app_accounts : accounts_inv (kv_abs (acc_db app_one)) 2.
Proof.
  apply (accounts_register ∅ 1 app_user app_no_accounts); [lia|exact app_user_ok|reflexivity|vm_compute; reflexivity].
Qed.

Lemma app_sorted_one : kv_ok (acc_db app_one).
Proof. repeat constructor. Qed.

Lemma app_time : token_time 3600 1000.
Proof. split_and!; vm_compute; congruence. Qed.

(** The same on the storage engine: a new database, and the account registered in it. *)
Definition app_register : connection := app_conn 0 (str "/api/auth/register") (app_credentials app_pw).
Definition eng_empty : accounts kv_db := mkAccounts demo_kv (fresh_pool 64) 1.
Definition eng_registered : Z * connection * accounts kv_db :=
  user_register_handler no_gzip (str "codo") 1000 app_hmac (str "s") 3600 app_kdf (Some app_salt) app_register eng_empty.
Definition eng_one : accounts kv_db := eng_registered.2.

Lemma eng_register_quiet : kv_faults (acc_db eng_one) = kv_faults (acc_db eng_empty) /\ kv_torn (acc_db eng_one) = kv_torn (acc_db eng_empty).
Proof. vm_compute. split; reflexivity. Qed.
Lemma register_correct_witness : exists tok,
  eng_registered.1 = send_json_response no_gzip (str "codo") 1000 HTTP_CREATED (register_text 3600 1 (str "ann") tok) app_register /\
  account (kv_abs (acc_db eng_one)) (str "ann") = Some app_user /\ accounts_inv (kv_abs (acc_db eng_one)) (next_user_id eng_one) /\
  kv_ok (acc_db eng_one) /\ jwt_verify (crypto_hmac_sha256 app_hmac) (str "s") tok 2000 64 = JWT_OK 1 (str "ann").
Proof.
  destruct eng_register_quiet as [Hf Ht]. unfold eng_one in *. destruct eng_registered as [r a'] eqn:E. cbn [fst snd] in *.
  destruct (register_correct no_gzip (str "codo") app_hmac (str "s") 3600 app_kdf app_kdf_key app_hmac_tag app_secret
    1000 app_salt app_register eng_empty (str "ann") app_pw [] r a' demo_kv_ok (proj1 app_pool)) as (_ & _ & Hinv & Hideal).
  - split; vm_compute; congruence.
  - exact app_time.
  - exact app_no_accounts.
  - vm_compute. reflexivity.
  - reflexivity.
  - vm_compute. congruence.
  - repeat constructor; vm_compute; congruence.
  - reflexivity.
  - exact E.
  - destruct (Hinv Ht) as [Hok Hacc]. destruct (Hideal Hf (proj2 app_pool) app_hmac_works (user_hash app_user) eq_refl) as (Ha & _ & tok & Hr & Hv).
    exists tok. split; [exact Hr|]. split; [exact Ha|]. split; [exact Hacc|]. split; [exact Hok|]. apply (Hv 2000). split; vm_compute; congruence.
Defined.





Lemma login_sound_witness :
  let conn := app_conn 0 (str "/api/auth/login") (app_credentials (str "wrong")) in
  let r := (user_login_handler no_gzip (str "codo") 1000 app_hmac (str "s") 3600 app_kdf conn app_one).1 in
  (exists msg, r = send_error_response no_gzip (str "codo") 1000 HTTP_INTERNAL_SERVER_ERROR msg conn) \/
  r = send_error_json no_gzip (str "codo") 1000 HTTP_UNAUTHORIZED (str "invalid username or password") conn.
Proof.
  intros conn. destruct (user_login_handler no_gzip (str "codo") 1000 app_hmac (str "s") 3600 app_kdf conn app_one) as [r a'] eqn:E. cbn [fst].
  destruct (login_sound no_gzip (str "codo") app_hmac (str "s") 3600 app_kdf app_kdf_key 1000 conn app_one (str "ann") (str "wrong") [] r a'
    app_sorted_one (proj1 app_pool)) as (_ & _ & _ & _ & [Hr|[Hr|(u & tok & Hu & Hk & _)]]); [vm_compute; reflexivity|exact E|by left|by right|exfalso].
  assert (u = app_user) as -> by (revert Hu; vm_compute; by intros [= <-]). revert Hk. vm_compute. congruence.
Defined.

Lemma user_ids_survive_restart_witness : exists a s ttl d',
  user_api_init (Some (fresh_pool 64)) [] (str "s") None 0 (acc_db app_one) = (Some (a, s, ttl), d') /\ next_user_id a = 2 /\ ttl = 3600.
Proof.
  destruct (user_ids_survive_restart (fresh_pool 64) [] (str "s") None 0 (acc_db app_one) 2 app_sorted_one app_accounts)
    as (a & d' & He & _ & _ & _ & _ & [Hc|[Hn Hi]]); [split; vm_compute; congruence|vm_compute; reflexivity|by apply Z.lt_irrefl in Hc|].
  exists a, (jwt_init [] (str "s") None).1, 3600, d'. split; [exact He|]. split; [|reflexivity].
  destruct (ai_rows _ _ Hi (str "ann") (user_text app_user)) as (u & Hu & _ & Ht & Hlt & _); [vm_compute; reflexivity|].
  assert (user_id u = 1) by (assert (account (kv_abs (acc_db app_one)) (str "ann") = Some u) as Hx
     by (apply account_text; [rewrite <- Ht; vm_compute; reflexivity|exact Hu]); revert Hx; vm_compute; by intros [= <-]).
  lia.
Defined.

(** A service with one todo of user 5. *)
Definition app_cache : option lru_cache := lru_cache_create 2 true.
Definition app_body (title : string) : bytes := render_object [(str "title", JStr (str title))].
Definition app_start : todos (list (bytes * bytes)) (option lru_cache) := mkTodos [] app_cache 1 true.
Definition app_milk : todo := mkTodo 5 (str "milk") false.
Definition app_create : connection := app_conn 5 (str "/api/todos") (app_body "milk").
Definition app_todos : todos (list (bytes * bytes)) (option lru_cache) :=
  (todo_create_handler no_gzip (str "codo") 1000 (Some 1, true) app_create app_start).2.

Lemma app_cache_empty : tc_repr app_cache ∅.
Proof. destruct (lru_create_inv 2 _ eq_refl) as (Hi & Hg & _ & Hc). split; [exact Hg|]. exists []. split; [exact Hi|]. rewrite Hc. reflexivity. Qed.
Lemma app_fresh0 : tc_fresh (Some 1, true) (td_cache app_start).
Proof. intros p c [= <-] [= <-]. reflexivity. Qed.
Lemma app_fresh1 : tc_fresh (Some 2, true) (td_cache app_todos).
Proof. intros p c [= <-]. destruct (td_cache app_todos) as [c1|] eqn:E; [|done]. intros [= <-]. revert E. vm_compute. by intros [= <-]. Qed.
Lemma app_user_range : u64_range 5.
Proof. split; vm_compute; congruence. Qed.
Lemma app_body_bytes (s : string) b : Forall is_byte (app_body s) -> Some (app_body s) = Some b -> Forall is_byte b.
Proof. by intros ? [= <-]. Qed.
Lemma app_milk_bytes : Forall is_byte (app_body "milk").
Proof. repeat constructor; vm_compute; congruence. Qed.

Lemma app_start_service : service app_start ∅.
Proof.
  constructor; [constructor| |reflexivity|exists ∅; split; [exact app_cache_empty|by intros k v]].
  constructor; [done|by intros k id _ [? ?]|done|intros _ u id _ _; split; [by intros [? ?]|by intros (? & ? & _)]|split; vm_compute; congruence].
Qed.

Lemma app_todos_service : service app_todos {[1 := app_milk]}.
Proof.
  destruct (todo_create_spec no_gzip (str "codo") 1000 (Some 1, true) app_create app_start ∅ (str "milk") false
    (todo_create_handler no_gzip (str "codo") 1000 (Some 1, true) app_create app_start).1 app_todos
    app_start_service app_fresh0) as (_ & _ & Hres);
    [vm_compute; reflexivity|exact app_user_range|vm_compute; reflexivity|repeat constructor; vm_compute; congruence|apply surjective_pairing|].
  rewrite (proj2 (Z.ltb_lt _ _)) in Hres by (vm_compute; reflexivity). destruct Hres as [Hc|[_ Hs]]; [by apply Z.lt_irrefl in Hc|exact Hs].
Qed.

(** The same on the storage engine: a new database, and the todo created in it. *)
Definition eng_start : todos kv_db (option lru_cache) := todo_api_init (fun _ => true) app_cache demo_kv.
Definition eng_created : Z * connection * todos kv_db (option lru_cache) :=
  todo_create_handler no_gzip (str "codo") 1000 (Some 1, true) app_create eng_start.
Definition eng_todos : todos kv_db (option lru_cache) := eng_created.2.

Lemma no_todos : todo_repr ∅ ∅ 1 false.
Proof. constructor; [done|by intros k id _ [? ?]|done|done|split; vm_compute; congruence]. Qed.

Lemma eng_start_quiet : kv_faults (td_db eng_start) = kv_faults demo_kv.
Proof. vm_compute. reflexivity. Qed.
Lemma eng_start_service : service eng_start ∅.
Proof.
  destruct (todo_api_init_spec (fun _ => true) app_cache demo_kv ∅ 1 demo_kv_ok no_todos app_cache_empty) as (_ & _ & Hs).
  pose proof eng_start_quiet as Hq. unfold eng_start in *. destruct (Hs (fun _ => eq_refl)) as [Hc|[Hsv _]]; [lia|exact Hsv].
Qed.
Lemma eng_start_next : next_todo_id eng_start = 1.
Proof. vm_compute. reflexivity. Qed.

Lemma eng_fresh0 : tc_fresh (Some 1, true) (td_cache eng_start).
Proof. assert (td_cache eng_start = app_cache) as -> by reflexivity. intros p c [= <-] [= <-]. reflexivity. Qed.
Lemma eng_fresh1 : tc_fresh (Some 2, true) (td_cache eng_todos).
Proof. intros p c [= <-]. destruct (td_cache eng_todos) as [c1|] eqn:E; [|done]. intros [= <-]. revert E. vm_compute. by intros [= <-]. Qed.
Lemma eng_create_quiet : no_faults eng_start eng_created.2.
Proof. vm_compute. reflexivity. Qed.
Lemma app_milk_fits : zlen (row_text 1 app_milk) <? MAX_VALUE_SIZE = true.
Proof. vm_compute. reflexivity. Qed.

Lemma eng_todos_service : service eng_todos {[1 := app_milk]}.
Proof.
  destruct (todo_create_spec no_gzip (str "codo") 1000 (Some 1, true) app_create eng_start ∅ (str "milk") false eng_created.1 eng_todos
    eng_start_service eng_fresh0) as (_ & _ & Hres);
    [vm_compute; reflexivity|exact app_user_range|vm_compute; reflexivity|repeat constructor; vm_compute; congruence|apply surjective_pairing|].
  rewrite eng_start_next in Hres. change (mkTodo (auth_user_id app_create) (str "milk") false) with app_milk in Hres. rewrite app_milk_fits in Hres.
  pose proof eng_create_quiet as Hq. unfold no_faults, eng_todos in *. destruct Hres as [Hc|[_ Hs]]; [lia|exact Hs].
Qed.

Lemma todo_create_correct_witness :
  eng_created.1 = send_json_response no_gzip (str "codo") 1000 HTTP_CREATED (row_text 1 app_milk) app_create /\ service eng_created.2 {[1 := app_milk]}.
Proof.
  pose proof eng_create_quiet as Hq. destruct eng_created as [r t'] eqn:E. cbn [fst snd] in *.
  destruct (todo_create_correct no_gzip (str "codo") 1000 (Some 1, true) app_create eng_start ∅ (str "milk") false r t'
    (service_stored _ _ eng_start_service) eng_fresh0) as [_ Hres];
    [vm_compute; reflexivity|exact app_user_range|vm_compute; reflexivity|intros b; apply app_body_bytes, app_milk_bytes|exact E|].
  destruct (Hres eng_start_service) as (_ & _ & Hr). rewrite eng_start_next in Hr.
  change (mkTodo (auth_user_id app_create) (str "milk") false) with app_milk in Hr. rewrite app_milk_fits in Hr. exact (Hr Hq).
Defined.

Definition app_item (uid : Z) (body : bytes) : connection := app_conn uid (str "/api/todos/1") body.
Definition eng_get (uid : Z) : Z * connection * todos kv_db (option lru_cache) :=
  todo_get_handler no_gzip (str "codo") 1000 (Some 2, true) (app_item uid []) eng_todos.

Lemma eng_get_quiet : no_faults eng_todos (eng_get 5).2 /\ no_faults eng_todos (eng_get 6).2.
Proof. vm_compute. split; reflexivity. Qed.

Lemma todo_get_correct_witness :
  (eng_get 5).1 = send_json_response no_gzip (str "codo") 1000 HTTP_OK (row_text 1 app_milk) (app_item 5 []) /\
  (eng_get 6).1 = fail_response no_gzip (str "codo") 1000 HTTP_NOT_FOUND (str "Todo not found") (app_item 6 []).
Proof.
  destruct eng_get_quiet as [Q1 Q2]. destruct (eng_get 5) as [r1 t1] eqn:E1. destruct (eng_get 6) as [r2 t2] eqn:E2. cbn [fst snd] in *.
  unfold no_faults in *.
  destruct (todo_get_correct no_gzip (str "codo") 1000 (Some 2, true) (app_item 5 []) eng_todos _ (str "1") 1 r1 t1 eng_todos_service eng_fresh1
    ltac:(vm_compute; reflexivity) E1) as (_ & _ & [H1|[H1 _]]); [|lia].
  destruct (todo_get_correct no_gzip (str "codo") 1000 (Some 2, true) (app_item 6 []) eng_todos _ (str "1") 1 r2 t2 eng_todos_service eng_fresh1
    ltac:(vm_compute; reflexivity) E2) as (_ & _ & [H2|[H2 _]]); [|lia].
  split; [exact H1|exact H2].
Defined.

Definition eng_update : Z * connection * todos kv_db (option lru_cache) :=
  todo_update_handler no_gzip (str "codo") 1000 (Some 2, true) (app_item 5 (app_body "bread")) eng_todos.
Lemma eng_update_quiet : no_faults eng_todos eng_update.2.
Proof. vm_compute. reflexivity. Qed.
Lemma app_bread_bytes : Forall is_byte (app_body "bread").
Proof. repeat constructor; vm_compute; congruence. Qed.

Lemma todo_update_correct_witness :
  eng_update.1 = send_json_response no_gzip (str "codo") 1000 HTTP_OK (row_text 1 (mkTodo 5 (str "bread") false)) (app_item 5 (app_body "bread")) /\
  service eng_update.2 (<[1 := mkTodo 5 (str "bread") false]> {[1 := app_milk]}).
Proof.
  pose proof eng_update_quiet as Hq. destruct eng_update as [r t'] eqn:E. cbn [fst snd] in *.
  destruct (todo_update_correct no_gzip (str "codo") 1000 (Some 2, true) (app_item 5 (app_body "bread")) eng_todos _ (str "1") 1 (str "bread") false r t'
    (service_stored _ _ eng_todos_service) eng_fresh1) as [_ Hres];
    [exact app_user_range|vm_compute; reflexivity|vm_compute; reflexivity|intros b; apply app_body_bytes, app_bread_bytes|exact E|].
  destruct (Hres eng_todos_service Hq) as [Hr Hs]. split; [exact Hr|]. apply Hs. split; [by eexists|reflexivity].
Defined.

Definition eng_delete : Z * connection * todos kv_db (option lru_cache) :=
  todo_delete_handler no_gzip (str "codo") 1000 (app_item 5 []) eng_todos.
Lemma eng_delete_quiet : no_faults eng_todos eng_delete.2.
Proof. vm_compute. reflexivity. Qed.

Lemma todo_delete_correct_witness :
  eng_delete.1 = send_json_response no_gzip (str "codo") 1000 HTTP_NO_CONTENT [] (app_item 5 []) /\ service eng_delete.2 (delete 1 {[1 := app_milk]}).
Proof.
  pose proof eng_delete_quiet as Hq. destruct eng_delete as [r t'] eqn:E. cbn [fst snd] in *.
  destruct (todo_delete_correct no_gzip (str "codo") 1000 (app_item 5 []) eng_todos _ (str "1") 1 r t' (service_stored _ _ eng_todos_service) app_user_range
    ltac:(vm_compute; reflexivity) E) as (_ & _ & Hres).
  exact (Hres eng_todos_service Hq).
Defined.

Definition eng_list : Z * connection * todos kv_db (option lru_cache) :=
  todo_list_handler no_gzip (str "codo") 1000 (fun _ => true) (fun _ => true) app_create eng_todos.
Lemma eng_list_quiet : no_faults eng_todos eng_list.2.
Proof. vm_compute. reflexivity. Qed.

Lemma todo_list_correct_witness : exists ids, user_ids {[1 := app_milk]} 5 ids /\
  eng_list.1 =
  list_response no_gzip (str "codo") 1000 (91 :: join (page (parse_todo_filter (fun _ => true) []) (rows_of {[1 := app_milk]} ids)) ++ [93])
     (zlen (selected (parse_todo_filter (fun _ => true) []) (rows_of {[1 := app_milk]} ids))) app_create.
Proof.
  pose proof eng_list_quiet as Hq. destruct eng_list as [r t'] eqn:E. cbn [fst snd] in *.
  destruct (todo_list_correct no_gzip (str "codo") 1000 (fun _ => true) (fun _ => true) app_create eng_todos _ r t'
    eng_todos_service app_user_range E) as (_ & _ & _ & Hres).
  exact (Hres (fun _ => eq_refl) Hq).
Defined.

Definition app_unindexed : list (bytes * bytes) := [(str "1", row_text 1 app_milk)].

Lemma app_unindexed_rows : todo_repr (kv_abs app_unindexed) {[1 := app_milk]} 2 false.
Proof.
  assert (kv_abs app_unindexed = {[dec 1 := row_text 1 app_milk]}) as -> by reflexivity.
  constructor; [| |apply (tr_ok _ _ _ _ (sv_rows _ _ app_todos_service))|done|split; vm_compute; congruence].
  - intros id Hid. destruct (decide (id = 1)) as [->|Hne]; [by rewrite !lookup_singleton_eq|].
    rewrite !lookup_singleton_ne; [done|done|]. intros E. apply Hne. symmetry. by apply dec_inj.
  - intros k id Hk [v [<- _]%lookup_singleton_Some]. destruct (dec_key_spec 1 ltac:(split; vm_compute; congruence)) as (_ & Hp & _).
    rewrite Hp in Hk. by injection Hk as <-.
Qed.

Lemma app_unindexed_ok : kv_ok app_unindexed.
Proof. repeat constructor. Qed.

Lemma todo_api_init_correct_witness : service (todo_api_init (fun _ => true) app_cache app_unindexed) {[1 := app_milk]}.
Proof.
  apply (todo_api_init_correct (fun _ => true) app_cache app_unindexed _ 2 app_unindexed_ok app_unindexed_rows app_cache_empty); reflexivity.
Defined.

(** ** Interleavings and allocation failures *)
(** A creation publishes its row to the cache after its transaction has released
    the write lock. When a deletion of the new id runs in between, the row comes
    back into the cache after it is gone from storage, and a later read answers
    it with 200. *)
Example create_delete_race :
  let '(stored, t1) := todo_create_store no_gzip (str "codo") 1000 app_create app_start in
  let '(_, t2) := todo_delete_handler no_gzip (str "codo") 1000 (app_item 5 []) t1 in
  match stored with
  | inl _ => False
  | inr (key, value) =>
  let '(_, t3) := todo_create_publish no_gzip (str "codo") 1000 (Some 1, true) key value app_create t2 in
  td_db t2 = [] /\ td_db t3 = [] /\
  (todo_get_handler no_gzip (str "codo") 1000 (Some 2, true) (app_item 5 []) t3).1 =
  send_json_response no_gzip (str "codo") 1000 HTTP_OK (row_text 1 app_milk) (app_item 5 [])
  end.
Proof. vm_compute. split; [reflexivity|]. split; reflexivity. Qed.

(** An update whose copy for the cache cannot be allocated keeps the old row
    there: storage holds the new title, a read answers the old one. *)
Example update_keeps_stale_row :
  let '(_, t1) := todo_update_handler no_gzip (str "codo") 1000 (Some 2, false) (app_item 5 (app_body "bread")) app_todos in
  (list_to_map (td_db t1) : gmap bytes bytes) !! str "1" = Some (row_text 1 (mkTodo 5 (str "bread") false)) /\
  (todo_get_handler no_gzip (str "codo") 1000 (Some 2, true) (app_item 5 []) t1).1 =
  send_json_response no_gzip (str "codo") 1000 HTTP_OK (row_text 1 app_milk) (app_item 5 []).
Proof. vm_compute. split; reflexivity. Qed.
