(* ===== verification/RuntimeProps.v ===== *)
(** * The thread pool and the balancer: main theorems

    The claims about thread_pool.c and balancer.c, each with an instance on a
    concrete run. *)
From Stdlib Require Import String.
From stdpp Require Import relations.
From S2P Require Import Prelude SList Text HttpTypes HttpText Connection Selection Worker ThreadPool PoolProofs Balancer BalancerProofs ProxyLink.

Local Open Scope Z_scope.

(** ** The queue of the pool *)
(** A push appends the task to the list of its priority and leaves the others;
    a pop takes the oldest task of the highest priority that has one, and gives
    NULL only when every list is empty. *)
Theorem task_queue_correct h q Q :
  queue_repr h q Q ->
  (forall t tk l, h !! t = Some tk -> 0 <= t_priority tk < zlen Q -> Q !! Z.to_nat (t_priority tk) = Some l -> t ∉ concat Q ->
     exists h' q', task_queue_push t h q = (0, h', q') /\ queue_repr h' q' (<[Z.to_nat (t_priority tk) := l ++ [t]]> Q) /\ same_tasks h h') /\
  (forall r h' q', pop_locked h q = (r, h', q') ->
     match r with
     | None => concat Q = [] /\ h' = h /\ q' = q
     | Some t => exists i l, Q !! i = Some (t :: l) /\ (forall j lj, (i < j)%nat -> Q !! j = Some lj -> lj = []) /\
         queue_repr h' q' (<[i := l]> Q) /\ same_tasks h h'
     end).
Proof.
  intros Hq. split.
  - intros t tk l Ht Hp Hl Hn. unfold task_queue_push. rewrite Ht. unfold num_priorities, zlen in *. rewrite (qr_heads _ _ _ Hq).
    rewrite (proj2 (Z.ltb_ge _ _)), Z.geb_leb, (proj2 (Z.leb_gt _ _)) by lia. cbn [orb]. destruct (append_task _ _ h q) as [h' q'] eqn:E.
    destruct (append_task_spec t tk (Z.to_nat (t_priority tk)) l h q Q h' q' Hq Ht ltac:(lia) Hl Hn E) as (Hq' & Hs & _). by exists h', q'.
  - intros r h' q' He. pose proof (pop_locked_spec _ _ _ _ _ _ Hq He) as Hpop. destruct r as [t|]; [|by destruct Hpop as (-> & -> & ?)].
    destruct Hpop as (i & l & H1 & H2 & H3 & H4 & _). by exists i, l.
Qed.

Definition demo_queue : task_queue := mkQueue (replicate 3 None) (replicate 3 None) 0 0 false.
Definition demo_tasks : gmap Z task := {[16 := mkTask 1 0 None 0; 32 := mkTask 2 0 None 2]}.

Lemma task_queue_correct_witness : exists h' q', task_queue_push 32 demo_tasks demo_queue = (0, h', q') /\ queue_repr h' q' [[]; []; [32]].
Proof.
  destruct (task_queue_correct demo_tasks demo_queue (replicate 3 []) (queue_repr_empty _ 3)) as [Hpush _].
  destruct (Hpush 32 (mkTask 2 0 None 2) []) as (h' & q' & He & Hq & _); [reflexivity|split; vm_compute; congruence|reflexivity|apply not_elem_of_nil|].
  exists h', q'. split; [exact He|exact Hq].
Defined.

(** ** The threads *)
(** C12: in every interleaving of submitting threads, workers and shutdown, as long
    as the pool exists: the tasks of one priority are taken in the order they
    were accepted, none is lost and none is taken twice; a task that was taken is
    running on exactly one worker or has finished. *)
Theorem pool_runs_tasks_once n clients stealing prios s :
  pool_reach n clients stealing prios s -> s_destroy s <> DDone ->
  exists Q, queue_repr (tp_heap (s_pool s)) (tp_queue (s_pool s)) Q /\ length Q = Z.to_nat prios /\ NoDup (runs s ++ concat Q) /\
    (forall p l, Q !! p = Some l -> of_prio (Z.of_nat p) (s_accepted s) = of_prio (Z.of_nat p) (s_started s) ++ payloads (tp_heap (s_pool s)) l) /\
    s_started s ≡ₚ payloads (tp_heap (s_pool s)) (runs s) ++ s_done s.
Proof.
  intros [Hf|(Q & HQ & Hok)]%pool_reach_inv Hd; [by destruct Hd, Hf|]. exists Q.
  split; [apply (po_queue _ _ Hok)|]. split; [done|]. split; [apply (po_nodup _ _ Hok)|]. split; [apply (po_fifo _ _ Hok)|apply (po_started _ _ Hok)].
Qed.

(** C13: queued work never waits for sleeping workers: while the pool is not being
    destroyed and a task is queued, some worker is not parked and one that is
    not parked can go on. *)
Theorem pool_no_lost_wakeup n clients stealing prios s :
  pool_reach n clients stealing prios s -> s_destroy s = DNone -> 0 < q_size (tp_queue (s_pool s)) -> s_workers s <> [] ->
  exists w i x s', s_workers s !! w = Some (i, x) /\ x <> WWait /\ step s s' /\ s_workers s' !! w <> Some (i, x).
Proof.
  intros [Hf|(Q & _ & Hok)]%pool_reach_inv Hd Hsz Hws; [destruct Hf; congruence|].
  assert (concat Q <> []) as HQ by (intros E; rewrite (qr_size _ _ _ (po_queue _ _ Hok)), E in Hsz; done).
  destruct (po_wake _ _ Hok HQ) as [|(w & i & x & Hw & Hx)]; [done|]. eapply pool_progress; [exact Hok|exact Hw|exact Hx|].
  intros ->. by apply (po_alive _ _ Hok Hd w i).
Qed.

(** C14: a destroy that has set both flags ends however the threads are scheduled:
    no run is infinite, and where nothing can move any more every worker has
    left, every taken task has finished and no task node is left allocated. *)
Theorem pool_shutdown_terminates n clients stealing prios s :
  pool_reach n clients stealing prios s -> flagged (s_destroy s) = true ->
  sn step s /\ forall s', rtc step s s' -> nf step s' ->
    s_destroy s' = DDone /\ tp_heap (s_pool s') = ∅ /\ (forall w i x, s_workers s' !! w = Some (i, x) -> x = WExit) /\ s_started s' ≡ₚ s_done s'.
Proof.
  intros [Hf|(Q & _ & Hok)]%pool_reach_inv Hfl.
  - split; [constructor; intros s' Hs; by apply (pool_final_stuck _ _ Hf) in Hs|]. intros s' [<-|(y & Hs & _)]%rtc_inv _; [by destruct Hf|by apply (pool_final_stuck _ _ Hf) in Hs].
  - split; [by eapply flagged_terminates|]. intros s' Hr Hnf. by destruct (flagged_run _ _ _ Hok Hfl Hr Hnf).
Qed.

(** A run: one worker, one submitting thread; the worker parks, a task is
    queued and signals it. *)
Definition demo_pushed : system := (** the state after that run *)
  mkSys (mkTpool {[16 := mkTask 7 9 None 1]} (mkQueue [None; Some 16] [None; Some 16] 1 1 false) None false false 0 0 1) None [(0, WWoken)] [CCount] DNone [(7, 9, 1)] [] [].

Lemma demo_reach : pool_reach 1 1 false 2 demo_pushed.
Proof.
  unfold pool_reach. eapply rtc_l; [by apply by_worker, (st_begin 0 0)|]. eapply rtc_l; [by apply by_worker, (st_loop 0 0)|]. eapply rtc_l; [by apply by_worker, (st_lock 0 0 WLock); [|left|]|].
  eapply rtc_l; [by apply by_worker, (st_check 0 0)|]. eapply rtc_l; [by apply by_worker, (st_park 0 0)|]. eapply rtc_l; [by apply by_client, (st_submit 0 7 9 1)|].
  apply rtc_once. apply by_client, (st_push 0 7 9 1 16 {[16 := mkTask 7 9 None 1]} (mkQueue [None; Some 16] [None; Some 16] 1 1 false) (Some 0%nat)); [done|done|done|reflexivity|].
  by exists 0.
Qed.

Lemma pool_runs_tasks_once_witness : exists Q, queue_repr (tp_heap (s_pool demo_pushed)) (tp_queue (s_pool demo_pushed)) Q /\ length Q = 2%nat.
Proof.
  destruct (pool_runs_tasks_once 1 1 false 2 demo_pushed demo_reach ltac:(done)) as (Q & Hq & Hl & _). exists Q. split; [exact Hq|exact Hl].
Defined.

Lemma pool_no_lost_wakeup_witness : exists w i x s', s_workers demo_pushed !! w = Some (i, x) /\ x <> WWait /\ step demo_pushed s' /\ s_workers s' !! w <> Some (i, x).
Proof. apply (pool_no_lost_wakeup 1 1 false 2 demo_pushed demo_reach); [reflexivity|reflexivity|discriminate]. Defined.

Definition demo_flagged : system :=
  mkSys (mkTpool ∅ (mkQueue [None; None] [None; None] 0 0 true) None true false 0 0 0) None [(0, WBegin)] [CIdle] DLock [] [] [].

Lemma demo_flagged_reach : pool_reach 1 1 false 2 demo_flagged.
Proof.
  eapply rtc_l; [apply by_destroyer, st_stop; [done|]; intros c x [-> _]%(lookup_replicate 1); done|]. apply rtc_once. by apply by_destroyer, st_flag.
Qed.

Lemma pool_shutdown_terminates_witness : sn step demo_flagged.
Proof. exact (proj1 (pool_shutdown_terminates 1 1 false 2 demo_flagged demo_flagged_reach eq_refl)). Defined.

(** ** The balancer *)
Section balancer.
Context (inet_ntop4 inet_ntop6 : bytes -> option bytes) (proxy : bool).

(** C15: whatever batches epoll reports and however the sockets cut reads and
    writes, in every connection, one that is closed during the batch included:
    the backend has received the PROXY header and then the client's bytes,
    unchanged and in order, up to what still waits in the buffers, and the
    client the backend's bytes. No buffer is overrun, and an open connection
    with bytes waiting for a socket watches it for writing. *)
Theorem balancer_forwards lb0 lb evs :
  lb_fresh lb0 -> rtc (lb_step inet_ntop4 inet_ntop6 proxy) lb0 lb -> batch_ok inet_ntop4 inet_ntop6 proxy evs lb ->
  exists lb1, dispatch_all inet_ntop4 inet_ntop6 proxy evs lb = Some lb1 /\
  forall a c, lb_conns lb1 !! a = Some c ->
    lc_to_backend c ++ zdrop (lc_hdr_sent c) (lc_hdr c) ++ zdrop (lc_csent c) (lc_cbuf c) = lc_hdr c ++ lc_from_client c /\
    lc_to_client c ++ zdrop (lc_bsent c) (lc_bbuf c) = lc_from_backend c /\
    zlen (lc_cbuf c) <= LB_BUFFER_SIZE /\ zlen (lc_bbuf c) <= LB_BUFFER_SIZE /\
    (lc_closed c = false -> (lc_csent c < zlen (lc_cbuf c) -> has_flag (lc_bevents c) EPOLLOUT = true) /\
                            (lc_bsent c < zlen (lc_bbuf c) -> has_flag (lc_cevents c) EPOLLOUT = true)).
Proof.
  intros Hf Hr Hb. destruct (batch_spec _ _ _ evs lb (lb_reach_inv _ _ _ _ _ Hf Hr) Hb) as (lb1 & Hd & Hi). exists lb1. split; [done|]. intros a c Hc.
  destruct (li_conns _ Hi a c Hc) as [Hok Hin]. destruct (co_size _ Hok). split; [apply (co_c2b _ Hok)|]. split; [apply (co_b2c _ Hok)|]. split; [done|]. split; [done|].
  intros Ho. specialize (Hin Ho). split; apply Hin.
Qed.

(** C16: no event of a batch touches a connection that has been freed: every batch
    runs to its end. Behind it exactly the connections closed in it are gone, and
    each backend's count is the number of its open connections. *)
Theorem balancer_accounting lb0 lb evs :
  lb_fresh lb0 -> rtc (lb_step inet_ntop4 inet_ntop6 proxy) lb0 lb -> batch_ok inet_ntop4 inet_ntop6 proxy evs lb ->
  exists lb1 lb', dispatch_all inet_ntop4 inet_ntop6 proxy evs lb = Some lb1 /\ lb_batch inet_ntop4 inet_ntop6 proxy evs lb = Some lb' /\
    (forall a c, lb_conns lb' !! a = Some c <-> lb_conns lb1 !! a = Some c /\ lc_closed c = false) /\
    forall i b, lb_backends lb' !! i = Some b -> current_connections b = Z.of_nat (open_on i (lb_conns lb')).
Proof.
  intros Hf Hr Hb. destruct (batch_spec _ _ _ evs lb (lb_reach_inv _ _ _ _ _ Hf Hr) Hb) as (lb1 & Hd & Hi). exists lb1, (free_closed lb1).
  destruct (free_closed_inv lb1 Hi) as [Hi' Hl]. unfold lb_batch. rewrite Hd. split; [done|]. split; [done|]. split; [done|apply (li_counts _ Hi')].
Qed.
End balancer.

(** C17: a server behind the balancer reads the header the balancer writes: while
    part of it is missing it waits, and once it is there it consumes exactly the
    header, takes the client's address from it when one is declared, and finds
    the client's first bytes right behind it. *)
Theorem proxy_header_understood inet_ntop4 inet_ntop6 inet_pton4 inet_pton6 addr port local w rest
  (ntop4 : forall a s, inet_ntop4 a = Some s -> visible s /\ zlen s <= 15 /\ inet_pton4 s = Some a)
  (ntop6 : forall a s, inet_ntop6 a = Some s -> visible s /\ zlen s <= 39 /\ inet_pton4 s = None /\ inet_pton6 s = Some a) :
  let hdr := build_proxy_header inet_ntop4 inet_ntop6 true addr port local in
  0 <= port <= 65535 -> (forall la lp, local = Some (la, lp) -> 0 <= lp <= 65535) -> conn_rbuf (w_conn w) = hdr ++ rest ->
  (forall p q w1, hdr = p ++ q -> q <> [] -> conn_rbuf (w_conn w1) = p -> consume_proxy_header inet_pton4 inet_pton6 w1 = (0, w1)) /\
  exists w', consume_proxy_header inet_pton4 inet_pton6 w = (1, w') /\ conn_rbuf (w_conn w') = rest /\
    (if bool_decide (hdr = PROXY_UNKNOWN) then w_addr w' = w_addr w else addr_bytes (w_addr w') = addr_bytes addr).
Proof.
  intros hdr Hp Hlp Hb. destruct (proxy_link _ _ _ _ ntop4 ntop6 addr port local w rest Hp Hlp Hb) as [[line Hline] (a & Hc & Ha)]. split.
  - intros p q w1. by apply (header_partial inet_pton4 inet_pton6 hdr line).
  - eexists. split; [exact Hc|]. cbn. rewrite Hb. split; [by apply zdrop_app_eq|]. fold hdr in Ha.
    destruct Ha as [[E ->]|[E Ha]]; [by rewrite bool_decide_true|by rewrite bool_decide_false].
Qed.

(** ** Instances *)
Definition demo_ntop4 (a : bytes) : option bytes := if bool_decide (a = [1; 2; 3; 4]) then Some (str "1.2.3.4") else None.
Definition demo_pton4 (s : bytes) : option bytes := if bool_decide (s = str "1.2.3.4") then Some [1; 2; 3; 4] else None.
Definition no_v6 (_ : bytes) : option bytes := None.

Definition demo_lb : load_balancer := mkLb [mkBackend 0 1 0 0 0 1 0] [mkStats 0 0] [(str "b", 80)] LB_STRATEGY_ROUND_ROBIN ∅ [].
Definition demo_accept : lb_event :=
  mkEvent IO_LISTEN 0 EPOLLIN (5, 0) RdAgain [] false
    (Some (mkAccepted (AF_INET [1; 2; 3; 4]) 4000 (Some (AF_INET [1; 2; 3; 4], 80)) true 0 [] true (Some 16) true)).
Definition demo_request : lb_event := mkEvent IO_CLIENT 16 EPOLLIN (6, 0) (RdData (str "GET")) [WrTook 10; WrTook 100; WrTook 2] false None.
Definition demo_answer : lb_event := mkEvent IO_BACKEND 16 EPOLLIN (7, 0) (RdData (str "200")) [WrTook 1] false None.
Definition demo_hangup : lb_event := mkEvent IO_BACKEND 16 EPOLLHUP (8, 0) RdAgain [] true None.
Definition demo_batch (evs : list lb_event) (lb : load_balancer) : load_balancer := default lb (lb_batch demo_ntop4 no_v6 true evs lb).
Definition demo_lb1 : load_balancer := demo_batch [demo_accept] demo_lb.

Lemma demo_lb_fresh : lb_fresh demo_lb.
Proof. repeat constructor. Qed.

Lemma demo_batch_ok1 : batch_ok demo_ntop4 no_v6 true [demo_accept] demo_lb.
Proof.
  constructor; [repeat constructor; by intros []|repeat constructor|]. split; [|done]. intros _ x a [= <-] [= <-]. reflexivity.
Qed.

Lemma demo_reach1 : rtc (lb_step demo_ntop4 no_v6 true) demo_lb demo_lb1.
Proof. apply rtc_once. exists [demo_accept]. split; [exact demo_batch_ok1|vm_compute; reflexivity]. Qed.

Lemma demo_batch_ok2 ev : ev_role ev = IO_CLIENT -> ev_conn ev = 16 -> read_fits (ev_read ev) -> batch_ok demo_ntop4 no_v6 true [ev] demo_lb1.
Proof.
  intros Er Ec Hr. constructor; [|repeat constructor|split; [by rewrite Er|done]]. constructor; [|constructor]. intros _. rewrite Er, Ec.
  destruct (lb_conns demo_lb1 !! 16) as [c|] eqn:E; [|by vm_compute in E]. exists c. assert (lc_closed c = false /\ has_flag (lc_cevents c) EPOLLIN = true) as [? ?]; [|done].
  revert E. vm_compute. by intros [= <-].
Qed.

Lemma balancer_forwards_witness : exists lb1, dispatch_all demo_ntop4 no_v6 true [demo_request] demo_lb1 = Some lb1 /\
  forall c, lb_conns lb1 !! 16 = Some c -> lc_to_backend c ++ zdrop (lc_hdr_sent c) (lc_hdr c) ++ zdrop (lc_csent c) (lc_cbuf c) = lc_hdr c ++ lc_from_client c.
Proof.
  destruct (balancer_forwards demo_ntop4 no_v6 true demo_lb demo_lb1 [demo_request] demo_lb_fresh demo_reach1) as (lb1 & Hd & Hc);
    [apply demo_batch_ok2; [reflexivity|reflexivity|vm_compute; congruence]|].
  exists lb1. split; [exact Hd|]. intros c H. exact (proj1 (Hc 16 c H)).
Defined.

Lemma balancer_accounting_witness : exists lb', lb_batch demo_ntop4 no_v6 true [demo_request] demo_lb1 = Some lb' /\
  forall i b, lb_backends lb' !! i = Some b -> current_connections b = Z.of_nat (open_on i (lb_conns lb')).
Proof.
  destruct (balancer_accounting demo_ntop4 no_v6 true demo_lb demo_lb1 [demo_request] demo_lb_fresh demo_reach1) as (_ & lb' & _ & Hb & _ & Hc);
    [apply demo_batch_ok2; [reflexivity|reflexivity|vm_compute; congruence]|].
  exists lb'. split; [exact Hb|exact Hc].
Defined.

Definition demo_wconn (buf : bytes) : wconn :=
  mkW (mkConn CONN_STATE_READING_REQUEST false true buf CONN_READ_BUFFER_MIN false [] 0 0 request_zero true response_zero true 0 [] false false (-1) 0 0 [])
    AF_OTHER false false None 0 false 0 [] [] [] [] [] [] 0 [] 0 0 0.
Definition demo_header : bytes := build_proxy_header demo_ntop4 no_v6 true (AF_INET [1; 2; 3; 4]) 4000 (Some (AF_INET [1; 2; 3; 4], 80)).

Lemma proxy_header_understood_witness : exists w', consume_proxy_header demo_pton4 no_v6 (demo_wconn (demo_header ++ str "GET")) = (1, w') /\
  conn_rbuf (w_conn w') = str "GET" /\ addr_bytes (w_addr w') = [1; 2; 3; 4].
Proof.
  destruct (proxy_header_understood demo_ntop4 no_v6 demo_pton4 no_v6 (AF_INET [1; 2; 3; 4]) 4000 (Some (AF_INET [1; 2; 3; 4], 80)) (demo_wconn (demo_header ++ str "GET")) (str "GET"))
    as (_ & w' & Hc & Hr & Ha).
  - intros a s. unfold demo_ntop4. case_bool_decide as E; [|discriminate]. intros [= <-]. split; [split; [done|by apply (bool_decide_unpack _)]|]. split; [vm_compute; congruence|]. by rewrite E.
  - discriminate.
  - split; vm_compute; congruence.
  - intros la lp [= <- <-]. split; vm_compute; congruence.
  - reflexivity.
  - exists w'. split; [exact Hc|]. split; [exact Hr|exact Ha].
Defined.

(** A backend that resets the connection while its answer still waits for a slow
    client: the hangup is reported without readability, because the backend is
    not being read, and the rest of the answer is dropped. *)
Example hangup_drops_answer :
  let lb2 := demo_batch [demo_answer] (demo_batch [demo_request] demo_lb1) in
  (fun c => (lc_from_backend c, lc_to_client c, lc_closed c)) <$> (lb_conns <$> dispatch_all demo_ntop4 no_v6 true [demo_hangup] lb2) ≫= (.!! 16) =
  Some (str "200", str "2", true).
Proof. vm_compute. reflexivity. Qed.
