(* ===== verification/ConfigProps.v ===== *)
(** * Properties of the configuration, of rate limiting and of metrics

    What the balancer's configuration guarantees its round robin, that backend
    lists and files of assignments mean what they say, what the configured rate
    limiter admits, and what the metrics page says. *)
From Stdlib Require Import String.
From S2P Require Import Prelude Text Json HttpTypes HttpText HttpRequest HttpFrame Selection Balancer BalancerProofs Weights Config ConfigProofs Double RateLimit RateProofs Metrics.

Local Open Scope Z_scope.

(** C18: from any command line, environment and file the balancer starts with,
    and after any batches of events, with backends failing and recovering in
    any order, a round-robin pick in 32-bit arithmetic is the pick in exact
    arithmetic: the weights stay far inside [int]. *)
Theorem configured_round_robin_exact fs argv ok1 ok2 ok3 ok4 ok5 resolve e proxy lb0 inet_ntop4 inet_ntop6 lb now :
  balancer_main fs argv ok1 ok2 ok3 ok4 ok5 resolve e = inr (proxy, lb0) ->
  rtc (lb_runs inet_ntop4 inet_ntop6 proxy) lb0 lb ->
  backend_round_robin_select_int now (lb_backends lb) = backend_round_robin_select now (lb_backends lb) /\
  0 < zlen (lb_backends lb0) <= MAX_BACKENDS /\
  forall b, b ∈ lb_backends lb -> 1 <= weight b <= MAX_BACKEND_WEIGHT /\ -100000000 <= current_weight b <= 100000000.
Proof.
  intros Hm Hr. unfold balancer_main in Hm. destruct (balancer_config_load fs argv e) as [[rc config] e1]. destruct (negb _); [done|].
  unfold load_balancer_init in Hm. destruct ok1, ok2, ok3, ok4; cbn [negb] in Hm; try done. unfold balancer_add_backends in Hm.
  destruct ok5; cbn [negb] in Hm; [|done]. rewrite backends_loop_spec in Hm. set (es := take _ _) in Hm.
  destruct (Z.eqb_spec (0 + zlen es) 0) as [|Hne]; [done|]. injection Hm as _ Hm.
  assert (Forall (fun e => 0 <= e.2 <= MAX_BACKEND_WEIGHT) es) as Hes.
  { unfold es. apply Forall_take. apply list.Forall_forall. intros [[h p] w] [_ (tok & _ & Ht)%list_elem_of_omap]%list_elem_of_filter. by destruct (backend_entry_range _ _ _ _ Ht). }
  assert (zlen es <= MAX_BACKENDS) as Hl by (unfold es, zlen; rewrite length_take; change (room _) with 100%nat; unfold MAX_BACKENDS; lia).
  subst lb0. cbn [lb_backends with_backends app] in *. assert (0 <= zlen es) by apply zlen_nonneg.
  assert (zlen (map (fun e : bytes * Z * Z => fresh_backend e.2) es) = zlen es) as Ez by (unfold zlen; by rewrite length_map).
  assert (admitted (lb_backends lb)) as [Hn Hb].
  { eapply runs_admitted; [exact Hr|]. cbn [lb_backends with_backends app]. split; [lia|].
    apply balanced_start; intros b ([[h p] w] & -> & Hin)%list_elem_of_fmap; [|done].
    eapply list.Forall_forall in Hes; [|exact Hin]. cbn in Hes |- *. unfold MAX_BACKEND_WEIGHT in *. destruct (Z.gtb_spec w 0); lia. }
  split; [apply round_robin_int_eq, balanced_in_range; done|]. split; [lia|]. intros b Hin. pose proof (bl_weight _ _ Hb b Hin).
  split; [lia|]. pose proof (balanced_bound _ _ b Hb Hin) as Hbd. unfold scale, MAX_BACKEND_WEIGHT, MAX_BACKENDS in *. pose proof (zlen_nonneg (lb_backends lb)). nia.
Qed.

(** A list of backends, bracketed or not, with or without weights, adds in
    order exactly the backends it lists that resolve, as far as there is room,
    and answers their number. *)
Theorem backend_list_roundtrip resolve es lb :
  Forall entry_ok es ->
  let added := take (room lb) (filter (fun e => resolve e.1.1 e.1.2 = true) (map entry_value es)) in
  balancer_add_backends true resolve (join 44 (map entry_text es)) lb = (zlen added, with_backends added lb).
Proof. intros He. unfold balancer_add_backends. cbn [negb]. rewrite backends_loop_spec, listed_entries by done. done. Qed.

(** Loading a file of comments, blank lines and assignments, quoted or
    not, exported or not, adds its bindings to the environment: a variable that
    is set keeps its value, and of two lines for one name the first counts. *)
Theorem load_env_correct es e :
  Forall env_entry_ok es -> load_env (Some (env_file_text es)) e = (0, e ∪ list_to_map (omap binding es)).
Proof. intros He. cbn [load_env]. by rewrite env_loop_spec. Qed.

(** ** Rate limiting *)
(** C19: a request spends from its client's one bucket, a full one for a client
    that is not known; the buckets of all other clients are as they were, save
    that a new client whose window of sixteen slots is full takes the place of
    the one of them seen longest ago. *)
Theorem rate_limit_per_client g addr ts tbl ok retry tbl' :
  table_ok tbl -> addr_bytes addr <> [] -> 0 <= ts.1 -> 0 <= ts.2 -> allow_request g addr ts tbl = (ok, retry, tbl') ->
  let now := monotonic_seconds ts in let k := addr_bytes addr in
  table_ok tbl' /\
  (exists b b', (known tbl k b \/ b = fresh_bucket g addr now /\ forall x, ~ known tbl k x) /\ spend g now b = (ok, retry, b') /\ known tbl' k b') /\
  (forall k' b, k' <> k -> known tbl' k' b -> known tbl k' b) /\
  (forall k' b, k' <> k -> known tbl k' b -> known tbl' k' b \/
     (forall x, ~ known tbl k x) /\
     forall j, 0 <= j < 16 -> exists b', tbl !! slot (net_addr_hash addr) j = Some b' /\ b_used b' = true /\ dlt (b_last b') (b_last b) = false).
Proof. apply allow_request_spec. Qed.


(** ** Metrics *)
(** C22: after any requests the metrics page fits its buffer, each line of the
    histogram is the number of requests whose latency does not exceed its bound,
    the count is their number, and the table has the number of each method and
    status class. *)
Theorem metrics_page_correct obs start now active total received :
  zlen obs <= UINT64_MAX ->
  let m := record_all obs (metrics_init start) in
  metrics_page now active total received m = Some (concat (metrics_texts now m) ++ gauge_text active total received) /\
  (forall i b, BUCKET_BOUNDS !! i = Some b -> running 0 (g_bucket m) !! i = Some (count_if (fun o => dle (clamp_duration o.2) b) obs)) /\
  g_request_count m = zlen obs /\
  (forall i c, (i < 10)%nat -> (c < 6)%nat -> g_requests m !! i ≫= (fun row => row !! c) =
     Some (count_if (fun o => bool_decide (method_index o.1.1 = i) && bool_decide (status_class o.1.2 = c)) obs)).
Proof.
  intros Hn m. destruct (record_all_counted obs start Hn) as [H1 H2 H3 H4 H5]. fold m in H1, H2, H3, H4, H5.
  split; [apply metrics_page_fits, record_all_shape|]. split; [|done]. intros i b Hb. rewrite <- (H3 i b Hb).
  assert (i < 14)%nat as Hi by exact (lookup_lt_Some _ _ _ Hb). destruct (lookup_lt_is_Some_2 (g_bucket m) i) as [v Hv]; [lia|].
  rewrite (running_lookup (g_bucket m) 0 i v); [by rewrite Z.add_0_l| |exact Hv].
  intros j Hj. destruct (lookup_lt_is_Some_2 BUCKET_BOUNDS j) as [c Hc]; [exact (Nat.le_lt_trans _ _ _ Hj Hi)|].
  rewrite Z.add_0_l, (H3 j c Hc). pose proof (count_if_le (fun o : http_method * Z * double => dle (clamp_duration o.2) c) obs). lia.
Qed.

(** ** Instances *)
Definition demo_start : Z + bool * load_balancer :=
  balancer_main (fun _ => None) [str "codo-balancer"; str "8000"; str "10.0.0.1:80:3, [::1]:81,bad,10.0.0.2:0"] true true true true true
    (fun _ _ => true) ∅.
Definition demo_configured : load_balancer :=
  with_backends [(str "10.0.0.1", 80, 3); (str "::1", 81, 1)] (mkLb [] [] [] LB_STRATEGY_ROUND_ROBIN ∅ []).
Definition demo_accept : lb_event :=
  mkEvent IO_LISTEN 0 EPOLLIN (5, 0) RdAgain [] false (Some (mkAccepted (AF_INET [10; 0; 0; 9]) 4000 None true 0 [] true (Some 64) true)).

Lemma configured_round_robin_exact_witness :
  exists lb, lb_batch (fun _ => None) (fun _ => None) false [demo_accept] demo_configured = Some lb /\
    map current_weight (lb_backends lb) = [-1; 1] /\
    backend_round_robin_select_int 6 (lb_backends lb) = backend_round_robin_select 6 (lb_backends lb).
Proof.
  destruct (lb_batch (fun _ => None) (fun _ => None) false [demo_accept] demo_configured) as [lb|] eqn:E; [|vm_compute in E; discriminate E].
  exists lb. split; [reflexivity|]. split; [vm_compute in E; injection E as <-; reflexivity|].
  refine (proj1 (configured_round_robin_exact (fun _ => None) _ true true true true true (fun _ _ => true) ∅ false demo_configured (fun _ => None) (fun _ => None) lb 6 _ _)).
  - instantiate (1 := [str "codo-balancer"; str "8000"; str "10.0.0.1:80:3, [::1]:81,bad,10.0.0.2:0"]). vm_compute. reflexivity.
  - apply rtc_once. exists [demo_accept]. exact E.
Defined.

Definition demo_entries : list entry := [mkEntry [] false (str "10.0.0.1") 80 (Some 3); mkEntry [32] true (str "::1") 81 None].
Lemma demo_entries_ok : Forall entry_ok demo_entries.
Proof.
  constructor; [|constructor; [|constructor]]; (split; [by apply (bool_decide_unpack _)|]); (split; [by apply (bool_decide_unpack _)|]);
    (split; [cbn; lia|]); (split; [intros w [= <-]; unfold MAX_BACKEND_WEIGHT; lia || done|]); by apply (bool_decide_unpack _).
Qed.
Lemma backend_list_roundtrip_witness :
  balancer_add_backends true (fun _ _ => true) (str "10.0.0.1:80:3, [::1]:81") (mkLb [] [] [] LB_STRATEGY_ROUND_ROBIN ∅ []) = (2, demo_configured).
Proof. exact (backend_list_roundtrip (fun _ _ => true) demo_entries (mkLb [] [] [] LB_STRATEGY_ROUND_ROBIN ∅ []) demo_entries_ok). Defined.

Definition demo_lines : list env_entry :=
  [Comment [] (str " ports"); Assign [] false (str "PORT") [] [] None (str "9090"); Blanks [32];
   Assign [9] true (str "NAME") [32] [32] (Some 34) (str " a=b "); Assign [] false (str "PORT") [] [] None (str "1")].
Lemma demo_lines_ok : Forall env_entry_ok demo_lines.
Proof. repeat constructor; try (by apply (bool_decide_unpack _)); done. Qed.
Lemma load_env_correct_witness :
  exists e, load_env (Some (env_file_text demo_lines)) {[str "HOME" := str "/"]} = (0, e) /\
    env_int (str "PORT") 8080 e = 9090 /\ env_str (str "NAME") [] e = str " a=b " /\ env_str (str "HOME") [] e = str "/".
Proof.
  exists ({[str "HOME" := str "/"]} ∪ list_to_map (omap binding demo_lines)).
  split; [exact (load_env_correct demo_lines {[str "HOME" := str "/"]} demo_lines_ok)|]. split_and!; vm_compute; reflexivity.
Defined.

Definition demo_client : sockaddr := AF_INET [10; 0; 0; 7].
Definition demo_limits : environ := {[str "RATE_LIMIT_RPS" := str "1"; str "RATE_LIMIT_BURST" := str "2"]}.


Lemma rate_limit_per_client_witness :
  exists b, known (allow_request (rate_limit_init demo_limits) demo_client (5, 0) table_zero).2 (addr_bytes demo_client) b /\
    (allow_request (rate_limit_init demo_limits) demo_client (5, 0) table_zero).1.1 = true.
Proof.
  destruct (allow_request (rate_limit_init demo_limits) demo_client (5, 0) table_zero) as [[ok retry] tbl'] eqn:E. cbn [fst snd].
  destruct (rate_limit_per_client (rate_limit_init demo_limits) demo_client (5, 0) table_zero ok retry tbl' table_zero_ok) as (_ & (b & b' & _ & _ & H) & _);
    [discriminate|cbn; lia|cbn; lia|exact E|].
  exists b'. split; [exact H|]. assert ((allow_request (rate_limit_init demo_limits) demo_client (5, 0) table_zero).1.1 = true) as Ht by (vm_compute; reflexivity).
  rewrite E in Ht. exact Ht.
Defined.


Definition demo_requests : list (http_method * Z * double) :=
  [(HTTP_GET, 200, ddiv (of_int 3) (of_int 1000)); (HTTP_GET, 404, ddiv (of_int 2) (of_int 10)); (HTTP_POST, 201, of_int 20)].
Lemma metrics_page_correct_witness :
  exists page, metrics_page 9 1 2 3 (record_all demo_requests (metrics_init 5)) = Some page /\ zlen page < 8192 /\
    running 0 (g_bucket (record_all demo_requests (metrics_init 5))) !! 9%nat = Some 2.
Proof.
  destruct (metrics_page_correct demo_requests 5 9 1 2 3) as (H1 & H2 & _); [vm_compute; discriminate|].
  eexists. split; [exact H1|]. split; [vm_compute; reflexivity|]. exact (H2 9%nat _ eq_refl).
Defined.

(** A line longer than the buffer is read in pieces: what follows byte 1023
    counts as a line of its own. *)
Example env_long_line_splits :
  env_str (str "B") [] (load_env (Some (str "A=" ++ replicate 1021 120 ++ str "B=1")) ∅).2 = str "1".
Proof. vm_compute. reflexivity. Qed.
