(* ===== verification/SystemProps.v ===== *)
(** * The application as a whole: main theorems

    The claims about a request on its way from the router through the chain of
    middlewares to its handler, and about what it leaves in the shared state,
    each with an instance on the storage engine. *)
From Stdlib Require Import String.
From S2P Require Import TodoIndex KvEngine ServiceProps AppProps.
From S2P Require Import Prelude Text Json Lru Jwt TodoCache HttpTypes HttpText Connection HttpResponse Route Crypto Users Todos TodoProofs Selection Config RateLimit Metrics App AppProofs.

Local Open Scope Z_scope.

Section system.
Context (gzip : bytes -> option bytes) (server_name : bytes) (realloc_ok : Z -> bool).
Context (SHA1 : bytes -> bytes) (base64 : bytes -> option bytes).
Context (HMAC : bytes -> bytes -> option bytes) (PBKDF2 : bytes -> bytes -> Z -> Z -> option bytes).
Context (inet_ntop4 inet_ntop6 : bytes -> option bytes) (files : fs) (document_root : bytes).
Context {D : Type} `{KvStoreLaws D}.
Context (cfg : settings) (mem : list bool).

Abbreviation served := (serve gzip server_name realloc_ok SHA1 base64 HMAC PBKDF2 inet_ntop4 inet_ntop6 files document_root cfg).
Abbreviation handle := (call gzip server_name realloc_ok SHA1 base64 HMAC PBKDF2 files document_root cfg).
Abbreviation routes := (snd (api_mount (mem, []))).

(** C6: after any sequence of requests, whatever their methods, paths, headers
    and bodies, and whichever allocations, transactions, searches, deletions and
    scans fail on the way: the todos are stored as well-formed rows, no account is
    changed or removed, and the todos of a user are the same unless some request of
    the sequence carried a token that verifies to that user. What each request must
    not meet ([all_sound]) is an insertion that fails although its key is absent,
    which may tear the tree, an exhausted id counter, or memory handed out twice.
    When also nothing fails ([all_quiet], with realloc granting), index and cache,
    in step at first, are in step with the same todos afterwards. *)
Theorem user_todos_isolated l s T :
  (forall pw salt it n k, PBKDF2 pw salt it n = Some k -> Forall is_byte k /\ zlen k = n) ->
  app_stored s T ->
  all_sound gzip server_name realloc_ok SHA1 base64 HMAC PBKDF2 inet_ntop4 inet_ntop6 files document_root cfg mem s l ->
  let s' := serve_all gzip server_name realloc_ok SHA1 base64 HMAC PBKDF2 inet_ntop4 inet_ntop6 files document_root cfg mem s l in
  exists T', app_stored s' T' /\ accounts_stay s s' /\
    (forall uid, (forall an conn name, (an, conn) ∈ l -> ~ proves (an_now an) HMAC (set_secret cfg) (conn_request conn) uid name) ->
      forall id x, todo_owner x = uid -> T !! id = Some x <-> T' !! id = Some x) /\
    ((forall n, realloc_ok n = true) -> app_inv s T ->
     all_quiet gzip server_name realloc_ok SHA1 base64 HMAC PBKDF2 inet_ntop4 inet_ntop6 files document_root cfg mem s l -> app_inv s' T').
Proof using.
  intros Hk Hs Hl s'.
  destruct (serve_all_keeps gzip server_name realloc_ok SHA1 base64 HMAC PBKDF2 Hk inet_ntop4 inet_ntop6 files document_root cfg mem l s T Hs Hl) as (T' & Hs' & Ha & Ho).
  exists T'. split_and!; [exact Hs'|exact Ha|exact Ho|]. intros Hre Hi Hq.
  destruct (serve_all_in_step gzip server_name realloc_ok SHA1 base64 HMAC PBKDF2 Hk inet_ntop4 inet_ntop6 files document_root cfg mem l s T Hre Hi Hl Hq) as [T'' Hi'].
  by rewrite (app_stored_unique _ _ _ Hs' (app_inv_stored _ _ Hi')).
Qed.

(** C8: what a user is answered when reading, listing, changing or removing
    todos does not depend on the todos of anybody else: two states in step that
    agree on this user's todos (and on the limiter's table) give the same
    response, when realloc grants the memory and no call of the store fails on
    either. (Which calls fail may depend on what else is stored.) *)
Theorem todo_answers_private an conn s1 s2 T1 T2 uid name :
  let q := conn_request conn in
  (forall n, realloc_ok n = true) -> app_inv s1 T1 -> app_inv s2 T2 -> sound an q s1 -> sound an q s2 -> app_buckets s1 = app_buckets s2 ->
  reads_own (resolve_handler (req_uri q) (req_method q) routes default_file).1 = true ->
  proves (an_now an) HMAC (set_secret cfg) q uid name -> same_own uid T1 T2 ->
  quiet s1 (served an routes conn s1).2 -> quiet s2 (served an routes conn s2).2 ->
  (served an routes conn s1).1 = (served an routes conn s2).1.
Proof using.
  intros q Hre H1 H2 S1 S2 Hb He Hp Ho. unfold serve. fold q.
  destruct (resolve_handler (req_uri q) (req_method q) routes default_file) as [e off] eqn:Er. cbn [fst] in He. rewrite !chain_observes.
  destruct (inner_cases (D := D) gzip server_name HMAC cfg an conn (app_buckets s1)) as [(c & Ha & Hi)|(_ & r & Hi)]; cycle 1.
  { by rewrite !Hi by done. }
  rewrite !Hi by done. destruct (admitted_caller HMAC cfg mem _ _ _ _ _ _ Ha Er) as [Hu Hid]. fold q in Hid.
  destruct Hid as [n Hid]; [by destruct e|]. assert (auth_user_id c = uid) as Eu by (by eapply proves_unique).
  pose proof (ad_request _ _ _ _ _ _ Ha) as Hq. fold q in Hq.
  set (b := seen _ _ _ _).
  pose proof (call_private gzip server_name realloc_ok Hre SHA1 base64 HMAC PBKDF2 files document_root cfg an e c (set_buckets b s1) (set_buckets b s2) T1 T2) as Hc.
  destruct (handle an e c (set_buckets b s1)) as [r1 s1'], (handle an e c (set_buckets b s2)) as [r2 s2']. cbn [fst snd] in Hc |- *. intros Q1 Q2.
  apply Hc; try done; try (rewrite Eu; done).
  - destruct H1; by constructor.
  - destruct H2; by constructor.
  - rewrite Hq. by apply sound_buckets.
  - rewrite Hq. by apply sound_buckets.
  - by destruct r1 as [[rc1 c1]|].
  - by destruct r2 as [[rc2 c2]|].
Qed.

(** C7: with every route the program mounts, whatever [calloc] answered, a request
    either is refused, for one of four reasons (a preflight, no token left in its
    client's bucket, no configured API key where one is needed, no bearer token
    that verifies on a guarded path), and then its handler does not run; or it
    runs its route's handler, with the identity its token proves and with none
    on other paths. Handlers of one user's data are on guarded paths only, and
    handlers that block are offloaded. *)
Theorem requests_admitted an conn s :
  let q := conn_request conn in
  let '(e, offload) := resolve_handler (req_uri q) (req_method q) routes default_file in
  let s1 := set_buckets (seen cfg an q (app_buckets s)) s in
  let record r s' := match r with Some (_, c) => observe inet_ntop4 inet_ntop6 an c s' | None => s' end in
  (per_user e = true -> path_requires_jwt (req_uri q) = true) /\ (blocking e = true -> offload = true) /\
  ((~ refusal HMAC cfg an q (app_buckets s) /\ exists c, conn_request c = q /\
      (if path_requires_jwt (req_uri q) then exists name, proves (an_now an) HMAC (set_secret cfg) q (auth_user_id c) name else auth_user_id c = 0) /\
      served an routes conn s = let '(r, s') := handle an e c s1 in (r, record r s')) \/
   (refusal HMAC cfg an q (app_buckets s) /\ exists r, served an routes conn s = (Some r, record (Some r) s1))).
Proof using.
  intros q. pose proof (serve_cases gzip server_name realloc_ok SHA1 base64 HMAC PBKDF2 inet_ntop4 inet_ntop6 files document_root cfg mem an conn s) as Hc.
  cbv zeta in Hc. fold q in Hc. destruct (resolve_handler (req_uri q) (req_method q) routes default_file) as [e off] eqn:Er. cbn [fst] in Hc. cbv zeta.
  destruct (resolve_mounted _ _ _ _ _ Er) as [Hg Ho]. split; [done|]. split; [done|].
  destruct Hc as [(c & Ha & Hc)|(Hr & r & Hc)]; [left|right; split; [done|by exists r]].
  split; [by eapply admitted_not_refused|]. exists c. split; [apply Ha|]. split; [apply Ha|].
  destruct (handle an e c _) as [r s']. exact Hc.
Qed.

(** C23: a request that is answered, by its handler or by a refusal, leaves exactly
    one line in the log and is counted exactly once, under its method and the
    status it was answered with. The line ends at its only line break and holds
    no control byte, whatever the client asked for. *)
Theorem requests_observed an conn s rc c s' :
  (forall a t, inet_ntop4 a = Some t \/ inet_ntop6 a = Some t -> Forall visible t) ->
  served an routes conn s = (Some (rc, c), s') ->
  app_metrics s' = metrics_record_request (req_method (conn_request c)) (resp_status (conn_response c)) (elapsed_seconds (an_start an) (an_end an)) (app_metrics s) /\
  exists body, app_log s' = app_log s ++ [body ++ [10]] /\ Forall visible body.
Proof using.
  intros Hn Hs. destruct (log_line_visible inet_ntop4 inet_ntop6 an c Hn) as (body & Hl & Hv).
  pose proof (serve_cases gzip server_name realloc_ok SHA1 base64 HMAC PBKDF2 inet_ntop4 inet_ntop6 files document_root cfg mem an conn s) as Hc.
  cbv zeta in Hc. rewrite Hs in Hc. destruct Hc as [(c0 & _ & Hc)|(_ & r & Hc)].
  - pose proof (call_record gzip server_name realloc_ok SHA1 base64 HMAC PBKDF2 files document_root cfg an
      (resolve_handler (req_uri (conn_request conn)) (req_method (conn_request conn)) routes default_file).1 c0
      (set_buckets (seen cfg an (conn_request conn) (app_buckets s)) s)) as (M & _ & L).
    destruct (handle _ _ _ _) as [r s2]. cbn [snd] in M, L. apply pair_equal_spec in Hc as [<- ->]. unfold observe. cbn [app_metrics app_log add_log set_metrics].
    rewrite M, L, Hl. split; [done|]. by exists body.
  - apply pair_equal_spec in Hc as [Hr ->]. apply (inj Some) in Hr as <-. unfold observe. cbn [app_metrics app_log add_log set_metrics].
    rewrite Hl. split; [done|]. by exists body.
Qed.
End system.

(** C24: a start on a database of todos and accounts, whatever the state of its
    index. The server comes up with a positive token life, empty statistics, an
    empty limiter table and the signing secret that is configured or drawn,
    whichever calls of the store fail. Unless an insertion of the repair tears the
    store, exactly those todos and accounts are stored. When realloc grants the
    memory and no call of the store fails, the state is in step: index, cache
    (empty) and counters, which lie above every id in use and no higher than they
    were. A failed scan may leave a counter too low. *)
Theorem app_start_correct {D : Type} `{KvStoreLaws D} realloc_ok d T next unext cache_ok pool live random now e :
  let secret := env_str (str "JWT_SECRET") [] e in
  kv_ok d -> todo_repr (kv_abs d) T next false -> accounts_inv (kv_abs d) unext -> 0 < unext <= UINT64_MAX ->
  pool_inv pool live -> (jwt_init [] secret random).2 = 0 ->
  exists s ttl, api_init realloc_ok (Some d) cache_ok (Some pool) random now e = Some (s, ((jwt_init [] secret random).1, ttl)) /\
    0 < ttl /\ app_metrics s = metrics_init now /\ app_buckets s = table_zero /\ app_log s = [] /\ kv_le d (app_db s) /\
    (kv_torn d < kv_torn (app_db s) \/
     stored (app_todos s) T /\ forall name, account (kv_abs (app_db s)) name = account (kv_abs d) name) /\
    ((forall n, realloc_ok n = true) -> kv_faults d < kv_faults (app_db s) \/
     app_inv s T /\ app_next_todo s <= Z.max 1 next /\ app_next_user s <= unext).
Proof. apply api_init_spec. Qed.

(** ** Instances *)
Import RefStore.

Definition sys_settings : settings := mkSettings (str "*") (rate_limit_init ∅) [] (str "s") 3600.
Definition sys_answers : answers :=
  mkAnswers 1000 (7, 0) (7, 2500000) (7, 0) (7, 2500000) (5, 0) (AF_INET [10; 0; 0; 1]) None (Some 2, true) (fun _ => true) 0 0 0 (mkNetStats 0 0 0 0 0 0 0).
Definition sys_fs : fs := mkFs (fun _ => false) (fun _ => None) (fun _ => None).
Definition sys_ntop (a : bytes) : option bytes := Some (str "10.0.0.1").

(** A token of user 6, and its holder's request to remove todo 1 of user 5. *)
Definition sys_token : bytes := default [] (jwt_create (crypto_hmac_sha256 app_hmac) (str "s") 6 (str "bob") 900 3600 512).
Definition sys_conn (method : http_method) (uri : bytes) (headers : list http_header) : connection :=
  let c := app_conn 0 uri [] in
  mkConn CONN_STATE_PROCESSING false true [] CONN_READ_BUFFER_MIN false [] 0 0
    (set_req_method method (set_req_headers headers (conn_request c))) true response_zero true 0 [] false false (-1) 0 0 [].
Definition sys_delete : connection := sys_conn HTTP_DELETE (str "/api/todos/1") [mkHeader (str "Authorization") (str "Bearer " ++ sys_token)].
Definition sys_health : connection := sys_conn HTTP_GET (str "/healthz") [].

Definition sys_with (t : todos kv_db (option lru_cache)) : app kv_db :=
  set_todos t (mkApp demo_kv None 0 false (fresh_pool 64) 7 (metrics_init 0) table_zero []).
Definition sys_state : app kv_db := sys_with eng_todos.
Definition sys_empty : app kv_db := sys_with eng_start.
Abbreviation sys_serve := (serve no_gzip (str "codo") (fun _ => true) (fun m => m) (fun _ => None) app_hmac app_kdf sys_ntop sys_ntop sys_fs (str "/srv") sys_settings).

Lemma sys_no_users (l : list (bytes * bytes)) next :
  forallb (fun x : bytes * bytes => negb (starts_with USER_KEY_PREFIX x.1)) l = true -> accounts_inv (list_to_map l) next.
Proof.
  intros Hl. assert (forall name, (list_to_map l : gmap bytes bytes) !! user_key name = None) as Hn.
  { intros name. apply not_elem_of_list_to_map_1. intros ([k v] & E & Hin)%list_elem_of_fmap. cbn [fst] in E. subst k. rewrite forallb_forall in Hl.
    apply list_elem_of_In, Hl in Hin. cbn [fst] in Hin. by rewrite starts_with_user_key in Hin. }
  constructor; [intros name x Hx; rewrite Hn in Hx; done|]. intros n1 n2 u1 u2 Hu. unfold account in Hu. by rewrite Hn in Hu.
Qed.

Lemma sys_inv t T : service t T -> forallb (fun x : bytes * bytes => negb (starts_with USER_KEY_PREFIX x.1)) (map_to_list (kv_abs (td_db t))) = true -> app_inv (sys_with t) T.
Proof.
  intros Hs Hu. constructor; [by eapply service_same; [exact Hs|apply Hs|..]| |split; vm_compute; congruence|].
  - rewrite <- (list_to_map_to_list (kv_abs _)). by apply sys_no_users.
  - exists []. apply AppProps.app_pool.
Qed.
Lemma sys_state_inv : app_inv sys_state {[1 := app_milk]}.
Proof. apply sys_inv; [exact eng_todos_service|vm_compute; reflexivity]. Qed.
Lemma sys_empty_inv : app_inv sys_empty ∅.
Proof. apply sys_inv; [exact eng_start_service|vm_compute; reflexivity]. Qed.

Lemma sys_sound t T conn : service t T -> tc_fresh (Some 2, true) (td_cache t) -> next_todo_id t < UINT64_MAX ->
  req_body (conn_request conn) = Some [] -> sound sys_answers (conn_request conn) (sys_with t).
Proof.
  intros Hs Hf Hn Hb. constructor; [exact Hf|done|exact Hn|vm_compute; reflexivity|].
  intros b. rewrite Hb. intros [= <-]. constructor.
Qed.
Lemma sys_delete_sound : sound sys_answers (conn_request sys_delete) sys_state.
Proof. eapply sys_sound; [exact eng_todos_service|exact eng_fresh1|vm_compute; reflexivity|reflexivity]. Qed.
Lemma eng_fresh2 : tc_fresh (Some 2, true) (td_cache eng_start).
Proof. assert (td_cache eng_start = AppProps.app_cache) as -> by reflexivity. by intros p c [= <-] [= <-]. Qed.
Lemma sys_delete_sound_empty : sound sys_answers (conn_request sys_delete) sys_empty.
Proof. eapply sys_sound; [exact eng_start_service|exact eng_fresh2|vm_compute; reflexivity|reflexivity]. Qed.

Abbreviation sys_after := (serve_all no_gzip (str "codo") (fun _ => true) (fun m => m) (fun _ => None) app_hmac app_kdf sys_ntop sys_ntop sys_fs (str "/srv") sys_settings []).
Lemma sys_delete_quiet :
  quiet sys_state (sys_serve sys_answers (api_mount ([], [])).2 sys_delete sys_state).2 /\
  untorn sys_state (sys_serve sys_answers (api_mount ([], [])).2 sys_delete sys_state).2 /\
  quiet sys_empty (sys_serve sys_answers (api_mount ([], [])).2 sys_delete sys_empty).2.
Proof. vm_compute. split; [reflexivity|]. split; reflexivity. Qed.

Lemma sys_bob : proves 1000 app_hmac (str "s") (conn_request sys_delete) 6 (str "bob").
Proof. eexists _, _. split_and!; [vm_compute; reflexivity|vm_compute; reflexivity|vm_compute; reflexivity|done]. Qed.
Lemma sys_only_bob an conn name : (an, conn) ∈ [(sys_answers, sys_delete)] -> ~ proves (an_now an) app_hmac (str "s") (conn_request conn) 5 name.
Proof. intros [= -> ->]%list_elem_of_singleton Hp. by pose proof (proves_unique _ _ _ _ _ _ _ _ Hp sys_bob). Qed.

Lemma sys_granted : tc_granted (an_alloc sys_answers).
Proof. split; [by eexists|reflexivity]. Qed.

Lemma user_todos_isolated_witness : exists T',
  app_inv (sys_after sys_state [(sys_answers, sys_delete)]) T' /\ T' !! 1 = Some app_milk.
Proof.
  destruct sys_delete_quiet as (Hq & Ht & _).
  destruct (user_todos_isolated no_gzip (str "codo") (fun _ => true) (fun m => m) (fun _ => None) app_hmac app_kdf sys_ntop sys_ntop sys_fs (str "/srv")
    sys_settings [] [(sys_answers, sys_delete)] sys_state {[1 := app_milk]} app_kdf_key (app_inv_stored _ _ sys_state_inv) (conj sys_delete_sound (conj Ht I)))
    as (T' & _ & _ & Ho & Hi).
  exists T'. split.
  - exact (Hi (fun _ => eq_refl) sys_state_inv (conj sys_granted (conj Hq I))).
  - apply (Ho 5 sys_only_bob 1 app_milk eq_refl). apply lookup_singleton_eq.
Defined.

Lemma sys_same : same_own 6 {[1 := app_milk]} ∅.
Proof. intros id x Hx. rewrite lookup_empty. split; [|done]. intros [_ <-]%lookup_singleton_Some. done. Qed.

Lemma sys_buckets t : app_buckets (sys_with t) = table_zero.
Proof. reflexivity. Qed.
Lemma sys_same_buckets : app_buckets sys_state = app_buckets sys_empty.
Proof. unfold sys_state, sys_empty. by rewrite !sys_buckets. Qed.

Lemma todo_answers_private_witness :
  (sys_serve sys_answers (api_mount ([], [])).2 sys_delete sys_state).1 = (sys_serve sys_answers (api_mount ([], [])).2 sys_delete sys_empty).1.
Proof.
  apply (todo_answers_private no_gzip (str "codo") (fun _ => true) (fun m => m) (fun _ => None) app_hmac app_kdf sys_ntop sys_ntop sys_fs (str "/srv")
    sys_settings [] sys_answers sys_delete sys_state sys_empty {[1 := app_milk]} ∅ 6 (str "bob"));
    [reflexivity|exact sys_state_inv|exact sys_empty_inv|exact sys_delete_sound|exact sys_delete_sound_empty|exact sys_same_buckets|vm_compute; reflexivity|exact sys_bob|exact sys_same|exact (proj1 sys_delete_quiet)|exact (proj2 (proj2 sys_delete_quiet))].
Defined.

Lemma sys_answered : exists rc c s', sys_serve sys_answers (api_mount ([], [])).2 sys_health sys_state = (Some (rc, c), s').
Proof.
  destruct (sys_serve sys_answers (api_mount ([], [])).2 sys_health sys_state) as [[[rc c]|] s'] eqn:E; [by exists rc, c, s'|].
  assert (match (sys_serve sys_answers (api_mount ([], [])).2 sys_health sys_state).1 with Some _ => true | None => false end = true) as Ht by (vm_compute; reflexivity).
  by rewrite E in Ht.
Qed.
Lemma sys_ntop_visible a t : sys_ntop a = Some t \/ sys_ntop a = Some t -> Forall visible t.
Proof. intros [[= <-]|[= <-]]; by apply visible_str. Qed.

Lemma requests_observed_witness : exists rc c s' body, sys_serve sys_answers (api_mount ([], [])).2 sys_health sys_state = (Some (rc, c), s') /\
  app_log s' = [] ++ [body ++ [10]].
Proof.
  destruct sys_answered as (rc & c & s' & E).
  destruct (requests_observed no_gzip (str "codo") (fun _ => true) (fun m => m) (fun _ => None) app_hmac app_kdf sys_ntop sys_ntop sys_fs (str "/srv")
    sys_settings [] sys_answers sys_health sys_state rc c s' sys_ntop_visible E) as (_ & body & Hl & _).
  exists rc, c, s', body. split; [exact E|exact Hl].
Defined.

(** A new engine with one row and no entry for it. *)
Definition sys_unindexed : kv_db := demo_put (str "1") (row_text 1 app_milk) demo_kv.
Lemma sys_unindexed_ok : kv_ok sys_unindexed /\ kv_abs sys_unindexed = kv_abs app_unindexed.
Proof.
  destruct (demo_put_spec (str "1") (row_text 1 app_milk) demo_kv demo_kv_ok) as [H1 E1];
    [apply (row_storable 1), (tr_ok _ _ _ _ app_unindexed_rows); apply lookup_singleton_eq|done|vm_compute; reflexivity|].
  split; [exact H1|]. unfold sys_unindexed. rewrite E1. vm_compute. reflexivity.
Qed.
Lemma sys_unindexed_rows : todo_repr (kv_abs sys_unindexed) {[1 := app_milk]} 2 false.
Proof. rewrite (proj2 sys_unindexed_ok). exact app_unindexed_rows. Qed.
Lemma sys_unindexed_users : accounts_inv (kv_abs sys_unindexed) 1.
Proof. rewrite (proj2 sys_unindexed_ok). apply (sys_no_users app_unindexed). vm_compute. reflexivity. Qed.
Definition sys_start : option (app kv_db * (bytes * Z)) :=
  api_init (fun _ => true) (Some sys_unindexed) true (Some (fresh_pool 64)) (Some (replicate 32 1)) 0 ∅.
Lemma sys_start_quiet : (fun x => kv_faults (app_db x.1)) <$> sys_start = Some (kv_faults sys_unindexed).
Proof. vm_compute. reflexivity. Qed.

Lemma not_more (a b : Z) : a = b -> b < a -> False.
Proof. lia. Qed.

Lemma app_start_correct_witness : exists s ttl, sys_start = Some (s, (replicate 32 1, ttl)) /\ app_inv s {[1 := app_milk]}.
Proof.
  pose proof sys_start_quiet as Hq.
  destruct (app_start_correct (fun _ => true) sys_unindexed {[1 := app_milk]} 2 1 true (fresh_pool 64) [] (Some (replicate 32 1)) 0 ∅ (proj1 sys_unindexed_ok) sys_unindexed_rows
    sys_unindexed_users ltac:(split; vm_compute; congruence) (proj1 AppProps.app_pool) ltac:(vm_compute; reflexivity))
    as (s & ttl & E & _ & _ & _ & _ & _ & _ & Hs).
  exists s, ttl. split; [exact E|]. unfold sys_start in Hq. rewrite E in Hq. apply (inj Some) in Hq. cbn [fst] in Hq.
  destruct (Hs (fun _ => eq_refl)) as [Hc|[Hi _]]; [destruct (not_more _ _ Hq Hc)|exact Hi].
Defined.

(** User 6 asks for the removal of user 5's todo: 404, the row stays, and the log
    says so. *)
Example foreign_delete_refused :
  let '(r, s') := sys_serve sys_answers (api_mount ([], [])).2 sys_delete sys_state in
  (fun x => resp_status (conn_response x.2)) <$> r = Some HTTP_NOT_FOUND /\ kv_abs (app_db s') = kv_abs (app_db sys_state) /\
  app_log s' = [str "10.0.0.1 DELETE /api/todos/1 -> 404 (2.50 ms)" ++ [10]].
Proof. vm_compute. split; [reflexivity|]. split; reflexivity. Qed.
